(* ===== verification/_CoqProject ===== *)
-Q . S2P
Prelude.v
Internal.v
Mem.v
PosixTime.v
Cbs.v
Asn1.v
CbsTime.v
Cbb.v
CbbSpec.v
CbbAsn1.v
CbbProofs.v
CbbBuild.v
CbbRoundtrip.v
Unicode.v
Ber.v
BerSpec.v
BerProofs.v
Base64.v
Base64Stream.v
Poly1305.v
Poly1305Proofs.v
ChaCha.v
SipHash.v
Arrays.v
Rc4.v
Stack.v
StackSort.v
StackProofs.v
LHash.v
Refcount.v
Heap.v
Bio.v
BioRead.v
BioReadProofs.v
BioMem.v
BioMemProofs.v
BioPair.v
BioPairProofs.v
Err.v
ErrProofs.v
ErrSave.v
Md32.v
Md4.v
Md5.v
Sha1.v
Sha256.v
Digests.v
TlsCbc.v
TlsCbcDigest.v
Keccak.v
KeccakProofs.v
Kyber.v
KyberNtt.v
KyberRing.v
KyberCodec.v
KyberSample.v
KyberKem.v
KyberProofs.v
KyberArith.v
KyberKemProofs.v
KyberKeys.v
DtlsNumbers.v
DtlsBitmap.v
DtlsState.v
DtlsReceive.v
DtlsReceiveProofs.v
PolyStream.v
Aead.v
ChaChaPoly.v
SslAead.v
SslAeadProofs.v
DtlsRecord.v
DtlsRecordProofs.v
