(* ===== verification/Prelude.v ===== *)
(** * BoringSSL core components, verified

    BoringSSL is a library of cryptography and of the formats around it. This development models
    components of it that the rest of the library is built on, each translated function by function
    from the C++ source, and proves what each promises to its callers.

    ** The parts and how they interact

    Words and bytes. crypto/internal.h has constant-time masks, byte orders and rotations, and
    crypto/mem.cc comparison and strings; every other component uses them.

    Byte strings. A CBS reads a byte string (crypto/bytestring/cbs.cc), a CBB writes one (cbb.cc);
    both know ASN.1. ber.cc converts BER to DER with them, unicode.cc reads and writes characters,
    crypto/asn1/posix_time.cc has the calendar that the ASN.1 times are checked against, and
    crypto/base64/base64.cc the text form of binary data.

    Containers and services. Stacks, hash tables, reference counts, the error queue, and BIOs, which
    are streams of bytes: the layer of crypto/bio/bio.cc dispatches to memory BIOs and to BIO pairs,
    and BIO_read_asn1 reads a whole element through it.

    Symmetric cryptography. Poly1305, ChaCha20, SipHash and RC4; MD4, MD5, SHA-1, SHA-224 and SHA-256
    over one collector of blocks; Keccak; and the processing of decrypted TLS CBC records, which
    computes an HMAC over a record of secret length with SHA-1 or SHA-256.

    Post-quantum key encapsulation. Kyber768 samples with Keccak, computes with a number-theoretic
    transform, and reads and writes its keys with CBS and CBB.

    Authenticated encryption. crypto/cipher/e_chacha20poly1305.cc makes an AEAD of ChaCha20 and
    Poly1305, which the functions of crypto/fipsmodule/cipher/aead.cc.inc call through a method table.

    Datagram TLS. The transport of ssl/: ssl_aead_ctx.cc makes nonces and additional data for an AEAD,
    dtls_record.cc seals and opens records with it and keeps the replay window, and d1_both.cc
    reassembles handshake messages from fragments, reading them with CBS and writing headers with CBB.

    ** Files

    - [Prelude] (this file): machine integers, the two data models, byte strings, list lemmas, tactics
      and hint databases. [Arrays]: arrays updated by index and loops over them. [Heap]: blocks of
      memory and what the allocator promises.
    - [Internal], [Mem]: crypto/internal.h and crypto/mem.cc.
    - [PosixTime]: crypto/asn1/posix_time.cc.
    - [Cbs], [Asn1], [CbsTime]: cbs.cc, in its parts: plain reading, ASN.1, times.
    - [Cbb], [CbbAsn1]: cbb.cc and CBB_finish_i2d of asn1_compat.cc. [CbbSpec] is the contract of the
      writer, [CbbProofs] the ASN.1 writers against it, [CbbBuild] whole serialisations,
      [CbbRoundtrip] reading back what was written.
    - [Unicode], [Ber] with [BerSpec] and [BerProofs], [Base64] with [Base64Stream].
    - [Poly1305] with [Poly1305Proofs], [ChaCha], [SipHash], [Rc4].
    - [Stack] with [StackSort] and [StackProofs], [LHash], [Refcount].
    - [Bio], [BioRead] with [BioReadProofs], [BioMem] with [BioMemProofs], [BioPair] with
      [BioPairProofs]: crypto/bio/ and crypto/buf/buf.cc. [Err] with [ErrProofs] and [ErrSave]:
      crypto/err/err.cc.
    - [Md32], [Md4], [Md5], [Sha1], [Sha256], [Digests]: the digests. [TlsCbc], [TlsCbcDigest]:
      crypto/cipher/tls_cbc.cc.
    - [Keccak] with [KeccakProofs]: crypto/fipsmodule/keccak/.
    - [Kyber], [KyberKem]: crypto/kyber/kyber.cc. [KyberNtt] (reductions and the transform),
      [KyberRing] (the ring), [KyberCodec] (bit packing and compression), [KyberSample] (sampling),
      [KyberProofs] (the encryption scheme), [KyberArith], [KyberKemProofs] and [KyberKeys].
    - [PolyStream] (Poly1305 in several calls), [Aead] (the interface of AEADs and what its users rely
      on), [ChaChaPoly] (ChaCha20-Poly1305).
    - [SslAead] with [SslAeadProofs]: ssl/ssl_aead_ctx.cc. [DtlsRecord] with [DtlsRecordProofs]:
      ssl/dtls_record.cc.
    - [DtlsNumbers] (record numbers and the replay window of ssl/dtls_record.cc), [DtlsBitmap] (the
      bitmap of ssl/d1_both.cc), [DtlsState] (the connection, its timers and queues), [DtlsReceive]
      with [DtlsReceiveProofs] (receiving handshake messages).

    ** How the model corresponds to the code

    Definitions keep the names of the source. A w-bit integer is a [Z] with its wrap-around written
    out ([u8], [u16], [u32], [u64], [swrap]); size_t and crypto_word_t have the width of the class
    [Platform], 32 or 64 bits, and theorems hold for both. A byte string is a list of [Z], a pointer
    into it the rest of the list. A function that can fail returns what its C counterpart returns;
    [None] at the outermost option is undefined behaviour, an abort or a failed assertion, and
    theorems that give a result show that it does not occur. State that C keeps behind pointers that can alias (CBBs and
    their children, BIOs, the strings of the error queue) is an explicit store, a finite map from
    addresses; other structures are records passed and returned. The allocator, callbacks, the clock,
    random bytes and assembly routines are parameters. Loops whose bound is not a count take fuel; the
    fuel a definition passes is the length of the input or the size of the store, and the theorems,
    which state what the function returns, show it to be enough. Two loops have no such bound: the
    rejection sampling of Kyber, whose definitions take the number of SHAKE128 blocks as an argument
    and have no result when that is not enough, which is the only case they have none; and
    compare-and-swap loops under contention, which are a step relation. Interfaces between components
    are classes: [Platform], [Allocator] and [Malloc] for memory, [ByteSource] for what the readers of
    bio.cc need of a BIO, [Md32] for what the collector needs of a block function, [StreamHash] for
    what the record MAC needs of a hash, [AeadPair] for what TLS needs of an AEAD.

    ** What the theorems show

    - Parsing is exact: CBS ASN.1 elements and times, Unicode readers, base64, BIO_read_asn1, TLS
      padding and Kyber keys accept exactly the inputs of a declarative grammar or encoding, with the
      values they denote, and reject every other.
    - Writing is right: any well-nested program of CBB writes yields the encoding it describes or an
      error; BER conversion yields DER of the same value; what is written is read back (OIDs, base64
      streams, POSIX times, Kyber keys).
    - Containers and streams refine abstract data: stacks are lists, hash tables maps, memory BIOs and
      pairs byte queues, the error queue a bounded queue; reference counts are safe under every
      interleaving.
    - Cryptographic code computes what its specification says: the digests (RFC 1320, RFC 1321, FIPS
      180-4) and Keccak (FIPS 202) for any division of the input into calls, ChaCha20, Poly1305,
      SipHash, the CBC record MAC, and the arithmetic of Kyber (the transform against multiplication
      of polynomials, Barrett reduction and compression against rounding).
    - Kyber768 as a whole: a generated key is a key pair, decapsulation gives the encapsulated secret
      whenever the noise is below a quarter of the prime, and any other ciphertext gives the secret
      derived from the failure secret. The probability that the noise is small is not estimated.
    - ChaCha20-Poly1305 is the AEAD of RFC 8439: sealing gives its ciphertext and tag, and opening
      succeeds exactly for what has the right tag. What a TLS context seals, the context of the other
      end opens, for every cipher suite whose AEAD keeps the law [AeadPair].
    - DTLS: over a network that loses, duplicates and reorders packets, a record is delivered with its
      type, number and content exactly once, unless it is older than the replay window; records fill
      the path exactly. The bitmap of a message is a set of ranges, and from fragments that arrive in any order, repeated and overlapping, the messages are delivered
      whole, in order and once.
    - Where the code does not do what it says, a theorem states what it does: the lost carry of
      Poly1305, the stale sorted flag of a stack, the endless read of bio_read_all,
      the handshake fragment one flight ahead that ends a connection.

    ** Not modelled

    The ASN.1 template engine, X.509, the PKI library and EVP are graphs of objects and method tables;
    big numbers, elliptic curves, ciphers, random numbers and the FIPS module are assembly or lie in
    the module's generated translation unit; the command line tool, sockets, files and threads are
    system calls. Timing and memory erasure are not observable in the model: constant-time code is
    modelled for its results. Of the modelled files, printf-style formatting, ex_data, locale and
    tables of names are left out. *)
From stdpp Require Export base list numbers.
From Stdlib Require Export ZArith Lia Bool.

Global Open Scope Z_scope.

(** ** Machine integers *)

(** [wrap w x] is the value a [w]-bit unsigned object holds after [x] is stored in it. *)
Definition wrap (w x : Z) : Z := x mod 2 ^ w.

Abbreviation u8 := (wrap 8) (only parsing).
Abbreviation u16 := (wrap 16) (only parsing).
Abbreviation u32 := (wrap 32) (only parsing).
Abbreviation u64 := (wrap 64) (only parsing).

(** [swrap w x] is the two's complement value of a [w]-bit signed object that holds [x]'s low bits. *)
Definition swrap (w x : Z) : Z := (x + 2 ^ (w - 1)) mod 2 ^ w - 2 ^ (w - 1).

(** Bitwise complement at width [w] (the C operator [~] followed by the conversion to the type). *)
Definition wnot (w x : Z) : Z := wrap w (Z.lnot x).

(** C integer division and remainder truncate toward zero: [Z.quot] and [Z.rem]. *)
Notation "x /c y" := (Z.quot x y) (at level 40, left associativity) : Z_scope.
Notation "x %c y" := (Z.rem x y) (at level 40, left associativity) : Z_scope.

(** The two data models the library is built for: [size_t], [uintptr_t] and [crypto_word_t] have
    32 or 64 bits. *)
Class Platform := {
  size_bits : Z;
  size_bits_ok : size_bits = 32 \/ size_bits = 64;
}.

Definition LP64 : Platform := {| size_bits := 64; size_bits_ok := or_intror eq_refl |}.
Definition ILP32 : Platform := {| size_bits := 32; size_bits_ok := or_introl eq_refl |}.

Definition size_max `{Platform} : Z := 2 ^ size_bits - 1.

(** ** Bytes and byte strings *)

Definition is_byte (b : Z) : Prop := 0 <= b < 256.
Definition bytes (l : list Z) : Prop := Forall is_byte l.

(** The length of a list as a machine-sized quantity. *)
Definition len {A} (l : list A) : Z := Z.of_nat (length l).

(** Array read and write at a machine index; a read out of bounds is [None] (undefined behaviour). *)
Definition znth {A} (l : list A) (i : Z) : option A :=
  if i <? 0 then None else l !! Z.to_nat i.
Definition zupd {A} (l : list A) (i : Z) (x : A) : list A :=
  if i <? 0 then l else <[Z.to_nat i := x]> l.
Definition ztake {A} (n : Z) (l : list A) : list A := take (Z.to_nat n) l.
Definition zdrop {A} (n : Z) (l : list A) : list A := drop (Z.to_nat n) l.

Definition b2z (b : bool) : Z := if b then 1 else 0.

(** Big- and little-endian value of a byte string, and the encodings of a number on [n] bytes. *)
Definition be_val (l : list Z) : Z := fold_left (fun acc b => acc * 256 + b) l 0.
Fixpoint le_val (l : list Z) : Z :=
  match l with [] => 0 | b :: t => b + 256 * le_val t end.
Fixpoint le_bytes (n : nat) (v : Z) : list Z :=
  match n with O => [] | S n => v mod 256 :: le_bytes n (v / 256) end.
Definition be_bytes (n : nat) (v : Z) : list Z := reverse (le_bytes n v).

(** [forall_from P lo n]: [P] holds on the [n] integers from [lo]. *)
Fixpoint forall_from (P : Z -> bool) (lo : Z) (n : nat) : bool :=
  match n with O => true | S n => P lo && forall_from P (lo + 1) n end.

(** ** Hint databases and tactics *)

Create HintDb words discriminated.
Create HintDb zlist.

Lemma wrap_range w x : 0 <= w -> 0 <= wrap w x < 2 ^ w.
Proof. intros. apply Z.mod_pos_bound. lia. Qed.

Lemma wrap_small w x : 0 <= x < 2 ^ w -> wrap w x = x.
Proof. apply Z.mod_small. Qed.

Lemma wrap_wrap w x : wrap w (wrap w x) = wrap w x.
Proof. unfold wrap. destruct (Z.eq_dec (2 ^ w) 0) as [->|]; [by rewrite !Z.mod_0_r|]. by apply Z.mod_mod. Qed.

Lemma wrap_wrap_le w v x : 0 <= w <= v -> wrap w (wrap v x) = wrap w x.
Proof.
  intros. unfold wrap. replace v with (w + (v - w)) by lia.
  rewrite Z.pow_add_r by lia. rewrite Z.rem_mul_r by lia.
  rewrite (Z.mul_comm (2 ^ w)), Z.mod_add by lia. apply Z.mod_mod. lia.
Qed.

Lemma wrap_add_l w x y : wrap w (wrap w x + y) = wrap w (x + y).
Proof. apply Zplus_mod_idemp_l. Qed.
Lemma wrap_add_r w x y : wrap w (x + wrap w y) = wrap w (x + y).
Proof. apply Zplus_mod_idemp_r. Qed.
Lemma wrap_sub_l w x y : wrap w (wrap w x - y) = wrap w (x - y).
Proof. apply Zminus_mod_idemp_l. Qed.
Lemma wrap_sub_r w x y : wrap w (x - wrap w y) = wrap w (x - y).
Proof. apply Zminus_mod_idemp_r. Qed.

Lemma wrap_testbit w x i :
  0 <= w -> Z.testbit (wrap w x) i = (i <? w) && Z.testbit x i.
Proof.
  intros. unfold wrap. destruct (Z.ltb_spec i w).
  - destruct (Z.lt_ge_cases i 0); [by rewrite !Z.testbit_neg_r by lia|].
    by rewrite Z.mod_pow2_bits_low by lia.
  - by rewrite Z.mod_pow2_bits_high by lia.
Qed.

Lemma wnot_testbit w x i :
  0 <= w -> 0 <= i -> Z.testbit (wnot w x) i = (i <? w) && negb (Z.testbit x i).
Proof. intros. unfold wnot. by rewrite wrap_testbit, Z.lnot_spec. Qed.

Lemma testbit_small w x i : 0 <= x < 2 ^ w -> w <= i -> Z.testbit x i = false.
Proof.
  intros Hx Hi. destruct (Z.lt_ge_cases w 0); [rewrite Z.pow_neg_r in Hx by lia; lia|].
  rewrite <- (Z.mod_small x (2 ^ w)) by done. by apply Z.mod_pow2_bits_high.
Qed.

Lemma range_of_bits w x :
  0 <= w -> (forall i, w <= i -> Z.testbit x i = false) -> 0 <= x < 2 ^ w.
Proof.
  intros Hw Hx. assert (x mod 2 ^ w = x) as <-; [|apply Z.mod_pos_bound; lia].
  apply Z.bits_inj'. intros i Hi. destruct (Z.lt_ge_cases i w).
  - by rewrite Z.mod_pow2_bits_low by lia.
  - by rewrite Z.mod_pow2_bits_high, Hx by lia.
Qed.

Lemma lor_range w a b : 0 <= w -> 0 <= a < 2 ^ w -> 0 <= b < 2 ^ w -> 0 <= Z.lor a b < 2 ^ w.
Proof.
  intros Hw Ha Hb. apply range_of_bits; [done|]. intros i Hi.
  by rewrite Z.lor_spec, (testbit_small w a), (testbit_small w b).
Qed.

Lemma land_range w a b : 0 <= w -> 0 <= a < 2 ^ w -> 0 <= Z.land a b < 2 ^ w.
Proof.
  intros Hw Ha. apply range_of_bits; [done|]. intros i Hi.
  by rewrite Z.land_spec, (testbit_small w a).
Qed.

Lemma lxor_range w a b : 0 <= w -> 0 <= a < 2 ^ w -> 0 <= b < 2 ^ w -> 0 <= Z.lxor a b < 2 ^ w.
Proof.
  intros Hw Ha Hb. apply range_of_bits; [done|]. intros i Hi.
  by rewrite Z.lxor_spec, (testbit_small w a), (testbit_small w b).
Qed.

(** Disjoint bit fields: an OR with a shifted word is an addition. *)
Lemma lor_shiftl_add a b n : 0 <= n -> 0 <= b < 2 ^ n -> Z.lor (Z.shiftl a n) b = a * 2 ^ n + b.
Proof.
  intros Hn Hb. rewrite <- Z.shiftl_mul_pow2 by lia.
  rewrite Z.add_nocarry_lxor, Z.lxor_lor; try done;
    apply Z.bits_inj'; intros i Hi; rewrite Z.land_spec, Z.shiftl_spec, Z.bits_0 by lia;
    (destruct (Z.lt_ge_cases i n); [by rewrite Z.testbit_neg_r by lia | by rewrite (testbit_small n b), andb_false_r by lia]).
Qed.

Lemma lor_add_shiftl a b n : 0 <= n -> 0 <= b < 2 ^ n -> Z.lor b (Z.shiftl a n) = a * 2 ^ n + b.
Proof. rewrite Z.lor_comm. apply lor_shiftl_add. Qed.

Lemma be_val_acc l acc : fold_left (fun acc b => acc * 256 + b) l acc = acc * 256 ^ len l + be_val l.
Proof.
  unfold be_val, len. revert acc. induction l as [|b l IH]; intros acc; [simpl; lia|].
  cbn [fold_left length]. rewrite IH, (IH (0 * 256 + b)), Nat2Z.inj_succ, Z.pow_succ_r by lia. lia.
Qed.

(** ** Lists indexed by machine integers *)

Lemma len_nil {A} : len (@nil A) = 0.
Proof. done. Qed.
Lemma len_cons {A} (x : A) l : len (x :: l) = len l + 1.
Proof. unfold len. cbn [length]. lia. Qed.
Lemma len_app {A} (l k : list A) : len (l ++ k) = len l + len k.
Proof. unfold len. rewrite length_app. lia. Qed.
Lemma len_nonneg {A} (l : list A) : 0 <= len l.
Proof. unfold len. lia. Qed.
Lemma len_reverse {A} (l : list A) : len (reverse l) = len l.
Proof. unfold len. by rewrite length_reverse. Qed.
Lemma len_ztake {A} n (l : list A) : 0 <= n <= len l -> len (ztake n l) = n.
Proof. unfold len, ztake. rewrite length_take. lia. Qed.
Lemma len_zdrop {A} n (l : list A) : 0 <= n <= len l -> len (zdrop n l) = len l - n.
Proof. unfold len, zdrop. rewrite length_drop. lia. Qed.
Lemma len_zupd {A} (l : list A) i x : len (zupd l i x) = len l.
Proof. unfold len, zupd. destruct (i <? 0); [done|]. by rewrite length_insert. Qed.
Lemma len_replicate {A} n (x : A) : len (replicate n x) = Z.of_nat n.
Proof. unfold len. by rewrite length_replicate. Qed.
Lemma len_0_nil {A} (l : list A) : len l = 0 -> l = [].
Proof. destruct l; [done|]. rewrite len_cons. pose proof (len_nonneg l). lia. Qed.

#[export] Hint Rewrite @len_nil @len_cons @len_app @len_reverse @len_zupd @len_replicate : zlist.
#[export] Hint Resolve len_nonneg : zlist.

(** [zlia] decides linear goals over list lengths. *)
Ltac zlen_facts :=
  repeat match goal with
  | |- context [len ?l] =>
      lazymatch goal with H : 0 <= len l |- _ => fail | _ => pose proof (len_nonneg l) end
  | _ : context [len ?l] |- _ =>
      lazymatch goal with H : 0 <= len l |- _ => fail | _ => pose proof (len_nonneg l) end
  end.
Ltac zlia := autorewrite with zlist in *; zlen_facts; lia.

Lemma ztake_zdrop {A} n (l : list A) : ztake n l ++ zdrop n l = l.
Proof. apply take_drop. Qed.
Lemma ztake_app_len {A} (l k : list A) : ztake (len l) (l ++ k) = l.
Proof. unfold ztake, len. by rewrite Nat2Z.id, take_app_length. Qed.
Lemma zdrop_app_len {A} (l k : list A) : zdrop (len l) (l ++ k) = k.
Proof. unfold zdrop, len. by rewrite Nat2Z.id, drop_app_length. Qed.
Lemma ztake_app_eq {A} n (l k : list A) : n = len l -> ztake n (l ++ k) = l.
Proof. intros ->. apply ztake_app_len. Qed.
Lemma zdrop_app_eq {A} n (l k : list A) : n = len l -> zdrop n (l ++ k) = k.
Proof. intros ->. apply zdrop_app_len. Qed.
Lemma ztake_all {A} (l : list A) : ztake (len l) l = l.
Proof. unfold ztake, len. rewrite Nat2Z.id. by apply take_ge. Qed.
Lemma zdrop_all {A} (l : list A) : zdrop (len l) l = [].
Proof. unfold zdrop, len. rewrite Nat2Z.id. by apply drop_ge. Qed.
Lemma zdrop_0 {A} (l : list A) : zdrop 0 l = l.
Proof. done. Qed.
Lemma ztake_0 {A} (l : list A) : ztake 0 l = [].
Proof. done. Qed.
Lemma zdrop_zdrop {A} n m (l : list A) : 0 <= n -> 0 <= m -> zdrop n (zdrop m l) = zdrop (m + n) l.
Proof. intros. unfold zdrop. rewrite drop_drop. f_equal. lia. Qed.

Lemma ztake_app_add {T} (h d : list T) n : 0 <= n -> ztake (len h + n) (h ++ d) = h ++ ztake n d.
Proof. intros Hn. unfold ztake, len. rewrite Z2Nat.inj_add, Nat2Z.id by lia. apply take_app_add. Qed.
Lemma zdrop_app_add {T} (h d : list T) n : 0 <= n -> zdrop (len h + n) (h ++ d) = zdrop n d.
Proof. intros Hn. unfold zdrop, len. rewrite Z2Nat.inj_add, Nat2Z.id by lia. apply drop_app_add. Qed.

Lemma znth_ok {A} (l : list A) i : 0 <= i < len l -> exists x, znth l i = Some x.
Proof.
  intros Hi. unfold znth. rewrite (proj2 (Z.ltb_ge _ _)) by lia. apply lookup_lt_is_Some_2. unfold len in Hi. lia.
Qed.

Lemma znth_zupd {A} (l : list A) i k (x : A) : 0 <= i < len l -> 0 <= k ->
  znth (zupd l i x) k = if k =? i then Some x else znth l k.
Proof.
  intros Hi Hk. unfold znth, zupd. rewrite !(proj2 (Z.ltb_ge _ _)) by lia. destruct (Z.eqb_spec k i) as [->|Hne].
  - apply list_lookup_insert_eq. unfold len in Hi. lia.
  - apply list_lookup_insert_ne. lia.
Qed.

#[export] Hint Rewrite @ztake_app_len @zdrop_app_len @ztake_all @zdrop_all @zdrop_0 @ztake_0 : zlist.

(** ** Byte strings *)

Lemma bytes_nil : bytes [].
Proof. constructor. Qed.
Lemma bytes_cons b l : bytes (b :: l) <-> is_byte b /\ bytes l.
Proof. apply Forall_cons_iff. Qed.
Lemma bytes_app l k : bytes (l ++ k) <-> bytes l /\ bytes k.
Proof. apply Forall_app. Qed.
Lemma bytes_reverse l : bytes (reverse l) <-> bytes l.
Proof. unfold bytes. by rewrite Forall_reverse. Qed.
Lemma bytes_ztake n l : bytes l -> bytes (ztake n l).
Proof. apply Forall_take. Qed.
Lemma bytes_zdrop n l : bytes l -> bytes (zdrop n l).
Proof. apply Forall_drop. Qed.

#[export] Hint Resolve bytes_nil bytes_ztake bytes_zdrop : words.

(** A boolean property of every value of an interval, decided by evaluation. *)
Lemma forall_from_spec P lo n x :
  forall_from P lo n = true -> lo <= x < lo + Z.of_nat n -> P x = true.
Proof.
  revert lo. induction n as [|n IH]; intros lo HP Hx; [lia|].
  cbn in HP. apply andb_true_iff in HP as [H0 HP].
  destruct (Z.eq_dec x lo) as [->|]; [done|]. apply (IH (lo + 1) HP). lia.
Qed.

Lemma byte_forallb (P : Z -> bool) b : forall_from P 0 256 = true -> is_byte b -> P b = true.
Proof. intros HP Hb. by apply (forall_from_spec P 0 256). Qed.

(** ** Endian conversions *)

Lemma be_val_cons b l : be_val (b :: l) = b * 256 ^ len l + be_val l.
Proof. unfold be_val at 1. cbn [fold_left]. by rewrite be_val_acc, Z.add_0_l. Qed.

Lemma be_val_app l k : be_val (l ++ k) = be_val l * 256 ^ len k + be_val k.
Proof. unfold be_val at 1. by rewrite fold_left_app, be_val_acc. Qed.

Lemma be_val_reverse l : be_val (reverse l) = le_val l.
Proof.
  induction l as [|b l IH]; [done|].
  rewrite reverse_cons, be_val_app, IH. change (be_val [b]) with b.
  change (256 ^ len [b]) with 256. cbn [le_val]. lia.
Qed.

Lemma le_val_range l : bytes l -> 0 <= le_val l < 256 ^ len l.
Proof.
  induction 1 as [|b l Hb _ IH]; [done|].
  rewrite len_cons, Z.pow_add_r by zlia. cbn [le_val]. unfold is_byte in Hb. lia.
Qed.

Lemma be_val_range l : bytes l -> 0 <= be_val l < 256 ^ len l.
Proof.
  intros Hl. rewrite <- (reverse_involutive l), be_val_reverse, len_reverse.
  by apply le_val_range, bytes_reverse.
Qed.

Lemma le_val_app l k : le_val (l ++ k) = le_val l + 256 ^ len l * le_val k.
Proof.
  induction l as [|b l IH]; [change (256 ^ len (@nil Z)) with 1; cbn [app le_val]; lia|].
  cbn [app le_val]. rewrite IH, len_cons, Z.pow_add_r by zlia. lia.
Qed.

Lemma length_le_bytes n v : length (le_bytes n v) = n.
Proof. revert v. induction n; intros; cbn; [done|]. by f_equal. Qed.
Lemma length_be_bytes n v : length (be_bytes n v) = n.
Proof. unfold be_bytes. by rewrite length_reverse, length_le_bytes. Qed.
Lemma len_be_bytes n v : len (be_bytes n v) = Z.of_nat n.
Proof. unfold len. by rewrite length_be_bytes. Qed.
Lemma len_le_bytes n v : len (le_bytes n v) = Z.of_nat n.
Proof. unfold len. by rewrite length_le_bytes. Qed.

Lemma bytes_le_bytes n v : bytes (le_bytes n v).
Proof.
  revert v. induction n as [|n IH]; intros v; [constructor|]. cbn. constructor; [|apply IH].
  apply Z.mod_pos_bound. lia.
Qed.
Lemma bytes_be_bytes n v : bytes (be_bytes n v).
Proof. apply bytes_reverse, bytes_le_bytes. Qed.

Lemma le_val_le_bytes n v : le_val (le_bytes n v) = v mod 256 ^ Z.of_nat n.
Proof.
  revert v. induction n as [|n IH]; intros v; [cbn; by rewrite Z.mod_1_r|].
  cbn [le_bytes le_val]. rewrite IH, Nat2Z.inj_succ, Z.pow_succ_r by lia.
  rewrite Z.rem_mul_r by lia. done.
Qed.

Lemma be_val_be_bytes n v : be_val (be_bytes n v) = v mod 256 ^ Z.of_nat n.
Proof. unfold be_bytes. by rewrite be_val_reverse, le_val_le_bytes. Qed.

Lemma le_bytes_le_val l : bytes l -> le_bytes (length l) (le_val l) = l.
Proof.
  induction 1 as [|b l Hb _ IH]; [done|]. cbn [length le_bytes le_val]. unfold is_byte in Hb.
  rewrite (Z.mul_comm 256), Z.mod_add, Z.mod_small by lia.
  rewrite Z.div_add, Z.div_small by lia. by rewrite Z.add_0_l, IH.
Qed.

Lemma be_bytes_be_val l : bytes l -> be_bytes (length l) (be_val l) = l.
Proof.
  intros Hl. unfold be_bytes. rewrite <- (reverse_involutive l) at 2 3.
  rewrite be_val_reverse, <- (length_reverse l), le_bytes_le_val by by apply bytes_reverse.
  by rewrite reverse_involutive.
Qed.

Lemma be_val_inj l k : bytes l -> bytes k -> length l = length k -> be_val l = be_val k -> l = k.
Proof.
  intros Hl Hk Hlen Hv.
  by rewrite <- (be_bytes_be_val l), <- (be_bytes_be_val k), Hlen, Hv.
Qed.

#[export] Hint Resolve bytes_le_bytes bytes_be_bytes : words.
#[export] Hint Rewrite len_be_bytes len_le_bytes be_val_be_bytes le_val_le_bytes : zlist.

(** ** Bit-level automation *)

(** The top bit of a [w]-bit word. *)
Lemma testbit_top w x : 0 < w -> 0 <= x < 2 ^ w -> Z.testbit x (w - 1) = (2 ^ (w - 1) <=? x).
Proof.
  intros Hw Hx.
  assert (H2 : 2 ^ w = 2 * 2 ^ (w - 1)) by (rewrite <- Z.pow_succ_r by lia; f_equal; lia).
  destruct (Z.leb_spec (2 ^ (w - 1)) x).
  - apply Z.testbit_true; [lia|]. by rewrite <- (Z.div_unique x (2 ^ (w - 1)) 1 (x - 2 ^ (w - 1))) by lia.
  - apply (testbit_small (w - 1)); lia.
Qed.

Lemma byte_wrap8 x : is_byte (wrap 8 x).
Proof. unfold is_byte. apply (wrap_range 8). lia. Qed.
#[export] Hint Resolve byte_wrap8 : words.

(** [bits_to_arith] rewrites shifts by constants and masks with low ones as arithmetic. *)
Ltac bits_to_arith :=
  repeat match goal with
  | |- context [Z.shiftl ?a ?n] => rewrite (Z.shiftl_mul_pow2 a n) by lia
  | |- context [Z.shiftr ?a ?n] => rewrite (Z.shiftr_div_pow2 a n) by lia
  | |- context [Z.land ?a ?m] =>
      let k := eval vm_compute in (Z.log2 (m + 1)) in
      let ok := eval vm_compute in (Z.eqb (2 ^ k) (m + 1)) in
      lazymatch ok with
      | true => change (Z.land a m) with (Z.land a (Z.ones k)); rewrite (Z.land_ones a k) by lia
      end
  end.

(** Case split on the boolean comparisons of the goal. *)
Ltac zcases :=
  repeat match goal with
  | |- context [?a <? ?b] => destruct (Z.ltb_spec a b)
  | |- context [?a <=? ?b] => destruct (Z.leb_spec a b)
  | |- context [?a =? ?b] => destruct (Z.eqb_spec a b)
  end.
Ltac zcases_in H :=
  repeat match type of H with
  | context [?a <? ?b] => destruct (Z.ltb_spec a b)
  | context [?a <=? ?b] => destruct (Z.leb_spec a b)
  | context [?a =? ?b] => destruct (Z.eqb_spec a b)
  end.

(** Case analysis on the word size of the platform. *)
Ltac platform :=
  let H := fresh "Hsz" in
  destruct size_bits_ok as [H|H];
  repeat match goal with
  | |- context [size_bits] => rewrite H
  | X : context [size_bits] |- _ => lazymatch X with H => fail | _ => rewrite H in X end
  end.

(** Bitwise operations act on the low and high parts of a word separately. *)
Lemma split_testbit n a0 a1 i :
  0 <= n -> 0 <= a0 < 2 ^ n -> 0 <= i ->
  Z.testbit (a0 + 2 ^ n * a1) i = if i <? n then Z.testbit a0 i else Z.testbit a1 (i - n).
Proof.
  intros Hn Ha Hi. rewrite Z.add_comm, Z.mul_comm, <- lor_shiftl_add by lia.
  rewrite Z.lor_spec, Z.shiftl_spec by lia. destruct (Z.ltb_spec i n).
  - by rewrite Z.testbit_neg_r by lia.
  - by rewrite (testbit_small n a0), orb_false_r by lia.
Qed.

Lemma land_split n a0 a1 b0 b1 :
  0 <= n -> 0 <= a0 < 2 ^ n -> 0 <= b0 < 2 ^ n ->
  Z.land (a0 + 2 ^ n * a1) (b0 + 2 ^ n * b1) = Z.land a0 b0 + 2 ^ n * Z.land a1 b1.
Proof.
  intros Hn Ha Hb. apply Z.bits_inj'. intros i Hi.
  rewrite Z.land_spec, !split_testbit, ?Z.land_spec by (try apply land_range; lia). by destruct (i <? n).
Qed.

Lemma lor_split n a0 a1 b0 b1 :
  0 <= n -> 0 <= a0 < 2 ^ n -> 0 <= b0 < 2 ^ n ->
  Z.lor (a0 + 2 ^ n * a1) (b0 + 2 ^ n * b1) = Z.lor a0 b0 + 2 ^ n * Z.lor a1 b1.
Proof.
  intros Hn Ha Hb. apply Z.bits_inj'. intros i Hi.
  rewrite Z.lor_spec, !split_testbit, ?Z.lor_spec by (try apply lor_range; lia). by destruct (i <? n).
Qed.

Lemma lxor_split n a0 a1 b0 b1 :
  0 <= n -> 0 <= a0 < 2 ^ n -> 0 <= b0 < 2 ^ n ->
  Z.lxor (a0 + 2 ^ n * a1) (b0 + 2 ^ n * b1) = Z.lxor a0 b0 + 2 ^ n * Z.lxor a1 b1.
Proof.
  intros Hn Ha Hb. apply Z.bits_inj'. intros i Hi.
  rewrite Z.lxor_spec, !split_testbit, ?Z.lxor_spec by (try apply lxor_range; lia). by destruct (i <? n).
Qed.

Lemma split_mod n a0 a1 : 0 <= n -> 0 <= a0 < 2 ^ n -> (a0 + 2 ^ n * a1) mod 2 ^ n = a0.
Proof. intros. rewrite Z.mul_comm, Z.mod_add by lia. by apply Z.mod_small. Qed.

Lemma split_div n a0 a1 : 0 <= n -> 0 <= a0 < 2 ^ n -> (a0 + 2 ^ n * a1) / 2 ^ n = a1.
Proof. intros. rewrite Z.mul_comm, Z.div_add, Z.div_small by lia. lia. Qed.
