(* ===== verification/Internal.v ===== *)
(** crypto/internal.h: the constant-time selectors, byte-order conversions, bit rotations, and
    carrying additions that the rest of the library is written with. [crypto_word_t] has the
    platform's word size; every result is written at its C width. *)
From S2P Require Import Prelude.

Section Words.
Context {P : Platform}.

(** *** Constant-time utility functions *)

Definition CONSTTIME_TRUE_W : Z := wnot size_bits 0.
Definition CONSTTIME_FALSE_W : Z := 0.
Definition CONSTTIME_TRUE_8 : Z := 255.
Definition CONSTTIME_FALSE_8 : Z := 0.

(** The barriers are the identity: they only constrain the compiler. *)
Definition value_barrier_w (a : Z) : Z := a.
Definition value_barrier_u32 (a : Z) : Z := a.
Definition value_barrier_u64 (a : Z) : Z := a.

Definition constant_time_msb_w (a : Z) : Z :=
  wrap size_bits (0 - Z.shiftr a (size_bits - 1)).

Definition constant_time_lt_w (a b : Z) : Z :=
  constant_time_msb_w (Z.lxor a (Z.lor (Z.lxor a b) (Z.lxor (wrap size_bits (a - b)) a))).

Definition constant_time_lt_8 (a b : Z) : Z := u8 (constant_time_lt_w a b).

Definition constant_time_ge_w (a b : Z) : Z := wnot size_bits (constant_time_lt_w a b).

Definition constant_time_ge_8 (a b : Z) : Z := u8 (constant_time_ge_w a b).

Definition constant_time_is_zero_w (a : Z) : Z :=
  constant_time_msb_w (Z.land (wnot size_bits a) (wrap size_bits (a - 1))).

Definition constant_time_is_zero_8 (a : Z) : Z := u8 (constant_time_is_zero_w a).

Definition constant_time_eq_w (a b : Z) : Z := constant_time_is_zero_w (Z.lxor a b).

Definition constant_time_eq_8 (a b : Z) : Z := u8 (constant_time_eq_w a b).

Definition constant_time_eq_int (a b : Z) : Z :=
  constant_time_eq_w (wrap size_bits a) (wrap size_bits b).

Definition constant_time_eq_int_8 (a b : Z) : Z :=
  constant_time_eq_8 (wrap size_bits a) (wrap size_bits b).

Definition constant_time_select_w (mask a b : Z) : Z :=
  let mask := value_barrier_w mask in
  Z.lor (Z.land mask a) (Z.land (wnot size_bits mask) b).

(** [~m] is computed on [int] after promotion, hence the unbounded complement. *)
Definition constant_time_select_8 (mask a b : Z) : Z :=
  let m := u8 (value_barrier_w mask) in
  u8 (Z.lor (Z.land m a) (Z.land (Z.lnot m) b)).

Definition constant_time_select_int (mask a b : Z) : Z :=
  swrap 32 (constant_time_select_w mask (wrap size_bits a) (wrap size_bits b)).

(** [dst] and [src] are the [n]-byte regions; the loop overwrites [dst] byte by byte. *)
Definition constant_time_conditional_memcpy (dst src : list Z) (mask : Z) : list Z :=
  zip_with (fun out inn => constant_time_select_8 mask inn out) dst src.

Definition constant_time_conditional_memxor (dst src : list Z) (mask : Z) : list Z :=
  zip_with (fun out inn => u8 (Z.lxor out (Z.land (value_barrier_w mask) inn))) dst src.

Definition constant_time_declassify_w (v : Z) : Z := value_barrier_w v.

(** The value goes through [uint32_t] and back. *)
Definition constant_time_declassify_int (v : Z) : Z := swrap 32 (value_barrier_u32 (u32 v)).

(** *** Pointer utilities: addresses are [uintptr_t] values *)

Definition buffers_alias (a a_bytes b b_bytes : Z) : bool :=
  (wrap size_bits (a + a_bytes) >? b) && (wrap size_bits (b + b_bytes) >? a).

Definition align_pointer (ptr alignment : Z) : Z :=
  let offset := Z.land (wrap size_bits (0 - ptr)) (wrap size_bits (alignment - 1)) in
  wrap size_bits (ptr + offset).

End Words.

(** *** Endianness conversions (the portable definitions) *)

Definition CRYPTO_bswap2 (x : Z) : Z := u16 (Z.lor (Z.shiftr x 8) (Z.shiftl x 8)).

Definition CRYPTO_bswap4 (x : Z) : Z :=
  let x := u32 (Z.lor (Z.shiftr x 16) (Z.shiftl x 16)) in
  u32 (Z.lor (Z.shiftr (Z.land x 0xff00ff00) 8) (Z.shiftl (Z.land x 0x00ff00ff) 8)).

Definition CRYPTO_bswap8 (x : Z) : Z :=
  Z.lor (CRYPTO_bswap4 (u32 (Z.shiftr x 32))) (u64 (Z.shiftl (CRYPTO_bswap4 (u32 x)) 32)).

(** *** Loads and stores: [memcpy] to or from a little-endian integer object *)

Definition CRYPTO_load_u16_be (l : list Z) : Z := CRYPTO_bswap2 (le_val (take 2 l)).
Definition CRYPTO_store_u16_be (v : Z) : list Z := le_bytes 2 (CRYPTO_bswap2 v).
Definition CRYPTO_load_u32_le (l : list Z) : Z := le_val (take 4 l).
Definition CRYPTO_store_u32_le (v : Z) : list Z := le_bytes 4 v.
Definition CRYPTO_load_u32_be (l : list Z) : Z := CRYPTO_bswap4 (le_val (take 4 l)).
Definition CRYPTO_store_u32_be (v : Z) : list Z := le_bytes 4 (CRYPTO_bswap4 v).
Definition CRYPTO_load_u64_le (l : list Z) : Z := le_val (take 8 l).
Definition CRYPTO_store_u64_le (v : Z) : list Z := le_bytes 8 v.
Definition CRYPTO_load_u64_be (l : list Z) : Z := CRYPTO_bswap8 (le_val (take 8 l)).
Definition CRYPTO_store_u64_be (v : Z) : list Z := le_bytes 8 (CRYPTO_bswap8 v).

(** *** Rotations *)

Definition CRYPTO_rotl_u32 (value shift : Z) : Z :=
  Z.lor (u32 (Z.shiftl value shift)) (Z.shiftr value (Z.land (- shift) 31)).
Definition CRYPTO_rotr_u32 (value shift : Z) : Z :=
  Z.lor (Z.shiftr value shift) (u32 (Z.shiftl value (Z.land (- shift) 31))).
Definition CRYPTO_rotl_u64 (value shift : Z) : Z :=
  Z.lor (u64 (Z.shiftl value shift)) (Z.shiftr value (Z.land (- shift) 63)).
Definition CRYPTO_rotr_u64 (value shift : Z) : Z :=
  Z.lor (Z.shiftr value shift) (u64 (Z.shiftl value (Z.land (- shift) 63))).

(** *** Carrying addition and borrowing subtraction: (result, carry out) *)

Definition CRYPTO_addc_u32 (x y carry : Z) : Z * Z :=
  let ret := carry in
  let ret := u64 (ret + u64 (x + y)) in
  (u32 ret, u32 (Z.shiftr ret 32)).

(** Without a 128-bit type. *)
Definition CRYPTO_addc_u64 (x y carry : Z) : Z * Z :=
  let x := u64 (x + carry) in
  let carry := b2z (x <? carry) in
  let ret := u64 (x + y) in
  let carry := u64 (carry + b2z (ret <? x)) in
  (ret, carry).

Definition CRYPTO_subc_u32 (x y borrow : Z) : Z * Z :=
  let ret := u32 (x - y - borrow) in
  (ret, Z.lor (b2z (x <? y)) (Z.land (b2z (x =? y)) borrow)).

Definition CRYPTO_subc_u64 (x y borrow : Z) : Z * Z :=
  let ret := u64 (x - y - borrow) in
  (ret, Z.lor (b2z (x <? y)) (Z.land (b2z (x =? y)) borrow)).

(** ** Correctness *)

Section WordTheorems.
Context {P : Platform}.

Definition is_word (a : Z) : Prop := 0 <= a < 2 ^ size_bits.

(** The mask the selectors return for a boolean. *)
Definition word_mask (b : bool) : Z := if b then 2 ^ size_bits - 1 else 0.

Lemma size_bits_pos : 8 < size_bits.
Proof. destruct size_bits_ok; lia. Qed.

Lemma constant_time_msb_w_spec a :
  is_word a -> constant_time_msb_w a = word_mask (2 ^ (size_bits - 1) <=? a).
Proof.
  intros Ha. pose proof size_bits_pos. unfold is_word, constant_time_msb_w, word_mask, wrap in *.
  rewrite Z.shiftr_div_pow2 by lia.
  assert (H2 : 2 ^ size_bits = 2 * 2 ^ (size_bits - 1))
    by (rewrite <- Z.pow_succ_r by lia; f_equal; lia).
  destruct (Z.leb_spec (2 ^ (size_bits - 1)) a).
  - rewrite <- (Z.div_unique a (2 ^ (size_bits - 1)) 1 (a - 2 ^ (size_bits - 1))) by lia.
    symmetry. apply (Z.mod_unique _ _ (-1)); lia.
  - rewrite (Z.div_small a) by lia. apply Z.mod_0_l. lia.
Qed.

Lemma is_word_wrap x : is_word (wrap size_bits x).
Proof. apply wrap_range. pose proof size_bits_pos. lia. Qed.

Lemma is_word_lxor a b : is_word a -> is_word b -> is_word (Z.lxor a b).
Proof. apply lxor_range. pose proof size_bits_pos. lia. Qed.

Lemma is_word_lor a b : is_word a -> is_word b -> is_word (Z.lor a b).
Proof. apply lor_range. pose proof size_bits_pos. lia. Qed.

Lemma word_top a : is_word a -> Z.testbit a (size_bits - 1) = (2 ^ (size_bits - 1) <=? a).
Proof. apply testbit_top. pose proof size_bits_pos. lia. Qed.

#[local] Hint Resolve is_word_wrap is_word_lxor is_word_lor : core.

Lemma constant_time_lt_w_mask a b :
  is_word a -> is_word b -> constant_time_lt_w a b = word_mask (a <? b).
Proof.
  intros Ha Hb. unfold constant_time_lt_w. rewrite constant_time_msb_w_spec by auto. f_equal.
  rewrite <- word_top by auto.
  rewrite Z.lxor_spec, Z.lor_spec, !Z.lxor_spec, !word_top by auto.
  unfold is_word, wrap in *. pose proof size_bits_pos.
  assert (H2 : 2 ^ size_bits = 2 * 2 ^ (size_bits - 1))
    by (rewrite <- Z.pow_succ_r by lia; f_equal; lia).
  set (m := 2 ^ (size_bits - 1)) in *. rewrite H2 in *.
  assert (Hd : (a - b) mod (2 * m) = if a <? b then a - b + 2 * m else a - b).
  { destruct (Z.ltb_spec a b).
    - symmetry. apply (Z.mod_unique _ _ (-1)); lia.
    - apply Z.mod_small; lia. }
  rewrite Hd. zcases; try lia; done.
Qed.

Lemma constant_time_is_zero_w_mask a :
  is_word a -> constant_time_is_zero_w a = word_mask (a =? 0).
Proof.
  intros Ha. pose proof size_bits_pos. unfold constant_time_is_zero_w.
  assert (Hw : is_word (wnot size_bits a)) by apply is_word_wrap.
  rewrite constant_time_msb_w_spec by (apply land_range; [lia|done]). f_equal.
  rewrite <- word_top by (apply land_range; [lia|done]).
  rewrite Z.land_spec, !word_top by auto. unfold is_word, wnot, wrap, Z.lnot in *.
  assert (H2 : 2 ^ size_bits = 2 * 2 ^ (size_bits - 1))
    by (rewrite <- Z.pow_succ_r by lia; f_equal; lia).
  set (m := 2 ^ (size_bits - 1)) in *. rewrite H2 in *.
  assert (Hn : Z.pred (- a) mod (2 * m) = 2 * m - 1 - a)
    by (symmetry; apply (Z.mod_unique _ _ (-1)); lia).
  assert (Hd : (a - 1) mod (2 * m) = if a =? 0 then 2 * m - 1 else a - 1).
  { destruct (Z.eqb_spec a 0).
    - symmetry. apply (Z.mod_unique _ _ (-1)); lia.
    - apply Z.mod_small; lia. }
  rewrite Hn, Hd. zcases; try lia; done.
Qed.

Lemma wnot_word_mask b : wnot size_bits (word_mask b) = word_mask (negb b).
Proof.
  pose proof size_bits_pos. unfold wnot, wrap, word_mask, Z.lnot. destruct b; cbn [negb].
  - symmetry. apply (Z.mod_unique _ _ (-1)); lia.
  - symmetry. apply (Z.mod_unique _ _ (-1)); lia.
Qed.

Lemma u8_word_mask b : u8 (word_mask b) = if b then CONSTTIME_TRUE_8 else CONSTTIME_FALSE_8.
Proof. unfold word_mask. platform; by destruct b. Qed.

Lemma constant_time_eq_w_mask a b :
  is_word a -> is_word b -> constant_time_eq_w a b = word_mask (a =? b).
Proof.
  intros Ha Hb. unfold constant_time_eq_w. rewrite constant_time_is_zero_w_mask by auto. f_equal.
  destruct (Z.eqb_spec a b) as [->|Hne]; [by rewrite Z.lxor_nilpotent|].
  apply Z.eqb_neq. by rewrite Z.lxor_eq_0_iff.
Qed.

Lemma constant_time_lt_8_spec a b :
  is_word a -> is_word b -> constant_time_lt_8 a b = if a <? b then 255 else 0.
Proof. intros. unfold constant_time_lt_8. by rewrite constant_time_lt_w_mask, u8_word_mask. Qed.

Lemma constant_time_eq_8_spec a b :
  is_word a -> is_word b -> constant_time_eq_8 a b = if a =? b then 255 else 0.
Proof. intros. unfold constant_time_eq_8. by rewrite constant_time_eq_w_mask, u8_word_mask. Qed.

(** Selecting on a full mask returns one of the two operands. *)
Lemma constant_time_select_w_mask c a b :
  is_word a -> is_word b -> constant_time_select_w (word_mask c) a b = if c then a else b.
Proof.
  intros Ha Hb. pose proof size_bits_pos. unfold constant_time_select_w, value_barrier_w. cbv zeta.
  rewrite wnot_word_mask.
  assert (Hones : forall x, is_word x -> Z.land (2 ^ size_bits - 1) x = x).
  { intros x Hx. replace (2 ^ size_bits - 1) with (Z.ones size_bits) by (rewrite Z.ones_equiv; lia).
    rewrite Z.land_comm, Z.land_ones by lia. apply Z.mod_small, Hx. }
  destruct c; cbn [negb word_mask]; rewrite Hones by done;
    by rewrite Z.land_0_l, ?Z.lor_0_r, ?Z.lor_0_l.
Qed.

Lemma constant_time_select_8_u8 c mask a b :
  is_byte a -> is_byte b -> u8 mask = (if c : bool then 255 else 0) ->
  constant_time_select_8 mask a b = if c then a else b.
Proof.
  intros Ha Hb Hm. unfold constant_time_select_8, value_barrier_w. cbv zeta. rewrite Hm.
  unfold is_byte in *. destruct c.
  - change 255 with (Z.ones 8) at 1. rewrite (Z.land_comm (Z.ones 8)), Z.land_ones by lia.
    rewrite (Z.mod_small a) by lia. apply Z.bits_inj'. intros i Hi.
    rewrite wrap_testbit, Z.lor_spec, Z.land_spec, Z.lnot_spec by lia.
    destruct (Z.ltb_spec i 8); [|rewrite (testbit_small 8 a) by lia; done].
    replace (Z.testbit 255 i) with true; [by rewrite andb_false_l, orb_false_r|].
    change 255 with (Z.ones 8). by rewrite Z.ones_spec_low by lia.
  - change (Z.lnot 0) with (-1). rewrite Z.land_0_l, Z.lor_0_l, Z.land_m1_l. by apply wrap_small.
Qed.

Lemma constant_time_select_8_mask c a b :
  is_byte a -> is_byte b -> constant_time_select_8 (word_mask c) a b = if c then a else b.
Proof. intros. apply constant_time_select_8_u8; [done..|]. rewrite u8_word_mask. by destruct c. Qed.

(** The constant-time comparisons are the comparisons: on every pair of words,
    [constant_time_lt_w], [constant_time_ge_w], [constant_time_eq_w] and [constant_time_is_zero_w]
    return the all-ones mask exactly when the branching comparison holds and zero otherwise, on
    both word sizes, and the 8-bit variants are the truncated masks. *)
Theorem constant_time_compare_correct (a b : Z) (Ha : is_word a) (Hb : is_word b) :
  constant_time_lt_w a b = word_mask (a <? b) /\
  constant_time_ge_w a b = word_mask (b <=? a) /\
  constant_time_eq_w a b = word_mask (a =? b) /\
  constant_time_is_zero_w a = word_mask (a =? 0) /\
  constant_time_lt_8 a b = (if a <? b then CONSTTIME_TRUE_8 else CONSTTIME_FALSE_8) /\
  constant_time_ge_8 a b = (if b <=? a then CONSTTIME_TRUE_8 else CONSTTIME_FALSE_8) /\
  constant_time_eq_8 a b = (if a =? b then CONSTTIME_TRUE_8 else CONSTTIME_FALSE_8).
Proof.
  assert (Hge : constant_time_ge_w a b = word_mask (b <=? a)).
  { unfold constant_time_ge_w. rewrite constant_time_lt_w_mask, wnot_word_mask by done.
    f_equal. zcases; try lia; done. }
  unfold constant_time_lt_8, constant_time_ge_8, constant_time_eq_8.
  rewrite Hge, constant_time_lt_w_mask, constant_time_eq_w_mask, constant_time_is_zero_w_mask by done.
  by rewrite !u8_word_mask.
Qed.

(** [constant_time_conditional_memcpy] under a full mask is [memcpy], and under the zero mask
    leaves the destination untouched; [constant_time_conditional_memxor] likewise xors or does
    nothing. *)
Theorem constant_time_conditional_copy_correct (c : bool) (dst src : list Z)
    (Hd : bytes dst) (Hs : bytes src) (Hlen : length dst = length src) :
  constant_time_conditional_memcpy dst src (word_mask c) = (if c then src else dst) /\
  constant_time_conditional_memxor dst src (word_mask c) =
    (if c then zip_with Z.lxor dst src else dst).
Proof.
  unfold constant_time_conditional_memcpy, constant_time_conditional_memxor.
  revert src Hs Hlen. induction Hd as [|d dst Hd0 _ IH]; intros [|s src] Hs Hlen; try done.
  { by destruct c. }
  apply bytes_cons in Hs as [Hs0 Hs]. cbn in Hlen. injection Hlen as Hlen.
  destruct (IH src Hs Hlen) as [IH1 IH2]. cbn [zip_with]. rewrite IH1, IH2.
  rewrite constant_time_select_8_mask by done. unfold value_barrier_w, is_byte in *.
  assert (Hx : u8 (Z.lxor d (Z.land (word_mask c) s)) = if c then Z.lxor d s else d).
  { destruct c; cbn [word_mask]; [|by rewrite Z.land_0_l, Z.lxor_0_r, wrap_small].
    replace (2 ^ size_bits - 1) with (Z.ones size_bits) by (rewrite Z.ones_equiv; lia).
    pose proof size_bits_pos. rewrite Z.land_comm, Z.land_ones, Z.mod_small by (platform; lia).
    apply wrap_small, lxor_range; lia. }
  rewrite Hx. by destruct c.
Qed.

End WordTheorems.

(** *** Byte order *)

Lemma bswap2_arith a b :
  is_byte a -> is_byte b -> CRYPTO_bswap2 (a + 256 * b) = b + 256 * a.
Proof.
  unfold is_byte, CRYPTO_bswap2. intros.
  rewrite Z.shiftr_div_pow2 by lia. change (2 ^ 8) with 256.
  rewrite (Z.mul_comm 256 b), Z.div_add, (Z.div_small a), Z.add_0_l by lia.
  rewrite lor_add_shiftl by lia. symmetry. apply (Z.mod_unique _ _ b); lia.
Qed.

Lemma mask_00ff00ff y0 y1 y2 y3 :
  is_byte y0 -> is_byte y1 -> is_byte y2 -> is_byte y3 ->
  Z.land (y0 + 256 * (y1 + 256 * (y2 + 256 * y3))) 0x00ff00ff = y0 + 65536 * y2.
Proof.
  unfold is_byte. intros. change 0x00ff00ff with (255 + 2 ^ 8 * (0 + 2 ^ 8 * (255 + 2 ^ 8 * 0))).
  change 256 with (2 ^ 8). rewrite !land_split, !Z.land_0_r by lia.
  change 255 with (Z.ones 8). rewrite !Z.land_ones, !Z.mod_small by lia. lia.
Qed.

Lemma mask_ff00ff00 y0 y1 y2 y3 :
  is_byte y0 -> is_byte y1 -> is_byte y2 -> is_byte y3 ->
  Z.land (y0 + 256 * (y1 + 256 * (y2 + 256 * y3))) 0xff00ff00 = 256 * (y1 + 65536 * y3).
Proof.
  unfold is_byte. intros. change 0xff00ff00 with (0 + 2 ^ 8 * (255 + 2 ^ 8 * (0 + 2 ^ 8 * 255))).
  change 256 with (2 ^ 8). rewrite !land_split, !Z.land_0_r by lia.
  change 255 with (Z.ones 8). rewrite !Z.land_ones, !Z.mod_small by lia. lia.
Qed.

Lemma bswap4_bytes a b c d :
  bytes [a; b; c; d] -> CRYPTO_bswap4 (le_val [a; b; c; d]) = le_val [d; c; b; a].
Proof.
  intros Hl. rewrite !bytes_cons in Hl. destruct Hl as (Ha & Hb & Hc & Hd & _).
  cbn [le_val]. rewrite !Z.mul_0_r, !Z.add_0_r. unfold CRYPTO_bswap4. cbv zeta.
  assert (E : u32 (Z.lor (Z.shiftr (a + 256 * (b + 256 * (c + 256 * d))) 16)
                         (Z.shiftl (a + 256 * (b + 256 * (c + 256 * d))) 16))
              = c + 256 * (d + 256 * (a + 256 * b))).
  { unfold is_byte in *.
    replace (a + 256 * (b + 256 * (c + 256 * d))) with ((a + 256 * b) + 2 ^ 16 * (c + 256 * d)) by lia.
    rewrite Z.shiftr_div_pow2, split_div, lor_add_shiftl by lia.
    symmetry. apply (Z.mod_unique _ _ (c + 256 * d)); lia. }
  rewrite E, mask_00ff00ff, mask_ff00ff00 by done. unfold is_byte in *.
  rewrite Z.shiftr_div_pow2, Z.shiftl_mul_pow2 by lia. change (2 ^ 8) with 256.
  rewrite (Z.mul_comm 256 (d + _)), Z.div_mul by lia.
  replace (d + 65536 * b) with (d + 2 ^ 8 * (0 + 2 ^ 8 * (b + 2 ^ 8 * 0))) by lia.
  replace ((c + 65536 * a) * 256) with (0 + 2 ^ 8 * (c + 2 ^ 8 * (0 + 2 ^ 8 * a))) by lia.
  rewrite !lor_split, !Z.lor_0_l, !Z.lor_0_r by lia. apply wrap_small. lia.
Qed.

Lemma bswap8_bytes a b c d e f g h :
  bytes [a; b; c; d; e; f; g; h] ->
  CRYPTO_bswap8 (le_val [a; b; c; d; e; f; g; h]) = le_val [h; g; f; e; d; c; b; a].
Proof.
  intros Hl. rewrite !bytes_cons in Hl. destruct Hl as (Ha & Hb & Hc & Hd & He & Hf & Hg & Hh & _).
  assert (Hlo : bytes [a; b; c; d]) by (rewrite !bytes_cons; auto using bytes_nil).
  assert (Hhi : bytes [e; f; g; h]) by (rewrite !bytes_cons; auto using bytes_nil).
  assert (Hhi' : bytes [h; g; f; e]) by (rewrite !bytes_cons; auto using bytes_nil).
  assert (Hlo' : bytes [d; c; b; a]) by (rewrite !bytes_cons; auto using bytes_nil).
  change [a; b; c; d; e; f; g; h] with ([a; b; c; d] ++ [e; f; g; h]).
  change [h; g; f; e; d; c; b; a] with ([h; g; f; e] ++ [d; c; b; a]).
  rewrite !le_val_app. change (256 ^ len [a; b; c; d]) with (2 ^ 32).
  change (256 ^ len [h; g; f; e]) with (2 ^ 32).
  pose proof (le_val_range _ Hlo) as R1. change (256 ^ len [a; b; c; d]) with (2 ^ 32) in R1.
  pose proof (le_val_range _ Hhi) as R2. change (256 ^ len [e; f; g; h]) with (2 ^ 32) in R2.
  pose proof (le_val_range _ Hhi') as R3. change (256 ^ len [h; g; f; e]) with (2 ^ 32) in R3.
  pose proof (le_val_range _ Hlo') as R4. change (256 ^ len [d; c; b; a]) with (2 ^ 32) in R4.
  unfold CRYPTO_bswap8. rewrite Z.shiftr_div_pow2, split_div by lia.
  rewrite (wrap_small 32 (le_val [e; f; g; h])), bswap4_bytes by done.
  replace (u32 (le_val [a; b; c; d] + 2 ^ 32 * le_val [e; f; g; h])) with (le_val [a; b; c; d])
    by (symmetry; apply split_mod; lia).
  rewrite bswap4_bytes, Z.shiftl_mul_pow2 by (done || lia). rewrite wrap_small by lia.
  rewrite <- Z.shiftl_mul_pow2, lor_add_shiftl by lia. lia.
Qed.

(** The big-endian accessors read and write the bytes in network order. *)
Lemma load_u16_be_val l : bytes l -> (2 <= length l)%nat -> CRYPTO_load_u16_be l = be_val (take 2 l).
Proof.
  intros Hl Hn. destruct l as [|a [|b l]]; cbn in Hn; try lia.
  rewrite !bytes_cons in Hl. destruct Hl as (Ha & Hb & _).
  unfold CRYPTO_load_u16_be. cbn [take le_val]. rewrite Z.mul_0_r, Z.add_0_r, bswap2_arith by done.
  change (be_val (a :: b :: take 0 l)) with ((0 * 256 + a) * 256 + b). lia.
Qed.

Lemma load_u32_be_val l : bytes l -> (4 <= length l)%nat -> CRYPTO_load_u32_be l = be_val (take 4 l).
Proof.
  intros Hl Hn. destruct l as [|a [|b [|c [|d l]]]]; cbn in Hn; try lia.
  unfold CRYPTO_load_u32_be. cbn [take]. rewrite bswap4_bytes; [by rewrite <- be_val_reverse|].
  change (a :: b :: c :: d :: l) with ([a; b; c; d] ++ l) in Hl. by apply bytes_app in Hl as [Hl _].
Qed.

Lemma load_u64_be_val l : bytes l -> (8 <= length l)%nat -> CRYPTO_load_u64_be l = be_val (take 8 l).
Proof.
  intros Hl Hn. destruct l as [|a [|b [|c [|d [|e [|f [|g [|h l]]]]]]]]; cbn in Hn; try lia.
  unfold CRYPTO_load_u64_be. cbn [take]. rewrite bswap8_bytes; [by rewrite <- be_val_reverse|].
  change (a :: b :: c :: d :: e :: f :: g :: h :: l) with ([a; b; c; d; e; f; g; h] ++ l) in Hl.
  by apply bytes_app in Hl as [Hl _].
Qed.

(** A swap of an in-range value reverses its bytes. *)
Lemma bswap_reverse (n : nat) (swap : Z -> Z) v :
  (forall l, bytes l -> length l = n -> swap (le_val l) = le_val (reverse l)) ->
  0 <= v < 256 ^ Z.of_nat n -> le_bytes n (swap v) = be_bytes n v.
Proof.
  intros Hs Hv. assert (E : v = le_val (le_bytes n v)) by (by rewrite le_val_le_bytes, Z.mod_small).
  rewrite E at 1. rewrite Hs by (apply bytes_le_bytes || apply length_le_bytes).
  rewrite <- (length_be_bytes n v) at 1. unfold be_bytes.
  rewrite le_bytes_le_val; [done|]. apply bytes_reverse, bytes_le_bytes.
Qed.

Lemma bswap2_le l : bytes l -> length l = 2%nat -> CRYPTO_bswap2 (le_val l) = le_val (reverse l).
Proof.
  intros Hl Hn. destruct l as [|a [|b [|]]]; try done. rewrite !bytes_cons in Hl.
  destruct Hl as (Ha & Hb & _). cbn [le_val]. rewrite Z.mul_0_r, Z.add_0_r, bswap2_arith by done.
  change (reverse [a; b]) with [b; a]. cbn [le_val]. lia.
Qed.
Lemma bswap4_le l : bytes l -> length l = 4%nat -> CRYPTO_bswap4 (le_val l) = le_val (reverse l).
Proof.
  intros Hl Hn. destruct l as [|a [|b [|c [|d [|]]]]]; try done. by apply bswap4_bytes.
Qed.
Lemma bswap8_le l : bytes l -> length l = 8%nat -> CRYPTO_bswap8 (le_val l) = le_val (reverse l).
Proof.
  intros Hl Hn. destruct l as [|a [|b [|c [|d [|e [|f [|g [|h [|]]]]]]]]]; try done.
  by apply bswap8_bytes.
Qed.

Lemma bswap2_be v : 0 <= v < 2 ^ 16 -> le_bytes 2 (CRYPTO_bswap2 v) = be_bytes 2 v.
Proof. intros. by apply bswap_reverse; [apply bswap2_le|]. Qed.
Lemma bswap4_be v : 0 <= v < 2 ^ 32 -> le_bytes 4 (CRYPTO_bswap4 v) = be_bytes 4 v.
Proof. intros. by apply bswap_reverse; [apply bswap4_le|]. Qed.
Lemma bswap8_be v : 0 <= v < 2 ^ 64 -> le_bytes 8 (CRYPTO_bswap8 v) = be_bytes 8 v.
Proof. intros. by apply bswap_reverse; [apply bswap8_le|]. Qed.

Lemma bswap4_range v : 0 <= CRYPTO_bswap4 v < 2 ^ 32.
Proof. apply wrap_range. lia. Qed.
Lemma bswap8_range v : 0 <= CRYPTO_bswap8 v < 2 ^ 64.
Proof.
  apply lor_range; [lia| |apply wrap_range; lia].
  pose proof (bswap4_range (u32 (Z.shiftr v 32))). lia.
Qed.

(** The portable byte swaps reverse the bytes of every 16-, 32- and 64-bit value, so the
    [CRYPTO_store_*_be] functions write network byte order and the [CRYPTO_load_*_be] functions
    read back exactly the stored value. *)
Theorem load_store_be_roundtrip (v16 v32 v64 : Z)
    (H16 : 0 <= v16 < 2 ^ 16) (H32 : 0 <= v32 < 2 ^ 32) (H64 : 0 <= v64 < 2 ^ 64) :
  CRYPTO_store_u16_be v16 = be_bytes 2 v16 /\ CRYPTO_load_u16_be (CRYPTO_store_u16_be v16) = v16 /\
  CRYPTO_store_u32_be v32 = be_bytes 4 v32 /\ CRYPTO_load_u32_be (CRYPTO_store_u32_be v32) = v32 /\
  CRYPTO_store_u64_be v64 = be_bytes 8 v64 /\ CRYPTO_load_u64_be (CRYPTO_store_u64_be v64) = v64.
Proof.
  unfold CRYPTO_store_u16_be, CRYPTO_store_u32_be, CRYPTO_store_u64_be.
  rewrite bswap2_be, bswap4_be, bswap8_be by done.
  rewrite load_u16_be_val, load_u32_be_val, load_u64_be_val
    by (try apply bytes_be_bytes; rewrite length_be_bytes; lia).
  rewrite !take_ge by (rewrite length_be_bytes; lia). rewrite !be_val_be_bytes.
  repeat split; apply Z.mod_small; done.
Qed.

(** *** Rotations *)

Lemma rot_split w v s :
  0 < s < w -> 0 <= v < 2 ^ w ->
  Z.lor (wrap w (Z.shiftl v s)) (Z.shiftr v (w - s))
  = (v mod 2 ^ (w - s)) * 2 ^ s + v / 2 ^ (w - s).
Proof.
  intros Hs Hv. rewrite Z.shiftr_div_pow2, Z.shiftl_mul_pow2 by lia.
  assert (Ew : 2 ^ w = 2 ^ s * 2 ^ (w - s)) by (rewrite <- Z.pow_add_r by lia; f_equal; lia).
  assert (E : wrap w (v * 2 ^ s) = Z.shiftl (v mod 2 ^ (w - s)) s).
  { unfold wrap. rewrite Ew, Z.shiftl_mul_pow2 by lia.
    rewrite (Z.mul_comm v), Z.mul_mod_distr_l by lia. lia. }
  rewrite E, lor_shiftl_add; [done|lia|].
  split; [apply Z.div_pos; lia|]. apply Z.div_lt_upper_bound; lia.
Qed.

Lemma neg_shift_mask k s : 0 <= k -> 0 < s < 2 ^ k -> Z.land (- s) (Z.ones k) = 2 ^ k - s.
Proof.
  intros. rewrite Z.land_ones by lia. symmetry. apply (Z.mod_unique _ _ (-1)); lia.
Qed.

Lemma rotl_u32_split v s :
  0 < s < 32 -> 0 <= v < 2 ^ 32 ->
  CRYPTO_rotl_u32 v s = (v mod 2 ^ (32 - s)) * 2 ^ s + v / 2 ^ (32 - s).
Proof.
  intros. unfold CRYPTO_rotl_u32. change 31 with (Z.ones 5). rewrite neg_shift_mask by lia.
  by apply rot_split.
Qed.

Lemma rotl_u64_split v s :
  0 < s < 64 -> 0 <= v < 2 ^ 64 ->
  CRYPTO_rotl_u64 v s = (v mod 2 ^ (64 - s)) * 2 ^ s + v / 2 ^ (64 - s).
Proof.
  intros. unfold CRYPTO_rotl_u64. change 63 with (Z.ones 6). rewrite neg_shift_mask by lia.
  by apply rot_split.
Qed.

Lemma rotr_u32_split v s :
  0 < s < 32 -> 0 <= v < 2 ^ 32 ->
  CRYPTO_rotr_u32 v s = (v mod 2 ^ s) * 2 ^ (32 - s) + v / 2 ^ s.
Proof.
  intros. unfold CRYPTO_rotr_u32. change 31 with (Z.ones 5).
  rewrite neg_shift_mask, Z.lor_comm by lia.
  pose proof (rot_split 32 v (32 - s)) as E. replace (32 - (32 - s)) with s in E by lia.
  apply E; lia.
Qed.

Lemma rot_range w v s :
  0 < s < w -> 0 <= v < 2 ^ w ->
  0 <= (v mod 2 ^ (w - s)) * 2 ^ s + v / 2 ^ (w - s) < 2 ^ w.
Proof.
  intros Hs Hv.
  assert (Ew : 2 ^ w = 2 ^ s * 2 ^ (w - s)) by (rewrite <- Z.pow_add_r by lia; f_equal; lia).
  pose proof (Z.mod_pos_bound v (2 ^ (w - s)) ltac:(lia)).
  assert (0 <= v / 2 ^ (w - s) < 2 ^ s)
    by (split; [apply Z.div_pos; lia|apply Z.div_lt_upper_bound; lia]). nia.
Qed.

Lemma rotl_u32_range v s : 0 < s < 32 -> 0 <= v < 2 ^ 32 -> 0 <= CRYPTO_rotl_u32 v s < 2 ^ 32.
Proof. intros. rewrite rotl_u32_split by done. by apply rot_range. Qed.
Lemma rotl_u64_range v s : 0 < s < 64 -> 0 <= v < 2 ^ 64 -> 0 <= CRYPTO_rotl_u64 v s < 2 ^ 64.
Proof. intros. rewrite rotl_u64_split by done. by apply rot_range. Qed.

Lemma rotr_rotl_u32 v s :
  0 < s < 32 -> 0 <= v < 2 ^ 32 -> CRYPTO_rotr_u32 (CRYPTO_rotl_u32 v s) s = v.
Proof.
  intros Hs Hv. pose proof (rotl_u32_range v s Hs Hv).
  rewrite rotr_u32_split by done. rewrite rotl_u32_split by done.
  assert (Ew : 2 ^ 32 = 2 ^ s * 2 ^ (32 - s)) by (rewrite <- Z.pow_add_r by lia; f_equal; lia).
  assert (0 <= v / 2 ^ (32 - s) < 2 ^ s)
    by (split; [apply Z.div_pos; lia|apply Z.div_lt_upper_bound; lia]).
  pose proof (Z.div_mod v (2 ^ (32 - s)) ltac:(lia)).
  set (q := v / 2 ^ (32 - s)) in *. set (r := v mod 2 ^ (32 - s)) in *.
  replace (r * 2 ^ s + q) with (q + r * 2 ^ s) by lia.
  rewrite Z.mod_add, Z.div_add, (Z.mod_small q), (Z.div_small q) by lia. lia.
Qed.

(** *** Carry chains *)

(** The portable carrying addition and borrowing subtraction are exact: for a carry (borrow) of
    zero or one, the result and carry out recompose to [x + y + carry] (to [x - y - borrow]), and
    the carry out is again zero or one, also in the variant without a 128-bit type. *)
Theorem addc_subc_exact (x y c : Z) (Hx : 0 <= x < 2 ^ 64) (Hy : 0 <= y < 2 ^ 64) (Hc : 0 <= c <= 1) :
  (let '(r, co) := CRYPTO_addc_u64 x y c in
   r + 2 ^ 64 * co = x + y + c /\ 0 <= r < 2 ^ 64 /\ 0 <= co <= 1) /\
  (let '(r, bo) := CRYPTO_subc_u64 x y c in
   r - 2 ^ 64 * bo = x - y - c /\ 0 <= r < 2 ^ 64 /\ 0 <= bo <= 1).
Proof.
  assert (Hw : forall z, 0 <= z < 2 * 2 ^ 64 -> u64 z = if z <? 2 ^ 64 then z else z - 2 ^ 64).
  { intros z Hz. destruct (Z.ltb_spec z (2 ^ 64)); [apply wrap_small; lia|].
    symmetry. apply (Z.mod_unique _ _ 1); lia. }
  split.
  - unfold CRYPTO_addc_u64. cbv zeta. rewrite (Hw (x + c)) by lia.
    destruct (Z.ltb_spec (x + c) (2 ^ 64)).
    + rewrite (Hw (x + c + y)) by lia. destruct (Z.ltb_spec (x + c + y) (2 ^ 64)); zcases; cbn [b2z];
        rewrite ?wrap_small by lia; cbn; lia.
    + rewrite (Hw (x + c - 2 ^ 64 + y)) by lia. destruct (Z.ltb_spec (x + c - 2 ^ 64 + y) (2 ^ 64));
        zcases; cbn [b2z]; rewrite ?wrap_small by lia; cbn; lia.
  - unfold CRYPTO_subc_u64. assert (Hm : u64 (x - y - c) = if x - y - c <? 0 then x - y - c + 2 ^ 64 else x - y - c).
    { destruct (Z.ltb_spec (x - y - c) 0); [|apply wrap_small; lia].
      symmetry. apply (Z.mod_unique _ _ (-1)); lia. }
    assert (Hb : Z.lor (b2z (x <? y)) (Z.land (b2z (x =? y)) c) = b2z (x - y - c <? 0))
      by (assert (c = 0 \/ c = 1) as [-> | ->] by lia; zcases; try lia; done).
    rewrite Hm, Hb. zcases; cbn [b2z]; lia.
Qed.

(** *** Witnesses *)

Lemma constant_time_compare_witness :
  @is_word LP64 3 /\ @is_word LP64 5 /\
  @constant_time_lt_w LP64 3 5 = @word_mask LP64 (3 <? 5).
Proof.
  assert (H3 : @is_word LP64 3) by (unfold is_word; cbn; lia).
  assert (H5 : @is_word LP64 5) by (unfold is_word; cbn; lia).
  split; [done|]. split; [done|]. exact (proj1 (constant_time_compare_correct 3 5 H3 H5)).
Defined.

Lemma constant_time_conditional_copy_witness :
  @constant_time_conditional_memcpy [1; 2] [3; 4] (@word_mask ILP32 true) = [3; 4].
Proof.
  assert (Hd : bytes [1; 2]) by (rewrite !bytes_cons; unfold is_byte; split_and!; try lia; apply bytes_nil).
  assert (Hs : bytes [3; 4]) by (rewrite !bytes_cons; unfold is_byte; split_and!; try lia; apply bytes_nil).
  exact (proj1 (@constant_time_conditional_copy_correct ILP32 true [1; 2] [3; 4] Hd Hs eq_refl)).
Defined.

Lemma load_store_be_roundtrip_witness :
  CRYPTO_load_u32_be (CRYPTO_store_u32_be 0x01020304) = 0x01020304.
Proof.
  destruct (load_store_be_roundtrip 0x0102 0x01020304 0x0102030405060708) as (_ & _ & _ & H & _); [lia..|].
  exact H.
Defined.

Lemma addc_subc_exact_witness : CRYPTO_addc_u64 (2 ^ 64 - 1) 1 1 = (1, 1).
Proof.
  pose proof (addc_subc_exact (2 ^ 64 - 1) 1 1 ltac:(lia) ltac:(lia) ltac:(lia)) as [H _].
  vm_compute in H |- *. reflexivity.
Defined.
