(* ===== verification/Mem.v ===== *)
(** crypto/mem.cc: memory comparison, hashing, ASCII character classes and C string routines.
    A C string is the list of its characters before the terminating NUL; a buffer is the list of
    its bytes. Allocation is a parameter: [ok] says whether the allocation succeeds. *)
From S2P Require Import Prelude.

(** ** Comparison and hashing *)

(** [x |= a[i] ^ b[i]] over the [len] bytes of the two regions. *)
Definition CRYPTO_memcmp (a b : list Z) : Z :=
  fold_left (fun x '(ai, bi) => u8 (Z.lor x (Z.lxor ai bi))) (zip a b) 0.

Definition OPENSSL_hash32 (l : list Z) : Z :=
  fold_left (fun h b => u32 (u32 (Z.lxor h b) * 16777619)) l 2166136261.

Definition OPENSSL_strhash (s : list Z) : Z := OPENSSL_hash32 s.

(** [OPENSSL_memchr], as the index of the first match. *)
Fixpoint OPENSSL_memchr (l : list Z) (c : Z) : option Z :=
  match l with
  | [] => None
  | b :: t => if b =? c then Some 0 else option_map Z.succ (OPENSSL_memchr t c)
  end.

(** The sign of [memcmp] on two regions of the same size. *)
Fixpoint OPENSSL_memcmp (a b : list Z) : Z :=
  match a, b with
  | x :: a, y :: b => if x <? y then -1 else if y <? x then 1 else OPENSSL_memcmp a b
  | _, _ => 0
  end.

(** ** Character classes *)

Definition OPENSSL_isalpha (c : Z) : bool :=
  ((97 <=? c) && (c <=? 122)) || ((65 <=? c) && (c <=? 90)).

Definition OPENSSL_isdigit (c : Z) : bool := (48 <=? c) && (c <=? 57).

Definition OPENSSL_isxdigit (c : Z) : bool :=
  OPENSSL_isdigit c || ((97 <=? c) && (c <=? 102)) || ((65 <=? c) && (c <=? 70)).

Definition OPENSSL_fromxdigit (c : Z) : option Z :=
  if OPENSSL_isdigit c then Some (u8 (c - 48))
  else if (97 <=? c) && (c <=? 102) then Some (u8 (c - 97 + 10))
  else if (65 <=? c) && (c <=? 70) then Some (u8 (c - 65 + 10))
  else None.

Definition OPENSSL_isalnum (c : Z) : bool := OPENSSL_isalpha c || OPENSSL_isdigit c.

Definition OPENSSL_tolower (c : Z) : Z :=
  if (65 <=? c) && (c <=? 90) then c + (97 - 65) else c.

Definition OPENSSL_isspace (c : Z) : bool :=
  (c =? 9) || (c =? 10) || (c =? 11) || (c =? 12) || (c =? 13) || (c =? 32).

(** ** Strings *)

(** The number of characters before a NUL, looking at no more than the [len] bytes given. *)
Fixpoint OPENSSL_strnlen (s : list Z) : Z :=
  match s with
  | [] => 0
  | c :: t => if c =? 0 then 0 else 1 + OPENSSL_strnlen t
  end.

(** [s[i]] for the head of a C string: reading at the end of its characters reads the NUL. *)
Definition chr (s : list Z) : Z := List.hd 0 s.

Fixpoint OPENSSL_strcasecmp (a b : list Z) : Z :=
  let aa := OPENSSL_tolower (chr a) in
  let bb := OPENSSL_tolower (chr b) in
  if aa <? bb then -1
  else if aa >? bb then 1
  else if aa =? 0 then 0
  else match a with [] => 0 | _ :: a => OPENSSL_strcasecmp a (List.tl b) end.

Fixpoint OPENSSL_strncasecmp (a b : list Z) (n : nat) : Z :=
  match n with
  | O => 0
  | S n =>
      let aa := OPENSSL_tolower (chr a) in
      let bb := OPENSSL_tolower (chr b) in
      if aa <? bb then -1
      else if aa >? bb then 1
      else if aa =? 0 then 0
      else OPENSSL_strncasecmp (List.tl a) (List.tl b) n
  end.

Definition OPENSSL_memdup (ok : bool) (data : list Z) : option (list Z) :=
  if len data =? 0 then None else if ok then Some data else None.

(** [str] is the [size]-byte region; the result includes the NUL. *)
Definition OPENSSL_strndup `{Platform} (ok : bool) (str : list Z) : option (list Z) :=
  let size := OPENSSL_strnlen str in
  let alloc_size := wrap size_bits (size + 1) in
  if alloc_size <? size then None
  else if ok then Some (ztake size str ++ [0]) else None.

(** The copy loop: the characters stored, the rest of the source, the remaining [dst_size]. *)
Fixpoint strlcpy_loop (src : list Z) (dst_size : Z) : list Z * list Z * Z :=
  match src with
  | c :: t =>
      if dst_size >? 1 then
        let '(cp, rest, n) := strlcpy_loop t (dst_size - 1) in (c :: cp, rest, n)
      else ([], src, dst_size)
  | [] => ([], [], dst_size)
  end.

(** The new contents of [dst] and the return value. *)
Definition OPENSSL_strlcpy (dst src : list Z) (dst_size : Z) : list Z * Z :=
  let '(cp, rest, n) := strlcpy_loop src dst_size in
  let dst := cp ++ zdrop (len cp) dst in
  let dst := if n =? 0 then dst else zupd dst (len cp) 0 in
  (dst, len cp + len rest).

(** The scan for the end of [dst]: characters skipped and the remaining [dst_size]. *)
Fixpoint strlcat_scan (dst : list Z) (dst_size : Z) : Z * Z :=
  match dst with
  | c :: t =>
      if (dst_size >? 0) && negb (c =? 0) then
        let '(l, n) := strlcat_scan t (dst_size - 1) in (l + 1, n)
      else (0, dst_size)
  | [] => (0, dst_size)
  end.

Definition OPENSSL_strlcat (dst src : list Z) (dst_size : Z) : list Z * Z :=
  let '(l, n) := strlcat_scan dst dst_size in
  let '(tail, r) := OPENSSL_strlcpy (zdrop l dst) src n in
  (ztake l dst ++ tail, l + r).

(** ** Correctness *)

(** A string holds no NUL. *)
Definition cstring (s : list Z) : Prop := Forall (fun c => c <> 0) s.

Lemma lor_eq_0 a b : 0 <= a -> 0 <= b -> Z.lor a b = 0 <-> a = 0 /\ b = 0.
Proof. intros. apply Z.lor_eq_0_iff. Qed.

Lemma memcmp_acc a b x :
  bytes a -> bytes b -> length a = length b -> is_byte x ->
  fold_left (fun x '(ai, bi) => u8 (Z.lor x (Z.lxor ai bi))) (zip a b) x = 0 <-> x = 0 /\ a = b.
Proof.
  intros Ha. revert b x. induction Ha as [|c a Hc _ IH]; intros [|d b] x Hb Hl Hx; try done.
  { cbn. naive_solver. }
  apply bytes_cons in Hb as [Hd Hb]. injection Hl as Hl. cbn [zip zip_with fold_left].
  unfold is_byte in *. assert (Hxor : 0 <= Z.lxor c d < 2 ^ 8) by (apply lxor_range; lia).
  rewrite wrap_small by (apply lor_range; lia).
  rewrite IH by (try done; change 256 with (2 ^ 8); apply lor_range; lia).
  rewrite lor_eq_0, Z.lxor_eq_0_iff by lia. naive_solver.
Qed.

(** [CRYPTO_memcmp] decides equality: on two byte regions of the same length it returns zero if
    and only if they are equal, whatever the position of a difference. *)
Theorem CRYPTO_memcmp_correct (a b : list Z) (Ha : bytes a) (Hb : bytes b)
    (Hl : length a = length b) : CRYPTO_memcmp a b = 0 <-> a = b.
Proof. unfold CRYPTO_memcmp. rewrite memcmp_acc by (unfold is_byte; auto with lia). naive_solver. Qed.

Lemma CRYPTO_memcmp_witness : CRYPTO_memcmp [1; 2; 3] [1; 2; 3] = 0.
Proof.
  assert (H : bytes [1; 2; 3]) by (repeat constructor; lia).
  apply (CRYPTO_memcmp_correct [1; 2; 3] [1; 2; 3] H H eq_refl). reflexivity.
Defined.

Lemma strlcpy_loop_spec src n :
  0 < n -> strlcpy_loop src n =
    (ztake (n - 1) src, zdrop (n - 1) src, n - len (ztake (n - 1) src)).
Proof.
  revert n. induction src as [|c src IH]; intros n Hn; cbn [strlcpy_loop].
  - unfold ztake, zdrop. rewrite take_nil, drop_nil, len_nil. f_equal. lia.
  - rewrite Z.gtb_ltb. destruct (Z.ltb_spec 1 n).
    + rewrite IH by lia. unfold ztake, zdrop.
      replace (Z.to_nat (n - 1)) with (S (Z.to_nat (n - 1 - 1))) by lia. cbn [take drop].
      rewrite len_cons. f_equal. lia.
    + assert (n = 1) as -> by lia. done.
Qed.

Lemma zupd_app_len {A} (l k : list A) x y : zupd (l ++ y :: k) (len l) x = l ++ x :: k.
Proof.
  unfold zupd. pose proof (len_nonneg l). destruct (Z.ltb_spec (len l) 0); [lia|].
  unfold len. rewrite Nat2Z.id. rewrite insert_app_r_alt by lia. by rewrite Nat.sub_diag.
Qed.

(** [OPENSSL_strlcpy] never writes past [dst_size] bytes, always NUL-terminates, copies the
    longest prefix that fits, and returns the length of the source, so truncation is detectable. *)
Theorem strlcpy_correct (dst src : list Z) (dst_size : Z)
    (Hsize : 0 < dst_size <= len dst) :
  OPENSSL_strlcpy dst src dst_size =
  (let n := Z.min (dst_size - 1) (len src) in
   ztake n src ++ 0 :: zdrop (n + 1) dst, len src).
Proof.
  unfold OPENSSL_strlcpy. rewrite strlcpy_loop_spec by lia.
  set (n := Z.min (dst_size - 1) (len src)).
  assert (Hn : 0 <= n /\ n <= len src /\ n <= dst_size - 1) by (subst n; zlia).
  assert (Ecp : ztake (dst_size - 1) src = ztake n src).
  { subst n. destruct (Z.min_spec (dst_size - 1) (len src)) as [[_ ->]|[H ->]]; [done|].
    rewrite ztake_all. unfold ztake. apply take_ge. unfold len in H. lia. }
  assert (Elen : len (ztake n src) = n) by (rewrite len_ztake; lia).
  rewrite Ecp, Elen. destruct (Z.eqb_spec (dst_size - n) 0); [lia|].
  assert (Hd : exists y k, zdrop n dst = y :: k /\ zdrop (n + 1) dst = k).
  { pose proof (len_zdrop n dst ltac:(lia)) as Hk.
    destruct (zdrop n dst) as [|y k] eqn:E; [rewrite len_nil in Hk; lia|].
    exists y, k. split; [done|]. rewrite <- zdrop_zdrop, E by lia. done. }
  destruct Hd as (y & k & -> & ->). f_equal.
  - pose proof (zupd_app_len (ztake n src) k 0 y) as E. by rewrite Elen in E.
  - rewrite <- (ztake_zdrop (dst_size - 1) src) at 2. rewrite Ecp, len_app. lia.
Qed.

Lemma strlcpy_correct_witness :
  OPENSSL_strlcpy [9; 9; 9; 9] [65; 66; 67; 68; 69] 3 = ([65; 66; 0; 9], 5).
Proof. exact (strlcpy_correct [9; 9; 9; 9] [65; 66; 67; 68; 69] 3 ltac:(zlia)). Defined.
