(* ===== verification/PosixTime.v ===== *)
(** crypto/asn1/posix_time.cc: conversion between POSIX times and broken-down UTC times. *)
From S2P Require Import Prelude.

(** [struct tm]. *)
Record tm := mk_tm {
  tm_year : Z; tm_mon : Z; tm_mday : Z; tm_hour : Z; tm_min : Z; tm_sec : Z;
  tm_wday : Z; tm_yday : Z; tm_isdst : Z;
}.

Definition SECS_PER_HOUR : Z := 60 * 60.
Definition SECS_PER_DAY : Z := 24 * SECS_PER_HOUR.
Definition MIN_POSIX_TIME : Z := -62167219200.
Definition MAX_POSIX_TIME : Z := 253402300799.

Definition INT64_MAX : Z := 2 ^ 63 - 1.
Definition INT64_MIN : Z := - 2 ^ 63.
Definition INT32_MAX : Z := 2 ^ 31 - 1.
Definition INT32_MIN : Z := - 2 ^ 31.

(** A conversion to [int]. *)
Definition c_int (x : Z) : Z := swrap 32 x.
(** A value stored in an [int64_t]. *)
Definition c_int64 (x : Z) : Z := swrap 64 x.

Definition is_valid_date (year month day : Z) : bool :=
  if (day <? 1) || (month <? 1) || (year <? 0) || (year >? 9999) then false
  else match month with
  | 1 | 3 | 5 | 7 | 8 | 10 | 12 => (day >? 0) && (day <=? 31)
  | 4 | 6 | 9 | 11 => (day >? 0) && (day <=? 30)
  | 2 =>
      if ((year %c 4 =? 0) && negb (year %c 100 =? 0)) || (year %c 400 =? 0)
      then (day >? 0) && (day <=? 29)
      else (day >? 0) && (day <=? 28)
  | _ => false
  end.

Definition is_valid_time (hours minutes seconds : Z) : bool :=
  if (hours <? 0) || (minutes <? 0) || (seconds <? 0) || (hours >? 23) || (minutes >? 59)
     || (seconds >? 59)
  then false else true.

Definition is_valid_posix_time (time : Z) : bool :=
  (MIN_POSIX_TIME <=? time) && (time <=? MAX_POSIX_TIME).

Definition posix_time_from_utc (year month day hours minutes seconds : Z) : option Z :=
  if negb (is_valid_date year month day) || negb (is_valid_time hours minutes seconds) then None
  else
    let year := if month <=? 2 then year - 1 else year in
    let era := (if year >=? 0 then year else year - 399) /c 400 in
    let year_of_era := year - era * 400 in
    let day_of_year := (153 * (if month >? 2 then month - 3 else month + 9) + 2) /c 5 + day - 1 in
    let day_of_era := year_of_era * 365 + year_of_era /c 4 - year_of_era /c 100 + day_of_year in
    let posix_days := era * 146097 + day_of_era - 719468 in
    Some (posix_days * SECS_PER_DAY + hours * SECS_PER_HOUR + minutes * 60 + seconds).

(** (year, month, day, hours, minutes, seconds) *)
Definition utc_from_posix_time (time : Z) : option (Z * Z * Z * Z * Z * Z) :=
  if negb (is_valid_posix_time time) then None
  else
    let days := time /c SECS_PER_DAY in
    let leftover_seconds := time %c SECS_PER_DAY in
    let '(days, leftover_seconds) :=
      if leftover_seconds <? 0 then (days - 1, leftover_seconds + SECS_PER_DAY)
      else (days, leftover_seconds) in
    let days := days + 719468 in
    let era := (if days >? 0 then days else days - 146096) /c 146097 in
    let day_of_era := days - era * 146097 in
    let year_of_era := (day_of_era - day_of_era /c 1460 + day_of_era /c 36524
                        - day_of_era /c 146096) /c 365 in
    let out_year := c_int (year_of_era + era * 400) in
    let day_of_year := day_of_era - (365 * year_of_era + year_of_era /c 4 - year_of_era /c 100) in
    let month_of_year := (5 * day_of_year + 2) /c 153 in
    let out_month := c_int (if month_of_year <? 10 then month_of_year + 3 else month_of_year - 9) in
    let out_year := if out_month <=? 2 then out_year + 1 else out_year in
    let out_day := c_int (day_of_year - (153 * month_of_year + 2) /c 5 + 1) in
    let out_hours := c_int (leftover_seconds /c SECS_PER_HOUR) in
    let leftover_seconds := leftover_seconds %c SECS_PER_HOUR in
    let out_minutes := c_int (leftover_seconds /c 60) in
    let out_seconds := c_int (leftover_seconds %c 60) in
    Some (out_year, out_month, out_day, out_hours, out_minutes, out_seconds).

Definition OPENSSL_tm_to_posix (t : tm) : option Z :=
  posix_time_from_utc (tm_year t + 1900) (tm_mon t + 1) (tm_mday t) (tm_hour t) (tm_min t) (tm_sec t).

Definition OPENSSL_posix_to_tm (time : Z) : option tm :=
  match utc_from_posix_time time with
  | None => None
  | Some (y, mo, d, h, mi, s) => Some (mk_tm (y - 1900) (mo - 1) d h mi s 0 0 0)
  end.

(** [time_t] has 4 or 8 bytes; [time_t_size] is [sizeof(time_t)]. *)
Definition OPENSSL_timegm (time_t_size : Z) (t : tm) : option Z :=
  match OPENSSL_tm_to_posix t with
  | None => None
  | Some posix_time =>
      if (time_t_size =? 4) && ((posix_time >? INT32_MAX) || (posix_time <? INT32_MIN)) then None
      else Some (swrap (time_t_size * 8) posix_time)
  end.

Definition OPENSSL_gmtime (time : Z) : option tm := OPENSSL_posix_to_tm time.

Definition OPENSSL_gmtime_adj (t : tm) (offset_day offset_sec : Z) : option tm :=
  match OPENSSL_tm_to_posix t with
  | None => None
  | Some posix_time =>
      let posix_time := c_int64 (posix_time + c_int64 (offset_day * SECS_PER_DAY)) in
      if (posix_time >? 0) && (offset_sec >? INT64_MAX - posix_time) then None
      else if (posix_time <? 0) && (offset_sec <? INT64_MIN - posix_time) then None
      else OPENSSL_posix_to_tm (c_int64 (posix_time + offset_sec))
  end.

(** (out_days, out_secs) *)
Definition OPENSSL_gmtime_diff (from to : tm) : option (Z * Z) :=
  match OPENSSL_tm_to_posix to with
  | None => None
  | Some time_to =>
      match OPENSSL_tm_to_posix from with
      | None => None
      | Some time_from =>
          let timediff := c_int64 (time_to - time_from) in
          let daydiff := timediff /c SECS_PER_DAY in
          let timediff := timediff %c SECS_PER_DAY in
          Some (c_int daydiff, c_int timediff)
      end
  end.

(** ** The proleptic Gregorian calendar, counted day by day *)

Definition leap (y : Z) : bool := ((y mod 4 =? 0) && negb (y mod 100 =? 0)) || (y mod 400 =? 0).
Definition days_in_year (y : Z) : Z := if leap y then 366 else 365.
Definition days_in_month (y m : Z) : Z :=
  match m with
  | 1 | 3 | 5 | 7 | 8 | 10 | 12 => 31
  | 4 | 6 | 9 | 11 => 30
  | 2 => if leap y then 29 else 28
  | _ => 0
  end.

(** Days from 0000-01-01 to [y]-01-01, and from [y]-01-01 to the first of month [m]. *)
Fixpoint days_before_year (y : nat) : Z :=
  match y with O => 0 | S k => days_before_year k + days_in_year (Z.of_nat k) end.
Fixpoint days_before_month (y : Z) (m : nat) : Z :=
  match m with O => 0 | S k => days_before_month y k + days_in_month y (Z.of_nat k) end.

(** The POSIX time of a UTC instant: the day number relative to 1970-01-01 (day 719528), times
    86400, plus the seconds of the day. *)
Definition calendar_time (y m d h mi s : Z) : Z :=
  (days_before_year (Z.to_nat y) + days_before_month y (Z.to_nat m) + (d - 1) - 719528) * 86400
  + h * 3600 + mi * 60 + s.

(** ** Lemmas *)

(** Truncating division with the usual offset for negative dividends is the floor. *)
Lemma quot_floor a b : 0 < b -> (if a >=? 0 then a else a - (b - 1)) /c b = a / b.
Proof.
  intros Hb. destruct (Z.geb_spec a 0); [apply Z.quot_div_nonneg; lia|].
  rewrite <- (Z.opp_involutive (a - (b - 1))), Z.quot_opp_l, Z.quot_div_nonneg by lia.
  Z.div_mod_to_equations. nia.
Qed.

Lemma quot_floor_gt a b : 0 < b -> (if a >? 0 then a else a - (b - 1)) /c b = a / b.
Proof.
  intros Hb. destruct (Z.gtb_spec a 0); [apply Z.quot_div_nonneg; lia|].
  rewrite <- (Z.opp_involutive (a - (b - 1))), Z.quot_opp_l, Z.quot_div_nonneg by lia.
  Z.div_mod_to_equations. nia.
Qed.

Lemma c_int_small x : - 2 ^ 31 <= x < 2 ^ 31 -> c_int x = x.
Proof. intros. unfold c_int, swrap. change (32 - 1) with 31. rewrite Z.mod_small; lia. Qed.
Lemma c_int64_small x : - 2 ^ 63 <= x < 2 ^ 63 -> c_int64 x = x.
Proof. intros. unfold c_int64, swrap. change (64 - 1) with 63. rewrite Z.mod_small; lia. Qed.

(** The day number, relative to 1970-01-01, that the conversion computes. *)
Definition civil_days (y m d : Z) : Z :=
  let y := if m <=? 2 then y - 1 else y in
  let era := y / 400 in
  let yoe := y mod 400 in
  let doy := (153 * (if m >? 2 then m - 3 else m + 9) + 2) / 5 + d - 1 in
  era * 146097 + (yoe * 365 + yoe / 4 - yoe / 100 + doy) - 719468.

Lemma is_valid_date_spec y m d :
  is_valid_date y m d = true <-> 0 <= y <= 9999 /\ 1 <= m <= 12 /\ 1 <= d <= days_in_month y m.
Proof.
  unfold is_valid_date, days_in_month, leap.
  destruct (Z.lt_ge_cases y 0).
  { replace (y <? 0) with true by lia. rewrite !orb_true_r. cbn [orb]. split; [done|lia]. }
  rewrite !Z.rem_mod_nonneg by lia.
  destruct (((y mod 4 =? 0) && negb (y mod 100 =? 0)) || (y mod 400 =? 0)).
  all: destruct ((d <? 1) || (m <? 1) || (y <? 0) || (y >? 9999)) eqn:E; [split; [done|lia]|].
  all: destruct m as [|p|p]; try lia.
  all: repeat (destruct p as [p|p|]; try lia).
Qed.

Lemma is_valid_time_spec h mi s :
  is_valid_time h mi s = true <-> 0 <= h <= 23 /\ 0 <= mi <= 59 /\ 0 <= s <= 59.
Proof.
  unfold is_valid_time.
  destruct ((h <? 0) || (mi <? 0) || (s <? 0) || (h >? 23) || (mi >? 59) || (s >? 59)) eqn:E;
    split; try done; lia.
Qed.

Lemma posix_time_from_utc_days y m d h mi s :
  posix_time_from_utc y m d h mi s =
  if is_valid_date y m d && is_valid_time h mi s
  then Some (civil_days y m d * 86400 + h * 3600 + mi * 60 + s) else None.
Proof.
  unfold posix_time_from_utc. rewrite <- negb_andb.
  destruct (is_valid_date y m d && is_valid_time h mi s) eqn:Ev; [|done]. cbn [negb].
  apply andb_true_iff in Ev as [(Hy & Hm & Hd)%is_valid_date_spec _].
  unfold civil_days, SECS_PER_DAY, SECS_PER_HOUR. cbv zeta.
  set (y' := if m <=? 2 then y - 1 else y).
  change (y' - 399) with (y' - (400 - 1)). rewrite quot_floor by lia.
  replace (y' - y' / 400 * 400) with (y' mod 400) by (rewrite Z.mod_eq; lia).
  pose proof (Z.mod_pos_bound y' 400 ltac:(lia)).
  rewrite !Z.quot_div_nonneg by (try destruct (Z.gtb_spec m 2); lia). done.
Qed.

(** A day of a 400-year era: century [c], four-year cycle [q], year [r] of the cycle (years start in
    March) and day [doy] of that year. *)
Definition era_day (c q r doy : Z) : Prop :=
  0 <= c <= 3 /\ 0 <= q <= 24 /\ 0 <= r <= 3 /\ 0 <= doy <= 365 /\
  (doy = 365 -> r = 3 /\ (q = 24 -> c = 3)).

Lemma era_day_year c q r doy :
  era_day c q r doy ->
  let doe := 36524 * c + 1461 * q + 365 * r + doy in
  0 <= doe < 146097 /\
  (doe - doe / 1460 + doe / 36524 - doe / 146096) / 365 = 100 * c + 4 * q + r.
Proof.
  intros (Hc & Hq & Hr & Hd & Hl) doe. subst doe. split; [lia|].
  assert (c = 0 \/ c = 1 \/ c = 2 \/ c = 3) as [-> | [-> | [-> | ->]]] by lia;
  assert (r = 0 \/ r = 1 \/ r = 2 \/ r = 3) as [-> | [-> | [-> | ->]]] by lia.
  all: Z.div_mod_to_equations; lia.
Qed.

Lemma era_day_exists doe :
  0 <= doe < 146097 ->
  exists c q r doy, era_day c q r doy /\ doe = 36524 * c + 1461 * q + 365 * r + doy.
Proof.
  intros Hdoe.
  set (c := Z.min 3 (doe / 36524)). set (a := doe - 36524 * c).
  set (q := Z.min 24 (a / 1461)). set (b := a - 1461 * q).
  set (r := Z.min 3 (b / 365)).
  exists c, q, r, (b - 365 * r). unfold era_day.
  assert (0 <= a /\ (c = 3 /\ a <= 36524 \/ c <= 2 /\ a < 36524) /\ 0 <= c)
    by (subst a c; Z.div_mod_to_equations; lia).
  assert (0 <= b /\ (q = 24 /\ b < 1461 /\ (c < 3 -> b < 1460) \/ q <= 23 /\ b < 1461) /\ 0 <= q)
    by (subst b q; clearbody a c; Z.div_mod_to_equations; lia).
  assert (Hr : 0 <= r <= 3 /\ 0 <= b - 365 * r <= 365 /\ (b - 365 * r = 365 -> r = 3 /\ b = 1460))
    by (subst r; clearbody b q a c; Z.div_mod_to_equations; lia).
  clearbody r. subst b a. lia.
Qed.

Lemma era_year_parts c q r :
  0 <= c <= 3 -> 0 <= q <= 24 -> 0 <= r <= 3 ->
  (100 * c + 4 * q + r) / 4 = 25 * c + q /\ (100 * c + 4 * q + r) / 100 = c.
Proof. intros. Z.div_mod_to_equations. lia. Qed.

(** Month (counted from March) and day of the month of a day of the year. *)
Lemma month_day doy :
  0 <= doy <= 365 ->
  let mp := (5 * doy + 2) / 153 in
  let d := doy - (153 * mp + 2) / 5 + 1 in
  0 <= mp <= 11 /\ 1 <= d /\
  d <= (if mp =? 11 then 29 else if (mp =? 1) || (mp =? 3) || (mp =? 6) || (mp =? 8) then 30 else 31) /\
  (mp = 11 -> d = 29 -> doy = 365).
Proof.
  intros Hd mp d.
  set (P doy := let mp := (5 * doy + 2) / 153 in let d := doy - (153 * mp + 2) / 5 + 1 in
    (0 <=? mp) && (mp <=? 11) && (1 <=? d) &&
    (d <=? (if mp =? 11 then 29 else if (mp =? 1) || (mp =? 3) || (mp =? 6) || (mp =? 8) then 30 else 31))
    && (if (mp =? 11) && (d =? 29) then doy =? 365 else true)).
  assert (H : P doy = true) by (apply (forall_from_spec P 0 366); [by vm_compute|lia]).
  unfold P in H. cbv zeta in H. fold mp in H. fold d in H.
  repeat rewrite andb_true_iff in H. destruct H as [[[[H1 H2] H3] H4] H5].
  split; [lia|]. split; [lia|]. split; [apply Z.leb_le; exact H4|].
  intros E1 E2. rewrite E1, E2 in H5. cbn in H5. lia.
Qed.

Lemma month_day_inv mp d :
  0 <= mp <= 11 -> 1 <= d ->
  d <= (if mp =? 11 then 29 else if (mp =? 1) || (mp =? 3) || (mp =? 6) || (mp =? 8) then 30 else 31) ->
  let doy := (153 * mp + 2) / 5 + d - 1 in
  0 <= doy <= 365 /\ (5 * doy + 2) / 153 = mp /\ (doy = 365 -> mp = 11 /\ d = 29).
Proof.
  intros Hmp Hd1 Hd2 doy.
  set (P mp := forall_from (fun d =>
    if d <=? (if mp =? 11 then 29 else if (mp =? 1) || (mp =? 3) || (mp =? 6) || (mp =? 8) then 30 else 31)
    then let doy := (153 * mp + 2) / 5 + d - 1 in
      (0 <=? doy) && (doy <=? 365) && ((5 * doy + 2) / 153 =? mp)
      && (if doy =? 365 then (mp =? 11) && (d =? 29) else true)
    else true) 1 31).
  assert (H : P mp = true) by (apply (forall_from_spec P 0 12); [by vm_compute|lia]).
  unfold P in H.
  assert (d <= 31) by (destruct (mp =? 11), ((mp =? 1) || (mp =? 3) || (mp =? 6) || (mp =? 8)); lia).
  apply (forall_from_spec _ 1 31 d) in H; [|lia]. cbv beta in H. apply Z.leb_le in Hd2. rewrite Hd2 in H.
  cbv zeta in H. fold doy in H.
  repeat rewrite andb_true_iff in H. destruct H as [[[H1 H2] H3] H4].
  split; [lia|]. split; [lia|]. intros E. rewrite E in H4. cbn in H4. lia.
Qed.

(** The calendar date that the reverse conversion computes from a day number. *)
Definition days_civil (days : Z) : Z * Z * Z :=
  let days := days + 719468 in
  let era := days / 146097 in
  let doe := days mod 146097 in
  let yoe := (doe - doe / 1460 + doe / 36524 - doe / 146096) / 365 in
  let doy := doe - (365 * yoe + yoe / 4 - yoe / 100) in
  let mp := (5 * doy + 2) / 153 in
  let m := if mp <? 10 then mp + 3 else mp - 9 in
  (if m <=? 2 then yoe + era * 400 + 1 else yoe + era * 400, m, doy - (153 * mp + 2) / 5 + 1).

(** Every day number is a day of an era; the two conversions agree on it. *)
Lemma days_civil_era era c q r doy :
  era_day c q r doy ->
  let mp := (5 * doy + 2) / 153 in
  let m := if mp <? 10 then mp + 3 else mp - 9 in
  days_civil (era * 146097 + (36524 * c + 1461 * q + 365 * r + doy) - 719468) =
  (100 * c + 4 * q + r + era * 400 + (if m <=? 2 then 1 else 0), m, doy - (153 * mp + 2) / 5 + 1).
Proof.
  intros He mp m. destruct (era_day_year c q r doy He) as [Hr Hy].
  set (doe := 36524 * c + 1461 * q + 365 * r + doy) in *.
  unfold days_civil. cbv zeta.
  replace (era * 146097 + doe - 719468 + 719468) with (doe + era * 146097) by lia.
  rewrite Z.div_add, Z.mod_add, (Z.div_small doe), (Z.mod_small doe), Z.add_0_l by lia.
  rewrite Hy. destruct He as (Hc & Hq & Hr' & Hd & _).
  destruct (era_year_parts c q r Hc Hq Hr') as [-> ->].
  replace (doe - (365 * (100 * c + 4 * q + r) + (25 * c + q) - c)) with doy by (subst doe; lia).
  fold mp. fold m. destruct (m <=? 2); do 2 f_equal; lia.
Qed.

Lemma civil_days_era era c q r doy :
  era_day c q r doy ->
  let mp := (5 * doy + 2) / 153 in
  let m := if mp <? 10 then mp + 3 else mp - 9 in
  civil_days (100 * c + 4 * q + r + era * 400 + (if m <=? 2 then 1 else 0)) m
             (doy - (153 * mp + 2) / 5 + 1)
  = era * 146097 + (36524 * c + 1461 * q + 365 * r + doy) - 719468.
Proof.
  intros (Hc & Hq & Hr & Hd & _) mp m.
  destruct (month_day doy Hd) as (Hmp & _). fold mp in Hmp.
  unfold civil_days. cbv zeta.
  assert (E1 : (if m <=? 2 then 100 * c + 4 * q + r + era * 400 + (if m <=? 2 then 1 else 0) - 1
                else 100 * c + 4 * q + r + era * 400 + (if m <=? 2 then 1 else 0))
               = 100 * c + 4 * q + r + era * 400) by (destruct (m <=? 2); lia).
  assert (E2 : (if m >? 2 then m - 3 else m + 9) = mp)
    by (subst m; destruct (Z.ltb_spec mp 10); rewrite Z.gtb_ltb; destruct (Z.ltb_spec 2 (if mp <? 10 then mp + 3 else mp - 9)); zcases; lia).
  rewrite E1, E2, Z.div_add, Z.mod_add, (Z.div_small (100 * c + 4 * q + r)),
    (Z.mod_small (100 * c + 4 * q + r)) by lia.
  destruct (era_year_parts c q r Hc Hq Hr) as [-> ->]. lia.
Qed.

Lemma day_era days :
  exists era c q r doy, era_day c q r doy /\
    days = era * 146097 + (36524 * c + 1461 * q + 365 * r + doy) - 719468.
Proof.
  set (D := days + 719468).
  destruct (era_day_exists (D mod 146097)) as (c & q & r & doy & He & E);
    [apply Z.mod_pos_bound; lia|].
  exists (D / 146097), c, q, r, doy. split; [done|].
  pose proof (Z.div_mod D 146097 ltac:(lia)). lia.
Qed.

(** The reverse conversion followed by the conversion is the identity on day numbers. *)
Lemma civil_days_days_civil days :
  let '(y, m, d) := days_civil days in civil_days y m d = days.
Proof.
  destruct (day_era days) as (era & c & q & r & doy & He & ->).
  rewrite (days_civil_era era c q r doy He). by apply civil_days_era.
Qed.

(** A valid date is a day of an era. *)
Lemma date_era y m d :
  is_valid_date y m d = true ->
  exists era c q r doy, era_day c q r doy /\
    let mp := (5 * doy + 2) / 153 in
    m = (if mp <? 10 then mp + 3 else mp - 9) /\
    d = doy - (153 * mp + 2) / 5 + 1 /\
    y = 100 * c + 4 * q + r + era * 400 + (if m <=? 2 then 1 else 0).
Proof.
  intros (Hy & Hm & Hd)%is_valid_date_spec.
  set (y' := y - (if m <=? 2 then 1 else 0)). set (mp := if m >? 2 then m - 3 else m + 9).
  assert (Hmp : 0 <= mp <= 11) by (subst mp; destruct (Z.gtb_spec m 2); lia).
  assert (Hdm : d <= (if mp =? 11 then 29 else if (mp =? 1) || (mp =? 3) || (mp =? 6) || (mp =? 8) then 30 else 31)
    /\ (mp = 11 -> d = 29 -> leap y = true /\ m = 2)).
  { subst mp. assert (Hms : m = 1 \/ m = 2 \/ m = 3 \/ m = 4 \/ m = 5 \/ m = 6 \/ m = 7 \/ m = 8 \/ m = 9 \/ m = 10 \/ m = 11 \/ m = 12) by lia.
    destruct Hms as [->|[->|[->|[->|[->|[->|[->|[->|[->|[->|[->| ->]]]]]]]]]]];
      cbn in *; zcases; cbn [orb]; try (split; [lia|lia]).
    revert Hd. destruct (leap y); intros Hd; (split; [lia|]); intros; (done || lia). }
  destruct Hdm as [Hdm Hleap].
  destruct (month_day_inv mp d Hmp ltac:(lia) Hdm) as (Hdoy & Emp & Hlast).
  set (doy := (153 * mp + 2) / 5 + d - 1) in *.
  exists (y' / 400), (y' mod 400 / 100), (y' mod 400 mod 100 / 4), (y' mod 4), doy.
  assert (Hyy : y' = 400 * (y' / 400) + 100 * (y' mod 400 / 100) + 4 * (y' mod 400 mod 100 / 4) + y' mod 4
    /\ 0 <= y' mod 400 / 100 <= 3 /\ 0 <= y' mod 400 mod 100 / 4 <= 24 /\ 0 <= y' mod 4 <= 3)
    by (clearbody y'; Z.div_mod_to_equations; lia).
  rewrite Emp. repeat split; try lia.
  - destruct (Hlast H) as [E1 E2]. destruct (Hleap E1 E2) as [Hl ->].
    assert (Ey : y' = y - 1) by done. unfold leap in Hl. clear - Hl Ey. clearbody y'.
    Z.div_mod_to_equations; lia.
  - intros E24. destruct (Hlast H) as [E1 E2]. destruct (Hleap E1 E2) as [Hl ->].
    assert (Ey : y' = y - 1) by done. unfold leap in Hl. clear - Hl E24 Ey. clearbody y'.
    Z.div_mod_to_equations; lia.
  - subst mp. destruct (Z.gtb_spec m 2); zcases; lia.
Qed.

Lemma days_civil_civil_days y m d :
  is_valid_date y m d = true -> days_civil (civil_days y m d) = (y, m, d).
Proof.
  intros Hv. destruct (date_era y m d Hv) as (era & c & q & r & doy & He & Em & Ed & Ey).
  cbv zeta in *. rewrite Em in Ey. rewrite Ey, Em, Ed at 1.
  rewrite civil_days_era, days_civil_era by done. by rewrite <- Em, <- Ed, Ey, Em.
Qed.

(** The years of the supported range. *)
Lemma days_civil_valid days :
  -719528 <= days <= 2932896 ->
  let '(y, m, d) := days_civil days in is_valid_date y m d = true.
Proof.
  intros Hd. destruct (day_era days) as (era & c & q & r & doy & He & ->).
  rewrite (days_civil_era era c q r doy He). apply is_valid_date_spec.
  pose proof He as (Hc & Hq & Hr & Hdoy & Hl).
  destruct (month_day doy Hdoy) as (Hmp & Hd1 & Hd2 & Hd3). cbv zeta in *.
  assert (Hrange : (5 * doy + 2) / 153 < 10 <-> doy < 306) by (Z.div_mod_to_equations; lia).
  set (mp := (5 * doy + 2) / 153) in *. set (d := doy - (153 * mp + 2) / 5 + 1) in *.
  split; [destruct (Z.ltb_spec mp 10); zcases; lia|].
  split; [zcases; lia|]. split; [done|].
  assert (Hms : mp = 0 \/ mp = 1 \/ mp = 2 \/ mp = 3 \/ mp = 4 \/ mp = 5 \/ mp = 6 \/ mp = 7 \/ mp = 8
    \/ mp = 9 \/ mp = 10 \/ mp = 11) by lia.
  clearbody d mp.
  destruct Hms as [->|[->|[->|[->|[->|[->|[->|[->|[->|[->|[->| ->]]]]]]]]]]]; try exact Hd2.
  change (11 <? 10) with false. change (11 - 9) with 2. change (2 <=? 2) with true.
  change (d <= 29) in Hd2. unfold days_in_month, leap. cbv iota beta.
  destruct (Z.eq_dec d 29) as [E|]; [|destruct (_ || _); lia].
  specialize (Hl (Hd3 eq_refl E)).
  match goal with |- _ <= (if ?b then _ else _) => assert (b = true) as -> end. { clear - Hl Hc Hq Hr. change (2 <=? 2) with true. cbv iota. Z.div_mod_to_equations; lia. }
  lia.
Qed.

Lemma civil_days_range y m d :
  is_valid_date y m d = true -> -719528 <= civil_days y m d <= 2932896.
Proof.
  intros Hv. pose proof (date_era y m d Hv) as (era & c & q & r & doy & He & Em & Ed & Ey).
  cbv zeta in *. rewrite Em in Ey. rewrite Ey, Em, Ed, civil_days_era by done.
  apply is_valid_date_spec in Hv as (Hy & _). pose proof He as (Hc & Hq & Hr & Hdoy & Hl).
  assert (Hrange : (5 * doy + 2) / 153 < 10 <-> doy < 306) by (Z.div_mod_to_equations; lia).
  destruct (month_day doy Hdoy) as (Hmp & _).
  set (mp := (5 * doy + 2) / 153) in *. clearbody mp. clear Em Ed He. revert Ey.
  destruct (Z.ltb_spec mp 10).
  - destruct (Z.leb_spec (mp + 3) 2); lia.
  - destruct (Z.leb_spec (mp - 9) 2); lia.
Qed.

Lemma utc_from_posix_time_days t :
  utc_from_posix_time t =
  if is_valid_posix_time t then
    let '(y, m, d) := days_civil (t / 86400) in
    Some (y, m, d, t mod 86400 / 3600, t mod 86400 mod 3600 / 60, t mod 86400 mod 3600 mod 60)
  else None.
Proof.
  unfold utc_from_posix_time. destruct (is_valid_posix_time t) eqn:Hv; [|done]. cbn [negb].
  unfold is_valid_posix_time, MIN_POSIX_TIME, MAX_POSIX_TIME in Hv.
  change SECS_PER_DAY with 86400. change SECS_PER_HOUR with 3600.
  assert (Hfl : (if t %c 86400 <? 0 then (t /c 86400 - 1, t %c 86400 + 86400)
                 else (t /c 86400, t %c 86400)) = (t / 86400, t mod 86400)).
  { pose proof (Z.quot_rem t 86400 ltac:(lia)) as Hqr.
    destruct (Z.lt_ge_cases t 0).
    - pose proof (Z.rem_bound_pos (- t) 86400). rewrite Z.rem_opp_l in * by lia.
      destruct (Z.ltb_spec (t %c 86400) 0); f_equal; Z.div_mod_to_equations; lia.
    - rewrite Z.quot_div_nonneg, Z.rem_mod_nonneg by lia.
      pose proof (Z.mod_pos_bound t 86400 ltac:(lia)). destruct (Z.ltb_spec (t mod 86400) 0); [lia|done]. }
  rewrite Hfl. cbv iota beta zeta. unfold days_civil.
  assert (Hdays : -719528 <= t / 86400 <= 2932896) by (Z.div_mod_to_equations; lia).
  pose proof (days_civil_valid (t / 86400) Hdays) as Hval. unfold days_civil in Hval. cbv zeta in Hval.
  set (D := t / 86400 + 719468) in *.
  change (D - 146096) with (D - (146097 - 1)). rewrite quot_floor_gt by lia.
  replace (D - D / 146097 * 146097) with (D mod 146097) by (rewrite Z.mod_eq; lia).
  pose proof (Z.mod_pos_bound D 146097 ltac:(lia)) as Hdoe. set (doe := D mod 146097) in *.
  destruct (era_day_exists doe Hdoe) as (c & q & r & doy & He & Edoe).
  destruct (era_day_year c q r doy He) as [_ Hy]. rewrite <- Edoe in Hy.
  pose proof He as (Hc & Hq & Hr & Hdoy & _).
  rewrite !(Z.quot_div_nonneg doe) by lia.
  rewrite (Z.quot_div_nonneg _ 365) by (Z.div_mod_to_equations; lia).
  rewrite Hy in *. rewrite !(Z.quot_div_nonneg (100 * c + 4 * q + r)) by lia.
  destruct (era_year_parts c q r Hc Hq Hr) as [E4 E100]. rewrite E4, E100 in *.
  replace (doe - (365 * (100 * c + 4 * q + r) + (25 * c + q) - c)) with doy in * by lia.
  destruct (month_day doy Hdoy) as (Hmp & Hd1 & Hd2 & _). cbv zeta in *.
  rewrite (Z.quot_div_nonneg (5 * doy + 2)) by lia. set (mp := (5 * doy + 2) / 153) in *.
  rewrite (Z.quot_div_nonneg (153 * mp + 2)) by lia.
  pose proof (Z.mod_pos_bound t 86400 ltac:(lia)) as Hs. set (s := t mod 86400) in *.
  pose proof (Z.mod_pos_bound s 3600 ltac:(lia)) as Hs2.
  rewrite !(Z.quot_div_nonneg s), !(Z.rem_mod_nonneg s) by lia.
  rewrite Z.quot_div_nonneg, Z.rem_mod_nonneg by lia.
  apply is_valid_date_spec in Hval as (Vy & Vm & Vd).
  assert (days_in_month (if (if mp <? 10 then mp + 3 else mp - 9) <=? 2 then 100 * c + 4 * q + r + D / 146097 * 400 + 1
         else 100 * c + 4 * q + r + D / 146097 * 400) (if mp <? 10 then mp + 3 else mp - 9) <= 31).
  { unfold days_in_month. destruct (leap _); repeat case_match; lia. }
  rewrite !c_int_small; [done| ..]; try (Z.div_mod_to_equations; lia).
  all: revert Vy; repeat case_match; lia.
Qed.

Lemma seconds_split d h mi s :
  0 <= h <= 23 -> 0 <= mi <= 59 -> 0 <= s <= 59 ->
  let t := d * 86400 + h * 3600 + mi * 60 + s in
  t / 86400 = d /\ t mod 86400 / 3600 = h /\ t mod 86400 mod 3600 / 60 = mi /\
  t mod 86400 mod 3600 mod 60 = s.
Proof.
  intros Hh Hm Hs t. assert (Ed : t / 86400 = d) by (subst t; Z.div_mod_to_equations; lia).
  assert (Em : t mod 86400 = h * 3600 + mi * 60 + s) by (rewrite Z.mod_eq, Ed by lia; subst t; lia).
  rewrite Em. split; [done|]. clear Em Ed t. Z.div_mod_to_equations. lia.
Qed.

Lemma from_then_to y m d h mi s t :
  posix_time_from_utc y m d h mi s = Some t ->
  is_valid_posix_time t = true /\ utc_from_posix_time t = Some (y, m, d, h, mi, s).
Proof.
  rewrite posix_time_from_utc_days.
  destruct (is_valid_date y m d && is_valid_time h mi s) eqn:Ev; [|done]. intros [= <-].
  apply andb_true_iff in Ev as [Hd (Hh & Hmi & Hs)%is_valid_time_spec].
  pose proof (civil_days_range y m d Hd) as Hr.
  assert (Hv : is_valid_posix_time (civil_days y m d * 86400 + h * 3600 + mi * 60 + s) = true)
    by (unfold is_valid_posix_time, MIN_POSIX_TIME, MAX_POSIX_TIME; lia).
  split; [done|]. rewrite utc_from_posix_time_days, Hv.
  destruct (seconds_split (civil_days y m d) h mi s Hh Hmi Hs) as (-> & -> & -> & ->).
  by rewrite days_civil_civil_days.
Qed.

Lemma to_then_from t :
  is_valid_posix_time t = true ->
  exists y m d h mi s, utc_from_posix_time t = Some (y, m, d, h, mi, s) /\
    posix_time_from_utc y m d h mi s = Some t.
Proof.
  intros Hv. pose proof Hv as Hv'. unfold is_valid_posix_time, MIN_POSIX_TIME, MAX_POSIX_TIME in Hv'.
  assert (Hdays : -719528 <= t / 86400 <= 2932896) by (Z.div_mod_to_equations; lia).
  rewrite utc_from_posix_time_days, Hv.
  pose proof (days_civil_valid (t / 86400) Hdays) as Hd.
  pose proof (civil_days_days_civil (t / 86400)) as Ed.
  destruct (days_civil (t / 86400)) as [[y m] d].
  do 6 eexists. split; [done|]. rewrite posix_time_from_utc_days, Hd.
  assert (Ht : is_valid_time (t mod 86400 / 3600) (t mod 86400 mod 3600 / 60) (t mod 86400 mod 3600 mod 60) = true)
    by (apply is_valid_time_spec; Z.div_mod_to_equations; lia).
  rewrite Ht, Ed. cbn [andb]. f_equal. Z.div_mod_to_equations; lia.
Qed.

(** C23: [posix_time_from_utc] and [utc_from_posix_time] are inverse bijections between the valid UTC
    instants of the years 0000 to 9999 and the POSIX times from [MIN_POSIX_TIME] to
    [MAX_POSIX_TIME]; both reject everything else. *)
Theorem posix_utc_bijection :
  (forall y m d h mi s t, posix_time_from_utc y m d h mi s = Some t ->
     MIN_POSIX_TIME <= t <= MAX_POSIX_TIME /\ utc_from_posix_time t = Some (y, m, d, h, mi, s)) /\
  (forall t, MIN_POSIX_TIME <= t <= MAX_POSIX_TIME ->
     exists y m d h mi s, utc_from_posix_time t = Some (y, m, d, h, mi, s) /\
       posix_time_from_utc y m d h mi s = Some t) /\
  (forall t, ~ (MIN_POSIX_TIME <= t <= MAX_POSIX_TIME) -> utc_from_posix_time t = None).
Proof.
  assert (Hv : forall t, is_valid_posix_time t = true <-> MIN_POSIX_TIME <= t <= MAX_POSIX_TIME)
    by (intros t; unfold is_valid_posix_time; lia).
  split_and!.
  - intros y m d h mi s t H. apply from_then_to in H. by rewrite Hv in H.
  - intros t H. by apply to_then_from, Hv.
  - intros t H. rewrite utc_from_posix_time_days. destruct (is_valid_posix_time t) eqn:E; [|done].
    by apply Hv in E.
Qed.

(** *** The reference calendar *)

Lemma days_before_year_closed (y : nat) :
  days_before_year y =
  365 * Z.of_nat y + (Z.of_nat y - 1) / 4 - (Z.of_nat y - 1) / 100 + (Z.of_nat y - 1) / 400 + 1.
Proof.
  induction y as [|y IH]; [done|]. cbn [days_before_year]. rewrite IH. unfold days_in_year, leap.
  rewrite Nat2Z.inj_succ. unfold Z.succ. set (n := Z.of_nat y).
  destruct (((n mod 4 =? 0) && negb (n mod 100 =? 0)) || (n mod 400 =? 0)) eqn:E;
    Z.div_mod_to_equations; lia.
Qed.

Lemma days_before_month_doy y m :
  1 <= m <= 12 ->
  days_before_month y (Z.to_nat m) =
  (153 * (if m >? 2 then m - 3 else m + 9) + 2) / 5
  + (if m <=? 2 then -306 else if leap y then 60 else 59).
Proof.
  intros Hm.
  assert (Hms : m = 1 \/ m = 2 \/ m = 3 \/ m = 4 \/ m = 5 \/ m = 6 \/ m = 7 \/ m = 8 \/ m = 9 \/ m = 10
    \/ m = 11 \/ m = 12) by lia.
  destruct Hms as [->|[->|[->|[->|[->|[->|[->|[->|[->|[->|[->| ->]]]]]]]]]]];
    cbv -[leap]; destruct (leap y); reflexivity.
Qed.

Lemma civil_days_calendar y m d :
  0 <= y -> 1 <= m <= 12 ->
  civil_days y m d =
  days_before_year (Z.to_nat y) + days_before_month y (Z.to_nat m) + (d - 1) - 719528.
Proof.
  intros Hy Hm. rewrite days_before_year_closed, days_before_month_doy, Z2Nat.id by done.
  unfold civil_days. cbv zeta. set (doy := (153 * _ + 2) / 5).
  destruct (Z.leb_spec m 2).
  - clearbody doy. Z.div_mod_to_equations; lia.
  - unfold leap. destruct (((y mod 4 =? 0) && negb (y mod 100 =? 0)) || (y mod 400 =? 0)) eqn:E;
      clearbody doy; Z.div_mod_to_equations; lia.
Qed.

(** [posix_time_from_utc] computes the calendar: on a valid date and time it returns the number of
    seconds since 1970-01-01 00:00:00 obtained by counting the days of the Gregorian years and months
    one by one, and it fails exactly on invalid dates or times. *)
Theorem posix_time_from_utc_calendar (y m d h mi s : Z) :
  posix_time_from_utc y m d h mi s =
  if is_valid_date y m d && is_valid_time h mi s then Some (calendar_time y m d h mi s) else None.
Proof.
  rewrite posix_time_from_utc_days.
  destruct (is_valid_date y m d && is_valid_time h mi s) eqn:Ev; [|done].
  apply andb_true_iff in Ev as [(Hy & Hm & Hd)%is_valid_date_spec _].
  unfold calendar_time. rewrite civil_days_calendar by lia. done.
Qed.

(** *** Adjusting and comparing times *)

(** The conversions ignore the derived fields, and write zero in them. *)
Definition tm_normal (t : tm) : tm :=
  mk_tm (tm_year t) (tm_mon t) (tm_mday t) (tm_hour t) (tm_min t) (tm_sec t) 0 0 0.

Lemma tm_posix_roundtrip t p :
  OPENSSL_tm_to_posix t = Some p -> OPENSSL_posix_to_tm p = Some (tm_normal t).
Proof.
  unfold OPENSSL_tm_to_posix, OPENSSL_posix_to_tm. intros H. apply from_then_to in H as [_ ->].
  unfold tm_normal. do 2 f_equal; lia.
Qed.

Lemma posix_to_tm_total p :
  is_valid_posix_time p = true ->
  exists t, OPENSSL_posix_to_tm p = Some t /\ OPENSSL_tm_to_posix t = Some p.
Proof.
  intros Hv. destruct (to_then_from p Hv) as (y & m & d & h & mi & s & E1 & E2).
  unfold OPENSSL_posix_to_tm, OPENSSL_tm_to_posix. rewrite E1. eexists. split; [done|]. cbn.
  by rewrite !Z.sub_add.
Qed.

Lemma tm_to_posix_range t p : OPENSSL_tm_to_posix t = Some p -> MIN_POSIX_TIME <= p <= MAX_POSIX_TIME.
Proof.
  intros H. apply from_then_to in H as [H _]. unfold is_valid_posix_time in H. lia.
Qed.

Lemma gmtime_adj_spec (t : tm) (p od os : Z)
    (Ht : OPENSSL_tm_to_posix t = Some p)
    (Hod : - 2 ^ 31 <= od < 2 ^ 31) (Hos : - 2 ^ 63 <= os < 2 ^ 63) :
  if (MIN_POSIX_TIME <=? p + od * SECS_PER_DAY + os) && (p + od * SECS_PER_DAY + os <=? MAX_POSIX_TIME)
  then exists t', OPENSSL_gmtime_adj t od os = Some t' /\
         OPENSSL_tm_to_posix t' = Some (p + od * SECS_PER_DAY + os)
  else OPENSSL_gmtime_adj t od os = None.
Proof.
  pose proof (tm_to_posix_range t p Ht) as Hp. unfold OPENSSL_gmtime_adj. rewrite Ht.
  unfold MIN_POSIX_TIME, MAX_POSIX_TIME in *.
  change SECS_PER_DAY with 86400. unfold INT64_MAX, INT64_MIN.
  rewrite (c_int64_small (od * 86400)), (c_int64_small (p + od * 86400)) by lia.
  set (q := p + od * 86400) in *.
  assert (Hq : - 2 ^ 62 <= q < 2 ^ 62) by lia. clearbody q.
  destruct ((q >? 0) && (os >? 2 ^ 63 - 1 - q)) eqn:E1.
  { replace (_ && _) with false by lia. done. }
  destruct ((q <? 0) && (os <? - 2 ^ 63 - q)) eqn:E2.
  { replace (_ && _) with false by lia. done. }
  rewrite c_int64_small by lia.
  change (-62167219200 <=? q + os) with (MIN_POSIX_TIME <=? q + os).
  change (q + os <=? 253402300799) with (q + os <=? MAX_POSIX_TIME).
  fold (is_valid_posix_time (q + os)). destruct (is_valid_posix_time (q + os)) eqn:Ev.
  - by apply posix_to_tm_total.
  - unfold OPENSSL_posix_to_tm. by rewrite utc_from_posix_time_days, Ev.
Qed.

(** [OPENSSL_gmtime_adj] adds exactly: for any [int] day offset and [int64_t] second offset, the
    computation never overflows 64 bits, and the result is the instant [offset_day] days and
    [offset_sec] seconds later when that lies in the supported range, and a failure otherwise. *)
Theorem gmtime_adj_exact (t : tm) (p od os : Z)
    (Ht : OPENSSL_tm_to_posix t = Some p)
    (Hod : - 2 ^ 31 <= od < 2 ^ 31) (Hos : - 2 ^ 63 <= os < 2 ^ 63) :
  if (MIN_POSIX_TIME <=? p + od * SECS_PER_DAY + os) && (p + od * SECS_PER_DAY + os <=? MAX_POSIX_TIME)
  then exists t', OPENSSL_gmtime_adj t od os = Some t' /\
         OPENSSL_tm_to_posix t' = Some (p + od * SECS_PER_DAY + os)
  else OPENSSL_gmtime_adj t od os = None.
Proof. by apply gmtime_adj_spec. Qed.

(** [OPENSSL_gmtime_diff] splits the exact difference of two valid times into days and seconds
    of the same sign, with fewer than 86400 seconds, and neither output is truncated. *)
Theorem gmtime_diff_exact (from to : tm) (pf pt : Z)
    (Hf : OPENSSL_tm_to_posix from = Some pf) (Ht : OPENSSL_tm_to_posix to = Some pt) :
  exists days secs, OPENSSL_gmtime_diff from to = Some (days, secs) /\
    days * SECS_PER_DAY + secs = pt - pf /\ Z.abs secs < SECS_PER_DAY /\
    (0 <= pt - pf -> 0 <= days /\ 0 <= secs) /\ (pt - pf <= 0 -> days <= 0 /\ secs <= 0).
Proof.
  pose proof (tm_to_posix_range _ _ Hf) as Rf. pose proof (tm_to_posix_range _ _ Ht) as Rt.
  unfold MIN_POSIX_TIME, MAX_POSIX_TIME in *. unfold OPENSSL_gmtime_diff. rewrite Hf, Ht.
  change SECS_PER_DAY with 86400. rewrite c_int64_small by lia. set (x := pt - pf) in *.
  assert (Hx : Z.abs x < 2 ^ 40) by lia. clearbody x.
  pose proof (Z.quot_rem x 86400 ltac:(lia)) as Hqr.
  assert (Hr : Z.abs (x %c 86400) < 86400) by (pose proof (Z.rem_bound_abs x 86400 ltac:(lia)); lia).
  assert (Hs : (0 <= x -> 0 <= x %c 86400) /\ (x <= 0 -> x %c 86400 <= 0))
    by (split; intros; [apply Z.rem_nonneg|apply Z.rem_nonpos]; lia).
  exists (x /c 86400), (x %c 86400). rewrite !c_int_small by lia. split; [done|]. lia.
Qed.

(** *** Witnesses *)

Definition tm_2024 : tm := mk_tm 124 1 29 23 59 59 0 0 0.

Lemma gmtime_adj_exact_witness :
  exists t', OPENSSL_gmtime_adj tm_2024 0 1 = Some t' /\ OPENSSL_tm_to_posix t' = Some 1709251200.
Proof.
  exact (gmtime_adj_exact tm_2024 1709251199 0 1 eq_refl ltac:(lia) ltac:(lia)).
Defined.

Lemma gmtime_diff_exact_witness :
  exists days secs, OPENSSL_gmtime_diff (mk_tm 70 0 1 0 0 0 0 0 0) tm_2024 = Some (days, secs) /\
    days * SECS_PER_DAY + secs = 1709251199.
Proof.
  destruct (gmtime_diff_exact (mk_tm 70 0 1 0 0 0 0 0 0) tm_2024 0 1709251199 eq_refl eq_refl)
    as (days & secs & H1 & H2 & _).
  exists days, secs. split; [exact H1|]. rewrite H2. reflexivity.
Defined.
