(* ===== verification/Cbs.v ===== *)
(** The byte-string reader CBS: crypto/bytestring/cbs.cc, the part that is not
    about ASN.1.

    A [CBS] is the list of the bytes left to read. An operation that consumes
    input is a reader: it returns the values of its out-parameters, or [None]
    where the C function returns zero, together with the CBS it leaves, which on
    failure is whatever the code left, not the one it started from. *)
From S2P Require Import Prelude.
From S2P Require Import Internal.
From S2P Require Import Mem.

Abbreviation CBS := (list Z).

(** * The reader monad *)
Definition rd (A : Type) : Type := CBS -> option A * CBS.

Definition rd_ret {A} (a : A) : rd A := fun cbs => (Some a, cbs).
Definition rd_fail {A} : rd A := fun cbs => (None, cbs).
Definition rd_bind {A B} (m : rd A) (f : A -> rd B) : rd B := fun cbs =>
  match m cbs with
  | (Some a, cbs') => f a cbs'
  | (None, cbs') => (None, cbs')
  end.
Definition rd_guard (b : bool) : rd unit := if b then rd_ret tt else rd_fail.

Declare Scope rd_scope.
Delimit Scope rd_scope with rd.
Notation "x <-- m ;; f" := (rd_bind m (fun x => f%rd))
  (at level 100, m at next level, right associativity) : rd_scope.
Notation "'check' b ;; f" := (rd_bind (rd_guard b) (fun _ => f%rd))
  (at level 100, b at next level, right associativity) : rd_scope.

(** * Primitive reads *)
Definition cbs_get (n : Z) : rd (list Z) := fun cbs =>
  if len cbs <? n then (None, cbs) else (Some (ztake n cbs), zdrop n cbs).

Definition CBS_skip (n : Z) : rd unit := (_ <-- cbs_get n ;; rd_ret tt)%rd.

(** [CBS_stow] frees the old buffer; its result is the new pointer (the null
    pointer is [None]) and length, or failure. [ok] is the allocator's answer. *)
Definition CBS_stow (ok : bool) (cbs : CBS) : option (option (list Z) * Z) :=
  if len cbs =? 0 then Some (None, 0)
  else match OPENSSL_memdup ok cbs with
       | None => None
       | Some p => Some (Some p, len cbs)
       end.

Definition CBS_strdup `{Platform} (ok : bool) (cbs : CBS) : option (list Z) :=
  OPENSSL_strndup ok cbs.

Definition CBS_contains_zero_byte (cbs : CBS) : bool :=
  match OPENSSL_memchr cbs 0 with Some _ => true | None => false end.

Definition CBS_mem_equal (cbs data : CBS) : bool :=
  if negb (len data =? len cbs) then false else CRYPTO_memcmp cbs data =? 0.

Definition cbs_get_u (n : Z) : rd Z :=
  (data <-- cbs_get n ;;
   rd_ret (fold_left (fun result b => Z.lor (u64 (Z.shiftl result 8)) b) data 0))%rd.

Definition CBS_get_u8 : rd Z := (v <-- cbs_get 1 ;; rd_ret (List.hd 0 v))%rd.
Definition CBS_get_u16 : rd Z := (v <-- cbs_get_u 2 ;; rd_ret (u16 v))%rd.
Definition CBS_get_u16le : rd Z := (v <-- CBS_get_u16 ;; rd_ret (CRYPTO_bswap2 v))%rd.
Definition CBS_get_u24 : rd Z := (v <-- cbs_get_u 3 ;; rd_ret (u32 v))%rd.
Definition CBS_get_u32 : rd Z := (v <-- cbs_get_u 4 ;; rd_ret (u32 v))%rd.
Definition CBS_get_u32le : rd Z := (v <-- CBS_get_u32 ;; rd_ret (CRYPTO_bswap4 v))%rd.
Definition CBS_get_u64 : rd Z := cbs_get_u 8.
Definition CBS_get_u64le : rd Z := (v <-- cbs_get_u 8 ;; rd_ret (CRYPTO_bswap8 v))%rd.

Definition CBS_get_last_u8 : rd Z := fun cbs =>
  if len cbs =? 0 then (None, cbs)
  else (Some (List.last cbs 0), ztake (len cbs - 1) cbs).

Definition CBS_get_bytes (n : Z) : rd CBS := cbs_get n.
Definition CBS_copy_bytes (n : Z) : rd (list Z) := cbs_get n.

Definition cbs_get_length_prefixed `{Platform} (len_len : Z) : rd CBS :=
  (n <-- cbs_get_u len_len ;; CBS_get_bytes (wrap size_bits n))%rd.
Definition CBS_get_u8_length_prefixed `{Platform} : rd CBS := cbs_get_length_prefixed 1.
Definition CBS_get_u16_length_prefixed `{Platform} : rd CBS := cbs_get_length_prefixed 2.
Definition CBS_get_u24_length_prefixed `{Platform} : rd CBS := cbs_get_length_prefixed 3.

Definition CBS_get_until_first (c : Z) : rd CBS := fun cbs =>
  match OPENSSL_memchr cbs c with
  | None => (None, cbs)
  | Some split => CBS_get_bytes split cbs
  end.

Definition UINT64_MAX : Z := 2 ^ 64 - 1.

(** The loop of [CBS_get_u64_decimal], from the state [v], [seen_digit]. *)
Fixpoint u64_decimal_loop (cbs : CBS) (v : Z) (seen_digit : bool) : option Z * CBS :=
  match cbs with
  | [] => (if seen_digit then Some v else None, cbs)
  | c :: rest =>
      if negb (OPENSSL_isdigit c) then (if seen_digit then Some v else None, cbs)
      else if ((v =? 0) && seen_digit) || (UINT64_MAX / 10 <? v)
              || (UINT64_MAX - (c - 48) <? u64 (v * 10))
      then (None, rest)
      else u64_decimal_loop rest (u64 (v * 10 + (c - 48))) true
  end.
Definition CBS_get_u64_decimal : rd Z := fun cbs => u64_decimal_loop cbs 0 false.

(** * Lemmas on the readers *)
Create HintDb cbs.

Lemma rd_bind_ret {A B} (a : A) (f : A -> rd B) cbs : rd_bind (rd_ret a) f cbs = f a cbs.
Proof. done. Qed.

Lemma cbs_get_app n (l r : list Z) : n = len l -> cbs_get n (l ++ r) = (Some l, r).
Proof.
  intros ->. unfold cbs_get. rewrite ztake_app_len, zdrop_app_len.
  destruct (Z.ltb_spec (len (l ++ r)) (len l)); [zlia | done].
Qed.

Lemma cbs_get_ok n cbs :
  0 <= n <= len cbs -> exists l r, cbs = l ++ r /\ len l = n /\ cbs_get n cbs = (Some l, r).
Proof.
  intros Hn. exists (ztake n cbs), (zdrop n cbs).
  split_and!; [by rewrite ztake_zdrop | by apply len_ztake |].
  unfold cbs_get. destruct (Z.ltb_spec (len cbs) n); [lia | done].
Qed.

Lemma cbs_get_short n cbs : len cbs < n -> cbs_get n cbs = (None, cbs).
Proof. intros Hn. unfold cbs_get. destruct (Z.ltb_spec (len cbs) n); [done | lia]. Qed.

Lemma cbs_get_inv n cbs l r :
  0 <= n -> cbs_get n cbs = (Some l, r) -> cbs = l ++ r /\ len l = n.
Proof.
  intros Hn. unfold cbs_get. destruct (Z.ltb_spec (len cbs) n); [done |].
  intros [= <- <-]. rewrite ztake_zdrop, len_ztake by lia. done.
Qed.

(** Reads return bytes of the input and leave a suffix of it. *)
Lemma cbs_get_bytes_wf n cbs o r : cbs_get n cbs = (o, r) -> bytes cbs ->
  bytes r /\ (forall l, o = Some l -> bytes l).
Proof.
  unfold cbs_get. intros H Hb. zcases_in H; injection H as <- <-; split; auto with words.
  - done.
  - intros l [= <-]. auto with words.
Qed.

Lemma be_fold_u64 l acc :
  bytes l -> 0 <= acc -> acc * 256 ^ len l + be_val l < 2 ^ 64 ->
  fold_left (fun result b => Z.lor (u64 (Z.shiftl result 8)) b) l acc
  = acc * 256 ^ len l + be_val l.
Proof.
  revert acc. induction l as [|b l IH]; intros acc Hl Ha Hlt.
  { change (fold_left _ [] acc) with acc. change (len []) with 0. change (be_val []) with 0. lia. }
  apply bytes_cons in Hl as [Hb Hl]. rewrite be_val_cons, len_cons in *.
  pose proof (be_val_range l Hl) as Hr. pose proof (len_nonneg l).
  rewrite Z.pow_add_r, Z.pow_1_r in * by lia.
  assert (1 <= 256 ^ len l) by (apply (Z.pow_le_mono_r 256 0); lia).
  unfold is_byte in Hb. cbn [fold_left].
  assert (Hs : Z.lor (u64 (Z.shiftl acc 8)) b = acc * 256 + b).
  { rewrite wrap_small by (rewrite Z.shiftl_mul_pow2 by lia; split; [lia|]; nia).
    by rewrite (lor_shiftl_add acc b 8) by lia. }
  rewrite Hs, IH; [lia | done | lia | nia].
Qed.

Lemma cbs_get_u_app n l r :
  bytes l -> len l = n -> n <= 8 -> cbs_get_u n (l ++ r) = (Some (be_val l), r).
Proof.
  intros Hl Hn H8. unfold cbs_get_u, rd_bind. rewrite cbs_get_app by done.
  cbn [rd_ret]. unfold rd_ret. rewrite be_fold_u64; [do 2 f_equal; lia | done | lia |].
  pose proof (be_val_range l Hl) as Hr.
  assert (256 ^ len l <= 256 ^ 8) by (apply Z.pow_le_mono_r; lia). lia.
Qed.

Lemma cbs_get_u_ok n cbs : bytes cbs -> 0 <= n <= 8 -> n <= len cbs ->
  exists l r, cbs = l ++ r /\ len l = n /\ bytes l /\ bytes r /\ cbs_get_u n cbs = (Some (be_val l), r).
Proof.
  intros Hb Hn Hl. destruct (cbs_get_ok n cbs) as (l & r & -> & Hlen & _); [lia|].
  apply bytes_app in Hb as [Hbl Hbr]. exists l, r. split_and!; try done.
  apply cbs_get_u_app; [done | done | lia].
Qed.

Lemma cbs_get_u_short n cbs : len cbs < n -> cbs_get_u n cbs = (None, cbs).
Proof. intros. unfold cbs_get_u, rd_bind. by rewrite cbs_get_short. Qed.

Lemma cbs_get_u_inv n cbs v r : bytes cbs -> 0 <= n <= 8 -> cbs_get_u n cbs = (Some v, r) ->
  exists l, cbs = l ++ r /\ len l = n /\ v = be_val l.
Proof.
  intros Hb Hn H. destruct (Z.lt_ge_cases (len cbs) n).
  { by rewrite cbs_get_u_short in H. }
  destruct (cbs_get_u_ok n cbs) as (l & r' & -> & Hl & _ & _ & E); [done | lia | lia |].
  rewrite E in H. injection H as <- <-. eauto.
Qed.

Lemma CBS_get_u8_cons b r : CBS_get_u8 (b :: r) = (Some b, r).
Proof.
  unfold CBS_get_u8, rd_bind. change (b :: r) with ([b] ++ r).
  by rewrite cbs_get_app.
Qed.
Lemma CBS_get_u8_nil : CBS_get_u8 [] = (None, []).
Proof. done. Qed.
#[export] Hint Rewrite CBS_get_u8_cons CBS_get_u8_nil : cbs.

(** ** Length-prefixed strings *)
Lemma wrap_size_prefix `{Platform} n l :
  bytes l -> len l = n -> n <= 3 -> wrap size_bits (be_val l) = be_val l.
Proof.
  intros Hl Hn H3. pose proof (be_val_range l Hl).
  assert (256 ^ len l <= 256 ^ 3) by (apply Z.pow_le_mono_r; lia).
  apply wrap_small. platform; lia.
Qed.

Lemma length_prefixed_app `{Platform} n l k r :
  bytes l -> len l = n -> n <= 3 -> be_val l = len k ->
  cbs_get_length_prefixed n (l ++ k ++ r) = (Some k, r).
Proof.
  intros Hl Hn H3 Hk. unfold cbs_get_length_prefixed, rd_bind.
  rewrite cbs_get_u_app by (done || lia). rewrite (wrap_size_prefix n) by done.
  by apply cbs_get_app.
Qed.

Lemma length_prefixed_inv `{Platform} n cbs k r :
  bytes cbs -> 0 <= n <= 3 -> cbs_get_length_prefixed n cbs = (Some k, r) ->
  cbs = be_bytes (Z.to_nat n) (len k) ++ k ++ r /\ len k < 256 ^ n.
Proof.
  intros Hb Hn H'. unfold cbs_get_length_prefixed, rd_bind in H'.
  destruct (cbs_get_u n cbs) as [[v|] r1] eqn:E; [|done].
  apply cbs_get_u_inv in E as (l & -> & Hl & ->); [|done|lia].
  apply bytes_app in Hb as [Hbl Hbr]. rewrite (wrap_size_prefix n) in H' by (done || lia).
  pose proof (be_val_range l Hbl).
  apply cbs_get_inv in H' as [-> Hk]; [|lia]. rewrite Hk. split; [|rewrite <- Hl; lia].
  f_equal. replace (Z.to_nat n) with (length l) by (unfold len in Hl; lia).
  symmetry. by apply be_bytes_be_val.
Qed.

(** ** Decimal numbers *)

(** The value of a string of ASCII digits, and the decimal string of a value
    below 10 ^ [n] (what "%" PRIu64 prints, for [n] = 20). *)
Definition dec_val (l : list Z) : Z := fold_left (fun v c => v * 10 + (c - 48)) l 0.
Fixpoint dec_string (n : nat) (v : Z) : list Z :=
  match n with
  | O => []
  | S n => if v <? 10 then [48 + v] else dec_string n (v / 10) ++ [48 + v mod 10]
  end.

(** A decimal string with no stray leading zero. *)
Definition dec_canonical (l : list Z) : Prop :=
  l <> [] /\ Forall (fun c => OPENSSL_isdigit c = true) l /\ (List.hd 0 l = 48 -> len l = 1).

Definition no_digit (rest : CBS) : Prop :=
  match rest with [] => True | c :: _ => OPENSSL_isdigit c = false end.

Lemma isdigit_range c : OPENSSL_isdigit c = true <-> 48 <= c <= 57.
Proof. unfold OPENSSL_isdigit. lia. Qed.

Lemma dec_val_snoc l c : dec_val (l ++ [c]) = dec_val l * 10 + (c - 48).
Proof. unfold dec_val. by rewrite fold_left_app. Qed.

Lemma dec_val_nonneg l : Forall (fun c => OPENSSL_isdigit c = true) l -> 0 <= dec_val l.
Proof.
  induction l as [|c l IH] using rev_ind; [done|]. intros [Hl Hc]%Forall_app.
  apply Forall_cons_iff in Hc as [Hc _]. apply isdigit_range in Hc. apply IH in Hl.
  rewrite dec_val_snoc. lia.
Qed.

Lemma hd_snoc (l : list Z) c : l <> [] -> List.hd 0 (l ++ [c]) = List.hd 0 l.
Proof. by destruct l. Qed.

(** A canonical string other than "0" has a positive value. *)
Lemma dec_canonical_0 l : dec_canonical l -> dec_val l = 0 -> l = [48].
Proof.
  induction l as [|c l IH] using rev_ind; intros (Hne & Hd & Hz) H0; [done|].
  apply Forall_app in Hd as [Hl Hc]. apply Forall_cons_iff in Hc as [Hc _].
  apply isdigit_range in Hc. rewrite dec_val_snoc in H0. pose proof (dec_val_nonneg l Hl).
  assert (c = 48) as -> by lia. destruct (decide (l = [])) as [->|Hn]; [done|].
  rewrite hd_snoc, len_app in Hz by done. change (len [48]) with 1 in Hz.
  assert (l = [48]) as ->.
  { apply IH; [|lia]. split_and!; [done | done |]. intros Hh. destruct Hn.
    apply len_0_nil. specialize (Hz Hh). lia. }
  specialize (Hz eq_refl). done.
Qed.

Lemma dec_canonical_snoc l c :
  OPENSSL_isdigit c = true ->
  dec_canonical (l ++ [c]) <-> l = [] \/ (dec_canonical l /\ dec_val l <> 0).
Proof.
  intros Hc. split.
  - intros (Hne & Hd & Hz). destruct (decide (l = [])) as [->|Hn]; [by left|]. right.
    apply Forall_app in Hd as [Hl _]. rewrite hd_snoc, len_app in Hz by done.
    change (len [c]) with 1 in Hz.
    assert (List.hd 0 l <> 48) by (intros Hh; apply Hn, len_0_nil; specialize (Hz Hh); lia).
    assert (dec_canonical l) by (split_and!; done).
    split; [done|]. intros ->%dec_canonical_0; done.
  - intros [->|[(Hne & Hd & Hz) H0]].
    + split_and!; [done | by repeat constructor | done].
    + split_and!; [by destruct l | apply Forall_app; by repeat constructor |].
      rewrite hd_snoc by done. intros Hh. destruct H0. specialize (Hz Hh).
      destruct l as [|a [|b l]]; [done | cbn in Hh; by subst a | zlia].
Qed.

Lemma dec_string_spec n v :
  0 <= v < 10 ^ Z.of_nat n -> (0 < n)%nat ->
  dec_canonical (dec_string n v) /\ dec_val (dec_string n v) = v.
Proof.
  revert v. induction n as [|n IH]; intros v Hv Hn; [lia|]. cbn [dec_string].
  rewrite Nat2Z.inj_succ, Z.pow_succ_r in Hv by lia.
  destruct (Z.ltb_spec v 10).
  - split; [|unfold dec_val; cbn [fold_left]; lia]. split_and!; [done | | done].
    repeat constructor. apply isdigit_range. lia.
  - assert (0 < n)%nat by (destruct n; [cbn in Hv; lia | lia]).
    pose proof (Z.div_mod v 10 ltac:(lia)). pose proof (Z.mod_pos_bound v 10 ltac:(lia)).
    destruct (IH (v / 10)) as [Hc He]; [split; Z.div_mod_to_equations; lia | done |].
    split; [|rewrite dec_val_snoc, He; lia].
    apply dec_canonical_snoc; [apply isdigit_range; lia|]. right. split; [done|].
    rewrite He. Z.div_mod_to_equations; lia.
Qed.

(** Canonical strings are determined by their value. *)
Lemma dec_string_val n l :
  dec_canonical l -> dec_val l < 10 ^ Z.of_nat n -> (0 < n)%nat -> dec_string n (dec_val l) = l.
Proof.
  revert l. induction n as [|n IH]; intros l Hc Hv Hn; [lia|].
  destruct (exists_last (proj1 Hc)) as (k & c & ->). cbn [dec_string].
  pose proof (proj1 (proj2 Hc)) as Hd. apply Forall_app in Hd as [Hk Hd].
  apply Forall_cons_iff in Hd as [Hd _]. pose proof (dec_val_nonneg k Hk) as H0.
  pose proof Hc as [->|[Hck Hz]]%dec_canonical_snoc; [ | |done].
  - apply isdigit_range in Hd. change (dec_val ([] ++ [c])) with (c - 48).
    destruct (Z.ltb_spec (c - 48) 10); [cbn; f_equal; lia | lia].
  - apply isdigit_range in Hd. rewrite dec_val_snoc in *.
    rewrite Nat2Z.inj_succ, Z.pow_succ_r in Hv by lia.
    destruct (Z.ltb_spec (dec_val k * 10 + (c - 48)) 10); [lia|].
    assert (0 < n)%nat by (destruct n; [cbn in Hv; lia | lia]).
    replace ((dec_val k * 10 + (c - 48)) / 10) with (dec_val k) by (Z.div_mod_to_equations; lia).
    replace ((dec_val k * 10 + (c - 48)) mod 10) with (c - 48) by (Z.div_mod_to_equations; lia).
    rewrite IH by (done || lia). do 2 f_equal. lia.
Qed.

(** The loop from a prefix [p] already read: what it accepts is canonical... *)
Lemma u64_decimal_sound cbs p w rest :
  p = [] \/ dec_canonical p -> 0 <= dec_val p < 2 ^ 64 ->
  u64_decimal_loop cbs (dec_val p) (negb (len p =? 0)) = (Some w, rest) ->
  exists ds, cbs = ds ++ rest /\ dec_canonical (p ++ ds) /\ w = dec_val (p ++ ds) /\
    0 <= w < 2 ^ 64 /\ no_digit rest.
Proof.
  assert (Hstop : forall p w, p = [] \/ dec_canonical p ->
    (if negb (len p =? 0) then Some (dec_val p) else None) = Some w ->
    dec_canonical (p ++ []) /\ w = dec_val (p ++ [])).
  { intros q x Hq. destruct (Z.eqb_spec (len q) 0); [done|]. intros [= <-].
    rewrite app_nil_r. destruct Hq as [->|]; done. }
  revert p. induction cbs as [|c cbs IH]; intros p Hp Hv; cbn [u64_decimal_loop].
  { intros [= H <-]. exists []. pose proof H as [? ->]%Hstop; [|done].
    rewrite !app_nil_r in *. done. }
  destruct (OPENSSL_isdigit c) eqn:Hc; cbn [negb].
  2:{ intros [= H <-]. exists []. pose proof H as [? ->]%Hstop; [|done].
      rewrite !app_nil_r in *. done. }
  pose proof Hc as Hr. apply isdigit_range in Hr. unfold UINT64_MAX.
  destruct (_ || _) eqn:Hg; [done|]. rewrite !orb_false_iff, !Z.ltb_ge in Hg.
  destruct Hg as [[Hg1 Hg2] Hg3].
  assert (dec_val p * 10 < 2 ^ 64) by (Z.div_mod_to_equations; lia).
  rewrite wrap_small in Hg3 by lia. rewrite (wrap_small 64) by lia.
  intros Hl. destruct (IH (p ++ [c])) as (ds & -> & ? & ? & ? & ?).
  - right. apply dec_canonical_snoc; [done|]. destruct Hp as [->|Hp]; [by left | right].
    split; [done|]. destruct (Z.eqb_spec (len p) 0) as [->%len_0_nil|]; [|lia]. by destruct Hp.
  - rewrite dec_val_snoc. lia.
  - rewrite dec_val_snoc, len_app, len_cons, len_nil.
    rewrite <- Hl. f_equal. pose proof (len_nonneg p). destruct (Z.eqb_spec (len p + (0 + 1)) 0); [lia|done].
  - exists (c :: ds). rewrite <- app_assoc in *. done.
Qed.

(** A proper non-empty prefix of a canonical string is canonical and not zero. *)
Lemma dec_canonical_prefix p ds :
  dec_canonical (p ++ ds) -> ds <> [] -> p = [] \/ (dec_canonical p /\ dec_val p <> 0).
Proof.
  induction ds as [|c ds IH] using rev_ind; intros Hc Hds; [done|].
  assert (Hd : OPENSSL_isdigit c = true).
  { destruct Hc as (_ & Hd & _). rewrite !Forall_app, Forall_cons_iff in Hd. by destruct Hd as (_ & _ & ? & _). }
  rewrite app_assoc in Hc. apply dec_canonical_snoc in Hc as [H|[Hc Hz]]; [ | |done].
  { apply app_eq_nil in H as [-> _]. by left. }
  destruct (decide (ds = [])) as [->|]; [|by apply IH]. rewrite app_nil_r in *. by right.
Qed.

Lemma dec_val_prefix p ds :
  Forall (fun c => OPENSSL_isdigit c = true) (p ++ ds) -> dec_val p <= dec_val (p ++ ds).
Proof.
  induction ds as [|c ds IH] using rev_ind; intros Hd; [rewrite app_nil_r; lia|].
  rewrite app_assoc in *. pose proof Hd as Hd'. apply Forall_app in Hd as [Hd Hc].
  apply Forall_cons_iff in Hc as [Hc _]. apply isdigit_range in Hc.
  pose proof (dec_val_nonneg _ Hd). rewrite dec_val_snoc. specialize (IH Hd). lia.
Qed.

(** ... and every canonical string below 2^64 is accepted. *)
Lemma u64_decimal_complete ds p rest :
  dec_canonical (p ++ ds) -> dec_val (p ++ ds) < 2 ^ 64 -> no_digit rest ->
  u64_decimal_loop (ds ++ rest) (dec_val p) (negb (len p =? 0)) = (Some (dec_val (p ++ ds)), rest).
Proof.
  revert p. induction ds as [|c ds IH]; intros p Hc Hv Hr.
  { rewrite app_nil_r in *. cbn [app].
    assert (E : negb (len p =? 0) = true).
    { destruct (Z.eqb_spec (len p) 0) as [->%len_0_nil|]; [by destruct Hc | done]. }
    rewrite E. destruct rest as [|c rest]; cbn [u64_decimal_loop]; [done|].
    cbn in Hr. by rewrite Hr. }
  pose proof (dec_canonical_prefix p (c :: ds) Hc ltac:(done)) as Hpre.
  assert (Hd : Forall (fun c => OPENSSL_isdigit c = true) (p ++ c :: ds)) by apply Hc.
  replace (p ++ c :: ds) with ((p ++ [c]) ++ ds) in * by (by rewrite <- app_assoc).
  pose proof (dec_val_prefix (p ++ [c]) ds Hd) as Hle. rewrite dec_val_snoc in Hle.
  rewrite !Forall_app, Forall_cons_iff in Hd. destruct Hd as ((Hp & Hd & _) & _).
  pose proof (dec_val_nonneg p Hp). pose proof (proj1 (isdigit_range c) Hd).
  cbn [app u64_decimal_loop]. rewrite Hd. cbn [negb]. unfold UINT64_MAX.
  rewrite !wrap_small by lia.
  destruct (_ || _) eqn:Hg.
  { exfalso. rewrite !orb_true_iff, !Z.ltb_lt in Hg. destruct Hg as [[Hg|Hg]|Hg];
      [|Z.div_mod_to_equations; lia | lia].
    destruct Hpre as [->|[_ Hz]]; [done | lia]. }
  specialize (IH (p ++ [c]) Hc Hv Hr). rewrite dec_val_snoc, len_app in IH. rewrite <- IH.
  f_equal. change (len [c]) with 1. pose proof (len_nonneg p).
  destruct (Z.eqb_spec (len p + 1) 0); [lia | done].
Qed.

Lemma CBS_get_u64_decimal_iff cbs v rest :
  CBS_get_u64_decimal cbs = (Some v, rest) <->
  cbs = dec_string 20 v ++ rest /\ 0 <= v < 2 ^ 64 /\ no_digit rest.
Proof.
  split.
  - intros H. apply (u64_decimal_sound cbs []) in H as (ds & -> & Hc & -> & Hv & Hr); [|by left|done].
    cbn [app] in *. rewrite dec_string_val; [done | done | lia | lia].
  - intros (-> & Hv & Hr). destruct (dec_string_spec 20 v) as [Hc He]; [lia | lia |].
    pose proof (u64_decimal_complete (dec_string 20 v) [] rest) as H. cbn [app] in H.
    rewrite He in H. apply H; [done | lia | done].
Qed.

(** * Properties *)

(** The specification of a fixed-width read: it takes exactly [n] bytes, whose
    value is [val], and on a shorter input fails and consumes nothing. *)
Definition reads_uint (n : Z) (val : list Z -> Z) (m : rd Z) : Prop :=
  (forall l r, bytes l -> len l = n -> m (l ++ r) = (Some (val l), r)) /\
  (forall cbs, len cbs < n -> m cbs = (None, cbs)).

Lemma reads_uint_be n w : 0 <= n <= 8 -> n * 8 <= w ->
  reads_uint n be_val (rd_bind (cbs_get_u n) (fun v => rd_ret (wrap w v))).
Proof.
  intros Hn Hw. split.
  - intros l r Hl Hlen. unfold rd_bind. rewrite cbs_get_u_app by (done || lia).
    unfold rd_ret. do 2 f_equal. apply wrap_small. pose proof (be_val_range l Hl).
    rewrite Hlen in *. change 256 with (2 ^ 8) in *. rewrite <- Z.pow_mul_r in * by lia.
    assert (2 ^ (8 * n) <= 2 ^ w) by (apply Z.pow_le_mono_r; lia). lia.
  - intros cbs Hs. unfold rd_bind. by rewrite cbs_get_u_short.
Qed.

Lemma reads_uint_le n m f :
  reads_uint n be_val m -> (forall l, bytes l -> len l = n -> f (le_val l) = le_val (reverse l)) ->
  reads_uint n le_val (rd_bind m (fun v => rd_ret (f v))).
Proof.
  intros [Hok Hfail] Hf. split.
  - intros l r Hl Hlen. unfold rd_bind. rewrite (Hok l r) by done. unfold rd_ret.
    do 2 f_equal. rewrite <- (reverse_involutive l) at 1. rewrite be_val_reverse.
    rewrite Hf, reverse_involutive; [done | by apply bytes_reverse | zlia].
  - intros cbs Hs. unfold rd_bind. by rewrite Hfail.
Qed.

Lemma reads_uint_ext n v m m' : (forall cbs, m cbs = m' cbs) -> reads_uint n v m -> reads_uint n v m'.
Proof. intros E [H1 H2]. split; intros; rewrite <- E; auto. Qed.

Lemma reads_u64_be : reads_uint 8 be_val CBS_get_u64.
Proof.
  split; intros; [apply cbs_get_u_app; [done | done | lia] | by apply cbs_get_u_short].
Qed.

Lemma len_length (l : list Z) n : len l = Z.of_nat n -> length l = n.
Proof. unfold len. lia. Qed.

(** Every fixed-width reader consumes exactly its width in bytes and returns
    their big-endian (or, for the "le" forms, little-endian) value, and on a
    shorter input fails leaving the CBS as it was. *)
Theorem CBS_get_uint_correct :
  reads_uint 1 be_val CBS_get_u8 /\
  reads_uint 2 be_val CBS_get_u16 /\ reads_uint 2 le_val CBS_get_u16le /\
  reads_uint 3 be_val CBS_get_u24 /\
  reads_uint 4 be_val CBS_get_u32 /\ reads_uint 4 le_val CBS_get_u32le /\
  reads_uint 8 be_val CBS_get_u64 /\ reads_uint 8 le_val CBS_get_u64le.
Proof.
  assert (reads_uint 2 be_val CBS_get_u16) by by apply reads_uint_be.
  assert (reads_uint 4 be_val CBS_get_u32) by by apply reads_uint_be.
  split_and!; try done.
  - split; [|intros [|b l]; [done | zlia]]. intros [|b [|c l]] r Hl Hlen; try zlia.
    cbn [app]. rewrite CBS_get_u8_cons. by rewrite be_val_cons, Z.add_0_r, Z.mul_1_r.
  - apply reads_uint_le; [done|]. intros l Hl Hn. by apply bswap2_le, len_length.
  - by apply reads_uint_be.
  - apply reads_uint_le; [done|]. intros l Hl Hn. by apply bswap4_le, len_length.
  - apply reads_u64_be.
  - apply reads_uint_le; [apply reads_u64_be|]. intros l Hl Hn. by apply bswap8_le, len_length.
Qed.

(** A length-prefixed read succeeds exactly on a big-endian length of the
    prefix's width followed by that many bytes, whatever the width of size_t. *)
Theorem CBS_length_prefixed_correct `{Platform} n cbs k r :
  bytes cbs -> 1 <= n <= 3 ->
  cbs_get_length_prefixed n cbs = (Some k, r) <->
  cbs = be_bytes (Z.to_nat n) (len k) ++ k ++ r /\ len k < 256 ^ n.
Proof.
  intros Hb Hn. split; [by intros H'; apply length_prefixed_inv; [|lia|] |].
  intros [-> Hk]. pose proof (len_nonneg k).
  apply length_prefixed_app; [apply bytes_be_bytes | rewrite len_be_bytes; lia | lia |].
  rewrite be_val_be_bytes, Z2Nat.id by lia. apply Z.mod_small. lia.
Qed.

Lemma CBS_length_prefixed_witness :
  @cbs_get_length_prefixed ILP32 2 [0; 3; 7; 8; 9; 10] = (Some [7; 8; 9], [10]).
Proof.
  apply (@CBS_length_prefixed_correct ILP32 2 [0; 3; 7; 8; 9; 10] [7; 8; 9] [10]).
  - repeat constructor; done.
  - lia.
  - split; [by vm_compute | done].
Defined.

(** CBS_get_u64_decimal accepts exactly the shortest decimal representation
    of a 64-bit value: no leading zero, no overflow, and it stops at the first
    byte that is not a digit. *)
Theorem CBS_get_u64_decimal_correct cbs v rest :
  CBS_get_u64_decimal cbs = (Some v, rest) <->
  cbs = dec_string 20 v ++ rest /\ 0 <= v < 2 ^ 64 /\ no_digit rest.
Proof. apply CBS_get_u64_decimal_iff. Qed.
