(* ===== verification/Asn1.v ===== *)
(** Reading ASN.1 with a CBS: the DER and BER part of
    crypto/bytestring/cbs.cc, with the tag constants of
    include/openssl/bytestring.h.

    A tag is a 32-bit value: the class and constructed bits of the identifier
    octet in the top three bits, the tag number in the other 29. *)
From S2P Require Import Prelude.
From S2P Require Import Internal.
From S2P Require Import Cbs.

Open Scope rd_scope.

(** * Tags *)
Definition CBS_ASN1_TAG_SHIFT : Z := 24.
Definition CBS_ASN1_CONSTRUCTED : Z := 0x20 * 2 ^ 24.
Definition CBS_ASN1_CONTEXT_SPECIFIC : Z := 0x80 * 2 ^ 24.
Definition CBS_ASN1_TAG_NUMBER_MASK : Z := 2 ^ 29 - 1.
Definition CBS_ASN1_BOOLEAN : Z := 0x1.
Definition CBS_ASN1_INTEGER : Z := 0x2.
Definition CBS_ASN1_BITSTRING : Z := 0x3.
Definition CBS_ASN1_OCTETSTRING : Z := 0x4.
Definition CBS_ASN1_SEQUENCE : Z := Z.lor 0x10 CBS_ASN1_CONSTRUCTED.
Definition CBS_ASN1_SET : Z := Z.lor 0x11 CBS_ASN1_CONSTRUCTED.

(** * Parsing an element's header *)

(** The loop of [parse_base128_integer] from the accumulator [v]. *)
Fixpoint base128_loop (cbs : CBS) (v : Z) : option Z * CBS :=
  match cbs with
  | [] => (None, cbs)
  | b :: rest =>
      if negb (Z.shiftr v (64 - 7) =? 0) then (None, rest)
      else if (v =? 0) && (b =? 0x80) then (None, rest)
      else
        let v := Z.lor (u64 (Z.shiftl v 7)) (Z.land b 0x7f) in
        if Z.land b 0x80 =? 0 then (Some v, rest) else base128_loop rest v
  end.
Definition parse_base128_integer : rd Z := fun cbs => base128_loop cbs 0.

(** The tag number: the low five bits of the identifier octet or, when these
    are all ones, a base-128 integer. *)
Definition asn1_tag_number (tag_byte : Z) : rd Z :=
  let tag_number := Z.land tag_byte 0x1f in
  if tag_number =? 0x1f then
    v <-- parse_base128_integer ;;
    check (negb ((CBS_ASN1_TAG_NUMBER_MASK <? v) || (v <? 0x1f))) ;;
    rd_ret (u32 v)
  else rd_ret tag_number.

Definition parse_asn1_tag : rd Z :=
  tag_byte <-- CBS_get_u8 ;;
  tag_number <-- asn1_tag_number tag_byte ;;
  let tag := Z.lor (u32 (Z.shiftl (Z.land tag_byte 0xe0) CBS_ASN1_TAG_SHIFT)) tag_number in
  check (negb (Z.land tag (wnot 32 CBS_ASN1_CONSTRUCTED) =? 0)) ;;
  rd_ret tag.

(** The out-parameters of [cbs_get_any_asn1_element]. *)
Record element := mk_element {
  el_out : CBS; el_tag : Z; el_header_len : Z; el_ber_found : bool; el_indefinite : bool;
}.

Section Asn1.
Context `{P : Platform}.

(** The element is read through a copy, [header], and [cbs] advances only on
    success. [len] is a size_t: the sum of the content and header lengths is
    checked for wrapping round. *)
Definition cbs_get_any_asn1_element (ber_ok : bool) : rd element := fun cbs =>
  let get n tag header_len ber_found indefinite :=
    match CBS_get_bytes n cbs with
    | (Some out, cbs') => (Some (mk_element out tag header_len ber_found indefinite), cbs')
    | (None, cbs') => (None, cbs')
    end in
  match parse_asn1_tag cbs with
  | (None, _) => (None, cbs)
  | (Some tag, header) =>
    match CBS_get_u8 header with
    | (None, _) => (None, cbs)
    | (Some length_byte, header) =>
      let header_len := wrap size_bits (len cbs - len header) in
      if Z.land length_byte 0x80 =? 0 then
        get (wrap size_bits (length_byte + header_len)) tag header_len false false
      else
        let num_bytes := Z.land length_byte 0x7f in
        if ber_ok && negb (Z.land tag CBS_ASN1_CONSTRUCTED =? 0) && (num_bytes =? 0)
        then get header_len tag header_len true true
        else if (num_bytes =? 0) || (4 <? num_bytes) then (None, cbs)
        else
          match cbs_get_u num_bytes header with
          | (None, _) => (None, cbs)
          | (Some len64, _) =>
            let short := len64 <? 128 in
            let long := Z.shiftr len64 ((num_bytes - 1) * 8) =? 0 in
            if (short || long) && negb ber_ok then (None, cbs)
            else
              let n := wrap size_bits len64 in
              let total := wrap size_bits (n + header_len + num_bytes) in
              if total <? n then (None, cbs)
              else get total tag (wrap size_bits (header_len + num_bytes)) (short || long) false
          end
    end
  end.

Definition CBS_get_any_asn1_element : rd (CBS * Z * Z) :=
  e <-- cbs_get_any_asn1_element false ;; rd_ret (el_out e, el_tag e, el_header_len e).

Definition CBS_get_any_ber_asn1_element : rd element := cbs_get_any_asn1_element true.

(** [CBS_skip] on the element just read: the contents after the header. *)
Definition skip_header (out : CBS) (header_len : Z) : rd CBS := fun cbs =>
  match CBS_skip header_len out with
  | (Some _, out') => (Some out', cbs)
  | (None, _) => (None, cbs)
  end.

Definition CBS_get_any_asn1 : rd (CBS * Z) :=
  e <-- CBS_get_any_asn1_element ;;
  let '(out, tag, header_len) := e in
  out <-- skip_header out header_len ;;
  rd_ret (out, tag).

Definition cbs_get_asn1 (tag_value : Z) (skip : bool) : rd CBS :=
  e <-- CBS_get_any_asn1_element ;;
  let '(out, tag, header_len) := e in
  check (tag =? tag_value) ;;
  if skip then skip_header out header_len else rd_ret out.

Definition CBS_get_asn1 (tag_value : Z) : rd CBS := cbs_get_asn1 tag_value true.
Definition CBS_get_asn1_element (tag_value : Z) : rd CBS := cbs_get_asn1 tag_value false.

Definition CBS_peek_asn1_tag (cbs : CBS) (tag_value : Z) : bool :=
  match parse_asn1_tag cbs with
  | (Some actual_tag, _) => tag_value =? actual_tag
  | (None, _) => false
  end.

(** * INTEGER, BOOLEAN, BIT STRING, OBJECT IDENTIFIER contents *)

(** [Some is_negative] on a valid integer. *)
Definition CBS_is_valid_asn1_integer (cbs : CBS) : option bool :=
  match CBS_get_u8 cbs with
  | (None, _) => None
  | (Some first_byte, copy) =>
    let is_negative := negb (Z.land first_byte 0x80 =? 0) in
    match CBS_get_u8 copy with
    | (None, _) => Some is_negative
    | (Some second_byte, _) =>
      if ((first_byte =? 0x00) && (Z.land second_byte 0x80 =? 0))
         || ((first_byte =? 0xff) && negb (Z.land second_byte 0x80 =? 0))
      then None else Some is_negative
    end
  end.

Definition CBS_is_unsigned_asn1_integer (cbs : CBS) : bool :=
  match CBS_is_valid_asn1_integer cbs with Some is_negative => negb is_negative | None => false end.

(** The accumulation loop of [CBS_get_asn1_uint64]. *)
Fixpoint uint64_loop (data : list Z) (out : Z) : option Z :=
  match data with
  | [] => Some out
  | b :: data =>
      if negb (Z.shiftr out 56 =? 0) then None
      else uint64_loop data (Z.lor (u64 (Z.shiftl out 8)) b)
  end.

Definition CBS_get_asn1_uint64 : rd Z :=
  bytes <-- CBS_get_asn1 CBS_ASN1_INTEGER ;;
  check (CBS_is_unsigned_asn1_integer bytes) ;;
  match uint64_loop bytes 0 with Some v => rd_ret v | None => rd_fail end.

Definition CBS_get_asn1_int64 : rd Z :=
  bytes <-- CBS_get_asn1 CBS_ASN1_INTEGER ;;
  match CBS_is_valid_asn1_integer bytes with
  | None => rd_fail
  | Some is_negative =>
    check (negb (8 <? len bytes)) ;;
    let fill := if is_negative then 0xff else 0 in
    let sign_extend := replicate (Z.to_nat (8 - len bytes)) fill ++ bytes in
    rd_ret (swrap 64 (CRYPTO_load_u64_be sign_extend))
  end.

Definition CBS_get_asn1_bool : rd bool :=
  bytes <-- CBS_get_asn1 CBS_ASN1_BOOLEAN ;;
  check (len bytes =? 1) ;;
  let value := List.hd 0 bytes in
  check (negb (negb (value =? 0) && negb (value =? 0xff))) ;;
  rd_ret (negb (value =? 0)).

(** [None] inside is an absent element ([*out_present] = 0). *)
Definition CBS_get_optional_asn1 (tag : Z) : rd (option CBS) := fun cbs =>
  if CBS_peek_asn1_tag cbs tag then
    (out <-- CBS_get_asn1 tag ;; rd_ret (Some out)) cbs
  else (Some None, cbs).

(** Running a reader on the child and requiring that nothing is left of it. *)
Definition on_child {A} (m : rd A) (child : CBS) : rd A := fun cbs =>
  match m child with
  | (Some a, child') => if len child' =? 0 then (Some a, cbs) else (None, cbs)
  | (None, _) => (None, cbs)
  end.

Definition CBS_get_optional_asn1_octet_string (tag : Z) : rd (CBS * bool) :=
  o <-- CBS_get_optional_asn1 tag ;;
  match o with
  | Some child => out <-- on_child (CBS_get_asn1 CBS_ASN1_OCTETSTRING) child ;; rd_ret (out, true)
  | None => rd_ret ([], false)
  end.

Definition CBS_get_optional_asn1_uint64 (tag default_value : Z) : rd Z :=
  o <-- CBS_get_optional_asn1 tag ;;
  match o with
  | Some child => on_child CBS_get_asn1_uint64 child
  | None => rd_ret default_value
  end.

Definition CBS_get_optional_asn1_bool (tag : Z) (default_value : Z) : rd Z :=
  o <-- CBS_get_optional_asn1 tag ;;
  match o with
  | Some child =>
    child2 <-- on_child
      (child2 <-- CBS_get_asn1 CBS_ASN1_BOOLEAN ;; check (len child2 =? 1) ;; rd_ret child2) child ;;
    let boolean := List.hd 0 child2 in
    if boolean =? 0 then rd_ret 0 else if boolean =? 0xff then rd_ret 1 else rd_fail
  | None => rd_ret default_value
  end.

Definition CBS_is_valid_asn1_bitstring (cbs : CBS) : bool :=
  match CBS_get_u8 cbs with
  | (None, _) => false
  | (Some num_unused_bits, inp) =>
    if 7 <? num_unused_bits then false
    else if num_unused_bits =? 0 then true
    else match CBS_get_last_u8 inp with
         | (None, _) => false
         | (Some last, _) => Z.land last (Z.shiftl 1 num_unused_bits - 1) =? 0
         end
  end.

Definition CBS_asn1_bitstring_has_bit (cbs : CBS) (bit : Z) : bool :=
  if negb (CBS_is_valid_asn1_bitstring cbs) then false
  else
    let byte_num := u32 (Z.shiftr bit 3 + 1) in
    let bit_num := u32 (7 - Z.land bit 7) in
    (byte_num <? len cbs)
    && negb (Z.land (default 0 (znth cbs byte_num)) (Z.shiftl 1 bit_num) =? 0).

Fixpoint oid_loop (copy : CBS) (prev : Z) : bool :=
  match copy with
  | [] => Z.land prev 0x80 =? 0
  | v :: copy =>
      if (Z.land prev 0x80 =? 0) && (v =? 0x80) then false else oid_loop copy v
  end.
Definition CBS_is_valid_asn1_oid (cbs : CBS) : bool :=
  if len cbs =? 0 then false else oid_loop cbs 0.

End Asn1.

(** * Base-128 integers *)

(** The minimal big-endian base-128 encoding: [b128_hi] are the octets with the
    continuation bit, for a value below 128 ^ [n]. Ten octets hold 64 bits. *)
Fixpoint b128_hi (n : nat) (v : Z) : list Z :=
  match n with
  | O => []
  | S n => if v =? 0 then [] else b128_hi n (v / 128) ++ [128 + v mod 128]
  end.
Definition base128 (v : Z) : list Z := b128_hi 9 (v / 128) ++ [v mod 128].

Definition hi_val (l : list Z) : Z := fold_left (fun v c => v * 128 + (c - 128)) l 0.
Definition hi_octets (l : list Z) : Prop := Forall (fun c => 128 <= c < 256) l.
Definition hi_canonical (l : list Z) : Prop := hi_octets l /\ List.hd 0 l <> 128.

Lemma hi_val_snoc l c : hi_val (l ++ [c]) = hi_val l * 128 + (c - 128).
Proof. unfold hi_val. by rewrite fold_left_app. Qed.

Lemma hi_octets_snoc l c : hi_octets (l ++ [c]) <-> hi_octets l /\ 128 <= c < 256.
Proof. unfold hi_octets. rewrite Forall_app, Forall_cons_iff. intuition. Qed.

Lemma hi_val_nonneg l : hi_octets l -> 0 <= hi_val l.
Proof.
  induction l as [|c l IH] using rev_ind; [done|]. intros [Hl Hc]%hi_octets_snoc.
  rewrite hi_val_snoc. specialize (IH Hl). lia.
Qed.

Lemma hi_val_prefix p s : hi_octets (p ++ s) -> hi_val p <= hi_val (p ++ s).
Proof.
  induction s as [|c s IH] using rev_ind; intros H; [rewrite app_nil_r; lia|].
  rewrite app_assoc in *. apply hi_octets_snoc in H as [H Hc].
  pose proof (hi_val_nonneg _ H). rewrite hi_val_snoc. specialize (IH H). lia.
Qed.

Lemma hi_canonical_snoc l c : 128 <= c < 256 ->
  hi_canonical (l ++ [c]) <-> hi_canonical l /\ (l = [] -> c <> 128).
Proof.
  intros Hc. unfold hi_canonical. rewrite hi_octets_snoc. destruct l as [|a l]; cbn [List.hd app].
  - assert (hi_octets []) by constructor. intuition lia.
  - intuition done.
Qed.

Lemma hi_canonical_0 l : hi_canonical l -> hi_val l = 0 -> l = [].
Proof.
  induction l as [|c l IH] using rev_ind; [done|]. intros Hc H0.
  assert (Hr : 128 <= c < 256) by (destruct Hc as [Hc _]; by apply hi_octets_snoc in Hc as []).
  apply hi_canonical_snoc in Hc as [Hl Hc]; [|done]. rewrite hi_val_snoc in H0.
  pose proof (hi_val_nonneg l (proj1 Hl)). assert (l = []) as -> by (apply IH; [done | lia]).
  change (hi_val []) with 0 in H0. specialize (Hc eq_refl). lia.
Qed.

Lemma b128_hi_spec n v : 0 <= v < 128 ^ Z.of_nat n ->
  hi_canonical (b128_hi n v) /\ hi_val (b128_hi n v) = v.
Proof.
  revert v. induction n as [|n IH]; intros v Hv; cbn [b128_hi].
  { split; [split; [constructor | done] | cbn in *; lia]. }
  destruct (Z.eqb_spec v 0) as [->|]; [split; [split; [constructor|]|]; done|].
  rewrite Nat2Z.inj_succ, Z.pow_succ_r in Hv by lia.
  pose proof (Z.mod_pos_bound v 128 ltac:(lia)).
  destruct (IH (v / 128)) as [Hc He]; [split; Z.div_mod_to_equations; lia|].
  split; [|rewrite hi_val_snoc, He; Z.div_mod_to_equations; lia].
  apply hi_canonical_snoc; [lia|]. split; [done|]. intros E. rewrite E in He.
  change (hi_val []) with 0 in He. Z.div_mod_to_equations; lia.
Qed.

Lemma b128_hi_val n l : hi_canonical l -> hi_val l < 128 ^ Z.of_nat n -> b128_hi n (hi_val l) = l.
Proof.
  revert l. induction n as [|n IH]; intros l Hc Hv; cbn [b128_hi].
  { pose proof (hi_val_nonneg l (proj1 Hc)). symmetry. apply hi_canonical_0; [done | cbn in Hv; lia]. }
  destruct (Z.eqb_spec (hi_val l) 0); [by rewrite hi_canonical_0|].
  destruct l as [|c l] using rev_ind; [done|]. clear IHl.
  assert (Hr : 128 <= c < 256) by (destruct Hc as [Hc _]; by apply hi_octets_snoc in Hc as []).
  apply hi_canonical_snoc in Hc as [Hl Hc]; [|done]. rewrite hi_val_snoc in *.
  pose proof (hi_val_nonneg l (proj1 Hl)). rewrite Nat2Z.inj_succ, Z.pow_succ_r in Hv by lia.
  replace ((hi_val l * 128 + (c - 128)) / 128) with (hi_val l) by (Z.div_mod_to_equations; lia).
  replace ((hi_val l * 128 + (c - 128)) mod 128) with (c - 128) by (Z.div_mod_to_equations; lia).
  rewrite IH by (done || lia). do 2 f_equal. lia.
Qed.

(** Continuation octets end at the first octet below 128. *)
Lemma hi_split p b x q d y :
  hi_octets p -> hi_octets q -> d < 128 -> p ++ b :: x = q ++ d :: y ->
  exists s, q = p ++ s /\ (b < 128 -> s = [] /\ b = d /\ x = y) /\ (128 <= b -> List.hd 0 s = b).
Proof.
  revert q. induction p as [|a p IH]; intros q Hp Hq Hd E.
  - exists q. split; [done|]. destruct q as [|c q]; injection E as -> E; [split; [done | lia]|].
    apply Forall_cons_iff in Hq as [Hq _]. split; [lia | done].
  - apply Forall_cons_iff in Hp as [Ha Hp]. destruct q as [|c q].
    + injection E as -> _. lia.
    + injection E as -> E. apply Forall_cons_iff in Hq as [_ Hq].
      destruct (IH q) as (s & -> & Hs); [done.. |]. exists s. done.
Qed.

Lemma land_128 b : is_byte b -> (Z.land b 0x80 =? 0) = (b <? 128).
Proof.
  intros Hb. apply Bool.eqb_prop.
  apply (byte_forallb (fun b => Bool.eqb (Z.land b 0x80 =? 0) (b <? 128))); [by vm_compute | done].
Qed.

Lemma land_127 b : is_byte b -> Z.land b 0x7f = b mod 128.
Proof. intros _. change 0x7f with (Z.ones 7). by rewrite Z.land_ones. Qed.

(** One step of the loop on the accumulator. *)
Lemma base128_acc v b : 0 <= v < 2 ^ 57 -> is_byte b ->
  Z.lor (u64 (Z.shiftl v 7)) (Z.land b 0x7f) = v * 128 + b mod 128.
Proof.
  intros Hv Hb. rewrite wrap_small by (rewrite Z.shiftl_mul_pow2; lia).
  rewrite land_127, (lor_shiftl_add v (b mod 128) 7) by (done || lia || (unfold is_byte in Hb; Z.div_mod_to_equations; lia)). lia.
Qed.

(** The loop from [v], after its octets have been read, finds exactly the
    minimal encoding of a 64-bit value. *)
Lemma base128_loop_iff cbs v w r : bytes cbs -> 0 <= v < 2 ^ 64 ->
  base128_loop cbs v = (Some w, r) <->
  b128_hi 10 v ++ cbs = base128 w ++ r /\ 0 <= w < 2 ^ 64.
Proof.
  revert v. induction cbs as [|b cbs IH]; intros v Hcbs Hv; cbn [base128_loop].
  - split; [done|]. intros [E Hw]. exfalso. unfold base128 in E.
    rewrite app_nil_r, <- app_assoc in E.
    destruct (b128_hi_spec 10 v) as [[Ho _] _]; [lia|]. rewrite E in Ho.
    apply Forall_app in Ho as [_ Ho]. apply Forall_cons_iff in Ho as [Ho _].
    Z.div_mod_to_equations; lia.
  - apply bytes_cons in Hcbs as [Hb Hcbs].
    destruct (b128_hi_spec 10 v) as [Hc Hval]; [lia|]. rewrite land_128 by done.
    assert (Hsplit : b128_hi 10 v ++ b :: cbs = base128 w ++ r -> 0 <= w < 2 ^ 64 ->
      v <= w / 128 /\ (b < 128 -> v = w / 128 /\ b = w mod 128 /\ cbs = r) /\ (v = 0 -> b <> 128)).
    { clear IH. intros E Hx. unfold base128 in E. rewrite <- app_assoc in E.
      destruct (b128_hi_spec 9 (w / 128)) as [Hcx Hvx]; [Z.div_mod_to_equations; lia|].
      apply hi_split in E as (s & Es & Hs & Hs');
        [|apply Hc|apply Hcx|Z.div_mod_to_equations; lia].
      rewrite Es in Hvx, Hcx. split_and!.
      - rewrite <- Hvx, <- Hval at 1. apply hi_val_prefix, Hcx.
      - intros Hlt. destruct (Hs Hlt) as (-> & ? & ?). rewrite app_nil_r in Hvx.
        split_and!; [lia | done | done].
      - intros -> ->. destruct Hcx as [_ Hcx]. apply Hcx, Hs'. lia. }
    destruct (Z.eqb_spec (Z.shiftr v (64 - 7)) 0) as [Hsh|Hsh]; cbn [negb].
    2:{ split; [done|]. intros [E Hw]. destruct Hsh. apply Hsplit in E as [Hle _]; [|done].
        rewrite Z.shiftr_div_pow2 by lia. Z.div_mod_to_equations; lia. }
    rewrite Z.shiftr_div_pow2 in Hsh by lia.
    assert (Hv' : 0 <= v < 2 ^ 57) by (Z.div_mod_to_equations; lia). clear Hsh.
    destruct ((v =? 0) && (b =? 128)) eqn:Hz.
    { split; [done|]. intros [E Hw]. apply Hsplit in E as (_ & _ & E); [|done].
      apply andb_true_iff in Hz as [?%Z.eqb_eq ?%Z.eqb_eq]. by destruct (E ltac:(done)). }
    cbv zeta. rewrite base128_acc by done. unfold is_byte in Hb.
    destruct (Z.ltb_spec b 128).
    + rewrite (Z.mod_small b 128) by lia. split.
      * intros [= <- <-]. split; [|lia]. unfold base128.
        rewrite <- app_assoc. f_equal; [|cbn [app]; f_equal; Z.div_mod_to_equations; lia].
        replace ((v * 128 + b) / 128) with v by (Z.div_mod_to_equations; lia).
        rewrite <- Hval at 2. rewrite b128_hi_val by (done || lia). done.
      * intros [E Hw]. apply Hsplit in E as (_ & E & _); [|done].
        destruct E as (-> & -> & ->); [done|]. do 2 f_equal. Z.div_mod_to_equations; lia.
    + rewrite IH by (done || Z.div_mod_to_equations; lia).
      assert (Hn : b128_hi 10 (v * 128 + b mod 128) = b128_hi 10 v ++ [b]); [|by rewrite Hn, <- app_assoc].
      replace (b mod 128) with (b - 128) by (Z.div_mod_to_equations; lia).
      rewrite <- Hval at 1. rewrite <- hi_val_snoc. apply b128_hi_val.
      * apply hi_canonical_snoc; [lia|]. split; [done|]. intros E. rewrite E in Hval.
        change (hi_val []) with 0 in Hval. lia.
      * rewrite hi_val_snoc, Hval. lia.
Qed.

Lemma parse_base128_iff cbs w r : bytes cbs ->
  parse_base128_integer cbs = (Some w, r) <-> cbs = base128 w ++ r /\ 0 <= w < 2 ^ 64.
Proof. intros Hb. by apply (base128_loop_iff cbs 0). Qed.

(** * DER encodings *)

(** Tag [UNIVERSAL 0], primitive or constructed, is not a tag. *)
Definition valid_tag (t : Z) : Prop := 0 <= t < 2 ^ 32 /\ t <> 0 /\ t <> CBS_ASN1_CONSTRUCTED.

(** The identifier octets of a tag, the length octets of a length and the DER
    encoding of an element. *)
Definition der_tag (t : Z) : list Z :=
  let leading := t / 2 ^ 29 in
  let number := t mod 2 ^ 29 in
  if number <? 31 then [32 * leading + number] else (32 * leading + 31) :: base128 number.
Definition length_size (n : Z) : nat :=
  if n <? 2 ^ 8 then 1 else if n <? 2 ^ 16 then 2 else if n <? 2 ^ 24 then 3 else 4.
Definition der_length (n : Z) : list Z :=
  if n <? 128 then [n]
  else (128 + Z.of_nat (length_size n)) :: be_bytes (length_size n) n.
Definition der (t : Z) (body : list Z) : list Z := der_tag t ++ der_length (len body) ++ body.

Lemma tag_reserved t : 0 <= t < 2 ^ 32 ->
  (Z.land t (wnot 32 CBS_ASN1_CONSTRUCTED) =? 0) = false <-> t <> 0 /\ t <> CBS_ASN1_CONSTRUCTED.
Proof.
  intros Ht. change (wnot 32 CBS_ASN1_CONSTRUCTED) with ((2 ^ 29 - 1) + 2 ^ 29 * 6).
  change CBS_ASN1_CONSTRUCTED with (2 ^ 29).
  assert (exists h l, t = l + 2 ^ 29 * h /\ 0 <= h < 8 /\ 0 <= l < 2 ^ 29) as (h & l & -> & Hh & Hl).
  { exists (t / 2 ^ 29), (t mod 2 ^ 29). Z.div_mod_to_equations; lia. }
  rewrite land_split by lia. change (2 ^ 29 - 1) with (Z.ones 29).
  rewrite Z.land_ones, (Z.mod_small l) by lia.
  assert (h < 2 /\ Z.land h 6 = 0 \/ 2 <= h /\ 2 <= Z.land h 6) by
    (assert (h = 0 \/ h = 1 \/ h = 2 \/ h = 3 \/ h = 4 \/ h = 5 \/ h = 6 \/ h = 7)
       as [-> | [-> | [-> | [-> | [-> | [-> | [-> | ->]]]]]]] by lia; vm_compute; intuition congruence).
  rewrite Z.eqb_neq. lia.
Qed.

(** Splitting the identifier octet. *)
Lemma identifier_octet b : is_byte b ->
  u32 (Z.shiftl (Z.land b 0xe0) CBS_ASN1_TAG_SHIFT) = 2 ^ 29 * (b / 32) /\ Z.land b 0x1f = b mod 32.
Proof.
  intros Hb. split; [|change 0x1f with (Z.ones 5); by rewrite Z.land_ones].
  apply Z.eqb_eq.
  apply (byte_forallb (fun b => u32 (Z.shiftl (Z.land b 0xe0) CBS_ASN1_TAG_SHIFT) =? 2 ^ 29 * (b / 32)));
    [by vm_compute | done].
Qed.

Lemma rd_bind_some {A B} (m : rd A) (f : A -> rd B) cbs b r :
  rd_bind m f cbs = (Some b, r) <-> exists a c, m cbs = (Some a, c) /\ f a c = (Some b, r).
Proof.
  unfold rd_bind. destruct (m cbs) as [[a|] c].
  - split; [eauto|]. by intros (a' & c' & [= <- <-] & ?).
  - split; [done|]. by intros (a' & c' & ? & ?).
Qed.

Lemma rd_check_some {A} (g : bool) (m : rd A) cbs a r :
  rd_bind (rd_guard g) (fun _ => m) cbs = (Some a, r) <-> g = true /\ m cbs = (Some a, r).
Proof. unfold rd_bind, rd_guard. destruct g; cbn; intuition done. Qed.

Lemma rd_ret_some {A} (a b : A) (cbs r : CBS) : rd_ret a cbs = (Some b, r) <-> b = a /\ r = cbs.
Proof. unfold rd_ret. split; [by intros [= <- <-] | by intros [-> ->]]. Qed.

Lemma CBS_get_u8_some cbs b r : CBS_get_u8 cbs = (Some b, r) <-> cbs = b :: r.
Proof.
  destruct cbs as [|c cbs]; [done|]. rewrite CBS_get_u8_cons.
  split; [by intros [= <- <-] | by intros [= -> ->]].
Qed.

(** Joining the leading bits and the tag number. *)
Lemma tag_join h n : 0 <= n < 2 ^ 29 -> Z.lor (2 ^ 29 * h) n = 2 ^ 29 * h + n.
Proof.
  intros Hn. rewrite Z.mul_comm, <- Z.shiftl_mul_pow2, lor_shiftl_add by lia.
  by rewrite Z.shiftl_mul_pow2 by lia.
Qed.

Lemma asn1_tag_number_iff b cbs n r : is_byte b -> bytes cbs ->
  asn1_tag_number b cbs = (Some n, r) <->
  0 <= n < 2 ^ 29 /\
  ((n < 31 /\ n = b mod 32 /\ cbs = r) \/ (31 <= n /\ b mod 32 = 31 /\ cbs = base128 n ++ r)).
Proof.
  intros Hb Hc. unfold asn1_tag_number. destruct (identifier_octet b Hb) as [_ ->].
  pose proof (Z.mod_pos_bound b 32 ltac:(lia)). cbv zeta.
  destruct (Z.eqb_spec (b mod 32) 0x1f) as [E|E].
  - rewrite rd_bind_some. setoid_rewrite rd_check_some. setoid_rewrite rd_ret_some.
    unfold CBS_ASN1_TAG_NUMBER_MASK. split.
    + intros (v & c' & Hp & Hg & -> & ->). apply parse_base128_iff in Hp as [-> Hv]; [|done].
      rewrite wrap_small by lia. split; [lia|]. right. split_and!; [lia | done | done].
    + intros [Hn [? | (Hge & _ & ->)]]; [lia|]. exists n, r.
      rewrite parse_base128_iff, wrap_small by (done || lia). split_and!; (done || lia).
  - rewrite rd_ret_some. split.
    + intros [-> ->]. split; [lia|]. left. split_and!; [lia | done | done].
    + by intros [Hn [(_ & -> & ->) | (_ & ? & _)]].
Qed.

(** An identifier is accepted exactly when it is the shortest one of its tag. *)
Lemma parse_asn1_tag_iff cbs t r : bytes cbs ->
  parse_asn1_tag cbs = (Some t, r) <-> cbs = der_tag t ++ r /\ valid_tag t.
Proof.
  intros Hb. unfold parse_asn1_tag. rewrite rd_bind_some. split.
  - intros (b & c & ->%CBS_get_u8_some & (n & c' & Hn & H)%rd_bind_some).
    apply rd_check_some in H as [Hres [-> ->]%rd_ret_some].
    apply bytes_cons in Hb as [Hb Hc]. apply asn1_tag_number_iff in Hn as [Hn Hcase]; [|done..].
    destruct (identifier_octet b Hb) as [Hbits _]. rewrite Hbits, tag_join in * by done.
    unfold is_byte in Hb.
    assert (Hrange : 0 <= 2 ^ 29 * (b / 32) + n < 2 ^ 32) by (Z.div_mod_to_equations; lia).
    apply negb_true_iff, tag_reserved in Hres; [|done]. split; [|done].
    unfold der_tag. rewrite (Z.add_comm _ n), split_div, split_mod by lia.
    destruct Hcase as [(Hlt & -> & ->) | (Hge & Hm & ->)]; zcases; try lia; cbn [app];
      f_equal; Z.div_mod_to_equations; lia.
  - intros [-> (Ht & Hres)]. apply tag_reserved in Hres; [|done].
    unfold der_tag in *. set (h := t / 2 ^ 29) in *. set (n := t mod 2 ^ 29) in *. cbv zeta in *.
    assert (Hth : t = 2 ^ 29 * h + n) by (apply Z.div_mod; lia).
    assert (0 <= n < 2 ^ 29) by (apply Z.mod_pos_bound; lia). assert (0 <= h < 8) by lia.
    exists (32 * h + (if n <? 31 then n else 31)), ((if n <? 31 then [] else base128 n) ++ r).
    assert (Hbyte : is_byte (32 * h + (if n <? 31 then n else 31))) by (unfold is_byte; zcases; lia).
    split; [zcases; apply CBS_get_u8_some; done|]. apply rd_bind_some. exists n, r.
    rewrite rd_check_some, rd_ret_some, (proj1 (identifier_octet _ Hbyte)).
    replace ((32 * h + (if n <? 31 then n else 31)) / 32) with h by (zcases; Z.div_mod_to_equations; lia).
    rewrite tag_join, <- Hth, Hres by done. split; [|done].
    apply asn1_tag_number_iff; [done | zcases; by apply bytes_cons in Hb as [_ Hb] |].
    split; [done|]. zcases; [left | right]; (split_and!; [done | Z.div_mod_to_equations; lia | done]).
Qed.

(** Length octets of the long form, and only those, are minimal. *)
Lemma der_length_long l : bytes l -> 1 <= len l <= 4 -> 128 <= be_val l ->
  256 ^ (len l - 1) <= be_val l -> der_length (be_val l) = (128 + len l) :: l.
Proof.
  intros Hl Hk H128 Hmin. pose proof (be_val_range l Hl) as Hr.
  assert (Hs : Z.of_nat (length_size (be_val l)) = len l).
  { unfold length_size.
    assert (len l = 1 \/ len l = 2 \/ len l = 3 \/ len l = 4) as [E|[E|[E|E]]] by lia;
      rewrite E in *; zcases; lia. }
  unfold der_length. destruct (Z.ltb_spec (be_val l) 128); [lia|]. rewrite Hs. f_equal.
  replace (length_size (be_val l)) with (length l) by (unfold len in Hs; lia).
  by apply be_bytes_be_val.
Qed.

Lemma der_length_long_inv n : 128 <= n < 2 ^ 32 ->
  exists l, bytes l /\ 1 <= len l <= 4 /\ be_val l = n /\ 256 ^ (len l - 1) <= n /\
    der_length n = (128 + len l) :: l.
Proof.
  intros Hn. exists (be_bytes (length_size n) n).
  assert (Hk : (1 <= length_size n <= 4)%nat /\ 256 ^ (Z.of_nat (length_size n) - 1) <= n
    /\ n < 256 ^ Z.of_nat (length_size n)) by (unfold length_size; zcases; cbn; lia).
  rewrite len_be_bytes, be_val_be_bytes, Z.mod_small by lia.
  split_and!; try lia; [apply bytes_be_bytes|].
  unfold der_length. destruct (Z.ltb_spec n 128); [lia | done].
Qed.

Lemma len_b128_hi n v : len (b128_hi n v) <= Z.of_nat n.
Proof.
  revert v. induction n as [|n IH]; intros v; cbn [b128_hi]; [done|].
  destruct (v =? 0); [rewrite len_nil; lia|]. specialize (IH (v / 128)). zlia.
Qed.
Lemma len_der_tag t : 1 <= len (der_tag t) <= 11.
Proof.
  unfold der_tag, base128. pose proof (len_b128_hi 9 (t mod 2 ^ 29 / 128)).
  cbv zeta. destruct (t mod 2 ^ 29 <? 31); rewrite ?len_cons, ?len_app, ?len_cons, ?len_nil; zlen_facts; lia.
Qed.
Lemma len_der_length n : 1 <= len (der_length n) <= 5.
Proof. unfold der_length, length_size. zcases; rewrite ?len_cons, ?len_be_bytes, ?len_nil; lia. Qed.

Lemma cbs_get_split h k n out r : 0 <= n ->
  cbs_get (len h + n) (h ++ k) = (Some out, r) <->
  exists body, out = h ++ body /\ k = body ++ r /\ len body = n.
Proof.
  intros Hn. split.
  - intros H. pose proof (len_nonneg h). apply cbs_get_inv in H as [E Hl]; [|lia].
    exists (zdrop (len h) out).
    assert (Ho : out = h ++ zdrop (len h) out).
    { rewrite <- (ztake_zdrop (len h) out) at 1. f_equal.
      assert (Ht : ztake (len h) (out ++ r) = h) by (rewrite <- E; apply ztake_app_len).
      unfold ztake in *. rewrite take_app_le in Ht; [done | unfold len in *; lia]. }
    split_and!; [done | | rewrite len_zdrop; lia].
    rewrite Ho, <- app_assoc in E. by apply app_inv_head in E.
  - intros (body & -> & -> & <-). rewrite app_assoc. apply cbs_get_app. zlia.
Qed.

Lemma shiftr_bytes v k : 0 <= v -> 0 <= k -> (Z.shiftr v (k * 8) =? 0) = (v <? 256 ^ k).
Proof.
  intros Hv Hk. rewrite Z.shiftr_div_pow2, Z.mul_comm, Z.pow_mul_r by lia. change (2 ^ 8) with 256.
  assert (0 < 256 ^ k) by (apply Z.pow_pos_nonneg; lia).
  apply Bool.eq_iff_eq_true. rewrite Z.eqb_eq, Z.ltb_lt, Z.div_small_iff by lia. lia.
Qed.

Section Elements.
Context `{P : Platform}.

(** The element reader once the identifier has been read. *)
Lemma any_element_tag ber cbs t lb h :
  bytes cbs -> len cbs <= size_max -> valid_tag t -> cbs = der_tag t ++ lb :: h ->
  let hl := len (der_tag t) + 1 in
  let get n hl ber indef :=
    match cbs_get n cbs with
    | (Some out, r) => (Some (mk_element out t hl ber indef), r)
    | (None, r) => (None, r)
    end in
  cbs_get_any_asn1_element ber cbs =
  if lb <? 128 then get (hl + lb) hl false false
  else
    let k := lb - 128 in
    if ber && negb (Z.land t CBS_ASN1_CONSTRUCTED =? 0) && (k =? 0) then get hl hl true true
    else if (k =? 0) || (4 <? k) || (len h <? k) then (None, cbs)
    else
      let n := be_val (ztake k h) in
      let nonmin := (n <? 128) || (n <? 256 ^ (k - 1)) in
      if nonmin && negb ber || (size_max <? n + hl + k) then (None, cbs)
      else get (n + hl + k) (hl + k) nonmin false.
Proof.
  intros Hb Hlen Ht Hc hl get. pose proof (len_der_tag t) as Hlt.
  unfold cbs_get_any_asn1_element.
  assert (Htag : parse_asn1_tag cbs = (Some t, lb :: h)) by (by apply parse_asn1_tag_iff).
  rewrite Htag, CBS_get_u8_cons. unfold CBS_get_bytes.
  assert (Hb' := Hb). rewrite Hc in Hb'. apply bytes_app in Hb' as [_ Hb'].
  apply bytes_cons in Hb' as [Hlb Hh].
  assert (Hhl : wrap size_bits (len cbs - len h) = hl).
  { subst hl. rewrite wrap_small; [rewrite Hc; zlia|]. unfold size_max in Hlen.
    rewrite Hc in Hlen |- *. zlia. }
  cbv zeta. rewrite Hhl, land_128, land_127 by done. fold hl. unfold is_byte in Hlb.
  assert (Hsz : hl + 256 < 2 ^ size_bits) by (subst hl; platform; lia).
  destruct (Z.ltb_spec lb 128) as [Hs|Hs].
  { rewrite wrap_small, Z.add_comm by lia. done. }
  replace (lb mod 128) with (lb - 128) by (Z.div_mod_to_equations; lia).
  destruct (ber && _ && _) eqn:Hindef; [done|].
  destruct ((lb - 128 =? 0) || (4 <? lb - 128)) eqn:Hk; [done|]. cbn [orb].
  destruct (Z.ltb_spec (len h) (lb - 128)); [by rewrite cbs_get_u_short|].
  assert (Hk' : 1 <= lb - 128 <= 4) by lia. clear Hk Hindef.
  destruct (cbs_get_u_ok (lb - 128) h) as (l & h' & -> & Hl & Hbl & _ & ->); [done | lia | done |].
  rewrite <- Hl, ztake_app_len. pose proof (be_val_range l Hbl) as Hr.
  assert (256 ^ len l <= 256 ^ 4) by (apply Z.pow_le_mono_r; lia).
  rewrite shiftr_bytes, (wrap_small _ (be_val l)), (wrap_small _ (hl + len l)) by (platform; lia).
  destruct (_ && negb ber); [done|]. cbn [orb].
  assert (Hov : (wrap size_bits (be_val l + hl + len l) <? be_val l) = (size_max <? be_val l + hl + len l)
    /\ (be_val l + hl + len l <= size_max -> wrap size_bits (be_val l + hl + len l) = be_val l + hl + len l)).
  { unfold size_max, wrap. clear -Hr Hlt Hk' Hl H0. subst hl.
    platform; Z.div_mod_to_equations; lia. }
  destruct Hov as [-> Hov]. destruct (Z.ltb_spec size_max (be_val l + hl + len l)); [done|].
  by rewrite Hov.
Qed.

(** The parts every successful parse has. *)
Lemma any_element_inv ber cbs e r : bytes cbs -> cbs_get_any_asn1_element ber cbs = (Some e, r) ->
  exists t lb h, cbs = der_tag t ++ lb :: h /\ valid_tag t.
Proof.
  intros Hb H. unfold cbs_get_any_asn1_element in H.
  destruct (parse_asn1_tag cbs) as [[t|] h] eqn:Ht; [|done].
  apply parse_asn1_tag_iff in Ht as [-> Ht]; [|done].
  destruct (CBS_get_u8 h) as [[lb|] h'] eqn:Hl; [|done]. apply CBS_get_u8_some in Hl as ->. eauto.
Qed.

Definition der_element (t : Z) (body : CBS) : element :=
  mk_element (der t body) t (len (der_tag t) + len (der_length (len body))) false false.

Lemma get_element_iff m h k n t hl b i e r : 0 <= n -> m = len h + n ->
  match cbs_get m (h ++ k) with
  | (Some out, r) => (Some (mk_element out t hl b i), r)
  | (None, r) => (None, r)
  end = (Some e, r) <->
  exists body, e = mk_element (h ++ body) t hl b i /\ k = body ++ r /\ len body = n.
Proof.
  intros Hn ->. split.
  - destruct (cbs_get _ _) as [[out|] r'] eqn:E; [|done]. intros [= <- <-].
    apply cbs_get_split in E as (body & -> & -> & ?); [|done]. eauto.
  - intros (body & -> & -> & <-). rewrite app_assoc, cbs_get_app by zlia. done.
Qed.

(** DER elements, and only those, are accepted: the encoding is unique. *)
Lemma any_der_element_sound cbs e r : bytes cbs -> len cbs <= size_max ->
  cbs_get_any_asn1_element false cbs = (Some e, r) ->
  exists t body, e = der_element t body /\ cbs = der t body ++ r /\ valid_tag t /\ len body < 2 ^ 32.
Proof.
  intros Hb Hlen H. destruct (any_element_inv _ _ _ _ Hb H) as (t & lb & h & Hc & Ht). exists t.
  rewrite (any_element_tag _ _ t lb h) in H by done. cbn [andb negb] in H. cbv zeta in H.
  assert (Hb' := Hb). rewrite Hc in Hb'. apply bytes_app in Hb' as [_ Hb'].
  apply bytes_cons in Hb' as [Hlb Hh]. unfold is_byte in Hlb. unfold der_element, der.
  destruct (Z.ltb_spec lb 128).
  - rewrite Hc in H. replace (der_tag t ++ lb :: h) with ((der_tag t ++ [lb]) ++ h) in H by (by rewrite <- app_assoc).
    apply (get_element_iff _ _ _ lb) in H as (body & -> & -> & <-); [|lia|zlia]. exists body.
    assert (Hl : der_length (len body) = [len body]) by (unfold der_length; zcases; [done | lia]).
    rewrite Hc, Hl, <- !app_assoc. cbn [app]. split_and!; [done | done | done | lia].
  - destruct (_ || (len h <? lb - 128)) eqn:Hk; [done|].
    destruct (_ || (size_max <? _)) eqn:Hm; [done|].
    assert (Hk' : 1 <= lb - 128 <= 4 /\ lb - 128 <= len h) by lia.
    set (l := ztake (lb - 128) h) in *. assert (Hll : len l = lb - 128) by (apply len_ztake; lia).
    assert (Hbl : bytes l) by (by apply bytes_ztake).
    assert (Hlong : der_length (be_val l) = lb :: l).
    { rewrite der_length_long; [f_equal; lia | done | lia | lia | rewrite Hll; lia]. }
    assert (Hh' : der_tag t ++ lb :: h = (der_tag t ++ lb :: l) ++ zdrop (lb - 128) h).
    { rewrite <- app_assoc. cbn [app]. subst l. by rewrite ztake_zdrop. }
    assert (Hnm : (be_val l <? 128) || (be_val l <? 256 ^ (lb - 128 - 1)) = false) by lia.
    rewrite Hnm, Hc, Hh' in H. pose proof (be_val_range l Hbl).
    assert (256 ^ len l <= 256 ^ 4) by (apply Z.pow_le_mono_r; lia).
    apply (get_element_iff _ _ _ (be_val l)) in H as (body & -> & Hz & Hbody); [|lia|zlia]. exists body.
    rewrite Hbody, Hlong, Hc, Hh', Hz, <- !app_assoc. cbn [app].
    split_and!; [f_equal; zlia | done | done | lia].
Qed.

Lemma any_der_element_complete t body r :
  bytes (der t body ++ r) -> len (der t body ++ r) <= size_max -> valid_tag t -> len body < 2 ^ 32 ->
  cbs_get_any_asn1_element false (der t body ++ r) = (Some (der_element t body), r).
Proof.
  intros Hb Hlen Ht Hbody. unfold der_element.
  destruct (Z.lt_ge_cases (len body) 128) as [Hs|Hs].
  - assert (Hl : der_length (len body) = [len body]) by (unfold der_length; zcases; [done | lia]).
    assert (Hc : der t body ++ r = der_tag t ++ len body :: body ++ r)
      by (unfold der; by rewrite Hl, <- !app_assoc).
    rewrite (any_element_tag _ _ t (len body) (body ++ r)) by done. cbv zeta.
    destruct (Z.ltb_spec (len body) 128); [|lia].
    replace (der t body ++ r) with ((der_tag t ++ [len body]) ++ body ++ r) by (by rewrite Hc, <- app_assoc).
    apply (get_element_iff _ _ _ (len body)); [zlia | zlia |]. exists body. unfold der. rewrite Hl, <- app_assoc.
    split_and!; done.
  - destruct (der_length_long_inv (len body)) as (l & Hbl & Hk & Hv & Hmin & Hl); [lia|].
    assert (Hc : der t body ++ r = der_tag t ++ (128 + len l) :: l ++ body ++ r)
      by (unfold der; by rewrite Hl, <- !app_assoc).
    rewrite (any_element_tag _ _ t (128 + len l) (l ++ body ++ r)) by done. cbv zeta. cbn [andb negb].
    destruct (Z.ltb_spec (128 + len l) 128); [lia|].
    replace (128 + len l - 128) with (len l) by lia. rewrite ztake_app_len, Hv.
    destruct ((len l =? 0) || (4 <? len l) || _) eqn:Hg; [zlia|].
    assert (Hnm : (len body <? 128) || (len body <? 256 ^ (len l - 1)) = false) by lia.
    rewrite Hnm. cbn [andb orb]. rewrite Hc in Hlen.
    destruct (Z.ltb_spec size_max (len body + (len (der_tag t) + 1) + len l)); [zlia|].
    replace (der t body ++ r) with ((der_tag t ++ (128 + len l) :: l) ++ body ++ r) by (by rewrite Hc, <- app_assoc).
    apply (get_element_iff _ _ _ (len body)); [zlia | zlia |]. exists body. unfold der. rewrite Hl, <- app_assoc.
    split_and!; [f_equal; zlia | done | done].
Qed.

Lemma skip_header_der t body r :
  skip_header (der t body) (el_header_len (der_element t body)) r = (Some body, r).
Proof.
  unfold skip_header, CBS_skip, rd_bind, der_element, der. cbn [el_header_len].
  rewrite app_assoc, cbs_get_app by zlia. done.
Qed.

Lemma any_element_der_iff cbs x r : bytes cbs -> len cbs <= size_max ->
  CBS_get_any_asn1_element cbs = (Some x, r) <->
  exists t body, x = (der t body, t, el_header_len (der_element t body)) /\
    cbs = der t body ++ r /\ valid_tag t /\ len body < 2 ^ 32.
Proof.
  intros Hb Hl. unfold CBS_get_any_asn1_element. rewrite rd_bind_some. split.
  - intros (e & c & (t & body & -> & -> & ? & ?)%any_der_element_sound & [-> ->]%rd_ret_some); [|done..].
    by exists t, body.
  - intros (t & body & -> & -> & ? & ?). exists (der_element t body), r.
    rewrite any_der_element_complete by done. by rewrite rd_ret_some.
Qed.

Lemma get_any_asn1_iff cbs body t r : bytes cbs -> len cbs <= size_max ->
  CBS_get_any_asn1 cbs = (Some (body, t), r) <->
  cbs = der t body ++ r /\ valid_tag t /\ len body < 2 ^ 32.
Proof.
  intros Hb Hl. unfold CBS_get_any_asn1. rewrite rd_bind_some. split.
  - intros (x & c & (t' & b' & -> & -> & Ht & Hlb)%any_element_der_iff & H); [|done..].
    cbv beta iota in H. unfold rd_bind in H. rewrite skip_header_der in H.
    by apply rd_ret_some in H as [[= -> ->] ->].
  - intros (-> & Ht & Hlb).
    exists (der t body, t, el_header_len (der_element t body)), r.
    split; [apply any_element_der_iff; [done..|]; by exists t, body|].
    unfold rd_bind. by rewrite skip_header_der.
Qed.

Lemma get_asn1_iff t cbs body r : bytes cbs -> len cbs <= size_max ->
  CBS_get_asn1 t cbs = (Some body, r) <-> cbs = der t body ++ r /\ valid_tag t /\ len body < 2 ^ 32.
Proof.
  intros Hb Hl. unfold CBS_get_asn1, cbs_get_asn1. rewrite rd_bind_some. split.
  - intros (x & c & (t' & b' & -> & -> & Ht & Hlb)%any_element_der_iff & H); [|done..].
    cbv beta iota in H. apply rd_check_some in H as [->%Z.eqb_eq H].
    rewrite skip_header_der in H. by injection H as -> ->.
  - intros (-> & Ht & Hlb).
    exists (der t body, t, el_header_len (der_element t body)), r.
    split; [apply any_element_der_iff; [done..|]; by exists t, body|].
    rewrite rd_check_some, Z.eqb_refl, skip_header_der. done.
Qed.

Lemma get_asn1_element_iff t cbs out r : bytes cbs -> len cbs <= size_max ->
  CBS_get_asn1_element t cbs = (Some out, r) <->
  exists body, out = der t body /\ cbs = der t body ++ r /\ valid_tag t /\ len body < 2 ^ 32.
Proof.
  intros Hb Hl. unfold CBS_get_asn1_element, cbs_get_asn1. rewrite rd_bind_some. split.
  - intros (x & c & (t' & b' & -> & -> & Ht & Hlb)%any_element_der_iff & H); [|done..].
    cbv beta iota in H. apply rd_check_some in H as [->%Z.eqb_eq [-> ->]%rd_ret_some].
    by exists b'.
  - intros (body & -> & -> & Ht & Hlb).
    exists (der t body, t, el_header_len (der_element t body)), r.
    split; [apply any_element_der_iff; [done..|]; by exists t, body|].
    by rewrite rd_check_some, Z.eqb_refl, rd_ret_some.
Qed.

Lemma get_element_flag m cbs t hl b i e r :
  match cbs_get m cbs with
  | (Some out, r) => (Some (mk_element out t hl b i), r)
  | (None, r) => (None, r)
  end = (Some e, r) -> el_ber_found e = b.
Proof. destruct (cbs_get m cbs) as [[?|] ?]; [by intros [= <- _] | done]. Qed.

(** The BER reader accepts all of DER, and says so: [ber_found] is false exactly
    on the elements the DER reader accepts. *)
Lemma ber_der_agree cbs e r : bytes cbs -> len cbs <= size_max ->
  cbs_get_any_asn1_element false cbs = (Some e, r) <->
  cbs_get_any_asn1_element true cbs = (Some e, r) /\ el_ber_found e = false.
Proof.
  intros Hb Hl. assert (Heq : forall t lb h, cbs = der_tag t ++ lb :: h -> valid_tag t ->
    (cbs_get_any_asn1_element false cbs = (Some e, r) <->
     cbs_get_any_asn1_element true cbs = (Some e, r) /\ el_ber_found e = false)).
  { intros t lb h Hc Ht. rewrite !(any_element_tag _ _ t lb h) by done. cbv zeta. cbn [andb negb].
    destruct (lb <? 128); [split; [|by intros [? _]]; intros H; split; [done | by apply get_element_flag in H]|].
    destruct (Z.eqb_spec (lb - 128) 0) as [->|]; cbn [orb].
    { rewrite andb_true_r. destruct (negb _); [|by split; [|intros []]].
      split; [done|]. intros [H Hf]. apply get_element_flag in H. congruence. }
    rewrite andb_false_r. destruct (_ || _); [by split; [|intros []]|].
    rewrite andb_false_r, andb_true_r. cbn [orb].
    destruct (_ || (_ <? 256 ^ _)) eqn:Hnm; cbn [orb].
    - split; [done|]. destruct (size_max <? _); [by intros []|].
      intros [H Hf]. apply get_element_flag in H. congruence.
    - destruct (size_max <? _); [by split; [|intros []]|].
      split; [|by intros [? _]]. intros H. split; [done | by apply get_element_flag in H]. }
  split.
  - intros H. pose proof (any_element_inv _ _ _ _ Hb H) as (t & lb & h & Hc & Ht). by apply (Heq t lb h).
  - intros [H Hf]. pose proof (any_element_inv _ _ _ _ Hb H) as (t & lb & h & Hc & Ht). by apply (Heq t lb h).
Qed.

(** Every element, DER or BER, is a prefix of the input that starts with its
    header, and the rest is what is left; a failed read leaves the input. *)
Lemma any_element_split ber cbs e r : bytes cbs -> len cbs <= size_max ->
  cbs_get_any_asn1_element ber cbs = (Some e, r) ->
  cbs = el_out e ++ r /\ 2 <= el_header_len e <= len (el_out e) /\
  (el_indefinite e = true -> el_header_len e = len (el_out e)).
Proof.
  intros Hb Hl H. destruct (any_element_inv _ _ _ _ Hb H) as (t & lb & h & Hc & Ht).
  rewrite (any_element_tag _ _ t lb h) in H by done. cbv zeta in H. pose proof (len_der_tag t).
  assert (Hlb : 0 <= lb < 256).
  { rewrite Hc in Hb. apply bytes_app in Hb as [_ Hb]. by apply bytes_cons in Hb as [Hb _]. }
  assert (Hget : forall m hl b i, 2 <= hl <= m -> (i = true -> hl = m) ->
    match cbs_get m cbs with
    | (Some out, r) => (Some (mk_element out t hl b i), r)
    | (None, r) => (None, r)
    end = (Some e, r) -> cbs = el_out e ++ r /\ 2 <= el_header_len e <= len (el_out e) /\
      (el_indefinite e = true -> el_header_len e = len (el_out e))).
  { intros m hl b i Hm Hi. destruct (cbs_get m cbs) as [[out|] r'] eqn:E; [|done].
    intros [= <- <-]. apply cbs_get_inv in E as [-> <-]; [|lia]. done. }
  destruct (Z.ltb_spec lb 128); [by apply Hget in H; [| lia | done]|].
  destruct (ber && _ && _); [by apply Hget in H; [| lia | done]|].
  destruct (_ || (len h <? _)); [done|]. destruct (_ || (size_max <? _)); [done|].
  apply Hget in H; [done | | done].
  assert (0 <= be_val (ztake (lb - 128) h)); [|lia].
  apply be_val_range, bytes_ztake. rewrite Hc in Hb.
  apply bytes_app in Hb as [_ Hb]. by apply bytes_cons in Hb as [_ Hb].
Qed.

Lemma any_element_fail ber cbs r : cbs_get_any_asn1_element ber cbs = (None, r) -> r = cbs.
Proof.
  assert (Hget : forall m t hl b i r, match CBS_get_bytes m cbs with
    | (Some out, r) => (Some (mk_element out t hl b i), r)
    | (None, r) => (None, r)
    end = (None, r) -> r = cbs).
  { intros. unfold CBS_get_bytes, cbs_get in *. destruct (_ <? _); simplify_eq; done. }
  unfold cbs_get_any_asn1_element. cbv zeta.
  repeat first [ by eauto | case_match ]; try (by intros [= <-]); intros H'; by eapply Hget.
Qed.
End Elements.

(** * INTEGER contents *)

(** The value of two's-complement octets, and the minimal octets of a value that
    fits in [n] of them. *)
Definition twos_val (l : list Z) : Z :=
  be_val l - (if List.hd 0 l <? 128 then 0 else 256 ^ len l).
Fixpoint int_octets (n : nat) (v : Z) : list Z :=
  match n with
  | O => []
  | S n =>
      if (-128 <=? v) && (v <? 128) then [v mod 256] else int_octets n (v / 256) ++ [v mod 256]
  end.

Definition minimal_integer (l : list Z) : Prop :=
  match l with
  | [] => False
  | [_] => True
  | a :: b :: _ => ~ (a = 0 /\ b < 128) /\ ~ (a = 255 /\ 128 <= b)
  end.

Lemma valid_integer_iff l neg : bytes l ->
  CBS_is_valid_asn1_integer l = Some neg <->
  minimal_integer l /\ neg = negb (List.hd 0 l <? 128).
Proof.
  intros Hl. unfold CBS_is_valid_asn1_integer. destruct l as [|a [|b l]].
  - cbn. split; [done | by intros []].
  - apply bytes_cons in Hl as [Ha _]. rewrite CBS_get_u8_cons, CBS_get_u8_nil, land_128 by done.
    cbn [minimal_integer List.hd]. split; [by intros [= <-] | by intros [_ ->]].
  - apply bytes_cons in Hl as [Ha [Hb _]%bytes_cons]. rewrite !CBS_get_u8_cons, !land_128 by done.
    cbn [minimal_integer List.hd]. destruct (_ || _) eqn:E.
    + split; [done|]. intros [[? ?] _]. lia.
    + split; [intros [= <-]; split; [lia | done] | by intros [_ ->]].
Qed.

Lemma bytes_1 b : is_byte b -> bytes [b].
Proof. intros. apply bytes_cons. split; [done | apply bytes_nil]. Qed.

Lemma be_val_1 c : be_val [c] = c.
Proof. unfold be_val. cbn [fold_left]. lia. Qed.

Lemma twos_val_snoc l c : l <> [] -> twos_val (l ++ [c]) = twos_val l * 256 + c.
Proof.
  intros Hl. unfold twos_val. rewrite be_val_app, be_val_1, len_app.
  change (len [c]) with 1. pose proof (len_nonneg l). rewrite Z.pow_add_r by lia.
  replace (List.hd 0 (l ++ [c])) with (List.hd 0 l) by (by destruct l).
  destruct (_ <? 128); lia.
Qed.

Lemma twos_val_1 a : twos_val [a] = if a <? 128 then a else a - 256.
Proof. unfold twos_val. rewrite be_val_1. cbn [List.hd]. change (256 ^ len [a]) with 256. zcases; lia. Qed.

(** Two or more octets are minimal exactly when one would not do. *)
Lemma minimal_integer_range l : bytes l -> minimal_integer l -> 2 <= len l ->
  twos_val l < -128 \/ 128 <= twos_val l.
Proof.
  induction l as [|c l IH] using rev_ind; intros Hb Hm Hl; [zlia|].
  apply bytes_app in Hb as [Hb Hc]. apply bytes_cons in Hc as [Hc _]. unfold is_byte in Hc.
  destruct l as [|a [|b l]]; [zlia | |].
  - apply bytes_cons in Hb as [Ha _]. unfold is_byte in Ha. cbn in Hm.
    rewrite twos_val_snoc, twos_val_1 by done. zcases; lia.
  - rewrite twos_val_snoc by done. specialize (IH Hb Hm). rewrite !len_cons in IH.
    pose proof (len_nonneg l). lia.
Qed.

Lemma int_octets_val n l : bytes l -> minimal_integer l -> (length l <= n)%nat ->
  int_octets n (twos_val l) = l.
Proof.
  revert l. induction n as [|n IH]; intros l Hb Hm Hn; [by destruct l; [|cbn in Hn; lia]|].
  destruct l as [|c l] using rev_ind; [done|]. clear IHl. cbn [int_octets].
  pose proof Hb as Hb'. apply bytes_app in Hb' as [Hl Hc]. apply bytes_cons in Hc as [Hc _].
  unfold is_byte in Hc. destruct (decide (l = [])) as [->|Hne].
  - cbn [app]. rewrite twos_val_1. zcases; try lia; cbn [andb]; f_equal; Z.div_mod_to_equations; lia.
  - assert (2 <= len (l ++ [c])) by (destruct l; [done | zlia]).
    pose proof (minimal_integer_range _ Hb Hm ltac:(done)) as Hr.
    destruct ((-128 <=? _) && _) eqn:E; [lia|]. rewrite twos_val_snoc by done.
    replace ((twos_val l * 256 + c) / 256) with (twos_val l) by (Z.div_mod_to_equations; lia).
    replace ((twos_val l * 256 + c) mod 256) with c by (Z.div_mod_to_equations; lia).
    rewrite length_app in Hn. cbn in Hn. rewrite IH; [done | done | | lia].
    destruct l as [|a [|b l]]; done.
Qed.

Lemma int_octets_spec n v : - 2 ^ (8 * Z.of_nat n - 1) <= v < 2 ^ (8 * Z.of_nat n - 1) -> (0 < n)%nat ->
  bytes (int_octets n v) /\ minimal_integer (int_octets n v) /\ twos_val (int_octets n v) = v /\
  (length (int_octets n v) <= n)%nat.
Proof.
  revert v. induction n as [|n IH]; intros v Hv Hn; [lia|]. cbn [int_octets].
  assert (Hm : is_byte (v mod 256)) by (unfold is_byte; apply Z.mod_pos_bound; lia).
  destruct ((-128 <=? v) && (v <? 128)) eqn:E.
  { split_and!; [by apply bytes_1 | done | | cbn; lia].
    rewrite twos_val_1. zcases; Z.div_mod_to_equations; lia. }
  assert (0 < n)%nat by (destruct n; [cbn in Hv; lia | lia]).
  replace (8 * Z.of_nat (S n) - 1) with (8 * Z.of_nat n - 1 + 8) in Hv by lia.
  rewrite Z.pow_add_r in Hv by lia. change (2 ^ 8) with 256 in Hv.
  destruct (IH (v / 256)) as (Hb & Hmin & Hval & Hlen); [split; Z.div_mod_to_equations; lia | done |].
  assert (int_octets n (v / 256) <> []) by (by intros E'; rewrite E' in Hmin).
  split_and!.
  - apply bytes_app. split; [done | by apply bytes_1].
  - destruct (int_octets n (v / 256)) as [|a [|b l]]; [done | | done].
    rewrite twos_val_1 in Hval. apply bytes_cons in Hb as [Ha _]. unfold is_byte in *. cbn.
    destruct (Z.ltb_spec a 128); Z.div_mod_to_equations; lia.
  - rewrite twos_val_snoc, Hval by done. Z.div_mod_to_equations; lia.
  - rewrite length_app. cbn. lia.
Qed.

(** The length of a minimal integer is determined by its range. *)
Lemma minimal_integer_length n l : bytes l -> minimal_integer l -> (0 < n)%nat ->
  - 2 ^ (8 * Z.of_nat n - 1) <= twos_val l < 2 ^ (8 * Z.of_nat n - 1) -> (length l <= n)%nat.
Proof.
  revert l. induction n as [|n IH]; intros l Hb Hm Hn Hv; [lia|].
  destruct l as [|c l] using rev_ind; [cbn; lia|]. clear IHl.
  destruct (decide (l = [])) as [->|Hne]; [cbn; lia|].
  assert (H2 : 2 <= len (l ++ [c])) by (destruct l; [done | zlia]).
  pose proof (minimal_integer_range _ Hb Hm H2) as Hr. rewrite twos_val_snoc in * by done.
  apply bytes_app in Hb as [Hb Hc]. apply bytes_cons in Hc as [Hc _]. unfold is_byte in Hc.
  assert (0 < n)%nat by (destruct n; [cbn in Hv; lia | lia]).
  replace (8 * Z.of_nat (S n) - 1) with (8 * Z.of_nat n - 1 + 8) in Hv by lia.
  rewrite Z.pow_add_r in Hv by lia. change (2 ^ 8) with 256 in Hv.
  rewrite length_app. cbn [length]. assert (length l <= n)%nat; [|lia].
  apply IH; [done | by destruct l as [|a [|b l]] | done | lia].
Qed.

Lemma uint64_loop_iff l acc v : bytes l -> 0 <= acc < 2 ^ 64 ->
  uint64_loop l acc = Some v <-> v = acc * 256 ^ len l + be_val l /\ v < 2 ^ 64.
Proof.
  revert acc. induction l as [|b l IH]; intros acc Hl Ha; cbn [uint64_loop].
  { change (len []) with 0. change (be_val []) with 0.
    split; [intros [= <-]; lia | intros [-> _]; f_equal; lia]. }
  apply bytes_cons in Hl as [Hb Hl]. rewrite be_val_cons, len_cons. unfold is_byte in Hb.
  pose proof (be_val_range l Hl) as Hr. pose proof (len_nonneg l).
  rewrite Z.pow_add_r, Z.pow_1_r by lia.
  assert (1 <= 256 ^ len l) by (apply (Z.pow_le_mono_r 256 0); lia).
  rewrite Z.shiftr_div_pow2 by lia.
  destruct (Z.eqb_spec (acc / 2 ^ 56) 0) as [E|E]; cbn [negb].
  - assert (0 <= acc < 2 ^ 56) by (Z.div_mod_to_equations; lia).
    rewrite wrap_small by (rewrite Z.shiftl_mul_pow2; lia).
    rewrite (lor_shiftl_add acc b 8), IH by (done || lia).
    split; intros [-> ?]; split; lia.
  - assert (2 ^ 56 <= acc) by (Z.div_mod_to_equations; lia).
    split; [done|]. intros [-> ?]. nia.
Qed.

Lemma twos_val_unsigned l : bytes l -> List.hd 0 l < 128 -> twos_val l = be_val l /\ 0 <= twos_val l.
Proof.
  intros Hl Hh. unfold twos_val. destruct (Z.ltb_spec (List.hd 0 l) 128); [|lia].
  pose proof (be_val_range l Hl). lia.
Qed.

Lemma twos_val_sign l : bytes l -> l <> [] -> (List.hd 0 l <? 128) = (0 <=? twos_val l).
Proof.
  intros Hl Hne. unfold twos_val. pose proof (be_val_range l Hl).
  destruct (Z.ltb_spec (List.hd 0 l) 128); lia.
Qed.

Lemma be_val_replicate k f : is_byte f -> be_val (replicate k f) * 255 = f * (256 ^ Z.of_nat k - 1).
Proof.
  intros Hf. induction k as [|k IH]; [cbn; lia|]. cbn [replicate].
  rewrite be_val_cons, len_replicate, Nat2Z.inj_succ, Z.pow_succ_r by lia. lia.
Qed.

(** The first octet gives the sign. *)
Lemma twos_val_range l : bytes l -> l <> [] ->
  - 2 ^ (8 * len l - 1) <= twos_val l < 2 ^ (8 * len l - 1).
Proof.
  induction l as [|c l IH] using rev_ind; [done|]. intros Hb _.
  apply bytes_app in Hb as [Hb Hc]. apply bytes_cons in Hc as [Hc _]. unfold is_byte in Hc.
  rewrite len_app. change (len [c]) with 1. pose proof (len_nonneg l).
  destruct (decide (l = [])) as [->|Hne].
  { cbn [app]. rewrite twos_val_1. change (2 ^ (8 * (len [] + 1) - 1)) with 128. zcases; lia. }
  specialize (IH Hb Hne). rewrite twos_val_snoc by done.
  replace (8 * (len l + 1) - 1) with (8 * len l - 1 + 8) by lia.
  assert (1 <= len l) by (destruct l; [done | zlia]). rewrite Z.pow_add_r by lia. lia.
Qed.

Lemma swrap_small w x : 0 < w -> - 2 ^ (w - 1) <= x < 2 ^ (w - 1) -> swrap w x = x.
Proof.
  intros Hw Hx. unfold swrap. assert (2 ^ w = 2 * 2 ^ (w - 1)).
  { rewrite <- Z.pow_succ_r by lia. f_equal. lia. }
  rewrite Z.mod_small; lia.
Qed.
Lemma swrap_add_mod w x k : 0 <= w -> swrap w (x + k * 2 ^ w) = swrap w x.
Proof.
  intros Hw. unfold swrap. replace (x + k * 2 ^ w + 2 ^ (w - 1)) with (x + 2 ^ (w - 1) + k * 2 ^ w) by lia.
  by rewrite Z.mod_add by lia.
Qed.

(** Sign extension to eight octets keeps the value. *)
Lemma sign_extend_val l : bytes l -> l <> [] -> len l <= 8 ->
  swrap 64 (CRYPTO_load_u64_be
    (replicate (Z.to_nat (8 - len l)) (if negb (List.hd 0 l <? 128) then 0xff else 0) ++ l))
  = twos_val l.
Proof.
  intros Hl Hne Hn. set (f := if negb (List.hd 0 l <? 128) then 0xff else 0).
  assert (Hf : is_byte f) by (subst f; by destruct (negb _)).
  assert (1 <= len l) by (destruct l; [done | zlia]).
  assert (Hlen : length (replicate (Z.to_nat (8 - len l)) f ++ l) = 8%nat)
    by (rewrite length_app, length_replicate; unfold len in *; lia).
  rewrite load_u64_be_val, take_ge; [ | lia | | lia].
  2:{ apply bytes_app. split; [by apply Forall_replicate | done]. }
  pose proof (be_val_replicate (Z.to_nat (8 - len l)) f Hf) as Hrep. rewrite be_val_app.
  rewrite Z2Nat.id in Hrep by lia.
  assert (Hp : 256 ^ (8 - len l) * 256 ^ len l = 2 ^ 64) by (change (2 ^ 64) with (256 ^ 8); rewrite <- Z.pow_add_r by lia; f_equal; lia).
  assert (Hr : - 2 ^ 63 <= twos_val l < 2 ^ 63).
  { pose proof (twos_val_range l Hl Hne). assert (2 ^ (8 * len l - 1) <= 2 ^ 63) by (apply Z.pow_le_mono_r; lia). lia. }
  rewrite <- (swrap_small 64 (twos_val l)) by lia. subst f. unfold twos_val in *.
  destruct (List.hd 0 l <? 128); cbn [negb] in *.
  - f_equal. lia.
  - rewrite <- (swrap_add_mod 64 (be_val l - 256 ^ len l) 1) by lia. f_equal.
    replace (be_val (replicate _ 255)) with (256 ^ (8 - len l) - 1) by lia. lia.
Qed.

Lemma bytes_der_body t body r : bytes (der t body ++ r) -> bytes body.
Proof. unfold der. rewrite !bytes_app. tauto. Qed.

Section Integers.
Context `{P : Platform}.

Lemma valid_tag_universal t : 1 <= t < 0x20 -> valid_tag t.
Proof. unfold valid_tag, CBS_ASN1_CONSTRUCTED. lia. Qed.


Lemma get_asn1_uint64_iff cbs v r : bytes cbs -> len cbs <= size_max ->
  CBS_get_asn1_uint64 cbs = (Some v, r) <->
  cbs = der CBS_ASN1_INTEGER (int_octets 9 v) ++ r /\ 0 <= v < 2 ^ 64.
Proof.
  intros Hb Hl. unfold CBS_get_asn1_uint64. rewrite rd_bind_some.
  unfold CBS_is_unsigned_asn1_integer. split.
  - intros (body & c & (-> & _ & _)%get_asn1_iff & [Hu H]%rd_check_some); [|done..].
    assert (Hbody : bytes body) by (by apply bytes_der_body in Hb).
    destruct (CBS_is_valid_asn1_integer body) as [neg|] eqn:E; [|done].
    apply valid_integer_iff in E as [Hm ->]; [|done].
    destruct (twos_val_unsigned body) as [Hv Hpos]; [done | lia |].
    destruct (uint64_loop body 0) as [v'|] eqn:E; [|done]. apply uint64_loop_iff in E as [-> Hv']; [|done..].
    apply rd_ret_some in H as [-> ->]. rewrite Z.mul_0_l, Z.add_0_l, <- Hv in *.
    rewrite int_octets_val; [done | done | done |].
    apply minimal_integer_length; [done | done | lia | lia].
  - intros [-> Hv]. destruct (int_octets_spec 9 v) as (Hbi & Hm & Hval & Hlen); [lia | lia |].
    exists (int_octets 9 v), r. rewrite get_asn1_iff by done.
    split; [split_and!; [done | apply valid_tag_universal; unfold CBS_ASN1_INTEGER; lia | unfold len; lia]|].
    apply rd_check_some.
    assert (Hne : int_octets 9 v <> []) by (by intros E; rewrite E in Hm).
    pose proof (twos_val_sign _ Hbi Hne) as Hs. rewrite Hval in Hs.
    destruct (Z.leb_spec 0 v); [|lia].
    assert (E : CBS_is_valid_asn1_integer (int_octets 9 v) = Some false)
      by (apply valid_integer_iff; [done | by rewrite Hs]).
    rewrite E. split; [done|].
    destruct (twos_val_unsigned _ Hbi) as [Hv' _]; [lia|]. rewrite Hval in Hv'.
    assert (El : uint64_loop (int_octets 9 v) 0 = Some v) by (apply uint64_loop_iff; [done | lia | lia]).
    by rewrite El.
Qed.

Lemma get_asn1_int64_iff cbs v r : bytes cbs -> len cbs <= size_max ->
  CBS_get_asn1_int64 cbs = (Some v, r) <->
  cbs = der CBS_ASN1_INTEGER (int_octets 8 v) ++ r /\ - 2 ^ 63 <= v < 2 ^ 63.
Proof.
  intros Hb Hl. unfold CBS_get_asn1_int64. rewrite rd_bind_some. split.
  - intros (body & c & (-> & _ & _)%get_asn1_iff & H); [|done..].
    assert (Hbody : bytes body) by (by apply bytes_der_body in Hb).
    destruct (CBS_is_valid_asn1_integer body) as [neg|] eqn:E; [|done].
    apply valid_integer_iff in E as [Hm ->]; [|done].
    apply rd_check_some in H as [H8 [-> ->]%rd_ret_some].
    assert (Hne : body <> []) by (by intros ->).
    cbv zeta. rewrite sign_extend_val by (done || lia).
    rewrite int_octets_val; [| done | done | unfold len in *; lia]. split; [done|].
    pose proof (twos_val_range body Hbody Hne).
    assert (2 ^ (8 * len body - 1) <= 2 ^ 63) by (apply Z.pow_le_mono_r; lia). lia.
  - intros [-> Hv]. destruct (int_octets_spec 8 v) as (Hbi & Hm & Hval & Hlen); [lia | lia |].
    exists (int_octets 8 v), r. rewrite get_asn1_iff by done.
    split; [split_and!; [done | apply valid_tag_universal; unfold CBS_ASN1_INTEGER; lia | unfold len; lia]|].
    rewrite (proj2 (valid_integer_iff _ _ Hbi)) by (split; [done | reflexivity]).
    apply rd_check_some. split; [unfold len; lia|].
    assert (Hne : int_octets 8 v <> []) by (by intros E; rewrite E in Hm).
    cbv zeta. rewrite sign_extend_val by (done || (unfold len; lia)). by rewrite Hval.
Qed.

Lemma get_asn1_bool_iff cbs b r : bytes cbs -> len cbs <= size_max ->
  CBS_get_asn1_bool cbs = (Some b, r) <->
  cbs = der CBS_ASN1_BOOLEAN [if (b : bool) then 0xff else 0] ++ r.
Proof.
  intros Hb Hl. unfold CBS_get_asn1_bool. rewrite rd_bind_some. split.
  - intros (body & c & (-> & _ & _)%get_asn1_iff & H); [|done..]. cbv zeta in H.
    apply rd_check_some in H as [H1 [H2 [-> ->]%rd_ret_some]%rd_check_some].
    destruct body as [|x [|y body]]; [done | | zlia]. cbn [List.hd] in *.
    destruct (Z.eqb_spec x 0) as [->|]; cbn [negb]; [done|].
    destruct (Z.eqb_spec x 0xff) as [->|]; done.
  - intros ->. eexists [if b then 0xff else 0], r. rewrite get_asn1_iff by done.
    split; [split_and!; [done | apply valid_tag_universal; unfold CBS_ASN1_BOOLEAN; lia | done]|].
    by destruct b.
Qed.
End Integers.

(** * OBJECT IDENTIFIER contents *)

(** A component of any size in its shortest form: continuation octets that do
    not start with an empty group, then a final octet. *)
Definition oid_component (c : list Z * Z) : Prop := hi_canonical c.1 /\ 0 <= c.2 < 128.
Definition oid_octets (comps : list (list Z * Z)) : list Z :=
  concat (map (fun c => c.1 ++ [c.2]) comps).

(** Octets at a component boundary, and in the middle of a component. *)
Definition oid_start (l : list Z) : Prop :=
  exists comps, Forall oid_component comps /\ l = oid_octets comps.
Definition oid_middle (l : list Z) : Prop :=
  exists h d rest, hi_octets h /\ 0 <= d < 128 /\ oid_start rest /\ l = h ++ d :: rest.

Lemma oid_middle_cons v l : is_byte v ->
  oid_middle (v :: l) <-> if v <? 128 then oid_start l else oid_middle l.
Proof.
  intros Hv. unfold is_byte in Hv. split.
  - intros (h & d & rest & Hh & Hd & Hr & E). destruct h as [|a h]; injection E as -> ->.
    + by destruct (Z.ltb_spec d 128); [|lia].
    + apply Forall_cons_iff in Hh as [Ha Hh]. destruct (Z.ltb_spec a 128); [lia|]. by exists h, d, rest.
  - destruct (Z.ltb_spec v 128).
    + intros Hl. exists [], v, l. split_and!; [constructor | lia | lia | done | done].
    + intros (h & d & rest & Hh & Hd & Hr & ->). exists (v :: h), d, rest.
      split_and!; [by constructor; [lia|] | lia | lia | done | done].
Qed.

Lemma oid_start_cons v l : is_byte v -> oid_start (v :: l) <-> v <> 128 /\ oid_middle (v :: l).
Proof.
  intros Hv. split.
  - intros ([|[h d] comps] & Hc & E); [done|]. apply Forall_cons_iff in Hc as [[Hh Hd] Hc].
    cbn in E, Hh, Hd. rewrite <- app_assoc in E. split.
    + intros ->. destruct Hh as [_ Hh]. destruct h as [|a h]; injection E as ? _; [lia|]. by subst a.
    + exists h, d, (oid_octets comps). split_and!; [apply Hh | lia | lia | by exists comps | done].
  - intros [Hv' (h & d & rest & Hh & Hd & (comps & Hc & ->) & E)].
    exists ((h, d) :: comps). split; [|by cbn; rewrite <- app_assoc]. constructor; [|done].
    split; [|done]. split; [done|]. cbn. destruct h as [|a h]; [done|]. by injection E as -> _.
Qed.

Lemma oid_loop_iff cbs prev : bytes cbs -> is_byte prev ->
  oid_loop cbs prev = true <-> if prev <? 128 then oid_start cbs else oid_middle cbs.
Proof.
  revert prev. induction cbs as [|v cbs IH]; intros prev Hb Hp; cbn [oid_loop]; rewrite land_128 by done.
  { destruct (prev <? 128).
    - split; [|done]. intros _. by exists [].
    - split; [done|]. intros (h & d & rest & _ & _ & _ & H). by destruct h. }
  apply bytes_cons in Hb as [Hv Hb].
  assert (Hstep : oid_loop cbs v = true <-> oid_middle (v :: cbs))
    by (by rewrite IH, oid_middle_cons by done).
  destruct (prev <? 128); cbn [andb]; [|done]. rewrite oid_start_cons by done.
  destruct (Z.eqb_spec v 128); [by split; [|intros []] | by rewrite Hstep; intuition].
Qed.

Lemma valid_oid_iff cbs : bytes cbs ->
  CBS_is_valid_asn1_oid cbs = true <->
  exists comps, comps <> [] /\ Forall oid_component comps /\ cbs = oid_octets comps.
Proof.
  intros Hb. unfold CBS_is_valid_asn1_oid. destruct (Z.eqb_spec (len cbs) 0) as [->%len_0_nil|Hn].
  - split; [done|]. intros ([|[h d] comps] & Hne & _ & E); [done|]. by destruct h.
  - rewrite (oid_loop_iff cbs 0) by done. cbn [Z.ltb Z.compare]. split.
    + intros (comps & Hc & ->). exists comps. split_and!; [by intros ->|done..].
    + intros (comps & _ & ? & ?). by exists comps.
Qed.

(** * BIT STRING contents *)

Lemma bitstring_valid_inv cbs : CBS_is_valid_asn1_bitstring cbs = true ->
  exists u rest, cbs = u :: rest /\ u <= 7 /\
    (u = 0 \/ rest <> [] /\ Z.land (List.last rest 0) (Z.shiftl 1 u - 1) = 0).
Proof.
  unfold CBS_is_valid_asn1_bitstring. destruct cbs as [|u rest]; [done|].
  rewrite CBS_get_u8_cons. destruct (Z.ltb_spec 7 u); [done|].
  exists u, rest. split_and!; [done | lia |]. destruct (Z.eqb_spec u 0); [by left|]. right.
  unfold CBS_get_last_u8 in *. destruct (Z.eqb_spec (len rest) 0); [done|].
  split; [by intros -> | by apply Z.eqb_eq].
Qed.

Lemma land_bit x n : 0 <= n -> (Z.land x (Z.shiftl 1 n) =? 0) = negb (Z.testbit x n).
Proof.
  intros Hn. destruct (Z.testbit x n) eqn:E.
  - apply Z.eqb_neq. intros H. assert (Hb : Z.testbit (Z.land x (Z.shiftl 1 n)) n = true).
    { rewrite Z.land_spec, E, Z.shiftl_spec, Z.sub_diag by lia. done. }
    by rewrite H, Z.bits_0 in Hb.
  - apply Z.eqb_eq, Z.bits_inj'. intros i Hi. rewrite Z.bits_0, Z.land_spec, Z.shiftl_1_l, Z.pow2_bits_eqb by lia.
    destruct (Z.eqb_spec n i) as [->|]; [by rewrite E | by rewrite andb_false_r].
Qed.

Lemma has_bit_iff cbs bit : bytes cbs -> 0 <= bit < 2 ^ 32 ->
  CBS_asn1_bitstring_has_bit cbs bit = true <->
  CBS_is_valid_asn1_bitstring cbs = true /\ bit / 8 + 1 < len cbs /\
  Z.testbit (default 0 (znth cbs (bit / 8 + 1))) (7 - bit mod 8) = true.
Proof.
  intros Hb Hbit. unfold CBS_asn1_bitstring_has_bit.
  rewrite (wrap_small 32 (_ + 1)) by (rewrite Z.shiftr_div_pow2; Z.div_mod_to_equations; lia).
  rewrite Z.shiftr_div_pow2 by lia. change (2 ^ 3) with 8.
  assert (Hm : Z.land bit 7 = bit mod 8) by (change 7 with (Z.ones 3); by rewrite Z.land_ones).
  pose proof (Z.mod_pos_bound bit 8 ltac:(lia)).
  rewrite Hm, wrap_small, land_bit, negb_involutive by lia.
  destruct (CBS_is_valid_asn1_bitstring cbs); cbn [negb]; [|by split; [|intros []]].
  rewrite andb_true_iff, Z.ltb_lt. tauto.
Qed.

Lemma znth_last (l : list Z) : l <> [] -> znth l (len l - 1) = Some (List.last l 0).
Proof.
  intros Hl. destruct (exists_last Hl) as (k & c & ->). unfold znth. rewrite last_last, len_app.
  change (len [c]) with 1. pose proof (len_nonneg k). destruct (Z.ltb_spec (len k + 1 - 1) 0); [lia|].
  replace (Z.to_nat (len k + 1 - 1)) with (length k) by (unfold len; lia). by rewrite list_lookup_middle.
Qed.

(** A bit that is set lies before the unused bits. *)
Lemma has_bit_bound cbs bit u rest : bytes cbs -> 0 <= bit < 2 ^ 32 -> cbs = u :: rest ->
  CBS_asn1_bitstring_has_bit cbs bit = true -> bit < 8 * len rest - u.
Proof.
  intros Hb Hbit Hc (Hv & Hlt & Ht)%has_bit_iff; [|done..].
  apply bitstring_valid_inv in Hv as (u' & rest' & Hc' & Hu & Hz). subst cbs. injection Hc' as <- <-.
  apply bytes_cons in Hb as [Hu0 Hb]. unfold is_byte in Hu0. rewrite len_cons in Hlt.
  pose proof (Z.div_mod bit 8 ltac:(lia)). pose proof (Z.mod_pos_bound bit 8 ltac:(lia)).
  destruct (Z.eq_dec (bit / 8 + 1) (len rest)) as [E|]; [|lia].
  destruct Hz as [->|[Hne Hz]]; [lia|].
  assert (Hn : znth (u :: rest) (bit / 8 + 1) = Some (List.last rest 0)).
  { pose proof (znth_last (u :: rest) ltac:(done)) as Hl. rewrite len_cons in Hl.
    replace (len rest + 1 - 1) with (bit / 8 + 1) in Hl by lia. rewrite Hl. by destruct rest. }
  rewrite Hn in Ht. cbn [default] in Ht.
  destruct (Z.lt_ge_cases (7 - bit mod 8) u); [exfalso|lia].
  assert (Hx : Z.testbit (Z.land (List.last rest 0) (Z.shiftl 1 u - 1)) (7 - bit mod 8) = true).
  { replace (Z.shiftl 1 u - 1) with (Z.ones u) by (rewrite Z.ones_equiv, Z.shiftl_1_l; lia).
    rewrite Z.land_spec, Z.ones_spec_low by lia. cbn in Ht. by rewrite Ht. }
  by rewrite Hz, Z.bits_0 in Hx.
Qed.

(** * OPTIONAL elements *)
Section Optional.
Context `{P : Platform}.

Lemma peek_iff cbs t : bytes cbs ->
  CBS_peek_asn1_tag cbs t = true <-> exists r, cbs = der_tag t ++ r /\ valid_tag t.
Proof.
  intros Hb. unfold CBS_peek_asn1_tag. split.
  - destruct (parse_asn1_tag cbs) as [[t'|] r] eqn:E; [|done]. intros ->%Z.eqb_eq.
    exists r. by apply parse_asn1_tag_iff.
  - intros (r & Hr). apply parse_asn1_tag_iff in Hr; [|done]. rewrite Hr. apply Z.eqb_refl.
Qed.

Lemma optional_iff cbs t o r : bytes cbs -> len cbs <= size_max ->
  CBS_get_optional_asn1 t cbs = (Some o, r) <->
  match o with
  | None => CBS_peek_asn1_tag cbs t = false /\ r = cbs
  | Some body => cbs = der t body ++ r /\ valid_tag t /\ len body < 2 ^ 32
  end.
Proof.
  intros Hb Hl. unfold CBS_get_optional_asn1. destruct (CBS_peek_asn1_tag cbs t) eqn:E.
  - rewrite rd_bind_some. split.
    + intros (body & c & H%get_asn1_iff & [-> ->]%rd_ret_some); done.
    + destruct o as [body|]; [|by intros []]. intros H. exists body, r.
      by rewrite get_asn1_iff, rd_ret_some.
  - split; [by intros [= <- <-]|]. destruct o as [body|]; [|by intros [_ ->]].
    intros (-> & Ht & _). exfalso.
    assert (CBS_peek_asn1_tag (der t body ++ r) t = true); [|congruence].
    apply peek_iff; [done|]. exists (der_length (len body) ++ body ++ r). unfold der.
    by rewrite <- !app_assoc.
Qed.

Lemma on_child_iff {A} (m : rd A) child cbs a r :
  on_child m child cbs = (Some a, r) <-> m child = (Some a, []) /\ r = cbs.
Proof.
  unfold on_child. destruct (m child) as [[x|] c].
  - destruct (Z.eqb_spec (len c) 0) as [->%len_0_nil|Hn].
    + split; [by intros [= <- <-] | by intros [[= <-] ->]].
    + split; [done|]. by intros [[= <- ->] _].
  - by split; [|intros []].
Qed.

Lemma len_der_child t body r : len (der t body ++ r) <= size_max -> len body <= size_max.
Proof. unfold der. rewrite !len_app. zlen_facts. lia. Qed.

Lemma len_der_bound t body : len body + 2 <= len (der t body) <= len body + 16.
Proof. unfold der. rewrite !len_app. pose proof (len_der_tag t). pose proof (len_der_length (len body)). lia. Qed.

End Optional.

(** * Properties *)
Section Properties.
Context `{P : Platform}.

(** C1: CBS_get_any_asn1 accepts exactly the DER encodings: it succeeds, with
    contents [body], tag [t] and rest [r], if and only if the input is the one
    DER encoding of ([t], [body]) followed by [r]. So the encoding is unique, no
    identifier or length in a longer form is accepted, and no arithmetic on
    size_t wraps round, on 32-bit and on 64-bit platforms. *)
Theorem CBS_get_any_asn1_exact cbs body t r : bytes cbs -> len cbs <= size_max ->
  CBS_get_any_asn1 cbs = (Some (body, t), r) <->
  cbs = der t body ++ r /\ valid_tag t /\ len body < 2 ^ 32.
Proof. apply get_any_asn1_iff. Qed.

(** The element reader is memory safe and atomic: a success splits the input
    into the element, at least as long as its header, and what is left, the
    contents of an indefinite-length element being left unread; a failure leaves
    the CBS as it was. *)
Theorem cbs_get_any_asn1_element_splits ber cbs o r : bytes cbs -> len cbs <= size_max ->
  cbs_get_any_asn1_element ber cbs = (o, r) ->
  match o with
  | None => r = cbs
  | Some e => cbs = el_out e ++ r /\ 2 <= el_header_len e <= len (el_out e) /\
      (el_indefinite e = true -> el_header_len e = len (el_out e))
  end.
Proof.
  intros Hb Hl H. destruct o as [e|]; [by eapply any_element_split | by eapply any_element_fail].
Qed.

(** The BER reader extends the DER reader: on every input the DER reader
    accepts it returns the same element with ber_found unset, and an element
    returned with ber_found unset is one the DER reader accepts. *)
Theorem CBS_get_any_ber_asn1_element_extends_der cbs e r : bytes cbs -> len cbs <= size_max ->
  cbs_get_any_asn1_element false cbs = (Some e, r) <->
  CBS_get_any_ber_asn1_element cbs = (Some e, r) /\ el_ber_found e = false.
Proof. apply ber_der_agree. Qed.

(** The INTEGER and BOOLEAN readers accept exactly the DER encoding of a
    value of their type: the minimal two's-complement octets of a uint64_t or an
    int64_t, and 0x00 or 0xff. *)
Theorem CBS_get_asn1_scalars_exact cbs r : bytes cbs -> len cbs <= size_max ->
  (forall v, CBS_get_asn1_uint64 cbs = (Some v, r) <->
     cbs = der CBS_ASN1_INTEGER (int_octets 9 v) ++ r /\ 0 <= v < 2 ^ 64) /\
  (forall v, CBS_get_asn1_int64 cbs = (Some v, r) <->
     cbs = der CBS_ASN1_INTEGER (int_octets 8 v) ++ r /\ - 2 ^ 63 <= v < 2 ^ 63) /\
  (forall b : bool, CBS_get_asn1_bool cbs = (Some b, r) <->
     cbs = der CBS_ASN1_BOOLEAN [if b then 0xff else 0] ++ r).
Proof.
  intros Hb Hl. split_and!; intros v;
    [by apply get_asn1_uint64_iff | by apply get_asn1_int64_iff | by apply get_asn1_bool_iff].
Qed.

(** An optional explicitly tagged INTEGER takes its default exactly when the
    next tag is another one (the CBS is then left alone), and otherwise is read
    with nothing after the INTEGER inside the tag. *)
Theorem CBS_get_optional_asn1_uint64_exact cbs t d v r : bytes cbs -> len cbs <= size_max ->
  CBS_get_optional_asn1_uint64 t d cbs = (Some v, r) <->
  (CBS_peek_asn1_tag cbs t = false /\ v = d /\ r = cbs) \/
  (cbs = der t (der CBS_ASN1_INTEGER (int_octets 9 v)) ++ r /\ valid_tag t /\ 0 <= v < 2 ^ 64).
Proof.
  intros Hb Hl. unfold CBS_get_optional_asn1_uint64. rewrite rd_bind_some. split.
  - intros (o & c & Ho & H). apply optional_iff in Ho; [|done..]. destruct o as [body|].
    + right. destruct Ho as (-> & Ht & _). apply on_child_iff in H as [H ->].
      apply get_asn1_uint64_iff in H as [-> Hv]; [|by apply bytes_der_body in Hb | by apply len_der_child in Hl].
      by rewrite app_nil_r.
    + left. destruct Ho as [Hp ->]. by apply rd_ret_some in H as [-> ->].
  - intros [(Hp & -> & ->) | (-> & Ht & Hv)]; [exists None, cbs; by rewrite optional_iff|].
    exists (Some (der CBS_ASN1_INTEGER (int_octets 9 v))), r.
    destruct (int_octets_spec 9 v) as (_ & _ & _ & Hlen); [lia..|].
    rewrite optional_iff, on_child_iff by done. split; [split_and!; [done | done |]|].
    { pose proof (len_der_bound CBS_ASN1_INTEGER (int_octets 9 v)).
      assert (len (int_octets 9 v) <= 9) by (unfold len; lia). lia. }
    split; [|done]. apply get_asn1_uint64_iff;
      [by apply bytes_der_body in Hb | by apply len_der_child in Hl | by rewrite app_nil_r].
Qed.

(** CBS_is_valid_asn1_oid accepts exactly the non-empty sequences of
    components, each in its shortest base-128 form and of any size. *)
Theorem CBS_is_valid_asn1_oid_exact cbs : bytes cbs ->
  CBS_is_valid_asn1_oid cbs = true <->
  exists comps, comps <> [] /\ Forall oid_component comps /\ cbs = oid_octets comps.
Proof. apply valid_oid_iff. Qed.

(** CBS_asn1_bitstring_has_bit reads bit [bit] of the string, most
    significant first, and a bit it reports lies before the unused bits, so the
    byte-level length check is enough. *)
Theorem CBS_asn1_bitstring_has_bit_correct u rest bit : bytes (u :: rest) -> 0 <= bit < 2 ^ 32 ->
  CBS_asn1_bitstring_has_bit (u :: rest) bit = true <->
  CBS_is_valid_asn1_bitstring (u :: rest) = true /\ bit < 8 * len rest - u /\
  Z.testbit (default 0 (znth rest (bit / 8))) (7 - bit mod 8) = true.
Proof.
  intros Hb Hbit.
  assert (Hn : znth (u :: rest) (bit / 8 + 1) = znth rest (bit / 8)).
  { unfold znth. assert (0 <= bit / 8) by (apply Z.div_pos; lia).
    destruct (Z.ltb_spec (bit / 8 + 1) 0), (Z.ltb_spec (bit / 8) 0); try lia.
    replace (Z.to_nat (bit / 8 + 1)) with (S (Z.to_nat (bit / 8))) by lia. done. }
  split.
  - intros H. pose proof H as (Hv & _ & Ht)%has_bit_iff; [|done..]. rewrite Hn in Ht.
    split_and!; [done | by eapply has_bit_bound | done].
  - intros (Hv & Hlt & Ht). apply has_bit_iff; [done..|]. rewrite Hn. split_and!; [done | | done].
    apply bytes_cons in Hb as [Hu _]. unfold is_byte in Hu. rewrite len_cons.
    Z.div_mod_to_equations; lia.
Qed.
End Properties.

Lemma CBS_get_any_asn1_exact_witness :
  @CBS_get_any_asn1 LP64 [0x30; 0x03; 0x02; 0x01; 0x05; 0x99] =
  (Some ([0x02; 0x01; 0x05], CBS_ASN1_SEQUENCE), [0x99]).
Proof.
  apply (@CBS_get_any_asn1_exact LP64).
  - repeat constructor; done.
  - done.
  - split_and!; done.
Defined.

Lemma cbs_get_any_asn1_element_splits_witness :
  exists e, @cbs_get_any_asn1_element ILP32 true [0x30; 0x80; 0x05; 0x00; 0; 0] = (Some e, [0x05; 0x00; 0; 0])
    /\ [0x30; 0x80; 0x05; 0x00; 0; 0] = el_out e ++ [0x05; 0x00; 0; 0].
Proof.
  eexists. split; [vm_compute; reflexivity|].
  apply (@cbs_get_any_asn1_element_splits ILP32 true [0x30; 0x80; 0x05; 0x00; 0; 0]
    (Some (mk_element [0x30; 0x80] CBS_ASN1_SEQUENCE 2 true true))).
  - repeat constructor; done.
  - done.
  - by vm_compute.
Defined.

Lemma CBS_get_any_ber_asn1_element_extends_der_witness :
  @CBS_get_any_ber_asn1_element LP64 [0x04; 0x01; 0x2a] = (Some (mk_element [0x04; 0x01; 0x2a] 4 2 false false), [])
  /\ el_ber_found (mk_element [0x04; 0x01; 0x2a] 4 2 false false) = false.
Proof.
  apply (@CBS_get_any_ber_asn1_element_extends_der LP64).
  - repeat constructor; done.
  - done.
  - by vm_compute.
Defined.

Lemma CBS_get_asn1_scalars_exact_witness :
  @CBS_get_asn1_int64 LP64 [0x02; 0x02; 0xff; 0x7f; 0x01] = (Some (-129), [0x01]).
Proof.
  apply (@CBS_get_asn1_scalars_exact LP64 [0x02; 0x02; 0xff; 0x7f; 0x01] [0x01]).
  - repeat constructor; done.
  - done.
  - split; [by vm_compute | done].
Defined.

Lemma CBS_get_optional_asn1_uint64_exact_witness :
  @CBS_get_optional_asn1_uint64 LP64 (Z.lor CBS_ASN1_CONTEXT_SPECIFIC (Z.lor CBS_ASN1_CONSTRUCTED 0)) 7
    [0xa0; 0x03; 0x02; 0x01; 0x2a] = (Some 42, []).
Proof.
  apply (@CBS_get_optional_asn1_uint64_exact LP64).
  - repeat constructor; done.
  - done.
  - right. split_and!; by vm_compute.
Defined.

Lemma CBS_is_valid_asn1_oid_exact_witness : CBS_is_valid_asn1_oid [0x2a; 0x86; 0x48] = true.
Proof.
  apply CBS_is_valid_asn1_oid_exact.
  - repeat constructor; done.
  - exists [([], 0x2a); ([0x86], 0x48)]. split_and!; [done | | done].
    repeat constructor; cbn; done.
Defined.

Lemma CBS_asn1_bitstring_has_bit_correct_witness :
  CBS_asn1_bitstring_has_bit [0x05; 0xa0] 2 = true.
Proof.
  apply CBS_asn1_bitstring_has_bit_correct.
  - repeat constructor; done.
  - lia.
  - split_and!; by vm_compute.
Defined.
