(* ===== verification/CbsTime.v ===== *)
(** Parsing ASN.1 times: [CBS_parse_generalized_time] and [CBS_parse_utc_time]
    of crypto/bytestring/cbs.cc. *)
From S2P Require Import Prelude.
From S2P Require Import Mem.
From S2P Require Import Cbs.
From S2P Require Import Asn1.
From S2P Require Import PosixTime.

Open Scope rd_scope.

Definition cbs_get_two_digits : rd Z :=
  first_digit <-- CBS_get_u8 ;;
  check (OPENSSL_isdigit first_digit) ;;
  second_digit <-- CBS_get_u8 ;;
  check (OPENSSL_isdigit second_digit) ;;
  rd_ret ((first_digit - 48) * 10 + (second_digit - 48)).

Definition is_valid_day (year month day : Z) : bool :=
  if day <? 1 then false
  else if (month =? 1) || (month =? 3) || (month =? 5) || (month =? 7) || (month =? 8)
          || (month =? 10) || (month =? 12) then day <=? 31
  else if (month =? 4) || (month =? 6) || (month =? 9) || (month =? 11) then day <=? 30
  else if month =? 2 then
    if ((year %c 4 =? 0) && negb (year %c 100 =? 0)) || (year %c 400 =? 0)
    then day <=? 29 else day <=? 28
  else false.

(** The year of a GeneralizedTime (four digits) or of a UTCTime (two digits, for
    1950 to 2049). *)
Definition rfc5280_year (is_gentime : bool) : rd Z :=
  if is_gentime then
    tmp <-- cbs_get_two_digits ;;
    tmp' <-- cbs_get_two_digits ;;
    rd_ret (tmp * 100 + tmp')
  else
    tmp <-- cbs_get_two_digits ;;
    let year := 1900 + tmp in
    let year := if year <? 1950 then year + 100 else year in
    check (negb (2050 <=? year)) ;;
    rd_ret year.

(** The offset in seconds after the time zone letter [tz]. *)
Definition rfc5280_offset (allow_timezone_offset : bool) (tz : Z) : rd Z :=
  if tz =? 90 then rd_ret 0
  else if (tz =? 43) || (tz =? 45) then
    let offset_sign := if tz =? 43 then 1 else -1 in
    check allow_timezone_offset ;;
    offset_hours <-- cbs_get_two_digits ;;
    check (negb (23 <? offset_hours)) ;;
    offset_minutes <-- cbs_get_two_digits ;;
    check (negb (59 <? offset_minutes)) ;;
    rd_ret (offset_sign * (offset_hours * 3600 + offset_minutes * 60))
  else rd_fail.

(** The fields, and the offset in seconds. *)
Record rfc5280_fields := mk_fields {
  f_year : Z; f_month : Z; f_day : Z; f_hour : Z; f_min : Z; f_sec : Z; f_offset : Z;
}.
Definition rfc5280_parse (is_gentime allow_timezone_offset : bool) : rd rfc5280_fields :=
  year <-- rfc5280_year is_gentime ;;
  month <-- cbs_get_two_digits ;;
  check (negb ((month <? 1) || (12 <? month))) ;;
  day <-- cbs_get_two_digits ;;
  check (is_valid_day year month day) ;;
  hour <-- cbs_get_two_digits ;;
  check (negb (23 <? hour)) ;;
  min <-- cbs_get_two_digits ;;
  check (negb (59 <? min)) ;;
  sec <-- cbs_get_two_digits ;;
  check (negb (59 <? sec)) ;;
  tz <-- CBS_get_u8 ;;
  offset_seconds <-- rfc5280_offset allow_timezone_offset tz ;;
  rd_ret (mk_fields year month day hour min sec offset_seconds).

(** [out_tm] is the structure the pointer designates, [None] for NULL. The result
    is the return value and what the structure then holds. *)
Definition CBS_parse_rfc5280_time_internal (cbs : CBS) (is_gentime allow_timezone_offset : bool)
    (out_tm : option tm) : bool * option tm :=
  match rfc5280_parse is_gentime allow_timezone_offset cbs with
  | (None, _) => (false, out_tm)
  | (Some f, copy) =>
    if negb (len copy =? 0) then (false, out_tm)
    else match out_tm with
    | None => (true, None)
    | Some t0 =>
      let t := mk_tm (f_year f - 1900) (f_month f - 1) (f_day f) (f_hour f) (f_min f) (f_sec f)
                     (tm_wday t0) (tm_yday t0) (tm_isdst t0) in
      if negb (f_offset f =? 0) then
        match OPENSSL_gmtime_adj t 0 (f_offset f) with
        | None => (false, Some t)
        | Some t' => (true, Some t')
        end
      else (true, Some t)
    end
  end.

Definition CBS_parse_generalized_time (cbs : CBS) (out_tm : option tm) (allow : bool) : bool * option tm :=
  CBS_parse_rfc5280_time_internal cbs true allow out_tm.
Definition CBS_parse_utc_time (cbs : CBS) (out_tm : option tm) (allow : bool) : bool * option tm :=
  CBS_parse_rfc5280_time_internal cbs false allow out_tm.

(** * Lemmas *)

(** Two decimal digits. *)
Definition dd (n : Z) : list Z := [48 + n / 10; 48 + n mod 10].

Lemma two_digits_iff cbs n r :
  cbs_get_two_digits cbs = (Some n, r) <-> cbs = dd n ++ r /\ 0 <= n <= 99.
Proof.
  unfold cbs_get_two_digits, dd. rewrite rd_bind_some. split.
  - intros (a & c & ->%CBS_get_u8_some & [Ha%isdigit_range H]%rd_check_some).
    apply rd_bind_some in H as (b & c' & ->%CBS_get_u8_some & [Hb%isdigit_range [-> ->]%rd_ret_some]%rd_check_some).
    cbn [app]. split; [|lia]. f_equal; [|f_equal]; Z.div_mod_to_equations; lia.
  - intros [-> Hn]. eexists _, _. split; [by apply CBS_get_u8_some|].
    apply rd_check_some. split; [apply isdigit_range; Z.div_mod_to_equations; lia|].
    apply rd_bind_some. eexists _, _. split; [by apply CBS_get_u8_some|].
    apply rd_check_some. split; [apply isdigit_range; Z.div_mod_to_equations; lia|].
    apply rd_ret_some. split; [Z.div_mod_to_equations; lia | done].
Qed.

(** Reading two digits is the inverse of printing them. *)
Lemma rd_two_digits {A} (f : Z -> rd A) cbs a r :
  rd_bind cbs_get_two_digits f cbs = (Some a, r) <->
  exists n c, 0 <= n <= 99 /\ cbs = dd n ++ c /\ f n c = (Some a, r).
Proof.
  rewrite rd_bind_some. setoid_rewrite two_digits_iff. firstorder.
Qed.

Lemma is_valid_day_spec y m d : 0 <= y <= 9999 -> 1 <= m <= 12 ->
  is_valid_day y m d = is_valid_date y m d.
Proof.
  intros Hy Hm. unfold is_valid_day, is_valid_date.
  assert (m = 1 \/ m = 2 \/ m = 3 \/ m = 4 \/ m = 5 \/ m = 6 \/ m = 7 \/ m = 8 \/ m = 9 \/ m = 10 \/
          m = 11 \/ m = 12) as Hc by lia.
  destruct (Z.ltb_spec d 1); [done|]. cbn [orb].
  replace ((m <? 1) || (y <? 0) || (y >? 9999)) with false by lia.
  replace (d >? 0) with true by lia.
  repeat destruct Hc as [->|Hc]; [done.. | by subst m].
Qed.

(** The printed form of a time, and of its zone. *)
Definition time_text (is_gentime : bool) (f : rfc5280_fields) : list Z :=
  (if is_gentime then dd (f_year f / 100) else []) ++ dd (f_year f mod 100) ++
  dd (f_month f) ++ dd (f_day f) ++ dd (f_hour f) ++ dd (f_min f) ++ dd (f_sec f).
Definition zone_text (allow : bool) (zone : list Z) (offset : Z) : Prop :=
  (zone = [90] /\ offset = 0) \/
  (allow = true /\ exists h m, 0 <= h <= 23 /\ 0 <= m <= 59 /\
     ((zone = 43 :: dd h ++ dd m /\ offset = h * 3600 + m * 60) \/
      (zone = 45 :: dd h ++ dd m /\ offset = - (h * 3600 + m * 60)))).
Definition valid_fields (is_gentime : bool) (f : rfc5280_fields) : Prop :=
  is_valid_date (f_year f) (f_month f) (f_day f) = true /\
  is_valid_time (f_hour f) (f_min f) (f_sec f) = true /\
  (is_gentime = false -> 1950 <= f_year f < 2050).

Lemma rfc5280_year_iff g cbs y r :
  rfc5280_year g cbs = (Some y, r) <->
  cbs = (if g then dd (y / 100) else []) ++ dd (y mod 100) ++ r /\ 0 <= y <= 9999 /\
  (g = false -> 1950 <= y < 2050).
Proof.
  unfold rfc5280_year. destruct g.
  - rewrite rd_two_digits. setoid_rewrite rd_two_digits. setoid_rewrite rd_ret_some. split.
    + intros (a & c & Ha & -> & b & c' & Hb & -> & -> & ->). split; [|split; [lia | done]].
      by replace ((a * 100 + b) / 100) with a by (Z.div_mod_to_equations; lia);
        replace ((a * 100 + b) mod 100) with b by (Z.div_mod_to_equations; lia).
    + intros (-> & Hy & _). exists (y / 100). eexists. split; [Z.div_mod_to_equations; lia|].
      split; [done|]. exists (y mod 100), r.
      split; [Z.div_mod_to_equations; lia|]. split; [done|]. split; [Z.div_mod_to_equations; lia | done].
  - rewrite rd_two_digits. cbv zeta. setoid_rewrite rd_check_some. setoid_rewrite rd_ret_some. split.
    + intros (a & c & Ha & -> & Hg & -> & ->). cbn [app].
      set (y := if 1900 + a <? 1950 then _ else _) in *.
      assert (Hy : y mod 100 = a /\ 1950 <= y) by (subst y; zcases; Z.div_mod_to_equations; lia).
      destruct Hy as [-> Hy]. split; [done | lia].
    + intros (-> & Hy & H). specialize (H eq_refl). exists (y mod 100), r.
      split; [Z.div_mod_to_equations; lia|]. split; [done|].
      assert (Hy' : (if 1900 + y mod 100 <? 1950 then 1900 + y mod 100 + 100 else 1900 + y mod 100) = y)
        by (zcases; Z.div_mod_to_equations; lia).
      rewrite Hy'. split_and!; [lia | done | done].
Qed.

Lemma rfc5280_offset_iff allow tz cbs off r :
  rfc5280_offset allow tz cbs = (Some off, r) <->
  exists zone, tz :: cbs = zone ++ r /\ zone_text allow zone off.
Proof.
  unfold rfc5280_offset, zone_text. destruct (Z.eqb_spec tz 90) as [->|Hz].
  - rewrite rd_ret_some. split; [intros [-> ->]; exists [90]; split; [done | by left] |].
    intros (zone & E & [[-> ->] | (_ & h & m & _ & _ & [[-> _] | [-> _]])]); [by injection E as -> | done | done].
  - destruct ((tz =? 43) || (tz =? 45)) eqn:Hs.
    + cbv zeta. rewrite rd_check_some, rd_two_digits. setoid_rewrite rd_check_some.
      setoid_rewrite rd_two_digits. setoid_rewrite rd_check_some. setoid_rewrite rd_ret_some. split.
      * intros (-> & h & c & Hh & -> & Hh' & m & c' & Hm & -> & Hm' & -> & ->).
        exists (tz :: dd h ++ dd m). split; [done|]. right. split; [done|].
        exists h, m. split_and!; [lia..|]. destruct (Z.eqb_spec tz 43) as [->|]; [left; split; [done | lia] |].
        right. assert (tz = 45) as -> by lia. split; [done | lia].
      * intros (zone & E & [[-> ->] | (-> & h & m & Hh & Hm & H)]); [by injection E as -> ->|].
        split; [done|].
        assert (Hc : cbs = dd h ++ dd m ++ r /\ off = (if tz =? 43 then 1 else -1) * (h * 3600 + m * 60)).
        { destruct H as [[-> ->]|[-> ->]]; injection E as -> ->; (split; [done | zcases; lia]). }
        destruct Hc as [-> ->]. exists h, (dd m ++ r). split; [lia|]. split; [done|]. split; [lia|].
        exists m, r. split_and!; (lia || done).
    + split; [done|]. intros (zone & E & [[-> ->] | (_ & h & m & _ & _ & [[-> _] | [-> _]])]);
        injection E as -> ->; done.
Qed.

Lemma valid_time_range h mi s : is_valid_time h mi s = true <-> 0 <= h <= 23 /\ 0 <= mi <= 59 /\ 0 <= s <= 59.
Proof. unfold is_valid_time. destruct (_ || _) eqn:E; [split; [done|]|split; [|done]]; lia. Qed.

(** The parser accepts exactly the printed forms of valid times. *)
Lemma rfc5280_parse_iff g allow cbs f r :
  rfc5280_parse g allow cbs = (Some f, r) <->
  exists zone, cbs = time_text g f ++ zone ++ r /\ valid_fields g f /\ zone_text allow zone (f_offset f).
Proof.
  unfold rfc5280_parse, valid_fields, time_text. rewrite rd_bind_some. split.
  - intros (y & c & (-> & Hy & Hu)%rfc5280_year_iff & H).
    apply rd_two_digits in H as (mo & c1 & Hmo & -> & [Hmo' H]%rd_check_some).
    apply rd_two_digits in H as (d & c2 & Hd & -> & [Hd' H]%rd_check_some).
    apply rd_two_digits in H as (h & c3 & Hh & -> & [Hh' H]%rd_check_some).
    apply rd_two_digits in H as (mi & c4 & Hmi & -> & [Hmi' H]%rd_check_some).
    apply rd_two_digits in H as (s & c5 & Hs & -> & [Hs' H]%rd_check_some).
    apply rd_bind_some in H as (tz & c6 & ->%CBS_get_u8_some & H).
    apply rd_bind_some in H as (off & c7 & (zone & E & Hz)%rfc5280_offset_iff & [-> ->]%rd_ret_some).
    exists zone. cbn [f_year f_month f_day f_hour f_min f_sec f_offset].
    rewrite E, <- !app_assoc. rewrite is_valid_day_spec in Hd' by lia.
    split_and!; [done | done | apply valid_time_range; lia | done | done].
  - destruct f as [y mo d h mi s off]. cbn [f_year f_month f_day f_hour f_min f_sec f_offset].
    intros (zone & -> & (Hd & Ht & Hu) & Hz).
    apply valid_time_range in Ht. pose proof Hd as (Hy & Hmo & Hday)%is_valid_date_spec.
    assert (d <= 31) by (unfold days_in_month in Hday; repeat case_match; lia).
    eexists y, _. rewrite rfc5280_year_iff, <- !app_assoc. split; [done|].
    apply rd_two_digits. eexists mo, _. split; [lia|]. split; [done|]. apply rd_check_some. split; [lia|].
    apply rd_two_digits. eexists d, _. split; [lia|]. split; [done|]. apply rd_check_some.
    rewrite is_valid_day_spec by lia. split; [done|].
    apply rd_two_digits. eexists h, _. split; [lia|]. split; [done|]. apply rd_check_some. split; [lia|].
    apply rd_two_digits. eexists mi, _. split; [lia|]. split; [done|]. apply rd_check_some. split; [lia|].
    apply rd_two_digits. eexists s, _. split; [lia|]. split; [done|]. apply rd_check_some. split; [lia|].
    assert (exists tz zr, zone = tz :: zr) as (tz & zr & ->).
    { destruct Hz as [[-> _] | (_ & ? & ? & _ & _ & [[-> _]|[-> _]])]; eauto. }
    apply rd_bind_some. eexists tz, _. rewrite CBS_get_u8_some. split; [done|].
    apply rd_bind_some. eexists off, r. rewrite rfc5280_offset_iff. split; [by exists (tz :: zr)|].
    by rewrite rd_ret_some.
Qed.

(** The structure filled with the parsed fields; the derived fields are those
    it had. *)
Definition fields_tm (f : rfc5280_fields) (t0 : tm) : tm :=
  mk_tm (f_year f - 1900) (f_month f - 1) (f_day f) (f_hour f) (f_min f) (f_sec f)
        (tm_wday t0) (tm_yday t0) (tm_isdst t0).

Lemma fields_tm_posix g f t0 : valid_fields g f -> exists p, OPENSSL_tm_to_posix (fields_tm f t0) = Some p.
Proof.
  intros (Hd & Ht & _). unfold OPENSSL_tm_to_posix, fields_tm. cbn.
  rewrite !Z.sub_add. unfold posix_time_from_utc. rewrite Hd, Ht. cbn [negb orb]. eauto.
Qed.

Lemma posix_to_tm_normal p t : OPENSSL_posix_to_tm p = Some t -> tm_normal t = t.
Proof.
  unfold OPENSSL_posix_to_tm. destruct (utc_from_posix_time p) as [[[[[[? ?] ?] ?] ?] ?]|]; [|done].
  by intros [= <-].
Qed.

Lemma gmtime_adj_normal t d s t' : OPENSSL_gmtime_adj t d s = Some t' -> tm_normal t' = t'.
Proof.
  unfold OPENSSL_gmtime_adj. repeat case_match; try done. apply posix_to_tm_normal.
Qed.

Lemma zone_offset_range allow zone off : zone_text allow zone off -> - 86400 < off < 86400.
Proof. intros [[_ ->] | (_ & h & m & Hh & Hm & [[_ ->]|[_ ->]])]; lia. Qed.

(** Adding a zone's offset to a valid time. *)
Lemma gmtime_adj_iff t p off t' : OPENSSL_tm_to_posix t = Some p -> - 86400 < off < 86400 ->
  OPENSSL_gmtime_adj t 0 off = Some t' <-> OPENSSL_tm_to_posix t' = Some (p + off) /\ tm_normal t' = t'.
Proof.
  intros Hp Hoff. pose proof (gmtime_adj_spec t p 0 off Hp ltac:(lia) ltac:(lia)) as H.
  rewrite Z.mul_0_l, Z.add_0_r in H. split.
  - intros E. split; [|by apply gmtime_adj_normal in E]. destruct (_ && _); [|congruence].
    destruct H as (t'' & E' & Hp'). congruence.
  - intros [Hp' Hn]. pose proof (tm_to_posix_range _ _ Hp').
    destruct (_ && _) eqn:Hr; [|lia]. destruct H as (t'' & E & Hp''). rewrite E. f_equal.
    apply tm_posix_roundtrip in Hp', Hp''. apply gmtime_adj_normal in E. congruence.
Qed.

(** C26: the time parsers accept exactly the text of a valid date and time (two
    digits of the year for a UTCTime, between 1950 and 2049) followed by "Z" or,
    where allowed, a four-digit offset, with nothing after it. The structure
    returned holds the parsed fields, and its derived fields (tm_wday, tm_yday,
    tm_isdst) are what they were before the call; with an offset other than zero
    it is the parsed time plus the signed offset, provided this lies in the
    years 0000 to 9999. *)
Theorem CBS_parse_time_exact cbs g allow t0 t :
  CBS_parse_rfc5280_time_internal cbs g allow (Some t0) = (true, Some t) <->
  exists f zone p, cbs = time_text g f ++ zone /\ valid_fields g f /\ zone_text allow zone (f_offset f) /\
    OPENSSL_tm_to_posix (fields_tm f t0) = Some p /\
    if f_offset f =? 0 then t = fields_tm f t0
    else OPENSSL_tm_to_posix t = Some (p + f_offset f) /\ tm_normal t = t.
Proof.
  unfold CBS_parse_rfc5280_time_internal. split.
  - destruct (rfc5280_parse g allow cbs) as [[f|] copy] eqn:E; [|done].
    apply rfc5280_parse_iff in E as (zone & -> & Hv & Hz).
    destruct (Z.eqb_spec (len copy) 0) as [->%len_0_nil|]; [|done]. cbn [negb].
    destruct (fields_tm_posix g f t0 Hv) as [p Hp]. fold (fields_tm f t0). intros H.
    exists f, zone, p. rewrite app_nil_r. split_and!; try done.
    destruct (Z.eqb_spec (f_offset f) 0); cbn [negb] in H; [congruence|].
    destruct (OPENSSL_gmtime_adj _ _ _) as [t'|] eqn:E; [|done]. injection H as <-.
    by eapply gmtime_adj_iff, E; [|eapply zone_offset_range].
  - intros (f & zone & p & -> & Hv & Hz & Hp & H).
    rewrite (proj2 (rfc5280_parse_iff g allow _ f [])) by (exists zone; by rewrite app_nil_r).
    fold (fields_tm f t0). cbn [negb Z.eqb]. change (negb (len [] =? 0)) with false. cbv iota.
    destruct (Z.eqb_spec (f_offset f) 0); cbn [negb]; [congruence|].
    apply (gmtime_adj_iff (fields_tm f t0) p) in H as ->; [done | done | by eapply zone_offset_range].
Qed.
