(* ===== verification/Cbb.v ===== *)
(** The byte builder CBB: crypto/bytestring/cbb.cc, with the structures of
    include/openssl/bytestring.h.

    Several CBBs write to one buffer: a child holds a pointer to the buffer of
    the top-level CBB, and its parent a pointer to the child whose length prefix
    is pending. The model keeps these pointers: a CBB is an address in a store,
    and the operations are partial functions on the store, undefined
    ([None]) where the C code would follow a dangling pointer, write outside a
    buffer or violate one of its assertions.

    The fields of a structure live in separate maps: [heads] has the [child]
    pointer and, for a child CBB, the [u.child] arm of the union, and [bases] the
    [u.base] arm of top-level CBBs. The allocator is a parameter. *)
From S2P Require Import Prelude.
From S2P Require Import Internal.
From S2P Require Import Mem.
From S2P Require Import Cbs.
From S2P Require Import Asn1.
From stdpp Require Import gmap.

Open Scope Z_scope.

(** * State *)
Abbreviation addr := nat.

Record cbb_buffer_st := mk_buffer {
  buf : list Z;         (* the [cap] bytes of the buffer *)
  blen : Z;             (* len: the number of valid bytes in buf *)
  cap : Z;
  can_resize : bool;
  error : bool;
}.

Record cbb_child_st := mk_child {
  base : option addr;   (* the top-level CBB whose buffer this CBB writes to *)
  offset : Z;
  pending_len_len : Z;
  pending_is_asn1 : bool;
}.

Record cbb_st := mk_cbb {
  child : option addr;
  is_child : option cbb_child_st;   (* [None] for a top-level CBB *)
}.

Record store := mk_store {
  heads : gmap addr cbb_st;
  bases : gmap addr cbb_buffer_st;
  allocs : nat;                     (* allocations made so far *)
}.

(** The allocator: whether the [n]-th allocation, of a given size, succeeds, and
    the bytes a fresh block holds. *)
Class Allocator := {
  alloc_ok : nat -> Z -> bool;
  alloc_junk : nat -> nat -> Z;
}.

(** * The monad of operations on the store *)
Definition M (A : Type) : Type := store -> option (A * store).
#[export] Instance M_ret : MRet M := fun A a s => Some (a, s).
#[export] Instance M_bind : MBind M := fun A B f m s =>
  match m s with Some (a, s') => f a s' | None => None end.

Definition undefined {A} : M A := fun _ => None.

(** A call whose failure is returned at once. *)
Definition andthen (m1 m2 : M bool) : M bool :=
  ok ← m1; if negb ok then mret false else m2.

Definition get_cbb (a : addr) : M cbb_st := fun s => match heads s !! a with
  | Some c => Some (c, s) | None => None end.
Definition put_cbb (a : addr) (c : cbb_st) : M unit := fun s =>
  Some (tt, mk_store (<[a := c]> (heads s)) (bases s) (allocs s)).
Definition get_child (a : addr) : M cbb_child_st :=
  c ← get_cbb a; match is_child c with Some ch => mret ch | None => undefined end.
Definition put_child (a : addr) (ch : cbb_child_st) : M unit :=
  c ← get_cbb a; put_cbb a (mk_cbb (child c) (Some ch)).
Definition set_child (a : addr) (p : option addr) : M unit :=
  c ← get_cbb a; put_cbb a (mk_cbb p (is_child c)).
Definition get_buffer (r : addr) : M cbb_buffer_st := fun s => match bases s !! r with
  | Some b => Some (b, s) | None => None end.
Definition put_buffer (r : addr) (b : cbb_buffer_st) : M unit := fun s =>
  Some (tt, mk_store (heads s) (<[r := b]> (bases s)) (allocs s)).

Definition with_error (b : cbb_buffer_st) : cbb_buffer_st :=
  mk_buffer (buf b) (blen b) (cap b) (can_resize b) true.
Definition with_len (b : cbb_buffer_st) (n : Z) : cbb_buffer_st :=
  mk_buffer (buf b) n (cap b) (can_resize b) (error b).

(** Writing the bytes [l] at offset [off] of the buffer of [r]. *)
Definition write (r : addr) (off : Z) (l : list Z) : M unit :=
  b ← get_buffer r;
  if (off <? 0) || (len (buf b) <? off + len l) then undefined
  else put_buffer r (mk_buffer (ztake off (buf b) ++ l ++ zdrop (off + len l) (buf b))
                       (blen b) (cap b) (can_resize b) (error b)).

Section Cbb.
Context `{P : Platform} `{A : Allocator}.

(** [OPENSSL_realloc], or [OPENSSL_malloc] for an empty [old]. *)
Definition realloc (old : list Z) (n : Z) : M (option (list Z)) := fun s =>
  let k := allocs s in
  let s' := mk_store (heads s) (bases s) (S k) in
  if alloc_ok k n then
    let keep := ztake n old in
    Some (Some (keep ++ map (alloc_junk k) (seq 0 (Z.to_nat (n - len keep)))), s')
  else Some (None, s').

(** * Creating and finishing a CBB *)
Definition CBB_zero (a : addr) : M unit := fun s =>
  Some (tt, mk_store (<[a := mk_cbb None None]> (heads s))
              (<[a := mk_buffer [] 0 0 false false]> (bases s)) (allocs s)).

Definition cbb_init (a : addr) (b : list Z) (n : Z) (resize : bool) : M unit :=
  put_cbb a (mk_cbb None None);; put_buffer a (mk_buffer b 0 n resize false).

Definition CBB_init (a : addr) (initial_capacity : Z) : M bool :=
  CBB_zero a;;
  o ← realloc [] initial_capacity;
  match o with
  | None =>
      if 0 <? initial_capacity then mret false
      else cbb_init a [] initial_capacity true;; mret true
  | Some b => cbb_init a b initial_capacity true;; mret true
  end.

Definition CBB_init_fixed (a : addr) (b : list Z) : M bool :=
  CBB_zero a;; cbb_init a b (len b) false;; mret true.

(** Freed memory is no longer accessible. *)
Definition CBB_cleanup (a : addr) : M unit :=
  c ← get_cbb a;
  match is_child c with
  | Some _ => undefined
  | None =>
    b ← get_buffer a;
    if can_resize b then put_buffer a (mk_buffer [] (blen b) (cap b) (can_resize b) (error b))
    else mret tt
  end.

(** * The buffer *)

(** Returns the offset of the reserved space. *)
Definition cbb_buffer_reserve (base : option addr) (n : Z) : M (option Z) :=
  match base with
  | None => mret None
  | Some r =>
    b ← get_buffer r;
    let newlen := wrap size_bits (blen b + n) in
    if newlen <? blen b then put_buffer r (with_error b);; mret None
    else if cap b <? newlen then
      if negb (can_resize b) then put_buffer r (with_error b);; mret None
      else
        let newcap := wrap size_bits (cap b * 2) in
        let newcap := if (newcap <? cap b) || (newcap <? newlen) then newlen else newcap in
        o ← realloc (buf b) newcap;
        match o with
        | None => put_buffer r (with_error b);; mret None
        | Some newbuf =>
          put_buffer r (mk_buffer newbuf (blen b) newcap (can_resize b) (error b));;
          mret (Some (blen b))
        end
    else mret (Some (blen b))
  end.

Definition cbb_buffer_add (base : option addr) (n : Z) : M (option Z) :=
  o ← cbb_buffer_reserve base n;
  match o, base with
  | Some out, Some r =>
    b ← get_buffer r;
    put_buffer r (with_len b (wrap size_bits (blen b + n)));;
    mret (Some out)
  | _, _ => mret None
  end.

Definition cbb_get_base (a : addr) : M (option addr) :=
  c ← get_cbb a;
  match is_child c with Some ch => mret (base ch) | None => mret (Some a) end.

Definition cbb_on_error (a : addr) : M unit :=
  o ← cbb_get_base a;
  match o with
  | None => undefined
  | Some r => b ← get_buffer r; put_buffer r (with_error b);; set_child a None
  end.

(** * Flushing *)

(** The loop that writes the [n] bytes of a big-endian length at [off], from the
    last one; it returns what is left of the length. *)
Fixpoint write_length (r : addr) (off : Z) (n : nat) (v : Z) : M Z :=
  match n with
  | O => mret v
  | S n => write r (off + Z.of_nat n) [u8 v];; write_length r off n (Z.shiftr v 8)
  end.

(** The number of length octets, with the initial one, and the initial octet. *)
Definition asn1_len_len (n : Z) : option (Z * Z) :=
  if 0xfffffffe <? n then None
  else if 0xffffff <? n then Some (5, Z.lor 0x80 4)
  else if 0xffff <? n then Some (4, Z.lor 0x80 3)
  else if 0xff <? n then Some (3, Z.lor 0x80 2)
  else if 0x7f <? n then Some (2, Z.lor 0x80 1)
  else Some (1, u8 n).

(** Making room for an ASN.1 length longer than the one octet assumed: the
    contents, [n] bytes from [child_start], move along. *)
Definition asn1_make_room (r : addr) (child_start n len_len : Z) : M bool :=
  if len_len =? 1 then mret true
  else
    let extra_bytes := len_len - 1 in
    o ← cbb_buffer_add (Some r) extra_bytes;
    match o with
    | None => mret false
    | Some _ =>
      b ← get_buffer r;
      write r (child_start + extra_bytes) (ztake n (zdrop child_start (buf b)));;
      mret true
    end.

(** The ASN.1 arm of [CBB_flush]. Returns the length still to be written. *)
Definition flush_asn1 (r ch : addr) (child_start n : Z) : M (option Z) :=
  match asn1_len_len n with
  | None => mret None
  | Some (len_len, initial_length_byte) =>
    room ← asn1_make_room r child_start n len_len;
    if (room : bool) then
      c ← get_child ch;
      write r (offset c) [initial_length_byte];;
      put_child ch (mk_child (base c) (wrap size_bits (offset c + 1)) (len_len - 1) (pending_is_asn1 c));;
      mret (Some (if len_len =? 1 then 0 else n))
    else mret None
  end.

(** Filling in the pending prefix of the child [ch], whose contents are [n] bytes
    from [child_start]; false is [goto err]. *)
Definition flush_prefix (r ch : addr) (child_start n : Z) : M bool :=
  st ← get_child ch;
  o ← (if pending_is_asn1 st then flush_asn1 r ch child_start n else mret (Some n));
  match o with
  | None => mret false
  | Some n =>
    st ← get_child ch;
    n ← write_length r (offset st) (Z.to_nat (pending_len_len st)) n;
    mret (n =? 0)
  end.

(** The end of [CBB_flush]: the child [ch] of [a] is finished and detached. *)
Definition flush_child (a r ch : addr) (child_start n : Z) : M bool :=
  ok ← flush_prefix r ch child_start n;
  if negb ok then cbb_on_error a;; mret false
  else
    st ← get_child ch;
    put_child ch (mk_child None (offset st) (pending_len_len st) (pending_is_asn1 st));;
    set_child a None;;
    mret true.

(** [fuel] bounds the length of the chain of children. *)
Fixpoint flush (fuel : nat) (a : addr) : M bool :=
  match fuel with
  | O => undefined
  | S fuel =>
    o ← cbb_get_base a;
    match o with
    | None => mret false
    | Some r =>
      b ← get_buffer r;
      if error b then mret false
      else
        c ← get_cbb a;
        match child c with
        | None => mret true
        | Some ch =>
          st ← get_child ch;
          let child_start := wrap size_bits (offset st + pending_len_len st) in
          ok ← flush fuel ch;
          b ← get_buffer r;
          if negb ok || (child_start <? offset st) || (blen b <? child_start)
          then cbb_on_error a;; mret false
          else flush_child a r ch child_start (blen b - child_start)
        end
    end
  end.

(** The chain of children cannot be longer than the number of CBBs. *)
Definition CBB_flush (a : addr) : M bool := fun s => flush (S (size (heads s))) a s.

(** The out-parameters are NULL when [out_data] or [out_len] is false. *)
Definition CBB_finish (a : addr) (out_data out_len : bool) : M (option (list Z * Z)) :=
  c ← get_cbb a;
  match is_child c with
  | Some _ => mret None
  | None =>
    ok ← CBB_flush a;
    if negb ok then mret None
    else
      b ← get_buffer a;
      if can_resize b && (negb out_data || negb out_len) then mret None
      else
        put_buffer a (mk_buffer [] (blen b) (cap b) (can_resize b) (error b));;
        CBB_cleanup a;;
        mret (Some (ztake (blen b) (buf b), blen b))
  end.

(** [CBB_data] and [CBB_len]: the bytes written to the CBB itself. *)
Definition CBB_data_offset (a : addr) : M (addr * Z) :=
  c ← get_cbb a;
  match child c with
  | Some _ => undefined
  | None =>
    match is_child c with
    | Some ch => match base ch with
                 | Some r => mret (r, offset ch + pending_len_len ch)
                 | None => undefined
                 end
    | None => mret (a, 0)
    end
  end.
Definition CBB_len (a : addr) : M Z :=
  p ← CBB_data_offset a;
  b ← get_buffer p.1;
  if blen b <? p.2 then undefined else mret (blen b - p.2).
Definition CBB_data (a : addr) : M (list Z) :=
  p ← CBB_data_offset a;
  n ← CBB_len a;
  b ← get_buffer p.1;
  mret (ztake n (zdrop p.2 (buf b))).

(** * Adding children *)
Definition cbb_add_child (a out_child : addr) (len_len : Z) (is_asn1 : bool) : M bool :=
  c ← get_cbb a;
  if (match child c with Some _ => true | None => false end) || (is_asn1 && negb (len_len =? 1))
  then undefined
  else
    o ← cbb_get_base a;
    match o with
    | None => undefined
    | Some r =>
      b ← get_buffer r;
      let off := blen b in
      p ← cbb_buffer_add (Some r) len_len;
      match p with
      | None => mret false
      | Some prefix_bytes =>
        write r prefix_bytes (replicate (Z.to_nat len_len) 0);;
        CBB_zero out_child;;
        put_cbb out_child (mk_cbb None (Some (mk_child (Some r) off len_len is_asn1)));;
        set_child a (Some out_child);;
        mret true
      end
    end.

Definition cbb_add_length_prefixed (a out_contents : addr) (len_len : Z) : M bool :=
  ok ← CBB_flush a;
  if negb ok then mret false else cbb_add_child a out_contents len_len false.
Definition CBB_add_u8_length_prefixed (a out : addr) : M bool := cbb_add_length_prefixed a out 1.
Definition CBB_add_u16_length_prefixed (a out : addr) : M bool := cbb_add_length_prefixed a out 2.
Definition CBB_add_u24_length_prefixed (a out : addr) : M bool := cbb_add_length_prefixed a out 3.

(** * Adding bytes *)

(** Returns the offset of the space in the underlying buffer. *)
Definition CBB_add_space (a : addr) (n : Z) : M (option Z) :=
  ok ← CBB_flush a;
  if negb ok then mret None else o ← cbb_get_base a; cbb_buffer_add o n.

Definition CBB_reserve (a : addr) (n : Z) : M (option Z) :=
  ok ← CBB_flush a;
  if negb ok then mret None else o ← cbb_get_base a; cbb_buffer_reserve o n.

(** Writing through the pointer [CBB_add_space] returned. *)
Definition write_space (a : addr) (out : Z) (l : list Z) : M unit :=
  o ← cbb_get_base a;
  match o with Some r => write r out l | None => undefined end.

Definition CBB_add_bytes (a : addr) (data : list Z) : M bool :=
  o ← CBB_add_space a (len data);
  match o with
  | None => mret false
  | Some out => write_space a out data;; mret true
  end.

Definition CBB_add_zeros (a : addr) (n : Z) : M bool :=
  o ← CBB_add_space a n;
  match o with
  | None => mret false
  | Some out => write_space a out (replicate (Z.to_nat n) 0);; mret true
  end.

Definition CBB_did_write (a : addr) (n : Z) : M bool :=
  o ← cbb_get_base a;
  match o with
  | None => undefined
  | Some r =>
    b ← get_buffer r;
    c ← get_cbb a;
    let newlen := wrap size_bits (blen b + n) in
    if (match child c with Some _ => true | None => false end)
       || (newlen <? blen b) || (cap b <? newlen)
    then mret false
    else put_buffer r (with_len b newlen);; mret true
  end.

(** The bytes the loop of [cbb_add_u] writes, and what is left of [v]. *)
Fixpoint u_bytes (n : nat) (v : Z) : list Z * Z :=
  match n with
  | O => ([], v)
  | S n => let '(l, rest) := u_bytes n (Z.shiftr v 8) in (l ++ [u8 v], rest)
  end.

Definition cbb_add_u (a : addr) (v : Z) (len_len : Z) : M bool :=
  o ← CBB_add_space a len_len;
  match o with
  | None => mret false
  | Some out =>
    let '(l, rest) := u_bytes (Z.to_nat len_len) v in
    write_space a out l;;
    if negb (rest =? 0) then cbb_on_error a;; mret false else mret true
  end.

Definition CBB_add_u8 (a : addr) (value : Z) : M bool := cbb_add_u a value 1.
Definition CBB_add_u16 (a : addr) (value : Z) : M bool := cbb_add_u a value 2.
Definition CBB_add_u16le (a : addr) (value : Z) : M bool := CBB_add_u16 a (CRYPTO_bswap2 value).
Definition CBB_add_u24 (a : addr) (value : Z) : M bool := cbb_add_u a value 3.
Definition CBB_add_u32 (a : addr) (value : Z) : M bool := cbb_add_u a value 4.
Definition CBB_add_u32le (a : addr) (value : Z) : M bool := CBB_add_u32 a (CRYPTO_bswap4 value).
Definition CBB_add_u64 (a : addr) (value : Z) : M bool := cbb_add_u a value 8.
Definition CBB_add_u64le (a : addr) (value : Z) : M bool := CBB_add_u64 a (CRYPTO_bswap8 value).

Definition CBB_discard_child (a : addr) : M unit :=
  c ← get_cbb a;
  match child c with
  | None => mret tt
  | Some ch =>
    o ← cbb_get_base a;
    match o with
    | None => undefined
    | Some r =>
      b ← get_buffer r;
      st ← get_child ch;
      put_buffer r (with_len b (offset st));;
      put_child ch (mk_child None (offset st) (pending_len_len st) (pending_is_asn1 st));;
      set_child a None
    end
  end.

End Cbb.
