(* ===== verification/CbbSpec.v ===== *)
(** The contract of the CBB core, and its refinement by cbb.cc.

    The abstract state is what has been written: the bytes before the current
    position and a stack of open length-prefixed frames. [collapse] is what
    flushing them must produce. The theorems relate the store of Cbb to it: the
    buffer holds the bytes, the chain of children describes the frames. *)
From S2P Require Import Prelude.
From S2P Require Import Internal.
From S2P Require Import Cbs.
From S2P Require Import Asn1.
From S2P Require Import Cbb.
From stdpp Require Import gmap.

Open Scope Z_scope.

(** * The abstract writer *)
Inductive prefix := Len (n : Z) | Asn1.
Record frame := mk_frame { f_prefix : prefix; f_data : list Z }.

Definition prefix_len (p : prefix) : Z := match p with Len n => n | Asn1 => 1 end.
Definition prefix_ok (p : prefix) : Prop := match p with Len n => 0 <= n <= 255 | Asn1 => True end.
Definition is_asn1 (p : prefix) : bool := match p with Len _ => false | Asn1 => true end.

(** The encoding of a closed frame. *)
Definition close (p : prefix) (data : list Z) : option (list Z) :=
  match p with
  | Len n => if len data <? 256 ^ n then Some (be_bytes (Z.to_nat n) (len data) ++ data) else None
  | Asn1 => if len data <=? 0xfffffffe then Some (der_length (len data) ++ data) else None
  end.

(** Closing a stack of frames, the outermost first in the list. *)
Fixpoint collapse (fs : list frame) : option (list Z) :=
  match fs with
  | [] => Some []
  | f :: fs =>
      match collapse fs with
      | Some out => close (f_prefix f) (f_data f ++ out)
      | None => None
      end
  end.

(** What the buffer holds while the frames are open. *)
Definition zeros (n : Z) : list Z := replicate (Z.to_nat n) 0.
Fixpoint flat (fs : list frame) : list Z :=
  match fs with
  | [] => []
  | f :: fs => zeros (prefix_len (f_prefix f)) ++ f_data f ++ flat fs
  end.

Lemma len_zeros n : 0 <= n -> len (zeros n) = n.
Proof. intros. unfold zeros. rewrite len_replicate. lia. Qed.

Lemma prefix_len_nonneg p : prefix_ok p -> 0 <= prefix_len p <= 255.
Proof. destruct p; cbn; lia. Qed.

(** * Running the monad *)
Lemma bind_run {X Y} (m : M X) (f : X -> M Y) s x s' :
  m s = Some (x, s') -> (m ≫= f) s = f x s'.
Proof. intros H. unfold mbind, M_bind. by rewrite H. Qed.

Lemma get_cbb_run a c s : heads s !! a = Some c -> get_cbb a s = Some (c, s).
Proof. intros H. unfold get_cbb. by rewrite H. Qed.
Lemma get_child_run a c ch s :
  heads s !! a = Some c -> is_child c = Some ch -> get_child a s = Some (ch, s).
Proof. intros H Hc. unfold get_child. rewrite (bind_run _ _ s c s) by by apply get_cbb_run. by rewrite Hc. Qed.
Lemma get_buffer_run r b s : bases s !! r = Some b -> get_buffer r s = Some (b, s).
Proof. intros H. unfold get_buffer. by rewrite H. Qed.
Lemma put_child_run a c ch s : heads s !! a = Some c ->
  put_child a ch s = Some (tt, mk_store (<[a := mk_cbb (child c) (Some ch)]> (heads s)) (bases s) (allocs s)).
Proof. intros H. unfold put_child. by rewrite (bind_run _ _ s c s) by by apply get_cbb_run. Qed.
Lemma set_child_run a c p s : heads s !! a = Some c ->
  set_child a p s = Some (tt, mk_store (<[a := mk_cbb p (is_child c)]> (heads s)) (bases s) (allocs s)).
Proof. intros H. unfold set_child. by rewrite (bind_run _ _ s c s) by by apply get_cbb_run. Qed.

(** [run H] performs one step whose outcome is [H]. *)
Ltac run H := rewrite (bind_run _ _ _ _ _ H).

Section Spec.
Context `{P : Platform} `{A : Allocator}.

(** * Buffers *)

(** [holds b l]: no error, and the valid bytes of the buffer are [l]. *)
Definition holds (b : cbb_buffer_st) (l : list Z) : Prop :=
  (exists slack, buf b = l ++ slack) /\ blen b = len l /\ cap b = len (buf b) /\
  cap b <= size_max /\ error b = false.

(** [b'] is [b] possibly reallocated: a fixed buffer keeps its capacity. *)
Definition same_buf (b b' : cbb_buffer_st) : Prop :=
  can_resize b' = can_resize b /\ (can_resize b = false -> cap b' = cap b).

(** [l] bytes fit in the buffer: a fixed buffer is large enough; for a resizable
    one the allocator never fails and the size is a size_t. *)
Definition fits (b : cbb_buffer_st) (l : Z) : Prop :=
  l <= size_max /\ (if can_resize b then forall k n, alloc_ok k n = true else l <= cap b).

#[local] Instance same_buf_refl : Reflexive same_buf.
Proof. done. Qed.
#[local] Instance same_buf_trans : Transitive same_buf.
Proof. intros a b c [H1 H2] [H3 H4]. split; [congruence|]. intros H. rewrite H4, H2; [done | done | congruence]. Qed.

Lemma fits_same b b' l : same_buf b b' -> fits b' l <-> fits b l.
Proof.
  intros [H1 H2]. unfold fits. rewrite H1. destruct (can_resize b); [done|]. by rewrite H2.
Qed.

Lemma fits_le b l l' : l' <= l -> fits b l -> fits b l'.
Proof. intros Hl [H1 H2]. split; [lia|]. destruct (can_resize b); [done | lia]. Qed.

Lemma holds_len b l : holds b l -> blen b = len l /\ len l <= cap b <= size_max.
Proof.
  intros ([slack Hs] & Hl & Hc & Hm & _). rewrite Hs, len_app in Hc. pose proof (len_nonneg slack). lia.
Qed.

(** The store with the buffer of [r] replaced. *)
Definition set_buf (s : store) (r : addr) (b : cbb_buffer_st) (k : nat) : store :=
  mk_store (heads s) (<[r := b]> (bases s)) k.

Lemma set_buf_lookup s r b k : bases (set_buf s r b k) !! r = Some b.
Proof. apply lookup_insert_eq. Qed.
Lemma set_buf_set_buf s r b k b' k' : set_buf (set_buf s r b k) r b' k' = set_buf s r b' k'.
Proof. unfold set_buf. cbn. by rewrite insert_insert_eq. Qed.

Lemma ztake_ge {X} n (l : list X) : len l <= n -> ztake n l = l.
Proof. intros. unfold ztake. apply take_ge. unfold len in *. lia. Qed.

Lemma realloc_run old n s : len old <= n ->
  (exists junk, realloc old n s = Some (Some (old ++ junk), mk_store (heads s) (bases s) (S (allocs s)))
     /\ len old + len junk = n) \/
  (realloc old n s = Some (None, mk_store (heads s) (bases s) (S (allocs s))) /\
   alloc_ok (allocs s) n = false).
Proof.
  intros Hn. unfold realloc. destruct (alloc_ok (allocs s) n) eqn:E; [left | by right].
  cbv zeta. rewrite ztake_ge by done. eexists. split; [done|].
  unfold len at 2. rewrite length_map, length_seq. lia.
Qed.

(** The new capacity is at least the new length and a size_t. *)
Lemma newcap_bounds c newlen : 0 <= c <= size_max -> c < newlen <= size_max ->
  let newcap := wrap size_bits (c * 2) in
  newlen <= (if (newcap <? c) || (newcap <? newlen) then newlen else newcap) <= size_max.
Proof.
  intros Hc Hn. cbv zeta. destruct (_ || _) eqn:E; [lia|].
  assert (0 <= wrap size_bits (c * 2) < 2 ^ size_bits) by (apply wrap_range; platform; lia).
  unfold size_max. lia.
Qed.

(** Reserving space, on every branch. *)
Lemma reserve_spec s r b l n : bases s !! r = Some b -> holds b l -> 0 <= n <= size_max ->
  (exists b' k, cbb_buffer_reserve (Some r) n s = Some (Some (len l), set_buf s r b' k) /\
     holds b' l /\ same_buf b b' /\ len l + n <= cap b') \/
  (exists k, cbb_buffer_reserve (Some r) n s = Some (None, set_buf s r (with_error b) k) /\
     ~ fits b (len l + n)).
Proof.
  intros Hb Hl Hn. pose proof (holds_len b l Hl) as [Hlen Hcap]. pose proof (len_nonneg l).
  cbn [cbb_buffer_reserve]. run (get_buffer_run r b s Hb). cbv zeta. rewrite Hlen.
  assert (Hw : (wrap size_bits (len l + n) <? len l) = (size_max <? len l + n) /\
    (len l + n <= size_max -> wrap size_bits (len l + n) = len l + n)).
  { unfold size_max, wrap in *. platform; Z.div_mod_to_equations; lia. }
  destruct Hw as [-> Hw]. destruct (Z.ltb_spec size_max (len l + n)) as [Hov|Hov].
  { right. exists (allocs s). split; [done|]. intros [? _]. lia. }
  rewrite Hw by done. destruct (Z.ltb_spec (cap b) (len l + n)) as [Hgrow|Hroom].
  2:{ left. exists b, (allocs s). unfold set_buf. rewrite insert_id by done.
      split_and!; [by destruct s | done | done | done]. }
  destruct (can_resize b) eqn:Hr; cbn [negb].
  2:{ right. exists (allocs s). split; [done|]. intros [_ Hf]. rewrite Hr in Hf. lia. }
  pose proof (newcap_bounds (cap b) (len l + n) ltac:(lia) ltac:(lia)) as Hnc. cbv zeta in Hnc.
  set (newcap := if _ || _ then _ else _) in *.
  destruct Hl as ([slack Hs] & _ & Hcl & _ & He).
  destruct (realloc_run (buf b) newcap s) as [(junk & E & Hj) | [E Ha]]; [lia | |]; run E.
  - left. exists (mk_buffer (buf b ++ junk) (len l) newcap true (error b)), (S (allocs s)).
    split; [done|]. unfold holds, same_buf. split_and!; cbn.
    + exists (slack ++ junk). by rewrite Hs, app_assoc.
    + done.
    + rewrite len_app. lia.
    + lia.
    + done.
    + done.
    + by rewrite Hr.
    + lia.
  - right. exists (S (allocs s)). split; [done|]. intros [_ Hf]. rewrite Hr in Hf. congruence.
Qed.

(** Adding [n] bytes, whose values are those the memory had. *)
Lemma add_spec s r b l n : bases s !! r = Some b -> holds b l -> 0 <= n <= size_max ->
  (exists b' k new, cbb_buffer_add (Some r) n s = Some (Some (len l), set_buf s r b' k) /\
     len new = n /\ holds b' (l ++ new) /\ same_buf b b') \/
  (exists k, cbb_buffer_add (Some r) n s = Some (None, set_buf s r (with_error b) k) /\
     ~ fits b (len l + n)).
Proof.
  intros Hb Hl Hn. unfold cbb_buffer_add.
  destruct (reserve_spec s r b l n Hb Hl Hn) as [(b' & k & E & Hl' & Hs & Hroom) | (k & E & Hf)]; run E.
  2:{ right. by exists k. }
  left. run (get_buffer_run r b' _ (set_buf_lookup s r b' k)).
  pose proof (holds_len b' l Hl') as [Hlen Hcap]. pose proof (len_nonneg l).
  destruct Hl' as ([slack Hsl] & _ & Hc & Hm & He). rewrite Hsl, len_app in Hc.
  rewrite wrap_small by (unfold size_max in Hm; lia). rewrite Hlen.
  eexists (with_len b' (len l + n)), k, (ztake n slack). unfold holds, same_buf. split_and!.
  - unfold mbind, M_bind, put_buffer, set_buf. cbn. by rewrite insert_insert_eq.
  - apply len_ztake. lia.
  - exists (zdrop n slack). cbn. by rewrite <- app_assoc, ztake_zdrop.
  - cbn. rewrite len_app, len_ztake by lia. done.
  - cbn. rewrite Hsl, len_app. lia.
  - done.
  - done.
  - apply Hs.
  - apply Hs.
Qed.

Lemma write_spec s r b pre old post l : bases s !! r = Some b -> holds b (pre ++ old ++ post) ->
  len old = len l ->
  exists b', write r (len pre) l s = Some (tt, set_buf s r b' (allocs s)) /\
    holds b' (pre ++ l ++ post) /\ same_buf b b'.
Proof.
  intros Hb ([slack Hs] & Hl & Hc & Hm & He) Hlen. unfold write. run (get_buffer_run r b s Hb).
  pose proof (len_nonneg pre). pose proof (len_nonneg post). pose proof (len_nonneg slack).
  assert (Hg : (len pre <? 0) || (len (buf b) <? len pre + len l) = false).
  { rewrite Hs, !len_app. lia. }
  rewrite Hg. eexists. split; [done|].
  assert (Hbuf : ztake (len pre) (buf b) ++ l ++ zdrop (len pre + len l) (buf b) = (pre ++ l ++ post) ++ slack).
  { rewrite Hs, <- !app_assoc, ztake_app_len. do 2 f_equal.
    rewrite app_assoc. apply zdrop_app_eq. rewrite len_app. lia. }
  unfold holds, same_buf. split_and!; cbn; [by exists slack | | | done | done | done | done].
  - rewrite Hl, !len_app. lia.
  - rewrite Hbuf, Hc, Hs, !len_app. lia.
Qed.

Lemma be_bytes_S k v : be_bytes (S k) v = be_bytes k (v / 256) ++ [v mod 256].
Proof. unfold be_bytes. cbn [le_bytes]. by rewrite reverse_cons. Qed.

(** The prefix loop writes the big-endian value and returns the rest of it. *)
Lemma write_length_spec k s r b pre old post v : bases s !! r = Some b ->
  holds b (pre ++ old ++ post) -> len old = Z.of_nat k -> 0 <= v ->
  exists b', write_length r (len pre) k v s = Some (v / 256 ^ Z.of_nat k, set_buf s r b' (allocs s)) /\
    holds b' (pre ++ be_bytes k v ++ post) /\ same_buf b b'.
Proof.
  revert s b old post v. induction k as [|k IH]; intros s b old post v Hb Hl Ho Hv; cbn [write_length].
  { exists b. apply len_0_nil in Ho as ->. rewrite Z.pow_0_r, Z.div_1_r. unfold set_buf.
    rewrite insert_id by done. by destruct s. }
  assert (old <> []) as Hne by (intros ->; change (len []) with 0 in Ho; lia).
  destruct (exists_last Hne) as (o & x & ->). rewrite len_app in Ho. change (len [x]) with 1 in Ho.
  destruct (write_spec s r b (pre ++ o) [x] post [u8 v] Hb) as (b1 & E & Hl1 & Hs1); [|done|].
  { by rewrite <- !app_assoc in *. }
  rewrite len_app in E. replace (len o) with (Z.of_nat k) in E by lia. run E.
  destruct (IH (set_buf s r b1 (allocs s)) b1 o ([u8 v] ++ post) (Z.shiftr v 8)) as (b2 & E2 & Hl2 & Hs2).
  - apply set_buf_lookup.
  - by rewrite <- !app_assoc in *.
  - lia.
  - apply Z.shiftr_nonneg. lia.
  - exists b2. rewrite E2, set_buf_set_buf, Z.shiftr_div_pow2 in * by lia. split_and!.
    + rewrite Nat2Z.inj_succ, Z.pow_succ_r, <- Z.div_div by lia. done.
    + rewrite be_bytes_S, <- app_assoc. done.
    + by etrans.
Qed.

(** The length octets chosen for an ASN.1 element. *)
Lemma asn1_len_len_spec n : 0 <= n ->
  match asn1_len_len n with
  | None => 0xfffffffe < n
  | Some (ll, i) =>
      n <= 0xfffffffe /\ 1 <= ll <= 5 /\ len (der_length n) = ll /\
      der_length n = i :: be_bytes (Z.to_nat (ll - 1)) (if ll =? 1 then 0 else n) /\
      (if ll =? 1 then 0 else n) / 256 ^ (ll - 1) = 0
  end.
Proof.
  intros Hn. unfold asn1_len_len. destruct (Z.ltb_spec 0xfffffffe n); [done|].
  assert (Hd : forall m, 0 <= m -> n < m -> n / m = 0) by (intros; apply Z.div_small; lia).
  zcases; unfold der_length, length_size; zcases; try lia;
    (split_and!; [lia | lia | lia | rewrite ?len_cons, ?len_be_bytes; done | | ]);
    try done; try (rewrite wrap_small by lia; done); apply Hd; lia.
Qed.

(** Moving the contents [d] along by [ll - 1] bytes. *)
Lemma make_room_spec s r b pre x d ll : bases s !! r = Some b -> holds b (pre ++ [x] ++ d) ->
  1 <= ll <= 5 ->
  (exists b' k junk, asn1_make_room r (len pre + 1) (len d) ll s = Some (true, set_buf s r b' k) /\
     len junk = ll - 1 /\ holds b' (pre ++ [x] ++ junk ++ d) /\ same_buf b b') \/
  (exists k, asn1_make_room r (len pre + 1) (len d) ll s = Some (false, set_buf s r (with_error b) k) /\
     ~ fits b (len pre + ll + len d)).
Proof.
  intros Hb Hl Hn. unfold asn1_make_room. destruct (Z.eqb_spec ll 1) as [->|].
  { left. exists b, (allocs s), []. unfold set_buf. rewrite insert_id by done. by destruct s. }
  cbv zeta. destruct (add_spec s r b (pre ++ [x] ++ d) (ll - 1) Hb Hl)
    as [(b1 & k & new & E & Hnew & Hl1 & Hs1) | (k & E & Hf)]; [unfold size_max; platform; lia | |]; run E.
  2:{ right. exists k. split; [done|]. rewrite !len_app in Hf. change (len [x]) with 1 in Hf.
      by replace (len pre + ll + len d) with (len pre + (1 + len d) + (ll - 1)) by lia. }
  left. run (get_buffer_run r b1 _ (set_buf_lookup s r b1 k)).
  assert (Hd : ztake (len d) (zdrop (len pre + 1) (buf b1)) = d).
  { destruct Hl1 as ([slack ->] & _). rewrite <- !app_assoc.
    rewrite (app_assoc pre [x]), zdrop_app_eq by (rewrite len_app; done). apply ztake_app_len. }
  rewrite Hd. set (w := d ++ new).
  assert (Hw : len w = len d + (ll - 1)) by (subst w; by rewrite len_app, Hnew).
  pose proof (len_nonneg d).
  destruct (write_spec (set_buf s r b1 k) r b1 (pre ++ [x] ++ ztake (ll - 1) w) (zdrop (ll - 1) w) [] d)
    as (b2 & E2 & Hl2 & Hs2).
  - apply set_buf_lookup.
  - rewrite app_nil_r, <- !app_assoc, ztake_zdrop. subst w. by rewrite <- !app_assoc in Hl1.
  - rewrite len_zdrop; lia.
  - exists b2, k, (ztake (ll - 1) w). rewrite !len_app, len_ztake in E2 by lia.
    change (len [x]) with 1 in E2. rewrite Z.add_assoc in E2. run E2.
    rewrite set_buf_set_buf, len_ztake by lia. rewrite app_nil_r, <- !app_assoc in Hl2.
    split_and!; [done | done | done | apply (same_buf_trans b b1 b2 Hs1 Hs2)..].
Qed.

Lemma flush_asn1_spec s r ch b pre x d : bases s !! r = Some b -> holds b (pre ++ [x] ++ d) ->
  heads s !! ch = Some (mk_cbb None (Some (mk_child (Some r) (len pre) 1 true))) ->
  (exists ll i b' k junk, flush_asn1 r ch (len pre + 1) (len d) s =
       Some (Some (if ll =? 1 then 0 else len d),
         mk_store (<[ch := mk_cbb None (Some (mk_child (Some r) (len pre + 1) (ll - 1) true))]> (heads s))
           (<[r := b']> (bases s)) k) /\
     asn1_len_len (len d) = Some (ll, i) /\ len junk = ll - 1 /\
     holds b' (pre ++ [i] ++ junk ++ d) /\ same_buf b b') \/
  (exists b' k, flush_asn1 r ch (len pre + 1) (len d) s = Some (None, set_buf s r b' k) /\
     (close Asn1 d = None \/ ~ fits b (len pre + len (der_length (len d)) + len d))).
Proof.
  intros Hb Hl Hch. unfold flush_asn1. pose proof (asn1_len_len_spec (len d) (len_nonneg d)) as Hll.
  destruct (asn1_len_len (len d)) as [[ll i]|].
  2:{ right. exists b, (allocs s). unfold set_buf. rewrite insert_id by done.
      split; [by destruct s|]. left. unfold close. destruct (Z.leb_spec (len d) 0xfffffffe); [lia | done]. }
  destruct Hll as (_ & Hll & Hder & _). pose proof (holds_len _ _ Hl) as [_ Hcap].
  rewrite !len_app in Hcap. change (len [x]) with 1 in Hcap.
  pose proof (len_nonneg d). pose proof (len_nonneg pre).
  destruct (make_room_spec s r b pre x d ll Hb Hl Hll) as [(b1 & k & junk & E & Hj & Hl1 & Hs1) | (k & E & Hf)]; run E.
  2:{ right. exists (with_error b), k. split; [done|]. right. by rewrite Hder. }
  left. run (get_child_run ch _ _ (set_buf s r b1 k) Hch eq_refl). cbn [offset base pending_is_asn1].
  destruct (write_spec (set_buf s r b1 k) r b1 pre [x] (junk ++ d) [i]) as (b2 & E2 & Hl2 & Hs2);
    [apply set_buf_lookup | done | done |].
  run E2. rewrite set_buf_set_buf. cbn [allocs set_buf].
  rewrite (bind_run _ _ _ _ _ (put_child_run ch _ _ (set_buf s r b2 k) Hch)).
  rewrite wrap_small by (unfold size_max in Hcap; lia).
  exists ll, i, b2, k, junk. split_and!; [done | done | done | done | apply (same_buf_trans b b1 b2 Hs1 Hs2)..].
Qed.

(** A child whose prefix [p] is pending. *)
Definition pending (r : addr) (off : Z) (p : prefix) (next : option addr) : cbb_st :=
  mk_cbb next (Some (mk_child (Some r) off (prefix_len p) (is_asn1 p))).

(** Filling in a prefix, on every branch. *)
Lemma flush_prefix_spec s r ch b pre p d : bases s !! r = Some b ->
  holds b (pre ++ zeros (prefix_len p) ++ d) -> prefix_ok p ->
  heads s !! ch = Some (pending r (len pre) p None) ->
  exists ok st b' k, base st = Some r /\
    flush_prefix r ch (len pre + prefix_len p) (len d) s =
      Some (ok, mk_store (<[ch := mk_cbb None (Some st)]> (heads s)) (<[r := b']> (bases s)) k) /\
    if (ok : bool) then exists out, close p d = Some out /\ holds b' (pre ++ out) /\ same_buf b b'
    else close p d = None \/ exists out, close p d = Some out /\ ~ fits b (len pre + len out).
Proof.
  intros Hb Hl Hp Hch. unfold flush_prefix. run (get_child_run ch _ _ s Hch eq_refl). cbn [pending_is_asn1].
  destruct p as [n|]; cbn [is_asn1 prefix_len prefix_ok] in *.
  - rewrite (bind_run _ _ s (Some (len d)) s) by done.
    run (get_child_run ch _ _ s Hch eq_refl). cbn [offset pending_len_len prefix_len].
    destruct (write_length_spec (Z.to_nat n) s r b pre (zeros n) d (len d)) as (b' & E & Hl' & Hs');
      [done | done | rewrite len_zeros; lia | apply len_nonneg |].
    run E. rewrite Z2Nat.id by lia. pose proof (len_nonneg d).
    assert (0 < 256 ^ n) by (apply Z.pow_pos_nonneg; lia).
    exists (len d / 256 ^ n =? 0), (mk_child (Some r) (len pre) n false), b', (allocs s).
    rewrite insert_id by done. split_and!; [done | done |]. unfold close.
    assert (Hc : (len d / 256 ^ n =? 0) = (len d <? 256 ^ n)).
    { apply Bool.eq_iff_eq_true. rewrite Z.eqb_eq, Z.ltb_lt, Z.div_small_iff by lia. lia. }
    rewrite Hc. destruct (_ <? _); [|by left]. eexists. split_and!; [done | done | apply Hs'..].
  - destruct (flush_asn1_spec s r ch b pre 0 d) as [(ll & i & b1 & k & junk & E & Hll & Hj & Hl1 & Hs1) | (b' & k & E & Hf)];
      [done | done | done | |]; run E.
    2:{ exists false, (mk_child (Some r) (len pre) 1 true), b', k.
        split_and!; [done | unfold set_buf; by rewrite (insert_id (heads s)) |]. unfold close in *.
        destruct (_ <=? _); [|by left]. destruct Hf as [|Hf]; [done|]. right. eexists.
        split; [done|]. by rewrite len_app, Z.add_assoc. }
    pose proof (asn1_len_len_spec (len d) (len_nonneg d)) as Hspec. rewrite Hll in Hspec.
    destruct Hspec as (Hmax & Hll5 & _ & Hder & Hrest).
    set (st := mk_child (Some r) (len pre + 1) (ll - 1) true) in *.
    set (s' := mk_store (<[ch := mk_cbb None (Some st)]> (heads s)) (<[r := b1]> (bases s)) k) in *.
    assert (Hch' : heads s' !! ch = Some (mk_cbb None (Some st))) by apply lookup_insert_eq.
    run (get_child_run ch _ st s' Hch' eq_refl). cbn [offset pending_len_len st].
    destruct (write_length_spec (Z.to_nat (ll - 1)) s' r b1 (pre ++ [i]) junk d (if ll =? 1 then 0 else len d))
      as (b2 & E2 & Hl2 & Hs2).
    + apply lookup_insert_eq.
    + by rewrite <- app_assoc.
    + lia.
    + destruct (ll =? 1); [lia | apply len_nonneg].
    + rewrite len_app in E2. change (len [i]) with 1 in E2. run E2. rewrite Z2Nat.id, Hrest by lia.
      exists true, st, b2, k.
      split_and!; [done | subst s'; unfold set_buf; cbn; by rewrite insert_insert_eq |].
      unfold close. destruct (Z.leb_spec (len d) 0xfffffffe); [|lia]. eexists. split; [done|].
      rewrite Hder, <- app_assoc in *. split; [done | apply (same_buf_trans b b1 b2 Hs1 Hs2)].
Qed.

(** * The chain of children *)

(** [kids hs r pos l fs]: the addresses [l] are the open children, each the child
    of the one before, of the frames [fs], whose first prefix is at [pos]. *)
Fixpoint kids (hs : gmap addr cbb_st) (r : addr) (pos : Z) (l : list addr) (fs : list frame) : Prop :=
  match l, fs with
  | [], [] => True
  | ch :: l, f :: fs =>
      prefix_ok (f_prefix f) /\ hs !! ch = Some (pending r pos (f_prefix f) (head l)) /\
      kids hs r (pos + prefix_len (f_prefix f) + len (f_data f)) l fs
  | _, _ => False
  end.

(** The CBB [a] writes to the buffer of [r]: it is [r] or a child of it. *)
Definition writes_to (r a : addr) (c : cbb_st) : Prop :=
  (is_child c = None /\ a = r) \/ (exists st, is_child c = Some st /\ base st = Some r).

(** A CBB that has been flushed away, and a child of [r] that may have been. *)
Definition stale (hs : gmap addr cbb_st) (a : addr) : Prop :=
  exists c st, hs !! a = Some c /\ is_child c = Some st /\ base st = None.
Definition stale_or_child (r : addr) (hs : gmap addr cbb_st) (a : addr) : Prop :=
  exists c st, hs !! a = Some c /\ is_child c = Some st /\ (base st = None \/ base st = Some r).

(** The heads after the children [l] of [a] have been flushed: only [a] and [l]
    have changed, and [a] has no child. *)
Definition closed (ok : bool) (r : addr) (hs hs' : gmap addr cbb_st) (a : addr) (c : cbb_st) (l : list addr) : Prop :=
  hs' !! a = Some (mk_cbb None (is_child c)) /\
  Forall (if ok then stale hs' else stale_or_child r hs') l /\
  forall x, x ∉ a :: l -> hs' !! x = hs !! x.

Lemma get_base_run r a c s : heads s !! a = Some c -> writes_to r a c ->
  cbb_get_base a s = Some (Some r, s).
Proof.
  intros Ha Hw. unfold cbb_get_base. run (get_cbb_run a c s Ha).
  destruct Hw as [[-> ->] | (st & -> & <-)]; done.
Qed.

Lemma on_error_run r a c b s : heads s !! a = Some c -> writes_to r a c -> bases s !! r = Some b ->
  cbb_on_error a s = Some (tt, mk_store (<[a := mk_cbb None (is_child c)]> (heads s))
    (<[r := with_error b]> (bases s)) (allocs s)).
Proof.
  intros Ha Hw Hb. unfold cbb_on_error. run (get_base_run r a c s Ha Hw). run (get_buffer_run r b s Hb).
  unfold mbind at 1, M_bind, put_buffer.
  by rewrite (set_child_run a c None (mk_store (heads s) _ _) Ha).
Qed.

Lemma kids_ext hs hs' r pos l fs : (forall x, x ∈ l -> hs' !! x = hs !! x) ->
  kids hs r pos l fs -> kids hs' r pos l fs.
Proof.
  revert pos fs. induction l as [|ch l IH]; intros pos [|f fs] Hx; cbn; try done.
  intros (Hp & Hc & Hk). split_and!; [done | rewrite Hx; [done | apply elem_of_cons; by left] |].
  apply IH; [|done]. intros x Hin. apply Hx, elem_of_cons. by right.
Qed.

Lemma close_len p d out : prefix_ok p -> close p d = Some out -> prefix_len p + len d <= len out.
Proof.
  intros Hp. destruct p as [n|]; cbn in *; zcases; intros [= <-]; rewrite len_app.
  - rewrite len_be_bytes. lia.
  - pose proof (len_der_length (len d)). lia.
Qed.

(** Finishing the child [ch] of [a], on every branch. *)
Lemma flush_child_spec s r a c ch b pre p d :
  heads s !! a = Some c -> writes_to r a c -> a <> ch -> bases s !! r = Some b ->
  holds b (pre ++ zeros (prefix_len p) ++ d) -> prefix_ok p ->
  heads s !! ch = Some (pending r (len pre) p None) ->
  exists (ok : bool) st b' k, base st = (if ok then None else Some r) /\
    flush_child a r ch (len pre + prefix_len p) (len d) s =
      Some (ok, mk_store (<[a := mk_cbb None (is_child c)]> (<[ch := mk_cbb None (Some st)]> (heads s)))
        (<[r := b']> (bases s)) k) /\
    if ok then exists out, close p d = Some out /\ holds b' (pre ++ out) /\ same_buf b b'
    else error b' = true /\
      (close p d = None \/ exists out, close p d = Some out /\ ~ fits b (len pre + len out)).
Proof.
  intros Ha Hw Hne Hb Hl Hp Hch. unfold flush_child.
  destruct (flush_prefix_spec s r ch b pre p d Hb Hl Hp Hch) as (ok & st & b2 & k2 & Hst & E2 & Hpre).
  run E2. set (s2 := mk_store (<[ch := mk_cbb None (Some st)]> (heads s)) (<[r := b2]> (bases s)) k2) in *.
  assert (Hb2 : bases s2 !! r = Some b2) by apply lookup_insert_eq.
  assert (Ha2 : heads s2 !! a = Some c) by (cbn; by rewrite lookup_insert_ne).
  assert (Hch2 : heads s2 !! ch = Some (mk_cbb None (Some st))) by apply lookup_insert_eq.
  destruct ok; cbn [negb].
  - run (get_child_run ch _ st s2 Hch2 eq_refl).
    set (st' := mk_child None _ _ _). run (put_child_run ch _ st' s2 Hch2). cbn [child].
    set (s3 := mk_store (<[ch := mk_cbb None (Some st')]> (heads s2)) (bases s2) (allocs s2)).
    assert (Ha3 : heads s3 !! a = Some c) by (cbn; by rewrite !lookup_insert_ne).
    run (set_child_run a c None s3 Ha3).
    exists true, st', b2, k2. split; [done|]. split; [cbn; by rewrite !insert_insert_eq | done].
  - run (on_error_run r a c b2 s2 Ha2 Hw Hb2).
    exists false, st, (with_error b2), k2. split; [done|]. split; [cbn; by rewrite !insert_insert_eq | done].
Qed.

(** Updating [a] and a child [ch] keeps the heads closed. *)
Lemma closed_step ok ok' r hs hs1 hs' a c ch cc cc' l :
  NoDup (a :: ch :: l) -> closed ok r hs hs1 ch cc l -> (ok = false -> ok' = false) ->
  hs' = <[a := mk_cbb None (is_child c)]> (<[ch := cc']> hs1) ->
  (if ok' then stale hs' ch else stale_or_child r hs' ch) ->
  closed ok' r hs hs' a c (ch :: l).
Proof.
  intros Hnd (Hch & Hl & Hx) Hok -> Hst. apply NoDup_cons in Hnd as [Hna [Hnc Hnd]%NoDup_cons].
  assert (Hother : forall x, x <> a -> x <> ch ->
    <[a:=mk_cbb None (is_child c)]> (<[ch:=cc']> hs1) !! x = hs1 !! x).
  { intros x H1 H2. by rewrite !lookup_insert_ne by done. }
  unfold closed. split_and!; [apply lookup_insert_eq | |].
  - constructor; [by destruct ok'|]. apply Forall_forall. intros x Hin.
    assert (x <> a) by (intros ->; apply Hna, elem_of_cons; by right).
    assert (x <> ch) by (by intros ->).
    rewrite Forall_forall in Hl. specialize (Hl x Hin).
    destruct ok', ok; try (by discriminate Hok); unfold stale, stale_or_child in *; rewrite Hother by done;
      [done | destruct Hl as (c' & st & ? & ? & ?); exists c', st; by auto | done].
  - intros x Hin. rewrite !not_elem_of_cons in Hin. destruct Hin as (? & ? & ?).
    rewrite Hother by done. apply Hx. by apply not_elem_of_cons.
Qed.

(** [CBB_flush] closes the open frames below [a], or sets the error flag when a
    frame is too long for its prefix or the result does not fit. *)
Lemma flush_spec fuel l s r a c b pre fs :
  (length l < fuel)%nat -> NoDup (a :: l) ->
  heads s !! a = Some c -> child c = head l -> writes_to r a c ->
  kids (heads s) r (len pre) l fs -> bases s !! r = Some b -> holds b (pre ++ flat fs) ->
  exists (ok : bool) b' hs' k, flush fuel a s = Some (ok, mk_store hs' (<[r := b']> (bases s)) k) /\
    closed ok r (heads s) hs' a c l /\
    if ok then exists out, collapse fs = Some out /\ holds b' (pre ++ out) /\ same_buf b b'
    else error b' = true /\
      (collapse fs = None \/ exists out, collapse fs = Some out /\ ~ fits b (len pre + len out)).
Proof.
  revert fuel s a c b pre fs. induction l as [|ch l IH]; intros fuel s a c b pre fs Hfuel Hnd Ha Hc Hw Hk Hb Hl;
    (destruct fuel as [|fuel]; [cbn in Hfuel; lia|]); cbn [flush];
    run (get_base_run r a c s Ha Hw); run (get_buffer_run r b s Hb);
    assert (He : error b = false) by apply Hl; rewrite He;
    run (get_cbb_run a c s Ha); rewrite Hc.
  { destruct fs; [|done]. exists true, b, (heads s), (allocs s). rewrite insert_id by done.
    split; [by destruct s|]. split; [|by exists []]. unfold closed. split_and!; [|constructor|done].
    rewrite Ha. destruct c as [x y]. cbn in Hc. by subst x. }
  destruct fs as [|f fs]; [done|]. destruct Hk as (Hp & Hch & Hk). cbn [head].
  run (get_child_run ch _ _ s Hch eq_refl). cbn [offset pending_len_len].
  apply NoDup_cons in Hnd as [Hna Hnd]. cbn in Hfuel.
  pose proof (prefix_len_nonneg _ Hp) as Hpl. set (p := f_prefix f) in *. set (d := f_data f) in *.
  pose proof (holds_len _ _ Hl) as [_ Hcap]. cbn [flat] in Hl. fold p d in Hl.
  destruct (IH fuel s ch (pending r (len pre) p (head l)) b (pre ++ zeros (prefix_len p) ++ d) fs)
    as (ok & b1 & hs1 & k1 & E & (Hch1 & Hl1 & Hx1) & H1); try done; [lia | by right; eexists | | |].
  { rewrite !len_app, len_zeros by lia. by rewrite Z.add_assoc. }
  { by rewrite <- !app_assoc. }
  clear IH. set (s1 := mk_store hs1 (<[r := b1]> (bases s)) k1) in *.
  assert (Hb1 : bases s1 !! r = Some b1) by apply lookup_insert_eq.
  assert (Ha1 : heads s1 !! a = Some c) by (cbn; by rewrite Hx1).
  run E. run (get_buffer_run r b1 s1 Hb1).
  rewrite !len_app, (Z.add_comm (len pre)) in Hcap. cbn [flat] in Hcap. fold p d in Hcap.
  rewrite !len_app, len_zeros in Hcap by lia.
  pose proof (len_nonneg pre). pose proof (len_nonneg d). pose proof (len_nonneg (flat fs)).
  rewrite (wrap_small _ (len pre + prefix_len p)) by (unfold size_max in Hcap; lia).
  destruct (Z.ltb_spec (len pre + prefix_len p) (len pre)) as [|_]; [lia|]. rewrite orb_false_r.
  destruct ok; cbn [negb orb].
  2:{ run (on_error_run r a c b1 s1 Ha1 Hw Hb1).
      exists false, (with_error b1), (<[a := mk_cbb None (is_child c)]> hs1), k1.
      split; [cbn; by rewrite insert_insert_eq|]. split.
      - apply (closed_step false false r _ hs1 _ a c ch (pending r (len pre) p (head l))
          (mk_cbb None (is_child (pending r (len pre) p (head l)))) l);
          [by constructor | done | done | by rewrite (insert_id hs1 ch) |].
        unfold stale_or_child. rewrite lookup_insert_ne, Hch1 by (intros ->; apply Hna, elem_of_cons; by left).
        eexists _, _. split_and!; [done | done | by right].
      - split; [done|]. cbn [collapse]. fold p d. destruct H1 as [_ [-> | (out & -> & Hf)]]; [by left|].
        destruct (close p (d ++ out)) as [out2|] eqn:Ec; [right; exists out2; split; [done|] | by left].
        apply close_len in Ec; [|done]. intros Hfit. apply Hf. eapply fits_le, Hfit.
        rewrite !len_app, len_zeros in * by lia. lia. }
  destruct H1 as (out1 & Hout1 & Hh1 & Hs1). rewrite <- !app_assoc in Hh1.
  assert (Hlen1 : blen b1 = len pre + prefix_len p + len (d ++ out1)).
  { destruct Hh1 as (_ & -> & _). rewrite !len_app, len_zeros by lia. lia. }
  pose proof (len_nonneg (d ++ out1)). rewrite Hlen1.
  destruct (Z.ltb_spec (len pre + prefix_len p + len (d ++ out1)) (len pre + prefix_len p)); [lia|].
  replace (len pre + prefix_len p + len (d ++ out1) - (len pre + prefix_len p)) with (len (d ++ out1)) by lia.
  assert (Hach : a <> ch) by (intros ->; apply Hna, elem_of_cons; by left).
  destruct (flush_child_spec s1 r a c ch b1 pre p (d ++ out1) Ha1 Hw Hach Hb1 Hh1 Hp Hch1)
    as (ok & st & b2 & k2 & Hst & E2 & Hpre).
  rewrite E2. exists ok, b2. eexists _, k2. split; [cbn; by rewrite insert_insert_eq|]. split.
  - apply (closed_step true ok r _ hs1 _ a c ch (pending r (len pre) p (head l)) (mk_cbb None (Some st)) l);
      [by constructor | done | done | done |].
    unfold stale, stale_or_child. rewrite lookup_insert_ne, lookup_insert_eq by done.
    destruct ok; eexists _, st; auto.
  - cbn [collapse]. rewrite Hout1. fold p d. destruct ok.
    + destruct Hpre as (out & Hout & Hh2 & Hs2). exists out.
      split_and!; [done | done | apply (same_buf_trans b b1 b2 Hs1 Hs2)..].
    + destruct Hpre as [He2 [Hc2|(out & Hc2 & Hf)]]; (split; [done|]); [by left | right]. exists out.
      split; [done|]. by rewrite <- (fits_same b b1) by done.
Qed.

(** * Specifications of operations *)

(** The CBB [a] writes to the buffer [b] of [r]; the bytes before it and in it
    are [pre], and [l] are its open descendants, with frames [fs]. Addresses from
    [d] on are free for local CBBs. *)
Definition opened (d : addr) (s : store) (r a : addr) (c : cbb_st) (l : list addr) (pre : list Z)
    (fs : list frame) (b : cbb_buffer_st) : Prop :=
  NoDup (a :: l) /\ heads s !! a = Some c /\ child c = head l /\ writes_to r a c /\
  kids (heads s) r (len pre) l fs /\ bases s !! r = Some b /\ holds b (pre ++ flat fs) /\
  (r < d)%nat /\ Forall (fun x => x < d)%nat (a :: l).

(** A CBB of [r], possibly flushed away. *)
Definition family (r : addr) (hs : gmap addr cbb_st) (x : addr) : Prop :=
  exists c, hs !! x = Some c /\ (writes_to r x c \/ stale hs x).

(** The outcome of an operation that flushes [a] and appends [w] to it ([None]:
    what is appended cannot be encoded): either it has done so, or it has set the
    error flag because that is not possible. It touches only the buffer it
    writes to, [a], its open descendants and the free addresses. *)
Definition appended (d : addr) (s : store) (r a : addr) (c : cbb_st) (l : list addr) (pre : list Z)
    (fs : list frame) (b : cbb_buffer_st) (w : option (list Z)) (ok : bool) (s' : store) : Prop :=
  exists b', bases s' !! r = Some b' /\
    (forall x, (x < d)%nat -> x <> r -> bases s' !! x = bases s !! x) /\
    (forall x, (x < d)%nat -> x ∉ a :: l -> heads s' !! x = heads s !! x) /\
    if ok then
      heads s' !! a = Some (mk_cbb None (is_child c)) /\ Forall (stale (heads s')) l /\
      exists out w', collapse fs = Some out /\ w = Some w' /\ holds b' (pre ++ out ++ w') /\ same_buf b b'
    else
      error b' = true /\ (exists q, heads s' !! a = Some (mk_cbb q (is_child c))) /\
      Forall (family r (heads s')) l /\
      forall out w', collapse fs = Some out -> w = Some w' -> ~ fits b (len pre + len out + len w').

(** [appends d a m w]: the operation [m] is never undefined, and appends [w]. *)
Definition appends (d a : addr) (m : M bool) (w : option (list Z)) : Prop :=
  forall s r l pre fs b c, opened d s r a c l pre fs b ->
  exists ok s', m s = Some (ok, s') /\ appended d s r a c l pre fs b w ok s'.

(** The same, when [a] has no open child. *)
Definition appends_flushed (d a : addr) (m : M bool) (w : option (list Z)) : Prop :=
  forall s r pre b c, opened d s r a c [] pre [] b ->
  exists ok s', m s = Some (ok, s') /\ appended d s r a c [] pre [] b w ok s'.

Lemma kids_dom hs r pos l fs : kids hs r pos l fs -> Forall (fun x => is_Some (hs !! x)) l.
Proof.
  revert pos fs. induction l as [|ch l IH]; intros pos [|f fs]; cbn; try done.
  intros (_ & H & Hk). constructor; [by eexists | by eapply IH].
Qed.

Lemma opened_fuel d s r a c l pre fs b : opened d s r a c l pre fs b ->
  (length l < S (size (heads s)))%nat.
Proof.
  intros (Hnd & Ha & _ & _ & Hk & _). apply NoDup_cons in Hnd as [_ Hnd].
  rewrite <- size_dom, <- (size_list_to_set (C := gset addr) l) by done.
  apply Nat.lt_succ_r, subseteq_size. intros x Hx. apply elem_of_list_to_set in Hx.
  apply elem_of_dom. apply kids_dom in Hk. rewrite Forall_forall in Hk. by apply Hk.
Qed.

Lemma writes_to_None r a c : writes_to r a c -> writes_to r a (mk_cbb None (is_child c)).
Proof. done. Qed.

Lemma stale_or_child_family r hs x : stale_or_child r hs x -> family r hs x.
Proof.
  intros (c & st & H & Hc & [Hb|Hb]); exists c; (split; [done|]).
  - right. by exists c, st.
  - left. right. by exists st.
Qed.

Lemma flush_appends d a : appends d a (CBB_flush a) (Some []).
Proof.
  intros s r l pre fs b c Ho. pose proof (opened_fuel _ _ _ _ _ _ _ _ _ Ho) as Hfuel.
  destruct Ho as (Hnd & Ha & Hc & Hw & Hk & Hb & Hl & _ & _).
  destruct (flush_spec _ l s r a c b pre fs Hfuel Hnd Ha Hc Hw Hk Hb Hl) as (ok & b' & hs' & k & E & (Hca & Hcl & Hcx) & H).
  exists ok, (mk_store hs' (<[r := b']> (bases s)) k). split; [done|]. exists b'.
  split; [apply lookup_insert_eq|]. split; [intros x _ Hx; by apply lookup_insert_ne|].
  split; [intros x _; apply Hcx|]. destruct ok.
  - split; [done|]. split; [done|]. destruct H as (out & Hout & Hh & Hs). exists out, [].
    rewrite app_nil_r. done.
  - destruct H as [He Hreason]. split; [done|]. split; [by eexists|]. split.
    + eapply Forall_impl; [done|]. apply stale_or_child_family.
    + intros out w' Hout [= <-]. change (len []) with 0. rewrite Z.add_0_r.
      destruct Hreason as [|(out' & Hout' & Hf)]; congruence.
Qed.

(** Sequencing. *)
Definition opt_app (w1 w2 : option (list Z)) : option (list Z) :=
  match w1, w2 with Some l1, Some l2 => Some (l1 ++ l2) | _, _ => None end.

Lemma appended_opened d s r a c l pre fs b w s' : opened d s r a c l pre fs b ->
  appended d s r a c l pre fs b w true s' ->
  exists out w' b', collapse fs = Some out /\ w = Some w' /\ same_buf b b' /\
    opened d s' r a (mk_cbb None (is_child c)) [] (pre ++ out ++ w') [] b'.
Proof.
  intros (_ & _ & _ & Hw & _ & _ & _ & Hr & Hd) (b' & Hb & _ & _ & Ha & Hst & out & w' & Hout & -> & Hh & Hs).
  exists out, w', b'. split_and!; [done | done | apply Hs.. |]. unfold opened. apply Forall_cons_iff in Hd as [Hd _].
  split_and!; [apply NoDup_singleton | done | done | done | done | done | by rewrite app_nil_r | done | by constructor].
Qed.

Lemma stale_family r hs x : stale hs x -> family r hs x.
Proof. intros (c & st & H1 & H2 & H3). exists c. split; [done|]. right. by exists c, st. Qed.

Lemma appended_seq d a m1 m2 w1 w2 s r l pre fs b c ok1 s1 : opened d s r a c l pre fs b ->
  m1 s = Some (ok1, s1) -> appended d s r a c l pre fs b w1 ok1 s1 -> appends_flushed d a m2 w2 ->
  exists ok s', andthen m1 m2 s = Some (ok, s') /\ appended d s r a c l pre fs b (opt_app w1 w2) ok s'.
Proof.
  intros Ho E1 Hap1 H2. unfold andthen. run E1. destruct ok1; cbn [negb].
  2:{ exists false, s1. split; [done|]. destruct Hap1 as (b1 & Hb1 & Hx & Hy & He & Hq & Hfam & Hf).
      exists b1. split_and!; [done | done | done | done | done | done |]. intros out w' Hout Hw Hfit.
      destruct w1 as [w1|], w2 as [w2|]; try done. injection Hw as <-.
      apply (Hf out w1 Hout eq_refl). eapply fits_le, Hfit. rewrite len_app. pose proof (len_nonneg w2). lia. }
  destruct (appended_opened _ _ _ _ _ _ _ _ _ _ _ Ho Hap1) as (out & w1' & b1 & Hout & -> & Hs1 & Ho1).
  destruct Hap1 as (b1' & Hb1 & Hx1 & Hy1 & Ha1 & Hst1 & _).
  destruct (H2 s1 r _ b1 _ Ho1) as (ok2 & s2 & E2 & b2 & Hb2 & Hx2 & Hy2 & Hres).
  assert (Hla : Forall (fun x => (x < d)%nat /\ x ∉ [a]) l).
  { destruct Ho as (Hnd & _ & _ & _ & _ & _ & _ & _ & Hd). apply Forall_cons_iff in Hd as [_ Hd].
    apply NoDup_cons in Hnd as [Hna _]. rewrite Forall_forall in *. intros x Hin. split; [by apply Hd|].
    rewrite list_elem_of_singleton. by intros ->. }
  assert (Hst2 : Forall (stale (heads s2)) l).
  { rewrite Forall_forall in *. intros x Hin. destruct (Hla x Hin) as [Hxd Hxa].
    unfold stale. rewrite Hy2 by done. by apply Hst1. }
  exists ok2, s2. split; [done|]. exists b2. split; [done|].
  split; [intros x ? ?; by rewrite Hx2, Hx1|].
  split; [intros x ? Hn; rewrite Hy2, Hy1; [done | done | done | done |]; apply not_elem_of_cons in Hn as [? _];
          by rewrite list_elem_of_singleton|].
  destruct ok2.
  - destruct Hres as (Ha2 & _ & out2 & w2' & [= <-] & -> & Hh2 & Hs2). cbn [app] in Hh2.
    split; [done|]. split; [done|]. exists out, (w1' ++ w2'). rewrite <- !app_assoc in Hh2.
    split_and!; [done | done | done | apply (same_buf_trans b b1 b2 Hs1 Hs2)..].
  - destruct Hres as (He2 & Hq & _ & Hf). split; [done|]. split; [done|]. split.
    + eapply Forall_impl; [done|]. apply stale_family.
    + intros out' w' Hout' Hw. rewrite Hout in Hout'. injection Hout' as <-. destruct w2 as [w2|]; [|done].
      injection Hw as <-. specialize (Hf [] w2 eq_refl eq_refl). rewrite (fits_same b b1) in Hf by done.
      rewrite !len_app in *. change (len []) with 0 in Hf. intros Hfit. apply Hf. eapply fits_le, Hfit. lia.
Qed.

Lemma appends_seq d a m1 m2 w1 w2 :
  appends d a m1 w1 -> appends_flushed d a m2 w2 -> appends d a (andthen m1 m2) (opt_app w1 w2).
Proof.
  intros H1 H2 s r l pre fs b c Ho. destruct (H1 s r l pre fs b c Ho) as (ok1 & s1 & E1 & Hap1).
  by eapply appended_seq.
Qed.
Lemma appends_flushed_seq d a m1 m2 w1 w2 :
  appends_flushed d a m1 w1 -> appends_flushed d a m2 w2 ->
  appends_flushed d a (andthen m1 m2) (opt_app w1 w2).
Proof.
  intros H1 H2 s r pre b c Ho. destruct (H1 s r pre b c Ho) as (ok1 & s1 & E1 & Hap1).
  by eapply appended_seq.
Qed.

Lemma appends_appends_flushed d a m w : appends d a m w -> appends_flushed d a m w.
Proof. intros H s r pre b c Ho. by apply H. Qed.

(** ** Adding bytes *)

(** The space operations, after the flush they start with. *)
Definition raw_add (a : addr) (n : Z) (k : Z -> M bool) : M bool :=
  o ← cbb_get_base a; p ← cbb_buffer_add o n; match p with None => mret false | Some out => k out end.

Lemma add_space_andthen a n k s :
  (o ← CBB_add_space a n; match o with None => mret false | Some out => k out end) s =
  andthen (CBB_flush a) (raw_add a n k) s.
Proof.
  unfold andthen, raw_add, CBB_add_space, mbind, M_bind.
  destruct (CBB_flush a s) as [[[] s1]|]; [|done..]. cbn [negb].
  destruct (cbb_get_base a s1) as [[o s2]|]; [|done]. by destruct (cbb_buffer_add o n s2) as [[[] ?]|].
Qed.

(** Adding [n] bytes to a flushed CBB and then writing [data] there. *)
Lemma raw_add_flushed d a n data k w : 0 <= n <= size_max -> len data = n ->
  (forall s r b c pre new, heads s !! a = Some c -> child c = None -> writes_to r a c ->
     bases s !! r = Some b -> holds b (pre ++ new) -> len new = n ->
     exists b' ok, k (len pre) s = Some (ok, mk_store (heads s) (<[r := b']> (bases s)) (allocs s)) /\
       if (ok : bool) then w = Some data /\ holds b' (pre ++ data) /\ same_buf b b'
       else w = None /\ error b' = true) ->
  (forall data', w = Some data' -> data' = data) ->
  appends_flushed d a (raw_add a n k) w.
Proof.
  intros Hn Hlen Hk Hw0 s r pre b c (_ & Ha & Hc & Hw & _ & Hb & Hl & Hr & Hd). rewrite app_nil_r in Hl.
  unfold raw_add. run (get_base_run r a c s Ha Hw).
  assert (Hself : heads s !! a = Some (mk_cbb None (is_child c))) by (rewrite Ha; destruct c; cbn in *; by subst).
  destruct (add_spec s r b pre n Hb Hl Hn) as [(b1 & k1 & new & E & Hnew & Hl1 & Hs1) | (k1 & E & Hf)]; run E.
  2:{ exists false, (set_buf s r (with_error b) k1). split; [done|]. exists (with_error b).
      split; [apply lookup_insert_eq|]. split; [intros; by apply lookup_insert_ne|]. split; [done|].
      split; [done|]. split; [by eexists|]. split; [constructor|]. intros out w' [= <-] ->%Hw0. change (len []) with 0.
      by rewrite Z.add_0_r, Hlen. }
  destruct (Hk (set_buf s r b1 k1) r b1 c pre new) as (b2 & ok & E2 & H2); try done.
  { apply lookup_insert_eq. }
  exists ok. eexists. split; [exact E2|]. exists b2. cbn [heads bases].
  split; [apply lookup_insert_eq|].
  split; [intros x ? ?; cbn; by rewrite !lookup_insert_ne|]. split; [done|]. destruct ok.
  - destruct H2 as (-> & Hh & Hs2). split; [done|]. split; [constructor|]. exists [], data.
    split_and!; [done | done | done | apply (same_buf_trans b b1 b2 Hs1 Hs2)..].
  - destruct H2 as (-> & He). split; [done|]. split; [by eexists|]. split; [constructor | done].
Qed.

Lemma write_space_run s r a c b pre new data : heads s !! a = Some c -> writes_to r a c ->
  bases s !! r = Some b -> holds b (pre ++ new) -> len new = len data ->
  exists b', write_space a (len pre) data s = Some (tt, set_buf s r b' (allocs s)) /\
    holds b' (pre ++ data) /\ same_buf b b'.
Proof.
  intros Ha Hw Hb Hl Hn. unfold write_space. run (get_base_run r a c s Ha Hw).
  destruct (write_spec s r b pre new [] data) as (b' & E & Hh & Hs); [done | by rewrite app_nil_r | done |].
  rewrite app_nil_r in Hh. by exists b'.
Qed.

Lemma add_bytes_appends d a data : len data <= size_max ->
  appends d a (CBB_add_bytes a data) (Some data).
Proof.
  intros Hd. pose proof (len_nonneg data).
  assert (H' : appends d a (andthen (CBB_flush a) (raw_add a (len data) (fun out => write_space a out data;; mret true)))
    (opt_app (Some []) (Some data))).
  { apply appends_seq; [apply flush_appends|]. apply (raw_add_flushed d a (len data) data); [lia | done | | by intros ? [=]].
    intros s r b c pre new Ha _ Hw Hb Hl Hn.
    destruct (write_space_run s r a c b pre new data Ha Hw Hb Hl Hn) as (b' & E & Hh & Hs).
    exists b', true. run E. done. }
  intros s r l pre fs b c Ho. unfold CBB_add_bytes. rewrite add_space_andthen. by apply H'.
Qed.

Lemma u_bytes_spec n v : 0 <= v -> u_bytes n v = (be_bytes n v, v / 256 ^ Z.of_nat n).
Proof.
  revert v. induction n as [|n IH]; intros v Hv; cbn [u_bytes]; [by rewrite Z.div_1_r|].
  rewrite IH by (apply Z.shiftr_nonneg; lia). rewrite Z.shiftr_div_pow2, be_bytes_S by lia.
  rewrite Nat2Z.inj_succ, Z.pow_succ_r, <- Z.div_div by lia. done.
Qed.

Definition uint_bytes (n v : Z) : option (list Z) :=
  if v <? 256 ^ n then Some (be_bytes (Z.to_nat n) v) else None.

Lemma add_u_appends d a v n : 0 <= v -> 0 <= n <= 8 -> appends d a (cbb_add_u a v n) (uint_bytes n v).
Proof.
  intros Hv Hn.
  set (k := fun out => let '(l, rest) := u_bytes (Z.to_nat n) v in
    write_space a out l;; if negb (rest =? 0) then cbb_on_error a;; mret false else mret true).
  assert (H' : appends d a (andthen (CBB_flush a) (raw_add a n k)) (opt_app (Some []) (uint_bytes n v))).
  { apply appends_seq; [apply flush_appends|].
    apply (raw_add_flushed d a n (be_bytes (Z.to_nat n) v)); [unfold size_max; platform; lia | rewrite len_be_bytes; lia | |].
    2:{ unfold uint_bytes. intros data'. by case_match; intros [=]. }
    intros s r b c pre new Ha Hc Hw Hb Hl Hlen. unfold k. rewrite u_bytes_spec, Z2Nat.id by lia.
    destruct (write_space_run s r a c b pre new (be_bytes (Z.to_nat n) v)) as (b' & E & Hh & Hs);
      [done.. | rewrite len_be_bytes; lia |].
    run E. unfold uint_bytes.
    assert (0 < 256 ^ n) by (apply Z.pow_pos_nonneg; lia).
    assert (Hq : (v / 256 ^ n =? 0) = (v <? 256 ^ n)).
    { apply Bool.eq_iff_eq_true. rewrite Z.eqb_eq, Z.ltb_lt, Z.div_small_iff by lia. lia. }
    rewrite Hq. destruct (v <? 256 ^ n); cbn [negb]; [by exists b', true|].
    rewrite (bind_run _ _ _ _ _ (on_error_run r a c b' (set_buf s r b' (allocs s)) Ha Hw (set_buf_lookup _ _ _ _))).
    exists (with_error b'), false. split; [|done]. cbn. rewrite insert_insert_eq, insert_id; [done|].
    rewrite Ha. destruct c. cbn in *. by subst. }
  intros s r l pre fs b c Ho. unfold cbb_add_u.
  rewrite (add_space_andthen a n k). replace (uint_bytes n v) with (opt_app (Some []) (uint_bytes n v))
    by (by destruct (uint_bytes n v)). by apply H'.
Qed.

(** ** Children *)
Lemma add_child_spec d s r a c pre b p : opened d s r a c [] pre [] b -> prefix_ok p ->
  exists (ok : bool) s' b', cbb_add_child a d (prefix_len p) (is_asn1 p) s = Some (ok, s') /\
    bases s' !! r = Some b' /\
    (forall x, (x < d)%nat -> x <> r -> bases s' !! x = bases s !! x) /\
    (forall x, (x < d)%nat -> x <> a -> heads s' !! x = heads s !! x) /\
    if ok then
      same_buf b b' /\ opened (S d) s' r a (mk_cbb (Some d) (is_child c)) [d] pre [mk_frame p []] b'
    else error b' = true /\ heads s' !! a = Some c /\ ~ fits b (len pre + prefix_len p).
Proof.
  intros (_ & Ha & Hc & Hw & _ & Hb & Hl & Hr & Hd) Hp. rewrite app_nil_r in Hl.
  apply Forall_cons_iff in Hd as [Hd _]. pose proof (prefix_len_nonneg p Hp) as Hpl.
  unfold cbb_add_child. run (get_cbb_run a c s Ha). rewrite Hc. cbn [head orb].
  replace (is_asn1 p && negb (prefix_len p =? 1)) with false by (by destruct p).
  run (get_base_run r a c s Ha Hw). run (get_buffer_run r b s Hb). cbv zeta.
  destruct (add_spec s r b pre (prefix_len p) Hb Hl) as [(b1 & k1 & new & E & Hnew & Hl1 & Hs1) | (k1 & E & Hf)];
    [unfold size_max; platform; lia | |]; run E.
  2:{ exists false, (set_buf s r (with_error b) k1), (with_error b).
      split_and!; [done | apply lookup_insert_eq | intros; by apply lookup_insert_ne | done | done | done | done]. }
  destruct (write_spec (set_buf s r b1 k1) r b1 pre new [] (zeros (prefix_len p))) as (b2 & E2 & Hl2 & Hs2).
  { apply set_buf_lookup. } { by rewrite app_nil_r. } { rewrite len_zeros; lia. }
  rewrite app_nil_r in Hl2. fold (zeros (prefix_len p)). run E2. rewrite set_buf_set_buf.
  destruct Hl as (_ & Hblen & _). rewrite Hblen. fold (pending r (len pre) p None).
  match goal with |- context [(CBB_zero d ≫= ?f) ?s0] => set (s2 := s0) end.
  assert (E3 : exists s3, (CBB_zero d;; put_cbb d (pending r (len pre) p None);; set_child a (Some d);; mret true) s2
    = Some (true, s3) /\
    heads s3 = <[a := mk_cbb (Some d) (is_child c)]> (<[d := pending r (len pre) p None]> (<[d := mk_cbb None None]> (heads s))) /\
    bases s3 = <[d := mk_buffer [] 0 0 false false]> (<[r := b2]> (bases s))).
  { unfold mbind at 1, M_bind at 1, CBB_zero. unfold mbind at 1, M_bind at 1, put_cbb.
    erewrite bind_run by (apply set_child_run; cbn; rewrite !lookup_insert_ne by lia; exact Ha).
    eexists. split; [done|]. done. }
  destruct E3 as (s3 & E3 & Hheads & Hbases). exists true, s3, b2. split; [exact E3|].
  rewrite Hbases, Hheads. rewrite lookup_insert_ne, lookup_insert_eq by lia. split; [done|].
  split; [intros x ? ?; by rewrite !lookup_insert_ne by lia|].
  split; [intros x ? ?; by rewrite !lookup_insert_ne by lia|].
  split; [apply (same_buf_trans b b1 b2 Hs1 Hs2)|]. unfold opened. rewrite Hheads, Hbases.
  split_and!.
  - apply NoDup_cons. split; [rewrite list_elem_of_singleton; lia | apply NoDup_singleton].
  - apply lookup_insert_eq.
  - done.
  - done.
  - cbn. split_and!; [done | by rewrite lookup_insert_ne, lookup_insert_eq by lia | done].
  - by rewrite lookup_insert_ne, lookup_insert_eq by lia.
  - cbn [flat f_prefix f_data]. by rewrite !app_nil_r.
  - lia.
  - repeat constructor; lia.
Qed.

(** From the parent to its child, and back once the child has been written. *)
Lemma enter_child d s r a c ch pre p b : opened d s r a c [ch] pre [mk_frame p []] b ->
  opened d s r ch (pending r (len pre) p None) [] (pre ++ zeros (prefix_len p)) [] b.
Proof.
  intros (Hnd & Ha & Hc & Hw & (Hp & Hch & _) & Hb & Hl & Hr & Hd). cbn in Hl.
  apply Forall_cons_iff in Hd as [_ Hd]. unfold opened.
  split_and!; [apply NoDup_singleton | done | done | by right; eexists | done | done | | done | done].
  by rewrite !app_nil_r in *.
Qed.

Lemma leave_child d s s' r a c ch pre p b w : opened d s r a c [ch] pre [mk_frame p []] b ->
  appended d s r ch (pending r (len pre) p None) [] (pre ++ zeros (prefix_len p)) [] b (Some w) true s' ->
  exists b', same_buf b b' /\ opened d s' r a c [ch] pre [mk_frame p w] b'.
Proof.
  intros (Hnd & Ha & Hc & Hw & (Hp & Hch & _) & Hb & Hl & Hr & Hd) (b' & Hb' & _ & Hx & Hch' & _ & out & w' & [= <-] & [= <-] & Hh & Hs).
  exists b'. split; [apply Hs|]. pose proof Hnd as [Hna _]%NoDup_cons. pose proof Hd as [Hda _]%Forall_cons_iff.
  unfold opened. split_and!; try done.
  - by rewrite Hx.
  - cbn. by rewrite app_nil_r, <- app_assoc in *.
Qed.

(** Adding a child, writing [w] to it and flushing appends the closed frame. *)
Lemma child_appends d a p body w : prefix_ok p -> appends_flushed (S d) d body w ->
  appends_flushed d a
    (andthen (cbb_add_child a d (prefix_len p) (is_asn1 p)) (andthen body (CBB_flush a)))
    (match w with Some w => close p w | None => None end).
Proof.
  intros Hp Hbody s r pre b c Ho. unfold andthen at 1.
  destruct (add_child_spec d s r a c pre b p Ho Hp) as (ok1 & s1 & b1 & E1 & Hb1 & Hx1 & Hy1 & H1).
  run E1. destruct Ho as (_ & Ha & _ & Hw & _ & _ & _ & Hr & Hd). apply Forall_cons_iff in Hd as [Hd _].
  destruct ok1; cbn [negb].
  2:{ destruct H1 as (He & Ha1 & Hf). exists false, s1. split; [done|]. exists b1.
      split_and!; [done | done | intros x ? Hn; apply Hy1; [done|]; by apply not_elem_of_cons in Hn as [? _] | done | | constructor |].
      - exists (child c). rewrite Ha1. by destruct c.
      - intros out w' [= <-] Hw' Hfit. destruct w as [w|]; [|done]. apply Hf. eapply fits_le, Hfit.
        apply close_len in Hw'; [|done]. pose proof (len_nonneg w). change (len []) with 0. lia. }
  destruct H1 as [Hs1 Ho1]. destruct (Hbody s1 r _ b1 _ (enter_child _ _ _ _ _ _ _ _ _ Ho1)) as (ok2 & s2 & E2 & Hap2).
  unfold andthen. run E2. assert (Hy2 : heads s2 !! a = Some (mk_cbb (Some d) (is_child c))).
  { destruct Hap2 as (b2 & _ & _ & Hy & _). rewrite Hy; [apply Ho1 | lia | rewrite list_elem_of_singleton; lia]. }
  destruct ok2; cbn [negb].
  2:{ destruct Hap2 as (b2 & Hb2 & Hx2 & Hy2' & He & _ & _ & Hf). exists false, s2. split; [done|]. exists b2.
      split_and!; [done | intros x ? ?; rewrite Hx2, Hx1; [done | lia..] | | done | | |].
      - intros x ? Hn. apply not_elem_of_cons in Hn as [? _].
        rewrite Hy2', Hy1; [done | lia | done | lia | rewrite list_elem_of_singleton; lia].
      - by eexists.
      - constructor.
      - intros out w' [= <-] Hw' Hfit. destruct w as [w|]; [|done].
        specialize (Hf [] w eq_refl eq_refl). rewrite (fits_same b b1) in Hf by done. apply Hf. eapply fits_le, Hfit.
        apply close_len in Hw'; [|done]. pose proof (prefix_len_nonneg p Hp).
        rewrite len_app, len_zeros by lia. change (len []) with 0. lia. }
  assert (exists w', w = Some w') as [w' ->] by (destruct Hap2 as (? & _ & _ & _ & _ & _ & _ & w' & _ & -> & _); by exists w').
  destruct (leave_child _ _ _ _ _ _ _ _ _ _ _ Ho1 Hap2) as (b2 & Hs2 & Ho2).
  destruct Hap2 as (_ & _ & Hx2 & Hy2' & _).
  destruct (flush_appends (S d) a s2 r _ _ _ _ _ Ho2) as (ok3 & s3 & E3 & b3 & Hb3 & Hx3 & Hy3 & H3).
  exists ok3, s3. split; [done|]. exists b3. split; [done|].
  split; [intros x ? ?; rewrite Hx3, Hx2, Hx1; [done | lia..]|].
  split; [intros x ? Hn; apply not_elem_of_cons in Hn as [? _]; rewrite Hy3, Hy2', Hy1;
          [done | lia | done | lia | rewrite list_elem_of_singleton; lia | lia | rewrite !not_elem_of_cons; split_and!; [done | lia | by apply not_elem_of_nil]]|].
  cbn [collapse f_prefix f_data] in H3. rewrite app_nil_r in H3. destruct ok3.
  - destruct H3 as (Ha3 & _ & out & w'' & Hout & [= <-] & Hh & Hs3). split; [done|]. split; [constructor|].
    exists [], out. rewrite app_nil_r in Hh. split; [done|]. split; [done|]. split; [done|].
    apply (same_buf_trans b b1 b3 Hs1 (same_buf_trans b1 b2 b3 Hs2 Hs3)).
  - destruct H3 as (He & Hq & _ & Hf). split; [done|]. split; [done|]. split; [constructor|].
    intros out w0 [= <-] Hw0. specialize (Hf w0 [] Hw0 eq_refl).
    rewrite (fits_same b1 b2), (fits_same b b1) in Hf by done. change (len []) with 0 in *.
    by rewrite !Z.add_0_r in *.
Qed.
End Spec.
