(* ===== verification/CbbAsn1.v ===== *)
(** Writing ASN.1 with a CBB: the rest of crypto/bytestring/cbb.cc,
    [CBB_finish_i2d] of asn1_compat.cc and [CBS_asn1_oid_to_text] of cbs.cc.

    A function with a local CBB takes the address [loc] of that variable, which
    no longer designates anything when the function returns. *)
From S2P Require Import Prelude.
From S2P Require Import Internal.
From S2P Require Import Mem.
From S2P Require Import Cbs.
From S2P Require Import Asn1.
From S2P Require Import Cbb.
From stdpp Require Import gmap sorting.

Open Scope Z_scope.

(** The lifetime of a local variable. *)
Definition end_local (loc : addr) : M unit := fun s =>
  Some (tt, mk_store (delete loc (heads s)) (delete loc (bases s)) (allocs s)).
Definition with_local {X} (loc : addr) (m : M X) : M X := x ← m; end_local loc;; mret x.

(** A block whose failure is [cbb_on_error(cbb); return 0]. *)
Definition or_error (a : addr) (m : M bool) : M bool :=
  ok ← m; if negb ok then cbb_on_error a;; mret false else mret true.

Section CbbAsn1.
Context `{P : Platform} `{A : Allocator}.

(** * Identifiers *)

(** The loop that counts the base-128 digits of [copy]; ten cover 64 bits. *)
Fixpoint base128_len (fuel : nat) (copy : Z) : nat :=
  match fuel with
  | O => 0
  | S fuel => if 0 <? copy then S (base128_len fuel (Z.shiftr copy 7)) else 0
  end.

(** The loop over the digits [i - 1], ..., 0. *)
Fixpoint add_base128_loop (a : addr) (v : Z) (i : nat) : M bool :=
  match i with
  | O => mret true
  | S i =>
    let byte := u8 (Z.land (Z.shiftr v (7 * Z.of_nat i)) 0x7f) in
    let byte := match i with O => byte | _ => Z.lor byte 0x80 end in
    andthen (CBB_add_u8 a byte) (add_base128_loop a v i)
  end.
Definition add_base128_integer (a : addr) (v : Z) : M bool :=
  let len_len := base128_len 10 v in
  let len_len := match len_len with O => 1%nat | _ => len_len end in
  add_base128_loop a v len_len.

Definition CBB_add_asn1 (a out_contents : addr) (tag : Z) : M bool :=
  andthen (CBB_flush a)
  (let tag_bits := u8 (Z.land (Z.shiftr tag CBS_ASN1_TAG_SHIFT) 0xe0) in
   let tag_number := Z.land tag CBS_ASN1_TAG_NUMBER_MASK in
   andthen
     (if 0x1f <=? tag_number then
        andthen (CBB_add_u8 a (Z.lor tag_bits 0x1f)) (add_base128_integer a tag_number)
      else CBB_add_u8 a (u8 (Z.lor tag_bits tag_number)))
     (cbb_add_child a out_contents 1 true)).

(** * INTEGER, OCTET STRING, BOOLEAN *)

(** The loop over the bytes of the value, most significant first, to the child
    [ch]; [None] is [goto err], otherwise the final [started]. *)
Fixpoint asn1_uint64_loop (ch : addr) (octets : list Z) (started : bool) : M (option bool) :=
  match octets with
  | [] => mret (Some started)
  | byte :: octets =>
    if negb started && (byte =? 0) then asn1_uint64_loop ch octets started
    else
      ok ← (if negb started && negb (Z.land byte 0x80 =? 0) then CBB_add_u8 ch 0 else mret true);
      if negb ok then mret None
      else
        ok ← CBB_add_u8 ch byte;
        if negb ok then mret None else asn1_uint64_loop ch octets true
  end.
Definition asn1_uint64_body (ch : addr) (value : Z) : M bool :=
  let octets := map (fun i => Z.land (Z.shiftr value (8 * (7 - i))) 0xff) [0; 1; 2; 3; 4; 5; 6; 7] in
  o ← asn1_uint64_loop ch octets false;
  match o with
  | None => mret false
  | Some started => if (started : bool) then mret true else CBB_add_u8 ch 0
  end.

Definition CBB_add_asn1_uint64_with_tag (loc a : addr) (value tag : Z) : M bool :=
  with_local loc
    (andthen (or_error a (andthen (CBB_add_asn1 a loc tag) (asn1_uint64_body loc value)))
             (CBB_flush a)).
Definition CBB_add_asn1_uint64 (loc a : addr) (value : Z) : M bool :=
  CBB_add_asn1_uint64_with_tag loc a value CBS_ASN1_INTEGER.

(** Skipping the leading sign-extension bytes; [bytes] is little-endian. *)
Fixpoint int64_start (bytes : list Z) (start : nat) : nat :=
  match start with
  | O => O
  | S start' =>
    if (default 0 (bytes !! start) =? 0xff) && negb (Z.land (default 0 (bytes !! start')) 0x80 =? 0)
    then int64_start bytes start' else start
  end.
Fixpoint asn1_int64_loop (ch : addr) (bytes : list Z) (n : nat) : M bool :=
  match n with
  | O => mret true
  | S i => andthen (CBB_add_u8 ch (default 0 (bytes !! i))) (asn1_int64_loop ch bytes i)
  end.
Definition CBB_add_asn1_int64_with_tag (loc a : addr) (value tag : Z) : M bool :=
  if 0 <=? value then CBB_add_asn1_uint64_with_tag loc a (u64 value) tag
  else
    let bytes := le_bytes 8 (u64 value) in
    let start := int64_start bytes 7 in
    with_local loc
      (andthen (or_error a (andthen (CBB_add_asn1 a loc tag) (asn1_int64_loop loc bytes (S start))))
               (CBB_flush a)).
Definition CBB_add_asn1_int64 (loc a : addr) (value : Z) : M bool :=
  CBB_add_asn1_int64_with_tag loc a value CBS_ASN1_INTEGER.

Definition CBB_add_asn1_octet_string (loc a : addr) (data : list Z) : M bool :=
  with_local loc
    (or_error a (andthen (CBB_add_asn1 a loc CBS_ASN1_OCTETSTRING)
                   (andthen (CBB_add_bytes loc data) (CBB_flush a)))).

Definition CBB_add_asn1_bool (loc a : addr) (value : Z) : M bool :=
  with_local loc
    (or_error a (andthen (CBB_add_asn1 a loc CBS_ASN1_BOOLEAN)
                   (andthen (CBB_add_u8 loc (if negb (value =? 0) then 0xff else 0)) (CBB_flush a)))).

(** * OBJECT IDENTIFIER *)
Definition parse_dotted_decimal : rd Z := fun cbs =>
  match CBS_get_u64_decimal cbs with
  | (None, cbs) => (None, cbs)
  | (Some out, cbs) =>
    match CBS_get_u8 cbs with
    | (None, cbs) => (Some out, cbs)
    | (Some dot, cbs) => if (dot =? 46) && (0 <? len cbs) then (Some out, cbs) else (None, cbs)
    end
  end.

(** Each component consumes a byte, so the length of the text is enough fuel. *)
Fixpoint oid_components_loop (fuel : nat) (a : addr) (cbs : CBS) : M bool :=
  match fuel with
  | O => undefined
  | S fuel =>
    if 0 <? len cbs then
      match parse_dotted_decimal cbs with
      | (None, _) => mret false
      | (Some v, cbs) => andthen (add_base128_integer a v) (oid_components_loop fuel a cbs)
      end
    else mret true
  end.

Definition CBB_add_asn1_oid_from_text (a : addr) (text : list Z) : M bool :=
  andthen (CBB_flush a)
  (match parse_dotted_decimal text with
   | (None, _) => mret false
   | (Some v1, cbs) =>
     match parse_dotted_decimal cbs with
     | (None, _) => mret false
     | (Some v2, cbs) =>
       if (2 <? v1) || ((v1 <? 2) && (39 <? v2)) || (UINT64_MAX - 80 <? v2) then mret false
       else andthen (add_base128_integer a (u64 (40 * v1 + v2)))
                    (oid_components_loop (S (length cbs)) a cbs)
     end
   end).

(** snprintf("%" PRIu64). *)
Definition add_decimal (a : addr) (v : Z) : M bool := CBB_add_bytes a (dec_string 20 v).

Fixpoint oid_text_loop (fuel : nat) (a : addr) (copy : CBS) : M bool :=
  match fuel with
  | O => undefined
  | S fuel =>
    if len copy =? 0 then mret true
    else match parse_base128_integer copy with
         | (None, _) => mret false
         | (Some v, copy) => andthen (CBB_add_u8 a 46) (andthen (add_decimal a v) (oid_text_loop fuel a copy))
         end
  end.

(** The string without its terminating zero is what the callers see. *)
Definition CBS_asn1_oid_to_text (loc : addr) (cbs : CBS) : M (option (list Z)) :=
  with_local loc
  (ok ← andthen (CBB_init loc 32)
     (match parse_base128_integer cbs with
      | (None, _) => mret false
      | (Some v, copy) =>
        andthen
          (if 80 <=? v then andthen (CBB_add_bytes loc [50; 46]) (add_decimal loc (v - 80))
           else andthen (add_decimal loc (v / 40)) (andthen (CBB_add_u8 loc 46) (add_decimal loc (v mod 40))))
          (andthen (oid_text_loop (S (length copy)) loc copy) (CBB_add_u8 loc 0))
      end);
   if negb ok then CBB_cleanup loc;; mret None
   else
     o ← CBB_finish loc true true;
     match o with
     | None => CBB_cleanup loc;; mret None
     | Some (txt, _) => mret (Some txt)
     end).

(** * SET OF *)
Definition compare_set_of_element (a b : CBS) : Z :=
  let min_len := if len a <? len b then len a else len b in
  let ret := OPENSSL_memcmp (ztake min_len a) (ztake min_len b) in
  if negb (ret =? 0) then ret
  else if len a =? len b then 0
  else if len a <? len b then -1 else 1.

Definition set_of_le (a b : CBS) : Prop := compare_set_of_element a b <= 0.
#[export] Instance set_of_le_dec a b : Decision (set_of_le a b) := Z_le_dec _ _.

(** The elements of a CBS, read until it is empty. *)
Fixpoint set_of_elements (fuel : nat) (cbs : CBS) : option (list CBS) :=
  match fuel with
  | O => None
  | S fuel =>
    if len cbs =? 0 then Some []
    else match CBS_get_any_asn1_element cbs with
         | (None, _) => None
         | (Some (out, _, _), cbs) =>
           match set_of_elements fuel cbs with Some l => Some (out :: l) | None => None end
         end
  end.

(** [ok_dup] and [ok_calloc] are the answers of the allocator. *)
Definition CBB_flush_asn1_set_of (a : addr) (ok_dup ok_calloc : bool) : M bool :=
  andthen (CBB_flush a)
  (data ← CBB_data a;
   match set_of_elements (S (length data)) data with
   | None => mret false
   | Some children =>
     if len children <? 2 then mret true
     else if negb ok_dup || negb ok_calloc then mret false
     else
       p ← CBB_data_offset a;
       write p.1 p.2 (concat (merge_sort set_of_le children));; mret true
   end).

(** * [CBB_finish_i2d]: the bytes written, and the return value. *)
Definition CBB_finish_i2d (a : addr) : M (list Z * Z) :=
  o ← CBB_finish a true true;
  match o with
  | None => CBB_cleanup a;; mret ([], -1)
  | Some (der, der_len) =>
    if 2 ^ 31 - 1 <? der_len then mret ([], -1) else mret (der, der_len)
  end.

End CbbAsn1.
