(* ===== verification/CbbProofs.v ===== *)
(** The ASN.1 writers of CbbAsn1 against the contract of CbbSpec: each appends
    the DER encoding of its argument. *)
From S2P Require Import Prelude.
From S2P Require Import Internal.
From S2P Require Import Mem.
From S2P Require Import Cbs.
From S2P Require Import Asn1.
From S2P Require Import Cbb.
From S2P Require Import CbbSpec.
From S2P Require Import CbbAsn1.
From stdpp Require Import gmap sorting.

Open Scope Z_scope.

Lemma andthen_assoc m1 m2 m3 s : andthen (andthen m1 m2) m3 s = andthen m1 (andthen m2 m3) s.
Proof. unfold andthen, mbind, M_bind. by destruct (m1 s) as [[[] ?]|]. Qed.

Lemma andthen_ext m1 m2 m2' s : (forall s, m2 s = m2' s) -> andthen m1 m2 s = andthen m1 m2' s.
Proof. intros E. unfold andthen, mbind, M_bind. by destruct (m1 s) as [[[] ?]|]. Qed.

Section Proofs.
Context `{P : Platform} `{A : Allocator}.

Lemma appends_ext d a m m' w : (forall s, m s = m' s) -> appends d a m w -> appends d a m' w.
Proof. intros E H s r l pre fs b c Ho. rewrite <- E. by apply H. Qed.
Lemma appends_flushed_ext d a m m' w :
  (forall s, m s = m' s) -> appends_flushed d a m w -> appends_flushed d a m' w.
Proof. intros E H s r pre b c Ho. rewrite <- E. by apply H. Qed.

(** A local CBB does not survive the call. *)
Lemma with_local_appends d a m w : appends d a m w -> appends d a (with_local d m) w.
Proof.
  intros H s r l pre fs b c Ho. destruct (H s r l pre fs b c Ho) as (ok & s1 & E & b1 & Hb & Hx & Hy & Hres).
  destruct Ho as (_ & _ & _ & _ & _ & _ & _ & Hr & Hd).
  exists ok. eexists. split; [unfold with_local; run E; done|]. exists b1. cbn.
  rewrite lookup_delete_ne by lia. split; [done|].
  split; [intros x ? ?; rewrite lookup_delete_ne by lia; by apply Hx|].
  split; [intros x ? ?; rewrite lookup_delete_ne by lia; by apply Hy|].
  apply Forall_cons_iff in Hd as [Hda Hdl]. rewrite lookup_delete_ne by lia.
  assert (Hst : forall x, (x < d)%nat -> stale (heads s1) x -> stale (delete d (heads s1)) x).
  { intros x ? (c' & st & ? & ? & ?). exists c', st. by rewrite lookup_delete_ne by lia. }
  rewrite Forall_forall in Hdl. destruct ok.
  - destruct Hres as (Ha & Hl & Hout). split_and!; [done | | done].
    rewrite Forall_forall in *. auto.
  - destruct Hres as (He & Hq & Hl & Hout). split_and!; [done | done | | done].
    rewrite Forall_forall in *. intros x Hin. destruct (Hl x Hin) as (c' & Hc' & Hw).
    exists c'. rewrite lookup_delete_ne by (specialize (Hdl x Hin); lia). split; [done|].
    destruct Hw as [|Hw]; [by left | right; auto].
Qed.

(** [m'] is [m] with some of its failures turned into [cbb_on_error(a); return 0]. *)
Definition error_of (a : addr) (m m' : M bool) : Prop := forall s, m' s = m s \/
  exists s1, m s = Some (false, s1) /\ m' s = (cbb_on_error a;; mret false) s1.

Lemma error_of_appends d a m m' w : appends d a m w -> error_of a m m' -> appends d a m' w.
Proof.
  intros H Herr s r l pre fs b c Ho. destruct (H s r l pre fs b c Ho) as (ok & s1 & E & Hap).
  destruct (Herr s) as [-> | (s1' & E' & ->)]; [by exists ok, s1|].
  rewrite E in E'. injection E' as -> ->. destruct Hap as (b1 & Hb & Hx & Hy & He & [q Ha] & Hfam & Hf).
  destruct Ho as (Hnd & _ & _ & Hw & _ & _ & _ & Hr & Hd). apply NoDup_cons in Hnd as [Hna _].
  assert (Hw1 : writes_to r a (mk_cbb q (is_child c))) by done.
  run (on_error_run r a _ b1 s1' Ha Hw1 Hb).
  eexists false, _. split; [done|]. exists (with_error b1). cbn.
  split; [apply lookup_insert_eq|].
  split; [intros x ? ?; rewrite lookup_insert_ne by done; by apply Hx|].
  split; [intros x ? Hn; rewrite lookup_insert_ne by (intros ->; apply Hn, elem_of_cons; by left); by apply Hy|].
  split; [done|]. split; [eexists; apply lookup_insert_eq|]. split; [|done].
  rewrite Forall_forall in *. intros x Hin. assert (a <> x) by (by intros ->).
  destruct (Hfam x Hin) as (c' & Hc' & Hw'). exists c'. rewrite lookup_insert_ne by done. split; [done|].
  destruct Hw' as [|(c'' & st & ? & ? & ?)]; [by left | right]. exists c'', st. by rewrite lookup_insert_ne.
Qed.

Lemma or_error_of a m : error_of a m (or_error a m).
Proof.
  intros s. unfold or_error, mbind, M_bind. destruct (m s) as [[[] s1]|]; [by left | right; eauto | by left].
Qed.
Lemma or_error_andthen_of a m1 m2 : error_of a (andthen m1 m2) (andthen (or_error a m1) m2).
Proof.
  intros s. unfold andthen, or_error, mbind, M_bind.
  destruct (m1 s) as [[[] s1]|] eqn:E; cbn [negb]; [by left | | by left].
  right. exists s1. split; [done|]. by destruct (cbb_on_error a s1) as [[]|].
Qed.

(** * Base-128 integers *)
Lemma appends_nil d a : appends_flushed d a (mret true) (Some []).
Proof.
  intros s r pre b c (_ & Ha & Hc & Hw & _ & Hb & Hl & _ & _). exists true, s. split; [done|]. exists b.
  split_and!; try done.
  - rewrite Ha. destruct c. cbn in *. by subst.
  - exists [], []. by rewrite !app_nil_r in *.
Qed.

Lemma add_uint_appends d a n w u : 0 <= n <= 8 -> n = Z.of_nat w -> 0 <= u < 256 ^ n ->
  appends d a (cbb_add_u a u n) (Some (be_bytes w u)).
Proof.
  intros Hn -> Hu. pose proof (add_u_appends d a u (Z.of_nat w) ltac:(lia) Hn) as H. unfold uint_bytes in H.
  rewrite Nat2Z.id in H. by destruct (Z.ltb_spec u (256 ^ Z.of_nat w)); [|lia].
Qed.
Lemma add_u8_appends d a v : is_byte v -> appends d a (CBB_add_u8 a v) (Some [v]).
Proof.
  intros Hv. unfold is_byte in Hv. pose proof (add_u_appends d a v 1 ltac:(lia) ltac:(lia)) as H.
  unfold uint_bytes in H. change (256 ^ 1) with 256 in H. destruct (Z.ltb_spec v 256); [|lia].
  change (be_bytes (Z.to_nat 1) v) with [v mod 256] in H. by rewrite Z.mod_small in H by lia.
Qed.

(** The octets the loop writes. *)
Fixpoint base128_digits (v : Z) (i : nat) : list Z :=
  match i with
  | O => []
  | S i =>
    (let byte := Z.shiftr v (7 * Z.of_nat i) mod 128 in match i with O => byte | _ => 128 + byte end)
    :: base128_digits v i
  end.

Lemma lor_128 x : 0 <= x < 128 -> Z.lor x 0x80 = 128 + x.
Proof.
  intros. rewrite Z.lor_comm. change (Z.lor 0x80 x) with (Z.lor (Z.shiftl 1 7) x).
  rewrite lor_shiftl_add by lia. lia.
Qed.

Lemma add_base128_loop_appends d a v i : 0 <= v ->
  appends_flushed d a (add_base128_loop a v i) (Some (base128_digits v i)).
Proof.
  intros Hv. induction i as [|i IH]; cbn [add_base128_loop base128_digits]; [apply appends_nil|].
  cbv zeta. set (x := Z.shiftr v (7 * Z.of_nat i)).
  assert (Hx : u8 (Z.land x 0x7f) = x mod 128).
  { change 0x7f with (Z.ones 7). rewrite Z.land_ones by lia. apply wrap_small.
    pose proof (Z.mod_pos_bound x 128 ltac:(lia)). lia. }
  rewrite Hx. pose proof (Z.mod_pos_bound x 128 ltac:(lia)).
  assert (Hb : match i with O => x mod 128 | S _ => Z.lor (x mod 128) 0x80 end =
               match i with O => x mod 128 | S _ => 128 + x mod 128 end).
  { destruct i; [done|]. by apply lor_128. }
  rewrite Hb.
  apply appends_appends_flushed, (appends_seq d a _ _ (Some [_]) (Some (base128_digits v i))); [|done].
  apply add_u8_appends. unfold is_byte. destruct i; lia.
Qed.

Fixpoint hi_digits (w : Z) (n : nat) : list Z :=
  match n with O => [] | S n => (128 + Z.shiftr w (7 * Z.of_nat n) mod 128) :: hi_digits w n end.

Lemma shiftr_div128 v n : Z.shiftr v (7 * Z.of_nat (S n)) = Z.shiftr (v / 128) (7 * Z.of_nat n).
Proof.
  change 128 with (2 ^ 7). rewrite <- Z.shiftr_div_pow2, Z.shiftr_shiftr by lia. f_equal. lia.
Qed.

Lemma hi_digits_S w n : hi_digits w (S n) = hi_digits (w / 128) n ++ [128 + w mod 128].
Proof.
  induction n as [|n IH]; [done|].
  change (hi_digits w (S (S n))) with ((128 + Z.shiftr w (7 * Z.of_nat (S n)) mod 128) :: hi_digits w (S n)).
  by rewrite IH, shiftr_div128.
Qed.

Lemma base128_digits_S v n : base128_digits v (S n) = hi_digits (v / 128) n ++ [v mod 128].
Proof.
  induction n as [|n IH]; [done|].
  change (base128_digits v (S (S n))) with
    ((128 + Z.shiftr v (7 * Z.of_nat (S n)) mod 128) :: base128_digits v (S n)).
  by rewrite IH, shiftr_div128.
Qed.

Lemma b128_hi_digits fuel w : 0 <= w -> b128_hi fuel w = hi_digits w (base128_len fuel w).
Proof.
  revert w. induction fuel as [|fuel IH]; intros w Hw; [done|]. cbn [b128_hi base128_len].
  destruct (Z.eqb_spec w 0) as [->|]; [done|]. destruct (Z.ltb_spec 0 w); [|lia].
  rewrite hi_digits_S, Z.shiftr_div_pow2 by lia. f_equal. apply IH, Z.div_pos; lia.
Qed.

Lemma add_base128_appends d a v : 0 <= v -> appends_flushed d a (add_base128_integer a v) (Some (base128 v)).
Proof.
  intros Hv. unfold add_base128_integer. cbv zeta.
  set (n := match base128_len 10 v with O => 1%nat | S _ => _ end).
  replace (base128 v) with (base128_digits v n); [by apply add_base128_loop_appends|].
  subst n. cbn [base128_len]. unfold base128. destruct (Z.ltb_spec 0 v).
  - rewrite base128_digits_S, b128_hi_digits, Z.shiftr_div_pow2 by (apply Z.div_pos || lia; lia). done.
  - by replace v with 0 by lia.
Qed.

(** * Identifiers and elements *)
Lemma tag_octet t : 0 <= t < 2 ^ 32 ->
  u8 (Z.land (Z.shiftr t CBS_ASN1_TAG_SHIFT) 0xe0) = 32 * (t / 2 ^ 29) /\
  Z.land t CBS_ASN1_TAG_NUMBER_MASK = t mod 2 ^ 29.
Proof.
  intros Ht. split; [|change CBS_ASN1_TAG_NUMBER_MASK with (Z.ones 29); by rewrite Z.land_ones by lia].
  unfold CBS_ASN1_TAG_SHIFT. rewrite Z.shiftr_div_pow2 by lia.
  assert (Hb : is_byte (t / 2 ^ 24)) by (unfold is_byte; Z.div_mod_to_equations; lia).
  replace (t / 2 ^ 29) with (t / 2 ^ 24 / 32) by (rewrite Z.div_div by lia; done).
  apply Z.eqb_eq. apply (byte_forallb (fun x => u8 (Z.land x 0xe0) =? 32 * (x / 32))); [by vm_compute | done].
Qed.

Lemma lor_tag h n : 0 <= h < 8 -> 0 <= n < 32 -> Z.lor (32 * h) n = 32 * h + n.
Proof.
  intros. rewrite Z.mul_comm. change (h * 32) with (h * 2 ^ 5). rewrite <- Z.shiftl_mul_pow2, lor_shiftl_add by lia.
  by rewrite Z.shiftl_mul_pow2 by lia.
Qed.

(** The identifier octets [CBB_add_asn1] writes. *)
Definition add_tag (a : addr) (t : Z) : M bool :=
  if 0x1f <=? t mod 2 ^ 29 then
    andthen (CBB_add_u8 a (Z.lor (32 * (t / 2 ^ 29)) 0x1f)) (add_base128_integer a (t mod 2 ^ 29))
  else CBB_add_u8 a (u8 (Z.lor (32 * (t / 2 ^ 29)) (t mod 2 ^ 29))).

Lemma add_tag_appends d a t : 0 <= t < 2 ^ 32 -> appends_flushed d a (add_tag a t) (Some (der_tag t)).
Proof.
  intros Ht. assert (0 <= t / 2 ^ 29 < 8) by (Z.div_mod_to_equations; lia).
  pose proof (Z.mod_pos_bound t (2 ^ 29) ltac:(lia)). unfold der_tag, add_tag.
  destruct (Z.leb_spec 0x1f (t mod 2 ^ 29)), (Z.ltb_spec (t mod 2 ^ 29) 31); try lia.
  - rewrite lor_tag by lia. apply appends_appends_flushed, (appends_seq d a _ _ (Some [_]) (Some _)).
    + apply add_u8_appends. unfold is_byte. lia.
    + apply add_base128_appends. lia.
  - rewrite lor_tag, wrap_small by lia. apply appends_appends_flushed, add_u8_appends. unfold is_byte. lia.
Qed.

(** What an element with contents [w] appends. *)
Definition element_bytes (t : Z) (w : option (list Z)) : option (list Z) :=
  match w with Some w => if len w <=? 0xfffffffe then Some (der t w) else None | None => None end.

(** Adding an element whose contents [body] writes. *)
Lemma add_asn1_appends d a t body w : 0 <= t < 2 ^ 32 -> appends_flushed (S d) d body w ->
  appends d a (andthen (CBB_add_asn1 a d t) (andthen body (CBB_flush a))) (element_bytes t w).
Proof.
  intros Ht Hbody. destruct (tag_octet t Ht) as [E1 E2].
  pose proof (child_appends d a Asn1 body w I Hbody) as Hchild. cbn [prefix_len is_asn1] in Hchild.
  pose proof (appends_seq d a _ _ _ _ (flush_appends d a)
    (appends_flushed_seq d a _ _ _ _ (add_tag_appends d a t Ht) Hchild)) as H.
  replace (element_bytes t w) with (opt_app (Some []) (opt_app (Some (der_tag t))
    (match w with Some w => close Asn1 w | None => None end))).
  2:{ unfold element_bytes, close, der. destruct w as [w|]; [|done]. by destruct (len w <=? _). }
  eapply appends_ext, H. intros s. unfold CBB_add_asn1. cbv zeta. rewrite E1, E2. fold (add_tag a t).
  rewrite andthen_assoc. apply andthen_ext. intros s'. by rewrite andthen_assoc.
Qed.

(** * Unsigned integers *)

(** The octets the loop writes, and the final [started]. *)
Fixpoint uint_out (l : list Z) (started : bool) : list Z * bool :=
  match l with
  | [] => ([], started)
  | byte :: l =>
    if negb started && (byte =? 0) then uint_out l started
    else ((if negb started && (128 <=? byte) then [0] else []) ++ byte :: (uint_out l true).1, (uint_out l true).2)
  end.

Lemma is_byte_0 : is_byte 0.
Proof. unfold is_byte. lia. Qed.
Lemma bytes_cons_intro b l : is_byte b -> bytes l -> bytes (b :: l).
Proof. intros. by apply bytes_cons. Qed.

Lemma uint64_loop_appends d ch k w octets started : bytes octets ->
  (forall st, appends_flushed d ch (k st) (w st)) ->
  appends_flushed d ch
    (o ← asn1_uint64_loop ch octets started; match o with None => mret false | Some st => k st end)
    (opt_app (Some (uint_out octets started).1) (w (uint_out octets started).2)).
Proof.
  intros Hb Hk. revert started. induction octets as [|byte octets IH]; intros started; cbn [asn1_uint64_loop uint_out].
  { cbn [fst snd]. replace (opt_app (Some []) (w started)) with (w started) by (by destruct (w started)). apply Hk. }
  apply bytes_cons in Hb as [Hby Hb]. specialize (IH Hb).
  destruct (negb started && (byte =? 0)); [apply IH|]. cbn [fst snd].
  pose proof (appends_flushed_seq d ch _ _ _ _ (appends_appends_flushed d ch _ _ (add_u8_appends d ch byte Hby)) (IH true)) as H1.
  rewrite (land_128 byte Hby). rewrite <- Z.leb_antisym. destruct (negb started && (128 <=? byte)) eqn:Hp.
  - pose proof (appends_flushed_seq d ch _ _ _ _ (appends_appends_flushed d ch _ _ (add_u8_appends d ch 0 is_byte_0)) H1) as H2.
    replace (opt_app (Some ([0] ++ _)) _) with (opt_app (Some [0]) (opt_app (Some [byte])
      (opt_app (Some (uint_out octets true).1) (w (uint_out octets true).2)))) by (by destruct (w _)).
    eapply appends_flushed_ext, H2. intros s. unfold andthen, mbind, M_bind. cbn [negb].
    destruct (CBB_add_u8 ch 0 s) as [[[] s1]|]; [|done..]. cbn [negb].
    by destruct (CBB_add_u8 ch byte s1) as [[[] s2]|].
  - replace (opt_app (Some ([] ++ _)) _) with (opt_app (Some [byte])
      (opt_app (Some (uint_out octets true).1) (w (uint_out octets true).2))) by (by destruct (w _)).
    eapply appends_flushed_ext, H1. intros s. unfold andthen, mbind, M_bind. cbn [negb].
    unfold mret, M_ret. cbn [negb]. destruct (CBB_add_u8 ch byte s) as [[[] s2]|]; done.
Qed.

Lemma uint_out_started l : uint_out l true = (l, true).
Proof. induction l as [|b l IH]; [done|]. cbn. by rewrite IH. Qed.

(** The contents of the INTEGER are the minimal ones. *)
Definition uint_content (l : list Z) : list Z :=
  let '(out, started) := uint_out l false in if started then out else out ++ [0].

Lemma uint_content_spec l : bytes l ->
  bytes (uint_content l) /\ minimal_integer (uint_content l) /\ twos_val (uint_content l) = be_val l.
Proof.
  unfold uint_content. induction l as [|b l IH]; intros Hl.
  { cbn. split; [by apply bytes_1 | done]. }
  apply bytes_cons in Hl as [Hb Hl]. cbn [uint_out negb andb]. destruct (Z.eqb_spec b 0) as [->|Hn].
  { rewrite be_val_cons. cbn. by apply IH. }
  rewrite uint_out_started. cbn [fst snd]. unfold is_byte in Hb.
  destruct (Z.leb_spec 128 b); cbn [app].
  - split_and!; [by repeat apply bytes_cons_intro | cbn; lia |].
    unfold twos_val. cbn [List.hd]. rewrite (be_val_cons 0). cbn. lia.
  - split_and!; [by apply bytes_cons_intro | destruct l; [done | cbn; lia] |].
    unfold twos_val. cbn [List.hd]. destruct (Z.ltb_spec b 128); lia.
Qed.

Lemma uint64_octets v : 0 <= v < 2 ^ 64 ->
  map (fun i => Z.land (Z.shiftr v (8 * (7 - i))) 0xff) [0; 1; 2; 3; 4; 5; 6; 7] = be_bytes 8 v.
Proof.
  intros Hv.
  assert (Hd : forall k, 0 <= k -> Z.land (Z.shiftr v k) 0xff = v / 2 ^ k mod 256).
  { intros k Hk. change 0xff with (Z.ones 8). by rewrite Z.land_ones, Z.shiftr_div_pow2 by lia. }
  cbn [map]. rewrite !Hd by lia. unfold be_bytes. cbn [le_bytes]. rewrite !Z.div_div by lia.
  change (2 ^ (8 * (7 - 7))) with 1. by rewrite Z.div_1_r.
Qed.

Lemma uint64_body_appends d ch v : 0 <= v < 2 ^ 64 ->
  appends_flushed d ch (asn1_uint64_body ch v) (Some (int_octets 9 v)).
Proof.
  intros Hv. unfold asn1_uint64_body. rewrite uint64_octets by done. cbv zeta.
  assert (Hb : bytes (be_bytes 8 v)) by apply bytes_be_bytes.
  destruct (uint_content_spec _ Hb) as (Hcb & Hcm & Hcv).
  rewrite be_val_be_bytes, Z.mod_small in Hcv by (change (256 ^ Z.of_nat 8) with (2 ^ 64); lia).
  assert (Hc : uint_content (be_bytes 8 v) = int_octets 9 v).
  { rewrite <- Hcv at 2. symmetry. apply int_octets_val; [done | done |].
    apply minimal_integer_length; [done | done | lia | rewrite Hcv; lia]. }
  pose proof (uint64_loop_appends d ch (fun st => if (st : bool) then mret true else CBB_add_u8 ch 0)
    (fun st => Some (if (st : bool) then [] else [0])) (be_bytes 8 v) false Hb) as H.
  unfold uint_content in Hc. destruct (uint_out (be_bytes 8 v) false) as [out st].
  replace (Some (int_octets 9 v)) with (opt_app (Some out) (Some (if st then [] else [0])));
    [apply H | unfold opt_app; f_equal; rewrite <- Hc; destruct st; [by rewrite app_nil_r | done]].
  intros []; [apply appends_nil | apply appends_appends_flushed, add_u8_appends, is_byte_0].
Qed.

(** * Signed integers *)

(** Dropping redundant sign octets from a big-endian negative number. *)
Fixpoint trim (l : list Z) : list Z :=
  match l with
  | [] => l
  | a :: l' => match l' with
               | [] => l
               | b :: _ => if (a =? 0xff) && (128 <=? b) then trim l' else l
               end
  end.

Lemma trim_cons a b l :
  trim (a :: b :: l) = if (a =? 0xff) && (128 <=? b) then trim (b :: l) else a :: b :: l.
Proof. done. Qed.

Lemma trim_spec l : bytes l -> l <> [] -> 128 <= List.hd 0 l ->
  bytes (trim l) /\ minimal_integer (trim l) /\ twos_val (trim l) = twos_val l /\ 128 <= List.hd 0 (trim l).
Proof.
  induction l as [|a l IH]; intros Hl Hne Hh; [done|]. destruct l as [|b l].
  { cbn. split_and!; done. }
  rewrite trim_cons. apply bytes_cons in Hl as [Ha Hl]. pose proof Hl as [Hb _]%bytes_cons. unfold is_byte in *.
  destruct (Z.eqb_spec a 0xff) as [->|]; cbn [andb].
  - destruct (Z.leb_spec 128 b).
    + destruct IH as (H1 & H2 & H3 & H4); [done | done | done |]. split_and!; [done | done | | done].
      rewrite H3. unfold twos_val. cbn [List.hd].
      destruct (Z.ltb_spec b 128), (Z.ltb_spec 255 128); try lia.
      rewrite (be_val_cons 255), (len_cons 255), Z.pow_add_r by (pose proof (len_nonneg (b :: l)); lia). lia.
    + split_and!; [by apply bytes_cons_intro | cbn; lia | done | cbn; lia].
  - split_and!; [by apply bytes_cons_intro | cbn in *; lia | done | done].
Qed.

Lemma reverse_take_S (l : list Z) n : (n < length l)%nat ->
  reverse (take (S n) l) = default 0 (l !! n) :: reverse (take n l).
Proof.
  intros Hn. destruct (lookup_lt_is_Some_2 l n Hn) as [x Hx].
  rewrite (take_S_r l n x Hx), reverse_app, Hx. done.
Qed.

Lemma int64_start_trim l n : bytes l -> (n < length l)%nat ->
  reverse (take (S (int64_start l n)) l) = trim (reverse (take (S n) l)).
Proof.
  intros Hl. induction n as [|n IH]; intros Hn; cbn [int64_start].
  { by rewrite reverse_take_S by done. }
  rewrite !(reverse_take_S l (S n)) by done. rewrite (reverse_take_S l n) by lia. rewrite trim_cons.
  assert (Hb : is_byte (default 0 (l !! n))).
  { destruct (lookup_lt_is_Some_2 l n) as [x Hx]; [lia|]. rewrite Hx. by eapply Forall_lookup_1 in Hl. }
  rewrite (land_128 _ Hb), <- Z.leb_antisym. destruct (_ && _).
  - rewrite IH by lia. by rewrite reverse_take_S by lia.
  - rewrite reverse_take_S by done. by rewrite (reverse_take_S l n) by lia.
Qed.

Lemma int64_loop_appends d ch l n : bytes l -> (n <= length l)%nat ->
  appends_flushed d ch (asn1_int64_loop ch l n) (Some (reverse (take n l))).
Proof.
  intros Hl. induction n as [|n IH]; intros Hn; cbn [asn1_int64_loop]; [apply appends_nil|].
  rewrite reverse_take_S by lia.
  apply (appends_flushed_seq d ch _ _ (Some [_]) (Some _)); [|apply IH; lia].
  apply appends_appends_flushed, add_u8_appends.
  destruct (lookup_lt_is_Some_2 l n) as [x Hx]; [lia|]. rewrite Hx. by eapply Forall_lookup_1 in Hl.
Qed.

(** The octets written for a negative value are the minimal ones. *)
Lemma int64_octets v : - 2 ^ 63 <= v < 0 ->
  reverse (take (S (int64_start (le_bytes 8 (u64 v)) 7)) (le_bytes 8 (u64 v))) = int_octets 8 v.
Proof.
  intros Hv. rewrite int64_start_trim by (apply bytes_le_bytes || (rewrite length_le_bytes; lia)).
  rewrite take_ge by (rewrite length_le_bytes; lia). fold (be_bytes 8 (u64 v)).
  assert (Hu : u64 v = v + 2 ^ 64).
  { unfold wrap. symmetry. apply Z.mod_unique_pos with (-1); lia. }
  assert (Hl : bytes (be_bytes 8 (u64 v))) by apply bytes_be_bytes.
  assert (Hn : len (be_bytes 8 (u64 v)) = 8) by apply len_be_bytes.
  assert (Hbe : be_val (be_bytes 8 (u64 v)) = u64 v).
  { rewrite be_val_be_bytes. apply Z.mod_small. change (256 ^ Z.of_nat 8) with (2 ^ 64). lia. }
  assert (Hne : be_bytes 8 (u64 v) <> []) by (intros E; by rewrite E in Hn).
  pose proof (twos_val_range _ Hl Hne) as Hr. rewrite Hn in Hr.
  assert (Htv : twos_val (be_bytes 8 (u64 v)) = v /\ 128 <= List.hd 0 (be_bytes 8 (u64 v))).
  { unfold twos_val in *. rewrite Hbe, Hn in *. change (256 ^ 8) with (2 ^ 64) in *.
    destruct (Z.ltb_spec (List.hd 0 (be_bytes 8 (u64 v))) 128); lia. }
  destruct Htv as [Htv Hh].
  destruct (trim_spec _ Hl Hne Hh) as (H1 & H2 & H3 & _). rewrite Htv in H3. rewrite <- H3 at 2.
  symmetry. apply int_octets_val; [done | done |].
  apply minimal_integer_length; [done | done | lia | rewrite H3; lia].
Qed.

Lemma int_octets_fuel n v : - 2 ^ (8 * Z.of_nat n - 1) <= v < 2 ^ (8 * Z.of_nat n - 1) -> (0 < n)%nat ->
  int_octets (S n) v = int_octets n v.
Proof.
  intros Hv Hn. destruct (int_octets_spec n v Hv Hn) as (Hb & Hm & Hval & Hlen).
  rewrite <- Hval at 1. apply int_octets_val; [done | done | lia].
Qed.

(** * The writers of elements *)
Lemma add_asn1_uint64_appends d a v t : 0 <= t < 2 ^ 32 -> 0 <= v < 2 ^ 64 ->
  appends d a (CBB_add_asn1_uint64_with_tag d a v t) (Some (der t (int_octets 9 v))).
Proof.
  intros Ht Hv. apply with_local_appends.
  eapply error_of_appends; [|apply or_error_andthen_of].
  eapply appends_ext; [intros s; symmetry; apply andthen_assoc|].
  pose proof (add_asn1_appends d a t _ _ Ht (uint64_body_appends (S d) d v Hv)) as H.
  destruct (int_octets_spec 9 v) as (_ & _ & _ & Hlen); [lia | lia |].
  unfold element_bytes in H. destruct (Z.leb_spec (len (int_octets 9 v)) 0xfffffffe); [done | unfold len in *; lia].
Qed.

Lemma add_asn1_int64_appends d a v t : 0 <= t < 2 ^ 32 -> - 2 ^ 63 <= v < 2 ^ 63 ->
  appends d a (CBB_add_asn1_int64_with_tag d a v t) (Some (der t (int_octets 8 v))).
Proof.
  intros Ht Hv. unfold CBB_add_asn1_int64_with_tag. destruct (Z.leb_spec 0 v).
  { rewrite wrap_small by lia. rewrite <- int_octets_fuel by lia. apply add_asn1_uint64_appends; [done | lia]. }
  cbv zeta. apply with_local_appends. eapply error_of_appends; [|apply or_error_andthen_of].
  eapply appends_ext; [intros s; symmetry; apply andthen_assoc|]. rewrite <- int64_octets by lia.
  set (l := le_bytes 8 (u64 v)).
  assert (Hl : bytes l) by apply bytes_le_bytes.
  assert (Hlen : length l = 8%nat) by apply length_le_bytes.
  assert (Hst : forall n, (int64_start l n <= n)%nat).
  { induction n as [|n IH]; cbn [int64_start]; [done|]. destruct (_ && _); lia. }
  specialize (Hst 7%nat). set (n := S (int64_start l 7)) in *.
  pose proof (add_asn1_appends d a t _ _ Ht (int64_loop_appends (S d) d l n Hl ltac:(lia))) as H'.
  unfold element_bytes in H'. destruct (Z.leb_spec (len (reverse (take n l))) 0xfffffffe); [done|].
  unfold len in *. rewrite length_reverse, length_take in *. lia.
Qed.

Lemma add_asn1_octet_string_appends d a data : len data <= size_max ->
  appends d a (CBB_add_asn1_octet_string d a data) (element_bytes CBS_ASN1_OCTETSTRING (Some data)).
Proof.
  intros Hd. apply with_local_appends. eapply error_of_appends; [|apply or_error_of].
  apply add_asn1_appends; [unfold CBS_ASN1_OCTETSTRING; lia|]. by apply appends_appends_flushed, add_bytes_appends.
Qed.

Lemma add_asn1_bool_appends d a v :
  appends d a (CBB_add_asn1_bool d a v) (Some (der CBS_ASN1_BOOLEAN [if negb (v =? 0) then 0xff else 0])).
Proof.
  apply with_local_appends. eapply error_of_appends; [|apply or_error_of].
  apply (add_asn1_appends d a CBS_ASN1_BOOLEAN _ (Some [_])); [unfold CBS_ASN1_BOOLEAN; lia|].
  apply appends_appends_flushed, add_u8_appends. by destruct (negb _).
Qed.
End Proofs.
