(* ===== verification/CbbBuild.v ===== *)
(** Whole serialisations with a CBB: any well-nested program of writes produces
    the encoding it describes, or reports an error. *)
From S2P Require Import Prelude.
From S2P Require Import Internal.
From S2P Require Import Mem.
From S2P Require Import Cbs.
From S2P Require Import Asn1.
From S2P Require Import Cbb.
From S2P Require Import CbbSpec.
From S2P Require Import CbbAsn1.
From S2P Require Import CbbProofs.
From stdpp Require Import gmap sorting.

Open Scope Z_scope.

(** * Programs of writes *)

(** What a client writes: bytes, fixed-width integers, length-prefixed strings
    and ASN.1 elements with nested contents. *)
Inductive item :=
  | IBytes (data : list Z)
  | IUint (n v : Z)
  | ILength (n : Z) (items : list item)
  | IElement (tag : Z) (items : list item).

(** The reference encoding; [None] when a length does not fit its prefix or a
    value its width. *)
Fixpoint encode (it : item) : option (list Z) :=
  let fix encode_all (items : list item) : option (list Z) :=
    match items with
    | [] => Some []
    | it :: items => opt_app (encode it) (encode_all items)
    end in
  match it with
  | IBytes data => Some data
  | IUint n v => uint_bytes n v
  | ILength n items => match encode_all items with Some w => close (Len n) w | None => None end
  | IElement t items => element_bytes t (encode_all items)
  end.
Fixpoint encode_all (items : list item) : option (list Z) :=
  match items with
  | [] => Some []
  | it :: items => opt_app (encode it) (encode_all items)
  end.

Section Build.
Context `{P : Platform} `{A : Allocator}.

(** Arguments within the C types. *)
Fixpoint item_ok (it : item) : Prop :=
  let fix items_ok (items : list item) : Prop :=
    match items with [] => True | it :: items => item_ok it /\ items_ok items end in
  match it with
  | IBytes data => len data <= size_max
  | IUint n v => 0 <= v /\ 0 <= n <= 8
  | ILength n items => 1 <= n <= 3 /\ items_ok items
  | IElement t items => 0 <= t < 2 ^ 32 /\ items_ok items
  end.
Fixpoint items_ok (items : list item) : Prop :=
  match items with [] => True | it :: items => item_ok it /\ items_ok items end.

(** The client: a nested item is written to a child CBB, at the next free address
    [d], and the parent is flushed. *)
Fixpoint write_item (d a : addr) (it : item) : M bool :=
  let fix write_items (d a : addr) (items : list item) : M bool :=
    match items with
    | [] => mret true
    | it :: items => andthen (write_item d a it) (write_items d a items)
    end in
  match it with
  | IBytes data => CBB_add_bytes a data
  | IUint n v => cbb_add_u a v n
  | ILength n items =>
      andthen (cbb_add_length_prefixed a d n) (andthen (write_items (S d) d items) (CBB_flush a))
  | IElement t items =>
      andthen (CBB_add_asn1 a d t) (andthen (write_items (S d) d items) (CBB_flush a))
  end.
Fixpoint write_items (d a : addr) (items : list item) : M bool :=
  match items with
  | [] => mret true
  | it :: items => andthen (write_item d a it) (write_items d a items)
  end.

(** A whole serialisation with the top-level CBB [r]. *)
Definition build (r : addr) (init : M bool) (items : list item) : M (option (list Z * Z)) :=
  ok ← andthen init (write_items (S r) r items);
  if negb ok then mret None else CBB_finish r true true.

(** Induction on nested items. *)
Lemma item_nested_ind (Q : item -> Prop) :
  (forall data, Q (IBytes data)) -> (forall n v, Q (IUint n v)) ->
  (forall n items, Forall Q items -> Q (ILength n items)) ->
  (forall t items, Forall Q items -> Q (IElement t items)) -> forall it, Q it.
Proof.
  intros H1 H2 H3 H4. fix IH 1. intros [data | n v | n items | t items]; [apply H1 | apply H2 | apply H3 | apply H4];
    (induction items as [|it items IHi]; constructor; [apply IH | apply IHi]).
Qed.

Lemma write_items_appends items :
  Forall (fun it => item_ok it -> forall d a, appends d a (write_item d a it) (encode it)) items ->
  items_ok items -> forall d a, appends_flushed d a (write_items d a items) (encode_all items).
Proof.
  induction 1 as [|it items Hit _ IH]; cbn; [intros; apply appends_nil|]. intros [Hok Hoks] d a.
  apply appends_flushed_seq; [by apply appends_appends_flushed, Hit | by apply IH].
Qed.

(** Every item appends its encoding. *)
Lemma write_item_appends it : item_ok it -> forall d a, appends d a (write_item d a it) (encode it).
Proof.
  induction it as [data | n v | n items IH | t items IH] using item_nested_ind; intros Hok d a.
  - by apply add_bytes_appends.
  - destruct Hok. by apply add_u_appends.
  - destruct Hok as [Hn Hok]. cbn [write_item encode].
    change (appends d a (andthen (cbb_add_length_prefixed a d n) (andthen (write_items (S d) d items) (CBB_flush a)))
      (match encode_all items with Some w => close (Len n) w | None => None end)).
    assert (Hn' : prefix_ok (Len n)) by (cbn; lia).
    pose proof (appends_seq d a _ _ _ _ (flush_appends d a)
      (child_appends d a (Len n) _ _ Hn' (write_items_appends items IH Hok (S d) d))) as H.
    replace (match encode_all items with Some w => close (Len n) w | None => None end)
      with (opt_app (Some []) (match encode_all items with Some w => close (Len n) w | None => None end))
      by (destruct (encode_all items) as [w|]; [by destruct (close _ w) | done]).
    eapply appends_ext, H. intros s. unfold cbb_add_length_prefixed. symmetry.
    apply (andthen_assoc (CBB_flush a) (cbb_add_child a d n false)).
  - destruct Hok as [Ht Hok]. cbn [write_item encode].
    change (appends d a (andthen (CBB_add_asn1 a d t) (andthen (write_items (S d) d items) (CBB_flush a)))
      (element_bytes t (encode_all items))).
    apply add_asn1_appends; [done|]. by apply write_items_appends.
Qed.

Lemma write_all_appends items : items_ok items ->
  forall d a, appends_flushed d a (write_items d a items) (encode_all items).
Proof.
  intros Hok. apply write_items_appends; [|done]. apply Forall_forall. intros it _. apply write_item_appends.
Qed.

(** * Creating and finishing *)
(** A top-level CBB, in whatever state. *)
Definition top_level (s : store) (r : addr) : Prop :=
  exists q b, heads s !! r = Some (mk_cbb q None) /\ bases s !! r = Some b.

Lemma fresh_opened hs bs k r bf resize : len bf <= size_max ->
  let b := mk_buffer bf 0 (len bf) resize false in
  opened (S r) (mk_store (<[r := mk_cbb None None]> hs) (<[r := b]> bs) k) r r (mk_cbb None None) [] [] [] b.
Proof.
  intros Hb b. unfold opened. cbn [heads bases]. rewrite !lookup_insert_eq.
  split_and!; try done; [apply NoDup_singleton | by left | | lia | repeat constructor; lia].
  unfold holds. split_and!; try done. by exists bf.
Qed.

Lemma init_fixed_opened s r bf : len bf <= size_max ->
  exists s' b, CBB_init_fixed r bf s = Some (true, s') /\ opened (S r) s' r r (mk_cbb None None) [] [] [] b /\
    can_resize b = false /\ cap b = len bf.
Proof. intros Hb. eexists _, _. split; [done|]. split; [by apply fresh_opened | done]. Qed.

Lemma init_opened s r n : 0 <= n <= size_max ->
  exists (ok : bool) s', CBB_init r n s = Some (ok, s') /\
    if ok then exists b, opened (S r) s' r r (mk_cbb None None) [] [] [] b /\ can_resize b = true
    else (exists k, alloc_ok k n = false) /\ top_level s' r.
Proof.
  intros Hn. unfold CBB_init. set (s0 := mk_store (<[r := mk_cbb None None]> (heads s))
    (<[r := mk_buffer [] 0 0 false false]> (bases s)) (allocs s)).
  rewrite (bind_run (CBB_zero r) _ s tt s0) by done.
  destruct (realloc_run [] n s0) as [(junk & E & Hj) | [E Ha]]; [change (len []) with 0; lia | |]; run E.
  - change (len []) with 0 in Hj. rewrite Z.add_0_l in Hj. subst n.
    eexists true, _. split; [done|]. eexists. split; [apply (fresh_opened _ _ _ r junk true); lia | done].
  - destruct (Z.ltb_spec 0 n); [eexists false, _; split; [done|]; split; [by eexists|]; eexists _, _; cbn; by rewrite !lookup_insert_eq|].
    assert (n = @len Z []) as -> by (change (@len Z []) with 0; lia).
    eexists true, _. split; [done|]. eexists. split; [apply (fresh_opened _ _ _ r [] true); lia | done].
Qed.

(** [CBB_finish] returns what has been written, once the open frames are closed. *)
Lemma finish_spec d s r l pre fs b c x y : opened d s r r c l pre fs b -> is_child c = None ->
  x && y = true \/ can_resize b = false ->
  exists o s', CBB_finish r x y s = Some (o, s') /\
    match o with
    | Some (data, n) => exists out, collapse fs = Some out /\ data = pre ++ out /\ n = len data
    | None => top_level s' r /\ forall out, collapse fs = Some out -> ~ fits b (len pre + len out)
    end.
Proof.
  intros Ho Hc Hxy. unfold CBB_finish. pose proof Ho as (_ & Ha & _).
  run (get_cbb_run r c s Ha). rewrite Hc.
  destruct (flush_appends d r s r l pre fs b c Ho) as (ok & s1 & E & b1 & Hb1 & _ & _ & H). run E. destruct ok; cbn [negb].
  2:{ eexists None, _. split; [done|]. destruct H as (_ & [q Hq] & _ & Hf). rewrite Hc in Hq.
      split; [by exists q, b1|]. intros out Hout. specialize (Hf out [] Hout eq_refl). by rewrite Z.add_0_r in Hf. }
  destruct H as (Ha1 & _ & out & w' & Hout & [= <-] & Hh & Hsame). rewrite app_nil_r in Hh.
  run (get_buffer_run r b1 s1 Hb1).
  assert (can_resize b1 && (negb x || negb y) = false) as ->.
  { destruct Hxy as [Hxy|Hxy]; [apply andb_true_iff in Hxy as [-> ->]; apply andb_false_r|]. by rewrite (proj1 Hsame), Hxy. }
  destruct Hh as ([slack Hs] & Hlen & _). rewrite Hs, Hlen, ztake_app_len.
  eexists (Some (pre ++ out, len (pre ++ out))), _. split; [|by exists out].
  unfold mbind at 1, M_bind, put_buffer.
  set (s2 := mk_store (heads s1) _ _). unfold CBB_cleanup.
  assert (Ha2 : heads s2 !! r = Some (mk_cbb None (is_child c))) by done.
  rewrite Hc in Ha2. rewrite (bind_run (CBB_cleanup r) _ s2 tt
    (if can_resize b1 then mk_store (heads s2) (<[r := mk_buffer [] (len (pre ++ out)) (cap b1) (can_resize b1) (error b1)]> (bases s2)) (allocs s2) else s2)).
  { done. }
  unfold CBB_cleanup. run (get_cbb_run r _ s2 Ha2). cbn [is_child].
  erewrite bind_run by (apply get_buffer_run; apply lookup_insert_eq). cbn [can_resize].
  by destruct (can_resize b1).
Qed.

(** Writing [w] and finishing, from a fresh CBB. *)
Lemma run_finish s r m w b : appends_flushed (S r) r m w ->
  opened (S r) s r r (mk_cbb None None) [] [] [] b ->
  exists ok s1, m s = Some (ok, s1) /\
    if (ok : bool) then
      exists data, w = Some data /\ (can_resize b = false -> len data <= cap b) /\
      exists o s', CBB_finish r true true s1 = Some (o, s') /\
      match o with Some (x, n) => x = data /\ n = len data | None => top_level s' r /\ ~ fits b (len data) end
    else (forall data, w = Some data -> ~ fits b (len data)) /\ top_level s1 r.
Proof.
  intros Hm Ho. destruct (Hm s r [] b _ Ho) as (ok & s1 & E & Hap). exists ok, s1. split; [done|].
  destruct ok.
  2:{ destruct Hap as (b1 & Hb1 & _ & _ & _ & [q Hq] & _ & Hf). split; [|by exists q, b1].
      intros data Hw. by specialize (Hf [] data eq_refl Hw). }
  destruct (appended_opened _ _ _ _ _ _ _ _ _ _ _ Ho Hap) as (out & data & b1 & [= <-] & -> & Hs & Ho1).
  cbn [app is_child] in Ho1. exists data. split; [done|]. split.
  { intros Hr. destruct Ho1 as (_ & _ & _ & _ & _ & _ & Hh & _). rewrite app_nil_r in Hh.
    pose proof (holds_len _ _ Hh). rewrite <- (proj2 Hs Hr). lia. }
  destruct (finish_spec _ _ _ _ _ _ _ _ true true Ho1 eq_refl (or_introl eq_refl)) as (o & s2 & E2 & H2).
  exists o, s2. split; [exact E2|]. destruct o as [[x n]|].
  - destruct H2 as (out & [= <-] & -> & ->). by rewrite app_nil_r.
  - rewrite <- (fits_same b b1) by done. destruct H2 as [Ht H2]. specialize (H2 [] eq_refl).
    by rewrite Z.add_0_r in H2.
Qed.

(** Writing into a fixed buffer that is long enough. *)
Lemma fixed_finish s r bf m w : len bf <= size_max -> appends_flushed (S r) r m (Some w) -> len w <= len bf ->
  exists s', (ok ← andthen (CBB_init_fixed r bf) m; if negb ok then mret None else CBB_finish r false false) s = Some (Some (w, len w), s').
Proof.
  intros Hb Hm Hw. destruct (init_fixed_opened s r bf Hb) as (s0 & b & E0 & Ho & Hr & Hc).
  destruct (Hm s0 r [] b _ Ho) as (ok & s1 & E & Hap). unfold andthen, mbind, M_bind. rewrite E0. cbn [negb]. rewrite E.
  assert (Hfits : fits b (len w)) by (split; [lia|rewrite Hr; lia]). destruct ok; cbn [negb].
  2:{ destruct Hap as (b1 & _ & _ & _ & _ & _ & _ & Hf). destruct (Hf [] w eq_refl eq_refl). exact Hfits. }
  destruct (appended_opened _ _ _ _ _ _ _ _ _ _ _ Ho Hap) as (out & data & b1 & [= <-] & [= <-] & Hs & Ho1). cbn [app is_child] in Ho1.
  destruct (finish_spec _ _ _ _ _ _ _ _ false false Ho1 eq_refl) as (o & s2 & E2 & H2); [right; by rewrite (proj1 Hs)|].
  exists s2. rewrite E2. destruct o as [[x n]|].
  - destruct H2 as (out & [= <-] & -> & ->). by rewrite app_nil_r.
  - destruct H2 as [_ H2]. destruct (H2 [] eq_refl). rewrite Z.add_0_r. by apply (fits_same b b1).
Qed.

Lemma build_spec s r items b : items_ok items ->
  opened (S r) s r r (mk_cbb None None) [] [] [] b ->
  exists o s', (ok ← write_items (S r) r items; if negb ok then mret None else CBB_finish r true true) s = Some (o, s') /\
    match o with
    | Some (data, n) => encode_all items = Some data /\ n = len data /\ (can_resize b = false -> len data <= cap b)
    | None => forall w, encode_all items = Some w -> ~ fits b (len w)
    end.
Proof.
  intros Hok Ho. destruct (run_finish s r _ _ b (write_all_appends items Hok (S r) r) Ho) as (ok & s1 & E & H). run E.
  destruct ok; cbn [negb]; [|eexists None, _; by destruct H].
  destruct H as (data & -> & Hc & o & s2 & E2 & H2). exists o, s2. split; [exact E2|].
  destruct o as [[x n]|]; [by destruct H2 as [-> ->] | by intros w [= <-]; destruct H2].
Qed.

(** * Locked and stale CBBs *)

(** A CBB on which every operation must fail: its buffer is in the error state, or
    it has been flushed away. Nothing is assumed of its child pointer, which may
    be dangling. *)
Definition dead (s : store) (a : addr) : Prop :=
  exists c, heads s !! a = Some c /\
  ((exists r b, writes_to r a c /\ bases s !! r = Some b /\ error b = true) \/
   (exists st, is_child c = Some st /\ base st = None)).

Lemma flush_dead s a : dead s a -> CBB_flush a s = Some (false, s).
Proof.
  intros (c & Ha & [(r & b & Hw & Hb & He) | (st & Hc & Hn)]); unfold CBB_flush; cbn [flush].
  - run (get_base_run r a c s Ha Hw). run (get_buffer_run r b s Hb). by rewrite He.
  - unfold cbb_get_base. unfold mbind at 1, M_bind at 1. run (get_cbb_run a c s Ha). by rewrite Hc, Hn.
Qed.

(** * Properties *)

(** C3: building in a fixed buffer: for every well-nested program of writes the
    code runs without undefined behaviour, and CBB_finish returns exactly the
    encoding the program describes when it can be encoded and fits in the
    buffer, and an error otherwise. Length prefixes, including ASN.1 lengths that
    turn out longer than the octet reserved for them, are the right ones. *)
Theorem CBB_build_fixed_correct s r bf items : len bf <= size_max -> items_ok items ->
  exists s', build r (CBB_init_fixed r bf) items s = Some
    (match encode_all items with
     | Some w => if len w <=? len bf then Some (w, len w) else None
     | None => None
     end, s').
Proof.
  intros Hb Hok. destruct (init_fixed_opened s r bf Hb) as (s1 & b & E & Ho & Hr & Hc).
  unfold build, andthen.
  destruct (build_spec s1 r items b Hok Ho) as (o & s2 & E2 & H2). exists s2.
  unfold mbind at 1, M_bind at 1, mbind at 1, M_bind at 1. rewrite E. cbn [negb].
  etrans; [exact E2|]. do 2 f_equal. destruct o as [[data n]|].
  - destruct H2 as (-> & -> & Hfit). specialize (Hfit Hr). rewrite Hc in Hfit.
    by destruct (Z.leb_spec (len data) (len bf)); [|lia].
  - destruct (encode_all items) as [w|]; [|done]. specialize (H2 w eq_refl).
    destruct (Z.leb_spec (len w) (len bf)); [|done]. destruct H2. unfold fits. rewrite Hr, Hc. lia.
Qed.

(** C2: building in a growable buffer: whatever the allocator answers, the code
    runs without undefined behaviour and a result is exactly the encoding the
    program describes; and if no allocation fails and the encoding is no longer
    than a size_t, it is returned. *)
Theorem CBB_build_growable_correct s r n items : 0 <= n <= size_max -> items_ok items ->
  exists o s', build r (CBB_init r n) items s = Some (o, s') /\
    (forall data m, o = Some (data, m) -> encode_all items = Some data /\ m = len data) /\
    ((forall k x, alloc_ok k x = true) -> forall w, encode_all items = Some w -> len w <= size_max ->
       o = Some (w, len w)).
Proof.
  intros Hn Hok. destruct (init_opened s r n Hn) as (ok & s1 & E & H1). unfold build, andthen.
  unfold mbind at 1, M_bind at 1, mbind at 1, M_bind at 1. rewrite E. destruct ok; cbn [negb].
  2:{ eexists None, _. split; [done|]. split; [done|]. intros Hal. destruct H1 as [[k Hk] _].
      by rewrite Hal in Hk. }
  destruct H1 as (b & Ho & Hr). destruct (build_spec s1 r items b Hok Ho) as (o & s2 & E2 & H2).
  exists o, s2. split; [exact E2|]. destruct o as [[data m]|].
  - destruct H2 as (He & -> & _). rewrite He. split; [by intros ? ? [= <- <-] | by intros _ w [= <-]].
  - split; [done|]. intros Hal w Hw Hlen. destruct (H2 w Hw). split; [done|]. by rewrite Hr.
Qed.

(** Errors are sticky and stale handles are harmless: on a CBB whose buffer is
    in the error state, or that has been flushed away by its parent, every
    operation fails and changes nothing, even when its child pointer dangles. *)
Theorem CBB_dead_fails s a ch data v n t : dead s a ->
  CBB_flush a s = Some (false, s) /\
  CBB_add_bytes a data s = Some (false, s) /\
  cbb_add_u a v n s = Some (false, s) /\
  CBB_add_space a n s = Some (None, s) /\
  CBB_reserve a n s = Some (None, s) /\
  cbb_add_length_prefixed a ch n s = Some (false, s) /\
  CBB_add_asn1 a ch t s = Some (false, s) /\
  CBB_add_asn1_oid_from_text a data s = Some (false, s) /\
  CBB_finish a true true s = Some (None, s).
Proof.
  intros Hd. pose proof (flush_dead s a Hd) as E.
  assert (Es : CBB_add_space a n s = Some (None, s)) by (unfold CBB_add_space; by run E).
  assert (Es' : CBB_add_space a (len data) s = Some (None, s)) by (unfold CBB_add_space; by run E).
  split_and!; [done | unfold CBB_add_bytes; by run Es' | unfold cbb_add_u; by run Es | done
    | unfold CBB_reserve; by run E | unfold cbb_add_length_prefixed; by run E
    | unfold CBB_add_asn1, andthen; by run E | unfold CBB_add_asn1_oid_from_text, andthen; by run E |].
  unfold CBB_finish. destruct Hd as (c & Ha & _). run (get_cbb_run a c s Ha).
  destruct (is_child c); [done|]. by run E.
Qed.
End Build.

(** ** Witnesses *)

(** An allocator that never fails and returns zeroed memory. *)
Definition zero_allocator : Allocator :=
  {| alloc_ok := fun _ _ => true; alloc_junk := fun _ _ => 0 |}.
Definition empty_store : store := mk_store ∅ ∅ 0.

(** A SEQUENCE of an INTEGER and a string with a two-byte length. *)
Definition example_items : list item :=
  [IElement CBS_ASN1_SEQUENCE [IElement CBS_ASN1_INTEGER [IUint 1 5]; ILength 2 [IBytes [7; 8]]]].
Definition example_bytes : list Z := [0x30; 7; 2; 1; 5; 0; 2; 7; 8].

Lemma CBB_build_fixed_witness : exists s',
  @build LP64 zero_allocator 0 (CBB_init_fixed 0 (replicate 16 0)) example_items empty_store =
  Some (Some (example_bytes, 9), s').
Proof.
  apply (@CBB_build_fixed_correct LP64 zero_allocator empty_store 0 (replicate 16 0) example_items).
  - done.
  - split_and!; done.
Defined.

Lemma CBB_build_growable_witness : exists o s',
  @build LP64 zero_allocator 0 (@CBB_init zero_allocator 0 0) example_items empty_store = Some (o, s') /\
  o = Some (example_bytes, 9).
Proof.
  destruct (@CBB_build_growable_correct LP64 zero_allocator empty_store 0 0 example_items) as (o & s' & E & _ & H).
  - done.
  - split_and!; done.
  - exists o, s'. split; [exact E|]. apply H; [done | by vm_compute | by vm_compute].
Defined.

(** A store whose one CBB has failed and still points to a child that is gone. *)
Definition failed_store : store :=
  mk_store {[0%nat := mk_cbb (Some 1%nat) None]} {[0%nat := mk_buffer [1; 2] 2 2 false true]} 0.

Lemma CBB_dead_fails_witness : @CBB_add_bytes LP64 zero_allocator 0 [3] failed_store = Some (false, failed_store).
Proof.
  apply (@CBB_dead_fails LP64 zero_allocator failed_store 0 1 [3] 0 1 CBS_ASN1_SEQUENCE).
  exists (mk_cbb (Some 1%nat) None). split; [done|]. left.
  exists 0%nat, (mk_buffer [1; 2] 2 2 false true). split; [by left|]. done.
Defined.
