(* ===== verification/CbbRoundtrip.v ===== *)
(** Reading back with a CBS what was written with a CBB: INTEGER, BOOLEAN, OCTET
    STRING and OBJECT IDENTIFIER, and the order of a SET OF. *)
From S2P Require Import Prelude.
From S2P Require Import Internal.
From S2P Require Import Mem.
From S2P Require Import Cbs.
From S2P Require Import Asn1.
From S2P Require Import Cbb.
From S2P Require Import CbbSpec.
From S2P Require Import CbbAsn1.
From S2P Require Import CbbProofs.
From S2P Require Import CbbBuild.
From stdpp Require Import gmap sorting.

Open Scope Z_scope.

(** * Encodings are strings of bytes *)
Lemma bytes_b128_hi n v : 0 <= v -> bytes (b128_hi n v).
Proof.
  revert v. induction n as [|n IH]; intros v Hv; cbn [b128_hi]; [apply bytes_nil|].
  destruct (v =? 0); [apply bytes_nil|]. apply bytes_app. split; [apply IH, Z.div_pos; lia|].
  apply bytes_1. unfold is_byte. Z.div_mod_to_equations; lia.
Qed.
Lemma bytes_base128 v : 0 <= v -> bytes (base128 v).
Proof.
  intros Hv. apply bytes_app. split; [apply bytes_b128_hi, Z.div_pos; lia|].
  apply bytes_1. unfold is_byte. Z.div_mod_to_equations; lia.
Qed.
Lemma bytes_der_tag t : 0 <= t < 2 ^ 32 -> bytes (der_tag t).
Proof.
  intros Ht. unfold der_tag. cbv zeta. pose proof (Z.mod_pos_bound t (2 ^ 29) ltac:(lia)).
  assert (0 <= t / 2 ^ 29 < 8) by (Z.div_mod_to_equations; lia).
  destruct (Z.ltb_spec (t mod 2 ^ 29) 31); [apply bytes_1 | apply bytes_cons_intro, bytes_base128];
    unfold is_byte; lia.
Qed.
Lemma bytes_der_length n : 0 <= n -> bytes (der_length n).
Proof.
  intros Hn. unfold der_length. destruct (Z.ltb_spec n 128); [apply bytes_1; unfold is_byte; lia|].
  apply bytes_cons_intro, bytes_be_bytes. unfold is_byte, length_size. zcases; lia.
Qed.
Lemma bytes_der t body : 0 <= t < 2 ^ 32 -> bytes body -> bytes (der t body).
Proof.
  intros. unfold der. rewrite !bytes_app. split_and!; [by apply bytes_der_tag | apply bytes_der_length, len_nonneg | done].
Qed.

Section Roundtrip.
Context `{P : Platform} `{A : Allocator}.

(** [w] is appended and then read back by [read] as [v]. *)
Definition roundtrips {X} (write : addr -> addr -> M bool) (read : rd X) (v : X) : Prop :=
  exists w, (forall d a, appends d a (write d a) (Some w)) /\
    forall rest, bytes rest -> len (w ++ rest) <= size_max -> read (w ++ rest) = (Some v, rest).

(** What the ASN.1 writers of a CBB append, the readers of a CBS read back: a
    uint64_t, an int64_t, a boolean, an octet string, followed by anything. *)
Theorem CBB_CBS_asn1_roundtrip :
  (forall v, 0 <= v < 2 ^ 64 ->
     roundtrips (fun d a => CBB_add_asn1_uint64 d a v) CBS_get_asn1_uint64 v) /\
  (forall v, - 2 ^ 63 <= v < 2 ^ 63 ->
     roundtrips (fun d a => CBB_add_asn1_int64 d a v) CBS_get_asn1_int64 v) /\
  (forall v, roundtrips (fun d a => CBB_add_asn1_bool d a v) CBS_get_asn1_bool (negb (v =? 0))) /\
  (forall data, bytes data -> len data <= 0xfffffffe ->
     roundtrips (fun d a => CBB_add_asn1_octet_string d a data) (CBS_get_asn1 CBS_ASN1_OCTETSTRING) data).
Proof.
  split_and!.
  - intros v Hv. destruct (int_octets_spec 9 v) as (Hb & _); [lia | lia |].
    eexists. split; [intros; by apply add_asn1_uint64_appends|]. intros rest Hr Hl.
    apply get_asn1_uint64_iff; [|done..]. apply bytes_app. split; [by apply bytes_der | done].
  - intros v Hv. destruct (int_octets_spec 8 v) as (Hb & _); [lia | lia |].
    eexists. split; [intros; by apply add_asn1_int64_appends|]. intros rest Hr Hl.
    apply get_asn1_int64_iff; [|done..]. apply bytes_app. split; [by apply bytes_der | done].
  - intros v. eexists. split; [intros; apply add_asn1_bool_appends|]. intros rest Hr Hl.
    apply get_asn1_bool_iff; [|done..]. apply bytes_app. split; [|done].
    apply bytes_der; [done|]. apply bytes_1. by destruct (negb _).
  - intros data Hd Hl. exists (der CBS_ASN1_OCTETSTRING data). split.
    + intros d a. pose proof (add_asn1_octet_string_appends d a data) as H'. unfold element_bytes in H'.
      destruct (Z.leb_spec (len data) 0xfffffffe); [|lia]. apply H'. unfold size_max. platform; lia.
    + intros rest Hr Hlr. apply get_asn1_iff; [|done|split_and!; [done | by apply valid_tag_universal | lia]].
      apply bytes_app. split; [by apply bytes_der | done].
Qed.

(** * OBJECT IDENTIFIERs and their text *)

(** The components as encoded: the first is 40 * value1 + value2. *)
Definition oid_bytes (vs : list Z) : list Z := concat (map base128 vs).
Definition dotted (vs : list Z) : list Z := concat (map (fun v => 46 :: dec_string 20 v) vs).
Definition first_text (v : Z) : list Z :=
  if 80 <=? v then [50; 46] ++ dec_string 20 (v - 80)
  else dec_string 20 (v / 40) ++ [46] ++ dec_string 20 (v mod 40).
Definition oid_text (v : Z) (vs : list Z) : list Z := first_text v ++ dotted vs.
Definition u64s (vs : list Z) : Prop := Forall (fun v => 0 <= v < 2 ^ 64) vs.

Lemma dec_string_nonempty v : 0 <= v < 2 ^ 64 -> 0 < len (dec_string 20 v).
Proof.
  intros Hv. destruct (dec_string_spec 20 v) as [[Hne _] _]; [lia | lia |].
  destruct (dec_string 20 v); [done | zlia].
Qed.

(** One component, with the dot after it unless it is the last. *)
Lemma parse_dotted_iff v rest : 0 <= v < 2 ^ 64 -> rest <> [] ->
  parse_dotted_decimal (dec_string 20 v ++ 46 :: rest) = (Some v, rest).
Proof.
  intros Hv Hr. unfold parse_dotted_decimal.
  rewrite (proj2 (CBS_get_u64_decimal_iff _ v (46 :: rest))) by done. rewrite CBS_get_u8_cons.
  destruct (Z.ltb_spec 0 (len rest)); [done|]. destruct Hr. apply len_0_nil. zlia.
Qed.
Lemma parse_dotted_last v : 0 <= v < 2 ^ 64 -> parse_dotted_decimal (dec_string 20 v) = (Some v, []).
Proof.
  intros Hv. unfold parse_dotted_decimal.
  rewrite (proj2 (CBS_get_u64_decimal_iff _ v [])) by (by rewrite app_nil_r). done.
Qed.

(** The components after one that has been read. *)
Definition rest_text (vs : list Z) : list Z :=
  match vs with [] => [] | v :: vs => dec_string 20 v ++ dotted vs end.

Lemma parse_component v vs : 0 <= v < 2 ^ 64 -> u64s vs ->
  parse_dotted_decimal (dec_string 20 v ++ dotted vs) = (Some v, rest_text vs).
Proof.
  intros Hv Hvs. destruct vs as [|v' vs].
  - unfold dotted. cbn [map concat]. rewrite app_nil_r. by apply parse_dotted_last.
  - unfold dotted. cbn [map concat app]. apply parse_dotted_iff; [done|].
    apply Forall_cons_iff in Hvs as [Hv' _]. pose proof (dec_string_nonempty v' Hv') as Hn.
    intros E. apply app_eq_nil in E as [E _]. by rewrite E in Hn.
Qed.

Lemma oid_loop_appends d a vs fuel : u64s vs -> (length (rest_text vs) < fuel)%nat ->
  appends_flushed d a (oid_components_loop fuel a (rest_text vs)) (Some (oid_bytes vs)).
Proof.
  revert fuel. induction vs as [|v vs IH]; intros fuel Hvs Hf; (destruct fuel as [|fuel]; [lia|]).
  { apply appends_nil. }
  apply Forall_cons_iff in Hvs as [Hv Hvs]. cbn [oid_components_loop rest_text] in *.
  pose proof (dec_string_nonempty v Hv) as Hn.
  destruct (Z.ltb_spec 0 (len (dec_string 20 v ++ dotted vs))) as [_|Hz];
    [|rewrite len_app in Hz; pose proof (len_nonneg (dotted vs)); lia].
  rewrite parse_component by done.
  apply (appends_flushed_seq d a _ _ (Some (base128 v)) (Some (oid_bytes vs))); [apply add_base128_appends; lia|].
  apply IH; [done|]. rewrite length_app in Hf. unfold len in Hn.
  enough (length (rest_text vs) <= length (dotted vs))%nat by lia.
  destruct vs as [|v' vs]; [done|]. cbn [rest_text].
  change (dotted (v' :: vs)) with (46 :: dec_string 20 v' ++ dotted vs). cbn [length]. lia.
Qed.

(** Text to bytes: every OID's text is accepted and gives its encoding. *)
Lemma oid_from_text_appends d a v vs : 0 <= v < 2 ^ 64 -> u64s vs ->
  appends d a (CBB_add_asn1_oid_from_text a (oid_text v vs)) (Some (oid_bytes (v :: vs))).
Proof.
  intros Hv Hvs. unfold CBB_add_asn1_oid_from_text.
  assert (Hparse : exists v1 v2, parse_dotted_decimal (oid_text v vs) = (Some v1, dec_string 20 v2 ++ dotted vs) /\
    0 <= v2 < 2 ^ 64 /\ 40 * v1 + v2 = v /\
    (2 <? v1) || ((v1 <? 2) && (39 <? v2)) || (UINT64_MAX - 80 <? v2) = false).
  { unfold oid_text, first_text, UINT64_MAX.
    assert (Hne : forall v2, 0 <= v2 < 2 ^ 64 -> dec_string 20 v2 ++ dotted vs <> []).
    { intros v2 H2 E. apply app_eq_nil in E as [E _]. pose proof (dec_string_nonempty v2 H2) as Hn. by rewrite E in Hn. }
    destruct (Z.leb_spec 80 v).
    - exists 2, (v - 80). rewrite <- app_assoc.
      change ([50; 46] ++ dec_string 20 (v - 80) ++ dotted vs) with
        (dec_string 20 2 ++ 46 :: dec_string 20 (v - 80) ++ dotted vs).
      rewrite parse_dotted_iff by (lia || apply Hne; lia). split_and!; (done || lia).
    - exists (v / 40), (v mod 40). rewrite <- !app_assoc. cbn [app].
      rewrite parse_dotted_iff by ((Z.div_mod_to_equations; lia) || (apply Hne; Z.div_mod_to_equations; lia)).
      split_and!; [done | Z.div_mod_to_equations; lia.. ]. }
  destruct Hparse as (v1 & v2 & -> & Hv2 & Hsum & Hg).
  rewrite parse_component, Hg, wrap_small, Hsum by (done || lia).
  apply (appends_seq d a _ _ (Some []) (Some (oid_bytes (v :: vs)))); [apply flush_appends|].
  apply (appends_flushed_seq d a _ _ (Some (base128 v)) (Some (oid_bytes vs))); [apply add_base128_appends; lia|].
  apply oid_loop_appends; [done | lia].
Qed.

Lemma len_dec_string n v : len (dec_string n v) <= Z.of_nat n.
Proof.
  revert v. induction n as [|n IH]; intros v; cbn [dec_string]; [done|].
  destruct (v <? 10); [rewrite len_cons, len_nil; lia|]. specialize (IH (v / 10)).
  rewrite len_app, len_cons, len_nil. lia.
Qed.

Lemma add_decimal_appends d a v : appends_flushed d a (add_decimal a v) (Some (dec_string 20 v)).
Proof.
  apply appends_appends_flushed, add_bytes_appends. pose proof (len_dec_string 20 v).
  unfold size_max. platform; lia.
Qed.
Lemma add_char_appends d a c : is_byte c -> appends_flushed d a (CBB_add_u8 a c) (Some [c]).
Proof. intros Hc. by apply appends_appends_flushed, add_u8_appends. Qed.

Lemma bytes_oid_bytes vs : u64s vs -> bytes (oid_bytes vs).
Proof.
  induction 1 as [|v vs Hv _ IH]; [apply bytes_nil|]. apply bytes_app. split; [apply bytes_base128; lia | done].
Qed.

Lemma parse_oid v vs : 0 <= v < 2 ^ 64 -> u64s vs ->
  parse_base128_integer (oid_bytes (v :: vs)) = (Some v, oid_bytes vs).
Proof.
  intros Hv Hvs. apply parse_base128_iff; [|done]. apply (bytes_oid_bytes (v :: vs)). by constructor.
Qed.

Lemma len_base128 v : 1 <= len (base128 v).
Proof. unfold base128. rewrite len_app. pose proof (len_nonneg (b128_hi 9 (v / 128))). change (len [v mod 128]) with 1. lia. Qed.

Lemma oid_text_loop_appends d a vs fuel : u64s vs -> (length (oid_bytes vs) < fuel)%nat ->
  appends_flushed d a (oid_text_loop fuel a (oid_bytes vs)) (Some (dotted vs)).
Proof.
  revert fuel. induction vs as [|v vs IH]; intros fuel Hvs Hf; (destruct fuel as [|fuel]; [lia|]).
  { apply appends_nil. }
  apply Forall_cons_iff in Hvs as [Hv Hvs]. cbn [oid_text_loop].
  assert (Hl : len (oid_bytes (v :: vs)) = len (base128 v) + len (oid_bytes vs)) by apply len_app.
  pose proof (len_base128 v). pose proof (len_nonneg (oid_bytes vs)).
  destruct (Z.eqb_spec (len (oid_bytes (v :: vs))) 0); [lia|]. rewrite parse_oid by done.
  apply (appends_flushed_seq d a _ _ (Some [46]) (Some (dec_string 20 v ++ dotted vs))); [by apply add_char_appends|].
  apply (appends_flushed_seq d a _ _ (Some (dec_string 20 v)) (Some (dotted vs))); [apply add_decimal_appends|].
  apply IH; [done|]. unfold len in *. lia.
Qed.

(** What [CBS_asn1_oid_to_text] writes to its CBB. *)
Lemma oid_to_text_appends d a v vs : 0 <= v < 2 ^ 64 -> u64s vs ->
  appends_flushed d a
    (andthen
      (if 80 <=? v then andthen (CBB_add_bytes a [50; 46]) (add_decimal a (v - 80))
       else andthen (add_decimal a (v / 40)) (andthen (CBB_add_u8 a 46) (add_decimal a (v mod 40))))
      (andthen (oid_text_loop (S (length (oid_bytes vs))) a (oid_bytes vs)) (CBB_add_u8 a 0)))
    (Some (oid_text v vs ++ [0])).
Proof.
  intros Hv Hvs. unfold oid_text. rewrite <- app_assoc.
  apply (appends_flushed_seq d a _ _ (Some (first_text v)) (Some (dotted vs ++ [0]))).
  - unfold first_text. destruct (80 <=? v).
    + apply (appends_flushed_seq d a _ _ (Some [50; 46]) (Some _)); [|apply add_decimal_appends].
      apply appends_appends_flushed, add_bytes_appends. unfold size_max. platform; done.
    + apply (appends_flushed_seq d a _ _ (Some _) (Some ([46] ++ _))); [apply add_decimal_appends|].
      apply (appends_flushed_seq d a _ _ (Some [46]) (Some _)); [by apply add_char_appends | apply add_decimal_appends].
  - apply (appends_flushed_seq d a _ _ (Some (dotted vs)) (Some [0])); [|by apply add_char_appends].
    apply oid_text_loop_appends; [done | lia].
Qed.

Lemma with_local_run {X} loc (m : M X) s x s' : m s = Some (x, s') ->
  exists s'', with_local loc m s = Some (x, s'').
Proof. intros E. unfold with_local. run E. eexists. done. Qed.

Lemma cleanup_run s r : top_level s r -> exists s', CBB_cleanup r s = Some (tt, s').
Proof.
  intros (q & b & Ha & Hb). unfold CBB_cleanup. run (get_cbb_run r _ s Ha). cbn [is_child].
  run (get_buffer_run r b s Hb). destruct (can_resize b); eexists; done.
Qed.

(** Building a string with cleanup on every error path. *)
Lemma build_or_cleanup s r n m data : 0 <= n <= size_max -> appends_flushed (S r) r m (Some data) ->
  exists o s', (ok ← andthen (CBB_init r n) m;
     if negb ok then CBB_cleanup r;; mret None
     else o ← CBB_finish r true true;
          match o with None => CBB_cleanup r;; mret None | Some (txt, _) => mret (Some txt) end) s = Some (o, s') /\
    (o = None \/ o = Some data) /\
    ((forall k n, alloc_ok k n = true) -> len data <= size_max -> o = Some data).
Proof.
  intros Hn Hm. destruct (init_opened s r n Hn) as (ok & s1 & E & H1).
  unfold andthen. unfold mbind at 1, M_bind at 1, mbind at 1, M_bind at 1. rewrite E. destruct ok; cbn [negb].
  2:{ destruct H1 as [[k Hk] (s2 & E2)%cleanup_run]. unfold mret at 1, M_ret at 1. cbn [negb]. run E2.
      eexists None, _. split; [done|]. split; [by left|]. intros Hal. by rewrite Hal in Hk. }
  destruct H1 as (b & Ho & Hr). destruct (run_finish s1 r m _ b Hm Ho) as (ok & s2 & E2 & H2). rewrite E2.
  assert (Hfit : (forall k n, alloc_ok k n = true) -> len data <= size_max -> fits b (len data)).
  { intros Hal Hl. split; [done|]. by rewrite Hr. }
  destruct ok; cbn [negb].
  2:{ destruct H2 as [Hf (s3 & E3)%cleanup_run]. run E3. eexists None, _. split; [done|]. split; [by left|].
      intros Hal Hl. by destruct (Hf data eq_refl (Hfit Hal Hl)). }
  destruct H2 as (data' & [= <-] & _ & o & s3 & E3 & H3). run E3. destruct o as [[x m']|].
  - destruct H3 as [-> _]. eexists (Some data), _. split; [done|]. split; [by right | done].
  - destruct H3 as [(s4 & E4)%cleanup_run Hf]. run E4. eexists None, _. split; [done|]. split; [by left|].
    intros Hal Hl. by destruct (Hf (Hfit Hal Hl)).
Qed.

(** C24: the text of an OBJECT IDENTIFIER round-trips: from the contents of an OID
    with 64-bit components CBS_asn1_oid_to_text makes its dotted decimal text
    with a terminating zero (unless an allocation fails), and from this text
    CBB_add_asn1_oid_from_text appends the same contents. *)
Theorem OID_text_roundtrip v vs : 0 <= v < 2 ^ 64 -> u64s vs ->
  (forall d a, appends d a (CBB_add_asn1_oid_from_text a (oid_text v vs)) (Some (oid_bytes (v :: vs)))) /\
  (forall loc s, exists o s', CBS_asn1_oid_to_text loc (oid_bytes (v :: vs)) s = Some (o, s') /\
     (o = None \/ o = Some (oid_text v vs ++ [0])) /\
     ((forall k n, alloc_ok k n = true) -> len (oid_text v vs) < size_max ->
        o = Some (oid_text v vs ++ [0]))).
Proof.
  intros Hv Hvs. split; [intros d a; by apply oid_from_text_appends|]. intros loc s.
  unfold CBS_asn1_oid_to_text. rewrite parse_oid by done.
  destruct (build_or_cleanup s loc 32 _ _ ltac:(unfold size_max; platform; lia)
    (oid_to_text_appends (S loc) loc v vs Hv Hvs)) as (o & s2 & E & Ho & Hok).
  destruct (with_local_run loc _ _ _ _ E) as [s3 E3]. exists o, s3. split_and!; [exact E3 | done |].
  intros Hal Hl. apply Hok; [done|]. rewrite len_app. change (len [0]) with 1. lia.
Qed.

(** * SET OF *)

(** Lexicographic order on the encodings. *)
Fixpoint lex_le (a b : list Z) : Prop :=
  match a, b with
  | [], _ => True
  | _, [] => False
  | x :: a, y :: b => x < y \/ (x = y /\ lex_le a b)
  end.

Lemma ztake_cons {X} n (x : X) l : 0 < n -> ztake n (x :: l) = x :: ztake (n - 1) l.
Proof. intros Hn. unfold ztake. replace (Z.to_nat n) with (S (Z.to_nat (n - 1))) by lia. done. Qed.

Lemma compare_cons x a y b : compare_set_of_element (x :: a) (y :: b) =
  if x <? y then -1 else if y <? x then 1 else compare_set_of_element a b.
Proof.
  unfold compare_set_of_element. rewrite !len_cons. pose proof (len_nonneg a). pose proof (len_nonneg b).
  set (m := if len a <? len b then len a else len b).
  assert (Hm : (if len a + 1 <? len b + 1 then len a + 1 else len b + 1) = m + 1) by (subst m; zcases; lia).
  assert (0 <= m) by (subst m; zcases; lia).
  rewrite Hm, !ztake_cons, Z.add_simpl_r by lia. cbn [OPENSSL_memcmp].
  destruct (x <? y); [done|]. destruct (y <? x); [done|]. subst m. zcases; try lia; done.
Qed.
Lemma compare_nil_l y b : compare_set_of_element [] (y :: b) = -1.
Proof.
  unfold compare_set_of_element. rewrite len_cons. change (len []) with 0. pose proof (len_nonneg b).
  zcases; try lia; done.
Qed.
Lemma compare_nil_r x a : compare_set_of_element (x :: a) [] = 1.
Proof.
  unfold compare_set_of_element. rewrite len_cons. change (len []) with 0. pose proof (len_nonneg a).
  zcases; try lia; done.
Qed.

Lemma set_of_le_lex a b : set_of_le a b <-> lex_le a b.
Proof.
  unfold set_of_le. revert b. induction a as [|x a IH]; intros [|y b]; cbn [lex_le].
  - done.
  - rewrite compare_nil_l. split; [done | lia].
  - rewrite compare_nil_r. split; [lia | done].
  - rewrite compare_cons, <- IH. zcases; lia.
Qed.

#[local] Instance set_of_le_total : Total set_of_le.
Proof.
  intros a b. rewrite !set_of_le_lex. revert b. induction a as [|x a IH]; intros [|y b]; cbn; auto.
  destruct (IH b), (Z.lt_trichotomy x y) as [|[|]]; intuition lia.
Qed.
#[local] Instance set_of_le_trans : Transitive set_of_le.
Proof.
  intros a b c. rewrite !set_of_le_lex. revert b c. induction a as [|x a IH]; intros [|y b] [|z c]; cbn; try done.
  specialize (IH b c). intuition lia.
Qed.

(** Elements concatenated. *)
Definition elements_ok (es : list (Z * list Z)) : Prop :=
  Forall (fun e => valid_tag e.1 /\ len e.2 < 2 ^ 32 /\ bytes e.2) es.
Definition ders (es : list (Z * list Z)) : list CBS := map (fun e => der e.1 e.2) es.

Lemma bytes_ders es : elements_ok es -> bytes (concat (ders es)).
Proof.
  induction 1 as [|[t body] es (Ht & Hl & Hb) _ IH]; [apply bytes_nil|]. apply bytes_app.
  split; [apply bytes_der; [apply Ht | done] | done].
Qed.

Lemma set_of_elements_spec es fuel : elements_ok es -> len (concat (ders es)) <= size_max ->
  (length (concat (ders es)) < fuel)%nat -> set_of_elements fuel (concat (ders es)) = Some (ders es).
Proof.
  revert fuel. induction es as [|[t body] es IH]; intros fuel He Hl Hf; (destruct fuel as [|fuel]; [lia|]);
    cbn [set_of_elements]; [done|].
  pose proof (bytes_ders _ He) as Hb. apply Forall_cons_iff in He as [(Ht & Hlb & _) He]. cbn [fst snd] in *.
  change (concat (ders ((t, body) :: es))) with (der t body ++ concat (ders es)) in *.
  pose proof (len_der_bound t body) as Hd. pose proof (len_nonneg body). pose proof (len_nonneg (concat (ders es))).
  destruct (Z.eqb_spec (len (der t body ++ concat (ders es))) 0) as [E|_]; [rewrite len_app in E; lia|].
  rewrite (proj2 (any_element_der_iff _ (der t body, t, el_header_len (der_element t body)) _ Hb Hl))
    by (by exists t, body).
  rewrite IH; [done | done | rewrite len_app in Hl; lia | rewrite length_app in Hf; unfold len in *; lia].
Qed.

Lemma flush_no_child d s r a c pre b : opened d s r a c [] pre [] b -> CBB_flush a s = Some (true, s).
Proof.
  intros (_ & Ha & Hc & Hw & _ & Hb & Hl & _). unfold CBB_flush. cbn [flush].
  run (get_base_run r a c s Ha Hw). run (get_buffer_run r b s Hb).
  assert (error b = false) as -> by apply Hl. run (get_cbb_run a c s Ha). by rewrite Hc.
Qed.

(** Where the contents of [a] start in the buffer. *)
Definition data_start (c : cbb_st) : Z :=
  match is_child c with None => 0 | Some st => offset st + pending_len_len st end.

Lemma data_offset_run d s r a c pre b : opened d s r a c [] pre [] b ->
  CBB_data_offset a s = Some ((r, data_start c), s).
Proof.
  intros (_ & Ha & Hc & Hw & _). unfold CBB_data_offset, data_start. run (get_cbb_run a c s Ha). rewrite Hc. cbn [head].
  destruct Hw as [[-> ->] | (st & -> & ->)]; done.
Qed.

Lemma data_run d s r a c pre0 w b : opened d s r a c [] (pre0 ++ w) [] b -> data_start c = len pre0 ->
  CBB_data a s = Some (w, s).
Proof.
  intros Ho Hd. pose proof (data_offset_run _ _ _ _ _ _ _ Ho) as E.
  destruct Ho as (_ & _ & _ & _ & _ & Hb & ([slack Hs] & Hl & _) & _). rewrite app_nil_r in *.
  unfold CBB_data. run E. unfold CBB_len. unfold mbind at 1, M_bind at 1. run E. cbn [fst snd].
  run (get_buffer_run r b s Hb). rewrite Hl, Hd, len_app. pose proof (len_nonneg w).
  destruct (Z.ltb_spec (len pre0 + len w) (len pre0)); [lia|]. unfold mret at 1, M_ret at 1.
  run (get_buffer_run r b s Hb). rewrite Hs, <- app_assoc, zdrop_app_len.
  by replace (len pre0 + len w - len pre0) with (len w) by lia; rewrite ztake_app_len.
Qed.

Lemma len_concat_permutation (l l' : list CBS) : l ≡ₚ l' -> len (concat l) = len (concat l').
Proof. induction 1; cbn [concat]; rewrite ?len_app in *; lia. Qed.

(** CBB_flush_asn1_set_of puts the elements of a SET OF in DER order: when the
    contents of the CBB are a sequence of DER elements they are replaced by a
    permutation of these elements in ascending order of their encodings, and
    nothing else changes. *)
Theorem CBB_flush_asn1_set_of_sorts d s r a c pre es b :
  opened d s r a c [] (pre ++ concat (ders es)) [] b -> data_start c = len pre -> elements_ok es ->
  exists s' b' sorted, CBB_flush_asn1_set_of a true true s = Some (true, s') /\
    sorted ≡ₚ ders es /\ Sorted set_of_le sorted /\
    heads s' = heads s /\ bases s' = <[r := b']> (bases s) /\ holds b' (pre ++ concat sorted).
Proof.
  intros Ho Hd He. unfold CBB_flush_asn1_set_of, andthen. run (flush_no_child _ _ _ _ _ _ _ Ho). cbn [negb].
  run (data_run _ _ _ _ _ _ _ _ Ho Hd). pose proof (data_offset_run _ _ _ _ _ _ _ Ho) as E.
  destruct Ho as (_ & _ & _ & _ & _ & Hb & Hh & _). rewrite app_nil_r in Hh.
  pose proof (holds_len _ _ Hh) as [_ Hcap]. rewrite len_app in Hcap. pose proof (len_nonneg pre).
  rewrite set_of_elements_spec by (done || lia).
  destruct (Z.ltb_spec (len (ders es)) 2) as [H2|H2].
  - exists s, b, (ders es). rewrite insert_id by done. split_and!; try done.
    destruct (ders es) as [|x [|y l]]; [constructor | repeat constructor |].
    rewrite !len_cons in H2. pose proof (len_nonneg l). lia.
  - cbn [negb orb]. run E. rewrite Hd. cbn [fst snd].
    pose proof (merge_sort_Permutation set_of_le (ders es)) as Hp.
    destruct (write_spec s r b pre (concat (ders es)) [] (concat (merge_sort set_of_le (ders es)))) as (b' & Ew & Hh' & _).
    { done. } { by rewrite app_nil_r. } { symmetry. by apply len_concat_permutation. }
    run Ew. rewrite app_nil_r in Hh'. eexists _, b', (merge_sort set_of_le (ders es)).
    split; [done|]. split_and!; try done. apply Sorted_merge_sort, _.
Qed.
End Roundtrip.

(** ** Witnesses *)
Lemma OID_text_roundtrip_witness : exists o s',
  @CBS_asn1_oid_to_text LP64 zero_allocator 0 (oid_bytes [42; 840; 113549]) empty_store = Some (o, s') /\
  o = Some ([49; 46; 50; 46; 56; 52; 48; 46; 49; 49; 51; 53; 52; 57] ++ [0]).
Proof.
  destruct (@OID_text_roundtrip LP64 zero_allocator 42 [840; 113549]) as [_ H].
  - lia.
  - repeat constructor; lia.
  - destruct (H 0%nat empty_store) as (o & s' & E & _ & Ho). exists o, s'. split; [exact E|].
    apply Ho; [done | by vm_compute].
Defined.

Definition set_store : store :=
  mk_store {[0%nat := mk_cbb None None]}
    {[0%nat := mk_buffer [4; 1; 9; 2; 1; 5; 0; 0] 6 8 false false]} 0.

Lemma CBB_flush_asn1_set_of_witness : exists s' b' sorted,
  @CBB_flush_asn1_set_of LP64 zero_allocator 0 true true set_store = Some (true, s') /\
  sorted ≡ₚ [[4; 1; 9]; [2; 1; 5]] /\ Sorted set_of_le sorted /\
  heads s' = heads set_store /\ bases s' = <[0%nat := b']> (bases set_store) /\ @holds LP64 b' ([] ++ concat sorted).
Proof.
  apply (@CBB_flush_asn1_set_of_sorts LP64 zero_allocator 1 set_store 0 0 (mk_cbb None None) []
    [(CBS_ASN1_OCTETSTRING, [9]); (CBS_ASN1_INTEGER, [5])] (mk_buffer [4; 1; 9; 2; 1; 5; 0; 0] 6 8 false false)).
  - unfold opened. split_and!; try done; [apply NoDup_singleton | by left | | lia | repeat constructor; lia].
    unfold holds. split_and!; try done. by exists [0; 0].
  - done.
  - repeat constructor; done.
Defined.
