(* ===== verification/Unicode.v ===== *)
(** Unicode encodings on CBS and CBB: crypto/bytestring/unicode.cc. *)
From S2P Require Import Prelude.
From S2P Require Import Internal.
From S2P Require Import Cbs.
From S2P Require Import Asn1.
From S2P Require Import Cbb.
From S2P Require Import CbbSpec.
From S2P Require Import CbbProofs.

Open Scope Z_scope.
Open Scope rd_scope.

Definition is_valid_code_point (v : Z) : bool :=
  negb ((0x10ffff <? v) || (Z.land v 0xfffe =? 0xfffe) || ((0xfdd0 <=? v) && (v <=? 0xfdef))
        || ((0xd800 <=? v) && (v <=? 0xdfff))).

Definition BOTTOM_BITS (n : Z) : Z := u8 (Z.shiftl 1 n - 1).
Definition TOP_BITS (n : Z) : Z := u8 (Z.lnot (BOTTOM_BITS (8 - n))).

(** The loop over the [n] continuation bytes. *)
Fixpoint utf8_continuation (n : nat) (v : Z) : rd Z :=
  match n with
  | O => rd_ret v
  | S n =>
    c <-- CBS_get_u8 ;;
    check (Z.land c (TOP_BITS 2) =? TOP_BITS 1) ;;
    utf8_continuation n (Z.lor (u32 (Z.shiftl v 6)) (Z.land c (BOTTOM_BITS 6)))
  end.

(** The payload of the first byte, the number of continuation bytes and the
    smallest value that needs them. *)
Definition utf8_lead (c : Z) : option (Z * nat * Z) :=
  if Z.land c (TOP_BITS 3) =? TOP_BITS 2 then Some (Z.land c (BOTTOM_BITS 5), 1%nat, 0x80)
  else if Z.land c (TOP_BITS 4) =? TOP_BITS 3 then Some (Z.land c (BOTTOM_BITS 4), 2%nat, 0x800)
  else if Z.land c (TOP_BITS 5) =? TOP_BITS 4 then Some (Z.land c (BOTTOM_BITS 3), 3%nat, 0x10000)
  else None.

Definition CBS_get_utf8 : rd Z :=
  c <-- CBS_get_u8 ;;
  if c <=? 0x7f then rd_ret c
  else match utf8_lead c with
       | None => rd_fail
       | Some (v, n, lower_bound) =>
         v <-- utf8_continuation n v ;;
         check (negb (negb (is_valid_code_point v) || (v <? lower_bound))) ;;
         rd_ret v
       end.

Definition CBS_get_latin1 : rd Z := CBS_get_u8.
Definition CBS_get_ucs2_be : rd Z :=
  c <-- CBS_get_u16 ;; check (is_valid_code_point c) ;; rd_ret c.
Definition CBS_get_utf32_be : rd Z :=
  c <-- CBS_get_u32 ;; check (is_valid_code_point c) ;; rd_ret c.

Definition CBB_get_utf8_len (u : Z) : Z :=
  if u <=? 0x7f then 1 else if u <=? 0x7ff then 2 else if u <=? 0xffff then 3 else 4.

Section Unicode.
Context `{P : Platform} `{A : Allocator}.

Definition CBB_add_utf8 (a : addr) (u : Z) : M bool :=
  let add c := CBB_add_u8 a (u8 c) in
  let cont k := Z.lor (TOP_BITS 1) (Z.land (Z.shiftr u k) (BOTTOM_BITS 6)) in
  if negb (is_valid_code_point u) then mret false
  else if u <=? 0x7f then add u
  else if u <=? 0x7ff then andthen (add (Z.lor (TOP_BITS 2) (Z.shiftr u 6))) (add (cont 0))
  else if u <=? 0xffff then
    andthen (add (Z.lor (TOP_BITS 3) (Z.shiftr u 12))) (andthen (add (cont 6)) (add (cont 0)))
  else if u <=? 0x10ffff then
    andthen (add (Z.lor (TOP_BITS 4) (Z.shiftr u 18)))
      (andthen (add (cont 12)) (andthen (add (cont 6)) (add (cont 0))))
  else mret false.

Definition CBB_add_latin1 (a : addr) (u : Z) : M bool :=
  if u <=? 0xff then CBB_add_u8 a (u8 u) else mret false.
Definition CBB_add_ucs2_be (a : addr) (u : Z) : M bool :=
  if (u <=? 0xffff) && is_valid_code_point u then CBB_add_u16 a (u16 u) else mret false.
Definition CBB_add_utf32_be (a : addr) (u : Z) : M bool :=
  if is_valid_code_point u then CBB_add_u32 a u else mret false.
End Unicode.

(** * The encoding *)

(** UTF-8 as arithmetic. *)
Definition cont (x : Z) : Z := 128 + x mod 64.
Definition utf8 (u : Z) : list Z :=
  if u <=? 0x7f then [u]
  else if u <=? 0x7ff then [192 + u / 64; cont u]
  else if u <=? 0xffff then [224 + u / 4096; cont (u / 64); cont u]
  else [240 + u / 262144; cont (u / 4096); cont (u / 64); cont u].

(** The Unicode scalar values that are not noncharacters. *)
Definition code_point (u : Z) : Prop :=
  0 <= u <= 0x10ffff /\ ~ (0xd800 <= u <= 0xdfff) /\ ~ (0xfdd0 <= u <= 0xfdef) /\ u mod 0x10000 < 0xfffe.

Lemma land_fffe v : 0 <= v -> (Z.land v 0xfffe =? 0xfffe) = (0xfffe <=? v mod 0x10000).
Proof.
  intros Hv. set (m := v mod 0x10000). pose proof (Z.mod_pos_bound v 0x10000 ltac:(lia)) as Hm. fold m in Hm.
  assert (E : Z.land v 0xfffe = Z.land m 0xfffe).
  { change 0xfffe with (Z.land 0xffff 0xfffe) at 1. rewrite Z.land_assoc. f_equal.
    change 0xffff with (Z.ones 16). by rewrite Z.land_ones by lia. }
  rewrite E. clearbody m. clear E.
  assert (E2 : Z.land m 0xfffe = 2 * (m / 2)).
  { assert (exists h l, m = l + 2 ^ 1 * h /\ 0 <= l < 2 ^ 1 /\ 0 <= h < 0x8000) as (h & l & -> & Hl & Hh).
    { exists (m / 2), (m mod 2). Z.div_mod_to_equations; lia. }
    change 0xfffe with (0 + 2 ^ 1 * 0x7fff). rewrite land_split by lia. change 0x7fff with (Z.ones 15).
    rewrite Z.land_0_r, Z.land_ones, Z.mod_small by lia.
    rewrite split_div by lia. lia. }
  rewrite E2. Z.div_mod_to_equations. lia.
Qed.

Lemma valid_code_point_iff v : 0 <= v -> is_valid_code_point v = true <-> code_point v.
Proof. intros Hv. unfold is_valid_code_point, code_point. rewrite land_fffe by done. lia. Qed.

(** The bytes of the encoding, by exhaustion. *)
Definition lead_spec (c : Z) : option (Z * nat * Z) :=
  if c <? 192 then None
  else if c <? 224 then Some (c - 192, 1%nat, 0x80)
  else if c <? 240 then Some (c - 224, 2%nat, 0x800)
  else if c <? 248 then Some (c - 240, 3%nat, 0x10000)
  else None.
Lemma utf8_lead_spec c : is_byte c -> utf8_lead c = lead_spec c.
Proof.
  intros Hc. assert (H : forall_from (fun c => bool_decide (utf8_lead c = lead_spec c)) 0 256 = true)
    by by vm_compute.
  by apply (byte_forallb _ c), bool_decide_eq_true_1 in H.
Qed.
Lemma continuation_byte c : is_byte c ->
  (Z.land c (TOP_BITS 2) =? TOP_BITS 1) = (128 <=? c) && (c <? 192) /\ Z.land c (BOTTOM_BITS 6) = c mod 64.
Proof.
  intros Hc. split.
  - apply Bool.eqb_prop.
    by apply (byte_forallb (fun c => Bool.eqb (Z.land c (TOP_BITS 2) =? TOP_BITS 1) ((128 <=? c) && (c <? 192))));
      [vm_compute|].
  - change (BOTTOM_BITS 6) with (Z.ones 6). by rewrite Z.land_ones.
Qed.

(** The value after some continuation bytes. *)
Definition cont_val (v : Z) (cs : list Z) : Z := foldl (fun v c => v * 64 + (c - 128)) v cs.

Lemma cont_val_step n v c : 0 <= v -> (v + 1) * 64 ^ Z.of_nat (S n) <= 2 ^ 32 -> 128 <= c < 192 ->
  Z.lor (u32 (Z.shiftl v 6)) (Z.land c (BOTTOM_BITS 6)) = v * 64 + (c - 128) /\
  (v * 64 + (c - 128) + 1) * 64 ^ Z.of_nat n <= 2 ^ 32.
Proof.
  intros Hv Hn Hc. rewrite (proj2 (continuation_byte c ltac:(unfold is_byte; lia))).
  replace (Z.of_nat (S n)) with (Z.of_nat n + 1) in Hn by lia. rewrite Z.pow_add_r in Hn by lia.
  change (64 ^ 1) with 64 in Hn. pose proof (Z.pow_pos_nonneg 64 (Z.of_nat n) ltac:(lia) ltac:(lia)).
  split; [|nia]. pose proof (Z.mod_pos_bound c 64 ltac:(lia)).
  rewrite (wrap_small 32) by (rewrite Z.shiftl_mul_pow2 by lia; nia).
  rewrite lor_shiftl_add by lia. Z.div_mod_to_equations; lia.
Qed.

Lemma utf8_continuation_iff n v s w r : bytes s -> 0 <= v -> (v + 1) * 64 ^ Z.of_nat n <= 2 ^ 32 ->
  utf8_continuation n v s = (Some w, r) <->
  exists cs, s = cs ++ r /\ length cs = n /\ Forall (fun c => 128 <= c < 192) cs /\ w = cont_val v cs.
Proof.
  revert v s. induction n as [|n IH]; intros v s Hs Hv Hn; cbn [utf8_continuation].
  { rewrite rd_ret_some. split.
    - intros [-> ->]. by exists [].
    - by intros ([|c cs] & -> & ? & _ & ->). }
  split.
  - intros (c & s' & ->%CBS_get_u8_some & [Hc H]%rd_check_some)%rd_bind_some.
    apply bytes_cons in Hs as [Hbc Hs]. rewrite (proj1 (continuation_byte c Hbc)) in Hc.
    destruct (cont_val_step n v c) as [E Hn']; [lia..|]. rewrite E in H.
    apply IH in H as (cs & -> & <- & Hcs & ->); [|done|lia|done].
    exists (c :: cs). split_and!; [done | done | constructor; [lia | done] | done].
  - intros ([|c cs] & -> & Hlen & Hcs & ->); [done|]. apply Forall_cons_iff in Hcs as [Hc Hcs].
    cbn [app] in Hs |- *. apply bytes_cons in Hs as [Hbc Hs]. apply rd_bind_some. exists c, (cs ++ r).
    split; [by apply CBS_get_u8_some|]. apply rd_check_some.
    rewrite (proj1 (continuation_byte c Hbc)). split; [lia|].
    destruct (cont_val_step n v c) as [E Hn']; [lia..|]. rewrite E.
    apply IH; [done | lia | done |]. exists cs. cbn in Hlen. split_and!; [done | lia | done | done].
Qed.

(** * Reading *)

(** [read] accepts exactly the encodings [enc u] of the values [ok u], and
    leaves what follows. *)
Definition reads_exactly (read : rd Z) (ok : Z -> Prop) (enc : Z -> list Z) : Prop :=
  forall cbs u r, bytes cbs -> read cbs = (Some u, r) <-> ok u /\ cbs = enc u ++ r.

(** The multi-byte case, once the first byte is known. *)
Lemma utf8_tail_iff n v lb s u r : bytes s -> 0 <= v -> (v + 1) * 64 ^ Z.of_nat n <= 2 ^ 32 ->
  (v <-- utf8_continuation n v ;; check (negb (negb (is_valid_code_point v) || (v <? lb))) ;; rd_ret v)%rd s
    = (Some u, r) <->
  exists cs, s = cs ++ r /\ length cs = n /\ Forall (fun c => 128 <= c < 192) cs /\ u = cont_val v cs /\
    code_point u /\ lb <= u.
Proof.
  intros Hs Hv Hn.
  assert (Hpos : forall cs, Forall (fun c => 128 <= c < 192) cs -> 0 <= cont_val v cs).
  { clear - Hv. intros cs Hcs. revert v Hv. induction Hcs as [|c cs Hc _ IH]; intros v Hv; [done|].
    cbn. apply IH. lia. }
  rewrite rd_bind_some. split.
  - intros (w & t & H & [Hc [-> ->]%rd_ret_some]%rd_check_some).
    apply utf8_continuation_iff in H as (cs & -> & Hlen & Hcs & ->); [|done..].
    exists cs. rewrite negb_true_iff, orb_false_iff, negb_false_iff in Hc. destruct Hc as [Hc Hlb].
    apply valid_code_point_iff in Hc; [|by apply Hpos]. split_and!; try done. lia.
  - intros (cs & -> & Hlen & Hcs & -> & Hc & Hlb). exists (cont_val v cs), r. split.
    + apply utf8_continuation_iff; [done..|]. by exists cs.
    + apply rd_check_some. split; [|by apply rd_ret_some]. apply valid_code_point_iff in Hc; [|by apply Hpos].
      rewrite Hc. cbn. lia.
Qed.

(** The lead byte and the continuation bytes are the encoding of their value. *)
Lemma utf8_lead_encode c v n lb cs u : lead_spec c = Some (v, n, lb) -> length cs = n ->
  Forall (fun c => 128 <= c < 192) cs -> u = cont_val v cs -> lb <= u -> u <= 0x10ffff -> utf8 u = c :: cs.
Proof.
  intros Hl Hn Hcs -> Hlb Hu. unfold lead_spec in Hl.
  repeat match type of Hl with (if ?b then _ else _) = _ => destruct b eqn:?; [try done|]; simplify_eq end; try done;
    destruct cs as [|c1 [|c2 [|c3 [|c4 cs]]]]; try done; cbn [cont_val foldl] in Hu, Hlb |- *;
    repeat match goal with H : Forall _ (_ :: _) |- _ => apply Forall_cons_iff in H as [? H] end;
    unfold utf8, cont; zcases; try lia; repeat f_equal; Z.div_mod_to_equations; lia.
Qed.
Lemma cont_range x : 128 <= cont x < 192.
Proof. unfold cont. Z.div_mod_to_equations; lia. Qed.
Lemma utf8_lead_decode u : 0x7f < u <= 0x10ffff ->
  exists c v n lb cs, utf8 u = c :: cs /\ lead_spec c = Some (v, n, lb) /\ length cs = n /\
    Forall (fun c => 128 <= c < 192) cs /\ u = cont_val v cs /\ lb <= u.
Proof.
  intros Hu. unfold utf8. destruct (Z.leb_spec u 0x7f); [lia|].
  destruct (Z.leb_spec u 0x7ff); [|destruct (Z.leb_spec u 0xffff)].
  - exists (192 + u / 64), (u / 64), 1%nat, 0x80, [cont u]. split_and!; try done; [| |cbn; unfold cont|lia].
    + unfold lead_spec. zcases; try (Z.div_mod_to_equations; lia). repeat f_equal. lia.
    + repeat constructor; apply cont_range.
    + Z.div_mod_to_equations; lia.
  - exists (224 + u / 4096), (u / 4096), 2%nat, 0x800, [cont (u / 64); cont u].
    split_and!; try done; [| |cbn; unfold cont|lia].
    + unfold lead_spec. zcases; try (Z.div_mod_to_equations; lia). repeat f_equal. lia.
    + repeat constructor; apply cont_range.
    + Z.div_mod_to_equations; lia.
  - exists (240 + u / 262144), (u / 262144), 3%nat, 0x10000, [cont (u / 4096); cont (u / 64); cont u].
    split_and!; try done; [| |cbn; unfold cont|lia].
    + unfold lead_spec. zcases; try (Z.div_mod_to_equations; lia). repeat f_equal. lia.
    + repeat constructor; apply cont_range.
    + Z.div_mod_to_equations; lia.
Qed.

Lemma lead_bounds c v n lb : lead_spec c = Some (v, n, lb) -> 0 <= v /\ (v + 1) * 64 ^ Z.of_nat n <= 2 ^ 32 /\ 0x7f < c < 256.
Proof. unfold lead_spec. intros H. repeat case_match; simplify_eq; cbn; lia. Qed.

Lemma get_utf8_exact : reads_exactly CBS_get_utf8 code_point utf8.
Proof.
  intros cbs u r Hb. unfold CBS_get_utf8. rewrite rd_bind_some. split.
  - intros (c & s & ->%CBS_get_u8_some & H). apply bytes_cons in Hb as [Hc Hb].
    destruct (Z.leb_spec c 0x7f) as [Hle|Hgt].
    { apply rd_ret_some in H as [-> ->]. unfold is_byte in Hc. unfold utf8, code_point.
      destruct (Z.leb_spec c 0x7f); [|lia]. split; [|done]. Z.div_mod_to_equations; lia. }
    rewrite utf8_lead_spec in H by done. destruct (lead_spec c) as [[[v n] lb]|] eqn:El; [|done].
    destruct (lead_bounds _ _ _ _ El) as (? & ? & _).
    apply utf8_tail_iff in H as (cs & -> & Hlen & Hcs & Hu & Hcp & Hlb); [|done..]. split; [done|].
    by rewrite (utf8_lead_encode c v n lb cs u El) by (done || apply Hcp).
  - intros [Hcp ->]. destruct (Z.leb_spec u 0x7f) as [Hle|Hgt].
    + exists u, r. unfold utf8. destruct (Z.leb_spec u 0x7f); [|lia]. by rewrite CBS_get_u8_some, rd_ret_some.
    + destruct (utf8_lead_decode u) as (c & v & n & lb & cs & E & El & Hlen & Hcs & Hu & Hlb);
        [pose proof (proj1 Hcp); lia|]. rewrite E in Hb |- *. cbn [app] in Hb |- *.
      apply bytes_cons in Hb as [Hc Hb]. exists c, (cs ++ r). split; [by apply CBS_get_u8_some|].
      destruct (lead_bounds _ _ _ _ El) as (? & ? & ?). destruct (Z.leb_spec c 0x7f); [lia|].
      rewrite utf8_lead_spec, El by done. apply utf8_tail_iff; [done..|]. by exists cs.
Qed.

Lemma get_uint_valid_exact n (w : nat) : 0 <= n <= 8 -> n = Z.of_nat w ->
  reads_exactly (c <-- (v <-- cbs_get_u n ;; rd_ret (wrap (8 * n) v)) ;; check (is_valid_code_point c) ;; rd_ret c)
    (fun u => code_point u /\ u < 256 ^ n) (be_bytes w).
Proof.
  intros Hn Hw cbs u r Hb. rewrite rd_bind_some. split.
  - intros (c & t & (v & s & H & [-> ->]%rd_ret_some)%rd_bind_some & [Hc [-> ->]%rd_ret_some]%rd_check_some).
    apply cbs_get_u_inv in H as (l & -> & Hl & ->); [|done..].
    apply bytes_app in Hb as [Hbl _]. pose proof (be_val_range l Hbl) as Hr. rewrite Hl in Hr.
    assert (E : wrap (8 * n) (be_val l) = be_val l).
    { apply wrap_small. by rewrite Z.pow_mul_r by lia. }
    rewrite E in Hc |- *. apply valid_code_point_iff in Hc; [|lia]. split; [split; [done | lia]|].
    f_equal. rewrite <- (be_bytes_be_val l) at 1 by done. f_equal. unfold len in Hl. lia.
  - intros [[Hc Hu] ->]. pose proof (proj1 Hc) as Hc0. exists u, r.
    assert (E : wrap (8 * n) u = u) by (apply wrap_small; rewrite Z.pow_mul_r by lia; change (2 ^ 8) with 256; lia). split.
    + apply rd_bind_some. exists u, r. rewrite rd_ret_some, E. split; [|done].
      rewrite cbs_get_u_app, be_val_be_bytes; [by rewrite <- Hw, Z.mod_small by lia | apply bytes_be_bytes | | lia].
      rewrite len_be_bytes. lia.
    + rewrite rd_check_some, rd_ret_some. split; [|done]. by apply valid_code_point_iff; [lia|].
Qed.

(** Each reader accepts exactly the encodings of its character set: UTF-8 in
    its shortest form, Latin-1, UCS-2 and UTF-32, never a surrogate or a
    noncharacter; and it leaves exactly the bytes after the character. *)
Lemma CBS_unicode_exact :
  reads_exactly CBS_get_utf8 code_point utf8 /\
  reads_exactly CBS_get_latin1 is_byte (fun u => [u]) /\
  reads_exactly CBS_get_ucs2_be (fun u => code_point u /\ u < 2 ^ 16) (be_bytes 2) /\
  reads_exactly CBS_get_utf32_be code_point (be_bytes 4).
Proof.
  split_and!.
  - apply get_utf8_exact.
  - intros cbs u r Hb. unfold CBS_get_latin1. rewrite CBS_get_u8_some. cbn [app]. split; [|by intros [_ ->]].
    intros ->. by apply bytes_cons in Hb as [? _].
  - intros cbs u r Hb. by apply (get_uint_valid_exact 2 2).
  - intros cbs u r Hb. unfold CBS_get_utf32_be, CBS_get_u32. rewrite (get_uint_valid_exact 4 4 ltac:(lia) eq_refl cbs u r Hb).
    split; [by intros [[? _] ?]|]. intros [Hc ->]. split; [|done]. split; [done|]. pose proof (proj1 Hc). lia.
Qed.

(** * Writing *)
Section Writing.
Context `{P : Platform} `{A : Allocator}.

Lemma lor_top k h x : 0 <= k -> 0 <= x < 2 ^ k -> Z.lor (2 ^ k * h) x = 2 ^ k * h + x.
Proof. intros. rewrite (Z.mul_comm _ h), <- Z.shiftl_mul_pow2, lor_shiftl_add by lia. by rewrite Z.shiftl_mul_pow2 by lia. Qed.

Lemma cont_byte u k : 0 <= u -> 0 <= k ->
  u8 (Z.lor (TOP_BITS 1) (Z.land (Z.shiftr u k) (BOTTOM_BITS 6))) = cont (u / 2 ^ k).
Proof.
  intros Hu Hk. change (BOTTOM_BITS 6) with (Z.ones 6). rewrite Z.land_ones, Z.shiftr_div_pow2 by lia.
  change (TOP_BITS 1) with (2 ^ 6 * 2). unfold cont. pose proof (Z.mod_pos_bound (u / 2 ^ k) (2 ^ 6) ltac:(lia)).
  rewrite lor_top by lia. apply (wrap_small 8). change (2 ^ 6) with 64 in *. lia.
Qed.
Lemma lead_byte k h t u s : 0 <= u -> 0 <= k -> 0 <= s -> t = 2 ^ k * h -> 0 <= t -> u / 2 ^ s < 2 ^ k -> t + 2 ^ k <= 256 ->
  u8 (Z.lor t (Z.shiftr u s)) = t + u / 2 ^ s.
Proof.
  intros Hu Hk Hs -> Ht Hlt Hsum. rewrite Z.shiftr_div_pow2 by lia.
  pose proof (Z.div_pos u (2 ^ s) Hu ltac:(lia)). rewrite lor_top by lia. apply (wrap_small 8). lia.
Qed.

Lemma add_byte_appends d a v w : v = w -> is_byte w -> appends d a (CBB_add_u8 a v) (Some [w]).
Proof. intros ->. apply add_u8_appends. Qed.
Lemma is_byte_cont x : is_byte (cont x).
Proof. pose proof (cont_range x). unfold is_byte. lia. Qed.

Lemma cont_byte_appends d a u k x : 0 <= u -> 0 <= k -> x = u / 2 ^ k ->
  appends d a (CBB_add_u8 a (u8 (Z.lor (TOP_BITS 1) (Z.land (Z.shiftr u k) (BOTTOM_BITS 6))))) (Some [cont x]).
Proof. intros ? ? ->. apply add_byte_appends; [by apply cont_byte | apply is_byte_cont]. Qed.
Lemma lead_byte_appends d a k t u s x : 0 <= u -> 0 <= k -> 0 <= s -> t mod 2 ^ k = 0 -> 0 <= t -> u / 2 ^ s < 2 ^ k ->
  t + 2 ^ k <= 256 -> x = t + u / 2 ^ s ->
  appends d a (CBB_add_u8 a (u8 (Z.lor t (Z.shiftr u s)))) (Some [x]).
Proof.
  intros. subst x. pose proof (Z.div_pos u (2 ^ s) ltac:(lia) ltac:(lia)).
  apply add_byte_appends; [apply (lead_byte k (t / 2 ^ k)); try done; Z.div_mod_to_equations; lia | unfold is_byte; lia].
Qed.

Lemma appends_cons d a m1 m2 x w :
  appends d a m1 (Some [x]) -> appends d a m2 (Some w) -> appends d a (andthen m1 m2) (Some (x :: w)).
Proof. intros H1 H2. by apply (appends_seq d a m1 m2 (Some [x]) (Some w) H1), appends_appends_flushed. Qed.

Lemma add_utf8_appends d a u : code_point u -> appends d a (CBB_add_utf8 a u) (Some (utf8 u)).
Proof.
  intros Hc. pose proof (proj1 Hc) as Hu. unfold CBB_add_utf8. cbv zeta.
  rewrite (proj2 (valid_code_point_iff u ltac:(lia)) Hc). cbn [negb]. unfold utf8.
  destruct (Z.leb_spec u 0x7f).
  { apply add_byte_appends; [apply (wrap_small 8); lia | unfold is_byte; lia]. }
  destruct (Z.leb_spec u 0x7ff); [|destruct (Z.leb_spec u 0xffff); [|destruct (Z.leb_spec u 0x10ffff); [|lia]]];
    (apply appends_cons; [|repeat apply appends_cons; apply cont_byte_appends; try done; try lia; by rewrite Z.div_1_r]).
  - apply (lead_byte_appends d a 5); try done; try lia; Z.div_mod_to_equations; lia.
  - apply (lead_byte_appends d a 4); try done; try lia; Z.div_mod_to_equations; lia.
  - apply (lead_byte_appends d a 3); try done; try lia; Z.div_mod_to_equations; lia.
Qed.

(** [write] appends [enc u] for the values [ok u], and refuses the others
    without touching the CBB. *)
Definition writes_exactly (write : addr -> Z -> M bool) (ok : Z -> Prop) (enc : Z -> list Z) : Prop :=
  forall d a u, 0 <= u < 2 ^ 32 ->
  (ok u -> appends d a (write a u) (Some (enc u))) /\ (~ ok u -> forall s, write a u s = Some (false, s)).

(** Each writer appends the encoding that the reader of the same character
    set accepts, and refuses every other value with the CBB unchanged; the length
    CBB_get_utf8_len announces is the number of bytes CBB_add_utf8 appends. *)
Lemma CBB_unicode_exact :
  writes_exactly CBB_add_utf8 code_point utf8 /\
  writes_exactly CBB_add_latin1 is_byte (fun u => [u]) /\
  writes_exactly CBB_add_ucs2_be (fun u => code_point u /\ u < 2 ^ 16) (be_bytes 2) /\
  writes_exactly CBB_add_utf32_be code_point (be_bytes 4) /\
  (forall u, CBB_get_utf8_len u = len (utf8 u)).
Proof.
  split_and!.
  - intros d a u Hu. split; [apply add_utf8_appends|]. intros Hn s. unfold CBB_add_utf8. cbv zeta.
    by rewrite (not_true_is_false _ (fun H => Hn (proj1 (valid_code_point_iff u ltac:(lia)) H))).
  - intros d a u Hu. unfold CBB_add_latin1, is_byte. destruct (Z.leb_spec u 0xff); (split; [|done || (intros; lia)]); intros; try lia.
    apply add_byte_appends; [by apply (wrap_small 8)|]. unfold is_byte. lia.
  - intros d a u Hu. unfold CBB_add_ucs2_be. split.
    + intros [Hc Hlt]. rewrite (proj2 (valid_code_point_iff u ltac:(lia)) Hc).
      destruct (Z.leb_spec u 0xffff); [|lia]. cbn [andb]. rewrite (wrap_small 16) by lia. apply add_uint_appends; lia.
    + intros Hn s. destruct (_ && _) eqn:E; [|done]. exfalso. apply Hn. apply andb_true_iff in E as [? E].
      apply valid_code_point_iff in E; [|lia]. split; [done | lia].
  - intros d a u Hu. unfold CBB_add_utf32_be. split.
    + intros Hc. rewrite (proj2 (valid_code_point_iff u ltac:(lia)) Hc). apply add_uint_appends; lia.
    + intros Hn s. by rewrite (not_true_is_false _ (fun H => Hn (proj1 (valid_code_point_iff u ltac:(lia)) H))).
  - intros u. unfold CBB_get_utf8_len, utf8. by repeat case_match.
Qed.

(** C36: readers and writers of characters are exact. For UTF-8 in its shortest form, Latin-1, UCS-2
    and UTF-32 the reader accepts exactly the encodings of the character set, never a surrogate or a
    noncharacter, and leaves exactly the bytes after the character; the writer appends that encoding
    and refuses every other value with the CBB unchanged. The length CBB_get_utf8_len announces is the
    number of bytes CBB_add_utf8 appends. *)
Theorem unicode_exact :
  (reads_exactly CBS_get_utf8 code_point utf8 /\ writes_exactly CBB_add_utf8 code_point utf8) /\
  (reads_exactly CBS_get_latin1 is_byte (fun u => [u]) /\ writes_exactly CBB_add_latin1 is_byte (fun u => [u])) /\
  (reads_exactly CBS_get_ucs2_be (fun u => code_point u /\ u < 2 ^ 16) (be_bytes 2) /\
   writes_exactly CBB_add_ucs2_be (fun u => code_point u /\ u < 2 ^ 16) (be_bytes 2)) /\
  (reads_exactly CBS_get_utf32_be code_point (be_bytes 4) /\ writes_exactly CBB_add_utf32_be code_point (be_bytes 4)) /\
  (forall u, CBB_get_utf8_len u = len (utf8 u)).
Proof.
  destruct CBS_unicode_exact as (R1 & R2 & R3 & R4). destruct CBB_unicode_exact as (W1 & W2 & W3 & W4 & L). split_and!; assumption.
Qed.
End Writing.
