(* ===== verification/Ber.v ===== *)
(** Converting BER to DER: crypto/bytestring/ber.cc. *)
From S2P Require Import Prelude.
From S2P Require Import Internal.
From S2P Require Import Cbs.
From S2P Require Import Asn1.
From S2P Require Import Cbb.
From S2P Require Import CbbSpec.
From S2P Require Import CbbAsn1.
From S2P Require Import CbbProofs.
From S2P Require Import CbbBuild.
From S2P Require Import CbbRoundtrip.
From stdpp Require Import gmap.

Open Scope Z_scope.

Definition kMaxDepth : Z := 128.

Definition CBS_ASN1_UTF8STRING : Z := 0xc.
Definition CBS_ASN1_NUMERICSTRING : Z := 0x12.
Definition CBS_ASN1_PRINTABLESTRING : Z := 0x13.
Definition CBS_ASN1_T61STRING : Z := 0x14.
Definition CBS_ASN1_VIDEOTEXSTRING : Z := 0x15.
Definition CBS_ASN1_IA5STRING : Z := 0x16.
Definition CBS_ASN1_GRAPHICSTRING : Z := 0x19.
Definition CBS_ASN1_VISIBLESTRING : Z := 0x1a.
Definition CBS_ASN1_GENERALSTRING : Z := 0x1b.
Definition CBS_ASN1_UNIVERSALSTRING : Z := 0x1c.
Definition CBS_ASN1_BMPSTRING : Z := 0x1e.

(** [tag & ~CBS_ASN1_CONSTRUCTED] and [tag & CBS_ASN1_CONSTRUCTED]. *)
Definition clear_constructed (tag : Z) : Z := Z.ldiff tag CBS_ASN1_CONSTRUCTED.
Definition is_constructed (tag : Z) : bool := negb (Z.land tag CBS_ASN1_CONSTRUCTED =? 0).

Definition is_string_type (tag : Z) : bool :=
  existsb (Z.eqb (clear_constructed tag))
    [CBS_ASN1_OCTETSTRING; CBS_ASN1_UTF8STRING; CBS_ASN1_NUMERICSTRING; CBS_ASN1_PRINTABLESTRING;
     CBS_ASN1_T61STRING; CBS_ASN1_VIDEOTEXSTRING; CBS_ASN1_IA5STRING; CBS_ASN1_GRAPHICSTRING;
     CBS_ASN1_VISIBLESTRING; CBS_ASN1_GENERALSTRING; CBS_ASN1_UNIVERSALSTRING; CBS_ASN1_BMPSTRING].

Section Ber.
Context `{P : Platform} `{A : Allocator}.

(** The walk over the elements of [in], at a given depth: [Some None] is an
    error, [Some (Some b)] success with [*ber_found] set to [b]; [None] is running
    out of fuel. *)
Fixpoint find_ber_loop (fuel : nat) (depth : Z) (inp : CBS) : option (option bool) :=
  match fuel with
  | O => None
  | S fuel =>
    if negb (0 <? len inp) then Some (Some false)
    else match CBS_get_any_ber_asn1_element inp with
    | (None, _) => Some None
    | (Some e, inp) =>
      if el_ber_found e then Some (Some true)
      else if is_constructed (el_tag e) then
        if is_string_type (el_tag e) then Some (Some true)
        else match CBS_skip (el_header_len e) (el_out e) with
        | (None, _) => Some None
        | (Some _, contents) =>
          match (if kMaxDepth <? depth + 1 then Some None else find_ber_loop fuel (depth + 1) contents) with
          | Some (Some false) => find_ber_loop fuel depth inp
          | r => r
          end
        end
      else find_ber_loop fuel depth inp
    end
  end.

Definition cbs_find_ber (orig_in : CBS) (depth : Z) : option (option bool) :=
  if kMaxDepth <? depth then Some None else find_ber_loop (S (length orig_in)) depth orig_in.

Definition cbs_get_eoc (cbs : CBS) : option CBS :=
  match cbs with 0 :: 0 :: rest => Some rest | _ => None end.

(** Steps that return a success flag and the rest of the input. *)
Definition keep_in (m : M bool) (inp : CBS) : M (bool * CBS) := ok ← m; mret (ok, inp).
Definition succeeded (m : M (bool * CBS)) : M bool := p ← m; mret p.1.
Definition then_in (m : M (bool * CBS)) (k : CBS -> M (bool * CBS)) : M (bool * CBS) :=
  p ← m; if negb p.1 then mret p else k p.2.

(** The loop of cbs_convert_ber. [out] is the CBB written to; the variable
    [out_contents_storage] is at [d], and deeper calls use the addresses after it. *)
Fixpoint convert_ber_loop (fuel : nat) (d out : addr) (string_tag : Z) (looking_for_eoc : bool)
    (depth : Z) (inp : CBS) : M (bool * CBS) :=
  match fuel with
  | O => undefined
  | S fuel =>
    if negb (0 <? len inp) then mret (negb looking_for_eoc, inp)
    else match (if looking_for_eoc then cbs_get_eoc inp else None) with
    | Some inp => mret (true, inp)
    | None =>
      match CBS_get_any_ber_asn1_element inp with
      | (None, inp) => mret (false, inp)
      | (Some e, inp) =>
        let tag := el_tag e in
        if negb (string_tag =? 0) && negb (clear_constructed tag =? string_tag) then mret (false, inp)
        else
          let flatten := is_constructed tag && is_string_type tag in
          let out_tag := if flatten then clear_constructed tag else tag in
          let child_string_tag :=
            if negb (string_tag =? 0) then string_tag else if flatten then out_tag else string_tag in
          let out_contents := if negb (string_tag =? 0) then out else d in
          let recurse eoc inp :=
            if kMaxDepth <? depth + 1 then mret (false, inp)
            else convert_ber_loop fuel (S d) out_contents child_string_tag eoc (depth + 1) inp in
          let body :=
            if el_indefinite e then then_in (recurse true inp) (keep_in (CBB_flush out))
            else match CBS_skip (el_header_len e) (el_out e) with
                 | (None, _) => mret (false, inp)
                 | (Some _, contents) =>
                   then_in
                     (if is_constructed tag then keep_in (succeeded (recurse false contents)) inp
                      else keep_in (CBB_add_bytes out_contents contents) inp)
                     (keep_in (CBB_flush out))
                 end in
          let start := if negb (string_tag =? 0) then mret true else CBB_add_asn1 out d out_tag in
          then_in (with_local d (then_in (keep_in start inp) (fun _ => body)))
            (convert_ber_loop fuel d out string_tag looking_for_eoc depth)
      end
    end
  end.

Definition cbs_convert_ber (d out : addr) (string_tag : Z) (looking_for_eoc : bool) (depth : Z) (inp : CBS)
    : M (bool * CBS) :=
  if kMaxDepth <? depth then mret (false, inp)
  else convert_ber_loop (S (length inp)) d out string_tag looking_for_eoc depth inp.

(** The result: [*out] and [*out_storage] ([None]: a null pointer) on success,
    with the rest of [in]. The CBB is at [loc]. *)
Definition CBS_asn1_ber_to_der (loc : addr) (inp : CBS) : M (option (CBS * option (list Z)) * CBS) :=
  match cbs_find_ber inp 0 with
  | None => undefined
  | Some None => mret (None, inp)
  | Some (Some false) =>
    match CBS_get_any_asn1_element inp with
    | (None, inp) => mret (None, inp)
    | (Some (out, _, _), inp) => mret (Some (out, None), inp)
    end
  | Some (Some true) =>
    with_local loc
      (p ← then_in (keep_in (CBB_init loc (len inp)) inp) (cbs_convert_ber (S loc) loc 0 false 0);
       if negb p.1 then CBB_cleanup loc;; mret (None, p.2)
       else o ← CBB_finish loc true true;
            match o with
            | None => CBB_cleanup loc;; mret (None, p.2)
            | Some (out_storage, n) => mret (Some (ztake n out_storage, Some out_storage), p.2)
            end)
  end.

(** The loop over the chunks of a constructed string. *)
Fixpoint implicit_string_loop (fuel : nat) (result : addr) (inner_tag : Z) (child : CBS) : M bool :=
  match fuel with
  | O => undefined
  | S fuel =>
    if negb (0 <? len child) then mret true
    else match CBS_get_asn1 inner_tag child with
    | (None, _) => mret false
    | (Some chunk, child) =>
      andthen (CBB_add_bytes result chunk) (implicit_string_loop fuel result inner_tag child)
    end
  end.

Definition CBS_get_asn1_implicit_string (loc : addr) (outer_tag inner_tag : Z) (inp : CBS)
    : M (option (CBS * option (list Z)) * CBS) :=
  if CBS_peek_asn1_tag inp outer_tag then
    match CBS_get_asn1 outer_tag inp with
    | (None, inp) => mret (None, inp)
    | (Some out, inp) => mret (Some (out, None), inp)
    end
  else
    with_local loc
      (p ← then_in (keep_in (CBB_init loc (len inp)) inp)
             (fun inp => match CBS_get_asn1 (Z.lor outer_tag CBS_ASN1_CONSTRUCTED) inp with
              | (None, inp) => mret (false, inp)
              | (Some child, inp) => keep_in (implicit_string_loop (S (length child)) loc inner_tag child) inp
              end);
       if negb p.1 then CBB_cleanup loc;; mret (None, p.2)
       else o ← CBB_finish loc true true;
            match o with
            | None => CBB_cleanup loc;; mret (None, p.2)
            | Some (data, n) => mret (Some (ztake n data, Some data), p.2)
            end).
End Ber.
