(* ===== verification/BerSpec.v ===== *)
(** What BER and DER are: grammars of the inputs ber.cc converts and of the
    outputs it produces, and the reader of BER elements against them. *)
From S2P Require Import Prelude.
From S2P Require Import Internal.
From S2P Require Import Cbs.
From S2P Require Import Asn1.
From S2P Require Import Cbb.
From S2P Require Import CbbAsn1.
From S2P Require Import CbbRoundtrip.
From S2P Require Import Ber.

Open Scope Z_scope.

(** Length octets of BER: short, or long with one to four octets, not
    necessarily minimal. *)
Definition ber_length (n : Z) (l : list Z) : Prop :=
  (n < 128 /\ l = [n]) \/
  exists k, bytes k /\ 1 <= len k <= 4 /\ be_val k = n /\ l = (128 + len k) :: k.

(** Whether an element may occur inside a constructed string of type [st] (0:
    outside any), the string type its contents are in, and what is written for
    it once its contents are converted to [body]. *)
Definition admits (st t : Z) : Prop := st = 0 \/ clear_constructed t = st.
Definition flattened (t : Z) : bool := is_constructed t && is_string_type t.
Definition inner_type (st t : Z) : Z :=
  if negb (st =? 0) then st else if flattened t then clear_constructed t else 0.
Definition emit (st t : Z) (body : list Z) : list Z :=
  if negb (st =? 0) then body else der (if flattened t then clear_constructed t else t) body.
Definition encodable (st : Z) (body : list Z) : Prop := st = 0 -> len body <= 0xfffffffe.

(** [ber n st l w]: [l] is a sequence of BER elements nested at most [n] deep,
    inside a constructed string of type [st] if that is not 0, and [w] is its
    DER encoding, with constructed strings flattened. *)
Inductive ber : nat -> Z -> list Z -> list Z -> Prop :=
| ber_nil n st : ber n st [] []
| ber_primitive n st t h body l w :
    valid_tag t -> is_constructed t = false -> admits st t -> encodable st body ->
    ber_length (len body) h -> ber n st l w ->
    ber n st (der_tag t ++ h ++ body ++ l) (emit st t body ++ w)
| ber_constructed n st t h inner body l w :
    valid_tag t -> is_constructed t = true -> admits st t -> encodable st body ->
    ber_length (len inner) h -> ber n (inner_type st t) inner body -> ber (S n) st l w ->
    ber (S n) st (der_tag t ++ h ++ inner ++ l) (emit st t body ++ w)
| ber_indefinite n st t inner body l w :
    valid_tag t -> is_constructed t = true -> admits st t -> encodable st body ->
    ber n (inner_type st t) inner body -> ber (S n) st l w ->
    ber (S n) st (der_tag t ++ [128] ++ inner ++ [0; 0] ++ l) (emit st t body ++ w).

(** [der_forest n l]: [l] is a sequence of DER elements nested at most [n] deep,
    without constructed strings. *)
Inductive der_forest : nat -> list Z -> Prop :=
| der_nil n : der_forest n []
| der_primitive n t body l :
    valid_tag t -> is_constructed t = false -> len body < 2 ^ 32 -> der_forest n l ->
    der_forest n (der t body ++ l)
| der_constructed n t body l :
    valid_tag t -> is_constructed t = true -> is_string_type t = false -> len body < 2 ^ 32 ->
    der_forest n body -> der_forest (S n) l -> der_forest (S n) (der t body ++ l).

(** * The reader of BER elements *)
Section Reader.
Context `{P : Platform}.

Lemma ber_length_pos n l : ber_length n l -> 1 <= len l <= 5.
Proof. intros [[_ ->]|(k & _ & ? & _ & ->)]; rewrite len_cons; [change (@len Z []) with 0|]; lia. Qed.

Lemma ber_length_der n : 0 <= n < 2 ^ 32 -> ber_length n (der_length n).
Proof.
  intros Hn. unfold ber_length. destruct (Z.lt_ge_cases n 128).
  - left. split; [done|]. unfold der_length. zcases; [done | lia].
  - right. destruct (der_length_long_inv n) as (l & ? & ? & ? & _ & ->); [lia|]. by exists l.
Qed.

Definition definite (t : Z) (h body : list Z) (b : bool) : element :=
  mk_element (der_tag t ++ h ++ body) t (len (der_tag t) + len h) b false.
Definition indefinite (t : Z) : element :=
  mk_element (der_tag t ++ [128]) t (len (der_tag t) + 1) true true.

Lemma ber_element_sound cbs e r : bytes cbs -> len cbs <= size_max ->
  CBS_get_any_ber_asn1_element cbs = (Some e, r) ->
  exists t, valid_tag t /\
    ((exists h body b, e = definite t h body b /\ cbs = der_tag t ++ h ++ body ++ r /\ ber_length (len body) h) \/
     (e = indefinite t /\ cbs = der_tag t ++ [128] ++ r /\ is_constructed t = true)).
Proof.
  intros Hb Hlen H. unfold CBS_get_any_ber_asn1_element in H.
  destruct (any_element_inv _ _ _ _ Hb H) as (t & lb & h & Hc & Ht). exists t. split; [done|].
  rewrite (any_element_tag _ _ t lb h) in H by done. cbn [andb negb] in H. cbv zeta in H.
  assert (Hb' := Hb). rewrite Hc in Hb'. apply bytes_app in Hb' as [_ Hb'].
  apply bytes_cons in Hb' as [Hlb Hh]. unfold is_byte in Hlb. unfold definite, indefinite.
  destruct (Z.ltb_spec lb 128).
  { left. rewrite Hc in H. replace (der_tag t ++ lb :: h) with ((der_tag t ++ [lb]) ++ h) in H by (by rewrite <- app_assoc).
    apply (get_element_iff _ _ _ lb) in H as (body & -> & -> & <-); [|lia|zlia]. exists [len body], body, false.
    rewrite <- !app_assoc. split_and!; [done | done | by left]. }
  destruct (negb _ && (lb - 128 =? 0)) eqn:Hi.
  { right. apply andb_true_iff in Hi as [Hi Hk]. assert (lb = 128) as -> by lia.
    rewrite Hc in H. replace (der_tag t ++ 128 :: h) with ((der_tag t ++ [128]) ++ h) in H by (by rewrite <- app_assoc).
    apply (get_element_iff _ _ _ 0) in H as (body & -> & -> & ?); [|lia|zlia].
    destruct body; [|zlia]. rewrite app_nil_r. done. }
  destruct (_ || (len h <? lb - 128)) eqn:Hk; [done|].
  destruct (_ || (size_max <? _)) eqn:Hm; [done|].
  assert (Hk' : 1 <= lb - 128 <= 4 /\ lb - 128 <= len h) by lia.
  set (l := ztake (lb - 128) h) in *. assert (Hll : len l = lb - 128) by (apply len_ztake; lia).
  assert (Hbl : bytes l) by (by apply bytes_ztake).
  assert (Hh' : der_tag t ++ lb :: h = (der_tag t ++ lb :: l) ++ zdrop (lb - 128) h).
  { rewrite <- app_assoc. cbn [app]. subst l. by rewrite ztake_zdrop. }
  rewrite Hc, Hh' in H. pose proof (be_val_range l Hbl).
  apply (get_element_iff _ _ _ (be_val l)) in H as (body & -> & Hz & Hbody); [|lia|zlia].
  left. exists (lb :: l), body. eexists. rewrite Hc, Hh', Hz, <- !app_assoc. cbn [app].
  split_and!; [f_equal; zlia | done |]. right. exists l. split_and!; try done; [lia..|]. f_equal. lia.
Qed.

Lemma ber_definite_complete t h body r :
  bytes (der_tag t ++ h ++ body ++ r) -> len (der_tag t ++ h ++ body ++ r) <= size_max -> valid_tag t ->
  ber_length (len body) h ->
  exists b, CBS_get_any_ber_asn1_element (der_tag t ++ h ++ body ++ r) = (Some (definite t h body b), r).
Proof.
  intros Hb Hl Ht Hh. unfold CBS_get_any_ber_asn1_element, definite.
  destruct Hh as [[Hs ->]|(l & Hbl & Hk & Hv & ->)].
  - exists false. cbn [app] in *. rewrite (any_element_tag _ _ t (len body) (body ++ r)) by done. cbv zeta.
    destruct (Z.ltb_spec (len body) 128); [|lia].
    replace (der_tag t ++ len body :: body ++ r) with ((der_tag t ++ [len body]) ++ body ++ r) by (by rewrite <- app_assoc).
    apply (get_element_iff _ _ _ (len body)); [zlia | zlia |]. exists body. rewrite <- app_assoc. by split_and!.
  - eexists. cbn [app] in *. rewrite (any_element_tag _ _ t (128 + len l) (l ++ body ++ r)) by done. cbv zeta. cbn [andb negb].
    destruct (Z.ltb_spec (128 + len l) 128); [lia|].
    replace (128 + len l - 128) with (len l) by lia. rewrite ztake_app_len, Hv.
    destruct (negb _ && (len l =? 0)) eqn:Hz; [lia|].
    destruct ((len l =? 0) || (4 <? len l) || _) eqn:Hg; [zlia|].
    rewrite andb_false_r. cbn [orb].
    destruct (Z.ltb_spec size_max (len body + (len (der_tag t) + 1) + len l)); [zlia|].
    replace (der_tag t ++ 128 + len l :: l ++ body ++ r) with ((der_tag t ++ (128 + len l) :: l) ++ body ++ r)
      by (by rewrite <- app_assoc).
    apply (get_element_iff _ _ _ (len body)); [zlia | zlia |]. exists body. rewrite <- app_assoc.
    split_and!; [f_equal; zlia | done | done].
Qed.

Lemma ber_indefinite_complete t r :
  bytes (der_tag t ++ [128] ++ r) -> len (der_tag t ++ [128] ++ r) <= size_max -> valid_tag t ->
  is_constructed t = true ->
  CBS_get_any_ber_asn1_element (der_tag t ++ [128] ++ r) = (Some (indefinite t), r).
Proof.
  intros Hb Hl Ht Hc. unfold CBS_get_any_ber_asn1_element, indefinite. cbn [app] in *.
  rewrite (any_element_tag _ _ t 128 r) by done. cbv zeta. unfold is_constructed in Hc. rewrite Hc. cbn [andb negb].
  change (128 <? 128) with false. change (128 - 128 =? 0) with true. cbv iota.
  replace (der_tag t ++ 128 :: r) with ((der_tag t ++ [128]) ++ r) by (by rewrite <- app_assoc).
  apply (get_element_iff _ _ _ 0); [lia | zlia |]. exists []. rewrite app_nil_r. by split_and!.
Qed.
End Reader.
