(* ===== verification/BerProofs.v ===== *)
(** The conversion of ber.cc produces the DER encoding of the BER it reads. *)
From S2P Require Import Prelude.
From S2P Require Import Internal.
From S2P Require Import Cbs.
From S2P Require Import Asn1.
From S2P Require Import Cbb.
From S2P Require Import CbbSpec.
From S2P Require Import CbbAsn1.
From S2P Require Import CbbProofs.
From S2P Require Import CbbBuild.
From S2P Require Import CbbRoundtrip.
From S2P Require Import Ber.
From S2P Require Import BerSpec.
From stdpp Require Import gmap.

Open Scope Z_scope.

(** * The conversion as a function of the input *)
Section Transcode.
Context `{P : Platform}.

(** The DER encoding of what the loop reads and the rest of the input; [n] is the
    depth still allowed. [None]: the input is not accepted. *)
Fixpoint transcode (fuel : nat) (n : nat) (st : Z) (eoc : bool) (inp : CBS) : option (list Z * CBS) :=
  match fuel with
  | O => None
  | S fuel =>
    if len inp =? 0 then if eoc then None else Some ([], inp)
    else match (if eoc then cbs_get_eoc inp else None) with
    | Some inp => Some ([], inp)
    | None =>
      match CBS_get_any_ber_asn1_element inp with
      | (None, _) => None
      | (Some e, inp) =>
        let t := el_tag e in
        if negb (st =? 0) && negb (clear_constructed t =? st) then None
        else
          let inner eoc inp := match n with O => None | S n => transcode fuel n (inner_type st t) eoc inp end in
          let contents := zdrop (el_header_len e) (el_out e) in
          '(body, inp) ← (if el_indefinite e then inner true inp
            else if is_constructed t then '(body, _) ← inner false contents; Some (body, inp)
            else Some (contents, inp));
          if negb (st =? 0) || (len body <=? 0xfffffffe) then
            '(w, rest) ← transcode fuel n st eoc inp; Some (emit st t body ++ w, rest)
          else None
      end
    end
  end.

Lemma skip_definite t h body b :
  CBS_skip (el_header_len (definite t h body b)) (el_out (definite t h body b)) = (Some tt, body).
Proof. unfold CBS_skip, rd_bind, definite. cbn. rewrite app_assoc, cbs_get_app by zlia. done. Qed.
Lemma drop_definite t h body b :
  zdrop (el_header_len (definite t h body b)) (el_out (definite t h body b)) = body.
Proof. unfold definite. cbn. rewrite app_assoc. replace (_ + _) with (len (der_tag t ++ h)) by zlia. apply zdrop_app_len. Qed.

Lemma admits_dec st t : negb (st =? 0) && negb (clear_constructed t =? st) = false <-> admits st t.
Proof. unfold admits. lia. Qed.

Definition tail (eoc : bool) (rest : CBS) : CBS := if eoc then 0 :: 0 :: rest else rest.

Lemma transcode_sound fuel n st eoc inp w rest : bytes inp -> len inp <= size_max ->
  transcode fuel n st eoc inp = Some (w, rest) ->
  exists l, inp = l ++ tail eoc rest /\ (eoc = false -> rest = []) /\ ber n st l w.
Proof.
  revert n st eoc inp w rest. induction fuel as [|fuel IH]; intros n st eoc inp w rest Hb Hl H; [done|].
  cbn [transcode] in H. destruct (Z.eqb_spec (len inp) 0) as [H0|H0].
  { destruct eoc; [done|]. injection H as <- <-. exists []. apply len_0_nil in H0 as ->.
    split_and!; [done | done | constructor]. }
  destruct (if eoc then cbs_get_eoc inp else None) as [inp'|] eqn:Ee.
  { destruct eoc; [|done]. injection H as <- <-. exists []. split_and!; [|done | constructor].
    unfold cbs_get_eoc in Ee. repeat case_match; simplify_eq; done. }
  clear Ee. destruct (CBS_get_any_ber_asn1_element inp) as [[e|] inp'] eqn:E; [|done].
  apply ber_element_sound in E as (t & Ht & Hcase); [|done..].
  assert (Hbl : bytes inp' /\ len inp' <= size_max).
  { destruct Hcase as [(h & body & b & -> & -> & Hh) | (-> & -> & Hcons)]; rewrite !bytes_app in Hb; rewrite !len_app in Hl;
      zlen_facts; (split; [tauto | lia]). }
  destruct Hbl as [Hb' Hl'].
  assert (Hend : forall pre body inp2, inp = pre ++ inp2 -> bytes inp2 -> len inp2 <= size_max ->
    (if negb (st =? 0) || (len body <=? 0xfffffffe) then
      '(w, rest) ← transcode fuel n st eoc inp2; Some (emit st t body ++ w, rest) else None) = Some (w, rest) ->
    exists l w', inp = pre ++ l ++ tail eoc rest /\ (eoc = false -> rest = []) /\ ber n st l w' /\
      w = emit st t body ++ w' /\ encodable st body).
  { intros pre body inp2 -> Hb2 Hl2 H'. destruct (negb (st =? 0) || _) eqn:Henc; [|done].
    destruct (transcode fuel n st eoc inp2) as [[w' rest']|] eqn:Et; [|done]. cbn in H'. injection H' as <- <-.
    apply IH in Et as (l & -> & ? & ?); [|done..]. exists l, w'. split_and!; try done. unfold encodable. lia. }
  destruct Hcase as [(h & body & b & -> & -> & Hh) | (-> & -> & Hcons)].
  - rewrite drop_definite in H. cbn [definite el_tag el_indefinite] in H.
    destruct (negb (st =? 0) && _) eqn:Hadm; [done|]. apply admits_dec in Hadm.
    destruct (is_constructed t) eqn:Hc.
    + destruct n as [|n]; [done|].
      destruct (transcode fuel n (inner_type st t) false body) as [[w1 r1]|] eqn:E1; [|done]. cbn in H.
      apply IH in E1 as (l1 & E1 & Hr1 & Hber); [| by rewrite !bytes_app in Hb; tauto | rewrite !len_app in Hl; zlen_facts; lia].
      rewrite (Hr1 eq_refl) in E1. cbn [tail] in E1. rewrite app_nil_r in E1. subst l1.
      apply (Hend (der_tag t ++ h ++ body)) in H as (l & w' & Hi & Hr & Hbl & -> & Henc); [|by rewrite <- !app_assoc|done..].
      exists (der_tag t ++ h ++ body ++ l). rewrite <- !app_assoc in Hi. rewrite <- !app_assoc. split_and!; [done..|].
      by constructor.
    + cbn in H. apply (Hend (der_tag t ++ h ++ body)) in H as (l & w' & Hi & Hr & Hbl & -> & Henc); [|by rewrite <- !app_assoc|done..].
      exists (der_tag t ++ h ++ body ++ l). rewrite <- !app_assoc in Hi. rewrite <- !app_assoc. split_and!; [done..|].
      by constructor.
  - cbn [indefinite el_tag el_indefinite] in H.
    destruct (negb (st =? 0) && _) eqn:Hadm; [done|]. apply admits_dec in Hadm. destruct n as [|n]; [done|].
    destruct (transcode fuel n (inner_type st t) true inp') as [[w1 r1]|] eqn:E1; [|done]. cbn in H.
    apply IH in E1 as (l1 & -> & _ & Hber); [|done..]. cbn [tail] in *.
    apply (Hend (der_tag t ++ [128] ++ l1 ++ [0; 0])) in H as (l & w' & Hi & Hr & Hbl & -> & Henc).
    2:{ by rewrite <- !app_assoc. } 2:{ rewrite bytes_app in Hb'. apply proj2, bytes_cons, proj2, bytes_cons in Hb'. tauto. }
    2:{ rewrite len_app, !len_cons in Hl'. zlen_facts; lia. }
    exists (der_tag t ++ [128] ++ l1 ++ [0; 0] ++ l). rewrite <- !app_assoc in Hi. rewrite <- !app_assoc. split_and!; [done..|].
    by constructor.
Qed.

(** An identifier is not the start of an end-of-contents marker. *)
Lemma der_tag_no_eoc t l : valid_tag t -> cbs_get_eoc (der_tag t ++ l) = None.
Proof.
  intros (Ht & H0 & _). unfold der_tag. cbv zeta. pose proof (Z.mod_pos_bound t (2 ^ 29) ltac:(lia)).
  assert (0 <= t / 2 ^ 29) by (apply Z.div_pos; lia).
  destruct (Z.ltb_spec (t mod 2 ^ 29) 31); cbn [app];
    (destruct (32 * (t / 2 ^ 29) + _) eqn:E; [exfalso; Z.div_mod_to_equations; lia | done | done]).
Qed.
Lemma no_eoc eoc t l : valid_tag t -> (if eoc : bool then cbs_get_eoc (der_tag t ++ l) else None) = None.
Proof. intros. destruct eoc; [by apply der_tag_no_eoc | done]. Qed.
Lemma len_der_tag_app t l : (len (der_tag t ++ l) =? 0) = false.
Proof. rewrite len_app. pose proof (len_der_tag t). zlen_facts. lia. Qed.

Lemma transcode_complete n st l w : ber n st l w -> forall fuel eoc rest, (eoc = false -> rest = []) ->
  (length (l ++ tail eoc rest) < fuel)%nat -> bytes (l ++ tail eoc rest) -> len (l ++ tail eoc rest) <= size_max ->
  transcode fuel n st eoc (l ++ tail eoc rest) = Some (w, rest).
Proof.
  induction 1 as [n st | n st t h body l w Ht Hc Hadm Henc Hh Hber IH
    | n st t h inner body l w Ht Hc Hadm Henc Hh Hin IHin Hber IH
    | n st t inner body l w Ht Hc Hadm Henc Hin IHin Hber IH];
    intros fuel eoc rest Hr Hf Hb Hl; (destruct fuel as [|fuel]; [lia|]).
  { cbn [app transcode]. destruct eoc; cbn [tail]; [|by rewrite (Hr eq_refl)].
    destruct (Z.eqb_spec (len (0 :: 0 :: rest)) 0) as [E|]; [zlia | done]. }
  all: assert (Henc' : negb (st =? 0) || (len body <=? 0xfffffffe) = true) by (unfold encodable in Henc; lia).
  all: rewrite <- !app_assoc in *; cbn [transcode]; rewrite len_der_tag_app, no_eoc by done.
  - destruct (ber_definite_complete t h body (l ++ tail eoc rest)) as [b E]; [done..|]. rewrite E, drop_definite.
    cbn [definite el_tag el_indefinite]. rewrite (proj2 (admits_dec st t) Hadm), Hc. cbn [mbind option_bind]. rewrite Henc'.
    rewrite IH; [done | done | | by rewrite !bytes_app in *; tauto | rewrite !len_app in *; zlen_facts; lia].
    rewrite !length_app in *. pose proof (len_der_tag t). unfold len in *. lia.
  - destruct (ber_definite_complete t h inner (l ++ tail eoc rest)) as [b E]; [done..|]. rewrite E, drop_definite.
    cbn [definite el_tag el_indefinite]. rewrite (proj2 (admits_dec st t) Hadm), Hc.
    specialize (IHin fuel false []). cbn [tail] in IHin. rewrite app_nil_r in IHin.
    rewrite !length_app in Hf. pose proof (len_der_tag t). unfold len in H. rewrite !bytes_app in Hb. rewrite !len_app in Hl.
    rewrite IHin; [|done | lia | tauto | zlen_facts; lia]. cbn [mbind option_bind]. rewrite Henc'.
    rewrite IH; [done | done | rewrite !length_app; lia | rewrite bytes_app; tauto | rewrite len_app; zlen_facts; lia].
  - rewrite (ber_indefinite_complete t (inner ++ [0; 0] ++ l ++ tail eoc rest)) by done.
    cbn [indefinite el_tag el_indefinite]. rewrite (proj2 (admits_dec st t) Hadm).
    specialize (IHin fuel true (l ++ tail eoc rest)). cbn [tail] in IHin. cbn [app] in Hf, Hb, Hl |- *.
    rewrite !length_app in Hf. cbn [length] in Hf. rewrite !length_app in Hf. cbn [length] in Hf.
    rewrite bytes_app, bytes_cons in Hb. destruct Hb as (_ & _ & Hb). rewrite len_app, len_cons in Hl.
    pose proof (len_nonneg (der_tag t)).
    rewrite IHin; [|done | rewrite !length_app; cbn [length]; lia | done | lia].
    cbn [mbind option_bind]. rewrite Henc'. apply bytes_app, proj2, bytes_cons, proj2, bytes_cons, proj2 in Hb.
    rewrite IH; [done | done | lia | done |]. rewrite len_app, !len_cons in Hl. zlen_facts. lia.
Qed.
End Transcode.

(** * The conversion on a CBB *)
Section Convert.
Context `{P : Platform} `{A : Allocator}.

(** After a failure the CBB can still be cleaned up. *)
Definition alive (d : addr) (s : store) (r a : addr) (c : cbb_st) (s' : store) : Prop :=
  is_Some (bases s' !! r) /\ (forall x, (x < d)%nat -> x <> a -> heads s' !! x = heads s !! x) /\
  exists q, heads s' !! a = Some (mk_cbb q (is_child c)).
Definition fails (d a : addr) (m : M (bool * CBS)) : Prop :=
  forall s r pre b c, opened d s r a c [] pre [] b ->
  exists p s', m s = Some ((false, p), s') /\ alive d s r a c s'.

(** [m] appends the first component of [o] and leaves the second as the rest of
    the input; or fails if there is none. *)
Definition conv (d a : addr) (m : M (bool * CBS)) (o : option (list Z * CBS)) : Prop :=
  (forall s p s' w q, m s = Some ((true, p), s') -> o = Some (w, q) -> p = q) /\
  match o with
  | Some (w, _) => appends_flushed d a (succeeded m) (Some w)
  | None => fails d a m
  end.

Lemma alive_refl d s r a c pre b : opened d s r a c [] pre [] b -> alive d s r a c s.
Proof.
  intros (_ & Ha & _ & _ & _ & Hb & _). split_and!; [by eexists | done |]. exists (child c). rewrite Ha. by destruct c.
Qed.
Lemma appended_alive d s r a c pre b w ok s' :
  appended d s r a c [] pre [] b w ok s' -> alive d s r a c s'.
Proof.
  intros (b' & Hb & _ & Hy & H). split_and!; [by eexists | intros x ? ?; apply Hy; [done|]; by rewrite list_elem_of_singleton |].
  destruct ok; [exists None; apply H | apply H].
Qed.
Lemma alive_trans d s r a c s1 s2 : alive d s r a c s1 -> alive d s1 r a (mk_cbb None (is_child c)) s2 -> alive d s r a c s2.
Proof. intros (_ & H1 & _) (Hb & H2 & H3). split_and!; [done | intros; rewrite H2, H1; done | done]. Qed.

Lemma conv_fail d a p : conv d a (mret (false, p)) None.
Proof.
  split; [done|]. intros s r pre b c Ho. exists p, s. split; [done | by eapply alive_refl].
Qed.
Lemma conv_done d a p : conv d a (mret (true, p)) (Some ([], p)).
Proof.
  split; [by intros s p' s' w q [= <- <-] [= <- <-]|]. apply (appends_nil d a).
Qed.

Lemma succeeded_keep m p s : succeeded (keep_in m p) s = m s.
Proof. unfold succeeded, keep_in, mbind, M_bind. by destruct (m s) as [[? ?]|]. Qed.
Lemma keep_in_true m p s x s' : keep_in m p s = Some ((true, x), s') -> x = p /\ m s = Some (true, s').
Proof. unfold keep_in, mbind, M_bind. destruct (m s) as [[ok s1]|]; [|done]. intros [= -> <- <-]. done. Qed.

Lemma conv_keep d a m w q : appends_flushed d a m (Some w) -> conv d a (keep_in m q) (Some (w, q)).
Proof.
  intros H. split.
  - intros s p s' w' q' [-> _]%keep_in_true [= <- <-]. done.
  - eapply appends_flushed_ext, H. intros s. by rewrite succeeded_keep.
Qed.
Lemma conv_contents d a m o q : conv d a m o ->
  conv d a (keep_in (succeeded m) q) ('(w, _) ← o; Some (w, q)).
Proof.
  intros [H1 H2]. destruct o as [[w r]|]; cbn; [by apply conv_keep|]. split; [done|].
  intros s r pre b c Ho. destruct (H2 s r pre b c Ho) as (p & s' & E & Ha). exists q, s'. split; [|done].
  unfold keep_in, succeeded, mbind, M_bind. by rewrite E.
Qed.

Lemma opened_S d s r a c l pre fs b : opened d s r a c l pre fs b -> opened (S d) s r a c l pre fs b.
Proof.
  intros (? & ? & ? & ? & ? & ? & ? & Hr & Hd). unfold opened. split_and!; try done; [lia|].
  eapply Forall_impl; [apply Hd|]. cbn. lia.
Qed.
Lemma opened_lt d s r a c l pre fs b : opened d s r a c l pre fs b -> (r < d)%nat /\ (a < d)%nat.
Proof. intros (_ & _ & _ & _ & _ & _ & _ & Hr & Hd). by apply Forall_cons_iff in Hd as [Hd _]. Qed.
Lemma appended_S d s r a c l pre fs b w ok s' :
  appended (S d) s r a c l pre fs b w ok s' -> appended d s r a c l pre fs b w ok s'.
Proof.
  intros (b' & Hb & Hx & Hy & H). exists b'. split_and!; [done | intros; apply Hx; [lia | done] | intros; apply Hy; [lia | done] | done].
Qed.
Lemma appends_flushed_S d a m w : appends_flushed (S d) a m w -> appends_flushed d a m w.
Proof.
  intros H s r pre b c Ho%opened_S. destruct (H s r pre b c Ho) as (ok & s' & E & Hap%appended_S). by exists ok, s'.
Qed.

(** Adding an element, on its own: its contents can be written, or it fails. *)
Lemma add_asn1_opens d s r a c pre b t : 0 <= t < 2 ^ 32 -> opened d s r a c [] pre [] b ->
  exists (ok : bool) s', CBB_add_asn1 a d t s = Some (ok, s') /\ alive d s r a c s' /\
    (ok = true -> exists c' pre' b', opened (S d) s' r d c' [] pre' [] b').
Proof.
  intros Ht Ho. destruct (tag_octet t Ht) as [E1 E2].
  assert (H : appends d a (andthen (CBB_flush a) (add_tag a t)) (Some (der_tag t))).
  { apply (appends_seq d a _ _ (Some []) (Some _)); [apply flush_appends | by apply add_tag_appends]. }
  destruct (H s r [] pre [] b c Ho) as (ok & s1 & E & Hap).
  assert (Heq : CBB_add_asn1 a d t s = andthen (andthen (CBB_flush a) (add_tag a t)) (cbb_add_child a d 1 true) s).
  { unfold CBB_add_asn1. cbv zeta. rewrite E1, E2. fold (add_tag a t). by rewrite andthen_assoc. }
  rewrite Heq. unfold andthen at 1. run E. destruct ok; cbn [negb].
  2:{ exists false, s1. split; [done|]. split; [by eapply appended_alive | done]. }
  pose proof (appended_alive _ _ _ _ _ _ _ _ _ _ Hap) as Hal.
  destruct (appended_opened _ _ _ _ _ _ _ _ _ _ _ Ho Hap) as (out & w' & b1 & _ & _ & _ & Ho1).
  destruct (add_child_spec d s1 r a _ _ b1 Asn1 Ho1 I) as (ok & s2 & b2 & E3 & Hb2 & Hx2 & Hy2 & H2).
  exists ok, s2. split; [done|]. split.
  - eapply alive_trans; [done|]. split_and!; [by eexists | done |].
    destruct ok; [eexists; apply H2 | exists None; apply H2].
  - intros ->. destruct H2 as [_ H2]. do 3 eexists. by eapply enter_child.
Qed.

(** One element: [start] opens it at [oc], [inner] writes its contents. *)
Definition one_element (d a : addr) (start : M bool) (inp : CBS) (inner : M (bool * CBS)) : M (bool * CBS) :=
  with_local d (then_in (keep_in start inp) (fun _ => then_in inner (keep_in (CBB_flush a)))).

Lemma one_element_succeeded d a start inp inner s :
  succeeded (one_element d a start inp inner) s = with_local d (andthen start (andthen (succeeded inner) (CBB_flush a))) s.
Proof.
  unfold one_element. generalize (CBB_flush a) as fl. intros fl.
  unfold succeeded, with_local, then_in, keep_in, andthen, mbind, M_bind, mret, M_ret.
  destruct (start s) as [[[] s1]|]; [|done..]. cbn. destruct (inner s1) as [[[[] p] s2]|]; [|done..]. cbn.
  by destruct (fl s2) as [[[] s3]|].
Qed.
Lemma one_element_true d a start inp inner s p s' : one_element d a start inp inner s = Some ((true, p), s') ->
  exists s1 s2, inner s1 = Some ((true, p), s2).
Proof.
  unfold one_element. generalize (CBB_flush a) as fl. intros fl.
  unfold with_local, then_in, keep_in, mbind, M_bind, mret, M_ret.
  destruct (start s) as [[[] s1]|]; [|done..]. cbn. destruct (inner s1) as [[[[] q] s2]|] eqn:E; [|done..]. cbn.
  destruct (fl s2) as [[[] s3]|]; [|done..]. intros [= <- _]. by exists s1, s2.
Qed.

Lemma then_in_ext d a m k w q : (forall s p s', m s = Some ((true, p), s') -> p = q) ->
  appends_flushed d a (succeeded m) (Some w) -> forall o, conv d a (k q) o ->
  conv d a (then_in m k) ('(w2, rest) ← o; Some (w ++ w2, rest)).
Proof.
  intros Hq Hm o [Hk1 Hk2]. split.
  - intros s p s' w' q' H Ho. destruct o as [[w2 rest]|]; [|done]. cbn in Ho. injection Ho as <- <-.
    unfold then_in, mbind, M_bind in H. destruct (m s) as [[[[] p1] s1]|] eqn:E; [|done..].
    apply Hq in E as ->. by eapply Hk1.
  - destruct o as [[w2 rest]|]; cbn.
    + eapply appends_flushed_ext; [|apply (appends_flushed_seq d a _ _ (Some w) (Some w2) Hm Hk2)].
      intros s. unfold then_in, andthen, succeeded, mbind, M_bind, mret, M_ret.
      destruct (m s) as [[[[] p] s1]|] eqn:E; [|done..]. by apply Hq in E as ->.
    + intros s r pre b c Ho. destruct (Hm s r pre b c Ho) as (ok & s1 & E & Hap).
      unfold succeeded, mbind, M_bind, mret, M_ret in E. unfold then_in, mbind, M_bind.
      destruct (m s) as [[[ok' p] s1']|] eqn:Em; [|done]. cbn in E. injection E as -> ->. cbn. destruct ok; cbn.
      2:{ exists p, s1. split; [done | by eapply appended_alive]. }
      apply Hq in Em as ->. destruct (appended_opened _ _ _ _ _ _ _ _ _ _ _ Ho Hap) as (out & w' & b1 & _ & _ & _ & Ho1).
      destruct (Hk2 s1 r _ b1 _ Ho1) as (p' & s2 & E2 & Hal2). exists p', s2. split; [done|].
      eapply alive_trans; [by eapply appended_alive | done].
Qed.

Lemma fails_then d a m k : fails d a m -> fails d a (then_in m k).
Proof.
  intros H s r pre b c Ho. destruct (H s r pre b c Ho) as (p & s' & E & Ha). exists p, s'. split; [|done].
  unfold then_in. by run E.
Qed.
Lemma appends_none_fails d a m : appends_flushed d a (succeeded m) None -> fails d a m.
Proof.
  intros H s r pre b c Ho. destruct (H s r pre b c Ho) as (ok & s' & E & Hap).
  unfold succeeded, mbind, M_bind in E. destruct (m s) as [[[ok' p] s1]|]; [|done]. injection E as <- <-.
  destruct ok'; [|exists p, s1; split; [done | by eapply appended_alive]].
  destruct Hap as (_ & _ & _ & _ & _ & _ & _ & _ & _ & [=] & _).
Qed.
Lemma alive_end d s r a c s' : (r < d)%nat -> (a < d)%nat -> alive d s r a c s' ->
  alive d s r a c (mk_store (delete d (heads s')) (delete d (bases s')) (allocs s')).
Proof.
  intros Hr Ha (H1 & H2 & H3). unfold alive. cbn.
  rewrite !lookup_delete_ne by lia. split_and!; [done | | done]. intros. rewrite lookup_delete_ne by lia. by apply H2.
Qed.

(** The address the contents are written to, and the step that opens it. *)
Definition contents_at (d a : addr) (st : Z) : addr := if negb (st =? 0) then a else d.
Definition start_at (d a : addr) (st t : Z) : M bool :=
  if negb (st =? 0) then mret true else CBB_add_asn1 a d (if flattened t then clear_constructed t else t).

Lemma flattened_tag t : flattened t = true ->
  valid_tag (clear_constructed t) /\ is_constructed (clear_constructed t) = false /\ clear_constructed t <> 0.
Proof.
  unfold flattened, is_string_type. intros [_ (x & Hin & E)%existsb_exists]%andb_true_iff. apply Z.eqb_eq in E as ->.
  repeat (destruct Hin as [<-|Hin]; [split_and!; [by apply valid_tag_universal | done | done]|]). done.
Qed.
Lemma out_tag_range t : valid_tag t -> 0 <= (if flattened t then clear_constructed t else t) < 2 ^ 32.
Proof.
  intros Ht. destruct (flattened t) eqn:E; [|apply Ht].
  destruct (flattened_tag t E) as ([Hr _] & _). apply Hr.
Qed.

Lemma one_element_fails d a st t inp inner : valid_tag t -> fails (S d) (contents_at d a st) inner ->
  fails d a (one_element d a (start_at d a st t) inp inner).
Proof.
  intros Ht H s r pre b c Ho. destruct (opened_lt _ _ _ _ _ _ _ _ _ Ho) as [Hr Ha].
  unfold one_element, contents_at, start_at in *.
  assert (Hrun : forall p s', then_in (keep_in (start_at d a st t) inp) (fun _ => then_in inner (keep_in (CBB_flush a))) s =
    Some ((false, p), s') -> alive d s r a c s' ->
    exists p s', with_local d (then_in (keep_in (start_at d a st t) inp)
      (fun _ => then_in inner (keep_in (CBB_flush a)))) s = Some ((false, p), s') /\ alive d s r a c s').
  { intros p s' E Hal. exists p. eexists. split; [unfold with_local; run E; done|]. by apply alive_end. }
  unfold start_at in Hrun. destruct (negb (st =? 0)).
  - pose proof (opened_S _ _ _ _ _ _ _ _ _ Ho) as Ho'. destruct (H s r pre b c Ho') as (p & s' & E & Hal).
    apply (Hrun p s').
    + unfold then_in at 1. rewrite (bind_run _ _ s (true, inp) s) by done. cbn [negb fst]. unfold then_in. by run E.
    + destruct Hal as (H1 & H2 & H3). split_and!; [done | intros; apply H2; [lia | done] | done].
  - destruct (add_asn1_opens d s r a c pre b _ (out_tag_range t Ht) Ho) as (ok & s1 & E1 & Hal1 & Hopen). destruct ok.
    + destruct (Hopen eq_refl) as (c' & pre' & b' & Ho1). destruct (H s1 r pre' b' c' Ho1) as (p & s2 & E2 & Hal2).
      apply (Hrun p s2).
      * unfold then_in at 1. rewrite (bind_run _ _ s (true, inp) s1) by (unfold keep_in; by run E1).
        cbn [negb fst]. unfold then_in. by run E2.
      * destruct Hal1 as (_ & H1 & [q Hq]), Hal2 as (Hb2 & H2 & _). split_and!; [done | |].
        -- intros. rewrite H2, H1; [done | lia | lia | lia | lia].
        -- exists q. rewrite H2; [done | lia | lia].
    + apply (Hrun inp s1); [|done]. unfold then_in at 1. by rewrite (bind_run _ _ s (false, inp) s1) by (unfold keep_in; by run E1).
Qed.

Lemma with_local_appends_flushed d a m w : appends_flushed d a m w -> appends_flushed d a (with_local d m) w.
Proof.
  intros H s r pre b c Ho. destruct (H s r pre b c Ho) as (ok & s1 & E & b1 & Hb & Hx & Hy & Hres).
  destruct (opened_lt _ _ _ _ _ _ _ _ _ Ho) as [Hr Ha].
  exists ok. eexists. split; [unfold with_local; run E; done|]. exists b1. cbn.
  rewrite !lookup_delete_ne by lia.
  split_and!; [done | intros; rewrite lookup_delete_ne by lia; by apply Hx | intros; rewrite lookup_delete_ne by lia; by apply Hy |].
  destruct ok; [destruct Hres as (? & _ & ?) | destruct Hres as (? & ? & _ & ?)]; split_and!; done || constructor.
Qed.

Definition emitted (st t : Z) (body : list Z) : option (list Z) :=
  if negb (st =? 0) || (len body <=? 0xfffffffe) then Some (emit st t body) else None.

Lemma one_element_appends d a st t inp inner body : valid_tag t ->
  appends_flushed (S d) (contents_at d a st) (succeeded inner) (Some body) ->
  appends_flushed d a (succeeded (one_element d a (start_at d a st t) inp inner)) (emitted st t body).
Proof.
  intros Ht H. eapply appends_flushed_ext; [intros s; symmetry; apply one_element_succeeded|].
  unfold contents_at, start_at, emitted, emit in *. destruct (negb (st =? 0)); cbn [orb].
  - apply with_local_appends_flushed.
    pose proof (appends_flushed_seq d a _ _ _ _ (appends_flushed_S _ _ _ _ H)
      (appends_appends_flushed _ _ _ _ (flush_appends d a))) as H'. cbn [opt_app] in H'. by rewrite app_nil_r in H'.
  - apply appends_appends_flushed, with_local_appends.
    pose proof (add_asn1_appends d a _ _ _ (out_tag_range t Ht) H) as H'. unfold element_bytes in H'. by destruct (_ <=? _).
Qed.

Lemma conv_element d a st t inp inner o k ok : valid_tag t -> conv (S d) (contents_at d a st) inner o ->
  (forall w q, o = Some (w, q) -> conv d a (k q) (ok q)) ->
  conv d a (then_in (one_element d a (start_at d a st t) inp inner) k)
    ('(body, q) ← o;
     if negb (st =? 0) || (len body <=? 0xfffffffe) then '(w, rest) ← ok q; Some (emit st t body ++ w, rest) else None).
Proof.
  intros Ht [H1 H2] Hk. destruct o as [[body q]|]; cbn.
  - pose proof (one_element_appends d a st t inp inner body Ht H2) as H. unfold emitted in H.
    destruct (negb (st =? 0) || _).
    + eapply then_in_ext; [|done | by eapply Hk]. intros s p s' (s1 & s2 & E)%one_element_true. by eapply H1.
    + split; [done|]. by apply fails_then, appends_none_fails.
  - split; [done|]. by apply fails_then, one_element_fails.
Qed.

Lemma convert_conv fuel d a n st eoc depth inp : Z.of_nat n + depth = kMaxDepth -> 0 <= depth ->
  (length inp < fuel)%nat -> bytes inp -> len inp <= size_max ->
  conv d a (convert_ber_loop fuel d a st eoc depth inp) (transcode fuel n st eoc inp).
Proof.
  revert d a n st eoc depth inp. induction fuel as [|fuel IH]; intros d a n st eoc depth inp Hn Hd Hf Hb Hl; [lia|].
  cbn [convert_ber_loop transcode]. destruct (Z.eqb_spec (len inp) 0) as [H0|H0].
  { rewrite H0. cbn. destruct eoc; [apply conv_fail | apply conv_done]. }
  pose proof (len_nonneg inp). destruct (Z.ltb_spec 0 (len inp)); [|lia]. cbn [negb].
  destruct (if eoc then cbs_get_eoc inp else None) as [inp'|]; [apply conv_done|].
  destruct (CBS_get_any_ber_asn1_element inp) as [[e|] inp'] eqn:E; [|apply conv_fail].
  apply ber_element_sound in E as (t & Ht & Hcase); [|done..].
  assert (Het : el_tag e = t) by (destruct Hcase as [(? & ? & ? & -> & _) | (-> & _)]; done). rewrite Het.
  destruct (negb (st =? 0) && negb _); [apply conv_fail|]. cbv zeta. fold (flattened t) (contents_at d a st) (start_at d a st t).
  assert (Hinner : (if negb (st =? 0) then st else if flattened t then if flattened t then clear_constructed t else t else st)
    = inner_type st t).
  { unfold inner_type. destruct (Z.eqb_spec st 0) as [->|]; cbn [negb]; [by destruct (flattened t) | done]. }
  rewrite Hinner. clear Hinner.
  assert (Hrec : forall eoc x, (length x < fuel)%nat -> bytes x -> len x <= size_max ->
    conv (S d) (contents_at d a st)
      (if kMaxDepth <? depth + 1 then mret (false, x)
       else convert_ber_loop fuel (S d) (contents_at d a st) (inner_type st t) eoc (depth + 1) x)
      (match n with O => None | S n => transcode fuel n (inner_type st t) eoc x end)).
  { intros eoc' x Hx1 Hx2 Hx3. destruct (Z.ltb_spec kMaxDepth (depth + 1)), n as [|n]; [apply conv_fail | lia | lia |].
    apply IH; [lia | lia | done..]. }
  pose proof (len_der_tag t) as Htl. unfold len in Htl.
  destruct Hcase as [(h & body & b & -> & -> & Hh) | (-> & -> & Hc)].
  - rewrite skip_definite, drop_definite. cbn [definite el_indefinite]. pose proof (ber_length_pos _ _ Hh).
    rewrite !length_app in Hf. rewrite !bytes_app in Hb. rewrite !len_app in Hl. zlen_facts.
    apply (conv_element d a st t inp'); [done | | intros w q Hq].
    2:{ assert (q = inp') as -> by (by repeat (case_match || destruct (transcode _ _ _ _ _) as [[]|]); simplify_eq/=).
        apply IH; [done | done | lia | tauto | lia]. }
    destruct (is_constructed t).
    + apply conv_contents, Hrec; [lia | tauto | lia].
    + apply conv_keep, appends_appends_flushed, add_bytes_appends. lia.
  - cbn [indefinite el_indefinite]. cbn [app] in *. rewrite length_app in Hf. cbn [length] in Hf.
    rewrite bytes_app, bytes_cons in Hb. rewrite len_app, len_cons in Hl. zlen_facts.
    apply (conv_element d a st t inp'); [done | apply Hrec; [lia | tauto | lia] |].
    intros w q Hq. destruct n as [|n]; [done|]. apply transcode_sound in Hq as (l & -> & _ & _); [|tauto | lia].
    cbn [tail] in *. rewrite length_app in Hf. cbn [length] in Hf. rewrite bytes_app, !bytes_cons in Hb.
    rewrite len_app, !len_cons in *. zlen_facts. apply IH; [done | done | lia | tauto | lia].
Qed.
End Convert.

(** * The walk and the output *)
Section Walk.
Context `{P : Platform} `{A : Allocator}.

Lemma flattened_primitive t : is_constructed t = false -> flattened t = false.
Proof. unfold flattened. by intros ->. Qed.

(** What the conversion writes is DER, and made of bytes. *)
Lemma ber_der n st l w : ber n st l w -> st = 0 -> der_forest n w.
Proof.
  induction 1 as [n st | n st t h body l w Ht Hc Hadm Henc Hh Hber IH
    | n st t h inner body l w Ht Hc Hadm Henc Hh Hin IHin Hber IH
    | n st t inner body l w Ht Hc Hadm Henc Hin IHin Hber IH]; intros ->; [constructor|..];
    specialize (Henc eq_refl); unfold emit; cbn [negb Z.eqb].
  - rewrite flattened_primitive by done. constructor; [done | done | lia | auto].
  - unfold inner_type in IHin. cbn [negb Z.eqb] in IHin. destruct (flattened t) eqn:Hf.
    + destruct (flattened_tag t Hf) as (? & ? & ?). constructor; [done | done | lia | auto].
    + unfold flattened in Hf. rewrite Hc in Hf. constructor; try done; [lia | auto | auto].
  - unfold inner_type in IHin. cbn [negb Z.eqb] in IHin. destruct (flattened t) eqn:Hf.
    + destruct (flattened_tag t Hf) as (? & ? & ?). constructor; [done | done | lia | auto].
    + unfold flattened in Hf. rewrite Hc in Hf. constructor; try done; [lia | auto | auto].
Qed.
Lemma bytes_emit st t body : valid_tag t -> bytes body -> bytes (emit st t body).
Proof.
  intros Ht Hb. unfold emit. destruct (negb _); [done|]. by apply bytes_der; [apply out_tag_range|].
Qed.
Lemma ber_bytes n st l w : ber n st l w -> bytes l -> bytes w.
Proof.
  induction 1 as [n st | n st t h body l w Ht Hc Hadm Henc Hh Hber IH
    | n st t h inner body l w Ht Hc Hadm Henc Hh Hin IHin Hber IH
    | n st t inner body l w Ht Hc Hadm Henc Hin IHin Hber IH]; intros Hb; [done|..]; rewrite !bytes_app in Hb; apply bytes_app;
    (split; [apply bytes_emit; [done | tauto] | tauto]).
Qed.

(** The walk ends, and finds nothing to convert exactly in DER. *)
Lemma find_ber_total fuel depth inp : (length inp < fuel)%nat -> bytes inp -> len inp <= size_max ->
  exists r, find_ber_loop fuel depth inp = Some r.
Proof.
  revert depth inp. induction fuel as [|fuel IH]; intros depth inp Hf Hb Hl; [lia|]. cbn [find_ber_loop].
  destruct (0 <? len inp); cbn [negb]; [|by eexists].
  destruct (CBS_get_any_ber_asn1_element inp) as [[e|] inp'] eqn:E; [|by eexists].
  pose proof (any_element_split _ _ _ _ Hb Hl E) as (-> & Hh & _). rewrite length_app in Hf. rewrite bytes_app in Hb. rewrite len_app in Hl.
  unfold len in Hh. zlen_facts.
  assert (Hrest : exists r, find_ber_loop fuel depth inp' = Some r) by (apply IH; [lia | tauto | lia]).
  destruct (el_ber_found e); [by eexists|]. destruct (is_constructed _); [|done]. destruct (is_string_type _); [by eexists|].
  destruct (CBS_skip _ _) as [[u|] contents] eqn:Es; [|by eexists].
  unfold CBS_skip, rd_bind in Es. destruct (cbs_get _ _) as [[hd|] c] eqn:Eg; [|done]. injection Es as _ <-.
  apply cbs_get_inv in Eg as [Eo Hlo]; [|unfold len in *; lia]. rewrite Eo, length_app in Hf. rewrite Eo, bytes_app in Hb. rewrite Eo, len_app in Hl.
  unfold len in Hlo. zlen_facts.
  assert (Hin : exists r, (if kMaxDepth <? depth + 1 then Some None else find_ber_loop fuel (depth + 1) c) = Some r).
  { destruct (_ <? _); [by eexists|]. apply IH; [lia | tauto | lia]. }
  destruct Hin as [r ->]. destruct r as [[]|]; [by eexists | done | by eexists].
Qed.

Lemma get_ber_der t body r : bytes (der t body ++ r) -> len (der t body ++ r) <= size_max -> valid_tag t -> len body < 2 ^ 32 ->
  CBS_get_any_ber_asn1_element (der t body ++ r) = (Some (der_element t body), r).
Proof.
  intros Hb Hl Ht Hbody. by apply ber_der_agree; [done..|]; apply any_der_element_complete.
Qed.
Lemma skip_der t body : CBS_skip (el_header_len (der_element t body)) (el_out (der_element t body)) = (Some tt, body).
Proof. unfold CBS_skip, rd_bind, der_element, der. cbn. rewrite app_assoc, cbs_get_app by zlia. done. Qed.

Lemma der_parts t body r : bytes (der t body ++ r) -> len (der t body ++ r) <= size_max ->
  bytes body /\ bytes r /\ len body <= size_max /\ len r <= size_max /\
  (length body < length (der t body ++ r))%nat /\ (length r < length (der t body ++ r))%nat.
Proof.
  intros Hb Hl. pose proof (bytes_der_body _ _ _ Hb). apply bytes_app in Hb as [_ Hb]. pose proof (len_der_bound t body) as Hd.
  rewrite len_app in Hl. rewrite length_app. unfold len in *. split_and!; [done | done | lia..].
Qed.

Lemma find_ber_sound fuel n depth inp : Z.of_nat n + depth = kMaxDepth -> bytes inp -> len inp <= size_max ->
  find_ber_loop fuel depth inp = Some (Some false) -> der_forest n inp.
Proof.
  revert n depth inp. induction fuel as [|fuel IH]; intros n depth inp Hn Hb Hl H; [done|]. cbn [find_ber_loop] in H.
  destruct (Z.ltb_spec 0 (len inp)); cbn [negb] in H.
  2:{ assert (inp = []) as -> by (apply len_0_nil; zlen_facts; lia). constructor. }
  destruct (CBS_get_any_ber_asn1_element inp) as [[e|] inp'] eqn:E; [|done].
  destruct (el_ber_found e) eqn:Ef; [done|].
  destruct (any_der_element_sound inp e inp') as (t & body & -> & -> & Ht & Hbody); [done | done | by apply ber_der_agree |].
  rewrite skip_der in H. cbn [der_element el_tag] in H. destruct (der_parts t body inp' Hb Hl) as (? & ? & ? & ? & _ & _).
  destruct (is_constructed t) eqn:Hc; [|constructor; try done; by eapply IH].
  destruct (is_string_type t) eqn:Hs; [done|]. destruct (Z.ltb_spec kMaxDepth (depth + 1)); [done|].
  destruct (find_ber_loop fuel (depth + 1) body) as [[[]|]|] eqn:Ein; try done.
  destruct n as [|n]; [lia|]. constructor; try done; [eapply IH; [|done..]; lia | by eapply IH].
Qed.

Lemma find_ber_complete n inp : der_forest n inp -> forall fuel depth, Z.of_nat n + depth = kMaxDepth ->
  (length inp < fuel)%nat -> bytes inp -> len inp <= size_max -> find_ber_loop fuel depth inp = Some (Some false).
Proof.
  induction 1 as [n | n t body l Ht Hc Hbody Hd IH | n t body l Ht Hc Hs Hbody Hin IHin Hd IH];
    intros [|fuel] depth Hn Hf Hb Hl; try lia; [done|..]; cbn [find_ber_loop];
    destruct (der_parts t body l Hb Hl) as (? & ? & ? & ? & ? & ?); rewrite get_ber_der by done;
    (destruct (Z.ltb_spec 0 (len (der t body ++ l))); [|unfold len in *; lia]); cbn [negb der_element el_ber_found el_tag]; rewrite Hc.
  - apply IH; [done | lia | done..].
  - fold (der_element t body). rewrite Hs, skip_der. destruct (Z.ltb_spec kMaxDepth (depth + 1)); [lia|].
    rewrite IHin by (done || lia). apply IH; [done | lia | done..].
Qed.

(** Input the conversion accepts does not make the walk fail. *)
Lemma find_ber_accepts n st l w : ber n st l w -> st = 0 -> forall fuel depth, Z.of_nat n + depth = kMaxDepth ->
  bytes l -> len l <= size_max -> find_ber_loop fuel depth l <> Some None.
Proof.
  induction 1 as [n st | n st t h body l w Ht Hc Hadm Henc Hh Hber IH
    | n st t h inner body l w Ht Hc Hadm Henc Hh Hin IHin Hber IH
    | n st t inner body l w Ht Hc Hadm Henc Hin IHin Hber IH]; intros -> [|fuel] depth Hn Hb Hl; try done; cbn [find_ber_loop];
    destruct (0 <? len _); try done; cbn [negb].
  - destruct (ber_definite_complete t h body l) as [b ->]; [done..|]. cbn [definite el_ber_found el_tag]. rewrite Hc.
    destruct b; [done|]. apply IH; [done | done | by rewrite !bytes_app in Hb; tauto | rewrite !len_app in Hl; zlen_facts; lia].
  - destruct (ber_definite_complete t h inner l) as [b ->]; [done..|]. rewrite skip_definite. cbn [definite el_ber_found el_tag].
    rewrite Hc. destruct b; [done|]. destruct (is_string_type t) eqn:Hs; [done|]. destruct (Z.ltb_spec kMaxDepth (depth + 1)); [lia|].
    assert (Hinner : inner_type 0 t = 0) by (unfold inner_type, flattened; by rewrite Hs, andb_false_r).
    rewrite !bytes_app in Hb. rewrite !len_app in Hl. zlen_facts.
    specialize (IHin Hinner fuel (depth + 1) ltac:(lia) ltac:(tauto) ltac:(lia)).
    destruct (find_ber_loop fuel (depth + 1) inner) as [[[]|]|]; try done. apply IH; [done | done | tauto | lia].
  - rewrite (ber_indefinite_complete t (inner ++ [0; 0] ++ l)) by done. done.
Qed.

Lemma find_ber_iff inp : bytes inp -> len inp <= size_max ->
  exists r, cbs_find_ber inp 0 = Some r /\ (r = Some false <-> der_forest 128 inp).
Proof.
  intros Hb Hl. unfold cbs_find_ber. change (kMaxDepth <? 0) with false. cbv iota.
  destruct (find_ber_total (S (length inp)) 0 inp) as [r E]; [lia | done | done |]. exists r. split; [done|]. split.
  - intros ->. by apply (find_ber_sound (S (length inp)) 128 0).
  - intros H. pose proof (find_ber_complete 128 inp H (S (length inp)) 0 eq_refl ltac:(lia) Hb Hl). congruence.
Qed.
End Walk.

(** * The functions *)
Section Claims.
Context `{P : Platform} `{A : Allocator}.

(** The pattern of both functions: initialise, write [data] or fail, finish, and
    clean up on every error. *)
Definition build_or_free (loc : addr) (inp : CBS) (m : CBS -> M (bool * CBS)) : M (option (CBS * option (list Z)) * CBS) :=
  with_local loc
    (p ← then_in (keep_in (CBB_init loc (len inp)) inp) m;
     if negb p.1 then CBB_cleanup loc;; mret (None, p.2)
     else o ← CBB_finish loc true true;
          match o with
          | None => CBB_cleanup loc;; mret (None, p.2)
          | Some (data, n) => mret (Some (ztake n data, Some data), p.2)
          end).

Lemma build_or_free_spec loc inp m o s : len inp <= size_max -> conv (S loc) loc (m inp) o ->
  exists res inp' s', build_or_free loc inp m s = Some ((res, inp'), s') /\
    match res with
    | Some (out, storage) => storage = Some out /\ o = Some (out, inp')
    | None => (forall k n, alloc_ok k n = true) -> forall w q, o = Some (w, q) -> size_max < len w
    end.
Proof.
  intros Hl [Hq Hm]. unfold build_or_free.
  set (body := p ← _; _). assert (Hbody : exists res inp' s', body s = Some ((res, inp'), s') /\
    match res with
    | Some (out, storage) => storage = Some out /\ o = Some (out, inp')
    | None => (forall k n, alloc_ok k n = true) -> forall w q, o = Some (w, q) -> size_max < len w
    end).
  2:{ destruct Hbody as (res & inp' & s' & E & H). destruct (with_local_run loc body s _ _ E) as [s'' E']. by exists res, inp', s''. }
  subst body. destruct (init_opened s loc (len inp)) as (ok & s1 & E & H1); [zlen_facts; lia|].
  destruct ok.
  2:{ destruct H1 as [[k Hk] (s2 & E2)%cleanup_run].
      rewrite (bind_run _ _ s (false, inp) s1) by (unfold then_in; by rewrite (bind_run _ _ s (false, inp) s1) by (unfold keep_in; by run E)).
      cbn [negb fst snd]. run E2. eexists None, _, _. split; [done|]. intros Hal. by rewrite Hal in Hk. }
  destruct H1 as (b & Ho & Hr).
  assert (Hthen : forall x s2, m inp s1 = Some (x, s2) -> then_in (keep_in (CBB_init loc (len inp)) inp) m s = Some (x, s2)).
  { intros x s2 E2. unfold then_in. by rewrite (bind_run _ _ s (true, inp) s1) by (unfold keep_in; by run E). }
  destruct o as [[w q]|].
  - destruct (run_finish s1 loc _ _ b Hm Ho) as (ok & s2 & E2 & H2).
    unfold succeeded, mbind at 1, M_bind in E2. destruct (m inp s1) as [[[ok' p] s2']|] eqn:Em; [|done].
    injection E2 as -> ->. cbn [fst] in *. rewrite (bind_run _ _ s (ok, p) s2) by by apply Hthen. cbn [fst snd].
    assert (Hfit : (forall k n, alloc_ok k n = true) -> ~ fits b (len w) -> size_max < len w).
    { intros Hal Hf. apply Z.nle_gt. intros Hle. apply Hf. split; [done|]. by rewrite Hr. }
    destruct ok; cbn [negb].
    2:{ destruct H2 as [Hf (s3 & E3)%cleanup_run]. run E3. eexists None, _, _. split; [done|].
        intros Hal w' q' [= <- <-]. by apply Hfit, Hf. }
    destruct H2 as (data & [= <-] & _ & o & s3 & E3 & H3). run E3. destruct o as [[x n]|].
    + destruct H3 as [-> ->]. eexists (Some _), _, _. split; [done|]. rewrite ztake_all by lia. split; [done|].
      by rewrite (Hq _ _ _ _ _ Em eq_refl).
    + destruct H3 as [(s4 & E4)%cleanup_run Hf]. run E4. eexists None, _, _. split; [done|].
      intros Hal w' q' [= <- <-]. by apply Hfit.
  - destruct (Hm s1 loc _ b _ Ho) as (p & s2 & E2 & [[b2 Hb2] [_ [x Hx]]]).
    rewrite (bind_run _ _ s (false, p) s2) by by apply Hthen. cbn [negb fst snd].
    destruct (cleanup_run s2 loc) as [s3 E3]; [by exists x, b2|]. run E3. by eexists None, _, _.
Qed.

Lemma convert_top loc inp : bytes inp -> len inp <= size_max ->
  conv (S loc) loc (cbs_convert_ber (S loc) loc 0 false 0 inp) (transcode (S (length inp)) 128 0 false inp).
Proof. intros Hb Hl. unfold cbs_convert_ber. change (kMaxDepth <? 0) with false. by apply convert_conv; [done | done | lia | |]. Qed.
Lemma transcode_top inp w q : bytes inp -> len inp <= size_max ->
  transcode (S (length inp)) 128 0 false inp = Some (w, q) <-> ber 128 0 inp w /\ q = [].
Proof.
  intros Hb Hl. split.
  - intros (l & -> & Hq & Hber)%transcode_sound; [|done..]. rewrite (Hq eq_refl). cbn [tail]. by rewrite app_nil_r.
  - intros [H ->]. pose proof (transcode_complete _ _ _ _ H (S (length inp)) false []) as Hc. cbn [tail] in Hc.
    rewrite app_nil_r in Hc. apply Hc; [done | lia | done..].
Qed.

(** ** Implicitly tagged strings *)
Fixpoint join_chunks (fuel : nat) (inner_tag : Z) (child : CBS) : option (list Z) :=
  match fuel with
  | O => None
  | S fuel =>
    if len child =? 0 then Some []
    else match CBS_get_asn1 inner_tag child with
    | (None, _) => None
    | (Some chunk, child) => w ← join_chunks fuel inner_tag child; Some (chunk ++ w)
    end
  end.

Lemma conv_ext d a m m' o : (forall s, m s = m' s) -> conv d a m o -> conv d a m' o.
Proof.
  intros E [H1 H2]. split; [intros s p s' w q; rewrite <- E; apply H1|]. destruct o as [[w q]|].
  - eapply appends_flushed_ext, H2. intros s. unfold succeeded, mbind, M_bind. by rewrite E.
  - intros s r pre b c. rewrite <- E. apply H2.
Qed.

Lemma implicit_loop_conv fuel d a t child q : (length child < fuel)%nat -> bytes child -> len child <= size_max ->
  valid_tag t -> conv d a (keep_in (implicit_string_loop fuel a t child) q) (w ← join_chunks fuel t child; Some (w, q)).
Proof.
  revert child. induction fuel as [|fuel IH]; intros child Hf Hb Hl Ht; [lia|]. cbn [implicit_string_loop join_chunks].
  pose proof (len_nonneg child). destruct (Z.ltb_spec 0 (len child)), (Z.eqb_spec (len child) 0); try lia; cbn [negb].
  2:{ apply conv_keep, appends_nil. }
  destruct (CBS_get_asn1 t child) as [[chunk|] child'] eqn:E.
  2:{ eapply conv_ext, (conv_fail d a q). done. }
  apply get_asn1_iff in E as (-> & _ & Hlen); [|done..].
  destruct (der_parts t chunk child' Hb Hl) as (? & ? & ? & ? & ? & ?).
  apply (conv_ext d a (then_in (keep_in (CBB_add_bytes a chunk) q) (keep_in (implicit_string_loop fuel a t child')))).
  { intros s. generalize (CBB_add_bytes a chunk) as m1. intros m1.
    unfold then_in, keep_in, andthen, mbind, M_bind. by destruct (m1 s) as [[[] s1]|]. }
  replace (w ← _; Some (w, q)) with ('(w2, rest) ← (w ← join_chunks fuel t child'; Some (w, q)); Some (chunk ++ w2, rest))
    by (by destruct (join_chunks fuel t child')).
  apply (then_in_ext d a _ _ chunk q); [by intros s p s' [-> _]%keep_in_true | |apply IH; [lia | done..]].
  eapply appends_flushed_ext; [intros s; symmetry; apply succeeded_keep|]. by apply appends_appends_flushed, add_bytes_appends.
Qed.

Lemma join_chunks_iff fuel t child w : (length child < fuel)%nat -> bytes child -> len child <= size_max -> valid_tag t ->
  join_chunks fuel t child = Some w <->
  exists l, child = concat (der t <$> l) /\ w = concat l /\ Forall (fun c => len c < 2 ^ 32) l.
Proof.
  revert child w. induction fuel as [|fuel IH]; intros child w Hf Hb Hl Ht; [lia|]. cbn [join_chunks].
  destruct (Z.eqb_spec (len child) 0) as [->%len_0_nil|H0].
  { split; [intros [= <-]; by exists []|]. intros ([|c l] & E & -> & _); [done|]. exfalso. cbn in E.
    pose proof (len_der_bound t c) as Hd. symmetry in E. apply app_nil in E as [E _]. rewrite E in Hd. zlia. }
  split.
  - destruct (CBS_get_asn1 t child) as [[chunk|] child'] eqn:E; [|done].
    apply get_asn1_iff in E as (-> & _ & Hlen); [|done..].
    destruct (der_parts t chunk child' Hb Hl) as (? & ? & ? & ? & ? & ?).
    destruct (join_chunks fuel t child') as [w'|] eqn:Ej; [|done]. intros [= <-].
    apply IH in Ej as (l & -> & -> & ?); [|lia | done..]. exists (chunk :: l). split_and!; [done | done | by constructor].
  - intros ([|c l] & -> & -> & Hcs); [done|]. apply Forall_cons_iff in Hcs as [Hc Hcs]. cbn [fmap list_fmap concat] in *.
    destruct (der_parts t c _ Hb Hl) as (? & ? & ? & ? & ? & ?).
    rewrite (proj2 (get_asn1_iff t _ c (concat (der t <$> l)) Hb Hl)) by by split_and!.
    rewrite (proj2 (IH (concat (der t <$> l)) (concat l) ltac:(lia) ltac:(done) ltac:(done) Ht)); [done|]. by exists l.
Qed.

(** The first element is determined by the input. *)
Lemma der_unique t body l t' body' l' : der t body ++ l = der t' body' ++ l' -> bytes (der t body ++ l) ->
  len (der t body ++ l) <= size_max -> valid_tag t -> valid_tag t' -> len body < 2 ^ 32 -> len body' < 2 ^ 32 ->
  t = t' /\ body = body' /\ l = l'.
Proof.
  intros E Hb Hl Ht Ht' Hlen Hlen'. pose proof (get_any_asn1_iff (der t body ++ l) body t l Hb Hl) as H1.
  pose proof (get_any_asn1_iff (der t body ++ l) body' t' l' Hb Hl) as H2.
  rewrite (proj2 H1) in H2 by done. by assert ((Some (body, t), l) = (Some (body', t'), l')) as [= -> -> ->] by by apply H2.
Qed.
Lemma der_first n t body l : bytes (der t body ++ l) -> len (der t body ++ l) <= size_max -> valid_tag t -> len body < 2 ^ 32 ->
  der_forest n (der t body ++ l) -> der_forest n (der t body).
Proof.
  intros Hb Hl Ht Hlen H. rewrite <- (app_nil_r (der t body)). remember (der t body ++ l) as x eqn:Ex.
  destruct H as [n | n t' body' l' | n t' body' l'].
  - pose proof (len_der_bound t body) as Hd. pose proof (f_equal len Ex) as El. rewrite len_app in El. zlia.
  - apply der_unique in Ex as (-> & -> & ->); [|done..]. by apply der_primitive, der_nil.
  - apply der_unique in Ex as (-> & -> & ->); [|done..]. by apply der_constructed, der_nil.
Qed.

(** C37: cbs_find_ber always ends, and succeeds with nothing to convert exactly on
    the sequences of DER elements without constructed strings, nested at most
    kMaxDepth deep. *)
Theorem cbs_find_ber_exact inp : bytes inp -> len inp <= size_max ->
  exists r, cbs_find_ber inp 0 = Some r /\ (r = Some false <-> der_forest 128 inp).
Proof. apply find_ber_iff. Qed.

(** C6: CBS_asn1_ber_to_der always returns. If all of the input is DER it returns
    the first element and advances over it. Otherwise it consumes the whole input
    and returns its DER encoding: every element re-encoded with a minimal definite
    length and every constructed string flattened. It fails only on an empty
    input, on input that is not BER, or when memory runs out. The output is DER. *)
Theorem CBS_asn1_ber_to_der_correct loc inp s : bytes inp -> len inp <= size_max ->
  exists res inp' s', CBS_asn1_ber_to_der loc inp s = Some ((res, inp'), s') /\
    match res with
    | Some (out, None) => der_forest 128 inp /\ inp = out ++ inp' /\ der_forest 128 out /\
        exists t body, valid_tag t /\ out = der t body
    | Some (out, Some storage) => ~ der_forest 128 inp /\ storage = out /\ inp' = [] /\
        ber 128 0 inp out /\ der_forest 128 out
    | None => inp = [] \/ ~ der_forest 128 inp /\
        ((forall k n, alloc_ok k n = true) -> forall out, ber 128 0 inp out -> size_max < len out)
    end.
Proof.
  intros Hb Hl. unfold CBS_asn1_ber_to_der. destruct (find_ber_iff inp Hb Hl) as (r & E & Hr). rewrite E.
  destruct r as [[]|].
  - fold (build_or_free loc inp (cbs_convert_ber (S loc) loc 0 false 0)).
    destruct (build_or_free_spec loc inp _ _ s Hl (convert_top loc inp Hb Hl)) as (res & inp' & s' & Eb & H).
    exists res, inp', s'. split; [done|]. assert (Hn : ~ der_forest 128 inp) by (intros Hd; by apply Hr in Hd).
    destruct res as [[out storage]|].
    + destruct H as [-> [H ->]%transcode_top]; [|done..]. split_and!; try done. by eapply ber_der.
    + right. split; [done|]. intros Hal out Hout. by eapply (H Hal out []), transcode_top.
  - pose proof (proj1 Hr eq_refl) as Hd. destruct (CBS_get_any_asn1_element inp) as [[[[out t] hl]|] inp'] eqn:Eg.
    + eexists (Some (out, None)), inp', s. split; [done|].
      apply any_element_der_iff in Eg as (t' & body & [= -> -> ->] & -> & Ht & Hlen); [|done..].
      split_and!; [done | done | | by exists t', body]. by eapply der_first.
    + eexists None, inp', s. split; [done|]. left. destruct Hd as [n | n t body l | n t body l]; [done|..]; exfalso;
        rewrite (proj2 (any_element_der_iff _ (der t body, t, el_header_len (der_element t body)) l Hb Hl)) in Eg;
        (done || by exists t, body).
  - eexists None, inp, s. split; [done|]. right. split; [intros Hd; by apply Hr in Hd|]. intros _ out Hout. exfalso.
    unfold cbs_find_ber in E. change (kMaxDepth <? 0) with false in E. cbv iota in E.
    by apply (find_ber_accepts _ _ _ _ Hout eq_refl (S (length inp)) 0) in E.
Qed.

Lemma land_lor_absorb a b : Z.land a (Z.lor a b) = a.
Proof. apply Z.bits_inj'. intros n _. rewrite Z.land_spec, Z.lor_spec. by destruct (Z.testbit a n). Qed.
Lemma lor_constructed t : valid_tag t -> is_constructed t = false ->
  valid_tag (Z.lor t CBS_ASN1_CONSTRUCTED) /\ Z.lor t CBS_ASN1_CONSTRUCTED <> t.
Proof.
  unfold is_constructed. intros (Hr & H0 & _) Hc. apply negb_false_iff, Z.eqb_eq in Hc.
  assert (E1 : Z.land t (Z.lor t CBS_ASN1_CONSTRUCTED) = t) by apply land_lor_absorb.
  assert (E2 : Z.land CBS_ASN1_CONSTRUCTED (Z.lor t CBS_ASN1_CONSTRUCTED) = CBS_ASN1_CONSTRUCTED)
    by (rewrite Z.lor_comm; apply land_lor_absorb).
  split; [split_and!|].
  - apply (lor_range 32); [lia | lia | done].
  - apply (lor_range 32); [lia | lia | done].
  - intros E. rewrite E, Z.land_0_r in E1. congruence.
  - intros E. rewrite E in E1. congruence.
  - intros E. rewrite E, Z.land_comm, Hc in E2. done.
Qed.
Lemma len_concat_der t l : len (concat l) <= len (concat (der t <$> l)).
Proof.
  induction l as [|c l IH]; [done|]. rewrite fmap_cons. cbn [concat]. rewrite !len_app. pose proof (len_der_bound t c). lia.
Qed.

(** CBS_get_asn1_implicit_string reads a primitive string with tag outer_tag, or
    a constructed one made of primitive chunks with tag inner_tag, whose contents
    are concatenated; it accepts nothing else, and fails on nothing else unless
    memory runs out. *)
Theorem CBS_get_asn1_implicit_string_correct loc outer inner inp s : bytes inp -> len inp <= size_max ->
  valid_tag outer -> is_constructed outer = false -> valid_tag inner ->
  let primitive out rest := inp = der outer out ++ rest /\ len out < 2 ^ 32 in
  let chunked out rest := exists l, out = concat l /\ Forall (fun c => len c < 2 ^ 32) l /\
    len (concat (der inner <$> l)) < 2 ^ 32 /\
    inp = der (Z.lor outer CBS_ASN1_CONSTRUCTED) (concat (der inner <$> l)) ++ rest in
  exists res inp' s', CBS_get_asn1_implicit_string loc outer inner inp s = Some ((res, inp'), s') /\
    match res with
    | Some (out, None) => primitive out inp'
    | Some (out, Some storage) => storage = out /\ chunked out inp'
    | None => (forall out rest, ~ primitive out rest) /\
        ((forall k n, alloc_ok k n = true) -> forall out rest, ~ chunked out rest)
    end.
Proof.
  intros Hb Hl Hot Hoc Hit primitive chunked. destruct (lor_constructed outer Hot Hoc) as [Hct Hne].
  unfold CBS_get_asn1_implicit_string. destruct (CBS_peek_asn1_tag inp outer) eqn:Hp.
  - destruct (CBS_get_asn1 outer inp) as [[out|] inp'] eqn:Eg.
    + apply get_asn1_iff in Eg as (-> & _ & ?); [|done..]. by eexists (Some (out, None)), inp', s.
    + eexists None, inp', s. split; [done|]. split.
      * intros out rest [E Hlen]. by rewrite (proj2 (get_asn1_iff outer inp out rest Hb Hl)) in Eg.
      * intros _ out rest (l & _ & _ & _ & E).
        assert (Hp' : CBS_peek_asn1_tag inp (Z.lor outer CBS_ASN1_CONSTRUCTED) = true).
        { apply peek_iff; [done|]. rewrite E. unfold der. rewrite <- app_assoc. by eexists. }
        unfold CBS_peek_asn1_tag in Hp, Hp'. destruct (parse_asn1_tag inp) as [[t|] ?]; [|done]. lia.
  - match goal with |- context [then_in (keep_in (CBB_init loc (len inp)) inp) ?f] => fold (build_or_free loc inp f); set (m := f) end.
    assert (Hnp : forall out rest, ~ primitive out rest).
    { intros out rest [E _]. apply not_true_iff_false in Hp. apply Hp, peek_iff; [done|].
      rewrite E. unfold der. rewrite <- app_assoc. by eexists. }
    set (o := match CBS_get_asn1 (Z.lor outer CBS_ASN1_CONSTRUCTED) inp with
      | (Some child, rest) => w ← join_chunks (S (length child)) inner child; Some (w, rest) | _ => None end).
    assert (Hm : conv (S loc) loc (m inp) o /\ forall out rest, o = Some (out, rest) <-> chunked out rest).
    { subst m o. cbv beta. destruct (CBS_get_asn1 _ inp) as [[child|] inp'] eqn:Eg.
      - apply get_asn1_iff in Eg as (-> & _ & Hlen); [|done..]. destruct (der_parts _ _ _ Hb Hl) as (Hbc & _ & Hlc & _).
        split; [apply implicit_loop_conv; [lia | done..]|]. intros out rest. split.
        + destruct (join_chunks _ _ _) as [w|] eqn:Ej; [|done]. intros [= <- <-].
          apply join_chunks_iff in Ej as (l & -> & -> & Hcs); [|lia | done..]. by exists l.
        + intros (l & -> & Hcs & Hlen' & E). apply der_unique in E as (_ & -> & ->); [|done..].
          rewrite (proj2 (join_chunks_iff (S (length (concat (der inner <$> l)))) inner (concat (der inner <$> l)) (concat l)
            ltac:(lia) Hbc Hlc Hit)); [done|]. by exists l.
      - split; [apply conv_fail|]. intros out rest. split; [done|]. intros (l & _ & _ & Hlen & E). exfalso.
        by rewrite (proj2 (get_asn1_iff _ inp (concat (der inner <$> l)) rest Hb Hl)) in Eg. }
    destruct Hm as [Hm Ho]. destruct (build_or_free_spec loc inp m o s Hl Hm) as (res & inp' & s' & Eb & H).
    exists res, inp', s'. split; [done|]. destruct res as [[out storage]|].
    + destruct H as [-> H]. split; [done|]. by apply Ho.
    + split; [done|]. intros Hal out rest Hc. pose proof (H Hal out rest (proj2 (Ho out rest) Hc)).
      destruct Hc as (l & -> & _ & _ & E). pose proof (len_concat_der inner l). rewrite E in Hl.
      pose proof (len_der_bound (Z.lor outer CBS_ASN1_CONSTRUCTED) (concat (der inner <$> l))). rewrite len_app in Hl. zlen_facts. lia.
Qed.
End Claims.

Lemma cbs_find_ber_exact_witness :
  exists r, @cbs_find_ber LP64 [0x30; 0x03; 0x02; 0x01; 0x05] 0 = Some r /\
    (r = Some false <-> der_forest 128 [0x30; 0x03; 0x02; 0x01; 0x05]).
Proof. apply (@cbs_find_ber_exact LP64); [repeat constructor; done | done]. Defined.

(** An indefinite-length SEQUENCE of a two-chunk OCTET STRING, then a NULL. *)
Definition example_ber : list Z :=
  [0x30; 0x80; 0x24; 0x06; 0x04; 0x01; 0x61; 0x04; 0x01; 0x62; 0x00; 0x00; 0x05; 0x00].

Lemma CBS_asn1_ber_to_der_correct_witness : exists inp' s',
  @CBS_asn1_ber_to_der LP64 zero_allocator 0 example_ber empty_store =
    Some ((Some ([0x30; 0x04; 0x04; 0x02; 0x61; 0x62; 0x05; 0x00], Some [0x30; 0x04; 0x04; 0x02; 0x61; 0x62; 0x05; 0x00]), inp'), s') /\
  inp' = [].
Proof.
  destruct (@CBS_asn1_ber_to_der_correct LP64 zero_allocator 0 example_ber empty_store) as (res & inp' & s' & E & H);
    [repeat constructor; done | done |].
  assert (Hres : res = Some ([0x30; 0x04; 0x04; 0x02; 0x61; 0x62; 0x05; 0x00], Some [0x30; 0x04; 0x04; 0x02; 0x61; 0x62; 0x05; 0x00])).
  { vm_compute in E. by injection E as <- _ _. }
  subst res. exists inp', s'. split; [exact E|]. apply H.
Defined.

Lemma CBS_get_asn1_implicit_string_correct_witness : exists res inp' s',
  @CBS_get_asn1_implicit_string LP64 zero_allocator 0 (CBS_ASN1_CONTEXT_SPECIFIC) CBS_ASN1_OCTETSTRING
    [0xa0; 0x06; 0x04; 0x01; 0x61; 0x04; 0x01; 0x62; 0x99] empty_store = Some ((res, inp'), s') /\
  res = Some ([0x61; 0x62], Some [0x61; 0x62]).
Proof.
  destruct (@CBS_get_asn1_implicit_string_correct LP64 zero_allocator 0 CBS_ASN1_CONTEXT_SPECIFIC CBS_ASN1_OCTETSTRING
    [0xa0; 0x06; 0x04; 0x01; 0x61; 0x04; 0x01; 0x62; 0x99] empty_store) as (res & inp' & s' & E & _);
    [repeat constructor; done | done | split_and!; done | done | split_and!; done |].
  exists res, inp', s'. split; [exact E|]. vm_compute in E. by injection E as <- _ _.
Defined.
