(* ===== verification/Base64.v ===== *)
(** Base64: crypto/base64/base64.cc and the context of include/openssl/base64.h.

    A function that writes to [out] returns the bytes it wrote, from the start of
    the buffer; what a failing call has written is not modelled. *)
From S2P Require Import Prelude.
From S2P Require Import Internal.

Open Scope Z_scope.

Definition INT_MAX : Z := 2 ^ 31 - 1.

Record evp_encode_ctx_st := mk_ctx {
  data_used : Z;
  data : list Z;                  (* 48 bytes *)
  eof_seen : bool;
  error_encountered : bool;
}.
Definition sizeof_data : Z := 48.

Section Base64.
Context `{P : Platform}.

Definition constant_time_lt_args_8 (a b : Z) : Z := u8 (constant_time_msb_w (wrap size_bits (a - b))).
Definition constant_time_in_range_8 (a min max : Z) : Z :=
  constant_time_lt_args_8 (u8 (a - min)) (u8 (max - min + 1)).

(** * Encoding *)
Definition conv_bin2ascii (a : Z) : Z :=
  let a := Z.land (u8 a) 0x3f in
  let ret := constant_time_select_8 (constant_time_eq_8 a 62) 43 47 in
  let ret := constant_time_select_8 (constant_time_lt_args_8 a 62) (u8 (a - 52 + 48)) ret in
  let ret := constant_time_select_8 (constant_time_lt_args_8 a 52) (u8 (a - 26 + 97)) ret in
  constant_time_select_8 (constant_time_lt_args_8 a 26) (u8 (a + 65)) ret.

Definition EVP_EncodedLength (n : Z) : option Z :=
  if wrap size_bits (n + 2) <? n then None
  else
    let n := wrap size_bits (n + 2) / 3 in
    let n4 := wrap size_bits (Z.shiftl n 2) in
    if negb (Z.shiftr n4 2 =? n) then None
    else if wrap size_bits (n4 + 1) <? n4 then None
    else Some (wrap size_bits (n4 + 1)).

Definition EVP_EncodeInit : evp_encode_ctx_st := mk_ctx 0 (replicate 48 0) false false.

(** The bytes before the final NUL, and the value returned. *)
Fixpoint EVP_EncodeBlock (src : list Z) : list Z * Z :=
  match src with
  | [] => ([], 0)
  | a :: b :: c :: src =>
    let l := Z.lor (Z.lor (u32 (Z.shiftl a 16)) (u32 (Z.shiftl b 8))) c in
    let '(dst, ret) := EVP_EncodeBlock src in
    (conv_bin2ascii (Z.shiftr l 18) :: conv_bin2ascii (Z.shiftr l 12) :: conv_bin2ascii (Z.shiftr l 6) ::
     conv_bin2ascii l :: dst, wrap size_bits (ret + 4))
  | [a; b] =>
    let l := Z.lor (u32 (Z.shiftl a 16)) (u32 (Z.shiftl b 8)) in
    ([conv_bin2ascii (Z.shiftr l 18); conv_bin2ascii (Z.shiftr l 12); conv_bin2ascii (Z.shiftr l 6); 61], 4)
  | [a] =>
    let l := u32 (Z.shiftl a 16) in
    ([conv_bin2ascii (Z.shiftr l 18); conv_bin2ascii (Z.shiftr l 12); 61; 61], 4)
  end.

(** The loop over whole lines: the text written, the rest of the input and the
    total; [None] for the total is the early return on overflow. *)
Fixpoint encode_lines (fuel : nat) (inp : list Z) (total : Z) : list Z * list Z * option Z :=
  match fuel with
  | O => ([], inp, Some total)
  | S fuel =>
    if len inp <? sizeof_data then ([], inp, Some total)
    else
      let '(dst, encoded) := EVP_EncodeBlock (ztake sizeof_data inp) in
      if wrap size_bits (total + encoded + 1) <? total then (dst ++ [10], zdrop sizeof_data inp, None)
      else
        let '(text, rest, total) :=
          encode_lines fuel (zdrop sizeof_data inp) (wrap size_bits (total + (encoded + 1))) in
        (dst ++ [10] ++ text, rest, total)
  end.

(** The context, the text written (before its final NUL) and [*out_len]. *)
Definition EVP_EncodeUpdate (ctx : evp_encode_ctx_st) (inp : list Z) : evp_encode_ctx_st * list Z * Z :=
  if len inp =? 0 then (ctx, [], 0)
  else if len inp <? sizeof_data - data_used ctx then
    (mk_ctx (data_used ctx + len inp)
       (ztake (data_used ctx) (data ctx) ++ inp ++ zdrop (data_used ctx + len inp) (data ctx))
       (eof_seen ctx) (error_encountered ctx), [], 0)
  else
    let '(ctx, first, inp, total) :=
      if negb (data_used ctx =? 0) then
        let todo := sizeof_data - data_used ctx in
        let data := ztake (data_used ctx) (data ctx) ++ ztake todo inp in
        let '(dst, encoded) := EVP_EncodeBlock data in
        (mk_ctx 0 data (eof_seen ctx) (error_encountered ctx), dst ++ [10], zdrop todo inp,
         wrap size_bits (encoded + 1))
      else (ctx, [], inp, 0) in
    let '(text, rest, total) := encode_lines (length inp) inp total in
    match total with
    | None => (ctx, first ++ text, 0)
    | Some total =>
      (mk_ctx (len rest) (rest ++ zdrop (len rest) (data ctx)) (eof_seen ctx) (error_encountered ctx),
       first ++ text, if INT_MAX <? total then 0 else total)
    end.

Definition EVP_EncodeFinal (ctx : evp_encode_ctx_st) : evp_encode_ctx_st * list Z * Z :=
  if data_used ctx =? 0 then (ctx, [], 0)
  else
    let '(dst, encoded) := EVP_EncodeBlock (ztake (data_used ctx) (data ctx)) in
    (mk_ctx 0 (data ctx) (eof_seen ctx) (error_encountered ctx), dst ++ [10], encoded + 1).

(** * Decoding *)
Definition EVP_DecodedLength (n : Z) : option Z :=
  if negb (n mod 4 =? 0) then None else Some (wrap size_bits (n / 4 * 3)).

Definition EVP_DecodeInit : evp_encode_ctx_st := mk_ctx 0 (replicate 48 0) false false.

Definition base64_ascii_to_bin (a : Z) : Z :=
  let is_upper := constant_time_in_range_8 a 65 90 in
  let is_lower := constant_time_in_range_8 a 97 122 in
  let is_digit := constant_time_in_range_8 a 48 57 in
  let is_plus := constant_time_eq_8 a 43 in
  let is_slash := constant_time_eq_8 a 47 in
  let is_equals := constant_time_eq_8 a 61 in
  let ret := 0 in
  let ret := u8 (Z.lor ret (Z.land is_upper (a - 65))) in
  let ret := u8 (Z.lor ret (Z.land is_lower (a - 97 + 26))) in
  let ret := u8 (Z.lor ret (Z.land is_digit (a - 48 + 52))) in
  let ret := u8 (Z.lor ret (Z.land is_plus 62)) in
  let ret := u8 (Z.lor ret (Z.land is_slash 63)) in
  let is_valid := Z.lor (Z.lor (Z.lor (Z.lor (Z.lor is_upper is_lower) is_digit) is_plus) is_slash) is_equals in
  u8 (Z.lor ret (Z.lnot is_valid)).

(** The bytes written, or an error. *)
Definition base64_decode_quad (i0 i1 i2 i3 : Z) : option (list Z) :=
  let a := base64_ascii_to_bin i0 in
  let b := base64_ascii_to_bin i1 in
  let c := base64_ascii_to_bin i2 in
  let d := base64_ascii_to_bin i3 in
  if (a =? 0xff) || (b =? 0xff) || (c =? 0xff) || (d =? 0xff) then None
  else
    let v := Z.lor (Z.lor (Z.lor (u32 (Z.shiftl a 18)) (u32 (Z.shiftl b 12))) (u32 (Z.shiftl c 6))) d in
    let padding_pattern :=
      Z.lor (Z.lor (Z.lor (Z.shiftl (Z.b2z (i0 =? 61)) 3) (Z.shiftl (Z.b2z (i1 =? 61)) 2))
        (Z.shiftl (Z.b2z (i2 =? 61)) 1)) (Z.b2z (i3 =? 61)) in
    match padding_pattern with
    | 0 => Some [u8 (Z.shiftr v 16); u8 (Z.shiftr v 8); u8 v]
    | 1 => Some [u8 (Z.shiftr v 16); u8 (Z.shiftr v 8)]
    | 3 => Some [u8 (Z.shiftr v 16)]
    | _ => None
    end.

Definition is_space (c : Z) : bool := (c =? 32) || (c =? 9) || (c =? 13) || (c =? 10).

(** The loop of EVP_DecodeUpdate; [None] is the early return of -1, after which the
    context has [error_encountered] set. *)
Fixpoint decode_update_loop (ctx : evp_encode_ctx_st) (inp : list Z) (bytes_out : Z)
    : evp_encode_ctx_st * option (list Z * Z) :=
  match inp with
  | [] => (ctx, Some ([], bytes_out))
  | c :: inp =>
    if is_space c then decode_update_loop ctx inp bytes_out
    else if eof_seen ctx then (mk_ctx (data_used ctx) (data ctx) (eof_seen ctx) true, None)
    else
      let data := zupd (data ctx) (data_used ctx) c in
      let data_used := data_used ctx + 1 in
      if data_used =? 4 then
        match base64_decode_quad (List.nth 0 data 0) (List.nth 1 data 0) (List.nth 2 data 0) (List.nth 3 data 0) with
        | None => (mk_ctx data_used data (eof_seen ctx) true, None)
        | Some quad =>
          let ctx := mk_ctx 0 data (if len quad <? 3 then true else eof_seen ctx) (error_encountered ctx) in
          match decode_update_loop ctx inp (wrap size_bits (bytes_out + len quad)) with
          | (ctx, Some (out, n)) => (ctx, Some (quad ++ out, n))
          | r => r
          end
        end
      else decode_update_loop (mk_ctx data_used data (eof_seen ctx) (error_encountered ctx)) inp bytes_out
  end.

(** The context, the return value, the bytes written and [*out_len]. *)
Definition EVP_DecodeUpdate (ctx : evp_encode_ctx_st) (inp : list Z) : evp_encode_ctx_st * Z * list Z * Z :=
  if error_encountered ctx then (ctx, -1, [], 0)
  else match decode_update_loop ctx inp 0 with
  | (ctx, None) => (ctx, -1, [], 0)
  | (ctx, Some (out, bytes_out)) =>
    if INT_MAX <? bytes_out then (mk_ctx (data_used ctx) (data ctx) (eof_seen ctx) true, -1, out, 0)
    else (ctx, if eof_seen ctx then 0 else 1, out, bytes_out)
  end.

Definition EVP_DecodeFinal (ctx : evp_encode_ctx_st) : Z :=
  if error_encountered ctx || negb (data_used ctx =? 0) then -1 else 1.

(** The loop over quads; the length is a multiple of four. *)
Fixpoint decode_base64_loop (inp : list Z) : option (list Z) :=
  match inp with
  | i0 :: i1 :: i2 :: i3 :: inp =>
    quad ← base64_decode_quad i0 i1 i2 i3;
    if negb (len quad =? 3) && negb (len inp =? 0) then None
    else out ← decode_base64_loop inp; Some (quad ++ out)
  | _ => Some []
  end.

Definition EVP_DecodeBase64 (max_out : Z) (inp : list Z) : option (list Z) :=
  if negb (len inp mod 4 =? 0) then None
  else match EVP_DecodedLength (len inp) with
  | None => None
  | Some max_len => if max_out <? max_len then None else decode_base64_loop inp
  end.

Fixpoint trim_front (src : list Z) : list Z :=
  match src with
  | c :: r => if negb (c =? 32) && negb (c =? 9) then src else trim_front r
  | [] => []
  end.
Definition trim_back (src : list Z) : list Z :=
  reverse ((fix go l := match l with c :: r => if is_space c then go r else l | [] => [] end) (reverse src)).
Fixpoint pad_nul (fuel : nat) (dst : list Z) : list Z :=
  match fuel with
  | O => dst
  | S fuel => if negb (len dst mod 3 =? 0) then pad_nul fuel (dst ++ [0]) else dst
  end.

(** The bytes written, or -1; the value returned is their number. *)
Definition EVP_DecodeBlock (src : list Z) : option (list Z) :=
  let src := trim_back (trim_front src) in
  match EVP_DecodedLength (len src) with
  | None => None
  | Some dst_len =>
    if INT_MAX <? dst_len then None
    else dst ← EVP_DecodeBase64 dst_len src; Some (pad_nul 2 dst)
  end.
End Base64.

(** * The encoding *)
Definition b64_char (v : Z) : Z :=
  if v <? 26 then 65 + v else if v <? 52 then 97 + (v - 26) else if v <? 62 then 48 + (v - 52)
  else if v =? 62 then 43 else 47.
Fixpoint b64_encode (l : list Z) : list Z :=
  match l with
  | [] => []
  | a :: b :: c :: l =>
    b64_char (a / 4) :: b64_char (a mod 4 * 16 + b / 16) :: b64_char (b mod 16 * 4 + c / 64) :: b64_char (c mod 64)
    :: b64_encode l
  | [a; b] => [b64_char (a / 4); b64_char (a mod 4 * 16 + b / 16); b64_char (b mod 16 * 4); 61]
  | [a] => [b64_char (a / 4); b64_char (a mod 4 * 16); 61; 61]
  end.

(** The value of a character; [None]: not in the alphabet. *)
Definition b64_val (c : Z) : option Z :=
  if (65 <=? c) && (c <=? 90) then Some (c - 65)
  else if (97 <=? c) && (c <=? 122) then Some (c - 97 + 26)
  else if (48 <=? c) && (c <=? 57) then Some (c - 48 + 52)
  else if c =? 43 then Some 62 else if c =? 47 then Some 63 else None.

Lemma list_ind3 {X} (Q : list X -> Prop) : Q [] -> (forall a, Q [a]) -> (forall a b, Q [a; b]) ->
  (forall a b c l, Q l -> Q (a :: b :: c :: l)) -> forall l, Q l.
Proof.
  intros H0 H1 H2 H3. fix IH 1. intros [|a [|b [|c l]]]; [done | done | done |]. apply H3, IH.
Qed.
Lemma list_ind4 {X} (Q : list X -> Prop) : (forall l, (length l < 4)%nat -> Q l) ->
  (forall a b c d l, Q l -> Q (a :: b :: c :: d :: l)) -> forall l, Q l.
Proof.
  intros H0 H1. fix IH 1. intros [|a [|b [|c [|d l]]]]; try (apply H0; cbn; lia). apply H1, IH.
Qed.

Lemma b64_val_char v : 0 <= v < 64 -> b64_val (b64_char v) = Some v /\ b64_char v <> 61 /\ is_byte (b64_char v).
Proof.
  intros Hv. assert (H : forall_from (fun v => bool_decide (b64_val (b64_char v) = Some v) && negb (b64_char v =? 61)
    && (0 <=? b64_char v) && (b64_char v <? 256)) 0 64 = true) by by vm_compute.
  apply (forall_from_spec _ _ _ v) in H; [|done]. rewrite !andb_true_iff, bool_decide_eq_true in H. unfold is_byte.
  destruct H as [[[H ?] ?] ?]. split; [done | lia].
Qed.
Lemma b64_char_val c v : b64_val c = Some v -> b64_char v = c /\ 0 <= v < 64.
Proof.
  intros Hv. assert (Hc : 0 <= c < 128).
  { unfold b64_val in Hv. repeat match type of Hv with (if ?b then _ else _) = _ => destruct b eqn:?; [lia|] end. done. }
  assert (H : forall_from (fun c => match b64_val c with Some v => (b64_char v =? c) && (0 <=? v) && (v <? 64) | None => true end)
    0 128 = true) by by vm_compute.
  apply (forall_from_spec _ _ _ c) in H; [|done]. cbv beta in H. rewrite Hv in H. lia.
Qed.

Section Proofs.
Context `{P : Platform}.

Lemma conv_bin2ascii_spec a : 0 <= a -> conv_bin2ascii a = b64_char (a mod 64).
Proof.
  intros Ha.
  assert (H : forall_from (fun a => conv_bin2ascii a =? b64_char (a mod 64)) 0 256 = true)
    by (destruct P as [n [->| ->]]; by vm_compute).
  pose proof (byte_forallb _ (u8 a) H ltac:(apply Z.mod_pos_bound; lia)) as E. cbv beta in E. apply Z.eqb_eq in E.
  replace (u8 a mod 64) with (a mod 64) in E by (unfold wrap; Z.div_mod_to_equations; lia).
  rewrite <- E. unfold conv_bin2ascii. by replace (u8 (u8 a)) with (u8 a) by (unfold wrap; Z.div_mod_to_equations; lia).
Qed.

Lemma ascii_to_bin_spec c : is_byte c ->
  base64_ascii_to_bin c = match b64_val c with Some v => v | None => if c =? 61 then 0 else 0xff end.
Proof.
  intros Hc. apply Z.eqb_eq.
  apply (byte_forallb (fun c => base64_ascii_to_bin c =? match b64_val c with Some v => v | None => if c =? 61 then 0 else 0xff end));
    [|done]. destruct P as [n [->| ->]]; by vm_compute.
Qed.

(** Three bytes in 24 bits. *)
Lemma bits24 a b c : is_byte a -> is_byte b -> is_byte c ->
  Z.lor (Z.lor (u32 (Z.shiftl a 16)) (u32 (Z.shiftl b 8))) c = a * 65536 + b * 256 + c.
Proof.
  unfold is_byte. intros. rewrite !(wrap_small 32) by (rewrite Z.shiftl_mul_pow2; lia).
  replace (Z.lor (Z.shiftl a 16) (Z.shiftl b 8)) with (Z.shiftl (a * 256 + b) 8).
  - rewrite lor_shiftl_add by lia. lia.
  - change 256 with (2 ^ 8). rewrite <- (lor_shiftl_add a b 8), Z.shiftl_lor, Z.shiftl_shiftl by lia. done.
Qed.
Lemma shiftr_bits x k : 0 <= k -> Z.shiftr x k = x / 2 ^ k.
Proof. apply Z.shiftr_div_pow2. Qed.

Lemma conv_shift x k : 0 <= x -> 0 <= k -> conv_bin2ascii (Z.shiftr x k) = b64_char (x / 2 ^ k mod 64).
Proof. intros. rewrite shiftr_bits by done. apply conv_bin2ascii_spec, Z.div_pos; lia. Qed.

Lemma encode_block_spec l : bytes l -> EVP_EncodeBlock l = (b64_encode l, wrap size_bits (len (b64_encode l))).
Proof.
  assert (H4 : forall x y z w : Z, wrap size_bits (len [x; y; z; w]) = 4).
  { intros. change (len [x; y; z; w]) with 4. apply wrap_small. platform; lia. }
  induction l as [|a|a b|a b c l IH] using list_ind3; intros Hb; cbn [EVP_EncodeBlock b64_encode].
  - done.
  - apply bytes_cons in Hb as [Ha _]. rewrite H4. pose proof (bits24 a 0 0 Ha ltac:(done) ltac:(done)) as E.
    rewrite Z.shiftl_0_l in E. change (u32 0) with 0 in E. rewrite !Z.lor_0_r in E. rewrite E. unfold is_byte in Ha.
    rewrite !conv_shift by lia. do 2 f_equal; [|f_equal]; f_equal; Z.div_mod_to_equations; lia.
  - apply bytes_cons in Hb as [Ha [Hb _]%bytes_cons]. rewrite H4. pose proof (bits24 a b 0 Ha Hb ltac:(done)) as E.
    rewrite Z.lor_0_r in E. rewrite E. unfold is_byte in *.
    rewrite !conv_shift by lia. do 2 f_equal; [|f_equal; [|f_equal]]; f_equal; Z.div_mod_to_equations; lia.
  - apply bytes_cons in Hb as [Ha [Hb [Hc Hl]%bytes_cons]%bytes_cons]. rewrite IH by done. rewrite bits24 by done.
    unfold is_byte in *. rewrite !conv_shift, conv_bin2ascii_spec by lia. f_equal.
    + do 1 f_equal; [|f_equal; [|f_equal; [|f_equal]]]; f_equal; Z.div_mod_to_equations; lia.
    + rewrite !len_cons. unfold wrap. rewrite Zplus_mod_idemp_l. f_equal. lia.
Qed.

Lemma sextets a b c d : 0 <= a < 64 -> 0 <= b < 64 -> 0 <= c < 64 -> 0 <= d < 64 ->
  Z.lor (Z.lor (Z.lor (u32 (Z.shiftl a 18)) (u32 (Z.shiftl b 12))) (u32 (Z.shiftl c 6))) d =
  a * 262144 + b * 4096 + c * 64 + d.
Proof.
  intros. rewrite !(wrap_small 32) by (rewrite Z.shiftl_mul_pow2; lia).
  replace (Z.lor (Z.lor (Z.shiftl a 18) (Z.shiftl b 12)) (Z.shiftl c 6)) with (Z.shiftl (a * 4096 + b * 64 + c) 6).
  - rewrite lor_shiftl_add by lia. lia.
  - replace (a * 4096 + b * 64 + c) with ((a * 2 ^ 6 + b) * 2 ^ 6 + c) by lia.
    rewrite <- (lor_shiftl_add (_ + b) c 6), <- (lor_shiftl_add a b 6), !Z.shiftl_lor, !Z.shiftl_shiftl by lia. done.
Qed.

Definition byte0 (a b : Z) : Z := a * 4 + b / 16.
Definition byte1 (b c : Z) : Z := b mod 16 * 16 + c / 4.
Definition byte2 (c d : Z) : Z := c mod 4 * 64 + d.

(** What a quad decodes to. *)
Definition b64_quad (i0 i1 i2 i3 : Z) : option (list Z) :=
  match b64_val i0, b64_val i1, b64_val i2, b64_val i3 with
  | Some a, Some b, Some c, Some d => Some [byte0 a b; byte1 b c; byte2 c d]
  | Some a, Some b, Some c, None => if i3 =? 61 then Some [byte0 a b; byte1 b c] else None
  | Some a, Some b, None, None => if (i2 =? 61) && (i3 =? 61) then Some [byte0 a b] else None
  | _, _, _, _ => None
  end.

Lemma quad_bytes a b c d : 0 <= a < 64 -> 0 <= b < 64 -> 0 <= c < 64 -> 0 <= d < 64 ->
  let v := a * 262144 + b * 4096 + c * 64 + d in
  u8 (Z.shiftr v 16) = byte0 a b /\ u8 (Z.shiftr v 8) = byte1 b c /\ u8 v = byte2 c d.
Proof.
  intros. subst v. rewrite !shiftr_bits by lia. unfold byte0, byte1, byte2, wrap.
  split_and!; Z.div_mod_to_equations; lia.
Qed.

(** Whether a character is padding, and its value as the code sees it. *)
Lemma char_cases c : is_byte c ->
  (exists v, b64_val c = Some v /\ base64_ascii_to_bin c = v /\ 0 <= v < 64 /\ (c =? 61) = false) \/
  (b64_val c = None /\ base64_ascii_to_bin c = 0 /\ (c =? 61) = true) \/
  (b64_val c = None /\ base64_ascii_to_bin c = 0xff /\ (c =? 61) = false).
Proof.
  intros Hc. rewrite ascii_to_bin_spec by done. destruct (b64_val c) as [v|] eqn:E.
  - left. exists v. pose proof (b64_char_val _ _ E) as [_ ?]. split_and!; try done; try lia.
    destruct (Z.eqb_spec c 61) as [->|]; [done | done].
  - right. destruct (c =? 61); [left | right]; done.
Qed.

Lemma decode_quad_spec i0 i1 i2 i3 : is_byte i0 -> is_byte i1 -> is_byte i2 -> is_byte i3 ->
  base64_decode_quad i0 i1 i2 i3 = b64_quad i0 i1 i2 i3.
Proof.
  intros H0 H1 H2 H3. unfold base64_decode_quad, b64_quad. cbv zeta.
  destruct (char_cases i0 H0) as [(a & E0 & F0 & R0 & G0)|[(E0 & F0 & G0)|(E0 & F0 & G0)]];
  destruct (char_cases i1 H1) as [(b & E1 & F1 & R1 & G1)|[(E1 & F1 & G1)|(E1 & F1 & G1)]];
  destruct (char_cases i2 H2) as [(c & E2 & F2 & R2 & G2)|[(E2 & F2 & G2)|(E2 & F2 & G2)]];
  destruct (char_cases i3 H3) as [(d & E3 & F3 & R3 & G3)|[(E3 & F3 & G3)|(E3 & F3 & G3)]];
  rewrite ?E0, ?E1, ?E2, ?E3, ?F0, ?F1, ?F2, ?F3, ?G0, ?G1, ?G2, ?G3;
  match goal with |- (if ?x then _ else _) = _ => destruct x eqn:Hx end; try done; try lia;
  rewrite sextets by lia; cbn -[wrap Z.shiftr Z.mul Z.add];
  match goal with |- context [?a * 262144 + ?b * 4096 + ?c * 64 + ?d] =>
    destruct (quad_bytes a b c d ltac:(lia) ltac:(lia) ltac:(lia) ltac:(lia)) as (Q0 & Q1 & Q2) end;
  cbv zeta in Q0, Q1, Q2; rewrite ?Q0, ?Q1, ?Q2; done.
Qed.

(** Text and the data it decodes to: quads, of which the last may be padded. *)
Inductive b64_text : list Z -> list Z -> Prop :=
| text_nil : b64_text [] []
| text_last i0 i1 i2 i3 q : b64_quad i0 i1 i2 i3 = Some q -> b64_text [i0; i1; i2; i3] q
| text_quad i0 i1 i2 i3 q l out : b64_quad i0 i1 i2 i3 = Some q -> len q = 3 -> b64_text l out ->
    b64_text (i0 :: i1 :: i2 :: i3 :: l) (q ++ out).

Lemma bytes_4 i0 i1 i2 i3 l : bytes (i0 :: i1 :: i2 :: i3 :: l) ->
  (is_byte i0 /\ is_byte i1 /\ is_byte i2 /\ is_byte i3) /\ bytes l.
Proof. rewrite !bytes_cons. tauto. Qed.

Lemma mod4_cons i0 i1 i2 i3 (l : list Z) : len (i0 :: i1 :: i2 :: i3 :: l) mod 4 = len l mod 4.
Proof. rewrite !len_cons. Z.div_mod_to_equations; lia. Qed.

Lemma decode_loop_iff l out : bytes l ->
  len l mod 4 = 0 /\ decode_base64_loop l = Some out <-> b64_text l out.
Proof.
  revert out. induction l as [l Hs|i0 i1 i2 i3 l IH] using list_ind4; intros out Hb.
  - split.
    + intros [Hm H]. assert (l = []) as -> by (destruct l as [|? [|? [|? [|? ?]]]]; done || (cbn in Hs; lia)).
      injection H as <-. constructor.
    + intros H. destruct H; [done | cbn in Hs; lia..].
  - apply bytes_4 in Hb as [(? & ? & ? & ?) Hb]. rewrite mod4_cons. cbn [decode_base64_loop].
    rewrite decode_quad_spec by done. split.
    + intros [Hm Hd]. destruct (b64_quad i0 i1 i2 i3) as [q|] eqn:Eq; [|done]. cbn in Hd.
      destruct (negb (len q =? 3) && negb (len l =? 0)) eqn:Hg; [done|].
      destruct (decode_base64_loop l) as [out'|] eqn:El; [|done]. injection Hd as <-.
      assert (Ht : b64_text l out') by by apply IH. destruct (Z.eqb_spec (len q) 3); [by constructor|].
      destruct (Z.eqb_spec (len l) 0) as [->%len_0_nil|]; [|done]. injection El as <-. rewrite app_nil_r. by constructor.
    + intros Ht. inversion Ht as [|? ? ? ? q Eq|? ? ? ? q l' out' Eq Hq Hl]; subst.
      * rewrite Eq. cbn. rewrite andb_false_r. by rewrite app_nil_r.
      * apply IH in Hl as [Hm Hl]; [|done]. split; [done|]. rewrite Eq, Hl. cbn. by rewrite Hq.
Qed.

Lemma b64_roundtrip l : bytes l -> b64_text (b64_encode l) l /\ bytes (b64_encode l) /\ len (b64_encode l) = (len l + 2) / 3 * 4.
Proof.
  induction l as [|a|a b|a b c l IH] using list_ind3; intros Hb; cbn [b64_encode].
  - split_and!; [constructor | constructor | done].
  - apply bytes_cons in Hb as [Ha _]. unfold is_byte in Ha.
    destruct (b64_val_char (a / 4)) as (E0 & _ & B0); [Z.div_mod_to_equations; lia|].
    destruct (b64_val_char (a mod 4 * 16)) as (E1 & _ & B1); [Z.div_mod_to_equations; lia|].
    split_and!; [|repeat (done || constructor)|done]. constructor. unfold b64_quad. rewrite E0, E1. cbn -[byte0]. do 2 f_equal. unfold byte0.
    Z.div_mod_to_equations; lia.
  - apply bytes_cons in Hb as [Ha [Hb _]%bytes_cons]. unfold is_byte in *.
    destruct (b64_val_char (a / 4)) as (E0 & _ & B0); [Z.div_mod_to_equations; lia|].
    destruct (b64_val_char (a mod 4 * 16 + b / 16)) as (E1 & _ & B1); [Z.div_mod_to_equations; lia|].
    destruct (b64_val_char (b mod 16 * 4)) as (E2 & _ & B2); [Z.div_mod_to_equations; lia|].
    split_and!; [|repeat (done || constructor)|done]. constructor. unfold b64_quad. rewrite E0, E1, E2. cbn -[byte0 byte1]. unfold byte0, byte1.
    f_equal. f_equal; [|f_equal]; Z.div_mod_to_equations; lia.
  - apply bytes_cons in Hb as [Ha [Hb [Hc Hl]%bytes_cons]%bytes_cons]. unfold is_byte in *.
    destruct (IH Hl) as (IH1 & IH2 & IH3).
    destruct (b64_val_char (a / 4)) as (E0 & _ & B0); [Z.div_mod_to_equations; lia|].
    destruct (b64_val_char (a mod 4 * 16 + b / 16)) as (E1 & _ & B1); [Z.div_mod_to_equations; lia|].
    destruct (b64_val_char (b mod 16 * 4 + c / 64)) as (E2 & _ & B2); [Z.div_mod_to_equations; lia|].
    destruct (b64_val_char (c mod 64)) as (E3 & _ & B3); [Z.div_mod_to_equations; lia|].
    split_and!; [|repeat (done || constructor)|].
    + apply (text_quad _ _ _ _ [a; b; c]); [|done | done]. unfold b64_quad. rewrite E0, E1, E2, E3. unfold byte0, byte1, byte2.
      f_equal. f_equal; [|f_equal; [|f_equal]]; Z.div_mod_to_equations; lia.
    + rewrite !len_cons, IH3. Z.div_mod_to_equations; lia.
Qed.

Lemma encoded_length_spec n : 0 <= n <= size_max ->
  EVP_EncodedLength n = if (n + 2) / 3 * 4 + 1 <=? size_max then Some ((n + 2) / 3 * 4 + 1) else None.
Proof.
  intros Hn. unfold EVP_EncodedLength, size_max in *. assert (Hsz : 2 ^ size_bits = 2 ^ 32 \/ 2 ^ size_bits = 2 ^ 64) by (platform; lia).
  cbv zeta. rewrite Z.shiftl_mul_pow2, Z.shiftr_div_pow2 by lia. unfold wrap.
  generalize dependent (2 ^ size_bits). intros m Hn Hsz. change (2 ^ 2) with 4.
  destruct (Z.ltb_spec ((n + 2) mod m) n).
  { destruct (Z.leb_spec ((n + 2) / 3 * 4 + 1) (m - 1)); [Z.div_mod_to_equations; lia | done]. }
  assert (E : (n + 2) mod m = n + 2) by (Z.div_mod_to_equations; lia). rewrite E.
  set (k := (n + 2) / 3) in *. assert (Hk : 0 <= k /\ 3 * k <= n + 2 < 3 * k + 3) by (subst k; Z.div_mod_to_equations; lia).
  clearbody k. destruct (Z.leb_spec (k * 4 + 1) (m - 1)) as [Hle|Hgt].
  - rewrite (Z.mod_small (k * 4)) by lia. rewrite Z.div_mul by lia. rewrite Z.eqb_refl. cbn [negb].
    rewrite (Z.mod_small (k * 4 + 1)) by lia. destruct (Z.ltb_spec (k * 4 + 1) (k * 4)); [lia | done].
  - destruct (Z.eqb_spec (k * 4 mod m / 4) k) as [Hk4|]; [|done]. exfalso. Z.div_mod_to_equations; lia.
Qed.

(** EVP_EncodeBlock writes the base64 encoding of its input, and
    EVP_EncodedLength is the exact size of the buffer it needs, NUL included:
    it fails only when that size is not a size_t. *)
Theorem EVP_EncodeBlock_correct src : bytes src -> len src <= size_max ->
  (EVP_EncodeBlock src).1 = b64_encode src /\
  match EVP_EncodedLength (len src) with
  | Some n => n = len (b64_encode src) + 1 /\ (EVP_EncodeBlock src).2 = len (b64_encode src)
  | None => size_max < len (b64_encode src) + 1
  end.
Proof.
  intros Hb Hl. rewrite encode_block_spec by done. split; [done|]. destruct (b64_roundtrip src Hb) as (_ & _ & E).
  rewrite encoded_length_spec, E by (zlen_facts; lia). destruct (Z.leb_spec ((len src + 2) / 3 * 4 + 1) size_max); [|done].
  split; [done|]. cbn [snd]. apply wrap_small. unfold size_max in *. zlen_facts.
  split; [Z.div_mod_to_equations; lia | lia].
Qed.

Lemma decode_base64_iff max_out inp out : bytes inp -> len inp <= size_max ->
  EVP_DecodeBase64 max_out inp = Some out <-> b64_text inp out /\ len inp / 4 * 3 <= max_out.
Proof.
  intros Hb Hl. rewrite <- decode_loop_iff by done. unfold EVP_DecodeBase64, EVP_DecodedLength.
  destruct (Z.eqb_spec (len inp mod 4) 0); cbn [negb]; [|by split; [|intros [[]]]].
  rewrite wrap_small by (unfold size_max in Hl; zlen_facts; Z.div_mod_to_equations; lia).
  destruct (Z.ltb_spec max_out (len inp / 4 * 3)); [split; [done | intros [_ ?]; lia]|]. tauto.
Qed.

(** EVP_DecodeBase64 accepts exactly base64 text, given a large enough buffer:
    quads of the alphabet of which only the last may end in padding. What
    EVP_EncodeBlock writes decodes to the bytes it was given. *)
Theorem EVP_DecodeBase64_correct :
  (forall max_out inp out, bytes inp -> len inp <= size_max ->
     EVP_DecodeBase64 max_out inp = Some out <-> b64_text inp out /\ len inp / 4 * 3 <= max_out) /\
  (forall data n, bytes data -> len data <= size_max -> EVP_EncodedLength (len data) = Some n ->
     EVP_DecodeBase64 (n / 4 * 3) (EVP_EncodeBlock data).1 = Some data).
Proof.
  split; [apply decode_base64_iff|]. intros data n Hb Hl. destruct (b64_roundtrip data Hb) as (Ht & Hbe & E).
  rewrite encoded_length_spec by (zlen_facts; lia). rewrite <- E, encode_block_spec by done. cbn [fst].
  destruct (Z.leb_spec (len (b64_encode data) + 1) size_max); [|done]. intros [= <-].
  apply decode_base64_iff; [done | lia |]. split; [done|]. Z.div_mod_to_equations; lia.
Qed.
End Proofs.

Lemma EVP_EncodeBlock_correct_witness : (@EVP_EncodeBlock LP64 [0x66; 0x6f]).1 = [90; 109; 56; 61].
Proof. apply (@EVP_EncodeBlock_correct LP64 [0x66; 0x6f]); [repeat constructor; done | done]. Defined.
