(* ===== verification/Base64Stream.v ===== *)
(** The streaming encoder and decoder of base64.cc, over any division of their
    input into calls. *)
From S2P Require Import Prelude.
From S2P Require Import Internal.
From S2P Require Import Base64.

Open Scope Z_scope.

Lemma ztake_all_eq {A} n (l : list A) : n = len l -> ztake n l = l.
Proof. intros ->. apply ztake_all. Qed.

Section Stream.
Context `{P : Platform}.

(** A whole message: the text of all the calls. *)
Fixpoint encode_chunks (ctx : evp_encode_ctx_st) (chunks : list (list Z)) : list Z :=
  match chunks with
  | [] => let '(_, out, out_len) := EVP_EncodeFinal ctx in ztake out_len out
  | c :: chunks =>
    let '(ctx, out, out_len) := EVP_EncodeUpdate ctx c in ztake out_len out ++ encode_chunks ctx chunks
  end.
Definition encode_stream (chunks : list (list Z)) : list Z := encode_chunks EVP_EncodeInit chunks.

(** The data of all the calls, until one fails. *)
Fixpoint decode_chunks (ctx : evp_encode_ctx_st) (chunks : list (list Z)) : option (list Z) :=
  match chunks with
  | [] => if EVP_DecodeFinal ctx =? 1 then Some [] else None
  | c :: chunks =>
    let '(ctx, ret, out, out_len) := EVP_DecodeUpdate ctx c in
    if ret =? -1 then None else rest ← decode_chunks ctx chunks; Some (ztake out_len out ++ rest)
  end.
Definition decode_stream (chunks : list (list Z)) : option (list Z) := decode_chunks EVP_DecodeInit chunks.

(** * Encoding *)

(** [k] lines of 48 bytes each; the text of a message. *)
Definition line (l : list Z) : list Z := b64_encode l ++ [10].
Fixpoint full_lines (k : nat) (l : list Z) : list Z :=
  match k with O => [] | S k => line (ztake 48 l) ++ full_lines k (zdrop 48 l) end.
Definition lines (l : list Z) : list Z :=
  let k := Z.to_nat (len l / 48) in
  let rest := zdrop (48 * Z.of_nat k) l in
  full_lines k l ++ (if len rest =? 0 then [] else line rest).

Lemma len_line l : bytes l -> len (line l) = (len l + 2) / 3 * 4 + 1.
Proof. intros Hb. unfold line. destruct (b64_roundtrip l Hb) as (_ & _ & E). rewrite len_app, E. done. Qed.

Lemma full_lines_app k j l : full_lines (k + j) l = full_lines k l ++ full_lines j (zdrop (48 * Z.of_nat k) l).
Proof.
  revert l. induction k as [|k IH]; intros l; [by rewrite zdrop_0|]. cbn [full_lines Nat.add].
  rewrite IH, <- app_assoc. do 3 f_equal. unfold zdrop. rewrite drop_drop. f_equal. lia.
Qed.
Lemma full_lines_prefix k l r : 48 * Z.of_nat k <= len l -> full_lines k (l ++ r) = full_lines k l.
Proof.
  revert l. induction k as [|k IH]; intros l Hl; [done|]. cbn [full_lines].
  assert (E : ztake 48 (l ++ r) = ztake 48 l /\ zdrop 48 (l ++ r) = zdrop 48 l ++ r).
  { unfold ztake, zdrop, len in *. rewrite take_app_le, drop_app_le by lia. done. }
  destruct E as [-> ->]. rewrite IH; [done|]. rewrite len_zdrop; lia.
Qed.
Lemma len_full_lines k l : bytes l -> 48 * Z.of_nat k <= len l -> len (full_lines k l) = 65 * Z.of_nat k.
Proof.
  revert l. induction k as [|k IH]; intros l Hb Hl; [done|]. cbn [full_lines].
  rewrite len_app, len_line, len_ztake by (by apply bytes_ztake || lia).
  rewrite IH; [|by apply bytes_zdrop | rewrite len_zdrop by lia; lia]. change ((48 + 2) / 3 * 4 + 1) with 65. lia.
Qed.

Lemma encode_block_line l : bytes l -> len l <= 48 ->
  EVP_EncodeBlock l = (b64_encode l, len (b64_encode l)) /\ len (b64_encode l) <= 64.
Proof.
  intros Hb Hl. rewrite encode_block_spec by done. destruct (b64_roundtrip l Hb) as (_ & _ & E). rewrite E.
  assert (0 <= (len l + 2) / 3 * 4 <= 64) by (zlen_facts; Z.div_mod_to_equations; lia).
  split; [|lia]. f_equal. apply wrap_small. platform; lia.
Qed.

Lemma encode_lines_spec fuel k l total : bytes l -> Z.of_nat k = len l / 48 -> (k <= fuel)%nat ->
  0 <= total -> total + 65 * Z.of_nat k <= INT_MAX ->
  encode_lines fuel l total = (full_lines k l, zdrop (48 * Z.of_nat k) l, Some (total + 65 * Z.of_nat k)).
Proof.
  revert k l total. induction fuel as [|fuel IH]; intros k l total Hb Hk Hf Ht Hm.
  { assert (k = O) as -> by lia. cbn. rewrite zdrop_0. do 2 f_equal. lia. }
  cbn [encode_lines]. unfold sizeof_data, INT_MAX in *. pose proof (len_nonneg l). destruct (Z.ltb_spec (len l) 48).
  { assert (k = O) as -> by (Z.div_mod_to_equations; lia). cbn. rewrite zdrop_0. do 2 f_equal. lia. }
  destruct k as [|k]; [exfalso; Z.div_mod_to_equations; lia|].
  assert (Hlt : len (ztake 48 l) = 48) by (apply len_ztake; lia).
  destruct (encode_block_line (ztake 48 l)) as [E _]; [by apply bytes_ztake | lia |]. rewrite E.
  destruct (b64_roundtrip (ztake 48 l)) as (_ & _ & E2); [by apply bytes_ztake|]. rewrite Hlt in E2.
  change ((48 + 2) / 3 * 4) with 64 in E2. rewrite E2.
  rewrite !wrap_small by (platform; lia). destruct (Z.ltb_spec (total + 64 + 1) total); [lia|].
  rewrite (IH k); [|by apply bytes_zdrop | rewrite len_zdrop by lia; Z.div_mod_to_equations; lia | lia | lia | unfold INT_MAX; lia].
  cbn [full_lines]. unfold line. rewrite <- app_assoc. f_equal; [f_equal|f_equal; lia].
  unfold zdrop. rewrite drop_drop. f_equal. lia.
Qed.

(** The bytes [p] wait in the context for the line to be complete. *)
Definition encoding (ctx : evp_encode_ctx_st) (p : list Z) : Prop :=
  bytes p /\ len p < 48 /\ data_used ctx = len p /\ len (data ctx) = 48 /\ ztake (len p) (data ctx) = p.

Lemma encoding_rest ctx rest : bytes rest -> len rest < 48 -> len (data ctx) = 48 ->
  encoding (mk_ctx (len rest) (rest ++ zdrop (len rest) (data ctx)) (eof_seen ctx) (error_encountered ctx)) rest.
Proof.
  intros Hb Hl Hd. unfold encoding. cbn. rewrite len_app, len_zdrop, ztake_app_len by (zlen_facts; lia).
  split_and!; [done | done | done | lia | done].
Qed.

Lemma encode_update_spec ctx p inp : encoding ctx p -> bytes inp -> len inp <= 2 ^ 30 ->
  let k := Z.to_nat (len (p ++ inp) / 48) in
  exists ctx', EVP_EncodeUpdate ctx inp = (ctx', full_lines k (p ++ inp), 65 * Z.of_nat k) /\
    encoding ctx' (zdrop (48 * Z.of_nat k) (p ++ inp)).
Proof.
  intros (Hbp & Hp & Hu & Hd & Ht) Hb Hl k. pose proof (len_nonneg p). pose proof (len_nonneg inp).
  assert (Hk : Z.of_nat k = len (p ++ inp) / 48) by (subst k; apply Z2Nat.id, Z.div_pos; zlia). rewrite len_app in Hk. clearbody k.
  unfold EVP_EncodeUpdate, sizeof_data. rewrite Hu. destruct (Z.eqb_spec (len inp) 0) as [E0|E0].
  { assert (k = O) as -> by (Z.div_mod_to_equations; lia). exists ctx. apply len_0_nil in E0 as ->. rewrite app_nil_r.
    split; [done|]. cbn. by rewrite zdrop_0. }
  destruct (Z.ltb_spec (len inp) (48 - len p)).
  { assert (k = O) as -> by (Z.div_mod_to_equations; lia). eexists. split; [done|]. cbn [Z.of_nat Z.mul]. rewrite zdrop_0.
    rewrite Ht. unfold encoding. cbn. rewrite app_assoc, !len_app, len_zdrop by lia. split_and!; [by apply bytes_app | lia | done | lia |].
    apply ztake_app_eq. zlia. }
  destruct (Z.eqb_spec (len p) 0) as [Ep|Ep]; cbn [negb].
  - apply len_0_nil in Ep as ->. cbn [app] in *. change (len []) with 0 in *.
    rewrite (encode_lines_spec _ k); [|done | done | unfold len in *; Z.div_mod_to_equations; lia | done | unfold INT_MAX; Z.div_mod_to_equations; lia].
    eexists. cbn [app]. rewrite Z.add_0_l. unfold INT_MAX. destruct (Z.ltb_spec (2 ^ 31 - 1) (65 * Z.of_nat k)); [Z.div_mod_to_equations; lia|].
    split; [done|]. apply encoding_rest; [by apply bytes_zdrop | | done]. rewrite len_zdrop; Z.div_mod_to_equations; lia.
  - set (todo := 48 - len p) in *. assert (Hlt : len (ztake todo inp) = todo) by (apply len_ztake; lia).
    assert (Hb1 : bytes (p ++ ztake todo inp)) by (apply bytes_app; split; [done | by apply bytes_ztake]).
    rewrite Ht. destruct (encode_block_line (p ++ ztake todo inp) Hb1) as [E _]; [rewrite len_app; lia|]. rewrite E.
    destruct (b64_roundtrip _ Hb1) as (_ & _ & E2). rewrite len_app, Hlt in E2. replace (len p + todo) with 48 in E2 by lia.
    change ((48 + 2) / 3 * 4) with 64 in E2. rewrite E2. rewrite wrap_small by (platform; lia).
    destruct k as [|k]; [exfalso; Z.div_mod_to_equations; lia|].
    assert (Hld : len (zdrop todo inp) = len inp - todo) by (apply len_zdrop; lia).
    rewrite (encode_lines_spec _ k); [|by apply bytes_zdrop | rewrite Hld; subst todo; Z.div_mod_to_equations; lia
      | unfold len in *; Z.div_mod_to_equations; lia | done | unfold INT_MAX; Z.div_mod_to_equations; lia].
    assert (Hsp : p ++ inp = (p ++ ztake todo inp) ++ zdrop todo inp) by (by rewrite <- app_assoc, ztake_zdrop).
    assert (H48 : 48 = len (p ++ ztake todo inp)) by (rewrite len_app; lia).
    eexists. unfold INT_MAX. destruct (Z.ltb_spec (2 ^ 31 - 1) (64 + 1 + 65 * Z.of_nat k)); [Z.div_mod_to_equations; lia|].
    assert (Hrest : zdrop (48 * Z.of_nat (S k)) (p ++ inp) = zdrop (48 * Z.of_nat k) (zdrop todo inp)).
    { replace (48 * Z.of_nat (S k)) with (48 + 48 * Z.of_nat k) by lia. rewrite Hsp.
      rewrite <- (zdrop_app_eq 48 (p ++ ztake todo inp) (zdrop todo inp) H48) at 2. unfold zdrop. rewrite drop_drop. f_equal. lia. }
    split.
    + cbn [full_lines]. rewrite Hsp at 1 2. rewrite ztake_app_eq, zdrop_app_eq by done. unfold line. rewrite <- !app_assoc.
      f_equal. lia.
    + rewrite Hrest. apply encoding_rest; [by apply bytes_zdrop, bytes_zdrop | |].
      * rewrite len_zdrop; rewrite Hld; subst todo; Z.div_mod_to_equations; lia.
      * cbn. lia.
Qed.

Lemma encode_chunks_spec ctx p chunks : encoding ctx p -> Forall (fun c => bytes c /\ len c <= 2 ^ 30) chunks ->
  encode_chunks ctx chunks = lines (p ++ concat chunks).
Proof.
  revert ctx p. induction chunks as [|c chunks IH]; intros ctx p Henc Hc; cbn [encode_chunks concat].
  - destruct Henc as (Hbp & Hp & Hu & Hd & Ht). rewrite app_nil_r. unfold EVP_EncodeFinal, lines. rewrite Hu, Ht.
    pose proof (len_nonneg p). replace (len p / 48) with 0 by (Z.div_mod_to_equations; lia). cbn [Z.to_nat Z.of_nat Z.mul full_lines app].
    rewrite zdrop_0. destruct (len p =? 0); [done|]. destruct (encode_block_line p Hbp) as [E _]; [lia|]. rewrite E.
    unfold line. apply ztake_all_eq. zlia.
  - apply Forall_cons_iff in Hc as [[Hb Hl] Hc].
    destruct (encode_update_spec ctx p c Henc Hb Hl) as (ctx' & E & Henc'). rewrite E. rewrite (IH ctx' _ Henc' Hc).
    destruct Henc as (Hbp & Hp & _). pose proof (len_nonneg p). pose proof (len_nonneg c). pose proof (len_nonneg (concat chunks)).
    set (k := Z.to_nat (len (p ++ c) / 48)) in *.
    assert (Hk : Z.of_nat k = len (p ++ c) / 48) by (subst k; apply Z2Nat.id, Z.div_pos; zlia). clearbody k.
    assert (Hk48 : 48 * Z.of_nat k <= len (p ++ c)) by (rewrite Hk; Z.div_mod_to_equations; lia).
    rewrite ztake_all_eq by (rewrite len_full_lines; [done | by apply bytes_app | done]).
    unfold lines. rewrite (app_assoc p c). set (all := (p ++ c) ++ concat chunks).
    assert (Hall : zdrop (48 * Z.of_nat k) (p ++ c) ++ concat chunks = zdrop (48 * Z.of_nat k) all).
    { subst all. unfold zdrop. rewrite (drop_app_le (p ++ c)); [done|]. clear - Hk48. unfold len in Hk48. lia. }
    rewrite Hall. rewrite <- (full_lines_prefix k (p ++ c) (concat chunks)) by done. fold all.
    assert (Hla : len all = len (p ++ c) + len (concat chunks)) by apply len_app. set (j := Z.to_nat (len (zdrop _ all) / 48)).
    rewrite app_assoc, <- full_lines_app.
    assert (Hj : Z.to_nat (len all / 48) = (k + j)%nat).
    { subst j. rewrite len_zdrop by lia. pose proof (Z.div_pos (len all - 48 * Z.of_nat k) 48 ltac:(lia) ltac:(lia)).
      apply Nat2Z.inj. rewrite Nat2Z.inj_add, !Z2Nat.id; Z.div_mod_to_equations; lia. }
    rewrite Hj. unfold zdrop. rewrite drop_drop. replace (Z.to_nat (48 * Z.of_nat k) + Z.to_nat (48 * Z.of_nat j))%nat
      with (Z.to_nat (48 * Z.of_nat (k + j))) by lia. done.
Qed.

(** * Decoding *)
Definition strip (l : list Z) : list Z := List.filter (fun c => negb (is_space c)) l.

(** Decoding as many quads as there are: the data, the characters left over, and
    whether a padded quad ended the text. *)
Fixpoint run_quads (l : list Z) : option (list Z * list Z * bool) :=
  match l with
  | i0 :: i1 :: i2 :: i3 :: l =>
    quad ← base64_decode_quad i0 i1 i2 i3;
    if len quad <? 3 then if len l =? 0 then Some (quad, [], true) else None
    else '(out, rest, eof) ← run_quads l; Some (quad ++ out, rest, eof)
  | _ => Some ([], l, false)
  end.

(** Going on with more text. *)
Definition resume (st : list Z * bool) (l : list Z) : option (list Z * list Z * bool) :=
  if st.2 then if len l =? 0 then Some ([], [], true) else None else run_quads (st.1 ++ l).

Lemma run_quads_app x y : run_quads (x ++ y) =
  ('(out, rest, eof) ← run_quads x; '(out', rest, eof) ← resume (rest, eof) y; Some (out ++ out', rest, eof)).
Proof.
  induction x as [x Hx|i0 i1 i2 i3 x IH] using list_ind4.
  - assert (E : run_quads x = Some ([], x, false)) by (destruct x as [|? [|? [|? [|? ?]]]]; done || (cbn in Hx; lia)).
    rewrite E. cbn [mbind option_bind]. unfold resume. cbn [fst snd].
    destruct (run_quads (x ++ y)) as [[[out rest] eof]|]; done.
  - cbn [app run_quads]. destruct (base64_decode_quad i0 i1 i2 i3) as [quad|]; [|done]. cbn [mbind option_bind].
    destruct (len quad <? 3).
    + rewrite len_app. pose proof (len_nonneg x). pose proof (len_nonneg y).
      destruct (Z.eqb_spec (len x) 0); cbn [mbind option_bind].
      * unfold resume. cbn [fst snd]. replace (len x + len y) with (len y) by lia. destruct (len y =? 0); [|done].
        cbn. by rewrite app_nil_r.
      * by destruct (Z.eqb_spec (len x + len y) 0); [lia|].
    + rewrite IH. destruct (run_quads x) as [[[out rest] eof]|]; [|done]. cbn [mbind option_bind].
      destruct (resume (rest, eof) y) as [[[out' rest'] eof']|]; [|done]. cbn. by rewrite app_assoc.
Qed.

(** The context of a decoder with characters [p] pending. *)
Definition decoding (ctx : evp_encode_ctx_st) (st : list Z * bool) : Prop :=
  len st.1 < 4 /\ (st.2 = true -> st.1 = []) /\ data_used ctx = len st.1 /\ eof_seen ctx = st.2 /\
  error_encountered ctx = false /\ len (data ctx) = 48 /\ ztake (len st.1) (data ctx) = st.1.

Lemma zupd_ztake (l : list Z) i c : 0 <= i < len l -> ztake (i + 1) (zupd l i c) = ztake i l ++ [c].
Proof.
  intros Hi. unfold ztake, zupd, len in *. destruct (Z.ltb_spec i 0); [lia|].
  replace (Z.to_nat (i + 1)) with (S (Z.to_nat i)) by lia.
  rewrite (take_S_r _ _ c) by (apply list_lookup_insert_eq; lia). by rewrite take_insert_ge by lia.
Qed.

Lemma decode_quad_len i0 i1 i2 i3 q : base64_decode_quad i0 i1 i2 i3 = Some q -> 1 <= len q <= 3.
Proof.
  unfold base64_decode_quad. cbv zeta. intros H. repeat case_match; simplify_eq; rewrite !len_cons, len_nil; lia.
Qed.

(** Room for the pending characters and those of [inp]. *)
Definition quads_bound (st : list Z * bool) (inp : list Z) : Z := 3 * ((len st.1 + len inp) / 4).

Lemma decode_loop_spec inp ctx st n : decoding ctx st -> 0 <= n -> n + quads_bound st inp < 2 ^ size_bits ->
  match resume st (strip inp) with
  | Some (out, rest, eof) =>
    exists ctx', decode_update_loop ctx inp n = (ctx', Some (out, n + len out)) /\ decoding ctx' (rest, eof) /\
      len out <= quads_bound st inp
  | None => exists ctx', decode_update_loop ctx inp n = (ctx', None)
  end.
Proof.
  unfold quads_bound. revert ctx st n. induction inp as [|c inp IH]; intros ctx [p eof] n Hd Hn Hb; pose proof Hd as (Hp & He & Hu & Hs & Herr & Hld & Ht);
    cbn [fst snd] in *; cbn [strip List.filter decode_update_loop].
  - unfold resume. cbn [fst snd]. pose proof (len_nonneg p). change (len []) with 0 in *.
    assert (0 <= 3 * ((len p + 0) / 4)) by (Z.div_mod_to_equations; lia). destruct eof; cbv iota.
    + change (0 =? 0) with true. cbv iota. exists ctx. change (len []) with 0. rewrite Z.add_0_r. split; [done|]. split; [by rewrite (He eq_refl) in Hd | done].
    + rewrite app_nil_r. assert (E : run_quads p = Some ([], p, false)) by (destruct p as [|? [|? [|? [|? ?]]]]; done || zlia).
      rewrite E. exists ctx. change (len []) with 0. rewrite Z.add_0_r. by split_and!.
  - pose proof (len_nonneg p). pose proof (len_nonneg inp). rewrite len_cons in Hb |- *.
    assert (Hmono : 3 * ((len p + len inp) / 4) <= 3 * ((len p + (len inp + 1)) / 4)) by (Z.div_mod_to_equations; lia).
    destruct (is_space c) eqn:Hc; cbn [negb].
    { specialize (IH ctx (p, eof) n Hd Hn). cbn [fst snd] in IH. specialize (IH ltac:(lia)). fold (strip inp).
      destruct (resume (p, eof) (strip inp)) as [[[out rest] e]|]; [|done].
      destruct IH as (ctx' & ? & ? & ?). exists ctx'. split_and!; [done | done | lia]. }
    rewrite Hs. fold (strip inp). destruct eof.
    { unfold resume. cbn [fst snd]. destruct (Z.eqb_spec (len (c :: strip inp)) 0); [zlia|]. by eexists. }
    assert (Hupd : ztake (len p + 1) (zupd (data ctx) (len p) c) = p ++ [c]) by (rewrite zupd_ztake, Ht by lia; done).
    rewrite Hu. unfold resume. cbn [fst snd]. replace (p ++ c :: strip inp) with ((p ++ [c]) ++ strip inp) by (by rewrite <- app_assoc).
    assert (Hlz : len (zupd (data ctx) (len p) c) = 48) by (by rewrite len_zupd).
    set (data' := zupd (data ctx) (len p) c) in *. clearbody data'. destruct (Z.eqb_spec (len p + 1) 4) as [H4|H4].
    + destruct p as [|i0 [|i1 [|i2 [|? ?]]]]; try zlia. clear H4.
      assert (Hdata : data' = i0 :: i1 :: i2 :: c :: zdrop 4 data').
      { rewrite <- (ztake_zdrop 4 data') at 1. change (len [i0; i1; i2] + 1) with 4 in Hupd. by rewrite Hupd. }
      assert (Hnth : List.nth 0 data' 0 = i0 /\ List.nth 1 data' 0 = i1 /\ List.nth 2 data' 0 = i2 /\ List.nth 3 data' 0 = c)
        by (by rewrite Hdata). destruct Hnth as (-> & -> & -> & ->). cbn [app run_quads].
      destruct (base64_decode_quad i0 i1 i2 c) as [q|] eqn:Eq; [|by eexists]. cbn [mbind option_bind].
      pose proof (decode_quad_len _ _ _ _ _ Eq) as Hq. change (len [i0; i1; i2]) with 3 in *.
      assert (Hquad : 3 * ((3 + (len inp + 1)) / 4) = 3 + 3 * (len inp / 4)) by (Z.div_mod_to_equations; lia).
      pose proof (Z.div_pos (len inp) 4 ltac:(lia) ltac:(lia)).
      rewrite wrap_small by lia.
      specialize (IH (mk_ctx 0 data' (if len q <? 3 then true else false) (error_encountered ctx)) ([], len q <? 3) (n + len q)).
      cbn [fst snd] in IH. change (len []) with 0 in IH. rewrite Z.add_0_l in IH.
      assert (Hdec : decoding (mk_ctx 0 data' (if len q <? 3 then true else false) (error_encountered ctx)) ([], len q <? 3)).
      { unfold decoding. cbn. split_and!; try done. by destruct (len q <? 3). }
      specialize (IH Hdec ltac:(lia) ltac:(lia)). clear Hdec. unfold resume in IH. cbn [fst snd app] in IH.
      destruct (len q <? 3).
      * destruct (len (strip inp) =? 0).
        -- destruct IH as (ctx' & -> & Hdec & _). exists ctx'. rewrite app_nil_r. change (len []) with 0. rewrite Z.add_0_r.
           split_and!; [done | done | lia].
        -- destruct IH as (ctx' & ->). by eexists.
      * destruct (run_quads (strip inp)) as [[[out rest] e]|]; cbn [mbind option_bind].
        -- destruct IH as (ctx' & -> & Hdec & Hlo). exists ctx'. rewrite len_app. split_and!; [do 3 f_equal; lia | done | lia].
        -- destruct IH as (ctx' & ->). by eexists.
    + specialize (IH (mk_ctx (len p + 1) data' false (error_encountered ctx)) (p ++ [c], false) n).
      assert (Hpc : len (p ++ [c]) = len p + 1) by zlia. cbn [fst snd] in IH. rewrite Hpc in IH.
      assert (Hdec : decoding (mk_ctx (len p + 1) data' false (error_encountered ctx)) (p ++ [c], false)).
      { unfold decoding. cbn [fst snd data_used data eof_seen error_encountered]. rewrite Hpc. split_and!; try done. lia. }
      replace (len p + 1 + len inp) with (len p + (len inp + 1)) in IH by lia. by apply IH.
Qed.

Lemma resume_app st x y : (st.2 = true -> st.1 = []) -> resume st (x ++ y) =
  ('(out, rest, eof) ← resume st x; '(out', rest, eof) ← resume (rest, eof) y; Some (out ++ out', rest, eof)).
Proof.
  destruct st as [p [|]]; intros Hp.
  - unfold resume. cbn [fst snd]. rewrite len_app. pose proof (len_nonneg x). pose proof (len_nonneg y).
    destruct (Z.eqb_spec (len x) 0); cbn [mbind option_bind].
    + replace (len x + len y) with (len y) by lia. by destruct (len y =? 0).
    + by destruct (Z.eqb_spec (len x + len y) 0); [lia|].
  - unfold resume at 1 2. cbn [fst snd]. by rewrite app_assoc, run_quads_app.
Qed.

Lemma len_strip l : len (strip l) <= len l.
Proof. induction l as [|c l IH]; [done|]. cbn [strip List.filter]. fold (strip l). destruct (negb _); rewrite ?len_cons; lia. Qed.
Lemma strip_app x y : strip (x ++ y) = strip x ++ strip y.
Proof. apply List.filter_app. Qed.

Lemma decode_chunks_spec ctx st chunks : decoding ctx st -> Forall (fun c => len c <= 2 ^ 30) chunks ->
  decode_chunks ctx chunks =
  '(out, rest, _) ← resume st (strip (concat chunks)); if len rest =? 0 then Some out else None.
Proof.
  revert ctx st. induction chunks as [|c chunks IH]; intros ctx st Hd Hc; cbn [decode_chunks concat].
  - destruct Hd as (Hp & He & Hu & Hs & Herr & _ & _). unfold EVP_DecodeFinal. rewrite Herr, Hu. cbn [orb strip List.filter].
    unfold resume. destruct st as [p [|]]; cbn [fst snd] in *.
    + by rewrite (He eq_refl).
    + rewrite app_nil_r. assert (E : run_quads p = Some ([], p, false)) by (destruct p as [|? [|? [|? [|? ?]]]]; done || zlia).
      rewrite E. cbn [mbind option_bind]. by destruct (len p =? 0).
  - apply Forall_cons_iff in Hc as [Hl Hc]. rewrite strip_app, resume_app by apply Hd.
    assert (Hb : 0 + quads_bound st c < 2 ^ 31 - 1).
    { unfold quads_bound. pose proof (proj1 Hd). pose proof (len_nonneg st.1). pose proof (len_nonneg c). Z.div_mod_to_equations; lia. }
    pose proof (decode_loop_spec c ctx st 0 Hd ltac:(lia) ltac:(platform; lia)) as H. unfold EVP_DecodeUpdate.
    assert (Herr : error_encountered ctx = false) by apply Hd. rewrite Herr.
    destruct (resume st (strip c)) as [[[out rest] eof]|]; cbn [mbind option_bind].
    2:{ destruct H as (ctx' & ->). done. }
    destruct H as (ctx' & -> & Hd' & Hlo). rewrite Z.add_0_l. unfold INT_MAX. destruct (Z.ltb_spec (2 ^ 31 - 1) (len out)); [lia|].
    destruct ((if eof_seen ctx' then 0 else 1) =? -1) eqn:Er; [by destruct (eof_seen ctx')|].
    rewrite (IH ctx' (rest, eof) Hd' Hc), ztake_all.
    destruct (resume (rest, eof) (strip (concat chunks))) as [[[out' rest'] eof']|]; [|done]. cbn. by destruct (len rest' =? 0).
Qed.

Lemma run_quads_all l : ('(out, rest, _) ← run_quads l; if len rest =? 0 then Some out else None) =
  if len l mod 4 =? 0 then decode_base64_loop l else None.
Proof.
  induction l as [l Hl|i0 i1 i2 i3 l IH] using list_ind4.
  - destruct l as [|? [|? [|? [|? ?]]]]; try done. cbn in Hl. lia.
  - rewrite mod4_cons. cbn [run_quads decode_base64_loop]. destruct (base64_decode_quad i0 i1 i2 i3) as [q|] eqn:Eq; cbn [mbind option_bind].
    2:{ by destruct (_ =? 0). }
    pose proof (decode_quad_len _ _ _ _ _ Eq). destruct (Z.ltb_spec (len q) 3), (Z.eqb_spec (len q) 3); try lia; cbn [negb andb].
    + destruct (Z.eqb_spec (len l) 0) as [->%len_0_nil|]; cbn; [by rewrite app_nil_r | by destruct (_ =? 0)].
    + destruct (run_quads l) as [[[out rest] eof]|], (len l mod 4 =? 0); cbn [mbind option_bind] in *; try done.
      * destruct (len rest =? 0); by rewrite <- IH.
      * by destruct (len rest =? 0).
      * by rewrite <- IH.
Qed.

Lemma decoding_init : decoding EVP_DecodeInit ([], false).
Proof. by split_and!. Qed.
Lemma encoding_init : encoding EVP_EncodeInit [].
Proof. split_and!; try done. constructor. Qed.

Lemma decode_stream_spec chunks : Forall (fun c => len c <= 2 ^ 30) chunks -> len (concat chunks) <= size_max ->
  decode_stream chunks = EVP_DecodeBase64 size_max (strip (concat chunks)).
Proof.
  intros Hc Hl. unfold decode_stream. rewrite (decode_chunks_spec _ _ _ decoding_init Hc). unfold resume. cbn [fst snd app].
  rewrite run_quads_all. unfold EVP_DecodeBase64, EVP_DecodedLength. pose proof (len_strip (concat chunks)).
  destruct (Z.eqb_spec (len (strip (concat chunks)) mod 4) 0); [|done]. cbn [negb].
  rewrite wrap_small by (unfold size_max in Hl; zlen_facts; Z.div_mod_to_equations; lia).
  destruct (Z.ltb_spec size_max (len (strip (concat chunks)) / 4 * 3)); [|done]. zlen_facts. Z.div_mod_to_equations; lia.
Qed.

(** ** The lines of a message without their line feeds *)
Lemma b64_char_not_space v : 0 <= v < 64 -> is_space (b64_char v) = false.
Proof.
  intros Hv. assert (H : forall_from (fun v => negb (is_space (b64_char v))) 0 64 = true) by by vm_compute.
  apply (forall_from_spec _ _ _ v) in H; [|done]. by apply negb_true_iff in H.
Qed.
Lemma strip_encode l : bytes l -> strip (b64_encode l) = b64_encode l.
Proof.
  induction l as [|a|a b|a b c l IH] using list_ind3; intros Hb; cbn [b64_encode strip List.filter]; [done|..];
    rewrite !bytes_cons in Hb; unfold is_byte in Hb; rewrite !b64_char_not_space by (Z.div_mod_to_equations; lia); cbn [negb].
  - done.
  - done.
  - fold (strip (b64_encode l)). by rewrite IH by tauto.
Qed.
Lemma b64_encode_app x y : len x mod 3 = 0 -> b64_encode (x ++ y) = b64_encode x ++ b64_encode y.
Proof.
  induction x as [|a|a b|a b c x IH] using list_ind3; intros Hm; [done | done | done |].
  cbn [app b64_encode]. rewrite IH; [done|]. rewrite !len_cons in Hm. Z.div_mod_to_equations; lia.
Qed.
Lemma strip_line l : bytes l -> strip (line l) = b64_encode l.
Proof. intros Hb. unfold line. rewrite strip_app, strip_encode by done. apply app_nil_r. Qed.
Lemma strip_full_lines k l : bytes l -> 48 * Z.of_nat k <= len l ->
  strip (full_lines k l) ++ b64_encode (zdrop (48 * Z.of_nat k) l) = b64_encode l.
Proof.
  revert l. induction k as [|k IH]; intros l Hb Hl; [done|]. cbn [full_lines].
  rewrite strip_app, strip_line by by apply bytes_ztake.
  replace (48 * Z.of_nat (S k)) with (48 + 48 * Z.of_nat k) by lia. rewrite <- zdrop_zdrop by lia.
  rewrite <- app_assoc, IH by (by apply bytes_zdrop || (rewrite len_zdrop; lia)).
  rewrite <- b64_encode_app by (rewrite len_ztake by lia; done). by rewrite ztake_zdrop.
Qed.
Lemma strip_lines l : bytes l -> strip (lines l) = b64_encode l.
Proof.
  intros Hb. unfold lines. pose proof (len_nonneg l).
  assert (Hk : Z.of_nat (Z.to_nat (len l / 48)) = len l / 48) by (apply Z2Nat.id, Z.div_pos; lia).
  assert (H48 : 48 * (len l / 48) <= len l) by (apply Z.mul_div_le; lia).
  rewrite <- (strip_full_lines (Z.to_nat (len l / 48)) l Hb) by lia. rewrite strip_app. f_equal.
  destruct (Z.eqb_spec (len (zdrop (48 * Z.of_nat (Z.to_nat (len l / 48))) l)) 0) as [->%len_0_nil|]; [done|].
  by apply strip_line, bytes_zdrop.
Qed.
Lemma bytes_concat (ls : list (list Z)) : Forall bytes ls -> bytes (concat ls).
Proof. induction 1; [constructor|]. cbn. by apply bytes_app. Qed.
Lemma bytes_concat_chunks chunks : Forall (fun c => bytes c /\ len c <= 2 ^ 30) chunks -> bytes (concat chunks).
Proof. intros H. apply bytes_concat. induction H as [|c l [Hc _] _ IH]; by constructor. Qed.

(** C25: the streaming encoder writes lines of 48 input bytes however its input is
    divided; the streaming decoder computes EVP_DecodeBase64 of the text without
    white space, however the text is divided; so a message encoded in any pieces
    and decoded in any pieces is the message. *)
Theorem EVP_stream_correct :
  (forall chunks, Forall (fun c => bytes c /\ len c <= 2 ^ 30) chunks ->
     encode_stream chunks = lines (concat chunks)) /\
  (forall chunks, Forall (fun c => len c <= 2 ^ 30) chunks -> len (concat chunks) <= size_max ->
     decode_stream chunks = EVP_DecodeBase64 size_max (strip (concat chunks))) /\
  (forall chunks texts, Forall (fun c => bytes c /\ len c <= 2 ^ 30) chunks -> Forall (fun c => len c <= 2 ^ 30) texts ->
     concat texts = encode_stream chunks -> len (concat texts) <= size_max ->
     decode_stream texts = Some (concat chunks)).
Proof.
  split_and!.
  - intros chunks Hc. apply (encode_chunks_spec _ [] _ encoding_init Hc).
  - apply decode_stream_spec.
  - intros chunks texts Hc Ht E Hl. rewrite decode_stream_spec by done. pose proof (bytes_concat_chunks _ Hc) as Hb.
    pose proof (len_strip (concat texts)) as Hs. unfold encode_stream in E. rewrite (encode_chunks_spec _ [] _ encoding_init Hc) in E.
    rewrite E, strip_lines in Hs |- * by done. cbn [app] in *. rewrite E in Hl. destruct (b64_roundtrip _ Hb) as (Htext & Hbe & _).
    apply decode_base64_iff; [done | lia |]. split; [done|]. zlen_facts. Z.div_mod_to_equations; lia.
Qed.
End Stream.
