(* ===== verification/Poly1305.v ===== *)
(** Poly1305: the portable implementation of crypto/poly1305/poly1305.cc (the code
    of platforms without 128-bit integers; the NEON routines are assembly). *)
From S2P Require Import Prelude.
From S2P Require Import Internal.

Open Scope Z_scope.

Definition mul32x32_64 (a b : Z) : Z := u64 (a * b).

Record poly1305_state_st := mk_poly {
  r0 : Z; r1 : Z; r2 : Z; r3 : Z; r4 : Z;
  s1 : Z; s2 : Z; s3 : Z; s4 : Z;
  h0 : Z; h1 : Z; h2 : Z; h3 : Z; h4 : Z;
  buf : list Z;                   (* 16 bytes *)
  buf_used : Z;
  key : list Z;                   (* 16 bytes *)
}.

Definition with_h (st : poly1305_state_st) (h0 h1 h2 h3 h4 : Z) : poly1305_state_st :=
  mk_poly (r0 st) (r1 st) (r2 st) (r3 st) (r4 st) (s1 st) (s2 st) (s3 st) (s4 st)
    h0 h1 h2 h3 h4 (buf st) (buf_used st) (key st).
Definition with_buf (st : poly1305_state_st) (buf : list Z) (buf_used : Z) : poly1305_state_st :=
  mk_poly (r0 st) (r1 st) (r2 st) (r3 st) (r4 st) (s1 st) (s2 st) (s3 st) (s4 st)
    (h0 st) (h1 st) (h2 st) (h3 st) (h4 st) buf buf_used (key st).

(** Adding a 16-byte block; [hibit] is ORed into the last limb. *)
Definition poly1305_add (st : poly1305_state_st) (inp : list Z) (hibit : Z) : poly1305_state_st :=
  let t0 := CRYPTO_load_u32_le inp in
  let t1 := CRYPTO_load_u32_le (drop 4 inp) in
  let t2 := CRYPTO_load_u32_le (drop 8 inp) in
  let t3 := CRYPTO_load_u32_le (drop 12 inp) in
  with_h st
    (u32 (h0 st + Z.land t0 0x3ffffff))
    (u32 (h1 st + Z.land (Z.shiftr (Z.lor (u64 (Z.shiftl t1 32)) t0) 26) 0x3ffffff))
    (u32 (h2 st + Z.land (Z.shiftr (Z.lor (u64 (Z.shiftl t2 32)) t1) 20) 0x3ffffff))
    (u32 (h3 st + Z.land (Z.shiftr (Z.lor (u64 (Z.shiftl t3 32)) t2) 14) 0x3ffffff))
    (u32 (h4 st + Z.lor (Z.shiftr t3 8) hibit)).

(** The code after the label [poly1305_donna_mul]: the columns of the product,
    then the carries between them. *)
Definition sum5 (a b c d e : Z) : Z := u64 (u64 (u64 (u64 (a + b) + c) + d) + e).

Definition poly1305_carry (st : poly1305_state_st) (t0 t1 t2 t3 t4 : Z) : poly1305_state_st :=
  let h0 := Z.land (u32 t0) 0x3ffffff in
  let c := Z.shiftr t0 26 in
  let t1 := u64 (t1 + c) in
  let h1 := Z.land (u32 t1) 0x3ffffff in
  let b := u32 (Z.shiftr t1 26) in
  let t2 := u64 (t2 + b) in
  let h2 := Z.land (u32 t2) 0x3ffffff in
  let b := u32 (Z.shiftr t2 26) in
  let t3 := u64 (t3 + b) in
  let h3 := Z.land (u32 t3) 0x3ffffff in
  let b := u32 (Z.shiftr t3 26) in
  let t4 := u64 (t4 + b) in
  let h4 := Z.land (u32 t4) 0x3ffffff in
  let b := u32 (Z.shiftr t4 26) in
  with_h st (u32 (h0 + u32 (b * 5))) h1 h2 h3 h4.

Definition poly1305_donna_mul (st : poly1305_state_st) : poly1305_state_st :=
  let m := mul32x32_64 in
  poly1305_carry st
    (sum5 (m (h0 st) (r0 st)) (m (h1 st) (s4 st)) (m (h2 st) (s3 st)) (m (h3 st) (s2 st)) (m (h4 st) (s1 st)))
    (sum5 (m (h0 st) (r1 st)) (m (h1 st) (r0 st)) (m (h2 st) (s4 st)) (m (h3 st) (s3 st)) (m (h4 st) (s2 st)))
    (sum5 (m (h0 st) (r2 st)) (m (h1 st) (r1 st)) (m (h2 st) (r0 st)) (m (h3 st) (s4 st)) (m (h4 st) (s3 st)))
    (sum5 (m (h0 st) (r3 st)) (m (h1 st) (r2 st)) (m (h2 st) (r1 st)) (m (h3 st) (r0 st)) (m (h4 st) (s4 st)))
    (sum5 (m (h0 st) (r4 st)) (m (h1 st) (r3 st)) (m (h2 st) (r2 st)) (m (h3 st) (r1 st)) (m (h4 st) (r0 st))).

Fixpoint poly1305_update (fuel : nat) (st : poly1305_state_st) (inp : list Z) : poly1305_state_st :=
  match fuel with
  | O => st
  | S fuel =>
    if 16 <=? len inp then
      poly1305_update fuel (poly1305_donna_mul (poly1305_add st (ztake 16 inp) (Z.shiftl 1 24))) (zdrop 16 inp)
    else if len inp =? 0 then st
    else
      let mp := inp ++ [1] ++ replicate (Z.to_nat (15 - len inp)) 0 in
      poly1305_donna_mul (poly1305_add st mp 0)
  end.

Definition CRYPTO_poly1305_init (k : list Z) : poly1305_state_st :=
  let t0 := CRYPTO_load_u32_le k in
  let t1 := CRYPTO_load_u32_le (drop 4 k) in
  let t2 := CRYPTO_load_u32_le (drop 8 k) in
  let t3 := CRYPTO_load_u32_le (drop 12 k) in
  let r0 := Z.land t0 0x3ffffff in
  let t0 := Z.lor (Z.shiftr t0 26) (u32 (Z.shiftl t1 6)) in
  let r1 := Z.land t0 0x3ffff03 in
  let t1 := Z.lor (Z.shiftr t1 20) (u32 (Z.shiftl t2 12)) in
  let r2 := Z.land t1 0x3ffc0ff in
  let t2 := Z.lor (Z.shiftr t2 14) (u32 (Z.shiftl t3 18)) in
  let r3 := Z.land t2 0x3f03fff in
  let t3 := Z.shiftr t3 8 in
  let r4 := Z.land t3 0x00fffff in
  mk_poly r0 r1 r2 r3 r4 (u32 (r1 * 5)) (u32 (r2 * 5)) (u32 (r3 * 5)) (u32 (r4 * 5))
    0 0 0 0 0 (replicate 16 0) 0 (take 16 (drop 16 k)).

Definition CRYPTO_poly1305_update (st : poly1305_state_st) (inp : list Z) : poly1305_state_st :=
  if len inp =? 0 then st
  else
    let '(st, inp) :=
      if negb (buf_used st =? 0) then
        let todo := Z.min (16 - buf_used st) (len inp) in
        let buf := ztake (buf_used st) (buf st) ++ ztake todo inp ++ zdrop (buf_used st + todo) (buf st) in
        let used := buf_used st + todo in
        (if used =? 16 then with_buf (poly1305_update 2 (with_buf st buf used) buf) buf 0 else with_buf st buf used,
         zdrop todo inp)
      else (st, inp) in
    let '(st, inp) :=
      if 16 <=? len inp then
        let todo := len inp - len inp mod 16 in
        (poly1305_update (S (length inp)) st (ztake todo inp), zdrop todo inp)
      else (st, inp) in
    if negb (len inp =? 0) then with_buf st (inp ++ zdrop (len inp) (buf st)) (len inp) else st.

(** The steps of CRYPTO_poly1305_finish: carrying through the limbs, subtracting
    the modulus if the result is not negative, and adding the second half of the key. *)
Definition finish_carry (h0 h1 h2 h3 h4 : Z) : Z * Z * Z * Z * Z :=
  let b := Z.shiftr h0 26 in
  let h0 := Z.land h0 0x3ffffff in
  let h1 := u32 (h1 + b) in
  let b := Z.shiftr h1 26 in
  let h1 := Z.land h1 0x3ffffff in
  let h2 := u32 (h2 + b) in
  let b := Z.shiftr h2 26 in
  let h2 := Z.land h2 0x3ffffff in
  let h3 := u32 (h3 + b) in
  let b := Z.shiftr h3 26 in
  let h3 := Z.land h3 0x3ffffff in
  let h4 := u32 (h4 + b) in
  let b := Z.shiftr h4 26 in
  let h4 := Z.land h4 0x3ffffff in
  let h0 := u32 (h0 + u32 (b * 5)) in
  (h0, h1, h2, h3, h4).

Definition finish_subtract (h0 h1 h2 h3 h4 : Z) : Z * Z * Z * Z * Z :=
  let g0 := u32 (h0 + 5) in
  let b := Z.shiftr g0 26 in
  let g0 := Z.land g0 0x3ffffff in
  let g1 := u32 (h1 + b) in
  let b := Z.shiftr g1 26 in
  let g1 := Z.land g1 0x3ffffff in
  let g2 := u32 (h2 + b) in
  let b := Z.shiftr g2 26 in
  let g2 := Z.land g2 0x3ffffff in
  let g3 := u32 (h3 + b) in
  let b := Z.shiftr g3 26 in
  let g3 := Z.land g3 0x3ffffff in
  let g4 := u32 (h4 + b - Z.shiftl 1 26) in
  let b := u32 (Z.shiftr g4 31 - 1) in
  let nb := u32 (Z.lnot b) in
  let select h g := Z.lor (Z.land h nb) (Z.land g b) in
  (select h0 g0, select h1 g1, select h2 g2, select h3 g3, select h4 g4).

Definition finish_store (key : list Z) (h0 h1 h2 h3 h4 : Z) : list Z :=
  let f0 := u64 (Z.lor h0 (u32 (Z.shiftl h1 26)) + CRYPTO_load_u32_le key) in
  let f1 := u64 (Z.lor (Z.shiftr h1 6) (u32 (Z.shiftl h2 20)) + CRYPTO_load_u32_le (drop 4 key)) in
  let f2 := u64 (Z.lor (Z.shiftr h2 12) (u32 (Z.shiftl h3 14)) + CRYPTO_load_u32_le (drop 8 key)) in
  let f3 := u64 (Z.lor (Z.shiftr h3 18) (u32 (Z.shiftl h4 8)) + CRYPTO_load_u32_le (drop 12 key)) in
  let mac0 := CRYPTO_store_u32_le (u32 f0) in
  let f1 := u64 (f1 + Z.shiftr f0 32) in
  let mac4 := CRYPTO_store_u32_le (u32 f1) in
  let f2 := u64 (f2 + Z.shiftr f1 32) in
  let mac8 := CRYPTO_store_u32_le (u32 f2) in
  let f3 := u64 (f3 + Z.shiftr f2 32) in
  mac0 ++ mac4 ++ mac8 ++ CRYPTO_store_u32_le (u32 f3).

Definition CRYPTO_poly1305_finish (st : poly1305_state_st) : list Z :=
  let st := if negb (buf_used st =? 0) then poly1305_update 2 st (ztake (buf_used st) (buf st)) else st in
  let '(h0, h1, h2, h3, h4) := finish_carry (h0 st) (h1 st) (h2 st) (h3 st) (h4 st) in
  let '(h0, h1, h2, h3, h4) := finish_subtract h0 h1 h2 h3 h4 in
  finish_store (key st) h0 h1 h2 h3 h4.

(** A message in one call. *)
Definition poly1305_mac (k msg : list Z) : list Z :=
  CRYPTO_poly1305_finish (CRYPTO_poly1305_update (CRYPTO_poly1305_init k) msg).
