(* ===== verification/Poly1305Proofs.v ===== *)
(** Poly1305 computes a polynomial modulo 2^130 - 5 without ever losing a carry,
    except for one in the last step. *)
From S2P Require Import Prelude.
From S2P Require Import Internal.
From S2P Require Import Poly1305.

Open Scope Z_scope.

Definition p1305 : Z := 2 ^ 130 - 5.

(** The value of five limbs of 26 bits. *)
Definition limbs (a b c d e : Z) : Z := a + 2 ^ 26 * b + 2 ^ 52 * c + 2 ^ 78 * d + 2 ^ 104 * e.
Definition hval (st : poly1305_state_st) : Z := limbs (h0 st) (h1 st) (h2 st) (h3 st) (h4 st).
Definition rval (st : poly1305_state_st) : Z := limbs (r0 st) (r1 st) (r2 st) (r3 st) (r4 st).

(** The multiplier is clamped and its multiples by 5 are exact. *)
Definition key_ok (st : poly1305_state_st) : Prop :=
  (0 <= r0 st <= 0x3ffffff /\ 0 <= r1 st <= 0x3ffff03 /\ 0 <= r2 st <= 0x3ffc0ff /\
   0 <= r3 st <= 0x3f03fff /\ 0 <= r4 st <= 0xfffff) /\
  (s1 st = 5 * r1 st /\ s2 st = 5 * r2 st /\ s3 st = 5 * r3 st /\ s4 st = 5 * r4 st).

(** The accumulator between blocks: the first limb is not reduced, but bounded. *)
Definition h0_max : Z := 2800000000.
Definition reduced (st : poly1305_state_st) : Prop :=
  0 <= h0 st <= h0_max /\ 0 <= h1 st < 2 ^ 26 /\ 0 <= h2 st < 2 ^ 26 /\ 0 <= h3 st < 2 ^ 26 /\ 0 <= h4 st < 2 ^ 26.
(** And with a block added to it. *)
Definition loaded (st : poly1305_state_st) : Prop :=
  0 <= h0 st <= h0_max + (2 ^ 26 - 1) /\ 0 <= h1 st <= 2 ^ 27 - 2 /\ 0 <= h2 st <= 2 ^ 27 - 2 /\
  0 <= h3 st <= 2 ^ 27 - 2 /\ 0 <= h4 st <= 2 ^ 26 + 2 ^ 25 - 2.

Lemma land_mask26 x : 0 <= x -> Z.land x 0x3ffffff = x mod 2 ^ 26.
Proof. intros. change 0x3ffffff with (Z.ones 26). by rewrite Z.land_ones. Qed.
Lemma u32_mask26 x : 0 <= x -> Z.land (u32 x) 0x3ffffff = x mod 2 ^ 26.
Proof.
  intros. rewrite land_mask26 by (apply Z.mod_pos_bound; lia). unfold wrap.
  change (2 ^ 32) with (2 ^ 26 * 64). change (2 ^ 26) with 67108864. Z.div_mod_to_equations; lia.
Qed.
Lemma mul_bound a b A B : 0 <= a <= A -> 0 <= b <= B -> 0 <= a * b <= A * B.
Proof. intros. nia. Qed.

(** ** The carry chain on exact integers *)
Definition carry5 (t0 t1 t2 t3 t4 : Z) : Z * Z * Z * Z * Z * Z :=
  let t1 := t1 + t0 / 2 ^ 26 in
  let t2 := t2 + t1 / 2 ^ 26 in
  let t3 := t3 + t2 / 2 ^ 26 in
  let t4 := t4 + t3 / 2 ^ 26 in
  (t0 mod 2 ^ 26, t1 mod 2 ^ 26, t2 mod 2 ^ 26, t3 mod 2 ^ 26, t4 mod 2 ^ 26, t4 / 2 ^ 26).

Lemma carry5_val t0 t1 t2 t3 t4 a b c d e q : carry5 t0 t1 t2 t3 t4 = (a, b, c, d, e, q) ->
  limbs a b c d e + 2 ^ 130 * q = limbs t0 t1 t2 t3 t4 /\
  (0 <= a < 2 ^ 26 /\ 0 <= b < 2 ^ 26 /\ 0 <= c < 2 ^ 26 /\ 0 <= d < 2 ^ 26 /\ 0 <= e < 2 ^ 26).
Proof.
  unfold carry5, limbs. intros [= <- <- <- <- <- <-]. split; [|split_and!; apply Z.mod_pos_bound; lia].
  rewrite !Z.mod_eq by lia. generalize (t0 / 2 ^ 26). intros q0. generalize ((t1 + q0) / 2 ^ 26). intros q1.
  generalize ((t2 + q1) / 2 ^ 26). intros q2. generalize ((t3 + q2) / 2 ^ 26). intros q3. generalize ((t4 + q3) / 2 ^ 26). intros q4. lia.
Qed.

(** The columns of the product. *)
Definition col0 (st : poly1305_state_st) : Z :=
  h0 st * r0 st + h1 st * s4 st + h2 st * s3 st + h3 st * s2 st + h4 st * s1 st.
Definition col1 (st : poly1305_state_st) : Z :=
  h0 st * r1 st + h1 st * r0 st + h2 st * s4 st + h3 st * s3 st + h4 st * s2 st.
Definition col2 (st : poly1305_state_st) : Z :=
  h0 st * r2 st + h1 st * r1 st + h2 st * r0 st + h3 st * s4 st + h4 st * s3 st.
Definition col3 (st : poly1305_state_st) : Z :=
  h0 st * r3 st + h1 st * r2 st + h2 st * r1 st + h3 st * r0 st + h4 st * s4 st.
Definition col4 (st : poly1305_state_st) : Z :=
  h0 st * r4 st + h1 st * r3 st + h2 st * r2 st + h3 st * r1 st + h4 st * r0 st.

(** Reducing with the multiples by 5 is reducing modulo 2^130 - 5. *)
Lemma columns_val st : key_ok st ->
  limbs (col0 st) (col1 st) (col2 st) (col3 st) (col4 st) mod p1305 = (hval st * rval st) mod p1305.
Proof.
  intros (_ & E1 & E2 & E3 & E4). unfold col0, col1, col2, col3, col4, hval, rval. rewrite E1, E2, E3, E4.
  destruct st as [r0 r1 r2 r3 r4 s1 s2 s3 s4 h0 h1 h2 h3 h4 bf bu k]. cbn.
  set (Q := h1 * r4 + h2 * r3 + h3 * r2 + h4 * r1 + 2 ^ 26 * (h2 * r4 + h3 * r3 + h4 * r2)
    + 2 ^ 52 * (h3 * r4 + h4 * r3) + 2 ^ 78 * (h4 * r4)).
  match goal with |- ?x mod _ = ?y mod _ => assert (E : y = x + Q * p1305) end.
  { subst Q. unfold limbs, p1305. ring. }
  rewrite E. by rewrite Z.mod_add by done.
Qed.

(** ** No product, sum or carry is truncated *)
Ltac bound_products :=
  repeat match goal with
  | |- context [?a * ?b] =>
    match goal with
    | Ha : 0 <= a <= ?A, Hb : 0 <= b <= ?B |- _ =>
      let H := fresh "Hp" in pose proof (mul_bound a b A B Ha Hb) as H; generalize dependent (a * b); intros
    end
  end.

Lemma s_bounds st : key_ok st ->
  0 <= s1 st <= 5 * 0x3ffff03 /\ 0 <= s2 st <= 5 * 0x3ffc0ff /\ 0 <= s3 st <= 5 * 0x3f03fff /\ 0 <= s4 st <= 5 * 0xfffff.
Proof. intros (? & -> & -> & -> & ->). lia. Qed.

Lemma col_bounds st : key_ok st -> loaded st ->
  (0 <= col0 st < 2 ^ 59 /\ 0 <= col1 st /\ 0 <= col2 st /\ 0 <= col3 st /\ 0 <= col4 st) /\
  col1 st + 2 ^ 33 <= 2 ^ 58 - 1 /\ col2 st + 2 ^ 32 <= 2 ^ 58 - 1 /\ col3 st + 2 ^ 32 <= 2 ^ 58 - 1 /\
  5 * ((col4 st + 2 ^ 32) / 2 ^ 26) <= h0_max - (2 ^ 26 - 1).
Proof.
  intros Hk (H0 & H1 & H2 & H3 & H4). destruct (s_bounds st Hk) as (S1 & S2 & S3 & S4).
  destruct Hk as ((R0 & R1 & R2 & R3 & R4) & _). unfold h0_max in *.
  assert (C0 : 0 <= col0 st < 2 ^ 59) by (unfold col0; clear R1 R2 R3 R4; bound_products; lia).
  assert (C1 : 0 <= col1 st /\ col1 st + 2 ^ 33 <= 2 ^ 58 - 1) by (unfold col1; bound_products; lia).
  assert (C2 : 0 <= col2 st /\ col2 st + 2 ^ 32 <= 2 ^ 58 - 1) by (unfold col2; bound_products; lia).
  assert (C3 : 0 <= col3 st /\ col3 st + 2 ^ 32 <= 2 ^ 58 - 1) by (unfold col3; bound_products; lia).
  assert (C4 : 0 <= col4 st /\ col4 st <= 36650000000000000) by (unfold col4; bound_products; lia).
  split_and!; try tauto. assert ((col4 st + 2 ^ 32) / 2 ^ 26 <= 546578224); [|lia].
  apply Z.lt_succ_r, Z.div_lt_upper_bound; lia.
Qed.

Lemma sum5_exact a b c d e a' b' c' d' e' :
  0 <= a < 2 ^ 32 -> 0 <= b < 2 ^ 32 -> 0 <= c < 2 ^ 32 -> 0 <= d < 2 ^ 32 -> 0 <= e < 2 ^ 32 ->
  0 <= a' < 2 ^ 32 -> 0 <= b' < 2 ^ 32 -> 0 <= c' < 2 ^ 32 -> 0 <= d' < 2 ^ 32 -> 0 <= e' < 2 ^ 32 ->
  a * a' + b * b' + c * c' + d * d' + e * e' < 2 ^ 64 ->
  sum5 (mul32x32_64 a a') (mul32x32_64 b b') (mul32x32_64 c c') (mul32x32_64 d d') (mul32x32_64 e e') =
  a * a' + b * b' + c * c' + d * d' + e * e'.
Proof.
  intros. unfold sum5, mul32x32_64.
  assert (0 <= a * a' /\ 0 <= b * b' /\ 0 <= c * c' /\ 0 <= d * d' /\ 0 <= e * e') by (split_and!; apply Z.mul_nonneg_nonneg; lia).
  generalize dependent (a * a'). intros x. generalize dependent (b * b'). intros y. generalize dependent (c * c'). intros z.
  generalize dependent (d * d'). intros v. generalize dependent (e * e'). intros w. intros.
  rewrite (wrap_small 64 x), (wrap_small 64 y), (wrap_small 64 z), (wrap_small 64 v), (wrap_small 64 w) by lia.
  rewrite (wrap_small 64 (x + y)) by lia. rewrite (wrap_small 64 (x + y + z)) by lia.
  rewrite (wrap_small 64 (x + y + z + v)) by lia. apply (wrap_small 64). lia.
Qed.

Lemma carry_exact t u q : 0 <= t -> 0 <= u < 2 ^ 59 -> t + q <= 2 ^ 58 - 1 -> u / 2 ^ 26 <= q ->
  u64 (t + u / 2 ^ 26) = t + u / 2 ^ 26 /\ u32 (Z.shiftr (t + u / 2 ^ 26) 26) = (t + u / 2 ^ 26) / 2 ^ 26 /\
  0 <= t + u / 2 ^ 26 < 2 ^ 59 /\ (t + u / 2 ^ 26) / 2 ^ 26 <= 2 ^ 32.
Proof.
  intros. pose proof (Z.div_pos u (2 ^ 26) ltac:(lia) ltac:(lia)). rewrite Z.shiftr_div_pow2 by lia.
  assert (0 <= (t + u / 2 ^ 26) / 2 ^ 26 < 2 ^ 32).
  { split; [apply Z.div_pos; lia | apply Z.div_lt_upper_bound; lia]. }
  split_and!; [apply (wrap_small 64); lia | apply (wrap_small 32); lia | lia..].
Qed.

Lemma carry_chain_exact st t0 t1 t2 t3 t4 : 0 <= t0 < 2 ^ 59 -> 0 <= t1 -> 0 <= t2 -> 0 <= t3 -> 0 <= t4 < 2 ^ 58 ->
  t1 + 2 ^ 33 <= 2 ^ 58 - 1 -> t2 + 2 ^ 32 <= 2 ^ 58 - 1 -> t3 + 2 ^ 32 <= 2 ^ 58 - 1 ->
  5 * ((t4 + 2 ^ 32) / 2 ^ 26) <= h0_max - (2 ^ 26 - 1) ->
  exists a b c d e q, carry5 t0 t1 t2 t3 t4 = (a, b, c, d, e, q) /\
    poly1305_carry st t0 t1 t2 t3 t4 = with_h st (a + q * 5) b c d e /\ 0 <= a + q * 5 <= h0_max.
Proof.
  intros C0 C1 C2 C3 C4 D1 D2 D3 D4. unfold h0_max in *. unfold poly1305_carry, carry5.
  rewrite (Z.shiftr_div_pow2 t0) by lia.
  destruct (carry_exact t1 t0 (2 ^ 33)) as (E & F & B1 & Q1); [lia | lia | lia | apply Z.div_le_upper_bound; lia |].
  rewrite E, F. clear E F. generalize dependent (t1 + t0 / 2 ^ 26). intros x1 B1 Q1.
  destruct (carry_exact t2 x1 (2 ^ 32)) as (E & F & B2 & Q2); [lia..|].
  rewrite E, F. clear E F. generalize dependent (t2 + x1 / 2 ^ 26). intros x2 B2 Q2.
  destruct (carry_exact t3 x2 (2 ^ 32)) as (E & F & B3 & Q3); [lia..|].
  rewrite E, F. clear E F. generalize dependent (t3 + x2 / 2 ^ 26). intros x3 B3 Q3.
  pose proof (Z.div_pos x3 (2 ^ 26) ltac:(lia) ltac:(lia)).
  assert (Hx4 : 0 <= (t4 + x3 / 2 ^ 26) / 2 ^ 26 <= (t4 + 2 ^ 32) / 2 ^ 26).
  { split; [apply Z.div_pos; lia | apply Z.div_le_mono; lia]. }
  rewrite (wrap_small 64 (t4 + _)) by lia. set (x4 := t4 + x3 / 2 ^ 26) in *.
  rewrite (Z.shiftr_div_pow2 x4), (wrap_small 32 (x4 / _)), (wrap_small 32 (_ * 5)) by lia. rewrite !u32_mask26 by lia.
  pose proof (Z.mod_pos_bound t0 (2 ^ 26) ltac:(lia)). rewrite (wrap_small 32) by lia.
  do 6 eexists. split; [reflexivity|]. split; [reflexivity | lia].
Qed.

Lemma donna_mul_exact st : key_ok st -> loaded st ->
  exists a b c d e q, carry5 (col0 st) (col1 st) (col2 st) (col3 st) (col4 st) = (a, b, c, d, e, q) /\
    poly1305_donna_mul st = with_h st (a + q * 5) b c d e /\ 0 <= a + q * 5 <= h0_max.
Proof.
  intros Hk Hl. destruct (col_bounds st Hk Hl) as ((C0 & C1 & C2 & C3 & C4) & D1 & D2 & D3 & D4).
  destruct (s_bounds st Hk) as (S1 & S2 & S3 & S4). pose proof Hk as ((R0 & R1 & R2 & R3 & R4) & _).
  destruct Hl as (H0 & H1 & H2 & H3 & H4).
  assert (C4' : col4 st < 2 ^ 58).
  { apply Z.nle_gt. intros ?. assert (2 ^ 32 <= (col4 st + 2 ^ 32) / 2 ^ 26) by (apply Z.div_le_lower_bound; lia).
    unfold h0_max in *. lia. }
  assert (E : poly1305_donna_mul st = poly1305_carry st (col0 st) (col1 st) (col2 st) (col3 st) (col4 st)).
  { unfold poly1305_donna_mul, h0_max in *. cbv zeta.
    rewrite !sum5_exact by (lia || (fold (col0 st) (col1 st) (col2 st) (col3 st) (col4 st); lia)). done. }
  rewrite E. by apply carry_chain_exact.
Qed.

(** A block multiplies the accumulator by r. *)
Lemma donna_mul_spec st : key_ok st -> loaded st ->
  exists a b c d e, poly1305_donna_mul st = with_h st a b c d e /\ reduced (with_h st a b c d e) /\
    limbs a b c d e mod p1305 = (hval st * rval st) mod p1305.
Proof.
  intros Hk Hl. destruct (donna_mul_exact st Hk Hl) as (a & b & c & d & e & q & E & -> & Hq).
  apply carry5_val in E as [E Hr]. exists (a + q * 5), b, c, d, e. split; [done|]. split; [unfold reduced; cbn; lia|].
  rewrite <- columns_val by done. rewrite <- E. unfold limbs, p1305 in *.
  rewrite <- (Z.mod_add (a + q * 5 + _ + _ + _ + _) q (2 ^ 130 - 5)) by done. f_equal. lia.
Qed.

(** ** Blocks *)

(** The limbs of a number of up to 130 bits. *)
Lemma limbs_val n : limbs (n mod 2 ^ 26) (n / 2 ^ 26 mod 2 ^ 26) (n / 2 ^ 52 mod 2 ^ 26) (n / 2 ^ 78 mod 2 ^ 26) (n / 2 ^ 104) = n.
Proof.
  unfold limbs. rewrite !Z.mod_eq by lia.
  rewrite !Z.div_div by lia. change (2 ^ 26 * 2 ^ 26) with (2 ^ 52). change (2 ^ 52 * 2 ^ 26) with (2 ^ 78).
  change (2 ^ 78 * 2 ^ 26) with (2 ^ 104). lia.
Qed.

Definition word (n i : Z) : Z := n / 2 ^ (32 * i) mod 2 ^ 32.

(** The 32-bit words of 16 bytes. *)
Lemma load_words l : bytes l -> length l = 16%nat ->
  CRYPTO_load_u32_le l = word (le_val l) 0 /\ CRYPTO_load_u32_le (drop 4 l) = word (le_val l) 1 /\
  CRYPTO_load_u32_le (drop 8 l) = word (le_val l) 2 /\ CRYPTO_load_u32_le (drop 12 l) = word (le_val l) 3.
Proof.
  intros Hb Hl.
  assert (H : forall i, (4 * i <= 12)%nat -> CRYPTO_load_u32_le (drop (4 * i) l) = word (le_val l) (Z.of_nat i)).
  { intros i Hi. unfold CRYPTO_load_u32_le, word.
    rewrite <- (take_drop (4 * i) l) at 2. rewrite le_val_app.
    set (m := drop (4 * i) l). rewrite <- (take_drop 4 m) at 2. rewrite le_val_app.
    assert (L1 : len (take (4 * i) l) = 4 * Z.of_nat i) by (unfold len; rewrite length_take; lia).
    assert (L2 : len (take 4 m) = 4) by (unfold len; subst m; rewrite length_take, length_drop; lia). rewrite L1, L2.
    assert (B1 : bytes (take (4 * i) l)) by (by apply Forall_take). assert (B2 : bytes (take 4 m)) by (by apply Forall_take, Forall_drop).
    pose proof (le_val_range _ B1) as R1. pose proof (le_val_range _ B2) as R2. rewrite L1 in R1. rewrite L2 in R2.
    change 256 with (2 ^ 8) in *. rewrite <- !Z.pow_mul_r in * by lia. replace (32 * Z.of_nat i) with (8 * (4 * Z.of_nat i)) by lia.
    rewrite (Z.add_comm (le_val (take (4 * i) l))), (Z.mul_comm (2 ^ _)), Z.div_add_l, (Z.div_small (le_val (take (4 * i) l))), Z.add_0_r by lia.
    change (8 * 4) with 32 in *. rewrite (Z.mul_comm (2 ^ 32)), Z.mod_add, Z.mod_small by lia. done. }
  split_and!; [apply (H 0%nat) | apply (H 1%nat) | apply (H 2%nat) | apply (H 3%nat)]; lia.
Qed.

(** Bit fields of a number. *)
Lemma testbit_field x b c i : 0 <= b -> 0 <= c -> 0 <= i ->
  Z.testbit (x / 2 ^ b mod 2 ^ c) i = (i <? c) && Z.testbit x (i + b).
Proof.
  intros Hb Hc Hi. destruct (Z.ltb_spec i c).
  - rewrite Z.mod_pow2_bits_low, Z.div_pow2_bits by lia. done.
  - by rewrite Z.mod_pow2_bits_high by lia.
Qed.
Lemma field_field x a b c d : 0 <= a -> 0 <= b -> 0 <= c -> 0 <= d -> c + d <= b ->
  x / 2 ^ a mod 2 ^ b / 2 ^ c mod 2 ^ d = x / 2 ^ (a + c) mod 2 ^ d.
Proof.
  intros. apply Z.bits_inj'. intros i Hi. rewrite !testbit_field by lia.
  destruct (Z.ltb_spec i d); [|done]. destruct (Z.ltb_spec (i + c) b); [|lia]. cbn [andb]. f_equal. lia.
Qed.
Lemma word_range n i : 0 <= word n i < 2 ^ 32.
Proof. apply Z.mod_pos_bound. lia. Qed.
Lemma word_pair n i : 0 <= n -> 0 <= i ->
  Z.lor (u64 (Z.shiftl (word n (i + 1)) 32)) (word n i) = n / 2 ^ (32 * i) mod 2 ^ 64.
Proof.
  intros Hn Hi. pose proof (word_range n (i + 1)). pose proof (word_range n i).
  rewrite (wrap_small 64) by (rewrite Z.shiftl_mul_pow2; lia). unfold word. apply Z.bits_inj'. intros j Hj.
  rewrite Z.lor_spec, Z.shiftl_spec by lia. destruct (Z.lt_ge_cases j 32).
  - rewrite Z.testbit_neg_r, !testbit_field by lia. destruct (Z.ltb_spec j 64), (Z.ltb_spec j 32); [done | lia..].
  - rewrite !testbit_field by lia.
    destruct (Z.ltb_spec (j - 32) 32), (Z.ltb_spec j 64), (Z.ltb_spec j 32); try lia; cbn [andb orb].
    rewrite orb_false_r. f_equal. lia.
Qed.

Lemma add_limb n i k : 0 <= n -> 0 <= i -> 0 <= k <= 38 ->
  Z.land (Z.shiftr (Z.lor (u64 (Z.shiftl (word n (i + 1)) 32)) (word n i)) k) 0x3ffffff = n / 2 ^ (32 * i + k) mod 2 ^ 26.
Proof.
  intros Hn Hi Hk. rewrite word_pair, Z.shiftr_div_pow2 by lia. rewrite land_mask26.
  - apply field_field; lia.
  - apply Z.div_pos; [apply Z.mod_pos_bound; lia | lia].
Qed.

Lemma poly1305_add_spec st l hibit : reduced st -> bytes l -> length l = 16%nat -> (hibit = 0 \/ hibit = 2 ^ 24) ->
  exists a b c d e, poly1305_add st l hibit = with_h st a b c d e /\ loaded (with_h st a b c d e) /\
    limbs a b c d e = hval st + (le_val l + hibit * 2 ^ 104).
Proof.
  intros (H0 & H1 & H2 & H3 & H4) Hb Hl Hhi. pose proof (le_val_range l Hb) as Hn. unfold len in Hn. rewrite Hl in Hn.
  change (256 ^ Z.of_nat 16) with (2 ^ 128) in Hn. destruct (load_words l Hb Hl) as (W0 & W1 & W2 & W3).
  unfold poly1305_add. cbv zeta. rewrite W0, W1, W2, W3. set (n := le_val l) in *. clearbody n.
  pose proof (add_limb n 0 26 ltac:(lia) ltac:(lia) ltac:(lia)) as L1. pose proof (add_limb n 1 20 ltac:(lia) ltac:(lia) ltac:(lia)) as L2.
  pose proof (add_limb n 2 14 ltac:(lia) ltac:(lia) ltac:(lia)) as L3.
  change (0 + 1) with 1 in L1. change (1 + 1) with 2 in L2. change (2 + 1) with 3 in L3. rewrite L1, L2, L3. clear L1 L2 L3.
  assert (E0 : Z.land (word n 0) 0x3ffffff = n mod 2 ^ 26).
  { rewrite land_mask26 by apply word_range. unfold word. pose proof (field_field n 0 32 0 26) as F.
    change (2 ^ (0 + 0)) with 1 in F. change (2 ^ 0) with 1 in F. change (2 ^ (32 * 0)) with 1. rewrite !Z.div_1_r in *. apply F; lia. }
  assert (E4 : Z.lor (Z.shiftr (word n 3) 8) hibit = n / 2 ^ 104 + hibit /\ 0 <= n / 2 ^ 104 < 2 ^ 24).
  { rewrite Z.shiftr_div_pow2 by lia. unfold word. assert (0 <= n / 2 ^ (32 * 3) < 2 ^ 32).
    { split; [apply Z.div_pos; lia | apply Z.div_lt_upper_bound; lia]. }
    rewrite (Z.mod_small (n / _)), Z.div_div by lia. change (2 ^ (32 * 3) * 2 ^ 8) with (2 ^ 104).
    assert (0 <= n / 2 ^ 104 < 2 ^ 24) by (split; [apply Z.div_pos; lia | apply Z.div_lt_upper_bound; lia]).
    split; [|done]. destruct Hhi as [->| ->]; [by rewrite Z.lor_0_r, Z.add_0_r|].
    change (2 ^ 24) with (Z.shiftl 1 24) at 1. rewrite lor_add_shiftl by lia. lia. }
  destruct E4 as [-> R4]. rewrite E0. change (32 * 0 + 26) with 26. change (32 * 1 + 20) with 52. change (32 * 2 + 14) with 78.
  pose proof (limbs_val n) as Hv. pose proof (Z.mod_pos_bound n (2 ^ 26) ltac:(lia)).
  pose proof (Z.mod_pos_bound (n / 2 ^ 26) (2 ^ 26) ltac:(lia)). pose proof (Z.mod_pos_bound (n / 2 ^ 52) (2 ^ 26) ltac:(lia)).
  pose proof (Z.mod_pos_bound (n / 2 ^ 78) (2 ^ 26) ltac:(lia)). unfold h0_max in *.
  rewrite !(wrap_small 32) by lia. do 5 eexists. split; [reflexivity|]. split.
  - unfold loaded, h0_max. cbn [with_h h0 h1 h2 h3 h4]. lia.
  - unfold hval, limbs in *. lia.
Qed.

(** * The message *)

(** A block, marked with a bit after its last byte, in the accumulator. *)
Definition block_step (r acc : Z) (b : list Z) : Z := (acc + le_val (b ++ [1])) * r mod p1305.

Lemma hval_with_h st a b c d e : hval (with_h st a b c d e) = limbs a b c d e.
Proof. done. Qed.
Lemma key_ok_with_h st a b c d e : key_ok st -> key_ok (with_h st a b c d e).
Proof. done. Qed.

(** The parts of the state that blocks do not change. *)
Definition same_key (st st' : poly1305_state_st) : Prop :=
  rval st' = rval st /\ key st' = key st /\ buf st' = buf st /\ buf_used st' = buf_used st.

Lemma block_spec st l hibit : key_ok st -> reduced st -> bytes l -> length l = 16%nat -> (hibit = 0 \/ hibit = 2 ^ 24) ->
  let st' := poly1305_donna_mul (poly1305_add st l hibit) in
  key_ok st' /\ reduced st' /\ same_key st st' /\
  hval st' mod p1305 = ((hval st + (le_val l + hibit * 2 ^ 104)) * rval st) mod p1305.
Proof.
  intros Hk Hr Hb Hl Hhi. destruct (poly1305_add_spec st l hibit Hr Hb Hl Hhi) as (a & b & c & d & e & -> & Hld & E).
  destruct (donna_mul_spec _ (key_ok_with_h st a b c d e Hk) Hld) as (a' & b' & c' & d' & e' & -> & Hrd & E').
  split_and!; try done. rewrite hval_with_h, E', hval_with_h, E. done.
Qed.

Lemma le_val_zeros n : le_val (replicate n 0) = 0.
Proof. induction n as [|n IH]; [done|]. cbn [replicate le_val]. lia. Qed.

(** Both kinds of block are the block marked with a bit. *)
Lemma full_block st l : key_ok st -> reduced st -> bytes l -> len l = 16 ->
  let st' := poly1305_donna_mul (poly1305_add st l (Z.shiftl 1 24)) in
  key_ok st' /\ reduced st' /\ same_key st st' /\ hval st' mod p1305 = block_step (rval st) (hval st) l.
Proof.
  intros Hk Hr Hb Hl. destruct (block_spec st l (2 ^ 24) Hk Hr Hb) as (? & ? & ? & E); [unfold len in Hl; lia | by right |].
  split_and!; try done. unfold block_step. rewrite le_val_app, Hl. change (Z.shiftl 1 24) with (2 ^ 24). rewrite E. f_equal.
Qed.
Lemma last_block st l : key_ok st -> reduced st -> bytes l -> 0 < len l < 16 ->
  let st' := poly1305_donna_mul (poly1305_add st (l ++ [1] ++ replicate (Z.to_nat (15 - len l)) 0) 0) in
  key_ok st' /\ reduced st' /\ same_key st st' /\ hval st' mod p1305 = block_step (rval st) (hval st) l.
Proof.
  intros Hk Hr Hb Hl. destruct (block_spec st (l ++ [1] ++ replicate (Z.to_nat (15 - len l)) 0) 0 Hk Hr) as (? & ? & ? & E).
  - rewrite !bytes_app. split_and!; [done | by repeat constructor |]. apply Forall_replicate. done.
  - rewrite !length_app, length_replicate. cbn [length]. unfold len in *. lia.
  - by left.
  - split_and!; try done. unfold block_step. rewrite E. f_equal. f_equal. rewrite app_assoc, !le_val_app, le_val_zeros. lia.
Qed.

Lemma block_step_mod r acc acc' b : acc mod p1305 = acc' mod p1305 -> block_step r acc b = block_step r acc' b.
Proof.
  intros E. unfold block_step. rewrite <- Z.mul_mod_idemp_l, <- (Z.mul_mod_idemp_l (acc' + _)) by done.
  rewrite <- Z.add_mod_idemp_l, E, Z.add_mod_idemp_l by done. done.
Qed.

Fixpoint split16 (k : nat) (l : list Z) : list (list Z) :=
  match k with O => [] | S k => ztake 16 l :: split16 k (zdrop 16 l) end.
Definition absorb (r acc : Z) (bs : list (list Z)) : Z := fold_left (block_step r) bs acc.

Lemma absorb_mod r acc acc' bs : acc mod p1305 = acc' mod p1305 -> absorb r acc bs mod p1305 = absorb r acc' bs mod p1305.
Proof. destruct bs as [|b bs]; intros E; [done|]. cbn. by rewrite (block_step_mod r acc acc' b E). Qed.
Lemma split16_app j k l : split16 (j + k) l = split16 j l ++ split16 k (zdrop (16 * Z.of_nat j) l).
Proof.
  revert l. induction j as [|j IH]; intros l; [by rewrite zdrop_0|]. cbn [split16 Nat.add app]. rewrite IH. do 3 f_equal.
  rewrite zdrop_zdrop by lia. f_equal. lia.
Qed.
Lemma ztake_app_le {A} n (l k : list A) : n <= len l -> ztake n (l ++ k) = ztake n l.
Proof. intros. unfold ztake, len in *. apply take_app_le. lia. Qed.
Lemma zdrop_app_le {A} n (l k : list A) : n <= len l -> zdrop n (l ++ k) = zdrop n l ++ k.
Proof. intros. unfold zdrop, len in *. apply drop_app_le. lia. Qed.
Lemma split16_prefix k l r : 16 * Z.of_nat k <= len l -> split16 k (l ++ r) = split16 k l.
Proof.
  revert l. induction k as [|k IH]; intros l Hl; [done|]. cbn [split16].
  rewrite ztake_app_le, zdrop_app_le, IH by (rewrite ?len_zdrop; lia). done.
Qed.

(** Whole blocks. *)
Lemma update_blocks fuel k st inp : key_ok st -> reduced st -> bytes inp -> len inp = 16 * Z.of_nat k -> (k < fuel)%nat ->
  let st' := poly1305_update fuel st inp in
  key_ok st' /\ reduced st' /\ same_key st st' /\
  hval st' mod p1305 = absorb (rval st) (hval st) (split16 k inp) mod p1305.
Proof.
  revert fuel st inp. induction k as [|k IH]; intros [|fuel] st inp Hk Hr Hb Hl Hf; try lia; cbn [poly1305_update split16].
  - destruct (Z.leb_spec 16 (len inp)); [lia|]. destruct (Z.eqb_spec (len inp) 0); [|lia]. done.
  - destruct (Z.leb_spec 16 (len inp)); [|lia].
    destruct (full_block st (ztake 16 inp) Hk Hr) as (Hk1 & Hr1 & (R1 & K1 & B1 & U1) & E1); [by apply bytes_ztake | apply len_ztake; lia |].
    destruct (IH fuel _ (zdrop 16 inp) Hk1 Hr1) as (Hk2 & Hr2 & (R2 & K2 & B2 & U2) & E2);
      [by apply bytes_zdrop | rewrite len_zdrop; lia | lia |].
    split; [done|]. split; [done|]. split; [unfold same_key; split_and!; congruence|]. rewrite E2. cbn [absorb fold_left]. rewrite R1.
    apply absorb_mod. rewrite E1. unfold block_step. by rewrite Z.mod_mod.
Qed.

(** The state after absorbing [msg]: [k] blocks and a partial one in the buffer. *)
Definition absorbing (st : poly1305_state_st) (msg : list Z) : Prop :=
  key_ok st /\ reduced st /\ bytes msg /\ len (buf st) = 16 /\
  exists k, 0 <= buf_used st < 16 /\ len msg = 16 * Z.of_nat k + buf_used st /\
    ztake (buf_used st) (buf st) = zdrop (16 * Z.of_nat k) msg /\
    hval st mod p1305 = absorb (rval st) 0 (split16 k msg) mod p1305.
Definition keeps (st st' : poly1305_state_st) : Prop := rval st' = rval st /\ key st' = key st.

(** Whole blocks after a whole number of blocks. *)
Lemma absorb_blocks st msg inp k fuel : absorbing st msg -> buf_used st = 0 -> bytes inp -> len inp = 16 * Z.of_nat k ->
  (k < fuel)%nat -> absorbing (poly1305_update fuel st inp) (msg ++ inp) /\ keeps st (poly1305_update fuel st inp).
Proof.
  intros (Hk & Hr & Hb & Hbuf & j & Hu & Hl & Ht & E) U0 Hbi Hli Hf.
  destruct (update_blocks fuel k st inp Hk Hr Hbi Hli Hf) as (Hk1 & Hr1 & (R1 & K1 & B1 & U1) & E1).
  split; [|done]. split_and!; [done | done | by apply bytes_app | by rewrite B1 |]. exists (j + k)%nat. rewrite U1, B1, U0, R1.
  rewrite len_app, Hl, Hli, U0. assert (Hm : len msg = 16 * Z.of_nat j) by lia.
  split_and!; [lia | lia | lia | |].
  - rewrite ztake_0. replace (16 * Z.of_nat (j + k)) with (len (msg ++ inp)) by (rewrite len_app; lia). by rewrite zdrop_all.
  - rewrite split16_app, <- Hm, zdrop_app_len, split16_prefix by lia. unfold absorb in *. rewrite fold_left_app, E1.
    by apply absorb_mod.
Qed.

(** Adding to the buffer. *)
Lemma absorb_buffer st msg inp : absorbing st msg -> bytes inp -> buf_used st + len inp < 16 ->
  let buf' := ztake (buf_used st) (buf st) ++ inp ++ zdrop (buf_used st + len inp) (buf st) in
  absorbing (with_buf st buf' (buf_used st + len inp)) (msg ++ inp).
Proof.
  intros (Hk & Hr & Hb & Hbuf & k & Hu & Hl & Ht & E) Hbi Hlt buf'. pose proof (len_nonneg inp).
  assert (Htl : len (ztake (buf_used st) (buf st)) = buf_used st) by (apply len_ztake; lia).
  split_and!; [done | done | by apply bytes_app | |].
  - cbn. subst buf'. rewrite !len_app, Htl, len_zdrop by lia. lia.
  - exists k. cbn [with_buf buf_used buf]. rewrite len_app. split_and!; [lia | lia | lia | |].
    + subst buf'. rewrite app_assoc, ztake_app_eq by (rewrite len_app; lia). rewrite zdrop_app_le by lia. by rewrite Ht.
    + rewrite split16_prefix by lia. done.
Qed.

(** Completing the block in the buffer. *)
Lemma absorb_fill st msg inp : absorbing st msg -> bytes inp -> buf_used st + len inp = 16 -> 0 < buf_used st ->
  let buf' := ztake (buf_used st) (buf st) ++ inp in
  let st' := with_buf (poly1305_update 2 (with_buf st buf' 16) buf') buf' 0 in
  absorbing st' (msg ++ inp) /\ keeps st st'.
Proof.
  intros (Hk & Hr & Hb & Hbuf & k & Hu & Hl & Ht & E) Hbi Heq Hpos buf'. pose proof (len_nonneg inp).
  assert (Htl : len (ztake (buf_used st) (buf st)) = buf_used st) by (apply len_ztake; lia).
  assert (Hbl : len buf' = 16) by (subst buf'; rewrite len_app; lia).
  assert (Hbb : bytes buf') by (apply bytes_app; rewrite Ht; split; [by apply bytes_zdrop | done]).
  destruct (update_blocks 2 1 (with_buf st buf' 16) buf') as (Hk1 & Hr1 & (R1 & K1 & B1 & U1) & E1); [done | done | done | done | lia |].
  set (st1 := poly1305_update 2 (with_buf st buf' 16) buf') in *. clearbody st1.
  split; [|by split]. split_and!; [done | done | by apply bytes_app | done |]. exists (S k). cbn [with_buf buf_used buf].
  assert (Hm : 16 * Z.of_nat (S k) = len (msg ++ inp)) by (rewrite len_app; lia).
  split_and!; [done | done | lia | by rewrite Hm, zdrop_all |].
  change (hval (with_buf st1 buf' 0)) with (hval st1). change (rval (with_buf st1 buf' 0)) with (rval st1).
  rewrite R1, E1. change (rval (with_buf st buf' 16)) with (rval st). change (hval (with_buf st buf' 16)) with (hval st).
  replace (S k) with (k + 1)%nat by lia. rewrite split16_app. unfold absorb in *. rewrite fold_left_app, split16_prefix by lia.
  rewrite zdrop_app_le by lia. rewrite <- Ht. cbn [split16]. fold buf'. exact (absorb_mod (rval st) _ _ [ztake 16 buf'] E).
Qed.

Lemma keeps_trans st1 st2 st3 : keeps st1 st2 -> keeps st2 st3 -> keeps st1 st3.
Proof. intros [? ?] [? ?]. split; congruence. Qed.

Lemma absorb_tail st msg inp : absorbing st msg -> buf_used st = 0 -> bytes inp ->
  let '(st', inp') := if 16 <=? len inp then
        (poly1305_update (S (length inp)) st (ztake (len inp - len inp mod 16) inp), zdrop (len inp - len inp mod 16) inp)
      else (st, inp) in
  let st'' := if negb (len inp' =? 0) then with_buf st' (inp' ++ zdrop (len inp') (buf st')) (len inp') else st' in
  absorbing st'' (msg ++ inp) /\ keeps st st''.
Proof.
  intros Hs U0 Hb. pose proof (len_nonneg inp).
  assert (Htail : forall st msg inp, absorbing st msg -> buf_used st = 0 -> bytes inp -> len inp < 16 ->
    let st'' := if negb (len inp =? 0) then with_buf st (inp ++ zdrop (len inp) (buf st)) (len inp) else st in
    absorbing st'' (msg ++ inp) /\ keeps st st'').
  { clear. intros st msg inp Hs U0 Hb Hl. destruct (Z.eqb_spec (len inp) 0) as [->%len_0_nil|]; cbn [negb].
    - rewrite app_nil_r. by split.
    - pose proof (absorb_buffer st msg inp Hs Hb) as H. rewrite U0 in H. rewrite ztake_0, !Z.add_0_l in H. cbn [app] in H.
      split; [by apply H | by split]. }
  destruct (Z.leb_spec 16 (len inp)) as [Hge|Hlt]; [|by apply Htail].
  set (todo := len inp - len inp mod 16). pose proof (Z.mod_pos_bound (len inp) 16 ltac:(lia)).
  assert (Ht : len (ztake todo inp) = todo) by (apply len_ztake; subst todo; lia).
  assert (Hk : todo = 16 * Z.of_nat (Z.to_nat (len inp / 16))).
  { rewrite Z2Nat.id by (apply Z.div_pos; lia). subst todo. rewrite Z.mod_eq by lia. lia. }
  destruct (absorb_blocks st msg (ztake todo inp) (Z.to_nat (len inp / 16)) (S (length inp))) as [Ha Hkp];
    [done | done | by apply bytes_ztake | lia | |].
  { unfold len in *. Z.div_mod_to_equations; lia. }
  assert (U1 : buf_used (poly1305_update (S (length inp)) st (ztake todo inp)) = 0).
  { destruct Hs as (Hk0 & Hr0 & _). destruct (update_blocks (S (length inp)) (Z.to_nat (len inp / 16)) st (ztake todo inp) Hk0 Hr0)
      as (_ & _ & (_ & _ & _ & U) & _); [by apply bytes_ztake | lia | unfold len in *; Z.div_mod_to_equations; lia | congruence]. }
  destruct (Htail _ _ (zdrop todo inp) Ha U1) as [H1 H2]; [by apply bytes_zdrop | rewrite len_zdrop; subst todo; lia |].
  rewrite <- app_assoc, ztake_zdrop in H1. split; [done|]. by eapply keeps_trans.
Qed.

Lemma update_spec st msg inp : absorbing st msg -> bytes inp ->
  absorbing (CRYPTO_poly1305_update st inp) (msg ++ inp) /\ keeps st (CRYPTO_poly1305_update st inp).
Proof.
  intros Hs Hb. unfold CRYPTO_poly1305_update. pose proof (len_nonneg inp).
  destruct (Z.eqb_spec (len inp) 0) as [->%len_0_nil|Hne]; [rewrite app_nil_r; by split|].
  pose proof Hs as (_ & _ & _ & Hbuf & k & Hu & Hl & _ & _).
  destruct (Z.eqb_spec (buf_used st) 0) as [U0|U0]; cbn [negb].
  { pose proof (absorb_tail st msg inp Hs U0 Hb) as H'. by destruct (16 <=? len inp). }
  set (todo := Z.min (16 - buf_used st) (len inp)) in *.
  assert (Ht : len (ztake todo inp) = todo) by (apply len_ztake; lia).
  destruct (Z.eqb_spec (buf_used st + todo) 16) as [E16|E16].
  - rewrite E16, <- Hbuf, zdrop_all, app_nil_r, Hbuf.
    destruct (absorb_fill st msg (ztake todo inp) Hs) as [Ha Hkp]; [by apply bytes_ztake | lia | lia |].
    set (st1 := with_buf _ _ 0) in *.
    pose proof (absorb_tail st1 (msg ++ ztake todo inp) (zdrop todo inp) Ha eq_refl ltac:(by apply bytes_zdrop)) as H'.
    rewrite <- app_assoc, ztake_zdrop in H'. destruct (16 <=? len (zdrop todo inp)), H'; (split; [done | by eapply keeps_trans]).
  - assert (Hin : ztake todo inp = inp) by (replace todo with (len inp) by lia; apply ztake_all).
    assert (Hdr : zdrop todo inp = []) by (replace todo with (len inp) by lia; apply zdrop_all). rewrite Hin, Hdr in *.
    change (16 <=? len []) with false. cbv iota. change (negb (len [] =? 0)) with false. cbv iota. rewrite <- Ht.
    split; [|by split]. apply absorb_buffer; [done | done | lia].
Qed.

(** * The key *)
Definition clamp (n : Z) : Z := Z.land n 0x0ffffffc0ffffffc0ffffffc0fffffff.

Lemma land_low x m k : 0 <= k -> 0 <= m < 2 ^ k -> Z.land x m = Z.land (x mod 2 ^ k) m.
Proof.
  intros Hk Hm. rewrite <- Z.land_ones, <- Z.land_assoc by done. f_equal. rewrite Z.land_comm, Z.land_ones, Z.mod_small by lia. done.
Qed.
Lemma straddle n i s : 0 <= i -> 0 <= s <= 32 ->
  Z.lor (Z.shiftr (word n i) (32 - s)) (u32 (Z.shiftl (word n (i + 1)) s)) mod 2 ^ 26 = n / 2 ^ (32 * i + 32 - s) mod 2 ^ 26.
Proof.
  intros Hi Hs. unfold word. apply Z.bits_inj'. intros j Hj. rewrite testbit_field by lia.
  destruct (Z.ltb_spec j 26); [|by rewrite Z.mod_pow2_bits_high by lia].
  rewrite Z.mod_pow2_bits_low, Z.lor_spec, Z.shiftr_spec, testbit_field by lia. unfold wrap.
  rewrite Z.mod_pow2_bits_low, Z.shiftl_spec by lia.
  destruct (Z.ltb_spec (j + (32 - s)) 32); cbn [andb orb].
  - rewrite (Z.testbit_neg_r _ (j - s)), orb_false_r by lia. f_equal. lia.
  - rewrite testbit_field by lia. destruct (Z.ltb_spec (j - s) 32); [|lia]. cbn [andb]. f_equal. lia.
Qed.
Lemma straddle_mask n i s m : 0 <= i -> 0 <= s <= 32 -> 0 <= m < 2 ^ 26 ->
  Z.land (Z.lor (Z.shiftr (word n i) (32 - s)) (u32 (Z.shiftl (word n (i + 1)) s))) m = Z.land (n / 2 ^ (32 * i + 32 - s) mod 2 ^ 26) m.
Proof. intros. rewrite (land_low _ m 26) by lia. by rewrite straddle. Qed.

Lemma land_limbs a b c d e a' b' c' d' e' : 0 <= a < 2 ^ 26 -> 0 <= b < 2 ^ 26 -> 0 <= c < 2 ^ 26 -> 0 <= d < 2 ^ 26 ->
  0 <= a' < 2 ^ 26 -> 0 <= b' < 2 ^ 26 -> 0 <= c' < 2 ^ 26 -> 0 <= d' < 2 ^ 26 ->
  limbs (Z.land a a') (Z.land b b') (Z.land c c') (Z.land d d') (Z.land e e') = Z.land (limbs a b c d e) (limbs a' b' c' d' e').
Proof.
  intros.
  assert (E : forall a b c d e, limbs a b c d e = a + 2 ^ 26 * (b + 2 ^ 26 * (c + 2 ^ 26 * (d + 2 ^ 26 * e)))) by (intros; unfold limbs; lia).
  rewrite !E, !land_split by lia. done.
Qed.

Lemma land_le x m : 0 <= m -> 0 <= x -> 0 <= Z.land x m <= m.
Proof.
  intros. split; [apply Z.land_nonneg; lia|]. apply Z.ldiff_le; [done|]. apply Z.bits_inj'. intros i Hi.
  rewrite Z.ldiff_spec, Z.land_spec, Z.bits_0. by destruct (Z.testbit x i), (Z.testbit m i).
Qed.

Lemma load_take l i : (i + 4 <= 16)%nat -> CRYPTO_load_u32_le (drop i l) = CRYPTO_load_u32_le (drop i (take 16 l)).
Proof. intros Hi. unfold CRYPTO_load_u32_le. f_equal. rewrite skipn_firstn_comm, take_take. f_equal. lia. Qed.

Lemma init_spec k : bytes k -> length k = 32%nat ->
  rval (CRYPTO_poly1305_init k) = clamp (le_val (take 16 k)) /\ absorbing (CRYPTO_poly1305_init k) [].
Proof.
  intros Hb Hl. assert (Hb16 : bytes (take 16 k)) by by apply Forall_take.
  assert (Hl16 : length (take 16 k) = 16%nat) by (rewrite length_take; lia).
  destruct (load_words _ Hb16 Hl16) as (W0 & W1 & W2 & W3). pose proof (le_val_range _ Hb16) as Hn.
  unfold len in Hn. rewrite Hl16 in Hn. change (256 ^ Z.of_nat 16) with (2 ^ 128) in Hn.
  assert (L0 : CRYPTO_load_u32_le k = word (le_val (take 16 k)) 0) by (rewrite <- W0; apply (load_take k 0); lia).
  rewrite <- load_take in W1, W2, W3 by lia. set (n := le_val (take 16 k)) in *. clearbody n. clear W0.
  set (st := CRYPTO_poly1305_init k).
  assert (E0 : r0 st = Z.land (n mod 2 ^ 26) 0x3ffffff).
  { subst st. cbn [CRYPTO_poly1305_init r0]. rewrite L0, (land_low _ _ 26) by lia. f_equal. unfold word.
    pose proof (field_field n 0 32 0 26) as F. change (2 ^ (0 + 0)) with 1 in F. change (2 ^ 0) with 1 in F. change (2 ^ (32 * 0)) with 1.
    rewrite !Z.div_1_r in *. apply F; lia. }
  assert (E1 : r1 st = Z.land (n / 2 ^ 26 mod 2 ^ 26) 0x3ffff03).
  { subst st. cbn [CRYPTO_poly1305_init r1]. rewrite L0, W1. apply (straddle_mask n 0 6); lia. }
  assert (E2 : r2 st = Z.land (n / 2 ^ 52 mod 2 ^ 26) 0x3ffc0ff).
  { subst st. cbn [CRYPTO_poly1305_init r2]. rewrite W1, W2. apply (straddle_mask n 1 12); lia. }
  assert (E3 : r3 st = Z.land (n / 2 ^ 78 mod 2 ^ 26) 0x3f03fff).
  { subst st. cbn [CRYPTO_poly1305_init r3]. rewrite W2, W3. apply (straddle_mask n 2 18); lia. }
  assert (E4 : r4 st = Z.land (n / 2 ^ 104) 0xfffff).
  { subst st. cbn [CRYPTO_poly1305_init r4]. rewrite W3. f_equal. rewrite Z.shiftr_div_pow2 by lia. unfold word.
    rewrite (Z.mod_small (n / _)) by (split; [apply Z.div_pos; lia | apply Z.div_lt_upper_bound; lia]).
    by rewrite Z.div_div by lia. }
  pose proof (Z.mod_pos_bound n (2 ^ 26) ltac:(lia)) as M0. pose proof (Z.mod_pos_bound (n / 2 ^ 26) (2 ^ 26) ltac:(lia)) as M1.
  pose proof (Z.mod_pos_bound (n / 2 ^ 52) (2 ^ 26) ltac:(lia)) as M2. pose proof (Z.mod_pos_bound (n / 2 ^ 78) (2 ^ 26) ltac:(lia)) as M3.
  split.
  - unfold rval. rewrite E0, E1, E2, E3, E4, land_limbs by lia. rewrite limbs_val. done.
  - assert (Hr : 0 <= r0 st <= 0x3ffffff /\ 0 <= r1 st <= 0x3ffff03 /\ 0 <= r2 st <= 0x3ffc0ff /\
      0 <= r3 st <= 0x3f03fff /\ 0 <= r4 st <= 0xfffff).
    { rewrite E0, E1, E2, E3, E4. split_and!; apply land_le; try lia; apply Z.div_pos; lia. }
    assert (Hs : s1 st = u32 (r1 st * 5) /\ s2 st = u32 (r2 st * 5) /\ s3 st = u32 (r3 st * 5) /\ s4 st = u32 (r4 st * 5)) by done.
    rewrite !(wrap_small 32) in Hs by lia. split; [split; [done | lia]|].
    split; [unfold reduced; by split_and!|]. split; [constructor|]. split; [done|]. exists O. by split_and!.
Qed.

(** * The last step *)
Lemma finish_carry_spec a b c d e : 0 <= a <= h0_max -> 0 <= b < 2 ^ 26 -> 0 <= c < 2 ^ 26 -> 0 <= d < 2 ^ 26 -> 0 <= e < 2 ^ 26 ->
  exists a' b' c' d' e' q, finish_carry a b c d e = (a' + 5 * q, b', c', d', e') /\ (q = 0 \/ q = 1) /\
    limbs a' b' c' d' e' + 2 ^ 130 * q = limbs a b c d e /\
    (0 <= a' < 2 ^ 26 /\ 0 <= b' < 2 ^ 26 /\ 0 <= c' < 2 ^ 26 /\ 0 <= d' < 2 ^ 26 /\ 0 <= e' < 2 ^ 26).
Proof.
  intros Ha Hb Hc Hd He. unfold h0_max in *. destruct (carry5 a b c d e) as [[[[[a' b'] c'] d'] e'] q] eqn:E.
  pose proof E as [Hv Hr]%carry5_val. exists a', b', c', d', e', q.
  assert (Hq : q = 0 \/ q = 1) by (unfold limbs in Hv; lia). split; [|done].
  unfold carry5 in E. unfold finish_carry. cbv zeta in *. rewrite !Z.shiftr_div_pow2 by lia.
  assert (0 <= a / 2 ^ 26 < 2 ^ 6) by (split; [apply Z.div_pos; lia | apply Z.div_lt_upper_bound; lia]).
  assert (Step : forall x y, 0 <= x < 2 ^ 26 -> 0 <= y < 2 ^ 6 -> u32 (x + y) = x + y /\ 0 <= (x + y) / 2 ^ 26 < 2 ^ 6 /\ 0 <= x + y).
  { intros x y Hx Hy. split; [apply (wrap_small 32); lia|]. split; [|lia]. split; [apply Z.div_pos; lia | apply Z.div_lt_upper_bound; lia]. }
  destruct (Step b (a / 2 ^ 26)) as [-> ?]; [lia..|]. generalize dependent (b + a / 2 ^ 26). intros x1 E ?.
  destruct (Step c (x1 / 2 ^ 26)) as [-> ?]; [lia..|]. generalize dependent (c + x1 / 2 ^ 26). intros x2 E ?.
  destruct (Step d (x2 / 2 ^ 26)) as [-> ?]; [lia..|]. generalize dependent (d + x2 / 2 ^ 26). intros x3 E ?.
  destruct (Step e (x3 / 2 ^ 26)) as [-> ?]; [lia..|]. generalize dependent (e + x3 / 2 ^ 26). intros x4 E ?.
  rewrite !land_mask26 by lia. injection E as <- <- <- <- <- <-.
  pose proof (Z.mod_pos_bound a (2 ^ 26) ltac:(lia)). rewrite (wrap_small 32 (x4 / _ * 5)), (wrap_small 32) by lia. by rewrite (Z.mul_comm 5).
Qed.

Lemma select_all x g : 0 <= x < 2 ^ 32 -> 0 <= g < 2 ^ 32 ->
  Z.lor (Z.land x (u32 (Z.lnot (u32 (0 - 1))))) (Z.land g (u32 (0 - 1))) = g /\
  Z.lor (Z.land x (u32 (Z.lnot (u32 (1 - 1))))) (Z.land g (u32 (1 - 1))) = x.
Proof.
  intros Hx Hg. change (u32 (0 - 1)) with (Z.ones 32). change (u32 (Z.lnot (Z.ones 32))) with 0.
  change (u32 (1 - 1)) with 0. change (u32 (Z.lnot 0)) with (Z.ones 32).
  rewrite !Z.land_0_r, Z.lor_0_l, Z.lor_0_r, !Z.land_ones, !Z.mod_small by lia. done.
Qed.

Lemma finish_subtract_spec a b c d e : 0 <= a < 2 ^ 26 + 5 -> 0 <= b < 2 ^ 26 -> 0 <= c < 2 ^ 26 -> 0 <= d < 2 ^ 26 -> 0 <= e < 2 ^ 26 ->
  if limbs a b c d e <? p1305 then finish_subtract a b c d e = (a, b, c, d, e)
  else exists a' b' c' d' e', finish_subtract a b c d e = (a', b', c', d', e') /\
    limbs a' b' c' d' e' = limbs a b c d e - p1305 /\
    (0 <= a' < 2 ^ 26 /\ 0 <= b' < 2 ^ 26 /\ 0 <= c' < 2 ^ 26 /\ 0 <= d' < 2 ^ 26 /\ 0 <= e' < 2 ^ 26).
Proof.
  intros Ha Hb Hc Hd He. destruct (carry5 (a + 5) b c d e) as [[[[[a' b'] c'] d'] e'] q] eqn:E.
  pose proof E as [Hv Hr]%carry5_val. assert (Hq : q = 0 \/ q = 1) by (unfold limbs in Hv; lia).
  assert (Hcmp : (limbs a b c d e <? p1305) = (q =? 0)).
  { unfold limbs, p1305 in *. destruct (Z.ltb_spec (a + 2 ^ 26 * b + 2 ^ 52 * c + 2 ^ 78 * d + 2 ^ 104 * e) (2 ^ 130 - 5)), (Z.eqb_spec q 0); lia. }
  rewrite Hcmp. unfold carry5 in E. unfold finish_subtract. cbv zeta in *. rewrite (wrap_small 32 (a + 5)) by lia.
  rewrite !(Z.shiftr_div_pow2 _ 26) by lia.
  assert (0 <= (a + 5) / 2 ^ 26 < 2 ^ 6) by (split; [apply Z.div_pos; lia | apply Z.div_lt_upper_bound; lia]).
  assert (Step : forall x y, 0 <= x < 2 ^ 26 -> 0 <= y < 2 ^ 6 -> u32 (x + y) = x + y /\ 0 <= (x + y) / 2 ^ 26 < 2 ^ 6 /\ 0 <= x + y).
  { intros x y Hx Hy. split; [apply (wrap_small 32); lia|]. split; [|lia]. split; [apply Z.div_pos; lia | apply Z.div_lt_upper_bound; lia]. }
  destruct (Step b ((a + 5) / 2 ^ 26)) as (-> & ? & ?); [lia..|]. generalize dependent (b + (a + 5) / 2 ^ 26). intros x1 E ? ?.
  destruct (Step c (x1 / 2 ^ 26)) as (-> & ? & ?); [lia..|]. generalize dependent (c + x1 / 2 ^ 26). intros x2 E ? ?.
  destruct (Step d (x2 / 2 ^ 26)) as (-> & ? & ?); [lia..|]. generalize dependent (d + x2 / 2 ^ 26). intros x3 E ? ?.
  assert (Hx4 : 0 <= e + x3 / 2 ^ 26 < 2 ^ 27) by lia. generalize dependent (e + x3 / 2 ^ 26). intros x4 E Hx4.
  injection E as <- <- <- <- <- <-. rewrite !land_mask26 by lia. change (Z.shiftl 1 26) with (2 ^ 26).
  rewrite Z.shiftr_div_pow2 by lia. destruct Hq as [Hq|Hq]; rewrite Hq in *; cbn [Z.eqb].
  - assert (Hlt : x4 < 2 ^ 26) by (Z.div_mod_to_equations; lia).
    assert (E1 : u32 (x4 - 2 ^ 26) / 2 ^ 31 = 1) by (unfold wrap; Z.div_mod_to_equations; lia). rewrite E1.
    assert (R4 : 0 <= u32 (x4 - 2 ^ 26) < 2 ^ 32) by (apply Z.mod_pos_bound; lia).
    assert (Sel : forall x g, 0 <= x < 2 ^ 32 -> 0 <= g < 2 ^ 32 ->
      Z.lor (Z.land x (u32 (Z.lnot (u32 (1 - 1))))) (Z.land g (u32 (1 - 1))) = x) by (intros; by apply select_all).
    rewrite !Sel by lia. done.
  - assert (Hx : 2 ^ 26 <= x4 < 2 ^ 26 + 2 ^ 26) by (Z.div_mod_to_equations; lia).
    rewrite (wrap_small 32 (x4 - 2 ^ 26)) by lia. rewrite (Z.div_small (x4 - 2 ^ 26)) by lia.
    assert (Sel : forall x g, 0 <= x < 2 ^ 32 -> 0 <= g < 2 ^ 32 ->
      Z.lor (Z.land x (u32 (Z.lnot (u32 (0 - 1))))) (Z.land g (u32 (0 - 1))) = g) by (intros; by apply select_all).
    rewrite !Sel by lia. assert (Hm4 : x4 mod 2 ^ 26 = x4 - 2 ^ 26) by (Z.div_mod_to_equations; lia). rewrite Hm4 in Hv, Hr.
    do 5 eexists. split; [reflexivity|]. split; [|lia]. unfold limbs, p1305 in *. lia.
Qed.

(** Four words with their carries, as 16 bytes. *)
Definition words (w0 w1 w2 w3 : Z) : Z := w0 + 2 ^ 32 * w1 + 2 ^ 64 * w2 + 2 ^ 96 * w3.

Lemma words_val n : 0 <= n < 2 ^ 128 -> words (word n 0) (word n 1) (word n 2) (word n 3) = n.
Proof.
  intros Hn. unfold words, word. change (2 ^ (32 * 0)) with 1. rewrite Z.div_1_r. rewrite (Z.mod_small (n / 2 ^ (32 * 3))).
  2:{ split; [apply Z.div_pos; lia | apply Z.div_lt_upper_bound; lia]. }
  rewrite !Z.mod_eq, !Z.div_div by lia. change (2 ^ (32 * 1) * 2 ^ 32) with (2 ^ (32 * 2)). change (2 ^ (32 * 2) * 2 ^ 32) with (2 ^ (32 * 3)).
  change (32 * 1) with 32. change (32 * 2) with 64. change (32 * 3) with 96. lia.
Qed.

Lemma store_words f0 f1 f2 f3 : 0 <= f0 -> 0 <= f1 -> 0 <= f2 -> 0 <= f3 ->
  let g1 := f1 + f0 / 2 ^ 32 in let g2 := f2 + g1 / 2 ^ 32 in let g3 := f3 + g2 / 2 ^ 32 in
  le_bytes 4 (u32 f0) ++ le_bytes 4 (u32 g1) ++ le_bytes 4 (u32 g2) ++ le_bytes 4 (u32 g3) =
  le_bytes 16 (words f0 f1 f2 f3 mod 2 ^ 128).
Proof.
  intros H0 H1 H2 H3 g1 g2 g3. set (l := le_bytes 4 (u32 f0) ++ _).
  assert (Hb : bytes l) by (subst l; rewrite !bytes_app; split_and!; apply bytes_le_bytes).
  assert (Hl : length l = 16%nat) by (subst l; rewrite !length_app, !length_le_bytes; done).
  rewrite <- (le_bytes_le_val l Hb), Hl. f_equal. subst l. rewrite !le_val_app, !le_val_le_bytes, !len_le_bytes.
  change (256 ^ Z.of_nat 4) with (2 ^ 32). unfold wrap. rewrite !Z.mod_mod by lia.
  assert (E : words f0 f1 f2 f3 = words (f0 mod 2 ^ 32) (g1 mod 2 ^ 32) (g2 mod 2 ^ 32) (g3 mod 2 ^ 32) + g3 / 2 ^ 32 * 2 ^ 128).
  { unfold words. rewrite !Z.mod_eq by lia. subst g1 g2 g3. generalize (f0 / 2 ^ 32). intros q0.
    generalize ((f1 + q0) / 2 ^ 32). intros q1. generalize ((f2 + q1) / 2 ^ 32). intros q2. generalize ((f3 + q2) / 2 ^ 32). intros q3. lia. }
  rewrite E, Z.mod_add by lia. pose proof (Z.mod_pos_bound f0 (2 ^ 32) ltac:(lia)). pose proof (Z.mod_pos_bound g1 (2 ^ 32) ltac:(lia)).
  pose proof (Z.mod_pos_bound g2 (2 ^ 32) ltac:(lia)). pose proof (Z.mod_pos_bound g3 (2 ^ 32) ltac:(lia)).
  clearbody g1 g2 g3. rewrite (Z.mod_small (words _ _ _ _)) by (unfold words; lia). unfold words. lia.
Qed.

(** The words of reduced limbs. *)
Lemma lor_word x y s t : 0 <= s -> 0 <= t -> s + t = 32 -> 0 <= x < 2 ^ s -> 0 <= y ->
  Z.lor x (u32 (Z.shiftl y s)) = x + 2 ^ s * (y mod 2 ^ t).
Proof.
  intros Hs Ht Hst Hx Hy. unfold wrap. rewrite Z.shiftl_mul_pow2 by lia. rewrite <- Hst, Z.pow_add_r by lia.
  rewrite (Z.mul_comm y), Z.mul_mod_distr_l by (apply Z.pow_nonzero; lia).
  rewrite (Z.mul_comm (2 ^ s)), <- Z.shiftl_mul_pow2, lor_add_shiftl, Z.shiftl_mul_pow2 by lia. lia.
Qed.

Lemma limb_words a b c d e : 0 <= a < 2 ^ 26 -> 0 <= b < 2 ^ 26 -> 0 <= c < 2 ^ 26 -> 0 <= d < 2 ^ 26 -> 0 <= e < 2 ^ 26 ->
  words (a + 2 ^ 26 * (b mod 2 ^ 6)) (b / 2 ^ 6 + 2 ^ 20 * (c mod 2 ^ 12)) (c / 2 ^ 12 + 2 ^ 14 * (d mod 2 ^ 18))
    (d / 2 ^ 18 + 2 ^ 8 * (e mod 2 ^ 24)) = limbs a b c d e - 2 ^ 128 * (e / 2 ^ 24).
Proof.
  intros. unfold words, limbs. rewrite !Z.mod_eq by lia.
  generalize (b / 2 ^ 6) (c / 2 ^ 12) (d / 2 ^ 18) (e / 2 ^ 24). intros. lia.
Qed.

(** The first word, when the first limb has a carry left: an OR that loses it if
    the second limb is odd. *)
Definition carry_lost (a b : Z) : Z := if (2 ^ 26 <=? a) && Z.odd b then 2 ^ 26 else 0.

Lemma first_words a b : 0 <= a < 2 ^ 26 + 5 -> 0 <= b < 2 ^ 26 ->
  exists a' b', Z.lor a (u32 (Z.shiftl b 26)) = a' + 2 ^ 26 * (b' mod 2 ^ 6) /\ Z.shiftr b 6 = b' / 2 ^ 6 /\
    0 <= a' < 2 ^ 26 /\ 0 <= b' < 2 ^ 26 /\ a' + 2 ^ 26 * b' = a + 2 ^ 26 * b - carry_lost a b.
Proof.
  intros Ha Hb. unfold carry_lost. rewrite Z.shiftr_div_pow2 by lia. destruct (Z.leb_spec (2 ^ 26) a) as [Hc|Hc]; cbn [andb].
  2:{ exists a, b. rewrite (lor_word a b 26 6) by lia. split_and!; lia. }
  set (a' := a - 2 ^ 26).
  assert (E : Z.lor a (u32 (Z.shiftl b 26)) = a' + 2 ^ 26 * (Z.lor 1 (b mod 2 ^ 6))).
  { rewrite <- (Z.lor_0_l (u32 _)), (lor_word 0 b 26 6) by lia. replace a with (a' + 2 ^ 26 * 1) by (subst a'; lia).
    rewrite Z.add_0_l, <- (Z.add_0_l (2 ^ 26 * (b mod _))), lor_split by (subst a'; lia). by rewrite Z.lor_0_r. }
  rewrite E. assert (Hlor : Z.lor 1 (b mod 2 ^ 6) = if Z.odd b then b mod 2 ^ 6 else b mod 2 ^ 6 + 1).
  { assert (Ho : Z.odd b = Z.odd (b mod 2 ^ 6)).
    { rewrite (Z.div_mod b (2 ^ 6)) at 1 by lia. rewrite Z.odd_add, Z.odd_mul. done. }
    rewrite Ho. pose proof (Z.mod_pos_bound b (2 ^ 6) ltac:(lia)) as Hm. clear Ho E. generalize dependent (b mod 2 ^ 6). intros x Hm. apply Z.eqb_eq.
    apply (forall_from_spec (fun x => Z.lor 1 x =? if Z.odd x then x else x + 1) 0 64); [by vm_compute | lia]. }
  rewrite Hlor. destruct (Z.odd b) eqn:Ho.
  - exists a', b. subst a'. split_and!; lia.
  - assert (He : exists h, b = 2 * h) by (apply Z.even_spec; rewrite <- Z.negb_odd, Ho; done). destruct He as [h ->].
    exists a', (2 * h + 1). subst a'. split_and!; try lia; Z.div_mod_to_equations; lia.
Qed.

Lemma finish_store_spec k a b c d e : bytes k -> length k = 16%nat ->
  0 <= a < 2 ^ 26 + 5 -> 0 <= b < 2 ^ 26 -> 0 <= c < 2 ^ 26 -> 0 <= d < 2 ^ 26 -> 0 <= e < 2 ^ 26 ->
  finish_store k a b c d e = le_bytes 16 ((limbs a b c d e - carry_lost a b + le_val k) mod 2 ^ 128).
Proof.
  intros Hk Hl Ha Hb Hc Hd He. destruct (load_words k Hk Hl) as (W0 & W1 & W2 & W3).
  pose proof (le_val_range k Hk) as Hn. unfold len in Hn. rewrite Hl in Hn. change (256 ^ Z.of_nat 16) with (2 ^ 128) in Hn.
  unfold finish_store. cbv zeta. rewrite W0, W1, W2, W3. set (n := le_val k) in *. clearbody n.
  destruct (first_words a b Ha Hb) as (a' & b' & -> & -> & Ha' & Hb' & E).
  assert (D : forall x s t, 0 <= s -> 0 <= t -> s + t = 26 -> 0 <= x < 2 ^ 26 -> 0 <= x / 2 ^ s < 2 ^ t).
  { intros x s t Hs Ht Hst Hx. split; [apply Z.div_pos; lia|]. apply Z.div_lt_upper_bound; [lia|]. rewrite <- Z.pow_add_r, Hst by lia. lia. }
  pose proof (D b' 6 20 ltac:(lia) ltac:(lia) ltac:(lia) Hb'). pose proof (D c 12 14 ltac:(lia) ltac:(lia) ltac:(lia) Hc).
  pose proof (D d 18 8 ltac:(lia) ltac:(lia) ltac:(lia) Hd). clear D. rewrite !(Z.shiftr_div_pow2 _ 12), !(Z.shiftr_div_pow2 _ 18) by lia.
  rewrite (lor_word (b' / 2 ^ 6) c 20 12), (lor_word (c / 2 ^ 12) d 14 18), (lor_word (d / 2 ^ 18) e 8 24) by lia.
  pose proof (limb_words a' b' c d e Ha' Hb' Hc Hd He) as L. pose proof (word_range n 0). pose proof (word_range n 1).
  pose proof (word_range n 2). pose proof (word_range n 3). pose proof (words_val n Hn) as Hw.
  pose proof (Z.mod_pos_bound b' (2 ^ 6) ltac:(lia)). pose proof (Z.mod_pos_bound c (2 ^ 12) ltac:(lia)).
  pose proof (Z.mod_pos_bound d (2 ^ 18) ltac:(lia)). pose proof (Z.mod_pos_bound e (2 ^ 24) ltac:(lia)).
  set (w0 := a' + 2 ^ 26 * (b' mod 2 ^ 6)) in *. set (w1 := b' / 2 ^ 6 + 2 ^ 20 * (c mod 2 ^ 12)) in *.
  set (w2 := c / 2 ^ 12 + 2 ^ 14 * (d mod 2 ^ 18)) in *. set (w3 := d / 2 ^ 18 + 2 ^ 8 * (e mod 2 ^ 24)) in *.
  assert (R : 0 <= w0 < 2 ^ 32 /\ 0 <= w1 < 2 ^ 34 /\ 0 <= w2 < 2 ^ 32 /\ 0 <= w3 < 2 ^ 32) by (subst w0 w1 w2 w3; lia).
  clearbody w0 w1 w2 w3. destruct R as (? & ? & ? & ?). rewrite !(Z.shiftr_div_pow2 _ 32) by lia.
  assert (Q : forall x, 0 <= x < 2 ^ 36 -> 0 <= x / 2 ^ 32 < 16) by (intros x Hx; split; [apply Z.div_pos; lia | apply Z.div_lt_upper_bound; lia]).
  rewrite !(wrap_small 64 (_ + word _ _)) by lia. pose proof (Q (w0 + word n 0) ltac:(lia)).
  rewrite !(wrap_small 64 (w1 + _ + _)) by lia. pose proof (Q (w1 + word n 1 + (w0 + word n 0) / 2 ^ 32) ltac:(lia)).
  rewrite !(wrap_small 64 (w2 + _ + _)) by lia. pose proof (Q (w2 + word n 2 + (w1 + word n 1 + (w0 + word n 0) / 2 ^ 32) / 2 ^ 32) ltac:(lia)).
  rewrite !(wrap_small 64 (w3 + _ + _)) by lia. unfold CRYPTO_store_u32_le.
  rewrite (store_words (w0 + word n 0) (w1 + word n 1) (w2 + word n 2) (w3 + word n 3)) by lia. f_equal.
  assert (Es : words (w0 + word n 0) (w1 + word n 1) (w2 + word n 2) (w3 + word n 3) =
    limbs a b c d e - carry_lost a b + n + - (e / 2 ^ 24) * 2 ^ 128).
  { unfold words, limbs in *. lia. }
  rewrite Es. by rewrite Z.mod_add by lia.
Qed.

(** * The tag *)
Definition blocks (msg : list Z) : list (list Z) :=
  let k := Z.to_nat (len msg / 16) in
  let rest := zdrop (16 * Z.of_nat k) msg in
  split16 k msg ++ (if len rest =? 0 then [] else [rest]).
Definition poly1305_poly (r : Z) (msg : list Z) : Z := absorb r 0 (blocks msg).
(** Poly1305 of a message, with a one-time key. *)
Definition poly1305_tag (k msg : list Z) : Z :=
  (poly1305_poly (clamp (le_val (take 16 k))) msg + le_val (drop 16 k)) mod 2 ^ 128.

(** The accumulators for which the code loses a carry. *)
Definition loses_carry (y : Z) : Prop := 2 ^ 27 <= y < 2 ^ 32 /\ y mod 2 ^ 26 < 5 /\ Z.even (y / 2 ^ 26) = true.

Lemma absorb_range r acc bs : 0 <= acc < p1305 -> 0 <= absorb r acc bs < p1305.
Proof.
  revert acc. induction bs as [|b bs IH]; intros acc Ha; [done|]. cbn. apply IH. apply Z.mod_pos_bound. done.
Qed.

Lemma finish_last st msg : absorbing st msg ->
  let st' := if negb (buf_used st =? 0) then poly1305_update 2 st (ztake (buf_used st) (buf st)) else st in
  reduced st' /\ key st' = key st /\ hval st' mod p1305 = poly1305_poly (rval st) msg.
Proof.
  intros (Hk & Hr & Hb & Hbuf & k & Hu & Hl & Ht & E).
  assert (Ek : Z.to_nat (len msg / 16) = k) by (rewrite Hl; apply Nat2Z.inj; rewrite Z2Nat.id; Z.div_mod_to_equations; lia).
  unfold poly1305_poly, blocks. rewrite Ek.
  assert (Hlr : len (zdrop (16 * Z.of_nat k) msg) = buf_used st) by (rewrite len_zdrop; lia). rewrite Hlr.
  destruct (Z.eqb_spec (buf_used st) 0) as [E0|E0]; cbn [negb].
  - rewrite app_nil_r. split_and!; [apply Hr.. | done |]. rewrite E. apply Z.mod_small, absorb_range. done.
  - rewrite Ht. assert (Hbr : bytes (zdrop (16 * Z.of_nat k) msg)) by by apply bytes_zdrop.
    cbn [poly1305_update]. rewrite Hlr. destruct (Z.leb_spec 16 (buf_used st)); [lia|]. destruct (Z.eqb_spec (buf_used st) 0); [lia|].
    rewrite <- Hlr. destruct (last_block st _ Hk Hr Hbr) as (_ & Hr1 & (R1 & K1 & _) & E1); [lia|].
    split; [done|]. split; [done|]. rewrite E1. unfold absorb in *. rewrite fold_left_app. cbn [fold_left]. by apply block_step_mod.
Qed.

Lemma poly1305_finish_spec st msg : absorbing st msg -> bytes (key st) -> length (key st) = 16%nat ->
  let y := poly1305_poly (rval st) msg in
  CRYPTO_poly1305_finish st = le_bytes 16 ((y + le_val (key st)) mod 2 ^ 128) \/
  loses_carry y /\ CRYPTO_poly1305_finish st = le_bytes 16 ((y - 2 ^ 26 + le_val (key st)) mod 2 ^ 128).
Proof.
  intros Hs Hbk Hlk y. destruct (finish_last st msg Hs) as (Hr & Ek & E). fold y in E. clearbody y.
  unfold CRYPTO_poly1305_finish. set (st' := if negb _ then _ else _) in *. clearbody st'. cbv zeta. rewrite Ek.
  destruct Hr as (H0 & H1 & H2 & H3 & H4). unfold hval in E.
  destruct (finish_carry_spec _ _ _ _ _ H0 H1 H2 H3 H4) as (a & b & c & d & e & q & -> & Hq & Hv & Ra & Rb & Rc & Rd & Re).
  assert (HH : 0 <= limbs (h0 st') (h1 st') (h2 st') (h3 st') (h4 st') <= h0_max + (2 ^ 130 - 2 ^ 26)) by (unfold limbs; lia).
  generalize dependent (limbs (h0 st') (h1 st') (h2 st') (h3 st') (h4 st')). intros H E Hv HH.
  pose proof (finish_subtract_spec (a + 5 * q) b c d e) as Hsub. specialize (Hsub ltac:(lia) Rb Rc Rd Re).
  set (V := limbs (a + 5 * q) b c d e) in *. assert (HV : V = H - q * p1305) by (subst V; unfold limbs, p1305 in *; lia).
  assert (EV : V mod p1305 = y) by (rewrite HV, <- Z.add_opp_r, <- Z.mul_opp_l, Z.mod_add by done; done).
  assert (HV0 : 0 <= V < 2 * p1305) by (subst V; unfold limbs, p1305; lia).
  destruct (Z.ltb_spec V p1305) as [Hlt|Hge].
  - rewrite Hsub. rewrite finish_store_spec by (done || lia). fold V. rewrite Z.mod_small in EV by lia. unfold carry_lost.
    destruct ((2 ^ 26 <=? a + 5 * q) && Z.odd b) eqn:Hlost; [right | left; rewrite Z.sub_0_r, EV; done].
    apply andb_true_iff in Hlost as [Hc Ho]. rewrite EV. split; [|done].
    assert (q = 1) as -> by lia. unfold h0_max in HH.
    assert (c = 0 /\ d = 0 /\ e = 0) as (-> & -> & ->) by (unfold limbs in Hv; lia).
    assert (Ey : y = (a + 5 - 2 ^ 26) + (b + 1) * 2 ^ 26) by (subst V; unfold limbs in EV; lia).
    assert (Hb1 : b <> 0) by (intros ->; done). unfold loses_carry. rewrite Ey. split; [unfold limbs in Hv; lia|].
    rewrite Z.mod_add, Z.mod_small, Z.div_add, Z.div_small by lia. split; [lia|]. rewrite Z.add_0_l, Z.even_add, <- Z.negb_odd, Ho. done.
  - destruct Hsub as (a' & b' & c' & d' & e' & -> & Hv' & Ra' & Rb' & Rc' & Rd' & Re'). left.
    rewrite finish_store_spec by (done || lia). unfold carry_lost. destruct (Z.leb_spec (2 ^ 26) a'); [lia|]. cbn [andb].
    rewrite Z.sub_0_r, Hv'. fold V. replace (V - p1305) with y; [done|].
    rewrite <- EV. rewrite <- (Z.mod_small (V - p1305) p1305) by lia. rewrite <- Z.add_opp_r. replace (- p1305) with (-1 * p1305) by lia.
    by rewrite Z.mod_add by done.
Qed.

(** Any number of calls. *)
Lemma updates_spec st msg chunks : absorbing st msg -> Forall bytes chunks ->
  let st' := fold_left CRYPTO_poly1305_update chunks st in absorbing st' (msg ++ concat chunks) /\ keeps st st'.
Proof.
  intros Hs Hc. revert st msg Hs. induction Hc as [|c chunks Hb Hc IH]; intros st msg Hs; cbn; [by rewrite app_nil_r|].
  destruct (update_spec st msg c Hs Hb) as [Ha Hkp]. destruct (IH _ _ Ha) as [Ha' Hkp']. rewrite <- app_assoc in Ha'.
  split; [done|]. by eapply keeps_trans.
Qed.

(** C8: with the message given in any pieces, the tag is Poly1305 of the message,
    (the polynomial of its blocks at the clamped r modulo 2^130 - 5, plus s,
    modulo 2^128), unless the polynomial is one of the few small values for which
    the last step loses a carry; then the tag is wrong by exactly 2^26. No other
    sum, product or carry is truncated. *)
Theorem CRYPTO_poly1305_tag k chunks : bytes k -> length k = 32%nat -> Forall bytes chunks ->
  let mac := CRYPTO_poly1305_finish (fold_left CRYPTO_poly1305_update chunks (CRYPTO_poly1305_init k)) in
  let y := poly1305_poly (clamp (le_val (take 16 k))) (concat chunks) in
  mac = le_bytes 16 (poly1305_tag k (concat chunks)) \/
  loses_carry y /\ mac = le_bytes 16 ((y - 2 ^ 26 + le_val (drop 16 k)) mod 2 ^ 128).
Proof.
  intros Hb Hl Hc. destruct (init_spec k Hb Hl) as [Er Hs]. destruct (updates_spec _ [] chunks Hs Hc) as [Ha [R K]].
  assert (Ekey : key (CRYPTO_poly1305_init k) = drop 16 k).
  { change (take 16 (drop 16 k) = drop 16 k). apply take_ge. rewrite length_drop. lia. }
  rewrite Ekey in K. pose proof (poly1305_finish_spec _ _ Ha) as H. rewrite R, K, Er in H. cbn [app] in H.
  apply H; [by apply Forall_drop | rewrite length_drop; lia].
Qed.

(** A key and a message whose polynomial is 2^27. *)
Definition poly1305_key : list Z :=
  [0x0e; 0x9c; 0x18; 0xf3; 0x15; 0xcc; 0x59; 0x69; 0x2a; 0xe6; 0xfc; 0x8c; 0x6a; 0x98; 0x1f; 0xaa] ++ replicate 16 0.
Definition example_msg : list Z :=
  [0x72; 0x13; 0xdb; 0x8c; 0xc6; 0xef; 0x07; 0x05; 0x4d; 0x13; 0xf4; 0x19; 0x98; 0x52; 0x54; 0xfa].


Lemma CRYPTO_poly1305_tag_witness :
  CRYPTO_poly1305_finish (fold_left CRYPTO_poly1305_update [[1; 2; 3]; [4]] (CRYPTO_poly1305_init (replicate 32 7))) =
  le_bytes 16 (poly1305_tag (replicate 32 7) [1; 2; 3; 4]).
Proof.
  destruct (CRYPTO_poly1305_tag (replicate 32 7) [[1; 2; 3]; [4]]) as [H|[_ H]].
  - apply Forall_replicate. done.
  - done.
  - repeat constructor; done.
  - exact H.
  - exfalso. vm_compute in H. done.
Defined.
