(* ===== verification/ChaCha.v ===== *)
(** ChaCha20: crypto/chacha/chacha.cc, in its portable version and in the version
    that drives assembly. The assembly routines are parameters. *)
From S2P Require Import Prelude.
From S2P Require Import Internal.

Open Scope Z_scope.

(** "expand 32-byte k" *)
Definition sigma : list Z :=
  [0x65; 0x78; 0x70; 0x61; 0x6e; 0x64; 0x20; 0x33; 0x32; 0x2d; 0x62; 0x79; 0x74; 0x65; 0x20; 0x6b].

Definition get (x : list Z) (i : nat) : Z := default 0 (x !! i).

(** [x[a] += x[b]] and [x[d] = CRYPTO_rotl_u32(x[d] ^ x[a], s)]. *)
Definition add_to (a b : nat) (x : list Z) : list Z := <[a := u32 (get x a + get x b)]> x.
Definition xor_rot (d a : nat) (s : Z) (x : list Z) : list Z :=
  <[d := CRYPTO_rotl_u32 (Z.lxor (get x d) (get x a)) s]> x.

Definition QUARTERROUND (a b c d : nat) (x : list Z) : list Z :=
  let x := add_to a b x in
  let x := xor_rot d a 16 x in
  let x := add_to c d x in
  let x := xor_rot b c 12 x in
  let x := add_to a b x in
  let x := xor_rot d a 8 x in
  let x := add_to c d x in
  xor_rot b c 7 x.

(** Two rounds, and the loop of ten of them. *)
Definition quarters : list (nat * nat * nat * nat) :=
  [(0, 4, 8, 12); (1, 5, 9, 13); (2, 6, 10, 14); (3, 7, 11, 15);
   (0, 5, 10, 15); (1, 6, 11, 12); (2, 7, 8, 13); (3, 4, 9, 14)]%nat.
Definition double_round (x : list Z) : list Z :=
  fold_left (fun x '(a, b, c, d) => QUARTERROUND a b c d x) quarters x.
Fixpoint iterate (n : nat) (f : list Z -> list Z) (x : list Z) : list Z :=
  match n with O => x | S n => iterate n f (f x) end.
Definition rounds (n : nat) (x : list Z) : list Z := iterate n double_round x.

(** [n] little-endian words, as memcpy to or from an array of uint32_t. *)
Fixpoint words_of (n : nat) (l : list Z) : list Z :=
  match n with O => [] | S n => CRYPTO_load_u32_le l :: words_of n (drop 4 l) end.
Definition bytes_of (w : list Z) : list Z := concat (CRYPTO_store_u32_le <$> w).

Definition CRYPTO_hchacha20 (key nonce : list Z) : list Z :=
  let x := words_of 4 sigma ++ words_of 8 key ++ words_of 4 nonce in
  let x := rounds 10 x in
  bytes_of (take 4 x) ++ bytes_of (drop 12 x).

Definition chacha_core (input : list Z) : list Z :=
  let x := rounds 10 input in
  bytes_of (zip_with (fun x i => u32 (x + i)) x input).

(** * The portable version *)
Definition chacha_input (key nonce : list Z) (counter : Z) : list Z :=
  words_of 4 sigma ++ words_of 8 key ++ counter :: words_of 3 nonce.

Fixpoint chacha_loop (fuel : nat) (input inp : list Z) : list Z :=
  match fuel with
  | O => []
  | S fuel =>
    if len inp =? 0 then []
    else
      let todo := if len inp <? 64 then len inp else 64 in
      let buf := chacha_core input in
      zip_with Z.lxor (ztake todo inp) buf ++
      chacha_loop fuel (<[12%nat := u32 (get input 12 + 1)]> input) (zdrop todo inp)
  end.

Definition CRYPTO_chacha_20 (inp key nonce : list Z) (counter : Z) : list Z :=
  chacha_loop (S (length inp)) (chacha_input key nonce counter) inp.

(** * The version with assembly *)

(** A routine: whether it can be used for a length, and what it writes given the
    input, the key words, and the counter and nonce words. *)
Record ctr32_impl := mk_impl {
  capable : Z -> bool;
  ctr32 : list Z -> list Z -> list Z -> list Z;
}.

Section Asm.
(** The accelerated routines in the order in which they are tried, and the one
    that needs no special hardware. *)
Variable accelerated : list ctr32_impl.
Variable ChaCha20_ctr32_nohw : list Z -> list Z -> list Z -> list Z.

Definition ChaCha20_ctr32 (inp key counter : list Z) : list Z :=
  match List.find (fun i => capable i (len inp)) accelerated with
  | Some i => ctr32 i inp key counter
  | None => if 0 <? len inp then ChaCha20_ctr32_nohw inp key counter else []
  end.

Fixpoint chacha_asm_loop (fuel : nat) (inp key counter_nonce : list Z) : list Z :=
  match fuel with
  | O => []
  | S fuel =>
    if negb (0 <? len inp) then []
    else
      let todo := u64 (64 * (2 ^ 32 - get counter_nonce 0)) in
      let todo := if len inp <? todo then len inp else todo in
      ChaCha20_ctr32 (ztake todo inp) key counter_nonce ++
      chacha_asm_loop fuel (zdrop todo inp) key (<[0%nat := 0]> counter_nonce)
  end.

Definition CRYPTO_chacha_20_asm (inp key nonce : list Z) (counter : Z) : list Z :=
  chacha_asm_loop (S (length inp)) inp (words_of 8 key) (counter :: words_of 3 nonce).
End Asm.

(** * Properties *)

(** The stream of a sequence of blocks numbered modulo 2^32, from the block
    [counter]: the byte at position [i], and the exclusive or of the stream with
    an input. *)
Definition keystream (block : Z -> list Z) (counter : Z) (i : nat) : Z :=
  get (block ((counter + Z.of_nat i / 64) mod 2 ^ 32)) (i mod 64).
Definition xor_stream (block : Z -> list Z) (counter : Z) (inp : list Z) : list Z :=
  imap (fun i b => Z.lxor b (keystream block counter i)) inp.

(** The ChaCha20 block of a key, a nonce and a counter. *)
Definition chacha_block (key nonce : list Z) (counter : Z) : list Z := chacha_core (chacha_input key nonce counter).

Lemma length_words_of n l : length (words_of n l) = n.
Proof. revert l. induction n as [|n IH]; intros l; [done|]. cbn. by rewrite IH. Qed.
Lemma length_bytes_of w : length (bytes_of w) = (4 * length w)%nat.
Proof. unfold bytes_of. induction w as [|x w IH]; [done|]. rewrite fmap_cons. cbn [concat]. rewrite length_app, IH. cbn. lia. Qed.
Lemma length_add_to a b x : length (add_to a b x) = length x.
Proof. apply length_insert. Qed.
Lemma length_xor_rot d a s x : length (xor_rot d a s x) = length x.
Proof. apply length_insert. Qed.
Lemma length_quarter a b c d x : length (QUARTERROUND a b c d x) = length x.
Proof. unfold QUARTERROUND. cbv zeta. repeat rewrite ?length_add_to, ?length_xor_rot. reflexivity. Qed.
Lemma length_double x : length (double_round x) = length x.
Proof.
  unfold double_round. generalize quarters as l. intros l. revert x.
  induction l as [|[[[a b] c] d] l IH]; intros x; [done|]. cbn [fold_left]. by rewrite IH, length_quarter.
Qed.
Lemma length_iterate n f x : (forall x, length (f x) = length x) -> length (iterate n f x) = length x.
Proof. intros H. revert x. induction n as [|n IH]; intros x; [done|]. cbn [iterate]. by rewrite IH, H. Qed.
Lemma length_rounds n x : length (rounds n x) = length x.
Proof. apply length_iterate, length_double. Qed.
Lemma length_input key nonce c : length (chacha_input key nonce c) = 16%nat.
Proof. unfold chacha_input. rewrite !length_app. cbn [length]. by rewrite !length_words_of. Qed.
Lemma length_block key nonce c : length (chacha_block key nonce c) = 64%nat.
Proof. unfold chacha_block, chacha_core. cbv zeta. rewrite length_bytes_of, length_zip_with, length_rounds, !length_input. reflexivity. Qed.
#[local] Opaque chacha_core rounds.

Lemma input_counter key nonce c : get (chacha_input key nonce c) 12 = c.
Proof.
  unfold get, chacha_input. rewrite app_assoc, lookup_app_r; rewrite length_app, !length_words_of; [done | lia].
Qed.
Lemma input_next key nonce c c' : <[12%nat := c']> (chacha_input key nonce c) = chacha_input key nonce c'.
Proof.
  unfold chacha_input. rewrite !(app_assoc (words_of 4 sigma)).
  assert (E : 12%nat = (length (words_of 4 sigma ++ words_of 8 key) + 0)%nat) by (rewrite length_app, !length_words_of; done).
  rewrite E, insert_app_r. done.
Qed.

Lemma imap_ext_lt {A B} (f g : nat -> A -> B) l : (forall i x, (i < length l)%nat -> f i x = g i x) -> imap f l = imap g l.
Proof.
  intros H. apply list_eq. intros i. rewrite !list_lookup_imap. destruct (l !! i) as [x|] eqn:E; [|done].
  cbn. f_equal. apply H. by eapply lookup_lt_Some.
Qed.
Lemma zip_with_imap (l k : list Z) : (length l <= length k)%nat -> zip_with Z.lxor l k = imap (fun i b => Z.lxor b (get k i)) l.
Proof.
  revert k. induction l as [|b l IH]; intros [|c k] Hl; cbn in Hl; try done; try lia. cbn [zip_with]. rewrite imap_cons. f_equal.
  rewrite IH by lia. done.
Qed.

(** * Streams *)
Section Stream.
Context (block : Z -> list Z).
Hypothesis length_blk : forall c, length (block c) = 64%nat.

Lemma keystream_skip c n i : (64 | Z.of_nat n) -> keystream block c (n + i) = keystream block (c + Z.of_nat n / 64) i.
Proof.
  intros [q Hq]. unfold keystream.
  replace ((n + i) mod 64)%nat with (i mod 64)%nat.
  - do 3 f_equal. rewrite Nat2Z.inj_add, Hq, (Z.add_comm (q * 64)), Z.div_add, Z.div_mul by lia. lia.
  - apply Nat2Z.inj. rewrite !Nat2Z.inj_mod, Nat2Z.inj_add, Hq, Z.add_comm. symmetry. apply Z.mod_add. lia.
Qed.

(** The stream in two parts. *)
Lemma xor_stream_app c l k : (64 | len l) \/ k = [] ->
  xor_stream block c (l ++ k) = xor_stream block c l ++ xor_stream block (c + len l / 64) k.
Proof.
  intros H. unfold xor_stream. rewrite imap_app. f_equal. destruct H as [Hq | ->]; [|done].
  apply imap_ext_lt. intros i x _. cbn [compose]. unfold compose. by rewrite keystream_skip.
Qed.
Lemma xor_stream_mod c l : xor_stream block (c mod 2 ^ 32) l = xor_stream block c l.
Proof.
  apply imap_ext_lt. intros i x _. unfold keystream. by rewrite Z.add_mod_idemp_l by lia.
Qed.

(** One block. *)
Lemma xor_block c l : 0 <= c < 2 ^ 32 -> len l <= 64 -> zip_with Z.lxor l (block c) = xor_stream block c l.
Proof.
  intros Hc Hl. unfold len in Hl. rewrite zip_with_imap by (rewrite length_blk; lia). apply imap_ext_lt. intros i x Hi. unfold keystream.
  rewrite Z.div_small, Z.add_0_r, Z.mod_small, Nat.mod_small by lia. done.
Qed.

(** The stream applied twice is the input. *)
Lemma xor_stream_involutive c l : xor_stream block c (xor_stream block c l) = l.
Proof.
  apply list_eq. intros i. unfold xor_stream. rewrite !list_lookup_imap. destruct (l !! i) as [x|]; [|done]. cbn.
  by rewrite Z.lxor_assoc, Z.lxor_nilpotent, Z.lxor_0_r.
Qed.
(** Only the blocks at 32-bit counters are used. *)
Lemma xor_stream_ext block' c l : (forall c, 0 <= c < 2 ^ 32 -> block c = block' c) -> xor_stream block c l = xor_stream block' c l.
Proof. intros H. apply imap_ext_lt. intros i x _. unfold keystream. rewrite H by (apply Z.mod_pos_bound; lia). reflexivity. Qed.
Lemma len_xor_stream c l : len (xor_stream block c l) = len l.
Proof. unfold len, xor_stream. by rewrite length_imap. Qed.
End Stream.

(** * The portable loop *)
Lemma chacha_loop_spec fuel key nonce c inp : (length inp < fuel)%nat -> 0 <= c < 2 ^ 32 ->
  chacha_loop fuel (chacha_input key nonce c) inp = xor_stream (chacha_block key nonce) c inp.
Proof.
  revert c inp. induction fuel as [|fuel IH]; intros c inp Hf Hc; [lia|]. cbn [chacha_loop]. pose proof (len_nonneg inp).
  destruct (Z.eqb_spec (len inp) 0) as [->%len_0_nil|]; [reflexivity|].
  rewrite input_counter, input_next. fold (chacha_block key nonce c). set (todo := if len inp <? 64 then len inp else 64).
  assert (Ht : 0 < todo <= len inp /\ todo <= 64 /\ (todo = 64 \/ todo = len inp)) by (subst todo; destruct (Z.ltb_spec (len inp) 64); lia).
  assert (Hlt : len (ztake todo inp) = todo) by (apply len_ztake; lia).
  rewrite xor_block by (first [apply length_block | lia]).
  rewrite IH by (first [apply Z.mod_pos_bound; lia | unfold zdrop; rewrite length_drop; unfold len in *; lia]).
  rewrite <- (ztake_zdrop todo inp) at 3. unfold wrap. rewrite xor_stream_mod, xor_stream_app, Hlt.
  - destruct Ht as (? & ? & [->| Eall]); [reflexivity|]. rewrite Eall, zdrop_all. reflexivity.
  - destruct Ht as (? & ? & [Eb| Eall]); [left; exists 1; lia | right; rewrite Eall; apply zdrop_all].
Qed.

(** * The loop over assembly *)

(** What crypto/chacha/internal.h says of a routine: given a non-empty input it
    encrypts it, as long as the 32-bit counter does not overflow. *)
Definition ctr32_encrypts (usable : Z -> bool) (f : list Z -> list Z -> list Z -> list Z) : Prop :=
  forall inp key nonce c, 0 <= c < 2 ^ 32 -> 0 < len inp <= 64 * (2 ^ 32 - c) -> usable (len inp) = true ->
  f inp (words_of 8 key) (c :: words_of 3 nonce) = xor_stream (chacha_block key nonce) c inp.

Section AsmProofs.
Context (accelerated : list ctr32_impl) (nohw : list Z -> list Z -> list Z -> list Z).
Hypothesis accelerated_ok : Forall (fun i => ctr32_encrypts (capable i) (ctr32 i)) accelerated.
Hypothesis nohw_ok : ctr32_encrypts (fun _ => true) nohw.

Lemma ChaCha20_ctr32_spec inp key nonce c : 0 <= c < 2 ^ 32 -> 0 < len inp <= 64 * (2 ^ 32 - c) ->
  ChaCha20_ctr32 accelerated nohw inp (words_of 8 key) (c :: words_of 3 nonce) = xor_stream (chacha_block key nonce) c inp.
Proof.
  intros Hc Hl. unfold ChaCha20_ctr32. destruct (List.find _ _) as [i|] eqn:E.
  - apply List.find_some in E as [Hin Hcap]. rewrite Forall_forall in accelerated_ok.
    apply (accelerated_ok i); assumption.
  - destruct (Z.ltb_spec 0 (len inp)); [|lia]. by apply nohw_ok.
Qed.

Lemma chacha_asm_loop_spec fuel key nonce c inp : (length inp < fuel)%nat -> 0 <= c < 2 ^ 32 ->
  chacha_asm_loop accelerated nohw fuel inp (words_of 8 key) (c :: words_of 3 nonce) = xor_stream (chacha_block key nonce) c inp.
Proof.
  revert c inp. induction fuel as [|fuel IH]; intros c inp Hf Hc; [lia|]. cbn [chacha_asm_loop]. pose proof (len_nonneg inp).
  destruct (Z.ltb_spec 0 (len inp)); cbn [negb]; [|rewrite (len_0_nil inp) by lia; reflexivity].
  change (get (c :: words_of 3 nonce) 0) with c. rewrite (wrap_small 64) by lia.
  change (<[0%nat := 0]> (c :: words_of 3 nonce)) with (0 :: words_of 3 nonce).
  set (todo := if len inp <? _ then _ else _).
  assert (Ht : 0 < todo <= len inp /\ (todo = 64 * (2 ^ 32 - c) \/ todo = len inp) /\ todo <= 64 * (2 ^ 32 - c))
    by (subst todo; destruct (Z.ltb_spec (len inp) (64 * (2 ^ 32 - c))); lia).
  clearbody todo. assert (Hlt : len (ztake todo inp) = todo) by (apply len_ztake; lia).
  rewrite ChaCha20_ctr32_spec, IH by (try (unfold zdrop; rewrite length_drop); unfold len in *; lia).
  rewrite <- (ztake_zdrop todo inp) at 3. rewrite xor_stream_app, Hlt.
  - destruct Ht as (? & [->| ->] & _); [|rewrite zdrop_all; reflexivity].
    rewrite <- (xor_stream_mod _ (c + _)), (Z.mul_comm 64 (2 ^ 32 - c)), Z.div_mul, Zplus_minus, Z.mod_same by lia. reflexivity.
  - destruct Ht as (? & [->| ->] & _); [left; exists (2 ^ 32 - c); lia | right; apply zdrop_all].
Qed.
End AsmProofs.

(** * HChaCha20 *)
Definition is_word32 (x : Z) : Prop := 0 <= x < 2 ^ 32.

Lemma get_word x i : Forall is_word32 x -> is_word32 (get x i).
Proof. intros H. unfold get. destruct (x !! i) eqn:E; cbn; [by eapply Forall_lookup_1 | unfold is_word32; lia]. Qed.
Lemma words_add_to a b x : Forall is_word32 x -> Forall is_word32 (add_to a b x).
Proof. intros H. apply Forall_insert; [done|]. apply wrap_range. lia. Qed.
Lemma words_xor_rot d a s x : 0 < s < 32 -> Forall is_word32 x -> Forall is_word32 (xor_rot d a s x).
Proof. intros Hs H. apply Forall_insert; [done|]. apply rotl_u32_range; [done|]. apply lxor_range; [lia | by apply get_word..]. Qed.
Lemma words_quarter a b c d x : Forall is_word32 x -> Forall is_word32 (QUARTERROUND a b c d x).
Proof.
  intros H. unfold QUARTERROUND. cbv zeta. repeat first [apply words_add_to | apply words_xor_rot; [lia|]]. exact H.
Qed.
Lemma words_double x : Forall is_word32 x -> Forall is_word32 (double_round x).
Proof.
  unfold double_round. generalize quarters as l. intros l. revert x.
  induction l as [|[[[a b] c] d] l IH]; intros x H; [exact H|]. cbn [fold_left]. apply IH, words_quarter, H.
Qed.
Lemma words_iterate n f x : (forall x, Forall is_word32 x -> Forall is_word32 (f x)) -> Forall is_word32 x -> Forall is_word32 (iterate n f x).
Proof. intros Hf. revert x. induction n as [|n IH]; intros x H; [exact H|]. cbn [iterate]. apply IH, Hf, H. Qed.
Lemma words_rounds n x : Forall is_word32 x -> Forall is_word32 (rounds n x).
Proof. intros H. with_strategy transparent [rounds] unfold rounds. apply words_iterate; [apply words_double | exact H]. Qed.
Lemma words_words_of n l : bytes l -> Forall is_word32 (words_of n l).
Proof.
  revert l. induction n as [|n IH]; intros l Hl; [constructor|]. cbn [words_of]. constructor.
  - unfold CRYPTO_load_u32_le, is_word32. pose proof (le_val_range (take 4 l) ltac:(by apply Forall_take)) as H.
    assert (len (take 4 l) <= 4) by (unfold len; rewrite length_take; lia).
    pose proof (Z.pow_le_mono_r 256 (len (take 4 l)) 4 ltac:(lia) ltac:(lia)). lia.
  - by apply IH, Forall_drop.
Qed.

(** * The block function of RFC 8439 *)

(** Section 2.1, the quarter round on four words, with rotation as arithmetic:
    the top [s] bits move to the bottom. *)
Definition rol32 (s x : Z) : Z := x mod 2 ^ (32 - s) * 2 ^ s + x / 2 ^ (32 - s).
Definition quarter (q : Z * Z * Z * Z) : Z * Z * Z * Z :=
  let '(a, b, c, d) := q in
  let a := (a + b) mod 2 ^ 32 in let d := rol32 16 (Z.lxor d a) in
  let c := (c + d) mod 2 ^ 32 in let b := rol32 12 (Z.lxor b c) in
  let a := (a + b) mod 2 ^ 32 in let d := rol32 8 (Z.lxor d a) in
  let c := (c + d) mod 2 ^ 32 in let b := rol32 7 (Z.lxor b c) in
  (a, b, c, d).

(** The state as four rows: a round is four quarter rounds down the columns, and
    the diagonals are the columns once row [i] is rotated by [i] to the left. *)
Definition matrix : Type := (Z * Z * Z * Z) * (Z * Z * Z * Z) * (Z * Z * Z * Z) * (Z * Z * Z * Z).
Definition columns (m : matrix) : matrix :=
  let '((a0, a1, a2, a3), (b0, b1, b2, b3), (c0, c1, c2, c3), (d0, d1, d2, d3)) := m in
  let '(a0, b0, c0, d0) := quarter (a0, b0, c0, d0) in
  let '(a1, b1, c1, d1) := quarter (a1, b1, c1, d1) in
  let '(a2, b2, c2, d2) := quarter (a2, b2, c2, d2) in
  let '(a3, b3, c3, d3) := quarter (a3, b3, c3, d3) in
  ((a0, a1, a2, a3), (b0, b1, b2, b3), (c0, c1, c2, c3), (d0, d1, d2, d3)).
Definition rotate (r : Z * Z * Z * Z) : Z * Z * Z * Z := let '(a, b, c, d) := r in (b, c, d, a).
Definition diagonals_to_columns (m : matrix) : matrix :=
  let '(a, b, c, d) := m in (a, rotate b, rotate (rotate c), rotate (rotate (rotate d))).
Definition columns_to_diagonals (m : matrix) : matrix :=
  let '(a, b, c, d) := m in (a, rotate (rotate (rotate b)), rotate (rotate c), rotate d).
Definition inner_block (m : matrix) : matrix := columns_to_diagonals (columns (diagonals_to_columns (columns m))).

Definition row (l : list Z) (i : nat) : Z * Z * Z * Z := (get l i, get l (i + 1), get l (i + 2), get l (i + 3)).
Definition to_matrix (l : list Z) : matrix := (row l 0, row l 4, row l 8, row l 12).
Definition of_row (r : Z * Z * Z * Z) : list Z := let '(a, b, c, d) := r in [a; b; c; d].
Definition of_matrix (m : matrix) : list Z := let '(a, b, c, d) := m in of_row a ++ of_row b ++ of_row c ++ of_row d.

(** Section 2.3: ten double rounds, the addition of the input, little-endian words. *)
Definition rfc8439_block (key nonce : list Z) (counter : Z) : list Z :=
  let state := words_of 4 sigma ++ words_of 8 key ++ counter :: words_of 3 nonce in
  let working := of_matrix (Nat.iter 10 inner_block (to_matrix state)) in
  concat (le_bytes 4 <$> zip_with (fun x i => (x + i) mod 2 ^ 32) working state).

Lemma rotl_rol32 x s : 0 < s < 32 -> is_word32 x -> CRYPTO_rotl_u32 x s = rol32 s x.
Proof. intros. by apply rotl_u32_split. Qed.
Lemma rol32_word x s : 0 < s < 32 -> is_word32 x -> is_word32 (rol32 s x).
Proof. intros. by apply rot_range. Qed.

Lemma get_insert l i j v : (i < length l)%nat -> get (<[i := v]> l) j = if decide (i = j) then v else get l j.
Proof.
  intros H. unfold get. case_decide as E; [subst; by rewrite list_lookup_insert_eq | by rewrite list_lookup_insert_ne].
Qed.

Ltac word32 :=
  repeat first [ assumption | apply (wrap_range 32); lia | apply (lxor_range 32); [lia|..] | apply rol32_word; [lia|] ].

Lemma get_add_to a b x i : (a < length x)%nat -> get (add_to a b x) i = if decide (a = i) then u32 (get x a + get x b) else get x i.
Proof. intros H. by apply get_insert. Qed.
Lemma get_xor_rot d a s x i : (d < length x)%nat ->
  get (xor_rot d a s x) i = if decide (d = i) then CRYPTO_rotl_u32 (Z.lxor (get x d) (get x a)) s else get x i.
Proof. intros H. by apply get_insert. Qed.

Lemma half_quarter a b d s x : a <> d -> (a < length x)%nat -> (d < length x)%nat -> 0 < s < 32 -> Forall is_word32 x ->
  let A := (get x a + get x b) mod 2 ^ 32 in
  let D := rol32 s (Z.lxor (get x d) A) in
  let x' := xor_rot d a s (add_to a b x) in
  get x' a = A /\ get x' d = D /\ (forall i, i <> a -> i <> d -> get x' i = get x i) /\
  length x' = length x /\ Forall is_word32 x'.
Proof.
  intros Had Ha Hd Hs Hw A D x'. pose proof (get_word x d Hw) as Wd.
  assert (HA : is_word32 A) by (apply Z.mod_pos_bound; lia).
  split_and!.
  - unfold x'. rewrite get_xor_rot, decide_False, get_add_to, decide_True by (rewrite ?length_add_to; congruence). done.
  - unfold x'. rewrite get_xor_rot, decide_True, !get_add_to, decide_False, decide_True by (rewrite ?length_add_to; congruence).
    apply rotl_rol32; [done|]. by apply lxor_range.
  - intros i Hia Hid. unfold x'. rewrite get_xor_rot, decide_False, get_add_to, decide_False by (rewrite ?length_add_to; congruence). done.
  - unfold x'. by rewrite length_xor_rot, length_add_to.
  - by apply words_xor_rot, words_add_to.
Qed.

(** The in-place quarter round writes the four words of the quarter round back. *)
Lemma QUARTERROUND_spec a b c d x : a <> b /\ a <> c /\ a <> d /\ b <> c /\ b <> d /\ c <> d ->
  (a < length x /\ b < length x /\ c < length x /\ d < length x)%nat -> Forall is_word32 x ->
  let x' := QUARTERROUND a b c d x in
  (get x' a, get x' b, get x' c, get x' d) = quarter (get x a, get x b, get x c, get x d) /\
  (forall i, i <> a -> i <> b -> i <> c -> i <> d -> get x' i = get x i).
Proof.
  intros (Hab & Hac & Had & Hbc & Hbd & Hcd) (Ha & Hb & Hc & Hd) Hw. unfold QUARTERROUND. cbv zeta.
  destruct (half_quarter a b d 16 x) as (A1 & D1 & O1 & L1 & W1); [done..|]. set (x1 := xor_rot d a 16 _) in *. clearbody x1.
  rewrite <- L1 in Ha, Hb, Hc, Hd.
  destruct (half_quarter c d b 12 x1) as (C2 & B2 & O2 & L2 & W2); [done..|]. set (x2 := xor_rot b c 12 _) in *. clearbody x2.
  rewrite <- L2 in Ha, Hb, Hc, Hd.
  destruct (half_quarter a b d 8 x2) as (A3 & D3 & O3 & L3 & W3); [done..|]. set (x3 := xor_rot d a 8 _) in *. clearbody x3.
  rewrite <- L3 in Ha, Hb, Hc, Hd.
  destruct (half_quarter c d b 7 x3) as (C4 & B4 & O4 & L4 & W4); [done..|]. set (x4 := xor_rot b c 7 _) in *. clearbody x4.
  split.
  - rewrite (O4 a), (O4 d), B4, C4, (O3 b), (O3 c), A3, D3, (O2 a), (O2 d), B2, C2, (O1 b), (O1 c), A1, D1 by done. reflexivity.
  - intros i H1 H2 H3 H4. by rewrite O4, O3, O2, O1.
Qed.

(** One quarter round of the fixed list: its four words, in the words before it. *)
Ltac quarter_at a b c d x x' E O :=
  let L := fresh "L" in let W := fresh "W" in
  destruct (QUARTERROUND_spec a b c d x) as [E O]; [lia | lia | assumption |];
  pose proof (length_quarter a b c d x) as L; pose proof (words_quarter a b c d x ltac:(assumption)) as W;
  generalize dependent (QUARTERROUND a b c d x); intros x' E O L W;
  match goal with H : length x = _ |- _ => rewrite H in L end.

Lemma double_round_spec x : length x = 16%nat -> Forall is_word32 x -> to_matrix (double_round x) = inner_block (to_matrix x).
Proof.
  intros Hl Hw. unfold double_round, quarters. cbn [fold_left].
  quarter_at 0%nat 4%nat 8%nat 12%nat x x1 E1 O1. quarter_at 1%nat 5%nat 9%nat 13%nat x1 x2 E2 O2.
  quarter_at 2%nat 6%nat 10%nat 14%nat x2 x3 E3 O3. quarter_at 3%nat 7%nat 11%nat 15%nat x3 x4 E4 O4.
  quarter_at 0%nat 5%nat 10%nat 15%nat x4 x5 E5 O5. quarter_at 1%nat 6%nat 11%nat 12%nat x5 x6 E6 O6.
  quarter_at 2%nat 7%nat 8%nat 13%nat x6 x7 E7 O7. quarter_at 3%nat 4%nat 9%nat 14%nat x7 x8 E8 O8.
  rewrite !O1 in E2 by lia. rewrite !O2, !O1 in E3 by lia. rewrite !O3, !O2, !O1 in E4 by lia.
  unfold to_matrix, row, inner_block, columns. cbn [Nat.add]. rewrite <- E1, <- E2, <- E3, <- E4.
  cbn [diagonals_to_columns rotate].
  rewrite (O4 0%nat), (O3 0%nat), (O2 0%nat), (O4 5%nat), (O3 5%nat), (O4 10%nat) in E5 by lia.
  rewrite !O5, (O4 1%nat), (O3 1%nat), (O4 6%nat), (O4 12%nat), (O3 12%nat), (O2 12%nat) in E6 by lia.
  rewrite !O6, !O5, (O4 2%nat), (O4 8%nat), (O3 8%nat), (O2 8%nat), (O4 13%nat), (O3 13%nat) in E7 by lia.
  rewrite !O7, !O6, !O5, (O4 4%nat), (O3 4%nat), (O2 4%nat), (O4 9%nat), (O3 9%nat), (O4 14%nat) in E8 by lia.
  rewrite <- E5, <- E6, <- E7, <- E8. cbn [columns_to_diagonals rotate].
  rewrite (O8 0%nat), (O7 0%nat), (O6 0%nat), (O8 5%nat), (O7 5%nat), (O6 5%nat), (O8 10%nat), (O7 10%nat), (O6 10%nat), (O8 15%nat), (O7 15%nat), (O6 15%nat),
    (O8 1%nat), (O7 1%nat), (O8 6%nat), (O7 6%nat), (O8 11%nat), (O7 11%nat), (O8 12%nat), (O7 12%nat), (O8 2%nat), (O8 7%nat), (O8 8%nat), (O8 13%nat) by lia.
  reflexivity.
Qed.

Lemma matrix_list l : length l = 16%nat -> of_matrix (to_matrix l) = l.
Proof. intros H. do 16 (destruct l as [|? l]; [discriminate|]). by destruct l. Qed.

Lemma iterate_sim {A} (f : list Z -> list Z) (g : A -> A) (phi : list Z -> A) (I : list Z -> Prop) n x :
  (forall x, I x -> I (f x)) -> (forall x, I x -> phi (f x) = g (phi x)) -> I x -> phi (iterate n f x) = Nat.iter n g (phi x).
Proof.
  intros HI Hs. revert x. induction n as [|n IH]; intros x Hx; [reflexivity|]. cbn [iterate].
  rewrite Nat.iter_succ_r, <- Hs, IH by auto. reflexivity.
Qed.
Definition words16 (x : list Z) : Prop := length x = 16%nat /\ Forall is_word32 x.
Lemma words16_double x : words16 x -> words16 (double_round x).
Proof. intros [Hl Hw]. split; [by rewrite length_double | by apply words_double]. Qed.
Lemma rounds_spec n x : words16 x -> rounds n x = of_matrix (Nat.iter n inner_block (to_matrix x)).
Proof.
  intros Hx. rewrite <- (matrix_list (rounds n x)) by (rewrite length_rounds; apply Hx).
  f_equal. with_strategy transparent [rounds] unfold rounds.
  apply (iterate_sim double_round inner_block to_matrix words16); [exact words16_double | intros y [Hl Hw]; exact (double_round_spec y Hl Hw) | exact Hx].
Qed.
Lemma input_words16 key nonce c : bytes key -> bytes nonce -> is_word32 c -> words16 (chacha_input key nonce c).
Proof.
  intros Hk Hn Hc. split; [apply length_input|]. unfold chacha_input. rewrite !Forall_app.
  split; [apply words_words_of; repeat constructor; unfold is_byte; lia|]. split; [by apply words_words_of|].
  constructor; [exact Hc | by apply words_words_of].
Qed.

(** The block function of the code is the block function of the RFC. *)
Lemma chacha_block_rfc key nonce c : bytes key -> bytes nonce -> is_word32 c -> chacha_block key nonce c = rfc8439_block key nonce c.
Proof.
  intros Hk Hn Hc. unfold chacha_block, rfc8439_block. with_strategy transparent [chacha_core] unfold chacha_core. cbv zeta.
  rewrite rounds_spec by (by apply input_words16). reflexivity.
Qed.

Lemma words_of_bytes_of w k : Forall is_word32 w -> words_of (length w) (bytes_of w ++ k) = w.
Proof.
  induction 1 as [|x w Hx Hw IH]; [reflexivity|]. unfold bytes_of. rewrite fmap_cons. cbn [concat length words_of].
  fold (bytes_of w). rewrite <- app_assoc. unfold CRYPTO_load_u32_le, CRYPTO_store_u32_le.
  rewrite take_app_length', drop_app_length', IH by (symmetry; apply length_le_bytes).
  rewrite le_val_le_bytes, Z.mod_small by exact Hx. reflexivity.
Qed.
Lemma bytes_of_app w v : bytes_of (w ++ v) = bytes_of w ++ bytes_of v.
Proof. unfold bytes_of. by rewrite fmap_app, concat_app. Qed.

Lemma add_sub_words x i : length x = length i -> Forall is_word32 x ->
  zip_with (fun b i => u32 (b - i)) (zip_with (fun x i => u32 (x + i)) x i) i = x.
Proof.
  intros Hl H. revert i Hl. induction H as [|a x Ha H IH]; intros [|b i] Hl; try done. cbn [zip_with].
  rewrite IH by (cbn in Hl; lia). rewrite wrap_sub_l, Z.add_simpl_r, (wrap_small 32); done.
Qed.
Lemma words_zip_add x i : Forall is_word32 (zip_with (fun x i => u32 (x + i)) x i).
Proof. revert i. induction x as [|a x IH]; intros [|b i]; cbn [zip_with]; constructor; [apply wrap_range; lia | apply IH]. Qed.

(** The first and the last four words. *)
Definition ends (l : list Z) : list Z := take 4 l ++ drop 12 l.

Lemma core_words i : length i = 16%nat -> words_of 16 (chacha_core i) = zip_with (fun x i => u32 (x + i)) (rounds 10 i) i.
Proof.
  intros Hi. with_strategy transparent [chacha_core] unfold chacha_core. cbv zeta. set (z := zip_with _ _ _).
  rewrite <- (app_nil_r (bytes_of z)). replace 16%nat with (length z); [apply words_of_bytes_of, words_zip_add|].
  subst z. rewrite length_zip_with, length_rounds, Hi. reflexivity.
Qed.
Lemma hchacha_words i : length i = 16%nat -> Forall is_word32 i ->
  words_of 8 (bytes_of (take 4 (rounds 10 i)) ++ bytes_of (drop 12 (rounds 10 i))) =
  ends (zip_with (fun b i => u32 (b - i)) (words_of 16 (chacha_core i)) i).
Proof.
  intros Hi Hw. rewrite core_words, add_sub_words by (first [assumption | rewrite length_rounds; reflexivity | apply words_rounds, Hw]).
  pose proof (words_rounds 10 i Hw) as Hx. pose proof (length_rounds 10 i) as Hl. rewrite Hi in Hl.
  generalize dependent (rounds 10 i). intros x Hx Hl. rewrite <- bytes_of_app, <- (app_nil_r (bytes_of _)). fold (ends x).
  assert (He : Forall is_word32 (ends x)) by (apply Forall_app; split; [by apply Forall_take | by apply Forall_drop]).
  assert (Hn : length (ends x) = 8%nat) by (unfold ends; rewrite length_app, length_take, length_drop; lia).
  pose proof (words_of_bytes_of (ends x) [] He) as E. by rewrite Hn in E.
Qed.

(** C27: ChaCha20 encryption is the exclusive or of the input with the key stream,
    whose [i]-th block of 64 bytes is the block function of RFC 8439 at the 32-bit
    counter [counter + i], wrapping to zero. The portable function computes it, and so
    does the function that drives assembly routines, which splits the input where
    the counter wraps, given that each routine encrypts a non-empty input whose
    counter does not overflow. Applied twice it gives the input back, and the
    output is as long as the input. HChaCha20 is the first and last four words of the
    block, before the final addition of the input words. *)
Theorem CRYPTO_chacha_20_correct accelerated nohw inp key nonce counter :
  Forall (fun i => ctr32_encrypts (capable i) (ctr32 i)) accelerated -> ctr32_encrypts (fun _ => true) nohw ->
  bytes key -> bytes nonce -> 0 <= counter < 2 ^ 32 ->
  let out := CRYPTO_chacha_20 inp key nonce counter in
  out = xor_stream (rfc8439_block key nonce) counter inp /\
  CRYPTO_chacha_20_asm accelerated nohw inp key nonce counter = out /\
  len out = len inp /\
  CRYPTO_chacha_20 out key nonce counter = inp /\
  (forall nonce16, bytes nonce16 ->
   let c := CRYPTO_load_u32_le nonce16 in
   words_of 8 (CRYPTO_hchacha20 key nonce16) =
   ends (zip_with (fun b i => u32 (b - i)) (words_of 16 (rfc8439_block key (drop 4 nonce16) c))
                  (chacha_input key (drop 4 nonce16) c))).
Proof.
  intros Ha Hn Hk Hb Hc out.
  assert (E : forall l, CRYPTO_chacha_20 l key nonce counter = xor_stream (rfc8439_block key nonce) counter l).
  { intros l. rewrite <- (xor_stream_ext (chacha_block key nonce)) by (intros; by apply chacha_block_rfc).
    apply chacha_loop_spec; [lia | exact Hc]. }
  unfold out. rewrite !E. split; [reflexivity|]. split; [|split; [|split]].
  - rewrite <- (xor_stream_ext (chacha_block key nonce)) by (intros; by apply chacha_block_rfc).
    unfold CRYPTO_chacha_20_asm. apply chacha_asm_loop_spec; [exact Ha | exact Hn | lia | exact Hc].
  - apply len_xor_stream.
  - apply xor_stream_involutive.
  - intros nonce16 Hb16. pose proof (words_words_of 4 nonce16 Hb16) as Hw. inversion Hw as [|? ? Hc16 Hw3]; subst.
    rewrite <- chacha_block_rfc by (first [assumption | apply Hc16 | by apply Forall_drop]).
    apply hchacha_words; apply input_words16; first [assumption | apply Hc16 | by apply Forall_drop].
Qed.

(** RFC 8439, section 2.4.2: the first bytes of the ciphertext. *)
Definition chacha_key : list Z := map Z.of_nat (seq 0 32).
Definition chacha_nonce : list Z := [0; 0; 0; 0; 0; 0; 0; 0x4a; 0; 0; 0; 0].
Definition portable_ctr32 (inp key counter : list Z) : list Z :=
  chacha_loop (S (length inp)) (words_of 4 sigma ++ key ++ counter) inp.

Example chacha20_rfc8439 :
  CRYPTO_chacha_20 [0x4c; 0x61; 0x64; 0x69; 0x65; 0x73; 0x20; 0x61] chacha_key chacha_nonce 1 =
  [0x6e; 0x2e; 0x35; 0x9a; 0x25; 0x68; 0xf9; 0x80].
Proof. vm_compute. reflexivity. Qed.

Lemma portable_ctr32_encrypts usable : ctr32_encrypts usable portable_ctr32.
Proof. intros inp key nonce c Hc Hl _. unfold portable_ctr32. apply chacha_loop_spec; [lia | exact Hc]. Qed.

Lemma CRYPTO_chacha_20_witness :
  let i := mk_impl (fun n => 128 <? n) portable_ctr32 in
  CRYPTO_chacha_20_asm [i] portable_ctr32 [1; 2] chacha_key chacha_nonce (2 ^ 32 - 1) =
  CRYPTO_chacha_20 [1; 2] chacha_key chacha_nonce (2 ^ 32 - 1).
Proof.
  intros i. refine (proj1 (proj2 (CRYPTO_chacha_20_correct [i] portable_ctr32 [1; 2] chacha_key chacha_nonce (2 ^ 32 - 1) _ _ _ _ _))).
  - constructor; [apply portable_ctr32_encrypts | constructor].
  - apply portable_ctr32_encrypts.
  - repeat constructor; unfold is_byte; lia.
  - repeat constructor; unfold is_byte; lia.
  - lia.
Defined.
