(* ===== verification/SipHash.v ===== *)
(** SipHash-2-4: crypto/siphash/siphash.cc. *)
From S2P Require Import Prelude.
From S2P Require Import Internal.

Open Scope Z_scope.

(** The state [uint64_t v[4]]. *)
Record sip_state := mk_sip { v0 : Z; v1 : Z; v2 : Z; v3 : Z }.

Definition siphash_round (v : sip_state) : sip_state :=
  let '(mk_sip a b c d) := v in
  let a := u64 (a + b) in
  let c := u64 (c + d) in
  let b := CRYPTO_rotl_u64 b 13 in
  let d := CRYPTO_rotl_u64 d 16 in
  let b := Z.lxor b a in
  let d := Z.lxor d c in
  let a := CRYPTO_rotl_u64 a 32 in
  let c := u64 (c + b) in
  let a := u64 (a + d) in
  let b := CRYPTO_rotl_u64 b 17 in
  let d := CRYPTO_rotl_u64 d 21 in
  let b := Z.lxor b c in
  let d := Z.lxor d a in
  let c := CRYPTO_rotl_u64 c 32 in
  mk_sip a b c d.

Definition xor_v0 (m : Z) (v : sip_state) : sip_state := mk_sip (Z.lxor (v0 v) m) (v1 v) (v2 v) (v3 v).
Definition xor_v2 (m : Z) (v : sip_state) : sip_state := mk_sip (v0 v) (v1 v) (Z.lxor (v2 v) m) (v3 v).
Definition xor_v3 (m : Z) (v : sip_state) : sip_state := mk_sip (v0 v) (v1 v) (v2 v) (Z.lxor (v3 v) m).

(** The loop over whole words: the state and the rest of the input. *)
Fixpoint siphash_loop (fuel : nat) (v : sip_state) (input : list Z) : sip_state * list Z :=
  match fuel with
  | O => (v, input)
  | S fuel =>
    if 8 <=? len input then
      let m := CRYPTO_load_u64_le input in
      let v := xor_v3 m v in
      let v := siphash_round v in
      let v := siphash_round v in
      let v := xor_v0 m v in
      siphash_loop fuel v (zdrop 8 input)
    else (v, input)
  end.

Definition SIPHASH_24 (key0 key1 : Z) (input : list Z) : Z :=
  let orig_input_len := len input in
  let v := mk_sip (Z.lxor key0 0x736f6d6570736575) (Z.lxor key1 0x646f72616e646f6d)
                  (Z.lxor key0 0x6c7967656e657261) (Z.lxor key1 0x7465646279746573) in
  let '(v, input) := siphash_loop (length input) v input in
  let last_block := replicate 8 0 in
  let last_block := input ++ zdrop (len input) last_block in
  let last_block := <[7%nat := Z.land orig_input_len 0xff]> last_block in
  let last_block_word := CRYPTO_load_u64_le last_block in
  let v := xor_v3 last_block_word v in
  let v := siphash_round v in
  let v := siphash_round v in
  let v := xor_v0 last_block_word v in
  let v := xor_v2 0xff v in
  let v := siphash_round v in
  let v := siphash_round v in
  let v := siphash_round v in
  let v := siphash_round v in
  Z.lxor (Z.lxor (Z.lxor (v0 v) (v1 v)) (v2 v)) (v3 v).

(** * SipHash as the paper defines it *)

(** Rotation of a 64-bit word to the left: the top [s] bits move to the bottom. *)
Definition rol (s x : Z) : Z := x mod 2 ^ (64 - s) * 2 ^ s + x / 2 ^ (64 - s).

(** Section 2.1 and figure 2.1: the two halves of a SipRound, in the paper's order. *)
Definition sip_half (r1 r2 : Z) (v : sip_state) : sip_state :=
  let '(mk_sip a b c d) := v in
  let a := (a + b) mod 2 ^ 64 in
  let b := Z.lxor (rol r1 b) a in
  let a := rol 32 a in
  let c := (c + d) mod 2 ^ 64 in
  let d := Z.lxor (rol r2 d) c in
  mk_sip a b c d.
(** Exchanging [v0] and [v2] makes the second half another instance of the first. *)
Definition sip_swap (v : sip_state) : sip_state := mk_sip (v2 v) (v1 v) (v0 v) (v3 v).
Definition SipRound (v : sip_state) : sip_state := sip_swap (sip_half 17 21 (sip_swap (sip_half 13 16 v))).

Definition sip_compress (v : sip_state) (m : Z) : sip_state := xor_v0 m (SipRound (SipRound (xor_v3 m v))).

(** The message, padded with zeros and its length modulo 256 to whole words. *)
Definition sip_pad (input : list Z) : list Z :=
  input ++ replicate (7 - length input mod 8) 0 ++ [len input mod 256].
Definition sip_words (input : list Z) : list Z :=
  map (fun i => le_val (take 8 (drop (8 * i) (sip_pad input)))) (seq 0 (length input / 8 + 1)).

Definition siphash_2_4 (k0 k1 : Z) (input : list Z) : Z :=
  let v := mk_sip (Z.lxor k0 0x736f6d6570736575) (Z.lxor k1 0x646f72616e646f6d)
                  (Z.lxor k0 0x6c7967656e657261) (Z.lxor k1 0x7465646279746573) in
  let v := fold_left sip_compress (sip_words input) v in
  let v := Nat.iter 4 SipRound (xor_v2 0xff v) in
  Z.lxor (Z.lxor (Z.lxor (v0 v) (v1 v)) (v2 v)) (v3 v).

(** * Properties *)
Definition is_u64 (x : Z) : Prop := 0 <= x < 2 ^ 64.
Definition sip_ok (v : sip_state) : Prop := is_u64 (v0 v) /\ is_u64 (v1 v) /\ is_u64 (v2 v) /\ is_u64 (v3 v).

Lemma rol_range x s : 0 < s < 64 -> is_u64 x -> is_u64 (rol s x).
Proof. intros. by apply rot_range. Qed.

Ltac u64_range :=
  repeat first [ assumption | apply (wrap_range 64); lia | apply (lxor_range 64); [lia|..]
               | apply rotl_u64_range; [lia|] | apply rol_range; [lia|]
               | (unfold is_u64; lia) ].

Lemma rotl_rol x s : 0 < s < 64 -> is_u64 x -> CRYPTO_rotl_u64 x s = rol s x.
Proof. intros. by apply rotl_u64_split. Qed.

Lemma siphash_round_ok v : sip_ok v -> sip_ok (siphash_round v).
Proof.
  destruct v as [a b c d]. intros (Ha & Hb & Hc & Hd). cbn in Ha, Hb, Hc, Hd. unfold siphash_round. cbv zeta.
  unfold sip_ok. cbn [v0 v1 v2 v3]. split_and!; u64_range.
Qed.
Lemma siphash_round_spec v : sip_ok v -> siphash_round v = SipRound v.
Proof.
  destruct v as [a b c d]. intros (Ha & Hb & Hc & Hd). cbn in Ha, Hb, Hc, Hd. unfold siphash_round. cbv zeta.
  rewrite !rotl_rol by (first [lia | u64_range]). reflexivity.
Qed.

#[local] Opaque siphash_round SipRound.

Lemma xor_ok m v : is_u64 m -> sip_ok v -> sip_ok (xor_v0 m v) /\ sip_ok (xor_v2 m v) /\ sip_ok (xor_v3 m v).
Proof. intros Hm (Ha & Hb & Hc & Hd). unfold sip_ok; cbn [xor_v0 xor_v2 xor_v3 v0 v1 v2 v3]; split_and!; u64_range. Qed.

(** One word absorbed. *)
Lemma absorb_spec m v : is_u64 m -> sip_ok v ->
  xor_v0 m (siphash_round (siphash_round (xor_v3 m v))) = sip_compress v m /\ sip_ok (sip_compress v m).
Proof.
  intros Hm Hv. pose proof (xor_ok m v Hm Hv) as (_ & _ & Hx). pose proof (siphash_round_ok _ Hx) as Hr.
  assert (E : xor_v0 m (siphash_round (siphash_round (xor_v3 m v))) = sip_compress v m)
    by (unfold sip_compress; rewrite <- !siphash_round_spec; [reflexivity | exact Hx | rewrite <- siphash_round_spec; assumption]).
  split; [exact E|]. rewrite <- E. exact (proj1 (xor_ok m _ Hm (siphash_round_ok _ Hr))).
Qed.

Lemma load_u64 l : bytes l -> is_u64 (CRYPTO_load_u64_le l).
Proof.
  intros Hl. unfold CRYPTO_load_u64_le, is_u64. pose proof (le_val_range (take 8 l) ltac:(by apply Forall_take)) as H.
  assert (len (take 8 l) <= 8) by (unfold len; rewrite length_take; lia).
  pose proof (Z.pow_le_mono_r 256 (len (take 8 l)) 8 ltac:(lia) ltac:(lia)). lia.
Qed.

(** The whole words of an input. *)
Definition whole_words (n : nat) (input : list Z) : list Z := map (fun i => le_val (take 8 (drop (8 * i) input))) (seq 0 n).
Lemma whole_words_S n input : whole_words (S n) input = CRYPTO_load_u64_le input :: whole_words n (drop 8 input).
Proof.
  unfold whole_words. cbn [seq map]. f_equal. rewrite <- seq_shift, map_map. apply map_ext. intros i.
  rewrite drop_drop. do 3 f_equal. lia.
Qed.

Lemma siphash_loop_spec fuel v input : (length input / 8 <= fuel)%nat -> bytes input -> sip_ok v ->
  siphash_loop fuel v input =
    (fold_left sip_compress (whole_words (length input / 8) input) v, drop (8 * (length input / 8)) input) /\
  sip_ok (fst (siphash_loop fuel v input)).
Proof.
  revert v input. induction fuel as [|fuel IH]; intros v input Hf Hb Hv; cbn [siphash_loop].
  - replace (length input / 8)%nat with 0%nat by lia. done.
  - destruct (Z.leb_spec 8 (len input)) as [H|H]; unfold len in H.
    + assert (E : (length input / 8 = S (length (drop 8 input) / 8))%nat)
        by (rewrite length_drop; replace (length input) with (1 * 8 + (length input - 8))%nat at 1 by lia; rewrite Nat.div_add_l; lia).
      pose proof (absorb_spec _ v (load_u64 input Hb) Hv) as [Ea Hok]. rewrite Ea. change (zdrop 8 input) with (drop 8 input).
      destruct (IH (sip_compress v (CRYPTO_load_u64_le input)) (drop 8 input)) as [-> Hr]; [lia | by apply Forall_drop | done|].
      rewrite E, whole_words_S, drop_drop. cbn [fold_left fst] in *. split; [|by destruct Hr]. do 2 f_equal. lia.
    + rewrite Nat.div_small by lia. done.
Qed.

(** The last block, which the code builds in an array, is the end of the padded message. *)
Lemma last_block_spec n input : (n <= length input)%nat -> (length input - n < 8)%nat -> ((length input - n) mod 8 = length input mod 8)%nat ->
  let rest := drop n input in
  <[7%nat := Z.land (len input) 0xff]> (rest ++ zdrop (len rest) (replicate 8 0)) = take 8 (drop n (sip_pad input)).
Proof.
  intros Hn Hlt Hm rest. assert (Hr : length rest = (length input mod 8)%nat) by (unfold rest; rewrite length_drop, <- Hm, Nat.mod_small by lia; done).
  pose proof (Nat.mod_upper_bound (length input) 8 ltac:(lia)) as Hu. set (r := (length input mod 8)%nat) in *.
  change 0xff with (Z.ones 8). rewrite Z.land_ones by lia. change (2 ^ 8) with 256.
  unfold sip_pad. fold r. rewrite drop_app_le by done. fold rest. unfold zdrop, len at 2. rewrite Nat2Z.id, Hr, drop_replicate.
  rewrite firstn_all2 by (rewrite !length_app, length_replicate, Hr; cbn [length]; lia).
  replace (8 - r)%nat with ((7 - r) + 1)%nat by lia. rewrite replicate_add, app_assoc.
  replace 7%nat with (length (rest ++ replicate (7 - r) 0%Z) + 0)%nat at 1 by (rewrite length_app, length_replicate, Hr; lia).
  rewrite insert_app_r, <- app_assoc. reflexivity.
Qed.

Lemma sip_words_split input :
  sip_words input = whole_words (length input / 8) input ++ [le_val (take 8 (drop (8 * (length input / 8)) (sip_pad input)))].
Proof.
  unfold sip_words, whole_words. rewrite Nat.add_1_r, seq_S, map_app. f_equal. apply map_ext_in. intros i Hi%in_seq.
  assert (8 * i + 8 <= length input)%nat by (pose proof (Nat.div_mod_eq (length input) 8); lia).
  unfold sip_pad. rewrite drop_app_le, take_app_le by (rewrite ?length_drop; lia). reflexivity.
Qed.

Lemma bytes_sip_pad input : bytes input -> bytes (sip_pad input).
Proof.
  intros H. unfold sip_pad, bytes. rewrite !Forall_app. split; [exact H|]. split.
  - apply Forall_replicate. unfold is_byte. lia.
  - constructor; [|constructor]. apply Z.mod_pos_bound. lia.
Qed.

Lemma finalize_spec v : sip_ok v ->
  siphash_round (siphash_round (siphash_round (siphash_round v))) = Nat.iter 4 SipRound v /\ sip_ok (Nat.iter 4 SipRound v).
Proof.
  intros Hv. pose proof (siphash_round_ok _ Hv) as H1. pose proof (siphash_round_ok _ H1) as H2. pose proof (siphash_round_ok _ H2) as H3.
  cbn [Nat.iter nat_rect]. rewrite <- (siphash_round_spec v Hv), <- (siphash_round_spec _ H1), <- (siphash_round_spec _ H2), <- (siphash_round_spec _ H3).
  split; [reflexivity|]. exact (siphash_round_ok _ H3).
Qed.

(** [SIPHASH_24] is SipHash-2-4 of the paper the header cites: two SipRounds
    for each little-endian word of the input, padded with zeros and its length
    modulo 256, and four to finish; the result is a 64-bit word. *)
Theorem SIPHASH_24_correct k0 k1 input :
  is_u64 k0 -> is_u64 k1 -> bytes input ->
  SIPHASH_24 k0 k1 input = siphash_2_4 k0 k1 input /\ is_u64 (SIPHASH_24 k0 k1 input).
Proof.
  intros H0 H1 Hb. unfold SIPHASH_24, siphash_2_4. cbv zeta. set (v := mk_sip _ _ _ _).
  assert (Hv : sip_ok v) by (unfold sip_ok; cbn; split_and!; u64_range). clearbody v.
  destruct (siphash_loop_spec (length input) v input) as [E Hok]; [apply Nat.Div0.div_le_upper_bound; lia | done.. |].
  rewrite E in *. cbn [fst] in Hok. pose proof (Nat.div_mod_eq (length input) 8) as Hd. pose proof (Nat.mod_upper_bound (length input) 8 ltac:(lia)).
  rewrite last_block_spec by (first [lia | rewrite Nat.mod_small by lia; lia]).
  rewrite sip_words_split, fold_left_app. cbn [fold_left]. set (w := fold_left _ _ v) in *. clearbody w.
  unfold CRYPTO_load_u64_le. rewrite take_take, Nat.min_id. set (b := drop _ (sip_pad input)).
  assert (Hm : is_u64 (le_val (take 8 b))) by (apply (load_u64 b), Forall_drop, bytes_sip_pad, Hb).
  destruct (absorb_spec _ w Hm Hok) as [-> Hc]. set (u := sip_compress w _) in *. clearbody u.
  destruct (xor_ok 0xff u) as (_ & Hx & _); [unfold is_u64; lia | done|].
  destruct (finalize_spec _ Hx) as [-> (? & ? & ? & ?)]. split; [reflexivity|]. u64_range.
Qed.

(** The vector of the paper's appendix A. *)
Lemma SIPHASH_24_correct_witness :
  siphash_2_4 0x0706050403020100 0x0f0e0d0c0b0a0908 [0; 1; 2; 3; 4; 5; 6; 7; 8; 9; 10; 11; 12; 13; 14] = 0xa129ca6149be45e5.
Proof.
  refine (eq_trans (eq_sym (proj1 (SIPHASH_24_correct 0x0706050403020100 0x0f0e0d0c0b0a0908 [0; 1; 2; 3; 4; 5; 6; 7; 8; 9; 10; 11; 12; 13; 14] _ _ _))) _);
    [unfold is_u64; lia.. | repeat constructor; unfold is_byte; lia | vm_compute; reflexivity].
Defined.
