(* ===== verification/Arrays.v ===== *)
(** Arrays of words or pointers updated in place by index: reading, writing and
    swapping entries of a list at machine indices, shared by RC4, stacks and the
    in-place transforms. *)
From S2P Require Import Prelude.

Open Scope Z_scope.

(** Every index the code uses is within the array; a read outside it is given the value 0. *)
Definition at_ (d : list Z) (i : Z) : Z := default 0 (d !! Z.to_nat i).
Definition set_ (i v : Z) (d : list Z) : list Z := <[Z.to_nat i := v]> d.
Definition swap (i j : Z) (s : list Z) : list Z := set_ j (at_ s i) (set_ i (at_ s j) s).


Lemma swap_perm i j s : 0 <= i < len s -> 0 <= j < len s -> swap i j s ≡ₚ s.
Proof.
  intros Hi Hj. unfold swap, set_, at_, len in *.
  destruct (lookup_lt_is_Some_2 s (Z.to_nat i) ltac:(lia)) as [a Ha]. destruct (lookup_lt_is_Some_2 s (Z.to_nat j) ltac:(lia)) as [b Hb].
  rewrite Ha, Hb. cbn [default id]. revert Ha Hb. generalize (Z.to_nat i) as p, (Z.to_nat j) as q. clear. intros p q Ha Hb.
  apply Permutation_inj. split; [by rewrite !length_insert|].
  exists (fun n => if decide (n = p) then q else if decide (n = q) then p else n). split.
  - intros m n. repeat case_decide; congruence.
  - intros n. pose proof (lookup_lt_Some _ _ _ Ha). pose proof (lookup_lt_Some _ _ _ Hb).
    destruct (decide (n = q)) as [->|Hq]; [rewrite list_lookup_insert_eq by (rewrite length_insert; lia); repeat case_decide; congruence|].
    rewrite list_lookup_insert_ne by congruence.
    destruct (decide (n = p)) as [->|Hp]; [by rewrite list_lookup_insert_eq by lia | by rewrite list_lookup_insert_ne by congruence].
Qed.

Lemma at_set i j v d : 0 <= i < len d -> 0 <= j -> at_ (set_ i v d) j = if i =? j then v else at_ d j.
Proof.
  intros Hi Hj. unfold at_, set_, len in *. destruct (Z.eqb_spec i j) as [->|].
  - by rewrite list_lookup_insert_eq by lia.
  - by rewrite list_lookup_insert_ne by lia.
Qed.
Lemma len_set i v d : len (set_ i v d) = len d.
Proof. unfold len, set_. by rewrite length_insert. Qed.

(** After a swap the two entries have changed places. *)
Lemma at_swap i j s : 0 <= i < len s -> 0 <= j < len s -> at_ (swap i j s) i = at_ s j /\ at_ (swap i j s) j = at_ s i.
Proof.
  intros Hi Hj. unfold swap. rewrite !at_set, !Z.eqb_refl by (rewrite ?len_set; lia). destruct (Z.eqb_spec j i) as [->|]; done.
Qed.

(** Reads and writes that are undefined out of bounds. *)
Lemma znth_at d i : 0 <= i < len d -> znth d i = Some (at_ d i).
Proof.
  intros Hi. unfold znth, at_. destruct (Z.ltb_spec i 0); [lia|]. unfold len in Hi.
  by destruct (lookup_lt_is_Some_2 d (Z.to_nat i) ltac:(lia)) as [b ->].
Qed.
Lemma zupd_set d i v : 0 <= i -> zupd d i v = set_ i v d.
Proof. intros Hi. unfold zupd, set_. destruct (Z.ltb_spec i 0); [lia | done]. Qed.

Lemma at_cons x d i : 0 < i -> at_ (x :: d) i = at_ d (i - 1).
Proof. intros Hi. unfold at_. replace (Z.to_nat i) with (S (Z.to_nat (i - 1))) by lia. done. Qed.
Lemma at_ztake n d i : 0 <= i < n -> at_ (ztake n d) i = at_ d i.
Proof. intros Hi. unfold at_, ztake. by rewrite lookup_take_lt by lia. Qed.
Lemma at_zdrop n d i : 0 <= n -> 0 <= i -> at_ (zdrop n d) i = at_ d (n + i).
Proof. intros Hn Hi. unfold at_, zdrop. rewrite lookup_drop. do 2 f_equal. lia. Qed.
Lemma at_app_l d k i : 0 <= i < len d -> at_ (d ++ k) i = at_ d i.
Proof. intros Hi. unfold at_, len in *. by rewrite lookup_app_l by lia. Qed.
Lemma at_app_r d k i : len d <= i -> at_ (d ++ k) i = at_ k (i - len d).
Proof. intros Hi. unfold at_, len in *. rewrite lookup_app_r by lia. do 2 f_equal. lia. Qed.

Lemma list_eq_at d e : len d = len e -> (forall i, 0 <= i < len d -> at_ d i = at_ e i) -> d = e.
Proof.
  revert e. induction d as [|x d IH]; intros [|y e] Hl H; rewrite ?len_cons in Hl; try (done || zlia).
  pose proof (len_nonneg d). f_equal; [by apply (H 0); rewrite len_cons; lia|].
  apply IH; [lia|]. intros i Hi. specialize (H (i + 1)). rewrite !at_cons, Z.add_simpl_r in H by lia. apply H. rewrite len_cons. lia.
Qed.

Lemma Forall_at (Q : Z -> Prop) d : Forall Q d <-> forall i, 0 <= i < len d -> Q (at_ d i).
Proof.
  induction d as [|x d IH]; [split; [intros _ i Hi; change (len (@nil Z)) with 0 in Hi; lia | constructor]|].
  rewrite Forall_cons_iff, IH, len_cons. pose proof (len_nonneg d) as Hnn. split.
  - intros [Hx Hd] i Hi. destruct (Z.eq_dec i 0) as [->|]; [done|]. rewrite at_cons by lia. apply Hd. lia.
  - intros H. split; [apply (H 0); lia|]. intros i Hi. specialize (H (i + 1)). rewrite at_cons, Z.add_simpl_r in H by lia. apply H. lia.
Qed.

(** An array whose end is unchanged permutes its beginning. *)
Lemma perm_prefix n d d' : 0 <= n <= len d -> d' ≡ₚ d -> (forall k, n <= k -> at_ d' k = at_ d k) -> ztake n d' ≡ₚ ztake n d.
Proof.
  intros Hn Hp Ho. assert (Hl : len d' = len d) by (unfold len; by rewrite Hp).
  apply (Permutation_app_inv_r (zdrop n d)). rewrite ztake_zdrop.
  assert (E : zdrop n d' = zdrop n d).
  { apply list_eq_at; rewrite !len_zdrop by lia; [lia|]. intros i Hi. rewrite !at_zdrop by lia. apply Ho. lia. }
  rewrite <- E, ztake_zdrop. done.
Qed.
Lemma prefix_at (Q : Z -> Prop) n d d' : 0 <= n <= len d -> d' ≡ₚ d -> (forall k, n <= k -> at_ d' k = at_ d k) ->
  (forall i, 0 <= i < n -> Q (at_ d i)) -> forall i, 0 <= i < n -> Q (at_ d' i).
Proof.
  intros Hn Hp Ho HQ i Hi. assert (Hl : len d' = len d) by (unfold len; by rewrite Hp).
  assert (Hf : Forall Q (ztake n d')).
  { rewrite (perm_prefix n d d') by done. rewrite Forall_at, len_ztake by lia. intros k Hk. rewrite at_ztake by lia. auto. }
  rewrite Forall_at, len_ztake in Hf by lia. specialize (Hf i Hi). by rewrite at_ztake in Hf by lia.
Qed.

(** ** Loops over indices *)

(** Case split on the comparisons of the goal, dropping the cases that contradict one another. *)
Ltac zcut :=
  repeat match goal with
  | |- context [?a <? ?b] => destruct (Z.ltb_spec a b); try lia
  | |- context [?a <=? ?b] => destruct (Z.leb_spec a b); try lia
  | |- context [?a =? ?b] => destruct (Z.eqb_spec a b); try lia
  end.

Definition indices (n : nat) : list Z := Z.of_nat <$> seq 0 n.

Lemma indices_range n : Forall (fun i => 0 <= i < Z.of_nat n) (indices n).
Proof.
  apply List.Forall_forall. intros i Hi. apply list_elem_of_In, list_elem_of_fmap in Hi as (k & -> & Hk).
  apply elem_of_seq in Hk. lia.
Qed.

Lemma indices_S n : indices (S n) = indices n ++ [Z.of_nat n].
Proof. unfold indices. rewrite seq_S, fmap_app. done. Qed.

Lemma at_indices (f : Z -> Z) n j : 0 <= j < Z.of_nat n -> at_ (f <$> indices n) j = f j.
Proof.
  intros Hj. unfold at_, indices. rewrite <- list_fmap_compose, list_lookup_fmap, lookup_seq_lt by lia.
  simpl. f_equal. lia.
Qed.

Lemma len_indices {A} (f : Z -> A) n : len (f <$> indices n) = Z.of_nat n.
Proof. unfold len, indices. by rewrite !length_fmap, length_seq. Qed.

Lemma length_set i v (A : list Z) : length (set_ i v A) = length A.
Proof. apply length_insert. Qed.

Lemma at_beyond l i : len l <= i -> at_ l i = 0.
Proof. intros H. unfold at_. rewrite lookup_ge_None_2; [done|]. unfold len in H. lia. Qed.

Lemma at_zip_with f A B j : len A = len B -> 0 <= j < len A -> at_ (zip_with f A B) j = f (at_ A j) (at_ B j).
Proof.
  intros Hl Hj. unfold len in *. unfold at_. rewrite lookup_zip_with.
  destruct (lookup_lt_is_Some_2 A (Z.to_nat j)) as [a ->]; [lia|].
  destruct (lookup_lt_is_Some_2 B (Z.to_nat j)) as [b ->]; [lia|]. done.
Qed.

(** A loop that updates every element once. *)
Lemma update_loop (f : Z -> Z -> Z) n A j : Z.of_nat n <= len A -> 0 <= j ->
  at_ (fold_left (fun A i => set_ i (f i (at_ A i)) A) (indices n) A) j
    = (if j <? Z.of_nat n then f j (at_ A j) else at_ A j)
  /\ len (fold_left (fun A i => set_ i (f i (at_ A i)) A) (indices n) A) = len A.
Proof.
  intros Hn Hj. induction n as [|n IH].
  - split; [|done]. change (Z.of_nat 0) with 0. destruct (Z.ltb_spec j 0); [lia|done].
  - rewrite indices_S, fold_left_app. cbn [fold_left]. set (B := fold_left _ (indices n) A) in *.
    destruct IH as [IH Hl]; [lia|]. rewrite len_set. split; [|done].
    rewrite at_set by lia. destruct (Z.eqb_spec (Z.of_nat n) j) as [<-|].
    + rewrite IH. destruct (Z.ltb_spec (Z.of_nat n) (Z.of_nat n)); [lia|].
      by destruct (Z.ltb_spec (Z.of_nat n) (Z.of_nat (S n))); [|lia].
    + rewrite IH. by destruct (Z.ltb_spec j (Z.of_nat n)), (Z.ltb_spec j (Z.of_nat (S n))); try lia.
Qed.

Lemma at_byte l i : bytes l -> is_byte (at_ l i).
Proof.
  intros H. unfold at_. destruct (l !! Z.to_nat i) eqn:E; simpl; [|done]. exact (Forall_lookup_1 _ _ _ _ H E).
Qed.
