(* ===== verification/Rc4.v ===== *)
(** RC4: crypto/rc4/rc4.cc and include/openssl/rc4.h. *)
From S2P Require Import Prelude.
From S2P Require Import Arrays.

Open Scope Z_scope.

(** [data] has 256 entries, and every index the code uses is below 256. *)
Record rc4_key_st := mk_rc4 { x : Z; y : Z; data : list Z }.

(** One pass of the loop of [RC4]. *)
Definition RC4_byte (key : rc4_key_st) (b : Z) : rc4_key_st * Z :=
  let d := data key in
  let x := Z.land (u32 (x key + 1)) 0xff in
  let tx := at_ d x in
  let y := Z.land (u32 (tx + y key)) 0xff in
  let ty := at_ d y in
  let d := set_ x ty d in
  let d := set_ y tx d in
  (mk_rc4 x y d, u8 (Z.lxor (at_ d (Z.land (u32 (tx + ty)) 0xff)) b)).

Fixpoint RC4 (key : rc4_key_st) (inp : list Z) : rc4_key_st * list Z :=
  match inp with
  | [] => (key, [])
  | b :: inp =>
    let '(key, o) := RC4_byte key b in
    let '(key, out) := RC4 key inp in
    (key, o :: out)
  end.

(** The second loop of [RC4_set_key], over the indices [idx]; [None] is a read past the key. *)
Fixpoint set_key_loop (idx : list nat) (len : Z) (key : list Z) (id1 id2 : Z) (d : list Z) : option (list Z) :=
  match idx with
  | [] => Some d
  | i :: idx =>
    let i := Z.of_nat i in
    let tmp := at_ d i in
    b ← znth key id1;
    let id2 := Z.land (u32 (b + tmp + id2)) 0xff in
    let id1 := u32 (id1 + 1) in
    let id1 := if id1 =? len then 0 else id1 in
    let d := set_ i (at_ d id2) d in
    let d := set_ id2 tmp d in
    set_key_loop idx len key id1 id2 d
  end.

Definition RC4_set_key (len : Z) (key : list Z) : option rc4_key_st :=
  let d := map Z.of_nat (seq 0 256) in
  d ← set_key_loop (seq 0 256) len key 0 0 d;
  Some (mk_rc4 0 0 d).

(** * RC4 as it is published: a key schedule and a generator over permutations *)
(** [j := (j + S[i] + key[i mod len]) mod 256; swap S[i] and S[j]]. *)
Definition ksa_step (len : Z) (key : list Z) (js : Z * list Z) (i : nat) : Z * list Z :=
  let '(j, s) := js in
  let j := (j + at_ s (Z.of_nat i) + at_ key (Z.of_nat i mod len)) mod 256 in
  (j, swap (Z.of_nat i) j s).
Definition ksa (len : Z) (key : list Z) : list Z :=
  snd (fold_left (ksa_step len key) (seq 0 256) (0, map Z.of_nat (seq 0 256))).

(** [i := (i + 1) mod 256; j := (j + S[i]) mod 256; swap S[i] and S[j]], and the
    byte [S[(S[i] + S[j]) mod 256]]. *)
Definition prga_step (k : rc4_key_st) : rc4_key_st :=
  let i := (x k + 1) mod 256 in
  let j := (y k + at_ (data k) i) mod 256 in
  mk_rc4 i j (swap i j (data k)).
Definition prga_byte (k : rc4_key_st) : Z :=
  at_ (data k) ((at_ (data k) (x k) + at_ (data k) (y k)) mod 256).
Definition prga_state (k : rc4_key_st) (n : nat) : rc4_key_st := Nat.iter n prga_step k.
Definition rc4_stream (k : rc4_key_st) (n : nat) : list Z := map (fun i => prga_byte (prga_state k (S i))) (seq 0 n).

(** The invariant of a key: two indices and a permutation of the bytes. *)
Definition rc4_ok (k : rc4_key_st) : Prop :=
  is_byte (x k) /\ is_byte (y k) /\ data k ≡ₚ map Z.of_nat (seq 0 256).

(** * Properties *)
(** ** The invariant *)
Lemma perm_facts d : d ≡ₚ map Z.of_nat (seq 0 256) -> len d = 256 /\ bytes d.
Proof.
  intros H. split; [unfold len; rewrite H; reflexivity|]. unfold bytes. rewrite H. apply Forall_map, Forall_seq. intros i Hi. unfold is_byte. lia.
Qed.
Lemma swap_ok i j d : is_byte i -> is_byte j -> d ≡ₚ map Z.of_nat (seq 0 256) -> swap i j d ≡ₚ map Z.of_nat (seq 0 256).
Proof. intros Hi Hj H. destruct (perm_facts d H) as [Hl _]. unfold is_byte in *. etransitivity; [|exact H]. apply swap_perm; lia. Qed.
Lemma prga_ok k : rc4_ok k -> rc4_ok (prga_step k).
Proof.
  intros (Hx & Hy & Hd). unfold prga_step. assert (Hb : forall z, is_byte (z mod 256)) by (intros z; apply Z.mod_pos_bound; lia).
  split; [apply Hb|]. split; [apply Hb|]. by apply swap_ok.
Qed.
Lemma prga_state_ok k n : rc4_ok k -> rc4_ok (prga_state k n).
Proof. intros H. induction n as [|n IH]; [done|]. by apply prga_ok. Qed.

Lemma mask_byte z : Z.land (u32 z) 0xff = z mod 256.
Proof.
  change 0xff with (Z.ones 8). rewrite Z.land_ones by lia. change (2 ^ 8) with 256. unfold wrap.
  rewrite <- Znumtheory.Zmod_div_mod; [done | lia | lia |]. exists (2 ^ 24). lia.
Qed.

(** ** The generator *)
Lemma RC4_byte_spec k b : rc4_ok k -> is_byte b ->
  RC4_byte k b = (prga_step k, Z.lxor (prga_byte (prga_step k)) b) /\ is_byte (Z.lxor (prga_byte (prga_step k)) b).
Proof.
  intros Hk Hb. pose proof (prga_ok k Hk) as (_ & _ & Hd'). destruct Hk as (Hx & Hy & Hd). destruct (perm_facts _ Hd) as [Hl _].
  assert (Ho : is_byte (Z.lxor (prga_byte (prga_step k)) b)) by (apply (lxor_range 8); [lia | by apply at_byte, perm_facts | done]).
  split; [|exact Ho]. revert Ho. unfold RC4_byte, prga_byte, prga_step. cbv zeta. cbn [x y data]. rewrite !mask_byte.
  set (i := (x k + 1) mod 256). rewrite (Z.add_comm (at_ (data k) i) (y k)). set (j := (y k + at_ (data k) i) mod 256).
  assert (Hi : 0 <= i < len (data k)) by (rewrite Hl; apply Z.mod_pos_bound; lia).
  assert (Hj : 0 <= j < len (data k)) by (rewrite Hl; apply Z.mod_pos_bound; lia).
  destruct (at_swap i j (data k) Hi Hj) as [-> ->]. rewrite (Z.add_comm (at_ (data k) i)). unfold swap. intros Ho.
  rewrite (wrap_small 8) by exact Ho. done.
Qed.

Lemma prga_state_S k n : prga_state k (S n) = prga_state (prga_step k) n.
Proof. unfold prga_state. by rewrite Nat.iter_succ_r. Qed.
Lemma rc4_stream_S k n : rc4_stream k (S n) = prga_byte (prga_step k) :: rc4_stream (prga_step k) n.
Proof. unfold rc4_stream. cbn [seq map]. f_equal. rewrite <- seq_shift, map_map. apply map_ext. intros i. by rewrite prga_state_S. Qed.

Lemma RC4_spec k inp : rc4_ok k -> bytes inp ->
  RC4 k inp = (prga_state k (length inp), zip_with Z.lxor (rc4_stream k (length inp)) inp) /\
  bytes (zip_with Z.lxor (rc4_stream k (length inp)) inp).
Proof.
  intros Hk Hb. revert k Hk. induction Hb as [|b inp Hb _ IH]; intros k Hk; [split; [done | constructor]|].
  destruct (RC4_byte_spec k b Hk Hb) as [E Ho]. cbn [RC4 length]. rewrite E, prga_state_S, rc4_stream_S. cbn [zip_with].
  destruct (IH _ (prga_ok k Hk)) as [-> Hr]. split; [done | by constructor].
Qed.

Lemma RC4_app k a b : RC4 k (a ++ b) = let '(k1, o1) := RC4 k a in let '(k2, o2) := RC4 k1 b in (k2, o1 ++ o2).
Proof.
  revert k. induction a as [|c a IH]; intros k; [cbn; by destruct (RC4 k b)|]. cbn [RC4 app]. destruct (RC4_byte k c) as [k' o].
  rewrite IH. destruct (RC4 k' a) as [k1 o1]. by destruct (RC4 k1 b).
Qed.

(** ** The key schedule *)
Lemma next_index i L : 0 <= i -> 0 < L < 2 ^ 32 ->
  (if u32 (i mod L + 1) =? L then 0 else u32 (i mod L + 1)) = (i + 1) mod L.
Proof.
  intros Hi HL. pose proof (Z.mod_pos_bound i L ltac:(lia)) as Hm. rewrite <- (Z.add_mod_idemp_l i 1 L) by lia.
  destruct (Z.eq_dec (i mod L + 1) L) as [E|Hne].
  - rewrite E, (wrap_small 32), Z.eqb_refl, Z.mod_same by lia. done.
  - rewrite (wrap_small 32), (Z.mod_small (i mod L + 1)) by lia. destruct (Z.eqb_spec (i mod L + 1) L); [lia | done].
Qed.

Lemma set_key_loop_spec n i L key j d : (i + n <= 256)%nat -> 0 < L <= len key -> L < 2 ^ 32 -> d ≡ₚ map Z.of_nat (seq 0 256) ->
  let d' := snd (fold_left (ksa_step L key) (seq i n) (j, d)) in
  set_key_loop (seq i n) L key (Z.of_nat i mod L) j d = Some d' /\ d' ≡ₚ map Z.of_nat (seq 0 256).
Proof.
  intros Hn HL HL2. revert i j d Hn. induction n as [|n IH]; intros i j d Hn Hd; [done|].
  cbn [seq set_key_loop fold_left]. pose proof (Z.mod_pos_bound (Z.of_nat i) L ltac:(lia)) as Hm.
  rewrite znth_at by lia. cbn [mbind option_bind ksa_step]. rewrite mask_byte, next_index by lia.
  set (j' := (j + _ + _) mod 256).
  replace ((at_ key (Z.of_nat i mod L) + at_ d (Z.of_nat i) + j) mod 256) with j' by (subst j'; f_equal; lia).
  replace (Z.of_nat i + 1) with (Z.of_nat (S i)) by lia. fold (swap (Z.of_nat i) j' d). apply IH; [lia|].
  apply swap_ok; [unfold is_byte; lia | apply Z.mod_pos_bound; lia | done].
Qed.

Lemma RC4_set_key_loop L key d :
  set_key_loop (seq 0 256) L key 0 0 (map Z.of_nat (seq 0 256)) = Some d -> RC4_set_key L key = Some (mk_rc4 0 0 d).
Proof. unfold RC4_set_key. by intros ->. Qed.
Lemma ksa_spec L key : 0 < L <= len key -> L < 2 ^ 32 ->
  RC4_set_key L key = Some (mk_rc4 0 0 (ksa L key)) /\ rc4_ok (mk_rc4 0 0 (ksa L key)).
Proof.
  intros HL HL2. assert (H0 : is_byte 0) by (unfold is_byte; lia).
  pose proof (set_key_loop_spec 256 0 L key 0 (map Z.of_nat (seq 0 256)) ltac:(lia) HL HL2 (Permutation_refl _)) as [E Hp].
  change (Z.of_nat 0) with 0 in E. rewrite Z.mod_0_l in E by lia. split; [exact (RC4_set_key_loop _ _ _ E)|]. exact (conj H0 (conj H0 Hp)).
Qed.

Lemma length_rc4_stream k n : length (rc4_stream k n) = n.
Proof. unfold rc4_stream. by rewrite length_map, length_seq. Qed.

Lemma zip_xor_twice k inp : length k = length inp -> zip_with Z.lxor k (zip_with Z.lxor k inp) = inp.
Proof.
  revert inp. induction k as [|a k IH]; intros [|b inp] Hl; try done. cbn [zip_with].
  rewrite IH by (cbn in Hl; lia). by rewrite <- Z.lxor_assoc, Z.lxor_nilpotent, Z.lxor_0_l.
Qed.

(** RC4 is the published cipher. The key schedule of a non-empty key, read
    without going past its end, gives the published permutation; it and every later
    state is a permutation of the 256 bytes with two byte indices. From such a
    state [RC4] xors the input with the generator's key stream, in pieces as in
    one call, and run twice from the same state it gives the input back. *)
Theorem RC4_correct len key :
  0 < len <= Prelude.len key -> len < 2 ^ 32 ->
  RC4_set_key len key = Some (mk_rc4 0 0 (ksa len key)) /\ rc4_ok (mk_rc4 0 0 (ksa len key)) /\
  (forall k inp, rc4_ok k -> bytes inp ->
   let '(k', out) := RC4 k inp in
   k' = prga_state k (length inp) /\ rc4_ok k' /\ out = zip_with Z.lxor (rc4_stream k (length inp)) inp /\ bytes out /\
   RC4 k out = (k', inp) /\
   (forall a b, inp = a ++ b -> let '(k1, o1) := RC4 k a in let '(k2, o2) := RC4 k1 b in k2 = k' /\ out = o1 ++ o2)).
Proof.
  intros Hl Hl2. destruct (ksa_spec len key Hl Hl2) as [E Hok]. split; [exact E|]. split; [exact Hok|]. clear E Hok.
  intros k inp Hk Hb. destruct (RC4 k inp) as [k' out] eqn:Er. destruct (RC4_spec k inp Hk Hb) as [E1 Ho]. rewrite Er in E1. injection E1 as -> ->.
  split; [done|]. split; [by apply prga_state_ok|]. split; [done|]. split; [exact Ho|]. split.
  - destruct (RC4_spec k _ Hk Ho) as [-> _]. rewrite length_zip_with, length_rc4_stream, Nat.min_id, zip_xor_twice by apply length_rc4_stream. done.
  - intros a b ->. rewrite RC4_app in Er. destruct (RC4 k a) as [k1 o1]. destruct (RC4 k1 b) as [k2 o2]. injection Er as -> ->. done.
Qed.

(** RC4 with the key 01 02 03 04 05, as in RFC 6229. *)
Lemma RC4_correct_witness :
  exists k, RC4_set_key 5 [1; 2; 3; 4; 5] = Some k /\ rc4_ok k /\ snd (RC4 k [0; 0; 0; 0]) = [0xb2; 0x39; 0x63; 0x05].
Proof.
  destruct (RC4_correct 5 [1; 2; 3; 4; 5]) as (E & Hok & _); [unfold len; cbn [length]; lia | lia |].
  exists (mk_rc4 0 0 (ksa 5 [1; 2; 3; 4; 5])). split; [exact E|]. split; [exact Hok | vm_compute; reflexivity].
Defined.
