(* ===== verification/Stack.v ===== *)
(** Stacks: crypto/stack/stack.cc.

    A pointer is an integer, 0 for NULL; the objects it points to are known only
    through the comparison, copy and predicate functions, which are parameters. *)
From S2P Require Import Prelude.
From S2P Require Import Arrays.
From stdpp Require Import sorting.

Open Scope Z_scope.

Definition NULL : Z := 0.
Definition kMinSize : Z := 4.
Definition INT_MAX : Z := 2 ^ 31 - 1.

(** [data] has [num_alloc] entries, of which the first [num] are valid; [comp] is
    a function pointer. *)
Record stack_st := mk_stack {
  num : Z;
  data : list Z;
  sorted : bool;
  num_alloc : Z;
  comp : option nat;
}.

Definition with_data (sk : stack_st) (d : list Z) : stack_st :=
  mk_stack (num sk) d (sorted sk) (num_alloc sk) (comp sk).
Definition with_num (sk : stack_st) (n : Z) : stack_st :=
  mk_stack n (data sk) (sorted sk) (num_alloc sk) (comp sk).
Definition with_sorted (sk : stack_st) (b : bool) : stack_st :=
  mk_stack (num sk) (data sk) b (num_alloc sk) (comp sk).

Section Stack.
Context `{P : Platform}.

Definition sizeof_ptr : Z := size_bits / 8.

(** What the comparison function [c] returns for two pointers. *)
Variable call_cmp : nat -> Z -> Z -> Z.

(** The arguments tell whether each of the two allocations succeeds. *)
Definition OPENSSL_sk_new (ok1 ok2 : bool) (c : option nat) : option stack_st :=
  if negb ok1 then None
  else if negb ok2 then None
  else Some (mk_stack 0 (replicate (Z.to_nat kMinSize) NULL) false kMinSize c).

Definition OPENSSL_sk_num (sk : option stack_st) : Z :=
  match sk with None => 0 | Some sk => num sk end.

Definition OPENSSL_sk_zero (sk : option stack_st) : option stack_st :=
  match sk with
  | None => None
  | Some sk =>
    if num sk =? 0 then Some sk
    else Some (mk_stack 0 (replicate (Z.to_nat (num sk)) NULL ++ zdrop (num sk) (data sk)) false (num_alloc sk) (comp sk))
  end.

(** Reads of the array are undefined out of bounds; this is the outer option. *)
Definition OPENSSL_sk_value (sk : option stack_st) (i : Z) : option Z :=
  match sk with
  | None => Some NULL
  | Some sk => if num sk <=? i then Some NULL else znth (data sk) i
  end.

Definition OPENSSL_sk_set (sk : option stack_st) (i value : Z) : option stack_st * Z :=
  match sk with
  | None => (None, NULL)
  | Some sk => if num sk <=? i then (Some sk, NULL) else (Some (with_data sk (zupd (data sk) i value)), value)
  end.

(** The pointers that are freed, in order. *)
Definition OPENSSL_sk_pop_free_ex (sk : option stack_st) : list Z :=
  match sk with
  | None => []
  | Some sk => filter (fun p => p <> NULL) (ztake (num sk) (data sk))
  end.

(** [r] is the answer of OPENSSL_realloc, if it is called: a failure, or the
    contents of the memory past the old block. *)
Definition sk_grow (r : option (nat -> Z)) (sk : stack_st) : option stack_st :=
  if num_alloc sk <=? wrap size_bits (num sk + 1) then
    let new_alloc := wrap size_bits (Z.shiftl (num_alloc sk) 1) in
    let alloc_size := wrap size_bits (new_alloc * sizeof_ptr) in
    let '(new_alloc, alloc_size) :=
      if (new_alloc <? num_alloc sk) || negb (alloc_size / sizeof_ptr =? new_alloc) then
        (wrap size_bits (num_alloc sk + 1), wrap size_bits (wrap size_bits (num_alloc sk + 1) * sizeof_ptr))
      else (new_alloc, alloc_size) in
    if (new_alloc <? num_alloc sk) || negb (alloc_size / sizeof_ptr =? new_alloc) then None
    else match r with
    | None => None
    | Some junk =>
      let keep := ztake new_alloc (data sk) in
      Some (mk_stack (num sk) (keep ++ map junk (seq 0 (Z.to_nat (new_alloc - len keep)))) (sorted sk) new_alloc (comp sk))
    end
  else Some sk.

Definition OPENSSL_sk_insert (r : option (nat -> Z)) (sk : option stack_st) (p where_ : Z) : option stack_st * Z :=
  match sk with
  | None => (None, 0)
  | Some sk =>
    if INT_MAX <=? num sk then (Some sk, 0)
    else match sk_grow r sk with
    | None => (Some sk, 0)
    | Some sk =>
      let d := if num sk <=? where_ then zupd (data sk) (num sk) p
               else ztake where_ (data sk) ++ p :: ztake (num sk - where_) (zdrop where_ (data sk)) ++ zdrop (num sk + 1) (data sk) in
      let n := wrap size_bits (num sk + 1) in
      (Some (mk_stack n d false (num_alloc sk) (comp sk)), n)
    end
  end.

Definition OPENSSL_sk_delete (sk : option stack_st) (where_ : Z) : option (option stack_st * Z) :=
  match sk with
  | None => Some (None, NULL)
  | Some sk =>
    if num sk <=? where_ then Some (Some sk, NULL)
    else
      ret ← znth (data sk) where_;
      let d := if negb (where_ =? num sk - 1) then
                 ztake where_ (data sk) ++ ztake (num sk - where_ - 1) (zdrop (where_ + 1) (data sk)) ++ zdrop (num sk - 1) (data sk)
               else data sk in
      Some (Some (mk_stack (num sk - 1) d (sorted sk) (num_alloc sk) (comp sk)), ret)
  end.

(** The loop of OPENSSL_sk_delete_ptr from index [i]. *)
Fixpoint delete_ptr_loop (fuel : nat) (sk : stack_st) (p i : Z) : option (option stack_st * Z) :=
  match fuel with
  | O => None
  | S fuel =>
    if negb (i <? num sk) then Some (Some sk, NULL)
    else
      q ← znth (data sk) i;
      if q =? p then OPENSSL_sk_delete (Some sk) i else delete_ptr_loop fuel sk p (i + 1)
  end.
Definition OPENSSL_sk_delete_ptr (sk : option stack_st) (p : Z) : option (option stack_st * Z) :=
  match sk with
  | None => Some (None, NULL)
  | Some sk => delete_ptr_loop (S (Z.to_nat (num sk))) sk p 0
  end.

(** The loop of OPENSSL_sk_delete_if: the array and [new_num]. *)
Fixpoint delete_if_loop (fuel : nat) (func : Z -> bool) (n : Z) (d : list Z) (i new_num : Z) : option (list Z * Z) :=
  match fuel with
  | O => None
  | S fuel =>
    if negb (i <? n) then Some (d, new_num)
    else
      q ← znth d i;
      if negb (func q) then delete_if_loop fuel func n (zupd d new_num q) (i + 1) (new_num + 1)
      else delete_if_loop fuel func n d (i + 1) new_num
  end.
Definition OPENSSL_sk_delete_if (sk : option stack_st) (func : Z -> bool) : option (option stack_st) :=
  match sk with
  | None => Some None
  | Some sk =>
    '(d, n) ← delete_if_loop (S (Z.to_nat (num sk))) func (num sk) (data sk) 0 0;
    Some (Some (mk_stack n d (sorted sk) (num_alloc sk) (comp sk)))
  end.

Definition OPENSSL_sk_is_sorted (sk : option stack_st) : bool :=
  match sk with
  | None => true
  | Some sk => sorted sk || (match comp sk with Some _ => true | None => false end && (num sk <? 2))
  end.

(** The linear searches, with the test of an entry as [matches], and the binary search. *)
Fixpoint find_linear (fuel : nat) (matches : Z -> bool) (n : Z) (d : list Z) (i : Z) : option (option Z) :=
  match fuel with
  | O => None
  | S fuel =>
    if negb (i <? n) then Some None
    else
      q ← znth d i;
      if matches q then Some (Some i) else find_linear fuel matches n d (i + 1)
  end.
Fixpoint find_binary (fuel : nat) (c : nat) (p : Z) (d : list Z) (lo hi : Z) : option (option Z) :=
  match fuel with
  | O => None
  | S fuel =>
    if negb (lo <? hi) then Some None
    else
      let mid := wrap size_bits (lo + wrap size_bits (wrap size_bits (hi - lo) - 1) / 2) in
      q ← znth d mid;
      let r := call_cmp c p q in
      if 0 <? r then find_binary fuel c p d (wrap size_bits (mid + 1)) hi
      else if r <? 0 then find_binary fuel c p d lo mid
      else if wrap size_bits (hi - lo) =? 1 then Some (Some mid)
      else find_binary fuel c p d lo (wrap size_bits (mid + 1))
  end.
Definition OPENSSL_sk_find (sk : option stack_st) (p : Z) : option (option Z) :=
  match sk with
  | None => Some None
  | Some sk =>
    let fuel := S (Z.to_nat (num sk)) in
    match comp sk with
    | None => find_linear fuel (fun q => q =? p) (num sk) (data sk) 0
    | Some c =>
      if p =? NULL then Some None
      else if negb (OPENSSL_sk_is_sorted (Some sk)) then find_linear fuel (fun q => call_cmp c p q =? 0) (num sk) (data sk) 0
      else find_binary fuel c p (data sk) 0 (num sk)
    end
  end.

Definition OPENSSL_sk_shift (sk : option stack_st) : option (option stack_st * Z) :=
  match sk with
  | None => Some (None, NULL)
  | Some sk => if num sk =? 0 then Some (Some sk, NULL) else OPENSSL_sk_delete (Some sk) 0
  end.

(** [sk->num] is read before the check for NULL. *)
Definition OPENSSL_sk_push (r : option (nat -> Z)) (sk : option stack_st) (p : Z) : option (option stack_st * Z) :=
  match sk with
  | None => None
  | Some s => Some (OPENSSL_sk_insert r sk p (num s))
  end.

Definition OPENSSL_sk_pop (sk : option stack_st) : option (option stack_st * Z) :=
  match sk with
  | None => Some (None, NULL)
  | Some sk => if num sk =? 0 then Some (Some sk, NULL) else OPENSSL_sk_delete (Some sk) (num sk - 1)
  end.

Definition OPENSSL_sk_dup (ok1 ok2 : bool) (sk : option stack_st) : option stack_st :=
  match sk with
  | None => None
  | Some sk =>
    if negb ok1 then None
    else if negb ok2 then None
    else Some (mk_stack (num sk) (data sk) (sorted sk) (num_alloc sk) (comp sk))
  end.

(** * Heap sort *)
Definition parent_idx (idx : Z) : Z := wrap size_bits (idx - 1) / 2.
Definition left_idx (idx : Z) : Z := wrap size_bits (2 * idx + 1).

Fixpoint down_heap (fuel : nat) (c : nat) (d : list Z) (i n : Z) : option (list Z) :=
  match fuel with
  | O => None
  | S fuel =>
    let left := left_idx i in
    if n <=? left then Some d
    else
      di ← znth d i;
      dl ← znth d left;
      let next := if call_cmp c di dl <? 0 then left else i in
      let right := wrap size_bits (left + 1) in
      next ← (if right <? n then
                dn ← znth d next;
                dr ← znth d right;
                Some (if call_cmp c dn dr <? 0 then right else next)
              else Some next);
      if i =? next then Some d
      else
        tmp ← znth d i;
        dn ← znth d next;
        let d := zupd d i dn in
        let d := zupd d next tmp in
        down_heap fuel c d next n
  end.

Fixpoint build_heap (fuel : nat) (c : nat) (d : list Z) (i n : Z) : option (list Z) :=
  match fuel with
  | O => None
  | S fuel =>
    if negb (i <? n) then Some d
    else
      d ← down_heap (S (Z.to_nat n)) c d i n;
      build_heap fuel c d (wrap size_bits (i - 1)) n
  end.

Fixpoint extract_max (fuel : nat) (c : nat) (d : list Z) (i : Z) : option (list Z) :=
  match fuel with
  | O => None
  | S fuel =>
    if negb (0 <? i) then Some d
    else
      tmp ← znth d 0;
      di ← znth d i;
      let d := zupd d 0 di in
      let d := zupd d i tmp in
      d ← down_heap (S (Z.to_nat i)) c d 0 i;
      extract_max fuel c d (i - 1)
  end.

Definition OPENSSL_sk_sort (sk : option stack_st) : option (option stack_st) :=
  match sk with
  | None => Some None
  | Some sk =>
    match comp sk with
    | None => Some (Some sk)
    | Some c =>
      if sorted sk then Some (Some sk)
      else if 2 <=? num sk then
        d ← build_heap (S (Z.to_nat (num sk))) c (data sk) (parent_idx (num sk - 1)) (num sk);
        d ← extract_max (S (Z.to_nat (num sk))) c d (num sk - 1);
        Some (Some (mk_stack (num sk) d true (num_alloc sk) (comp sk)))
      else Some (Some (with_sorted sk true))
    end
  end.

Definition OPENSSL_sk_set_cmp_func (sk : stack_st) (c : option nat) : stack_st * option nat :=
  (mk_stack (num sk) (data sk) (if decide (comp sk = c) then sorted sk else false) (num_alloc sk) c, comp sk).

(** [copy i p] is the answer of the copy function for the entry [p] at index [i].
    The result is the stack, if any, and the copies that were freed. *)
Fixpoint deep_copy_loop (fuel : nat) (copy : Z -> Z -> Z) (n : Z) (d : list Z) (i : Z) : option (option (list Z) * list Z) :=
  match fuel with
  | O => None
  | S fuel =>
    if negb (i <? n) then Some (Some d, [])
    else
      p ← znth d i;
      if p =? NULL then deep_copy_loop fuel copy n d (i + 1)
      else
        let q := copy i p in
        let d := zupd d i q in
        if q =? NULL then Some (None, filter (fun p => p <> NULL) (ztake i d))
        else deep_copy_loop fuel copy n d (i + 1)
  end.
Definition OPENSSL_sk_deep_copy (ok1 ok2 : bool) (copy : Z -> Z -> Z) (sk : option stack_st) : option (option stack_st * list Z) :=
  match OPENSSL_sk_dup ok1 ok2 sk with
  | None => Some (None, [])
  | Some ret =>
    '(d, freed) ← deep_copy_loop (S (Z.to_nat (num ret))) copy (num ret) (data ret) 0;
    match d with
    | None => Some (None, freed)
    | Some d => Some (Some (with_data ret d), [])
    end
  end.
End Stack.
