(* ===== verification/StackSort.v ===== *)
(** The heap sort and the searches of crypto/stack/stack.cc: lemmas on arrays. *)
From S2P Require Import Prelude.
From S2P Require Import Arrays.
From S2P Require Import Stack.
From stdpp Require Import sorting.

Open Scope Z_scope.

Section Sort.
Context `{P : Platform}.
Variable call_cmp : nat -> Z -> Z -> Z.
Variable c : nat.
(** The comparison function is a total preorder on the pointers compared. *)
Hypothesis cmp_sym : forall p q, Z.sgn (call_cmp c q p) = - Z.sgn (call_cmp c p q).
Hypothesis cmp_trans : forall p q r, call_cmp c p q <= 0 -> call_cmp c q r <= 0 -> call_cmp c p r <= 0.

Definition cmp_le (p q : Z) : Prop := call_cmp c p q <= 0.

Lemma cmp_le_refl p : cmp_le p p.
Proof. unfold cmp_le. pose proof (cmp_sym p p). lia. Qed.
Lemma cmp_le_trans p q r : cmp_le p q -> cmp_le q r -> cmp_le p r.
Proof. apply cmp_trans. Qed.
Lemma not_lt_le p q : (call_cmp c p q <? 0) = false -> cmp_le q p.
Proof. intros H%Z.ltb_ge. unfold cmp_le. pose proof (cmp_sym p q). lia. Qed.
Lemma lt_le p q : (call_cmp c p q <? 0) = true -> cmp_le p q.
Proof. intros H%Z.ltb_lt. unfold cmp_le. lia. Qed.

(** * Heaps *)
Definition child (i k : Z) : Prop := k = 2 * i + 1 \/ k = 2 * i + 2.

(** Every node from [lo] on is above its children; except perhaps at [hole]. *)
Definition heap_except (d : list Z) (lo n : Z) (hole : Z -> Prop) : Prop :=
  forall i k, lo <= i -> child i k -> k < n -> ~ hole i -> cmp_le (at_ d k) (at_ d i).
Definition heap (d : list Z) (lo n : Z) : Prop := heap_except d lo n (fun _ => False).

(** The children of the hole are below the hole's parent. *)
Definition hole_ok (d : list Z) (lo n i : Z) : Prop :=
  forall p k, lo <= p -> child p i -> child i k -> k < n -> cmp_le (at_ d k) (at_ d p).

Lemma at_swap_other i j k s : 0 <= i < len s -> 0 <= j < len s -> 0 <= k -> k <> i -> k <> j -> at_ (swap i j s) k = at_ s k.
Proof.
  intros Hi Hj Hk Hki Hkj. unfold swap. rewrite !at_set by (rewrite ?len_set; lia).
  destruct (Z.eqb_spec j k), (Z.eqb_spec i k); congruence.
Qed.
Lemma len_swap i j s : len (swap i j s) = len s.
Proof. unfold swap. by rewrite !len_set. Qed.

(** What down_heap does to the array. *)
Definition sifted (d d' : list Z) (lo i n : Z) : Prop :=
  heap d' lo n /\ d' ≡ₚ d /\ (forall k, 0 <= k -> k < i \/ n <= k -> at_ d' k = at_ d k).

Lemma sifted_swap d d' lo i j n : 0 <= i < len d -> i < j < n -> j < len d ->
  sifted (swap i j d) d' lo j n -> sifted d d' lo i n.
Proof.
  intros Hi Hj Hjl (Hh & Hp & Ho). split; [done|]. split; [rewrite Hp; apply swap_perm; lia|].
  intros k Hk Hlt. rewrite Ho by lia. apply at_swap_other; lia.
Qed.

(** Moving the larger child up moves the hole down. *)
Lemma swap_hole d lo n i j : 0 <= lo <= i -> child i j -> j < n <= len d ->
  heap_except d lo n (fun k => k = i) -> hole_ok d lo n i ->
  cmp_le (at_ d i) (at_ d j) -> (forall k, child i k -> k < n -> cmp_le (at_ d k) (at_ d j)) ->
  heap_except (swap i j d) lo n (fun k => k = j) /\ hole_ok (swap i j d) lo n j.
Proof.
  intros Hlo Hj Hn Hh Hhole Hij Hmax. assert (0 <= i < j) by (destruct Hj; lia).
  destruct (at_swap i j d) as [Ei Ej]; [lia..|].
  assert (Eo : forall k, 0 <= k -> k <> i -> k <> j -> at_ (swap i j d) k = at_ d k) by (intros; apply at_swap_other; lia).
  split.
  - intros p k Hp Hpk Hk Hne. assert (0 <= p < k) by (destruct Hpk; lia). destruct (Z.eq_dec p i) as [->|Hpi].
    + rewrite Ei. destruct (Z.eq_dec k j) as [->|]; [by rewrite Ej|]. rewrite Eo by lia. by apply Hmax.
    + rewrite (Eo p) by lia. destruct (Z.eq_dec k i) as [->|Hki]; [rewrite Ei; apply Hhole; (done || lia)|].
      rewrite Eo by (destruct Hj, Hpk; lia). by apply Hh.
  - intros p k Hp Hpj Hjk Hk. assert (p = i) as -> by (destruct Hj, Hpj; lia).
    assert (j < k) by (destruct Hjk; lia). rewrite Ei, Eo by lia. apply Hh; [lia | done | done | lia].
Qed.

(** The hole is closed when it is above its children. *)
Lemma heap_close d lo n i : heap_except d lo n (fun k => k = i) ->
  (forall k, child i k -> k < n -> cmp_le (at_ d k) (at_ d i)) -> heap d lo n.
Proof. intros Hh Hi p k Hp Hpk Hk _. destruct (Z.eq_dec p i) as [->|]; [by apply Hi | by apply Hh]. Qed.

Lemma left_idx_small i : 0 <= i <= INT_MAX -> left_idx i = 2 * i + 1.
Proof. intros Hi. unfold left_idx, INT_MAX in *. apply wrap_small. platform; lia. Qed.

(** The larger of the node and its children, as the code finds it. *)
Lemma down_heap_step fuel d i n : 0 <= i < n -> n <= INT_MAX -> n <= len d ->
  exists j, (j = i \/ child i j /\ j < n) /\ cmp_le (at_ d i) (at_ d j) /\ (forall k, child i k -> k < n -> cmp_le (at_ d k) (at_ d j)) /\
  down_heap call_cmp (S fuel) c d i n = if i =? j then Some d else down_heap call_cmp fuel c (swap i j d) j n.
Proof.
  intros Hi Hn Hl. cbn [down_heap]. rewrite left_idx_small by lia. set (l := 2 * i + 1).
  destruct (Z.leb_spec n l).
  { exists i. split; [by left|]. split; [apply cmp_le_refl|]. split; [intros k [->| ->] ?; lia | by rewrite Z.eqb_refl]. }
  rewrite (znth_at d i), (znth_at d l) by lia. cbn [mbind option_bind]. rewrite (wrap_small size_bits (l + 1)) by (unfold INT_MAX in *; platform; lia).
  set (j0 := if call_cmp c (at_ d i) (at_ d l) <? 0 then l else i).
  assert (H0 : 0 <= j0 < n /\ cmp_le (at_ d i) (at_ d j0) /\ cmp_le (at_ d l) (at_ d j0) /\ (j0 = i \/ j0 = l)).
  { unfold j0. destruct (call_cmp c (at_ d i) (at_ d l) <? 0) eqn:E; [apply lt_le in E | apply not_lt_le in E];
      (split; [lia|]); eauto using cmp_le_refl. }
  destruct H0 as (Hj0 & Hi0 & Hl0 & Hor). rewrite (znth_at d j0) by lia. cbn [mbind option_bind].
  set (j := if l + 1 <? n then if call_cmp c (at_ d j0) (at_ d (l + 1)) <? 0 then l + 1 else j0 else j0).
  assert (Hj : (j = i \/ child i j /\ j < n) /\ cmp_le (at_ d i) (at_ d j) /\ cmp_le (at_ d l) (at_ d j) /\ (l + 1 < n -> cmp_le (at_ d (l + 1)) (at_ d j))).
  { unfold j, child. destruct (Z.ltb_spec (l + 1) n).
    - destruct (call_cmp c (at_ d j0) (at_ d (l + 1)) <? 0) eqn:E; [apply lt_le in E | apply not_lt_le in E];
        split_and!; eauto using cmp_le_refl, cmp_le_trans; try (right; lia). destruct Hor; [left; lia | right; lia].
    - split_and!; eauto; [|lia]. destruct Hor; [left; lia | right; lia]. }
  destruct Hj as (Hj & Hij & Hlj & Hrj). exists j. split; [done|]. split; [done|]. split.
  { intros k [->| ->] Hk; [done|]. replace (2 * i + 2) with (l + 1) in * by lia. auto. }
  replace (if l + 1 <? n then dr ← znth d (l + 1); Some (if call_cmp c (at_ d j0) dr <? 0 then l + 1 else j0) else Some j0) with (Some j).
  2:{ unfold j. destruct (Z.ltb_spec (l + 1) n); [rewrite znth_at by lia; done | done]. }
  cbn [mbind option_bind]. destruct (Z.eqb_spec i j); [done|]. assert (0 <= j < n) by (destruct Hj as [|[[] ?]]; lia).
  rewrite znth_at by lia. cbn [mbind option_bind]. rewrite !zupd_set by lia. done.
Qed.

Lemma down_heap_spec fuel d lo i n : (Z.to_nat (n - i) <= fuel)%nat -> 0 <= lo <= i -> i < n -> n <= INT_MAX -> n <= len d ->
  heap_except d lo n (fun k => k = i) -> hole_ok d lo n i ->
  exists d', down_heap call_cmp fuel c d i n = Some d' /\ sifted d d' lo i n.
Proof.
  revert d i. induction fuel as [|fuel IH]; intros d i Hf Hlo Hi Hn Hl Hh Hhole; [lia|].
  destruct (down_heap_step fuel d i n) as (j & Hj & Hij & Hmax & ->); [lia..|]. destruct (Z.eqb_spec i j) as [<-|Hne].
  - exists d. split; [done|]. split; [by apply (heap_close d lo n i)|]. done.
  - destruct Hj as [|[Hc Hjn]]; [congruence|]. assert (i < j) by (destruct Hc; lia).
    destruct (swap_hole d lo n i j) as [Hh' Hhole']; [lia | done | lia | done..|].
    destruct (IH (swap i j d) j) as (d' & -> & Hd'); [lia | lia | lia | lia | by rewrite len_swap | done | done |].
    exists d'. split; [done|]. apply (sifted_swap d d' lo i j n); [lia | lia | lia | done].
Qed.

(** * Building the heap *)
Lemma heap_hole d i n : heap d (i + 1) n -> 0 <= i -> heap_except d i n (fun k => k = i) /\ hole_ok d i n i.
Proof.
  intros Hh Hi. split.
  - intros p k Hp Hpk Hk Hne. apply Hh; [lia | done | done | tauto].
  - intros p k Hp [E|E]; lia.
Qed.

Lemma build_heap_spec fuel d i n : (Z.to_nat (i + 1) < fuel)%nat -> -1 <= i < n -> 0 < n -> n <= INT_MAX -> n <= len d -> heap d (i + 1) n ->
  exists d', build_heap call_cmp fuel c d (wrap size_bits i) n = Some d' /\
  heap d' 0 n /\ d' ≡ₚ d /\ (forall k, n <= k -> at_ d' k = at_ d k).
Proof.
  revert d i. induction fuel as [|fuel IH]; intros d i Hf Hi H0 Hn Hl Hh; [lia|]. cbn [build_heap].
  destruct (Z.eq_dec i (-1)) as [->|].
  - assert (E : wrap size_bits (-1) = 2 ^ size_bits - 1) by (symmetry; apply (Z.mod_unique _ _ (-1)); platform; lia). rewrite E.
    destruct (Z.ltb_spec (2 ^ size_bits - 1) n); [unfold INT_MAX in *; platform; lia|]. exists d. done.
  - rewrite wrap_small by (unfold INT_MAX in *; platform; lia). destruct (Z.ltb_spec i n); [cbn [negb]|lia].
    destruct (heap_hole d i n) as [Hx Hy]; [done | lia |].
    destruct (down_heap_spec (S (Z.to_nat n)) d i i n) as (d1 & -> & Hh1 & Hp1 & Ho1); [lia.. | done | done |]. cbn [mbind option_bind].
    assert (Hl1 : len d1 = len d) by (unfold len; by rewrite Hp1).
    destruct (IH d1 (i - 1)) as (d2 & -> & Hh2 & Hp2 & Ho2); [lia.. | by replace (i - 1 + 1) with i by lia |].
    exists d2. split; [done|]. split; [done|]. split; [by rewrite Hp2|]. intros k Hk. rewrite Ho2 by lia. apply Ho1; lia.
Qed.

(** The root of a heap is its maximum. *)
Lemma heap_root d n k : heap d 0 n -> 0 <= k < n -> cmp_le (at_ d k) (at_ d 0).
Proof.
  intros Hh. assert (H : forall m : nat, forall k, 0 <= k < Z.of_nat m -> k < n -> cmp_le (at_ d k) (at_ d 0)).
  { induction m as [|m IH]; intros j Hj Hn; [lia|]. destruct (Z.eq_dec j 0) as [->|]; [apply cmp_le_refl|].
    apply (cmp_le_trans _ (at_ d ((j - 1) / 2))).
    - apply Hh; [apply Z.div_pos; lia | | done | tauto]. unfold child. Z.div_mod_to_equations. lia.
    - assert (0 <= (j - 1) / 2 <= j - 1) by (Z.div_mod_to_equations; lia). apply IH; lia. }
  intros Hk. apply (H (S (Z.to_nat k))); lia.
Qed.

(** * Extracting the maxima *)
Definition extracted (d : list Z) (i n : Z) : Prop :=
  (forall a b, i < a -> a <= b -> b < n -> cmp_le (at_ d a) (at_ d b)) /\
  (forall a b, 0 <= a <= i -> i < b -> b < n -> cmp_le (at_ d a) (at_ d b)).

Lemma extract_max_spec fuel d i n : (Z.to_nat i < fuel)%nat -> 0 <= i < n -> n <= INT_MAX -> n <= len d ->
  heap d 0 (i + 1) -> extracted d i n ->
  exists d', extract_max call_cmp fuel c d i = Some d' /\ extracted d' 0 n /\ d' ≡ₚ d /\ (forall k, n <= k -> at_ d' k = at_ d k).
Proof.
  revert d i. induction fuel as [|fuel IH]; intros d i Hf Hi Hn Hl Hh [Hs Hb]; [lia|]. cbn [extract_max].
  destruct (Z.ltb_spec 0 i); cbn [negb]; [|assert (i = 0) as -> by lia; by exists d].
  rewrite (znth_at d 0), (znth_at d i) by lia. cbn [mbind option_bind]. rewrite !zupd_set by lia. fold (swap 0 i d).
  destruct (at_swap 0 i d) as [E0 Ei]; [lia..|].
  assert (Eo : forall k, 0 <= k -> k <> 0 -> k <> i -> at_ (swap 0 i d) k = at_ d k) by (intros; apply at_swap_other; lia).
  assert (Hroot : forall k, 0 <= k <= i -> cmp_le (at_ d k) (at_ d 0)) by (intros; apply (heap_root d (i + 1)); [done | lia]).
  destruct (down_heap_spec (S (Z.to_nat i)) (swap 0 i d) 0 0 i) as (d1 & -> & Hh1 & Hp1 & Ho1); [lia.. | by rewrite len_swap; lia | | |].
  { intros p k Hp Hpk Hk Hne. assert (p < k) by (destruct Hpk; lia). rewrite !Eo by lia. apply Hh; [lia | done | lia | tauto]. }
  { intros p k Hp [E|E]; lia. }
  cbn [mbind option_bind]. assert (Hl1 : len d1 = len d) by (unfold len in *; rewrite Hp1; by rewrite (swap_perm 0 i d) by (unfold len; lia)).
  assert (Htop : forall a b, 0 <= a < i -> i <= b < n -> cmp_le (at_ d1 a) (at_ d1 b)).
  { intros a b Ha Hb'. rewrite (Ho1 b) by lia. revert a Ha.
    apply (prefix_at (fun v => cmp_le v (at_ (swap 0 i d) b)) i (swap 0 i d)); [rewrite len_swap; lia | done | intros; apply Ho1; lia|].
    intros a Ha. destruct (Z.eq_dec b i) as [->|].
    - rewrite Ei. destruct (Z.eq_dec a 0) as [->|]; [rewrite E0 | rewrite Eo by lia]; apply Hroot; lia.
    - rewrite (Eo b) by lia. destruct (Z.eq_dec a 0) as [->|]; [rewrite E0 | rewrite Eo by lia]; apply Hb; lia. }
  destruct (IH d1 (i - 1)) as (d2 & -> & Hx & Hp2 & Ho2); [lia.. | by replace (i - 1 + 1) with i by lia | |].
  { split; [|intros a b Ha Hb' ?; apply Htop; lia]. intros a b Ha Hab Hbn. rewrite !Ho1 by lia.
    destruct (Z.eq_dec b i) as [->|]; [assert (a = i) as -> by lia; apply cmp_le_refl|]. rewrite (Eo b) by lia.
    destruct (Z.eq_dec a i) as [->|]; [rewrite Ei; apply Hb; lia | rewrite Eo by lia; apply Hs; lia]. }
  exists d2. split; [done|]. split; [done|]. split; [rewrite Hp2, Hp1; apply swap_perm; lia|].
  intros k Hk. rewrite Ho2, Ho1 by lia. apply Eo; lia.
Qed.

Lemma StronglySorted_at l : (forall a b, 0 <= a < b -> b < len l -> cmp_le (at_ l a) (at_ l b)) <-> StronglySorted cmp_le l.
Proof.
  induction l as [|x l IH]; [split; [constructor | intros _ a b ? Hb; change (len (@nil Z)) with 0 in Hb; lia]|].
  rewrite len_cons. pose proof (len_nonneg l) as Hnn. split.
  - intros Hs. constructor.
    + apply IH. intros a b Ha Hb. specialize (Hs (a + 1) (b + 1)). rewrite !at_cons, !Z.add_simpl_r in Hs by lia. apply Hs; lia.
    + apply Forall_at. intros i Hi. specialize (Hs 0 (i + 1)). rewrite (at_cons x l (i + 1)), Z.add_simpl_r in Hs by lia. apply Hs; lia.
  - intros Hs a b Ha Hb. inversion Hs as [|? ? Hs' Hx]; subst. rewrite (at_cons x l b) by lia. destruct (Z.eq_dec a 0) as [->|].
    + rewrite Forall_at in Hx. apply Hx. lia.
    + rewrite at_cons by lia. apply IH; [done | lia | lia].
Qed.

(** The whole sort. *)
Lemma sort_spec d n : 2 <= n -> n <= INT_MAX -> n <= len d ->
  exists d1 d2, build_heap call_cmp (S (Z.to_nat n)) c d (parent_idx (n - 1)) n = Some d1 /\
  extract_max call_cmp (S (Z.to_nat n)) c d1 (n - 1) = Some d2 /\
  StronglySorted cmp_le (ztake n d2) /\ ztake n d2 ≡ₚ ztake n d /\ len d2 = len d.
Proof.
  intros H2 Hn Hl. assert (Hp : 0 <= (n - 2) / 2 < n) by (Z.div_mod_to_equations; lia).
  assert (Ep : parent_idx (n - 1) = wrap size_bits ((n - 2) / 2)).
  { unfold parent_idx. replace (n - 1 - 1) with (n - 2) by lia. rewrite !wrap_small; unfold INT_MAX in *; platform; lia. }
  destruct (build_heap_spec (S (Z.to_nat n)) d ((n - 2) / 2) n) as (d1 & E1 & Hh & Hp1 & Ho1); [lia.. | |].
  { intros i k Hi [->| ->] Hk; Z.div_mod_to_equations; lia. }
  assert (Hl1 : len d1 = len d) by (unfold len; by rewrite Hp1).
  destruct (extract_max_spec (S (Z.to_nat n)) d1 (n - 1) n) as (d2 & E2 & [Hs Hb] & Hp2 & Ho2); [lia.. | by replace (n - 1 + 1) with n by lia | |].
  { split; intros; lia. }
  assert (Hl2 : len d2 = len d) by (unfold len in *; by rewrite Hp2).
  exists d1, d2. rewrite Ep. split; [done|]. split; [done|]. split; [|split; [|done]].
  - apply StronglySorted_at. rewrite len_ztake by lia. intros a b Ha Hb'. rewrite !at_ztake by lia.
    destruct (Z.eq_dec a 0) as [->|]; [apply Hb | apply Hs]; lia.
  - apply perm_prefix; [lia | by rewrite Hp2 | intros k Hk; rewrite Ho2 by lia; by apply Ho1].
Qed.

(** * Searching *)
Definition first_match (matches : Z -> bool) (d : list Z) (lo n : Z) (r : option Z) : Prop :=
  match r with
  | Some k => lo <= k < n /\ matches (at_ d k) = true /\ forall j, lo <= j < k -> matches (at_ d j) = false
  | None => forall j, lo <= j < n -> matches (at_ d j) = false
  end.

Lemma find_linear_spec fuel matches n d i : (Z.to_nat (n - i) < fuel)%nat -> 0 <= i <= n -> n <= len d ->
  exists r, find_linear fuel matches n d i = Some r /\ first_match matches d i n r.
Proof.
  revert i. induction fuel as [|fuel IH]; intros i Hf Hi Hl; [lia|]. cbn [find_linear].
  destruct (Z.ltb_spec i n); cbn [negb]; [|exists None; split; [done | intros j Hj; lia]].
  rewrite znth_at by lia. cbn [mbind option_bind]. destruct (matches (at_ d i)) eqn:E.
  - exists (Some i). split; [done|]. split; [lia|]. split; [done | intros j Hj; lia].
  - destruct (IH (i + 1)) as (r & -> & Hr); [lia..|]. exists r. split; [done|].
    destruct r as [k|]; [destruct Hr as (Hk & Hm & Hj); split; [lia|]; split; [done|] |];
      intros j ?; (destruct (Z.eq_dec j i) as [->|]; [done|]); first [apply Hj | apply Hr]; lia.
Qed.

Section Binary.
Variables (p n : Z) (d : list Z).
Hypothesis n_len : 0 <= n <= len d.
Hypothesis n_max : n <= INT_MAX.
Hypothesis d_sorted : forall a b, 0 <= a < b -> b < n -> cmp_le (at_ d a) (at_ d b).
Let side (j : Z) : Z := call_cmp c p (at_ d j).

Lemma side_le a b : 0 <= a <= b -> b < n -> side a <= 0 -> side b <= 0.
Proof.
  intros Ha Hb Hs. destruct (Z.eq_dec a b) as [->|]; [done|]. apply (cmp_trans p (at_ d a) (at_ d b)); [done|]. apply d_sorted; lia.
Qed.
Lemma side_lt a b : 0 <= a <= b -> b < n -> side a < 0 -> side b < 0.
Proof.
  intros Ha Hb Hs. destruct (Z.eq_dec a b) as [->|]; [done|]. destruct (Z_lt_ge_dec (side b) 0) as [|Hge]; [done|].
  assert (cmp_le (at_ d a) p).
  { apply (cmp_le_trans _ (at_ d b)); [apply d_sorted; lia|]. unfold cmp_le. pose proof (cmp_sym p (at_ d b)). unfold side in Hge. lia. }
  unfold cmp_le, side in *. pose proof (cmp_sym p (at_ d a)). lia.
Qed.

Lemma find_binary_spec fuel lo hi : (Z.to_nat (hi - lo) < fuel)%nat -> 0 <= lo <= hi -> hi <= n ->
  (forall j, 0 <= j < lo -> 0 < side j) ->
  (forall j, hi <= j < n -> side j < 0) \/ (0 < hi /\ side (hi - 1) = 0) ->
  exists r, find_binary call_cmp fuel c p d lo hi = Some r /\ first_match (fun q => call_cmp c p q =? 0) d 0 n r.
Proof.
  revert lo hi. induction fuel as [|fuel IH]; intros lo hi Hf Hlo Hhi Hl Hh; [lia|]. cbn [find_binary].
  destruct (Z.ltb_spec lo hi); cbn [negb].
  2:{ exists None. split; [done|]. intros j Hj. apply Z.eqb_neq. fold (side j).
      destruct Hh as [Hh|[? Hh]]; [destruct (Z_lt_ge_dec j lo); [specialize (Hl j) | specialize (Hh j)]; lia | specialize (Hl (hi - 1)); lia]. }
  rewrite !(wrap_small size_bits (hi - lo)), (wrap_small size_bits (hi - lo - 1)) by (unfold INT_MAX in *; platform; lia).
  set (mid := lo + (hi - lo - 1) / 2). assert (Hm : lo <= mid < hi /\ (hi - lo = 1 \/ mid + 1 < hi)) by (unfold mid; Z.div_mod_to_equations; lia).
  clearbody mid. rewrite !(wrap_small size_bits mid), !(wrap_small size_bits (mid + 1)) by (unfold INT_MAX in *; platform; lia).
  rewrite znth_at by lia. cbn [mbind option_bind]. fold (side mid).
  destruct (Z.ltb_spec 0 (side mid)) as [Hgt|Hle].
  { apply IH; [lia | lia | lia | | done]. intros j Hj. destruct (Z_lt_ge_dec 0 (side j)) as [|Hs]; [done|].
    pose proof (side_le j mid ltac:(lia) ltac:(lia) ltac:(lia)). lia. }
  destruct (Z.ltb_spec (side mid) 0) as [Hlt|Hge].
  { apply IH; [lia | lia | lia | done |]. left. intros j Hj. apply (side_lt mid j); lia. }
  assert (Hz : side mid = 0) by lia. destruct (Z.eqb_spec (hi - lo) 1) as [E1|].
  - exists (Some mid). split; [done|]. assert (mid = lo) as -> by lia. split; [lia|]. split; [by apply Z.eqb_eq|].
    intros j Hj. apply Z.eqb_neq. fold (side j). specialize (Hl j). lia.
  - apply IH; [lia | lia | lia | done |]. right. split; [lia|]. by replace (mid + 1 - 1) with mid by lia.
Qed.
End Binary.
End Sort.
