(* ===== verification/StackProofs.v ===== *)
(** Stacks refine lists: theorems on crypto/stack/stack.cc. *)
From S2P Require Import Prelude.
From S2P Require Import Arrays.
From S2P Require Import Stack.
From S2P Require Import StackSort.
From stdpp Require Import sorting.

Open Scope Z_scope.

(** The list a stack represents. *)
Definition contents (sk : stack_st) : list Z := ztake (num sk) (data sk).

(** An operation on a stack that is not NULL, with the answer of the allocator
    where it may be called. *)
Inductive sk_op :=
| Op_zero
| Op_set (i value : Z)
| Op_insert (r : option (nat -> Z)) (p where_ : Z)
| Op_push (r : option (nat -> Z)) (p : Z)
| Op_delete (where_ : Z)
| Op_delete_ptr (p : Z)
| Op_delete_if (func : Z -> bool)
| Op_shift
| Op_pop
| Op_sort
| Op_set_cmp_func (c : option nat).

(** Indices are values of size_t. *)
Definition op_args_ok (o : sk_op) : Prop :=
  match o with Op_set i _ => 0 <= i | Op_insert _ _ w => 0 <= w | Op_delete w => 0 <= w | _ => True end.

Section Refinement.
Context `{P : Platform}.
Variable call_cmp : nat -> Z -> Z -> Z.
Hypothesis cmp_sym : forall c p q, Z.sgn (call_cmp c q p) = - Z.sgn (call_cmp c p q).
Hypothesis cmp_trans : forall c p q r, call_cmp c p q <= 0 -> call_cmp c q r <= 0 -> call_cmp c p r <= 0.

(** An operation of the code: the stack after it and the value returned (0 where
    nothing is); [None] is undefined behaviour. *)
Definition sk_step (o : sk_op) (sk : stack_st) : option (stack_st * Z) :=
  let ret (x : option stack_st * Z) := match x with (Some sk, v) => Some (sk, v) | _ => None end in
  match o with
  | Op_zero => ret (OPENSSL_sk_zero (Some sk), 0)
  | Op_set i value => ret (OPENSSL_sk_set (Some sk) i value)
  | Op_insert r p w => ret (OPENSSL_sk_insert r (Some sk) p w)
  | Op_push r p => x ← OPENSSL_sk_push r (Some sk) p; ret x
  | Op_delete w => x ← OPENSSL_sk_delete (Some sk) w; ret x
  | Op_delete_ptr p => x ← OPENSSL_sk_delete_ptr (Some sk) p; ret x
  | Op_delete_if f => x ← OPENSSL_sk_delete_if (Some sk) f; ret (x, 0)
  | Op_shift => x ← OPENSSL_sk_shift (Some sk); ret x
  | Op_pop => x ← OPENSSL_sk_pop (Some sk); ret x
  | Op_sort => x ← OPENSSL_sk_sort call_cmp (Some sk); ret (x, 0)
  | Op_set_cmp_func c => Some (fst (OPENSSL_sk_set_cmp_func sk c), 0)
  end.

(** The invariant of a stack. *)
Definition stack_ok (sk : stack_st) : Prop :=
  0 <= num sk <= INT_MAX /\ num sk < num_alloc sk /\ len (data sk) = num_alloc sk /\ num_alloc sk * sizeof_ptr < 2 ^ size_bits.
(** [sorted] tells the truth. *)
Definition sorted_ok (sk : stack_st) : Prop :=
  forall c, sorted sk = true -> comp sk = Some c -> StronglySorted (cmp_le call_cmp c) (contents sk).

(** Deleting at an index of a list. *)
Definition list_delete (i : Z) (l : list Z) (l' : list Z) (v : Z) : Prop :=
  if i <? len l then l' = ztake i l ++ zdrop (i + 1) l /\ v = at_ l i else l' = l /\ v = NULL.
(** Inserting may fail: the result is then 0 and the list unchanged. *)
Definition list_insert (r : option (nat -> Z)) (alloc : Z) (p i : Z) (l l' : list Z) (v : Z) : Prop :=
  (l' = ztake i l ++ p :: zdrop i l /\ v = len l + 1) \/
  (l' = l /\ v = 0 /\ (len l = INT_MAX \/ r = None \/ 2 ^ size_bits <= (alloc + 1) * sizeof_ptr)).

(** What an operation does to the list. *)
Definition list_step (o : sk_op) (sk : stack_st) (l l' : list Z) (v : Z) : Prop :=
  match o with
  | Op_zero => l' = []
  | Op_set i value => if i <? len l then l' = set_ i value l /\ v = value else l' = l /\ v = NULL
  | Op_insert r p w => list_insert r (num_alloc sk) p w l l' v
  | Op_push r p => list_insert r (num_alloc sk) p (len l) l l' v
  | Op_delete w => list_delete w l l' v
  | Op_delete_ptr p =>
      (l' = l /\ v = NULL /\ p ∉ l) \/
      (exists i, 0 <= i < len l /\ at_ l i = p /\ p ∉ ztake i l /\ list_delete i l l' v)
  | Op_delete_if f => l' = filter (fun q => f q = false) l
  | Op_shift => list_delete 0 l l' v
  | Op_pop => if len l =? 0 then l' = l /\ v = NULL else list_delete (len l - 1) l l' v
  | Op_sort => l' ≡ₚ l /\ (forall c, comp sk = Some c -> sorted_ok sk -> StronglySorted (cmp_le call_cmp c) l')
  | Op_set_cmp_func _ => l' = l
  end.

Lemma len_contents sk : stack_ok sk -> len (contents sk) = num sk.
Proof. intros (? & ? & ? & _). apply len_ztake. lia. Qed.

Lemma sizeof_ptr_cases : sizeof_ptr = 4 /\ size_bits = 32 \/ sizeof_ptr = 8 /\ size_bits = 64.
Proof. unfold sizeof_ptr. destruct size_bits_ok as [-> | ->]; [left | right]; done. Qed.

(** ** Insertion *)
Lemma alloc_size_check a : 0 <= a -> a < 2 ^ size_bits ->
  (wrap size_bits (a * sizeof_ptr) / sizeof_ptr =? a) = (a * sizeof_ptr <? 2 ^ size_bits).
Proof.
  intros H0 Ha. destruct (Z.ltb_spec (a * sizeof_ptr) (2 ^ size_bits)) as [H|H].
  - rewrite wrap_small by (destruct sizeof_ptr_cases as [[E _]|[E _]]; rewrite E in *; lia). apply Z.eqb_eq, Z.div_mul.
    destruct sizeof_ptr_cases as [[E _]|[E _]]; rewrite E in *; lia.
  - apply Z.eqb_neq. unfold wrap. destruct sizeof_ptr_cases as [[E1 E2]|[E1 E2]]; rewrite E1, E2 in *; Z.div_mod_to_equations; lia.
Qed.

Lemma sk_grow_spec r sk : stack_ok sk -> num sk < INT_MAX ->
  match sk_grow r sk with
  | Some sk' => stack_ok sk' /\ num sk' + 1 < num_alloc sk' /\ contents sk' = contents sk /\ num sk' = num sk /\
                sorted sk' = sorted sk /\ comp sk' = comp sk
  | None => r = None \/ 2 ^ size_bits <= (num_alloc sk + 1) * sizeof_ptr
  end.
Proof.
  intros (Hn & Ha & Hl & Hs) Hm. unfold sk_grow. pose proof sizeof_ptr_cases as Hsp.
  assert (Hb : num_alloc sk < 2 ^ size_bits) by nia.
  rewrite wrap_small by (unfold INT_MAX in *; platform; lia).
  destruct (Z.leb_spec (num_alloc sk) (num sk + 1)) as [Hle|Hgt]; [|done].
  assert (E2 : wrap size_bits (Z.shiftl (num_alloc sk) 1) = num_alloc sk * 2).
  { rewrite Z.shiftl_mul_pow2 by lia. change (2 ^ 1) with 2. apply wrap_small. destruct Hsp as [[E _]|[E _]]; rewrite E in *; lia. }
  assert (E1 : wrap size_bits (num_alloc sk + 1) = num_alloc sk + 1).
  { apply wrap_small. unfold INT_MAX in *. platform; lia. }
  rewrite E2, E1. destruct (Z.ltb_spec (num_alloc sk * 2) (num_alloc sk)); [lia|]. cbn [orb].
  rewrite alloc_size_check by (destruct Hsp as [[E _]|[E _]]; rewrite E in *; lia).
  set (na := if negb _ then _ else _).
  assert (Hna : exists a, na = (a, wrap size_bits (a * sizeof_ptr)) /\ num sk + 1 < a < 2 ^ size_bits /\ num_alloc sk < a /\
                (a = num_alloc sk + 1 \/ a * sizeof_ptr < 2 ^ size_bits)).
  { unfold na. destruct (Z.ltb_spec (num_alloc sk * 2 * sizeof_ptr) (2 ^ size_bits)); cbn [negb].
    - exists (num_alloc sk * 2). split; [done|]. split_and!; destruct Hsp as [[E _]|[E _]]; rewrite E in *; lia.
    - exists (num_alloc sk + 1). split; [done|]. split_and!; (lia || (unfold INT_MAX in *; platform; lia)). }
  clearbody na. destruct Hna as (a & -> & Ha1 & Ha2 & Ha3). destruct (Z.ltb_spec a (num_alloc sk)); [lia|]. cbn [orb].
  rewrite alloc_size_check by lia. destruct (Z.ltb_spec (a * sizeof_ptr) (2 ^ size_bits)) as [Hfit|Hno]; cbn [negb].
  - destruct r as [junk|]; [|by left]. set (d' := _ ++ _).
    assert (Hk : ztake a (data sk) = data sk) by (unfold ztake; apply firstn_all2; unfold len in Hl; lia).
    assert (Hd : len d' = a) by (unfold d', len in *; rewrite Hk, length_app, length_map, length_seq; lia).
    split; [unfold stack_ok; cbn [num data num_alloc]; split_and!; lia|]. split_and!; cbn [num data sorted num_alloc comp]; try lia; try done.
    unfold contents. cbn [num data]. unfold d'. rewrite Hk. unfold ztake. rewrite take_app_le; [done|]. unfold len in Hl. lia.
  - right. destruct Ha3 as [->|]; lia.
Qed.

(** The state after an operation. *)
Definition refines (o : sk_op) (sk : stack_st) (out : option (stack_st * Z)) : Prop :=
  exists sk' v, out = Some (sk', v) /\ stack_ok sk' /\ list_step o sk (contents sk) (contents sk') v /\
  (sorted_ok sk -> (forall i x, o <> Op_set i x) -> sorted_ok sk').

Lemma insert_contents n w p (d : list Z) : 0 <= w < n -> n < len d ->
  ztake (n + 1) (ztake w d ++ p :: ztake (n - w) (zdrop w d) ++ zdrop (n + 1) d) = ztake w (ztake n d) ++ p :: zdrop w (ztake n d).
Proof.
  intros Hw Hn. assert (E1 : ztake w (ztake n d) = ztake w d) by (unfold ztake; rewrite take_take; f_equal; lia).
  assert (E2 : zdrop w (ztake n d) = ztake (n - w) (zdrop w d)) by (unfold ztake, zdrop; rewrite skipn_firstn_comm; f_equal; lia).
  rewrite E1, E2, app_comm_cons, app_assoc. apply ztake_app_eq.
  rewrite len_app, len_cons, len_ztake, len_ztake by (rewrite ?len_zdrop; lia). lia.
Qed.
Lemma delete_contents n w (d : list Z) : 0 <= w < n -> n <= len d ->
  ztake (n - 1) (ztake w d ++ ztake (n - w - 1) (zdrop (w + 1) d) ++ zdrop (n - 1) d) = ztake w (ztake n d) ++ zdrop (w + 1) (ztake n d).
Proof.
  intros Hw Hn. assert (E1 : ztake w (ztake n d) = ztake w d) by (unfold ztake; rewrite take_take; f_equal; lia).
  assert (E2 : zdrop (w + 1) (ztake n d) = ztake (n - w - 1) (zdrop (w + 1) d))
    by (unfold ztake, zdrop; rewrite skipn_firstn_comm; f_equal; lia).
  rewrite E1, E2, app_assoc. apply ztake_app_eq. rewrite len_app, !len_ztake by (rewrite ?len_zdrop; lia). lia.
Qed.
Lemma push_contents n p (d : list Z) : 0 <= n < len d -> ztake (n + 1) (zupd d n p) = ztake n d ++ [p].
Proof.
  intros Hn. apply list_eq_at; rewrite ?len_app, ?len_ztake by (rewrite ?len_zupd; lia); [done|]. intros i Hi.
  rewrite at_ztake, zupd_set, at_set by lia. destruct (Z.eqb_spec n i) as [->|].
  - rewrite at_app_r, len_ztake, Z.sub_diag by (rewrite ?len_ztake; lia). done.
  - rewrite at_app_l, at_ztake by (rewrite ?len_ztake; lia). done.
Qed.

Lemma insert_refines r sk p w : stack_ok sk -> 0 <= w ->
  exists sk' v, OPENSSL_sk_insert r (Some sk) p w = (Some sk', v) /\ stack_ok sk' /\
  list_insert r (num_alloc sk) p w (contents sk) (contents sk') v /\ (sorted_ok sk -> sorted_ok sk').
Proof.
  intros Hok Hw. pose proof (len_contents sk Hok) as Hlen. unfold OPENSSL_sk_insert, list_insert. rewrite Hlen.
  destruct (Z.leb_spec INT_MAX (num sk)) as [Hmax|Hmax].
  { exists sk, 0. split; [done|]. split; [done|]. split; [|done]. right. split; [done|]. split; [done|]. left. destruct Hok. lia. }
  pose proof (sk_grow_spec r sk Hok Hmax) as Hg. destruct (sk_grow r sk) as [s|].
  2:{ exists sk, 0. split; [done|]. split; [done|]. split; [|done]. right. split; [done|]. split; [done|]. by right. }
  destruct Hg as ((Hn & Ha & Hl & Hs) & Hroom & Hc & En & Es & Ec). rewrite <- Hc. unfold contents in *.
  assert (Ew : wrap size_bits (num s + 1) = num s + 1) by (apply wrap_small; unfold INT_MAX in *; platform; lia). rewrite Ew.
  eexists _, _. split; [reflexivity|].
  assert (Hd : forall d, len d = num_alloc s -> stack_ok (mk_stack (num s + 1) d false (num_alloc s) (comp s)))
    by (intros d Hd; unfold stack_ok; cbn [num data num_alloc]; split_and!; lia).
  destruct (Z.leb_spec (num s) w).
  - split; [apply Hd; by rewrite len_zupd|]. split; [|intros _ c' E; cbn in E; congruence]. left. cbn [num data].
    split; [|lia]. rewrite push_contents by lia.
    assert (H1 : ztake w (ztake (num s) (data s)) = ztake (num s) (data s)) by (unfold ztake; rewrite take_take; f_equal; lia).
    assert (H2 : zdrop w (ztake (num s) (data s)) = []) by (unfold zdrop; apply drop_ge; unfold ztake; rewrite length_take; lia).
    by rewrite H1, H2.
  - split; [apply Hd|].
    { rewrite len_app, len_cons, len_app, !len_ztake, !len_zdrop by (rewrite ?len_zdrop; lia). lia. }
    split; [|intros _ c' E; cbn in E; congruence]. left. cbn [num data]. split; [|lia]. apply insert_contents; lia.
Qed.

(** ** Deletion *)
Lemma Sorted_sublist (R : Z -> Z -> Prop) (l k : list Z) : l `sublist_of` k -> StronglySorted R k -> StronglySorted R l.
Proof.
  intros Hs. induction Hs as [|x l k Hs IH|x l k Hs IH]; intros Hk; [done | |]; inversion Hk as [|? ? Hk' Hx]; subst; [|auto].
  constructor; [auto|]. rewrite Forall_forall in *. intros y Hy. apply Hx. by eapply elem_of_sublist.
Qed.
Lemma filter_sublist (f : Z -> bool) (l : list Z) : filter (fun q => f q = false) l `sublist_of` l.
Proof.
  induction l as [|x l IH]; [done|]. rewrite filter_cons. case_decide; [by apply sublist_skip | by apply sublist_cons].
Qed.
Lemma delete_sublist (w : Z) (l : list Z) : 0 <= w -> ztake w l ++ zdrop (w + 1) l `sublist_of` l.
Proof.
  intros Hw. rewrite <- (ztake_zdrop w l) at 3. apply sublist_app; [done|].
  rewrite Z.add_comm, <- zdrop_zdrop, (zdrop_zdrop w 1), (Z.add_comm 1 w), <- (zdrop_zdrop 1 w) by lia. apply sublist_drop.
Qed.

Lemma sorted_sublist sk n d : (ztake n d) `sublist_of` contents sk -> sorted_ok sk ->
  sorted_ok (mk_stack n d (sorted sk) (num_alloc sk) (comp sk)).
Proof. intros Hs Hok c Hc Ec. cbn in Hc, Ec. unfold contents. cbn [num data]. by apply (Sorted_sublist _ _ _ Hs), Hok. Qed.

Lemma delete_refines sk w : stack_ok sk -> 0 <= w ->
  exists sk' v, OPENSSL_sk_delete (Some sk) w = Some (Some sk', v) /\ stack_ok sk' /\
  list_delete w (contents sk) (contents sk') v /\ (sorted_ok sk -> sorted_ok sk').
Proof.
  intros Hok Hw. pose proof (len_contents sk Hok) as Hlen. pose proof Hok as (Hn & Ha & Hl & Hs).
  unfold OPENSSL_sk_delete, list_delete. rewrite Hlen. destruct (Z.leb_spec (num sk) w), (Z.ltb_spec w (num sk)); try lia.
  { exists sk, NULL. done. }
  rewrite znth_at by lia. cbn [mbind option_bind]. set (d := if negb _ then _ else _).
  assert (Hd : len d = num_alloc sk /\ ztake (num sk - 1) d = ztake w (contents sk) ++ zdrop (w + 1) (contents sk)).
  { unfold d, contents. destruct (Z.eqb_spec w (num sk - 1)) as [->|]; cbn [negb].
    - split; [done|]. replace (num sk - 1 + 1) with (num sk) by lia. unfold ztake, zdrop. rewrite take_take, drop_ge, app_nil_r by (rewrite length_take; lia).
      f_equal. lia.
    - split; [rewrite !len_app, !len_ztake, len_zdrop by (rewrite ?len_zdrop; lia); lia | apply delete_contents; lia]. }
  clearbody d. destruct Hd as [Hd Hc]. eexists _, _. split; [reflexivity|]. split.
  { unfold stack_ok. cbn [num data num_alloc]. split_and!; lia. }
  split; [split; [exact Hc | unfold contents; by rewrite at_ztake by lia]|].
  apply sorted_sublist. rewrite Hc. by apply delete_sublist.
Qed.

Lemma delete_ptr_refines fuel sk p i : stack_ok sk -> (Z.to_nat (num sk - i) < fuel)%nat -> 0 <= i <= num sk -> p ∉ ztake i (contents sk) ->
  exists sk' v, delete_ptr_loop fuel sk p i = Some (Some sk', v) /\ stack_ok sk' /\
  list_step (Op_delete_ptr p) sk (contents sk) (contents sk') v /\ (sorted_ok sk -> sorted_ok sk').
Proof.
  intros Hok. pose proof (len_contents sk Hok) as Hlen. pose proof Hok as (Hn & Ha & Hl & Hs).
  revert i. induction fuel as [|fuel IH]; intros i Hf Hi Hp; [lia|]. cbn [delete_ptr_loop].
  destruct (Z.ltb_spec i (num sk)); cbn [negb].
  2:{ exists sk, NULL. split; [done|]. split; [done|]. split; [|done]. left. split; [done|]. split; [done|].
      replace i with (len (contents sk)) in Hp by lia. by rewrite ztake_all in Hp. }
  rewrite znth_at by lia. cbn [mbind option_bind]. assert (Ec : at_ (contents sk) i = at_ (data sk) i) by (apply at_ztake; lia).
  destruct (Z.eqb_spec (at_ (data sk) i) p) as [E|Hne].
  - destruct (delete_refines sk i Hok) as (sk' & v & Ed & Hok' & Hd & Hsrt); [lia|]. exists sk', v. split; [done|]. split; [done|].
    split; [|done]. right. exists i. split; [lia|]. split; [congruence|]. done.
  - apply IH; [lia | lia |].
    assert (Et : ztake (i + 1) (contents sk) = ztake i (contents sk) ++ [at_ (contents sk) i]).
    { apply list_eq_at; rewrite ?len_app, ?len_ztake by lia; [done|]. intros k Hk. rewrite at_ztake by lia.
      destruct (Z.eq_dec k i) as [->|]; [rewrite at_app_r, len_ztake, Z.sub_diag by (rewrite ?len_ztake; lia); done|].
      rewrite at_app_l, at_ztake by (rewrite ?len_ztake; lia). done. }
    rewrite Et, elem_of_app, list_elem_of_singleton, Ec. intros [?|?]; congruence.
Qed.

Lemma zdrop_cons (i : Z) (d : list Z) : 0 <= i < len d -> zdrop i d = at_ d i :: zdrop (i + 1) d.
Proof.
  intros Hi. unfold zdrop, at_, len in *. destruct (lookup_lt_is_Some_2 d (Z.to_nat i) ltac:(lia)) as [x Hx]. rewrite Hx.
  rewrite (drop_S d x (Z.to_nat i) Hx). cbn [default id]. do 2 f_equal. lia.
Qed.
Lemma zdrop_set i k v (d : list Z) : 0 <= k < i -> zdrop i (set_ k v d) = zdrop i d.
Proof. intros H. unfold zdrop, set_. rewrite drop_insert_lt by lia. done. Qed.

Lemma delete_if_loop_spec fuel f n d i k : (Z.to_nat (n - i) < fuel)%nat -> 0 <= k <= i -> i <= n -> n <= len d ->
  exists d' k', delete_if_loop fuel f n d i k = Some (d', k') /\ 0 <= k' <= n /\ len d' = len d /\
  ztake k' d' = ztake k d ++ filter (fun q => f q = false) (ztake (n - i) (zdrop i d)).
Proof.
  revert d i k. induction fuel as [|fuel IH]; intros d i k Hf Hk Hi Hn; [lia|]. cbn [delete_if_loop].
  destruct (Z.ltb_spec i n); cbn [negb].
  2:{ assert (i = n) as -> by lia. exists d, k. split; [done|]. split; [lia|]. split; [done|].
      rewrite Z.sub_diag, ztake_0. cbn. by rewrite app_nil_r. }
  rewrite znth_at by lia. cbn [mbind option_bind]. rewrite (zdrop_cons i d) by lia.
  assert (Et : ztake (n - i) (at_ d i :: zdrop (i + 1) d) = at_ d i :: ztake (n - (i + 1)) (zdrop (i + 1) d)).
  { unfold ztake. replace (Z.to_nat (n - i)) with (S (Z.to_nat (n - (i + 1)))) by lia. done. }
  rewrite Et. destruct (f (at_ d i)) eqn:E; cbn [negb].
  - destruct (IH d (i + 1) k) as (d' & k' & -> & Hk' & Hl & Hc); [lia..|]. exists d', k'. split; [done|]. split; [lia|]. split; [done|].
    rewrite Hc, filter_cons_False by congruence. done.
  - destruct (IH (zupd d k (at_ d i)) (i + 1) (k + 1)) as (d' & k' & -> & Hk' & Hl & Hc); [lia | lia | lia | rewrite len_zupd; lia |].
    exists d', k'. split; [done|]. split; [lia|]. split; [by rewrite Hl, len_zupd|].
    rewrite Hc, push_contents, filter_cons_True, zupd_set, zdrop_set, <- app_assoc by (done || lia). done.
Qed.

(** ** Every operation *)
Lemma sort_refines sk : stack_ok sk ->
  exists sk', OPENSSL_sk_sort call_cmp (Some sk) = Some (Some sk') /\ stack_ok sk' /\ comp sk' = comp sk /\ contents sk' ≡ₚ contents sk /\
  (forall c, comp sk = Some c -> sorted_ok sk -> StronglySorted (cmp_le call_cmp c) (contents sk')).
Proof.
  intros Hok. pose proof Hok as (Hn & Ha & Hl & Hs). unfold OPENSSL_sk_sort. destruct (comp sk) as [c|] eqn:Ec.
  2:{ exists sk. done. }
  destruct (sorted sk) eqn:Es.
  { exists sk. split; [done|]. split; [done|]. split; [done|]. split; [done|]. intros c' [= <-] Hso. by apply Hso. }
  destruct (Z.leb_spec 2 (num sk)).
  - destruct (sort_spec call_cmp c (cmp_sym c) (cmp_trans c) (data sk) (num sk)) as (d1 & d2 & E1 & E2 & Hsort & Hperm & Hlen); [lia..|].
    rewrite E1. cbn [mbind option_bind]. rewrite E2. cbn [mbind option_bind]. eexists. split; [reflexivity|].
    split; [unfold stack_ok; cbn [num data num_alloc]; split_and!; lia|]. split; [done|]. split; [done|]. intros c' [= <-] _. done.
  - exists (with_sorted sk true). split; [done|]. split; [done|]. split; [done|]. split; [done|]. intros c' _ _. unfold contents.
    cbn [num data with_sorted]. apply StronglySorted_at. rewrite len_ztake by lia. intros; lia.
Qed.

Lemma sk_step_refines o sk : stack_ok sk -> op_args_ok o -> refines o sk (sk_step o sk).
Proof.
  intros Hok Hargs. pose proof (len_contents sk Hok) as Hlen. pose proof Hok as (Hn & Ha & Hl & Hs). unfold refines.
  destruct o as [|i value|r p w|r p|w|p|f| | | |c]; cbn [sk_step list_step op_args_ok] in *.
  - unfold OPENSSL_sk_zero. destruct (Z.eqb_spec (num sk) 0) as [E|].
    + exists sk, 0. split; [done|]. split; [done|]. split; [|done]. unfold contents. by rewrite E, ztake_0.
    + eexists _, _. split; [reflexivity|]. split; [|split; [done | intros _ _ c E; cbn in E; congruence]].
      unfold stack_ok. cbn [num data num_alloc]. rewrite len_app, len_replicate, len_zdrop by lia. split_and!; unfold INT_MAX; lia.
  - unfold OPENSSL_sk_set. rewrite Hlen. destruct (Z.leb_spec (num sk) i), (Z.ltb_spec i (num sk)); try lia; [exists sk, NULL; done|].
    eexists _, _. split; [reflexivity|]. split; [unfold stack_ok; cbn [num data num_alloc with_data]; rewrite len_zupd; done|].
    split; [|intros _ Hno; by destruct (Hno i value)]. split; [|done]. unfold contents. cbn [num data with_data]. rewrite zupd_set by lia.
    unfold ztake, set_. by rewrite take_insert_lt by lia.
  - destruct (insert_refines r sk p w Hok Hargs) as (sk' & v & -> & Hok' & Hi & Hso). exists sk', v. auto.
  - unfold OPENSSL_sk_push. cbn [mbind option_bind]. destruct (insert_refines r sk p (num sk) Hok) as (sk' & v & -> & Hok' & Hi & Hso); [lia|].
    exists sk', v. rewrite Hlen. auto.
  - destruct (delete_refines sk w Hok Hargs) as (sk' & v & -> & Hok' & Hi & Hso). exists sk', v. auto.
  - destruct (delete_ptr_refines (S (Z.to_nat (num sk))) sk p 0 Hok) as (sk' & v & E & Hok' & Hi & Hso); [lia | lia | rewrite ztake_0; apply not_elem_of_nil |].
    unfold OPENSSL_sk_delete_ptr. rewrite E. exists sk', v. auto.
  - unfold OPENSSL_sk_delete_if. destruct (delete_if_loop_spec (S (Z.to_nat (num sk))) f (num sk) (data sk) 0 0) as (d & k & -> & Hk & Hd & Hc); [lia..|].
    rewrite ztake_0, zdrop_0, Z.sub_0_r in Hc. cbn [app] in Hc. cbn [mbind option_bind]. eexists _, _. split; [reflexivity|].
    split; [unfold stack_ok; cbn [num data num_alloc]; split_and!; lia|]. split; [exact Hc|]. intros Hso _. apply sorted_sublist; [|done].
    rewrite Hc. apply filter_sublist.
  - unfold OPENSSL_sk_shift, list_delete. rewrite Hlen. destruct (Z.eqb_spec (num sk) 0) as [E|].
    + exists sk, NULL. rewrite E. split; [done|]. split; [done|]. split; [done|]. done.
    + destruct (delete_refines sk 0 Hok) as (sk' & v & -> & Hok' & Hi & Hso); [lia|]. exists sk', v. unfold list_delete in Hi. rewrite Hlen in Hi. auto.
  - unfold OPENSSL_sk_pop. rewrite Hlen. destruct (Z.eqb_spec (num sk) 0) as [E|]; [by exists sk, NULL|].
    destruct (delete_refines sk (num sk - 1) Hok) as (sk' & v & -> & Hok' & Hi & Hso); [lia|]. exists sk', v. auto.
  - destruct (sort_refines sk Hok) as (sk' & -> & Hok' & Hc & Hp & Hso). cbn [mbind option_bind]. exists sk', 0. split; [done|]. split; [done|]. split; [done|].
    intros Hs' _ c Hsorted Hcomp. apply Hso; [congruence | done].
  - eexists _, _. split; [reflexivity|]. split; [done|]. split; [done|]. intros Hso _ c' Hsorted Hcomp.
    cbn [OPENSSL_sk_set_cmp_func fst sorted comp] in Hsorted, Hcomp. case_decide as E; [|done]. subst. by apply Hso.
Qed.

(** A sequence of operations and the values they return. *)
Fixpoint sk_run (os : list sk_op) (sk : stack_st) : option (stack_st * list Z) :=
  match os with
  | [] => Some (sk, [])
  | o :: os => '(sk, v) ← sk_step o sk; '(sk, vs) ← sk_run os sk; Some (sk, v :: vs)
  end.
(** The same sequence on lists; the stack tells the comparison function and the room. *)
Inductive list_run : list sk_op -> stack_st -> list Z -> list Z -> list Z -> Prop :=
| run_nil sk l : list_run [] sk l l []
| run_cons o os sk sk1 v vs l l1 l2 :
    sk_step o sk = Some (sk1, v) -> list_step o sk l l1 v -> list_run os sk1 l1 l2 vs -> list_run (o :: os) sk l l2 (v :: vs).

Lemma sk_run_refines os sk : stack_ok sk -> Forall op_args_ok os ->
  exists sk' vs, sk_run os sk = Some (sk', vs) /\ stack_ok sk' /\ list_run os sk (contents sk) (contents sk') vs /\
  (sorted_ok sk -> Forall (fun o => forall i x, o <> Op_set i x) os -> sorted_ok sk').
Proof.
  intros Hok Hargs. revert sk Hok. induction Hargs as [|o os Ho _ IH]; intros sk Hok.
  { exists sk, []. split; [done|]. split; [done|]. split; [constructor | done]. }
  destruct (sk_step_refines o sk Hok Ho) as (sk1 & v & E & Hok1 & Hl & Hs). destruct (IH sk1 Hok1) as (sk2 & vs & E2 & Hok2 & Hl2 & Hs2).
  exists sk2, (v :: vs). cbn [sk_run]. rewrite E. cbn [mbind option_bind]. rewrite E2. split; [done|]. split; [done|]. split; [by econstructor|].
  intros Hso Hno. inversion Hno; subst. auto.
Qed.

(** C33: a stack is a list. From OPENSSL_sk_new, every sequence of operations runs
    without undefined behaviour, whatever the allocator answers, and each
    operation does to the contents what it says: insertion and deletion at an
    index (insertion may fail, leaving the stack as it was), deletion of the
    first occurrence of a pointer, filtering, sorting into a permutation in
    ascending order. The stack is never longer than INT_MAX, and its [sorted]
    flag tells the truth as long as OPENSSL_sk_set is not used. *)
Theorem OPENSSL_sk_refines_list c os :
  Forall op_args_ok os ->
  exists sk sk' vs, OPENSSL_sk_new true true c = Some sk /\ sk_run os sk = Some (sk', vs) /\
  list_run os sk [] (contents sk') vs /\ 0 <= len (contents sk') <= INT_MAX /\
  (Forall (fun o => forall i x, o <> Op_set i x) os -> sorted_ok sk').
Proof.
  intros Hargs. set (sk := mk_stack 0 (replicate (Z.to_nat kMinSize) NULL) false kMinSize c).
  assert (Hok : stack_ok sk).
  { unfold stack_ok, sk, kMinSize, INT_MAX. cbn [num data num_alloc]. rewrite len_replicate. pose proof sizeof_ptr_cases as [[-> ->]|[-> ->]]; lia. }
  destruct (sk_run_refines os sk Hok Hargs) as (sk' & vs & E & Hok' & Hl & Hs). exists sk, sk', vs. split; [done|]. split; [done|]. split; [done|].
  split; [rewrite len_contents by done; apply Hok'|]. apply Hs. intros c' H. done.
Qed.

(** ** Searching *)
Lemma find_refines sk p : stack_ok sk -> sorted_ok sk ->
  exists r, OPENSSL_sk_find call_cmp (Some sk) p = Some r /\
  match comp sk with
  | None => first_match (fun q => q =? p) (contents sk) 0 (num sk) r
  | Some c => if p =? NULL then r = None else first_match (fun q => call_cmp c p q =? 0) (contents sk) 0 (num sk) r
  end.
Proof.
  intros Hok Hso. pose proof Hok as (Hn & Ha & Hl & Hs). unfold OPENSSL_sk_find.
  assert (Hfm : forall m r, first_match m (data sk) 0 (num sk) r -> first_match m (contents sk) 0 (num sk) r).
  { intros m [k|] Hm; unfold first_match, contents in *.
    - destruct Hm as (Hk & Hm & Hj). rewrite at_ztake by lia. split; [done|]. split; [done|]. intros j Hj'. rewrite at_ztake by lia. auto.
    - intros j Hj. rewrite at_ztake by lia. auto. }
  destruct (comp sk) as [c|] eqn:Ec.
  2:{ destruct (find_linear_spec (S (Z.to_nat (num sk))) (fun q => q =? p) (num sk) (data sk) 0) as (r & -> & Hr); [lia..|]. eauto. }
  destruct (Z.eqb_spec p NULL); [by exists None|].
  destruct (OPENSSL_sk_is_sorted (Some sk)) eqn:Es; cbn [negb].
  2:{ destruct (find_linear_spec (S (Z.to_nat (num sk))) (fun q => call_cmp c p q =? 0) (num sk) (data sk) 0) as (r & -> & Hr); [lia..|]. eauto. }
  assert (Hsort : forall a b, 0 <= a < b -> b < num sk -> cmp_le call_cmp c (at_ (data sk) a) (at_ (data sk) b)).
  { intros a b Hab Hb. unfold OPENSSL_sk_is_sorted in Es. rewrite Ec in Es. apply orb_true_iff in Es as [Es|Es].
    - pose proof (Hso c Es Ec) as Hss. rewrite <- (StronglySorted_at call_cmp c) in Hss. specialize (Hss a b).
      rewrite len_contents in Hss by done. unfold contents in Hss. rewrite !at_ztake in Hss by lia. apply Hss; lia.
    - cbn [andb] in Es. apply Z.ltb_lt in Es. lia. }
  destruct (find_binary_spec call_cmp c (cmp_sym c) (cmp_trans c) p (num sk) (data sk) ltac:(lia) ltac:(lia) Hsort (S (Z.to_nat (num sk))) 0 (num sk))
    as (r & -> & Hr); [lia.. | intros; lia | left; intros; lia |]. eauto.
Qed.
End Refinement.

(** * Copies *)

(** The copies of the entries of [l], whose first index is [i]: NULL stays NULL. *)
Fixpoint copies (copy : Z -> Z -> Z) (i : Z) (l : list Z) : list Z :=
  match l with [] => [] | p :: l => (if p =? NULL then NULL else copy i p) :: copies copy (i + 1) l end.
(** The copy of an entry fails. *)
Definition copy_fails (copy : Z -> Z -> Z) (l : list Z) (i : Z) : Prop :=
  0 <= i < len l /\ at_ l i <> NULL /\ copy i (at_ l i) = NULL.

Lemma len_copies copy i l : len (copies copy i l) = len l.
Proof. revert i. induction l as [|p l IH]; intros i; [done|]. cbn [copies]. by rewrite !len_cons, IH. Qed.
Lemma at_copies copy i l k : 0 <= k < len l -> at_ (copies copy i l) k = if at_ l k =? NULL then NULL else copy (i + k) (at_ l k).
Proof.
  revert i k. induction l as [|p l IH]; intros i k Hk; [change (len (@nil Z)) with 0 in Hk; lia|]. rewrite len_cons in Hk. cbn [copies].
  destruct (Z.eq_dec k 0) as [->|]; [rewrite Z.add_0_r; done|]. rewrite !at_cons, IH by lia. replace (i + 1 + (k - 1)) with (i + k) by lia. done.
Qed.

(** The result of copying the list [l] into an array of [m] entries. *)
Definition copy_result (copy : Z -> Z -> Z) (l : list Z) (n m : Z) (o : option (list Z)) (freed : list Z) : Prop :=
  match o with
  | Some d' => freed = [] /\ len d' = m /\ ztake n d' = copies copy 0 l /\ (forall k, ~ copy_fails copy l k)
  | None => exists k, copy_fails copy l k /\ (forall j, 0 <= j < k -> ~ copy_fails copy l j) /\
            freed = filter (fun p => p <> NULL) (copies copy 0 (ztake k l))
  end.

Lemma deep_copy_loop_spec fuel copy n d l i : (Z.to_nat (n - i) < fuel)%nat -> 0 <= i <= n -> len l = n -> n <= len d ->
  (forall k, 0 <= k < i -> at_ d k = at_ (copies copy 0 l) k /\ ~ copy_fails copy l k) -> (forall k, i <= k < n -> at_ d k = at_ l k) ->
  exists o freed, deep_copy_loop fuel copy n d i = Some (o, freed) /\ copy_result copy l n (len d) o freed.
Proof.
  revert d i. induction fuel as [|fuel IH]; intros d i Hf Hi Hl Hn Hdone Hrest; [lia|]. cbn [deep_copy_loop].
  destruct (Z.ltb_spec i n); cbn [negb].
  2:{ assert (i = n) as -> by lia. exists (Some d), []. split; [done|]. split; [done|]. split; [done|]. split.
      - apply list_eq_at; rewrite len_ztake, ?len_copies by lia; [lia|]. intros k Hk. rewrite at_ztake by lia. by apply Hdone.
      - intros k Hk. pose proof Hk as (? & _). destruct (Hdone k) as [_ Hno]; [lia | done]. }
  rewrite znth_at by lia. cbn [mbind option_bind]. rewrite Hrest by lia.
  assert (Hstep : forall q, (forall k, 0 <= k < i + 1 -> at_ (zupd d i q) k = at_ (copies copy 0 l) k /\ ~ copy_fails copy l k) ->
            exists o freed, deep_copy_loop fuel copy n (zupd d i q) (i + 1) = Some (o, freed) /\ copy_result copy l n (len d) o freed).
  { intros q Hq. rewrite <- (len_zupd d i q). apply IH; [lia | lia | done | rewrite len_zupd; lia | done |].
    intros k Hk. rewrite zupd_set, at_set by lia. destruct (Z.eqb_spec i k); [lia|]. apply Hrest. lia. }
  destruct (Z.eqb_spec (at_ l i) NULL) as [E0|Hne].
  - assert (Ez : zupd d i NULL = d).
    { rewrite zupd_set by lia. apply list_eq_at; [by rewrite len_set|]. rewrite len_set. intros k Hk. rewrite at_set by lia.
      destruct (Z.eqb_spec i k) as [<-|]; [|done]. by rewrite Hrest by lia. }
    specialize (Hstep NULL). rewrite Ez in Hstep. apply Hstep. intros k Hk. destruct (Z.eq_dec k i) as [->|]; [|apply Hdone; lia].
    rewrite at_copies, Hrest, E0 by lia. split; [done|]. intros (_ & Hx & _). done.
  - destruct (Z.eqb_spec (copy i (at_ l i)) NULL) as [Ef|Hok].
    + eexists None, _. split; [reflexivity|]. exists i. split; [split; [lia | done]|]. split; [intros j Hj; apply Hdone; lia|].
      f_equal. apply list_eq_at; rewrite ?len_copies, !len_ztake by (rewrite ?len_zupd; lia); [done|].
      intros k Hk. rewrite at_copies, !at_ztake, zupd_set, at_set by (rewrite ?len_ztake; lia). destruct (Z.eqb_spec i k); [lia|].
      destruct (Hdone k) as [-> _]; [lia|]. rewrite at_copies by lia. done.
    + apply Hstep. intros k Hk. rewrite zupd_set, at_set by lia. destruct (Z.eqb_spec i k) as [<-|]; [|apply Hdone; lia].
      rewrite at_copies by lia. destruct (Z.eqb_spec (at_ l i) NULL); [done|]. split; [done|]. intros (_ & _ & Hx). done.
Qed.

(** OPENSSL_sk_deep_copy copies every entry other than NULL, in order, and the
    copy keeps the comparison function and the sorted mark. If the copy of an
    entry fails the result is NULL, and every copy made before it has been freed,
    once, and nothing else. *)
Theorem OPENSSL_sk_deep_copy_correct `{P : Platform} ok1 ok2 copy sk :
  stack_ok sk ->
  exists o freed, OPENSSL_sk_deep_copy ok1 ok2 copy (Some sk) = Some (o, freed) /\
  match o with
  | Some sk' => freed = [] /\ stack_ok sk' /\ contents sk' = copies copy 0 (contents sk) /\ sorted sk' = sorted sk /\ comp sk' = comp sk /\
                (forall k, ~ copy_fails copy (contents sk) k)
  | None => (ok1 && ok2 = false /\ freed = []) \/
            (exists k, copy_fails copy (contents sk) k /\ (forall j, 0 <= j < k -> ~ copy_fails copy (contents sk) j) /\
             freed = filter (fun p => p <> NULL) (copies copy 0 (ztake k (contents sk))))
  end.
Proof.
  intros Hok. pose proof (len_contents sk Hok) as Hlen. pose proof Hok as (Hn & Ha & Hl & Hs). unfold OPENSSL_sk_deep_copy, OPENSSL_sk_dup.
  destruct ok1, ok2; cbn [negb]; try (exists None, []; split; [done | by left]). cbn [num data].
  destruct (deep_copy_loop_spec (S (Z.to_nat (num sk))) copy (num sk) (data sk) (contents sk) 0) as (o & freed & -> & Ho); [lia.. | |].
  { intros k Hk. unfold contents. by rewrite at_ztake by lia. }
  cbn [mbind option_bind]. destruct o as [d|].
  - destruct Ho as (-> & Hd & Hc & Hno). eexists (Some _), []. split; [reflexivity|]. split; [done|].
    split; [unfold stack_ok; cbn [with_data num data num_alloc]; split_and!; lia|]. done.
  - exists None, freed. split; [done|]. by right.
Qed.

Lemma OPENSSL_sk_deep_copy_witness :
  let sk := mk_stack 3 [7; 0; 9; 0] true 4 None in
  @stack_ok LP64 sk /\ exists o freed, OPENSSL_sk_deep_copy true true (fun i p => if i =? 2 then 0 else p + 100) (Some sk) = Some (o, freed) /\ freed = [107].
Proof.
  intros sk. assert (Hok : @stack_ok LP64 sk) by (unfold stack_ok; vm_compute; split_and!; done || congruence). split; [exact Hok|].
  destruct (@OPENSSL_sk_deep_copy_correct LP64 true true (fun i p => if i =? 2 then 0 else p + 100) sk Hok) as (o & freed & E & _).
  exists o, freed. split; [exact E|]. vm_compute in E. by injection E as <- <-.
Defined.

(** A comparison of the pointers themselves. *)
Definition cmp_ptr (_ : nat) (p q : Z) : Z := p - q.

(** C39: OPENSSL_sk_find returns the index of the first entry that matches, and
    nothing only if there is none: by pointer equality, by a linear search with the
    comparison function, or by binary search when the stack is marked sorted,
    provided the mark is true. OPENSSL_sk_set does not clear the mark: after it a
    search can miss an entry that is in the stack. *)
Theorem OPENSSL_sk_find_first `{P : Platform} call_cmp sk p :
  (forall c p q, Z.sgn (call_cmp c q p) = - Z.sgn (call_cmp c p q)) ->
  (forall c p q r, call_cmp c p q <= 0 -> call_cmp c q r <= 0 -> call_cmp c p r <= 0) ->
  stack_ok sk -> sorted_ok call_cmp sk ->
  (exists r, OPENSSL_sk_find call_cmp (Some sk) p = Some r /\
   match comp sk with
   | None => first_match (fun q => q =? p) (contents sk) 0 (num sk) r
   | Some c => if p =? NULL then r = None else first_match (fun q => call_cmp c p q =? 0) (contents sk) 0 (num sk) r
   end) /\
  (exists sk1 sk2, sk_run cmp_ptr [Op_push None 1; Op_push None 2; Op_sort; Op_set 0 3] (mk_stack 0 [0; 0; 0; 0] false 4 (Some 0%nat)) = Some (sk1, [1; 2; 0; 3]) /\
   contents sk1 = [3; 2] /\ OPENSSL_sk_find cmp_ptr (Some sk1) 2 = Some None /\
   sk2 = with_sorted sk1 false /\ OPENSSL_sk_find cmp_ptr (Some sk2) 2 = Some (Some 1)).
Proof.
  intros Hsym Htrans Hok Hso. split; [by apply find_refines|].
  exists (mk_stack 2 [3; 2; 0; 0] true 4 (Some 0%nat)), (mk_stack 2 [3; 2; 0; 0] false 4 (Some 0%nat)).
  clear. destruct P as [sb [-> | ->]]; vm_compute; split_and!; reflexivity.
Qed.

Lemma OPENSSL_sk_find_first_witness : exists r,
  @OPENSSL_sk_find LP64 cmp_ptr (Some (mk_stack 3 [1; 5; 5; 0] true 4 (Some 0%nat))) 5 = Some r /\
  first_match (fun q => cmp_ptr 0 5 q =? 0) [1; 5; 5] 0 3 r.
Proof.
  refine (proj1 (@OPENSSL_sk_find_first LP64 cmp_ptr (mk_stack 3 [1; 5; 5; 0] true 4 (Some 0%nat)) 5 _ _ _ _)); unfold cmp_ptr.
  - intros; lia.
  - intros; lia.
  - unfold stack_ok; cbn; unfold INT_MAX; vm_compute; split_and!; done || congruence.
  - intros c _ [= <-]. repeat constructor; unfold cmp_le; lia.
Defined.

Lemma OPENSSL_sk_refines_list_witness : exists sk sk' vs,
  OPENSSL_sk_new true true (Some 0%nat) = Some sk /\ @sk_run LP64 cmp_ptr [Op_push None 7; Op_push None 5; Op_sort] sk = Some (sk', vs) /\
  contents sk' = [5; 7] /\ 0 <= len (contents sk') <= INT_MAX.
Proof.
  assert (Hs : forall c p q, Z.sgn (cmp_ptr c q p) = - Z.sgn (cmp_ptr c p q)) by (unfold cmp_ptr; intros; lia).
  assert (Ht : forall c p q r, cmp_ptr c p q <= 0 -> cmp_ptr c q r <= 0 -> cmp_ptr c p r <= 0) by (unfold cmp_ptr; intros; lia).
  destruct (@OPENSSL_sk_refines_list LP64 cmp_ptr Hs Ht (Some 0%nat) [Op_push None 7; Op_push None 5; Op_sort]) as (sk & sk' & vs & E1 & E2 & _ & Hl & _);
    [repeat constructor|].
  exists sk, sk', vs. split; [exact E1|]. split; [exact E2|]. split; [|exact Hl]. injection E1 as <-. vm_compute in E2. injection E2 as <- _. reflexivity.
Defined.
