(* ===== verification/LHash.v ===== *)
(** Hash tables: crypto/lhash/lhash.cc.

    A pointer is an integer, 0 for NULL; the hash and comparison functions of the
    table are parameters. A chain of items is a list, and a pointer to a [next]
    field is the position in the chain between the items before it and those after. *)
From S2P Require Import Prelude.

Open Scope Z_scope.

Definition kMinNumBuckets : Z := 16.
Definition kMaxAverageChainLength : Z := 2.
Definition kMinAverageChainLength : Z := 1.
Definition UINT_MAX : Z := 2 ^ 32 - 1.

Record lhash_item_st := mk_item { i_data : Z; i_hash : Z }.
Record lhash_st := mk_lhash {
  num_items : Z;
  buckets : list (list lhash_item_st);
  num_buckets : Z;
  callback_depth : Z;
}.

Section LHash.
Context `{P : Platform}.
Variable hash : Z -> Z.
Variable cmp : Z -> Z -> Z.

Definition sizeof_item_ptr : Z := size_bits / 8.

(** The arguments tell whether each of the two allocations succeeds. *)
Definition OPENSSL_lh_new (ok1 ok2 : bool) : option lhash_st :=
  if negb ok1 then None
  else if negb ok2 then None
  else Some (mk_lhash 0 (replicate (Z.to_nat kMinNumBuckets) []) kMinNumBuckets 0).

Definition OPENSSL_lh_num_items (lh : lhash_st) : Z := num_items lh.

(** The walk of a chain: the items passed and those from the match on. *)
Fixpoint chain_find (matches : Z -> bool) (chain : list lhash_item_st) : list lhash_item_st * list lhash_item_st :=
  match chain with
  | [] => ([], [])
  | cur :: next =>
    if matches (i_data cur) then ([], chain)
    else let '(before, from) := chain_find matches next in (cur :: before, from)
  end.

(** The bucket and the position in it; an index past the array is undefined. *)
Definition get_next_ptr (lh : lhash_st) (h : Z) (matches : Z -> bool) : option (Z * list lhash_item_st * list lhash_item_st) :=
  let b := h mod num_buckets lh in
  chain ← znth (buckets lh) b;
  let '(before, from) := chain_find matches chain in
  Some (b, before, from).
Definition get_next_ptr_and_hash (lh : lhash_st) (data : Z) : option (Z * list lhash_item_st * list lhash_item_st) :=
  get_next_ptr lh (hash data) (fun d => cmp d data =? 0).
Definition get_next_ptr_by_key (lh : lhash_st) (key key_hash : Z) (cmp_key : Z -> Z -> Z) : option (Z * list lhash_item_st * list lhash_item_st) :=
  get_next_ptr lh key_hash (fun d => cmp_key key d =? 0).

Definition data_of (from : list lhash_item_st) : Z := match from with [] => 0 | item :: _ => i_data item end.

Definition OPENSSL_lh_retrieve (lh : lhash_st) (data : Z) : option Z :=
  '(_, _, from) ← get_next_ptr_and_hash lh data; Some (data_of from).
Definition OPENSSL_lh_retrieve_key (lh : lhash_st) (key key_hash : Z) (cmp_key : Z -> Z -> Z) : option Z :=
  '(_, _, from) ← get_next_ptr_by_key lh key key_hash cmp_key; Some (data_of from).

(** Writing through the pointer to the [next] field. *)
Definition set_next (lh : lhash_st) (b : Z) (before from : list lhash_item_st) : lhash_st :=
  mk_lhash (num_items lh) (zupd (buckets lh) b (before ++ from)) (num_buckets lh) (callback_depth lh).

(** [ok] tells whether the allocation of the new array succeeds. *)
Definition lh_rebucket (ok : bool) (lh : lhash_st) (new_num_buckets : Z) : lhash_st :=
  let alloc_size := wrap size_bits (sizeof_item_ptr * new_num_buckets) in
  if negb (alloc_size / sizeof_item_ptr =? new_num_buckets) then lh
  else if negb ok then lh
  else
    let new_buckets :=
      fold_left (fun nb item => alter (cons item) (Z.to_nat (i_hash item mod new_num_buckets)) nb)
        (concat (buckets lh)) (replicate (Z.to_nat new_num_buckets) []) in
    mk_lhash (num_items lh) new_buckets new_num_buckets (callback_depth lh).

Definition lh_maybe_resize (ok : bool) (lh : lhash_st) : lhash_st :=
  if 0 <? callback_depth lh then lh
  else
    let avg_chain_length := num_items lh / num_buckets lh in
    if kMaxAverageChainLength <? avg_chain_length then
      let new_num_buckets := wrap size_bits (num_buckets lh * 2) in
      if num_buckets lh <? new_num_buckets then lh_rebucket ok lh new_num_buckets else lh
    else if (avg_chain_length <? kMinAverageChainLength) && (kMinNumBuckets <? num_buckets lh) then
      let new_num_buckets := num_buckets lh / 2 in
      let new_num_buckets := if new_num_buckets <? kMinNumBuckets then kMinNumBuckets else new_num_buckets in
      lh_rebucket ok lh new_num_buckets
    else lh.

(** The table, the return value and [*old_data]; [ok1] is the allocation of an
    item and [ok2] that of an array of buckets, if they happen. *)
Definition OPENSSL_lh_insert (ok1 ok2 : bool) (lh : lhash_st) (data : Z) : option (lhash_st * Z * Z) :=
  '(b, before, from) ← get_next_ptr_and_hash lh data;
  match from with
  | item :: next => Some (set_next lh b before (mk_item data (i_hash item) :: next), 1, i_data item)
  | [] =>
    if negb ok1 then Some (lh, 0, 0)
    else
      let lh := set_next lh b before [mk_item data (hash data)] in
      let lh := mk_lhash (wrap size_bits (num_items lh + 1)) (buckets lh) (num_buckets lh) (callback_depth lh) in
      Some (lh_maybe_resize ok2 lh, 1, 0)
  end.

Definition OPENSSL_lh_delete (ok : bool) (lh : lhash_st) (data : Z) : option (lhash_st * Z) :=
  '(b, before, from) ← get_next_ptr_and_hash lh data;
  match from with
  | [] => Some (lh, 0)
  | item :: next =>
    let lh := set_next lh b before next in
    let lh := mk_lhash (wrap size_bits (num_items lh - 1)) (buckets lh) (num_buckets lh) (callback_depth lh) in
    Some (lh_maybe_resize ok lh, i_data item)
  end.

(** [func] does not change the table: the result is the table after the walk and
    the entries [func] was called with, in order. *)
Definition OPENSSL_lh_doall_arg (ok : bool) (lh : lhash_st) : lhash_st * list Z :=
  let with_depth lh d := mk_lhash (num_items lh) (buckets lh) (num_buckets lh) d in
  let lh := if callback_depth lh <? UINT_MAX then with_depth lh (callback_depth lh + 1) else lh in
  let visited := map i_data (concat (buckets lh)) in
  let lh := if callback_depth lh <? UINT_MAX then with_depth lh (callback_depth lh - 1) else lh in
  (lh_maybe_resize ok lh, visited).
End LHash.

(** * Properties *)

(** An operation, with the answers of the allocator. *)
Inductive lh_op :=
| Lh_insert (ok1 ok2 : bool) (data : Z)
| Lh_delete (ok : bool) (data : Z)
| Lh_retrieve (data : Z)
| Lh_doall (ok : bool).

Section Map.
Context `{P : Platform}.
Variable hash : Z -> Z.
Variable cmp : Z -> Z -> Z.
(** The functions given to OPENSSL_lh_new: an equality, and a 32-bit hash that respects it. *)
Hypothesis cmp_refl : forall a, cmp a a = 0.
Hypothesis cmp_sym : forall a b, cmp a b = 0 -> cmp b a = 0.
Hypothesis cmp_trans : forall a b c, cmp a b = 0 -> cmp b c = 0 -> cmp a c = 0.
Hypothesis hash_cmp : forall a b, cmp a b = 0 -> hash a = hash b.
Hypothesis hash_range : forall a, 0 <= hash a < 2 ^ 32.

(** An operation of the code and the values it returns. *)
Definition lh_step (o : lh_op) (lh : lhash_st) : option (lhash_st * list Z) :=
  match o with
  | Lh_insert ok1 ok2 d => '(lh, r, old) ← OPENSSL_lh_insert hash cmp ok1 ok2 lh d; Some (lh, [r; old])
  | Lh_delete ok d => '(lh, r) ← OPENSSL_lh_delete hash cmp ok lh d; Some (lh, [r])
  | Lh_retrieve d => r ← OPENSSL_lh_retrieve hash cmp lh d; Some (lh, [r])
  | Lh_doall ok => Some (OPENSSL_lh_doall_arg ok lh)
  end.

(** A list of entries of which no two are equal is a finite map. *)
Definition lookup_eq (m : list Z) (x : Z) : option Z := List.find (fun e => cmp e x =? 0) m.
Definition remove_eq (m : list Z) (x : Z) : list Z := filter (fun e => cmp e x <> 0) m.
Definition distinct (m : list Z) : Prop := ForallOrdPairs (fun a b => cmp a b <> 0) m.
Definition old_value (m : list Z) (x : Z) : Z := default 0 (lookup_eq m x).

Definition map_step (o : lh_op) (m : list Z) (r : list Z) (m' : list Z) : Prop :=
  match o with
  | Lh_insert ok1 _ d =>
      if negb ok1 && (if lookup_eq m d then false else true) then r = [0; 0] /\ m' = m
      else r = [1; old_value m d] /\ m' = d :: remove_eq m d
  | Lh_delete _ d => r = [old_value m d] /\ m' = remove_eq m d
  | Lh_retrieve d => r = [old_value m d] /\ m' = m
  | Lh_doall _ => r ≡ₚ m /\ m' = m
  end.

(** A table represents a map: its entries are those of the map, each in its bucket. *)
Definition placed (n : Z) (bs : list (list lhash_item_st)) : Prop :=
  len bs = n /\ forall b chain it, znth bs b = Some chain -> it ∈ chain -> i_hash it = hash (i_data it) /\ i_hash it mod n = b.
Definition represents (lh : lhash_st) (m : list Z) : Prop :=
  map i_data (concat (buckets lh)) ≡ₚ m /\ distinct m /\ placed (num_buckets lh) (buckets lh) /\
  num_items lh = len m /\ len m < 2 ^ size_bits /\ kMinNumBuckets <= num_buckets lh < 2 ^ size_bits /\ callback_depth lh = 0.

(** ** Maps as lists *)
Lemma distinct_cons a m : distinct (a :: m) <-> (forall e, e ∈ m -> cmp a e <> 0) /\ distinct m.
Proof.
  unfold distinct. split.
  - intros H. inversion H as [|? ? Ha Hm]; subst. split; [|done]. intros e He. rewrite List.Forall_forall in Ha. apply Ha. by apply list_elem_of_In.
  - intros [Ha Hm]. constructor; [|done]. apply List.Forall_forall. intros e He. apply Ha. by apply list_elem_of_In.
Qed.
Lemma distinct_perm m m' : m ≡ₚ m' -> distinct m -> distinct m'.
Proof.
  induction 1 as [|a l l' Hp IH|a b l|l l' l'' _ IH1 _ IH2]; [done | | | auto].
  - rewrite !distinct_cons. intros [Ha Hl]. split; [|auto]. intros e He. apply Ha. by rewrite Hp.
  - rewrite !distinct_cons. intros (Hb & Ha & Hl). split; [|split; [|done]].
    + intros e [->|He]%elem_of_cons; [|by apply Ha]. intros Hc. apply (Hb a); [by left | by apply cmp_sym].
    + intros e He. apply Hb. by right.
Qed.

Lemma lookup_eq_Some m x e : distinct m -> lookup_eq m x = Some e <-> e ∈ m /\ cmp e x = 0.
Proof.
  intros Hd. split.
  - intros H. apply List.find_some in H as [Hin Hc]. split; [by apply list_elem_of_In | by apply Z.eqb_eq].
  - induction m as [|a m IH]; [intros [[]%not_elem_of_nil _]|]. apply distinct_cons in Hd as [Ha Hm]. intros [[->|He]%elem_of_cons Hc]; cbn [lookup_eq List.find].
    + rewrite Hc. done.
    + destruct (Z.eqb_spec (cmp a x) 0) as [Hax|]; [|by apply IH].
      destruct (Ha e He). apply (cmp_trans _ x); [done | by apply cmp_sym].
Qed.
Lemma lookup_eq_None m x : lookup_eq m x = None <-> forall e, e ∈ m -> cmp e x <> 0.
Proof.
  split.
  - intros H e He Hc. pose proof (List.find_none _ _ H e ltac:(by apply list_elem_of_In)) as Hn. cbn in Hn. by rewrite Hc in Hn.
  - intros H. destruct (lookup_eq m x) as [e|] eqn:E; [|done]. apply List.find_some in E as [Hin Hc]. apply Z.eqb_eq in Hc.
    destruct (H e); [by apply list_elem_of_In | done].
Qed.

Lemma remove_eq_none m x : (forall e, e ∈ m -> cmp e x <> 0) -> remove_eq m x = m.
Proof.
  intros H. unfold remove_eq. induction m as [|a m IH]; [done|]. rewrite filter_cons_True by (apply H; by left).
  f_equal. apply IH. intros e He. apply H. by right.
Qed.
(** Removing the equal entry of a map. *)
Lemma remove_eq_perm m x e m' : distinct m -> m ≡ₚ e :: m' -> cmp e x = 0 -> remove_eq m x ≡ₚ m'.
Proof.
  intros Hd Hp He. unfold remove_eq. rewrite Hp, filter_cons_False by tauto.
  apply (distinct_perm _ _ Hp), distinct_cons in Hd as [Hd _]. fold (remove_eq m' x). rewrite remove_eq_none; [done|].
  intros e' He' Hc. apply (Hd e' He'). apply (cmp_trans _ x); [done | by apply cmp_sym].
Qed.
Lemma distinct_remove m x : distinct m -> distinct (remove_eq m x).
Proof.
  unfold remove_eq. induction m as [|a m IH]; [done|]. intros [Ha Hm]%distinct_cons. rewrite filter_cons. case_decide; [|auto].
  apply distinct_cons. split; [|auto]. intros e [_ He]%list_elem_of_filter. auto.
Qed.
Lemma distinct_insert m x : distinct m -> distinct (x :: remove_eq m x).
Proof.
  intros Hm. apply distinct_cons. split; [|by apply distinct_remove]. intros e [Hne _]%list_elem_of_filter Hc. apply Hne. by apply cmp_sym.
Qed.

(** ** Chains and buckets *)
Lemma chain_find_spec matches chain before from : chain_find matches chain = (before, from) ->
  chain = before ++ from /\ (forall it, it ∈ before -> matches (i_data it) = false) /\
  (forall it next, from = it :: next -> matches (i_data it) = true).
Proof.
  revert before from. induction chain as [|cur next IH]; intros before from E; cbn [chain_find] in E.
  { injection E as <- <-. split; [done|]. split; [intros it []%not_elem_of_nil | done]. }
  destruct (matches (i_data cur)) eqn:Em.
  - injection E as <- <-. split; [done|]. split; [intros it []%not_elem_of_nil|]. intros it n [= <- <-]. done.
  - destruct (chain_find matches next) as [b f] eqn:Ef. injection E as <- <-. destruct (IH b f eq_refl) as (-> & Hb & Hf).
    split; [done|]. split; [|done]. intros it [->|Hit]%elem_of_cons; auto.
Qed.

Lemma concat_split {A} (bs : list (list A)) i chain : bs !! i = Some chain -> concat bs ≡ₚ chain ++ (concat (take i bs) ++ concat (drop (S i) bs)).
Proof.
  intros H. rewrite <- (take_drop_middle bs i chain H) at 1. rewrite concat_app. cbn [concat]. rewrite !app_assoc.
  apply Permutation_app_tail. apply Permutation_app_comm.
Qed.
Lemma concat_insert {A} (bs : list (list A)) i chain chain' : bs !! i = Some chain ->
  concat (<[i := chain']> bs) ≡ₚ chain' ++ (concat (take i bs) ++ concat (drop (S i) bs)).
Proof.
  intros H. pose proof (lookup_lt_Some _ _ _ H). rewrite (concat_split (<[i := chain']> bs) i chain') by (by apply list_lookup_insert_eq).
  rewrite take_insert_ge, drop_insert_lt by lia. done.
Qed.
Lemma elem_of_buckets bs it : it ∈ concat bs <-> exists (b : Z) (chain : list lhash_item_st), znth bs b = Some chain /\ it ∈ chain.
Proof.
  rewrite list_elem_of_In, in_concat. split.
  - intros (chain & Hc & Hi). apply list_elem_of_In, list_elem_of_lookup in Hc as [i Hi']. exists (Z.of_nat i), chain.
    unfold znth. destruct (Z.ltb_spec (Z.of_nat i) 0); [lia|]. rewrite Nat2Z.id. split; [done | by apply list_elem_of_In].
  - intros (b & chain & Hb & Hi). exists chain. split; [|by apply list_elem_of_In]. unfold znth in Hb. destruct (b <? 0); [done|].
    apply list_elem_of_In. by eapply list_elem_of_lookup_2.
Qed.

(** ** Finding an entry *)
Lemma get_next_ptr_spec lh m x : represents lh m ->
  exists before from, get_next_ptr_and_hash hash cmp lh x = Some (hash x mod num_buckets lh, before, from) /\
  buckets lh !! Z.to_nat (hash x mod num_buckets lh) = Some (before ++ from) /\
  (forall it next, from = it :: next -> cmp (i_data it) x = 0) /\
  lookup_eq m x = match from with [] => None | it :: _ => Some (i_data it) end.
Proof.
  intros (Hp & Hd & (Hl & Hpl) & _ & _ & Hn & _). unfold kMinNumBuckets in Hn.
  pose proof (Z.mod_pos_bound (hash x) (num_buckets lh) ltac:(lia)) as Hb. set (b := hash x mod num_buckets lh) in *.
  assert (Hz : znth (buckets lh) b = buckets lh !! Z.to_nat b) by (unfold znth; destruct (Z.ltb_spec b 0); [lia | done]).
  destruct (lookup_lt_is_Some_2 (buckets lh) (Z.to_nat b)) as [chain Hc]; [unfold len in Hl; lia|].
  unfold get_next_ptr_and_hash, get_next_ptr. fold b. rewrite Hz, Hc. cbn [mbind option_bind].
  destruct (chain_find _ chain) as [before from] eqn:Ef. apply chain_find_spec in Ef as (-> & Hbefore & Hfrom).
  exists before, from. split; [done|]. split; [done|]. split; [intros it next E; by apply Z.eqb_eq, (Hfrom it next)|].
  assert (Hin : forall it, it ∈ before ++ from -> i_data it ∈ m).
  { intros it Hit. rewrite <- Hp. apply (list_elem_of_fmap_2 i_data), elem_of_buckets. exists b, (before ++ from). rewrite Hz. done. }
  destruct from as [|it next].
  - apply lookup_eq_None. intros e He Hce. rewrite <- Hp in He. apply list_elem_of_fmap in He as (it & -> & (b' & chain & Hb' & Hit)%elem_of_buckets).
    destruct (Hpl b' chain it Hb' Hit) as [Hh Hmod]. rewrite Hh, (hash_cmp _ _ Hce) in Hmod. fold b in Hmod. subst b'.
    rewrite Hz, Hc in Hb'. injection Hb' as <-. rewrite app_nil_r in Hit. specialize (Hbefore it Hit). cbn in Hbefore. by rewrite Hce in Hbefore.
  - apply lookup_eq_Some; [done|]. split; [apply Hin; rewrite elem_of_app; right; by left | by apply Z.eqb_eq, (Hfrom it next)].
Qed.

Lemma placed_update n bs b chain chain' : placed n bs -> 0 <= b -> bs !! Z.to_nat b = Some chain ->
  (forall it, it ∈ chain' -> it ∈ chain \/ (i_hash it = hash (i_data it) /\ i_hash it mod n = b)) ->
  placed n (zupd bs b chain').
Proof.
  intros [Hl Hp] Hb Hc Hin. split; [by rewrite len_zupd|]. intros b' ch it Hz Hit. unfold zupd in Hz. destruct (Z.ltb_spec b 0); [lia|].
  unfold znth in Hz. destruct (Z.ltb_spec b' 0); [done|]. destruct (Z.eq_dec b' b) as [->|].
  - rewrite list_lookup_insert_eq in Hz by (by eapply lookup_lt_Some). injection Hz as <-. destruct (Hin it Hit) as [Hold|]; [|done].
    apply (Hp b chain); [|done]. unfold znth. destruct (Z.ltb_spec b 0); [lia | done].
  - rewrite list_lookup_insert_ne in Hz by lia. apply (Hp b' ch); [|done]. unfold znth. destruct (Z.ltb_spec b' 0); [lia | done].
Qed.

(** ** Moving the items to another array *)
Lemma rebucket_fold n items nb : placed n nb -> 0 < n -> (forall it, it ∈ items -> i_hash it = hash (i_data it)) ->
  let nb' := fold_left (fun nb item => alter (cons item) (Z.to_nat (i_hash item mod n)) nb) items nb in
  placed n nb' /\ concat nb' ≡ₚ items ++ concat nb.
Proof.
  intros Hpl Hn. revert nb Hpl. induction items as [|it items IH]; intros nb Hpl Hh; [done|]. cbn [fold_left].
  pose proof (Z.mod_pos_bound (i_hash it) n ltac:(lia)) as Hb. set (b := i_hash it mod n) in *.
  destruct (lookup_lt_is_Some_2 nb (Z.to_nat b)) as [chain Hc]; [destruct Hpl as [Hl _]; unfold len in Hl; lia|].
  assert (Ea : alter (cons it) (Z.to_nat b) nb = zupd nb b (it :: chain)).
  { unfold zupd. destruct (Z.ltb_spec b 0); [lia|]. apply list_eq. intros i. destruct (decide (i = Z.to_nat b)) as [->|].
    - rewrite list_lookup_alter_eq, Hc, list_lookup_insert_eq by (by eapply lookup_lt_Some). done.
    - rewrite list_lookup_alter_ne, list_lookup_insert_ne by congruence. done. }
  rewrite Ea. destruct (IH (zupd nb b (it :: chain))) as [Hp' Hc']; [| intros i Hi; apply Hh; by right |].
  - apply (placed_update n nb b chain); [done | lia | done |]. intros i [->|Hi]%elem_of_cons; [right | by left]. split; [apply Hh; by left | done].
  - split; [done|]. rewrite Hc'. unfold zupd. destruct (Z.ltb_spec b 0); [lia|]. rewrite (concat_insert nb _ chain _ Hc), (concat_split nb _ chain Hc).
    cbn [app]. symmetry. apply Permutation_middle.
Qed.
Lemma placed_empty n : 0 <= n -> placed n (replicate (Z.to_nat n) []).
Proof.
  intros Hn. split; [rewrite len_replicate; lia|]. intros b chain it Hz Hit. unfold znth in Hz. destruct (b <? 0); [done|].
  apply lookup_replicate in Hz as [-> _]. by apply not_elem_of_nil in Hit.
Qed.
Lemma concat_replicate_nil {A} n : concat (replicate n (@nil A)) = [].
Proof. induction n; done. Qed.

Lemma rebucket_represents ok lh m n : represents lh m -> kMinNumBuckets <= n < 2 ^ size_bits -> represents (lh_rebucket ok lh n) m.
Proof.
  intros Hr Hn. unfold lh_rebucket. destruct (negb _); [done|]. destruct ok; [|done]. cbn [negb].
  destruct Hr as (Hp & Hd & Hpl & Hnum & Hlt & Hnb & Hcb). unfold kMinNumBuckets in Hn.
  destruct (rebucket_fold n (concat (buckets lh)) (replicate (Z.to_nat n) [])) as [Hpl' Hc']; [apply placed_empty; lia | lia | |].
  - intros it (b & chain & Hb & Hit)%elem_of_buckets. destruct Hpl as [_ Hpl]. by apply (Hpl b chain).
  - split_and!; cbn [buckets num_buckets num_items callback_depth]; try done; try (unfold kMinNumBuckets; lia).
    rewrite Hc', concat_replicate_nil, app_nil_r. done.
Qed.
Lemma resize_represents ok lh m : represents lh m -> represents (lh_maybe_resize ok lh) m.
Proof.
  intros Hr. pose proof Hr as (_ & _ & _ & _ & _ & Hnb & _). unfold lh_maybe_resize, kMinNumBuckets in *. destruct (0 <? callback_depth lh); [done|].
  destruct (_ <? num_items lh / num_buckets lh).
  - destruct (Z.ltb_spec (num_buckets lh) (wrap size_bits (num_buckets lh * 2))); [|done]. apply rebucket_represents; [done|].
    pose proof (wrap_range size_bits (num_buckets lh * 2) ltac:(platform; lia)). unfold kMinNumBuckets. lia.
  - destruct (_ && _) eqn:E; [|done]. apply andb_true_iff in E as [_ E%Z.ltb_lt].
    apply rebucket_represents; [done|]. unfold kMinNumBuckets. destruct (Z.ltb_spec (num_buckets lh / 2) 16); Z.div_mod_to_equations; lia.
Qed.

(** ** Every operation *)
Lemma write_represents lh m before from from' m' x : represents lh m ->
  forall b, b = hash x mod num_buckets lh -> buckets lh !! Z.to_nat b = Some (before ++ from) ->
  (forall it, it ∈ from' -> it ∈ from \/ (i_hash it = hash (i_data it) /\ i_hash it mod num_buckets lh = b)) ->
  (forall rest, map i_data ((before ++ from) ++ rest) ≡ₚ m -> map i_data ((before ++ from') ++ rest) ≡ₚ m') -> distinct m' -> len m' < 2 ^ size_bits ->
  represents (mk_lhash (len m') (zupd (buckets lh) b (before ++ from')) (num_buckets lh) (callback_depth lh)) m'.
Proof.
  intros (Hp & Hd & Hpl & Hnum & Hlt & Hnb & Hcb) b -> Hc Hin Hm Hd' Hlt'. unfold kMinNumBuckets in Hnb.
  pose proof (Z.mod_pos_bound (hash x) (num_buckets lh) ltac:(lia)) as Hb. set (b := hash x mod num_buckets lh) in *.
  unfold represents. cbn [buckets num_buckets num_items callback_depth]. split_and!; try done; try (unfold kMinNumBuckets; lia).
  - unfold zupd. destruct (Z.ltb_spec b 0); [lia|]. rewrite (concat_insert _ _ _ _ Hc). apply Hm. by rewrite <- (concat_split _ _ _ Hc).
  - apply (placed_update _ _ _ (before ++ from)); [done | lia | done |]. intros it [Hit|Hit]%elem_of_app; [left; rewrite elem_of_app; by left|].
    destruct (Hin it Hit); [left; rewrite elem_of_app; by right | by right].
Qed.

Lemma lh_insert_refines ok1 ok2 lh m d : represents lh m -> len m + 1 < 2 ^ size_bits ->
  exists lh' r m', lh_step (Lh_insert ok1 ok2 d) lh = Some (lh', r) /\ map_step (Lh_insert ok1 ok2 d) m r m' /\ represents lh' m'.
Proof.
  intros Hr Hlen. pose proof Hr as (Hp & Hd & Hpl & Hnum & Hlt & Hnb & Hcb). cbn [lh_step map_step]. unfold OPENSSL_lh_insert.
  destruct (get_next_ptr_spec lh m d Hr) as (before & from & -> & Hc & Hmatch & Hlk). cbn [mbind option_bind]. unfold old_value. rewrite Hlk.
  destruct from as [|it next]; cbn [default id].
  - assert (Hno : remove_eq m d = m) by (apply remove_eq_none, lookup_eq_None, Hlk). rewrite Hno. destruct ok1; cbn [negb andb].
    2:{ exists lh, [0; 0], m. done. }
    eexists _, _, (d :: m). split; [reflexivity|]. split; [done|]. apply resize_represents. cbn [set_next num_items buckets num_buckets callback_depth].
    rewrite Hnum, wrap_small, <- (len_cons d m) by (pose proof (len_nonneg m); lia).
    apply (write_represents lh m before [] _ (d :: m) d Hr _ eq_refl Hc).
    + intros it Hit. apply list_elem_of_singleton in Hit as ->. by right.
    + intros rest Hm. rewrite <- Hm. rewrite !map_app, app_nil_r, <- app_assoc. cbn. symmetry. apply Permutation_middle.
    + pose proof (distinct_insert m d Hd) as H. by rewrite Hno in H.
    + rewrite len_cons. lia.
  - rewrite andb_false_r. pose proof (Hmatch it next eq_refl) as Heq. eexists _, _, (d :: remove_eq m d). split; [reflexivity|]. split; [done|].
    assert (Hlm : len (d :: remove_eq m d) = len m /\ exists m0, m ≡ₚ i_data it :: m0 /\ remove_eq m d ≡ₚ m0).
    { assert (Hin : i_data it ∈ m) by (eapply lookup_eq_Some; [done | exact Hlk]). apply elem_of_Permutation in Hin as [m0 Hm0].
      pose proof (remove_eq_perm m d _ m0 Hd Hm0 Heq) as Hrm. split; [|by exists m0]. unfold len. cbn [length]. rewrite Hrm, Hm0. done. }
    destruct Hlm as (Hlm & m0 & Hm0 & Hrm). unfold set_next. rewrite Hnum, <- Hlm.
    apply (write_represents lh m before (it :: next) _ (d :: remove_eq m d) d Hr _ eq_refl Hc).
    + intros it' [->|Hit]%elem_of_cons; [right | left; by right]. cbn [i_hash i_data].
      destruct Hpl as [_ Hpl]. unfold kMinNumBuckets in Hnb. pose proof (Z.mod_pos_bound (hash d) (num_buckets lh) ltac:(lia)).
      destruct (Hpl (hash d mod num_buckets lh) (before ++ it :: next) it) as [Hh Hmod]; [| rewrite elem_of_app; right; by left |].
      * unfold znth. destruct (Z.ltb_spec (hash d mod num_buckets lh) 0); [lia | done].
      * split; [|done]. rewrite Hh. by apply hash_cmp.
    + intros rest Hm. rewrite Hm0 in Hm. rewrite !map_app in *. cbn [map] in *. rewrite <- !app_assoc in *. cbn [app] in *.
      rewrite <- Permutation_middle in *. apply Permutation_cons; [done|]. rewrite Hrm. by apply Permutation_cons_inv in Hm.
    + by apply distinct_insert.
    + lia.
Qed.

Lemma lh_delete_refines ok lh m d : represents lh m ->
  exists lh' r m', lh_step (Lh_delete ok d) lh = Some (lh', r) /\ map_step (Lh_delete ok d) m r m' /\ represents lh' m'.
Proof.
  intros Hr. pose proof Hr as (Hp & Hd & Hpl & Hnum & Hlt & Hnb & Hcb). cbn [lh_step map_step]. unfold OPENSSL_lh_delete.
  destruct (get_next_ptr_spec lh m d Hr) as (before & from & -> & Hc & Hmatch & Hlk). cbn [mbind option_bind]. unfold old_value. rewrite Hlk.
  destruct from as [|it next]; cbn [default id].
  { exists lh, [0], m. split; [done|]. split; [|done]. by rewrite (remove_eq_none m d) by (apply lookup_eq_None, Hlk). }
  pose proof (Hmatch it next eq_refl) as Heq.
  assert (Hin : i_data it ∈ m) by (eapply lookup_eq_Some; [done | exact Hlk]). apply elem_of_Permutation in Hin as [m0 Hm0].
  pose proof (remove_eq_perm m d _ m0 Hd Hm0 Heq) as Hrm.
  assert (Hlm : len m = len (remove_eq m d) + 1) by (unfold len; rewrite Hrm, Hm0; cbn [length]; lia).
  eexists _, _, (remove_eq m d). split; [reflexivity|]. split; [done|]. apply resize_represents. cbn [set_next num_items buckets num_buckets callback_depth].
  replace (wrap size_bits (num_items lh - 1)) with (len (remove_eq m d)).
  - apply (write_represents lh m before (it :: next) _ (remove_eq m d) d Hr _ eq_refl Hc).
    + intros it' Hit. left. by right.
    + intros rest Hm. rewrite Hm0 in Hm. rewrite !map_app in *. cbn [map] in *. rewrite <- !app_assoc in *. cbn [app] in *.
      rewrite <- Permutation_middle in Hm. rewrite Hrm. by apply Permutation_cons_inv in Hm.
    + by apply distinct_remove.
    + lia.
  - rewrite Hnum, Hlm, Z.add_simpl_r. symmetry. apply wrap_small. pose proof (len_nonneg (remove_eq m d)). lia.
Qed.

Lemma lh_step_refines o lh m : represents lh m -> len m + 1 < 2 ^ size_bits ->
  exists lh' r m', lh_step o lh = Some (lh', r) /\ map_step o m r m' /\ represents lh' m'.
Proof.
  intros Hr Hlen. destruct o as [ok1 ok2 d|ok d|d|ok]; [by apply lh_insert_refines | by apply lh_delete_refines | |].
  - cbn [lh_step map_step]. unfold OPENSSL_lh_retrieve.
    destruct (get_next_ptr_spec lh m d Hr) as (before & from & -> & _ & _ & Hlk). exists lh, [old_value m d], m. split; [|done].
    cbn [mbind option_bind]. unfold old_value. rewrite Hlk. by destruct from.
  - cbn [lh_step map_step]. pose proof Hr as (Hp & _ & _ & _ & _ & _ & Hcb). unfold OPENSSL_lh_doall_arg. rewrite Hcb.
    destruct (Z.ltb_spec 0 UINT_MAX) as [_|H]; [|unfold UINT_MAX in H; lia]. cbn [callback_depth buckets num_items num_buckets].
    destruct (Z.ltb_spec (0 + 1) UINT_MAX) as [_|H]; [|unfold UINT_MAX in H; lia]. cbn [callback_depth buckets num_items num_buckets].
    eexists _, _, m. split; [reflexivity|]. split; [done|]. apply resize_represents.
    replace (mk_lhash _ _ _ _) with lh; [done|]. destruct lh. cbn in *. by subst.
Qed.

(** ** The load *)

(** Every array of buckets that an operation asks for is allocated. *)
Definition arrays_ok (o : lh_op) : Prop :=
  match o with Lh_insert _ ok2 _ => ok2 = true | Lh_delete ok _ => ok = true | Lh_doall ok => ok = true | Lh_retrieve _ => True end.
(** The average chain length is at most kMaxAverageChainLength. *)
Definition loaded (lh : lhash_st) : Prop := num_items lh / num_buckets lh <= kMaxAverageChainLength.

Lemma loaded_lt lh : 0 < num_buckets lh -> loaded lh <-> num_items lh < 3 * num_buckets lh.
Proof. intros H. unfold loaded, kMaxAverageChainLength. Z.div_mod_to_equations. split; nia. Qed.

Lemma resize_loaded lh : 0 <= num_items lh <= 3 * num_buckets lh -> num_items lh < 2 ^ (size_bits - 4) -> kMinNumBuckets <= num_buckets lh ->
  callback_depth lh = 0 -> loaded (lh_maybe_resize true lh).
Proof.
  intros Hi Hlt Hnb Hcb. unfold kMinNumBuckets in Hnb. unfold lh_maybe_resize. rewrite Hcb. change (0 <? 0) with false. cbv iota.
  destruct (Z.ltb_spec kMaxAverageChainLength (num_items lh / num_buckets lh)) as [Hgt|Hle].
  - assert (Hge : 3 * num_buckets lh <= num_items lh) by (unfold kMaxAverageChainLength in Hgt; Z.div_mod_to_equations; nia).
    assert (Hsz : sizeof_item_ptr * (num_buckets lh * 2) < 2 ^ size_bits /\ 0 < sizeof_item_ptr /\ num_buckets lh * 2 < 2 ^ size_bits).
    { unfold sizeof_item_ptr. destruct size_bits_ok as [E|E]; rewrite E in *; cbn [Z.sub] in *; change (32 / 8) with 4; change (64 / 8) with 8; lia. }
    rewrite (wrap_small size_bits (num_buckets lh * 2)) by lia. destruct (Z.ltb_spec (num_buckets lh) (num_buckets lh * 2)); [|lia].
    unfold lh_rebucket. rewrite wrap_small, (Z.mul_comm sizeof_item_ptr), Z.div_mul, Z.eqb_refl by lia. cbn [negb].
    apply loaded_lt; cbn [num_items num_buckets]; lia.
  - destruct (_ && _) eqn:E; [|done]. apply andb_true_iff in E as [E1%Z.ltb_lt E2%Z.ltb_lt]. unfold kMinNumBuckets, kMinAverageChainLength in *.
    set (n := if num_buckets lh / 2 <? 16 then 16 else num_buckets lh / 2).
    assert (Hn : 16 <= n /\ num_items lh < 3 * n).
    { assert (num_items lh < num_buckets lh) by (Z.div_mod_to_equations; nia). unfold n.
      destruct (Z.ltb_spec (num_buckets lh / 2) 16); Z.div_mod_to_equations; lia. }
    unfold lh_rebucket. destruct (negb _); [done|]. cbn [negb]. apply loaded_lt; cbn [num_items num_buckets]; lia.
Qed.

Lemma lh_step_loaded o lh m lh' r : represents lh m -> len m + 1 < 2 ^ (size_bits - 4) -> arrays_ok o -> loaded lh ->
  lh_step o lh = Some (lh', r) -> loaded lh'.
Proof.
  intros Hr Hlen Hok Hld E. pose proof Hr as (_ & _ & _ & Hnum & Hlt & Hnb & Hcb). unfold kMinNumBuckets in Hnb.
  pose proof (len_nonneg m) as Hm. pose proof (proj1 (loaded_lt lh ltac:(lia)) Hld) as Hl3.
  assert (Hp4 : 2 ^ (size_bits - 4) < 2 ^ size_bits) by (apply Z.pow_lt_mono_r; platform; lia).
  destruct o as [ok1 ok2 d|ok d|d|ok]; cbn [lh_step arrays_ok] in *; try subst.
  - unfold OPENSSL_lh_insert in E. destruct (get_next_ptr_spec lh m d Hr) as (before & from & E' & _ & _ & _). rewrite E' in E. cbn [mbind option_bind] in E.
    destruct from as [|it next]; [destruct ok1; cbn [negb] in E|]; injection E as <- <-; [|done | done].
    apply resize_loaded; cbn [set_next num_items num_buckets callback_depth]; rewrite ?Hnum, ?wrap_small by lia; unfold kMinNumBuckets; lia.
  - unfold OPENSSL_lh_delete in E. destruct (get_next_ptr_spec lh m d Hr) as (before & from & E' & _ & _ & Hlk). rewrite E' in E. cbn [mbind option_bind] in E.
    destruct from as [|it next]; injection E as <- <-; [done|].
    assert (1 <= len m) by (destruct m; [done | rewrite len_cons; pose proof (len_nonneg m); lia]).
    apply resize_loaded; cbn [set_next num_items num_buckets callback_depth]; rewrite ?Hnum, ?wrap_small by lia; unfold kMinNumBuckets; lia.
  - destruct (OPENSSL_lh_retrieve hash cmp lh d); [injection E as <- <-; done | done].
  - unfold OPENSSL_lh_doall_arg in E. rewrite Hcb in E. cbn in E. injection E as <- <-.
    apply resize_loaded; cbn [num_items num_buckets callback_depth]; unfold kMinNumBuckets; lia.
Qed.

(** ** Sequences of operations *)
Fixpoint lh_run (os : list lh_op) (lh : lhash_st) : option (lhash_st * list (list Z)) :=
  match os with
  | [] => Some (lh, [])
  | o :: os => '(lh, r) ← lh_step o lh; '(lh, rs) ← lh_run os lh; Some (lh, r :: rs)
  end.
Inductive map_run : list lh_op -> list Z -> list (list Z) -> list Z -> Prop :=
| map_run_nil m : map_run [] m [] m
| map_run_cons o os m m1 m2 r rs : map_step o m r m1 -> map_run os m1 rs m2 -> map_run (o :: os) m (r :: rs) m2.

Lemma map_step_len o m r m' : map_step o m r m' -> len m' <= len m + 1.
Proof.
  assert (Hf : forall x, len (remove_eq m x) <= len m) by (intros x; unfold len, remove_eq; pose proof (length_filter (fun e => cmp e x <> 0) m); lia).
  destruct o as [ok1 ok2 d|ok d|d|ok]; cbn [map_step].
  - destruct (_ && _); intros [_ ->]; [lia | rewrite len_cons; specialize (Hf d); lia].
  - intros [_ ->]. specialize (Hf d). lia.
  - intros [_ ->]. lia.
  - intros [_ ->]. lia.
Qed.

Lemma lh_run_refines os lh m : represents lh m -> len m + len os < 2 ^ (size_bits - 4) ->
  exists lh' rs m', lh_run os lh = Some (lh', rs) /\ map_run os m rs m' /\ represents lh' m' /\
  (Forall arrays_ok os -> loaded lh -> loaded lh').
Proof.
  revert lh m. induction os as [|o os IH]; intros lh m Hr Hlen.
  { exists lh, [], m. split; [done|]. split; [constructor|]. done. }
  rewrite len_cons in Hlen. pose proof (len_nonneg os) as Hos.
  assert (Hp4 : 2 ^ (size_bits - 4) < 2 ^ size_bits) by (apply Z.pow_lt_mono_r; platform; lia).
  destruct (lh_step_refines o lh m Hr) as (lh1 & r & m1 & E & Hm & Hr1); [lia|]. pose proof (map_step_len o m r m1 Hm) as Hlm.
  destruct (IH lh1 m1 Hr1) as (lh2 & rs & m2 & E2 & Hm2 & Hr2 & Hld2); [lia|]. exists lh2, (r :: rs), m2. cbn [lh_run]. rewrite E.
  cbn [mbind option_bind]. rewrite E2. split; [done|]. split; [by econstructor|]. split; [done|]. intros Hok Hld. inversion Hok; subst.
  apply Hld2; [done|]. apply (lh_step_loaded o lh m lh1 r); [done | lia | done..].
Qed.

(** C34: a hash table is a finite map. From OPENSSL_lh_new, every sequence of
    insertions, deletions, searches and walks, whatever the allocator answers,
    returns what the map of the entries returns: an insertion replaces the equal
    entry and reports it, or fails and changes nothing; a walk visits each entry
    once. Resizing the array loses nothing, and if the arrays it asks for can be
    allocated the average chain length stays at most kMaxAverageChainLength. A
    search by a key of another type finds the entry its own search would find. *)
Theorem OPENSSL_lh_refines_map os :
  len os < 2 ^ (size_bits - 4) ->
  exists lh lh' rs m, OPENSSL_lh_new true true = Some lh /\ lh_run os lh = Some (lh', rs) /\ map_run os [] rs m /\
  OPENSSL_lh_num_items lh' = len m /\ distinct m /\ map i_data (concat (buckets lh')) ≡ₚ m /\
  (Forall arrays_ok os -> loaded lh') /\
  (forall x key cmp_key, (forall d, cmp_key key d = 0 <-> cmp d x = 0) -> OPENSSL_lh_retrieve_key lh' key (hash x) cmp_key = Some (old_value m x)).
Proof.
  intros Hlen. set (lh := mk_lhash 0 (replicate (Z.to_nat kMinNumBuckets) []) kMinNumBuckets 0).
  assert (Hp : 2 ^ 28 <= 2 ^ (size_bits - 4)) by (apply Z.pow_le_mono_r; platform; lia).
  assert (Hr : represents lh []).
  { unfold represents, lh. cbn [buckets num_buckets num_items callback_depth]. rewrite concat_replicate_nil. unfold kMinNumBuckets.
    split_and!; try done; try (by constructor); [by apply placed_empty | | ]; change (len (@nil Z)) with 0; platform; lia. }
  destruct (lh_run_refines os lh [] Hr) as (lh' & rs & m & E & Hm & Hr' & Hld); [change (len (@nil Z)) with 0; lia|].
  pose proof Hr' as (Hperm & Hd & _ & Hnum & _). exists lh, lh', rs, m. split; [done|]. split; [done|]. split; [done|]. split; [done|]. split; [done|].
  split; [done|]. split; [intros Hok; by apply Hld|]. intros x key cmp_key Hk.
  destruct (get_next_ptr_spec lh' m x Hr') as (before & from & E' & _ & _ & Hlk). unfold OPENSSL_lh_retrieve_key, get_next_ptr_by_key, get_next_ptr_and_hash, get_next_ptr in *.
  destruct (znth (buckets lh') _) as [chain|]; [|done]. cbn [mbind option_bind] in *.
  assert (Ef : chain_find (fun d => cmp_key key d =? 0) chain = chain_find (fun d => cmp d x =? 0) chain).
  { clear -Hk. induction chain as [|it chain IH]; [done|]. cbn [chain_find]. rewrite IH.
    destruct (Z.eqb_spec (cmp_key key (i_data it)) 0), (Z.eqb_spec (cmp (i_data it) x) 0); try done; exfalso; specialize (Hk (i_data it)); tauto. }
  rewrite Ef. destruct (chain_find _ chain) as [b f]. injection E' as -> ->. unfold old_value. rewrite Hlk. by destruct from.
Qed.
End Map.

(** Entries that are equal when their tens are. *)
Definition tens_cmp (a b : Z) : Z := a / 10 - b / 10.
Definition tens_hash (a : Z) : Z := (a / 10) mod 2 ^ 32.

Lemma OPENSSL_lh_refines_map_witness : exists lh lh' rs (m : list Z),
  OPENSSL_lh_new true true = Some lh /\
  @lh_run LP64 tens_hash tens_cmp [Lh_insert true true 12; Lh_insert true true 17; Lh_retrieve 11; Lh_delete true 19] lh = Some (lh', rs) /\
  rs = [[1; 0]; [1; 12]; [17]; [17]] /\ OPENSSL_lh_num_items lh' = len m.
Proof.
  destruct (@OPENSSL_lh_refines_map LP64 tens_hash tens_cmp) with (os := [Lh_insert true true 12; Lh_insert true true 17; Lh_retrieve 11; Lh_delete true 19])
    as (lh & lh' & rs & m & E1 & E2 & _ & Hn & _); unfold tens_cmp, tens_hash; try (intros; lia).
  - intros a b H. f_equal. lia.
  - vm_compute. reflexivity.
  - exists lh, lh', rs, m. split; [exact E1|]. split; [exact E2|]. split; [|exact Hn].
    injection E1 as <-. vm_compute in E2. injection E2 as _ <-. reflexivity.
Defined.
