(* ===== verification/Refcount.v ===== *)
(** Reference counts: crypto/refcount.cc and the atomics of crypto/internal.h.

    One iteration of each compare-and-swap loop is a function on the shared
    counter and the local [expected]. Threads that share a counter are a step
    relation in which an atomic access of one thread is one step, and a weak
    compare-and-swap may fail although the values agree. *)
From stdpp Require Import relations.
From S2P Require Import Prelude.

Open Scope Z_scope.

Definition CRYPTO_REFCOUNT_MAX : Z := 0xffffffff.

(** Whether it succeeds, [*val] and [*expected] after it. *)
Definition CRYPTO_atomic_compare_exchange_weak_u32 (spurious : bool) (val expected desired : Z) : bool * Z * Z :=
  if spurious || negb (val =? expected) then (false, val, val) else (true, desired, expected).

(** An iteration of a loop goes on with a new [expected], returns, or aborts. *)
Inductive outcome := Continue (expected : Z) | Return (r : Z) | Abort.

Definition inc_iteration (spurious : bool) (count expected : Z) : Z * outcome :=
  if negb (expected =? CRYPTO_REFCOUNT_MAX) then
    let new_value := u32 (expected + 1) in
    let '(ok, count, expected) := CRYPTO_atomic_compare_exchange_weak_u32 spurious count expected new_value in
    (count, if ok then Return 0 else Continue expected)
  else (count, Return 0).

Definition dec_iteration (spurious : bool) (count expected : Z) : Z * outcome :=
  if expected =? 0 then (count, Abort)
  else if expected =? CRYPTO_REFCOUNT_MAX then (count, Return 0)
  else
    let new_value := u32 (expected - 1) in
    let '(ok, count, expected) := CRYPTO_atomic_compare_exchange_weak_u32 spurious count expected new_value in
    (count, if ok then Return (b2z (new_value =? 0)) else Continue expected).

(** A loop that runs alone; [spurious] tells which of its first iterations fail
    spuriously. [None] is [abort]. *)
Fixpoint refcount_loop (iteration : bool -> Z -> Z -> Z * outcome) (spurious : list bool) (count expected : Z) : option (Z * Z) :=
  match iteration (hd false spurious) count expected with
  | (count, Return r) => Some (count, r)
  | (_, Abort) => None
  | (count, Continue expected) =>
    match spurious with [] => None | _ :: spurious => refcount_loop iteration spurious count expected end
  end.

Definition CRYPTO_refcount_inc (spurious : list bool) (count : Z) : option (Z * Z) :=
  refcount_loop inc_iteration spurious count count.
Definition CRYPTO_refcount_dec_and_test_zero (spurious : list bool) (count : Z) : option (Z * Z) :=
  refcount_loop dec_iteration spurious count count.

(** ** Threads that share one counter *)

Inductive op := Inc | Dec.
Inductive pc := Idle | Running (o : op) (expected : Z) | Aborted.

Definition iteration (o : op) : bool -> Z -> Z -> Z * outcome :=
  match o with Inc => inc_iteration | Dec => dec_iteration end.

(** A thread owns [held] references. A decrement gives one up when it starts, an
    increment gains one when it returns. *)
Record thread := mk_thread { held : Z; at_pc : pc }.
Record shared := mk_shared { count : Z; threads : list thread; freed : Z }.

Definition load (o : op) (h c : Z) : thread :=
  mk_thread (match o with Inc => h | Dec => h - 1 end) (Running o c).
Definition resume (o : op) (h : Z) (r : outcome) : thread :=
  match r with
  | Continue e => mk_thread h (Running o e)
  | Return _ => mk_thread (match o with Inc => h + 1 | Dec => h end) Idle
  | Abort => mk_thread h Aborted
  end.

(** A reference passes from an idle thread to another; an operation starts with
    the atomic load, on a reference the thread owns, and goes on by iterations of
    its loop. [freed] counts the decrements that returned one. *)
Inductive step : shared -> shared -> Prop :=
| step_pass c ts f i j hi hj p :
    i <> j -> ts !! i = Some (mk_thread hi Idle) -> ts !! j = Some (mk_thread hj p) -> 1 <= hi ->
    step (mk_shared c ts f) (mk_shared c (<[j := mk_thread (hj + 1) p]> (<[i := mk_thread (hi - 1) Idle]> ts)) f)
| step_load c ts f i h o :
    ts !! i = Some (mk_thread h Idle) -> 1 <= h ->
    step (mk_shared c ts f) (mk_shared c (<[i := load o h c]> ts) f)
| step_run c ts f i h o e spurious c' r :
    ts !! i = Some (mk_thread h (Running o e)) -> iteration o spurious c e = (c', r) ->
    step (mk_shared c ts f)
      (mk_shared c' (<[i := resume o h r]> ts) (f + match r with Return x => x | _ => 0 end)).

(** An object with one reference that thread 0 of [n + 1] holds. *)
Definition start (n : nat) : shared := mk_shared 1 (mk_thread 1 Idle :: replicate n (mk_thread 0 Idle)) 0.

(** The references in use: those held, and those a decrement in progress gives up. *)
Definition refs (t : thread) : Z := held t + match at_pc t with Running Dec _ => 1 | _ => 0 end.
Definition references (ts : list thread) : Z := foldr (fun t n => refs t + n) 0 ts.

(** * Properties *)

Lemma references_insert ts i t t' : ts !! i = Some t -> references (<[i := t']> ts) = references ts - refs t + refs t'.
Proof.
  revert i. induction ts as [|x ts IH]; intros [|i] H; simplify_eq/=; [lia|].
  rewrite (IH i H). lia.
Qed.

(** What holds of a thread while the counter is [c]. *)
Definition thread_ok (c : Z) (t : thread) : Prop :=
  0 <= held t /\
  match at_pc t with
  | Idle => True
  | Running o e =>
    0 <= e <= CRYPTO_REFCOUNT_MAX /\ (e = CRYPTO_REFCOUNT_MAX -> c = CRYPTO_REFCOUNT_MAX) /\
    1 <= match o with Inc => held t | Dec => e end
  | Aborted => False
  end.

Definition refcount_ok (s : shared) : Prop :=
  0 <= count s <= CRYPTO_REFCOUNT_MAX /\
  (count s = CRYPTO_REFCOUNT_MAX \/ count s = references (threads s)) /\
  freed s = b2z (count s =? 0) /\
  Forall (thread_ok (count s)) (threads s).

Lemma refs_nonneg c t : thread_ok c t -> 0 <= refs t.
Proof. intros [H1 H2]. unfold refs. destruct (at_pc t) as [|[]|]; lia. Qed.

Lemma references_nonneg c ts : Forall (thread_ok c) ts -> 0 <= references ts.
Proof. induction 1 as [|t ts H _ IH]; simpl; [lia|]. pose proof (refs_nonneg c t H). lia. Qed.

Lemma references_le c ts i t : Forall (thread_ok c) ts -> ts !! i = Some t -> refs t <= references ts.
Proof.
  intros F. revert i. induction F as [|x ts H F IH]; intros [|i] E; simplify_eq/=.
  - pose proof (references_nonneg c ts F). lia.
  - pose proof (IH i E). pose proof (refs_nonneg c x H). lia.
Qed.

(** The counter stays, or it changes from a value that is not the maximum. *)
Lemma thread_ok_mono c c' t : thread_ok c t -> (c' = c \/ c <> CRYPTO_REFCOUNT_MAX) -> thread_ok c' t.
Proof. intros [H1 H2] H. split; [done|]. destruct (at_pc t); intuition congruence. Qed.

Lemma threads_ok_insert c c' ts i t :
  Forall (thread_ok c) ts -> (c' = c \/ c <> CRYPTO_REFCOUNT_MAX) -> thread_ok c' t -> Forall (thread_ok c') (<[i := t]> ts).
Proof. intros F H Ht. apply Forall_insert; [|done]. eapply Forall_impl; [|exact F]. intros x Hx. by eapply thread_ok_mono. Qed.

Lemma thread_ok_at c ts i t : Forall (thread_ok c) ts -> ts !! i = Some t -> thread_ok c t.
Proof. intros F E. by eapply Forall_lookup_1. Qed.

(** What an iteration does to the counter. *)
Lemma iteration_cases o sp c e c' r :
  0 <= e <= CRYPTO_REFCOUNT_MAX -> (o = Dec -> 1 <= e) -> iteration o sp c e = (c', r) ->
  (e = CRYPTO_REFCOUNT_MAX /\ c' = c /\ r = Return 0) \/
  (e <> CRYPTO_REFCOUNT_MAX /\ c = e /\ c' = (match o with Inc => e + 1 | Dec => e - 1 end) /\
   r = Return (match o with Inc => 0 | Dec => b2z (c' =? 0) end)) \/
  (e <> CRYPTO_REFCOUNT_MAX /\ c' = c /\ r = Continue c).
Proof.
  unfold iteration, inc_iteration, dec_iteration, CRYPTO_atomic_compare_exchange_weak_u32, CRYPTO_REFCOUNT_MAX, wrap.
  intros He Hd. destruct o.
  - destruct (Z.eqb_spec e 0xffffffff); simpl; [intros [= <- <-]; auto|].
    destruct sp; simpl; [intros [= <- <-]; auto|].
    destruct (Z.eqb_spec c e); simpl; intros [= <- <-]; [|auto].
    right. left. rewrite Z.mod_small by lia. auto.
  - specialize (Hd eq_refl). destruct (Z.eqb_spec e 0); [lia|].
    destruct (Z.eqb_spec e 0xffffffff); simpl; [intros [= <- <-]; auto|].
    destruct sp; simpl; [intros [= <- <-]; auto|].
    destruct (Z.eqb_spec c e); simpl; intros [= <- <-]; [|auto].
    right. left. rewrite Z.mod_small by lia. auto.
Qed.

Lemma step_preserves s s' : step s s' -> refcount_ok s -> refcount_ok s'.
Proof.
  destruct 1 as [c ts f i j hi hj p Hij Ei Ej Hh|c ts f i h o Ei Hh|c ts f i h o e sp c' r Ei E];
    intros (Hc & Href & Hf & Hts); simpl in *; unfold refcount_ok; simpl;
    pose proof (thread_ok_at _ _ _ _ Hts Ei) as Hi; pose proof (references_le _ _ _ _ Hts Ei) as Hle;
    destruct Hi as [Hi1 Hi2]; unfold refs in Hle; simpl in *.
  - pose proof (thread_ok_at _ _ _ _ Hts Ej) as [Hj1 Hj2]. simpl in *.
    split; [done|]. split; [|split; [done|]].
    + rewrite (references_insert _ j (mk_thread hj p)) by (rewrite list_lookup_insert_ne; auto).
      rewrite (references_insert _ i _ _ Ei). unfold refs; simpl. intuition lia.
    + repeat (apply (threads_ok_insert c); [|by left|split; simpl; [lia|]]); [done..|].
      destruct p as [|[] ?|]; intuition lia.
  - rewrite (references_insert _ _ _ _ Ei). unfold refs, CRYPTO_REFCOUNT_MAX in *.
    split; [done|]. split; [destruct o; simpl; intuition lia|]. split; [done|].
    apply (threads_ok_insert c); [done|by left|]. unfold thread_ok, CRYPTO_REFCOUNT_MAX. destruct o; simpl; intuition lia.
  - rewrite (references_insert _ _ _ _ Ei). destruct Hi2 as (He & Hs & H1).
    unfold refs, thread_ok, CRYPTO_REFCOUNT_MAX in *. simpl.
    assert (o = Dec -> 1 <= e) as Hd by (by intros ->).
    apply iteration_cases in E as [(-> & -> & ->)|[(Hn & -> & Hc' & ->)|(Hn & -> & ->)]]; [..|done|done]; unfold CRYPTO_REFCOUNT_MAX in *; simpl.
    + rewrite Hs in * by done. split; [lia|]. split; [by left|]. split; [lia|].
      apply (threads_ok_insert 0xffffffff); [done|by left|]. destruct o; (split; simpl; [lia|done]).
    + assert (1 <= e) by (destruct o; simpl in *; intuition lia).
      split; [destruct o; lia|]. split; [destruct o; simpl in *; intuition lia|].
      rewrite Hf. split; [destruct o; unfold b2z; zcases; lia|].
      apply (threads_ok_insert e); [done|by right|]. destruct o; (split; simpl in *; [lia|done]).
    + split; [lia|]. split; [destruct o; simpl; intuition lia|]. split; [lia|].
      apply (threads_ok_insert c); [done|by left|]. unfold thread_ok, CRYPTO_REFCOUNT_MAX. destruct o; simpl in *; intuition lia.
Qed.

Lemma start_ok n : refcount_ok (start n).
Proof.
  unfold refcount_ok, start, CRYPTO_REFCOUNT_MAX. cbn [count threads freed references foldr].
  assert (foldr (fun t m => refs t + m) 0 (replicate n (mk_thread 0 Idle)) = 0) as -> by (induction n; simpl in *; auto).
  split; [lia|]. split; [right; reflexivity|]. split; [reflexivity|].
  constructor; [split; simpl; [lia|done]|]. apply Forall_replicate. split; simpl; [lia|done].
Qed.

Lemma reachable_ok s s' : rtc step s s' -> refcount_ok s -> refcount_ok s'.
Proof. induction 1; eauto using step_preserves. Qed.

(** The threads of a counter that dropped to zero own nothing and run nothing. *)
Lemma zero_threads s i t : refcount_ok s -> count s = 0 -> threads s !! i = Some t -> t = mk_thread 0 Idle.
Proof.
  intros (_ & Href & _ & Hts) H0 E. pose proof (references_le _ _ _ _ Hts E) as Hle.
  destruct (thread_ok_at _ _ _ _ Hts E) as [H1 H2]. destruct Href as [Hm|Hr]; [by rewrite H0 in Hm|].
  destruct t as [h p]. unfold refs in Hle. simpl in *. destruct p as [|[] ?|]; [f_equal; lia|lia|lia|done].
Qed.

Lemma zero_stuck s s' : refcount_ok s -> count s = 0 -> ~ step s s'.
Proof.
  intros Hok H0 H. destruct H as [c ts f i j hi hj p _ Ei _ Hh|c ts f i h o Ei Hh|c ts f i h o e sp c' r Ei _];
    pose proof (zero_threads _ _ _ Hok H0 Ei); simplify_eq; lia.
Qed.

Lemma running_expected s i h o e :
  refcount_ok s -> threads s !! i = Some (mk_thread h (Running o e)) ->
  0 <= e <= CRYPTO_REFCOUNT_MAX /\ (o = Dec -> 1 <= e).
Proof.
  intros (_ & _ & _ & Hts) E. destruct (thread_ok_at _ _ _ _ Hts E) as [_ (H1 & _ & H2)]. split; [done|]. by intros ->.
Qed.

Lemma saturated_step s s' : step s s' -> refcount_ok s -> count s = CRYPTO_REFCOUNT_MAX -> count s' = CRYPTO_REFCOUNT_MAX.
Proof.
  intros H Hok Hm. destruct H as [| |c ts f i h o e sp c' r Ei E]; simpl in *; [done..|].
  destruct (running_expected _ _ _ _ _ Hok Ei) as [H1 H2].
  by apply iteration_cases in E as [(_ & -> & _)|[(Hn & -> & _)|(_ & -> & _)]].
Qed.

Lemma saturated s s' : rtc step s s' -> refcount_ok s -> count s = CRYPTO_REFCOUNT_MAX -> count s' = CRYPTO_REFCOUNT_MAX.
Proof. induction 1; eauto using step_preserves, saturated_step. Qed.

Lemma iteration_succeeds o c c' e : iteration o false c c <> (c', Continue e).
Proof.
  destruct o; simpl; unfold inc_iteration, dec_iteration, CRYPTO_atomic_compare_exchange_weak_u32; rewrite Z.eqb_refl; simpl.
  - by destruct (c =? CRYPTO_REFCOUNT_MAX).
  - destruct (c =? 0); [done|]. by destruct (c =? CRYPTO_REFCOUNT_MAX).
Qed.

(** A loop that is left alone finishes within two iterations. *)
Lemma iteration_finishes s i h o e :
  threads s !! i = Some (mk_thread h (Running o e)) -> refcount_ok s -> e = CRYPTO_REFCOUNT_MAX \/ e = count s ->
  exists s' t, step s s' /\ threads s' !! i = Some t /\ at_pc t = Idle.
Proof.
  destruct s as [c ts f]; simpl. intros Ei Hok D. destruct (running_expected _ _ _ _ _ Hok Ei) as [He Hd].
  destruct (iteration o false c e) as [c' r] eqn:E. eexists _, (resume o h r). split; [by eapply step_run|]. simpl.
  split; [apply list_lookup_insert_eq; by eapply lookup_lt_Some|].
  destruct (iteration_cases _ _ _ _ _ _ He Hd E) as [(_ & _ & ->)|[(_ & _ & _ & ->)|(Hn & _ & ->)]]; [done..|].
  exfalso. destruct D as [->| ->]; [done|]. by apply iteration_succeeds in E.
Qed.

Lemma loop_finishes s i h o e :
  threads s !! i = Some (mk_thread h (Running o e)) -> refcount_ok s ->
  exists s' t, rtc step s s' /\ threads s' !! i = Some t /\ at_pc t = Idle.
Proof.
  intros Ei Hok. destruct (decide (e = CRYPTO_REFCOUNT_MAX \/ e = count s)) as [D|D].
  - destruct (iteration_finishes _ _ _ _ _ Ei Hok D) as (s' & t & S & H). exists s', t. split; [by apply rtc_once|done].
  - destruct (running_expected _ _ _ _ _ Hok Ei) as [He Hd]. destruct s as [c ts f]; simpl in *.
    assert (step (mk_shared c ts f) (mk_shared c (<[i := mk_thread h (Running o c)]> ts) (f + 0))) as S1.
    { destruct (iteration o true c e) as [c' r] eqn:E.
      destruct (iteration_cases _ _ _ _ _ _ He Hd E) as [(? & _)|[(_ & ? & _)|(_ & -> & ->)]]; [exfalso; auto..|].
      by eapply (step_run c ts f i h o e true c (Continue c)). }
    destruct (iteration_finishes (mk_shared c (<[i := mk_thread h (Running o c)]> ts) (f + 0)) i h o c) as (s' & t & S2 & H).
    + apply list_lookup_insert_eq. by eapply lookup_lt_Some.
    + by eapply step_preserves.
    + by right.
    + exists s', t. split; [|done]. eapply rtc_l; [exact S1|]. by apply rtc_once.
Qed.

(** C28: however the threads that share an object interleave their atomic
    accesses, as long as each works on references it owns: no decrement aborts;
    below the maximum the counter is the number of references in use; the object
    is freed at most once, exactly when the counter reached zero, and then no
    thread holds a reference or runs an operation and none can take a step; when
    the last reference is gone the object was freed, unless the counter was
    saturated; a counter that reached its maximum stays there and the object is
    never freed; and a thread in a loop finishes it when it is left alone. *)
Theorem CRYPTO_refcount_correct (n : nat) (s : shared) (H : rtc step (start n) s) :
  Forall (fun t => at_pc t <> Aborted) (threads s) /\
  (count s <> CRYPTO_REFCOUNT_MAX -> count s = references (threads s)) /\
  (freed s = 0 \/ freed s = 1) /\
  (freed s = 1 <-> count s = 0) /\
  (freed s = 1 -> Forall (fun t => t = mk_thread 0 Idle) (threads s) /\ forall s', ~ step s s') /\
  (references (threads s) = 0 -> freed s = 1 \/ count s = CRYPTO_REFCOUNT_MAX) /\
  (count s = CRYPTO_REFCOUNT_MAX -> forall s', rtc step s s' -> count s' = CRYPTO_REFCOUNT_MAX /\ freed s' = 0) /\
  (forall i h o e, threads s !! i = Some (mk_thread h (Running o e)) ->
     exists s' t, rtc step s s' /\ threads s' !! i = Some t /\ at_pc t = Idle).
Proof.
  pose proof (reachable_ok _ _ H (start_ok n)) as Hok. pose proof Hok as (Hc & Href & Hf & Hts).
  assert (freed s = 1 <-> count s = 0) as Hfc by (rewrite Hf; unfold b2z; zcases; lia).
  split; [|split; [|split; [|split; [|split; [|split; [|split]]]]]].
  - eapply Forall_impl; [|exact Hts]. intros t [_ Ht] E. by rewrite E in Ht.
  - tauto.
  - rewrite Hf. unfold b2z. zcases; lia.
  - done.
  - intros F. apply Hfc in F. split; [|intros s'; by apply zero_stuck].
    apply Forall_lookup_2. intros i t E. by eapply zero_threads.
  - intros F. rewrite Hfc. destruct Href as [?|Hr]; [by right|left; lia].
  - intros F s' S. pose proof (saturated _ _ S Hok F) as F'. split; [done|].
    destruct (reachable_ok _ _ S Hok) as (_ & _ & -> & _). by rewrite F'.
  - intros i h o e E. by eapply loop_finishes.
Qed.

(** Thread 0 takes a second reference, passes it to thread 1, and both give theirs
    up; the compare-and-swap of thread 0 fails because thread 1 was faster. *)
Definition refcount_end : shared := mk_shared 0 [mk_thread 0 Idle; mk_thread 0 Idle] 1.

Lemma refcount_run : rtc step (start 1) refcount_end.
Proof.
  eapply rtc_l; [apply (step_load _ _ _ 0 1 Inc); [done|lia]|].
  eapply rtc_l; [apply (step_run _ _ _ 0 1 Inc 1 false 2 (Return 0)); done|].
  eapply rtc_l; [apply (step_pass _ _ _ 0 1 2 0 Idle); [done..|lia]|].
  eapply rtc_l; [apply (step_load _ _ _ 0 1 Dec); [done|lia]|].
  eapply rtc_l; [apply (step_load _ _ _ 1 1 Dec); [done|lia]|].
  eapply rtc_l; [apply (step_run _ _ _ 1 0 Dec 2 false 1 (Return 0)); done|].
  eapply rtc_l; [apply (step_run _ _ _ 0 0 Dec 2 false 1 (Continue 1)); done|].
  eapply rtc_l; [apply (step_run _ _ _ 0 0 Dec 1 false 0 (Return 1)); done|].
  apply rtc_refl.
Qed.

Lemma CRYPTO_refcount_correct_witness :
  rtc step (start 1) refcount_end /\ freed refcount_end = 1 /\ forall s', ~ step refcount_end s'.
Proof.
  pose proof (CRYPTO_refcount_correct 1 refcount_end refcount_run) as (_ & _ & _ & _ & H & _).
  split; [exact refcount_run|]. split; [reflexivity|]. exact (proj2 (H eq_refl)).
Defined.

(** A loop that runs alone, whatever compare-and-swaps fail spuriously. *)
Lemma refcount_loop_alone o spurious c :
  0 <= c <= CRYPTO_REFCOUNT_MAX -> (o = Dec -> 1 <= c) ->
  refcount_loop (iteration o) spurious c c =
    Some (if c =? CRYPTO_REFCOUNT_MAX then (c, 0)
          else match o with Inc => (c + 1, 0) | Dec => (c - 1, b2z (c - 1 =? 0)) end).
Proof.
  intros Hc Hd. induction spurious as [|b spurious IH]; simpl.
  - destruct (iteration o false c c) as [c' r] eqn:E.
    pose proof (iteration_cases _ _ _ _ _ _ Hc Hd E) as [(-> & -> & ->)|[(Hn & _ & -> & ->)|(Hn & -> & ->)]]; [done|..].
    + rewrite (proj2 (Z.eqb_neq _ _) Hn). by destruct o.
    + by apply iteration_succeeds in E.
  - destruct (iteration o b c c) as [c' r] eqn:E.
    destruct (iteration_cases _ _ _ _ _ _ Hc Hd E) as [(-> & -> & ->)|[(Hn & _ & -> & ->)|(Hn & -> & ->)]]; [done|..|done].
    rewrite (proj2 (Z.eqb_neq _ _) Hn). by destruct o.
Qed.

Lemma CRYPTO_refcount_inc_alone spurious c : 0 <= c < CRYPTO_REFCOUNT_MAX -> CRYPTO_refcount_inc spurious c = Some (c + 1, 0).
Proof.
  intros H. unfold CRYPTO_refcount_inc. rewrite (refcount_loop_alone Inc) by (done || lia).
  by rewrite (proj2 (Z.eqb_neq c CRYPTO_REFCOUNT_MAX)) by lia.
Qed.

Lemma CRYPTO_refcount_dec_alone spurious c :
  1 <= c < CRYPTO_REFCOUNT_MAX -> CRYPTO_refcount_dec_and_test_zero spurious c = Some (c - 1, b2z (c - 1 =? 0)).
Proof.
  intros H. unfold CRYPTO_refcount_dec_and_test_zero. rewrite (refcount_loop_alone Dec) by (done || lia).
  by rewrite (proj2 (Z.eqb_neq c CRYPTO_REFCOUNT_MAX)) by lia.
Qed.
