(* ===== verification/Heap.v ===== *)
(** Blocks of memory: what [OPENSSL_malloc], [OPENSSL_realloc] and [OPENSSL_memcpy]
    promise to their callers. The allocator is a parameter: which requests succeed
    and what a fresh block holds. *)
From S2P Require Import Prelude.

Open Scope Z_scope.

Class Malloc := {
  malloc_ok : Z -> bool;
  fresh : Z -> list Z;
  fresh_len : forall n, 0 <= n -> len (fresh n) = n;
}.

Section Heap.
Context `{A : Malloc}.

Definition OPENSSL_malloc (n : Z) : option (list Z) := if malloc_ok n then Some (fresh n) else None.
Definition OPENSSL_zalloc (n : Z) : option (list Z) := if malloc_ok n then Some (repeat 0 (Z.to_nat n)) else None.
Definition OPENSSL_realloc (old : list Z) (n : Z) : option (list Z) :=
  if malloc_ok n then Some (ztake n old ++ zdrop (len old) (fresh n)) else None.
End Heap.

(** [n] bytes at [off] of a block, and the block after [data] is stored there;
    [None] is an access out of bounds. *)
Definition load_at (block : list Z) (off n : Z) : option (list Z) :=
  if (0 <=? off) && (0 <=? n) && (off + n <=? len block) then Some (ztake n (zdrop off block)) else None.
Definition store_at (block : list Z) (off : Z) (data : list Z) : option (list Z) :=
  if (0 <=? off) && (off + len data <=? len block)
  then Some (ztake off block ++ data ++ zdrop (off + len data) block) else None.

Lemma load_at_ok block off n : 0 <= off -> 0 <= n -> off + n <= len block -> load_at block off n = Some (ztake n (zdrop off block)).
Proof. intros. unfold load_at. by rewrite !(proj2 (Z.leb_le _ _)) by lia. Qed.

Lemma store_at_ok block off data : 0 <= off -> off + len data <= len block ->
  store_at block off data = Some (ztake off block ++ data ++ zdrop (off + len data) block).
Proof. intros. unfold store_at. by rewrite !(proj2 (Z.leb_le _ _)) by lia. Qed.

Lemma store_at_len block off data block' : store_at block off data = Some block' -> len block' = len block.
Proof.
  unfold store_at. destruct (Z.leb_spec 0 off); [|done]. destruct (Z.leb_spec (off + len data) (len block)); [|done].
  simpl. intros [= <-]. pose proof (len_nonneg data). rewrite !len_app, len_ztake, len_zdrop by lia. lia.
Qed.

(** Appending at the end of a prefix of a block. *)
Lemma store_at_append block off data block' :
  store_at block off data = Some block' -> ztake (off + len data) block' = ztake off block ++ data.
Proof.
  unfold store_at. destruct (Z.leb_spec 0 off); [|done]. destruct (Z.leb_spec (off + len data) (len block)); [|done].
  simpl. intros [= <-]. pose proof (len_nonneg data). rewrite app_assoc.
  assert (off + len data = len (ztake off block ++ data)) as -> by (rewrite len_app, len_ztake; lia).
  apply ztake_app_len.
Qed.

Lemma realloc_len `{A : Malloc} old n new : 0 <= n -> OPENSSL_realloc old n = Some new -> len new = n.
Proof.
  intros Hn. unfold OPENSSL_realloc. destruct (malloc_ok n); [|done]. intros [= <-].
  pose proof (fresh_len n Hn). unfold len, ztake, zdrop in *. rewrite length_app, length_take, length_drop. lia.
Qed.

Lemma realloc_prefix `{A : Malloc} old n new k : 0 <= k <= n -> k <= len old -> OPENSSL_realloc old n = Some new -> ztake k new = ztake k old.
Proof.
  intros Hk Ho. unfold OPENSSL_realloc. destruct (malloc_ok n); [|done]. intros [= <-].
  unfold ztake. rewrite take_app_le by (rewrite length_take; unfold len in *; lia).
  rewrite take_take. f_equal. lia.
Qed.

Lemma malloc_len `{A : Malloc} n new : 0 <= n -> OPENSSL_malloc n = Some new -> len new = n.
Proof. intros Hn. unfold OPENSSL_malloc. destruct (malloc_ok n); [|done]. intros [= <-]. by apply fresh_len. Qed.

Lemma ztake_split {A} r n (l : list A) : 0 <= r <= n -> ztake r l ++ ztake (n - r) (zdrop r l) = ztake n l.
Proof.
  intros H. unfold ztake, zdrop. replace (Z.to_nat n) with (Z.to_nat r + Z.to_nat (n - r))%nat by lia.
  by rewrite take_take_drop.
Qed.

(** An allocator that never fails and clears its blocks. *)
Program Definition zeroing_malloc : Malloc := {| malloc_ok _ := true; fresh n := repeat 0 (Z.to_nat n) |}.
Next Obligation. intros n Hn. unfold len. rewrite repeat_length. lia. Qed.
