(* ===== verification/Bio.v ===== *)
(** The BIO layer: crypto/bio/bio.cc and the structures of include/openssl/bio.h.

    BIOs live in a store, a map from addresses (0 is NULL) to structures. A method
    table is named by a number, 0 for NULL, and [methods] gives its functions; a
    missing function is a NULL pointer. An operation returns its result and the
    store after it; [None] is undefined behaviour or [abort]. The error queue is
    not part of the store. *)
From S2P Require Import Prelude.
From S2P Require Import Heap.
From S2P Require Import Refcount.
From stdpp Require Import gmap.

Open Scope Z_scope.

Definition BIO_FLAGS_READ : Z := 0x01.
Definition BIO_FLAGS_WRITE : Z := 0x02.
Definition BIO_FLAGS_IO_SPECIAL : Z := 0x04.
Definition BIO_FLAGS_RWS : Z := Z.lor (Z.lor BIO_FLAGS_READ BIO_FLAGS_WRITE) BIO_FLAGS_IO_SPECIAL.
Definition BIO_FLAGS_SHOULD_RETRY : Z := 0x08.
Definition kRetryFlags : Z := Z.lor BIO_FLAGS_RWS BIO_FLAGS_SHOULD_RETRY.

Definition BIO_CTRL_RESET : Z := 1.
Definition BIO_CTRL_EOF : Z := 2.
Definition BIO_CTRL_INFO : Z := 3.
Definition BIO_CTRL_GET_CLOSE : Z := 8.
Definition BIO_CTRL_SET_CLOSE : Z := 9.
Definition BIO_CTRL_PENDING : Z := 10.
Definition BIO_CTRL_FLUSH : Z := 11.
Definition BIO_CTRL_WPENDING : Z := 13.

Definition INT_MAX : Z := 2 ^ 31 - 1.

(** [ptr] has the type of the state of the BIO's implementation. *)
Record bio_st (T : Type) := mk_bio {
  method : Z;
  init : Z;
  shutdown : Z;
  flags : Z;
  retry_reason : Z;
  num : Z;
  references : Z;
  ptr : T;
  next_bio : Z;
  num_read : Z;
  num_write : Z;
}.
Arguments mk_bio {T}.
Arguments method {T}. Arguments init {T}. Arguments shutdown {T}. Arguments flags {T}. Arguments retry_reason {T}.
Arguments num {T}. Arguments references {T}. Arguments ptr {T}. Arguments next_bio {T}. Arguments num_read {T}. Arguments num_write {T}.

Abbreviation bios T := (gmap Z (bio_st T)).

(** The last argument of a control operation: NULL, a BIO, a state of the
    implementation to take over, or the address of a variable to set. *)
Inductive ctrl_arg (T : Type) := arg_null | arg_bio (b : Z) | arg_ptr (p : T) | arg_out.
Arguments arg_null {T}. Arguments arg_bio {T}. Arguments arg_ptr {T}. Arguments arg_out {T}.

(** A read takes whether the buffer is not NULL and its size, and gives the bytes
    it stored; a write takes the bytes or NULL, and their number. *)
Record bio_method_st (T : Type) := mk_method {
  m_type : Z;
  bwrite : option (bios T -> Z -> option (list Z) -> Z -> option (Z * bios T));
  bread : option (bios T -> Z -> bool -> Z -> option (Z * list Z * bios T));
  bgets : option (bios T -> Z -> bool -> Z -> option (Z * list Z * bios T));
  ctrl : option (bios T -> Z -> Z -> Z -> ctrl_arg T -> option (Z * list Z * bios T));
  create : option (bios T -> Z -> option (Z * bios T));
  destroy : option (bios T -> Z -> option (Z * bios T));
}.
Arguments mk_method {T}.
Arguments m_type {T}. Arguments bwrite {T}. Arguments bread {T}. Arguments bgets {T}. Arguments ctrl {T}.
Arguments create {T}. Arguments destroy {T}.

Definition with_flags {T} (b : bio_st T) (f r : Z) : bio_st T :=
  mk_bio (method b) (init b) (shutdown b) f r (num b) (references b) (ptr b) (next_bio b) (num_read b) (num_write b).
Definition with_ptr {T} (b : bio_st T) (p : T) : bio_st T :=
  mk_bio (method b) (init b) (shutdown b) (flags b) (retry_reason b) (num b) (references b) p (next_bio b) (num_read b) (num_write b).
Definition with_init {T} (b : bio_st T) (i : Z) : bio_st T :=
  mk_bio (method b) i (shutdown b) (flags b) (retry_reason b) (num b) (references b) (ptr b) (next_bio b) (num_read b) (num_write b).
Definition with_shutdown {T} (b : bio_st T) (x : Z) : bio_st T :=
  mk_bio (method b) (init b) x (flags b) (retry_reason b) (num b) (references b) (ptr b) (next_bio b) (num_read b) (num_write b).
Definition with_bio_num {T} (b : bio_st T) (n : Z) : bio_st T :=
  mk_bio (method b) (init b) (shutdown b) (flags b) (retry_reason b) n (references b) (ptr b) (next_bio b) (num_read b) (num_write b).
Definition with_references {T} (b : bio_st T) (n : Z) : bio_st T :=
  mk_bio (method b) (init b) (shutdown b) (flags b) (retry_reason b) (num b) n (ptr b) (next_bio b) (num_read b) (num_write b).
Definition with_next {T} (b : bio_st T) (n : Z) : bio_st T :=
  mk_bio (method b) (init b) (shutdown b) (flags b) (retry_reason b) (num b) (references b) (ptr b) n (num_read b) (num_write b).
Definition with_counts {T} (b : bio_st T) (r w : Z) : bio_st T :=
  mk_bio (method b) (init b) (shutdown b) (flags b) (retry_reason b) (num b) (references b) (ptr b) (next_bio b) r w.

Section Bio.
Context {T : Type} (methods : Z -> option (bio_method_st T)).

(** Changing the structure at an address. *)
Definition update (s : bios T) (bio : Z) (f : bio_st T -> bio_st T) : option (bios T) :=
  b ← s !! bio; Some (<[bio := f b]> s).

(** ** Flags *)
Definition BIO_set_flags (b : bio_st T) (f : Z) : bio_st T := with_flags b (Z.lor (flags b) f) (retry_reason b).
Definition BIO_test_flags (b : bio_st T) (f : Z) : Z := Z.land (flags b) f.
Definition BIO_should_read (b : bio_st T) : Z := BIO_test_flags b BIO_FLAGS_READ.
Definition BIO_should_write (b : bio_st T) : Z := BIO_test_flags b BIO_FLAGS_WRITE.
Definition BIO_should_retry (b : bio_st T) : Z := BIO_test_flags b BIO_FLAGS_SHOULD_RETRY.
Definition BIO_should_io_special (b : bio_st T) : Z := BIO_test_flags b BIO_FLAGS_IO_SPECIAL.
Definition BIO_set_retry_reason (b : bio_st T) (r : Z) : bio_st T := with_flags b (flags b) r.
Definition BIO_clear_flags (b : bio_st T) (f : Z) : bio_st T := with_flags b (Z.land (flags b) (Z.lnot f)) (retry_reason b).
Definition BIO_set_retry_read (b : bio_st T) : bio_st T :=
  BIO_set_flags b (Z.lor BIO_FLAGS_READ BIO_FLAGS_SHOULD_RETRY).
Definition BIO_set_retry_write (b : bio_st T) : bio_st T :=
  BIO_set_flags b (Z.lor BIO_FLAGS_WRITE BIO_FLAGS_SHOULD_RETRY).
Definition BIO_set_retry_special (b : bio_st T) : bio_st T :=
  BIO_set_flags b (Z.lor BIO_FLAGS_READ BIO_FLAGS_IO_SPECIAL).
Definition BIO_get_retry_flags (b : bio_st T) : Z := Z.land (flags b) kRetryFlags.
Definition BIO_clear_retry_flags (b : bio_st T) : bio_st T :=
  with_flags b (Z.land (flags b) (Z.lnot kRetryFlags)) 0.
Definition BIO_copy_next_retry (s : bios T) (bio : Z) : option (bios T) :=
  b ← s !! bio; n ← s !! next_bio b;
  let b := BIO_clear_retry_flags b in
  let n := if next_bio b =? bio then b else n in
  let b := BIO_set_flags b (BIO_get_retry_flags n) in
  Some (<[bio := BIO_set_retry_reason b (retry_reason n)]> s).

(** ** Creation *)
(** [bio] is the address [OPENSSL_zalloc] gives, 0 when it fails, and [zero] the
    cleared state. *)
Definition BIO_new (s : bios T) (bio m : Z) (zero : T) : option (Z * bios T) :=
  if bio =? 0 then Some (0, s)
  else
    mt ← methods m;
    let ret := mk_bio m 0 1 0 0 0 1 zero 0 0 0 in
    let s := <[bio := ret]> s in
    match create mt with
    | None => Some (bio, s)
    | Some f => '(r, s) ← f s bio; if r =? 0 then Some (0, delete bio s) else Some (bio, s)
    end.

Definition BIO_pop (s : bios T) (bio : Z) : option (Z * bios T) :=
  if bio =? 0 then Some (0, s)
  else b ← s !! bio; Some (next_bio b, <[bio := with_next b 0]> s).

(** One reference of each BIO of the chain is given up, as long as it is the last. *)
Fixpoint BIO_free (fuel : nat) (s : bios T) (bio : Z) : option (Z * bios T) :=
  if bio =? 0 then Some (1, s)
  else
    match fuel with
    | O => None
    | S fuel =>
      b ← s !! bio;
      '(c, last) ← CRYPTO_refcount_dec_and_test_zero [] (references b);
      let s := <[bio := with_references b c]> s in
      if last =? 0 then Some (0, s)
      else
        '(next, s) ← BIO_pop s bio;
        '(_, s) ← match methods (method b) with
                  | Some mt => match destroy mt with Some f => f s bio | None => Some (1, s) end
                  | None => Some (1, s)
                  end;
        BIO_free fuel (delete bio s) next
    end.

Definition BIO_up_ref (s : bios T) (bio : Z) : option (Z * bios T) :=
  b ← s !! bio; '(c, _) ← CRYPTO_refcount_inc [] (references b);
  Some (1, <[bio := with_references b c]> s).

(** ** Input and output *)
Definition BIO_read (s : bios T) (bio : Z) (buf : bool) (n : Z) : option (Z * list Z * bios T) :=
  if bio =? 0 then Some (-2, [], s)
  else
    b ← s !! bio;
    match methods (method b) ≫= bread with
    | None => Some (-2, [], s)
    | Some f =>
      if init b =? 0 then Some (-2, [], s)
      else if n <=? 0 then Some (0, [], s)
      else
        '(ret, out, s) ← f s bio buf n;
        if 0 <? ret then
          s ← update s bio (fun b => with_counts b (u64 (num_read b + ret)) (num_write b));
          Some (ret, out, s)
        else Some (ret, out, s)
    end.

Definition BIO_gets (s : bios T) (bio : Z) (buf : bool) (n : Z) : option (Z * list Z * bios T) :=
  if bio =? 0 then Some (-2, [], s)
  else
    b ← s !! bio;
    match methods (method b) ≫= bgets with
    | None => Some (-2, [], s)
    | Some f =>
      if init b =? 0 then Some (-2, [], s)
      else if n <=? 0 then Some (0, [], s)
      else
        '(ret, out, s) ← f s bio buf n;
        if 0 <? ret then
          s ← update s bio (fun b => with_counts b (u64 (num_read b + ret)) (num_write b));
          Some (ret, out, s)
        else Some (ret, out, s)
    end.

Definition BIO_write (s : bios T) (bio : Z) (data : option (list Z)) (inl : Z) : option (Z * bios T) :=
  if bio =? 0 then Some (-2, s)
  else
    b ← s !! bio;
    match methods (method b) ≫= bwrite with
    | None => Some (-2, s)
    | Some f =>
      if init b =? 0 then Some (-2, s)
      else if inl <=? 0 then Some (0, s)
      else
        '(ret, s) ← f s bio data inl;
        if 0 <? ret then
          s ← update s bio (fun b => with_counts b (num_read b) (u64 (num_write b + ret)));
          Some (ret, s)
        else Some (ret, s)
    end.

(** Every iteration consumes a byte at least, so that [length data] iterations are
    enough; a method that claims more than it was given makes the pointer leave
    the buffer. *)
Fixpoint write_all_loop (fuel : nat) (s : bios T) (bio : Z) (data : list Z) : option (Z * bios T) :=
  if 0 <? len data then
    match fuel with
    | O => None
    | S fuel =>
      '(ret, s) ← BIO_write s bio (Some data) (if INT_MAX <? len data then INT_MAX else len data);
      if ret <=? 0 then Some (0, s)
      else if len data <? ret then None
      else write_all_loop fuel s bio (zdrop ret data)
    end
  else Some (1, s).
Definition BIO_write_all (s : bios T) (bio : Z) (data : list Z) : option (Z * bios T) :=
  write_all_loop (length data) s bio data.

Definition BIO_puts (s : bios T) (bio : Z) (str : list Z) : option (Z * bios T) :=
  if INT_MAX <? len str then Some (-1, s) else BIO_write s bio (Some str) (len str).

Fixpoint indent_loop (indent : nat) (s : bios T) (bio : Z) : option (Z * bios T) :=
  match indent with
  | O => Some (1, s)
  | S indent =>
    '(r, s) ← BIO_puts s bio [0x20];
    if negb (r =? 1) then Some (0, s) else indent_loop indent s bio
  end.
Definition BIO_indent (s : bios T) (bio indent max_indent : Z) : option (Z * bios T) :=
  let indent := if max_indent <? indent then max_indent else indent in
  indent_loop (Z.to_nat indent) s bio.

(** ** Control operations *)
Definition BIO_ctrl (s : bios T) (bio cmd larg : Z) (parg : ctrl_arg T) : option (Z * list Z * bios T) :=
  if bio =? 0 then Some (0, [], s)
  else
    b ← s !! bio;
    match methods (method b) ≫= ctrl with
    | None => Some (-2, [], s)
    | Some f => f s bio cmd larg parg
    end.

Definition BIO_flush (s : bios T) (bio : Z) : option (Z * bios T) :=
  '(r, _, s) ← BIO_ctrl s bio BIO_CTRL_FLUSH 0 arg_null; Some (swrap 32 r, s).
Definition BIO_reset (s : bios T) (bio : Z) : option (Z * bios T) :=
  '(r, _, s) ← BIO_ctrl s bio BIO_CTRL_RESET 0 arg_null; Some (swrap 32 r, s).
Definition BIO_eof (s : bios T) (bio : Z) : option (Z * bios T) :=
  '(r, _, s) ← BIO_ctrl s bio BIO_CTRL_EOF 0 arg_null; Some (swrap 32 r, s).
Definition BIO_pending (s : bios T) (bio : Z) : option (Z * bios T) :=
  '(r, _, s) ← BIO_ctrl s bio BIO_CTRL_PENDING 0 arg_null; Some (if r <? 0 then 0 else r, s).
Definition BIO_wpending (s : bios T) (bio : Z) : option (Z * bios T) :=
  '(r, _, s) ← BIO_ctrl s bio BIO_CTRL_WPENDING 0 arg_null; Some (if r <? 0 then 0 else r, s).
Definition BIO_set_close (s : bios T) (bio close_flag : Z) : option (Z * bios T) :=
  '(r, _, s) ← BIO_ctrl s bio BIO_CTRL_SET_CLOSE close_flag arg_null; Some (swrap 32 r, s).

(** ** Chains *)
(** The walk to the last BIO of a chain. *)
Fixpoint last_bio (fuel : nat) (s : bios T) (bio : Z) : option Z :=
  match fuel with
  | O => None
  | S fuel => b ← s !! bio; if next_bio b =? 0 then Some bio else last_bio fuel s (next_bio b)
  end.
Definition BIO_push (s : bios T) (bio appended_bio : Z) : option (Z * bios T) :=
  if bio =? 0 then Some (bio, s)
  else
    last ← last_bio (size s) s bio;
    s ← update s last (fun b => with_next b appended_bio);
    Some (bio, s).
Definition BIO_next (s : bios T) (bio : Z) : option Z :=
  if bio =? 0 then Some 0 else b ← s !! bio; Some (next_bio b).

Fixpoint find_type_loop (fuel : nat) (s : bios T) (bio type : Z) : option Z :=
  match fuel with
  | O => None
  | S fuel =>
    b ← s !! bio;
    let found :=
      match methods (method b) with
      | Some mt => if Z.land type 0xff =? 0 then negb (Z.land (m_type mt) type =? 0) else m_type mt =? type
      | None => false
      end in
    if found then Some bio
    else if next_bio b =? 0 then Some 0
    else find_type_loop fuel s (next_bio b) type
  end.
Definition BIO_find_type (s : bios T) (bio type : Z) : option Z :=
  if bio =? 0 then Some 0 else find_type_loop (size s) s bio type.
End Bio.
