(* ===== verification/BioRead.v ===== *)
(** Reading whole messages from a BIO: bio_read_all, bio_read_full and
    BIO_read_asn1 of crypto/bio/bio.cc. *)
From S2P Require Import Prelude.
From S2P Require Import Heap.
From S2P Require Import Bio.
From stdpp Require Import gmap.

Open Scope Z_scope.

Definition kChunkSize : Z := 4096.
Definition kInitialHeaderLen : Z := 2.

(** A loop has returned, or it is still running after the iterations it was given. *)
Inductive progress (A : Type) := Returned (a : A) | StillRunning.
Arguments Returned {A}. Arguments StillRunning {A}.

Section BioRead.
Context `{P : Platform} `{A : Malloc} {T : Type} (methods : Z -> option (bio_method_st T)).
Local Notation bios := (gmap Z (bio_st T)).

(** The result is the return value, the buffer and the store; [out] is the block
    [*out], of [n] bytes (the variable [len]), of which [done] are filled. *)
Fixpoint read_all_loop (fuel : nat) (s : bios) (bio : Z) (out : list Z) (n done max_len : Z) : option (progress (Z * list Z * bios)) :=
  match fuel with
  | O => Some StillRunning
  | S fuel =>
    if done =? n then Some (Returned (0, [], s))
    else
      let todo := wrap size_bits (n - done) in
      let todo := if INT_MAX <? todo then INT_MAX else todo in
      '(r, data, s) ← BIO_read methods s bio true todo;
      out ← (if 0 <? len data then store_at out done data else Some out);
      if r =? 0 then Some (Returned (1, ztake done out, s))
      else if r =? -1 then Some (Returned (0, [], s))
      else
        let done := wrap size_bits (done + r) in
        if (n <? max_len) && (wrap size_bits (n - done) <? kChunkSize / 2) then
          let n := wrap size_bits (n + kChunkSize) in
          let n := if (n <? kChunkSize) || (max_len <? n) then max_len else n in
          match OPENSSL_realloc out n with
          | None => Some (Returned (0, [], s))
          | Some out => read_all_loop fuel s bio out n done max_len
          end
        else read_all_loop fuel s bio out n done max_len
  end.

Definition bio_read_all (fuel : nat) (s : bios) (bio : Z) (prefix : list Z) (max_len : Z) : option (progress (Z * list Z * bios)) :=
  let n := wrap size_bits (len prefix + kChunkSize) in
  let n := if max_len <? n then max_len else n in
  if n <? len prefix then Some (Returned (0, [], s))
  else
    match OPENSSL_malloc n with
    | None => Some (Returned (0, [], s))
    | Some out =>
      out ← store_at out 0 prefix;
      read_all_loop fuel s bio out n (len prefix) max_len
    end.

(** The return value, [*out_eof_on_first_read] when it fails, the bytes read and
    the store. Each iteration reads a byte at least, so that [n] iterations are
    enough; a method that claims more than it was asked for overflows [out]. *)
Fixpoint read_full_loop (fuel : nat) (s : bios) (bio : Z) (first_read : bool) (n : Z) : option (Z * bool * list Z * bios) :=
  if 0 <? n then
    match fuel with
    | O => None
    | S fuel =>
      let todo := if n <=? INT_MAX then n else INT_MAX in
      '(ret, data, s) ← BIO_read methods s bio true todo;
      if ret <=? 0 then Some (0, first_read && (ret =? 0), [], s)
      else if n <? ret then None
      else
        '(r, eof, rest, s) ← read_full_loop fuel s bio false (n - ret);
        Some (r, eof, data ++ rest, s)
    end
  else Some (1, false, [], s).
Definition bio_read_full (s : bios) (bio n : Z) : option (Z * bool * list Z * bios) :=
  read_full_loop (Z.to_nat n) s bio true n.

(** [len32] after the loop over the length octets. *)
Fixpoint length_octets (len32 : Z) (octets : list Z) : Z :=
  match octets with
  | [] => len32
  | b :: octets => length_octets (Z.lor (u32 (Z.shiftl len32 8)) b) octets
  end.

(** The errors of [BIO_read_asn1]. *)
Inductive asn1_error := ASN1_R_HEADER_TOO_LONG | ASN1_R_NOT_ENOUGH_DATA | ASN1_R_DECODE_ERROR | ASN1_R_TOO_LONG | malloc_failure.

Definition asn1_fail (e : asn1_error) (s : bios) : option (progress (asn1_error + list Z) * bios) := Some (Returned (inl e), s).

(** The last part: [header] is read, [n] octets follow. *)
Definition read_asn1_body (s : bios) (bio : Z) (header : list Z) (n max_len : Z) : option (progress (asn1_error + list Z) * bios) :=
  let header_len := len header in
  if (wrap size_bits (n + header_len) <? n) || (max_len <? wrap size_bits (n + header_len)) || (INT_MAX <? n) then asn1_fail ASN1_R_TOO_LONG s
  else
    let n := wrap size_bits (n + header_len) in
    match OPENSSL_malloc n with
    | None => asn1_fail malloc_failure s
    | Some out =>
      out ← store_at out 0 header;
      '(r, _, body, s) ← bio_read_full s bio (n - header_len);
      out ← store_at out header_len body;
      if r =? 0 then asn1_fail ASN1_R_NOT_ENOUGH_DATA s
      else Some (Returned (inr out), s)
    end.

Definition BIO_read_asn1 (fuel : nat) (s : bios) (bio max_len : Z) : option (progress (asn1_error + list Z) * bios) :=
  '(r, eof_on_first_read, header, s) ← bio_read_full s bio kInitialHeaderLen;
  if r =? 0 then asn1_fail (if (eof_on_first_read : bool) then ASN1_R_HEADER_TOO_LONG else ASN1_R_NOT_ENOUGH_DATA) s
  else
    tag ← znth header 0;
    length_byte ← znth header 1;
    if Z.land tag 0x1f =? 0x1f then asn1_fail ASN1_R_DECODE_ERROR s
    else if Z.land length_byte 0x80 =? 0 then read_asn1_body s bio header length_byte max_len
    else
      let num_bytes := Z.land length_byte 0x7f in
      if negb (Z.land tag 0x20 =? 0) && (num_bytes =? 0) then
        r ← bio_read_all fuel s bio header max_len;
        match r with
        | StillRunning => Some (StillRunning, s)
        | Returned (r, out, s) => if r =? 0 then asn1_fail ASN1_R_NOT_ENOUGH_DATA s else Some (Returned (inr out), s)
        end
      else if (num_bytes =? 0) || (4 <? num_bytes) then asn1_fail ASN1_R_DECODE_ERROR s
      else
        '(r, _, octets, s) ← bio_read_full s bio num_bytes;
        if r =? 0 then asn1_fail ASN1_R_NOT_ENOUGH_DATA s
        else
          let header := header ++ octets in
          let len32 := length_octets 0 octets in
          if len32 <? 128 then asn1_fail ASN1_R_DECODE_ERROR s
          else if Z.shiftr len32 ((num_bytes - 1) * 8) =? 0 then asn1_fail ASN1_R_DECODE_ERROR s
          else read_asn1_body s bio header len32 max_len.
End BioRead.
