(* ===== verification/BioReadProofs.v ===== *)
(** What the readers of crypto/bio/bio.cc do with a BIO that delivers a given
    stream of bytes. The interface [ByteSource] is all they use of the BIO. *)
From S2P Require Import Prelude.
From S2P Require Import Heap.
From S2P Require Import Internal.
From S2P Require Import Mem.
From S2P Require Import Cbs.
From S2P Require Import Asn1.
From S2P Require Import Bio.
From S2P Require Import BioRead.
From stdpp Require Import gmap.

Open Scope Z_scope.

(** [holds s l e]: the BIO will deliver the bytes [l], in pieces of its choice,
    and then answer [e]. *)
Class ByteSource {T} (methods : Z -> option (bio_method_st T)) (bio : Z)
    (holds : gmap Z (bio_st T) -> list Z -> Z -> Prop) := {
  source_end s l e : holds s l e -> e <= 0;
  source_read_end s e n : holds s [] e -> 0 < n <= INT_MAX ->
    exists s', BIO_read methods s bio true n = Some (e, [], s') /\ holds s' [] e;
  source_read s l e n : holds s l e -> l <> [] -> 0 < n <= INT_MAX ->
    exists r s', BIO_read methods s bio true n = Some (r, ztake r l, s') /\
      1 <= r <= n /\ r <= len l /\ holds s' (zdrop r l) e;
}.

(** ** The message a stream starts with *)

(** The contents that follow a header. *)
Definition message_body (max_len : Z) (header : list Z) (n : Z) (rest : list Z) : asn1_error + (list Z * list Z) :=
  if (max_len <? n + len header) || (INT_MAX <? n) then inl ASN1_R_TOO_LONG
  else if len rest <? n then inl ASN1_R_NOT_ENOUGH_DATA
  else inr (header ++ ztake n rest, zdrop n rest).

(** The first element of a stream that ends with [e] and what follows it. *)
Definition asn1_message (l : list Z) (e max_len : Z) : asn1_error + (list Z * list Z) :=
  match l with
  | tag :: lb :: rest =>
    let k := lb - 128 in
    if tag mod 32 =? 31 then inl ASN1_R_DECODE_ERROR
    else if lb <? 128 then message_body max_len [tag; lb] lb rest
    else if Z.odd (tag / 32) && (k =? 0) then
      if (len l <? max_len) && (e =? 0) then inr (l, []) else inl ASN1_R_NOT_ENOUGH_DATA
    else if (k =? 0) || (4 <? k) then inl ASN1_R_DECODE_ERROR
    else if len rest <? k then inl ASN1_R_NOT_ENOUGH_DATA
    else
      let n := be_val (ztake k rest) in
      if (n <? 128) || (n <? 256 ^ (k - 1)) then inl ASN1_R_DECODE_ERROR
      else message_body max_len ([tag; lb] ++ ztake k rest) n (zdrop k rest)
  | [] => inl (if e =? 0 then ASN1_R_HEADER_TOO_LONG else ASN1_R_NOT_ENOUGH_DATA)
  | _ => inl ASN1_R_NOT_ENOUGH_DATA
  end.

Lemma length_octets_val octets v : bytes octets -> 0 <= v -> v * 256 ^ len octets + be_val octets < 2 ^ 32 ->
  length_octets v octets = v * 256 ^ len octets + be_val octets.
Proof.
  revert v. induction octets as [|b octets IH]; intros v Hb Hv H; [change (be_val []) with 0; change (256 ^ len (@nil Z)) with 1; simpl; lia|].
  apply bytes_cons in Hb as [Hb Ho]. cbn [length_octets]. rewrite be_val_cons, len_cons in *.
  rewrite Z.pow_add_r in * by (pose proof (len_nonneg octets); lia). change (256 ^ 1) with 256 in *.
  pose proof (be_val_range octets Ho) as Hr. assert (1 <= 256 ^ len octets) by lia. unfold is_byte in Hb.
  assert (v * 256 + b < 2 ^ 32) by nia.
  assert (Z.lor (u32 (Z.shiftl v 8)) b = v * 256 + b) as ->.
  { unfold wrap. rewrite (Z.mod_small (Z.shiftl v 8)) by (rewrite Z.shiftl_mul_pow2; lia). by rewrite lor_shiftl_add by lia. }
  rewrite IH; [nia|done|nia|nia].
Qed.

Lemma land_0x1f t : (Z.land t 0x1f =? 0x1f) = (t mod 32 =? 31).
Proof. change 0x1f with (Z.ones 5) at 1. by rewrite Z.land_ones by lia. Qed.

Lemma land_0x20 t : negb (Z.land t 0x20 =? 0) = Z.odd (t / 32).
Proof.
  change 32 with (2 ^ 5). rewrite <- Z.shiftr_div_pow2, <- Z.bit0_odd, Z.shiftr_spec by lia. change (0 + 5) with 5.
  destruct (Z.testbit t 5) eqn:E.
  - rewrite negb_true_iff, Z.eqb_neq. intros H. assert (Z.testbit (Z.land t (2 ^ 5)) 5 = false) as H1 by (rewrite H; by rewrite Z.bits_0).
    rewrite Z.land_spec, E in H1. done.
  - rewrite negb_false_iff, Z.eqb_eq. apply Z.bits_inj'. intros i Hi. rewrite Z.land_spec, Z.bits_0, Z.pow2_bits_eqb by lia.
    destruct (Z.eqb_spec 5 i) as [<-|]; [by rewrite E|apply andb_false_r].
Qed.

(** An element: an identifier of one octet, the length in its shortest form, contents. *)
Definition definite_element (tag : Z) (body : list Z) : list Z := tag :: der_length (len body) ++ body.

Lemma message_body_iff max_len header n l out rest : 0 <= n ->
  message_body max_len header n l = inr (out, rest) <->
  exists body, l = body ++ rest /\ len body = n /\ out = header ++ body /\ len out <= max_len /\ n <= INT_MAX.
Proof.
  intros Hn. unfold message_body. split.
  - destruct (Z.ltb_spec max_len (n + len header)); [done|]. destruct (Z.ltb_spec INT_MAX n); [done|]. cbn [orb].
    destruct (Z.ltb_spec (len l) n); [done|]. intros [= <- <-].
    exists (ztake n l). rewrite ztake_zdrop, len_app, len_ztake by lia. intuition lia.
  - intros (body & -> & <- & -> & H1 & H2). rewrite len_app in H1. pose proof (len_nonneg rest).
    rewrite !(proj2 (Z.ltb_ge _ _)) by lia. cbn [orb]. rewrite (proj2 (Z.ltb_ge _ _)) by (rewrite len_app; lia).
    by rewrite ztake_app_len, zdrop_app_len.
Qed.

Lemma asn1_message_iff l e max_len out rest : bytes l ->
  asn1_message l e max_len = inr (out, rest) <->
  (exists tag body, l = out ++ rest /\ out = definite_element tag body /\ tag mod 32 <> 31 /\ len out <= max_len /\ len body <= INT_MAX) \/
  (exists tag k, l = tag :: 0x80 :: k /\ out = l /\ rest = [] /\ tag mod 32 <> 31 /\ Z.odd (tag / 32) = true /\ e = 0 /\ len l < max_len).
Proof.
  intros Hb. unfold definite_element. split.
  - destruct l as [|tag [|lb l]]; [done|done|]. apply bytes_cons in Hb as [Ht Hb]. apply bytes_cons in Hb as [Hlb Hb].
    unfold is_byte in *. unfold asn1_message. destruct (Z.eqb_spec (tag mod 32) 31); [done|].
    destruct (Z.ltb_spec lb 128).
    + intros (body & -> & Hl & -> & H1 & H2)%message_body_iff; [|lia]. left. exists tag, body.
      unfold der_length. rewrite Hl, (proj2 (Z.ltb_lt lb 128)) by lia. done.
    + destruct (Z.odd (tag / 32) && (lb - 128 =? 0)) eqn:Hi.
      { apply andb_true_iff in Hi as [Hodd Hi]. destruct (Z.ltb_spec (len (tag :: lb :: l)) max_len); [|done]. destruct (Z.eqb_spec e 0); [|done]. cbn [andb].
        intros [= <- <-]. right. exists tag, l. replace lb with 128 in * by lia. done. }
      destruct ((lb - 128 =? 0) || (4 <? lb - 128)) eqn:Hk; [done|]. assert (1 <= lb - 128 <= 4) as Hk' by lia. clear Hk.
      destruct (Z.ltb_spec (len l) (lb - 128)); [done|]. set (v := be_val (ztake (lb - 128) l)).
      destruct (Z.ltb_spec v 128); [done|]. destruct (Z.ltb_spec v (256 ^ (lb - 128 - 1))); [done|]. cbn [orb].
      intros (body & Hbody & Hl & -> & H3 & H4)%message_body_iff; [|lia]. left. exists tag, body.
      assert (len (ztake (lb - 128) l) = lb - 128) as Hlk by (rewrite len_ztake; lia).
      rewrite Hl. subst v. rewrite (der_length_long (ztake (lb - 128) l)) by (rewrite ?Hlk; try lia; by apply bytes_ztake).
      rewrite Hlk. replace (128 + (lb - 128)) with lb by lia. split; [|split_and!; try done; lia].
      cbn [app]. do 2 f_equal. rewrite <- app_assoc, <- Hbody. symmetry. apply ztake_zdrop.
  - intros [(tag & body & -> & -> & Htag & H1 & H2)|(tag & k & -> & -> & -> & Htag & Hodd & -> & H1)].
    + pose proof (len_nonneg body) as Hbody. destruct (Z.lt_ge_cases (len body) 128) as [Hs|Hs].
      * assert (der_length (len body) = [len body]) as E by (unfold der_length; by rewrite (proj2 (Z.ltb_lt _ _) Hs)). rewrite E in *.
        cbn [app]. unfold asn1_message. rewrite (proj2 (Z.eqb_neq _ _) Htag), (proj2 (Z.ltb_lt _ _) Hs).
        apply message_body_iff; [done|]. by exists body.
      * destruct (der_length_long_inv (len body)) as (k & Hbk & Hk & Hv & Hmin & E); [unfold INT_MAX in *; lia|]. rewrite E in *.
        cbn [app]. unfold asn1_message. rewrite (proj2 (Z.eqb_neq _ _) Htag), (proj2 (Z.ltb_ge (128 + len k) 128)) by lia.
        replace (128 + len k - 128) with (len k) by lia. rewrite (proj2 (Z.eqb_neq (len k) 0)), andb_false_r by lia.
        rewrite (proj2 (Z.ltb_ge 4 (len k))) by lia. cbn [orb].
        rewrite <- app_assoc. rewrite (proj2 (Z.ltb_ge (len (k ++ body ++ rest)) (len k))) by (rewrite len_app; pose proof (len_nonneg (body ++ rest)); lia).
        rewrite ztake_app_len, zdrop_app_len, Hv, !(proj2 (Z.ltb_ge _ _)) by lia. cbn [orb].
        apply message_body_iff; [done|]. exists body. by rewrite <- app_assoc.
    + unfold asn1_message. rewrite (proj2 (Z.eqb_neq _ _) Htag), Hodd. cbn. by rewrite (proj2 (Z.ltb_lt _ _) H1).
Qed.

Section Source.
Context `{P : Platform} `{A : Malloc} {T : Type} (methods : Z -> option (bio_method_st T)) (bio : Z).
Context (holds : gmap Z (bio_st T) -> list Z -> Z -> Prop) `{Src : !ByteSource methods bio holds}.

Lemma todo_range n : 0 < n -> 0 < (if n <=? INT_MAX then n else INT_MAX) <= INT_MAX /\ (if n <=? INT_MAX then n else INT_MAX) <= n.
Proof. intros H. unfold INT_MAX. zcases; lia. Qed.

Lemma read_full_loop_ok fuel s l e first n :
  holds s l e -> 0 <= n <= len l -> n <= Z.of_nat fuel ->
  exists s', read_full_loop methods fuel s bio first n = Some (1, false, ztake n l, s') /\ holds s' (zdrop n l) e.
Proof.
  revert s l first n. induction fuel as [|fuel IH]; intros s l first n Hs Hn Hf; simpl.
  - assert (n = 0) as -> by lia. simpl. rewrite ztake_0, zdrop_0. eauto.
  - destruct (Z.ltb_spec 0 n) as [Hp|Hp]; [|assert (n = 0) as -> by lia; rewrite ztake_0, zdrop_0; eauto].
    destruct (todo_range n Hp) as [Ht Htn].
    destruct (source_read s l e (if n <=? INT_MAX then n else INT_MAX) Hs) as (r & s1 & E & Hr & Hrl & Hs1); [intros ->; change (len (@nil Z)) with 0 in Hn; lia|done|].
    rewrite E. cbn [mbind option_bind]. rewrite (proj2 (Z.leb_gt r 0)), (proj2 (Z.ltb_ge n r)) by lia.
    destruct (IH s1 (zdrop r l) false (n - r) Hs1) as (s2 & E2 & Hs2); [rewrite len_zdrop; lia|lia|].
    rewrite E2. cbn [mbind option_bind]. exists s2. split.
    + by rewrite ztake_split by lia.
    + rewrite zdrop_zdrop in Hs2 by lia. by replace (r + (n - r)) with n in Hs2 by lia.
Qed.

Lemma read_full_loop_short fuel s l e first n :
  holds s l e -> len l < n -> len l < Z.of_nat fuel ->
  exists s', read_full_loop methods fuel s bio first n = Some (0, first && (len l =? 0) && (e =? 0), l, s') /\ holds s' [] e.
Proof.
  revert s l first n. induction fuel as [|fuel IH]; intros s l first n Hs Hn Hf; [pose proof (len_nonneg l); lia|]. simpl.
  pose proof (len_nonneg l) as Hl. rewrite (proj2 (Z.ltb_lt 0 n)) by lia.
  destruct (todo_range n ltac:(lia)) as [Ht Htn]. destruct l as [|x l'].
  - destruct (source_read_end s e _ Hs Ht) as (s1 & -> & Hs1). cbn [mbind option_bind].
    rewrite (proj2 (Z.leb_le e 0)) by (by eapply source_end). rewrite andb_true_r. eauto.
  - destruct (source_read s (x :: l') e (if n <=? INT_MAX then n else INT_MAX) Hs) as (r & s1 & -> & Hr & Hrl & Hs1); [done|done|].
    cbn [mbind option_bind]. rewrite (proj2 (Z.leb_gt r 0)), (proj2 (Z.ltb_ge n r)) by lia.
    destruct (IH s1 (zdrop r (x :: l')) false (n - r) Hs1) as (s2 & -> & Hs2); [rewrite len_zdrop; lia..|].
    cbn [mbind option_bind]. exists s2. split; [|done]. rewrite ztake_zdrop.
    rewrite (proj2 (Z.eqb_neq (len (x :: l')) 0)) by (rewrite len_cons; pose proof (len_nonneg l'); lia). by rewrite andb_false_r.
Qed.

Lemma bio_read_full_ok s l e n :
  holds s l e -> 0 <= n <= len l ->
  exists s', bio_read_full methods s bio n = Some (1, false, ztake n l, s') /\ holds s' (zdrop n l) e.
Proof. intros Hs Hn. apply read_full_loop_ok; [done|done|lia]. Qed.

Lemma bio_read_full_short s l e n :
  holds s l e -> len l < n ->
  exists s', bio_read_full methods s bio n = Some (0, (len l =? 0) && (e =? 0), l, s') /\ holds s' [] e.
Proof. intros Hs Hn. pose proof (len_nonneg l). apply (read_full_loop_short (Z.to_nat n) s l e true n); [done|done|lia]. Qed.

(** ** Reading everything *)

Lemma grow_size n max_len : 0 <= n < max_len -> max_len <= size_max ->
  let m := wrap size_bits (n + kChunkSize) in
  let m := if (m <? kChunkSize) || (max_len <? m) then max_len else m in
  n < m <= max_len /\ (m < max_len -> kChunkSize <= m - n).
Proof.
  intros Hn Hm. unfold size_max, kChunkSize, wrap in *. cbv zeta.
  assert (4096 < 2 ^ size_bits) by (platform; lia).
  destruct (Z.lt_ge_cases (n + 4096) (2 ^ size_bits)) as [Hc|Hc].
  - rewrite (Z.mod_small (n + 4096)) by lia. zcases; simpl; lia.
  - rewrite <- (Z.mod_unique (n + 4096) (2 ^ size_bits) 1 (n + 4096 - 2 ^ size_bits)) by lia. zcases; simpl; lia.
Qed.

Lemma read_all_loop_ok fuel s l e out n done max_len :
  holds s l e -> -1 <= e -> len out = n -> 0 <= done <= n -> n <= max_len <= size_max ->
  (n < max_len -> kChunkSize / 2 <= n - done) ->
  (forall m, 0 <= m <= max_len -> malloc_ok m = true) -> len l < Z.of_nat fuel ->
  exists s', read_all_loop methods fuel s bio out n done max_len =
    Some (Returned (if (done + len l <? max_len) && (e =? 0) then (1, ztake done out ++ l, s') else (0, [], s'))) /\
    (done + len l < max_len -> holds s' [] e).
Proof.
  revert s l out n done. induction fuel as [|fuel IH]; intros s l out n done Hs He Ho Hd Hn Hroom Hm Hf; [pose proof (len_nonneg l); lia|].
  simpl. pose proof (len_nonneg l) as Hl. change (kChunkSize / 2) with 2048 in *. unfold size_max in *.
  destruct (Z.eqb_spec done n) as [Hfull|Hfull].
  { exists s. rewrite (proj2 (Z.ltb_ge (done + len l) max_len)) by lia. split; [done|]. intros; lia. }
  assert (wrap size_bits (n - done) = n - done) as -> by (apply Z.mod_small; lia).
  assert (0 < (if INT_MAX <? n - done then INT_MAX else n - done) <= INT_MAX /\ (if INT_MAX <? n - done then INT_MAX else n - done) <= n - done) as [Ht Htn]
    by (unfold INT_MAX; zcases; lia).
  destruct l as [|x l'].
  - destruct (source_read_end s e _ Hs Ht) as (s1 & -> & Hs1). cbn [mbind option_bind].
    change (len (@nil Z)) with 0 in *. cbn [Z.ltb Z.compare]. cbn [mbind option_bind].
    destruct (Z.eqb_spec e 0) as [->|He0].
    + exists s1. rewrite (proj2 (Z.ltb_lt (done + 0) max_len)) by lia. by rewrite app_nil_r.
    + assert (e = -1) as -> by (pose proof (source_end _ _ _ Hs); lia). exists s1. by rewrite andb_false_r.
  - set (l := x :: l') in *. destruct (source_read s l e _ Hs ltac:(done) Ht) as (r & s1 & -> & Hr & Hrl & Hs1). cbn [mbind option_bind].
    rewrite len_ztake by lia. rewrite (proj2 (Z.ltb_lt 0 r)) by lia.
    destruct (store_at out done (ztake r l)) as [out1|] eqn:Est; [|unfold store_at in Est; rewrite len_ztake, !(proj2 (Z.leb_le _ _)) in Est by lia; done].
    pose proof (store_at_len _ _ _ _ Est) as Ho1. pose proof (store_at_append _ _ _ _ Est) as Happ. rewrite len_ztake in Happ by lia.
    cbn [mbind option_bind]. rewrite (proj2 (Z.eqb_neq r 0)), (proj2 (Z.eqb_neq r (-1))) by lia.
    assert (wrap size_bits (done + r) = done + r) as -> by (apply Z.mod_small; lia).
    assert (wrap size_bits (n - (done + r)) = n - (done + r)) as -> by (apply Z.mod_small; lia).
    assert (forall out', ztake (done + r) out' = ztake (done + r) out1 -> ztake (done + r) out' ++ zdrop r l = ztake done out ++ l) as Hcat.
    { intros out' ->. rewrite Happ, <- app_assoc. f_equal. apply ztake_zdrop. }
    assert (done + r + len (zdrop r l) = done + len l) as Htot by (rewrite len_zdrop; lia).
    assert (len (zdrop r l) < Z.of_nat fuel) as Hf1 by (rewrite len_zdrop; lia).
    destruct (Z.ltb_spec n max_len) as [Hg|Hg]; simpl; [destruct (Z.ltb_spec (n - (done + r)) 2048) as [Hg2|Hg2]|].
    + destruct (grow_size n max_len) as [Hn2 Hroom2]; [lia|unfold size_max; lia|]. cbv zeta in Hn2, Hroom2.
      set (n2 := if (wrap size_bits (n + kChunkSize) <? kChunkSize) || _ then _ else _) in *.
      destruct (OPENSSL_realloc out1 n2) as [out2|] eqn:Er; [|unfold OPENSSL_realloc in Er; rewrite Hm in Er by lia; done].
      destruct (IH s1 (zdrop r l) out2 n2 (done + r) Hs1) as (s2 & -> & H2); [done| |lia|lia| |done|done|].
      * eapply realloc_len; [|exact Er]. lia.
      * unfold kChunkSize in *. lia.
      * exists s2. rewrite Htot in *. split; [|done]. rewrite Hcat; [done|]. eapply realloc_prefix; [| |exact Er]; lia.
    + destruct (IH s1 (zdrop r l) out1 n (done + r) Hs1) as (s2 & -> & H2); [done|lia|lia|lia|lia|done|done|].
      exists s2. rewrite Htot in *. by rewrite Hcat.
    + destruct (IH s1 (zdrop r l) out1 n (done + r) Hs1) as (s2 & -> & H2); [done|lia|lia|lia|lia|done|done|].
      exists s2. rewrite Htot in *. by rewrite Hcat.
Qed.

Lemma bio_read_all_ok fuel s l e prefix max_len :
  holds s l e -> -1 <= e -> 0 <= max_len <= size_max -> len prefix = 2 ->
  (forall m, 0 <= m <= max_len -> malloc_ok m = true) -> len l < Z.of_nat fuel ->
  exists s', bio_read_all methods fuel s bio prefix max_len =
    Some (Returned (if (2 + len l <? max_len) && (e =? 0) then (1, prefix ++ l, s') else (0, [], s'))) /\
    (2 + len l < max_len -> holds s' [] e).
Proof.
  intros Hs He Hm Hp Hok Hf. unfold bio_read_all, size_max in *. rewrite Hp.
  assert (wrap size_bits (2 + kChunkSize) = 4098) as -> by (apply Z.mod_small; unfold kChunkSize; platform; lia).
  set (n := if max_len <? 4098 then max_len else 4098).
  pose proof (len_nonneg l) as Hl.
  destruct (Z.lt_ge_cases max_len 2) as [Hsmall|Hbig].
  { assert (n = max_len) as -> by (subst n; zcases; lia). rewrite (proj2 (Z.ltb_lt max_len 2)) by lia.
    exists s. rewrite (proj2 (Z.ltb_ge (2 + len l) max_len)) by lia. split; [done|]. intros; lia. }
  assert (2 <= n <= max_len /\ (n < max_len -> n = 4098)) as [Hn Hn'] by (subst n; zcases; lia).
  rewrite (proj2 (Z.ltb_ge n 2)) by lia.
  destruct (OPENSSL_malloc n) as [out|] eqn:Em; [|unfold OPENSSL_malloc in Em; rewrite Hok in Em by lia; done].
  assert (len out = n) as Hlo by (eapply malloc_len; [|done]; lia).
  destruct (store_at out 0 prefix) as [out1|] eqn:Es; [|rewrite store_at_ok in Es by lia; done]. cbn [mbind option_bind].
  pose proof (store_at_append _ _ _ _ Es) as Happ. pose proof (store_at_len _ _ _ _ Es) as Hl1.
  destruct (read_all_loop_ok fuel s l e out1 n 2 max_len Hs) as (s' & -> & Hs'); [done|lia|lia|unfold size_max; lia| |done|done|].
  { change (kChunkSize / 2) with 2048. lia. }
  exists s'. split; [|done]. replace (ztake 2 out1) with prefix; [done|].
  replace (0 + len prefix) with 2 in Happ by lia. rewrite Happ. by rewrite ztake_0.
Qed.

Lemma read_asn1_body_ok s l e header n max_len :
  holds s l e -> 0 <= n < 2 ^ 32 -> len header <= 6 -> max_len <= size_max ->
  (forall m, 0 <= m <= max_len -> malloc_ok m = true) ->
  exists s', read_asn1_body methods s bio header n max_len =
    Some (Returned (match message_body max_len header n l with inl e => inl e | inr (out, _) => inr out end), s') /\
    match message_body max_len header n l with inl _ => True | inr (_, rest) => holds s' rest e end.
Proof.
  intros Hs Hn Hh Hm Hok. unfold read_asn1_body, message_body, size_max in *. pose proof (len_nonneg header) as Hh0.
  assert (((wrap size_bits (n + len header) <? n) || (max_len <? wrap size_bits (n + len header)) || (INT_MAX <? n))
    = (max_len <? n + len header) || (INT_MAX <? n)) as ->.
  { destruct (Z.ltb_spec INT_MAX n); [by rewrite !orb_true_r|]. rewrite !orb_false_r.
    unfold INT_MAX in *. assert (wrap size_bits (n + len header) = n + len header) as -> by (apply Z.mod_small; platform; lia).
    rewrite (proj2 (Z.ltb_ge (n + len header) n)) by lia. done. }
  destruct (Z.ltb_spec max_len (n + len header)); [by exists s|]. cbn [orb].
  destruct (Z.ltb_spec INT_MAX n); [by exists s|].
  assert (wrap size_bits (n + len header) = n + len header) as -> by (apply Z.mod_small; unfold INT_MAX in *; platform; lia).
  destruct (OPENSSL_malloc (n + len header)) as [out|] eqn:Em; [|unfold OPENSSL_malloc in Em; rewrite Hok in Em by lia; done].
  assert (len out = n + len header) as Hlo by (eapply malloc_len; [|done]; lia).
  rewrite store_at_ok by lia. cbn [mbind option_bind]. rewrite ztake_0. cbn [app].
  replace (n + len header - len header) with n by lia.
  set (out1 := header ++ zdrop (0 + len header) out). assert (len out1 = n + len header) as Hl1 by (subst out1; rewrite len_app, len_zdrop; lia).
  destruct (Z.ltb_spec (len l) n).
  - destruct (bio_read_full_short s l e n Hs) as (s1 & -> & Hs1); [done|]. cbn [mbind option_bind].
    rewrite store_at_ok by lia. by exists s1.
  - destruct (bio_read_full_ok s l e n Hs) as (s1 & -> & Hs1); [lia|]. cbn [mbind option_bind].
    assert (len (ztake n l) = n) as Hlt by (rewrite len_ztake; lia).
    rewrite store_at_ok by lia. exists s1. split; [|done]. cbn [mbind option_bind]. do 4 f_equal.
    assert (len header + n = len out1) as Hlo' by lia.
    subst out1. rewrite ztake_app_len. f_equal. rewrite Hlt, Hlo', zdrop_all. by rewrite app_nil_r.
Qed.

Lemma BIO_read_asn1_message fuel s l e max_len :
  holds s l e -> bytes l -> -1 <= e -> 0 <= max_len <= size_max ->
  (forall m, 0 <= m <= max_len -> malloc_ok m = true) -> len l < Z.of_nat fuel ->
  exists s', BIO_read_asn1 methods fuel s bio max_len =
    Some (Returned (match asn1_message l e max_len with inl e => inl e | inr (out, _) => inr out end), s') /\
    match asn1_message l e max_len with inl _ => True | inr (_, rest) => holds s' rest e end.
Proof.
  intros Hs Hb He Hm Hok Hf. unfold BIO_read_asn1, kInitialHeaderLen.
  destruct l as [|tag [|lb rest]].
  - destruct (bio_read_full_short s [] e 2 Hs) as (s1 & -> & Hs1); [done|]. exists s1. split; [|done].
    change (len (@nil Z)) with 0. cbn [mbind option_bind]. change (0 =? 0) with true. simpl. by destruct (e =? 0).
  - destruct (bio_read_full_short s [tag] e 2 Hs) as (s1 & -> & Hs1); [done|]. by exists s1.
  - rewrite !len_cons in Hf. pose proof (len_nonneg rest) as Hr.
    destruct (bio_read_full_ok s (tag :: lb :: rest) e 2 Hs) as (s1 & -> & Hs1); [rewrite !len_cons; lia|].
    change (ztake 2 (tag :: lb :: rest)) with [tag; lb]. change (zdrop 2 (tag :: lb :: rest)) with rest in Hs1.
    cbn [mbind option_bind]. change (znth [tag; lb] 0) with (Some tag). change (znth [tag; lb] 1) with (Some lb). cbn [mbind option_bind].
    change (1 =? 0) with false. cbn match. unfold asn1_message.
    apply bytes_cons in Hb as [Ht Hb]. apply bytes_cons in Hb as [Hlb Hb].
    rewrite land_0x1f, land_128, land_127, land_0x20 by done. unfold is_byte in *.
    destruct (tag mod 32 =? 31); [by exists s1|].
    destruct (Z.ltb_spec lb 128); [apply read_asn1_body_ok; [done|lia|change (len [tag; lb]) with 2; lia|lia|done]|].
    replace (lb mod 128) with (lb - 128) by (Z.div_mod_to_equations; lia).
    destruct (Z.odd (tag / 32) && (lb - 128 =? 0)).
    + destruct (bio_read_all_ok fuel s1 rest e [tag; lb] max_len Hs1) as (s2 & -> & Hs2); [done|done|done|done|lia|].
      cbn [mbind option_bind]. exists s2. rewrite !len_cons. replace (len rest + 1 + 1) with (2 + len rest) by lia.
      destruct (Z.ltb_spec (2 + len rest) max_len); [|done]. destruct (Z.eqb_spec e 0); simpl; auto.
    + destruct ((lb - 128 =? 0) || (4 <? lb - 128)) eqn:Hk; [by exists s1|].
      assert (1 <= lb - 128 <= 4) as Hk' by lia. clear Hk.
      destruct (Z.ltb_spec (len rest) (lb - 128)).
      * destruct (bio_read_full_short s1 rest e (lb - 128) Hs1) as (s2 & -> & _); [done|]. by exists s2.
      * destruct (bio_read_full_ok s1 rest e (lb - 128) Hs1) as (s2 & -> & Hs2); [lia|].
        cbn [mbind option_bind]. change (1 =? 0) with false. cbn match.
        assert (len (ztake (lb - 128) rest) = lb - 128) as Hlk by (rewrite len_ztake; lia).
        pose proof (be_val_range _ (bytes_ztake (lb - 128) rest Hb)) as Hv. rewrite Hlk in Hv.
        assert (256 ^ (lb - 128) <= 256 ^ 4) by (apply Z.pow_le_mono_r; lia).
        rewrite length_octets_val by (first [by apply bytes_ztake|lia]).
        rewrite Z.mul_0_l, Z.add_0_l, shiftr_bytes by lia.
        destruct (be_val (ztake (lb - 128) rest) <? 128); [by exists s2|]. cbn [orb].
        destruct (_ <? 256 ^ _); [by exists s2|].
        apply read_asn1_body_ok; [done|lia|rewrite len_app, Hlk; change (len [tag; lb]) with 2; lia|lia|done].
Qed.

(** ** An error other than -1 *)

Lemma wrap_sub n k : 0 <= n < 2 ^ size_bits -> wrap size_bits (n - wrap size_bits k) = wrap size_bits (n - k).
Proof. intros _. unfold wrap. apply Zminus_mod_idemp_r. Qed.

(** Each answer -2 moves [done] back by two, below the start of the buffer and round
    the end of [size_t]. *)
Lemma read_all_loop_stuck fuel s out n k max_len :
  holds s [] (-2) -> 2 < n <= 4098 -> n <= max_len -> (n < max_len -> n = 4098) -> 0 <= k -> k + Z.of_nat fuel <= 2 ^ 30 ->
  read_all_loop methods fuel s bio out n (wrap size_bits (2 - 2 * k)) max_len = Some StillRunning.
Proof.
  revert s k. induction fuel as [|fuel IH]; intros s k Hs Hn Hm Hn' Hk Hf; [done|]. cbn [read_all_loop].
  assert (2 ^ 32 <= 2 ^ size_bits) as Hw by (platform; lia).
  assert (forall j, 0 <= j <= 2 ^ 30 -> wrap size_bits (n - wrap size_bits (2 - 2 * j)) = n - 2 + 2 * j) as Hsub.
  { intros j Hj. rewrite wrap_sub by lia. unfold wrap. rewrite Z.mod_small; lia. }
  assert (wrap size_bits (2 - 2 * k) <> n) as Hne.
  { intros E. pose proof (Hsub k) as H. rewrite E, Z.sub_diag in H. change (wrap size_bits 0) with (0 mod 2 ^ size_bits) in H. rewrite Z.mod_0_l in H; lia. }
  rewrite (proj2 (Z.eqb_neq _ _) Hne), Hsub by lia.
  assert (0 < (if INT_MAX <? n - 2 + 2 * k then INT_MAX else n - 2 + 2 * k) <= INT_MAX) as Ht by (unfold INT_MAX; zcases; lia).
  destruct (source_read_end s (-2) _ Hs Ht) as (s1 & -> & Hs1). cbn [mbind option_bind].
  change (0 <? len (@nil Z)) with false. cbn [mbind option_bind]. change (-2 =? 0) with false. change (-2 =? -1) with false. cbn match.
  assert (wrap size_bits (wrap size_bits (2 - 2 * k) + -2) = wrap size_bits (2 - 2 * (k + 1))) as ->.
  { unfold wrap. rewrite Zplus_mod_idemp_l. f_equal. lia. }
  rewrite Hsub by lia. change (kChunkSize / 2) with 2048.
  assert ((n <? max_len) && (n - 2 + 2 * (k + 1) <? 2048) = false) as ->.
  { destruct (Z.ltb_spec n max_len); [|done]. rewrite Hn' by lia. simpl. apply Z.ltb_ge. lia. }
  apply IH; [done..|lia|lia].
Qed.

Lemma BIO_read_asn1_stuck fuel s tag max_len :
  holds s [tag; 0x80] (-2) -> bytes [tag] -> tag mod 32 <> 31 -> Z.odd (tag / 32) = true -> 2 < max_len <= size_max ->
  (forall m, 0 <= m <= max_len -> malloc_ok m = true) -> Z.of_nat fuel <= 2 ^ 30 ->
  exists s', BIO_read_asn1 methods fuel s bio max_len = Some (StillRunning, s').
Proof.
  intros Hs Hb Ht Hodd Hm Hok Hf. unfold BIO_read_asn1, kInitialHeaderLen.
  destruct (bio_read_full_ok s [tag; 0x80] (-2) 2 Hs) as (s1 & -> & Hs1); [done|].
  change (ztake 2 [tag; 0x80]) with [tag; 0x80]. change (zdrop 2 [tag; 0x80]) with (@nil Z) in Hs1.
  cbn [mbind option_bind]. change (znth [tag; 0x80] 0) with (Some tag). change (znth [tag; 0x80] 1) with (Some 0x80). cbn [mbind option_bind].
  change (1 =? 0) with false. cbn match.
  apply bytes_cons in Hb as [Hb _]. rewrite land_0x1f, land_0x20, (proj2 (Z.eqb_neq _ _) Ht), Hodd.
  change (Z.land 0x80 0x80 =? 0) with false. change (Z.land 0x80 0x7f =? 0) with true. cbn match. cbn [andb].
  unfold bio_read_all, size_max in *. change (len [tag; 0x80]) with 2.
  assert (wrap size_bits (2 + kChunkSize) = 4098) as -> by (apply Z.mod_small; unfold kChunkSize; platform; lia).
  set (n := if max_len <? 4098 then max_len else 4098).
  assert (2 < n <= 4098 /\ n <= max_len /\ (n < max_len -> n = 4098)) as (Hn & Hn1 & Hn2) by (subst n; zcases; lia).
  rewrite (proj2 (Z.ltb_ge n 2)) by lia.
  destruct (OPENSSL_malloc n) as [out|] eqn:Em; [|unfold OPENSSL_malloc in Em; rewrite Hok in Em by lia; done].
  assert (len out = n) as Hlo by (eapply malloc_len; [|done]; lia).
  rewrite store_at_ok by (change (len [tag; 0x80]) with 2; lia). cbn [mbind option_bind].
  pose proof (read_all_loop_stuck fuel s1) as H. specialize (H) with (k := 0).
  assert (wrap size_bits (2 - 2 * 0) = 2) as E by (apply Z.mod_small; platform; lia). rewrite E in H.
  rewrite H by (done || lia). cbn [mbind option_bind]. eauto.
Qed.
End Source.
