(* ===== verification/BioMem.v ===== *)
(** Memory buffers and memory BIOs: crypto/buf/buf.cc and crypto/bio/bio_mem.cc.

    The pointer [data] of a buffer is a block and an offset in it: a read-only BIO
    moves the pointer through the caller's block, the other buffers own a block of
    [max] bytes. *)
From S2P Require Import Prelude.
From S2P Require Import Heap.
From S2P Require Import Bio.
From stdpp Require Import gmap.

Open Scope Z_scope.

Definition BIO_FLAGS_MEM_RDONLY : Z := 0x200.
Definition BIO_TYPE_SOURCE_SINK : Z := 0x0400.
Definition BIO_TYPE_MEM : Z := Z.lor 1 BIO_TYPE_SOURCE_SINK.
Definition BIO_C_SET_BUF_MEM : Z := 114.
Definition BIO_C_GET_BUF_MEM_PTR : Z := 115.
Definition BIO_C_SET_BUF_MEM_EOF_RETURN : Z := 130.

(** [data] is [None] when it is NULL. *)
Record buf_mem_st := mk_buf { length : Z; data : option (list Z * Z); max : Z }.

Abbreviation mem_bios := (gmap Z (bio_st (option buf_mem_st))).

Section BufMem.
Context `{P : Platform} `{A : Malloc}.

Definition sizeof_buf_mem : Z := 3 * (size_bits / 8).

Definition BUF_MEM_new : option buf_mem_st :=
  if malloc_ok sizeof_buf_mem then Some (mk_buf 0 None 0) else None.

(** The block and the offset of [data]; NULL has no bytes. *)
Definition block (b : buf_mem_st) : list Z := match data b with Some (l, _) => l | None => [] end.
Definition off (b : buf_mem_st) : Z := match data b with Some (_, o) => o | None => 0 end.

Definition BUF_MEM_reserve (buf : buf_mem_st) (cap : Z) : Z * buf_mem_st :=
  if cap <=? max buf then (1, buf)
  else
    let n := wrap size_bits (cap + 3) in
    if n <? cap then (0, buf)
    else
      let n := n / 3 in
      let alloc_size := wrap size_bits (n * 4) in
      if negb (alloc_size / 4 =? n) then (0, buf)
      else
        match OPENSSL_realloc (block buf) alloc_size with
        | None => (0, buf)
        | Some new_buf => (1, mk_buf (length buf) (Some (new_buf, 0)) alloc_size)
        end.

(** [None] is an access out of bounds. *)
Definition BUF_MEM_grow (buf : buf_mem_st) (n : Z) : option (Z * buf_mem_st) :=
  let '(ok, buf) := BUF_MEM_reserve buf n in
  if ok =? 0 then Some (0, buf)
  else if length buf <? n then
    l ← store_at (block buf) (off buf + length buf) (repeat 0 (Z.to_nat (n - length buf)));
    Some (n, mk_buf n (Some (l, off buf)) (max buf))
  else Some (n, mk_buf n (data buf) (max buf)).
Definition BUF_MEM_grow_clean (buf : buf_mem_st) (n : Z) : option (Z * buf_mem_st) := BUF_MEM_grow buf n.

Definition BUF_MEM_append (buf : buf_mem_st) (inb : list Z) : option (Z * buf_mem_st) :=
  if len inb =? 0 then Some (1, buf)
  else
    let new_len := wrap size_bits (length buf + len inb) in
    if new_len <? len inb then Some (0, buf)
    else
      let '(ok, buf) := BUF_MEM_reserve buf new_len in
      if ok =? 0 then Some (0, buf)
      else
        l ← store_at (block buf) (off buf + length buf) inb;
        Some (1, mk_buf new_len (Some (l, off buf)) (max buf)).

(** ** Memory BIOs *)

Definition mem_new (s : mem_bios) (bio : Z) : option (Z * mem_bios) :=
  match BUF_MEM_new with
  | None => Some (0, s)
  | Some b =>
    s ← update s bio (fun x => with_ptr (with_bio_num (with_init (with_shutdown x 1) 1) (-1)) (Some b));
    Some (1, s)
  end.

Definition mem_free (s : mem_bios) (bio : Z) : option (Z * mem_bios) :=
  b ← s !! bio;
  if (shutdown b =? 0) || (init b =? 0) || bool_decide (ptr b = None) then Some (1, s)
  else Some (1, <[bio := with_ptr b None]> s).

Definition rdonly {T} (b : bio_st T) : bool := negb (Z.land (flags b) BIO_FLAGS_MEM_RDONLY =? 0).

Definition mem_read (s : mem_bios) (bio : Z) (out : bool) (outl : Z) : option (Z * list Z * mem_bios) :=
  x ← s !! bio;
  let x := BIO_clear_retry_flags x in
  if outl <=? 0 then Some (0, [], <[bio := x]> s)
  else
    b ← ptr x;
    let ret := if length b <? outl then swrap 32 (length b) else outl in
    if 0 <? ret then
      if negb out then None
      else
        bytes ← load_at (block b) (off b) ret;
        let n := length b - ret in
        b ← (if rdonly x then Some (mk_buf n (Some (block b, off b + ret)) (max b))
             else
               rest ← load_at (block b) (off b + ret) n;
               l ← store_at (block b) (off b) rest;
               Some (mk_buf n (Some (l, off b)) (max b)));
        Some (ret, bytes, <[bio := with_ptr x (Some b)]> s)
    else if length b =? 0 then
      let ret := num x in
      let x := if negb (ret =? 0) then BIO_set_retry_read x else x in
      Some (ret, [], <[bio := x]> s)
    else Some (ret, [], <[bio := x]> s).

Definition mem_write (s : mem_bios) (bio : Z) (inb : option (list Z)) (inl : Z) : option (Z * mem_bios) :=
  x ← s !! bio;
  let x := BIO_clear_retry_flags x in
  let s := <[bio := x]> s in
  if inl <=? 0 then Some (0, s)
  else if rdonly x then Some (-1, s)
  else
    b ← ptr x;
    inb ← inb;
    inb ← load_at inb 0 inl;
    '(ok, b) ← BUF_MEM_append b inb;
    let s := <[bio := with_ptr x (Some b)]> s in
    if ok =? 0 then Some (-1, s) else Some (inl, s).

(** The index of the first newline. *)
Fixpoint memchr_newline (i : Z) (l : list Z) : option Z :=
  match l with
  | [] => None
  | c :: l => if c =? 0x0a then Some i else memchr_newline (i + 1) l
  end.

Definition mem_gets (s : mem_bios) (bio : Z) (buf : bool) (size : Z) : option (Z * list Z * mem_bios) :=
  x ← s !! bio;
  let x := BIO_clear_retry_flags x in
  let s := <[bio := x]> s in
  if size <=? 0 then Some (0, [], s)
  else
    b ← ptr x;
    let ret := size - 1 in
    let ret := if length b <? ret then swrap 32 (length b) else ret in
    line ← load_at (block b) (off b) ret;
    let ret := match memchr_newline 0 line with Some i => i + 1 | None => ret end in
    '(ret, out, s) ← mem_read s bio buf ret;
    Some (ret, if 0 <=? ret then out ++ [0] else out, s).

(** The second result is what the pointer the operation stores points to. *)
Definition mem_ctrl (s : mem_bios) (bio cmd num : Z) (arg : ctrl_arg (option buf_mem_st)) : option (Z * list Z * mem_bios) :=
  x ← s !! bio;
  if cmd =? BIO_CTRL_RESET then
    b ← ptr x;
    match data b with
    | None => Some (1, [], s)
    | Some (l, o) =>
      b ← (if rdonly x then Some (mk_buf (max b) (Some (l, o - (max b - length b))) (max b))
           else l ← store_at l o (repeat 0 (Z.to_nat (max b))); Some (mk_buf 0 (Some (l, o)) (max b)));
      Some (1, [], <[bio := with_ptr x (Some b)]> s)
    end
  else if cmd =? BIO_CTRL_EOF then b ← ptr x; Some (b2z (length b =? 0), [], s)
  else if cmd =? BIO_C_SET_BUF_MEM_EOF_RETURN then Some (1, [], <[bio := with_bio_num x (swrap 32 num)]> s)
  else if cmd =? BIO_CTRL_INFO then
    b ← ptr x;
    out ← match arg with arg_null => Some [] | _ => load_at (block b) (off b) (length b) end;
    Some (length b, out, s)
  else if cmd =? BIO_C_SET_BUF_MEM then
    '(_, s) ← mem_free s bio;
    s ← update s bio (fun x => with_ptr (with_shutdown x (swrap 32 num)) (match arg with arg_ptr p => p | _ => None end));
    Some (1, [], s)
  else if cmd =? BIO_C_GET_BUF_MEM_PTR then Some (1, [], s)
  else if cmd =? BIO_CTRL_GET_CLOSE then Some (shutdown x, [], s)
  else if cmd =? BIO_CTRL_SET_CLOSE then Some (1, [], <[bio := with_shutdown x (swrap 32 num)]> s)
  else if cmd =? BIO_CTRL_WPENDING then Some (0, [], s)
  else if cmd =? BIO_CTRL_PENDING then b ← ptr x; Some (length b, [], s)
  else if cmd =? BIO_CTRL_FLUSH then Some (1, [], s)
  else Some (0, [], s).

Definition mem_method : bio_method_st (option buf_mem_st) :=
  mk_method BIO_TYPE_MEM (Some mem_write) (Some mem_read) (Some mem_gets) (Some mem_ctrl) (Some mem_new) (Some mem_free).

(** The only method of these stores; its address is 1. *)
Definition BIO_s_mem : Z := 1.
Definition mem_methods (m : Z) : option (bio_method_st (option buf_mem_st)) :=
  if m =? BIO_s_mem then Some mem_method else None.

(** The position of the terminating NUL of a C string. *)
Fixpoint strlen (l : list Z) : option Z :=
  match l with
  | [] => None
  | c :: l => if c =? 0 then Some 0 else n ← strlen l; Some (n + 1)
  end.

(** [bio] is the address of the new BIO, 0 when its allocation fails. The length is
    taken before the pointer is compared with NULL. *)
Definition BIO_new_mem_buf (s : mem_bios) (bio : Z) (buf : option (list Z)) (n : Z) : option (Z * mem_bios) :=
  size ← (if n <? 0 then l ← buf; strlen l else Some n);
  if bool_decide (buf = None) && negb (n =? 0) then Some (0, s)
  else
    '(ret, s) ← BIO_new mem_methods s bio BIO_s_mem None;
    if ret =? 0 then Some (0, s)
    else
      x ← s !! ret;
      let b := mk_buf size ((fun l => (l, 0)) <$> buf) size in
      let x := with_bio_num (BIO_set_flags (with_ptr x (Some b)) BIO_FLAGS_MEM_RDONLY) 0 in
      Some (ret, <[ret := x]> s).

Definition BIO_mem_contents (s : mem_bios) (bio : Z) : option (option (list Z)) :=
  x ← s !! bio;
  if negb (method x =? BIO_s_mem) then Some None
  else b ← ptr x; l ← load_at (block b) (off b) (length b); Some (Some l).

Definition BIO_get_mem_data (s : mem_bios) (bio : Z) : option (Z * list Z * mem_bios) :=
  BIO_ctrl mem_methods s bio BIO_CTRL_INFO 0 arg_out.
Definition BIO_set_mem_buf (s : mem_bios) (bio : Z) (b : buf_mem_st) (take_ownership : Z) : option (Z * mem_bios) :=
  '(r, _, s) ← BIO_ctrl mem_methods s bio BIO_C_SET_BUF_MEM take_ownership (arg_ptr (Some b)); Some (swrap 32 r, s).
Definition BIO_set_mem_eof_return (s : mem_bios) (bio eof_value : Z) : option (Z * mem_bios) :=
  '(r, _, s) ← BIO_ctrl mem_methods s bio BIO_C_SET_BUF_MEM_EOF_RETURN eof_value arg_null; Some (swrap 32 r, s).
End BufMem.
