(* ===== verification/BioMemProofs.v ===== *)
(** Memory BIOs implement byte queues, and deliver their contents to the readers of
    bio.cc as a stream. *)
From stdpp Require Import gmap.
From S2P Require Import Prelude.
From S2P Require Import Heap.
From S2P Require Import Internal.
From S2P Require Import Mem.
From S2P Require Import Cbs.
From S2P Require Import Asn1.
From S2P Require Import Bio.
From S2P Require Import BioRead.
From S2P Require Import BioReadProofs.
From S2P Require Import BioMem.

Open Scope Z_scope.

(** What a memory BIO is to its user: the bytes [q_all] it was created with when it
    is read-only, the bytes [q_rest] to be read, and the answer at the end. *)
Record queue := mk_queue { q_rdonly : bool; q_all : list Z; q_rest : list Z; q_eof : Z }.

Inductive mem_op := MRead (n : Z) | MGets (n : Z) | MWrite (l : list Z) | MReset | MSetEof (e : Z).

Section MemQueue.
Context `{P : Platform} `{A : Malloc}.

(** Growing a buffer to [n] bytes succeeds. *)
Definition room (n : Z) : Prop :=
  n + 3 <= size_max /\ (n + 3) / 3 * 4 <= size_max /\ malloc_ok ((n + 3) / 3 * 4) = true.

(** The first line of [l], with its newline, cut to [n] bytes. *)
Fixpoint first_line (l : list Z) : list Z :=
  match l with [] => [] | c :: l => if c =? 0x0a then [c] else c :: first_line l end.

(** The operations of a queue: result, bytes delivered, new queue. *)
Inductive queue_step : queue -> mem_op -> Z -> list Z -> queue -> Prop :=
| q_read_end ro all e n :
    queue_step (mk_queue ro all [] e) (MRead n) e [] (mk_queue ro all [] e)
| q_read ro all l1 l2 e n :
    l1 <> [] -> len l1 = Z.min n (len (l1 ++ l2)) ->
    queue_step (mk_queue ro all (l1 ++ l2) e) (MRead n) (len l1) l1 (mk_queue ro all l2 e)
| q_gets ro all l1 l2 e n :
    l1 = first_line (ztake (n - 1) (l1 ++ l2)) ->
    queue_step (mk_queue ro all (l1 ++ l2) e) (MGets n) (len l1) (l1 ++ [0]) (mk_queue ro all l2 e)
| q_write all q e l :
    queue_step (mk_queue false all q e) (MWrite l) (len l) [] (mk_queue false all (q ++ l) e)
| q_write_fail all q e l :
    ~ room (len q + len l) -> queue_step (mk_queue false all q e) (MWrite l) (-1) [] (mk_queue false all q e)
| q_write_rdonly all q e l :
    queue_step (mk_queue true all q e) (MWrite l) (-1) [] (mk_queue true all q e)
| q_reset ro all q e :
    queue_step (mk_queue ro all q e) MReset 1 [] (mk_queue ro all (if ro then all else []) e)
| q_set_eof ro all q e e' :
    queue_step (mk_queue ro all q e) (MSetEof e') 1 [] (mk_queue ro all q e').

(** The operations as calls of the library. *)
Definition mem_exec (s : mem_bios) (bio : Z) (o : mem_op) : option (Z * list Z * mem_bios) :=
  match o with
  | MRead n => BIO_read mem_methods s bio true n
  | MGets n => BIO_gets mem_methods s bio true n
  | MWrite l => '(r, s) ← BIO_write mem_methods s bio (Some l) (len l); Some (r, [], s)
  | MReset => '(r, s) ← BIO_reset mem_methods s bio; Some (r, [], s)
  | MSetEof e => '(r, s) ← BIO_set_mem_eof_return s bio e; Some (r, [], s)
  end.
Fixpoint mem_run (s : mem_bios) (bio : Z) (ops : list mem_op) : option (list (Z * list Z) * mem_bios) :=
  match ops with
  | [] => Some ([], s)
  | o :: ops =>
    '(r, out, s) ← mem_exec s bio o;
    '(rs, s) ← mem_run s bio ops;
    Some ((r, out) :: rs, s)
  end.

Inductive queue_run : queue -> list mem_op -> list (Z * list Z) -> queue -> Prop :=
| run_nil q : queue_run q [] [] q
| run_cons q o r out q1 ops rs q2 :
    queue_step q o r out q1 -> queue_run q1 ops rs q2 -> queue_run q (o :: ops) ((r, out) :: rs) q2.

(** The arguments fit their types. *)
Definition mem_op_ok (o : mem_op) : Prop :=
  match o with
  | MRead n | MGets n => 0 < n <= INT_MAX
  | MWrite l => 0 < len l <= INT_MAX
  | MReset => True
  | MSetEof e => - 2 ^ 31 <= e <= 0
  end.

(** ** The representation *)
Definition buf_ok (ro : bool) (all q : list Z) (b : buf_mem_st) : Prop :=
  length b = len q /\ max b <= size_max /\
  if ro then
    exists pre post, block b = pre ++ q ++ post /\ off b = len pre /\ all = pre ++ q /\ max b = len all /\ (data b = None -> all = [])
  else
    off b = 0 /\ len (block b) = max b /\ ztake (len q) (block b) = q /\ len q <= max b.

Definition mem_ok (s : mem_bios) (bio : Z) (Q : queue) : Prop :=
  bio <> 0 /\ exists x b,
    s !! bio = Some x /\ method x = BIO_s_mem /\ init x <> 0 /\ num x = q_eof Q /\ ptr x = Some b /\
    rdonly x = q_rdonly Q /\ - 2 ^ 31 <= q_eof Q <= 0 /\ buf_ok (q_rdonly Q) (q_all Q) (q_rest Q) b.

Lemma rdonly_clear {T} (x : bio_st T) : rdonly (BIO_clear_retry_flags x) = rdonly x.
Proof.
  unfold rdonly. simpl. unfold BIO_FLAGS_MEM_RDONLY. rewrite <- Z.land_assoc.
  change (Z.land (Z.lnot kRetryFlags) 0x200) with 0x200. done.
Qed.

Lemma rdonly_retry {T} (x : bio_st T) : rdonly (BIO_set_retry_read x) = rdonly x.
Proof.
  unfold rdonly. simpl. unfold BIO_FLAGS_MEM_RDONLY. rewrite Z.land_lor_distr_l. simpl. by rewrite Z.lor_0_r.
Qed.

Lemma mem_lookup s bio Q : mem_ok s bio Q -> exists x, s !! bio = Some x /\ method x = BIO_s_mem /\ init x <> 0.
Proof. intros (_ & x & b & H1 & H2 & H3 & _). eauto. Qed.

Lemma mem_ok_insert s bio x b Q :
  bio <> 0 -> method x = BIO_s_mem -> init x <> 0 -> num x = q_eof Q -> ptr x = Some b -> rdonly x = q_rdonly Q ->
  - 2 ^ 31 <= q_eof Q <= 0 -> buf_ok (q_rdonly Q) (q_all Q) (q_rest Q) b -> mem_ok (<[bio := x]> s) bio Q.
Proof. intros. split; [done|]. exists x, b. rewrite lookup_insert_eq. auto 10. Qed.

Lemma buf_load ro all q b n : buf_ok ro all q b -> 0 <= n <= len q -> load_at (block b) (off b) n = Some (ztake n q).
Proof.
  intros (Hl & Hm & H) Hn. destruct ro.
  - destruct H as (pre & post & E & Ho & _). pose proof (len_nonneg pre). pose proof (len_nonneg post).
    rewrite load_at_ok by (rewrite ?E, ?len_app; lia). rewrite E, Ho, zdrop_app_len. f_equal.
    unfold ztake. rewrite take_app_le; [done|unfold len in *; lia].
  - destruct H as (Ho & Hb & Hq & Hle). rewrite Ho, load_at_ok by lia. rewrite zdrop_0. f_equal.
    rewrite <- Hq at 1. unfold ztake. rewrite take_take. f_equal. lia.
Qed.

(** Taking [n] bytes from the front of the buffer. *)
Lemma buf_take (x : bio_st (option buf_mem_st)) ro all q b n :
  buf_ok ro all q b -> rdonly x = ro -> 0 < n <= len q ->
  exists b', (if rdonly x then Some (mk_buf (length b - n) (Some (block b, off b + n)) (max b))
     else rest ← load_at (block b) (off b + n) (length b - n);
          l ← store_at (block b) (off b) rest; Some (mk_buf (length b - n) (Some (l, off b)) (max b))) = Some b' /\
    buf_ok ro all (zdrop n q) b'.
Proof.
  intros Hb -> Hn. pose proof Hb as (Hl & Hm & H). destruct ro.
  - destruct H as (pre & post & E & Ho & Hall & Hmax & _). eexists. split; [done|].
    split; [simpl; rewrite len_zdrop; lia|]. split; [done|].
    exists (pre ++ ztake n q), post. cbn [block off data max]. repeat split.
    + rewrite E. rewrite <- (ztake_zdrop n q) at 1. by rewrite <- !app_assoc.
    + rewrite len_app, len_ztake; lia.
    + rewrite Hall. rewrite <- (ztake_zdrop n q) at 1. by rewrite app_assoc.
    + done.
    + done.
  - destruct H as (Ho & Hbl & Hq & Hle). rewrite Ho, Hl.
    rewrite load_at_ok by lia. cbn [mbind option_bind].
    assert (ztake (len q - n) (zdrop (0 + n) (block b)) = zdrop n q) as ->.
    { rewrite Z.add_0_l. rewrite <- Hq at 2. unfold ztake, zdrop. rewrite skipn_firstn_comm. f_equal. unfold len. lia. }
    assert (len (zdrop n q) = len q - n) as Hlz by (rewrite len_zdrop; lia).
    destruct (store_at (block b) 0 (zdrop n q)) as [l|] eqn:Es; [|rewrite store_at_ok in Es by lia; done].
    eexists. split; [done|]. pose proof (store_at_append _ _ _ _ Es) as Ha. pose proof (store_at_len _ _ _ _ Es) as Hl'.
    split; [simpl; lia|]. split; [done|]. cbn [block off data max]. repeat split; [lia| |lia].
    rewrite Z.add_0_l, ztake_0 in Ha. done.
Qed.

Lemma swrap_int_small n : 0 <= n <= INT_MAX -> swrap 32 n = n.
Proof. unfold INT_MAX, swrap. intros. change (2 ^ (32 - 1)) with 2147483648. change (2 ^ 32) with 4294967296. rewrite Z.mod_small; lia. Qed.

Lemma mem_read_ok s bio Q n :
  mem_ok s bio Q -> 0 < n <= INT_MAX ->
  exists s', mem_ok s' bio (mk_queue (q_rdonly Q) (q_all Q) (zdrop (Z.min n (len (q_rest Q))) (q_rest Q)) (q_eof Q)) /\
    mem_read s bio true n =
      Some (if len (q_rest Q) =? 0 then q_eof Q else Z.min n (len (q_rest Q)), ztake (Z.min n (len (q_rest Q))) (q_rest Q), s').
Proof.
  intros (H0 & x & b & E & Hme & Hi & Hnum & Hp & Hr & He & Hb) Hn. unfold mem_read. rewrite E. cbn [mbind option_bind].
  rewrite (proj2 (Z.leb_gt n 0)) by lia. cbn [ptr BIO_clear_retry_flags with_flags]. rewrite Hp. cbn [mbind option_bind].
  pose proof Hb as (Hl & Hm & _). destruct Q as [ro all q e]; cbn [q_rdonly q_all q_rest q_eof] in *. rewrite Hl.
  pose proof (len_nonneg q) as Hq.
  assert ((if len q <? n then swrap 32 (len q) else n) = Z.min n (len q)) as ->.
  { destruct (Z.ltb_spec (len q) n); [rewrite swrap_int_small; lia|lia]. }
  destruct (Z.ltb_spec 0 (Z.min n (len q))).
  - rewrite (proj2 (Z.eqb_neq (len q) 0)) by lia. simpl.
    rewrite (buf_load _ _ _ _ _ Hb) by lia. cbn [mbind option_bind].
    rewrite <- (rdonly_clear x) in Hr.
    destruct (buf_take _ _ _ _ _ (Z.min n (len q)) Hb Hr) as (b' & Eb & Hb'); [lia|].
    rewrite Hl in Eb. rewrite Eb. cbn [mbind option_bind]. eexists. split; [|done].
    eapply mem_ok_insert; eauto.
  - assert (len q = 0) as Hz by lia. rewrite Hz, Z.min_r by lia. simpl.
    rewrite ztake_0, zdrop_0. eexists. split; [|by rewrite Hnum].
    assert (rdonly (BIO_set_retry_read (BIO_clear_retry_flags x)) = ro) by (by rewrite rdonly_retry, rdonly_clear).
    assert (rdonly (BIO_clear_retry_flags x) = ro) by (by rewrite rdonly_clear).
    destruct (negb _); eapply mem_ok_insert; eauto.
Qed.

(** The counters of the generic layer do not matter. *)
Lemma mem_ok_counts s bio Q r w :
  mem_ok s bio Q -> exists s', update s bio (fun b => with_counts b (r b) (w b)) = Some s' /\ mem_ok s' bio Q.
Proof.
  intros (H0 & x & b & E & H). unfold update. rewrite E. cbn [mbind option_bind]. eexists. split; [done|].
  eapply mem_ok_insert; intuition eauto.
Qed.

Lemma BIO_read_mem s bio Q n :
  mem_ok s bio Q -> 0 < n <= INT_MAX ->
  exists s', mem_ok s' bio (mk_queue (q_rdonly Q) (q_all Q) (zdrop (Z.min n (len (q_rest Q))) (q_rest Q)) (q_eof Q)) /\
    BIO_read mem_methods s bio true n =
      Some (if len (q_rest Q) =? 0 then q_eof Q else Z.min n (len (q_rest Q)), ztake (Z.min n (len (q_rest Q))) (q_rest Q), s').
Proof.
  intros Hok Hn. destruct (mem_lookup _ _ _ Hok) as (x & E & Hme & Hi). pose proof (len_nonneg (q_rest Q)) as Hq.
  unfold BIO_read. rewrite (proj2 (Z.eqb_neq bio 0)) by apply Hok. rewrite E. cbn [mbind option_bind].
  rewrite Hme. cbn. rewrite (proj2 (Z.eqb_neq _ _) Hi), (proj2 (Z.leb_gt n 0)) by lia.
  destruct (mem_read_ok s bio Q n Hok Hn) as (s1 & Hs1 & ->). cbn [mbind option_bind].
  destruct (Z.ltb_spec 0 (if len (q_rest Q) =? 0 then q_eof Q else Z.min n (len (q_rest Q)))); [|by exists s1].
  destruct (mem_ok_counts s1 bio _ (fun b => u64 (num_read b + (if len (q_rest Q) =? 0 then q_eof Q else Z.min n (len (q_rest Q))))) num_write Hs1) as (s2 & E2 & Hs2).
  exists s2. split; [done|]. setoid_rewrite E2. done.
Qed.

(** A memory BIO is a source of its contents. *)
Definition mem_holds (bio : Z) (s : mem_bios) (l : list Z) (e : Z) : Prop :=
  exists ro all, mem_ok s bio (mk_queue ro all l e).

#[export] Instance mem_source bio : ByteSource mem_methods bio (mem_holds bio).
Proof.
  split.
  - intros s l e (ro & all & _ & x & b & H). simpl in H. lia.
  - intros s e n (ro & all & H) Hn. destruct (BIO_read_mem _ _ _ n H Hn) as (s' & Hs' & E).
    cbn [q_rest q_rdonly q_all q_eof] in *. change (len (@nil Z)) with 0 in *. rewrite Z.min_r in * by lia.
    rewrite ztake_0 in E. rewrite zdrop_0 in Hs'. exists s'. split; [exact E|]. exists ro, all. exact Hs'.
  - intros s l e n (ro & all & H) Hl Hn. destruct (BIO_read_mem _ _ _ n H Hn) as (s' & Hs' & E).
    cbn [q_rest q_rdonly q_all q_eof] in *.
    assert (0 < len l) by (destruct l; [done|rewrite len_cons; pose proof (len_nonneg l); lia]).
    rewrite (proj2 (Z.eqb_neq (len l) 0)) in E by lia. exists (Z.min n (len l)), s'. split; [done|].
    split; [lia|]. split; [lia|]. by exists ro, all.
Qed.

(** ** Writing *)

Lemma BUF_MEM_reserve_ok all q b cap :
  buf_ok false all q b -> len q <= cap <= size_max ->
  exists b', buf_ok false all q b' /\
    ((BUF_MEM_reserve b cap = (1, b') /\ cap <= max b') \/ (BUF_MEM_reserve b cap = (0, b') /\ ~ room cap)).
Proof.
  intros Hb Hc. pose proof Hb as (Hl & Hm & Ho & Hbl & Hq & Hle). pose proof (len_nonneg q) as Hq0. unfold BUF_MEM_reserve, room.
  destruct (Z.leb_spec cap (max b)); [exists b; auto|].
  unfold size_max in *. assert (8 < 2 ^ size_bits) by (platform; lia).
  destruct (Z.lt_ge_cases (cap + 3) (2 ^ size_bits)) as [H1|H1].
  - assert (wrap size_bits (cap + 3) = cap + 3) as -> by (apply Z.mod_small; lia).
    rewrite (proj2 (Z.ltb_ge (cap + 3) cap)) by lia.
    set (n := (cap + 3) / 3) in *. assert (cap < 3 * n <= cap + 3) as Hn by (subst n; Z.div_mod_to_equations; lia).
    destruct (Z.lt_ge_cases (n * 4) (2 ^ size_bits)) as [H2|H2].
    + assert (wrap size_bits (n * 4) = n * 4) as -> by (apply Z.mod_small; lia).
      rewrite Z.div_mul, Z.eqb_refl by lia. simpl.
      destruct (OPENSSL_realloc (block b) (n * 4)) as [l|] eqn:E.
      * eexists. split; [|left; split; [done|simpl; lia]]. unfold buf_ok. cbn [length max data block off].
        split; [done|]. split; [unfold size_max; lia|]. split; [done|]. split; [eapply realloc_len; [|exact E]; lia|]. split; [|lia].
        erewrite realloc_prefix; [exact Hq| | |exact E]; lia.
      * exists b. split; [done|]. right. split; [done|]. unfold OPENSSL_realloc in E. destruct (malloc_ok (n * 4)) eqn:Ea; [done|]. intuition congruence.
    + assert (wrap size_bits (n * 4) / 4 =? n = false) as ->.
      { apply Z.eqb_neq. unfold wrap. pose proof (Z.mod_pos_bound (n * 4) (2 ^ size_bits)).
        intros F. assert (4 * n <= (n * 4) mod 2 ^ size_bits) by (Z.div_mod_to_equations; lia). lia. }
      simpl. exists b. split; [done|]. right. split; [done|]. lia.
  - assert (wrap size_bits (cap + 3) = cap + 3 - 2 ^ size_bits) as ->.
    { unfold wrap. symmetry. apply (Z.mod_unique _ _ 1); lia. }
    rewrite (proj2 (Z.ltb_lt (cap + 3 - 2 ^ size_bits) cap)) by lia. exists b. split; [done|]. right. split; [done|]. lia.
Qed.

Lemma BUF_MEM_append_ok all q b l :
  buf_ok false all q b -> 0 < len l <= INT_MAX ->
  exists b', (BUF_MEM_append b l = Some (1, b') /\ buf_ok false all (q ++ l) b') \/
             (BUF_MEM_append b l = Some (0, b') /\ buf_ok false all q b' /\ ~ room (len q + len l)).
Proof.
  intros Hb Hl. pose proof Hb as (Hlen & Hm & _ & _ & _ & Hle). pose proof (len_nonneg q) as Hq. unfold BUF_MEM_append.
  rewrite (proj2 (Z.eqb_neq (len l) 0)), Hlen by lia. unfold size_max in *.
  assert (INT_MAX < 2 ^ size_bits) by (unfold INT_MAX; platform; lia).
  destruct (Z.lt_ge_cases (len q + len l) (2 ^ size_bits)) as [H1|H1].
  - assert (wrap size_bits (len q + len l) = len q + len l) as -> by (apply Z.mod_small; lia).
    rewrite (proj2 (Z.ltb_ge (len q + len l) (len l))) by lia.
    destruct (BUF_MEM_reserve_ok all q b (len q + len l) Hb) as (b' & Hb' & [[-> Hc]|[-> Hc]]); [unfold size_max; lia|..]; simpl.
    + destruct Hb' as (Hl' & Hm' & Ho' & Hbl' & Hq' & Hle'). rewrite Ho', Hl'.
      destruct (store_at (block b') (0 + len q) l) as [k|] eqn:E; [|rewrite store_at_ok in E by lia; done]. simpl.
      eexists. left. split; [done|]. pose proof (store_at_append _ _ _ _ E) as Ha. rewrite Z.add_0_l, Hq' in Ha.
      unfold buf_ok. cbn [length max data block off]. rewrite len_app. split; [done|]. split; [done|]. split; [done|].
      split; [rewrite (store_at_len _ _ _ _ E); lia|]. split; [done|lia].
    + exists b'. auto.
  - assert (wrap size_bits (len q + len l) = len q + len l - 2 ^ size_bits) as ->.
    { unfold wrap. symmetry. apply (Z.mod_unique _ _ 1); lia. }
    rewrite (proj2 (Z.ltb_lt (len q + len l - 2 ^ size_bits) (len l))) by lia. exists b. right. split; [done|]. split; [done|].
    unfold room, size_max. lia.
Qed.

Lemma BIO_write_mem s bio Q l :
  mem_ok s bio Q -> 0 < len l <= INT_MAX ->
  exists s' r Q', BIO_write mem_methods s bio (Some l) (len l) = Some (r, s') /\ queue_step Q (MWrite l) r [] Q' /\ mem_ok s' bio Q'.
Proof.
  intros Hok Hl. pose proof Hok as (H0 & x & b & E & Hme & Hi & Hnum & Hp & Hr & He & Hb).
  unfold BIO_write. rewrite (proj2 (Z.eqb_neq bio 0)) by done. rewrite E. cbn [mbind option_bind].
  rewrite Hme. cbn. rewrite (proj2 (Z.eqb_neq _ _) Hi), (proj2 (Z.leb_gt (len l) 0)) by lia.
  unfold mem_write. rewrite E. cbn [mbind option_bind]. rewrite (proj2 (Z.leb_gt (len l) 0)), rdonly_clear by lia.
  cbn [ptr BIO_clear_retry_flags with_flags]. rewrite Hp. destruct Q as [ro all q e]; cbn [q_rdonly q_all q_rest q_eof] in *. rewrite Hr.
  destruct ro.
  - eexists _, _, _. split; [done|]. split; [constructor|]. eapply mem_ok_insert; eauto. by rewrite rdonly_clear.
  - cbn [mbind option_bind]. rewrite load_at_ok by lia. rewrite zdrop_0, ztake_all. cbn [mbind option_bind].
    assert (forall s1 b1 q1, buf_ok false all q1 b1 -> mem_ok (<[bio := with_ptr (BIO_clear_retry_flags x) (Some b1)]> s1) bio (mk_queue false all q1 e)) as Hins.
    { intros s1 b1 q1 Hb1. eapply mem_ok_insert; eauto. cbn [q_rdonly]. change (rdonly (BIO_clear_retry_flags x) = false). by rewrite rdonly_clear. }
    destruct (BUF_MEM_append_ok all q b l Hb Hl) as (b' & [[-> Hb']|(-> & Hb' & Hroom)]); cbn [mbind option_bind].
    + change (1 =? 0) with false. cbn match. cbn [mbind option_bind]. rewrite (proj2 (Z.ltb_lt 0 (len l))) by lia.
      match goal with |- context [update ?m bio _] => pose proof (Hins (<[bio := BIO_clear_retry_flags x]> s) b' (q ++ l) Hb') as Hm end.
      destruct (mem_ok_counts _ bio _ num_read (fun b => u64 (num_write b + len l)) Hm) as (s2 & E2 & Hs2).
      setoid_rewrite E2. eexists _, _, _. split; [done|]. split; [constructor|done].
    + eexists _, _, _. split; [done|]. split; [by constructor|]. by apply Hins.
Qed.

Lemma first_line_prefix l : exists k, l = first_line l ++ k.
Proof. induction l as [|c l [k IH]]; [by exists []|]. simpl. destruct (c =? 10); [by exists l|]. exists k. simpl. by f_equal. Qed.

Lemma memchr_first_line i l :
  match memchr_newline i l with Some j => len (first_line l) = j - i + 1 | None => first_line l = l end.
Proof.
  revert i. induction l as [|c l IH]; intros i; simpl; [done|]. destruct (c =? 10); [change (len [c]) with 1; lia|].
  specialize (IH (i + 1)). destruct (memchr_newline (i + 1) l); [rewrite len_cons; lia|by f_equal].
Qed.

Lemma len_first_line l : len (first_line l) <= len l.
Proof. destruct (first_line_prefix l) as [k E]. rewrite E at 2. rewrite len_app. pose proof (len_nonneg k). lia. Qed.

Lemma BIO_gets_mem s bio Q n :
  mem_ok s bio Q -> 0 < n <= INT_MAX ->
  exists s' r out Q', BIO_gets mem_methods s bio true n = Some (r, out, s') /\ queue_step Q (MGets n) r out Q' /\ mem_ok s' bio Q'.
Proof.
  intros Hok Hn. pose proof Hok as (H0 & x & b & E & Hme & Hi & Hnum & Hp & Hr & He & Hb).
  unfold BIO_gets. rewrite (proj2 (Z.eqb_neq bio 0)) by done. rewrite E. cbn [mbind option_bind].
  rewrite Hme. cbn. rewrite (proj2 (Z.eqb_neq _ _) Hi), (proj2 (Z.leb_gt n 0)) by lia.
  unfold mem_gets. rewrite E. cbn [mbind option_bind]. rewrite (proj2 (Z.leb_gt n 0)) by lia.
  cbn [ptr BIO_clear_retry_flags with_flags]. rewrite Hp. cbn [mbind option_bind].
  destruct Q as [ro all q e]; cbn [q_rdonly q_all q_rest q_eof] in *. pose proof Hb as (Hl & _). rewrite Hl. pose proof (len_nonneg q) as Hq.
  assert ((if len q <? n - 1 then swrap 32 (len q) else n - 1) = Z.min (n - 1) (len q)) as ->.
  { destruct (Z.ltb_spec (len q) (n - 1)); [rewrite swrap_int_small; lia|lia]. }
  set (m := Z.min (n - 1) (len q)). rewrite (buf_load _ _ _ _ m Hb) by lia. cbn [mbind option_bind].
  assert (ztake m q = ztake (n - 1) q) as Hm.
  { subst m. unfold ztake. destruct (Z.le_ge_cases (n - 1) (len q)); [by rewrite Z.min_l by lia|].
    rewrite Z.min_r, !take_ge by (unfold len in *; lia). done. }
  set (line := first_line (ztake m q)).
  assert (exists k, q = line ++ k) as [k Hk].
  { destruct (first_line_prefix (ztake m q)) as [k Ek]. exists (k ++ zdrop m q). rewrite app_assoc. fold line in Ek. rewrite <- Ek. by rewrite ztake_zdrop. }
  assert (match memchr_newline 0 (ztake m q) with Some i => i + 1 | None => m end = len line) as ->.
  { pose proof (memchr_first_line 0 (ztake m q)) as Hc. fold line in Hc. destruct (memchr_newline 0 (ztake m q)); [lia|]. rewrite Hc, len_ztake; lia. }
  assert (mem_ok (<[bio := BIO_clear_retry_flags x]> s) bio (mk_queue ro all q e)) as Hok1 by (eapply mem_ok_insert; eauto; by rewrite rdonly_clear).
  assert (queue_step (mk_queue ro all q e) (MGets n) (len line) (line ++ [0]) (mk_queue ro all k e)) as Hstep.
  { rewrite Hk. apply q_gets. rewrite <- Hk, <- Hm. done. }
  pose proof (len_nonneg line) as Hline.
  assert (len line <= INT_MAX /\ len line <= len q) as [Hlm Hlq].
  { pose proof (len_first_line (ztake m q)) as Hf. fold line in Hf. rewrite len_ztake in Hf by lia. lia. }
  destruct (Z.eq_dec (len line) 0) as [Hz|Hz].
  - rewrite Hz. unfold mem_read. rewrite lookup_insert_eq. cbn. eexists _, _, _, _. rewrite Hz in Hstep.
    destruct line; [|rewrite len_cons in Hz; pose proof (len_nonneg line); lia]. split; [done|]. split; [exact Hstep|].
    simpl in Hk. subst k. eapply mem_ok_insert; eauto. by rewrite !rdonly_clear.
  - destruct (mem_read_ok _ bio _ (len line) Hok1) as (s1 & Hs1 & ->); [lia|]. cbn [q_rest q_rdonly q_all q_eof mbind option_bind] in *.
    rewrite (proj2 (Z.eqb_neq (len q) 0)) by lia. rewrite Z.min_l in * by lia.
    rewrite (proj2 (Z.leb_le 0 (len line))), (proj2 (Z.ltb_lt 0 (len line))) by lia.
    assert (ztake (len line) q = line) as -> by (rewrite Hk; apply ztake_app_len).
    assert (zdrop (len line) q = k) as Hzk by (rewrite Hk; apply zdrop_app_len). rewrite Hzk in Hs1.
    destruct (mem_ok_counts s1 bio _ (fun b => u64 (num_read b + len line)) num_write Hs1) as (s2 & E2 & Hs2).
    setoid_rewrite E2. eexists _, _, _, _. split; [done|]. split; [exact Hstep|done].
Qed.

Lemma BIO_ctrl_mem s bio Q cmd n arg : mem_ok s bio Q -> BIO_ctrl mem_methods s bio cmd n arg = mem_ctrl s bio cmd n arg.
Proof.
  intros Hok. destruct (mem_lookup _ _ _ Hok) as (x & E & Hme & _). unfold BIO_ctrl.
  rewrite (proj2 (Z.eqb_neq bio 0)) by apply Hok. rewrite E. cbn [mbind option_bind]. by rewrite Hme.
Qed.

Lemma BIO_reset_mem s bio Q :
  mem_ok s bio Q -> exists s' r Q', BIO_reset mem_methods s bio = Some (r, s') /\ queue_step Q MReset r [] Q' /\ mem_ok s' bio Q'.
Proof.
  intros Hok. unfold BIO_reset. rewrite (BIO_ctrl_mem _ _ _ _ _ _ Hok).
  destruct Hok as (H0 & x & b & E & Hme & Hi & Hnum & Hp & Hr & He & Hb). destruct Q as [ro all q e]; cbn [q_rdonly q_all q_rest q_eof] in *.
  unfold mem_ctrl. rewrite E. cbn. rewrite Hp. cbn. pose proof Hb as (Hl & Hm & H).
  destruct (data b) as [[blk o]|] eqn:Ed; cbn.
  - rewrite Hr. destruct ro.
    + destruct H as (pre & post & Eb & Ho & Hall & Hmax & _). cbn. eexists _, _, _. split; [done|]. split; [constructor|].
      eapply mem_ok_insert; eauto. unfold buf_ok, block, off in *. cbn in *. rewrite Ed in *.
      split; [lia|]. split; [done|]. exists [], post. change (len (@nil Z)) with 0. rewrite Hall in *. rewrite len_app in *.
      split; [by rewrite <- app_assoc|]. split; [lia|]. done.
    + destruct H as (Ho & Hbl & Hq & Hle). unfold block, off in *. rewrite Ed in *. subst o. pose proof (len_nonneg q).
      destruct (store_at blk 0 (repeat 0 (Z.to_nat (max b)))) as [l|] eqn:Es.
      * cbn. eexists _, _, _. split; [done|]. split; [constructor|]. eapply mem_ok_insert; eauto.
        unfold buf_ok, block, off. cbn. change (len (@nil Z)) with 0. rewrite (store_at_len _ _ _ _ Es). rewrite ztake_0. split_and!; try done; lia.
      * rewrite store_at_ok in Es; [done|lia|]. unfold len. rewrite repeat_length. unfold len in Hbl. lia.
  - eexists _, _, _. split; [done|]. split; [constructor|]. split; [done|]. exists x, b. do 7 (split; [done|]).
    assert (all = [] /\ q = [] \/ ro = false /\ q = []) as Hc.
    { destruct ro; [left|right].
      - destruct H as (pre & post & _ & _ & Hall & _ & Hn). rewrite (Hn eq_refl) in *. by destruct pre, q.
      - destruct H as (_ & Hbl & _ & Hle). unfold block in Hbl. rewrite Ed in Hbl. change (len (@nil Z)) with 0 in Hbl.
        destruct q; [done|]. rewrite len_cons in Hle. pose proof (len_nonneg q). lia. }
    cbn [q_rdonly q_all q_rest q_eof]. destruct ro; [destruct Hc as [[-> ->]|[? _]]; [exact Hb|done]|destruct Hc as [[_ ->]|[_ ->]]; exact Hb].
Qed.

Lemma BIO_set_eof_mem s bio Q e' :
  mem_ok s bio Q -> - 2 ^ 31 <= e' <= 0 ->
  exists s' r Q', BIO_set_mem_eof_return s bio e' = Some (r, s') /\ queue_step Q (MSetEof e') r [] Q' /\ mem_ok s' bio Q'.
Proof.
  intros Hok He'. unfold BIO_set_mem_eof_return. rewrite (BIO_ctrl_mem _ _ _ _ _ _ Hok).
  destruct Hok as (H0 & x & b & E & Hme & Hi & Hnum & Hp & Hr & He & Hb). destruct Q as [ro all q e]; cbn [q_rdonly q_all q_rest q_eof] in *.
  unfold mem_ctrl. rewrite E. cbn [mbind option_bind]. change (BIO_C_SET_BUF_MEM_EOF_RETURN =? BIO_CTRL_RESET) with false.
  change (BIO_C_SET_BUF_MEM_EOF_RETURN =? BIO_CTRL_EOF) with false. rewrite Z.eqb_refl. cbn [mbind option_bind]. eexists _, _, _. split; [done|]. split; [constructor|].
  assert (swrap 32 e' = e') as Hs.
  { unfold swrap. change (2 ^ (32 - 1)) with 2147483648. change (2 ^ 32) with 4294967296. rewrite Z.mod_small; lia. }
  eapply mem_ok_insert; eauto.
Qed.

Lemma mem_exec_ok s bio Q o :
  mem_ok s bio Q -> mem_op_ok o ->
  exists s' r out Q', mem_exec s bio o = Some (r, out, s') /\ queue_step Q o r out Q' /\ mem_ok s' bio Q'.
Proof.
  intros Hok Ho. destruct o as [n|n|l| |e]; simpl in *.
  - destruct (BIO_read_mem s bio Q n Hok Ho) as (s1 & Hs1 & ->). destruct Q as [ro all q e]; cbn [q_rdonly q_all q_rest q_eof] in *.
    pose proof (len_nonneg q). eexists _, _, _, _. split; [done|]. split; [|exact Hs1].
    destruct (Z.eqb_spec (len q) 0) as [Hz|Hz].
    + destruct q; [|rewrite len_cons in Hz; pose proof (len_nonneg q); lia]. change (len (@nil Z)) with 0. rewrite Z.min_r by lia.
      rewrite ztake_0, zdrop_0. constructor.
    + assert (len (ztake (Z.min n (len q)) q) = Z.min n (len q)) as Hlt by (rewrite len_ztake; lia).
      pose proof (q_read ro all (ztake (Z.min n (len q)) q) (zdrop (Z.min n (len q)) q) e n) as Hstep.
      rewrite ztake_zdrop, Hlt in Hstep. apply Hstep; [|done].
      intros F. rewrite F in Hlt. change (len (@nil Z)) with 0 in Hlt. lia.
  - exact (BIO_gets_mem s bio Q n Hok Ho).
  - destruct (BIO_write_mem s bio Q l Hok Ho) as (s' & r & Q' & -> & H). by exists s', r, [], Q'.
  - destruct (BIO_reset_mem s bio Q Hok) as (s' & r & Q' & -> & H). by exists s', r, [], Q'.
  - destruct (BIO_set_eof_mem s bio Q e Hok Ho) as (s' & r & Q' & -> & H). by exists s', r, [], Q'.
Qed.

Lemma mem_run_ok ops s bio Q :
  mem_ok s bio Q -> Forall mem_op_ok ops ->
  exists rs s' Q', mem_run s bio ops = Some (rs, s') /\ queue_run Q ops rs Q' /\ mem_ok s' bio Q'.
Proof.
  intros Hok Hops. revert s Q Hok. induction Hops as [|o ops Ho _ IH]; intros s Q Hok; simpl.
  - eexists _, _, _. split; [done|]. split; [constructor|done].
  - destruct (mem_exec_ok s bio Q o Hok Ho) as (s1 & r & out & Q1 & -> & Hstep & Hok1). cbn [mbind option_bind].
    destruct (IH s1 Q1 Hok1) as (rs & s2 & Q2 & -> & Hrun & Hok2). cbn [mbind option_bind].
    eexists _, _, _. split; [done|]. split; [by econstructor|done].
Qed.

Lemma BIO_new_mem s bio : bio <> 0 -> malloc_ok sizeof_buf_mem = true ->
  exists s', BIO_new mem_methods s bio BIO_s_mem None = Some (bio, s') /\ mem_ok s' bio (mk_queue false [] [] (-1)).
Proof.
  intros H0 Hm. unfold BIO_new. rewrite (proj2 (Z.eqb_neq bio 0)) by done. cbn. unfold mem_new, BUF_MEM_new. rewrite Hm.
  unfold update. rewrite lookup_insert_eq. cbn. eexists. split; [done|]. eapply mem_ok_insert; try done.
  split_and!; try done; unfold size_max; cbn; platform; lia.
Qed.

Lemma BIO_new_mem_buf_ok s bio l n :
  bio <> 0 -> malloc_ok sizeof_buf_mem = true -> 0 <= n <= len l -> n <= size_max ->
  exists s', BIO_new_mem_buf s bio (Some l) n = Some (bio, s') /\ mem_ok s' bio (mk_queue true (ztake n l) (ztake n l) 0).
Proof.
  intros H0 Hm Hn Hs. destruct (BIO_new_mem s bio H0 Hm) as (s1 & E1 & Hok). unfold BIO_new_mem_buf.
  rewrite (proj2 (Z.ltb_ge n 0)) by lia. cbn [mbind option_bind]. cbn. rewrite E1. cbn [mbind option_bind].
  rewrite (proj2 (Z.eqb_neq bio 0)) by done. destruct Hok as (_ & x & b & E & Hme & Hi & Hnum & Hp & Hr & _ & _). rewrite E. cbn [mbind option_bind].
  eexists. split; [done|]. eapply mem_ok_insert; try done.
  - cbn. unfold rdonly. cbn. unfold BIO_FLAGS_MEM_RDONLY. rewrite Z.land_lor_distr_l. change (Z.land 0x200 0x200) with 0x200.
    apply negb_true_iff, Z.eqb_neq. intros F. by apply Z.lor_eq_0_iff in F as [_ F].
  - split; [cbn; by rewrite len_ztake by lia|]. split; [done|]. cbn. exists [], (zdrop n l). rewrite app_nil_l, ztake_zdrop.
    split_and!; try done. by rewrite len_ztake by lia.
Qed.
End MemQueue.

Lemma mem_contents `{P : Platform} s bio Q : mem_ok s bio Q -> BIO_mem_contents s bio = Some (Some (q_rest Q)).
Proof.
  intros (_ & x & b & E & Hme & _ & _ & Hp & _ & _ & Hb). unfold BIO_mem_contents. rewrite E. cbn [mbind option_bind].
  rewrite Hme, Hp. simpl. pose proof Hb as (Hl & _). rewrite Hl, (buf_load _ _ _ _ _ Hb); [simpl; by rewrite ztake_all|].
  pose proof (len_nonneg (q_rest Q)). lia.
Qed.

(** C35: a memory BIO implements a queue of bytes: whatever sequence of reads, line
    reads, writes, resets and changes of the end value is run on a BIO that BIO_new
    or BIO_new_mem_buf made, no access leaves a buffer, each operation returns and
    delivers what the queue does, and the contents are those of the queue. A write
    fails only on a read-only BIO or when the buffer cannot grow. *)
Theorem BIO_mem_refines_queue `{P : Platform} `{A : Malloc} (s : mem_bios) (bio : Z) (ops : list mem_op)
    (H0 : bio <> 0) (Ha : malloc_ok sizeof_buf_mem = true) (Hops : Forall mem_op_ok ops) :
  (exists s1 rs s2 Q,
     BIO_new mem_methods s bio BIO_s_mem None = Some (bio, s1) /\ mem_run s1 bio ops = Some (rs, s2) /\
     queue_run (mk_queue false [] [] (-1)) ops rs Q /\ BIO_mem_contents s2 bio = Some (Some (q_rest Q))) /\
  (forall l n, 0 <= n <= len l -> n <= size_max -> exists s1 rs s2 Q,
     BIO_new_mem_buf s bio (Some l) n = Some (bio, s1) /\ mem_run s1 bio ops = Some (rs, s2) /\
     queue_run (mk_queue true (ztake n l) (ztake n l) 0) ops rs Q /\ BIO_mem_contents s2 bio = Some (Some (q_rest Q))).
Proof.
  split; [|intros l n Hn Hs].
  - destruct (BIO_new_mem s bio H0 Ha) as (s1 & E & Hok). destruct (mem_run_ok ops s1 bio _ Hok Hops) as (rs & s2 & Q & Hr & Hq & Hok2).
    exists s1, rs, s2, Q. by rewrite (mem_contents _ _ _ Hok2).
  - destruct (BIO_new_mem_buf_ok s bio l n H0 Ha Hn Hs) as (s1 & E & Hok). destruct (mem_run_ok ops s1 bio _ Hok Hops) as (rs & s2 & Q & Hr & Hq & Hok2).
    exists s1, rs, s2, Q. by rewrite (mem_contents _ _ _ Hok2).
Qed.

Lemma BIO_mem_refines_queue_witness :
  let ops := [MWrite [1; 2; 10; 3]; MGets 100; MRead 5; MRead 1] in
  exists s1 rs s2 Q,
    BIO_new (mem_methods (P := LP64) (A := zeroing_malloc)) ∅ 7 BIO_s_mem None = Some (7, s1) /\
    mem_run (P := LP64) (A := zeroing_malloc) s1 7 ops = Some (rs, s2) /\
    queue_run (P := LP64) (A := zeroing_malloc) (mk_queue false [] [] (-1)) ops rs Q /\ BIO_mem_contents s2 7 = Some (Some (q_rest Q)).
Proof.
  apply (BIO_mem_refines_queue (P := LP64) (A := zeroing_malloc) ∅ 7); [lia|reflexivity|].
  repeat (apply List.Forall_cons; [unfold mem_op_ok, INT_MAX, len; simpl; lia|]). apply List.Forall_nil.
Defined.

(** BIO_read_asn1 takes exactly one element from a BIO. On a BIO that delivers
    the bytes [l], in whatever pieces, and then 0 or -1, it returns, without undefined
    behaviour; it succeeds with [out] just when [l] starts with [out], an element
    with a one-octet identifier and a definite length in its shortest form, or is
    [out], an indefinite-length element followed by the end of the file, within
    [max_len] bytes; and after a success the BIO holds what follows. *)
Theorem BIO_read_asn1_exact `{P : Platform} `{A : Malloc} {T : Type} (methods : Z -> option (bio_method_st T)) (bio : Z)
    (holds : gmap Z (bio_st T) -> list Z -> Z -> Prop) (Src : ByteSource methods bio holds)
    (fuel : nat) (s : gmap Z (bio_st T)) (l : list Z) (e max_len : Z)
    (Hs : holds s l e) (Hb : bytes l) (He : -1 <= e) (Hmax : 0 <= max_len <= size_max)
    (Ha : forall m, 0 <= m <= max_len -> malloc_ok m = true) (Hf : len l < Z.of_nat fuel) :
  exists r s', BIO_read_asn1 methods fuel s bio max_len = Some (Returned r, s') /\
    (forall out, r = inr out <->
       (exists tag body rest, l = out ++ rest /\ out = definite_element tag body /\ tag mod 32 <> 31 /\
          len out <= max_len /\ len body <= INT_MAX) \/
       (exists tag k, l = tag :: 0x80 :: k /\ out = l /\ tag mod 32 <> 31 /\ Z.odd (tag / 32) = true /\
          e = 0 /\ len l < max_len)) /\
    (forall out, r = inr out -> exists rest, l = out ++ rest /\ holds s' rest e).
Proof.
  destruct (BIO_read_asn1_message methods bio holds fuel s l e max_len Hs Hb He Hmax Ha Hf) as (s' & E & Hs').
  eexists _, s'. split; [exact E|]. destruct (asn1_message l e max_len) as [err|[out rest]] eqn:Em; (split; [|try done]).
  - intros out. split; [done|]. intros H. exfalso.
    assert (exists rest, asn1_message l e max_len = inr (out, rest)) as [rest F]; [|by rewrite F in Em].
    destruct H as [(tag & body & rest & H)|(tag & k & H)]; [exists rest|exists []]; apply asn1_message_iff; [done|left|done|right]; eauto.
    exists tag, k. intuition.
  - pose proof (proj1 (asn1_message_iff _ _ _ _ _ Hb) Em) as Hi. intros out'. split; [intros [= <-]; destruct Hi as [(tag & body & H)|(tag & k & H)]; [left|right]; eauto 10|].
    + exists tag, k. intuition.
    + intros H. f_equal.
      assert (exists rest', asn1_message l e max_len = inr (out', rest')) as [rest' F]; [|rewrite F in Em; congruence].
      destruct H as [(tag & body & rest' & H)|(tag & k & H)]; [exists rest'|exists []]; apply asn1_message_iff; [done|left|done|right]; eauto.
      exists tag, k. intuition.
  - intros out' [= <-]. exists rest. split; [|done].
    destruct (proj1 (asn1_message_iff _ _ _ _ _ Hb) Em) as [(tag & body & H & _)|(tag & k & _ & -> & -> & _)]; [done|by rewrite app_nil_r].
Qed.

(** A read-only memory BIO over [l]. *)
Lemma mem_buf_holds `{P : Platform} `{A : Malloc} l :
  malloc_ok sizeof_buf_mem = true -> len l <= size_max ->
  exists s, BIO_new_mem_buf ∅ 1 (Some l) (len l) = Some (1, s) /\ mem_holds 1 s l 0.
Proof.
  intros Ha Hl. pose proof (len_nonneg l). destruct (BIO_new_mem_buf_ok ∅ 1 l (len l)) as (s & E & Hok); [done|done|lia|done|].
  rewrite ztake_all in Hok. exists s. split; [done|]. by exists true, l.
Qed.

Lemma BIO_read_asn1_exact_witness :
  exists s r s', BIO_new_mem_buf (P := LP64) (A := zeroing_malloc) ∅ 1 (Some [0x04; 2; 7; 8; 9]) 5 = Some (1, s) /\
    BIO_read_asn1 (P := LP64) (A := zeroing_malloc) (mem_methods (P := LP64) (A := zeroing_malloc)) 6 s 1 100 = Some (Returned r, s') /\ r = inr [0x04; 2; 7; 8].
Proof.
  destruct (mem_buf_holds (P := LP64) (A := zeroing_malloc) [0x04; 2; 7; 8; 9] eq_refl) as (s & E & Hs); [done|].
  destruct (BIO_read_asn1_exact (P := LP64) (A := zeroing_malloc) (mem_methods (P := LP64) (A := zeroing_malloc)) 1 (mem_holds 1) (mem_source 1) 6 s [0x04; 2; 7; 8; 9] 0 100 Hs) as (r & s' & E' & H & _).
  - repeat (apply List.Forall_cons; [unfold is_byte; lia|]). apply List.Forall_nil.
  - lia.
  - unfold size_max; simpl; lia.
  - reflexivity.
  - unfold len; simpl; lia.
  - exists s, r, s'. split; [exact E|]. split; [exact E'|]. apply H. left. exists 4, [7; 8], [9].
    split; [reflexivity|]. split; [reflexivity|]. split_and!; done.
Defined.


