(* ===== verification/BioPair.v ===== *)
(** BIO pairs: crypto/bio/pair.cc. Each half of a pair has a ring buffer for what is
    written to it; the other half reads from there. A failed assertion is [None]. *)
From stdpp Require Import gmap.
From S2P Require Import Prelude.
From S2P Require Import Heap.
From S2P Require Import Bio.

Open Scope Z_scope.

Definition BIO_TYPE_BIO : Z := Z.lor 19 0x0400.
Definition BIO_C_GET_WRITE_BUF_SIZE : Z := 137.
Definition BIO_C_GET_WRITE_GUARANTEE : Z := 140.
Definition BIO_C_GET_READ_REQUEST : Z := 141.
Definition BIO_C_SHUTDOWN_WR : Z := 142.
Definition BIO_C_RESET_READ_REQUEST : Z := 147.

(** The fields [len], [size] and [buf] are called [blen], [bsize] and [bbuf]; [bbuf]
    is [None] when it is NULL. *)
Record bio_bio_st := mk_half {
  peer : Z;
  closed : Z;
  blen : Z;
  offset : Z;
  bsize : Z;
  bbuf : option (list Z);
  request : Z;
}.

Definition with_peer (b : bio_bio_st) (p : Z) : bio_bio_st := mk_half p (closed b) (blen b) (offset b) (bsize b) (bbuf b) (request b).
Definition with_closed (b : bio_bio_st) (c : Z) : bio_bio_st := mk_half (peer b) c (blen b) (offset b) (bsize b) (bbuf b) (request b).
Definition with_request (b : bio_bio_st) (r : Z) : bio_bio_st := mk_half (peer b) (closed b) (blen b) (offset b) (bsize b) (bbuf b) r.
Definition with_ring (b : bio_bio_st) (n o : Z) (l : option (list Z)) : bio_bio_st := mk_half (peer b) (closed b) n o (bsize b) l (request b).

Abbreviation pair_bios := (gmap Z (bio_st (option bio_bio_st))).

Definition assert_ (b : bool) : option unit := if b then Some () else None.

Section BioPair.
Context `{P : Platform} `{A : Malloc}.

Definition sizeof_bio_bio : Z := 7 * (size_bits / 8).

Definition bio_new (s : pair_bios) (bio : Z) : option (Z * pair_bios) :=
  if malloc_ok sizeof_bio_bio then
    s ← update s bio (fun x => with_ptr x (Some (mk_half 0 0 0 0 (17 * 1024) None 0)));
    Some (1, s)
  else Some (0, s).

(** Changing the state behind [bio->ptr]. *)
Definition update_half (s : pair_bios) (bio : Z) (f : bio_bio_st -> bio_bio_st) : option pair_bios :=
  x ← s !! bio; b ← ptr x; Some (<[bio := with_ptr x (Some (f b))]> s).

Definition bio_destroy_pair (s : pair_bios) (bio : Z) : option pair_bios :=
  x ← s !! bio;
  match ptr x with
  | None => Some s
  | Some b =>
    if peer b =? 0 then Some s
    else
      let peer_bio := peer b in
      px ← s !! peer_bio;
      peer_b ← ptr px;
      _ ← assert_ (peer peer_b =? bio);
      s ← update s peer_bio (fun px => with_init px 0);
      _ ← bbuf peer_b;
      s ← update_half s peer_bio (fun b => with_ring (with_peer b 0) 0 0 (bbuf b));
      s ← update s bio (fun x => with_init x 0);
      _ ← bbuf b;
      update_half s bio (fun b => with_ring (with_peer b 0) 0 0 (bbuf b))
  end.

Definition bio_free (s : pair_bios) (bio : Z) : option (Z * pair_bios) :=
  x ← s !! bio;
  b ← ptr x;
  s ← (if negb (peer b =? 0) then bio_destroy_pair s bio else Some s);
  s ← update s bio (fun x => with_ptr x None);
  Some (1, s).

(** The loop over the ring buffer: the state of the writer, the bytes read. *)
Fixpoint ring_read (fuel : nat) (b : bio_bio_st) (rest : Z) : option (bio_bio_st * list Z) :=
  match fuel with
  | O => None
  | S fuel =>
    buf ← bbuf b;
    _ ← assert_ (rest <=? blen b);
    let chunk := if wrap size_bits (offset b + rest) <=? bsize b then rest else bsize b - offset b in
    _ ← assert_ (wrap size_bits (offset b + chunk) <=? bsize b);
    out ← load_at buf (offset b) chunk;
    let n := wrap size_bits (blen b - chunk) in
    o ← (if negb (n =? 0) then
           let o := wrap size_bits (offset b + chunk) in
           _ ← assert_ (o <=? bsize b);
           Some (if o =? bsize b then 0 else o)
         else _ ← assert_ (chunk =? rest); Some 0);
    let b := with_ring b n o (Some buf) in
    let rest := wrap size_bits (rest - chunk) in
    if negb (rest =? 0) then
      '(b, more) ← ring_read fuel b rest; Some (b, out ++ more)
    else Some (b, out)
  end.

Definition bio_read (s : pair_bios) (bio : Z) (buf : bool) (size_ : Z) : option (Z * list Z * pair_bios) :=
  let size := wrap size_bits size_ in
  x ← s !! bio;
  let x := BIO_clear_retry_flags x in
  let s := <[bio := x]> s in
  if init x =? 0 then Some (0, [], s)
  else
    b ← ptr x;
    _ ← assert_ (negb (peer b =? 0));
    px ← s !! peer b;
    peer_b ← ptr px;
    _ ← bbuf peer_b;
    let peer_b := with_request peer_b 0 in
    let put peer_b s := update_half s (peer b) (fun _ => peer_b) in
    s ← put peer_b s;
    if negb buf || (size =? 0) then Some (0, [], s)
    else if blen peer_b =? 0 then
      if negb (closed peer_b =? 0) then Some (0, [], s)
      else
        s ← update s bio BIO_set_retry_read;
        s ← put (with_request peer_b (if size <=? bsize peer_b then size else bsize peer_b)) s;
        Some (-1, [], s)
    else
      let size := if blen peer_b <? size then blen peer_b else size in
      '(peer_b, out) ← ring_read 2 peer_b size;
      s ← put peer_b s;
      Some (swrap 32 size, out, s).

Fixpoint ring_write (fuel : nat) (b : bio_bio_st) (data : list Z) (rest : Z) : option bio_bio_st :=
  match fuel with
  | O => None
  | S fuel =>
    buf ← bbuf b;
    _ ← assert_ (wrap size_bits (blen b + rest) <=? bsize b);
    let write_offset := wrap size_bits (offset b + blen b) in
    let write_offset := if bsize b <=? write_offset then write_offset - bsize b else write_offset in
    let chunk := if wrap size_bits (write_offset + rest) <=? bsize b then rest else bsize b - write_offset in
    piece ← load_at data 0 chunk;
    buf ← store_at buf write_offset piece;
    let b := with_ring b (wrap size_bits (blen b + chunk)) (offset b) (Some buf) in
    _ ← assert_ (blen b <=? bsize b);
    let rest := wrap size_bits (rest - chunk) in
    if negb (rest =? 0) then ring_write fuel b (zdrop chunk data) rest else Some b
  end.

Definition bio_write (s : pair_bios) (bio : Z) (buf : option (list Z)) (num_ : Z) : option (Z * pair_bios) :=
  let num := wrap size_bits num_ in
  x ← s !! bio;
  let x := BIO_clear_retry_flags x in
  let s := <[bio := x]> s in
  match buf with
  | None => Some (0, s)
  | Some buf =>
    if (init x =? 0) || (num =? 0) then Some (0, s)
    else
      b ← ptr x;
      _ ← assert_ (negb (peer b =? 0));
      _ ← bbuf b;
      let b := with_request b 0 in
      let s := <[bio := with_ptr x (Some b)]> s in
      if negb (closed b =? 0) then Some (-1, s)
      else
        _ ← assert_ (blen b <=? bsize b);
        if blen b =? bsize b then
          s ← update s bio BIO_set_retry_write; Some (-1, s)
        else
          let num := if bsize b - blen b <? num then bsize b - blen b else num in
          b ← ring_write 2 b buf num;
          Some (swrap 32 num, <[bio := with_ptr x (Some b)]> s)
  end.

(** The buffer of one half when the pair is made. *)
Definition make_buffer (b : bio_bio_st) (writebuf_len : Z) : option bio_bio_st :=
  match bbuf b with
  | Some _ => Some b
  | None =>
    let size := if negb (writebuf_len =? 0) then writebuf_len else bsize b in
    buf ← OPENSSL_malloc size;
    Some (mk_half (peer b) (closed b) 0 0 size (Some buf) (request b))
  end.

(** When the second allocation fails the first buffer stays. *)
Definition bio_make_pair (s : pair_bios) (bio1 bio2 writebuf1_len writebuf2_len : Z) : option (Z * pair_bios) :=
  x1 ← s !! bio1; x2 ← s !! bio2;
  b1 ← ptr x1; b2 ← ptr x2;
  if negb (peer b1 =? 0) || negb (peer b2 =? 0) then Some (0, s)
  else
    match make_buffer b1 writebuf1_len with
    | None => Some (0, s)
    | Some b1 =>
      s ← update_half s bio1 (fun _ => b1);
      match make_buffer b2 writebuf2_len with
      | None => Some (0, s)
      | Some b2 =>
        s ← update_half s bio1 (fun _ => with_request (with_closed (with_peer b1 bio2) 0) 0);
        s ← update_half s bio2 (fun _ => with_request (with_closed (with_peer b2 bio1) 0) 0);
        s ← update s bio1 (fun x => with_init x 1);
        s ← update s bio2 (fun x => with_init x 1);
        Some (1, s)
      end
    end.

Definition bio_ctrl (s : pair_bios) (bio cmd num : Z) (arg : ctrl_arg (option bio_bio_st)) : option (Z * list Z * pair_bios) :=
  x ← s !! bio;
  b ← ptr x;
  if cmd =? BIO_C_GET_WRITE_BUF_SIZE then Some (swrap size_bits (bsize b), [], s)
  else if cmd =? BIO_C_GET_WRITE_GUARANTEE then
    Some (if (peer b =? 0) || negb (closed b =? 0) then 0 else swrap size_bits (bsize b - blen b), [], s)
  else if cmd =? BIO_C_GET_READ_REQUEST then Some (swrap size_bits (request b), [], s)
  else if cmd =? BIO_C_RESET_READ_REQUEST then
    Some (1, [], <[bio := with_ptr x (Some (with_request b 0))]> s)
  else if cmd =? BIO_C_SHUTDOWN_WR then
    Some (1, [], <[bio := with_ptr x (Some (with_closed b 1))]> s)
  else if cmd =? BIO_CTRL_GET_CLOSE then Some (shutdown x, [], s)
  else if cmd =? BIO_CTRL_SET_CLOSE then Some (1, [], <[bio := with_shutdown x (swrap 32 num)]> s)
  else if cmd =? BIO_CTRL_PENDING then
    if negb (peer b =? 0) then px ← s !! peer b; peer_b ← ptr px; Some (swrap size_bits (blen peer_b), [], s)
    else Some (0, [], s)
  else if cmd =? BIO_CTRL_WPENDING then
    Some (match bbuf b with Some _ => swrap size_bits (blen b) | None => 0 end, [], s)
  else if cmd =? BIO_CTRL_FLUSH then Some (1, [], s)
  else if cmd =? BIO_CTRL_EOF then
    match arg with
    | arg_bio other =>
      ox ← s !! other; other_b ← ptr ox;
      Some (b2z ((blen other_b =? 0) && negb (closed other_b =? 0)), [], s)
    | _ => Some (1, [], s)
    end
  else Some (0, [], s).

Definition methods_biop : bio_method_st (option bio_bio_st) :=
  mk_method BIO_TYPE_BIO (Some bio_write) (Some bio_read) None (Some bio_ctrl) (Some bio_new) (Some bio_free).

Definition bio_s_bio : Z := 2.
Definition pair_methods (m : Z) : option (bio_method_st (option bio_bio_st)) :=
  if m =? bio_s_bio then Some methods_biop else None.

(** [a1] and [a2] are the addresses of the new BIOs, 0 when an allocation fails. *)
Definition BIO_new_bio_pair (s : pair_bios) (a1 a2 writebuf1_len writebuf2_len : Z) : option (Z * Z * Z * pair_bios) :=
  '(bio1, s) ← BIO_new pair_methods s a1 bio_s_bio None;
  '(bio2, s) ← BIO_new pair_methods s a2 bio_s_bio None;
  '(ok, s) ← (if (bio1 =? 0) || (bio2 =? 0) then Some (0, s)
              else bio_make_pair s bio1 bio2 writebuf1_len writebuf2_len);
  if ok =? 0 then
    '(_, s) ← BIO_free pair_methods 1 s bio1;
    '(_, s) ← BIO_free pair_methods 1 s bio2;
    Some (0, 0, 0, s)
  else Some (1, bio1, bio2, s).

Definition BIO_ctrl_get_read_request (s : pair_bios) (bio : Z) : option (Z * pair_bios) :=
  '(r, _, s) ← BIO_ctrl pair_methods s bio BIO_C_GET_READ_REQUEST 0 arg_null; Some (wrap size_bits r, s).
Definition BIO_ctrl_get_write_guarantee (s : pair_bios) (bio : Z) : option (Z * pair_bios) :=
  '(r, _, s) ← BIO_ctrl pair_methods s bio BIO_C_GET_WRITE_GUARANTEE 0 arg_null; Some (wrap size_bits r, s).
Definition BIO_shutdown_wr (s : pair_bios) (bio : Z) : option (Z * pair_bios) :=
  '(r, _, s) ← BIO_ctrl pair_methods s bio BIO_C_SHUTDOWN_WR 0 arg_null; Some (swrap 32 r, s).
End BioPair.
