(* ===== verification/BioPairProofs.v ===== *)
(** A BIO pair implements two bounded byte pipes, one in each direction. *)
From stdpp Require Import gmap.
From S2P Require Import Prelude.
From S2P Require Import Heap.
From S2P Require Import Arrays.
From S2P Require Import Bio.
From S2P Require Import BioPair.

Open Scope Z_scope.

(** A pipe: its capacity, the bytes in it, whether its writer closed it, and what
    its reader last asked for in vain. *)
Record pipe := mk_pipe { p_cap : Z; p_data : list Z; p_closed : bool; p_request : Z }.

(** The two halves, and the operations of a user at one of them. *)
Inductive side := SideA | SideB.
Definition other (d : side) : side := match d with SideA => SideB | SideB => SideA end.
Inductive pair_op := PRead (n : Z) | PWrite (l : list Z) | PShutdown | PPending | PWPending | PGuarantee | PRequest | PResetRequest.

(** [ps d] is the pipe that side [d] writes to. *)
Definition pipes : Type := side -> pipe.
Definition set_pipe (d : side) (p : pipe) (ps : pipes) : pipes :=
  fun x => match d, x with SideA, SideA | SideB, SideB => p | _, _ => ps x end.

(** The flags a user looks at after a read or a write that would block. *)
Definition retry_read : Z := Z.lor BIO_FLAGS_READ BIO_FLAGS_SHOULD_RETRY.
Definition retry_write : Z := Z.lor BIO_FLAGS_WRITE BIO_FLAGS_SHOULD_RETRY.

(** What an operation does: its result, the bytes it delivers, the retry flags if it
    sets them, and the pipes. *)
Definition pair_spec (d : side) (o : pair_op) (ps : pipes) : Z * list Z * option Z * pipes :=
  let mine := ps d in
  let theirs := ps (other d) in
  match o with
  | PRead n =>
    if len (p_data theirs) =? 0 then
      if p_closed theirs then
        (0, [], Some 0, set_pipe (other d) (mk_pipe (p_cap theirs) [] true 0) ps)
      else
        (-1, [], Some retry_read, set_pipe (other d) (mk_pipe (p_cap theirs) [] false (Z.min n (p_cap theirs))) ps)
    else
      let k := Z.min n (len (p_data theirs)) in
      (k, ztake k (p_data theirs), Some 0,
       set_pipe (other d) (mk_pipe (p_cap theirs) (zdrop k (p_data theirs)) (p_closed theirs) 0) ps)
  | PWrite l =>
    let mine' := mk_pipe (p_cap mine) (p_data mine) (p_closed mine) 0 in
    if p_closed mine then (-1, [], Some 0, set_pipe d mine' ps)
    else if len (p_data mine) =? p_cap mine then (-1, [], Some retry_write, set_pipe d mine' ps)
    else
      let k := Z.min (len l) (p_cap mine - len (p_data mine)) in
      (k, [], Some 0, set_pipe d (mk_pipe (p_cap mine) (p_data mine ++ ztake k l) false 0) ps)
  | PShutdown => (1, [], None, set_pipe d (mk_pipe (p_cap mine) (p_data mine) true (p_request mine)) ps)
  | PPending => (len (p_data theirs), [], None, ps)
  | PWPending => (len (p_data mine), [], None, ps)
  | PGuarantee => (if p_closed mine then 0 else p_cap mine - len (p_data mine), [], None, ps)
  | PRequest => (p_request mine, [], None, ps)
  | PResetRequest => (1, [], None, set_pipe d (mk_pipe (p_cap mine) (p_data mine) (p_closed mine) 0) ps)
  end.

Section Pair.
Context `{P : Platform} `{A : Malloc}.

(** ** The ring buffer *)
Definition ring (buf : list Z) (off : Z) (q : list Z) : Prop :=
  0 <= off < len buf /\ len q <= len buf /\
  forall i, 0 <= i < len q -> at_ q i = at_ buf ((off + i) mod len buf).

Definition half_ok (b : bio_bio_st) (p : pipe) (peer_addr : Z) : Prop :=
  peer b = peer_addr /\ closed b = b2z (p_closed p) /\ blen b = len (p_data p) /\ bsize b = p_cap p /\ request b = p_request p /\
  0 <= p_request p <= p_cap p /\ 2 * p_cap p <= size_max /\
  exists buf, bbuf b = Some buf /\ len buf = p_cap p /\ ring buf (offset b) (p_data p).

Lemma mod_once x n : 0 <= x < 2 * n -> x mod n = if x <? n then x else x - n.
Proof.
  intros H. destruct (Z.ltb_spec x n); [apply Z.mod_small; lia|]. symmetry. apply (Z.mod_unique _ _ 1); lia.
Qed.

Lemma ring_load buf off q k :
  ring buf off q -> 0 <= k <= len q -> off + k <= len buf -> load_at buf off k = Some (ztake k q).
Proof.
  intros (Ho & Hl & Hr) Hk Hc. rewrite load_at_ok by lia. f_equal.
  apply list_eq_at; [rewrite !len_ztake by (rewrite ?len_zdrop; lia); done|].
  intros i Hi. rewrite len_ztake in Hi by (rewrite len_zdrop; lia).
  rewrite !at_ztake, at_zdrop, Hr, Z.mod_small by lia. done.
Qed.

Lemma ring_drop buf off q k :
  ring buf off q -> 0 <= k <= len q -> ring buf (if len q - k =? 0 then 0 else (off + k) mod len buf) (zdrop k q).
Proof.
  intros (Ho & Hl & Hr) Hk. unfold ring. rewrite len_zdrop by lia. pose proof (Z.mod_pos_bound (off + k) (len buf)).
  destruct (Z.eqb_spec (len q - k) 0); (split; [lia|]; split; [lia|]; intros i Hi); [lia|].
  rewrite at_zdrop, Hr by lia. f_equal. rewrite Zplus_mod_idemp_l. f_equal. lia.
Qed.

Lemma at_store buf off l buf' i :
  store_at buf off l = Some buf' -> 0 <= i < len buf ->
  at_ buf' i = if (off <=? i) && (i <? off + len l) then at_ l (i - off) else at_ buf i.
Proof.
  unfold store_at. destruct (Z.leb_spec 0 off); [|done]. destruct (Z.leb_spec (off + len l) (len buf)); [|done]. simpl.
  intros [= <-] Hi. pose proof (len_nonneg l). assert (len (ztake off buf) = off) as Ht by (rewrite len_ztake; lia).
  destruct (Z.leb_spec off i); simpl.
  - rewrite at_app_r, Ht by lia. destruct (Z.ltb_spec i (off + len l)).
    + by rewrite at_app_l by lia.
    + rewrite at_app_r, at_zdrop by lia. f_equal. lia.
  - by rewrite at_app_l, at_ztake by lia.
Qed.

(** Storing behind the last byte of the ring. *)
Lemma ring_store buf off q l buf' :
  ring buf off q -> len q + len l <= len buf ->
  (off + len q) mod len buf + len l <= len buf ->
  store_at buf ((off + len q) mod len buf) l = Some buf' -> ring buf' off (q ++ l).
Proof.
  intros (Ho & Hl & Hr) Hf Hc E. pose proof (store_at_len _ _ _ _ E) as Hlen. pose proof (len_nonneg l) as Hl0. pose proof (len_nonneg q) as Hq0.
  unfold ring. rewrite Hlen, len_app. split; [lia|]. split; [lia|]. intros i Hi.
  set (n := len buf) in *. set (w := (off + len q) mod n) in *.
  assert (0 <= w < n) as Hw by (apply Z.mod_pos_bound; lia).
  pose proof (Z.mod_pos_bound (off + i) n ltac:(lia)) as Hi'.
  rewrite (at_store _ _ _ _ _ E) by lia.
  destruct (Z.lt_ge_cases i (len q)) as [Hc1|Hc1].
  - rewrite at_app_l, Hr by lia. fold n.
    assert ((w <=? (off + i) mod n) && ((off + i) mod n <? w + len l) = false) as ->; [|done].
    apply andb_false_iff. rewrite Z.leb_gt, Z.ltb_ge. subst w.
    rewrite !mod_once in * by lia. zcases; lia.
  - rewrite at_app_r by lia.
    assert ((off + i) mod n = w + (i - len q)) as ->.
    { subst w. symmetry. apply (Z.mod_unique _ _ ((off + len q) / n)); [lia|].
      pose proof (Z.div_mod (off + len q) n ltac:(lia)). lia. }
    rewrite (proj2 (Z.leb_le w _)), (proj2 (Z.ltb_lt _ (w + len l))) by lia. simpl. f_equal. lia.
Qed.

Definition with_pdata (p : pipe) (l : list Z) : pipe := mk_pipe (p_cap p) l (p_closed p) (p_request p).

(** One iteration of the loop of [bio_read]. *)
Lemma ring_read_step fuel b p a rest :
  half_ok b p a -> 0 < rest <= len (p_data p) ->
  let chunk := Z.min rest (p_cap p - offset b) in
  exists b', half_ok b' (with_pdata p (zdrop chunk (p_data p))) a /\ (chunk < rest -> offset b' = 0) /\
    ring_read (S fuel) b rest =
      if rest - chunk =? 0 then Some (b', ztake chunk (p_data p))
      else '(b'', more) ← ring_read fuel b' (rest - chunk); Some (b'', ztake chunk (p_data p) ++ more).
Proof.
  intros (Hp & Hcl & Hl & Hs & Hreq & Hreq' & Hcap & buf & Hb & Hlb & Hr) Hrest chunk. pose proof Hr as (Ho & Hq & _).
  rewrite Hlb in *. unfold size_max in *. assert (0 < chunk <= rest) as Hc by lia.
  exists (with_ring b (len (p_data p) - chunk) (if len (p_data p) - chunk =? 0 then 0 else (offset b + chunk) mod p_cap p) (Some buf)).
  split; [|split].
  - unfold half_ok. cbn. rewrite len_zdrop by lia. unfold size_max. repeat (split; [done || lia|]). exists buf. split; [done|]. split; [done|].
    rewrite <- Hlb. apply ring_drop; [done|lia].
  - intros Hlt. cbn. assert (offset b + chunk = p_cap p) as -> by lia. rewrite Z.mod_same by lia. by destruct (_ =? 0).
  - cbn [ring_read]. rewrite Hb. cbn [mbind option_bind]. rewrite Hl, Hs.
    rewrite (proj2 (Z.leb_le rest _)) by lia. cbn [mbind option_bind assert_].
    assert (wrap size_bits (offset b + rest) = offset b + rest) as -> by (apply Z.mod_small; lia).
    assert ((if offset b + rest <=? p_cap p then rest else p_cap p - offset b) = chunk) as -> by (subst chunk; zcases; lia).
    assert (wrap size_bits (offset b + chunk) = offset b + chunk) as -> by (apply Z.mod_small; lia).
    rewrite (proj2 (Z.leb_le (offset b + chunk) _)) by lia. cbn [mbind option_bind assert_].
    rewrite (ring_load _ _ _ _ Hr) by lia. cbn [mbind option_bind].
    assert (wrap size_bits (len (p_data p) - chunk) = len (p_data p) - chunk) as -> by (apply Z.mod_small; lia).
    assert (wrap size_bits (rest - chunk) = rest - chunk) as -> by (apply Z.mod_small; lia).
    destruct (Z.eqb_spec (len (p_data p) - chunk) 0); cbn [negb].
    + rewrite (proj2 (Z.eqb_eq chunk rest)) by lia. cbn [mbind option_bind assert_]. by destruct (rest - chunk =? 0).
    + cbn [mbind option_bind assert_]. rewrite mod_once by lia.
      assert ((if offset b + chunk =? p_cap p then 0 else offset b + chunk) = (if offset b + chunk <? p_cap p then offset b + chunk else offset b + chunk - p_cap p)) as -> by (zcases; lia).
      by destruct (rest - chunk =? 0).
Qed.

Lemma ring_read_ok b p a k :
  half_ok b p a -> 0 < k <= len (p_data p) ->
  exists b', half_ok b' (with_pdata p (zdrop k (p_data p))) a /\ ring_read 2 b k = Some (b', ztake k (p_data p)).
Proof.
  intros Hok Hk. destruct (ring_read_step 1 b p a k Hok Hk) as (b1 & Hok1 & Ho1 & ->).
  set (c := Z.min k (p_cap p - offset b)) in *. destruct (Z.eqb_spec (k - c) 0) as [Hz|Hz].
  - assert (c = k) as -> by lia. eauto.
  - assert (0 < c < k) as Hc.
    { destruct Hok as (_ & _ & _ & _ & _ & _ & _ & buf & _ & Hlb & (Ho & _)). lia. }
    destruct (ring_read_step 0 b1 _ a (k - c) Hok1) as (b2 & Hok2 & _ & ->); [cbn; rewrite len_zdrop; lia|].
    rewrite Ho1 by lia. cbn [with_pdata p_data p_cap] in *.
    assert (Z.min (k - c) (p_cap p - 0) = k - c) as E.
    { destruct Hok as (_ & _ & _ & _ & _ & _ & _ & buf & _ & Hlb & (_ & Hle & _)). lia. }
    rewrite Ho1, E in Hok2 by lia. rewrite E, Z.sub_diag. cbn [Z.eqb mbind option_bind]. exists b2. split.
    + rewrite zdrop_zdrop in Hok2 by lia. by replace (c + (k - c)) with k in Hok2 by lia.
    + by rewrite ztake_split by lia.
Qed.

(** One iteration of the loop of [bio_write]. *)
Lemma ring_write_step fuel b p a data rest :
  half_ok b p a -> 0 < rest <= len data -> len (p_data p) + rest <= p_cap p ->
  let w := (offset b + len (p_data p)) mod p_cap p in
  let chunk := Z.min rest (p_cap p - w) in
  exists b', half_ok b' (with_pdata p (p_data p ++ ztake chunk data)) a /\
    0 < chunk <= rest /\ offset b' = offset b /\
    ring_write (S fuel) b data rest =
      if rest - chunk =? 0 then Some b' else ring_write fuel b' (zdrop chunk data) (rest - chunk).
Proof.
  intros (Hp & Hcl & Hl & Hs & Hreq & Hreq' & Hcap & buf & Hb & Hlb & Hr) Hrest Hroom w chunk. pose proof Hr as (Ho & Hq & _).
  rewrite Hlb in *. unfold size_max in *. pose proof (len_nonneg (p_data p)) as Hq0.
  assert (0 <= w < p_cap p) as Hw by (apply Z.mod_pos_bound; lia). assert (0 < chunk <= rest) as Hc by lia.
  assert (len (ztake chunk data) = chunk) as Hlc by (rewrite len_ztake; lia).
  destruct (store_at buf w (ztake chunk data)) as [buf'|] eqn:Es; [|rewrite store_at_ok in Es by lia; done].
  exists (with_ring b (len (p_data p) + chunk) (offset b) (Some buf')). split; [|split; [done|split; [done|]]].
  - unfold half_ok. cbn. rewrite len_app, Hlc. unfold size_max. repeat (split; [done || lia|]). exists buf'. split; [done|].
    split; [rewrite (store_at_len _ _ _ _ Es); lia|].
    subst w. rewrite <- Hlb in Es, Hw. eapply ring_store; [exact Hr|..]; [lia| |exact Es]. subst chunk. rewrite Hlb in *. lia.
  - cbn [ring_write]. rewrite Hb. cbn [mbind option_bind]. rewrite Hl, Hs.
    assert (wrap size_bits (len (p_data p) + rest) = len (p_data p) + rest) as -> by (apply Z.mod_small; lia).
    rewrite (proj2 (Z.leb_le (len (p_data p) + rest) _)) by lia. cbn [mbind option_bind assert_].
    assert (wrap size_bits (offset b + len (p_data p)) = offset b + len (p_data p)) as -> by (apply Z.mod_small; lia).
    assert ((if p_cap p <=? offset b + len (p_data p) then offset b + len (p_data p) - p_cap p else offset b + len (p_data p)) = w) as ->
      by (subst w; rewrite mod_once by lia; zcases; lia).
    assert (wrap size_bits (w + rest) = w + rest) as -> by (apply Z.mod_small; lia).
    assert ((if w + rest <=? p_cap p then rest else p_cap p - w) = chunk) as -> by (subst chunk; zcases; lia).
    rewrite load_at_ok by lia. rewrite zdrop_0. cbn [mbind option_bind]. rewrite Es. cbn [mbind option_bind with_ring bsize blen].
    assert (wrap size_bits (len (p_data p) + chunk) = len (p_data p) + chunk) as -> by (apply Z.mod_small; lia).
    rewrite Hs, (proj2 (Z.leb_le (len (p_data p) + chunk) _)) by lia. cbn [mbind option_bind assert_].
    assert (wrap size_bits (rest - chunk) = rest - chunk) as -> by (apply Z.mod_small; lia).
    unfold with_ring. cbn. by destruct (rest - chunk =? 0).
Qed.

Lemma ring_write_ok b p a data k :
  half_ok b p a -> 0 < k <= len data -> len (p_data p) + k <= p_cap p ->
  exists b', half_ok b' (with_pdata p (p_data p ++ ztake k data)) a /\ ring_write 2 b data k = Some b'.
Proof.
  intros Hok Hk Hroom. destruct (ring_write_step 1 b p a data k Hok Hk Hroom) as (b1 & Hok1 & Hc & Ho1 & ->).
  set (w := (offset b + len (p_data p)) mod p_cap p) in *. set (c := Z.min k (p_cap p - w)) in *.
  assert (0 <= offset b < p_cap p /\ len (p_data p) <= p_cap p) as [Ho Hle].
  { destruct Hok as (_ & _ & _ & _ & _ & _ & _ & buf & _ & <- & (? & ? & _)). done. }
  destruct (Z.eqb_spec (k - c) 0) as [Hz|Hz]; [assert (c = k) as -> by lia; eauto|].
  pose proof (len_nonneg (p_data p)) as Hq0.
  assert (len (p_data p ++ ztake c data) = len (p_data p) + c) as Hl1 by (rewrite len_app, len_ztake; lia).
  destruct (ring_write_step 0 b1 _ a (zdrop c data) (k - c) Hok1) as (b2 & Hok2 & _ & _ & ->); [rewrite len_zdrop; lia|cbn; lia|].
  cbn [with_pdata p_data p_cap] in *. rewrite Ho1, Hl1 in *.
  assert ((offset b + (len (p_data p) + c)) mod p_cap p = 0) as Hw0.
  { assert (w = offset b + len (p_data p)) as Hw by (subst c; revert Hz; unfold w; rewrite mod_once by lia; zcases; lia).
    replace (offset b + (len (p_data p) + c)) with (p_cap p) by lia. apply Z.mod_same. lia. }
  rewrite Hw0, Z.min_l, Z.sub_diag in * by lia. cbn [Z.eqb]. exists b2. split; [|done].
  rewrite <- app_assoc, ztake_split in Hok2 by lia. done.
Qed.

(** ** The store *)
Definition end_ok (s : pair_bios) (a peer_addr : Z) (p : pipe) : Prop :=
  exists x b, s !! a = Some x /\ method x = bio_s_bio /\ init x <> 0 /\ ptr x = Some b /\ half_ok b p peer_addr.

(** The two BIOs at the addresses [ad] are a pair with the pipes [ps]. *)
Definition pair_ok (s : pair_bios) (ad : side -> Z) (ps : pipes) : Prop :=
  ad SideA <> ad SideB /\ forall d, ad d <> 0 /\ end_ok s (ad d) (ad (other d)) (ps d).

Lemma end_ok_insert s a pa p x b :
  method x = bio_s_bio -> init x <> 0 -> ptr x = Some b -> half_ok b p pa -> end_ok (<[a := x]> s) a pa p.
Proof. intros. exists x, b. by rewrite lookup_insert_eq. Qed.

Lemma end_ok_insert_ne s a a' pa p x : a <> a' -> end_ok s a pa p -> end_ok (<[a' := x]> s) a pa p.
Proof. intros Hne (y & b & E & H). exists y, b. by rewrite lookup_insert_ne by done. Qed.

Lemma update_half_eq (s : pair_bios) a f x b :
  s !! a = Some x -> ptr x = Some b -> update_half s a f = Some (<[a := with_ptr x (Some (f b))]> s).
Proof. intros E Hp. unfold update_half. rewrite E. cbn. by rewrite Hp. Qed.

Lemma addr_ne s ad ps d : pair_ok s ad ps -> ad d <> ad (other d).
Proof. intros [H _]. by destruct d; simpl. Qed.

(** Both ends after a change of the pipe of [d]. *)
Lemma pair_ok_intro s ad (ps : pipes) d p :
  ad d <> ad (other d) -> ad d <> 0 -> ad (other d) <> 0 ->
  end_ok s (ad d) (ad (other d)) p -> end_ok s (ad (other d)) (ad d) (ps (other d)) -> pair_ok s ad (set_pipe d p ps).
Proof.
  intros Hne H0 H0' Hd Ho. split; [by destruct d; simpl in *|]. intros x. by destruct d, x; simpl in *.
Qed.

Lemma other_other d : other (other d) = d.
Proof. by destruct d. Qed.

Lemma pair_ok_same s ad ps d : pair_ok s ad ps -> pair_ok s ad (set_pipe d (ps d) ps).
Proof. intros [H1 H2]. split; [done|]. intros x. destruct d, x; simpl; apply H2. Qed.

(** The counters of the generic layer do not matter. *)
Lemma pair_ok_counts s ad ps d r w :
  pair_ok s ad ps -> exists s', update s (ad d) (fun b => with_counts b (r b) (w b)) = Some s' /\ pair_ok s' ad ps /\
    exists z, s' !! ad d = Some z /\ forall y, s !! ad d = Some y -> BIO_get_retry_flags z = BIO_get_retry_flags y.
Proof.
  intros Hok. pose proof (addr_ne _ _ _ d Hok) as Hne. destruct Hok as [H1 H2]. destruct (H2 d) as [H0 (x & b & E & Hm & Hi & Hp & Hh)].
  unfold update. rewrite E. cbn [mbind option_bind]. eexists. split; [done|]. split.
  - split; [done|]. intros e. split; [apply H2|]. destruct (decide (ad e = ad d)) as [Hed|Hed].
    + assert (e = d) as -> by (destruct e, d; simpl in *; congruence). by eapply end_ok_insert.
    + apply end_ok_insert_ne; [done|]. apply H2.
  - eexists. split; [apply lookup_insert_eq|]. by intros y [= <-].
Qed.

Lemma retry_after_clear {T} (x : bio_st T) f :
  Z.land f kRetryFlags = f -> BIO_get_retry_flags (BIO_set_flags (BIO_clear_retry_flags x) f) = f.
Proof.
  intros H. unfold BIO_get_retry_flags. cbn. rewrite Z.land_lor_distr_l, <- Z.land_assoc, H.
  change (Z.land (Z.lnot kRetryFlags) kRetryFlags) with 0. by rewrite Z.land_0_r.
Qed.

Lemma retry_cleared {T} (x : bio_st T) : BIO_get_retry_flags (BIO_clear_retry_flags x) = 0.
Proof.
  unfold BIO_get_retry_flags. cbn. rewrite <- Z.land_assoc. change (Z.land (Z.lnot kRetryFlags) kRetryFlags) with 0. by rewrite Z.land_0_r.
Qed.

Lemma swrap_int n : 0 <= n <= INT_MAX -> swrap 32 n = n.
Proof. unfold INT_MAX, swrap. intros. change (2 ^ (32 - 1)) with 2147483648. change (2 ^ 32) with 4294967296. rewrite Z.mod_small; lia. Qed.

Lemma swrap_long n : 0 <= n -> 2 * n <= size_max -> swrap size_bits n = n.
Proof. unfold size_max, swrap. intros. platform; cbn in *; rewrite Z.mod_small; lia. Qed.

(** The result of an operation that the specification describes. *)
Definition answers (s : pair_bios) (ad : side -> Z) (d : side) (spec : Z * list Z * option Z * pipes) (r : Z) (out : list Z) : Prop :=
  let '(r', out', fl, ps') := spec in
  r = r' /\ out = out' /\ pair_ok s ad ps' /\
  match fl with None => True | Some f => exists x, s !! ad d = Some x /\ BIO_get_retry_flags x = f end.

Lemma half_ok_request b p a r : half_ok b p a -> 0 <= r <= p_cap p -> half_ok (with_request b r) (mk_pipe (p_cap p) (p_data p) (p_closed p) r) a.
Proof. intros (H1 & H2 & H3 & H4 & H5 & H6 & H7 & H8) Hr. repeat (split; [done || lia|]). exact H8. Qed.

Lemma bio_read_ok s ad ps d n :
  pair_ok s ad ps -> 0 < n <= INT_MAX ->
  exists r out s', bio_read s (ad d) true n = Some (r, out, s') /\ answers s' ad d (pair_spec d (PRead n) ps) r out.
Proof.
  intros Hok Hn. pose proof (addr_ne _ _ _ d Hok) as Hne. pose proof Hok as [_ H2].
  destruct (H2 d) as [H0 (x & b & E & Hm & Hi & Hp & Hh)]. destruct (H2 (other d)) as [H0' (x' & b' & E' & Hm' & Hi' & Hp' & Hh')].
  rewrite other_other in Hh'. pose proof Hh as (Hpeer & _).
  pose proof Hh' as (_ & Hcl' & Hl' & Hs' & _ & Hreq' & Hcap' & buf' & Hb' & Hlb' & Hring'). pose proof Hring' as (Hoff' & Hle' & _).
  unfold bio_read. assert (wrap size_bits n = n) as -> by (apply Z.mod_small; unfold INT_MAX in *; platform; lia).
  rewrite E. cbn [mbind option_bind]. cbn [init ptr BIO_clear_retry_flags with_flags]. rewrite (proj2 (Z.eqb_neq _ _) Hi), Hp. cbn [mbind option_bind].
  rewrite Hpeer, (proj2 (Z.eqb_neq _ _) H0'). cbn [negb assert_ mbind option_bind].
  rewrite lookup_insert_ne, E' by done. cbn [mbind option_bind]. rewrite Hp'. cbn [mbind option_bind]. rewrite Hb'. cbn [mbind option_bind].
  rewrite (update_half_eq _ _ _ x' b') by (done || by rewrite lookup_insert_ne). cbn [mbind option_bind].
  set (xc := BIO_clear_retry_flags x). set (s1 := <[ad (other d) := _]> (<[ad d := _]> s)).
  assert (s1 !! ad d = Some xc) as Es1 by (subst s1; by rewrite lookup_insert_ne, lookup_insert_eq by done).
  assert (half_ok (with_request b' 0) (mk_pipe (p_cap (ps (other d))) (p_data (ps (other d))) (p_closed (ps (other d))) 0) (ad d)) as Hh0
    by (apply half_ok_request; [done|lia]).
  (* the store with the other half replaced *)
  assert (forall sx bx px y, sx !! ad d = Some y -> method y = bio_s_bio -> init y <> 0 -> ptr y = Some b ->
    half_ok bx px (ad d) -> pair_ok (<[ad (other d) := with_ptr x' (Some bx)]> sx) ad (set_pipe (other d) px ps)) as Hput.
  { intros sx bx px y Ey Hy1 Hy2 Hy3 Hbx. apply pair_ok_intro; rewrite ?other_other; try done.
    - by eapply end_ok_insert.
    - apply end_ok_insert_ne; [done|]. by exists y, b. }
  rewrite (proj2 (Z.eqb_neq n 0)) by lia. cbn [negb orb]. cbn [blen closed with_request bsize]. rewrite Hl', Hcl', Hs'.
  unfold pair_spec, answers. destruct (Z.eqb_spec (len (p_data (ps (other d)))) 0) as [Hz|Hz].
  - assert (p_data (ps (other d)) = []) as Hnil.
    { destruct (p_data (ps (other d))) as [|z zs]; [done|]. rewrite len_cons in Hz. pose proof (len_nonneg zs). lia. }
    rewrite Hnil in Hh0. destruct (p_closed (ps (other d))) eqn:Hc.
    + cbn. eexists _, _, _. split; [done|]. split; [done|]. split; [done|]. split; [|exists xc; split; [done|apply retry_cleared]].
      by eapply (Hput _ _ _ xc); [apply lookup_insert_eq|..].
    + cbn [b2z Z.eqb negb]. unfold update. rewrite Es1. cbn [mbind option_bind].
      erewrite update_half_eq by (subst s1; by rewrite ?lookup_insert_ne, ?lookup_insert_eq by done || done). cbn [mbind option_bind].
      eexists _, _, _. split; [done|]. split; [done|]. split; [done|]. split.
      * assert ((if n <=? p_cap (ps (other d)) then n else p_cap (ps (other d))) = Z.min n (p_cap (ps (other d)))) as -> by (zcases; lia).
        eapply (Hput _ _ _ (BIO_set_retry_read xc)); [apply lookup_insert_eq|done..|].
        pose proof (half_ok_request _ _ _ (Z.min n (p_cap (ps (other d)))) Hh0) as Hx. cbn in Hx. apply Hx. lia.
      * exists (BIO_set_retry_read xc). split; [by rewrite lookup_insert_ne, lookup_insert_eq by done|]. by apply retry_after_clear.
  - pose proof (len_nonneg (p_data (ps (other d)))) as Hq.
    assert ((if len (p_data (ps (other d))) <? n then len (p_data (ps (other d))) else n) = Z.min n (len (p_data (ps (other d))))) as -> by (zcases; lia).
    destruct (ring_read_ok _ _ _ (Z.min n (len (p_data (ps (other d))))) Hh0) as (b2 & Hb2 & ->); [cbn; lia|]. cbn [mbind option_bind p_data].
    erewrite update_half_eq; [|subst s1; apply lookup_insert_eq|done]. cbn [mbind option_bind].
    eexists _, _, _. split; [done|]. split; [apply swrap_int; lia|]. split; [done|]. split.
    + eapply (Hput _ _ _ xc); [exact Es1|done..|exact Hb2].
    + exists xc. split; [by rewrite lookup_insert_ne by done|apply retry_cleared].
Qed.

Lemma bio_write_ok s ad ps d l :
  pair_ok s ad ps -> 0 < len l <= INT_MAX ->
  exists r s', bio_write s (ad d) (Some l) (len l) = Some (r, s') /\ answers s' ad d (pair_spec d (PWrite l) ps) r [].
Proof.
  intros Hok Hn. pose proof (addr_ne _ _ _ d Hok) as Hne. pose proof Hok as [_ H2].
  destruct (H2 d) as [H0 (x & b & E & Hm & Hi & Hp & Hh)]. destruct (H2 (other d)) as [H0' Hother].
  rewrite other_other in Hother. pose proof Hh as (Hpeer & Hcl & Hl & Hs & _ & Hreq & Hcap & buf & Hb & Hlb & (_ & Hle & _)).
  unfold bio_write. assert (wrap size_bits (len l) = len l) as -> by (apply Z.mod_small; unfold INT_MAX in *; platform; lia).
  rewrite E. cbn [mbind option_bind]. cbn [init ptr BIO_clear_retry_flags with_flags]. rewrite (proj2 (Z.eqb_neq _ _) Hi), Hp.
  rewrite (proj2 (Z.eqb_neq (len l) 0)) by lia. cbn [orb mbind option_bind].
  rewrite Hpeer, (proj2 (Z.eqb_neq _ _) H0'). cbn [negb assert_ mbind option_bind]. rewrite Hb. cbn [mbind option_bind].
  set (xc := BIO_clear_retry_flags x). cbn [closed blen bsize with_request]. rewrite Hcl, Hl, Hs.
  assert (half_ok (with_request b 0) (mk_pipe (p_cap (ps d)) (p_data (ps d)) (p_closed (ps d)) 0) (ad (other d))) as Hh0
    by (apply half_ok_request; [done|lia]).
  assert (forall y bx px, method y = bio_s_bio -> init y <> 0 -> half_ok bx px (ad (other d)) -> ptr y = Some bx ->
    forall y', pair_ok (<[ad d := y]> (<[ad d := y']> (<[ad d := xc]> s))) ad (set_pipe d px ps)) as Hput.
  { intros y bx px Hy1 Hy2 Hbx Hy3 y'. rewrite !insert_insert_eq. apply pair_ok_intro; try done.
    - by eapply end_ok_insert.
    - by apply end_ok_insert_ne. }
  unfold pair_spec, answers. destruct (p_closed (ps d)) eqn:Hc; cbn [b2z Z.eqb negb].
  - eexists _, _. split; [done|]. split; [done|]. split; [done|]. rewrite <- (insert_insert_eq (<[ad d := xc]> s) (ad d) (with_ptr xc (Some (with_request b 0))) xc).
    split; [by eapply Hput|]. exists (with_ptr xc (Some (with_request b 0))). split; [apply lookup_insert_eq|]. apply (retry_cleared x).
  - rewrite (proj2 (Z.leb_le _ _)) by lia. cbn [assert_ mbind option_bind].
    destruct (Z.eqb_spec (len (p_data (ps d))) (p_cap (ps d))) as [Hf|Hf].
    + unfold update. rewrite lookup_insert_eq. cbn [mbind option_bind]. eexists _, _. split; [done|]. split; [done|]. split; [done|].
      split; [by eapply Hput|]. eexists. split; [apply lookup_insert_eq|]. by apply (retry_after_clear x).
    + assert ((if p_cap (ps d) - len (p_data (ps d)) <? len l then p_cap (ps d) - len (p_data (ps d)) else len l)
        = Z.min (len l) (p_cap (ps d) - len (p_data (ps d)))) as -> by (zcases; lia).
      pose proof (len_nonneg (p_data (ps d))) as Hq. set (k := Z.min (len l) (p_cap (ps d) - len (p_data (ps d)))).
      destruct (ring_write_ok _ _ _ l k Hh0) as (b2 & Hb2 & ->); [lia|cbn; lia|]. cbn [mbind option_bind].
      eexists _, _. split; [done|]. split; [apply swrap_int; lia|]. split; [done|]. split; [by eapply Hput|].
      eexists. split; [apply lookup_insert_eq|]. apply (retry_cleared x).
Qed.

Lemma BIO_ctrl_pair s ad ps d cmd n arg : pair_ok s ad ps -> BIO_ctrl pair_methods s (ad d) cmd n arg = bio_ctrl s (ad d) cmd n arg.
Proof.
  intros [_ H]. destruct (H d) as [H0 (x & b & E & Hm & _)]. unfold BIO_ctrl.
  rewrite (proj2 (Z.eqb_neq _ 0)) by done. rewrite E. cbn [mbind option_bind]. by rewrite Hm.
Qed.

(** The operations as calls of the library; the retry flags are those of the BIO
    after a read or a write. *)
Definition pair_exec (s : pair_bios) (ad : side -> Z) (d : side) (o : pair_op) : option (Z * list Z * option Z * pair_bios) :=
  match o with
  | PRead n => '(r, out, s) ← BIO_read pair_methods s (ad d) true n; x ← s !! ad d; Some (r, out, Some (BIO_get_retry_flags x), s)
  | PWrite l => '(r, s) ← BIO_write pair_methods s (ad d) (Some l) (len l); x ← s !! ad d; Some (r, [], Some (BIO_get_retry_flags x), s)
  | PShutdown => '(r, s) ← BIO_shutdown_wr s (ad d); Some (r, [], None, s)
  | PPending => '(r, s) ← BIO_pending pair_methods s (ad d); Some (r, [], None, s)
  | PWPending => '(r, s) ← BIO_wpending pair_methods s (ad d); Some (r, [], None, s)
  | PGuarantee => '(r, s) ← BIO_ctrl_get_write_guarantee s (ad d); Some (r, [], None, s)
  | PRequest => '(r, s) ← BIO_ctrl_get_read_request s (ad d); Some (r, [], None, s)
  | PResetRequest => '(r, _, s) ← BIO_ctrl pair_methods s (ad d) BIO_C_RESET_READ_REQUEST 0 arg_null; Some (r, [], None, s)
  end.

Definition pair_op_ok (o : pair_op) : Prop :=
  match o with PRead n => 0 < n <= INT_MAX | PWrite l => 0 < len l <= INT_MAX | _ => True end.

Lemma wrap_long n : 0 <= n -> 2 * n <= size_max -> wrap size_bits (swrap size_bits n) = n.
Proof. intros H1 H2. rewrite swrap_long by done. apply Z.mod_small. unfold size_max in H2. lia. Qed.

(** An operation that only changes the state behind [ptr] at its own end. *)
Lemma pair_ok_half s ad ps d x b p :
  pair_ok s ad ps -> s !! ad d = Some x -> half_ok b p (ad (other d)) ->
  pair_ok (<[ad d := with_ptr x (Some b)]> s) ad (set_pipe d p ps).
Proof.
  intros Hok E Hb. pose proof (addr_ne _ _ _ d Hok) as Hne. destruct Hok as [_ H2].
  destruct (H2 d) as [H0 (x' & b' & E' & Hm & Hi & _)]. rewrite E in E'. injection E' as <-.
  destruct (H2 (other d)) as [H0' Hother]. rewrite other_other in Hother.
  apply pair_ok_intro; [done..| |by apply end_ok_insert_ne]. by eapply end_ok_insert.
Qed.

Lemma pair_exec_ok s ad ps d o :
  pair_ok s ad ps -> pair_op_ok o ->
  let '(r, out, fl, ps') := pair_spec d o ps in
  exists s', pair_exec s ad d o = Some (r, out, fl, s') /\ pair_ok s' ad ps'.
Proof.
  intros Hok Ho. pose proof Hok as [_ H2]. destruct (H2 d) as [H0 (x & b & E & Hm & Hi & Hp & Hh)].
  destruct (H2 (other d)) as [H0' (x' & b' & E' & Hm' & Hi' & Hp' & Hh')].
  pose proof Hh as (Hpeer & Hcl & Hl & Hs & Hr & Hreq & Hcap & buf & Hb & Hlb & (Hoff & Hle & Hat)). pose proof (len_nonneg (p_data (ps d))) as Hq.
  pose proof Hh' as (_ & _ & Hl' & _ & _ & _ & Hcap' & buf' & Hb' & Hlb' & (_ & Hle' & _)). pose proof (len_nonneg (p_data (ps (other d)))) as Hq'.
  destruct o as [n|l| | | | | |]; cbn [pair_exec].
  - destruct (bio_read_ok s ad ps d n Hok Ho) as (r & out & s' & Er & Ha).
    destruct (pair_spec d (PRead n) ps) as [[[r' out'] fl] ps'] eqn:Es. destruct Ha as (-> & -> & Hok' & Hfl).
    assert (exists f, fl = Some f) as [f ->].
    { revert Es. cbn [pair_spec]. destruct (len (p_data (ps (other d))) =? 0), (p_closed (ps (other d))); intros [= <- <- <- <-]; eauto. }
    destruct Hfl as (y & Ey & <-).
    unfold BIO_read. rewrite (proj2 (Z.eqb_neq _ 0)) by done. rewrite E. cbn [mbind option_bind]. rewrite Hm. cbn [pair_methods Z.eqb bio_s_bio Pos.eqb].
    cbn [mbind option_bind bread methods_biop]. rewrite (proj2 (Z.eqb_neq _ _) Hi), (proj2 (Z.leb_gt n 0)) by (simpl in Ho; lia). rewrite Er. cbn [mbind option_bind].
    destruct (Z.ltb_spec 0 r').
    + destruct (pair_ok_counts s' ad ps' d (fun b => u64 (num_read b + r')) num_write Hok') as (s2 & E2 & Hok2 & z & Ez & Hfl).
      setoid_rewrite E2. cbn [mbind option_bind]. rewrite Ez. cbn [mbind option_bind]. exists s2. by rewrite (Hfl y Ey).
    + cbn [mbind option_bind]. rewrite Ey. cbn [mbind option_bind]. eauto.
  - destruct (bio_write_ok s ad ps d l Hok Ho) as (r & s' & Er & Ha).
    destruct (pair_spec d (PWrite l) ps) as [[[r' out'] fl] ps'] eqn:Es. destruct Ha as (-> & <- & Hok' & Hfl).
    assert (exists f, fl = Some f) as [f ->].
    { revert Es. cbn [pair_spec]. destruct (p_closed (ps d)), (len (p_data (ps d)) =? p_cap (ps d)); intros [= <- <- <- ]; eauto. }
    destruct Hfl as (y & Ey & <-).
    unfold BIO_write. rewrite (proj2 (Z.eqb_neq _ 0)) by done. rewrite E. cbn [mbind option_bind]. rewrite Hm. cbn [pair_methods Z.eqb bio_s_bio Pos.eqb].
    cbn [mbind option_bind bwrite methods_biop]. rewrite (proj2 (Z.eqb_neq _ _) Hi), (proj2 (Z.leb_gt (len l) 0)) by (simpl in Ho; lia). rewrite Er. cbn [mbind option_bind].
    destruct (Z.ltb_spec 0 r').
    + destruct (pair_ok_counts s' ad ps' d num_read (fun b => u64 (num_write b + r')) Hok') as (s2 & E2 & Hok2 & z & Ez & Hfl).
      setoid_rewrite E2. cbn [mbind option_bind]. rewrite Ez. cbn [mbind option_bind]. exists s2. by rewrite (Hfl y Ey).
    + cbn [mbind option_bind]. rewrite Ey. cbn [mbind option_bind]. eauto.
  - unfold BIO_shutdown_wr. rewrite (BIO_ctrl_pair _ _ _ _ _ _ _ Hok). unfold bio_ctrl. rewrite E. cbn [mbind option_bind]. rewrite Hp. cbn [mbind option_bind].
    eexists. split; [reflexivity|]. apply pair_ok_half; [done..|]. repeat (split; [done || lia|]). exists buf. split; [exact Hb|]. split; [exact Hlb|]. by split.
  - unfold BIO_pending. rewrite (BIO_ctrl_pair _ _ _ _ _ _ _ Hok). unfold bio_ctrl. rewrite E. cbn [mbind option_bind]. rewrite Hp. cbn [mbind option_bind].
    cbn. rewrite Hpeer, (proj2 (Z.eqb_neq _ _) H0'). cbn. rewrite E'. cbn. rewrite Hp'. cbn. rewrite Hl', swrap_long by lia.
    rewrite (proj2 (Z.ltb_ge _ 0)) by lia. eauto.
  - unfold BIO_wpending. rewrite (BIO_ctrl_pair _ _ _ _ _ _ _ Hok). unfold bio_ctrl. rewrite E. cbn [mbind option_bind]. rewrite Hp. cbn [mbind option_bind].
    cbn. rewrite Hb, Hl, swrap_long by lia. rewrite (proj2 (Z.ltb_ge _ 0)) by lia. eauto.
  - unfold BIO_ctrl_get_write_guarantee. rewrite (BIO_ctrl_pair _ _ _ _ _ _ _ Hok). unfold bio_ctrl. rewrite E. cbn [mbind option_bind]. rewrite Hp. cbn [mbind option_bind].
    cbn. rewrite Hpeer, (proj2 (Z.eqb_neq _ _) H0'), Hcl, Hs, Hl. cbn. destruct (p_closed (ps d)); cbn.
    + eauto.
    + rewrite wrap_long by lia. eauto.
  - unfold BIO_ctrl_get_read_request. rewrite (BIO_ctrl_pair _ _ _ _ _ _ _ Hok). unfold bio_ctrl. rewrite E. cbn [mbind option_bind]. rewrite Hp. cbn [mbind option_bind].
    cbn. rewrite Hr, wrap_long by lia. eauto.
  - rewrite (BIO_ctrl_pair _ _ _ _ _ _ _ Hok). unfold bio_ctrl. rewrite E. cbn [mbind option_bind]. rewrite Hp. cbn [mbind option_bind].
    eexists. split; [reflexivity|]. apply pair_ok_half; [done..|]. apply half_ok_request; [done|lia].
Qed.

(** ** Runs *)
Fixpoint pair_run (s : pair_bios) (ad : side -> Z) (ops : list (side * pair_op)) : option (list (Z * list Z * option Z) * pair_bios) :=
  match ops with
  | [] => Some ([], s)
  | (d, o) :: ops =>
    '(r, out, fl, s) ← pair_exec s ad d o;
    '(rs, s) ← pair_run s ad ops;
    Some ((r, out, fl) :: rs, s)
  end.
End Pair.

Fixpoint pipes_run (ps : pipes) (ops : list (side * pair_op)) : list (Z * list Z * option Z) * pipes :=
  match ops with
  | [] => ([], ps)
  | (d, o) :: ops =>
    let '(r, out, fl, ps) := pair_spec d o ps in
    let '(rs, ps) := pipes_run ps ops in ((r, out, fl) :: rs, ps)
  end.

Definition side_eqb (d e : side) : bool := match d, e with SideA, SideA | SideB, SideB => true | _, _ => false end.

(** The bytes of the writes of side [d] that were accepted, and the bytes the other
    side read. *)
Fixpoint sent (d : side) (ops : list (side * pair_op)) (rs : list (Z * list Z * option Z)) : list Z :=
  match ops, rs with
  | (e, PWrite l) :: ops, (r, _, _) :: rs => (if side_eqb d e then ztake r l else []) ++ sent d ops rs
  | _ :: ops, _ :: rs => sent d ops rs
  | _, _ => []
  end.
Fixpoint received (d : side) (ops : list (side * pair_op)) (rs : list (Z * list Z * option Z)) : list Z :=
  match ops, rs with
  | (e, PRead n) :: ops, (_, out, _) :: rs => (if side_eqb d (other e) then out else []) ++ received d ops rs
  | _ :: ops, _ :: rs => received d ops rs
  | _, _ => []
  end.

Lemma ztake_neg {B} (l : list B) : ztake (-1) l = [].
Proof. done. Qed.

Lemma pipes_run_stream ops ps d :
  let '(rs, ps') := pipes_run ps ops in
  p_data (ps d) ++ sent d ops rs = received d ops rs ++ p_data (ps' d).
Proof.
  revert ps. induction ops as [|[e o] ops IH]; intros ps; [simpl; by rewrite app_nil_r|].
  cbn [pipes_run]. destruct (pair_spec e o ps) as [[[r out] fl] ps1] eqn:E. specialize (IH ps1).
  destruct (pipes_run ps1 ops) as [rs ps2].
  assert (p_data (ps d) ++ sent d [(e, o)] [(r, out, fl)] = received d [(e, o)] [(r, out, fl)] ++ p_data (ps1 d)) as H1.
  { revert E. destruct o as [n|l| | | | | |]; cbn [pair_spec sent received]; rewrite ?app_nil_r.
    - destruct (Z.eqb_spec (len (p_data (ps (other e)))) 0) as [Hz|Hz].
      + assert (p_data (ps (other e)) = []) as Hn.
        { destruct (p_data (ps (other e))) as [|z zs]; [done|]. rewrite len_cons in Hz. pose proof (len_nonneg zs). lia. }
        destruct (p_closed (ps (other e))); intros [= <- <- <- <-]; destruct d, e; cbn in *; rewrite ?Hn; done.
      + intros [= <- <- <- <-]. destruct d, e; cbn; rewrite ?ztake_zdrop; done.
    - destruct (p_closed (ps e)); [|destruct (len (p_data (ps e)) =? p_cap (ps e))]; intros [= <- <- <- <-]; destruct d, e; cbn; rewrite ?ztake_neg, ?app_nil_r; done.
    - intros [= <- <- <- <-]; destruct d, e; cbn; rewrite ?app_nil_r; done.
    - intros [= <- <- <- <-]; by rewrite ?app_nil_r.
    - intros [= <- <- <- <-]; by rewrite ?app_nil_r.
    - intros [= <- <- <- <-]; by rewrite ?app_nil_r.
    - intros [= <- <- <- <-]; by rewrite ?app_nil_r.
    - intros [= <- <- <- <-]; destruct d, e; cbn; rewrite ?app_nil_r; done. }
  assert (sent d ((e, o) :: ops) ((r, out, fl) :: rs) = sent d [(e, o)] [(r, out, fl)] ++ sent d ops rs) as ->
    by (destruct o; cbn [sent]; rewrite ?app_nil_r; done).
  assert (received d ((e, o) :: ops) ((r, out, fl) :: rs) = received d [(e, o)] [(r, out, fl)] ++ received d ops rs) as ->
    by (destruct o; cbn [received]; rewrite ?app_nil_r; done).
  by rewrite app_assoc, H1, <- !app_assoc, IH.
Qed.

Lemma pair_run_ok `{P : Platform} `{A : Malloc} ops s ad ps :
  pair_ok s ad ps -> Forall (fun o => pair_op_ok o.2) ops ->
  exists s', pair_run s ad ops = Some ((pipes_run ps ops).1, s') /\ pair_ok s' ad (pipes_run ps ops).2.
Proof.
  intros Hok Hops. revert s ps Hok. induction Hops as [|[d o] ops Ho _ IH]; intros s ps Hok; [by exists s|]. cbn [pair_run pipes_run].
  pose proof (pair_exec_ok s ad ps d o Hok Ho) as H. destruct (pair_spec d o ps) as [[[r out] fl] ps1]. destruct H as (s1 & -> & Hok1).
  cbn [mbind option_bind]. destruct (IH s1 ps1 Hok1) as (s2 & -> & Hok2). cbn [mbind option_bind]. exists s2.
  by destruct (pipes_run ps1 ops).
Qed.

(** ** Making and breaking a pair *)

Definition pair_cap (n : Z) : Z := if n =? 0 then 17 * 1024 else n.
Definition at_sides (a1 a2 : Z) : side -> Z := fun d => match d with SideA => a1 | SideB => a2 end.
Definition new_pipes (n1 n2 : Z) : pipes :=
  fun d => mk_pipe (pair_cap (match d with SideA => n1 | SideB => n2 end)) [] false 0.

(** The requested size is valid: no object is larger than half the address space. *)
Definition size_ok `{P : Platform} `{A : Malloc} (n : Z) : Prop :=
  0 <= n /\ 2 * pair_cap n <= size_max /\ malloc_ok (pair_cap n) = true.

Lemma new_half_ok `{P : Platform} `{A : Malloc} n a :
  size_ok n -> exists buf, OPENSSL_malloc (pair_cap n) = Some buf /\
    half_ok (mk_half a 0 0 0 (pair_cap n) (Some buf) 0) (mk_pipe (pair_cap n) [] false 0) a.
Proof.
  intros (Hn & Hc & Hm). assert (0 < pair_cap n) as Hp by (unfold pair_cap; zcases; lia).
  exists (fresh (pair_cap n)). unfold OPENSSL_malloc. rewrite Hm. split; [done|].
  repeat (split; [done || (cbn; lia)|]). exists (fresh (pair_cap n)). cbn. rewrite fresh_len by lia.
  split; [done|]. split; [done|]. unfold ring. rewrite fresh_len by lia. change (len (@nil Z)) with 0. split; [lia|]. split; [lia|]. intros; lia.
Qed.

Lemma BIO_new_pair_half `{P : Platform} `{A : Malloc} s a :
  a <> 0 -> malloc_ok sizeof_bio_bio = true ->
  BIO_new pair_methods s a bio_s_bio None =
    Some (a, <[a := mk_bio bio_s_bio 0 1 0 0 0 1 (Some (mk_half 0 0 0 0 (17 * 1024) None 0)) 0 0 0]> s).
Proof.
  intros Ha Hm. unfold BIO_new. rewrite (proj2 (Z.eqb_neq a 0)) by done. cbn [pair_methods Z.eqb bio_s_bio Pos.eqb mbind option_bind create methods_biop].
  unfold bio_new. rewrite Hm. unfold update. rewrite lookup_insert_eq. cbn. by rewrite insert_insert_eq.
Qed.

Lemma make_buffer_new `{P : Platform} `{A : Malloc} n buf :
  OPENSSL_malloc (pair_cap n) = Some buf ->
  make_buffer (mk_half 0 0 0 0 (17 * 1024) None 0) n = Some (mk_half 0 0 0 0 (pair_cap n) (Some buf) 0).
Proof. intros H. unfold make_buffer, pair_cap in *. cbn. destruct (n =? 0); cbn; by rewrite H. Qed.

Lemma BIO_new_bio_pair_ok `{P : Platform} `{A : Malloc} s a1 a2 n1 n2 :
  a1 <> 0 -> a2 <> 0 -> a1 <> a2 -> malloc_ok sizeof_bio_bio = true -> size_ok n1 -> size_ok n2 ->
  exists s', BIO_new_bio_pair s a1 a2 n1 n2 = Some (1, a1, a2, s') /\ pair_ok s' (at_sides a1 a2) (new_pipes n1 n2).
Proof.
  intros H1 H2 Hne Hm Hn1 Hn2. unfold BIO_new_bio_pair. do 2 (rewrite BIO_new_pair_half by done; cbn [mbind option_bind]).
  rewrite (proj2 (Z.eqb_neq a1 0)), (proj2 (Z.eqb_neq a2 0)) by done. cbn [orb].
  destruct (new_half_ok n1 a2 Hn1) as (buf1 & Eb1 & Hb1). destruct (new_half_ok n2 a1 Hn2) as (buf2 & Eb2 & Hb2).
  unfold bio_make_pair. rewrite lookup_insert_eq, (lookup_insert_ne _ a2 a1), lookup_insert_eq by congruence. cbn [mbind option_bind ptr].
  cbn [peer Z.eqb negb orb]. rewrite (make_buffer_new _ _ Eb1).
  erewrite update_half_eq; [|by rewrite lookup_insert_ne, lookup_insert_eq by congruence|done]. cbn [mbind option_bind].
  rewrite (make_buffer_new _ _ Eb2).
  erewrite update_half_eq; [|apply lookup_insert_eq|done]. cbn [mbind option_bind].
  erewrite update_half_eq; [|rewrite !lookup_insert_ne, lookup_insert_eq by congruence; done|done]. cbn [mbind option_bind].
  unfold update. rewrite lookup_insert_ne, lookup_insert_eq by congruence. cbn [mbind option_bind].
  rewrite lookup_insert_ne, lookup_insert_eq by congruence. cbn [mbind option_bind].
  change (1 =? 0) with false. cbn match. eexists. split; [done|]. split; [done|]. intros d. split; [by destruct d|]. destruct d; cbn.
  - apply end_ok_insert_ne; [done|]. by eapply end_ok_insert.
  - by eapply end_ok_insert.
Qed.

Lemma bio_free_pair `{P : Platform} `{A : Malloc} s ad ps d n l :
  pair_ok s ad ps -> exists s',
    bio_free s (ad d) = Some (1, s') /\ BIO_read pair_methods s' (ad (other d)) true n = Some (-2, [], s') /\
    BIO_write pair_methods s' (ad (other d)) (Some l) (len l) = Some (-2, s').
Proof.
  intros Hok. pose proof (addr_ne _ _ _ d Hok) as Hne. pose proof Hok as [_ H2].
  destruct (H2 d) as [H0 (x & b & E & Hm & Hi & Hp & Hh)]. destruct (H2 (other d)) as [H0' (x' & b' & E' & Hm' & Hi' & Hp' & Hh')].
  rewrite other_other in Hh'. destruct Hh as (Hpeer & _ & _ & _ & _ & _ & _ & buf & Hb & _). destruct Hh' as (Hpeer' & _ & _ & _ & _ & _ & _ & buf' & Hb' & _).
  unfold bio_free. rewrite E. cbn [mbind option_bind]. rewrite Hp. cbn [mbind option_bind]. rewrite Hpeer, (proj2 (Z.eqb_neq _ 0)) by done. cbn [negb].
  unfold bio_destroy_pair. rewrite E. cbn [mbind option_bind]. rewrite Hp, Hpeer, (proj2 (Z.eqb_neq _ 0)) by done.
  rewrite E'. cbn [mbind option_bind]. rewrite Hp'. cbn [mbind option_bind]. rewrite Hpeer', Z.eqb_refl. cbn [assert_ mbind option_bind].
  unfold update. rewrite E'. cbn [mbind option_bind]. rewrite Hb'. cbn [mbind option_bind].
  erewrite update_half_eq; [|apply lookup_insert_eq|exact Hp']. cbn [mbind option_bind].
  rewrite !lookup_insert_ne, E by done. cbn [mbind option_bind]. rewrite Hb. cbn [mbind option_bind].
  erewrite update_half_eq; [|apply lookup_insert_eq|exact Hp]. cbn [mbind option_bind]. rewrite lookup_insert_eq. cbn [mbind option_bind].
  eexists. split; [done|]. unfold BIO_read, BIO_write. rewrite (proj2 (Z.eqb_neq _ 0)), !(lookup_insert_ne _ (ad d)), lookup_insert_eq by done.
  cbn [mbind option_bind with_ptr with_init method init]. rewrite Hm'. done.
Qed.

(** C31: a BIO pair implements two bounded pipes: whatever sequence of reads, writes,
    shutdowns and queries the users of the two ends run, in whatever order, no
    assertion fails and no access leaves a ring buffer; each operation returns,
    delivers and flags for retry what the specification of the pipes says; what an
    end reads is exactly what the other end's writes accepted, in order, but for
    what is still in the pipe; and when one end is freed the other only fails. *)
Theorem BIO_pair_refines_pipes `{P : Platform} `{A : Malloc} (s : pair_bios) (a1 a2 n1 n2 : Z) (ops : list (side * pair_op))
    (H1 : a1 <> 0) (H2 : a2 <> 0) (Hne : a1 <> a2) (Hm : malloc_ok sizeof_bio_bio = true) (Hn1 : size_ok n1) (Hn2 : size_ok n2)
    (Hops : Forall (fun o => pair_op_ok o.2) ops) :
  let ad := at_sides a1 a2 in
  exists s1 rs s2 ps, BIO_new_bio_pair s a1 a2 n1 n2 = Some (1, a1, a2, s1) /\
    pair_run s1 ad ops = Some (rs, s2) /\ pipes_run (new_pipes n1 n2) ops = (rs, ps) /\
    (forall d, sent d ops rs = received d ops rs ++ p_data (ps d) /\ len (p_data (ps d)) <= p_cap (ps d)) /\
    (forall d n l, exists s3, bio_free s2 (ad d) = Some (1, s3) /\
       BIO_read pair_methods s3 (ad (other d)) true n = Some (-2, [], s3) /\
       BIO_write pair_methods s3 (ad (other d)) (Some l) (len l) = Some (-2, s3)).
Proof.
  intros ad. destruct (BIO_new_bio_pair_ok s a1 a2 n1 n2 H1 H2 Hne Hm Hn1 Hn2) as (s1 & E1 & Hok1).
  destruct (pair_run_ok ops s1 _ _ Hok1 Hops) as (s2 & E2 & Hok2). pose proof (pipes_run_stream ops (new_pipes n1 n2)) as Hst.
  destruct (pipes_run (new_pipes n1 n2) ops) as [rs ps]. cbn [fst snd] in *. exists s1, rs, s2, ps.
  split; [done|]. split; [done|]. split; [done|]. split.
  - intros d. split; [exact (Hst d)|]. destruct Hok2 as [_ H]. destruct (H d) as (_ & x & b & _ & _ & _ & _ & (_ & _ & _ & _ & _ & _ & _ & buf & _ & <- & (_ & Hle & _))). done.
  - intros d n l. by eapply bio_free_pair.
Qed.

Lemma BIO_pair_refines_pipes_witness :
  let ops := [(SideA, PWrite [1; 2; 3; 4; 5]); (SideB, PRead 2); (SideA, PWrite [6; 7]); (SideB, PRead 9); (SideB, PRead 1)] in
  exists s1 rs s2 ps, BIO_new_bio_pair (P := LP64) (A := zeroing_malloc) ∅ 1 2 4 0 = Some (1, 1, 2, s1) /\
    pair_run (P := LP64) (A := zeroing_malloc) s1 (at_sides 1 2) ops = Some (rs, s2) /\
    pipes_run (new_pipes 4 0) ops = (rs, ps) /\
    rs = [(4, [], Some 0); (2, [1; 2], Some 0); (2, [], Some 0); (4, [3; 4; 6; 7], Some 0); (-1, [], Some retry_read)].
Proof.
  destruct (BIO_pair_refines_pipes (P := LP64) (A := zeroing_malloc) ∅ 1 2 4 0
    [(SideA, PWrite [1; 2; 3; 4; 5]); (SideB, PRead 2); (SideA, PWrite [6; 7]); (SideB, PRead 9); (SideB, PRead 1)]) as (s1 & rs & s2 & ps & E1 & E2 & E3 & _).
  - lia.
  - lia.
  - lia.
  - reflexivity.
  - unfold size_ok, pair_cap, size_max; simpl; lia.
  - unfold size_ok, pair_cap, size_max; simpl; lia.
  - repeat (apply List.Forall_cons; [unfold pair_op_ok, INT_MAX, len; simpl; lia|]). apply List.Forall_nil.
  - exists s1, rs, s2, ps. split; [exact E1|]. split; [exact E2|]. split; [exact E3|].
    vm_compute in E3. injection E3 as <- _. reflexivity.
Defined.
