(* ===== verification/Err.v ===== *)
(** The error queue of a thread: crypto/err/err.cc.

    Strings live in a heap of blocks owned by the queue; [free] of an address that is
    not allocated is undefined behaviour, [None]. A result of [malloc] is a parameter
    of the operation, 0 when it fails. A file name is a number, 0 for NULL. *)
From stdpp Require Import gmap.
From S2P Require Import Prelude.
From S2P Require Import Mem.

Open Scope Z_scope.

Definition ERR_NUM_ERRORS : Z := 16.
Definition ERR_FLAG_STRING : Z := 1.
Definition ERR_FLAG_MALLOCED : Z := 2.
Definition ERR_LIB_SYS : Z := 2.

Definition ERR_PACK (lib reason : Z) : Z :=
  Z.lor (u32 (Z.shiftl (Z.land (u32 lib) 0xff) 24)) (Z.land (u32 reason) 0xfff).
Definition ERR_GET_LIB (packed_error : Z) : Z := Z.land (Z.shiftr packed_error 24) 0xff.
Definition ERR_GET_REASON (packed_error : Z) : Z := Z.land packed_error 0xfff.

Record err_error_st := mk_err {
  file : Z;
  data : option Z;
  packed : Z;
  line : Z;
  mark : bool;
}.
Definition zero_error : err_error_st := mk_err 0 None 0 0 false.
Definition with_data (e : err_error_st) (d : option Z) : err_error_st := mk_err (file e) d (packed e) (line e) (mark e).
Definition with_mark (e : err_error_st) (m : bool) : err_error_st := mk_err (file e) (data e) (packed e) (line e) m.

Record err_state_st := mk_err_state {
  errors : list err_error_st;
  top : Z;
  bottom : Z;
  to_free : option Z;
}.

Abbreviation heap := (gmap Z (list Z)).

Definition free (h : heap) (p : option Z) : option heap :=
  match p with
  | None => Some h
  | Some a => _ ← h !! a; Some (delete a h)
  end.

(** A copy of the string at [p] in a new block at [a]. *)
Definition strdup_libc_malloc (h : heap) (a p : Z) : option (option Z * heap) :=
  s ← h !! p;
  if a =? 0 then Some (None, h) else Some (Some a, <[a := ztake (OPENSSL_strnlen s + 1) s]> h).

Definition err_clear (h : heap) (error : err_error_st) : option (err_error_st * heap) :=
  h ← free h (data error); Some (zero_error, h).

Definition err_copy (h : heap) (a : Z) (dst src : err_error_st) : option (err_error_st * heap) :=
  '(dst, h) ← err_clear h dst;
  '(d, h) ← match data src with None => Some (None, h) | Some p => strdup_libc_malloc h a p end;
  Some (mk_err (file src) d (packed src) (line src) (mark dst), h).

(** [err_clear] of every entry of an array. *)
Fixpoint err_clear_all (h : heap) (l : list err_error_st) : option (list err_error_st * heap) :=
  match l with
  | [] => Some ([], h)
  | e :: l =>
    '(e, h) ← err_clear h e;
    '(l, h) ← err_clear_all h l;
    Some (e :: l, h)
  end.

(** The state of the calling thread, [None] while it has none: [mem] tells whether
    one can be allocated. *)
Record thread_st := mk_thread { blocks : heap; state : option err_state_st }.

Definition err_get_state (mem : bool) (t : thread_st) : option err_state_st :=
  match state t with
  | Some s => Some s
  | None => if mem then Some (mk_err_state (replicate 16 zero_error) 0 0 None) else None
  end.

Definition err_state_free (t : thread_st) : option thread_st :=
  match state t with
  | None => Some t
  | Some s =>
    '(_, h) ← err_clear_all (blocks t) (errors s);
    h ← free h (to_free s);
    Some (mk_thread h None)
  end.

(** What [get_error_values] stores for its caller. *)
Record values := mk_values { v_file : Z; v_line : Z; v_data : option Z; v_flags : Z }.
(** The file name NA of an error without one. *)
Definition NA : Z := 1.

(** [want_data] tells whether [data] is not NULL. *)
Definition get_error_values (mem : bool) (t : thread_st) (inc top_ want_data : bool) : option (Z * values * thread_st) :=
  match err_get_state mem t with
  | None => Some (0, mk_values 0 0 None 0, t)
  | Some s =>
    if bottom s =? top s then Some (0, mk_values 0 0 None 0, mk_thread (blocks t) (Some s))
    else
      let i := if top_ then top s else (bottom s + 1) mod ERR_NUM_ERRORS in
      error ← znth (errors s) i;
      let v := mk_values (if file error =? 0 then NA else file error) (if file error =? 0 then 0 else line error)
                 (data error) (match data error with None => 0 | Some _ => Z.lor ERR_FLAG_STRING ERR_FLAG_MALLOCED end) in
      '(error, tf, h) ← (if want_data && inc && bool_decide (is_Some (data error))
                         then h ← free (blocks t) (to_free s); Some (with_data error None, data error, h)
                         else Some (error, to_free s, blocks t));
      if inc then
        let ret := packed error in
        '(error, h) ← err_clear h error;
        Some (ret, v, mk_thread h (Some (mk_err_state (zupd (errors s) i error) (top s) i tf)))
      else Some (packed error, v, mk_thread h (Some (mk_err_state (errors s) (top s) (bottom s) tf)))
  end.

Definition ERR_get_error (mem : bool) (t : thread_st) := get_error_values mem t true false false.
Definition ERR_get_error_line (mem : bool) (t : thread_st) := get_error_values mem t true false false.
Definition ERR_get_error_line_data (mem : bool) (t : thread_st) := get_error_values mem t true false true.
Definition ERR_peek_error (mem : bool) (t : thread_st) := get_error_values mem t false false false.
Definition ERR_peek_error_line (mem : bool) (t : thread_st) := get_error_values mem t false false false.
Definition ERR_peek_error_line_data (mem : bool) (t : thread_st) := get_error_values mem t false false true.
Definition ERR_peek_last_error (mem : bool) (t : thread_st) := get_error_values mem t false true false.
Definition ERR_peek_last_error_line (mem : bool) (t : thread_st) := get_error_values mem t false true false.
Definition ERR_peek_last_error_line_data (mem : bool) (t : thread_st) := get_error_values mem t false true true.

Definition ERR_clear_error (mem : bool) (t : thread_st) : option thread_st :=
  match err_get_state mem t with
  | None => Some t
  | Some s =>
    '(l, h) ← err_clear_all (blocks t) (errors s);
    h ← free h (to_free s);
    Some (mk_thread h (Some (mk_err_state l 0 0 None)))
  end.

(** [d] is the address of a string the queue takes over. *)
Definition err_set_error_data (mem : bool) (t : thread_st) (d : Z) : option thread_st :=
  match err_get_state mem t with
  | None => h ← free (blocks t) (Some d); Some (mk_thread h (state t))
  | Some s =>
    if top s =? bottom s then h ← free (blocks t) (Some d); Some (mk_thread h (Some s))
    else
      error ← znth (errors s) (top s);
      h ← free (blocks t) (data error);
      Some (mk_thread h (Some (mk_err_state (zupd (errors s) (top s) (with_data error (Some d))) (top s) (bottom s) (to_free s))))
  end.

(** [errno] is its value at the call. *)
Definition ERR_put_error (mem : bool) (errno : Z) (t : thread_st) (library reason file_ line_ : Z) : option thread_st :=
  match err_get_state mem t with
  | None => Some t
  | Some s =>
    let reason := if (library =? ERR_LIB_SYS) && (reason =? 0) then errno else reason in
    let top_ := (top s + 1) mod ERR_NUM_ERRORS in
    let bottom_ := if top_ =? bottom s then (bottom s + 1) mod ERR_NUM_ERRORS else bottom s in
    error ← znth (errors s) top_;
    '(error, h) ← err_clear (blocks t) error;
    let error := mk_err file_ (data error) (ERR_PACK library reason) (u16 line_) (mark error) in
    Some (mk_thread h (Some (mk_err_state (zupd (errors s) top_ error) top_ bottom_ (to_free s))))
  end.

(** [total_size] after the first loop, [None] where it would overflow. *)
Fixpoint vdata_size `{Platform} (total_size : Z) (args : list (option (list Z))) : option Z :=
  match args with
  | [] => Some total_size
  | None :: args => vdata_size total_size args
  | Some substr :: args =>
    if size_max - total_size <? len substr then None else vdata_size (total_size + len substr) args
  end.

(** The second loop; a failed assertion is [None]. *)
Fixpoint vdata_concat (buf : list Z) (total_size : Z) (args : list (option (list Z))) : option (list Z) :=
  match args with
  | [] => Some buf
  | None :: args => vdata_concat buf total_size args
  | Some substr :: args =>
    let '(buf, r) := OPENSSL_strlcat buf substr total_size in
    if total_size <=? r then None else vdata_concat buf total_size args
  end.

(** [a] is the address and [fresh] the contents of the block [malloc] gives. *)
Definition err_add_error_vdata `{Platform} (mem : bool) (t : thread_st) (a : Z) (fresh : Z -> list Z) (args : list (option (list Z))) : option thread_st :=
  match vdata_size 0 args with
  | None => Some t
  | Some total_size =>
    if total_size =? size_max then Some t
    else
      let total_size := total_size + 1 in
      if a =? 0 then Some t
      else
        buf ← vdata_concat (zupd (fresh total_size) 0 0) total_size args;
        err_set_error_data mem (mk_thread (<[a := buf]> (blocks t)) (state t)) a
  end.
Definition ERR_add_error_data `{Platform} (mem : bool) (t : thread_st) (a : Z) (fresh : Z -> list Z) (args : list (option (list Z))) : option thread_st :=
  err_add_error_vdata mem t a fresh args.

(** [str] is the caller's string with its NUL. *)
Definition ERR_set_error_data (mem : bool) (t : thread_st) (a : Z) (str : list Z) (flags : Z) : option thread_st :=
  if Z.land flags ERR_FLAG_STRING =? 0 then Some t
  else if a =? 0 then Some t
  else err_set_error_data mem (mk_thread (<[a := ztake (OPENSSL_strnlen str + 1) str]> (blocks t)) (state t)) a.

Definition ERR_set_mark (mem : bool) (t : thread_st) : option (Z * thread_st) :=
  match err_get_state mem t with
  | None => Some (0, t)
  | Some s =>
    if bottom s =? top s then Some (0, mk_thread (blocks t) (Some s))
    else
      error ← znth (errors s) (top s);
      Some (1, mk_thread (blocks t) (Some (mk_err_state (zupd (errors s) (top s) (with_mark error true)) (top s) (bottom s) (to_free s))))
  end.

(** The loop moves [top] down to [bottom], so that 16 iterations are enough. *)
Fixpoint pop_to_mark_loop (fuel : nat) (h : heap) (s : err_state_st) : option (Z * heap * err_state_st) :=
  match fuel with
  | O => None
  | S fuel =>
    if negb (bottom s =? top s) then
      error ← znth (errors s) (top s);
      if mark error then
        Some (1, h, mk_err_state (zupd (errors s) (top s) (with_mark error false)) (top s) (bottom s) (to_free s))
      else
        '(error, h) ← err_clear h error;
        let top_ := if top s =? 0 then ERR_NUM_ERRORS - 1 else top s - 1 in
        pop_to_mark_loop fuel h (mk_err_state (zupd (errors s) (top s) error) top_ (bottom s) (to_free s))
    else Some (0, h, s)
  end.
Definition ERR_pop_to_mark (mem : bool) (t : thread_st) : option (Z * thread_st) :=
  match err_get_state mem t with
  | None => Some (0, t)
  | Some s => '(r, h, s) ← pop_to_mark_loop 16 (blocks t) s; Some (r, mk_thread h (Some s))
  end.

(** ** Saved states *)
Record err_save_state_st := mk_save { s_errors : list err_error_st; num_errors : Z }.

Definition ERR_SAVE_STATE_free (t : thread_st) (saved : option err_save_state_st) : option thread_st :=
  match saved with
  | None => Some t
  | Some sv => '(_, h) ← err_clear_all (blocks t) (s_errors sv); Some (mk_thread h (state t))
  end.

(** [err_copy] of each source over each destination; [addrs] are the results of the
    allocations, in order. *)
Fixpoint err_copy_all (h : heap) (addrs : list Z) (dst src : list err_error_st) : option (list err_error_st * heap) :=
  match dst, src with
  | d :: dst, s :: src =>
    '(d, h) ← err_copy h (hd 0 addrs) d s;
    '(dst, h) ← err_copy_all h (tl addrs) dst src;
    Some (d :: dst, h)
  | dst, _ => Some (dst, h)
  end.

(** [ok] tells whether the structure and its array can be allocated. *)
Definition ERR_save_state (mem ok : bool) (t : thread_st) (addrs : list Z) : option (option err_save_state_st * thread_st) :=
  match err_get_state mem t with
  | None => Some (None, t)
  | Some s =>
    let t := mk_thread (blocks t) (Some s) in
    if top s =? bottom s then Some (None, t)
    else if negb ok then Some (None, t)
    else
      let n := if bottom s <=? top s then top s - bottom s else ERR_NUM_ERRORS + top s - bottom s in
      src ← mapM (fun i => znth (errors s) ((bottom s + Z.of_nat i + 1) mod ERR_NUM_ERRORS)) (seq 0 (Z.to_nat n));
      '(l, h) ← err_copy_all (blocks t) addrs (replicate (Z.to_nat n) zero_error) src;
      Some (Some (mk_save l n), mk_thread h (Some s))
  end.

(** [abort] is [None]. *)
Definition ERR_restore_state (mem : bool) (t : thread_st) (addrs : list Z) (saved : option err_save_state_st) : option thread_st :=
  match saved with
  | None => ERR_clear_error mem t
  | Some sv =>
    if num_errors sv =? 0 then ERR_clear_error mem t
    else if ERR_NUM_ERRORS <=? num_errors sv then None
    else
      match err_get_state mem t with
      | None => Some t
      | Some s =>
        '(l, h) ← err_copy_all (blocks t) addrs (errors s) (s_errors sv);
        Some (mk_thread h (Some (mk_err_state l (num_errors sv - 1) (ERR_NUM_ERRORS - 1) (to_free s))))
      end
  end.

(** ** Error strings *)

(** Eight hexadecimal digits, as [%08x] prints them. *)
Definition hex_digit (d : Z) : Z := if d <? 10 then 48 + d else 87 + d.
Definition hex8 (v : Z) : list Z := map (fun k => hex_digit (v / 16 ^ (7 - Z.of_nat k) mod 16)) (seq 0 8).
Definition colon : Z := 0x3a.
Definition error_format (packed_error : Z) (lib_str reason_str : list Z) : list Z :=
  [0x65; 0x72; 0x72; 0x6f; 0x72; colon] ++ hex8 packed_error ++ [colon] ++ lib_str ++ [colon] ++
  [0x4f; 0x50; 0x45; 0x4e; 0x53; 0x53; 0x4c; 0x5f; 0x69; 0x6e; 0x74; 0x65; 0x72; 0x6e; 0x61; 0x6c; colon] ++ reason_str.

Definition num_colons : Z := 4.

(** The position of the first colon at or after [s], before the NUL. *)
Fixpoint strchr_colon (pos : Z) (l : list Z) : option Z :=
  match l with
  | [] => None
  | c :: l => if c =? colon then Some pos else if c =? 0 then None else strchr_colon (pos + 1) l
  end.

(** The loop over the colons, from [i] on. *)
Fixpoint fix_colons (fuel : nat) (buf : list Z) (n i s : Z) : list Z :=
  match fuel with
  | O => buf
  | S fuel =>
    let last_pos := n - 1 - num_colons + i in
    match strchr_colon s (zdrop s buf) with
    | Some c =>
      if last_pos <? c then ztake last_pos buf ++ repeat colon (Z.to_nat (num_colons - i)) ++ zdrop (last_pos + (num_colons - i)) buf
      else fix_colons fuel buf n (i + 1) (c + 1)
    | None => ztake last_pos buf ++ repeat colon (Z.to_nat (num_colons - i)) ++ zdrop (last_pos + (num_colons - i)) buf
    end
  end.

(** The buffer of [n] bytes after the call; the two strings are those of
    [err_lib_error_string] and [err_reason_error_string], or the numbers. *)
Definition ERR_error_string_n (packed_error : Z) (lib_str reason_str buf : list Z) (n : Z) : list Z :=
  if n =? 0 then buf
  else
    let full := error_format packed_error lib_str reason_str in
    if n <=? len full then
      let buf := ztake (n - 1) full ++ [0] in
      if n <=? num_colons then buf else fix_colons 4 buf n 0 0
    else full ++ [0] ++ zdrop (len full + 1) buf.
