(* ===== verification/ErrProofs.v ===== *)
(** The error queue is a bounded queue of errors, and owns its strings. *)
From stdpp Require Import gmap.
From S2P Require Import Prelude.
From S2P Require Import Mem.
From S2P Require Import Err.

Open Scope Z_scope.

(** ** Ownership of blocks *)

(** The live blocks are those of the list, each once. *)
Definition owns (h : heap) (L : list Z) : Prop := NoDup L /\ forall a, is_Some (h !! a) <-> a ∈ L.

Lemma owns_perm h L L' : L ≡ₚ L' -> owns h L -> owns h L'.
Proof. intros HP [H1 H2]. split; [by rewrite <- HP|]. intros a. by rewrite H2, HP. Qed.

Lemma owns_free h a L : owns h (a :: L) -> free h (Some a) = Some (delete a h) /\ owns (delete a h) L.
Proof.
  intros [H1 H2]. inversion H1 as [|? ? Ha HL]; subst. split.
  - simpl. destruct (proj2 (H2 a)) as [s ->]; [constructor|done].
  - split; [done|]. intros b. destruct (decide (a = b)) as [<-|Hne].
    + rewrite lookup_delete_eq. split; [by intros [? ?]|done].
    + rewrite lookup_delete_ne, H2 by done. rewrite elem_of_cons. intuition congruence.
Qed.

Lemma owns_alloc h a s L : owns h L -> h !! a = None -> owns (<[a := s]> h) (a :: L).
Proof.
  intros [H1 H2] Ha. split; [constructor; [|done]; rewrite <- H2, Ha; by intros [? ?]|].
  intros b. rewrite elem_of_cons. destruct (decide (a = b)) as [<-|Hne].
  - rewrite lookup_insert_eq. split; [by left|by eexists].
  - rewrite lookup_insert_ne, H2 by done. intuition congruence.
Qed.

(** The blocks of an optional pointer and of an array of errors. *)
Definition opt (p : option Z) : list Z := match p with Some a => [a] | None => [] end.
Definition ptrs (l : list err_error_st) : list Z := concat (map (fun e => opt (data e)) l).

Lemma owns_free_opt h p L : owns h (opt p ++ L) -> exists h', free h p = Some h' /\ owns h' L /\ (forall b, b ∈ L -> h' !! b = h !! b).
Proof.
  destruct p as [a|]; simpl; [|by exists h]. intros H. destruct (owns_free h a L H) as [E H']. exists (delete a h). split; [done|]. split; [done|].
  intros b Hb. apply lookup_delete_ne. intros <-. destruct H as [H _]. inversion H; subst. contradiction.
Qed.

(** ** The abstract queue *)
Record entry := mk_entry { a_file : Z; a_data : option (list Z); a_packed : Z; a_line : Z; a_mark : bool }.

Definition cstr (block : list Z) : list Z := ztake (OPENSSL_strnlen block) block.
Definition abs (h : heap) (e : err_error_st) : entry :=
  mk_entry (file e) ((fun p => cstr (default [] (h !! p))) <$> data e) (packed e) (line e) (mark e).

Lemma abs_same h h' e : (forall a, data e = Some a -> h' !! a = h !! a) -> abs h' e = abs h e.
Proof. intros H. unfold abs. f_equal. destruct (data e) as [a|] eqn:E; [|done]. simpl. by rewrite H. Qed.

(** ** The ring of slots *)
Definition slot (l : list err_error_st) (k : Z) : err_error_st := default zero_error (l !! Z.to_nat k).
Definition entries (l : list err_error_st) (b : Z) (n : nat) : list err_error_st :=
  map (fun i => slot l ((b + 1 + Z.of_nat i) mod 16)) (seq 0 n).

Lemma znth_slot l k : 0 <= k < len l -> znth l k = Some (slot l k).
Proof.
  intros Hk. unfold znth, slot. destruct (Z.ltb_spec k 0); [lia|]. unfold len in Hk.
  by destruct (lookup_lt_is_Some_2 l (Z.to_nat k) ltac:(lia)) as [e ->].
Qed.

Lemma slot_upd l k e j : 0 <= k < len l -> 0 <= j -> slot (zupd l k e) j = if j =? k then e else slot l j.
Proof.
  intros Hk Hj. unfold slot, zupd, len in *. destruct (Z.ltb_spec k 0); [lia|]. destruct (Z.eqb_spec j k) as [->|].
  - by rewrite list_lookup_insert_eq by lia.
  - by rewrite list_lookup_insert_ne by lia.
Qed.

Lemma length_entries l b n : length (entries l b n) = n.
Proof. unfold entries. by rewrite length_map, length_seq. Qed.

Lemma entries_snoc l b n : entries l b (S n) = entries l b n ++ [slot l ((b + 1 + Z.of_nat n) mod 16)].
Proof. unfold entries. rewrite seq_S, map_app. done. Qed.

Lemma entries_cons l b n : entries l b (S n) = slot l ((b + 1) mod 16) :: entries l ((b + 1) mod 16) n.
Proof.
  unfold entries. cbn [seq map]. f_equal; [f_equal; f_equal; lia|]. rewrite <- seq_shift, map_map. apply map_ext. intros i.
  f_equal. rewrite <- (Z.add_assoc (_ mod 16)), Zplus_mod_idemp_l. f_equal. lia.
Qed.

Lemma entries_upd l b n k e :
  0 <= k < len l -> (forall i, (i < n)%nat -> (b + 1 + Z.of_nat i) mod 16 <> k) -> entries (zupd l k e) b n = entries l b n.
Proof.
  intros Hk H. unfold entries. apply map_ext_in. intros i Hi%in_seq. pose proof (Z.mod_pos_bound (b + 1 + Z.of_nat i) 16 ltac:(lia)).
  rewrite slot_upd by lia. rewrite (proj2 (Z.eqb_neq _ k)); [done|]. apply H. lia.
Qed.

Lemma slot_in l k : 0 <= k < len l -> In (slot l k) l.
Proof.
  intros Hk. pose proof (znth_slot l k Hk) as H. unfold znth in H. destruct (k <? 0); [done|].
  apply list_elem_of_lookup_2 in H. by apply list_elem_of_In.
Qed.

Lemma in_ptrs l e a : In e l -> data e = Some a -> a ∈ ptrs l.
Proof.
  intros H E. unfold ptrs. apply list_elem_of_In, in_concat. exists (opt (data e)). split; [by apply (in_map (fun e => opt (data e)))|]. rewrite E. by left.
Qed.

(** Replacing a slot exchanges its block. *)
Lemma ptrs_upd l k e : 0 <= k < len l -> opt (data (slot l k)) ++ ptrs (zupd l k e) ≡ₚ opt (data e) ++ ptrs l.
Proof.
  intros Hk. unfold slot, zupd, len in *. destruct (Z.ltb_spec k 0); [lia|].
  destruct (lookup_lt_is_Some_2 l (Z.to_nat k) ltac:(lia)) as [x Hx]. rewrite Hx. simpl.
  rewrite (insert_take_drop l (Z.to_nat k) e) by (apply lookup_lt_is_Some_1; by eexists).
  assert (l = take (Z.to_nat k) l ++ x :: drop (S (Z.to_nat k)) l) as E by (symmetry; by apply take_drop_middle).
  revert E. generalize (take (Z.to_nat k) l), (drop (S (Z.to_nat k)) l). intros X Y E. rewrite E. clear E.
  unfold ptrs. rewrite !map_app, !concat_app. cbn [map concat].
  rewrite Permutation_app_swap_app, (Permutation_app_swap_app (opt (data e))). apply Permutation_app_head, Permutation_app_swap_app.
Qed.

(** Storing [e] in a slot frees the block the slot had. *)
Lemma replace_slot h l k e R :
  0 <= k < len l -> owns h (opt (data e) ++ ptrs l ++ R) ->
  exists h', free h (data (slot l k)) = Some h' /\ owns h' (ptrs (zupd l k e) ++ R) /\
    (forall b, b ∈ ptrs (zupd l k e) ++ R -> h' !! b = h !! b).
Proof.
  intros Hk Ho. apply owns_free_opt. eapply owns_perm; [|exact Ho]. by rewrite !app_assoc, <- ptrs_upd.
Qed.

Lemma map_abs_same h h' l b n :
  len l = 16 -> (forall a, a ∈ ptrs l -> h' !! a = h !! a) -> map (abs h') (entries l b n) = map (abs h) (entries l b n).
Proof.
  intros Hl H. unfold entries. rewrite !map_map. apply map_ext. intros i. apply abs_same. intros a E. apply H.
  eapply in_ptrs; [|exact E]. apply slot_in. pose proof (Z.mod_pos_bound (b + 1 + Z.of_nat i) 16). lia.
Qed.

(** The state of a thread represents the queue [Q]; [F] are the blocks of others. *)
Definition st_ok (h : heap) (s : err_state_st) (F : list Z) (Q : list entry) : Prop :=
  len (errors s) = 16 /\ 0 <= bottom s < 16 /\ owns h (ptrs (errors s) ++ opt (to_free s) ++ F) /\
  exists n, (n <= 15)%nat /\ top s = (bottom s + Z.of_nat n) mod 16 /\ Q = map (abs h) (entries (errors s) (bottom s) n).

Definition thread_ok (t : thread_st) (F : list Z) (Q : list entry) : Prop :=
  match state t with
  | Some s => st_ok (blocks t) s F Q
  | None => owns (blocks t) F /\ Q = []
  end.

Lemma get_state_ok t F Q : thread_ok t F Q -> exists s, err_get_state true t = Some s /\ st_ok (blocks t) s F Q.
Proof.
  unfold thread_ok, err_get_state. destruct (state t) as [s|]; [eauto|]. intros [Ho ->]. eexists. split; [done|].
  split; [done|]. split; [done|]. split; [done|]. exists 0%nat. split; [lia|]. done.
Qed.

Lemma empty_iff h s F Q : st_ok h s F Q -> (bottom s =? top s) = match Q with [] => true | _ => false end.
Proof.
  intros (Hl & Hb & _ & n & Hn & -> & ->). destruct n as [|n]; [cbn; rewrite Z.add_0_r, Z.mod_small, Z.eqb_refl by lia; done|].
  cbn. apply Z.eqb_neq. Z.div_mod_to_equations. lia.
Qed.

(** Adding an error, the oldest giving way when there are 15. *)
Definition q_put (Q : list entry) (e : entry) : list entry := if (length Q <? 15)%nat then Q ++ [e] else tl Q ++ [e].

Lemma slots_put l b n k e :
  len l = 16 -> 0 <= b < 16 -> (n <= 15)%nat -> k = (b + Z.of_nat n + 1) mod 16 ->
  let b' := if k =? b then (b + 1) mod 16 else b in
  exists m, (m <= 15)%nat /\ k = (b' + Z.of_nat m) mod 16 /\
    entries (zupd l k e) b' m = (if (n <? 15)%nat then entries l b n else tl (entries l b n)) ++ [e].
Proof.
  intros Hl Hb Hn Hk b'. assert (0 <= k < 16) as Hkr by (subst k; apply Z.mod_pos_bound; lia).
  destruct (Nat.ltb_spec n 15) as [Hlt|Hge].
  - assert (b' = b) as -> by (subst b'; destruct (Z.eqb_spec k b); [exfalso; subst k; Z.div_mod_to_equations; lia|done]).
    exists (S n). split; [lia|]. split; [rewrite Hk; f_equal; lia|]. rewrite entries_snoc, entries_upd.
    + f_equal. rewrite slot_upd by (first [lia|apply Z.mod_pos_bound; lia]).
      rewrite (proj2 (Z.eqb_eq _ k)); [done|]. rewrite Hk. f_equal. lia.
    + lia.
    + intros i Hi. rewrite Hk. Z.div_mod_to_equations. lia.
  - assert (n = 15)%nat as -> by lia. assert (k = b) as Hkb by (subst k; Z.div_mod_to_equations; lia).
    assert (b' = (b + 1) mod 16) as -> by (subst b'; by rewrite (proj2 (Z.eqb_eq k b))).
    exists 15%nat. split; [lia|]. assert (((b + 1) mod 16 + 15) mod 16 = b) as Hw by (rewrite Zplus_mod_idemp_l; Z.div_mod_to_equations; lia).
    split; [rewrite Hkb; symmetry; exact Hw|]. rewrite (entries_snoc _ _ 14), (entries_cons l b 14). cbn [tl]. rewrite entries_upd.
    + f_equal. rewrite slot_upd by (first [lia|apply Z.mod_pos_bound; lia]). rewrite (proj2 (Z.eqb_eq _ k)); [done|].
      rewrite Hkb. etransitivity; [|exact Hw]. f_equal. lia.
    + lia.
    + intros i Hi. rewrite Hkb. Z.div_mod_to_equations. lia.
Qed.

Lemma ERR_put_error_ok t F Q errno lib reason f ln :
  thread_ok t F Q -> exists t', ERR_put_error true errno t lib reason f ln = Some t' /\
    thread_ok t' F (q_put Q (mk_entry f None (ERR_PACK lib (if (lib =? ERR_LIB_SYS) && (reason =? 0) then errno else reason)) (u16 ln) false)).
Proof.
  intros Hok. destruct (get_state_ok _ _ _ Hok) as (s & E & Hs). unfold ERR_put_error. rewrite E. unfold ERR_NUM_ERRORS.
  set (r := if (lib =? ERR_LIB_SYS) && (reason =? 0) then errno else reason). destruct Hs as (Hl & Hb & Ho & n & Hn & Ht & HQ).
  set (k := (top s + 1) mod 16). assert (0 <= k < 16) as Hk by (apply Z.mod_pos_bound; lia).
  assert (k = (bottom s + Z.of_nat n + 1) mod 16) as Hk' by (subst k; rewrite Ht, Zplus_mod_idemp_l; f_equal; lia).
  rewrite znth_slot by lia. cbn [mbind option_bind]. set (e := mk_err f None (ERR_PACK lib r) (u16 ln) false).
  destruct (replace_slot (blocks t) (errors s) k e (opt (to_free s) ++ F)) as (h' & Ef & Ho' & Hsame); [lia|exact Ho|].
  unfold err_clear. rewrite Ef. cbn [mbind option_bind data mark zero_error]. fold e. eexists. split; [done|].
  destruct (slots_put (errors s) (bottom s) n k e Hl Hb Hn Hk') as (m & Hm & Hkm & Hent).
  unfold thread_ok. cbn [state blocks]. split; [cbn; by rewrite len_zupd|]. split; [cbn; destruct (k =? bottom s); [apply Z.mod_pos_bound; lia|lia]|].
  split; [exact Ho'|]. cbn [errors bottom top]. exists m. split; [done|]. split; [done|].
  rewrite (map_abs_same (blocks t) h'); [|by rewrite len_zupd|intros a Ha; apply Hsame; apply elem_of_app; by left].
  rewrite Hent, map_app, HQ. unfold q_put. rewrite length_map, length_entries.
  destruct (n <? 15)%nat; [done|]. destruct n; [done|]. by rewrite entries_cons.
Qed.

(** ** Reading *)

(** The head and the last error of a queue that is not empty. *)
Lemma first_slot h s F e Q : st_ok h s F (e :: Q) ->
  let i := (bottom s + 1) mod 16 in
  0 <= i < 16 /\ e = abs h (slot (errors s) i) /\
  exists n, (n <= 14)%nat /\ top s = (i + Z.of_nat n) mod 16 /\ Q = map (abs h) (entries (errors s) i n) /\
    forall j, (j < n)%nat -> (i + 1 + Z.of_nat j) mod 16 <> i.
Proof.
  intros (Hl & Hb & Ho & n & Hn & Ht & HQ) i. split; [apply Z.mod_pos_bound; lia|]. destruct n as [|n]; [done|].
  rewrite entries_cons in HQ. injection HQ as -> ->. split; [done|]. exists n. split; [lia|].
  split; [rewrite Ht; subst i; rewrite Zplus_mod_idemp_l; f_equal; lia|]. split; [done|].
  intros j Hj. subst i. Z.div_mod_to_equations. lia.
Qed.

Lemma last_slot h s F Q : st_ok h s F Q -> Q <> [] -> 0 <= top s < 16 /\ list.last Q = Some (abs h (slot (errors s) (top s))).
Proof.
  intros (Hl & Hb & Ho & n & Hn & Ht & HQ) Hne. split; [rewrite Ht; apply Z.mod_pos_bound; lia|].
  destruct n as [|n]; [by subst|]. rewrite HQ, entries_snoc, map_app. cbn [map]. rewrite last_snoc. do 3 f_equal. rewrite Ht. f_equal. lia.
Qed.

(** What the caller learns of an error: the file name, the line, the string the data
    pointer points to and the flags. *)
Definition values_of (h : heap) (v : values) : Z * Z * option (list Z) * Z :=
  (v_file v, v_line v, (fun p => cstr (default [] (h !! p))) <$> v_data v, v_flags v).
Definition entry_values (e : entry) : Z * Z * option (list Z) * Z :=
  (if a_file e =? 0 then NA else a_file e, if a_file e =? 0 then 0 else a_line e, a_data e,
   match a_data e with None => 0 | Some _ => 3 end).

Lemma entry_values_abs h e :
  values_of h (mk_values (if file e =? 0 then NA else file e) (if file e =? 0 then 0 else line e) (data e)
    (match data e with None => 0 | Some _ => Z.lor ERR_FLAG_STRING ERR_FLAG_MALLOCED end)) = entry_values (abs h e).
Proof. unfold values_of, entry_values, abs. cbn. by destruct (data e). Qed.

(** Nothing is reported of an empty queue. *)
Definition no_values : values := mk_values 0 0 None 0.

(** Popping the oldest error. When the caller asked for the data, it stays valid. *)
Lemma get_error_ok t F Q want :
  thread_ok t F Q -> exists v t',
    get_error_values true t true false want = Some (match Q with [] => 0 | e :: _ => a_packed e end, v, t') /\ thread_ok t' F (tl Q) /\
    match Q with
    | [] => v = no_values
    | e :: _ => values_of (blocks t) v = entry_values e /\ (want = true -> values_of (blocks t') v = entry_values e)
    end.
Proof.
  intros Hok. destruct (get_state_ok _ _ _ Hok) as (s & E & Hs). unfold get_error_values. rewrite E, (empty_iff _ _ _ _ Hs).
  destruct Q as [|e Q]; [by exists no_values, (mk_thread (blocks t) (Some s))|].
  destruct (first_slot _ _ _ _ _ Hs) as (Hi & He & n & Hn & Ht & HQ & Hout). pose proof Hs as (Hl & Hb & Ho & _).
  unfold ERR_NUM_ERRORS. set (i := (bottom s + 1) mod 16) in *. cbn match.
  rewrite znth_slot by lia. cbn [mbind option_bind]. set (x := slot (errors s) i) in *.
  assert (forall h' tf, owns h' (ptrs (zupd (errors s) i zero_error) ++ opt tf ++ F) ->
    (forall b, b ∈ ptrs (zupd (errors s) i zero_error) -> h' !! b = blocks t !! b) ->
    thread_ok (mk_thread h' (Some (mk_err_state (zupd (errors s) i zero_error) (top s) i tf))) F (tl (e :: Q))) as Hdone.
  { intros h' tf Ho' Hsame. unfold thread_ok. cbn [state blocks tl]. split; [cbn; by rewrite len_zupd|]. split; [done|]. split; [done|].
    exists n. split; [lia|]. split; [done|]. cbn [errors bottom]. rewrite (map_abs_same (blocks t)) by (done || by rewrite len_zupd).
    rewrite entries_upd by (done || lia). done. }
  set (v := mk_values _ _ _ _). assert (values_of (blocks t) v = entry_values e) as Hv by (subst v; rewrite He; apply entry_values_abs).
  destruct (want && true && bool_decide (is_Some (data x))) eqn:Hw.
  - apply andb_true_iff in Hw as [Hw Hd]. apply bool_decide_eq_true in Hd as [p Hp].
    assert (owns (blocks t) (opt (to_free s) ++ p :: ptrs (zupd (errors s) i zero_error) ++ F)) as Ho2.
    { eapply owns_perm; [|exact Ho]. pose proof (ptrs_upd (errors s) i zero_error ltac:(lia)) as HP. fold x in HP. rewrite Hp in HP. cbn [opt app data zero_error] in HP.
      rewrite <- HP. rewrite (Permutation_app_swap_app (p :: _)). done. }
    destruct (owns_free_opt _ _ _ Ho2) as (h' & Ef & Ho' & Hsame). rewrite Ef. cbn [mbind option_bind err_clear with_data data free]. rewrite Hp.
    eexists v, _. split; [by rewrite He|]. split.
    + apply Hdone; [eapply owns_perm; [|exact Ho']; cbn [opt app]; apply Permutation_middle|].
      intros b Hin. apply Hsame. apply elem_of_cons. right. apply elem_of_app. by left.
    + split; [done|]. intros _. rewrite <- Hv. unfold values_of. cbn [blocks v_data v_file v_line v_flags]. subst v. cbn [v_data]. rewrite Hp. cbn.
      rewrite Hsame by (by left). done.
  - cbn [mbind option_bind]. unfold err_clear.
    destruct (replace_slot (blocks t) (errors s) i zero_error (opt (to_free s) ++ F)) as (h' & Ef & Ho' & Hsame); [lia|exact Ho|]. fold x in Ef.
    rewrite Ef. cbn [mbind option_bind]. eexists v, _. split; [by rewrite He|]. split.
    + apply Hdone; [done|]. intros b Hin. apply Hsame, elem_of_app. by left.
    + split; [done|]. intros ->. rewrite <- Hv. unfold values_of. cbn [blocks v_data]. subst v. cbn [v_data].
      destruct (data x) as [p|] eqn:Hp; [|done]. cbn in Hw. done.
Qed.

Lemma peek_error_ok t F Q last_ want :
  thread_ok t F Q -> exists v t',
    get_error_values true t false last_ want =
      Some (match (if last_ then list.last Q else head Q) with None => 0 | Some e => a_packed e end, v, t') /\
    thread_ok t' F Q /\ blocks t' = blocks t /\
    match (if last_ then list.last Q else head Q) with None => v = no_values | Some e => values_of (blocks t) v = entry_values e end.
Proof.
  intros Hok. destruct (get_state_ok _ _ _ Hok) as (s & E & Hs). unfold get_error_values. rewrite E, (empty_iff _ _ _ _ Hs).
  destruct Q as [|e Q]; [by exists no_values, (mk_thread (blocks t) (Some s)); destruct last_|].
  assert (exists i x, i = (if last_ then top s else (bottom s + 1) mod 16) /\ 0 <= i < 16 /\ x = slot (errors s) i /\
    (if last_ then list.last (e :: Q) else head (e :: Q)) = Some (abs (blocks t) x)) as (i & x & Hi & Hir & Hx & He).
  { destruct last_; eexists _, _; split; [done| |done|].
    - destruct (last_slot _ _ _ _ Hs) as [H1 H2]; [done|]. done.
    - destruct (first_slot _ _ _ _ _ Hs) as (H1 & H2 & _). cbn [head]. rewrite <- H2. done. }
  unfold ERR_NUM_ERRORS. rewrite <- Hi, He. pose proof Hs as (Hl & _). rewrite znth_slot by lia. rewrite <- Hx. cbn [mbind option_bind].
  rewrite andb_false_r. cbn [andb mbind option_bind]. eexists _, _. split; [done|]. split; [by destruct s|]. split; [done|]. apply entry_values_abs.
Qed.

(** ** Clearing *)
Lemma err_clear_all_ok h l R :
  owns h (ptrs l ++ R) -> exists h', err_clear_all h l = Some (replicate (length l) zero_error, h') /\ owns h' R /\ (forall b, b ∈ R -> h' !! b = h !! b).
Proof.
  revert h. induction l as [|e l IH]; intros h Ho; [by exists h|]. cbn [err_clear_all length replicate]. unfold ptrs in Ho. cbn [map concat] in Ho. rewrite <- app_assoc in Ho.
  destruct (owns_free_opt _ _ _ Ho) as (h1 & E1 & Ho1 & Hs1). unfold err_clear. rewrite E1. cbn [mbind option_bind].
  destruct (IH h1 Ho1) as (h2 & E2 & Ho2 & Hs2). rewrite E2. cbn [mbind option_bind]. exists h2. split; [done|]. split; [done|].
  intros b Hb. rewrite Hs2, Hs1; [done|apply elem_of_app; by right|done].
Qed.

Lemma ptrs_zero n : ptrs (replicate n zero_error) = [].
Proof. induction n as [|n IH]; [done|]. exact IH. Qed.

Lemma zero_state_ok h F : owns h F -> st_ok h (mk_err_state (replicate 16 zero_error) 0 0 None) F [].
Proof. intros Ho. split; [done|]. split; [done|]. split; [done|]. exists 0%nat. split; [lia|done]. Qed.

Lemma ERR_clear_error_ok t F Q : thread_ok t F Q -> exists t', ERR_clear_error true t = Some t' /\ thread_ok t' F [].
Proof.
  intros Hok. destruct (get_state_ok _ _ _ Hok) as (s & E & Hs). unfold ERR_clear_error. rewrite E. destruct Hs as (Hl & _ & Ho & _).
  destruct (err_clear_all_ok _ _ _ Ho) as (h1 & -> & Ho1 & _). cbn [mbind option_bind].
  destruct (owns_free_opt _ _ _ Ho1) as (h2 & -> & Ho2 & _). cbn [mbind option_bind]. eexists. split; [done|].
  assert (length (errors s) = 16)%nat as -> by (unfold len in Hl; lia). by apply zero_state_ok.
Qed.

(** When the thread ends nothing of the queue stays allocated. *)
Lemma err_state_free_ok t F Q : thread_ok t F Q -> exists t', err_state_free t = Some t' /\ owns (blocks t') F.
Proof.
  unfold thread_ok, err_state_free. destruct (state t) as [s|]; [|intros [Ho _]; eauto]. intros (Hl & _ & Ho & _).
  destruct (err_clear_all_ok _ _ _ Ho) as (h1 & -> & Ho1 & _). cbn [mbind option_bind].
  destruct (owns_free_opt _ _ _ Ho1) as (h2 & -> & Ho2 & _). cbn [mbind option_bind]. eauto.
Qed.

(** ** Changing the last error *)

Definition map_last (f : entry -> entry) (Q : list entry) : list entry :=
  match list.last Q with None => Q | Some e => removelast Q ++ [f e] end.

(** Replacing the entry at [top]. *)
Lemma upd_top h s F0 F Q e h' :
  st_ok h s F0 Q -> Q <> [] -> owns h' (ptrs (zupd (errors s) (top s) e) ++ opt (to_free s) ++ F) ->
  (forall b, b ∈ ptrs (zupd (errors s) (top s) e) -> b ∈ ptrs (errors s) -> h' !! b = h !! b) ->
  (forall i, 0 <= i < 16 -> i <> top s -> forall a, data (slot (errors s) i) = Some a -> a ∈ ptrs (zupd (errors s) (top s) e)) ->
  st_ok h' (mk_err_state (zupd (errors s) (top s) e) (top s) (bottom s) (to_free s)) F (removelast Q ++ [abs h' e]).
Proof.
  intros Hs Hne Ho' Hsame Hin. destruct (last_slot _ _ _ _ Hs Hne) as [Htr _]. destruct Hs as (Hl & Hb & Ho & n & Hn & Ht & HQ).
  split; [cbn; by rewrite len_zupd|]. split; [done|]. split; [done|]. exists n. split; [done|]. split; [done|]. cbn [errors bottom].
  destruct n as [|n]; [by subst|]. rewrite HQ, !entries_snoc, !map_app. cbn [map]. rewrite removelast_last.
  assert ((bottom s + 1 + Z.of_nat n) mod 16 = top s) as Hp by (rewrite Ht; f_equal; lia).
  rewrite Hp, slot_upd, Z.eqb_refl by lia. f_equal.
  assert (forall i, (i < n)%nat -> (bottom s + 1 + Z.of_nat i) mod 16 <> top s) as Hdiff by (intros i Hi; rewrite Ht; Z.div_mod_to_equations; lia).
  rewrite entries_upd by (done || lia). unfold entries. rewrite !map_map. apply map_ext_in. intros i Hi%in_seq.
  pose proof (Z.mod_pos_bound (bottom s + 1 + Z.of_nat i) 16 ltac:(lia)) as Hr. symmetry. apply abs_same. intros a Ha. apply Hsame.
  - eapply Hin; [exact Hr| |exact Ha]. apply Hdiff. lia.
  - eapply in_ptrs; [|exact Ha]. apply slot_in. lia.
Qed.

Lemma other_slot_ptrs l k e i a : len l = 16 -> 0 <= k < 16 -> 0 <= i < 16 -> i <> k -> data (slot l i) = Some a -> a ∈ ptrs (zupd l k e).
Proof.
  intros Hl Hk Hi Hne Ha. apply (in_ptrs _ (slot (zupd l k e) i)).
  - apply slot_in. rewrite len_zupd. lia.
  - rewrite slot_upd by lia. by rewrite (proj2 (Z.eqb_neq i k)).
Qed.

Lemma nonempty_match {B} (Q : list B) : Q <> [] -> (match Q with [] => true | _ => false end) = false.
Proof. by destruct Q. Qed.

Lemma ERR_set_mark_ok t F Q :
  thread_ok t F Q -> exists t', ERR_set_mark true t = Some (match Q with [] => 0 | _ => 1 end, t') /\
    thread_ok t' F (map_last (fun e => mk_entry (a_file e) (a_data e) (a_packed e) (a_line e) true) Q).
Proof.
  intros Hok. destruct (get_state_ok _ _ _ Hok) as (s & E & Hs). unfold ERR_set_mark. rewrite E, (empty_iff _ _ _ _ Hs).
  destruct (decide (Q = [])) as [->|Hne]; [eexists; split; [done|]; exact Hs|]. rewrite nonempty_match by done.
  destruct (last_slot _ _ _ _ Hs Hne) as [Htr Hlast]. pose proof Hs as (Hl & _ & Ho & _).
  rewrite znth_slot by lia. cbn [mbind option_bind]. eexists. split; [by destruct Q|]. unfold map_last. rewrite Hlast.
  unfold thread_ok. cbn [state blocks].
  change (mk_entry _ _ _ _ true) with (abs (blocks t) (with_mark (slot (errors s) (top s)) true)).
  apply (upd_top (blocks t) s F); [done|done| |done|intros; by eapply other_slot_ptrs].
  eapply owns_perm; [|exact Ho]. apply Permutation_app_tail. apply (Permutation_app_inv_l (opt (data (slot (errors s) (top s))))).
  symmetry. apply (ptrs_upd (errors s) (top s) (with_mark (slot (errors s) (top s)) true)). lia.
Qed.

Definition unmark (e : entry) : entry := mk_entry (a_file e) (a_data e) (a_packed e) (a_line e) false.
(** Dropping errors from the end, up to one with a mark. *)
Fixpoint pop_rev (R : list entry) : Z * list entry :=
  match R with
  | [] => (0, [])
  | e :: R => if a_mark e then (1, unmark e :: R) else pop_rev R
  end.
Definition q_pop_to_mark (Q : list entry) : Z * list entry := let '(r, R) := pop_rev (rev Q) in (r, rev R).

Lemma removelast_last_eq {B} (Q : list B) e : list.last Q = Some e -> Q = removelast Q ++ [e].
Proof. intros H. apply last_Some in H as [Q' ->]. by rewrite removelast_last. Qed.

Lemma st_ok_length h s F Q : st_ok h s F Q -> (length Q <= 15)%nat.
Proof. intros (_ & _ & _ & n & Hn & _ & ->). by rewrite length_map, length_entries. Qed.

Lemma pop_to_mark_loop_ok fuel h s F Q :
  st_ok h s F Q -> (length Q < fuel)%nat -> exists h' s',
    pop_to_mark_loop fuel h s = Some (fst (q_pop_to_mark Q), h', s') /\ st_ok h' s' F (snd (q_pop_to_mark Q)).
Proof.
  revert h s Q. induction fuel as [|fuel IH]; intros h s Q Hs Hf; [lia|]. cbn [pop_to_mark_loop]. rewrite (empty_iff _ _ _ _ Hs).
  destruct (decide (Q = [])) as [->|Hne]; [cbn; eauto|]. rewrite nonempty_match by done. cbn [negb].
  destruct (last_slot _ _ _ _ Hs Hne) as [Htr Hlast]. pose proof Hs as (Hl & Hb & Ho & n & Hn & Ht & HQ).
  rewrite znth_slot by lia. cbn [mbind option_bind]. set (x := slot (errors s) (top s)) in *.
  assert (q_pop_to_mark Q = if mark x then (1, removelast Q ++ [unmark (abs h x)]) else q_pop_to_mark (removelast Q)) as ->.
  { unfold q_pop_to_mark. rewrite (removelast_last_eq Q (abs h x)) at 1 by done. rewrite rev_app_distr. cbn [rev app pop_rev a_mark abs].
    destruct (mark x); [|done]. cbn [rev]. by rewrite rev_involutive. }
  destruct (mark x).
  - eexists _, _. split; [done|]. cbn [snd]. change (unmark (abs h x)) with (abs h (with_mark x false)).
    apply (upd_top h s F); [done|done| |done|intros; by eapply other_slot_ptrs].
    eapply owns_perm; [|exact Ho]. apply Permutation_app_tail. apply (Permutation_app_inv_l (opt (data x))). symmetry. apply (ptrs_upd (errors s) (top s) (with_mark x false)). lia.
  - destruct (replace_slot h (errors s) (top s) zero_error (opt (to_free s) ++ F)) as (h' & Ef & Ho' & Hsame); [lia|exact Ho|]. fold x in Ef.
    unfold err_clear. rewrite Ef. cbn [mbind option_bind]. apply IH.
    + destruct n as [|n]; [by subst|]. split; [cbn; by rewrite len_zupd|]. split; [done|]. split; [done|]. exists n. split; [lia|]. cbn [top bottom errors]. split.
      * unfold ERR_NUM_ERRORS. rewrite Ht. destruct (Z.eqb_spec ((bottom s + Z.of_nat (S n)) mod 16) 0); Z.div_mod_to_equations; lia.
      * rewrite (map_abs_same h) by (first [by rewrite len_zupd|intros a Ha; apply Hsame, elem_of_app; by left]).
        rewrite entries_upd by (first [lia|intros i Hi; rewrite Ht; Z.div_mod_to_equations; lia]).
        rewrite HQ, entries_snoc, map_app. cbn [map]. by rewrite removelast_last.
    + rewrite (removelast_last_eq Q (abs h x)) in Hf by done. rewrite length_app in Hf. cbn in Hf. lia.
Qed.

Lemma ERR_pop_to_mark_ok t F Q :
  thread_ok t F Q -> exists t', ERR_pop_to_mark true t = Some (fst (q_pop_to_mark Q), t') /\ thread_ok t' F (snd (q_pop_to_mark Q)).
Proof.
  intros Hok. destruct (get_state_ok _ _ _ Hok) as (s & E & Hs). unfold ERR_pop_to_mark. rewrite E.
  destruct (pop_to_mark_loop_ok 16 _ _ _ _ Hs) as (h' & s' & E' & Hs'); [pose proof (st_ok_length _ _ _ _ Hs); lia|].
  rewrite E'. cbn [mbind option_bind]. eexists. split; [done|]. exact Hs'.
Qed.

Definition set_data (d : list Z) (e : entry) : entry := mk_entry (a_file e) (Some d) (a_packed e) (a_line e) (a_mark e).

(** The queue takes over the block [d], or frees it when it is empty. *)
Lemma err_set_error_data_ok t F Q d :
  thread_ok t (d :: F) Q -> exists t', err_set_error_data true t d = Some t' /\
    thread_ok t' F (map_last (set_data (cstr (default [] (blocks t !! d)))) Q).
Proof.
  intros Hok. destruct (get_state_ok _ _ _ Hok) as (s & E & Hs). unfold err_set_error_data. rewrite E, Z.eqb_sym, (empty_iff _ _ _ _ Hs).
  pose proof Hs as (Hl & Hb & Ho & n & Hn & Ht & HQ).
  assert (owns (blocks t) (d :: ptrs (errors s) ++ opt (to_free s) ++ F)) as Ho1.
  { eapply owns_perm; [|exact Ho]. rewrite !app_assoc. symmetry. apply Permutation_middle. }
  destruct (decide (Q = [])) as [HQe|Hne].
  - rewrite HQe in *. destruct (owns_free _ _ _ Ho1) as [Ef Ho']. rewrite Ef. cbn [mbind option_bind]. eexists. split; [done|].
    unfold thread_ok. cbn. split; [done|]. split; [done|]. split; [done|]. exists 0%nat. destruct n; [done|discriminate].
  - rewrite nonempty_match by done. destruct (last_slot _ _ _ _ Hs Hne) as [Htr Hlast]. rewrite znth_slot by lia. cbn [mbind option_bind].
    set (x := slot (errors s) (top s)) in *.
    destruct (replace_slot (blocks t) (errors s) (top s) (with_data x (Some d)) (opt (to_free s) ++ F)) as (h' & Ef & Ho' & Hsame); [lia|exact Ho1|]. fold x in Ef.
    rewrite Ef. cbn [mbind option_bind]. eexists. split; [done|]. unfold thread_ok, map_last. cbn [state blocks]. rewrite Hlast.
    assert (abs h' (with_data x (Some d)) = set_data (cstr (default [] (blocks t !! d))) (abs (blocks t) x)) as <-.
    { unfold abs, set_data. cbn. rewrite Hsame; [done|]. apply elem_of_app. left.
      eapply in_ptrs; [apply (slot_in _ (top s)); rewrite len_zupd; lia|]. rewrite slot_upd, Z.eqb_refl by lia. done. }
    eapply (upd_top (blocks t) s (d :: F)); [done|done|exact Ho'| |intros; by eapply other_slot_ptrs].
    intros b Hin _. apply Hsame, elem_of_app. by left.
Qed.

(** ** Error data *)

Lemma strnlen_cstring s k : cstring s -> OPENSSL_strnlen (s ++ 0 :: k) = len s.
Proof.
  intros H. induction s as [|c s IH]; [done|]. apply Forall_cons_iff in H as [Hc Hs]. cbn. rewrite (proj2 (Z.eqb_neq c 0)) by done.
  rewrite IH by done. rewrite len_cons. lia.
Qed.

Lemma cstr_string s k : cstring s -> cstr (s ++ 0 :: k) = s.
Proof. intros H. unfold cstr. rewrite strnlen_cstring by done. apply ztake_app_len. Qed.

Lemma strlcat_scan_string s k n : cstring s -> len s < n -> strlcat_scan (s ++ 0 :: k) n = (len s, n - len s).
Proof.
  intros H. revert n. induction s as [|c s IH]; intros n Hn.
  - cbn. rewrite andb_false_r. f_equal. change (len (@nil Z)) with 0. lia.
  - apply Forall_cons_iff in H as [Hc Hs]. rewrite len_cons in *. pose proof (len_nonneg s). cbn [app strlcat_scan].
    rewrite Z.gtb_ltb, (proj2 (Z.ltb_lt 0 n)), (proj2 (Z.eqb_neq c 0)) by (done || lia). cbn [andb negb].
    rewrite IH by (done || lia). f_equal. lia.
Qed.

Lemma strlcpy_fits dst src n : len src < n <= len dst -> OPENSSL_strlcpy dst src n = (src ++ 0 :: zdrop (len src + 1) dst, len src).
Proof.
  intros Hn. pose proof (len_nonneg src). unfold OPENSSL_strlcpy. rewrite strlcpy_loop_spec by lia.
  assert (ztake (n - 1) src = src) as -> by (unfold ztake; apply take_ge; unfold len in *; lia).
  assert (zdrop (n - 1) src = []) as -> by (unfold zdrop; apply drop_ge; unfold len in *; lia).
  rewrite (proj2 (Z.eqb_neq (n - len src) 0)) by lia. change (len (@nil Z)) with 0.
  pose proof (len_zdrop (len src) dst ltac:(lia)) as Hk. destruct (zdrop (len src) dst) as [|y k] eqn:E; [change (len (@nil Z)) with 0 in Hk; lia|].
  rewrite zupd_app_len. do 2 f_equal; [|lia]. f_equal. rewrite <- zdrop_zdrop, E by lia. done.
Qed.

Lemma strlcat_fits s junk src n :
  cstring s -> len s + len src < n <= len s + 1 + len junk ->
  exists junk', OPENSSL_strlcat (s ++ 0 :: junk) src n = (s ++ src ++ 0 :: junk', len s + len src) /\ len src + len junk' = len junk.
Proof.
  intros Hs Hn. pose proof (len_nonneg src). unfold OPENSSL_strlcat. rewrite strlcat_scan_string by (done || lia).
  rewrite zdrop_app_len, ztake_app_len, strlcpy_fits by (rewrite len_cons; lia). eexists. split; [done|].
  rewrite len_zdrop; rewrite ?len_cons; lia.
Qed.

Definition arg_string (a : option (list Z)) : list Z := match a with Some s => s | None => [] end.

Lemma vdata_size_ok `{Platform} args total : 0 <= total -> total + len (concat (map arg_string args)) <= size_max ->
  vdata_size total args = Some (total + len (concat (map arg_string args))).
Proof.
  revert total. induction args as [|[a|] args IH]; intros total Ht Hs; cbn [vdata_size map concat arg_string] in *.
  - f_equal. change (len (@nil Z)) with 0. lia.
  - rewrite len_app in *. pose proof (len_nonneg a). pose proof (len_nonneg (concat (map arg_string args))).
    rewrite (proj2 (Z.ltb_ge _ _)) by lia. rewrite IH by lia. f_equal. lia.
  - by apply IH.
Qed.

Lemma vdata_concat_ok args s junk n :
  cstring s -> Forall (fun a => cstring (arg_string a)) args ->
  len s + len (concat (map arg_string args)) < n <= len s + 1 + len junk ->
  exists junk', vdata_concat (s ++ 0 :: junk) n args = Some (s ++ concat (map arg_string args) ++ 0 :: junk').
Proof.
  intros Hs Ha. revert s junk Hs. induction Ha as [|a args Ha _ IH]; intros s junk Hs Hn; [by exists junk|].
  pose proof (len_nonneg (concat (map arg_string args))). destruct a as [a|]; cbn [vdata_concat map concat arg_string] in *; [|by apply IH].
  rewrite len_app in Hn. pose proof (len_nonneg a). destruct (strlcat_fits s junk a n Hs) as (junk' & -> & Hj); [lia|].
  rewrite (proj2 (Z.leb_gt n _)) by lia. rewrite app_assoc. destruct (IH (s ++ a) junk') as (j & ->).
  - by apply List.Forall_app.
  - rewrite len_app. lia.
  - exists j. by rewrite <- !app_assoc.
Qed.

(** The result of [malloc] is not in use. *)
Lemma thread_ok_alloc t F Q a s : thread_ok t F Q -> blocks t !! a = None -> thread_ok (mk_thread (<[a := s]> (blocks t)) (state t)) (a :: F) Q.
Proof.
  unfold thread_ok. cbn [state blocks]. destruct (state t) as [st|]; intros Hok Ha.
  - destruct Hok as (Hl & Hb & Ho & n & Hn & Ht & HQ). split; [done|]. split; [done|]. split.
    + eapply owns_perm; [|by apply owns_alloc]. rewrite !app_assoc. apply Permutation_middle.
    + exists n. split; [done|]. split; [done|]. rewrite HQ. symmetry. apply map_abs_same; [done|].
      intros b Hin. apply lookup_insert_ne. intros <-. destruct Ho as [_ Hd]. destruct (proj2 (Hd a)) as [x Hx]; [apply elem_of_app; by left|congruence].
  - destruct Hok as [Ho ->]. split; [|done]. by apply owns_alloc.
Qed.

Lemma ERR_set_error_data_ok t F Q a s k flags :
  thread_ok t F Q -> a <> 0 -> blocks t !! a = None -> cstring s -> Z.land flags ERR_FLAG_STRING <> 0 ->
  exists t', ERR_set_error_data true t a (s ++ 0 :: k) flags = Some t' /\ thread_ok t' F (map_last (set_data s) Q).
Proof.
  intros Hok Ha Hf Hs Hfl. unfold ERR_set_error_data. rewrite (proj2 (Z.eqb_neq _ 0) Hfl), (proj2 (Z.eqb_neq _ 0) Ha).
  rewrite strnlen_cstring by done. assert (ztake (len s + 1) (s ++ 0 :: k) = s ++ 0 :: []) as ->.
  { replace (s ++ 0 :: k) with ((s ++ [0]) ++ k) by (by rewrite <- app_assoc). apply ztake_app_eq. rewrite len_app. done. }
  pose proof (thread_ok_alloc t F Q a (s ++ [0]) Hok Hf) as H. apply err_set_error_data_ok in H as (t' & E & Hok').
  exists t'. split; [done|]. cbn [blocks] in Hok'. rewrite lookup_insert_eq in Hok'. cbn in Hok'. by rewrite cstr_string in Hok'.
Qed.

Lemma ERR_add_error_data_ok `{Platform} t F Q a fresh args :
  thread_ok t F Q -> a <> 0 -> blocks t !! a = None -> Forall (fun a => cstring (arg_string a)) args ->
  (forall n, 0 <= n -> len (fresh n) = n) -> len (concat (map arg_string args)) < size_max ->
  exists t', ERR_add_error_data true t a fresh args = Some t' /\ thread_ok t' F (map_last (set_data (concat (map arg_string args))) Q).
Proof.
  intros Hok Ha Hf Hargs Hfresh Hsize. set (s := concat (map arg_string args)) in *. pose proof (len_nonneg s) as Hs.
  unfold ERR_add_error_data, err_add_error_vdata. rewrite vdata_size_ok by (fold s; lia). fold s. rewrite Z.add_0_l.
  rewrite (proj2 (Z.eqb_neq (len s) _)), (proj2 (Z.eqb_neq _ 0) Ha) by lia.
  pose proof (Hfresh (len s + 1) ltac:(lia)) as Hl. destruct (fresh (len s + 1)) as [|y junk]; [change (len (@nil Z)) with 0 in Hl; lia|]. rewrite len_cons in Hl.
  change (zupd (y :: junk) 0 0) with ([] ++ 0 :: junk).
  destruct (vdata_concat_ok args [] junk (len s + 1)) as (j & ->); [by constructor|done|change (len (@nil Z)) with 0; fold s; lia|].
  cbn [mbind option_bind app]. fold s.
  assert (cstring s) as Hcs by (subst s; clear -Hargs; induction Hargs; [by constructor|cbn; by apply List.Forall_app]).
  pose proof (thread_ok_alloc t F Q a (s ++ 0 :: j) Hok Hf) as Hx. apply err_set_error_data_ok in Hx as (t' & E & Hok').
  exists t'. split; [done|]. cbn [blocks] in Hok'. rewrite lookup_insert_eq in Hok'. cbn in Hok'. by rewrite cstr_string in Hok'.
Qed.

(** ** Runs of operations *)

Inductive err_op :=
| EPut (lib reason file line errno : Z) | EGet (want_data : bool) | EPeek (last want_data : bool) | EClear
| ESetMark | EPopToMark | ESetData (s : list Z) | EAddData (args : list (option (list Z))).

(** What an operation returns: its value and, for the readers, the file name, line,
    data string and flags of the error. *)
Definition err_result : Type := Z * option (Z * Z * option (list Z) * Z).

Definition read_result (e : option entry) : err_result :=
  match e with
  | None => (0, Some (0, 0, None, 0))
  | Some e => (a_packed e, Some (entry_values e))
  end.

(** The queue, when there is memory for its strings. *)
Inductive err_spec : list entry -> err_op -> err_result -> list entry -> Prop :=
| spec_put Q lib reason f ln errno :
    err_spec Q (EPut lib reason f ln errno) (0, None)
      (q_put Q (mk_entry f None (ERR_PACK lib (if (lib =? ERR_LIB_SYS) && (reason =? 0) then errno else reason)) (u16 ln) false))
| spec_get Q w : err_spec Q (EGet w) (read_result (head Q)) (tl Q)
| spec_peek Q l w : err_spec Q (EPeek l w) (read_result (if l then list.last Q else head Q)) Q
| spec_clear Q : err_spec Q EClear (0, None) []
| spec_set_mark Q :
    err_spec Q ESetMark (match Q with [] => 0 | _ => 1 end, None) (map_last (fun e => mk_entry (a_file e) (a_data e) (a_packed e) (a_line e) true) Q)
| spec_pop Q : err_spec Q EPopToMark (fst (q_pop_to_mark Q), None) (snd (q_pop_to_mark Q))
| spec_set_data Q s : err_spec Q (ESetData s) (0, None) (map_last (set_data s) Q)
| spec_add_data Q args : err_spec Q (EAddData args) (0, None) (map_last (set_data (concat (map arg_string args))) Q).

Inductive err_specs : list entry -> list err_op -> list err_result -> list entry -> Prop :=
| specs_nil Q : err_specs Q [] [] Q
| specs_cons Q o r Q1 ops rs Q2 : err_spec Q o r Q1 -> err_specs Q1 ops rs Q2 -> err_specs Q (o :: ops) (r :: rs) Q2.

Definition err_op_ok `{Platform} (o : err_op) : Prop :=
  match o with
  | ESetData s => cstring s
  | EAddData args => Forall (fun a => cstring (arg_string a)) args /\ len (concat (map arg_string args)) < size_max
  | _ => True
  end.

Section ErrRun.
Context `{P : Platform}.
(** [malloc] gives the address of a block that is not in use, with any contents. *)
Context (malloc : heap -> Z) (fresh : Z -> list Z).
Context (malloc_fresh : forall h, malloc h <> 0 /\ h !! malloc h = None) (fresh_len : forall n, 0 <= n -> len (fresh n) = n).

Definition err_exec (t : thread_st) (o : err_op) : option (err_result * thread_st) :=
  let reader r := '(x, v, t') ← r; Some ((x, Some (values_of (blocks t) v)), t') in
  let writer r := t' ← r; Some ((0, None), t') in
  match o with
  | EPut lib reason f ln errno => writer (ERR_put_error true errno t lib reason f ln)
  | EGet false => reader (ERR_get_error_line true t)
  | EGet true => '(x, v, t') ← ERR_get_error_line_data true t; Some ((x, Some (values_of (blocks t') v)), t')
  | EPeek false false => reader (ERR_peek_error_line true t)
  | EPeek false true => reader (ERR_peek_error_line_data true t)
  | EPeek true false => reader (ERR_peek_last_error_line true t)
  | EPeek true true => reader (ERR_peek_last_error_line_data true t)
  | EClear => writer (ERR_clear_error true t)
  | ESetMark => '(x, t') ← ERR_set_mark true t; Some ((x, None), t')
  | EPopToMark => '(x, t') ← ERR_pop_to_mark true t; Some ((x, None), t')
  | ESetData s => writer (ERR_set_error_data true t (malloc (blocks t)) (s ++ [0]) ERR_FLAG_STRING)
  | EAddData args => writer (ERR_add_error_data true t (malloc (blocks t)) fresh args)
  end.
Fixpoint err_run (t : thread_st) (ops : list err_op) : option (list err_result * thread_st) :=
  match ops with
  | [] => Some ([], t)
  | o :: ops => '(r, t) ← err_exec t o; '(rs, t) ← err_run t ops; Some (r :: rs, t)
  end.

Lemma peek_result_ok t F Q l w :
  thread_ok t F Q -> exists v t', get_error_values true t false l w = Some (fst (read_result (if l then list.last Q else head Q)), v, t') /\
    thread_ok t' F Q /\ (fst (read_result (if l then list.last Q else head Q)), Some (values_of (blocks t) v)) = read_result (if l then list.last Q else head Q).
Proof.
  intros Hok. destruct (peek_error_ok t F Q l w Hok) as (v & t' & E & Hok' & _ & Hv). exists v, t'.
  destruct (if l then list.last Q else head Q); cbn in *; [by rewrite Hv|by subst v].
Qed.

Lemma err_exec_ok t F Q o : thread_ok t F Q -> err_op_ok o -> exists r t' Q', err_exec t o = Some (r, t') /\ err_spec Q o r Q' /\ thread_ok t' F Q'.
Proof.
  intros Hok Ho. destruct (malloc_fresh (blocks t)) as [Hm0 Hmf]. destruct o as [lib reason f ln errno|w|l w| | | |s|args]; cbn [err_exec].
  - destruct (ERR_put_error_ok t F Q errno lib reason f ln Hok) as (t' & -> & Hok'). eexists _, _, _. split; [done|]. split; [constructor|done].
  - destruct (get_error_ok t F Q w Hok) as (v & t' & E & Hok' & Hv).
    assert (exists r, r = read_result (head Q) /\ (match w with true => '(x, v, t') ← ERR_get_error_line_data true t; Some ((x, Some (values_of (blocks t') v)), t')
      | false => '(x, v, t') ← ERR_get_error_line true t; Some ((x, Some (values_of (blocks t) v)), t') end) = Some (r, t')) as (r & -> & Er).
    { eexists. split; [done|]. destruct w; unfold ERR_get_error_line_data, ERR_get_error_line; rewrite E; cbn [mbind option_bind].
      - destruct Q as [|e Q]; [by subst v|]. destruct Hv as [_ Hv]. cbn. by rewrite Hv.
      - destruct Q as [|e Q]; [by subst v|]. destruct Hv as [Hv _]. cbn. by rewrite Hv. }
    eexists _, t', _. split; [destruct w; exact Er|]. split; [constructor|done].
  - destruct (peek_result_ok t F Q l w Hok) as (v & t' & E & Hok' & Hv).
    assert ((match l, w with
      | false, false => '(x, v, t') ← ERR_peek_error_line true t; Some ((x, Some (values_of (blocks t) v)), t')
      | false, true => '(x, v, t') ← ERR_peek_error_line_data true t; Some ((x, Some (values_of (blocks t) v)), t')
      | true, false => '(x, v, t') ← ERR_peek_last_error_line true t; Some ((x, Some (values_of (blocks t) v)), t')
      | true, true => '(x, v, t') ← ERR_peek_last_error_line_data true t; Some ((x, Some (values_of (blocks t) v)), t') end)
      = Some (read_result (if l then list.last Q else head Q), t')) as Er.
    { destruct l, w; unfold ERR_peek_error_line, ERR_peek_error_line_data, ERR_peek_last_error_line, ERR_peek_last_error_line_data; rewrite E; cbn [mbind option_bind]; by rewrite Hv. }
    eexists _, t', _. split; [|split; [apply (spec_peek Q l w)|done]]. destruct l, w; exact Er.
  - destruct (ERR_clear_error_ok t F Q Hok) as (t' & -> & Hok'). eexists _, _, _. split; [done|]. split; [constructor|done].
  - destruct (ERR_set_mark_ok t F Q Hok) as (t' & -> & Hok'). eexists _, _, _. split; [done|]. split; [constructor|done].
  - destruct (ERR_pop_to_mark_ok t F Q Hok) as (t' & -> & Hok'). eexists _, _, _. split; [done|]. split; [constructor|done].
  - destruct (ERR_set_error_data_ok t F Q (malloc (blocks t)) s [] ERR_FLAG_STRING Hok Hm0 Hmf Ho) as (t' & -> & Hok'); [done|]. eexists _, _, _. split; [done|]. split; [constructor|done].
  - destruct Ho as [Ha Hs]. destruct (ERR_add_error_data_ok t F Q (malloc (blocks t)) fresh args Hok Hm0 Hmf Ha fresh_len Hs) as (t' & -> & Hok').
    eexists _, _, _. split; [done|]. split; [constructor|done].
Qed.

Lemma err_run_ok ops t F Q :
  thread_ok t F Q -> Forall err_op_ok ops -> exists rs t' Q', err_run t ops = Some (rs, t') /\ err_specs Q ops rs Q' /\ thread_ok t' F Q'.
Proof.
  intros Hok Hops. revert t Q Hok. induction Hops as [|o ops Ho _ IH]; intros t Q Hok; [eexists _, _, _; split; [done|]; split; [constructor|done]|].
  cbn [err_run]. destruct (err_exec_ok t F Q o Hok Ho) as (r & t1 & Q1 & -> & Hs & Hok1). cbn [mbind option_bind].
  destruct (IH t1 Q1 Hok1) as (rs & t2 & Q2 & -> & Hss & Hok2). cbn [mbind option_bind]. eexists _, _, _. split; [done|]. split; [by econstructor|done].
Qed.
End ErrRun.

(** C32: the error queue of a thread is a queue of at most 15 errors, the oldest
    giving way: whatever sequence of operations runs, each returns what the queue
    says, with the data string it reports still allocated; no slot is read out of
    bounds and no string is freed twice or used after it was freed; and when the
    thread ends every string has been freed. *)
Theorem ERR_refines_queue `{P : Platform} (malloc : heap -> Z) (fresh : Z -> list Z) (ops : list err_op)
    (Hm : forall h, malloc h <> 0 /\ h !! malloc h = None) (Hf : forall n, 0 <= n -> len (fresh n) = n)
    (Hops : Forall err_op_ok ops) :
  exists rs t Q t', err_run malloc fresh (mk_thread ∅ None) ops = Some (rs, t) /\ err_specs [] ops rs Q /\ (length Q <= 15)%nat /\
    err_state_free t = Some t' /\ blocks t' = ∅.
Proof.
  assert (thread_ok (mk_thread ∅ None) [] []) as H0.
  { split; [|done]. split; [constructor|]. intros a. cbn [blocks]. rewrite lookup_empty. split; [by intros [? ?]|by intros ?%elem_of_nil]. }
  destruct (err_run_ok malloc fresh Hm Hf ops _ _ _ H0 Hops) as (rs & t & Q & E & Hs & Hok).
  destruct (err_state_free_ok t [] Q Hok) as (t' & E' & [_ Ho]). exists rs, t, Q, t'. split; [done|]. split; [done|]. split.
  - destruct (get_state_ok _ _ _ Hok) as (s & _ & Hst). by eapply st_ok_length.
  - split; [done|]. apply map_empty. intros a. destruct (blocks t' !! a) eqn:Ea; [|done]. exfalso.
    apply (not_elem_of_nil a), Ho. by eexists.
Qed.

(** An allocator: an address above those in use. *)
Definition next_addr (h : heap) : Z := map_fold (fun a _ m => Z.max (a + 1) m) 1 h.
Lemma next_addr_fresh h : next_addr h <> 0 /\ h !! next_addr h = None.
Proof.
  assert (1 <= next_addr h /\ forall a s, h !! a = Some s -> a < next_addr h) as [H1 H2].
  { unfold next_addr. apply (map_fold_weak_ind (fun r h => 1 <= r /\ forall a s, h !! a = Some s -> a < r)).
    - split; [lia|]. intros a s. by rewrite lookup_empty.
    - intros i x m r Hi [IH1 IH2]. split; [lia|]. intros a s. destruct (decide (i = a)) as [<-|Hne]; [lia|].
      rewrite lookup_insert_ne by done. intros Ha. apply IH2 in Ha. lia. }
  split; [lia|]. destruct (h !! next_addr h) eqn:E; [|done]. apply H2 in E. lia.
Qed.

Lemma ERR_refines_queue_witness :
  let ops := [EPut 11 5 7 20 0; ESetMark; EPut 12 6 8 30 0; ESetData [65; 66]; EPeek true true; EPopToMark; EAddData [Some [67]; None; Some [68]]; EGet true] in
  exists rs t Q t', err_run (P := LP64) next_addr (fun n => repeat 9 (Z.to_nat n)) (mk_thread ∅ None) ops = Some (rs, t) /\
    err_specs [] ops rs Q /\ (length Q <= 15)%nat /\ err_state_free t = Some t' /\ blocks t' = ∅.
Proof.
  apply (ERR_refines_queue (P := LP64)).
  - exact next_addr_fresh.
  - intros n Hn. unfold len. rewrite repeat_length. lia.
  - repeat (apply List.Forall_cons; [cbn; try exact I; try (repeat constructor; lia)|]); [..|apply List.Forall_nil].
Defined.
