(* ===== verification/ErrSave.v ===== *)
(** Saving and restoring the error queue, and the shape of error strings. *)
From stdpp Require Import gmap.
From S2P Require Import Prelude.
From S2P Require Import Heap.
From S2P Require Import Mem.
From S2P Require Import Err.
From S2P Require Import ErrProofs.

Open Scope Z_scope.

(** Addresses that [malloc] may give one after the other. *)
Definition free_addrs (h : heap) (addrs : list Z) (n : nat) : Prop :=
  (n <= length addrs)%nat /\ NoDup addrs /\ Forall (fun a => a <> 0 /\ h !! a = None) addrs.

Lemma strnlen_le s : 0 <= OPENSSL_strnlen s <= len s.
Proof. induction s as [|c s IH]; cbn; [done|]. rewrite len_cons. destruct (c =? 0); lia. Qed.

Lemma cstr_take s : cstr (ztake (OPENSSL_strnlen s + 1) s) = cstr s.
Proof.
  unfold cstr. assert (OPENSSL_strnlen (ztake (OPENSSL_strnlen s + 1) s) = OPENSSL_strnlen s) as ->.
  { induction s as [|c s IH]; [done|]. cbn [OPENSSL_strnlen]. destruct (Z.eqb_spec c 0) as [->|Hc]; [done|].
    pose proof (strnlen_le s). unfold ztake in *. replace (Z.to_nat (1 + OPENSSL_strnlen s + 1)) with (S (Z.to_nat (OPENSSL_strnlen s + 1))) by lia.
    cbn [take OPENSSL_strnlen]. rewrite (proj2 (Z.eqb_neq c 0)) by done. by rewrite IH. }
  unfold ztake. rewrite take_take. f_equal. lia.
Qed.

(** One copy: the block of [dst] is freed, the copy gets a block of its own. *)
Lemma err_copy_ok h a dst src R :
  owns h (opt (data dst) ++ R) -> (forall p, data src = Some p -> p ∈ R) -> a <> 0 -> h !! a = None ->
  exists d h', err_copy h a dst src = Some (d, h') /\ owns h' (opt (data d) ++ R) /\ (forall b, b ∈ R -> h' !! b = h !! b) /\
    abs h' d = unmark (abs h src) /\ (forall b, b <> a -> h !! b = None -> h' !! b = None).
Proof.
  intros Ho Hsrc Ha Hfresh. unfold err_copy, err_clear.
  destruct (owns_free_opt _ _ _ Ho) as (h1 & E1 & Ho1 & Hs1). rewrite E1. cbn [mbind option_bind].
  assert (forall b, h !! b = None -> h1 !! b = None) as Hmono.
  { intros b Hb. revert E1. destruct (data dst) as [p|]; cbn; [|by intros [= <-]]. destruct (h !! p); [|done]. intros [= <-].
    destruct (decide (p = b)) as [->|]; [apply lookup_delete_eq|by rewrite lookup_delete_ne]. }
  destruct (data src) as [p|] eqn:Ep; cbn [mbind option_bind].
  - specialize (Hsrc p eq_refl). unfold strdup_libc_malloc. destruct (proj2 (proj2 Ho1 p) Hsrc) as [s Hs]. rewrite Hs. cbn [mbind option_bind].
    rewrite (proj2 (Z.eqb_neq a 0)) by done. eexists _, _. split; [done|]. cbn [data zero_error mark].
    assert (h1 !! a = None) as Hf1 by auto. split; [by apply owns_alloc|]. split; [|split].
    + intros b Hb. rewrite lookup_insert_ne; [by apply Hs1|]. intros <-. destruct (proj2 (proj2 Ho1 a) Hb) as [? ?]. congruence.
    + unfold abs, unmark. cbn. rewrite Ep. cbn. rewrite lookup_insert_eq, <- Hs1, Hs by done. cbn. by rewrite cstr_take.
    + intros b Hb Hn. rewrite lookup_insert_ne by done. auto.
  - eexists _, _. split; [done|]. cbn [data zero_error mark]. split; [done|]. split; [done|]. split; [|auto].
    unfold abs, unmark. cbn. by rewrite Ep.
Qed.

Lemma err_copy_all_ok addrs dst src h R :
  owns h (ptrs dst ++ R) -> (forall p, p ∈ ptrs src -> p ∈ R) -> (length src <= length dst)%nat -> free_addrs h addrs (length src) ->
  exists d h', err_copy_all h addrs dst src = Some (d, h') /\ owns h' (ptrs d ++ R) /\ (forall b, b ∈ R -> h' !! b = h !! b) /\
    length d = length dst /\ map (abs h') (take (length src) d) = map (fun e => unmark (abs h e)) src.
Proof.
  revert addrs dst h R. induction src as [|s src IH]; intros addrs dst h R Ho Hsrc Hlen Hfree.
  { exists dst, h. destruct dst; done. }
  destruct dst as [|d0 dst]; [cbn in Hlen; lia|]. destruct Hfree as (Hn & Hnd & Hfa). destruct addrs as [|a addrs]; [cbn in Hn; lia|].
  cbn in Hlen, Hn. inversion Hnd as [|? ? Hna Hnd']; subst. apply Forall_cons_iff in Hfa as [[Ha0 Haf] Hfa].
  cbn [err_copy_all hd tl]. unfold ptrs in Ho. cbn [map concat] in Ho. fold (ptrs dst) in Ho. rewrite <- app_assoc in Ho.
  destruct (err_copy_ok h a d0 s (ptrs dst ++ R) Ho) as (d & h1 & E1 & Ho1 & Hs1 & Habs & Hmono); [|done|done|].
  { intros p Hp. apply elem_of_app. right. apply Hsrc. unfold ptrs. cbn. rewrite Hp. by left. }
  rewrite E1. cbn [mbind option_bind].
  destruct (IH addrs dst h1 (opt (data d) ++ R)) as (ds & h2 & E2 & Ho2 & Hs2 & Hl2 & Habs2).
  - eapply owns_perm; [|exact Ho1]. apply Permutation_app_swap_app.
  - intros p Hp. apply elem_of_app. right. apply Hsrc. unfold ptrs. cbn [map concat]. apply elem_of_app. by right.
  - lia.
  - split; [lia|]. split; [done|]. apply List.Forall_forall. intros b Hb. apply List.Forall_forall with (x := b) in Hfa as [Hb0 Hbf]; [|done].
    split; [done|]. apply Hmono; [|done]. intros ->. apply Hna. by apply list_elem_of_In.
  - rewrite E2. cbn [mbind option_bind]. exists (d :: ds), h2. split; [done|]. split; [|split; [|split]].
    + unfold ptrs. cbn [map concat]. fold (ptrs ds). rewrite <- app_assoc. eapply owns_perm; [|exact Ho2]. apply Permutation_app_swap_app.
    + intros b Hb. rewrite Hs2 by (apply elem_of_app; by right). apply Hs1. apply elem_of_app. by right.
    + cbn. by rewrite Hl2.
    + cbn [length take map]. f_equal.
      * rewrite <- Habs. apply abs_same. intros p Hp. apply Hs2. apply elem_of_app. left. rewrite Hp. by left.
      * rewrite Habs2. apply map_ext_in. intros e He. f_equal. apply abs_same. intros p Hp. apply Hs1. apply elem_of_app. right.
        apply Hsrc. unfold ptrs. cbn [map concat]. apply elem_of_app. right. by eapply in_ptrs.
Qed.

(** A saved state that holds the errors [E]. *)
Definition saved_ok (h : heap) (sv : err_save_state_st) (E : list entry) : Prop :=
  num_errors sv = len (s_errors sv) /\ 0 < num_errors sv < 16 /\ map (abs h) (s_errors sv) = E.

Lemma entries_ptrs l b n p : len l = 16 -> p ∈ ptrs (entries l b n) -> p ∈ ptrs l.
Proof.
  intros Hl. unfold ptrs at 1. intros (k & Hk & Hp)%list_elem_of_In%in_concat. apply in_map_iff in Hk as (e & <- & He).
  unfold entries in He. apply in_map_iff in He as (i & <- & _).
  destruct (data (slot l ((b + 1 + Z.of_nat i) mod 16))) as [a|] eqn:E; [|done]. destruct Hp as [<-|[]].
  eapply in_ptrs; [|exact E]. apply slot_in. pose proof (Z.mod_pos_bound (b + 1 + Z.of_nat i) 16). lia.
Qed.

(** With [bottom] at 15 the slots are in order. *)
Lemma entries_from_15 l n : len l = 16 -> (n <= 16)%nat -> entries l 15 n = take n l.
Proof.
  intros Hl Hn. induction n as [|n IH]; [done|]. unfold len in Hl.
  destruct (lookup_lt_is_Some_2 l n ltac:(lia)) as [x Hx]. rewrite entries_snoc, IH, (take_S_r _ _ x) by (done || lia). do 2 f_equal.
  replace (15 + 1 + Z.of_nat n) with (Z.of_nat n + 1 * 16) by lia. rewrite Z.mod_add, Z.mod_small by lia.
  unfold slot. by rewrite Nat2Z.id, Hx.
Qed.

Lemma mapM_slots l b n : len l = 16 ->
  mapM (fun i => znth l ((b + Z.of_nat i + 1) mod ERR_NUM_ERRORS)) (seq 0 n) = Some (entries l b n).
Proof.
  intros Hl. apply mapM_Some_2. unfold entries. apply Forall2_fmap_r, Forall_Forall2_diag, List.Forall_forall. intros i _. unfold ERR_NUM_ERRORS.
  pose proof (Z.mod_pos_bound (b + Z.of_nat i + 1) 16). rewrite znth_slot by lia. do 2 f_equal. f_equal. lia.
Qed.

Lemma ERR_save_state_ok t F Q addrs :
  thread_ok t F Q -> Q <> [] -> free_addrs (blocks t) addrs 15 ->
  exists sv t', ERR_save_state true true t addrs = Some (Some sv, t') /\
    saved_ok (blocks t') sv (map unmark Q) /\ thread_ok t' (ptrs (s_errors sv) ++ F) Q.
Proof.
  intros Hok Hne Hfree. destruct (get_state_ok _ _ _ Hok) as (s & E & Hs). unfold ERR_save_state. rewrite E, Z.eqb_sym, (empty_iff _ _ _ _ Hs).
  rewrite nonempty_match by done. cbn [negb blocks]. destruct Hs as (Hl & Hb & Ho & n & Hn & Ht & HQ).
  assert (n <> 0)%nat as Hn0 by (intros ->; subst; done).
  assert ((if bottom s <=? top s then top s - bottom s else ERR_NUM_ERRORS + top s - bottom s) = Z.of_nat n) as ->.
  { unfold ERR_NUM_ERRORS. rewrite Ht. destruct (Z.leb_spec (bottom s) ((bottom s + Z.of_nat n) mod 16)); Z.div_mod_to_equations; lia. }
  rewrite Nat2Z.id, mapM_slots by done. cbn [mbind option_bind].
  set (R := ptrs (errors s) ++ opt (to_free s) ++ F) in *.
  destruct (err_copy_all_ok addrs (replicate n zero_error) (entries (errors s) (bottom s) n) (blocks t) R) as (d & h' & Ed & Ho' & Hsame & Hld & Habs).
  - by rewrite ptrs_zero.
  - intros p Hp. apply elem_of_app. left. by eapply entries_ptrs.
  - by rewrite length_entries, length_replicate.
  - destruct Hfree as (H1 & H2 & H3). split; [rewrite length_entries; lia|done].
  - rewrite Ed. cbn [mbind option_bind]. rewrite length_replicate in Hld. rewrite length_entries, take_ge in Habs by lia. eexists _, _. split; [done|].
    cbn [blocks s_errors num_errors]. split.
    + split; [cbn; unfold len; lia|]. split; [cbn; lia|]. cbn. rewrite Habs, HQ. by rewrite map_map.
    + unfold thread_ok. cbn [state blocks]. split; [done|]. split; [done|]. split.
      * eapply owns_perm; [|exact Ho']. subst R. rewrite (Permutation_app_swap_app (ptrs d)). apply Permutation_app_head. apply Permutation_app_swap_app.
      * exists n. split; [done|]. split; [done|]. rewrite HQ. symmetry. apply map_abs_same; [done|]. intros a Ha. apply Hsame. apply elem_of_app. by left.
Qed.

Lemma ERR_restore_state_ok t F Q addrs sv E :
  thread_ok t (ptrs (s_errors sv) ++ F) Q -> saved_ok (blocks t) sv E -> free_addrs (blocks t) addrs 15 ->
  exists t', ERR_restore_state true t addrs (Some sv) = Some t' /\
    thread_ok t' (ptrs (s_errors sv) ++ F) (map unmark E) /\ saved_ok (blocks t') sv E.
Proof.
  intros Hok (Hnum & Hrange & HE) Hfree. unfold ERR_restore_state. unfold ERR_NUM_ERRORS.
  rewrite (proj2 (Z.eqb_neq _ 0)), (proj2 (Z.leb_gt 16 _)) by lia.
  destruct (get_state_ok _ _ _ Hok) as (s & Es & Hs). rewrite Es. destruct Hs as (Hl & Hb & Ho & n & Hn & Ht & HQ).
  destruct (err_copy_all_ok addrs (errors s) (s_errors sv) (blocks t) (opt (to_free s) ++ ptrs (s_errors sv) ++ F)) as (d & h' & Ed & Ho' & Hsame & Hld & Habs).
  - done.
  - intros p Hp. apply elem_of_app. right. apply elem_of_app. by left.
  - unfold len in *. lia.
  - destruct Hfree as (H1 & H2 & H3). split; [unfold len in *; lia|done].
  - rewrite Ed. cbn [mbind option_bind]. eexists. split; [done|]. cbn [blocks]. split.
    + unfold thread_ok. cbn [state blocks]. split; [cbn; unfold len in *; lia|]. split; [cbn; lia|]. split; [done|].
      exists (length (s_errors sv)). cbn [errors top bottom]. split; [unfold len in *; lia|]. split.
      * unfold len in *. replace (16 - 1 + Z.of_nat (length (s_errors sv))) with (num_errors sv - 1 + 1 * 16) by lia.
        rewrite Z.mod_add by lia. rewrite Z.mod_small by lia. done.
      * rewrite <- HE, map_map, <- Habs. f_equal. symmetry. apply entries_from_15; unfold len in *; lia.
    + split; [done|]. split; [done|]. rewrite <- HE. apply map_ext_in. intros e He. apply abs_same. intros p Hp. apply Hsame.
      apply elem_of_app. right. apply elem_of_app. left. by eapply in_ptrs.
Qed.

Lemma ERR_SAVE_STATE_free_ok t F Q sv :
  thread_ok t (ptrs (s_errors sv) ++ F) Q -> exists t', ERR_SAVE_STATE_free t (Some sv) = Some t' /\ thread_ok t' F Q.
Proof.
  unfold thread_ok, ERR_SAVE_STATE_free. destruct (state t) as [s|] eqn:Es.
  - intros (Hl & Hb & Ho & n & Hn & Ht & HQ).
    destruct (err_clear_all_ok (blocks t) (s_errors sv) (ptrs (errors s) ++ opt (to_free s) ++ F)) as (h' & E & Ho' & Hsame).
    { eapply owns_perm; [|exact Ho]. rewrite (Permutation_app_swap_app (ptrs (s_errors sv))). apply Permutation_app_head. apply Permutation_app_swap_app. }
    rewrite E. cbn [mbind option_bind]. eexists. split; [done|]. cbn. split; [done|]. split; [done|]. split; [done|].
    exists n. split; [done|]. split; [done|]. rewrite HQ. symmetry. apply map_abs_same; [done|]. intros a Ha. apply Hsame. apply elem_of_app. by left.
  - intros [Ho ->]. destruct (err_clear_all_ok _ _ _ Ho) as (h' & E & Ho' & _). rewrite E. cbn [mbind option_bind]. eexists. done.
Qed.

(** A saved error queue is restored: ERR_save_state copies the errors, strings
    included and marks dropped; whatever happened to the queue since, as long as
    the copies are untouched, ERR_restore_state makes the queue hold them again and
    leaves the saved state as it was; freeing the saved state then leaves the queue
    alone. Every string has one owner throughout. *)
Theorem ERR_save_restore (t : thread_st) (F : list Z) (Q : list entry) (addrs : list Z)
    (Hok : thread_ok t F Q) (Hne : Q <> []) (Hfree : free_addrs (blocks t) addrs 15) :
  exists sv t1, ERR_save_state true true t addrs = Some (Some sv, t1) /\
    thread_ok t1 (ptrs (s_errors sv) ++ F) Q /\ saved_ok (blocks t1) sv (map unmark Q) /\
    forall t2 Q2 addrs2, thread_ok t2 (ptrs (s_errors sv) ++ F) Q2 -> saved_ok (blocks t2) sv (map unmark Q) ->
      free_addrs (blocks t2) addrs2 15 ->
      exists t3 t4, ERR_restore_state true t2 addrs2 (Some sv) = Some t3 /\
        thread_ok t3 (ptrs (s_errors sv) ++ F) (map unmark Q) /\ saved_ok (blocks t3) sv (map unmark Q) /\
        ERR_SAVE_STATE_free t3 (Some sv) = Some t4 /\ thread_ok t4 F (map unmark Q).
Proof.
  destruct (ERR_save_state_ok t F Q addrs Hok Hne Hfree) as (sv & t1 & E1 & Hsv & Hok1). exists sv, t1. split; [done|]. split; [done|]. split; [done|].
  intros t2 Q2 addrs2 Hok2 Hsv2 Hfree2. destruct (ERR_restore_state_ok t2 F Q2 addrs2 sv _ Hok2 Hsv2 Hfree2) as (t3 & E3 & Hok3 & Hsv3).
  rewrite map_map in Hok3. destruct (ERR_SAVE_STATE_free_ok t3 F _ sv Hok3) as (t4 & E4 & Hok4). exists t3, t4. done.
Qed.

(** A queue with one error that has a string. *)
Definition one_error : thread_st :=
  mk_thread {[5 := [65; 66; 0]]} (Some (mk_err_state (zupd (replicate 16 zero_error) 1 (mk_err 7 (Some 5) (ERR_PACK 11 5) 20 true)) 1 0 None)).
Definition one_entry : entry := mk_entry 7 (Some [65; 66]) (ERR_PACK 11 5) 20 true.

Lemma one_error_ok : thread_ok one_error [] [one_entry].
Proof.
  split; [reflexivity|]. split; [cbn; lia|]. split.
  - change (ptrs (errors _) ++ _) with [5]. split; [constructor; [by intros ?%elem_of_nil|constructor]|].
    intros a. cbn. rewrite list_elem_of_singleton. destruct (decide (a = 5)) as [->|Hne].
    + split; [done|]. intros _. by eexists.
    + rewrite lookup_singleton_ne by done. split; [by intros [? ?]|done].
  - exists 1%nat. split; [lia|]. split; reflexivity.
Qed.

Lemma ERR_save_restore_witness :
  exists sv t1, ERR_save_state true true one_error (map Z.of_nat (seq 10 15)) = Some (Some sv, t1) /\
    map (abs (blocks t1)) (s_errors sv) = [unmark one_entry].
Proof.
  destruct (ERR_save_restore one_error [] [one_entry] (map Z.of_nat (seq 10 15)) one_error_ok) as (sv & t1 & E & _ & (_ & _ & H) & _).
  - discriminate.
  - split; [cbn; lia|]. split.
    + apply NoDup_ListNoDup. repeat (constructor; [cbn; lia|]). constructor.
    + repeat (apply List.Forall_cons; [split; [cbn; lia|reflexivity]|]). apply List.Forall_nil.
  - exists sv, t1. split; [exact E|exact H].
Defined.

(** ** Error strings *)

Fixpoint count_colons (l : list Z) : nat :=
  match l with [] => 0%nat | c :: l => ((if (c =? colon)%Z then 1 else 0) + count_colons l)%nat end.

Lemma count_app l k : count_colons (l ++ k) = (count_colons l + count_colons k)%nat.
Proof. induction l as [|c l IH]; cbn; [done|]. rewrite IH. lia. Qed.

Lemma count_repeat n : count_colons (repeat colon n) = n.
Proof. induction n as [|n IH]; cbn; [done|]. by rewrite IH. Qed.

Lemma strchr_colon_some pos l c :
  strchr_colon pos l = Some c -> exists k m, l = k ++ colon :: m /\ c = pos + len k.
Proof.
  revert pos. induction l as [|x l IH]; intros pos; [done|]. cbn [strchr_colon]. destruct (Z.eqb_spec x colon) as [->|].
  - intros [= <-]. exists [], l. split; [done|]. change (len (@nil Z)) with 0. lia.
  - destruct (x =? 0); [done|]. intros H. destruct (IH _ H) as (k & m & -> & ->). exists (x :: k), m. split; [done|]. rewrite len_cons. lia.
Qed.

Lemma count_ztake_le s c buf : 0 <= s <= c -> (count_colons (ztake s buf) <= count_colons (ztake c buf))%nat.
Proof.
  intros H. rewrite <- (ztake_split s c buf) by lia. rewrite count_app. lia.
Qed.

Lemma fix_colons_ok fuel buf n i s :
  5 <= n -> len buf = n -> Z.of_nat fuel = num_colons - i -> 0 <= i -> 0 <= s <= n - 1 - num_colons + i ->
  (Z.to_nat i <= count_colons (ztake s buf))%nat ->
  len (fix_colons fuel buf n i s) = n /\ (4 <= count_colons (ztake (n - 1) (fix_colons fuel buf n i s)))%nat /\
  zdrop (n - 1) (fix_colons fuel buf n i s) = zdrop (n - 1) buf.
Proof.
  unfold num_colons. revert i s. induction fuel as [|fuel IH]; intros i s Hn Hl Hf Hi Hs Hc.
  - cbn. assert (i = 4) as -> by lia. split; [done|]. split; [|done]. pose proof (count_ztake_le s (n - 1) buf). lia.
  - cbn [fix_colons]. unfold num_colons. set (p := n - 1 - 4 + i) in *.
    set (filled := ztake p buf ++ repeat colon (Z.to_nat (4 - i)) ++ zdrop (p + (4 - i)) buf).
    assert (len filled = n /\ (4 <= count_colons (ztake (n - 1) filled))%nat /\ zdrop (n - 1) filled = zdrop (n - 1) buf) as Hfill.
    { assert (len (repeat colon (Z.to_nat (4 - i))) = 4 - i) as Hr by (unfold len; rewrite repeat_length; lia).
      assert (len (ztake p buf ++ repeat colon (Z.to_nat (4 - i))) = n - 1) as Hlp by (rewrite len_app, len_ztake, Hr; lia).
      subst filled. rewrite app_assoc. replace (p + (4 - i)) with (n - 1) by lia. split; [rewrite len_app, Hlp, len_zdrop; lia|].
      split; [|rewrite (zdrop_app_eq (n - 1)); done]. rewrite (ztake_app_eq (n - 1)) by done. rewrite count_app, count_repeat.
      pose proof (count_ztake_le s p buf). lia. }
    destruct (strchr_colon s (zdrop s buf)) as [c|] eqn:E; [|done]. destruct (Z.ltb_spec p c) as [|Hp]; [done|].
    apply strchr_colon_some in E as (k & m & E & Hck). pose proof (len_nonneg k).
    apply IH; [done|done|lia|lia|lia|].
    assert (ztake (c + 1) buf = ztake s buf ++ k ++ [colon]) as ->.
    { rewrite <- (ztake_split s (c + 1) buf) by lia. f_equal. rewrite E. replace (k ++ colon :: m) with ((k ++ [colon]) ++ m) by (by rewrite <- app_assoc).
      apply ztake_app_eq. rewrite len_app. change (len [colon]) with 1. lia. }
    rewrite !count_app. change (count_colons [colon]) with 1%nat. lia.
Qed.

(** ERR_error_string_n always gives a string of the five fields: with a buffer of
    five bytes or more the result is NUL-terminated within the buffer and has at
    least four colons, whether or not the text was cut; uncut text is unchanged. *)
Theorem ERR_error_string_n_colons (packed_error : Z) (lib_str reason_str buf : list Z) (n : Z) (Hn : 5 <= n) (Hbuf : len buf = n) :
  let out := ERR_error_string_n packed_error lib_str reason_str buf n in
  let full := error_format packed_error lib_str reason_str in
  len out = n /\
  (if len full <? n then exists k, out = full ++ 0 :: k
   else (4 <= count_colons (ztake (n - 1) out))%nat /\ zdrop (n - 1) out = [0]).
Proof.
  intros out full. subst out. unfold ERR_error_string_n. fold full. rewrite (proj2 (Z.eqb_neq n 0)) by lia. pose proof (len_nonneg full).
  destruct (Z.leb_spec n (len full)).
  - rewrite (proj2 (Z.ltb_ge _ _)), (proj2 (Z.leb_gt n num_colons)) by (unfold num_colons; lia).
    assert (len (ztake (n - 1) full) = n - 1) as Hl by (rewrite len_ztake; lia).
    destruct (fix_colons_ok 4 (ztake (n - 1) full ++ [0]) n 0 0) as (H1 & H2 & H3); try (unfold num_colons; lia).
    + rewrite len_app, Hl. change (len [0]) with 1. lia.
    + split; [done|]. split; [done|]. rewrite H3. by apply zdrop_app_eq.
  - rewrite (proj2 (Z.ltb_lt _ _)) by lia. split; [|eauto]. rewrite !len_app, len_zdrop by lia. change (len [0]) with 1. lia.
Qed.

Lemma ERR_error_string_n_witness :
  len (ERR_error_string_n 0x0b000005 [88] [89] (repeat 1 10) 10) = 10.
Proof. exact (proj1 (ERR_error_string_n_colons 0x0b000005 [88] [89] (repeat 1 10) 10 ltac:(lia) ltac:(reflexivity))). Defined.
