(* ===== verification/Md32.v ===== *)
(** The 32-bit collector that MD4, MD5, SHA-1 and SHA-256 share:
    crypto/fipsmodule/digest/md32_common.h. The block function is the interface [Md32]; the
    reference is the padded message cut into blocks and folded with the compression function. *)
From S2P Require Import Prelude.
From S2P Require Import Internal.
From S2P Require Import Heap.

Open Scope Z_scope.

(** The state of a digest: [h], the bit count [Nh, Nl], the partial block [data] and its size. *)
Record md32_ctx := {
  md_h : list Z;
  md_Nl : Z;
  md_Nh : Z;
  md_data : list Z;
  md_num : Z;
}.

(** [n] blocks of [bs] bytes folded into the state [h] with the compression function [f]. *)
Fixpoint absorb (bs : Z) (f : list Z -> list Z -> list Z) (n : nat) (h data : list Z) : list Z :=
  match n with
  | O => h
  | S n => absorb bs f n (f h (ztake bs data)) (zdrop bs data)
  end.

(** The first [n] blocks come first. *)
Lemma absorb_split bs f n h (a b : list Z) k : 0 <= bs -> len a = Z.of_nat n * bs ->
  absorb bs f (n + k) h (a ++ b) = absorb bs f k (absorb bs f n h a) b.
Proof.
  intros Hb. revert h a. induction n as [|n IH]; intros h a Ha; simpl.
  - assert (a = []) as -> by (apply len_0_nil; lia). done.
  - assert (Hl : bs <= len a) by nia.
    rewrite <- (IH _ (zdrop bs a)) by (rewrite len_zdrop by lia; lia).
    assert (ztake bs (a ++ b) = ztake bs a) as ->.
    { unfold ztake. rewrite take_app_le; [done|]. unfold len in Hl. lia. }
    assert (zdrop bs (a ++ b) = zdrop bs a ++ b) as ->; [|done].
    unfold zdrop. rewrite drop_app_le; [done|]. unfold len in Hl. lia.
Qed.

(** What crypto_md32_update is given, a block size and a [crypto_md32_block_func], and what the
    header asks of the latter: it incorporates [num_blocks] of input into the state. *)
Class Md32 := {
  block_size : Z;
  block_size_ok : 9 <= block_size < 2 ^ 31;
  compress : list Z -> list Z -> list Z;
  block_func : list Z -> list Z -> Z -> list Z;
  block_func_absorb : forall h data n, 0 < n -> len data = n * block_size ->
    block_func h data n = absorb block_size compress (Z.to_nat n) h data;
}.

(** A message given in pieces to an update function. *)
Fixpoint feed {C} (update : C -> list Z -> option C) (c : C) (pieces : list (list Z)) : option C :=
  match pieces with
  | [] => Some c
  | p :: pieces => c ← update c p; feed update c pieces
  end.

Definition zeros (n : Z) : list Z := replicate (Z.to_nat n) 0.

Section Collector.
Context `{PF : Platform} `{MD : Md32}.

(** The whole blocks of [inp], and the rest of it kept in [data]. *)
Definition md32_blocks (h : list Z) (Nl Nh : Z) (data : list Z) (num : Z) (inp : list Z) : option md32_ctx :=
  let n := len inp / block_size in
  '(h, inp) ← (if 0 <? n
               then whole ← load_at inp 0 (n * block_size);
                    Some (block_func h whole n, zdrop (n * block_size) inp)
               else Some (h, inp));
  '(data, num) ← (if negb (len inp =? 0)
                  then data ← store_at data 0 inp; Some (data, u32 (len inp))
                  else Some (data, num));
  Some {| md_h := h; md_Nl := Nl; md_Nh := Nh; md_data := data; md_num := num |}.

(** The bit count after [length] more bytes: [(Nl, Nh)]. *)
Definition md32_count (Nl Nh length : Z) : Z * Z :=
  let l := u32 (Nl + u32 (Z.shiftl (u32 length) 3)) in
  let Nh := if l <? Nl then u32 (Nh + 1) else Nh in
  (l, u32 (Nh + u32 (Z.shiftr length 29))).

Definition crypto_md32_update (c : md32_ctx) (inp : list Z) : option md32_ctx :=
  let length := len inp in
  if length =? 0 then Some c else
  let '(Nl, Nh) := md32_count (md_Nl c) (md_Nh c) length in
  let n := md_num c in
  if negb (n =? 0) then
    if (block_size <=? length) || (block_size <=? wrap size_bits (length + n)) then
      chunk ← load_at inp 0 (block_size - n);
      data ← store_at (md_data c) n chunk;
      let h := block_func (md_h c) data 1 in
      let n := block_size - n in
      md32_blocks h Nl Nh (zeros block_size) 0 (zdrop n inp)
    else
      data ← store_at (md_data c) n inp;
      Some {| md_h := md_h c; md_Nl := Nl; md_Nh := Nh; md_data := data;
              md_num := u32 (md_num c + u32 length) |}
  else md32_blocks (md_h c) Nl Nh (md_data c) n inp.

Definition crypto_md32_final (is_big_endian : bool) (c : md32_ctx) : option md32_ctx :=
  let n := md_num c in
  data ← store_at (md_data c) n [0x80];
  let n := n + 1 in
  '(h, data, n) ← (if block_size - 8 <? n
                   then data ← store_at data n (zeros (block_size - n));
                        Some (block_func (md_h c) data 1, data, 0)
                   else Some (md_h c, data, n));
  data ← store_at data n (zeros (block_size - 8 - n));
  data ← (if is_big_endian
          then data ← store_at data (block_size - 8) (CRYPTO_store_u32_be (md_Nh c));
               store_at data (block_size - 4) (CRYPTO_store_u32_be (md_Nl c))
          else data ← store_at data (block_size - 8) (CRYPTO_store_u32_le (md_Nl c));
               store_at data (block_size - 4) (CRYPTO_store_u32_le (md_Nh c)));
  Some {| md_h := block_func h data 1; md_Nl := md_Nl c; md_Nh := md_Nh c;
          md_data := zeros block_size; md_num := 0 |}.

(** ** The reference *)

(** The padding of a message of [n] bytes: a one bit, zeros up to eight bytes before the end of a
    block, the length in bits modulo 2^64. *)
Definition md_padding (is_big_endian : bool) (n : Z) : list Z :=
  0x80 :: zeros ((- (n + 9)) mod block_size) ++
  (if is_big_endian then be_bytes 8 (8 * n) else le_bytes 8 (8 * n)).

Definition absorb_all (h m : list Z) : list Z :=
  absorb block_size compress (Z.to_nat (len m / block_size)) h m.

Definition md_state (is_big_endian : bool) (iv m : list Z) : list Z :=
  absorb_all iv (m ++ md_padding is_big_endian (len m)).

(** ** Lists of blocks *)

Lemma block_size_pos : 0 < block_size.
Proof. pose proof block_size_ok. lia. Qed.

Lemma len_zero_bytes n : 0 <= n -> len (zeros n) = n.
Proof. intros. unfold zeros. rewrite len_replicate. lia. Qed.

Lemma absorb_app n h a b k :
  len a = Z.of_nat n * block_size ->
  absorb block_size compress (n + k) h (a ++ b) = absorb block_size compress k (absorb block_size compress n h a) b.
Proof. apply absorb_split. pose proof block_size_pos. lia. Qed.

Lemma absorb_all_app h a b : len a mod block_size = 0 -> absorb_all h (a ++ b) = absorb_all (absorb_all h a) b.
Proof.
  intros Ha. pose proof block_size_pos as Hb. pose proof (len_nonneg a). pose proof (len_nonneg b).
  assert (E := Z.div_mod (len a) block_size (Z.neq_sym _ _ (Z.lt_neq _ _ Hb))). unfold absorb_all. rewrite len_app.
  replace (len a + len b) with (len b + (len a / block_size) * block_size) by lia.
  rewrite Z.div_add by lia.
  assert (0 <= len a / block_size) by (apply Z.div_pos; lia). assert (0 <= len b / block_size) by (apply Z.div_pos; lia).
  replace (Z.to_nat (len b / block_size + len a / block_size))
    with (Z.to_nat (len a / block_size) + Z.to_nat (len b / block_size))%nat by lia.
  apply absorb_app. lia.
Qed.

Lemma absorb_all_block h b : len b = block_size -> absorb_all h b = compress h b.
Proof.
  intros Hl. pose proof block_size_pos. unfold absorb_all. rewrite Hl, Z.div_same by lia. simpl.
  rewrite <- Hl. by rewrite ztake_all.
Qed.

Lemma block_func_all h data n : 0 < n -> len data = n * block_size -> block_func h data n = absorb_all h data.
Proof.
  intros Hn Hl. pose proof block_size_pos. rewrite block_func_absorb by done.
  unfold absorb_all. by rewrite Hl, Z.div_mul by lia.
Qed.

(** ** The invariant: [c] has absorbed the message [m] from the state [iv] *)

Definition absorbed (iv m : list Z) (c : md32_ctx) : Prop :=
  exists whole, m = whole ++ ztake (md_num c) (md_data c) /\ len whole mod block_size = 0 /\
    0 <= md_num c < block_size /\ len (md_data c) = block_size /\
    md_h c = absorb_all iv whole /\
    0 <= md_Nl c < 2 ^ 32 /\ 0 <= md_Nh c < 2 ^ 32 /\ md_Nh c * 2 ^ 32 + md_Nl c = wrap 64 (8 * len m).

Lemma md32_count_spec Nl Nh n length :
  0 <= length < 2 ^ 64 -> 0 <= Nl < 2 ^ 32 -> 0 <= Nh < 2 ^ 32 -> Nh * 2 ^ 32 + Nl = wrap 64 (8 * n) ->
  let '(l, h) := md32_count Nl Nh length in
  0 <= l < 2 ^ 32 /\ 0 <= h < 2 ^ 32 /\ h * 2 ^ 32 + l = wrap 64 (8 * (n + length)).
Proof.
  intros Hlen HNl HNh E. unfold md32_count. bits_to_arith.
  set (q := length / 2 ^ 29). set (r := length mod 2 ^ 29).
  assert (Hlr : length = 2 ^ 29 * q + r) by (apply Z.div_mod; lia).
  assert (Hr : 0 <= r < 2 ^ 29) by (apply Z.mod_pos_bound; lia). clearbody q r.
  assert (Hsh : u32 (u32 length * 2 ^ 3) = 8 * r).
  { unfold wrap. rewrite Z.mul_mod_idemp_l by lia. rewrite Hlr.
    replace ((2 ^ 29 * q + r) * 2 ^ 3) with (8 * r + q * 2 ^ 32) by lia. rewrite Z.mod_add by lia. apply Z.mod_small. lia. }
  rewrite Hsh. assert (Hsum : wrap 64 (8 * (n + length)) = (Nh * 2 ^ 32 + Nl + 8 * length) mod 2 ^ 64).
  { rewrite E. unfold wrap. rewrite Z.add_mod_idemp_l by lia. f_equal. lia. }
  rewrite Hsum, Hlr. split; [apply wrap_range; lia|]. split; [apply wrap_range; lia|].
  rewrite !wrap_add_r. set (c := b2z (2 ^ 32 <=? Nl + 8 * r)).
  assert (Hl : u32 (Nl + 8 * r) = Nl + 8 * r - 2 ^ 32 * c).
  { unfold c. destruct (Z.leb_spec (2 ^ 32) (Nl + 8 * r)); unfold wrap; simpl b2z.
    - symmetry. apply (Z.mod_unique _ _ 1); lia.
    - rewrite Z.mod_small by lia. lia. }
  assert (Hc : (if u32 (Nl + 8 * r) <? Nl then u32 (Nh + 1) else Nh) = u32 (Nh + c)).
  { rewrite Hl. unfold c. destruct (Z.leb_spec (2 ^ 32) (Nl + 8 * r)); simpl b2z; zcases; try lia.
    rewrite Z.add_0_r. symmetry. by apply wrap_small. }
  rewrite Hc, Hl, wrap_add_l. unfold wrap.
  replace (Nh * 2 ^ 32 + Nl + 8 * (2 ^ 29 * q + r)) with (2 ^ 32 * (Nh + c + q) + (Nl + 8 * r - 2 ^ 32 * c)) by lia.
  assert (0 <= Nl + 8 * r - 2 ^ 32 * c < 2 ^ 32) by (rewrite <- Hl; apply wrap_range; lia).
  change (2 ^ 64) with (2 ^ 32 * 2 ^ 32). rewrite Z.rem_mul_r by lia.
  set (lo := Nl + 8 * r - 2 ^ 32 * c) in *. replace (2 ^ 32 * (Nh + c + q) + lo) with (lo + (Nh + c + q) * 2 ^ 32) by lia.
  rewrite (Z.mod_add lo), (Z.div_add lo), (Z.mod_small lo), (Z.div_small lo), Z.add_0_l by lia. lia.
Qed.

Lemma md32_blocks_spec h Nl Nh data inp :
  len data = block_size ->
  exists c data', md32_blocks h Nl Nh data 0 inp = Some c /\
    md_Nl c = Nl /\ md_Nh c = Nh /\ md_data c = data' /\ len data' = block_size /\ 0 <= md_num c < block_size /\
    exists whole, inp = whole ++ ztake (md_num c) data' /\ len whole mod block_size = 0 /\ md_h c = absorb_all h whole.
Proof.
  intros Hd. pose proof block_size_ok as Hbs. pose proof block_size_pos as Hb. pose proof (len_nonneg inp) as Hi.
  unfold md32_blocks. assert (E := Z.div_mod (len inp) block_size (Z.neq_sym _ _ (Z.lt_neq _ _ Hb))).
  pose proof (Z.mod_pos_bound (len inp) block_size Hb) as Hm.
  set (n := len inp / block_size) in *. assert (Hn : 0 <= n) by (apply Z.div_pos; lia).
  assert (Hnb : 0 <= n * block_size <= len inp) by nia.
  set (w := ztake (n * block_size) inp). assert (Hw : len w = n * block_size) by (apply len_ztake; lia).
  assert (Hr : len (zdrop (n * block_size) inp) = len inp mod block_size) by (rewrite len_zdrop by lia; lia).
  assert (Hstep : (if 0 <? n
      then whole ← load_at inp 0 (n * block_size); Some (block_func h whole n, zdrop (n * block_size) inp)
      else Some (h, inp)) = Some (absorb_all h w, zdrop (n * block_size) inp)).
  { destruct (Z.ltb_spec 0 n) as [Hz|Hz].
    - rewrite load_at_ok by lia. cbn [mbind option_bind]. rewrite zdrop_0. fold w. by rewrite block_func_all.
    - assert (Hn0 : n = 0) by lia. unfold w. rewrite Hn0. done. }
  rewrite Hstep. cbn [mbind option_bind]. set (rest := zdrop (n * block_size) inp) in *.
  assert (Hsplit : inp = w ++ rest) by (symmetry; apply ztake_zdrop).
  assert (Hmod : len w mod block_size = 0) by (rewrite Hw; apply Z.mod_mul; lia).
  destruct (Z.eqb_spec (len rest) 0) as [Hz|Hz]; cbn [negb].
  - do 2 eexists. split; [done|]. simpl. do 5 (split; [done || lia|]).
    exists w. rewrite ztake_0, app_nil_r. apply len_0_nil in Hz. rewrite Hz, app_nil_r in Hsplit. done.
  - rewrite store_at_ok by lia. cbn [mbind option_bind]. rewrite ztake_0, app_nil_l, Z.add_0_l.
    rewrite wrap_small by lia. do 2 eexists. split; [done|]. simpl. do 3 (split; [done|]).
    split; [rewrite len_app, len_zdrop by lia; lia|]. split; [lia|].
    exists w. by rewrite ztake_app_len.
Qed.

(** crypto_md32_update stays inside its buffers and absorbs the bytes it is given. *)
Lemma crypto_md32_update_absorbed iv m c inp :
  absorbed iv m c -> is_word (len inp) ->
  exists c', crypto_md32_update c inp = Some c' /\ absorbed iv (m ++ inp) c'.
Proof.
  intros (w & Hm & Hw & Hnum & Hd & Hh & HNl & HNh & Hbits) Hword. pose proof block_size_ok as Hbs.
  unfold crypto_md32_update. destruct (Z.eqb_spec (len inp) 0) as [Hz|Hz].
  { apply len_0_nil in Hz as ->. exists c. rewrite app_nil_r. split; [done|]. by exists w. }
  assert (Hlen : 0 <= len inp < 2 ^ 64) by (unfold is_word in Hword; platform; lia).
  pose proof (md32_count_spec (md_Nl c) (md_Nh c) (len m) (len inp) Hlen HNl HNh Hbits) as Hcount.
  destruct (md32_count (md_Nl c) (md_Nh c) (len inp)) as [Nl Nh]. destruct Hcount as (HNl' & HNh' & Hbits').
  rewrite <- len_app in Hbits'. set (t := ztake (md_num c) (md_data c)) in *.
  assert (Ht : len t = md_num c) by (apply len_ztake; lia).
  destruct (Z.eqb_spec (md_num c) 0) as [Hn|Hn]; cbn [negb].
  { destruct (md32_blocks_spec (md_h c) Nl Nh (md_data c) inp Hd)
      as (c' & data' & Hrun & E1 & E2 & E3 & Hd' & Hnum' & w' & Hin & Hw' & Hh').
    rewrite Hn. exists c'. split; [done|]. exists (w ++ w'). rewrite E3.
    assert (t = []) as Et by (apply len_0_nil; lia). rewrite Hm, Et, app_nil_r, Hin, <- app_assoc.
    split; [by rewrite <- Hin|]. split; [rewrite len_app, Z.add_mod, Hw, Hw' by lia; done|].
    split; [done|]. split; [done|]. split; [by rewrite absorb_all_app, <- Hh by done|].
    rewrite E1, E2. split; [done|]. split; [done|]. rewrite Hbits', Hm, Et, app_nil_r, Hin at 1. by rewrite <- Hin. }
  assert (Hcond : (block_size <=? len inp) || (block_size <=? wrap size_bits (len inp + md_num c))
    = (block_size <=? len inp + md_num c)).
  { destruct (Z.leb_spec block_size (len inp)); simpl; [by zcases; lia|].
    rewrite wrap_small; [done|]. platform; lia. }
  rewrite Hcond. destruct (Z.leb_spec block_size (len inp + md_num c)) as [Hfull|Hfull].
  - rewrite load_at_ok by lia. cbn [mbind option_bind]. rewrite zdrop_0.
    set (k := block_size - md_num c). set (chunk := ztake k inp).
    assert (Hk : len chunk = k) by (apply len_ztake; lia).
    rewrite store_at_ok by lia. cbn [mbind option_bind].
    assert (zdrop (md_num c + len chunk) (md_data c) = []) as ->.
    { apply len_0_nil. rewrite len_zdrop; lia. }
    rewrite app_nil_r. fold t. rewrite block_func_all by (rewrite ?len_app; lia).
    destruct (md32_blocks_spec (absorb_all (md_h c) (t ++ chunk)) Nl Nh (zeros block_size) (zdrop k inp))
      as (c' & data' & Hrun & E1 & E2 & E3 & Hd' & Hnum' & w' & Hin & Hw' & Hh'); [apply len_zero_bytes; lia|].
    exists c'. split; [done|]. exists ((w ++ t ++ chunk) ++ w'). rewrite E3.
    assert (Hmsg : m ++ inp = ((w ++ t ++ chunk) ++ w') ++ ztake (md_num c') data').
    { rewrite Hm, <- (ztake_zdrop k inp), Hin. fold chunk. by rewrite <- !app_assoc. }
    assert (Hb0 : len (t ++ chunk) mod block_size = 0).
    { rewrite len_app. replace (len t + len chunk) with block_size by lia. apply Z.mod_same. lia. }
    assert (Hb1 : len (w ++ t ++ chunk) mod block_size = 0) by (rewrite len_app, Z.add_mod, Hw, Hb0 by lia; done).
    split; [done|]. split; [rewrite len_app, Z.add_mod, Hb1, Hw' by lia; done|].
    split; [done|]. split; [done|]. split; [|by rewrite E1, E2].
    rewrite (absorb_all_app iv _ w') by done. by rewrite (absorb_all_app iv w), <- Hh by done.
  - rewrite store_at_ok by lia. cbn [mbind option_bind]. fold t.
    eexists. split; [done|]. exists w. cbn [md_h md_Nl md_Nh md_data md_num].
    rewrite (wrap_small 32 (len inp)), (wrap_small 32 (_ + _)) by lia.
    assert (ztake (md_num c + len inp) (t ++ inp ++ zdrop (md_num c + len inp) (md_data c)) = t ++ inp) as ->.
    { rewrite app_assoc. apply ztake_app_eq. rewrite len_app. lia. }
    split; [by rewrite Hm, <- app_assoc|]. split; [done|]. split; [lia|].
    split; [|done]. rewrite !len_app, len_zdrop by lia. lia.
Qed.

Lemma feed_absorbed iv m c pieces :
  absorbed iv m c -> Forall (fun p => is_word (len p)) pieces ->
  exists c', feed crypto_md32_update c pieces = Some c' /\ absorbed iv (m ++ concat pieces) c'.
Proof.
  revert m c. induction pieces as [|p ps IH]; intros m c Hc Hps; simpl.
  - exists c. by rewrite app_nil_r.
  - apply Forall_cons_iff in Hps as [Hp Hps].
    destruct (crypto_md32_update_absorbed iv m c p Hc Hp) as (c' & -> & Hc'). cbn [mbind option_bind].
    rewrite app_assoc. by apply IH.
Qed.

(** A context whose partial block is empty. *)
Definition fresh_ctx (iv : list Z) : md32_ctx :=
  {| md_h := iv; md_Nl := 0; md_Nh := 0; md_data := zeros block_size; md_num := 0 |}.

Lemma fresh_ctx_absorbed iv : absorbed iv [] (fresh_ctx iv).
Proof.
  pose proof block_size_ok. exists []. split; [done|]. split; [apply Z.mod_0_l; lia|]. split; [simpl; lia|].
  split; [apply len_zero_bytes; lia|]. split; [unfold absorb_all; rewrite (@len_nil Z), Z.div_0_l by lia; done|]. simpl. split; [lia|].
  split; [lia|done].
Qed.

(** The eight bytes that close the padding. *)
Lemma length_bytes_be Nh Nl n : 0 <= Nl < 2 ^ 32 -> 0 <= Nh < 2 ^ 32 -> Nh * 2 ^ 32 + Nl = wrap 64 n ->
  CRYPTO_store_u32_be Nh ++ CRYPTO_store_u32_be Nl = be_bytes 8 n.
Proof.
  intros Hl Hh E. unfold CRYPTO_store_u32_be. rewrite !bswap4_be by done.
  apply be_val_inj; [apply bytes_app; split; apply bytes_be_bytes|apply bytes_be_bytes| |].
  { by rewrite length_app, !length_be_bytes. }
  rewrite be_val_app, !be_val_be_bytes, len_be_bytes. change (256 ^ Z.of_nat 4) with (2 ^ 32).
  change (256 ^ Z.of_nat 8) with (2 ^ 64). rewrite !(Z.mod_small _ (2 ^ 32)) by lia. exact E.
Qed.

Lemma length_bytes_le Nh Nl n : 0 <= Nl < 2 ^ 32 -> 0 <= Nh < 2 ^ 32 -> Nh * 2 ^ 32 + Nl = wrap 64 n ->
  CRYPTO_store_u32_le Nl ++ CRYPTO_store_u32_le Nh = le_bytes 8 n.
Proof.
  intros Hl Hh E. unfold CRYPTO_store_u32_le.
  rewrite <- (reverse_involutive (le_bytes 8 n)), <- (reverse_involutive (_ ++ _)). f_equal.
  rewrite reverse_app. fold (be_bytes 8 n) (be_bytes 4 Nh) (be_bytes 4 Nl).
  rewrite <- (length_bytes_be Nh Nl n) by done. unfold CRYPTO_store_u32_be. by rewrite !bswap4_be by done.
Qed.

(** Filling a buffer from the front: a write at the end of a known prefix extends the prefix. *)
Lemma store_at_prefix d n s p : ztake n d = p -> 0 <= n -> n + len s <= len d ->
  exists d', store_at d n s = Some d' /\ ztake (n + len s) d' = p ++ s /\ len d' = len d.
Proof.
  intros <- Hn Hl. rewrite store_at_ok by done. eexists. split; [done|].
  pose proof (store_at_ok d n s Hn Hl) as E. split; [by apply (store_at_append d n s)|by apply (store_at_len d n s)].
Qed.

(** The two halves of the last block: [p] is what the block starts with, [n] its size. *)
Lemma md32_last_block be d n p Nh Nl m :
  len d = block_size -> ztake n d = p -> 0 <= n <= block_size - 8 ->
  0 <= Nl < 2 ^ 32 -> 0 <= Nh < 2 ^ 32 -> Nh * 2 ^ 32 + Nl = wrap 64 m ->
  (data ← store_at d n (zeros (block_size - 8 - n));
   (if be : bool
    then data ← store_at data (block_size - 8) (CRYPTO_store_u32_be Nh);
         store_at data (block_size - 4) (CRYPTO_store_u32_be Nl)
    else data ← store_at data (block_size - 8) (CRYPTO_store_u32_le Nl);
         store_at data (block_size - 4) (CRYPTO_store_u32_le Nh)))
  = Some (p ++ zeros (block_size - 8 - n) ++ (if be then be_bytes 8 m else le_bytes 8 m)).
Proof.
  intros Hd Hp Hn HNl HNh E. assert (Hz : len (zeros (block_size - 8 - n)) = block_size - 8 - n) by (apply len_zero_bytes; lia).
  destruct (store_at_prefix d n (zeros (block_size - 8 - n)) p) as (d1 & -> & P1 & L1); [done|lia..|].
  cbn [mbind option_bind]. rewrite Hz in P1. replace (n + (block_size - 8 - n)) with (block_size - 8) in P1 by lia.
  assert (H2 : forall a b, len a = 4 -> len b = 4 ->
    (data ← store_at d1 (block_size - 8) a; store_at data (block_size - 4) b)
    = Some (p ++ zeros (block_size - 8 - n) ++ a ++ b)).
  { intros a b Ha Hb. destruct (store_at_prefix d1 (block_size - 8) a _ P1) as (d2 & -> & P2 & L2); [lia..|].
    cbn [mbind option_bind]. rewrite Ha in P2. replace (block_size - 8 + 4) with (block_size - 4) in P2 by lia.
    destruct (store_at_prefix d2 (block_size - 4) b _ P2) as (d3 & -> & P3 & L3); [lia..|].
    f_equal. replace (block_size - 4 + len b) with (len d3) in P3 by lia. rewrite ztake_all in P3.
    by rewrite P3, <- !app_assoc. }
  destruct be; rewrite H2 by apply len_le_bytes;
    by rewrite ?(length_bytes_be Nh Nl m), ?(length_bytes_le Nh Nl m) by done.
Qed.

(** crypto_md32_final stays inside its buffers; it leaves the digest of the message in [h] and an
    empty, zeroed partial block. *)
Lemma crypto_md32_final_state iv m be c :
  absorbed iv m c ->
  exists c', crypto_md32_final be c = Some c' /\ md_h c' = md_state be iv m /\
    md_data c' = zeros block_size /\ md_num c' = 0.
Proof.
  intros (w & Hm & Hw & Hnum & Hd & Hh & HNl & HNh & Hbits). pose proof block_size_ok as Hbs.
  set (t := ztake (md_num c) (md_data c)) in *. set (n := md_num c) in *.
  assert (Ht : len t = n) by (apply len_ztake; lia).
  set (lb := if be then be_bytes 8 (8 * len m) else le_bytes 8 (8 * len m)).
  assert (Hlb : len lb = 8) by (unfold lb; destruct be; [apply len_be_bytes|apply len_le_bytes]).
  assert (Hmn : len m = len w + n) by (rewrite Hm, len_app; lia).
  assert (Hk : (- (len m + 9)) mod block_size = (- (n + 9)) mod block_size).
  { apply Z.mod_divide in Hw as [q Hq]; [|lia]. rewrite Hmn, Hq.
    replace (- (q * block_size + n + 9)) with (- (n + 9) + (- q) * block_size) by lia. by rewrite Z.mod_add by lia. }
  assert (Hstate : md_state be iv m = absorb_all (md_h c) (t ++ [0x80] ++ zeros ((- (n + 9)) mod block_size) ++ lb)).
  { unfold md_state, md_padding. fold lb. by rewrite Hk, Hm, <- app_assoc, absorb_all_app, <- Hh by done. }
  unfold crypto_md32_final. fold n.
  destruct (store_at_prefix (md_data c) n [0x80] t) as (d1 & -> & P1 & L1); [done|lia|change (len [0x80]) with 1; lia|].
  change (len [0x80]) with 1 in P1. cbn [mbind option_bind].
  destruct (Z.ltb_spec (block_size - 8) (n + 1)) as [Hbig|Hsmall].
  - assert (Hz : len (zeros (block_size - (n + 1))) = block_size - (n + 1)) by (apply len_zero_bytes; lia).
    destruct (store_at_prefix d1 (n + 1) (zeros (block_size - (n + 1))) _ P1) as (d2 & -> & P2 & L2); [lia..|].
    rewrite Hz in P2. replace (n + 1 + (block_size - (n + 1))) with (len d2) in P2 by lia. rewrite ztake_all in P2.
    cbn [mbind option_bind].
    assert (A1 : len d2 = block_size) by lia. assert (A2 : 0 <= 0 <= block_size - 8) by lia.
    pose proof (md32_last_block be d2 0 [] _ _ _ A1 (ztake_0 _) A2 HNl HNh Hbits) as E.
    rewrite Z.sub_0_r in E |- *. destruct (store_at d2 0 (zeros (block_size - 8))) as [d3|] eqn:E3; [|done].
    cbn [mbind option_bind] in E |- *. rewrite E. cbn [mbind option_bind].
    eexists. split; [done|]. cbn [md_h md_data md_num]. split; [|done].
    assert (Hp : (- (n + 9)) mod block_size = (block_size - (n + 1)) + (block_size - 8)).
    { symmetry. apply (Z.mod_unique _ _ (-2)); lia. }
    assert (Hz2 : zeros ((- (n + 9)) mod block_size) = zeros (block_size - (n + 1)) ++ zeros (block_size - 8)).
    { rewrite Hp. unfold zeros. rewrite Z2Nat.inj_add by lia. apply replicate_add. }
    assert (L2' : len d2 = block_size) by lia. assert (Hz8 : len (zeros (block_size - 8)) = block_size - 8) by (apply len_zero_bytes; lia).
    rewrite Hstate, Hz2. replace (t ++ [128] ++ (zeros (block_size - (n + 1)) ++ zeros (block_size - 8)) ++ lb)
      with (d2 ++ zeros (block_size - 8) ++ lb) by (rewrite P2, <- !app_assoc; done).
    rewrite (absorb_all_app _ d2) by (rewrite L2'; apply Z.mod_same; lia).
    fold lb. rewrite app_nil_l, !block_func_all by (rewrite ?len_app; lia). done.
  - cbn [mbind option_bind].
    assert (A1 : len d1 = block_size) by lia. assert (A2 : 0 <= n + 1 <= block_size - 8) by lia.
    pose proof (md32_last_block be d1 (n + 1) _ _ _ _ A1 P1 A2 HNl HNh Hbits) as E.
    destruct (store_at d1 (n + 1) (zeros (block_size - 8 - (n + 1)))) as [d3|] eqn:E3; [|done].
    cbn [mbind option_bind] in E |- *. rewrite E. cbn [mbind option_bind].
    eexists. split; [done|]. cbn [md_h md_data md_num]. split; [|done].
    assert (Hp : (- (n + 9)) mod block_size = block_size - 8 - (n + 1)).
    { symmetry. apply (Z.mod_unique _ _ (-1)); lia. }
    assert (Hz : len (zeros (block_size - 8 - (n + 1))) = block_size - 8 - (n + 1)) by (apply len_zero_bytes; lia).
    rewrite block_func_all; [|lia|fold lb; rewrite !len_app, len_cons, len_nil; lia].
    rewrite Hstate, Hp. fold lb. by rewrite <- !app_assoc.
Qed.

(** The padding completes at least one block, so a digest is an output of the compression function. *)
Lemma absorb_compress n h data : exists h' b, absorb block_size compress (S n) h data = compress h' b.
Proof. revert h data. induction n as [|n IH]; intros h data; [by do 2 eexists|]. apply IH. Qed.

Lemma md_state_compress be iv m : exists h b, md_state be iv m = compress h b.
Proof.
  pose proof block_size_ok. unfold md_state, absorb_all.
  assert (Hl : block_size <= len (m ++ md_padding be (len m))).
  { unfold md_padding. pose proof (len_nonneg m) as Hm. rewrite len_app, len_cons, len_app.
    pose proof (Z.mod_pos_bound (- (len m + 9)) block_size block_size_pos) as Hk.
    rewrite len_zero_bytes by lia.
    assert (len (if be then be_bytes 8 (8 * len m) else le_bytes 8 (8 * len m)) = 8) as ->
      by (destruct be; [apply len_be_bytes|apply len_le_bytes]).
    assert (Hd : (block_size | len m + 9 + (- (len m + 9)) mod block_size)).
    { apply Z.mod_divide; [lia|]. rewrite Z.add_mod_idemp_r by lia. by rewrite Z.add_opp_diag_r, Z.mod_0_l by lia. }
    apply Z.divide_pos_le in Hd; lia. }
  assert (0 < len (m ++ md_padding be (len m)) / block_size) by (apply Z.div_str_pos; lia).
  destruct (Z.to_nat _) as [|n] eqn:E; [lia|]. apply absorb_compress.
Qed.

(** The collector as a whole: the digest of a message does not depend on the pieces it comes in. *)
Lemma md32_digest be iv pieces :
  Forall (fun p => is_word (len p)) pieces ->
  exists c c', feed crypto_md32_update (fresh_ctx iv) pieces = Some c /\ crypto_md32_final be c = Some c' /\
    md_h c' = md_state be iv (concat pieces).
Proof.
  intros Hps. destruct (feed_absorbed iv [] _ pieces (fresh_ctx_absorbed iv) Hps) as (c & Hc & Ha).
  destruct (crypto_md32_final_state iv (concat pieces) be c Ha) as (c' & Hc' & Hh & _).
  by exists c, c'.
Qed.

End Collector.

(** ** What the block functions share *)

(** The last of [n + 1] blocks. *)
Lemma absorb_snoc bs f n h (P : list Z) : 0 <= bs ->
  absorb bs f (S n) h P = f (absorb bs f n h P) (ztake bs (zdrop (bs * Z.of_nat n) P)).
Proof.
  intros Hbs. revert h P. induction n as [|n IH]; intros h P; [simpl; by rewrite Z.mul_0_r|].
  change (absorb bs f (S (S n)) h P) with (absorb bs f (S n) (f h (ztake bs P)) (zdrop bs P)).
  rewrite IH. cbn [absorb]. do 2 f_equal. rewrite zdrop_zdrop by lia. f_equal. lia.
Qed.

(** Word [i] of the state, and the sixteen words of a block. *)
Definition word (h : list Z) (i : nat) : Z := nth i h 0.
Definition block_words (load : list Z -> Z) (block : list Z) : list Z :=
  (fun i => load (drop (4 * i) block)) <$> seq 0 16.

(** A message schedule: the words known so far, extended by [n] words that [next] computes. *)
Fixpoint schedule (next : list Z -> Z) (n : nat) (W : list Z) : list Z :=
  match n with
  | O => W
  | S n => schedule next n (W ++ [next W])
  end.

Lemma schedule_prefix next n W : exists W', schedule next n W = W ++ W' /\ length W' = n.
Proof.
  revert W. induction n as [|n IH]; intros W; [exists []; by rewrite app_nil_r|]. cbn [schedule].
  destruct (IH (W ++ [next W])) as (W' & -> & Hl). exists (next W :: W'). rewrite <- app_assoc. simpl. by rewrite Hl.
Qed.

Lemma word_schedule next n W t : (t < length W)%nat -> word (schedule next n W) t = word W t.
Proof. intros Ht. destruct (schedule_prefix next n W) as (W' & -> & _). unfold word. by rewrite app_nth1. Qed.

Lemma length_schedule next n W : length (schedule next n W) = (length W + n)%nat.
Proof. destruct (schedule_prefix next n W) as (W' & -> & Hl). by rewrite length_app, Hl. Qed.

(** Each word after the first ones is computed from those before it. *)
Lemma schedule_next next n W t : (length W <= t < length W + n)%nat ->
  word (schedule next n W) t = next (take t (schedule next n W)).
Proof.
  revert W. induction n as [|n IH]; intros W Ht; [lia|]. cbn [schedule].
  destruct (decide (t = length W)) as [->|Hne].
  - rewrite word_schedule by (rewrite length_app; simpl; lia).
    destruct (schedule_prefix next n (W ++ [next W])) as (W' & -> & _).
    rewrite <- app_assoc, take_app_length. unfold word. by rewrite app_nth2, Nat.sub_diag by lia.
  - apply IH. rewrite length_app. simpl. lia.
Qed.

Lemma word_take W t i : (i < t)%nat -> word (take t W) i = word W i.
Proof.
  intros Hi. unfold word. destruct (decide (i < length W)%nat).
  - rewrite <- (take_drop t W) at 2. rewrite app_nth1; [done|]. rewrite length_take. lia.
  - rewrite !nth_overflow; [done|lia|]. rewrite length_take. lia.
Qed.

(** A block function that runs one block after the other. *)
Lemma absorb_loop bs f (loop : nat -> list Z -> list Z -> list Z) :
  (forall h data, loop O h data = h) ->
  (forall n h data, bs <= len data -> loop (S n) h data = loop n (f h (ztake bs data)) (zdrop bs data)) ->
  0 <= bs -> forall n h data, len data = Z.of_nat n * bs -> loop n h data = absorb bs f n h data.
Proof.
  intros H0 HS Hbs n. induction n as [|n IH]; intros h data Hl; simpl; [done|].
  assert (bs <= len data) by nia. rewrite HS by done. apply IH. rewrite len_zdrop by lia. lia.
Qed.

Lemma load_le_block i (data : list Z) : (4 * i + 4 <= 64)%nat ->
  CRYPTO_load_u32_le (drop (4 * i) (ztake 64 data)) = CRYPTO_load_u32_le (drop (4 * i) data).
Proof.
  intros Hi. unfold CRYPTO_load_u32_le, ztake. f_equal.
  rewrite !take_drop_commute, take_take. do 2 f_equal. lia.
Qed.

Lemma load_be_block i (data : list Z) : (4 * i + 4 <= 64)%nat ->
  CRYPTO_load_u32_be (drop (4 * i) (ztake 64 data)) = CRYPTO_load_u32_be (drop (4 * i) data).
Proof. intros Hi. unfold CRYPTO_load_u32_be. f_equal. by apply load_le_block. Qed.

Lemma block_words_ztake load data :
  (forall i, (4 * i + 4 <= 64)%nat -> load (drop (4 * i) (ztake 64 data)) = load (drop (4 * i) data)) ->
  block_words load (ztake 64 data) = block_words load data.
Proof. intros H. unfold block_words. apply list_fmap_ext. intros i x Hx%lookup_seq. apply H. lia. Qed.

(** Straight-line code: [x <~ v ; k] assigns [v] to the variable [x] and goes on with [k]. *)
Definition assign {A B} (v : A) (k : A -> B) : B := k v.
Notation "x <~ v ; k" := (assign v (fun x => k)) (at level 20, v at level 100, k at level 200).
Notation "' x <~ v ; k" := (assign v (fun x => k)) (at level 20, x pattern, v at level 100, k at level 200).

Lemma assign_intro {A B} (v : A) (k : A -> B) r : (forall x, x = v -> k x = r) -> assign v k = r.
Proof. intros H. by apply H. Qed.

(** The next assignment. A pointer is substituted; any other variable is named [x] with the
    equation [E]. *)
Ltac next_assignment x E :=
  lazymatch goal with
  | |- assign (drop 4 ?d) ?k = _ =>
      apply assign_intro; intros x E;
      lazymatch d with
      | drop ?n ?d0 =>
          let m := eval cbv in (n + 4)%nat in
          rewrite (drop_drop d0 4 n) in E; change (n + 4)%nat with m in E
      | _ => idtac
      end;
      subst x
  | |- assign _ _ = _ => apply assign_intro; intros x E
  end; cbv beta.

(** The digest is the final state, a list of words, in big-endian order. *)
Definition words32 (v : list Z) : Prop := Forall (fun x => 0 <= x < 2 ^ 32) v.

Lemma store_words_be v : words32 v -> CRYPTO_store_u32_be <$> v = be_bytes 4 <$> v.
Proof. intros Hv. apply list_fmap_ext. intros i x Hx. apply bswap4_be. by apply (Forall_lookup_1 _ _ _ _ Hv Hx). Qed.
