(* ===== verification/Md4.v ===== *)
(** MD4: crypto/md4/md4.cc. The block function, whose rounds the source unrolls, is shown to be
    the compression function of RFC 1320. *)
From S2P Require Import Prelude.
From S2P Require Import Internal.
From S2P Require Import Heap.
From S2P Require Import Md32.

Open Scope Z_scope.

Definition md4_F (b c d : Z) : Z := Z.lxor (Z.land (Z.lxor c d) b) d.
Definition md4_G (b c d : Z) : Z := Z.lor (Z.lor (Z.land b c) (Z.land b d)) (Z.land c d).
Definition md4_H (b c d : Z) : Z := Z.lxor (Z.lxor b c) d.

Definition md4_R0 (a b c d k s t : Z) : Z :=
  let a := u32 (a + (k + t + md4_F b c d)) in
  CRYPTO_rotl_u32 a s.
Definition md4_R1 (a b c d k s t : Z) : Z :=
  let a := u32 (a + (k + t + md4_G b c d)) in
  CRYPTO_rotl_u32 a s.
Definition md4_R2 (a b c d k s t : Z) : Z :=
  let a := u32 (a + (k + t + md4_H b c d)) in
  CRYPTO_rotl_u32 a s.

(** The rounds of one iteration of md4_block_data_order: the four words and the advanced [data]. *)
Definition md4_rounds (A B C D : Z) (data : list Z) : Z * Z * Z * Z * list Z :=
  X0 <~ CRYPTO_load_u32_le data; data <~ drop 4 data; X1 <~ CRYPTO_load_u32_le data;
  data <~ drop 4 data;
  (* Round 0 *)
  A <~ md4_R0 A B C D X0 3 0; X2 <~ CRYPTO_load_u32_le data; data <~ drop 4 data;
  D <~ md4_R0 D A B C X1 7 0; X3 <~ CRYPTO_load_u32_le data; data <~ drop 4 data;
  C <~ md4_R0 C D A B X2 11 0; X4 <~ CRYPTO_load_u32_le data; data <~ drop 4 data;
  B <~ md4_R0 B C D A X3 19 0; X5 <~ CRYPTO_load_u32_le data; data <~ drop 4 data;
  A <~ md4_R0 A B C D X4 3 0; X6 <~ CRYPTO_load_u32_le data; data <~ drop 4 data;
  D <~ md4_R0 D A B C X5 7 0; X7 <~ CRYPTO_load_u32_le data; data <~ drop 4 data;
  C <~ md4_R0 C D A B X6 11 0; X8 <~ CRYPTO_load_u32_le data; data <~ drop 4 data;
  B <~ md4_R0 B C D A X7 19 0; X9 <~ CRYPTO_load_u32_le data; data <~ drop 4 data;
  A <~ md4_R0 A B C D X8 3 0; X10 <~ CRYPTO_load_u32_le data; data <~ drop 4 data;
  D <~ md4_R0 D A B C X9 7 0; X11 <~ CRYPTO_load_u32_le data; data <~ drop 4 data;
  C <~ md4_R0 C D A B X10 11 0; X12 <~ CRYPTO_load_u32_le data; data <~ drop 4 data;
  B <~ md4_R0 B C D A X11 19 0; X13 <~ CRYPTO_load_u32_le data; data <~ drop 4 data;
  A <~ md4_R0 A B C D X12 3 0; X14 <~ CRYPTO_load_u32_le data; data <~ drop 4 data;
  D <~ md4_R0 D A B C X13 7 0; X15 <~ CRYPTO_load_u32_le data; data <~ drop 4 data;
  C <~ md4_R0 C D A B X14 11 0; B <~ md4_R0 B C D A X15 19 0;
  (* Round 1 *)
  A <~ md4_R1 A B C D X0 3 0x5A827999; D <~ md4_R1 D A B C X4 5 0x5A827999;
  C <~ md4_R1 C D A B X8 9 0x5A827999; B <~ md4_R1 B C D A X12 13 0x5A827999;
  A <~ md4_R1 A B C D X1 3 0x5A827999; D <~ md4_R1 D A B C X5 5 0x5A827999;
  C <~ md4_R1 C D A B X9 9 0x5A827999; B <~ md4_R1 B C D A X13 13 0x5A827999;
  A <~ md4_R1 A B C D X2 3 0x5A827999; D <~ md4_R1 D A B C X6 5 0x5A827999;
  C <~ md4_R1 C D A B X10 9 0x5A827999; B <~ md4_R1 B C D A X14 13 0x5A827999;
  A <~ md4_R1 A B C D X3 3 0x5A827999; D <~ md4_R1 D A B C X7 5 0x5A827999;
  C <~ md4_R1 C D A B X11 9 0x5A827999; B <~ md4_R1 B C D A X15 13 0x5A827999;
  (* Round 2 *)
  A <~ md4_R2 A B C D X0 3 0x6ED9EBA1; D <~ md4_R2 D A B C X8 9 0x6ED9EBA1;
  C <~ md4_R2 C D A B X4 11 0x6ED9EBA1; B <~ md4_R2 B C D A X12 15 0x6ED9EBA1;
  A <~ md4_R2 A B C D X2 3 0x6ED9EBA1; D <~ md4_R2 D A B C X10 9 0x6ED9EBA1;
  C <~ md4_R2 C D A B X6 11 0x6ED9EBA1; B <~ md4_R2 B C D A X14 15 0x6ED9EBA1;
  A <~ md4_R2 A B C D X1 3 0x6ED9EBA1; D <~ md4_R2 D A B C X9 9 0x6ED9EBA1;
  C <~ md4_R2 C D A B X5 11 0x6ED9EBA1; B <~ md4_R2 B C D A X13 15 0x6ED9EBA1;
  A <~ md4_R2 A B C D X3 3 0x6ED9EBA1; D <~ md4_R2 D A B C X11 9 0x6ED9EBA1;
  C <~ md4_R2 C D A B X7 11 0x6ED9EBA1; B <~ md4_R2 B C D A X15 15 0x6ED9EBA1;
  (A, B, C, D, data).

Fixpoint md4_loop (num : nat) (state : list Z) (A B C D : Z) (data : list Z) : list Z :=
  match num with
  | O => state
  | S num =>
      let '(A, B, C, D, data) := md4_rounds A B C D data in
      let A := u32 (word state 0 + A) in
      let B := u32 (word state 1 + B) in
      let C := u32 (word state 2 + C) in
      let D := u32 (word state 3 + D) in
      md4_loop num [A; B; C; D] A B C D data
  end.

Definition md4_block_data_order (state data : list Z) (num : Z) : list Z :=
  md4_loop (Z.to_nat num) state (word state 0) (word state 1) (word state 2) (word state 3) data.

(** ** The compression function of RFC 1320 *)

(** The auxiliary functions, by cases on the bits: a conditional, a majority, a parity. *)
Definition md4_spec_fun (round : nat) (x y z : Z) : Z :=
  match round with
  | O => Z.lor (Z.land x y) (Z.land (Z.lnot x) z)
  | 1%nat => Z.lor (Z.lor (Z.land x y) (Z.land x z)) (Z.land y z)
  | _ => Z.lxor (Z.lxor x y) z
  end.

(** The additive constants are the square roots of 2 and 3, to 30 bits after the point. *)
Definition md4_spec_const (round : nat) : Z :=
  match round with O => 0 | 1%nat => Z.sqrt (2 * 2 ^ 60) | _ => Z.sqrt (3 * 2 ^ 60) end.

Definition md4_spec_index (round j : nat) : nat :=
  match round with
  | O => j
  | 1%nat => nth j [0; 4; 8; 12; 1; 5; 9; 13; 2; 6; 10; 14; 3; 7; 11; 15] 0
  | _ => nth j [0; 8; 4; 12; 2; 10; 6; 14; 1; 9; 5; 13; 3; 11; 7; 15] 0
  end%nat.

Definition md4_spec_shift (round j : nat) : Z :=
  nth (j mod 4) (match round with O => [3; 7; 11; 19] | 1%nat => [3; 5; 9; 13] | _ => [3; 9; 11; 15] end) 0.

Definition md4_spec_step (X : list Z) (st : Z * Z * Z * Z) (i : nat) : Z * Z * Z * Z :=
  let '(a, b, c, d) := st in
  let round := Nat.div i 16 in
  let j := Nat.modulo i 16 in
  (d, CRYPTO_rotl_u32 (u32 (a + md4_spec_fun round b c d + nth (md4_spec_index round j) X 0 + md4_spec_const round)) (md4_spec_shift round j), b, c).

Definition md4_compress (h block : list Z) : list Z :=
  let '(a, b, c, d) :=
    fold_left (md4_spec_step (block_words CRYPTO_load_u32_le block)) (seq 0 48) (word h 0, word h 1, word h 2, word h 3) in
  [u32 (word h 0 + a); u32 (word h 1 + b); u32 (word h 2 + c); u32 (word h 3 + d)].

(** ** The unrolled rounds are the steps of the reference *)

Lemma md4_F_spec b c d : md4_F b c d = md4_spec_fun 0 b c d.
Proof.
  apply Z.bits_inj'. intros i Hi. unfold md4_F, md4_spec_fun.
  rewrite Z.lor_spec, Z.lxor_spec, !Z.land_spec, Z.lxor_spec, Z.lnot_spec by done.
  by destruct (Z.testbit b i), (Z.testbit c i), (Z.testbit d i).
Qed.

Definition md4_op (round : nat) (a b c d k s : Z) : Z :=
  CRYPTO_rotl_u32 (u32 (a + md4_spec_fun round b c d + k + md4_spec_const round)) s.
Lemma md4_R0_op a b c d k s : md4_R0 a b c d k s 0 = md4_op 0 a b c d k s.
Proof. unfold md4_R0, md4_op. rewrite md4_F_spec. do 2 f_equal. unfold md4_spec_const. lia. Qed.
Lemma md4_R1_op a b c d k s : md4_R1 a b c d k s 0x5A827999 = md4_op 1 a b c d k s.
Proof. unfold md4_R1, md4_op. do 2 f_equal. change (md4_G b c d) with (md4_spec_fun 1 b c d). change (md4_spec_const 1) with 0x5A827999. lia. Qed.
Lemma md4_R2_op a b c d k s : md4_R2 a b c d k s 0x6ED9EBA1 = md4_op 2 a b c d k s.
Proof. unfold md4_R2, md4_op. do 2 f_equal. change (md4_H b c d) with (md4_spec_fun 2 b c d). change (md4_spec_const 2) with 0x6ED9EBA1. lia. Qed.

#[local] Hint Rewrite md4_R0_op md4_R1_op md4_R2_op : md4.

Lemma md4_spec_step_op x0 x1 x2 x3 x4 x5 x6 x7 x8 x9 x10 x11 x12 x13 x14 x15 a b c d i l :
  let X := [x0; x1; x2; x3; x4; x5; x6; x7; x8; x9; x10; x11; x12; x13; x14; x15] in
  fold_left (md4_spec_step X) (i :: l) (a, b, c, d)
  = fold_left (md4_spec_step X) l
      (d, md4_op (Nat.div i 16) a b c d (nth (md4_spec_index (Nat.div i 16) (Nat.modulo i 16)) X 0)
             (md4_spec_shift (Nat.div i 16) (Nat.modulo i 16)), b, c).
Proof. done. Qed.

(** One unrolled assignment, a load or a round, against the reference [Hr]. *)
Ltac md4_assignment Hr :=
  let x := fresh "x" in let E := fresh "E" in
  next_assignment x E;
  try lazymatch type of E with
  | _ = CRYPTO_load_u32_le _ => rewrite <- E in Hr; clear E
  | _ =>
      autorewrite with md4 in E; rewrite md4_spec_step_op in Hr;
      cbn [Nat.div Nat.modulo Nat.divmod fst snd Nat.sub md4_spec_index md4_spec_shift nth] in Hr;
      rewrite <- E in Hr; clear E
  end.

Lemma md4_rounds_spec A B C D data :
  md4_rounds A B C D data
  = (fold_left (md4_spec_step (block_words CRYPTO_load_u32_le data)) (seq 0 48) (A, B, C, D), drop 64 data).
Proof.
  remember (fold_left _ _ _, drop 64 data) as r eqn:Hr. unfold block_words in Hr.
  cbn [seq fmap list_fmap Nat.mul Nat.add] in Hr. rewrite (drop_0 data) in Hr.
  unfold md4_rounds.
  repeat md4_assignment Hr. by rewrite Hr.
Qed.

Lemma md4_loop_absorb n state data :
  len data = Z.of_nat n * 64 ->
  md4_loop n state (word state 0) (word state 1) (word state 2) (word state 3) data = absorb 64 md4_compress n state data.
Proof.
  apply (absorb_loop 64 md4_compress
    (fun n state data => md4_loop n state (word state 0) (word state 1) (word state 2) (word state 3) data)); [done| |lia].
  intros k h d Hd. cbn [md4_loop]. rewrite md4_rounds_spec. unfold md4_compress.
  rewrite block_words_ztake by (intros; by apply load_le_block).
  by destruct (fold_left _ _ _) as [[[a b] c] e].
Qed.

(** The block function of MD4, as the collector uses it. *)
#[refine] Definition md4 : Md32 := {|
  block_size := 64;
  compress := md4_compress;
  block_func := md4_block_data_order;
|}.
Proof.
  - lia.
  - intros h data n Hn Hl. apply md4_loop_absorb. lia.
Defined.

(** ** The interface *)
Section Digest.
Context `{PF : Platform}.

Definition MD4_Init : md32_ctx :=
  {| md_h := [0x67452301; 0xefcdab89; 0x98badcfe; 0x10325476]; md_Nl := 0; md_Nh := 0;
     md_data := zeros 64; md_num := 0 |}.

Definition MD4_Transform (c : md32_ctx) (data : list Z) : md32_ctx :=
  {| md_h := md4_block_data_order (md_h c) data 1; md_Nl := md_Nl c; md_Nh := md_Nh c;
     md_data := md_data c; md_num := md_num c |}.

Definition MD4_Update (c : md32_ctx) (data : list Z) : option md32_ctx :=
  crypto_md32_update (MD := md4) c data.

Definition MD4_Final (c : md32_ctx) : option (list Z * md32_ctx) :=
  c ← crypto_md32_final (MD := md4) false c;
  Some (CRYPTO_store_u32_le (word (md_h c) 0) ++ CRYPTO_store_u32_le (word (md_h c) 1) ++
        CRYPTO_store_u32_le (word (md_h c) 2) ++ CRYPTO_store_u32_le (word (md_h c) 3), c).

Definition MD4 (data : list Z) : option (list Z) :=
  let ctx := MD4_Init in
  ctx ← MD4_Update ctx data;
  '(out, _) ← MD4_Final ctx;
  Some out.

(** The reference: the registers as RFC 1320 gives them, low-order bytes first, and the words of the
    final state in the same order. *)
Definition md4_iv : list Z :=
  le_val <$> [[0x01; 0x23; 0x45; 0x67]; [0x89; 0xab; 0xcd; 0xef]; [0xfe; 0xdc; 0xba; 0x98]; [0x76; 0x54; 0x32; 0x10]].
Definition md4_hash (m : list Z) : list Z := concat (le_bytes 4 <$> md_state (MD := md4) false md4_iv m).

Lemma md4_compress_4 h b : exists x y z t, md4_compress h b = [x; y; z; t].
Proof. unfold md4_compress. destruct (fold_left _ _ _) as [[[a c] d] e]. by do 4 eexists. Qed.

Lemma MD4_digest pieces : Forall (fun p => is_word (len p)) pieces ->
  (c ← feed MD4_Update MD4_Init pieces; '(out, _) ← MD4_Final c; Some out) = Some (md4_hash (concat pieces)).
Proof.
  intros Hps. destruct (md32_digest (MD := md4) false md4_iv pieces Hps) as (c & c' & E1 & E2 & Eh).
  change (feed MD4_Update MD4_Init pieces = Some c) in E1. rewrite E1. cbn [mbind option_bind].
  unfold MD4_Final. rewrite E2. cbn [mbind option_bind]. rewrite Eh. unfold md4_hash.
  destruct (md_state_compress (MD := md4) false md4_iv (concat pieces)) as (h & b & ->).
  destruct (md4_compress_4 h b) as (x & y & z & t & E'). change (@compress md4) with md4_compress.
  rewrite E'. cbn [fmap list_fmap concat word nth]. by rewrite app_nil_r.
Qed.

End Digest.

(** "abc" *)
Example md4_abc : MD4 (PF := LP64) [0x61; 0x62; 0x63] =
  Some [0xa4; 0x48; 0x01; 0x7a; 0xaf; 0x21; 0xd8; 0x52; 0x5f; 0xc1; 0x0a; 0xe8; 0x7a; 0xa6; 0x72; 0x9d].
Proof. vm_compute. reflexivity. Qed.
