(* ===== verification/Md5.v ===== *)
(** MD5: crypto/md5/md5.cc. The block function, whose rounds the source unrolls, is shown to be
    the compression function of RFC 1321, whose table of constants is computed from the sine. *)
From S2P Require Import Prelude.
From S2P Require Import Internal.
From S2P Require Import Heap.
From S2P Require Import Md32.

Open Scope Z_scope.

Definition md5_F (b c d : Z) : Z := Z.lxor (Z.land (Z.lxor c d) b) d.
Definition md5_G (b c d : Z) : Z := Z.lxor (Z.land (Z.lxor b c) d) c.
Definition md5_H (b c d : Z) : Z := Z.lxor (Z.lxor b c) d.
Definition md5_I (b c d : Z) : Z := Z.lxor (Z.lor (wnot 32 d) b) c.

Definition md5_R0 (a b c d k s t : Z) : Z :=
  let a := u32 (a + (k + t + md5_F b c d)) in
  let a := CRYPTO_rotl_u32 a s in
  u32 (a + b).
Definition md5_R1 (a b c d k s t : Z) : Z :=
  let a := u32 (a + (k + t + md5_G b c d)) in
  let a := CRYPTO_rotl_u32 a s in
  u32 (a + b).
Definition md5_R2 (a b c d k s t : Z) : Z :=
  let a := u32 (a + (k + t + md5_H b c d)) in
  let a := CRYPTO_rotl_u32 a s in
  u32 (a + b).
Definition md5_R3 (a b c d k s t : Z) : Z :=
  let a := u32 (a + (k + t + md5_I b c d)) in
  let a := CRYPTO_rotl_u32 a s in
  u32 (a + b).

(** The rounds of one iteration of md5_block_data_order: the four words and the advanced [data]. *)
Definition md5_rounds (A B C D : Z) (data : list Z) : Z * Z * Z * Z * list Z :=
  X0 <~ CRYPTO_load_u32_le data; data <~ drop 4 data; X1 <~ CRYPTO_load_u32_le data;
  data <~ drop 4 data;
  (* Round 0 *)
  A <~ md5_R0 A B C D X0 7 0xd76aa478; X2 <~ CRYPTO_load_u32_le data; data <~ drop 4 data;
  D <~ md5_R0 D A B C X1 12 0xe8c7b756; X3 <~ CRYPTO_load_u32_le data; data <~ drop 4 data;
  C <~ md5_R0 C D A B X2 17 0x242070db; X4 <~ CRYPTO_load_u32_le data; data <~ drop 4 data;
  B <~ md5_R0 B C D A X3 22 0xc1bdceee; X5 <~ CRYPTO_load_u32_le data; data <~ drop 4 data;
  A <~ md5_R0 A B C D X4 7 0xf57c0faf; X6 <~ CRYPTO_load_u32_le data; data <~ drop 4 data;
  D <~ md5_R0 D A B C X5 12 0x4787c62a; X7 <~ CRYPTO_load_u32_le data; data <~ drop 4 data;
  C <~ md5_R0 C D A B X6 17 0xa8304613; X8 <~ CRYPTO_load_u32_le data; data <~ drop 4 data;
  B <~ md5_R0 B C D A X7 22 0xfd469501; X9 <~ CRYPTO_load_u32_le data; data <~ drop 4 data;
  A <~ md5_R0 A B C D X8 7 0x698098d8; X10 <~ CRYPTO_load_u32_le data; data <~ drop 4 data;
  D <~ md5_R0 D A B C X9 12 0x8b44f7af; X11 <~ CRYPTO_load_u32_le data; data <~ drop 4 data;
  C <~ md5_R0 C D A B X10 17 0xffff5bb1; X12 <~ CRYPTO_load_u32_le data; data <~ drop 4 data;
  B <~ md5_R0 B C D A X11 22 0x895cd7be; X13 <~ CRYPTO_load_u32_le data; data <~ drop 4 data;
  A <~ md5_R0 A B C D X12 7 0x6b901122; X14 <~ CRYPTO_load_u32_le data; data <~ drop 4 data;
  D <~ md5_R0 D A B C X13 12 0xfd987193; X15 <~ CRYPTO_load_u32_le data; data <~ drop 4 data;
  C <~ md5_R0 C D A B X14 17 0xa679438e; B <~ md5_R0 B C D A X15 22 0x49b40821;
  (* Round 1 *)
  A <~ md5_R1 A B C D X1 5 0xf61e2562; D <~ md5_R1 D A B C X6 9 0xc040b340;
  C <~ md5_R1 C D A B X11 14 0x265e5a51; B <~ md5_R1 B C D A X0 20 0xe9b6c7aa;
  A <~ md5_R1 A B C D X5 5 0xd62f105d; D <~ md5_R1 D A B C X10 9 0x02441453;
  C <~ md5_R1 C D A B X15 14 0xd8a1e681; B <~ md5_R1 B C D A X4 20 0xe7d3fbc8;
  A <~ md5_R1 A B C D X9 5 0x21e1cde6; D <~ md5_R1 D A B C X14 9 0xc33707d6;
  C <~ md5_R1 C D A B X3 14 0xf4d50d87; B <~ md5_R1 B C D A X8 20 0x455a14ed;
  A <~ md5_R1 A B C D X13 5 0xa9e3e905; D <~ md5_R1 D A B C X2 9 0xfcefa3f8;
  C <~ md5_R1 C D A B X7 14 0x676f02d9; B <~ md5_R1 B C D A X12 20 0x8d2a4c8a;
  (* Round 2 *)
  A <~ md5_R2 A B C D X5 4 0xfffa3942; D <~ md5_R2 D A B C X8 11 0x8771f681;
  C <~ md5_R2 C D A B X11 16 0x6d9d6122; B <~ md5_R2 B C D A X14 23 0xfde5380c;
  A <~ md5_R2 A B C D X1 4 0xa4beea44; D <~ md5_R2 D A B C X4 11 0x4bdecfa9;
  C <~ md5_R2 C D A B X7 16 0xf6bb4b60; B <~ md5_R2 B C D A X10 23 0xbebfbc70;
  A <~ md5_R2 A B C D X13 4 0x289b7ec6; D <~ md5_R2 D A B C X0 11 0xeaa127fa;
  C <~ md5_R2 C D A B X3 16 0xd4ef3085; B <~ md5_R2 B C D A X6 23 0x04881d05;
  A <~ md5_R2 A B C D X9 4 0xd9d4d039; D <~ md5_R2 D A B C X12 11 0xe6db99e5;
  C <~ md5_R2 C D A B X15 16 0x1fa27cf8; B <~ md5_R2 B C D A X2 23 0xc4ac5665;
  (* Round 3 *)
  A <~ md5_R3 A B C D X0 6 0xf4292244; D <~ md5_R3 D A B C X7 10 0x432aff97;
  C <~ md5_R3 C D A B X14 15 0xab9423a7; B <~ md5_R3 B C D A X5 21 0xfc93a039;
  A <~ md5_R3 A B C D X12 6 0x655b59c3; D <~ md5_R3 D A B C X3 10 0x8f0ccc92;
  C <~ md5_R3 C D A B X10 15 0xffeff47d; B <~ md5_R3 B C D A X1 21 0x85845dd1;
  A <~ md5_R3 A B C D X8 6 0x6fa87e4f; D <~ md5_R3 D A B C X15 10 0xfe2ce6e0;
  C <~ md5_R3 C D A B X6 15 0xa3014314; B <~ md5_R3 B C D A X13 21 0x4e0811a1;
  A <~ md5_R3 A B C D X4 6 0xf7537e82; D <~ md5_R3 D A B C X11 10 0xbd3af235;
  C <~ md5_R3 C D A B X2 15 0x2ad7d2bb; B <~ md5_R3 B C D A X9 21 0xeb86d391;
  (A, B, C, D, data).

Fixpoint md5_loop (num : nat) (state : list Z) (A B C D : Z) (data : list Z) : list Z :=
  match num with
  | O => state
  | S num =>
      let '(A, B, C, D, data) := md5_rounds A B C D data in
      let A := u32 (word state 0 + A) in
      let B := u32 (word state 1 + B) in
      let C := u32 (word state 2 + C) in
      let D := u32 (word state 3 + D) in
      md5_loop num [A; B; C; D] A B C D data
  end.

Definition md5_block_data_order (state data : list Z) (num : Z) : list Z :=
  md5_loop (Z.to_nat num) state (word state 0) (word state 1) (word state 2) (word state 3) data.

(** ** The compression function of RFC 1321 *)

Definition md5_spec_fun (round : nat) (x y z : Z) : Z :=
  match round with
  | O => Z.lor (Z.land x y) (Z.land (wnot 32 x) z)
  | 1%nat => Z.lor (Z.land x z) (Z.land y (wnot 32 z))
  | 2%nat => Z.lxor (Z.lxor x y) z
  | _ => Z.lxor y (Z.lor x (wnot 32 z))
  end.

(** The sine of [x] radians in fixed point, [2^300] for one, from its series: [term] is
    [x^k / k!] with its sign. A hundred and fifty terms are enough for [x] up to 64. *)
Fixpoint sine_series (n : nat) (x k term : Z) : Z :=
  match n with
  | O => 0
  | S n => term + sine_series n x (k + 2) (- (term * x * x / ((k + 1) * (k + 2))))
  end.
Definition sine (x : Z) : Z := sine_series 150 x 1 (x * 2 ^ 300).

(** The table: the integer part of [2^32 * abs (sin (i + 1))]. *)
Definition sine_table : list Z := (fun i => Z.abs (sine (Z.of_nat i + 1)) / 2 ^ 268) <$> seq 0 64.

Definition md5_spec_index (round j : nat) : nat :=
  match round with
  | O => j
  | 1%nat => (5 * j + 1) mod 16
  | 2%nat => (3 * j + 5) mod 16
  | _ => (7 * j) mod 16
  end%nat.

Definition md5_spec_shift (round j : nat) : Z :=
  nth (j mod 4) (match round with
                 | O => [7; 12; 17; 22] | 1%nat => [5; 9; 14; 20] | 2%nat => [4; 11; 16; 23] | _ => [6; 10; 15; 21]
                 end) 0.

Definition md5_op (round : nat) (a b c d k s t : Z) : Z :=
  u32 (b + CRYPTO_rotl_u32 (u32 (a + md5_spec_fun round b c d + k + t)) s).

Definition md5_spec_step (T X : list Z) (st : Z * Z * Z * Z) (i : nat) : Z * Z * Z * Z :=
  let '(a, b, c, d) := st in
  let round := Nat.div i 16 in
  let j := Nat.modulo i 16 in
  (d, md5_op round a b c d (nth (md5_spec_index round j) X 0) (md5_spec_shift round j) (nth i T 0), b, c).

Definition md5_compress (h block : list Z) : list Z :=
  let '(a, b, c, d) :=
    fold_left (md5_spec_step sine_table (block_words CRYPTO_load_u32_le block)) (seq 0 64)
      (word h 0, word h 1, word h 2, word h 3) in
  [u32 (word h 0 + a); u32 (word h 1 + b); u32 (word h 2 + c); u32 (word h 3 + d)].

(** ** The unrolled rounds are the steps of the reference *)

(** Two sums that agree on their low 32 bits. *)
Lemma wrap32_ext x y : (forall i, 0 <= i < 32 -> Z.testbit x i = Z.testbit y i) -> u32 x = u32 y.
Proof.
  intros E. apply Z.bits_inj'. intros i Hi. rewrite !wrap_testbit by lia.
  destruct (Z.ltb_spec i 32); [|done]. apply E. lia.
Qed.

Ltac bits32 f :=
  apply wrap32_ext; intros i Hi; unfold f, md5_spec_fun;
  repeat (rewrite Z.lor_spec || rewrite Z.lxor_spec || rewrite Z.land_spec || rewrite wnot_testbit by lia);
  rewrite ?(proj2 (Z.ltb_lt i 32)) by lia;
  repeat match goal with |- context [Z.testbit ?x i] => destruct (Z.testbit x i) end; reflexivity.

Lemma md5_F_spec b c d : u32 (md5_F b c d) = u32 (md5_spec_fun 0 b c d).
Proof. bits32 md5_F. Qed.
Lemma md5_G_spec b c d : u32 (md5_G b c d) = u32 (md5_spec_fun 1 b c d).
Proof. bits32 md5_G. Qed.
Lemma md5_I_spec b c d : u32 (md5_I b c d) = u32 (md5_spec_fun 3 b c d).
Proof. bits32 md5_I. Qed.

Lemma md5_round_op round f a b c d k s t :
  u32 (f b c d) = u32 (md5_spec_fun round b c d) ->
  u32 (CRYPTO_rotl_u32 (u32 (a + (k + t + f b c d))) s + b) = md5_op round a b c d k s t.
Proof.
  intros E. unfold md5_op. rewrite (Z.add_comm b).
  assert (u32 (a + (k + t + f b c d)) = u32 (a + md5_spec_fun round b c d + k + t)) as ->; [|done].
  replace (a + (k + t + f b c d)) with (a + k + t + f b c d) by lia.
  rewrite <- (wrap_add_r 32 _ (f b c d)), E, wrap_add_r. f_equal. lia.
Qed.

Lemma md5_R0_op a b c d k s t : md5_R0 a b c d k s t = md5_op 0 a b c d k s t.
Proof. apply md5_round_op, md5_F_spec. Qed.
Lemma md5_R1_op a b c d k s t : md5_R1 a b c d k s t = md5_op 1 a b c d k s t.
Proof. apply md5_round_op, md5_G_spec. Qed.
Lemma md5_R2_op a b c d k s t : md5_R2 a b c d k s t = md5_op 2 a b c d k s t.
Proof. by apply md5_round_op. Qed.
Lemma md5_R3_op a b c d k s t : md5_R3 a b c d k s t = md5_op 3 a b c d k s t.
Proof. apply md5_round_op, md5_I_spec. Qed.

#[local] Hint Rewrite md5_R0_op md5_R1_op md5_R2_op md5_R3_op : md5.

Lemma md5_spec_step_op T x0 x1 x2 x3 x4 x5 x6 x7 x8 x9 x10 x11 x12 x13 x14 x15 a b c d i l :
  let X := [x0; x1; x2; x3; x4; x5; x6; x7; x8; x9; x10; x11; x12; x13; x14; x15] in
  fold_left (md5_spec_step T X) (i :: l) (a, b, c, d)
  = fold_left (md5_spec_step T X) l
      (d, md5_op (Nat.div i 16) a b c d (nth (md5_spec_index (Nat.div i 16) (Nat.modulo i 16)) X 0)
             (md5_spec_shift (Nat.div i 16) (Nat.modulo i 16)) (nth i T 0), b, c).
Proof. done. Qed.

(** One unrolled assignment, a load or a round, against the reference [Hr]. *)
Ltac md5_assignment Hr :=
  let x := fresh "x" in let E := fresh "E" in
  next_assignment x E;
  try lazymatch type of E with
  | _ = CRYPTO_load_u32_le _ => rewrite <- E in Hr; clear E
  | _ =>
      autorewrite with md5 in E; rewrite md5_spec_step_op in Hr;
      cbn [Nat.mul Nat.add Nat.div Nat.modulo Nat.divmod fst snd Nat.sub md5_spec_index md5_spec_shift nth] in Hr;
      rewrite <- E in Hr; clear E
  end.

(** The constants of the source are the table. *)
Lemma sine_table_eq : sine_table = [
   0xd76aa478; 0xe8c7b756; 0x242070db; 0xc1bdceee; 0xf57c0faf; 0x4787c62a; 0xa8304613; 0xfd469501;
   0x698098d8; 0x8b44f7af; 0xffff5bb1; 0x895cd7be; 0x6b901122; 0xfd987193; 0xa679438e; 0x49b40821;
   0xf61e2562; 0xc040b340; 0x265e5a51; 0xe9b6c7aa; 0xd62f105d; 0x02441453; 0xd8a1e681; 0xe7d3fbc8;
   0x21e1cde6; 0xc33707d6; 0xf4d50d87; 0x455a14ed; 0xa9e3e905; 0xfcefa3f8; 0x676f02d9; 0x8d2a4c8a;
   0xfffa3942; 0x8771f681; 0x6d9d6122; 0xfde5380c; 0xa4beea44; 0x4bdecfa9; 0xf6bb4b60; 0xbebfbc70;
   0x289b7ec6; 0xeaa127fa; 0xd4ef3085; 0x04881d05; 0xd9d4d039; 0xe6db99e5; 0x1fa27cf8; 0xc4ac5665;
   0xf4292244; 0x432aff97; 0xab9423a7; 0xfc93a039; 0x655b59c3; 0x8f0ccc92; 0xffeff47d; 0x85845dd1;
   0x6fa87e4f; 0xfe2ce6e0; 0xa3014314; 0x4e0811a1; 0xf7537e82; 0xbd3af235; 0x2ad7d2bb; 0xeb86d391].
Proof. vm_compute. reflexivity. Qed.

Lemma md5_rounds_spec A B C D data :
  md5_rounds A B C D data
  = (fold_left (md5_spec_step sine_table (block_words CRYPTO_load_u32_le data)) (seq 0 64) (A, B, C, D), drop 64 data).
Proof.
  remember (fold_left _ _ _, drop 64 data) as r eqn:Hr. unfold block_words in Hr.
  rewrite sine_table_eq in Hr.
  cbn [seq fmap list_fmap Nat.mul Nat.add] in Hr. rewrite (drop_0 data) in Hr.
  unfold md5_rounds.
  repeat md5_assignment Hr. by rewrite Hr.
Qed.

Lemma md5_loop_absorb n state data :
  len data = Z.of_nat n * 64 ->
  md5_loop n state (word state 0) (word state 1) (word state 2) (word state 3) data = absorb 64 md5_compress n state data.
Proof.
  apply (absorb_loop 64 md5_compress
    (fun n state data => md5_loop n state (word state 0) (word state 1) (word state 2) (word state 3) data)); [done| |lia].
  intros k h d Hd. cbn [md5_loop]. rewrite md5_rounds_spec. unfold md5_compress.
  rewrite block_words_ztake by (intros; by apply load_le_block).
  by destruct (fold_left _ _ _) as [[[a b] c] e].
Qed.

(** The block function of MD5, as the collector uses it. *)
#[refine] Definition md5 : Md32 := {|
  block_size := 64;
  compress := md5_compress;
  block_func := md5_block_data_order;
|}.
Proof.
  - lia.
  - intros h data n Hn Hl. apply md5_loop_absorb. lia.
Defined.

(** ** The interface *)
Section Digest.
Context `{PF : Platform}.

Definition MD5_Init : md32_ctx :=
  {| md_h := [0x67452301; 0xefcdab89; 0x98badcfe; 0x10325476]; md_Nl := 0; md_Nh := 0;
     md_data := zeros 64; md_num := 0 |}.

Definition MD5_Transform (c : md32_ctx) (data : list Z) : md32_ctx :=
  {| md_h := md5_block_data_order (md_h c) data 1; md_Nl := md_Nl c; md_Nh := md_Nh c;
     md_data := md_data c; md_num := md_num c |}.

Definition MD5_Update (c : md32_ctx) (data : list Z) : option md32_ctx :=
  crypto_md32_update (MD := md5) c data.

Definition MD5_Final (c : md32_ctx) : option (list Z * md32_ctx) :=
  c ← crypto_md32_final (MD := md5) false c;
  Some (CRYPTO_store_u32_le (word (md_h c) 0) ++ CRYPTO_store_u32_le (word (md_h c) 1) ++
        CRYPTO_store_u32_le (word (md_h c) 2) ++ CRYPTO_store_u32_le (word (md_h c) 3), c).

Definition MD5 (data : list Z) : option (list Z) :=
  let ctx := MD5_Init in
  ctx ← MD5_Update ctx data;
  '(out, _) ← MD5_Final ctx;
  Some out.

(** The reference: the registers as RFC 1321 gives them, low-order bytes first, and the words of the
    final state in the same order. *)
Definition md5_iv : list Z :=
  le_val <$> [[0x01; 0x23; 0x45; 0x67]; [0x89; 0xab; 0xcd; 0xef]; [0xfe; 0xdc; 0xba; 0x98]; [0x76; 0x54; 0x32; 0x10]].
Definition md5_hash (m : list Z) : list Z := concat (le_bytes 4 <$> md_state (MD := md5) false md5_iv m).

Lemma md5_compress_4 h b : exists x y z t, md5_compress h b = [x; y; z; t].
Proof. unfold md5_compress. destruct (fold_left _ _ _) as [[[a c] d] e]. by do 4 eexists. Qed.

Lemma MD5_digest pieces : Forall (fun p => is_word (len p)) pieces ->
  (c ← feed MD5_Update MD5_Init pieces; '(out, _) ← MD5_Final c; Some out) = Some (md5_hash (concat pieces)).
Proof.
  intros Hps. destruct (md32_digest (MD := md5) false md5_iv pieces Hps) as (c & c' & E1 & E2 & Eh).
  change (feed MD5_Update MD5_Init pieces = Some c) in E1. rewrite E1. cbn [mbind option_bind].
  unfold MD5_Final. rewrite E2. cbn [mbind option_bind]. rewrite Eh. unfold md5_hash.
  destruct (md_state_compress (MD := md5) false md5_iv (concat pieces)) as (h & b & ->).
  destruct (md5_compress_4 h b) as (x & y & z & t & E'). change (@compress md5) with md5_compress.
  rewrite E'. cbn [fmap list_fmap concat word nth]. by rewrite app_nil_r.
Qed.

End Digest.

(** "abc" *)
Example md5_abc : MD5 (PF := LP64) [0x61; 0x62; 0x63] =
  Some [0x90; 0x01; 0x50; 0x98; 0x3c; 0xd2; 0x4f; 0xb0; 0xd6; 0x96; 0x3f; 0x7d; 0x28; 0xe1; 0x7f; 0x72].
Proof. vm_compute. reflexivity. Qed.
