(* ===== verification/Sha1.v ===== *)
(** SHA-1: crypto/sha/sha1.cc and crypto/fipsmodule/sha/sha1.cc.inc, in the portable version. The
    block function, whose rounds the source unrolls over a circular buffer of sixteen variables, is
    shown to be the one of FIPS 180-4. *)
From S2P Require Import Prelude.
From S2P Require Import Internal.
From S2P Require Import Heap.
From S2P Require Import Md32.

Open Scope Z_scope.

Definition Xupdate (ia ib ic id : Z) : Z := CRYPTO_rotl_u32 (Z.lxor (Z.lxor (Z.lxor ia ib) ic) id) 1.

Definition K_00_19 : Z := 0x5a827999.
Definition K_20_39 : Z := 0x6ed9eba1.
Definition K_40_59 : Z := 0x8f1bbcdc.
Definition K_60_79 : Z := 0xca62c1d6.

Definition F_00_19 (b c d : Z) : Z := Z.lxor (Z.land (Z.lxor c d) b) d.
Definition F_20_39 (b c d : Z) : Z := Z.lxor (Z.lxor b c) d.
Definition F_40_59 (b c d : Z) : Z := Z.lor (Z.land b c) (Z.land (Z.lor b c) d).
Definition F_60_79 (b c d : Z) : Z := F_20_39 b c d.

(** The value each BODY macro gives to [f]; the assignments to [xi] and to [b] are written where the
    macro is used. *)
Definition BODY_00_15 (a b c d e xi : Z) : Z := u32 (xi + e + K_00_19 + CRYPTO_rotl_u32 a 5 + F_00_19 b c d).
Definition BODY_16_19 (a b c d e f : Z) : Z := u32 (f + (e + K_00_19 + CRYPTO_rotl_u32 a 5 + F_00_19 b c d)).
Definition BODY_20_31 (a b c d e f : Z) : Z := u32 (f + (e + K_20_39 + CRYPTO_rotl_u32 a 5 + F_20_39 b c d)).
Definition BODY_32_39 (a b c d e f : Z) : Z := u32 (f + (e + K_20_39 + CRYPTO_rotl_u32 a 5 + F_20_39 b c d)).
Definition BODY_40_59 (a b c d e f : Z) : Z := u32 (f + (e + K_40_59 + CRYPTO_rotl_u32 a 5 + F_40_59 b c d)).
Definition BODY_60_79 (a b c d e xa : Z) : Z := u32 (xa + e + K_60_79 + CRYPTO_rotl_u32 a 5 + F_60_79 b c d).

(** The rounds of one iteration: the words that are added to [state], in its order, and [data]. *)
Definition sha1_rounds (A B C D E : Z) (data : list Z) : Z * Z * Z * Z * Z * list Z :=
  X0 <~ CRYPTO_load_u32_be data; data <~ drop 4 data; X1 <~ CRYPTO_load_u32_be data; data <~ drop 4 data;
  T <~ BODY_00_15 A B C D E X0; B <~ CRYPTO_rotl_u32 B 30; X2 <~ CRYPTO_load_u32_be data; data <~ drop 4 data;
  E <~ BODY_00_15 T A B C D X1; A <~ CRYPTO_rotl_u32 A 30; X3 <~ CRYPTO_load_u32_be data; data <~ drop 4 data;
  D <~ BODY_00_15 E T A B C X2; T <~ CRYPTO_rotl_u32 T 30; X4 <~ CRYPTO_load_u32_be data; data <~ drop 4 data;
  C <~ BODY_00_15 D E T A B X3; E <~ CRYPTO_rotl_u32 E 30; X5 <~ CRYPTO_load_u32_be data; data <~ drop 4 data;
  B <~ BODY_00_15 C D E T A X4; D <~ CRYPTO_rotl_u32 D 30; X6 <~ CRYPTO_load_u32_be data; data <~ drop 4 data;
  A <~ BODY_00_15 B C D E T X5; C <~ CRYPTO_rotl_u32 C 30; X7 <~ CRYPTO_load_u32_be data; data <~ drop 4 data;
  T <~ BODY_00_15 A B C D E X6; B <~ CRYPTO_rotl_u32 B 30; X8 <~ CRYPTO_load_u32_be data; data <~ drop 4 data;
  E <~ BODY_00_15 T A B C D X7; A <~ CRYPTO_rotl_u32 A 30; X9 <~ CRYPTO_load_u32_be data; data <~ drop 4 data;
  D <~ BODY_00_15 E T A B C X8; T <~ CRYPTO_rotl_u32 T 30; X10 <~ CRYPTO_load_u32_be data; data <~ drop 4 data;
  C <~ BODY_00_15 D E T A B X9; E <~ CRYPTO_rotl_u32 E 30; X11 <~ CRYPTO_load_u32_be data; data <~ drop 4 data;
  B <~ BODY_00_15 C D E T A X10; D <~ CRYPTO_rotl_u32 D 30; X12 <~ CRYPTO_load_u32_be data; data <~ drop 4 data;
  A <~ BODY_00_15 B C D E T X11; C <~ CRYPTO_rotl_u32 C 30; X13 <~ CRYPTO_load_u32_be data; data <~ drop 4 data;
  T <~ BODY_00_15 A B C D E X12; B <~ CRYPTO_rotl_u32 B 30; X14 <~ CRYPTO_load_u32_be data; data <~ drop 4 data;
  E <~ BODY_00_15 T A B C D X13; A <~ CRYPTO_rotl_u32 A 30; X15 <~ CRYPTO_load_u32_be data; data <~ drop 4 data;
  D <~ BODY_00_15 E T A B C X14; T <~ CRYPTO_rotl_u32 T 30; C <~ BODY_00_15 D E T A B X15;
  E <~ CRYPTO_rotl_u32 E 30; X0 <~ Xupdate X0 X2 X8 X13; B <~ BODY_16_19 C D E T A X0;
  D <~ CRYPTO_rotl_u32 D 30; X1 <~ Xupdate X1 X3 X9 X14; A <~ BODY_16_19 B C D E T X1;
  C <~ CRYPTO_rotl_u32 C 30; X2 <~ Xupdate X2 X4 X10 X15; T <~ BODY_16_19 A B C D E X2;
  B <~ CRYPTO_rotl_u32 B 30; X3 <~ Xupdate X3 X5 X11 X0; E <~ BODY_16_19 T A B C D X3;
  A <~ CRYPTO_rotl_u32 A 30; X4 <~ Xupdate X4 X6 X12 X1; D <~ BODY_20_31 E T A B C X4;
  T <~ CRYPTO_rotl_u32 T 30; X5 <~ Xupdate X5 X7 X13 X2; C <~ BODY_20_31 D E T A B X5;
  E <~ CRYPTO_rotl_u32 E 30; X6 <~ Xupdate X6 X8 X14 X3; B <~ BODY_20_31 C D E T A X6;
  D <~ CRYPTO_rotl_u32 D 30; X7 <~ Xupdate X7 X9 X15 X4; A <~ BODY_20_31 B C D E T X7;
  C <~ CRYPTO_rotl_u32 C 30; X8 <~ Xupdate X8 X10 X0 X5; T <~ BODY_20_31 A B C D E X8;
  B <~ CRYPTO_rotl_u32 B 30; X9 <~ Xupdate X9 X11 X1 X6; E <~ BODY_20_31 T A B C D X9;
  A <~ CRYPTO_rotl_u32 A 30; X10 <~ Xupdate X10 X12 X2 X7; D <~ BODY_20_31 E T A B C X10;
  T <~ CRYPTO_rotl_u32 T 30; X11 <~ Xupdate X11 X13 X3 X8; C <~ BODY_20_31 D E T A B X11;
  E <~ CRYPTO_rotl_u32 E 30; X12 <~ Xupdate X12 X14 X4 X9; B <~ BODY_20_31 C D E T A X12;
  D <~ CRYPTO_rotl_u32 D 30; X13 <~ Xupdate X13 X15 X5 X10; A <~ BODY_20_31 B C D E T X13;
  C <~ CRYPTO_rotl_u32 C 30; X14 <~ Xupdate X14 X0 X6 X11; T <~ BODY_20_31 A B C D E X14;
  B <~ CRYPTO_rotl_u32 B 30; X15 <~ Xupdate X15 X1 X7 X12; E <~ BODY_20_31 T A B C D X15;
  A <~ CRYPTO_rotl_u32 A 30; X0 <~ Xupdate X0 X2 X8 X13; D <~ BODY_32_39 E T A B C X0;
  T <~ CRYPTO_rotl_u32 T 30; X1 <~ Xupdate X1 X3 X9 X14; C <~ BODY_32_39 D E T A B X1;
  E <~ CRYPTO_rotl_u32 E 30; X2 <~ Xupdate X2 X4 X10 X15; B <~ BODY_32_39 C D E T A X2;
  D <~ CRYPTO_rotl_u32 D 30; X3 <~ Xupdate X3 X5 X11 X0; A <~ BODY_32_39 B C D E T X3;
  C <~ CRYPTO_rotl_u32 C 30; X4 <~ Xupdate X4 X6 X12 X1; T <~ BODY_32_39 A B C D E X4;
  B <~ CRYPTO_rotl_u32 B 30; X5 <~ Xupdate X5 X7 X13 X2; E <~ BODY_32_39 T A B C D X5;
  A <~ CRYPTO_rotl_u32 A 30; X6 <~ Xupdate X6 X8 X14 X3; D <~ BODY_32_39 E T A B C X6;
  T <~ CRYPTO_rotl_u32 T 30; X7 <~ Xupdate X7 X9 X15 X4; C <~ BODY_32_39 D E T A B X7;
  E <~ CRYPTO_rotl_u32 E 30; X8 <~ Xupdate X8 X10 X0 X5; B <~ BODY_40_59 C D E T A X8;
  D <~ CRYPTO_rotl_u32 D 30; X9 <~ Xupdate X9 X11 X1 X6; A <~ BODY_40_59 B C D E T X9;
  C <~ CRYPTO_rotl_u32 C 30; X10 <~ Xupdate X10 X12 X2 X7; T <~ BODY_40_59 A B C D E X10;
  B <~ CRYPTO_rotl_u32 B 30; X11 <~ Xupdate X11 X13 X3 X8; E <~ BODY_40_59 T A B C D X11;
  A <~ CRYPTO_rotl_u32 A 30; X12 <~ Xupdate X12 X14 X4 X9; D <~ BODY_40_59 E T A B C X12;
  T <~ CRYPTO_rotl_u32 T 30; X13 <~ Xupdate X13 X15 X5 X10; C <~ BODY_40_59 D E T A B X13;
  E <~ CRYPTO_rotl_u32 E 30; X14 <~ Xupdate X14 X0 X6 X11; B <~ BODY_40_59 C D E T A X14;
  D <~ CRYPTO_rotl_u32 D 30; X15 <~ Xupdate X15 X1 X7 X12; A <~ BODY_40_59 B C D E T X15;
  C <~ CRYPTO_rotl_u32 C 30; X0 <~ Xupdate X0 X2 X8 X13; T <~ BODY_40_59 A B C D E X0;
  B <~ CRYPTO_rotl_u32 B 30; X1 <~ Xupdate X1 X3 X9 X14; E <~ BODY_40_59 T A B C D X1;
  A <~ CRYPTO_rotl_u32 A 30; X2 <~ Xupdate X2 X4 X10 X15; D <~ BODY_40_59 E T A B C X2;
  T <~ CRYPTO_rotl_u32 T 30; X3 <~ Xupdate X3 X5 X11 X0; C <~ BODY_40_59 D E T A B X3;
  E <~ CRYPTO_rotl_u32 E 30; X4 <~ Xupdate X4 X6 X12 X1; B <~ BODY_40_59 C D E T A X4;
  D <~ CRYPTO_rotl_u32 D 30; X5 <~ Xupdate X5 X7 X13 X2; A <~ BODY_40_59 B C D E T X5;
  C <~ CRYPTO_rotl_u32 C 30; X6 <~ Xupdate X6 X8 X14 X3; T <~ BODY_40_59 A B C D E X6;
  B <~ CRYPTO_rotl_u32 B 30; X7 <~ Xupdate X7 X9 X15 X4; E <~ BODY_40_59 T A B C D X7;
  A <~ CRYPTO_rotl_u32 A 30; X8 <~ Xupdate X8 X10 X0 X5; D <~ BODY_40_59 E T A B C X8;
  T <~ CRYPTO_rotl_u32 T 30; X9 <~ Xupdate X9 X11 X1 X6; C <~ BODY_40_59 D E T A B X9;
  E <~ CRYPTO_rotl_u32 E 30; X10 <~ Xupdate X10 X12 X2 X7; B <~ BODY_40_59 C D E T A X10;
  D <~ CRYPTO_rotl_u32 D 30; X11 <~ Xupdate X11 X13 X3 X8; A <~ BODY_40_59 B C D E T X11;
  C <~ CRYPTO_rotl_u32 C 30; X12 <~ Xupdate X12 X14 X4 X9; T <~ BODY_60_79 A B C D E X12;
  B <~ CRYPTO_rotl_u32 B 30; X13 <~ Xupdate X13 X15 X5 X10; E <~ BODY_60_79 T A B C D X13;
  A <~ CRYPTO_rotl_u32 A 30; X14 <~ Xupdate X14 X0 X6 X11; D <~ BODY_60_79 E T A B C X14;
  T <~ CRYPTO_rotl_u32 T 30; X15 <~ Xupdate X15 X1 X7 X12; C <~ BODY_60_79 D E T A B X15;
  E <~ CRYPTO_rotl_u32 E 30; X0 <~ Xupdate X0 X2 X8 X13; B <~ BODY_60_79 C D E T A X0;
  D <~ CRYPTO_rotl_u32 D 30; X1 <~ Xupdate X1 X3 X9 X14; A <~ BODY_60_79 B C D E T X1;
  C <~ CRYPTO_rotl_u32 C 30; X2 <~ Xupdate X2 X4 X10 X15; T <~ BODY_60_79 A B C D E X2;
  B <~ CRYPTO_rotl_u32 B 30; X3 <~ Xupdate X3 X5 X11 X0; E <~ BODY_60_79 T A B C D X3;
  A <~ CRYPTO_rotl_u32 A 30; X4 <~ Xupdate X4 X6 X12 X1; D <~ BODY_60_79 E T A B C X4;
  T <~ CRYPTO_rotl_u32 T 30; X5 <~ Xupdate X5 X7 X13 X2; C <~ BODY_60_79 D E T A B X5;
  E <~ CRYPTO_rotl_u32 E 30; X6 <~ Xupdate X6 X8 X14 X3; B <~ BODY_60_79 C D E T A X6;
  D <~ CRYPTO_rotl_u32 D 30; X7 <~ Xupdate X7 X9 X15 X4; A <~ BODY_60_79 B C D E T X7;
  C <~ CRYPTO_rotl_u32 C 30; X8 <~ Xupdate X8 X10 X0 X5; T <~ BODY_60_79 A B C D E X8;
  B <~ CRYPTO_rotl_u32 B 30; X9 <~ Xupdate X9 X11 X1 X6; E <~ BODY_60_79 T A B C D X9;
  A <~ CRYPTO_rotl_u32 A 30; X10 <~ Xupdate X10 X12 X2 X7; D <~ BODY_60_79 E T A B C X10;
  T <~ CRYPTO_rotl_u32 T 30; X11 <~ Xupdate X11 X13 X3 X8; C <~ BODY_60_79 D E T A B X11;
  E <~ CRYPTO_rotl_u32 E 30; X12 <~ Xupdate X12 X14 X4 X9; B <~ BODY_60_79 C D E T A X12;
  D <~ CRYPTO_rotl_u32 D 30; X13 <~ Xupdate X13 X15 X5 X10; A <~ BODY_60_79 B C D E T X13;
  C <~ CRYPTO_rotl_u32 C 30; X14 <~ Xupdate X14 X0 X6 X11; T <~ BODY_60_79 A B C D E X14;
  B <~ CRYPTO_rotl_u32 B 30; X15 <~ Xupdate X15 X1 X7 X12; E <~ BODY_60_79 T A B C D X15;
  A <~ CRYPTO_rotl_u32 A 30;
  (E, T, A, B, C, data).

(** The loop of sha1_block_data_order_nohw, which runs its body before it counts; [more] is the
    number of blocks after this one. *)
Fixpoint sha1_loop (more : nat) (state data : list Z) : list Z :=
  let '(v0, v1, v2, v3, v4, data) :=
    sha1_rounds (word state 0) (word state 1) (word state 2) (word state 3) (word state 4) data in
  let state := [Z.land (u32 (word state 0 + v0)) 0xffffffff; Z.land (u32 (word state 1 + v1)) 0xffffffff;
                Z.land (u32 (word state 2 + v2)) 0xffffffff; Z.land (u32 (word state 3 + v3)) 0xffffffff;
                Z.land (u32 (word state 4 + v4)) 0xffffffff] in
  match more with
  | O => state
  | S more => sha1_loop more state data
  end.

Definition sha1_block_data_order_nohw (state data : list Z) (num : Z) : list Z :=
  sha1_loop (Z.to_nat (num - 1)) state data.

(** Without the assembly routines, the only block function. *)
Definition sha1_block_data_order (state data : list Z) (num : Z) : list Z :=
  sha1_block_data_order_nohw state data num.

(** ** The compression function of FIPS 180-4 *)

(** The functions and the constants of the four rounds of twenty steps. *)
Definition sha1_f (round : nat) (x y z : Z) : Z :=
  match round with
  | O => Z.lxor (Z.land x y) (Z.land (Z.lnot x) z)
  | 2%nat => Z.lxor (Z.lxor (Z.land x y) (Z.land x z)) (Z.land y z)
  | _ => Z.lxor (Z.lxor x y) z
  end.

(** The constants are the square roots of 2, 3, 5 and 10, to 30 bits after the point. *)
Definition sha1_K (round : nat) : Z := Z.sqrt (nth round [2; 3; 5; 10] 0 * 2 ^ 60).

(** The message schedule: the next word from those before it. *)
Definition sha1_next (W : list Z) : Z :=
  let t := length W in
  CRYPTO_rotl_u32 (Z.lxor (Z.lxor (Z.lxor (word W (t - 3)) (word W (t - 8))) (word W (t - 14))) (word W (t - 16))) 1.

Definition sha1_op (round : nat) (a b c d e w : Z) : Z :=
  u32 (CRYPTO_rotl_u32 a 5 + sha1_f round b c d + e + sha1_K round + w).
Definition sha1_step (W : list Z) (st : Z * Z * Z * Z * Z) (t : nat) : Z * Z * Z * Z * Z :=
  let '(a, b, c, d, e) := st in
  (sha1_op (Nat.div t 20) a b c d e (word W t), a, CRYPTO_rotl_u32 b 30, c, d).

Definition sha1_compress (h block : list Z) : list Z :=
  let W := schedule sha1_next 64 (block_words CRYPTO_load_u32_be block) in
  let '(a, b, c, d, e) :=
    fold_left (sha1_step W) (seq 0 80) (word h 0, word h 1, word h 2, word h 3, word h 4) in
  [u32 (word h 0 + a); u32 (word h 1 + b); u32 (word h 2 + c); u32 (word h 3 + d); u32 (word h 4 + e)].

(** ** The unrolled rounds are the steps of the reference *)

Lemma sha1_round_op round f k a b c d e x :
  f = sha1_f round b c d -> k = sha1_K round ->
  u32 (x + e + k + CRYPTO_rotl_u32 a 5 + f) = sha1_op round a b c d e x.
Proof. intros -> ->. unfold sha1_op. f_equal. lia. Qed.

Ltac bits_fun f :=
  apply Z.bits_inj'; intros i Hi; unfold f, sha1_f;
  repeat (rewrite Z.lor_spec || rewrite Z.lxor_spec || rewrite Z.land_spec || rewrite Z.lnot_spec by done);
  repeat match goal with |- context [Z.testbit ?x i] => destruct (Z.testbit x i) end; reflexivity.

Lemma F_00_19_spec b c d : F_00_19 b c d = sha1_f 0 b c d.
Proof. bits_fun F_00_19. Qed.
Lemma F_40_59_spec b c d : F_40_59 b c d = sha1_f 2 b c d.
Proof. bits_fun F_40_59. Qed.

Lemma BODY_00_15_op a b c d e x : BODY_00_15 a b c d e x = sha1_op 0 a b c d e x.
Proof. by apply sha1_round_op; [apply F_00_19_spec|]. Qed.
Lemma BODY_16_19_op a b c d e x : BODY_16_19 a b c d e x = sha1_op 0 a b c d e x.
Proof. unfold BODY_16_19. rewrite !Z.add_assoc. by apply sha1_round_op; [apply F_00_19_spec|]. Qed.
Lemma BODY_20_31_op a b c d e x : BODY_20_31 a b c d e x = sha1_op 1 a b c d e x.
Proof. unfold BODY_20_31. rewrite !Z.add_assoc. by apply sha1_round_op. Qed.
Lemma BODY_32_39_op a b c d e x : BODY_32_39 a b c d e x = sha1_op 1 a b c d e x.
Proof. unfold BODY_32_39. rewrite !Z.add_assoc. by apply sha1_round_op. Qed.
Lemma BODY_40_59_op a b c d e x : BODY_40_59 a b c d e x = sha1_op 2 a b c d e x.
Proof. unfold BODY_40_59. rewrite !Z.add_assoc. by apply sha1_round_op; [apply F_40_59_spec|]. Qed.
Lemma BODY_60_79_op a b c d e x : BODY_60_79 a b c d e x = sha1_op 3 a b c d e x.
Proof. by apply sha1_round_op. Qed.

#[local] Hint Rewrite BODY_00_15_op BODY_16_19_op BODY_20_31_op BODY_32_39_op BODY_40_59_op BODY_60_79_op : sha1.

Lemma sha1_schedule_Xupdate n W :
  schedule sha1_next (S n) W =
  schedule sha1_next n (W ++ [Xupdate (word W (length W - 16)) (word W (length W - 14)) (word W (length W - 8)) (word W (length W - 3))]).
Proof.
  cbn [schedule]. unfold sha1_next, Xupdate. do 4 f_equal.
  apply Z.bits_inj'. intros i Hi. rewrite !Z.lxor_spec.
  repeat match goal with |- context [Z.testbit ?x i] => destruct (Z.testbit x i) end; reflexivity.
Qed.

Lemma sha1_step_op W a b c d e t l :
  fold_left (sha1_step W) (t :: l) (a, b, c, d, e)
  = fold_left (sha1_step W) l (sha1_op (Nat.div t 20) a b c d e (word W t), a, CRYPTO_rotl_u32 b 30, c, d).
Proof. done. Qed.

(** One unrolled assignment against the schedule [HW] and the steps [Hr]: a load, an update of the
    circular buffer, a rotation, or the new word of a step. *)
Ltac sha1_assignment HW Hr :=
  let x := fresh "x" in let E := fresh "E" in
  next_assignment x E;
  try lazymatch type of E with
  | _ = CRYPTO_load_u32_be _ => rewrite <- E in HW; clear E
  | _ = CRYPTO_rotl_u32 _ 30 => rewrite <- E in Hr; clear E
  | _ = Xupdate _ _ _ _ =>
      rewrite sha1_schedule_Xupdate in HW; cbn [length Nat.sub word nth app] in HW; rewrite <- E in HW; clear E
  | _ =>
      autorewrite with sha1 in E;
      lazymatch type of E with
      | _ = sha1_op _ _ _ _ _ _ ?w =>
          lazymatch type of Hr with
          | context [fold_left (sha1_step ?W) (?t :: _)] =>
              let Ew := fresh in
              assert (Ew : word W t = w) by (rewrite HW, word_schedule by (simpl; lia); reflexivity);
              rewrite sha1_step_op, Ew in Hr; clear Ew;
              cbn [Nat.div Nat.divmod fst snd] in Hr; rewrite <- E in Hr; clear E
          end
      end
  end.

Lemma sha1_rounds_spec A B C D E data :
  sha1_rounds A B C D E data
  = (fold_left (sha1_step (schedule sha1_next 64 (block_words CRYPTO_load_u32_be data))) (seq 0 80) (A, B, C, D, E), drop 64 data).
Proof.
  remember (schedule sha1_next _ _) as W eqn:HW. remember (fold_left _ _ _, drop 64 data) as r eqn:Hr.
  unfold block_words in HW. cbn [seq fmap list_fmap Nat.mul Nat.add] in HW. rewrite (drop_0 data) in HW.
  cbn [seq] in Hr. unfold sha1_rounds.
  repeat sha1_assignment HW Hr. by rewrite Hr.
Qed.

Lemma land_word32 x : Z.land (u32 x) 0xffffffff = u32 x.
Proof. change 0xffffffff with (Z.ones 32). rewrite Z.land_ones by lia. apply wrap_wrap. Qed.

Lemma sha1_loop_absorb more state data :
  len data = (Z.of_nat more + 1) * 64 -> sha1_loop more state data = absorb 64 sha1_compress (S more) state data.
Proof.
  revert state data. induction more as [|more IH]; intros state data Hl;
    assert (Hstep : forall n, absorb 64 sha1_compress (S n) state data
      = absorb 64 sha1_compress n (sha1_compress state (ztake 64 data)) (zdrop 64 data)) by done;
    rewrite Hstep; cbn [sha1_loop]; rewrite sha1_rounds_spec; unfold sha1_compress at 2 || unfold sha1_compress at 1;
    rewrite block_words_ztake by (intros; by apply load_be_block);
    destruct (fold_left _ _ _) as [[[[a b] c] d] e]; rewrite !land_word32; [done|].
  apply IH. change (drop 64 data) with (zdrop 64 data). rewrite len_zdrop by lia. lia.
Qed.

(** The block function of SHA-1, as the collector uses it. *)
#[refine] Definition sha1_md32 : Md32 := {|
  block_size := 64;
  compress := sha1_compress;
  block_func := sha1_block_data_order;
|}.
Proof.
  - lia.
  - intros h data n Hn Hl. unfold sha1_block_data_order, sha1_block_data_order_nohw.
    rewrite sha1_loop_absorb by lia. f_equal. lia.
Defined.

(** ** The interface *)
Section Digest.
Context `{PF : Platform}.

Definition BCM_sha1_init : md32_ctx :=
  {| md_h := [0x67452301; 0xefcdab89; 0x98badcfe; 0x10325476; 0xc3d2e1f0]; md_Nl := 0; md_Nh := 0;
     md_data := zeros 64; md_num := 0 |}.

Definition BCM_sha1_transform (c : md32_ctx) (data : list Z) : md32_ctx :=
  {| md_h := sha1_block_data_order (md_h c) data 1; md_Nl := md_Nl c; md_Nh := md_Nh c;
     md_data := md_data c; md_num := md_num c |}.

Definition BCM_sha1_update (c : md32_ctx) (data : list Z) : option md32_ctx :=
  crypto_md32_update (MD := sha1_md32) c data.

Definition sha1_output_state (ctx : md32_ctx) : list Z :=
  CRYPTO_store_u32_be (word (md_h ctx) 0) ++ CRYPTO_store_u32_be (word (md_h ctx) 1) ++
  CRYPTO_store_u32_be (word (md_h ctx) 2) ++ CRYPTO_store_u32_be (word (md_h ctx) 3) ++
  CRYPTO_store_u32_be (word (md_h ctx) 4).

Definition BCM_sha1_final (c : md32_ctx) : option (list Z * md32_ctx) :=
  c ← crypto_md32_final (MD := sha1_md32) true c;
  Some (sha1_output_state c, c).

Definition SHA1_Init : md32_ctx := BCM_sha1_init.
Definition SHA1_Update (sha : md32_ctx) (data : list Z) : option md32_ctx := BCM_sha1_update sha data.
Definition SHA1_Final (sha : md32_ctx) : option (list Z * md32_ctx) := BCM_sha1_final sha.
Definition SHA1_Transform (sha : md32_ctx) (block : list Z) : md32_ctx := BCM_sha1_transform sha block.

Definition SHA1 (data : list Z) : option (list Z) :=
  let ctx := BCM_sha1_init in
  ctx ← BCM_sha1_update ctx data;
  '(out, _) ← BCM_sha1_final ctx;
  Some out.

(** The reference: the initial value and the digest, big-endian, of FIPS 180-4. *)
Definition sha1_iv : list Z := be_val <$>
  [[0x67; 0x45; 0x23; 0x01]; [0xef; 0xcd; 0xab; 0x89]; [0x98; 0xba; 0xdc; 0xfe]; [0x10; 0x32; 0x54; 0x76];
   [0xc3; 0xd2; 0xe1; 0xf0]].
Definition sha1_hash (m : list Z) : list Z := concat (be_bytes 4 <$> md_state (MD := sha1_md32) true sha1_iv m).

Lemma sha1_compress_5 h b : exists v, sha1_compress h b = v /\ length v = 5%nat /\ words32 v.
Proof.
  eexists. split; [done|]. unfold sha1_compress. destruct (fold_left _ _ _) as [[[[a c] d] e] f]. split; [done|].
  repeat (apply List.Forall_cons; [by apply wrap_range|]). apply List.Forall_nil.
Qed.

Lemma sha1_output_state_words c : length (md_h c) = 5%nat -> words32 (md_h c) ->
  sha1_output_state c = concat (be_bytes 4 <$> md_h c).
Proof.
  intros Hl Hv. rewrite <- store_words_be by done. unfold sha1_output_state.
  destruct (md_h c) as [|x0 [|x1 [|x2 [|x3 [|x4 [|]]]]]]; try discriminate.
  cbn [word nth fmap list_fmap concat]. by rewrite app_nil_r.
Qed.

Lemma SHA1_Init_fresh : SHA1_Init = fresh_ctx (MD := sha1_md32) sha1_iv.
Proof. reflexivity. Qed.

Lemma SHA1_digest pieces : Forall (fun p => is_word (len p)) pieces ->
  (c ← feed SHA1_Update SHA1_Init pieces; '(out, _) ← SHA1_Final c; Some out) = Some (sha1_hash (concat pieces)).
Proof.
  intros Hps. destruct (md32_digest (MD := sha1_md32) true sha1_iv pieces Hps) as (c & c' & E1 & E2 & Eh).
  rewrite SHA1_Init_fresh. change SHA1_Update with (crypto_md32_update (MD := sha1_md32)).
  unfold SHA1_Final, BCM_sha1_final, sha1_hash. rewrite E1. cbn [mbind option_bind]. rewrite E2. cbn [mbind option_bind]. rewrite <- Eh. f_equal.
  destruct (md_state_compress (MD := sha1_md32) true sha1_iv (concat pieces)) as (h & b & E).
  destruct (sha1_compress_5 h b) as (v & Ev & Hl & Hv).
  assert (Ehv : md_h c' = v) by (rewrite Eh, E; exact Ev).
  by apply sha1_output_state_words; rewrite Ehv.
Qed.

End Digest.

(** "abc" *)
Example sha1_abc : SHA1 (PF := LP64) [0x61; 0x62; 0x63] =
  Some [0xa9; 0x99; 0x3e; 0x36; 0x47; 0x06; 0x81; 0x6a; 0xba; 0x3e; 0x25; 0x71; 0x78; 0x50; 0xc2; 0x6c; 0x9c; 0xd0; 0xd8; 0x9d].
Proof. vm_compute. reflexivity. Qed.
