(* ===== verification/Sha256.v ===== *)
(** SHA-256 and SHA-224: crypto/sha/sha256.cc and crypto/fipsmodule/sha/sha256.cc.inc, in the
    portable version. The block function, which keeps the last sixteen words of the message
    schedule in a circular buffer, is shown to be the one of FIPS 180-4. *)
From S2P Require Import Prelude.
From S2P Require Import Internal.
From S2P Require Import Heap.
From S2P Require Import Md32.

Open Scope Z_scope.

(* The rows are those of the table in the source. *)
Definition K256 : list Z := concat [
   [0x428a2f98; 0x71374491; 0xb5c0fbcf; 0xe9b5dba5; 0x3956c25b];
   [0x59f111f1; 0x923f82a4; 0xab1c5ed5; 0xd807aa98; 0x12835b01];
   [0x243185be; 0x550c7dc3; 0x72be5d74; 0x80deb1fe; 0x9bdc06a7];
   [0xc19bf174; 0xe49b69c1; 0xefbe4786; 0x0fc19dc6; 0x240ca1cc];
   [0x2de92c6f; 0x4a7484aa; 0x5cb0a9dc; 0x76f988da; 0x983e5152];
   [0xa831c66d; 0xb00327c8; 0xbf597fc7; 0xc6e00bf3; 0xd5a79147];
   [0x06ca6351; 0x14292967; 0x27b70a85; 0x2e1b2138; 0x4d2c6dfc];
   [0x53380d13; 0x650a7354; 0x766a0abb; 0x81c2c92e; 0x92722c85];
   [0xa2bfe8a1; 0xa81a664b; 0xc24b8b70; 0xc76c51a3; 0xd192e819];
   [0xd6990624; 0xf40e3585; 0x106aa070; 0x19a4c116; 0x1e376c08];
   [0x2748774c; 0x34b0bcb5; 0x391c0cb3; 0x4ed8aa4a; 0x5b9cca4f];
   [0x682e6ff3; 0x748f82ee; 0x78a5636f; 0x84c87814; 0x8cc70208];
   [0x90befffa; 0xa4506ceb; 0xbef9a3f7; 0xc67178f2]].

Definition Sigma0 (x : Z) : Z := Z.lxor (Z.lxor (CRYPTO_rotr_u32 x 2) (CRYPTO_rotr_u32 x 13)) (CRYPTO_rotr_u32 x 22).
Definition Sigma1 (x : Z) : Z := Z.lxor (Z.lxor (CRYPTO_rotr_u32 x 6) (CRYPTO_rotr_u32 x 11)) (CRYPTO_rotr_u32 x 25).
Definition sigma0 (x : Z) : Z := Z.lxor (Z.lxor (CRYPTO_rotr_u32 x 7) (CRYPTO_rotr_u32 x 18)) (Z.shiftr x 3).
Definition sigma1 (x : Z) : Z := Z.lxor (Z.lxor (CRYPTO_rotr_u32 x 17) (CRYPTO_rotr_u32 x 19)) (Z.shiftr x 10).
Definition Ch (x y z : Z) : Z := Z.lxor (Z.land x y) (Z.land (wnot 32 x) z).
Definition Maj (x y z : Z) : Z := Z.lxor (Z.lxor (Z.land x y) (Z.land x z)) (Z.land y z).

(** The macros: the variables they assign are the result. *)
Definition ROUND_00_15 (i a b c d e f g h T1 : Z) : Z * Z :=
  T1 <~ u32 (T1 + (h + Sigma1 e + Ch e f g + word K256 (Z.to_nat i)));
  h <~ u32 (Sigma0 a + Maj a b c);
  d <~ u32 (d + T1);
  h <~ u32 (h + T1);
  (d, h).

Definition ROUND_16_63 (i a b c d e f g h : Z) (X : list Z) : Z * Z * list Z :=
  s0 <~ word X (Z.to_nat (Z.land (i + 1) 0x0f));
  s0 <~ sigma0 s0;
  s1 <~ word X (Z.to_nat (Z.land (i + 14) 0x0f));
  s1 <~ sigma1 s1;
  T1 <~ u32 (word X (Z.to_nat (Z.land i 0x0f)) + (s0 + s1 + word X (Z.to_nat (Z.land (i + 9) 0x0f))));
  X <~ <[Z.to_nat (Z.land i 0x0f) := T1]> X;
  '(d, h) <~ ROUND_00_15 i a b c d e f g h T1;
  (d, h, X).

(** The eight working variables. *)
Definition vars : Type := Z * Z * Z * Z * Z * Z * Z * Z.

(** The loop over the rounds 16 to 63, eight at a time. *)
Fixpoint sha256_rounds_16_63 (n : nat) (i a b c d e f g h : Z) (X : list Z) : vars :=
  match n with
  | O => (a, b, c, d, e, f, g, h)
  | S n =>
      '(d, h, X) <~ ROUND_16_63 (i + 0) a b c d e f g h X;
      '(c, g, X) <~ ROUND_16_63 (i + 1) h a b c d e f g X;
      '(b, f, X) <~ ROUND_16_63 (i + 2) g h a b c d e f X;
      '(a, e, X) <~ ROUND_16_63 (i + 3) f g h a b c d e X;
      '(h, d, X) <~ ROUND_16_63 (i + 4) e f g h a b c d X;
      '(g, c, X) <~ ROUND_16_63 (i + 5) d e f g h a b c X;
      '(f, b, X) <~ ROUND_16_63 (i + 6) c d e f g h a b X;
      '(e, a, X) <~ ROUND_16_63 (i + 7) b c d e f g h a X;
      sha256_rounds_16_63 n (i + 8) a b c d e f g h X
  end.

(** The rounds of one iteration: the eight words and the advanced [data]. The buffer is not
    initialised; its sixteen words are written before they are read. *)
Definition sha256_rounds (a b c d e f g h : Z) (data : list Z) : vars * list Z :=
  X <~ zeros 16;
  X <~ <[0%nat := CRYPTO_load_u32_be data]> X; T1 <~ word X 0; data <~ drop 4 data;
  '(d, h) <~ ROUND_00_15 0 a b c d e f g h T1;
  X <~ <[1%nat := CRYPTO_load_u32_be data]> X; T1 <~ word X 1; data <~ drop 4 data;
  '(c, g) <~ ROUND_00_15 1 h a b c d e f g T1;
  X <~ <[2%nat := CRYPTO_load_u32_be data]> X; T1 <~ word X 2; data <~ drop 4 data;
  '(b, f) <~ ROUND_00_15 2 g h a b c d e f T1;
  X <~ <[3%nat := CRYPTO_load_u32_be data]> X; T1 <~ word X 3; data <~ drop 4 data;
  '(a, e) <~ ROUND_00_15 3 f g h a b c d e T1;
  X <~ <[4%nat := CRYPTO_load_u32_be data]> X; T1 <~ word X 4; data <~ drop 4 data;
  '(h, d) <~ ROUND_00_15 4 e f g h a b c d T1;
  X <~ <[5%nat := CRYPTO_load_u32_be data]> X; T1 <~ word X 5; data <~ drop 4 data;
  '(g, c) <~ ROUND_00_15 5 d e f g h a b c T1;
  X <~ <[6%nat := CRYPTO_load_u32_be data]> X; T1 <~ word X 6; data <~ drop 4 data;
  '(f, b) <~ ROUND_00_15 6 c d e f g h a b T1;
  X <~ <[7%nat := CRYPTO_load_u32_be data]> X; T1 <~ word X 7; data <~ drop 4 data;
  '(e, a) <~ ROUND_00_15 7 b c d e f g h a T1;
  X <~ <[8%nat := CRYPTO_load_u32_be data]> X; T1 <~ word X 8; data <~ drop 4 data;
  '(d, h) <~ ROUND_00_15 8 a b c d e f g h T1;
  X <~ <[9%nat := CRYPTO_load_u32_be data]> X; T1 <~ word X 9; data <~ drop 4 data;
  '(c, g) <~ ROUND_00_15 9 h a b c d e f g T1;
  X <~ <[10%nat := CRYPTO_load_u32_be data]> X; T1 <~ word X 10; data <~ drop 4 data;
  '(b, f) <~ ROUND_00_15 10 g h a b c d e f T1;
  X <~ <[11%nat := CRYPTO_load_u32_be data]> X; T1 <~ word X 11; data <~ drop 4 data;
  '(a, e) <~ ROUND_00_15 11 f g h a b c d e T1;
  X <~ <[12%nat := CRYPTO_load_u32_be data]> X; T1 <~ word X 12; data <~ drop 4 data;
  '(h, d) <~ ROUND_00_15 12 e f g h a b c d T1;
  X <~ <[13%nat := CRYPTO_load_u32_be data]> X; T1 <~ word X 13; data <~ drop 4 data;
  '(g, c) <~ ROUND_00_15 13 d e f g h a b c T1;
  X <~ <[14%nat := CRYPTO_load_u32_be data]> X; T1 <~ word X 14; data <~ drop 4 data;
  '(f, b) <~ ROUND_00_15 14 c d e f g h a b T1;
  X <~ <[15%nat := CRYPTO_load_u32_be data]> X; T1 <~ word X 15; data <~ drop 4 data;
  '(e, a) <~ ROUND_00_15 15 b c d e f g h a T1;
  (sha256_rounds_16_63 6 16 a b c d e f g h X, data).

Fixpoint sha256_loop (num : nat) (state data : list Z) : list Z :=
  match num with
  | O => state
  | S num =>
      let '(a, b, c, d, e, f, g, h, data) :=
        sha256_rounds (word state 0) (word state 1) (word state 2) (word state 3)
                      (word state 4) (word state 5) (word state 6) (word state 7) data in
      sha256_loop num
        [u32 (word state 0 + a); u32 (word state 1 + b); u32 (word state 2 + c); u32 (word state 3 + d);
         u32 (word state 4 + e); u32 (word state 5 + f); u32 (word state 6 + g); u32 (word state 7 + h)] data
  end.

Definition sha256_block_data_order_nohw (state data : list Z) (num : Z) : list Z :=
  sha256_loop (Z.to_nat num) state data.

(** Without the assembly routines, the only block function. *)
Definition sha256_block_data_order (state data : list Z) (num : Z) : list Z :=
  sha256_block_data_order_nohw state data num.

(** ** The compression function of FIPS 180-4 *)

(** The first [n] primes from [p] on, and the cube root by bisection of an interval of [2^k]. *)
Definition is_prime (p : Z) : bool := forallb (fun d => negb (p mod Z.of_nat d =? 0)) (seq 2 (Z.to_nat p - 2)).
Fixpoint primes (fuel : nat) (p : Z) : list Z :=
  match fuel with
  | O => []
  | S fuel => if is_prime p then p :: primes fuel (p + 1) else primes fuel (p + 1)
  end.
Fixpoint cube_root (k : nat) (lo x : Z) : Z :=
  match k with
  | O => lo
  | S k => let mid := lo + 2 ^ Z.of_nat k in if mid * mid * mid <=? x then cube_root k mid x else cube_root k lo x
  end.

(** The constants are the first 32 bits of the fractional parts of the cube roots of the first 64
    primes, which are below 312; the initial value comes from the square roots of the first eight. *)
Definition sha256_K : list Z := (fun p => u32 (cube_root 36 0 (p * 2 ^ 96))) <$> primes 310 2.
Definition sha256_iv : list Z := (fun p => u32 (Z.sqrt (p * 2 ^ 64))) <$> primes 18 2.

Definition sha256_next (W : list Z) : Z :=
  let t := length W in
  u32 (sigma1 (word W (t - 2)) + word W (t - 7) + sigma0 (word W (t - 15)) + word W (t - 16)).

Definition sha256_step (W : list Z) (st : vars) (t : nat) : vars :=
  let '(a, b, c, d, e, f, g, h) := st in
  let T1 := u32 (h + Sigma1 e + Ch e f g + word sha256_K t + word W t) in
  let T2 := u32 (Sigma0 a + Maj a b c) in
  (u32 (T1 + T2), a, b, c, u32 (d + T1), e, f, g).

Definition sha256_compress (H block : list Z) : list Z :=
  let W := schedule sha256_next 48 (block_words CRYPTO_load_u32_be block) in
  let '(a, b, c, d, e, f, g, h) :=
    fold_left (sha256_step W) (seq 0 64)
      (word H 0, word H 1, word H 2, word H 3, word H 4, word H 5, word H 6, word H 7) in
  [u32 (word H 0 + a); u32 (word H 1 + b); u32 (word H 2 + c); u32 (word H 3 + d);
   u32 (word H 4 + e); u32 (word H 5 + f); u32 (word H 6 + g); u32 (word H 7 + h)].

(** ** The rounds are the steps of the reference *)

Lemma K256_spec : K256 = sha256_K.
Proof. vm_compute. reflexivity. Qed.

Lemma ROUND_00_15_step (t : nat) a b c d e f g h w W :
  word W t = w ->
  let '(d', h') := ROUND_00_15 (Z.of_nat t) a b c d e f g h w in
  sha256_step W (a, b, c, d, e, f, g, h) t = (h', a, b, c, d', e, f, g).
Proof.
  intros Hw. unfold ROUND_00_15, assign, sha256_step. rewrite Hw, K256_spec, Nat2Z.id.
  set (k := word sha256_K t). clearbody k.
  assert (u32 (h + Sigma1 e + Ch e f g + k + w) = u32 (w + (h + Sigma1 e + Ch e f g + k))) as ->
    by (f_equal; lia).
  by rewrite (Z.add_comm (u32 (w + _)) (u32 (Sigma0 a + _))).
Qed.

(** The circular buffer before round [i] holds the last sixteen words of the schedule. *)
Definition window (X W : list Z) (i : Z) : Prop :=
  length X = 16%nat /\ forall t, i - 16 <= Z.of_nat t < i -> word X (t mod 16) = word W t.

Lemma land_15 i : 0 <= i -> Z.to_nat (Z.land i 0x0f) = (Z.to_nat i mod 16)%nat.
Proof.
  intros Hi. change 0x0f with (Z.ones 4). rewrite Z.land_ones by lia. change (2 ^ 4) with 16.
  rewrite Z2Nat.inj_mod by lia. done.
Qed.

Lemma window_read X W i k : window X W i -> 16 <= i -> 0 < k <= 16 ->
  word X (Z.to_nat (Z.land (i + 16 - k) 0x0f)) = word W (Z.to_nat (i - k)).
Proof.
  intros [_ HX] Hi Hk. rewrite <- HX by lia. rewrite land_15 by lia. f_equal.
  replace (Z.to_nat (i + 16 - k)) with (Z.to_nat (i - k) + 1 * 16)%nat by lia. by rewrite Nat.Div0.mod_add.
Qed.

Lemma window_write X W i : window X W i -> 0 <= i ->
  window (<[Z.to_nat (Z.land i 0x0f) := word W (Z.to_nat i)]> X) W (i + 1).
Proof.
  intros [Hl HX] Hi. split; [by rewrite length_insert|]. intros t Ht. rewrite land_15 by lia.
  unfold word at 1. rewrite nth_lookup. destruct (decide (t = Z.to_nat i)) as [->|Hne].
  - rewrite list_lookup_insert_eq; [done|]. rewrite Hl. by apply Nat.mod_upper_bound.
  - rewrite list_lookup_insert_ne; [by rewrite <- nth_lookup, <- HX by lia|].
    intros E. apply Hne. pose proof (Nat.div_mod_eq (Z.to_nat i) 16). pose proof (Nat.div_mod_eq t 16). lia.
Qed.

Lemma sha256_schedule_word W0 W (i : Z) : length W0 = 16%nat -> W = schedule sha256_next 48 W0 -> 16 <= i < 64 ->
  word W (Z.to_nat i) =
  u32 (sigma1 (word W (Z.to_nat (i - 2))) + word W (Z.to_nat (i - 7)) + sigma0 (word W (Z.to_nat (i - 15))) +
       word W (Z.to_nat (i - 16))).
Proof.
  intros Hl EW Hi. assert (HW : length W = 64%nat) by (rewrite EW, length_schedule; lia).
  rewrite EW at 1. rewrite schedule_next, <- EW by lia. unfold sha256_next.
  rewrite length_take, HW. replace (Z.to_nat i `min` 64)%nat with (Z.to_nat i) by lia.
  rewrite !word_take by lia. do 4 f_equal; try (f_equal; lia). do 3 f_equal. lia.
Qed.

Lemma ROUND_16_63_step W0 W i a b c d e f g h X :
  length W0 = 16%nat -> W = schedule sha256_next 48 W0 -> 16 <= i < 64 -> window X W i ->
  let '(d', h', X') := ROUND_16_63 i a b c d e f g h X in
  sha256_step W (a, b, c, d, e, f, g, h) (Z.to_nat i) = (h', a, b, c, d', e, f, g) /\ window X' W (i + 1).
Proof.
  intros Hl EW Hi HX. unfold ROUND_16_63, assign.
  pose proof (window_read X W i 15 HX) as R15. pose proof (window_read X W i 2 HX) as R2.
  pose proof (window_read X W i 16 HX) as R16. pose proof (window_read X W i 7 HX) as R7.
  replace (i + 16 - 15) with (i + 1) in R15 by lia. replace (i + 16 - 2) with (i + 14) in R2 by lia.
  replace (i + 16 - 16) with i in R16 by lia. replace (i + 16 - 7) with (i + 9) in R7 by lia.
  rewrite R15, R2, R16, R7 by lia.
  assert (Hw : u32 (word W (Z.to_nat (i - 16)) + (sigma0 (word W (Z.to_nat (i - 15))) + sigma1 (word W (Z.to_nat (i - 2))) +
    word W (Z.to_nat (i - 7)))) = word W (Z.to_nat i)).
  { rewrite (sha256_schedule_word W0 W i) by done. f_equal. lia. }
  rewrite Hw. pose proof (ROUND_00_15_step (Z.to_nat i) a b c d e f g h _ W eq_refl) as HR.
  rewrite Z2Nat.id in HR by lia. destruct (ROUND_00_15 _ _ _ _ _ _ _ _ _ _) as [d' h'].
  split; [done|]. by apply window_write; [|lia].
Qed.

Section Rounds.
Context (W0 W : list Z) (HW0 : length W0 = 16%nat) (EW : W = schedule sha256_next 48 W0).

Lemma assign_ROUND_16_63 (t : nat) i j a b c d e f g h X (k : Z -> Z -> list Z -> vars) l r :
  window X W j -> Z.of_nat t = i -> j = i -> 16 <= i < 64 ->
  (forall d' h' X', window X' W (i + 1) -> k d' h' X' = fold_left (sha256_step W) l (h', a, b, c, d', e, f, g)) ->
  r = fold_left (sha256_step W) (t :: l) (a, b, c, d, e, f, g, h) ->
  ('(d, h, X) <~ ROUND_16_63 i a b c d e f g h X; k d h X) = r.
Proof.
  intros HX Ht -> Hi Hk ->. unfold assign.
  pose proof (ROUND_16_63_step W0 W i a b c d e f g h X HW0 EW Hi HX) as H.
  destruct (ROUND_16_63 _ _ _ _ _ _ _ _ _ _) as [[d' h'] X']. destruct H as [Hs HX'].
  replace (Z.to_nat i) with t in Hs by lia. cbn [fold_left]. rewrite Hs. by apply Hk.
Qed.

Lemma sha256_rounds_16_63_steps n t a b c d e f g h X :
  window X W (Z.of_nat t) -> (16 <= t)%nat -> (t + 8 * n <= 64)%nat ->
  sha256_rounds_16_63 n (Z.of_nat t) a b c d e f g h X = fold_left (sha256_step W) (seq t (8 * n)) (a, b, c, d, e, f, g, h).
Proof.
  revert t a b c d e f g h X. induction n as [|n IH]; intros t a b c d e f g h X HX H16 H64; [done|].
  replace (8 * S n)%nat with (8 + 8 * n)%nat by lia. cbn [seq Nat.add sha256_rounds_16_63].
  do 8 (eapply assign_ROUND_16_63; [exact HX|shelve|shelve|shelve| |reflexivity]; clear HX; intros ? ? ? HX).
  Unshelve. all: try lia.
  replace (Z.of_nat t + 8) with (Z.of_nat (t + 8)) by lia. rewrite IH by first [lia | by rewrite Nat2Z.inj_add; rewrite <- Z.add_assoc in HX].
  by replace (t + 8)%nat with (S (S (S (S (S (S (S (S t)))))))) by lia.
Qed.

Lemma assign_ROUND_00_15 {D} (t : nat) i a b c d e f g h w (k : Z -> Z -> vars * D) l (data : D) r :
  word W t = w -> Z.of_nat t = i ->
  (forall d' h', k d' h' = (fold_left (sha256_step W) l (h', a, b, c, d', e, f, g), data)) ->
  r = (fold_left (sha256_step W) (t :: l) (a, b, c, d, e, f, g, h), data) ->
  ('(d, h) <~ ROUND_00_15 i a b c d e f g h w; k d h) = r.
Proof.
  intros Hw <- Hk ->. unfold assign. pose proof (ROUND_00_15_step t a b c d e f g h w W Hw) as H.
  destruct (ROUND_00_15 _ _ _ _ _ _ _ _ _ _) as [d' h']. cbn [fold_left]. rewrite H. apply Hk.
Qed.

End Rounds.

(** One load, into the buffer and T1, and the round that uses it. *)
Ltac sha256_load_round W :=
  do 3 (let x := fresh in let E := fresh in
        next_assignment x E; try subst x);
  eapply (assign_ROUND_00_15 W); [shelve|shelve|intros ? ?|reflexivity].

Lemma sha256_rounds_spec a b c d e f g h data :
  sha256_rounds a b c d e f g h data
  = (fold_left (sha256_step (schedule sha256_next 48 (block_words CRYPTO_load_u32_be data))) (seq 0 64)
       (a, b, c, d, e, f, g, h), drop 64 data).
Proof.
  remember (block_words CRYPTO_load_u32_be data) as W0 eqn:E0.
  assert (HW0 : length W0 = 16%nat) by by rewrite E0.
  remember (schedule sha256_next 48 W0) as W eqn:EW.
  unfold block_words in E0. cbn [seq fmap list_fmap Nat.mul Nat.add] in E0. rewrite (drop_0 data) in E0.
  change (seq 0 64) with (seq 0 16 ++ seq 16 (8 * 6)). cbn [seq app]. unfold sha256_rounds.
  next_assignment X EX. subst X. do 16 sha256_load_round W.
  Unshelve. all: try (rewrite EW, word_schedule, E0 by (rewrite HW0; lia); reflexivity). all: try reflexivity.
  match goal with |- (sha256_rounds_16_63 _ _ _ _ _ _ _ _ _ _ ?X, _) = _ => replace X with W0 by (rewrite E0; reflexivity) end.
  f_equal. apply (sha256_rounds_16_63_steps W0 W HW0 EW 6 16); [|lia|lia].
  split; [done|]. intros t Ht. rewrite EW, word_schedule by (rewrite HW0; lia). by rewrite Nat.mod_small by lia.
Qed.

Lemma sha256_loop_absorb n state data :
  len data = Z.of_nat n * 64 -> sha256_loop n state data = absorb 64 sha256_compress n state data.
Proof.
  apply (absorb_loop 64 sha256_compress); [done| |lia].
  intros k h d Hd. cbn [sha256_loop]. rewrite sha256_rounds_spec. unfold sha256_compress.
  rewrite block_words_ztake by (intros; by apply load_be_block).
  by destruct (fold_left _ _ _) as [[[[[[[v0 v1] v2] v3] v4] v5] v6] v7].
Qed.

(** The block function of SHA-256, as the collector uses it. *)
#[refine] Definition sha256_md32 : Md32 := {|
  block_size := 64;
  compress := sha256_compress;
  block_func := sha256_block_data_order;
|}.
Proof.
  - lia.
  - intros h data n Hn Hl. apply sha256_loop_absorb. lia.
Defined.

(** ** The interface *)
Record SHA256_CTX := { sha256_md : md32_ctx; md_len : Z }.

Definition BCM_SHA256_DIGEST_LENGTH : Z := 32.
Definition BCM_SHA224_DIGEST_LENGTH : Z := 28.

Section Digest.
Context `{PF : Platform}.

Definition BCM_sha224_init : SHA256_CTX :=
  {| sha256_md := {| md_h := [0xc1059ed8; 0x367cd507; 0x3070dd17; 0xf70e5939; 0xffc00b31; 0x68581511; 0x64f98fa7; 0xbefa4fa4];
                     md_Nl := 0; md_Nh := 0; md_data := zeros 64; md_num := 0 |};
     md_len := BCM_SHA224_DIGEST_LENGTH |}.

Definition BCM_sha256_init : SHA256_CTX :=
  {| sha256_md := {| md_h := [0x6a09e667; 0xbb67ae85; 0x3c6ef372; 0xa54ff53a; 0x510e527f; 0x9b05688c; 0x1f83d9ab; 0x5be0cd19];
                     md_Nl := 0; md_Nh := 0; md_data := zeros 64; md_num := 0 |};
     md_len := BCM_SHA256_DIGEST_LENGTH |}.

Definition BCM_sha256_transform (c : SHA256_CTX) (data : list Z) : SHA256_CTX :=
  {| sha256_md := {| md_h := sha256_block_data_order (md_h (sha256_md c)) data 1;
                     md_Nl := md_Nl (sha256_md c); md_Nh := md_Nh (sha256_md c);
                     md_data := md_data (sha256_md c); md_num := md_num (sha256_md c) |};
     md_len := md_len c |}.

Definition BCM_sha256_update (c : SHA256_CTX) (data : list Z) : option SHA256_CTX :=
  m ← crypto_md32_update (MD := sha256_md32) (sha256_md c) data;
  Some {| sha256_md := m; md_len := md_len c |}.
Definition BCM_sha224_update (ctx : SHA256_CTX) (data : list Z) : option SHA256_CTX := BCM_sha256_update ctx data.

(** [None] is also the abort of BSSL_CHECK. *)
Definition sha256_final_impl (out_len : Z) (c : SHA256_CTX) : option (list Z * SHA256_CTX) :=
  m ← crypto_md32_final (MD := sha256_md32) true (sha256_md c);
  if BCM_SHA256_DIGEST_LENGTH <? out_len then None else
  let out_words := Z.to_nat (out_len / 4) in
  Some (concat ((fun i => CRYPTO_store_u32_be (word (md_h m) i)) <$> seq 0 out_words),
        {| sha256_md := m; md_len := md_len c |}).

Definition BCM_sha256_final (c : SHA256_CTX) : option (list Z * SHA256_CTX) := sha256_final_impl (md_len c) c.
Definition BCM_sha224_final (ctx : SHA256_CTX) : option (list Z * SHA256_CTX) :=
  if md_len ctx =? BCM_SHA224_DIGEST_LENGTH then sha256_final_impl BCM_SHA224_DIGEST_LENGTH ctx else None.

Definition SHA224_Init : SHA256_CTX := BCM_sha224_init.
Definition SHA224_Update (sha : SHA256_CTX) (data : list Z) : option SHA256_CTX := BCM_sha224_update sha data.
Definition SHA224_Final (sha : SHA256_CTX) : option (list Z * SHA256_CTX) := BCM_sha224_final sha.
Definition SHA224 (data : list Z) : option (list Z) :=
  let ctx := BCM_sha224_init in
  ctx ← BCM_sha224_update ctx data;
  '(out, _) ← BCM_sha224_final ctx;
  Some out.

Definition SHA256_Init : SHA256_CTX := BCM_sha256_init.
Definition SHA256_Update (sha : SHA256_CTX) (data : list Z) : option SHA256_CTX := BCM_sha256_update sha data.

(** The digest is [None] where SHA256_Final returns 0 and writes nothing. *)
Definition SHA256_Final (sha : SHA256_CTX) : option (option (list Z) * SHA256_CTX) :=
  if BCM_SHA256_DIGEST_LENGTH <? md_len sha then Some (None, sha) else
  '(out, sha) ← BCM_sha256_final sha;
  Some (Some out, sha).

Definition SHA256 (data : list Z) : option (list Z) :=
  let ctx := BCM_sha256_init in
  ctx ← BCM_sha256_update ctx data;
  '(out, _) ← BCM_sha256_final ctx;
  Some out.

Definition SHA256_Transform (sha : SHA256_CTX) (block : list Z) : SHA256_CTX := BCM_sha256_transform sha block.
Definition SHA256_TransformBlocks (state data : list Z) (num_blocks : Z) : list Z :=
  sha256_block_data_order state data num_blocks.

(** The references. The initial value of SHA-224 is the second half of the 64-bit fractions of the
    square roots of the ninth to sixteenth primes, 23 to 53. *)
Definition sha224_iv : list Z := (fun p => u32 (Z.sqrt (p * 2 ^ 128))) <$> primes 31 23.
Definition sha256_hash (m : list Z) : list Z := concat (be_bytes 4 <$> md_state (MD := sha256_md32) true sha256_iv m).
Definition sha224_hash (m : list Z) : list Z :=
  concat (be_bytes 4 <$> take 7 (md_state (MD := sha256_md32) true sha224_iv m)).

Lemma SHA256_Init_fresh : sha256_md SHA256_Init = fresh_ctx (MD := sha256_md32) sha256_iv.
Proof. vm_compute. reflexivity. Qed.
Lemma SHA224_Init_fresh : sha256_md SHA224_Init = fresh_ctx (MD := sha256_md32) sha224_iv.
Proof. vm_compute. reflexivity. Qed.

Lemma feed_sha256 c pieces : feed BCM_sha256_update c pieces =
  m ← feed (crypto_md32_update (MD := sha256_md32)) (sha256_md c) pieces; Some {| sha256_md := m; md_len := md_len c |}.
Proof.
  revert c. induction pieces as [|p ps IH]; intros c; [by destruct c|]. cbn [feed].
  assert (BCM_sha256_update c p = m ← crypto_md32_update (MD := sha256_md32) (sha256_md c) p;
    Some {| sha256_md := m; md_len := md_len c |}) as -> by done.
  destruct (crypto_md32_update (sha256_md c) p) as [m|]; [|done]. cbn [mbind option_bind]. apply IH.
Qed.

Lemma sha256_compress_8 h b : exists v, sha256_compress h b = v /\ length v = 8%nat /\ words32 v.
Proof.
  eexists. split; [done|]. unfold sha256_compress.
  destruct (fold_left _ _ _) as [[[[[[[v0 v1] v2] v3] v4] v5] v6] v7]. split; [done|].
  repeat (apply List.Forall_cons; [by apply wrap_range|]). apply List.Forall_nil.
Qed.

Lemma sha256_final_words v k : length v = 8%nat -> words32 v -> (k <= 8)%nat ->
  concat ((fun i => CRYPTO_store_u32_be (word v i)) <$> seq 0 k) = concat (be_bytes 4 <$> take k v).
Proof.
  intros Hl Hv Hk. rewrite <- store_words_be by by apply Forall_take. f_equal.
  destruct v as [|v0 [|v1 [|v2 [|v3 [|v4 [|v5 [|v6 [|v7 [|]]]]]]]]]; try discriminate.
  do 9 (destruct k as [|k]; [done|]). lia.
Qed.

(** Both digests, from the initial value [iv] and the output length. *)
Lemma sha256_family_digest init iv out_len pieces :
  sha256_md init = fresh_ctx (MD := sha256_md32) iv -> 0 <= out_len <= 32 -> Forall (fun p => is_word (len p)) pieces ->
  (c ← feed BCM_sha256_update init pieces; '(out, _) ← sha256_final_impl out_len c; Some out)
  = Some (concat (be_bytes 4 <$> take (Z.to_nat (out_len / 4)) (md_state (MD := sha256_md32) true iv (concat pieces)))).
Proof.
  intros Hinit Ho Hps. destruct (md32_digest (MD := sha256_md32) true iv pieces Hps) as (c & c' & E1 & E2 & Eh).
  rewrite feed_sha256, Hinit, E1. cbn [mbind option_bind]. unfold sha256_final_impl. cbn [sha256_md].
  rewrite E2. cbn [mbind option_bind]. unfold BCM_SHA256_DIGEST_LENGTH. destruct (Z.ltb_spec 32 out_len); [lia|].
  cbn [mbind option_bind]. rewrite <- Eh.
  destruct (md_state_compress (MD := sha256_md32) true iv (concat pieces)) as (h & b & E).
  destruct (sha256_compress_8 h b) as (v & Ev & Hl & Hv).
  assert (Ehv : md_h c' = v) by (rewrite Eh, E; exact Ev). rewrite Ehv.
  rewrite sha256_final_words; [done..|]. assert (out_len / 4 <= 8) by (apply Z.div_le_upper_bound; lia). lia.
Qed.

Lemma sha256_state_8 iv m : take 8 (md_state (MD := sha256_md32) true iv m) = md_state (MD := sha256_md32) true iv m.
Proof.
  apply take_ge. destruct (md_state_compress (MD := sha256_md32) true iv m) as (h & b & ->).
  destruct (sha256_compress_8 h b) as (v & Ev & Hl & _). change (@compress sha256_md32) with sha256_compress. rewrite Ev. lia.
Qed.

Lemma SHA256_Final_impl c : md_len c = 32 ->
  SHA256_Final c = '(out, sha) ← sha256_final_impl 32 c; Some (Some out, sha).
Proof. intros E. unfold SHA256_Final, BCM_sha256_final. by rewrite E. Qed.

Lemma SHA256_digest pieces : Forall (fun p => is_word (len p)) pieces ->
  (c ← feed SHA256_Update SHA256_Init pieces; '(out, _) ← SHA256_Final c; Some out)
  = Some (Some (sha256_hash (concat pieces))).
Proof.
  intros Hps. pose proof (sha256_family_digest SHA256_Init sha256_iv 32 pieces SHA256_Init_fresh ltac:(lia) Hps) as E.
  change (Z.to_nat (32 / 4)) with 8%nat in E. rewrite sha256_state_8 in E. fold (sha256_hash (concat pieces)) in E.
  change SHA256_Update with BCM_sha256_update. rewrite feed_sha256 in E |- *.
  destruct (feed _ (sha256_md SHA256_Init) pieces) as [m|]; [|done]. cbn [mbind option_bind] in E |- *.
  rewrite SHA256_Final_impl by done. destruct (sha256_final_impl _ _) as [[out c]|]; [|done].
  cbn [mbind option_bind] in E |- *. congruence.
Qed.

Lemma SHA224_digest pieces : Forall (fun p => is_word (len p)) pieces ->
  (c ← feed SHA224_Update SHA224_Init pieces; '(out, _) ← SHA224_Final c; Some out) = Some (sha224_hash (concat pieces)).
Proof.
  intros Hps. pose proof (sha256_family_digest SHA224_Init sha224_iv 28 pieces SHA224_Init_fresh ltac:(lia) Hps) as E.
  change SHA224_Update with BCM_sha256_update. rewrite feed_sha256 in E |- *.
  destruct (feed _ (sha256_md SHA224_Init) pieces) as [m|]; [|done]. cbn [mbind option_bind] in E |- *. exact E.
Qed.

End Digest.

(** "abc" *)
Example sha256_abc : SHA256 (PF := LP64) [0x61; 0x62; 0x63] =
  Some [0xba; 0x78; 0x16; 0xbf; 0x8f; 0x01; 0xcf; 0xea; 0x41; 0x41; 0x40; 0xde; 0x5d; 0xae; 0x22; 0x23;
        0xb0; 0x03; 0x61; 0xa3; 0x96; 0x17; 0x7a; 0x9c; 0xb4; 0x10; 0xff; 0x61; 0xf2; 0x00; 0x15; 0xad].
Proof. vm_compute. reflexivity. Qed.
