(* ===== verification/Digests.v ===== *)
(** The digests over the collector together: MD4, MD5, SHA-1, SHA-224 and SHA-256 compute the hash
    functions of RFC 1320, RFC 1321 and FIPS 180-4 on messages given in any pieces. *)
From S2P Require Import Prelude.
From S2P Require Import Internal.
From S2P Require Import Heap.
From S2P Require Import Md32.
From S2P Require Import Md4.
From S2P Require Import Md5.
From S2P Require Import Sha1.
From S2P Require Import Sha256.

Open Scope Z_scope.

Section Digests.
Context `{PF : Platform}.

(** C9: the streaming digests are the hash functions: for every message, in whatever pieces it is
    given to the update functions, MD4, MD5, SHA-1, SHA-224 and SHA-256 stay inside their buffers
    and produce the digest of the whole message: the message padded to blocks and folded with the
    compression function of the standard, written with its step functions, its message schedule and
    constants computed from square roots, cube roots and sines. *)
Theorem digest_streams_correct (pieces : list (list Z)) (Hps : Forall (fun p => is_word (len p)) pieces) :
  (c ← feed MD4_Update MD4_Init pieces; '(out, _) ← MD4_Final c; Some out) = Some (md4_hash (concat pieces)) /\
  (c ← feed MD5_Update MD5_Init pieces; '(out, _) ← MD5_Final c; Some out) = Some (md5_hash (concat pieces)) /\
  (c ← feed SHA1_Update SHA1_Init pieces; '(out, _) ← SHA1_Final c; Some out) = Some (sha1_hash (concat pieces)) /\
  (c ← feed SHA224_Update SHA224_Init pieces; '(out, _) ← SHA224_Final c; Some out) = Some (sha224_hash (concat pieces)) /\
  (c ← feed SHA256_Update SHA256_Init pieces; '(out, _) ← SHA256_Final c; Some out) = Some (Some (sha256_hash (concat pieces))).
Proof.
  split; [by apply MD4_digest|]. split; [by apply MD5_digest|]. split; [by apply SHA1_digest|].
  split; [by apply SHA224_digest|by apply SHA256_digest].
Qed.

(** A single update is a message of one piece. *)
Lemma feed_one {C} (update : C -> list Z -> option C) c p : feed update c [p] = update c p.
Proof. simpl. by destruct (update c p). Qed.

(** The one-shot functions. *)
Theorem digest_oneshot_correct (data : list Z) (Hd : is_word (len data)) :
  MD4 data = Some (md4_hash data) /\ MD5 data = Some (md5_hash data) /\ SHA1 data = Some (sha1_hash data) /\
  SHA224 data = Some (sha224_hash data) /\ SHA256 data = Some (sha256_hash data).
Proof.
  assert (Hps : Forall (fun p => is_word (len p)) [data]) by (apply List.Forall_cons; [done|apply List.Forall_nil]).
  pose proof (MD4_digest [data] Hps) as H4. pose proof (MD5_digest [data] Hps) as H5.
  pose proof (SHA1_digest [data] Hps) as H1. pose proof (SHA224_digest [data] Hps) as H224.
  pose proof (sha256_family_digest SHA256_Init sha256_iv 32 [data] SHA256_Init_fresh ltac:(lia) Hps) as H256.
  change (Z.to_nat (32 / 4)) with 8%nat in H256. rewrite sha256_state_8 in H256.
  rewrite feed_one in H4, H5, H1. rewrite feed_one in H224, H256. cbn [concat] in H4, H5, H1, H224, H256.
  rewrite app_nil_r in H4, H5, H1, H224, H256.
  split; [exact H4|]. split; [exact H5|]. split; [exact H1|]. split; [exact H224|].
  revert H256. unfold SHA256. change SHA256_Init with BCM_sha256_init. unfold BCM_sha256_update.
  destruct (crypto_md32_update _ data) as [m|]; [|done]. intros H256. exact H256.
Qed.

End Digests.

Lemma digest_streams_correct_witness :
  (c ← feed (MD5_Update (PF := LP64)) MD5_Init [[0x61]; [0x62; 0x63]]; '(out, _) ← MD5_Final c; Some out)
  = Some [0x90; 0x01; 0x50; 0x98; 0x3c; 0xd2; 0x4f; 0xb0; 0xd6; 0x96; 0x3f; 0x7d; 0x28; 0xe1; 0x7f; 0x72].
Proof.
  rewrite (proj1 (proj2 (digest_streams_correct (PF := LP64) [[0x61]; [0x62; 0x63]]
    ltac:(repeat (apply List.Forall_cons; [split; vm_compute; congruence|]); apply List.Forall_nil)))).
  vm_compute. reflexivity.
Defined.
