(* ===== verification/TlsCbc.v ===== *)
(** The constant-time processing of a decrypted TLS CBC record: crypto/cipher/tls_cbc.cc. This file
    has the removal of the padding and the extraction of the MAC; [TlsCbcDigest] has the digest. *)
From S2P Require Import Prelude.
From S2P Require Import Internal.

Open Scope Z_scope.

Section TlsCbc.
Context `{PF : Platform}.

(** ** EVP_tls_cbc_remove_padding *)

(** The loop over the last [to_check] bytes: [n] of them are left, from index [i] on. [None] is a
    read out of bounds. *)
Fixpoint check_padding (n : nat) (inp : list Z) (padding_length i good : Z) : option Z :=
  match n with
  | O => Some good
  | S n =>
      let mask := constant_time_ge_8 padding_length i in
      b ← znth inp (len inp - 1 - i);
      let good := Z.land good (wnot size_bits (Z.land mask (Z.lxor padding_length b))) in
      check_padding n inp padding_length (i + 1) good
  end.

(** [Some None] is the return value 0; otherwise the result is [*out_padding_ok] and [*out_len]. *)
Definition EVP_tls_cbc_remove_padding (inp : list Z) (mac_size : Z) : option (option (Z * Z)) :=
  let in_len := len inp in
  let overhead := wrap size_bits (1 + mac_size) in
  if in_len <? overhead then Some None else
  padding_length ← znth inp (in_len - 1);
  let good := constant_time_ge_w in_len (wrap size_bits (overhead + padding_length)) in
  let to_check := if in_len <? 256 then in_len else 256 in
  good ← check_padding (Z.to_nat to_check) inp padding_length 0 good;
  let good := constant_time_eq_w 0xff (Z.land good 0xff) in
  let padding_length := Z.land good (padding_length + 1) in
  Some (Some (good, wrap size_bits (in_len - padding_length))).

(** ** EVP_tls_cbc_copy_mac *)

(** The scan: [n] bytes are left, [i] is the index in [inp] and [j] the one in [rotated_mac]. *)
Fixpoint scan_mac (n : nat) (md_size : Z) (inp : list Z) (mac_start mac_end i j : Z)
    (rotated_mac : list Z) (rotate_offset mac_started : Z) : option (list Z * Z) :=
  match n with
  | O => Some (rotated_mac, rotate_offset)
  | S n =>
      let j := if md_size <=? j then j - md_size else j in
      let is_mac_start := constant_time_eq_w i mac_start in
      let mac_started := u8 (Z.lor mac_started is_mac_start) in
      let mac_ended := constant_time_ge_8 i mac_end in
      b ← znth inp i;
      r ← znth rotated_mac j;
      let rotated_mac := zupd rotated_mac j (u8 (Z.lor r (Z.land (Z.land b mac_started) (Z.lnot mac_ended)))) in
      let rotate_offset := Z.lor rotate_offset (Z.land j is_mac_start) in
      scan_mac n md_size inp mac_start mac_end (i + 1) (j + 1) rotated_mac rotate_offset mac_started
  end.

(** The inner loop of a rotation step: [rotated_mac_tmp] from index [i] on. *)
Fixpoint rotate_into (n : nat) (md_size skip_rotate i j : Z) (rotated_mac : list Z) : option (list Z) :=
  match n with
  | O => Some []
  | S n =>
      let j := if md_size <=? j then j - md_size else j in
      x ← znth rotated_mac i;
      y ← znth rotated_mac j;
      rest ← rotate_into n md_size skip_rotate (i + 1) (j + 1) rotated_mac;
      Some (constant_time_select_8 skip_rotate x y :: rest)
  end.

(** The rotation steps. [offset] doubles until it reaches [md_size], so [fuel] steps are enough when
    [md_size <= 2^fuel]. *)
Fixpoint rotate_mac (fuel : nat) (md_size offset rotate_offset : Z) (rotated_mac : list Z) : option (list Z) :=
  if offset <? md_size then
    match fuel with
    | O => None
    | S fuel =>
        let skip_rotate := u8 (Z.land rotate_offset 1 - 1) in
        rotated_mac_tmp ← rotate_into (Z.to_nat md_size) md_size skip_rotate 0 offset rotated_mac;
        rotate_mac fuel md_size (wrap size_bits (Z.shiftl offset 1)) (Z.shiftr rotate_offset 1) rotated_mac_tmp
    end
  else Some rotated_mac.

Definition EVP_MAX_MD_SIZE : Z := 64.

(** [inp] is the buffer of [orig_len] bytes. The two arrays are their first [md_size] bytes, which
    are the ones used. *)
Definition EVP_tls_cbc_copy_mac (md_size : Z) (inp : list Z) (in_len : Z) : option (list Z) :=
  let orig_len := len inp in
  let mac_end := in_len in
  let mac_start := mac_end - md_size in
  let scan_start := if md_size + 255 + 1 <? orig_len then orig_len - (md_size + 255 + 1) else 0 in
  '(rotated_mac, rotate_offset) ←
    scan_mac (Z.to_nat (orig_len - scan_start)) md_size inp mac_start mac_end scan_start 0
      (replicate (Z.to_nat md_size) 0) 0 0;
  rotate_mac 6 md_size 1 rotate_offset rotated_mac.

(** ** The padding *)

Lemma constant_time_ge_w_mask a b : is_word a -> is_word b -> constant_time_ge_w a b = word_mask (b <=? a).
Proof.
  intros Ha Hb. unfold constant_time_ge_w. rewrite constant_time_lt_w_mask, wnot_word_mask by done.
  f_equal. zcases; try lia; done.
Qed.
Lemma constant_time_ge_8_mask a b : is_word a -> is_word b -> constant_time_ge_8 a b = if b <=? a then 255 else 0.
Proof. intros. unfold constant_time_ge_8. rewrite constant_time_ge_w_mask, u8_word_mask by done. done. Qed.

(** The padding is valid when it leaves room for the MAC and its bytes, length byte included, are
    all the length. *)
Definition padding_valid (inp : list Z) (mac_size p : Z) : bool :=
  (mac_size + p + 1 <=? len inp) && forallb (Z.eqb p) (zdrop (len inp - (p + 1)) inp).

Definition low_ones (g : Z) : Prop := forall i, 0 <= i < 8 -> Z.testbit g i = true.

Lemma low_ones_land a b : low_ones (Z.land a b) <-> low_ones a /\ low_ones b.
Proof.
  unfold low_ones. split.
  - intros H. split; intros i Hi; specialize (H i Hi); rewrite Z.land_spec in H; apply andb_true_iff in H as [??]; done.
  - intros [Ha Hb] i Hi. rewrite Z.land_spec, Ha, Hb by done. done.
Qed.

Lemma low_ones_wnot x : 0 <= x < 256 -> low_ones (wnot size_bits x) <-> x = 0.
Proof.
  intros Hx. pose proof size_bits_pos. split; [|intros ->].
  - intros Hl. apply Z.bits_inj'. intros i Hi. rewrite Z.bits_0.
    destruct (Z.lt_ge_cases i 8); [|by apply (testbit_small 8)].
    specialize (Hl i ltac:(lia)). rewrite wnot_testbit in Hl by lia. destruct (Z.testbit x i); [|done].
    by rewrite andb_false_r in Hl.
  - intros i Hi. rewrite wnot_testbit, Z.bits_0 by lia. by rewrite (proj2 (Z.ltb_lt i size_bits)) by lia.
Qed.

Lemma low_ones_mask b : low_ones (word_mask b) <-> b = true.
Proof.
  pose proof size_bits_pos. unfold word_mask. destruct b; split; try done.
  - intros _ i Hi. replace (2 ^ size_bits - 1) with (Z.ones size_bits) by (rewrite Z.ones_equiv; lia).
    rewrite Z.ones_spec_low by lia. done.
  - intros Hl. specialize (Hl 0 ltac:(lia)). by rewrite Z.bits_0 in Hl.
Qed.

Lemma low_ones_255 g : Z.land g 255 = 255 <-> low_ones g.
Proof.
  change 255 with (Z.ones 8). split.
  - intros H i Hi. assert (E : Z.testbit (Z.land g (Z.ones 8)) i = Z.testbit (Z.ones 8) i) by by rewrite H.
    rewrite Z.land_spec, Z.ones_spec_low, andb_true_r in E by lia. done.
  - intros Hl. apply Z.bits_inj'. intros i Hi. rewrite Z.land_spec.
    destruct (Z.lt_ge_cases i 8); [rewrite Hl by lia; done|]. rewrite Z.ones_spec_high by lia. by rewrite andb_false_r.
Qed.

(** One step of the check clears a low bit exactly on a wrong padding byte. *)
Lemma padding_step p i b : is_byte p -> is_byte b -> is_word i ->
  low_ones (wnot size_bits (Z.land (constant_time_ge_8 p i) (Z.lxor p b))) <-> (i <= p -> b = p).
Proof.
  intros Hp Hb Hi. assert (Hx : 0 <= Z.lxor p b < 2 ^ 8) by (apply lxor_range; [lia|exact Hp|exact Hb]).
  rewrite constant_time_ge_8_mask; [|unfold is_byte, is_word in *; platform; lia|done].
  assert (Hm : Z.land (if i <=? p then 255 else 0) (Z.lxor p b) = if i <=? p then Z.lxor p b else 0).
  { destruct (i <=? p); [|apply Z.land_0_l]. change 255 with (Z.ones 8). rewrite Z.land_comm, Z.land_ones by lia.
    by apply Z.mod_small. }
  rewrite Hm. rewrite low_ones_wnot by (destruct (i <=? p); lia).
  destruct (Z.leb_spec i p); [rewrite Z.lxor_eq_0_iff|]; split; intros; try lia.
Qed.

Lemma check_padding_spec n inp p i good :
  bytes inp -> is_byte p -> is_word (len inp) -> 0 <= i -> i + Z.of_nat n <= len inp ->
  exists g, check_padding n inp p i good = Some g /\
    (low_ones g <-> low_ones good /\ forall k, i <= k < i + Z.of_nat n -> k <= p -> znth inp (len inp - 1 - k) = Some p).
Proof.
  intros Hb Hp Hw. revert i good. induction n as [|n IH]; intros i good Hi Hn.
  - exists good. split; [done|]. split; [intros H; split; [done|lia]|by intros [H _]].
  - cbn [check_padding]. assert (exists b, znth inp (len inp - 1 - i) = Some b /\ is_byte b) as (b & Eb & Hbb).
    { unfold znth. rewrite (proj2 (Z.ltb_ge _ _)) by lia.
      destruct (lookup_lt_is_Some_2 inp (Z.to_nat (len inp - 1 - i))) as [b Eb]; [unfold len in *; lia|].
      exists b. split; [done|]. by apply (Forall_lookup_1 _ _ _ _ Hb Eb). }
    rewrite Eb. cbn [mbind option_bind].
    destruct (IH (i + 1) (Z.land good (wnot size_bits (Z.land (constant_time_ge_8 p i) (Z.lxor p b))))) as (g & Eg & Hg);
      [lia|lia|]. exists g. split; [done|]. rewrite Hg, low_ones_land, padding_step; [|done|done|unfold is_word in *; lia].
    split.
    + intros [[Hgood Hstep] Hrest]. split; [done|]. intros k Hk Hkp.
      destruct (Z.eq_dec k i) as [->|]; [rewrite Eb; f_equal; by apply Hstep|]. apply Hrest; lia.
    + intros [Hgood Hall]. split; [split; [done|]|].
      * intros Hip. assert (E : znth inp (len inp - 1 - i) = Some p) by (apply Hall; lia). congruence.
      * intros k Hk Hkp. apply Hall; lia.
Qed.

(** The bytes of a suffix by their distance from the end. *)
Lemma forallb_suffix inp p : 0 <= p < len inp ->
  forallb (Z.eqb p) (zdrop (len inp - (p + 1)) inp) = true <->
  forall k, 0 <= k <= p -> znth inp (len inp - 1 - k) = Some p.
Proof.
  intros Hp. rewrite forallb_forall. split.
  - intros H k Hk. unfold znth. rewrite (proj2 (Z.ltb_ge _ _)) by lia.
    destruct (lookup_lt_is_Some_2 inp (Z.to_nat (len inp - 1 - k))) as [b Eb]; [unfold len in *; lia|].
    rewrite Eb. f_equal. symmetry. apply Z.eqb_eq, H. apply list_elem_of_In, list_elem_of_lookup.
    exists (Z.to_nat (p - k)). unfold zdrop. rewrite lookup_drop. by replace (_ + _)%nat with (Z.to_nat (len inp - 1 - k)) by lia.
  - intros H x Hx%list_elem_of_In%list_elem_of_lookup. destruct Hx as [i Hi]. apply Z.eqb_eq.
    unfold zdrop in Hi. rewrite lookup_drop in Hi. pose proof (lookup_lt_Some _ _ _ Hi) as Hl.
    specialize (H (p - Z.of_nat i) ltac:(unfold len in *; lia)). unfold znth in H.
    rewrite (proj2 (Z.ltb_ge _ _)) in H by (unfold len in *; lia).
    replace (Z.to_nat (len inp - 1 - (p - Z.of_nat i))) with (Z.to_nat (len inp - (p + 1)) + i)%nat in H by (unfold len in *; lia).
    congruence.
Qed.

Lemma remove_padding_branches inp mac_size :
  bytes inp -> is_word (len inp) -> 0 <= mac_size <= EVP_MAX_MD_SIZE ->
  EVP_tls_cbc_remove_padding inp mac_size =
  Some (if len inp <? 1 + mac_size then None else
        let p := default 0 (znth inp (len inp - 1)) in
        if padding_valid inp mac_size p then Some (CONSTTIME_TRUE_W, len inp - (p + 1)) else Some (CONSTTIME_FALSE_W, len inp)).
Proof.
  intros Hb Hw Hm. unfold EVP_MAX_MD_SIZE in Hm. unfold EVP_tls_cbc_remove_padding.
  assert (H8 : 2 ^ 32 <= 2 ^ size_bits) by (platform; lia).
  rewrite wrap_small by lia. destruct (Z.ltb_spec (len inp) (1 + mac_size)) as [Hs|Hs]; [done|].
  destruct (lookup_lt_is_Some_2 inp (Z.to_nat (len inp - 1))) as [p Ep]; [unfold len in *; lia|].
  assert (Ez : znth inp (len inp - 1) = Some p) by (unfold znth; by rewrite (proj2 (Z.ltb_ge _ _)) by lia).
  rewrite Ez. change (default 0 (Some p)) with p. cbn [mbind option_bind]. assert (Hp : is_byte p) by apply (Forall_lookup_1 _ _ _ _ Hb Ep).
  unfold is_byte, is_word in *. rewrite wrap_small by lia.
  set (to_check := if len inp <? 256 then len inp else 256).
  assert (Htc : 0 <= to_check <= len inp /\ to_check <= 256) by (unfold to_check; zcases; lia).
  destruct (check_padding_spec (Z.to_nat to_check) inp p 0 (constant_time_ge_w (len inp) (1 + mac_size + p)))
    as (g & -> & Hg); [done..|lia|lia|]. cbn [mbind option_bind].
  rewrite constant_time_ge_w_mask, low_ones_mask in Hg by (unfold is_word; lia).
  assert (Hval : low_ones g <-> padding_valid inp mac_size p = true).
  { rewrite Hg. unfold padding_valid. rewrite andb_true_iff, !Z.leb_le. split.
    - intros [Hroom Hall]. split; [lia|]. apply forallb_suffix; [lia|]. intros k Hk. apply Hall; [|lia].
      unfold to_check. zcases; lia.
    - intros [Hroom Hall]. split; [lia|]. intros k Hk Hkp. rewrite forallb_suffix in Hall by lia. apply Hall. lia. }
  assert (Heq : constant_time_eq_w 255 (Z.land g 255) = word_mask (padding_valid inp mac_size p)).
  { assert (Hl : 0 <= Z.land g 255 < 2 ^ 8) by (rewrite Z.land_comm; apply land_range; lia).
    rewrite constant_time_eq_w_mask by (unfold is_word; lia). f_equal.
    destruct (Z.eqb_spec 255 (Z.land g 255)) as [E|E].
    - symmetry. by apply Hval, low_ones_255.
    - symmetry. apply not_true_iff_false. intros Hv. apply E. symmetry. by apply low_ones_255, Hval. }
  rewrite Heq. destruct (padding_valid inp mac_size p) eqn:Hv.
  - unfold padding_valid in Hv. apply andb_true_iff in Hv as [Hroom _]. apply Z.leb_le in Hroom.
    assert (Z.land (word_mask true) (p + 1) = p + 1) as ->.
    { unfold word_mask. replace (2 ^ size_bits - 1) with (Z.ones size_bits) by (rewrite Z.ones_equiv; lia).
      pose proof size_bits_pos. rewrite Z.land_comm, Z.land_ones by lia. apply Z.mod_small. lia. }
    rewrite wrap_small by lia. do 3 f_equal. symmetry. apply (wnot_word_mask false).
  - unfold word_mask. rewrite Z.land_0_l, Z.sub_0_r, wrap_small by lia. done.
Qed.

(** ** The MAC *)

Lemma znth_byte l i b : bytes l -> znth l i = Some b -> is_byte b.
Proof. unfold znth. intros Hl. destruct (i <? 0); [done|]. intros E. by apply (Forall_lookup_1 _ _ _ _ Hl E). Qed.

Lemma znth_ext (l k : list Z) : len l = len k -> (forall i, 0 <= i < len l -> znth l i = znth k i) -> l = k.
Proof.
  intros Hl H. apply list_eq. intros i. destruct (decide (i < length l)%nat) as [Hi|Hi].
  - specialize (H (Z.of_nat i) ltac:(unfold len; lia)). unfold znth in H. rewrite (proj2 (Z.ltb_ge _ _)) in H by lia.
    by rewrite Nat2Z.id in H.
  - rewrite !lookup_ge_None_2; [done|unfold len in Hl; lia|lia].
Qed.

Lemma word_mask_land b x : is_word x -> Z.land x (word_mask b) = if b then x else 0.
Proof.
  intros Hx. pose proof size_bits_pos. unfold word_mask. destruct b; [|apply Z.land_0_r].
  replace (2 ^ size_bits - 1) with (Z.ones size_bits) by (rewrite Z.ones_equiv; lia).
  rewrite Z.land_ones by lia. by apply Z.mod_small.
Qed.

(** The byte that the scan adds to the rotated MAC. *)
Lemma masked_byte b (started ended : bool) : is_byte b ->
  Z.land (Z.land b (if started then 255 else 0)) (Z.lnot (if ended then 255 else 0)) = if started && negb ended then b else 0.
Proof.
  intros Hb. destruct started; [|by rewrite Z.land_0_r, Z.land_0_l]. destruct ended; cbn [andb negb].
  - rewrite <- Z.land_assoc. change (Z.land 255 (Z.lnot 255)) with 0. apply Z.land_0_r.
  - change (Z.lnot 0) with (-1). rewrite Z.land_m1_r. change 255 with (Z.ones 8). rewrite Z.land_ones by lia.
    by apply Z.mod_small.
Qed.

Section CopyMac.
Context (inp : list Z) (md_size mac_start scan_start : Z).
Hypothesis Hbytes : bytes inp.
Hypothesis Hword : is_word (len inp).
Hypothesis Hmd : 0 < md_size.
Hypothesis Hscan : 0 <= scan_start <= mac_start.
Hypothesis Hend : mac_start + md_size <= len inp.

Definition mac_byte (x : Z) : Z := default 0 (znth inp x).

(** The index of [inp] whose byte goes to cell [k], and the cell of [mac_start]. *)
Definition cell (k : Z) : Z := mac_start + (k - (mac_start - scan_start)) mod md_size.
Definition cell_offset : Z := (mac_start - scan_start) mod md_size.

Lemma cell_range k : mac_start <= cell k < mac_start + md_size.
Proof. unfold cell. pose proof (Z.mod_pos_bound (k - (mac_start - scan_start)) md_size Hmd). lia. Qed.

Lemma cell_of i k : mac_start <= i < mac_start + md_size -> 0 <= k < md_size ->
  cell k = i <-> k = (i - scan_start) mod md_size.
Proof.
  intros Hi Hk. unfold cell. split.
  - intros E. assert (E' : (k - (mac_start - scan_start)) mod md_size = i - mac_start) by lia.
    replace (i - scan_start) with ((i - mac_start) + (mac_start - scan_start)) by lia.
    rewrite <- E', Z.add_mod_idemp_l by lia. rewrite Z.sub_add. symmetry. by apply Z.mod_small.
  - intros ->. rewrite Zminus_mod_idemp_l.
    replace (i - scan_start - (mac_start - scan_start)) with (i - mac_start) by lia. rewrite Z.mod_small by lia. lia.
Qed.

Definition scanned (i : Z) (rot : list Z) : Prop :=
  len rot = md_size /\ forall k, 0 <= k < md_size -> znth rot k = Some (if cell k <? i then mac_byte (cell k) else 0).

Lemma scanned_step i rot b r :
  scanned i rot -> 0 <= i < len inp -> znth inp i = Some b ->
  znth rot ((i - scan_start) mod md_size) = Some r ->
  scanned (i + 1) (zupd rot ((i - scan_start) mod md_size)
    (u8 (Z.lor r (if (mac_start <=? i) && negb (mac_start + md_size <=? i) then b else 0)))).
Proof.
  intros [Hl Hrot] Hi Eb Er. pose proof (znth_byte _ _ _ Hbytes Eb) as Hb.
  set (j := (i - scan_start) mod md_size) in *. assert (Hj : 0 <= j < md_size) by (apply Z.mod_pos_bound; lia).
  split; [by rewrite len_zupd|]. intros k Hk. rewrite znth_zupd by lia.
  pose proof (cell_range k) as Hck. rewrite (Hrot j Hj) in Er. injection Er as <-.
  destruct (Z.eqb_spec k j) as [->|Hkj].
  - f_equal. destruct (Z.leb_spec mac_start i) as [H1|H1]; cbn [andb].
    + destruct (Z.leb_spec (mac_start + md_size) i) as [H2|H2]; cbn [negb].
      * rewrite Z.lor_0_r, !(proj2 (Z.ltb_lt _ _)) by lia. apply wrap_small.
        unfold mac_byte. destruct (znth inp (cell j)) as [x|] eqn:Ex; simpl; [by apply (znth_byte _ _ _ Hbytes Ex)|lia].
      * assert (Ec : cell j = i) by (by apply cell_of). rewrite Ec, Z.ltb_irrefl, Z.lor_0_l.
        rewrite (proj2 (Z.ltb_lt _ _)) by lia. unfold mac_byte. rewrite Eb. by apply wrap_small.
    + rewrite Z.lor_0_r, !(proj2 (Z.ltb_ge _ _)) by lia. done.
  - rewrite Hrot by done. f_equal. destruct (Z.ltb_spec (cell k) i), (Z.ltb_spec (cell k) (i + 1)); try done; try lia.
    exfalso. apply Hkj. assert (E : cell k = i) by lia. apply cell_of in E; [done|lia|done].
Qed.

Lemma scan_mac_spec n i j rot ro ms :
  scanned i rot -> 0 <= scan_start <= i -> i + Z.of_nat n = len inp -> 0 <= j <= md_size ->
  (if md_size <=? j then j - md_size else j) = (i - scan_start) mod md_size ->
  ro = (if mac_start <? i then cell_offset else 0) -> ms = (if mac_start <? i then 255 else 0) ->
  exists rot', scan_mac n md_size inp mac_start (mac_start + md_size) i j rot ro ms = Some (rot', cell_offset) /\ scanned (len inp) rot'.
Proof.
  revert i j rot ro ms. induction n as [|n IH]; intros i j rot ro ms Hrot Hsi Hn Hj Ej -> ->.
  - exists rot. cbn [scan_mac]. rewrite (proj2 (Z.ltb_lt mac_start i)) by lia. split; [done|].
    by replace (len inp) with i by lia.
  - cbn [scan_mac]. rewrite Ej. set (jn := (i - scan_start) mod md_size).
    assert (Hjn : 0 <= jn < md_size) by (apply Z.mod_pos_bound; lia). unfold is_word in Hword.
    rewrite constant_time_eq_w_mask, constant_time_ge_8_mask by (unfold is_word; lia).
    destruct (znth_ok inp i) as [b Eb]; [lia|]. rewrite Eb. cbn [mbind option_bind].
    destruct (znth_ok rot jn) as [r Er]; [destruct Hrot; lia|]. rewrite Er. cbn [mbind option_bind].
    assert (Hms : u8 (Z.lor (if mac_start <? i then 255 else 0) (word_mask (i =? mac_start)))
      = if mac_start <=? i then 255 else 0).
    { destruct (Z.ltb_spec mac_start i), (Z.leb_spec mac_start i), (Z.eqb_spec i mac_start); try lia;
        rewrite ?Z.lor_0_l; unfold word_mask at 1; try (by rewrite ?Z.lor_0_r).
      fold (word_mask true). by rewrite u8_word_mask. }
    rewrite Hms, (masked_byte b (mac_start <=? i) (mac_start + md_size <=? i)) by (by apply (znth_byte _ _ _ Hbytes Eb)).
    rewrite word_mask_land by (unfold is_word; lia).
    apply IH; [by apply scanned_step; [|lia|..]|lia|lia|lia| | |].
    + unfold jn. replace (i + 1 - scan_start) with ((i - scan_start) + 1) by lia.
      rewrite <- (Z.add_mod_idemp_l (i - scan_start)) by lia. fold jn. destruct (Z.leb_spec md_size (jn + 1)).
      * replace (jn + 1) with md_size by lia. rewrite Z.mod_same; lia.
      * symmetry. apply Z.mod_small. lia.
    + destruct (Z.ltb_spec mac_start i), (Z.ltb_spec mac_start (i + 1)), (Z.eqb_spec i mac_start) as [Ei|Ei]; try lia;
        rewrite ?Z.lor_0_r, ?Z.lor_0_l; try done. unfold jn, cell_offset. by rewrite Ei.
    + destruct (Z.leb_spec mac_start i), (Z.ltb_spec mac_start (i + 1)); try lia; done.
Qed.

End CopyMac.

Section RotateMac.
Context (md_size : Z).
Hypothesis Hmd : 0 < md_size <= EVP_MAX_MD_SIZE.

Lemma rotate_into_spec n skip (c : bool) i j offset rot :
  bytes rot -> len rot = md_size -> u8 skip = (if c then 255 else 0) -> 0 <= i -> i + Z.of_nat n = md_size ->
  0 <= j <= md_size -> (if md_size <=? j then j - md_size else j) = (i + offset) mod md_size ->
  exists l, rotate_into n md_size skip i j rot = Some l /\ len l = Z.of_nat n /\ bytes l /\
    forall k, 0 <= k < Z.of_nat n -> znth l k = znth rot (if c then i + k else (i + k + offset) mod md_size).
Proof.
  intros Hb Hl Hs. revert i j. induction n as [|n IH]; intros i j Hi Hn Hj Ej.
  - exists []. cbn [rotate_into]. do 3 (split; [done || constructor|]). lia.
  - cbn [rotate_into]. rewrite Ej. set (jn := (i + offset) mod md_size).
    assert (Hjn : 0 <= jn < md_size) by (apply Z.mod_pos_bound; lia).
    destruct (znth_ok rot i) as [x Ex]; [lia|]. destruct (znth_ok rot jn) as [y Ey]; [lia|].
    rewrite Ex, Ey. cbn [mbind option_bind].
    destruct (IH (i + 1) (jn + 1)) as (l & El & Hll & Hbl & Hrest); [lia|lia|lia| |].
    { replace (i + 1 + offset) with (i + offset + 1) by lia. rewrite <- (Z.add_mod_idemp_l (i + offset)) by lia. fold jn.
      destruct (Z.leb_spec md_size (jn + 1)).
      - replace (jn + 1) with md_size by lia. rewrite Z.mod_same; lia.
      - symmetry. apply Z.mod_small. lia. }
    rewrite El. cbn [mbind option_bind].
    rewrite (constant_time_select_8_u8 c) by (exact Hs || (eapply znth_byte; [exact Hb|eassumption])).
    eexists. split; [done|]. split; [rewrite len_cons; lia|]. split.
    { apply bytes_cons. split; [destruct c; eapply znth_byte; [exact Hb|eassumption|exact Hb|eassumption]|done]. }
    intros k Hk. destruct (Z.eq_dec k 0) as [->|Hk0].
    + rewrite !Z.add_0_r. fold jn. change (znth ((if c then x else y) :: l) 0) with (Some (if c then x else y)).
      by destruct c.
    + assert (E : znth ((if c then x else y) :: l) k = znth l (k - 1)).
      { unfold znth. rewrite !(proj2 (Z.ltb_ge _ _)) by lia. by replace (Z.to_nat k) with (S (Z.to_nat (k - 1))) by lia. }
      rewrite E, Hrest by lia. destruct c; f_equal; [lia|f_equal; lia].
Qed.

Lemma rotate_mac_spec fuel offset ro rot :
  bytes rot -> len rot = md_size -> 0 < offset -> 0 <= ro -> offset * ro < md_size -> md_size <= offset * 2 ^ Z.of_nat fuel ->
  exists out, rotate_mac fuel md_size offset ro rot = Some out /\ len out = md_size /\
    forall k, 0 <= k < md_size -> znth out k = znth rot ((k + offset * ro) mod md_size).
Proof.
  unfold EVP_MAX_MD_SIZE in Hmd. revert offset ro rot.
  induction fuel as [|fuel IH]; intros offset ro rot Hb Hl Ho Hro Hlt Hfuel; cbn [rotate_mac];
    destruct (Z.ltb_spec offset md_size) as [Hom|Hom].
  1: simpl in Hfuel; lia.
  1, 3: exists rot; split; [done|]; split; [done|]; intros k Hk; assert (ro = 0) as -> by nia;
        rewrite Z.mul_0_r, Z.add_0_r, Z.mod_small by lia; done.
  change (Z.land ro 1) with (Z.land ro (Z.ones 1)). rewrite Z.land_ones by lia. change (2 ^ 1) with 2.
  pose proof (Z.div_mod ro 2 ltac:(lia)) as Hdm. pose proof (Z.mod_pos_bound ro 2 ltac:(lia)) as Hbit.
  set (c := ro mod 2 =? 0).
  destruct (rotate_into_spec (Z.to_nat md_size) (u8 (ro mod 2 - 1)) c 0 offset offset rot) as (l & El & Hll & Hbl & Hk);
    [done|done| |lia|lia|lia| |].
  { unfold c. destruct (Z.eqb_spec (ro mod 2) 0) as [->|]; [done|]. by replace (ro mod 2) with 1 by lia. }
  { rewrite (proj2 (Z.leb_gt _ _)) by lia. rewrite Z.mod_small; lia. }
  rewrite El. cbn [mbind option_bind]. rewrite Z.shiftl_mul_pow2, Z.shiftr_div_pow2 by lia. change (2 ^ 1) with 2.
  rewrite wrap_small by (platform; lia).
  destruct (IH (offset * 2) (ro / 2) l) as (out & Eo & Hlo & Hout); [done|lia|lia|lia|nia| |].
  { rewrite Nat2Z.inj_succ, Z.pow_succ_r in Hfuel by lia. lia. }
  exists out. split; [done|]. split; [done|]. intros k Hkr. rewrite Hout by lia.
  assert (Hq : 0 <= (k + offset * 2 * (ro / 2)) mod md_size < md_size) by (apply Z.mod_pos_bound; lia).
  rewrite Hk by lia. rewrite !Z.add_0_l. f_equal. unfold c. destruct (Z.eqb_spec (ro mod 2) 0) as [E0|E1].
  - f_equal. rewrite E0, Z.add_0_r in Hdm. rewrite Hdm at 2. lia.
  - rewrite Z.add_mod_idemp_l by lia. f_equal. replace (ro mod 2) with 1 in Hdm by lia. rewrite Hdm at 2. lia.
Qed.

End RotateMac.

Lemma copy_mac_exact md_size inp in_len :
  bytes inp -> is_word (len inp) -> 0 < md_size <= EVP_MAX_MD_SIZE -> md_size <= in_len <= len inp -> len inp - 256 <= in_len ->
  EVP_tls_cbc_copy_mac md_size inp in_len = Some (ztake md_size (zdrop (in_len - md_size) inp)).
Proof.
  intros Hb Hw Hmd Hin H256. unfold EVP_tls_cbc_copy_mac.
  set (s := if md_size + 255 + 1 <? len inp then len inp - (md_size + 255 + 1) else 0).
  assert (Hs : 0 <= s <= in_len - md_size) by (unfold s; zcases; lia).
  set (z := replicate (Z.to_nat md_size) 0). set (m := in_len - md_size).
  destruct (scan_mac_spec inp md_size m s Hb Hw ltac:(lia) Hs ltac:(lia) (Z.to_nat (len inp - s)) s 0 z 0 0)
    as (rot & Erun & Hlr & Hrot); [|lia|lia|lia| | | |].
  { split; [unfold z; rewrite len_replicate; lia|]. intros k Hk. pose proof (cell_range md_size m s ltac:(lia) k) as Hc.
    rewrite (proj2 (Z.ltb_ge _ _)) by lia. unfold z, znth. rewrite (proj2 (Z.ltb_ge _ _)) by lia.
    apply lookup_replicate_2. lia. }
  { rewrite Z.sub_diag, Z.mod_0_l by lia. zcases; lia. }
  { rewrite (proj2 (Z.ltb_ge _ _)) by lia. done. }
  { rewrite (proj2 (Z.ltb_ge _ _)) by lia. done. }
  unfold cell_offset in Erun. replace (m + md_size) with in_len in Erun by (unfold m; lia). rewrite Erun. cbn [mbind option_bind].
  assert (HR : 0 <= (m - s) mod md_size < md_size) by (apply Z.mod_pos_bound; lia).
  destruct (rotate_mac_spec md_size Hmd 6 1 ((m - s) mod md_size) rot) as (out & -> & Hlo & Hout);
    [|done|lia|lia|lia|unfold EVP_MAX_MD_SIZE in Hmd; simpl; lia|].
  { apply Forall_lookup_2. intros k x Hx. pose proof (lookup_lt_Some _ _ _ Hx) as Hkl.
    assert (Hkr : 0 <= Z.of_nat k < md_size) by (unfold len in Hlr; lia).
    specialize (Hrot (Z.of_nat k) Hkr). unfold znth in Hrot at 1. rewrite (proj2 (Z.ltb_ge (Z.of_nat k) 0)), Nat2Z.id, Hx in Hrot by lia.
    injection Hrot as ->. destruct (cell md_size m s (Z.of_nat k) <? len inp); [|by split].
    unfold mac_byte. destruct (znth inp _) as [y|] eqn:Ey; simpl; [by apply (znth_byte _ _ _ Hb Ey)|by split]. }
  f_equal. assert (Hlt : len (ztake md_size (zdrop m inp)) = md_size) by (rewrite len_ztake; [done|rewrite len_zdrop; lia]).
  apply znth_ext; [lia|]. intros k Hk. rewrite Hout by lia. rewrite Z.mul_1_l.
  set (q := (k + (m - s) mod md_size) mod md_size). assert (Hq : 0 <= q < md_size) by (apply Z.mod_pos_bound; lia).
  rewrite Hrot by done. assert (Ec : cell md_size m s q = m + k).
  { unfold cell. f_equal. unfold q. rewrite Z.add_mod_idemp_r, Zminus_mod_idemp_l by lia.
    replace (k + (m - s) - (m - s)) with k by lia. apply Z.mod_small. lia. }
  rewrite Ec, (proj2 (Z.ltb_lt _ _)) by lia.
  destruct (znth_ok inp (m + k)) as [x Ex]; [lia|]. unfold mac_byte. rewrite Ex. simpl. symmetry.
  unfold znth in Ex |- *. rewrite (proj2 (Z.ltb_ge _ _)) in Ex by lia. rewrite (proj2 (Z.ltb_ge _ _)) by lia.
  unfold ztake, zdrop. rewrite lookup_take_lt, lookup_drop by lia. rewrite <- Ex. f_equal. lia.
Qed.

(** C30: the constant-time padding check is the branching one: a record too short for a MAC and a
    length byte is refused; otherwise the padding is reported valid, as the all-ones mask, and its
    [p + 1] bytes are removed, exactly when [p], the last byte, leaves room for the MAC and the last
    [p + 1] bytes are all [p]; if not, the mask is zero and nothing is removed. Every read is inside
    the record, and what is left always holds a MAC. *)
Theorem EVP_tls_cbc_remove_padding_exact (inp : list Z) (mac_size : Z)
    (Hb : bytes inp) (Hw : is_word (len inp)) (Hm : 0 <= mac_size <= EVP_MAX_MD_SIZE) :
  EVP_tls_cbc_remove_padding inp mac_size =
    Some (if len inp <? 1 + mac_size then None else
          let p := default 0 (znth inp (len inp - 1)) in
          if padding_valid inp mac_size p then Some (CONSTTIME_TRUE_W, len inp - (p + 1))
          else Some (CONSTTIME_FALSE_W, len inp)) /\
  forall ok n, EVP_tls_cbc_remove_padding inp mac_size = Some (Some (ok, n)) ->
    mac_size <= n <= len inp /\ len inp - 256 <= n.
Proof.
  pose proof (remove_padding_branches inp mac_size Hb Hw Hm) as E. split; [done|]. intros ok n En. rewrite E in En.
  destruct (Z.ltb_spec (len inp) (1 + mac_size)) as [|Hl]; [done|]. unfold padding_valid in En.
  destruct (znth_ok inp (len inp - 1)) as [p Ep]; [lia|]. pose proof (znth_byte _ _ _ Hb Ep) as Hp. unfold is_byte in Hp.
  rewrite Ep in En. change (default 0 (Some p)) with p in En. cbv zeta in En.
  destruct (Z.leb_spec (mac_size + p + 1) (len inp)); cbn [andb] in En; [|injection En as _ <-; lia].
  destruct (forallb _ _); injection En as _ <-; lia.
Qed.

(** C29: the MAC of a record comes back: for every content, MAC of at most 64 bytes and padding of
    [p + 1] bytes [p], removing the padding of [content ++ mac ++ padding] reports it valid and
    leaves the length of [content ++ mac], and copying the MAC, through the scan into a rotated
    buffer and the rotation by powers of two, returns [mac]. *)
Theorem EVP_tls_cbc_copy_mac_roundtrip (content mac : list Z) (p : Z)
    (Hc : bytes content) (Hm : bytes mac) (Hp : is_byte p) (Hl : 0 < len mac <= EVP_MAX_MD_SIZE)
    (Hw : is_word (len content + len mac + p + 1)) :
  let inp := content ++ mac ++ replicate (Z.to_nat (p + 1)) p in
  EVP_tls_cbc_remove_padding inp (len mac) = Some (Some (CONSTTIME_TRUE_W, len (content ++ mac))) /\
  EVP_tls_cbc_copy_mac (len mac) inp (len (content ++ mac)) = Some mac.
Proof.
  set (pad := replicate (Z.to_nat (p + 1)) p). intros inp. unfold is_byte in Hp.
  assert (Hlp : len pad = p + 1) by (unfold pad; rewrite len_replicate; lia).
  assert (Hli : len inp = len content + len mac + (p + 1)) by (unfold inp; rewrite !len_app; lia).
  assert (Hbi : bytes inp).
  { apply bytes_app. split; [done|]. apply bytes_app. split; [done|]. by apply Forall_replicate. }
  pose proof (len_nonneg content) as Hlc. rewrite len_app. split.
  - rewrite remove_padding_branches; [|done|by replace (len inp) with (len content + len mac + p + 1) by lia|lia].
    rewrite (proj2 (Z.ltb_ge _ _)) by lia.
    assert (Ep : znth inp (len inp - 1) = Some p).
    { unfold znth. rewrite (proj2 (Z.ltb_ge _ _)) by lia.
      replace (Z.to_nat (len inp - 1)) with (length (content ++ mac) + Z.to_nat p)%nat
        by (rewrite Hli, length_app; unfold len; lia).
      unfold inp. rewrite app_assoc, lookup_app_r by lia. apply lookup_replicate_2. lia. }
    rewrite Ep. change (default 0 (Some p)) with p. cbv zeta.
    assert (padding_valid inp (len mac) p = true) as ->; [|do 3 f_equal; lia].
    unfold padding_valid. apply andb_true_iff. split; [apply Z.leb_le; lia|].
    assert (zdrop (len inp - (p + 1)) inp = pad) as ->.
    { unfold inp. rewrite app_assoc. apply zdrop_app_eq. rewrite len_app. fold inp. lia. }
    apply forallb_forall. intros x Hx%list_elem_of_In%elem_of_replicate. destruct Hx as [-> _]. apply Z.eqb_refl.
  - rewrite copy_mac_exact; [|done|by replace (len inp) with (len content + len mac + p + 1) by lia|lia|lia|lia].
    replace (len content + len mac - len mac) with (len content) by lia. unfold inp.
    by rewrite zdrop_app_len, ztake_app_len.
Qed.

End TlsCbc.

Lemma EVP_tls_cbc_remove_padding_exact_witness :
  EVP_tls_cbc_remove_padding (PF := LP64) [1; 2; 3; 9; 8; 2; 2; 2] 2 = Some (Some (2 ^ 64 - 1, 5)) /\
  EVP_tls_cbc_remove_padding (PF := LP64) [1; 2; 3; 9; 8; 1; 2; 2] 2 = Some (Some (0, 8)).
Proof.
  split.
  - rewrite (proj1 (EVP_tls_cbc_remove_padding_exact (PF := LP64) [1; 2; 3; 9; 8; 2; 2; 2] 2
      ltac:(repeat (apply List.Forall_cons; [unfold is_byte; lia|]); apply List.Forall_nil)
      ltac:(split; vm_compute; congruence) ltac:(split; vm_compute; congruence))). vm_compute. reflexivity.
  - rewrite (proj1 (EVP_tls_cbc_remove_padding_exact (PF := LP64) [1; 2; 3; 9; 8; 1; 2; 2] 2
      ltac:(repeat (apply List.Forall_cons; [unfold is_byte; lia|]); apply List.Forall_nil)
      ltac:(split; vm_compute; congruence) ltac:(split; vm_compute; congruence))). vm_compute. reflexivity.
Defined.

Lemma EVP_tls_cbc_copy_mac_roundtrip_witness :
  EVP_tls_cbc_copy_mac (PF := ILP32) 3 [1; 2; 3; 9; 8; 7; 1; 1] 6 = Some [9; 8; 7].
Proof.
  apply (EVP_tls_cbc_copy_mac_roundtrip (PF := ILP32) [1; 2; 3] [9; 8; 7] 1).
  - repeat (apply List.Forall_cons; [unfold is_byte; lia|]). apply List.Forall_nil.
  - repeat (apply List.Forall_cons; [unfold is_byte; lia|]). apply List.Forall_nil.
  - unfold is_byte. lia.
  - split; vm_compute; congruence.
  - split; vm_compute; congruence.
Defined.
