(* ===== verification/TlsCbcDigest.v ===== *)
(** The MAC of a decrypted TLS CBC record whose length is secret: the second half of
    crypto/cipher/tls_cbc.cc, over the SHA-1 and SHA-256 of [Sha1] and [Sha256]. The source has the
    code twice, once for each hash; here it is written once, over the functions of the hash. *)
From S2P Require Import Prelude.
From S2P Require Import Internal.
From S2P Require Import Heap.
From S2P Require Import Md32.
From S2P Require Import Sha1.
From S2P Require Import Sha256.
From S2P Require Import TlsCbc.

Open Scope Z_scope.

(** [for (j = ...) a[j] = f(j, a[j])], over [n] indices from [j] on. *)
Fixpoint for_each (n : nat) (j : Z) (f : Z -> Z -> Z) (a : list Z) : option (list Z) :=
  match n with
  | O => Some a
  | S n => x ← znth a j; for_each n (j + 1) f (zupd a j (f j x))
  end.

Definition SHA_CBLOCK : Z := 64.
Definition UINT32_MAX : Z := 2 ^ 32 - 1.

Section Digest.
Context `{PF : Platform}.

(** ** EVP_sha1_final_with_secret_suffix and EVP_sha256_final_with_secret_suffix *)
Section SecretSuffix.
Context (transform : md32_ctx -> list Z -> md32_ctx) (words : nat).

(** The copy into [block] at the start of iteration [i]: the block and [block_start]. *)
Definition fill_block (ctx : md32_ctx) (inp : list Z) (max_len i input_idx : Z) (block : list Z) : option (list Z * Z) :=
  '(block, block_start) ← (if i =? 0
                           then partial ← load_at (md_data ctx) 0 (md_num ctx);
                                block ← store_at block 0 partial;
                                Some (block, md_num ctx)
                           else Some (block, 0));
  block ← (if input_idx <? max_len
           then let to_copy := SHA_CBLOCK - block_start in
                let to_copy := if max_len - input_idx <? to_copy then max_len - input_idx else to_copy in
                chunk ← load_at inp input_idx to_copy;
                store_at block block_start chunk
           else Some block);
  Some (block, block_start).

(** A byte of the block beyond [length] is cleared; the one at [length] is 0x80. *)
Definition mask_byte (length input_idx block_start j b : Z) : Z :=
  let idx := wrap size_bits (input_idx + j - block_start) in
  let is_in_bounds := constant_time_lt_8 idx (value_barrier_w length) in
  let is_padding_byte := constant_time_eq_8 idx (value_barrier_w length) in
  let b := u8 (Z.land b is_in_bounds) in
  u8 (Z.lor b (Z.land 0x80 is_padding_byte)).

(** The iterations: [n] are left, from [i] on. [hctx] is the context, whose [h] the transform
    advances; its [data] and [num] stay those of the call. *)
Fixpoint secret_suffix_loop (n : nat) (inp : list Z) (length max_len last_block : Z) (length_bytes : list Z)
    (i input_idx : Z) (block result : list Z) (ctx : md32_ctx) : option (list Z) :=
  match n with
  | O => Some result
  | S n =>
      '(block, block_start) ← fill_block ctx inp max_len i input_idx block;
      block ← for_each (Z.to_nat (SHA_CBLOCK - block_start)) block_start (mask_byte length input_idx block_start) block;
      let input_idx := wrap size_bits (input_idx + (SHA_CBLOCK - block_start)) in
      let is_last_block := constant_time_eq_w i last_block in
      block ← for_each 4 (SHA_CBLOCK - 4)
                (fun j b => u8 (Z.lor b (Z.land is_last_block (word length_bytes (Z.to_nat (j - (SHA_CBLOCK - 4))))))) block;
      let ctx := transform ctx block in
      result ← for_each words 0 (fun j r => u32 (Z.lor r (Z.land is_last_block (word (md_h ctx) (Z.to_nat j))))) result;
      secret_suffix_loop n inp length max_len last_block length_bytes (i + 1) input_idx block result ctx
  end.

(** [Some None] is the return value 0. *)
Definition final_with_secret_suffix (ctx : md32_ctx) (inp : list Z) (length max_len : Z) : option (option (list Z)) :=
  let max_len_bits := wrap size_bits (Z.shiftl max_len 3) in
  if negb (md_Nh ctx =? 0) || negb (Z.shiftr max_len_bits 3 =? max_len) ||
     (wrap size_bits (md_Nl ctx + max_len_bits) <? max_len_bits) ||
     (UINT32_MAX <? wrap size_bits (md_Nl ctx + max_len_bits))
  then Some None else
  let num_blocks := Z.shiftr (wrap size_bits (md_num ctx + length + 1 + 8 + SHA_CBLOCK - 1)) 6 in
  let last_block := num_blocks - 1 in
  let max_blocks := Z.shiftr (wrap size_bits (md_num ctx + max_len + 1 + 8 + SHA_CBLOCK - 1)) 6 in
  let total_bits := wrap size_bits (md_Nl ctx + wrap size_bits (Z.shiftl length 3)) in
  let length_bytes := [u8 (Z.shiftr total_bits 24); u8 (Z.shiftr total_bits 16); u8 (Z.shiftr total_bits 8); u8 total_bits] in
  result ← secret_suffix_loop (Z.to_nat max_blocks) inp length max_len last_block length_bytes 0 0
             (zeros SHA_CBLOCK) (zeros (Z.of_nat words)) ctx;
  Some (Some (concat (CRYPTO_store_u32_be <$> result))).

End SecretSuffix.

Definition EVP_sha1_final_with_secret_suffix (ctx : md32_ctx) (inp : list Z) (length max_len : Z) : option (option (list Z)) :=
  final_with_secret_suffix SHA1_Transform 5 ctx inp length max_len.

Definition EVP_sha256_final_with_secret_suffix (ctx : SHA256_CTX) (inp : list Z) (length max_len : Z) : option (option (list Z)) :=
  final_with_secret_suffix (fun c block => sha256_md (SHA256_Transform {| sha256_md := c; md_len := md_len ctx |} block)) 8
    (sha256_md ctx) inp length max_len.

(** ** tls_cbc_digest_record_sha1 and tls_cbc_digest_record_sha256 *)
Section Record.
Context {C : Type} (digest_length : Z) (Init : C) (Update : C -> list Z -> option C) (Final : C -> option (list Z))
  (final_secret : C -> list Z -> Z -> Z -> option (option (list Z))).

(** [data] is the buffer of the record; [Some None] is the return value 0, and otherwise the result
    is the digest and its size. *)
Definition digest_record (header data : list Z) (data_size data_plus_mac_plus_padding_size : Z) (mac_secret : list Z)
    : option (option (list Z * Z)) :=
  if SHA_CBLOCK <? len mac_secret then Some None else
  hmac_pad ← store_at (zeros SHA_CBLOCK) 0 mac_secret;
  hmac_pad ← for_each (Z.to_nat SHA_CBLOCK) 0 (fun _ b => u8 (Z.lxor b 0x36)) hmac_pad;
  ctx ← Update Init hmac_pad;
  ctx ← Update ctx header;
  let min_data_size := if digest_length + 256 <? data_plus_mac_plus_padding_size
                       then data_plus_mac_plus_padding_size - digest_length - 256 else 0 in
  public ← load_at data 0 min_data_size;
  ctx ← Update ctx public;
  mac_out ← final_secret ctx (zdrop min_data_size data) (wrap size_bits (data_size - min_data_size))
              (data_plus_mac_plus_padding_size - min_data_size);
  match mac_out with
  | None => Some None
  | Some mac_out =>
      hmac_pad ← for_each (Z.to_nat SHA_CBLOCK) 0 (fun _ b => u8 (Z.lxor b 0x6a)) hmac_pad;
      ctx ← Update Init hmac_pad;
      ctx ← Update ctx mac_out;
      md_out ← Final ctx;
      Some (Some (md_out, digest_length))
  end.

End Record.

Definition tls_cbc_digest_record_sha1 (header data : list Z) (data_size data_plus_mac_plus_padding_size : Z)
    (mac_secret : list Z) : option (option (list Z * Z)) :=
  digest_record 20 SHA1_Init SHA1_Update (fun c => '(out, _) ← SHA1_Final c; Some out)
    EVP_sha1_final_with_secret_suffix header data data_size data_plus_mac_plus_padding_size mac_secret.

(** The result of SHA256_Final is ignored; it writes its output on the context of SHA256_Init. *)
Definition tls_cbc_digest_record_sha256 (header data : list Z) (data_size data_plus_mac_plus_padding_size : Z)
    (mac_secret : list Z) : option (option (list Z * Z)) :=
  digest_record 32 SHA256_Init SHA256_Update (fun c => '(out, _) ← SHA256_Final c; out)
    EVP_sha256_final_with_secret_suffix header data data_size data_plus_mac_plus_padding_size mac_secret.

Definition NID_sha1 : Z := 64.
Definition NID_sha256 : Z := 672.

(** [md_type] is EVP_MD_type of the digest. *)
Definition EVP_tls_cbc_record_digest_supported (md_type : Z) : Z :=
  if (md_type =? NID_sha1) || (md_type =? NID_sha256) then 1 else 0.

Definition EVP_tls_cbc_digest_record (md_type : Z) (header data : list Z) (data_size data_plus_mac_plus_padding_size : Z)
    (mac_secret : list Z) : option (option (list Z * Z)) :=
  if md_type =? NID_sha1 then
    tls_cbc_digest_record_sha1 header data data_size data_plus_mac_plus_padding_size mac_secret
  else if md_type =? NID_sha256 then
    tls_cbc_digest_record_sha256 header data data_size data_plus_mac_plus_padding_size mac_secret
  else Some None.

(** ** Loops over arrays *)

Lemma for_each_spec n j f a : 0 <= j -> j + Z.of_nat n <= len a ->
  exists l, for_each n j f a = Some l /\ len l = len a /\
    forall k, 0 <= k < len a -> znth l k = (if (j <=? k) && (k <? j + Z.of_nat n) then f k <$> znth a k else znth a k).
Proof.
  revert j a. induction n as [|n IH]; intros j a Hj Hn.
  - exists a. split; [done|]. split; [done|]. intros k Hk.
    destruct (Z.leb_spec j k), (Z.ltb_spec k (j + Z.of_nat 0)); cbn [andb]; try done; lia.
  - cbn [for_each]. destruct (znth_ok a j) as [x Ex]; [lia|]. rewrite Ex. cbn [mbind option_bind].
    destruct (IH (j + 1) (zupd a j (f j x))) as (l & El & Hl & Hk); [lia|rewrite len_zupd; lia|].
    rewrite len_zupd in *. exists l. split; [done|]. split; [done|]. intros k Hkr. rewrite Hk, znth_zupd by lia.
    destruct (Z.eqb_spec k j) as [->|Hne].
    + rewrite (proj2 (Z.leb_gt (j + 1) j)), (proj2 (Z.leb_le j j)), (proj2 (Z.ltb_lt j (j + Z.of_nat (S n)))) by lia.
      cbn [andb]. by rewrite Ex.
    + destruct (Z.leb_spec (j + 1) k), (Z.leb_spec j k), (Z.ltb_spec k (j + 1 + Z.of_nat n)),
        (Z.ltb_spec k (j + Z.of_nat (S n))); cbn [andb]; try done; lia.
Qed.

Lemma znth_app_l {A} (l k : list A) i : i < len l -> znth (l ++ k) i = znth l i.
Proof.
  intros Hi. unfold znth. destruct (Z.ltb_spec i 0); [done|]. apply lookup_app_l. unfold len in Hi. lia.
Qed.
Lemma znth_app_r {A} (l k : list A) i : len l <= i -> znth (l ++ k) i = znth k (i - len l).
Proof.
  intros Hi. pose proof (len_nonneg l). unfold znth. rewrite !(proj2 (Z.ltb_ge _ _)) by lia.
  rewrite lookup_app_r by (unfold len in Hi; lia). f_equal. unfold len. lia.
Qed.
Lemma znth_ztake {A} n (l : list A) i : i < n -> znth (ztake n l) i = znth l i.
Proof. intros Hi. unfold znth. destruct (Z.ltb_spec i 0); [done|]. unfold ztake. apply lookup_take_lt. lia. Qed.
Lemma znth_zdrop {A} n (l : list A) i : 0 <= n -> 0 <= i -> znth (zdrop n l) i = znth l (n + i).
Proof.
  intros Hn Hi. unfold znth. rewrite !(proj2 (Z.ltb_ge _ _)) by lia. unfold zdrop. rewrite lookup_drop. f_equal. lia.
Qed.
Lemma znth_zeros n i : 0 <= i < n -> znth (zeros n) i = Some 0.
Proof. intros Hi. unfold znth, zeros. rewrite (proj2 (Z.ltb_ge _ _)) by lia. apply lookup_replicate_2. lia. Qed.

(** A write replaces the bytes it covers and no others. *)
Lemma store_at_znth d off s : 0 <= off -> off + len s <= len d ->
  exists d', store_at d off s = Some d' /\ len d' = len d /\
    forall k, 0 <= k < len d -> znth d' k = if (off <=? k) && (k <? off + len s) then znth s (k - off) else znth d k.
Proof.
  intros Ho Hl. pose proof (len_nonneg s). rewrite store_at_ok by done. eexists. split; [done|].
  pose proof (store_at_len d off s _ (store_at_ok d off s Ho Hl)) as Hlen. split; [done|]. intros k Hk.
  assert (Hto : len (ztake off d) = off) by (apply len_ztake; lia).
  destruct (Z.leb_spec off k); cbn [andb].
  - rewrite znth_app_r by lia. rewrite Hto. destruct (Z.ltb_spec k (off + len s)).
    + by rewrite znth_app_l by lia.
    + rewrite znth_app_r, znth_zdrop by lia. f_equal. lia.
  - rewrite znth_app_l, znth_ztake by lia. done.
Qed.

Lemma mask_byte_spec length input_idx block_start j b :
  is_word (input_idx + j - block_start) -> is_word length -> (input_idx + j - block_start < length -> is_byte b) ->
  mask_byte length input_idx block_start j b =
  let idx := input_idx + j - block_start in if idx <? length then b else if idx =? length then 0x80 else 0.
Proof.
  intros Hi Hl Hb. unfold mask_byte, value_barrier_w. cbv zeta. rewrite (wrap_small size_bits (input_idx + j - block_start)) by done.
  rewrite constant_time_lt_8_spec, constant_time_eq_8_spec by done.
  set (idx := input_idx + j - block_start). destruct (Z.ltb_spec idx length), (Z.eqb_spec idx length); try lia.
  - rewrite Z.land_0_r, Z.lor_0_r, wrap_wrap. change 255 with (Z.ones 8). rewrite Z.land_ones by lia.
    change (2 ^ 8) with 256. specialize (Hb ltac:(lia)). unfold is_byte in Hb. rewrite Z.mod_small by lia. by apply wrap_small.
  - by rewrite Z.land_0_r.
  - by rewrite !Z.land_0_r.
Qed.

(** ** The blocks *)
Section Blocks.
Context (ctx : md32_ctx) (inp : list Z) (length max_len : Z).
Hypothesis Hdata : bytes (ztake (md_num ctx) (md_data ctx)).
Hypothesis Hinp : bytes inp.
Hypothesis Hdlen : len (md_data ctx) = 64.
Hypothesis Hnum : 0 <= md_num ctx < 64.
Hypothesis Hlength : 0 <= length <= max_len.
Hypothesis Hmax : max_len <= len inp.
Hypothesis Hsize : max_len + 2 ^ 8 <= 2 ^ size_bits.

(** What is hashed, up to the byte 0x80. *)
Definition hashed : list Z := ztake (md_num ctx) (md_data ctx) ++ ztake length inp ++ [0x80].
Definition hashed_at (k : Z) : Z := default 0 (znth hashed k).

Lemma len_partial : len (ztake (md_num ctx) (md_data ctx)) = md_num ctx.
Proof using All. apply len_ztake. lia. Qed.
Lemma len_secret : len (ztake length inp) = length.
Proof using All. apply len_ztake. lia. Qed.
Lemma len_hashed : len hashed = md_num ctx + length + 1.
Proof using All. unfold hashed. rewrite !len_app, len_partial, len_secret, len_cons, len_nil. lia. Qed.

Lemma hashed_at_partial k : 0 <= k < md_num ctx -> Some (hashed_at k) = znth (md_data ctx) k.
Proof using All.
  intros Hk. unfold hashed_at, hashed. rewrite znth_app_l, znth_ztake by (rewrite ?len_partial; lia).
  by destruct (znth_ok (md_data ctx) k) as [x ->]; [lia|].
Qed.

Lemma hashed_at_secret idx : 0 <= idx ->
  hashed_at (md_num ctx + idx) = if idx <? length then default 0 (znth inp idx) else if idx =? length then 0x80 else 0.
Proof using All.
  intros Hi. unfold hashed_at, hashed. rewrite znth_app_r by (rewrite len_partial; lia). rewrite len_partial.
  replace (md_num ctx + idx - md_num ctx) with idx by lia. destruct (Z.ltb_spec idx length).
  - by rewrite znth_app_l, znth_ztake by (rewrite ?len_secret; lia).
  - rewrite znth_app_r by (rewrite len_secret; lia). rewrite len_secret. destruct (Z.eqb_spec idx length) as [->|Hne].
    + by rewrite Z.sub_diag.
    + unfold znth. rewrite (proj2 (Z.ltb_ge _ _)) by lia. destruct (Z.to_nat (idx - length)) as [|m] eqn:E; [lia|].
      done.
Qed.

(** Iteration [i] reads from [input_idx], and its block starts at byte [64 * i] of what is hashed. *)
Definition input_idx_at (i : Z) : Z := if i =? 0 then 0 else 64 * i - md_num ctx.

Lemma fill_block_spec ctx' i block :
  0 <= i -> (i = 0 -> ctx' = ctx) -> len block = 64 ->
  exists b bs, fill_block ctx' inp max_len i (input_idx_at i) block = Some (b, bs) /\ len b = 64 /\
    bs = (if i =? 0 then md_num ctx else 0) /\ input_idx_at i - bs = 64 * i - md_num ctx /\
    (forall j, 0 <= j < bs -> znth b j = Some (hashed_at (64 * i + j))) /\
    (forall j, bs <= j < 64 -> 64 * i + j - md_num ctx < max_len -> znth b j = znth inp (64 * i + j - md_num ctx)).
Proof using All.
  intros Hi Hctx Hl. unfold fill_block, SHA_CBLOCK.
  assert (H1 : exists b0 bs, (if i =? 0
      then partial ← load_at (md_data ctx') 0 (md_num ctx'); block ← store_at block 0 partial; Some (block, md_num ctx')
      else Some (block, 0)) = Some (b0, bs) /\ len b0 = 64 /\ bs = (if i =? 0 then md_num ctx else 0) /\
      forall j, 0 <= j < bs -> znth b0 j = Some (hashed_at (64 * i + j))).
  { destruct (Z.eqb_spec i 0) as [->|Hi0].
    - rewrite Hctx by done. rewrite load_at_ok by lia. cbn [mbind option_bind]. rewrite zdrop_0.
      destruct (store_at_znth block 0 (ztake (md_num ctx) (md_data ctx))) as (d & -> & Hld & Hd); [lia|rewrite len_partial; lia|].
      cbn [mbind option_bind]. do 2 eexists. split; [done|]. split; [lia|]. split; [done|]. intros j Hj.
      rewrite Hd, len_partial by lia. rewrite (proj2 (Z.leb_le 0 j)), (proj2 (Z.ltb_lt j (0 + md_num ctx))) by lia. cbn [andb].
      rewrite Z.sub_0_r, znth_ztake by lia. by rewrite <- hashed_at_partial by lia.
    - do 2 eexists. split; [done|]. split; [done|]. split; [done|]. lia. }
  destruct H1 as (b0 & bs & -> & Hl0 & Ebs & Hb0). cbn [mbind option_bind].
  assert (Hidx : input_idx_at i - bs = 64 * i - md_num ctx) by (unfold input_idx_at; rewrite Ebs; zcases; lia).
  assert (Hbs : 0 <= bs < 64) by (rewrite Ebs; zcases; lia).
  assert (Hii : 0 <= input_idx_at i) by (unfold input_idx_at; zcases; lia).
  destruct (Z.ltb_spec (input_idx_at i) max_len) as [Hlt|Hge].
  - set (tc := if max_len - input_idx_at i <? 64 - bs then max_len - input_idx_at i else 64 - bs).
    assert (Htc : 0 < tc <= 64 - bs /\ tc <= max_len - input_idx_at i /\ (tc = 64 - bs \/ tc = max_len - input_idx_at i))
      by (unfold tc; zcases; lia). clearbody tc.
    rewrite load_at_ok by lia. cbn [mbind option_bind].
    assert (Hlc : len (ztake tc (zdrop (input_idx_at i) inp)) = tc) by (apply len_ztake; rewrite len_zdrop; lia).
    destruct (store_at_znth b0 bs (ztake tc (zdrop (input_idx_at i) inp))) as (d & -> & Hld & Hd); [lia|lia|].
    cbn [mbind option_bind]. exists d, bs. do 3 (split; [done || lia|]). split; [lia|]. split; intros j Hj.
    + rewrite Hd by lia. rewrite (proj2 (Z.leb_gt bs j)) by lia. by apply Hb0.
    + intros Hjm. rewrite Hd, Hlc by lia. rewrite (proj2 (Z.leb_le bs j)), (proj2 (Z.ltb_lt j (bs + tc))) by lia. cbn [andb].
      rewrite znth_ztake, znth_zdrop by lia. f_equal. lia.
  - cbn [mbind option_bind]. exists b0, bs. do 4 (split; [done || lia|]). split; [done|]. intros j Hj Hjm. lia.
Qed.

Lemma hashed_at_byte k : 0 <= k -> is_byte (hashed_at k).
Proof using All.
  intros Hk. unfold hashed_at. destruct (znth hashed k) as [x|] eqn:E; [|by split]. simpl.
  apply (znth_byte hashed k x); [|done]. unfold hashed. apply bytes_app. split; [done|].
  apply bytes_app. split; [by apply bytes_ztake|]. apply bytes_cons. split; [by split|apply bytes_nil].
Qed.

Lemma masked_block_spec ctx' i block :
  0 <= i -> (i = 0 -> ctx' = ctx) -> len block = 64 -> 64 * i + 64 < max_len + 2 ^ 8 ->
  exists b bs b', fill_block ctx' inp max_len i (input_idx_at i) block = Some (b, bs) /\
    for_each (Z.to_nat (SHA_CBLOCK - bs)) bs (mask_byte length (input_idx_at i) bs) b = Some b' /\ len b' = 64 /\
    wrap size_bits (input_idx_at i + (SHA_CBLOCK - bs)) = input_idx_at (i + 1) /\
    forall j, 0 <= j < 64 -> znth b' j = Some (hashed_at (64 * i + j)).
Proof using All.
  intros Hi Hctx Hl Hbound. destruct (fill_block_spec ctx' i block Hi Hctx Hl) as (b & bs & Ef & Hlb & Ebs & Hidx & Hlow & Hhigh).
  assert (Hbs : 0 <= bs < 64) by (rewrite Ebs; zcases; lia). unfold SHA_CBLOCK.
  destruct (for_each_spec (Z.to_nat (64 - bs)) bs (mask_byte length (input_idx_at i) bs) b) as (b' & Eb' & Hlb' & Hk); [lia|lia|].
  exists b, bs, b'. do 3 (split; [done || lia|]). split.
  { rewrite wrap_small; [|lia]. unfold input_idx_at at 2. rewrite (proj2 (Z.eqb_neq _ _)) by lia. lia. }
  intros j Hj. rewrite Hk by lia. destruct (Z.leb_spec bs j); cbn [andb]; [|apply Hlow; lia].
  rewrite (proj2 (Z.ltb_lt _ _)) by lia. destruct (znth_ok b j) as [x Ex]; [lia|]. rewrite Ex. cbn [fmap option_fmap option_map].
  assert (Hx : input_idx_at i + j - bs = 64 * i + j - md_num ctx) by lia.
  assert (Hnn : 0 <= 64 * i + j - md_num ctx) by (revert Ebs; zcases; lia).
  assert (Hin : 64 * i + j - md_num ctx < length -> znth inp (64 * i + j - md_num ctx) = Some x).
  { intros Hlt. rewrite <- (Hhigh j), Ex by lia. done. }
  rewrite mask_byte_spec; [|unfold is_word; lia|unfold is_word; lia|].
  2: { rewrite Hx. intros Hlt. by apply (znth_byte inp (64 * i + j - md_num ctx)); [|apply Hin]. }
  f_equal. rewrite Hx. 
  replace (hashed_at (64 * i + j)) with (hashed_at (md_num ctx + (64 * i + j - md_num ctx))) by (f_equal; lia).
  rewrite hashed_at_secret by lia. cbv zeta. destruct (Z.ltb_spec (64 * i + j - md_num ctx) length) as [Hlt|]; [|done].
  by rewrite (Hin Hlt).
Qed.

(** ** The padded message *)
Definition suffix_blocks : Z := (md_num ctx + length + 72) / 64.
Definition padded (bits : Z) : list Z := hashed ++ zeros (64 * suffix_blocks - 4 - len hashed) ++ be_bytes 4 bits.

Lemma suffix_blocks_bounds : md_num ctx + length + 9 <= 64 * suffix_blocks <= md_num ctx + length + 72 /\ 1 <= suffix_blocks.
Proof using All.
  unfold suffix_blocks. pose proof (Z.div_mod (md_num ctx + length + 72) 64 ltac:(lia)).
  pose proof (Z.mod_pos_bound (md_num ctx + length + 72) 64 ltac:(lia)). lia.
Qed.

Lemma len_padded bits : len (padded bits) = 64 * suffix_blocks.
Proof using All.
  pose proof suffix_blocks_bounds. pose proof len_hashed. unfold padded.
  rewrite !len_app, len_be_bytes, len_zero_bytes by lia. lia.
Qed.

Lemma znth_padded bits k : 0 <= k < 64 * suffix_blocks ->
  znth (padded bits) k =
  if k <? 64 * suffix_blocks - 4 then Some (hashed_at k) else znth (be_bytes 4 bits) (k - (64 * suffix_blocks - 4)).
Proof using All.
  intros Hk. pose proof suffix_blocks_bounds as Hb. pose proof len_hashed as Hh. unfold padded.
  assert (Hz : len (zeros (64 * suffix_blocks - 4 - len hashed)) = 64 * suffix_blocks - 4 - len hashed) by (apply len_zero_bytes; lia).
  destruct (Z.ltb_spec k (64 * suffix_blocks - 4)).
  - unfold hashed_at. destruct (Z.lt_ge_cases k (len hashed)).
    + rewrite znth_app_l by lia. by destruct (znth_ok hashed k) as [x ->]; [lia|].
    + rewrite znth_app_r, znth_app_l, znth_zeros by lia. unfold znth. rewrite (proj2 (Z.ltb_ge _ _)) by lia.
      rewrite lookup_ge_None_2; [done|]. unfold len in *. lia.
  - rewrite !znth_app_r by lia. f_equal. lia.
Qed.

(** After [length], everything that is hashed is zero up to the length. *)
Lemma hashed_at_end k : 64 * suffix_blocks - 4 <= k -> hashed_at k = 0.
Proof using All.
  intros Hk. pose proof suffix_blocks_bounds as Hb. pose proof len_hashed as Hh. unfold hashed_at, znth.
  rewrite (proj2 (Z.ltb_ge _ _)) by lia. rewrite lookup_ge_None_2; [done|]. unfold len in *. lia.
Qed.

Lemma word_mask_land_l b x : is_word x -> Z.land (word_mask b) x = if b then x else 0.
Proof using Type. intros. rewrite Z.land_comm. by apply word_mask_land. Qed.

(** The block of iteration [i] with the length in it: up to the last block, that of the padded
    message. *)
Lemma length_block_spec bits i b :
  0 <= i < suffix_blocks -> len b = 64 -> (forall j, 0 <= j < 64 -> znth b j = Some (hashed_at (64 * i + j))) ->
  for_each 4 (SHA_CBLOCK - 4)
    (fun j x => u8 (Z.lor x (Z.land (word_mask (i =? suffix_blocks - 1)) (word (be_bytes 4 bits) (Z.to_nat (j - (SHA_CBLOCK - 4))))))) b
  = Some (ztake 64 (zdrop (64 * i) (padded bits))).
Proof using All.
  intros Hi Hl Hb. unfold SHA_CBLOCK. pose proof (len_padded bits) as Hlp.
  match goal with |- for_each _ _ ?f _ = _ => destruct (for_each_spec 4 (64 - 4) f b) as (l & -> & Hll & Hk); [lia|lia|] end.
  f_equal. assert (Hlt : len (ztake 64 (zdrop (64 * i) (padded bits))) = 64) by (rewrite len_ztake; [done|rewrite len_zdrop; lia]).
  apply znth_ext; [lia|]. intros j Hj. rewrite znth_ztake, znth_zdrop, znth_padded, Hk, Hb by lia.
  pose proof (hashed_at_byte (64 * i + j) ltac:(lia)) as Hbyte.
  destruct (Z.leb_spec (64 - 4) j); cbn [andb].
  2: { rewrite (proj2 (Z.ltb_lt _ _)) by lia. done. }
  rewrite (proj2 (Z.ltb_lt j _)) by lia. cbn [fmap option_fmap option_map].
  assert (Hlb : exists x, znth (be_bytes 4 bits) (j - 60) = Some x /\ is_byte x).
  { destruct (znth_ok (be_bytes 4 bits) (j - 60)) as [x Ex]; [rewrite len_be_bytes; lia|]. exists x. split; [done|].
    by apply (znth_byte _ _ _ (bytes_be_bytes 4 bits) Ex). }
  destruct Hlb as (x & Ex & Hx). assert (Ew : word (be_bytes 4 bits) (Z.to_nat (j - (64 - 4))) = x).
  { unfold word. rewrite nth_lookup. unfold znth in Ex. rewrite (proj2 (Z.ltb_ge _ _)) in Ex by lia.
    by replace (j - (64 - 4)) with (j - 60) by lia; rewrite Ex. }
  rewrite Ew, word_mask_land_l by (unfold is_word, is_byte in *; platform; lia).
  destruct (Z.eqb_spec i (suffix_blocks - 1)) as [Ei|Ei].
  - rewrite (proj2 (Z.ltb_ge _ _)), hashed_at_end, Z.lor_0_l by lia. replace (64 * i + j - (64 * suffix_blocks - 4)) with (j - 60) by lia.
    rewrite Ex. f_equal. by apply wrap_small.
  - rewrite (proj2 (Z.ltb_lt (64 * i + j) _)) by lia. rewrite Z.lor_0_r. f_equal. by apply wrap_small.
Qed.

(** ** The loop *)
Section Loop.
Context (f : list Z -> list Z -> list Z) (transform : md32_ctx -> list Z -> md32_ctx) (words : nat) (bits : Z).
Hypothesis Htransform : forall c b, len b = 64 -> md_h (transform c b) = f (md_h c) b.
Hypothesis Hf : forall h b, len (f h b) = Z.of_nat words /\ words32 (f h b).

Definition suffix_state : list Z := absorb 64 f (Z.to_nat suffix_blocks) (md_h ctx) (padded bits).

Lemma suffix_state_words : len suffix_state = Z.of_nat words /\ words32 suffix_state.
Proof using All.
  unfold suffix_state. pose proof suffix_blocks_bounds. destruct (Z.to_nat suffix_blocks) as [|n] eqn:E; [lia|].
  rewrite absorb_snoc by lia. apply Hf.
Qed.

Lemma select_result (b : bool) r v :
  len r = Z.of_nat words -> words32 r -> len v = Z.of_nat words -> words32 v -> (b = true -> r = zeros (Z.of_nat words)) ->
  for_each words 0 (fun j x => u32 (Z.lor x (Z.land (word_mask b) (word v (Z.to_nat j))))) r = Some (if b then v else r).
Proof using All.
  intros Hr Hwr Hv Hwv Hz.
  match goal with |- for_each _ _ ?g _ = _ => destruct (for_each_spec words 0 g r) as (l & -> & Hl & Hk); [lia|lia|] end.
  f_equal. apply znth_ext; [destruct b; lia|]. intros j Hj. rewrite Hk by lia.
  rewrite (proj2 (Z.leb_le 0 j)), (proj2 (Z.ltb_lt j _)) by lia. cbn [andb].
  destruct (znth_ok r j) as [x Ex]; [lia|]. destruct (znth_ok v j) as [y Ey]; [lia|]. rewrite Ex. cbn [fmap option_fmap option_map].
  assert (Ew : word v (Z.to_nat j) = y).
  { unfold word. rewrite nth_lookup. unfold znth in Ey. rewrite (proj2 (Z.ltb_ge _ _)) in Ey by lia. by rewrite Ey. }
  assert (Hw32 : forall l z, words32 l -> znth l j = Some z -> 0 <= z < 2 ^ 32).
  { intros l' z Hl' Ez. unfold znth in Ez. rewrite (proj2 (Z.ltb_ge _ _)) in Ez by lia. by apply (Forall_lookup_1 _ _ _ _ Hl' Ez). }
  rewrite Ew, word_mask_land_l by (specialize (Hw32 v y Hwv Ey); unfold is_word; platform; lia).
  destruct b.
  - rewrite (Hz eq_refl), znth_zeros in Ex by lia. injection Ex as <-. rewrite Z.lor_0_l, Ey. f_equal.
    apply wrap_small. by apply (Hw32 v).
  - rewrite Z.lor_0_r, Ex. f_equal. apply wrap_small. by apply (Hw32 r).
Qed.

Lemma secret_suffix_loop_spec max_blocks n i block result ctx' :
  suffix_blocks <= max_blocks -> 64 * max_blocks <= md_num ctx + max_len + 72 ->
  0 <= i -> i + Z.of_nat n = max_blocks -> (i = 0 -> ctx' = ctx) -> len block = 64 ->
  (i < suffix_blocks -> md_h ctx' = absorb 64 f (Z.to_nat i) (md_h ctx) (padded bits)) ->
  result = (if suffix_blocks <=? i then suffix_state else zeros (Z.of_nat words)) ->
  secret_suffix_loop transform words n inp length max_len (suffix_blocks - 1) (be_bytes 4 bits) i (input_idx_at i) block result ctx'
  = Some suffix_state.
Proof using All.
  intros Hmb Hmb2. revert i block result ctx'. pose proof suffix_blocks_bounds as Hsb. pose proof suffix_state_words as [HDl HDw].
  assert (Hz : words32 (zeros (Z.of_nat words))) by (apply Forall_replicate; lia).
  assert (Hzl : len (zeros (Z.of_nat words)) = Z.of_nat words) by (apply len_zero_bytes; lia).
  induction n as [|n IH]; intros i block result ctx' Hi Hn Hctx Hl Hh Hres.
  { cbn [secret_suffix_loop]. rewrite Hres. by rewrite (proj2 (Z.leb_le _ _)) by lia. }
  cbn [secret_suffix_loop].
  destruct (masked_block_spec ctx' i block Hi Hctx Hl) as (b & bs & b' & -> & Ef & Hlb & Eidx & Hb'); [lia|].
  cbn [mbind option_bind]. rewrite Ef. cbn [mbind option_bind]. rewrite Eidx.
  rewrite constant_time_eq_w_mask by (unfold is_word; lia).
  match goal with |- context [for_each 4 ?s ?g b'] =>
    destruct (for_each_spec 4 s g b') as (b'' & Eb'' & Hlb'' & _); [unfold SHA_CBLOCK; lia|unfold SHA_CBLOCK; lia|];
    rewrite Eb''; cbn [mbind option_bind] end.
  assert (Hh' : md_h (transform ctx' b'') = f (md_h ctx') b'') by (apply Htransform; lia).
  assert (Hstep : i < suffix_blocks -> md_h (transform ctx' b'') = absorb 64 f (Z.to_nat (i + 1)) (md_h ctx) (padded bits)).
  { intros Hlt. rewrite (length_block_spec bits i b') in Eb'' by (done || lia). injection Eb'' as <-.
    rewrite Hh', Hh by done. replace (Z.to_nat (i + 1)) with (S (Z.to_nat i)) by lia. rewrite absorb_snoc by lia. by rewrite Z2Nat.id. }
  rewrite select_result.
  - cbn [mbind option_bind]. apply IH; [lia|lia|lia|lia|intros; apply Hstep; lia|].
    rewrite Hres. destruct (Z.eqb_spec i (suffix_blocks - 1)) as [Ei|Ei].
    + rewrite (proj2 (Z.leb_le suffix_blocks (i + 1))) by lia. rewrite Hstep by lia. unfold suffix_state. do 2 f_equal. lia.
    + destruct (Z.leb_spec suffix_blocks i), (Z.leb_spec suffix_blocks (i + 1)); (done || lia).
  - rewrite Hres. by destruct (suffix_blocks <=? i).
  - rewrite Hres. by destruct (suffix_blocks <=? i).
  - rewrite Hh'. apply Hf.
  - rewrite Hh'. apply Hf.
  - intros Ei%Z.eqb_eq. rewrite Hres. by rewrite (proj2 (Z.leb_gt _ _)) by lia.
Qed.

End Loop.
End Blocks.

(** ** The padding of the reference *)

Lemma be_bytes_8_4 v : 0 <= v < 2 ^ 32 -> be_bytes 8 v = zeros 4 ++ be_bytes 4 v.
Proof.
  intros Hv. apply be_val_inj; [apply bytes_be_bytes| |by rewrite length_app, !length_be_bytes|].
  - apply bytes_app. split; [apply Forall_replicate; by split|apply bytes_be_bytes].
  - rewrite be_val_app, !be_val_be_bytes, len_be_bytes. change (be_val (zeros 4)) with 0.
    change (256 ^ Z.of_nat 8) with (2 ^ 64). change (256 ^ Z.of_nat 4) with (2 ^ 32).
    rewrite !Z.mod_small by lia. lia.
Qed.

Lemma length_bytes_spec v :
  [u8 (Z.shiftr v 24); u8 (Z.shiftr v 16); u8 (Z.shiftr v 8); u8 v] = be_bytes 4 v.
Proof.
  unfold be_bytes. rewrite !Z.shiftr_div_pow2 by lia.
  change (2 ^ 24) with (256 * 256 * 256). change (2 ^ 16) with (256 * 256). change (2 ^ 8) with 256.
  rewrite <- !Z.div_div by lia. reflexivity.
Qed.

Section Suffix.
Context `{MD : Md32} (Hbs : block_size = 64).
Context (transform : md32_ctx -> list Z -> md32_ctx) (words : nat).
Hypothesis Htransform : forall c b, len b = 64 -> md_h (transform c b) = compress (md_h c) b.
Hypothesis Hf : forall h b, len (compress h b) = Z.of_nat words /\ words32 (compress h b).

Lemma suffix_state_md_state iv m ctx inp length :
  absorbed iv m ctx -> bytes inp -> 0 <= length <= len inp ->
  0 <= 8 * (len m + length) < 2 ^ 32 ->
  suffix_state ctx inp length compress (8 * (len m + length)) = md_state true iv (m ++ ztake length inp).
Proof.
  intros (w & Hm & Hw & Hnum & Hd & Hh & HNl & HNh & Hbits) Hbi Hl H32. rewrite Hbs in *.
  set (t := ztake (md_num ctx) (md_data ctx)) in *. assert (Ht : len t = md_num ctx) by (apply len_ztake; lia).
  assert (Hls : len (ztake length inp) = length) by (apply len_ztake; lia).
  assert (Hlm : len m = len w + md_num ctx) by (rewrite Hm, len_app; lia).
  pose proof (len_nonneg w). apply Z.mod_divide in Hw as [q Hq]; [|lia].
  assert (Hsb : md_num ctx + length + 9 <= 64 * suffix_blocks ctx length <= md_num ctx + length + 72).
  { unfold suffix_blocks. pose proof (Z.div_mod (md_num ctx + length + 72) 64 ltac:(lia)).
    pose proof (Z.mod_pos_bound (md_num ctx + length + 72) 64 ltac:(lia)). lia. }
  set (nb := suffix_blocks ctx length) in *.
  set (n := len m + length) in *.
  assert (Hpad : (- (n + 9)) mod 64 = 64 * nb - md_num ctx - length - 9).
  { symmetry. apply (Z.mod_unique _ _ (- (q + nb))); [left; lia|]. unfold n. lia. }
  assert (HP : t ++ ztake length inp ++ md_padding true n = padded ctx inp length (8 * n)).
  { unfold padded, md_padding. fold nb. rewrite Hbs, Hpad, be_bytes_8_4 by lia.
    assert (Hlh : len (hashed ctx inp length) = md_num ctx + length + 1).
    { unfold hashed. fold t. rewrite !len_app, Ht, Hls. change (len [0x80]) with 1. lia. }
    rewrite Hlh. unfold hashed. fold t. rewrite <- !app_assoc. do 2 f_equal. cbn [app]. f_equal. rewrite app_assoc. f_equal.
    unfold zeros. rewrite <- replicate_add. f_equal. lia. }
  assert (HlP : len (padded ctx inp length (8 * n)) = 64 * nb).
  { rewrite <- HP. unfold md_padding. rewrite !len_app, len_cons, len_app, len_be_bytes, Hbs, Hpad, len_zero_bytes, Ht, Hls by lia. lia. }
  unfold md_state, suffix_state. fold nb.
  replace (len (m ++ ztake length inp)) with n by (rewrite len_app, Hls; done).
  rewrite Hm at 1. rewrite <- !app_assoc, HP.
  rewrite absorb_all_app by (rewrite Hbs, Hq; apply Z.mod_mul; lia). rewrite <- Hh.
  unfold absorb_all. rewrite Hbs, HlP. by replace (64 * nb / 64) with nb by (rewrite Z.mul_comm, Z.div_mul; lia).
Qed.

(** The test of the public lengths refuses exactly the messages of 2^32 bits or more. *)
Lemma secret_suffix_bound Nh Nl m max_len :
  0 <= Nl < 2 ^ 32 -> 0 <= Nh < 2 ^ 32 -> Nh * 2 ^ 32 + Nl = 8 * m -> is_word max_len ->
  let max_len_bits := wrap size_bits (Z.shiftl max_len 3) in
  negb (Nh =? 0) || negb (Z.shiftr max_len_bits 3 =? max_len) ||
  (wrap size_bits (Nl + max_len_bits) <? max_len_bits) || (UINT32_MAX <? wrap size_bits (Nl + max_len_bits))
  = (UINT32_MAX <? 8 * (m + max_len)).
Proof.
  intros HNl HNh E Hw. unfold is_word, UINT32_MAX in *. cbv zeta.
  assert (H32 : 2 ^ 32 <= 2 ^ size_bits) by (platform; lia). set (M := 2 ^ size_bits) in *.
  rewrite Z.shiftl_mul_pow2, Z.shiftr_div_pow2 by lia. change (2 ^ 3) with 8. unfold wrap. fold M.
  pose proof (Z.mod_pos_bound (max_len * 8) M ltac:(lia)) as Hmod. set (b := (max_len * 8) mod M) in *.
  pose proof (Z.div_mod b 8 ltac:(lia)) as Hd. pose proof (Z.mod_pos_bound b 8 ltac:(lia)) as Hr.
  destruct (Z.eqb_spec Nh 0) as [E0|E0]; cbn [negb orb]; [|symmetry; apply Z.ltb_lt; lia].
  destruct (Z.eqb_spec (b / 8) max_len) as [E1|E1]; cbn [negb orb].
  - assert (Eb : b = max_len * 8).
    { unfold b. apply Z.mod_small. split; [lia|]. enough (max_len * 8 <= b) by lia. lia. }
    destruct (Z.lt_ge_cases (Nl + b) M).
    + rewrite Z.mod_small by lia. rewrite (proj2 (Z.ltb_ge _ b)) by lia. cbn [orb]. f_equal. lia.
    + assert (((Nl + b) mod M) = Nl + b - M) as -> by (symmetry; apply (Z.mod_unique _ _ 1); lia).
      rewrite (proj2 (Z.ltb_lt _ b)) by lia. cbn [orb]. symmetry. apply Z.ltb_lt. lia.
  - symmetry. apply Z.ltb_lt. assert (M <= max_len * 8); [|lia].
    destruct (Z.lt_ge_cases (max_len * 8) M) as [Hlt|]; [|done]. exfalso. apply E1. unfold b. rewrite Z.mod_small by lia.
    by rewrite Z.div_mul.
Qed.

Lemma final_with_secret_suffix_exact iv m ctx inp length max_len :
  absorbed iv m ctx -> bytes m -> bytes inp -> 8 * len m < 2 ^ 64 -> is_word max_len ->
  0 <= length <= max_len -> max_len <= len inp ->
  final_with_secret_suffix transform words ctx inp length max_len =
  Some (if UINT32_MAX <? 8 * (len m + max_len) then None
        else Some (concat (be_bytes 4 <$> md_state true iv (m ++ ztake length inp)))).
Proof using All.
  intros Habs Hbm Hbi Hm64 Hw Hl Hmax. pose proof (len_nonneg m) as Hm0.
  pose proof Habs as (w & Hm & Hwm & Hnum & Hd & Hh & HNl & HNh & Hbits). rewrite Hbs in *.
  assert (Hbd : bytes (ztake (md_num ctx) (md_data ctx))) by (rewrite Hm in Hbm; by apply bytes_app in Hbm as [_ ?]).
  rewrite wrap_small in Hbits by lia. unfold final_with_secret_suffix.
  rewrite (secret_suffix_bound _ _ (len m)) by done. destruct (Z.ltb_spec UINT32_MAX (8 * (len m + max_len))) as [|Hle]; [done|].
  unfold UINT32_MAX in Hle. assert (H32 : 2 ^ 32 <= 2 ^ size_bits) by (platform; lia). unfold SHA_CBLOCK.
  rewrite !Z.shiftl_mul_pow2, (wrap_small size_bits (length * 2 ^ 3)) by lia.
  assert (md_Nl ctx + length * 2 ^ 3 = 8 * (len m + length)) as -> by lia.
  rewrite (wrap_small size_bits (8 * (len m + length))), length_bytes_spec by lia.
  assert (Hsh : forall x, 0 <= x <= max_len -> Z.shiftr (wrap size_bits (md_num ctx + x + 1 + 8 + 64 - 1)) 6 = (md_num ctx + x + 72) / 64).
  { intros x Hx. rewrite wrap_small by lia. rewrite Z.shiftr_div_pow2 by lia. change (2 ^ 6) with 64. f_equal. lia. }
  rewrite !Hsh by lia. fold (suffix_blocks ctx length).
  pose proof (Z.div_mod (md_num ctx + max_len + 72) 64 ltac:(lia)) as Hdm.
  pose proof (Z.mod_pos_bound (md_num ctx + max_len + 72) 64 ltac:(lia)) as Hr.
  assert (Hmb : suffix_blocks ctx length <= (md_num ctx + max_len + 72) / 64) by (apply Z.div_le_mono; lia).
  assert (Hsb : 0 <= suffix_blocks ctx length) by (apply Z.div_pos; lia).
  pose proof (secret_suffix_loop_spec ctx inp length max_len Hbd Hbi Hd Hnum Hl Hmax ltac:(lia) compress transform words
    (8 * (len m + length)) Htransform Hf ((md_num ctx + max_len + 72) / 64) (Z.to_nat ((md_num ctx + max_len + 72) / 64)) 0
    (zeros 64) (zeros (Z.of_nat words)) ctx) as Hloop.
  change (input_idx_at ctx 0) with 0 in Hloop. rewrite Hloop; [|done|lia|lia|lia|done|by apply len_zero_bytes|done|].
  2: { rewrite (proj2 (Z.leb_gt _ _)); [done|]. unfold suffix_blocks. apply Z.div_str_pos. lia. }
  cbn [mbind option_bind]. do 2 f_equal.
  destruct (suffix_state_words ctx inp length max_len Hbd Hbi Hd Hnum Hl Hmax ltac:(lia) compress transform words
    (8 * (len m + length)) Htransform Hf) as [_ Hw32].
  rewrite store_words_be by done. do 2 f_equal. apply suffix_state_md_state; [done..|lia|lia].
Qed.
End Suffix.

(** ** HMAC *)

(** What the record code asks of a hash: [R m c] is a relation, kept by the updates, between a
    context and the message it has taken in; the two ways to finish compute the hash [H]. *)
Class StreamHash {C : Type} (digest_length : Z) (Init : C) (Update : C -> list Z -> option C) (Final : C -> option (list Z))
    (final_secret : C -> list Z -> Z -> Z -> option (option (list Z))) (H : list Z -> list Z) := {
  hash_R : list Z -> C -> Prop;
  hash_Init : hash_R [] Init;
  hash_Update : forall m c p, hash_R m c -> is_word (len p) -> exists c', Update c p = Some c' /\ hash_R (m ++ p) c';
  hash_Final : forall m c, hash_R m c -> Final c = Some (H m);
  hash_secret : forall m c inp length max_len, hash_R m c -> bytes m -> bytes inp -> 8 * len m < 2 ^ 64 -> is_word max_len ->
    0 <= length <= max_len -> max_len <= len inp ->
    final_secret c inp length max_len = Some (if UINT32_MAX <? 8 * (len m + max_len) then None else Some (H (m ++ ztake length inp)));
  hash_length : forall m, len (H m) = digest_length;
  hash_length_ok : 0 <= digest_length <= 64;
}.

(** HMAC of RFC 2104, for a key of at most one block. *)
Definition hmac (H : list Z -> list Z) (key m : list Z) : list Z :=
  let K := key ++ zeros (64 - len key) in
  H ((Z.lxor 0x5c <$> K) ++ H ((Z.lxor 0x36 <$> K) ++ m)).

Lemma for_each_map g a : for_each (length a) 0 (fun _ b => g b) a = Some (g <$> a).
Proof.
  destruct (for_each_spec (length a) 0 (fun _ b => g b) a) as (l & -> & Hl & Hk); [lia|unfold len; lia|].
  f_equal. assert (Hlg : len (g <$> a) = len a) by (unfold len; by rewrite length_fmap).
  apply znth_ext; [lia|]. intros j Hj. rewrite Hk by lia. unfold len in Hj, Hl, Hlg.
  rewrite (proj2 (Z.leb_le _ _)), (proj2 (Z.ltb_lt _ _)) by lia. cbn [andb].
  unfold znth. rewrite (proj2 (Z.ltb_ge _ _)) by lia. symmetry. apply list_lookup_fmap.
Qed.

Lemma xor_pad key : bytes key ->
  (fun b => u8 (Z.lxor b 0x36)) <$> key = Z.lxor 0x36 <$> key /\
  (fun b => u8 (Z.lxor b 0x6a)) <$> (Z.lxor 0x36 <$> key) = Z.lxor 0x5c <$> key.
Proof.
  intros Hb. rewrite <- list_fmap_compose.
  split; apply list_fmap_ext; intros i x Hx; pose proof (Forall_lookup_1 _ _ _ _ Hb Hx) as Hbx; unfold is_byte in Hbx.
  - rewrite Z.lxor_comm. apply wrap_small. apply (lxor_range 8); lia.
  - unfold compose. rewrite (Z.lxor_comm 0x36 x), Z.lxor_assoc. change (Z.lxor 0x36 0x6a) with 0x5c.
    rewrite (Z.lxor_comm x). apply wrap_small. apply (lxor_range 8); lia.
Qed.

Lemma digest_record_exact {C} dl (Init : C) Update Final fs H `{SH : !StreamHash dl Init Update Final fs H}
    header data data_size total key :
  bytes header -> len header = 13 -> bytes data -> bytes key -> len key <= 64 ->
  0 <= data_size <= total -> total <= len data -> total <= data_size + dl + 256 -> is_word total -> 8 * (77 + total) < 2 ^ 64 ->
  digest_record dl Init Update Final fs header data data_size total key =
  Some (if UINT32_MAX <? 8 * (77 + total) then None else Some (hmac H key (header ++ ztake data_size data), dl)).
Proof.
  intros Hbh Hlh Hbd Hbk Hlk Hds Htot Hpad Hw H64. pose proof (len_nonneg key) as Hk0. pose proof hash_length_ok as Hdl.
  unfold digest_record, SHA_CBLOCK. rewrite (proj2 (Z.ltb_ge _ _)) by lia.
  set (K := key ++ zeros (64 - len key)).
  assert (HK : store_at (zeros 64) 0 key = Some K).
  { rewrite store_at_ok by (rewrite ?len_zero_bytes; lia). rewrite ztake_0, Z.add_0_l. cbn [app]. unfold K. do 2 f_equal.
    unfold zdrop, zeros. rewrite drop_replicate. f_equal. lia. }
  assert (HlK : length K = 64%nat).
  { unfold K. rewrite length_app. unfold zeros. rewrite length_replicate. unfold len in *. lia. }
  assert (HbK : bytes K) by (apply bytes_app; split; [done|apply Forall_replicate; by split]).
  destruct (xor_pad K HbK) as [Hi Ho]. rewrite HK. cbn [mbind option_bind].
  set (ipad := Z.lxor 0x36 <$> K) in *. set (opad := Z.lxor 0x5c <$> K) in *.
  assert (Hli : len ipad = 64) by (unfold len, ipad; rewrite length_fmap; lia).
  assert (Hlo : len opad = 64) by (unfold len, opad; rewrite length_fmap; lia).
  assert (Hbi : bytes ipad).
  { apply Forall_lookup_2. intros i x Hx. rewrite <- Hi in Hx. apply list_lookup_fmap_Some in Hx as (y & -> & _). apply byte_wrap8. }
  assert (H8 : 2 ^ 32 <= 2 ^ size_bits) by (platform; lia). unfold is_word in Hw.
  replace (Z.to_nat 64) with (length K) by (rewrite HlK; done). rewrite for_each_map, Hi. cbn [mbind option_bind].
  destruct (hash_Update [] Init ipad hash_Init) as (c1 & -> & R1); [unfold is_word; lia|]. cbn [mbind option_bind].
  destruct (hash_Update _ c1 header R1) as (c2 & -> & R2); [unfold is_word; lia|]. cbn [mbind option_bind].
  set (mn := if dl + 256 <? total then total - dl - 256 else 0).
  assert (Hmn : 0 <= mn <= data_size /\ mn <= total) by (unfold mn; zcases; lia). clearbody mn.
  rewrite load_at_ok by lia. cbn [mbind option_bind]. rewrite zdrop_0.
  assert (Hlp : len (ztake mn data) = mn) by (apply len_ztake; lia).
  destruct (hash_Update _ c2 (ztake mn data) R2) as (c3 & -> & R3); [unfold is_word; lia|]. cbn [mbind option_bind].
  rewrite app_nil_l in R3. set (m := (ipad ++ header) ++ ztake mn data) in *.
  assert (Hlm : len m = 77 + mn) by (unfold m; rewrite !len_app; lia).
  assert (Hbm : bytes m) by (apply bytes_app; split; [by apply bytes_app|by apply bytes_ztake]).
  rewrite (wrap_small size_bits (data_size - mn)) by lia.
  rewrite (hash_secret m c3); [|done|done|by apply bytes_zdrop|lia|unfold is_word; lia|lia|rewrite len_zdrop; lia].
  replace (len m + (total - mn)) with (77 + total) by lia. cbn [mbind option_bind].
  destruct (UINT32_MAX <? 8 * (77 + total)); [done|]. cbn [mbind option_bind].
  replace (length K) with (length ipad) by (unfold ipad; apply length_fmap). rewrite for_each_map, Ho. cbn [mbind option_bind].
  destruct (hash_Update [] Init opad hash_Init) as (d1 & -> & S1); [unfold is_word; lia|]. cbn [mbind option_bind].
  set (inner := H (m ++ ztake (data_size - mn) (zdrop mn data))).
  destruct (hash_Update _ d1 inner S1) as (d2 & -> & S2); [unfold is_word, inner; rewrite hash_length; lia|]. cbn [mbind option_bind].
  rewrite (hash_Final _ d2 S2). cbn [mbind option_bind]. do 3 f_equal. unfold hmac. fold K. fold ipad. fold opad.
  rewrite app_nil_l. do 2 f_equal. unfold inner, m. rewrite <- !app_assoc. do 4 f_equal. apply ztake_split. lia.
Qed.

(** ** SHA-1 and SHA-256 are such hashes *)

Lemma concat_words_len v : len (concat (be_bytes 4 <$> v)) = 4 * len v.
Proof.
  induction v as [|x v IH]; [done|]. cbn [fmap list_fmap concat]. rewrite len_app, len_be_bytes, len_cons.
  change (list_fmap Z (list Z) (be_bytes 4) v) with (be_bytes 4 <$> v). lia.
Qed.

Lemma sha1_state_words iv m :
  length (md_state (MD := sha1_md32) true iv m) = 5%nat /\ words32 (md_state (MD := sha1_md32) true iv m).
Proof.
  destruct (md_state_compress (MD := sha1_md32) true iv m) as (h & b & ->).
  destruct (sha1_compress_5 h b) as (v & <- & Hl & Hv). split; [exact Hl|exact Hv].
Qed.

Lemma sha256_state_words iv m :
  length (md_state (MD := sha256_md32) true iv m) = 8%nat /\ words32 (md_state (MD := sha256_md32) true iv m).
Proof.
  destruct (md_state_compress (MD := sha256_md32) true iv m) as (h & b & ->).
  destruct (sha256_compress_8 h b) as (v & <- & Hl & Hv). split; [exact Hl|exact Hv].
Qed.

Lemma absorb_one f h b : len b = 64 -> absorb 64 f 1 h b = f h b.
Proof. intros Hb. cbn [absorb]. f_equal. rewrite <- Hb. apply ztake_all. Qed.

Lemma SHA1_Transform_compress c b : len b = 64 -> md_h (SHA1_Transform c b) = sha1_compress (md_h c) b.
Proof.
  intros Hb. cbn [md_h SHA1_Transform BCM_sha1_transform]. unfold sha1_block_data_order, sha1_block_data_order_nohw.
  rewrite sha1_loop_absorb by (rewrite Hb; done). by apply absorb_one.
Qed.

Lemma SHA256_Transform_compress c l b : len b = 64 ->
  md_h (sha256_md (SHA256_Transform {| sha256_md := c; md_len := l |} b)) = sha256_compress (md_h c) b.
Proof.
  intros Hb. cbn [md_h sha256_md SHA256_Transform BCM_sha256_transform]. unfold sha256_block_data_order, sha256_block_data_order_nohw.
  rewrite sha256_loop_absorb by (rewrite Hb; done). by apply absorb_one.
Qed.

#[export] Instance sha1_stream_hash :
  StreamHash 20 SHA1_Init SHA1_Update (fun c => '(out, _) ← SHA1_Final c; Some out) EVP_sha1_final_with_secret_suffix sha1_hash.
Proof.
  refine {| hash_R := absorbed (MD := sha1_md32) sha1_iv |}.
  - rewrite SHA1_Init_fresh. apply fresh_ctx_absorbed.
  - intros m c p Hc Hp. by apply (crypto_md32_update_absorbed (MD := sha1_md32)).
  - intros m c Hc. destruct (crypto_md32_final_state (MD := sha1_md32) sha1_iv m true c Hc) as (c' & E & Eh & _).
    unfold SHA1_Final, BCM_sha1_final. rewrite E. cbn [mbind option_bind]. f_equal.
    destruct (sha1_state_words sha1_iv m) as [Hl Hv]. rewrite sha1_output_state_words by (by rewrite Eh). by rewrite Eh.
  - intros m c inp length max_len Hc Hm Hi H64 Hw Hl Hmax.
    apply (final_with_secret_suffix_exact (MD := sha1_md32) eq_refl SHA1_Transform 5); try done.
    + apply SHA1_Transform_compress.
    + intros h b. destruct (sha1_compress_5 h b) as (v & <- & Hlv & Hv). split; [exact (f_equal Z.of_nat Hlv)|exact Hv].
  - intros m. unfold sha1_hash. rewrite concat_words_len. destruct (sha1_state_words sha1_iv m) as [Hl _]. unfold len. lia.
  - lia.
Defined.

#[export] Instance sha256_stream_hash :
  StreamHash 32 SHA256_Init SHA256_Update (fun c => '(out, _) ← SHA256_Final c; out) EVP_sha256_final_with_secret_suffix sha256_hash.
Proof.
  refine {| hash_R := fun m c => absorbed (MD := sha256_md32) sha256_iv m (sha256_md c) /\ md_len c = 32 |}.
  - rewrite SHA256_Init_fresh. split; [apply fresh_ctx_absorbed|done].
  - intros m c p [Hc Hlen] Hp. destruct (crypto_md32_update_absorbed (MD := sha256_md32) _ _ _ _ Hc Hp) as (c' & E & Hc').
    unfold SHA256_Update, BCM_sha256_update. rewrite E. by eexists.
  - intros m c [Hc Hlen]. destruct (crypto_md32_final_state (MD := sha256_md32) sha256_iv m true (sha256_md c) Hc) as (c' & E & Eh & _).
    rewrite SHA256_Final_impl by done. unfold sha256_final_impl. rewrite E. cbn [mbind option_bind].
    change (BCM_SHA256_DIGEST_LENGTH <? 32) with false. cbn [mbind option_bind]. f_equal.
    destruct (sha256_state_words sha256_iv m) as [Hl Hv]. rewrite <- Eh in Hl, Hv. change (Z.to_nat (32 / 4)) with 8%nat.
    rewrite sha256_final_words by (done || lia). unfold sha256_hash. rewrite <- Eh. by rewrite take_ge by lia.
  - intros m c inp length max_len [Hc Hlen] Hm Hi H64 Hw Hl Hmax.
    apply (final_with_secret_suffix_exact (MD := sha256_md32) eq_refl _ 8); try done.
    + intros c0 b Hb. by apply SHA256_Transform_compress.
    + intros h b. destruct (sha256_compress_8 h b) as (v & <- & Hlv & Hv). split; [exact (f_equal Z.of_nat Hlv)|exact Hv].
  - intros m. unfold sha256_hash. rewrite concat_words_len. destruct (sha256_state_words sha256_iv m) as [Hl _]. unfold len. lia.
  - lia.
Defined.


End Digest.

