(* ===== verification/Keccak.v ===== *)
(** Keccak: crypto/fipsmodule/keccak/keccak.cc.inc. The permutation works in place on 25 lanes, the
    sponge takes its input and gives its output in pieces; the host is little-endian. *)
From S2P Require Import Prelude.
From S2P Require Import Internal.
From S2P Require Import Arrays.

Open Scope Z_scope.

(** ** The permutation *)

(* state[index] ^= v *)
Definition xor_lane (state : list Z) (index v : Z) : list Z :=
  set_ index (Z.lxor (at_ state index) v) state.

Definition theta_column (state : list Z) (x : Z) : Z :=
  Z.lxor (Z.lxor (Z.lxor (Z.lxor (at_ state x) (at_ state (x + 5))) (at_ state (x + 10)))
                 (at_ state (x + 15)))
         (at_ state (x + 20)).

Definition theta_step (state : list Z) : list Z :=
  let c := theta_column state <$> indices 5 in
  fold_left (fun state x =>
    let d := Z.lxor (at_ c ((x + 4) mod 5)) (CRYPTO_rotl_u64 (at_ c ((x + 1) mod 5)) 1) in
    fold_left (fun state y => xor_lane state (y * 5 + x) d) (indices 5) state)
  (indices 5) state.

Definition PI_RHO_STEP (acc : list Z * Z) (arg : Z * Z) : list Z * Z :=
  let '(state, prev_value) := acc in
  let '(index, rotation) := arg in
  let value := CRYPTO_rotl_u64 prev_value rotation in
  (set_ index value state, at_ state index).

Definition pi_rho_trail : list (Z * Z) :=
  [(10, 1); (7, 3); (11, 6); (17, 10); (18, 15); (3, 21); (5, 28); (16, 36); (8, 45); (21, 55);
   (24, 2); (4, 14); (15, 27); (23, 41); (19, 56); (13, 8); (12, 25); (2, 43); (20, 62); (14, 18);
   (22, 39); (9, 61); (6, 20); (1, 44)].

Definition pi_rho_steps (state : list Z) : list Z :=
  fst (fold_left PI_RHO_STEP pi_rho_trail (state, at_ state 1)).

Definition chi_row (state : list Z) (y : Z) : list Z :=
  let row_index := 5 * y in
  let orig_x0 := at_ state row_index in
  let orig_x1 := at_ state (row_index + 1) in
  let state := xor_lane state row_index (Z.land (wnot 64 orig_x1) (at_ state (row_index + 2))) in
  let state := xor_lane state (row_index + 1)
                 (Z.land (wnot 64 (at_ state (row_index + 2))) (at_ state (row_index + 3))) in
  let state := xor_lane state (row_index + 2)
                 (Z.land (wnot 64 (at_ state (row_index + 3))) (at_ state (row_index + 4))) in
  let state := xor_lane state (row_index + 3) (Z.land (wnot 64 (at_ state (row_index + 4))) orig_x0) in
  xor_lane state (row_index + 4) (Z.land (wnot 64 orig_x0) orig_x1).

Definition chi_step (state : list Z) : list Z := fold_left chi_row (indices 5) state.

Definition kRoundConstants : list Z :=
  [0x0000000000000001; 0x0000000000008082; 0x800000000000808a;
   0x8000000080008000; 0x000000000000808b; 0x0000000080000001;
   0x8000000080008081; 0x8000000000008009; 0x000000000000008a;
   0x0000000000000088; 0x0000000080008009; 0x000000008000000a;
   0x000000008000808b; 0x800000000000008b; 0x8000000000008089;
   0x8000000000008003; 0x8000000000008002; 0x8000000000000080;
   0x000000000000800a; 0x800000008000000a; 0x8000000080008081;
   0x8000000000008080; 0x0000000080000001; 0x8000000080008008].

Definition keccak_round (state : list Z) (round : Z) : list Z :=
  xor_lane (chi_step (pi_rho_steps (theta_step state))) 0 (at_ kRoundConstants round).

Definition keccak_f (state : list Z) : list Z := fold_left keccak_round (indices 24) state.

(** ** The sponge *)

Inductive boringssl_keccak_config_t :=
  | boringssl_sha3_256
  | boringssl_sha3_512
  | boringssl_shake128
  | boringssl_shake256.

Inductive boringssl_keccak_phase_t :=
  | boringssl_keccak_phase_absorb
  | boringssl_keccak_phase_squeeze.

Record BORINGSSL_keccak_st := {
  config : boringssl_keccak_config_t;
  phase : boringssl_keccak_phase_t;
  state : list Z;
  rate_bytes : Z;
  absorb_offset : Z;
  squeeze_offset : Z;
}.

Definition with_state (c : BORINGSSL_keccak_st) (s : list Z) : BORINGSSL_keccak_st :=
  {| config := config c; phase := phase c; state := s; rate_bytes := rate_bytes c;
     absorb_offset := absorb_offset c; squeeze_offset := squeeze_offset c |}.

Definition with_absorb (c : BORINGSSL_keccak_st) (s : list Z) (o : Z) : BORINGSSL_keccak_st :=
  {| config := config c; phase := phase c; state := s; rate_bytes := rate_bytes c;
     absorb_offset := o; squeeze_offset := squeeze_offset c |}.

Definition with_squeeze (c : BORINGSSL_keccak_st) (s : list Z) (o : Z) : BORINGSSL_keccak_st :=
  {| config := config c; phase := boringssl_keccak_phase_squeeze; state := s;
     rate_bytes := rate_bytes c; absorb_offset := absorb_offset c; squeeze_offset := o |}.

(** The 200 bytes of the lanes, as the [uint8_t *] the code casts the state to. *)
Definition state_bytes (state : list Z) : list Z := concat (le_bytes 8 <$> state).

(* state_bytes[i] ^= v *)
Definition xor_byte (state : list Z) (i v : Z) : list Z :=
  xor_lane state (i / 8) (Z.shiftl v (8 * (i mod 8))).

Fixpoint xor_bytes (state : list Z) (offset : Z) (inp : list Z) : list Z :=
  match inp with
  | [] => state
  | v :: inp => xor_bytes (xor_byte state offset v) (offset + 1) inp
  end.

(** The capacity and the required output length, 0 for none. *)
Definition keccak_capacity (c : boringssl_keccak_config_t) : Z * Z :=
  match c with
  | boringssl_sha3_256 => (512 / 8, 32)
  | boringssl_sha3_512 => (1024 / 8, 64)
  | boringssl_shake128 => (256 / 8, 0)
  | boringssl_shake256 => (512 / 8, 0)
  end.

Definition keccak_init (c : boringssl_keccak_config_t) : BORINGSSL_keccak_st * Z :=
  let '(capacity_bytes, required_out_len) := keccak_capacity c in
  ({| config := c; phase := boringssl_keccak_phase_absorb; state := replicate 25 0;
      rate_bytes := 200 - capacity_bytes; absorb_offset := 0; squeeze_offset := 0 |},
   required_out_len).

(* None is abort(). *)
Definition BORINGSSL_keccak_init (c : boringssl_keccak_config_t) : option BORINGSSL_keccak_st :=
  let '(ctx, required_out_len) := keccak_init c in
  if negb (required_out_len =? 0) then None else Some ctx.

Definition absorb_block (state : list Z) (rate_words : Z) (inp : list Z) : list Z :=
  keccak_f (fold_left (fun state i => xor_lane state i (CRYPTO_load_u64_le (zdrop (8 * i) inp)))
                      (indices (Z.to_nat rate_words)) state).

(** The loop over full blocks: the lanes and the input left over. *)
Fixpoint absorb_blocks (fuel : nat) (rate : Z) (state inp : list Z) : list Z * list Z :=
  match fuel with
  | O => (state, inp)
  | S fuel => if rate <=? len inp
              then absorb_blocks fuel rate (absorb_block state (rate / 8) inp) (zdrop rate inp)
              else (state, inp)
  end.

Definition absorb_rest (ctx : BORINGSSL_keccak_st) (inp : list Z) : BORINGSSL_keccak_st :=
  let '(s, inp) := absorb_blocks (length inp) (rate_bytes ctx) (state ctx) inp in
  with_absorb ctx (xor_bytes s 0 inp) (len inp).

Definition BORINGSSL_keccak_absorb (ctx : BORINGSSL_keccak_st) (inp : list Z) : option BORINGSSL_keccak_st :=
  match phase ctx with
  | boringssl_keccak_phase_squeeze => None
  | boringssl_keccak_phase_absorb =>
    if negb (absorb_offset ctx =? 0)
    then
      let first_block_len := rate_bytes ctx - absorb_offset ctx in
      let s := xor_bytes (state ctx) (absorb_offset ctx) (ztake first_block_len inp) in
      if len inp <? first_block_len
      then Some (with_absorb ctx s (absorb_offset ctx + len inp))
      else Some (absorb_rest (with_state ctx (keccak_f s)) (zdrop first_block_len inp))
    else Some (absorb_rest ctx inp)
  end.

Definition terminator (c : boringssl_keccak_config_t) : Z :=
  match c with
  | boringssl_sha3_256 | boringssl_sha3_512 => 0x06
  | boringssl_shake128 | boringssl_shake256 => 0x1f
  end.

Definition keccak_finalize (ctx : BORINGSSL_keccak_st) : list Z :=
  keccak_f (xor_byte (xor_byte (state ctx) (absorb_offset ctx) (terminator (config ctx)))
                     (rate_bytes ctx - 1) 0x80).

(** The loop of squeeze: the lanes, the offset and the output. *)
Fixpoint squeeze_loop (fuel : nat) (rate : Z) (s : list Z) (offset out_len : Z) : list Z * Z * list Z :=
  match fuel with
  | O => (s, offset, [])
  | S fuel =>
    if out_len =? 0 then (s, offset, []) else
    let '(s, offset) := if offset =? rate then (keccak_f s, 0) else (s, offset) in
    let remaining := rate - offset in
    let todo := if remaining <? out_len then remaining else out_len in
    let '(s', offset', out) := squeeze_loop fuel rate s (offset + todo) (out_len - todo) in
    (s', offset', ztake todo (zdrop offset (state_bytes s)) ++ out)
  end.

Definition BORINGSSL_keccak_squeeze (ctx : BORINGSSL_keccak_st) (out_len : Z) : BORINGSSL_keccak_st * list Z :=
  let s := match phase ctx with
           | boringssl_keccak_phase_absorb => keccak_finalize ctx
           | boringssl_keccak_phase_squeeze => state ctx
           end in
  let '(s, offset, out) := squeeze_loop (Z.to_nat out_len) (rate_bytes ctx) s (squeeze_offset ctx) out_len in
  (with_squeeze ctx s offset, out).

Definition BORINGSSL_keccak (out_len : Z) (inp : list Z) (c : boringssl_keccak_config_t) : option (list Z) :=
  let '(ctx, required_out_len) := keccak_init c in
  if negb (required_out_len =? 0) && negb (out_len =? required_out_len) then None else
  ctx ← BORINGSSL_keccak_absorb ctx inp;
  Some (snd (BORINGSSL_keccak_squeeze ctx out_len)).
