(* ===== verification/KeccakProofs.v ===== *)
(** The Keccak code computes the functions of FIPS 202: SHA3-256, SHA3-512, SHAKE128 and SHAKE256,
    for input absorbed in any pieces and output squeezed in any pieces. The reference has the step
    mappings on a 5 x 5 array of lanes, the offsets and round constants computed from their
    definitions, and the sponge on whole strings. *)
From S2P Require Import Prelude.
From S2P Require Import Internal.
From S2P Require Import Arrays.
From S2P Require Import Md32.
From S2P Require Import Keccak.

Open Scope Z_scope.

(** ** FIPS 202 *)

(** The state array: lane (x, y) is element [5 y + x]. *)
Definition lane (A : list Z) (x y : Z) : Z := at_ A (5 * y + x).
Definition lanes (f : Z -> Z -> Z) : list Z := y ← indices 5; x ← indices 5; [f x y].

Definition ROT (v n : Z) : Z := (v mod 2 ^ (64 - n)) * 2 ^ n + v / 2 ^ (64 - n).

Definition fips_C (A : list Z) (x : Z) : Z :=
  fold_left (fun acc y => Z.lxor acc (lane A x y)) [1; 2; 3; 4] (lane A x 0).
Definition fips_theta (A : list Z) : list Z :=
  lanes (fun x y => Z.lxor (lane A x y)
                      (Z.lxor (fips_C A ((x - 1) mod 5)) (ROT (fips_C A ((x + 1) mod 5)) 1))).

(** The offsets of rho: step [t] of the walk that starts at (1, 0) gives (t + 1)(t + 2) / 2. *)
Fixpoint rho_walk (n : nat) (t x y : Z) : list (Z * Z * Z) :=
  match n with
  | O => []
  | S n => (x, y, ((t + 1) * (t + 2) / 2) mod 64) :: rho_walk n (t + 1) y ((2 * x + 3 * y) mod 5)
  end.
Definition rho_offset (x y : Z) : Z :=
  match List.find (fun '(x', y', _) => (x =? x') && (y =? y')) (rho_walk 24 0 1 0) with
  | Some (_, _, r) => r
  | None => 0
  end.
Definition fips_rho (A : list Z) : list Z := lanes (fun x y => ROT (lane A x y) (rho_offset x y)).
Definition fips_pi (A : list Z) : list Z := lanes (fun x y => lane A ((x + 3 * y) mod 5) x).
Definition fips_chi (A : list Z) : list Z :=
  lanes (fun x y => Z.lxor (lane A x y)
                      (Z.land (wnot 64 (lane A ((x + 1) mod 5) y)) (lane A ((x + 2) mod 5) y))).

(** The round constants: the bits of the linear feedback shift register of x^8 + x^6 + x^5 + x^4 + 1. *)
Definition lfsr_step (R : Z) : Z := if Z.testbit R 7 then Z.lxor (2 * R) 0x171 else 2 * R.
Definition rc (t : Z) : bool := Z.testbit (Nat.iter (Z.to_nat (t mod 255)) lfsr_step 1) 0.
Definition fips_RC (ir : Z) : Z :=
  fold_left (fun acc j => acc + (if rc (j + 7 * ir) then 2 ^ (2 ^ j - 1) else 0)) (indices 7) 0.
Definition fips_iota (A : list Z) (ir : Z) : list Z :=
  lanes (fun x y => if (x =? 0) && (y =? 0) then Z.lxor (lane A x y) (fips_RC ir) else lane A x y).

Definition fips_round (A : list Z) (ir : Z) : list Z :=
  fips_iota (fips_chi (fips_pi (fips_rho (fips_theta A)))) ir.
Definition keccak_p (A : list Z) : list Z := fold_left fips_round (indices 24) A.

(** The sponge on whole strings. A block is xored into the first lanes of the state. *)
Definition lane_of (b : list Z) (j : Z) : Z := le_val (ztake 8 (zdrop (8 * j) b)).
Definition xor_state (A b : list Z) : list Z := zip_with Z.lxor A (lane_of b <$> indices 25).

Definition keccak_rate (c : boringssl_keccak_config_t) : Z :=
  match c with
  | boringssl_sha3_256 => 136 | boringssl_sha3_512 => 72
  | boringssl_shake128 => 168 | boringssl_shake256 => 136
  end.

(** The domain separation suffix, 01 or 1111, followed by pad10*1, in bytes. *)
Definition fips_pad (c : boringssl_keccak_config_t) (n : Z) : list Z :=
  let suffix := match c with
                | boringssl_sha3_256 | boringssl_sha3_512 => 2 + 4
                | boringssl_shake128 | boringssl_shake256 => 15 + 16
                end in
  let q := keccak_rate c - n mod keccak_rate c in
  if q =? 1 then [suffix + 128] else suffix :: replicate (Z.to_nat (q - 2)) 0 ++ [128].

Definition sponge_absorb (rate : Z) (A m : list Z) : list Z :=
  absorb rate (fun A b => keccak_p (xor_state A b)) (Z.to_nat (len m / rate)) A m.

(** Byte [i] of the output is byte [i mod rate] of the state after [i / rate] permutations. *)
Definition sponge_byte (rate : Z) (A : list Z) (i : Z) : Z :=
  at_ (state_bytes (Nat.iter (Z.to_nat (i / rate)) keccak_p A)) (i mod rate).
Definition sponge_squeeze (rate : Z) (A : list Z) (start d : Z) : list Z :=
  (fun i => sponge_byte rate A (start + i)) <$> indices (Z.to_nat d).

Definition sponge_state (c : boringssl_keccak_config_t) (m : list Z) : list Z :=
  sponge_absorb (keccak_rate c) (replicate 25 0) (m ++ fips_pad c (len m)).
Definition keccak_hash (c : boringssl_keccak_config_t) (m : list Z) (d : Z) : list Z :=
  sponge_squeeze (keccak_rate c) (sponge_state c m) 0 d.

(** Output squeezed in pieces. *)
Fixpoint squeeze_pieces (ctx : BORINGSSL_keccak_st) (ds : list Z) : list (list Z) :=
  match ds with
  | [] => []
  | d :: ds => let '(ctx, out) := BORINGSSL_keccak_squeeze ctx d in out :: squeeze_pieces ctx ds
  end.

(** ** The permutation *)

Definition words64 (A : list Z) : Prop := Forall (fun x => 0 <= x < 2 ^ 64) A.
Definition lanes_ok (A : list Z) : Prop := length A = 25%nat /\ words64 A.

Lemma words64_at A i : words64 A -> 0 <= at_ A i < 2 ^ 64.
Proof.
  intros H. unfold at_. destruct (A !! Z.to_nat i) eqn:E; simpl; [|lia].
  exact (Forall_lookup_1 _ _ _ _ H E).
Qed.

Lemma lanes_ok_lanes f : (forall x y, 0 <= f x y < 2 ^ 64) -> lanes_ok (lanes f).
Proof.
  intros H. split; [done|]. unfold words64, lanes. simpl.
  repeat (apply List.Forall_cons; [apply H|]). apply List.Forall_nil.
Qed.

(** The lanes of a state as variables. *)
Ltac destruct_lanes A :=
  let H := fresh in intros H;
  do 25 (destruct A as [|? A]; [discriminate H|]);
  destruct A; [clear H|discriminate H].

Lemma rotl_ROT v n : 0 < n < 64 -> 0 <= v < 2 ^ 64 -> CRYPTO_rotl_u64 v n = ROT v n.
Proof. apply rotl_u64_split. Qed.

Lemma ROT_0 v : 0 <= v < 2 ^ 64 -> ROT v 0 = v.
Proof. intros. unfold ROT. rewrite Z.sub_0_r, Z.mod_small, Z.div_small by lia. lia. Qed.

Lemma ROT_range v n : 0 <= n < 64 -> 0 <= v < 2 ^ 64 -> 0 <= ROT v n < 2 ^ 64.
Proof.
  intros Hn Hv. destruct (Z.eq_dec n 0) as [->|]; [by rewrite ROT_0|]. apply (rot_range 64); lia.
Qed.

Lemma wnot64_range v : 0 <= wnot 64 v < 2 ^ 64.
Proof. apply wrap_range. lia. Qed.

Lemma fips_C_range A x : words64 A -> 0 <= fips_C A x < 2 ^ 64.
Proof. intros H. unfold fips_C, lane. cbn. repeat apply (lxor_range 64); try lia; by apply words64_at. Qed.

Lemma rho_offset_range x y : 0 <= rho_offset x y < 64.
Proof.
  unfold rho_offset. destruct (List.find _ _) as [[[x' y'] r]|] eqn:E; [|lia].
  apply find_some in E as [E _].
  assert (H : Forall (fun '(_, _, r) => 0 <= r < 64) (rho_walk 24 0 1 0))
    by (vm_compute; repeat (apply List.Forall_cons; [split; congruence|]); apply List.Forall_nil).
  exact (proj1 (List.Forall_forall _ _) H _ E).
Qed.

(** A state array is its lanes. *)
Lemma digit_cases x : 0 <= x < 5 -> x = 0 \/ x = 1 \/ x = 2 \/ x = 3 \/ x = 4.
Proof. lia. Qed.

Lemma lane_lanes f x y : 0 <= x < 5 -> 0 <= y < 5 -> lane (lanes f) x y = f x y.
Proof.
  intros Hx Hy. destruct (digit_cases x Hx) as [->|[->|[->|[->| ->]]]];
    destruct (digit_cases y Hy) as [->|[->|[->|[->| ->]]]]; reflexivity.
Qed.

Lemma lanes_ext f g : (forall x y, 0 <= x < 5 -> 0 <= y < 5 -> f x y = g x y) -> lanes f = lanes g.
Proof. intros H. unfold lanes. cbn. rewrite !H by lia. reflexivity. Qed.

Lemma theta_lanes A : words64 A -> lanes_ok (fips_theta A).
Proof.
  intros H. apply lanes_ok_lanes. intros x y. apply (lxor_range 64); [lia|by apply words64_at|].
  apply (lxor_range 64); [lia|by apply fips_C_range|]. apply ROT_range; [lia|by apply fips_C_range].
Qed.

Lemma rho_lanes A : words64 A -> lanes_ok (fips_rho A).
Proof. intros H. apply lanes_ok_lanes. intros x y. apply ROT_range; [apply rho_offset_range|by apply words64_at]. Qed.

Lemma pi_lanes A : words64 A -> lanes_ok (fips_pi A).
Proof. intros H. apply lanes_ok_lanes. intros x y. by apply words64_at. Qed.

Lemma chi_lanes A : words64 A -> lanes_ok (fips_chi A).
Proof.
  intros H. apply lanes_ok_lanes. intros x y. apply (lxor_range 64); [lia|by apply words64_at|].
  apply (land_range 64); [lia|apply wnot64_range].
Qed.

Lemma fips_RC_table i : 0 <= i < 24 -> fips_RC i = at_ kRoundConstants i.
Proof.
  intros Hi. assert (E : forall_from (fun i => fips_RC i =? at_ kRoundConstants i) 0 24 = true) by (vm_compute; reflexivity).
  apply Z.eqb_eq. exact (forall_from_spec _ 0 24 i E ltac:(lia)).
Qed.

Lemma kRoundConstants_words : words64 kRoundConstants.
Proof. unfold kRoundConstants. repeat (apply List.Forall_cons; [lia|]). apply List.Forall_nil. Qed.

Lemma iota_lanes A i : 0 <= i < 24 -> words64 A -> lanes_ok (fips_iota A i).
Proof.
  intros Hi H. apply lanes_ok_lanes. intros x y. rewrite fips_RC_table by done.
  destruct (_ && _); [|by apply words64_at].
  apply (lxor_range 64); [lia|by apply words64_at|apply words64_at, kRoundConstants_words].
Qed.

Lemma theta_step_fips A : lanes_ok A -> theta_step A = fips_theta A.
Proof.
  intros [Hl Hw].
  transitivity (lanes (fun x y => Z.lxor (lane A x y)
    (Z.lxor (fips_C A ((x - 1) mod 5)) (CRYPTO_rotl_u64 (fips_C A ((x + 1) mod 5)) 1)))).
  { clear Hw. revert Hl. destruct_lanes A. cbv -[Z.lxor CRYPTO_rotl_u64]. reflexivity. }
  apply lanes_ext. intros x y _ _. by rewrite rotl_ROT by (first [lia|by apply fips_C_range]).
Qed.

Lemma pi_rho_steps_fips A : lanes_ok A -> pi_rho_steps A = fips_pi (fips_rho A).
Proof.
  intros [Hl Hw].
  transitivity (lanes (fun x y => let '(x, y) := ((x + 3 * y) mod 5, x) in
     if rho_offset x y =? 0 then lane A x y else CRYPTO_rotl_u64 (lane A x y) (rho_offset x y))).
  { clear Hw. revert Hl. destruct_lanes A. cbv -[CRYPTO_rotl_u64]. reflexivity. }
  apply lanes_ext. intros x y Hx Hy. unfold fips_rho.
  pose proof (Z.mod_pos_bound (x + 3 * y) 5 ltac:(lia)) as Hm. rewrite lane_lanes by lia.
  pose proof (rho_offset_range ((x + 3 * y) mod 5) x).
  destruct (Z.eqb_spec (rho_offset ((x + 3 * y) mod 5) x) 0) as [->|].
  - symmetry. apply ROT_0. by apply words64_at.
  - apply rotl_ROT; [lia|by apply words64_at].
Qed.

Lemma chi_step_fips A : length A = 25%nat -> chi_step A = fips_chi A.
Proof. destruct_lanes A. cbv -[Z.lxor Z.land wnot]. reflexivity. Qed.

Lemma iota_step_fips A i : 0 <= i < 24 -> length A = 25%nat -> xor_lane A 0 (at_ kRoundConstants i) = fips_iota A i.
Proof.
  intros Hi. rewrite <- fips_RC_table by done. unfold fips_iota.
  generalize (fips_RC i) as r. intros r. destruct_lanes A. cbv -[Z.lxor]. reflexivity.
Qed.

Lemma keccak_round_fips A i : 0 <= i < 24 -> lanes_ok A -> keccak_round A i = fips_round A i /\ lanes_ok (fips_round A i).
Proof.
  intros Hi [Hl Hw]. unfold keccak_round, fips_round.
  rewrite theta_step_fips by done. pose proof (theta_lanes A Hw) as [Ht Htw].
  rewrite pi_rho_steps_fips by done. pose proof (pi_lanes _ (proj2 (rho_lanes _ Htw))) as [Hp Hpw].
  rewrite chi_step_fips by done. pose proof (chi_lanes _ Hpw) as [Hc Hcw].
  rewrite iota_step_fips by done. split; [done|by apply iota_lanes].
Qed.

Lemma fold_left_invariant {A B} (P : A -> Prop) (Q : B -> Prop) (f g : A -> B -> A) l a :
  (forall a b, Q b -> P a -> f a b = g a b /\ P (g a b)) -> Forall Q l -> P a ->
  fold_left f l a = fold_left g l a /\ P (fold_left g l a).
Proof.
  intros Hfg Hl. revert a. induction Hl as [|b l Hb Hl IH]; intros a Ha; [done|]. simpl.
  destruct (Hfg a b Hb Ha) as [-> Ha']. by apply IH.
Qed.

(** The permutation is Keccak-p[1600, 24]. *)
Lemma keccak_f_fips A : lanes_ok A -> keccak_f A = keccak_p A /\ lanes_ok (keccak_p A).
Proof. intros HA. exact (fold_left_invariant lanes_ok _ keccak_round fips_round (indices 24) A
    (fun A i Hi HA => keccak_round_fips A i Hi HA) (indices_range 24) HA). Qed.

(** ** Lanes and bytes *)

Lemma le_val_testbit l n : bytes l -> 0 <= n ->
  Z.testbit (le_val l) n = Z.testbit (at_ l (n / 8)) (n mod 8).
Proof.
  intros Hl. revert n. induction l as [|b l IH]; intros n Hn; simpl.
  - unfold at_. rewrite lookup_nil. simpl. by rewrite !Z.bits_0.
  - apply bytes_cons in Hl as [Hb Hl]. rewrite Z.add_comm.
    change 256 with (2 ^ 8). rewrite (Z.mul_comm (2 ^ 8)).
    rewrite <- (lor_shiftl_add (le_val l) b 8) by (unfold is_byte in Hb; lia).
    rewrite Z.lor_spec. destruct (Z.lt_ge_cases n 8) as [H|H].
    + rewrite Z.shiftl_spec_low, Z.div_small, Z.mod_small by lia. done.
    + rewrite Z.shiftl_spec, IH by (done || lia). rewrite (testbit_small 8 b n), orb_false_r by (done || lia).
      assert (1 <= n / 8) by (apply Z.div_le_lower_bound; lia).
      rewrite at_cons by lia. replace (n - 8) with (n + (-1) * 8) by lia.
      by rewrite Z.div_add, Z.mod_add by lia.
Qed.

Lemma lane_of_range b j : bytes b -> 0 <= lane_of b j < 2 ^ 64.
Proof.
  intros Hb. unfold lane_of.
  pose proof (le_val_range _ (bytes_ztake 8 _ (bytes_zdrop (8 * j) b Hb))) as H.
  assert (Hl : len (ztake 8 (zdrop (8 * j) b)) <= 8) by (unfold len, ztake; rewrite length_take; lia).
  pose proof (Z.pow_le_mono_r 256 _ _ ltac:(lia) Hl). change (2 ^ 64) with (256 ^ 8). lia.
Qed.

Lemma lane_of_testbit b j n : bytes b -> 0 <= j -> 0 <= n < 64 ->
  Z.testbit (lane_of b j) n = Z.testbit (at_ b (8 * j + n / 8)) (n mod 8).
Proof.
  intros Hb Hj Hn. unfold lane_of. rewrite le_val_testbit by (lia || by apply bytes_ztake, bytes_zdrop).
  assert (0 <= n / 8 < 8) by (split; [apply Z.div_pos; lia|apply Z.div_lt_upper_bound; lia]).
  by rewrite at_ztake, at_zdrop by lia.
Qed.

(** Lanes are equal when their bytes are. *)
Lemma lane_of_eq b j w : bytes b -> 0 <= j -> 0 <= w < 2 ^ 64 ->
  (forall n, 0 <= n < 64 -> Z.testbit w n = Z.testbit (at_ b (8 * j + n / 8)) (n mod 8)) -> w = lane_of b j.
Proof.
  intros Hb Hj Hw H. apply Z.bits_inj'. intros n Hn. destruct (Z.lt_ge_cases n 64).
  - by rewrite H, lane_of_testbit by (done || lia).
  - pose proof (lane_of_range b j Hb). by rewrite !(testbit_small 64) by lia.
Qed.

Lemma length_xor_state A b : length A = 25%nat -> length (xor_state A b) = 25%nat.
Proof. intros H. unfold xor_state. rewrite length_zip_with, H. done. Qed.

Lemma at_xor_state A b j : length A = 25%nat -> 0 <= j < 25 -> at_ (xor_state A b) j = Z.lxor (at_ A j) (lane_of b j).
Proof.
  intros HA Hj. unfold xor_state. rewrite at_zip_with, at_indices; [done|lia| |unfold len; lia].
  rewrite len_indices. unfold len. lia.
Qed.

Lemma lanes_eq A B : length A = 25%nat -> length B = 25%nat -> (forall j, 0 <= j < 25 -> at_ A j = at_ B j) -> A = B.
Proof. intros HA HB H. apply list_eq_at; unfold len; rewrite HA; [by rewrite HB|exact H]. Qed.

Lemma xor_state_nil A : length A = 25%nat -> xor_state A [] = A.
Proof.
  intros HA. apply lanes_eq; [by apply length_xor_state|done|]. intros j Hj.
  rewrite at_xor_state by done. unfold lane_of, zdrop, ztake. rewrite drop_nil, take_nil. apply Z.lxor_0_r.
Qed.

Lemma xor_state_lanes A b : lanes_ok A -> bytes b -> lanes_ok (xor_state A b).
Proof.
  intros [HA Hw] Hb. split; [by apply length_xor_state|]. apply Forall_at.
  assert (len (xor_state A b) = 25) as -> by (unfold len; by rewrite length_xor_state).
  intros j Hj. rewrite at_xor_state by done. apply (lxor_range 64); [lia|by apply words64_at|by apply lane_of_range].
Qed.

Lemma bytes_one v : is_byte v -> bytes [v].
Proof. intros. apply bytes_cons. split; [done|apply bytes_nil]. Qed.

(** The block [p] extended by zeros and a byte [v] at position [i]. *)
Definition extend (p : list Z) (i v : Z) : list Z := p ++ replicate (Z.to_nat (i - len p)) 0 ++ [v].

Lemma bytes_extend p i v : bytes p -> is_byte v -> bytes (extend p i v).
Proof.
  intros Hp Hv. apply bytes_app. split; [done|]. apply bytes_app. split; [|by apply bytes_one].
  apply Forall_replicate. done.
Qed.

Lemma at_extend p i v k : len p <= i -> 0 <= k -> at_ (extend p i v) k = if k =? i then v else at_ p k.
Proof.
  intros Hi Hk. pose proof (len_nonneg p). unfold extend. rewrite app_assoc.
  assert (Hz : len (p ++ replicate (Z.to_nat (i - len p)) 0) = i) by (rewrite len_app, len_replicate; lia).
  destruct (Z.eqb_spec k i) as [->|Hne]; [by rewrite at_app_r, Hz, Z.sub_diag by lia|].
  destruct (Z.lt_ge_cases k i).
  - rewrite at_app_l by lia. destruct (Z.lt_ge_cases k (len p)); [by rewrite at_app_l by lia|].
    rewrite at_app_r by lia. rewrite (at_beyond p) by lia.
    unfold at_. destruct (replicate _ _ !! _) as [x|] eqn:E; [|done]. by apply lookup_replicate in E as [-> _].
  - rewrite !at_beyond; [done|lia|]. rewrite len_app, Hz. unfold len. simpl. lia.
Qed.

Lemma div8_range i n : 0 <= i < 8 * n -> 0 <= i / 8 < n.
Proof. intros. split; [apply Z.div_pos; lia|apply Z.div_lt_upper_bound; lia]. Qed.

Lemma byte_lane_range v k : is_byte v -> 0 <= k < 8 -> 0 <= Z.shiftl v (8 * k) < 2 ^ 64.
Proof.
  unfold is_byte. intros Hv Hk. rewrite Z.shiftl_mul_pow2 by lia.
  assert (2 ^ (8 * k) <= 2 ^ 56) by (apply Z.pow_le_mono_r; lia). nia.
Qed.

Lemma lane_of_extend p i v j : bytes p -> is_byte v -> len p <= i < 200 -> 0 <= j < 25 ->
  lane_of (extend p i v) j = if j =? i / 8 then Z.lxor (lane_of p j) (Z.shiftl v (8 * (i mod 8))) else lane_of p j.
Proof.
  intros Hp Hv Hi Hj. pose proof (len_nonneg p). assert (Hm := Z.div_mod i 8 ltac:(lia)).
  assert (Hb := Z.mod_pos_bound i 8 ltac:(lia)). symmetry. apply lane_of_eq; [by apply bytes_extend|lia| |].
  { destruct (j =? i / 8); [|by apply lane_of_range].
    apply (lxor_range 64); [lia|by apply lane_of_range|by apply byte_lane_range]. }
  intros n Hn. pose proof (div8_range n 8 Hn). assert (Hdm := Z.div_mod n 8 ltac:(lia)).
  assert (Hmb := Z.mod_pos_bound n 8 ltac:(lia)). rewrite at_extend by lia.
  destruct (Z.eqb_spec j (i / 8)) as [->|Hne].
  - rewrite Z.lxor_spec, Z.shiftl_spec, lane_of_testbit by (done || lia).
    destruct (Z.eqb_spec (8 * (i / 8) + n / 8) i).
    + rewrite (at_beyond p), Z.bits_0, xorb_false_l by lia. f_equal. lia.
    + destruct (Z.lt_ge_cases n (8 * (i mod 8))); [by rewrite (Z.testbit_neg_r v), xorb_false_r by lia|].
      by rewrite (testbit_small 8 v), xorb_false_r by (done || lia).
  - rewrite lane_of_testbit by (done || lia). by destruct (Z.eqb_spec (8 * j + n / 8) i); [lia|].
Qed.

(** Xoring a byte into a position the block does not cover extends the block. *)
Lemma xor_byte_state A p i v : length A = 25%nat -> bytes p -> is_byte v -> len p <= i < 200 ->
  xor_byte (xor_state A p) i v = xor_state A (extend p i v).
Proof.
  intros HA Hp Hv Hi. pose proof (len_nonneg p). pose proof (div8_range i 25 ltac:(lia)).
  unfold xor_byte, xor_lane. apply lanes_eq.
  { rewrite length_set. by apply length_xor_state. } { by apply length_xor_state. }
  intros j Hj. rewrite at_set; [|unfold len; rewrite length_xor_state by done; lia|lia].
  rewrite !at_xor_state, lane_of_extend by (done || lia). rewrite (Z.eqb_sym (i / 8) j).
  destruct (Z.eqb_spec j (i / 8)) as [->|]; [|done]. by rewrite Z.lxor_assoc.
Qed.

Lemma xor_bytes_state A p q : length A = 25%nat -> bytes p -> bytes q -> len p + len q <= 200 ->
  xor_bytes (xor_state A p) (len p) q = xor_state A (p ++ q).
Proof.
  intros HA. revert p. induction q as [|v q IH]; intros p Hp Hq Hl; simpl; [by rewrite app_nil_r|].
  apply bytes_cons in Hq as [Hv Hq]. rewrite len_cons in Hl. pose proof (len_nonneg q).
  rewrite xor_byte_state by (done || lia). unfold extend. rewrite Z.sub_diag. simpl.
  assert (E : len (p ++ [v]) = len p + 1) by (rewrite len_app; done).
  rewrite <- E, IH, <- app_assoc; [done| |done|lia]. apply bytes_app. split; [done|by apply bytes_one].
Qed.

(** ** Absorbing *)

Lemma xor_lanes_at (v : Z -> Z) n A j : Z.of_nat n <= len A -> 0 <= j ->
  at_ (fold_left (fun A i => xor_lane A i (v i)) (indices n) A) j
    = (if j <? Z.of_nat n then Z.lxor (at_ A j) (v j) else at_ A j)
  /\ len (fold_left (fun A i => xor_lane A i (v i)) (indices n) A) = len A.
Proof. exact (update_loop (fun i x => Z.lxor x (v i)) n A j). Qed.

Lemma lane_of_ztake w b j : 0 <= w -> 0 <= j ->
  lane_of (ztake (8 * w) b) j = if j <? w then lane_of b j else 0.
Proof.
  intros Hw Hj. unfold lane_of, ztake, zdrop. destruct (Z.ltb_spec j w).
  - rewrite skipn_firstn_comm, take_take. do 2 f_equal. lia.
  - rewrite (drop_ge (take _ _)), take_nil; [done|]. rewrite length_take. lia.
Qed.

Lemma absorb_block_fips A w inp : lanes_ok A -> bytes inp -> 0 <= w <= 25 ->
  absorb_block A w inp = keccak_p (xor_state A (ztake (8 * w) inp)).
Proof.
  intros [HA Hw] Hi Hr. rewrite <- (proj1 (keccak_f_fips _ (xor_state_lanes _ _ (conj HA Hw) (bytes_ztake _ _ Hi)))).
  unfold absorb_block. f_equal.
  assert (Hl : len A = 25) by (unfold len; lia).
  pose proof (fun j => xor_lanes_at (fun i => CRYPTO_load_u64_le (zdrop (8 * i) inp)) (Z.to_nat w) A j) as E.
  apply lanes_eq; [|by apply length_xor_state|].
  - destruct (E 0) as [_ El]; [lia..|]. unfold len in El. rewrite HA in El. lia.
  - intros j Hj. destruct (E j) as [-> _]; [lia..|]. rewrite at_xor_state, lane_of_ztake by (done || lia).
    rewrite Z2Nat.id by lia. destruct (j <? w); [done|by rewrite Z.lxor_0_r].
Qed.

Section Sponge.
Context (rate : Z) (rate_words : Z) (Hrate : rate = 8 * rate_words) (Hwords : 0 < rate_words <= 25).

Lemma rate_bounds : 0 < rate <= 200.
Proof using All. lia. Qed.

Lemma sponge_absorb_short A m : len m < rate -> sponge_absorb rate A m = A.
Proof using All. intros H. unfold sponge_absorb. pose proof (len_nonneg m). rewrite Z.div_small by lia. done. Qed.

Lemma sponge_absorb_app A a b : len a mod rate = 0 ->
  sponge_absorb rate A (a ++ b) = sponge_absorb rate (sponge_absorb rate A a) b.
Proof using All.
  intros Ha. pose proof rate_bounds. pose proof (len_nonneg a). pose proof (len_nonneg b).
  assert (E := Z.div_mod (len a) rate ltac:(lia)). unfold sponge_absorb. rewrite len_app.
  replace (len a + len b) with (len b + (len a / rate) * rate) by lia. rewrite Z.div_add by lia.
  assert (0 <= len a / rate) by (apply Z.div_pos; lia). assert (0 <= len b / rate) by (apply Z.div_pos; lia).
  replace (Z.to_nat (len b / rate + len a / rate)) with (Z.to_nat (len a / rate) + Z.to_nat (len b / rate))%nat by lia.
  apply absorb_split; lia.
Qed.

Lemma sponge_absorb_block A m : rate <= len m ->
  sponge_absorb rate A m = sponge_absorb rate (keccak_p (xor_state A (ztake rate m))) (zdrop rate m).
Proof using All.
  intros Hl. pose proof rate_bounds.
  assert (Ht : len (ztake rate m) = rate) by (apply len_ztake; lia).
  rewrite <- (ztake_zdrop rate m) at 1. rewrite sponge_absorb_app by (rewrite Ht; apply Z.mod_same; lia).
  f_equal. unfold sponge_absorb. rewrite Ht, Z.div_same by lia. change (Z.to_nat 1) with 1%nat. cbn [absorb].
  pose proof (ztake_all (ztake rate m)) as F. rewrite Ht in F. by rewrite F.
Qed.

(** The part of the message that does not fill a block. *)
Definition tail (m : list Z) : list Z := zdrop (len m / rate * rate) m.

Lemma tail_len m : len (tail m) = len m mod rate.
Proof using All.
  pose proof rate_bounds. pose proof (len_nonneg m). unfold tail.
  assert (E := Z.div_mod (len m) rate ltac:(lia)). pose proof (Z.mod_pos_bound (len m) rate ltac:(lia)).
  assert (0 <= len m / rate) by (apply Z.div_pos; lia). rewrite len_zdrop by nia. lia.
Qed.

Lemma tail_bytes m : bytes m -> bytes (tail m).
Proof. apply bytes_zdrop. Qed.

Lemma tail_whole m : exists b, m = b ++ tail m /\ len b mod rate = 0.
Proof using All.
  pose proof rate_bounds. pose proof (len_nonneg m). exists (ztake (len m / rate * rate) m).
  split; [symmetry; apply ztake_zdrop|]. assert (E := Z.div_mod (len m) rate ltac:(lia)).
  pose proof (Z.mod_pos_bound (len m) rate ltac:(lia)).
  assert (0 <= len m / rate) by (apply Z.div_pos; lia). rewrite len_ztake by nia. apply Z.mod_mul. lia.
Qed.

Lemma tail_app b m : len b mod rate = 0 -> tail (b ++ m) = tail m.
Proof using All.
  intros Hb. pose proof rate_bounds. pose proof (len_nonneg b). pose proof (len_nonneg m).
  assert (E := Z.div_mod (len b) rate ltac:(lia)). unfold tail. rewrite len_app.
  replace (len b + len m) with (len m + (len b / rate) * rate) by lia. rewrite Z.div_add by lia.
  assert (0 <= len m / rate) by (apply Z.div_pos; lia).
  replace ((len m / rate + len b / rate) * rate) with (len b + len m / rate * rate) by lia.
  rewrite <- zdrop_zdrop by nia. by rewrite zdrop_app_len.
Qed.

Lemma tail_short m : len m < rate -> tail m = m.
Proof using All. intros. pose proof (len_nonneg m). unfold tail. rewrite Z.div_small, Z.mul_0_l by lia. apply zdrop_0. Qed.

Lemma sponge_lanes A m : lanes_ok A -> bytes m -> lanes_ok (sponge_absorb rate A m).
Proof using All.
  unfold sponge_absorb. generalize (Z.to_nat (len m / rate)) as n. intros n. revert A m.
  induction n as [|n IH]; intros A m HA Hm; [done|]. cbn [absorb].
  apply IH; [|by apply bytes_zdrop]. apply keccak_f_fips. by apply xor_state_lanes; [|apply bytes_ztake].
Qed.

Lemma absorb_blocks_fips fuel A inp : (length inp <= fuel)%nat -> lanes_ok A -> bytes inp ->
  absorb_blocks fuel rate A inp = (sponge_absorb rate A inp, tail inp).
Proof using All.
  pose proof rate_bounds as Hr. revert A inp. induction fuel as [|fuel IH]; intros A inp Hf HA Hi; cbn [absorb_blocks].
  - assert (inp = []) as -> by (destruct inp; [done|simpl in Hf; lia]).
    by rewrite sponge_absorb_short, tail_short by (unfold len; simpl; lia).
  - destruct (Z.leb_spec rate (len inp)) as [Hl|Hl]; [|by rewrite sponge_absorb_short, tail_short].
    assert (Hw : rate / 8 = rate_words) by (rewrite Hrate, Z.mul_comm; apply Z.div_mul; lia).
    rewrite Hw, absorb_block_fips, <- Hrate, IH by
      (first [done|lia|by apply bytes_zdrop|by apply keccak_f_fips, xor_state_lanes; [|apply bytes_ztake]
             |unfold len in Hl; unfold zdrop; rewrite length_drop; lia]).
    rewrite (sponge_absorb_block A inp Hl). f_equal. rewrite <- (ztake_zdrop rate inp) at 2.
    rewrite tail_app; [done|]. rewrite len_ztake by lia. apply Z.mod_same. lia.
Qed.

End Sponge.

Lemma keccak_rate_words c : exists w, keccak_rate c = 8 * w /\ 0 < w <= 25.
Proof. destruct c; [exists 17|exists 9|exists 21|exists 17]; done. Qed.

Definition zero_lanes : list Z := replicate 25 0.

Lemma zero_lanes_ok : lanes_ok zero_lanes.
Proof. split; [done|]. apply Forall_replicate. lia. Qed.

(** What a context holds after the message [m]. *)
Record absorbing (c : boringssl_keccak_config_t) (m : list Z) (ctx : BORINGSSL_keccak_st) : Prop := {
  ab_config : config ctx = c;
  ab_phase : phase ctx = boringssl_keccak_phase_absorb;
  ab_rate : rate_bytes ctx = keccak_rate c;
  ab_offset : absorb_offset ctx = len m mod keccak_rate c;
  ab_squeeze : squeeze_offset ctx = 0;
  ab_state : state ctx = xor_state (sponge_absorb (keccak_rate c) zero_lanes m) (tail (keccak_rate c) m);
  ab_bytes : bytes m;
}.

Lemma keccak_init_absorbing c : absorbing c [] (fst (keccak_init c)).
Proof. destruct c; split; vm_compute; try reflexivity; apply List.Forall_nil. Qed.

Section Config.
Context (c : boringssl_keccak_config_t).
Notation r := (keccak_rate c).

Lemma absorb_rest_absorbing b ctx inp : bytes b -> len b mod r = 0 -> bytes inp ->
  config ctx = c -> phase ctx = boringssl_keccak_phase_absorb -> rate_bytes ctx = r -> squeeze_offset ctx = 0 ->
  state ctx = sponge_absorb r zero_lanes b -> absorbing c (b ++ inp) (absorb_rest ctx inp).
Proof.
  intros Hb Hm Hi Hc Hp Hr Hs Hst. destruct (keccak_rate_words c) as (w & Hw & Hw25).
  pose proof (rate_bounds r w Hw Hw25) as Hrb. unfold absorb_rest. rewrite Hr, Hst.
  pose proof (sponge_lanes r w Hw Hw25 _ b zero_lanes_ok Hb) as HS.
  rewrite (absorb_blocks_fips r w Hw Hw25) by (done || lia).
  pose proof (sponge_lanes r w Hw Hw25 _ inp HS Hi) as HT.
  pose proof (tail_bytes r _ Hi) as Ht. pose proof (tail_len r w Hw Hw25 inp) as Hlt.
  pose proof (Z.mod_pos_bound (len inp) r ltac:(lia)).
  split; cbn [with_absorb config phase rate_bytes absorb_offset squeeze_offset state]; try done.
  - rewrite Hlt, len_app. rewrite <- Z.add_mod_idemp_l, Hm by lia. done.
  - rewrite (tail_app r w Hw Hw25), (sponge_absorb_app r w Hw Hw25) by done.
    pose proof (xor_bytes_state (sponge_absorb r (sponge_absorb r zero_lanes b) inp) [] (tail r inp)) as E.
    rewrite xor_state_nil in E by apply HT. apply E; [apply HT|apply bytes_nil|done|]. rewrite len_nil. lia.
  - apply bytes_app. done.
Qed.

(** One more block. *)
Lemma sponge_absorb_full b f : bytes b -> bytes f -> len b mod r = 0 -> len f = r ->
  sponge_absorb r zero_lanes (b ++ f) = keccak_f (xor_state (sponge_absorb r zero_lanes b) f).
Proof.
  intros Hb Hf Hm Hl. destruct (keccak_rate_words c) as (w & Hw & Hw25). pose proof (rate_bounds r w Hw Hw25).
  pose proof (sponge_lanes r w Hw Hw25 _ b zero_lanes_ok Hb) as HS.
  rewrite (proj1 (keccak_f_fips _ (xor_state_lanes _ _ HS Hf))), (sponge_absorb_app r w Hw Hw25) by done.
  rewrite (sponge_absorb_block r w Hw Hw25 _ f) by lia. rewrite <- Hl, ztake_all, zdrop_all, Hl.
  apply (sponge_absorb_short r w Hw Hw25). rewrite len_nil. lia.
Qed.

Lemma absorb_absorbing m ctx inp : absorbing c m ctx -> bytes inp ->
  exists ctx', BORINGSSL_keccak_absorb ctx inp = Some ctx' /\ absorbing c (m ++ inp) ctx'.
Proof.
  intros [Hc Hp Hr Ho Hs Hst Hm] Hi. destruct (keccak_rate_words c) as (w & Hw & Hw25).
  pose proof (rate_bounds r w Hw Hw25) as Hrb. unfold BORINGSSL_keccak_absorb. rewrite Hp, Ho, Hr, Hst.
  destruct (tail_whole r w Hw Hw25 m) as (b & Eb & Hbm).
  pose proof (tail_len r w Hw Hw25 m) as Hlt. pose proof (Z.mod_pos_bound (len m) r ltac:(lia)) as Hmod.
  rewrite <- Hlt in *. set (t := tail r m) in *. clearbody t. subst m. apply bytes_app in Hm as [Hb Ht].
  rewrite (sponge_absorb_app r w Hw Hw25), (sponge_absorb_short r w Hw Hw25) in * by (done || lia).
  pose proof (sponge_lanes r w Hw Hw25 _ b zero_lanes_ok Hb) as HS. rewrite <- app_assoc.
  destruct (Z.eqb_spec (len t) 0) as [Ht0|Ht0]; cbn [negb].
  - apply len_0_nil in Ht0 as ->. rewrite xor_state_nil in Hst by apply HS. eexists. split; [done|].
    by apply absorb_rest_absorbing.
  - destruct (Z.ltb_spec (len inp) (r - len t)) as [Hl|Hl].
    + eexists. split; [done|]. assert (ztake (r - len t) inp = inp) as ->.
      { unfold ztake. apply take_ge. unfold len in Hl |- *. lia. }
      rewrite xor_bytes_state by (first [done|apply HS|lia]). pose proof (len_nonneg inp).
      assert (Hti : len (t ++ inp) < r) by (rewrite len_app; lia).
      split; cbn [with_absorb config phase rate_bytes absorb_offset squeeze_offset state]; try done.
      * rewrite !len_app. rewrite <- Z.add_mod_idemp_l, Hbm by lia. rewrite Z.add_0_l, Z.mod_small; lia.
      * by rewrite (sponge_absorb_app r w Hw Hw25), (tail_app r w Hw Hw25),
          (sponge_absorb_short r w Hw Hw25 _ (t ++ inp)), (tail_short r w Hw Hw25).
      * apply bytes_app. split; [done|]. by apply bytes_app.
    + assert (Hf : len (t ++ ztake (r - len t) inp) = r) by (rewrite len_app, len_ztake; lia).
      assert (Hfb : bytes (t ++ ztake (r - len t) inp)) by (apply bytes_app; split; [done|by apply bytes_ztake]).
      rewrite xor_bytes_state by (first [done|apply HS|by apply bytes_ztake|rewrite len_ztake; lia]).
      eexists. split; [done|]. rewrite <- (ztake_zdrop (r - len t) inp) at 1.
      rewrite (app_assoc t), (app_assoc b).
      apply absorb_rest_absorbing; [|  |by apply bytes_zdrop|exact Hc|exact Hp|exact Hr|exact Hs|].
      * by apply bytes_app.
      * rewrite len_app, Hf. rewrite <- Z.add_mod_idemp_l, Hbm by lia. rewrite Z.add_0_l. apply Z.mod_same. lia.
      * symmetry. by apply sponge_absorb_full.
Qed.

Lemma feed_absorbing pieces m ctx : absorbing c m ctx -> Forall bytes pieces ->
  exists ctx', feed BORINGSSL_keccak_absorb ctx pieces = Some ctx' /\ absorbing c (m ++ concat pieces) ctx'.
Proof.
  intros Ha Hp. revert m ctx Ha. induction Hp as [|p pieces Hp Hps IH]; intros m ctx Ha; simpl.
  - exists ctx. by rewrite app_nil_r.
  - destruct (absorb_absorbing m ctx p Ha Hp) as (ctx' & -> & Ha'). simpl. rewrite app_assoc. by apply IH.
Qed.

(** ** Squeezing *)

Lemma xor_byte_twice A i u v : 0 <= i < 200 -> length A = 25%nat ->
  xor_byte (xor_byte A i u) i v = xor_byte A i (Z.lxor u v).
Proof.
  intros Hi HA. pose proof (div8_range i 25 ltac:(lia)). pose proof (Z.mod_pos_bound i 8 ltac:(lia)).
  unfold xor_byte, xor_lane. apply lanes_eq; [by rewrite !length_set..|]. intros j Hj.
  assert (len A = 25) by (unfold len; lia). rewrite !at_set by (rewrite ?len_set; lia).
  destruct (Z.eqb_spec (i / 8) j) as [<-|]; [|done]. rewrite Z.eqb_refl, Z.lxor_assoc. f_equal.
  apply Z.bits_inj'. intros n Hn. by rewrite Z.lxor_spec, !Z.shiftl_spec, Z.lxor_spec by lia.
Qed.

Lemma finalize_state m ctx : absorbing c m ctx -> keccak_finalize ctx = sponge_state c m.
Proof.
  intros [Hc Hp Hr Ho Hs Hst Hm]. destruct (keccak_rate_words c) as (w & Hw & Hw25).
  pose proof (rate_bounds r w Hw Hw25) as Hrb. unfold keccak_finalize, sponge_state. rewrite Hc, Hr, Ho, Hst.
  destruct (tail_whole r w Hw Hw25 m) as (b & Eb & Hbm).
  pose proof (tail_len r w Hw Hw25 m) as Hlt. pose proof (Z.mod_pos_bound (len m) r ltac:(lia)) as Hmod.
  unfold fips_pad. rewrite <- Hlt in *. set (t := tail r m) in *. clearbody t. subst m. apply bytes_app in Hm as [Hb Ht].
  rewrite (sponge_absorb_app r w Hw Hw25), (sponge_absorb_short r w Hw Hw25 _ t) by (done || lia).
  pose proof (sponge_lanes r w Hw Hw25 _ b zero_lanes_ok Hb) as HS. rewrite <- app_assoc.
  pose proof (len_nonneg t). assert (Hterm : is_byte (terminator c)) by (destruct c; done).
  destruct (Z.eqb_spec (r - len t) 1) as [Hq|Hq].
  - replace (r - 1) with (len t) by lia. rewrite xor_byte_twice by (lia || apply length_xor_state, HS).
    assert (Hx : is_byte (Z.lxor (terminator c) 128)) by (destruct c; done).
    rewrite xor_byte_state by (done || lia || apply HS). unfold extend. rewrite Z.sub_diag. change (Z.to_nat 0) with O. cbn [replicate app].
    rewrite <- sponge_absorb_full; [by destruct c|done| |done|].
    + apply bytes_app. split; [done|by apply bytes_one].
    + rewrite len_app. rewrite len_cons, len_nil. lia.
  - rewrite xor_byte_state by (done || lia || apply HS). pose proof (bytes_extend t (len t) _ Ht Hterm) as He.
    assert (Hle : len (extend t (len t) (terminator c)) = len t + 1).
    { unfold extend. by rewrite Z.sub_diag, len_app. }
    rewrite xor_byte_state by (done || lia || apply HS).
    rewrite <- sponge_absorb_full; [|done|by apply bytes_extend|done|].
    + f_equal. f_equal. unfold extend at 1. rewrite Hle. unfold extend. rewrite Z.sub_diag. change (Z.to_nat 0) with O. cbn [replicate app].
      rewrite <- app_assoc. cbn [app]. do 4 f_equal. lia.
    + unfold extend at 1. rewrite !len_app, len_replicate, Hle. rewrite len_cons, len_nil. lia.
Qed.

Lemma length_state_bytes A : length (state_bytes A) = (8 * length A)%nat.
Proof. unfold state_bytes. induction A as [|a A IH]; [done|]. cbn [fmap list_fmap concat]. rewrite length_app, length_le_bytes, IH. simpl. lia. Qed.

Lemma iter_keccak_lanes n A : lanes_ok A -> lanes_ok (Nat.iter n keccak_p A).
Proof. intros H. induction n as [|n IH]; [done|]. exact (proj2 (keccak_f_fips _ IH)). Qed.

Lemma len_sponge_squeeze A k d : 0 <= d -> len (sponge_squeeze r A k d) = d.
Proof. intros. unfold sponge_squeeze. rewrite len_indices. lia. Qed.

Lemma at_sponge_squeeze A k d i : 0 <= i < d -> at_ (sponge_squeeze r A k d) i = sponge_byte r A (k + i).
Proof. intros. apply (at_indices (fun i => sponge_byte r A (k + i))). lia. Qed.

Lemma sponge_squeeze_app A k d e : 0 <= d -> 0 <= e ->
  sponge_squeeze r A k (d + e) = sponge_squeeze r A k d ++ sponge_squeeze r A (k + d) e.
Proof.
  intros Hd He. apply list_eq_at; [by rewrite len_app, !len_sponge_squeeze by lia|].
  rewrite len_sponge_squeeze by lia. intros i Hi. rewrite at_sponge_squeeze by lia.
  destruct (Z.lt_ge_cases i d).
  - rewrite at_app_l by (rewrite len_sponge_squeeze; lia). by rewrite at_sponge_squeeze by lia.
  - rewrite at_app_r, len_sponge_squeeze by (rewrite ?len_sponge_squeeze; lia).
    rewrite at_sponge_squeeze by lia. f_equal. lia.
Qed.

(** The bytes of one state. *)
Lemma sponge_squeeze_within A t o d : lanes_ok A -> 0 <= t -> 0 <= o -> 0 <= d -> o + d <= r ->
  ztake d (zdrop o (state_bytes (Nat.iter (Z.to_nat t) keccak_p A))) = sponge_squeeze r A (t * r + o) d.
Proof.
  intros HA Ht Ho Hd Hr. destruct (keccak_rate_words c) as (w & Hw & Hw25). pose proof (rate_bounds r w Hw Hw25).
  assert (Hl : len (state_bytes (Nat.iter (Z.to_nat t) keccak_p A)) = 200).
  { unfold len. rewrite length_state_bytes, (proj1 (iter_keccak_lanes _ A HA)). done. }
  assert (Hlt : len (ztake d (zdrop o (state_bytes (Nat.iter (Z.to_nat t) keccak_p A)))) = d)
    by (rewrite len_ztake; rewrite ?len_zdrop; lia).
  apply list_eq_at; [by rewrite Hlt, len_sponge_squeeze by lia|]. rewrite Hlt. intros i Hi.
  rewrite at_ztake, at_zdrop, at_sponge_squeeze by lia. unfold sponge_byte.
  replace (t * r + o + i) with (o + i + t * r) by lia.
  by rewrite Z.div_add, Z.mod_add, Z.div_small, Z.mod_small, Z.add_0_l by lia.
Qed.

Lemma squeeze_loop_fips fuel A t o d : lanes_ok A -> 0 <= t -> 0 <= o <= r -> 0 <= d <= Z.of_nat fuel ->
  exists t' o', squeeze_loop fuel r (Nat.iter (Z.to_nat t) keccak_p A) o d
      = (Nat.iter (Z.to_nat t') keccak_p A, o', sponge_squeeze r A (t * r + o) d)
    /\ 0 <= t' /\ 0 <= o' <= r /\ t' * r + o' = t * r + o + d.
Proof.
  intros HA. destruct (keccak_rate_words c) as (w & Hw & Hw25). pose proof (rate_bounds r w Hw Hw25) as Hr.
  revert t o d. induction fuel as [|fuel IH]; intros t o d Ht Ho Hd; cbn [squeeze_loop].
  { exists t, o. replace d with 0 by lia. split; [done|lia]. }
  destruct (Z.eqb_spec d 0) as [->|Hd0]; [exists t, o; split; [done|lia]|].
  assert (E : exists t1 o1, (if o =? r then (keccak_f (Nat.iter (Z.to_nat t) keccak_p A), 0)
      else (Nat.iter (Z.to_nat t) keccak_p A, o)) = (Nat.iter (Z.to_nat t1) keccak_p A, o1)
      /\ 0 <= t1 /\ 0 <= o1 < r /\ t1 * r + o1 = t * r + o).
  { destruct (Z.eqb_spec o r) as [->|]; [|exists t, o; split; [done|lia]].
    exists (t + 1), 0. split; [|lia]. f_equal.
    rewrite (proj1 (keccak_f_fips _ (iter_keccak_lanes _ A HA))), Z2Nat.inj_add by lia.
    change (Z.to_nat 1) with 1%nat. by rewrite Nat.add_comm. }
  destruct E as (t1 & o1 & -> & Ht1 & Ho1 & Eto). rewrite <- Eto.
  set (todo := if r - o1 <? d then r - o1 else d).
  assert (Htodo : 0 < todo /\ todo <= d /\ o1 + todo <= r) by (unfold todo; destruct (Z.ltb_spec (r - o1) d); lia).
  destruct (IH t1 (o1 + todo) (d - todo)) as (t' & o' & -> & Ht' & Ho' & E'); [lia..|].
  exists t', o'. split; [|lia]. f_equal. rewrite sponge_squeeze_within by (done || lia).
  replace d with (todo + (d - todo)) at 2 by lia. rewrite sponge_squeeze_app by lia. do 2 f_equal. lia.
Qed.

(** What a context holds after [k] bytes of the output for the message [m]. *)
Definition squeezing (m : list Z) (k : Z) (ctx : BORINGSSL_keccak_st) : Prop :=
  phase ctx = boringssl_keccak_phase_squeeze /\ rate_bytes ctx = r /\ 0 <= squeeze_offset ctx <= r /\
  exists t, 0 <= t /\ t * r + squeeze_offset ctx = k /\
    state ctx = Nat.iter (Z.to_nat t) keccak_p (sponge_state c m).

Lemma sponge_state_lanes m : bytes m -> lanes_ok (sponge_state c m).
Proof.
  intros Hm. destruct (keccak_rate_words c) as (w & Hw & Hw25). unfold sponge_state.
  apply (sponge_lanes r w Hw Hw25); [apply zero_lanes_ok|]. apply bytes_app. split; [done|]. unfold fips_pad.
  destruct (_ =? 1); [apply bytes_one; by destruct c|]. apply bytes_cons. split; [by destruct c|].
  apply bytes_app. split; [apply Forall_replicate; done|by apply bytes_one].
Qed.

Lemma squeeze_squeezing m k d ctx : bytes m -> 0 <= d ->
  squeezing m k ctx \/ absorbing c m ctx /\ k = 0 ->
  exists ctx', BORINGSSL_keccak_squeeze ctx d = (ctx', sponge_squeeze r (sponge_state c m) k d) /\ squeezing m (k + d) ctx'.
Proof.
  intros Hm Hd H. destruct (keccak_rate_words c) as (w & Hw & Hw25). pose proof (rate_bounds r w Hw Hw25) as Hrb.
  assert (E : exists t, 0 <= t /\ 0 <= squeeze_offset ctx <= r /\ t * r + squeeze_offset ctx = k /\ rate_bytes ctx = r /\
     match phase ctx with
     | boringssl_keccak_phase_absorb => keccak_finalize ctx
     | boringssl_keccak_phase_squeeze => state ctx
     end = Nat.iter (Z.to_nat t) keccak_p (sponge_state c m)).
  { destruct H as [(Hp & Hr & Ho & t & Ht & Hk & Hs)|[Ha ->]].
    - exists t. by rewrite Hp.
    - exists 0. rewrite (ab_phase _ _ _ Ha), (ab_squeeze _ _ _ Ha), (ab_rate _ _ _ Ha), (finalize_state m ctx Ha).
      split; [lia|]. split; [lia|]. done. }
  destruct E as (t & Ht & Ho & Hk & Hr & Hs). unfold BORINGSSL_keccak_squeeze. rewrite Hs, Hr.
  destruct (squeeze_loop_fips (Z.to_nat d) (sponge_state c m) t (squeeze_offset ctx) d) as (t' & o' & -> & Ht' & Ho' & E');
    [by apply sponge_state_lanes|lia..|].
  rewrite Hk. eexists. split; [done|]. split; [done|]. split; [done|]. split; [done|]. exists t'. split; [lia|]. split; [|done].
  cbn [with_squeeze squeeze_offset]. lia.
Qed.

Lemma squeeze_pieces_fips m k ctx ds : bytes m -> Forall (fun d => 0 <= d) ds ->
  squeezing m k ctx \/ absorbing c m ctx /\ k = 0 ->
  concat (squeeze_pieces ctx ds) = sponge_squeeze r (sponge_state c m) k (fold_right Z.add 0 ds).
Proof.
  intros Hm Hds. revert k ctx. induction Hds as [|d ds Hd Hds IH]; intros k ctx H; [done|].
  cbn [squeeze_pieces fold_right]. destruct (squeeze_squeezing m k d ctx Hm Hd H) as (ctx' & -> & H').
  cbn [concat]. rewrite (IH (k + d)) by (by left). rewrite sponge_squeeze_app; [done|done|].
  clear -Hds. induction Hds; simpl; lia.
Qed.

End Config.

(** ** The functions *)

(** The output length a configuration fixes. *)
Definition fixed_length (c : boringssl_keccak_config_t) : option Z :=
  match c with
  | boringssl_sha3_256 => Some 32
  | boringssl_sha3_512 => Some 64
  | _ => None
  end.

Lemma keccak_oneshot c inp d : bytes inp -> 0 <= d ->
  BORINGSSL_keccak d inp c =
  match fixed_length c with
  | Some n => if d =? n then Some (keccak_hash c inp d) else None
  | None => Some (keccak_hash c inp d)
  end.
Proof.
  intros Hi Hd. pose proof (keccak_init_absorbing c) as H0. unfold BORINGSSL_keccak.
  assert (E : keccak_init c = (fst (keccak_init c), default 0 (fixed_length c))) by (by destruct c).
  rewrite E. destruct (absorb_absorbing c [] _ inp H0 Hi) as (ctx & Ea & Ha). cbn [app] in Ha.
  destruct (squeeze_squeezing c inp 0 d ctx Hi Hd (or_intror (conj Ha eq_refl))) as (ctx' & Es & _).
  generalize dependent (fst (keccak_init c)). intros ctx0 _ _ ->. cbn [mbind option_bind]. rewrite Es.
  destruct c; cbn [fixed_length default from_option Z.eqb negb andb]; try done; by destruct (d =? _).
Qed.

Lemma bytes_sponge_squeeze r A k d : bytes (sponge_squeeze r A k d).
Proof.
  apply Forall_fmap, List.Forall_forall. intros i _. apply at_byte. unfold state_bytes.
  induction (Nat.iter _ _ _) as [|a B IH]; [apply bytes_nil|]. cbn [fmap list_fmap concat]. apply bytes_app.
  split; [apply bytes_le_bytes|done].
Qed.

Lemma bytes_keccak_hash c m d : bytes (keccak_hash c m d).
Proof. apply bytes_sponge_squeeze. Qed.

Lemma len_keccak_hash c m d : 0 <= d -> len (keccak_hash c m d) = d.
Proof. apply len_sponge_squeeze. Qed.

(** The first bytes of a longer output. *)
Lemma keccak_hash_prefix c m d e : 0 <= d -> 0 <= e ->
  keccak_hash c m (d + e) = keccak_hash c m d ++ sponge_squeeze (keccak_rate c) (sponge_state c m) d e.
Proof. intros. unfold keccak_hash. by rewrite sponge_squeeze_app. Qed.

(** C10: the Keccak code computes the functions of FIPS 202: for a message absorbed in any pieces
    and output squeezed in any pieces, the bytes given out are the prefix of the sponge output of
    the whole message, padded with the suffix of the function and permuted with Keccak-p[1600, 24],
    whose rotation offsets and round constants are computed from their definitions. The one-shot
    function gives the same bytes and aborts exactly on a wrong length of SHA3-256 or SHA3-512;
    absorbing after squeezing aborts. *)
Theorem keccak_streams_correct (c : boringssl_keccak_config_t) (pieces : list (list Z)) (ds : list Z) (d : Z)
    (Hp : Forall bytes pieces) (Hds : Forall (fun d => 0 <= d) ds) (Hd : 0 <= d) :
  (exists ctx, feed BORINGSSL_keccak_absorb (fst (keccak_init c)) pieces = Some ctx /\
     concat (squeeze_pieces ctx ds) = keccak_hash c (concat pieces) (fold_right Z.add 0 ds) /\
     BORINGSSL_keccak_absorb (fst (BORINGSSL_keccak_squeeze ctx d)) (concat pieces) = None) /\
  BORINGSSL_keccak d (concat pieces) c =
    match fixed_length c with
    | Some n => if d =? n then Some (keccak_hash c (concat pieces) d) else None
    | None => Some (keccak_hash c (concat pieces) d)
    end /\
  BORINGSSL_keccak_init c = match fixed_length c with Some _ => None | None => Some (fst (keccak_init c)) end.
Proof.
  assert (Hm : bytes (concat pieces)).
  { clear -Hp. induction Hp; [apply bytes_nil|]. by apply bytes_app. }
  split; [|split; [by apply keccak_oneshot|by destruct c]].
  destruct (feed_absorbing c pieces [] _ (keccak_init_absorbing c) Hp) as (ctx & Ef & Ha). exists ctx.
  split; [done|]. split; [by apply (squeeze_pieces_fips c); [| |right]|].
  by destruct (squeeze_squeezing c _ 0 d ctx Hm Hd (or_intror (conj Ha eq_refl))) as (ctx' & -> & (Hph & _));
    unfold BORINGSSL_keccak_absorb; cbn [fst]; rewrite Hph.
Qed.

Lemma keccak_streams_correct_witness :
  exists ctx, feed BORINGSSL_keccak_absorb (fst (keccak_init boringssl_shake128)) [[0x61]; [0x62; 0x63]] = Some ctx /\
    concat (squeeze_pieces ctx [1; 3]) = [0x58; 0x81; 0x09; 0x2d].
Proof.
  destruct (keccak_streams_correct boringssl_shake128 [[0x61]; [0x62; 0x63]] [1; 3] 4) as [(ctx & Ef & Es & _) _];
    [repeat constructor; vm_compute; congruence..|].
  exists ctx. split; [exact Ef|]. rewrite Es. vm_compute. reflexivity.
Defined.
