(* ===== verification/Kyber.v ===== *)
(** Kyber768, the arithmetic: crypto/kyber/kyber.cc up to the structures of keys. A scalar is the
    array of its 256 coefficients, a vector the list of its three scalars, a matrix the list of its
    rows; the loops update the arrays in place, index by index, as the code does. *)
From S2P Require Import Prelude.
From S2P Require Import Internal.
From S2P Require Import Arrays.
From S2P Require Import Heap.
From S2P Require Import Keccak.

Open Scope Z_scope.

Definition DEGREE : Z := 256.
Definition RANK : Z := 3.
Definition kBarrettMultiplier : Z := 5039.
Definition kBarrettShift : Z := 24.
Definition kPrime : Z := 3329.
Definition kLog2Prime : Z := 12.
Definition kHalfPrime : Z := (3329 - 1) /c 2.
Definition kDU : Z := 10.
Definition kDV : Z := 4.
Definition kInverseDegree : Z := 3303.
Definition kEncodedVectorSize : Z := (12 * DEGREE /c 8) * RANK.
Definition kCompressedVectorSize : Z := 10 * RANK * DEGREE /c 8.

Abbreviation scalar := (list Z).
Abbreviation vector := (list scalar).
Abbreviation matrix := (list vector).

(** The loop [for (i = 0; i < n; i++)]. *)
Notation "'for' i '<' n 'from' s 'do' e" := (fold_left (fun s i => e) (indices (Z.to_nat n)) s)
  (at level 200, i name, s name, n at level 9, e at level 200).

Definition kNTTRoots : list Z := [
   1; 1729; 2580; 3289; 2642; 630; 1897; 848; 1062; 1919; 193; 797;
   2786; 3260; 569; 1746; 296; 2447; 1339; 1476; 3046; 56; 2240; 1333;
   1426; 2094; 535; 2882; 2393; 2879; 1974; 821; 289; 331; 3253; 1756;
   1197; 2304; 2277; 2055; 650; 1977; 2513; 632; 2865; 33; 1320; 1915;
   2319; 1435; 807; 452; 1438; 2868; 1534; 2402; 2647; 2617; 1481; 648;
   2474; 3110; 1227; 910; 17; 2761; 583; 2649; 1637; 723; 2288; 1100;
   1409; 2662; 3281; 233; 756; 2156; 3015; 3050; 1703; 1651; 2789; 1789;
   1847; 952; 1461; 2687; 939; 2308; 2437; 2388; 733; 2337; 268; 641;
   1584; 2298; 2037; 3220; 375; 2549; 2090; 1645; 1063; 319; 2773; 757;
   2099; 561; 2466; 2594; 2804; 1092; 403; 1026; 1143; 2150; 2775; 886;
   1722; 1212; 1874; 1029; 2110; 2935; 885; 2154].

Definition kInverseNTTRoots : list Z := [
   1; 1600; 40; 749; 2481; 1432; 2699; 687; 1583; 2760; 69; 543;
   2532; 3136; 1410; 2267; 2508; 1355; 450; 936; 447; 2794; 1235; 1903;
   1996; 1089; 3273; 283; 1853; 1990; 882; 3033; 2419; 2102; 219; 855;
   2681; 1848; 712; 682; 927; 1795; 461; 1891; 2877; 2522; 1894; 1010;
   1414; 2009; 3296; 464; 2697; 816; 1352; 2679; 1274; 1052; 1025; 2132;
   1573; 76; 2998; 3040; 1175; 2444; 394; 1219; 2300; 1455; 2117; 1607;
   2443; 554; 1179; 2186; 2303; 2926; 2237; 525; 735; 863; 2768; 1230;
   2572; 556; 3010; 2266; 1684; 1239; 780; 2954; 109; 1292; 1031; 1745;
   2688; 3061; 992; 2596; 941; 892; 1021; 2390; 642; 1868; 2377; 1482;
   1540; 540; 1678; 1626; 279; 314; 1173; 2573; 3096; 48; 667; 1920;
   2229; 1041; 2606; 1692; 680; 2746; 568; 3312].

Definition kModRoots : list Z := [
   17; 3312; 2761; 568; 583; 2746; 2649; 680; 1637; 1692; 723; 2606;
   2288; 1041; 1100; 2229; 1409; 1920; 2662; 667; 3281; 48; 233; 3096;
   756; 2573; 2156; 1173; 3015; 314; 3050; 279; 1703; 1626; 1651; 1678;
   2789; 540; 1789; 1540; 1847; 1482; 952; 2377; 1461; 1868; 2687; 642;
   939; 2390; 2308; 1021; 2437; 892; 2388; 941; 733; 2596; 2337; 992;
   268; 3061; 641; 2688; 1584; 1745; 2298; 1031; 2037; 1292; 3220; 109;
   375; 2954; 2549; 780; 2090; 1239; 1645; 1684; 1063; 2266; 319; 3010;
   2773; 556; 757; 2572; 2099; 1230; 561; 2768; 2466; 863; 2594; 735;
   2804; 525; 1092; 2237; 403; 2926; 1026; 2303; 1143; 2186; 2150; 1179;
   2775; 554; 886; 2443; 1722; 1607; 1212; 2117; 1874; 1455; 1029; 2300;
   2110; 1219; 2935; 394; 885; 2444; 2154; 1175].

(** ** The field *)

Definition reduce_once (x : Z) : Z :=
  let subtracted := u16 (x - kPrime) in
  let mask := u16 (u32 (0 - Z.shiftr subtracted 15)) in
  u16 (Z.lor (Z.land mask x) (Z.land (Z.lnot mask) subtracted)).

Definition reduce (x : Z) : Z :=
  let product := u64 (x * kBarrettMultiplier) in
  let quotient := u32 (Z.shiftr product kBarrettShift) in
  let remainder := u32 (x - u32 (quotient * kPrime)) in
  reduce_once (u16 remainder).

Definition scalar_zero : scalar := replicate (Z.to_nat DEGREE) 0.
Definition vector_zero : vector := replicate (Z.to_nat RANK) scalar_zero.

(** Elements of vectors and matrices. *)
Definition vat (a : vector) (i : Z) : scalar := default [] (a !! Z.to_nat i).
Definition vset (i : Z) (s : scalar) (a : vector) : vector := <[Z.to_nat i := s]> a.
Definition mat (m : matrix) (i j : Z) : scalar := vat (default [] (m !! Z.to_nat i)) j.

(** ** The number theoretic transform *)

Definition ntt_butterfly (step_root offset : Z) (c : scalar) (j : Z) : scalar :=
  let odd := reduce (u32 (step_root * at_ c (j + offset))) in
  let even := at_ c j in
  let c := set_ j (reduce_once (u16 (odd + even))) c in
  set_ (j + offset) (reduce_once (u16 (even - odd + kPrime))) c.

(** The loop over [j] from [k] to [k + offset], and the loop over [i] with [k] advancing. *)
Definition butterflies (f : scalar -> Z -> scalar) (k offset : Z) (c : scalar) : scalar :=
  fold_left f ((fun n => k + n) <$> indices (Z.to_nat offset)) c.

Definition ntt_layer (step offset : Z) (c : scalar) : scalar :=
  fst (fold_left (fun '(c, k) i =>
         let step_root := at_ kNTTRoots (i + step) in
         (butterflies (ntt_butterfly step_root offset) k offset c, k + 2 * offset))
       (indices (Z.to_nat step)) (c, 0)).

Fixpoint ntt_loop (fuel : nat) (step offset : Z) (c : scalar) : scalar :=
  match fuel with
  | O => c
  | S fuel =>
    if step <? DEGREE /c 2
    then let offset := Z.shiftr offset 1 in
         ntt_loop fuel (Z.shiftl step 1) offset (ntt_layer step offset c)
    else c
  end.

Definition scalar_ntt (s : scalar) : scalar := ntt_loop 8 1 DEGREE s.
Definition vector_ntt (a : vector) : vector := for i < RANK from a do vset i (scalar_ntt (vat a i)) a.

Definition inverse_butterfly (step_root offset : Z) (c : scalar) (j : Z) : scalar :=
  let odd := at_ c (j + offset) in
  let even := at_ c j in
  let c := set_ j (reduce_once (u16 (odd + even))) c in
  set_ (j + offset) (reduce (u32 (step_root * (even - odd + kPrime)))) c.

Definition inverse_layer (step offset : Z) (c : scalar) : scalar :=
  fst (fold_left (fun '(c, k) i =>
         let step_root := at_ kInverseNTTRoots (i + step) in
         (butterflies (inverse_butterfly step_root offset) k offset c, k + 2 * offset))
       (indices (Z.to_nat step)) (c, 0)).

Fixpoint inverse_loop (fuel : nat) (step offset : Z) (c : scalar) : scalar :=
  match fuel with
  | O => c
  | S fuel =>
    if offset <? DEGREE
    then let step := Z.shiftr step 1 in
         inverse_loop fuel step (Z.shiftl offset 1) (inverse_layer step offset c)
    else c
  end.

Definition scalar_inverse_ntt (s : scalar) : scalar :=
  let s := inverse_loop 8 (DEGREE /c 2) 2 s in
  for i < DEGREE from s do set_ i (reduce (u32 (at_ s i * kInverseDegree))) s.
Definition vector_inverse_ntt (a : vector) : vector :=
  for i < RANK from a do vset i (scalar_inverse_ntt (vat a i)) a.

(** ** Addition and multiplication *)

Definition scalar_add (lhs rhs : scalar) : scalar :=
  for i < DEGREE from lhs do set_ i (reduce_once (u16 (at_ lhs i + at_ rhs i))) lhs.

Definition scalar_sub (lhs rhs : scalar) : scalar :=
  for i < DEGREE from lhs do set_ i (reduce_once (u16 (at_ lhs i - at_ rhs i + kPrime))) lhs.

Definition scalar_mult (out lhs rhs : scalar) : scalar :=
  for i < (DEGREE /c 2) from out do
    let real_real := u32 (at_ lhs (2 * i) * at_ rhs (2 * i)) in
    let img_img := u32 (at_ lhs (2 * i + 1) * at_ rhs (2 * i + 1)) in
    let real_img := u32 (at_ lhs (2 * i) * at_ rhs (2 * i + 1)) in
    let img_real := u32 (at_ lhs (2 * i + 1) * at_ rhs (2 * i)) in
    set_ (2 * i + 1) (reduce (u32 (img_real + real_img)))
      (set_ (2 * i) (reduce (u32 (real_real + u32 (reduce img_img * at_ kModRoots i)))) out).

Definition vector_add (lhs rhs : vector) : vector :=
  for i < RANK from lhs do vset i (scalar_add (vat lhs i) (vat rhs i)) lhs.

(** The uninitialised [product] is an argument, here the zero scalar: scalar_mult overwrites it. *)
Definition matrix_mult (m : matrix) (a : vector) : vector :=
  let out := vector_zero in
  for i < RANK from out do
  for j < RANK from out do
    let product := scalar_mult scalar_zero (mat m i j) (vat a j) in
    vset i (scalar_add (vat out i) product) out.

Definition matrix_mult_transpose (m : matrix) (a : vector) : vector :=
  let out := vector_zero in
  for i < RANK from out do
  for j < RANK from out do
    let product := scalar_mult scalar_zero (mat m j i) (vat a j) in
    vset i (scalar_add (vat out i) product) out.

Definition scalar_inner_product (lhs rhs : vector) : scalar :=
  let out := scalar_zero in
  for i < RANK from out do
    let product := scalar_mult scalar_zero (vat lhs i) (vat rhs i) in
    scalar_add out product.

(** ** Sampling *)

(* None is the abort() of a wrong output length. *)
Definition prf (out_len : Z) (inp : list Z) : option (list Z) := BORINGSSL_keccak out_len inp boringssl_shake256.
Definition hash_h (inp : list Z) : option (list Z) := BORINGSSL_keccak 32 inp boringssl_sha3_256.
Definition hash_g (inp : list Z) : option (list Z) := BORINGSSL_keccak 64 inp boringssl_sha3_512.
Definition kdf (out_len : Z) (inp : list Z) : option (list Z) := BORINGSSL_keccak out_len inp boringssl_shake256.

(** The inner loop: three bytes give two candidates. *)
Definition sample_three (block : list Z) (acc : scalar * Z) (i : Z) : scalar * Z :=
  let '(out, done) := acc in
  if negb (done <? DEGREE) then acc else
  let d1 := u16 (at_ block i + 256 * (at_ block (i + 1) %c 16)) in
  let d2 := u16 (at_ block (i + 1) /c 16 + 16 * at_ block (i + 2)) in
  let '(out, done) := if d1 <? kPrime then (set_ done d1 out, done + 1) else (out, done) in
  if (d2 <? kPrime) && (done <? DEGREE) then (set_ done d2 out, done + 1) else (out, done).

(** The outer loop, of at most [fuel] blocks. *)
Fixpoint sample_loop (fuel : nat) (keccak_ctx : BORINGSSL_keccak_st) (out : scalar) (done : Z) : option scalar :=
  if done <? DEGREE then
    match fuel with
    | O => None
    | S fuel =>
      let '(keccak_ctx, block) := BORINGSSL_keccak_squeeze keccak_ctx 168 in
      let '(out, done) := fold_left (sample_three block) ((fun n => 3 * n) <$> indices 56) (out, done) in
      sample_loop fuel keccak_ctx out done
    end
  else Some out.

Definition scalar_from_keccak_vartime (fuel : nat) (keccak_ctx : BORINGSSL_keccak_st) : option scalar :=
  sample_loop fuel keccak_ctx scalar_zero 0.

Definition binomial (byte : Z) : Z :=
  let value := u16 (Z.land byte 1 + Z.land (Z.shiftr byte 1) 1) in
  let value := u16 (value - (Z.land (Z.shiftr byte 2) 1 + Z.land (Z.shiftr byte 3) 1)) in
  let mask := u16 (u32 (0 - Z.shiftr value 15)) in
  u16 (value + Z.land kPrime mask).

Definition scalar_centered_binomial_distribution_eta_2_with_prf (inp : list Z) : option scalar :=
  entropy ← prf 128 inp;
  let out := scalar_zero in
  Some (for n < (DEGREE /c 2) from out do
          let i := 2 * n in
          let byte := at_ entropy (i /c 2) in
          let out := set_ i (binomial byte) out in
          let byte := Z.shiftr byte 4 in
          set_ (i + 1) (binomial byte) out).

(** The vector and the counter after it. *)
Definition vector_generate_secret_eta_2 (counter : Z) (seed : list Z) : option (vector * Z) :=
  let acc := Some (vector_zero, counter) in
  for i < RANK from acc do
    '(out, counter) ← acc;
    s ← scalar_centered_binomial_distribution_eta_2_with_prf (ztake 32 seed ++ [counter]);
    Some (vset i s out, u8 (counter + 1)).

Definition matrix_expand (fuel : nat) (rho : list Z) : option matrix :=
  let acc := Some (replicate (Z.to_nat RANK) vector_zero) in
  for i < RANK from acc do
  for j < RANK from acc do
    out ← acc;
    keccak_ctx ← BORINGSSL_keccak_init boringssl_shake128;
    keccak_ctx ← BORINGSSL_keccak_absorb keccak_ctx (ztake 32 rho ++ [i; j]);
    s ← scalar_from_keccak_vartime fuel keccak_ctx;
    Some (<[Z.to_nat i := vset j s (default [] (out !! Z.to_nat i))]> out).

(** ** Encoding *)

Definition kMasks : list Z := [0x01; 0x03; 0x07; 0x0f; 0x1f; 0x3f; 0x7f; 0xff].

(** The bytes written, [out_byte] and [out_byte_bits]. *)
Record encoder := mk_encoder { enc_out : list Z; out_byte : Z; out_byte_bits : Z }.

Fixpoint encode_element (fuel : nat) (bits : Z) (e : encoder) (element element_bits_done : Z) : encoder :=
  match fuel with
  | O => e
  | S fuel =>
    if element_bits_done <? bits then
      let chunk_bits := bits - element_bits_done in
      let out_bits_remaining := 8 - out_byte_bits e in
      let '(e, chunk_bits) :=
        if out_bits_remaining <=? chunk_bits then
          let chunk_bits := out_bits_remaining in
          let byte := u8 (Z.lor (out_byte e)
                        (Z.shiftl (Z.land element (at_ kMasks (chunk_bits - 1))) (out_byte_bits e))) in
          (mk_encoder (enc_out e ++ [byte]) 0 0, chunk_bits)
        else
          let byte := u8 (Z.lor (out_byte e)
                        (Z.shiftl (Z.land element (at_ kMasks (chunk_bits - 1))) (out_byte_bits e))) in
          (mk_encoder (enc_out e) byte (out_byte_bits e + chunk_bits), chunk_bits) in
      encode_element fuel bits e (Z.shiftr element chunk_bits) (element_bits_done + chunk_bits)
    else e
  end.

Definition scalar_encode (s : scalar) (bits : Z) : list Z :=
  let e := mk_encoder [] 0 0 in
  let e := for i < DEGREE from e do encode_element (Z.to_nat bits) bits e (at_ s i) 0 in
  if 0 <? out_byte_bits e then enc_out e ++ [out_byte e] else enc_out e.

Definition scalar_encode_1 (s : scalar) : list Z :=
  let out := [] in
  for n < (DEGREE /c 8) from out do
    let i := 8 * n in
    let out_byte := 0 in
    out ++ [for j < 8 from out_byte do u8 (Z.lor out_byte (Z.shiftl (Z.land (at_ s (i + j)) 1) j))].

(** None is a write outside [out]. *)
Definition vector_encode (out : list Z) (a : vector) (bits : Z) : option (list Z) :=
  let acc := Some out in
  for i < RANK from acc do
    out ← acc; store_at out (i * bits * DEGREE /c 8) (scalar_encode (vat a i) bits).

(** The input left, [in_byte] and [in_byte_bits_left]. *)
Record decoder := mk_decoder { dec_in : list Z; in_byte : Z; in_byte_bits_left : Z }.

(** None is a read past the input. *)
Fixpoint decode_element (fuel : nat) (bits : Z) (d : decoder) (element element_bits_done : Z) : option (Z * decoder) :=
  match fuel with
  | O => Some (element, d)
  | S fuel =>
    if element_bits_done <? bits then
      d ← (if in_byte_bits_left d =? 0
           then match dec_in d with [] => None | b :: inp => Some (mk_decoder inp b 8) end
           else Some d);
      let chunk_bits := bits - element_bits_done in
      let chunk_bits := if in_byte_bits_left d <? chunk_bits then in_byte_bits_left d else chunk_bits in
      let element := u16 (Z.lor element
                       (Z.shiftl (Z.land (in_byte d) (at_ kMasks (chunk_bits - 1))) element_bits_done)) in
      decode_element fuel bits
        (mk_decoder (dec_in d) (Z.shiftr (in_byte d) chunk_bits) (in_byte_bits_left d - chunk_bits))
        element (element_bits_done + chunk_bits)
    else Some (element, d)
  end.

Fixpoint decode_elements (n : nat) (bits : Z) (d : decoder) (out : list Z) : option (option scalar) :=
  match n with
  | O => Some (Some out)
  | S n =>
    '(element, d) ← decode_element (Z.to_nat bits) bits d 0 0;
    if negb (constant_time_declassify_int (b2z (kPrime <=? element)) =? 0) then Some None
    else decode_elements n bits d (out ++ [element])
  end.

(** [Some None] is the return value zero. *)
Definition scalar_decode (inp : list Z) (bits : Z) : option (option scalar) :=
  decode_elements (Z.to_nat DEGREE) bits (mk_decoder inp 0 0) [].

Definition scalar_decode_1 (inp : list Z) : scalar :=
  let out := scalar_zero in
  for n < (DEGREE /c 8) from out do
    let i := 8 * n in
    fst (fold_left (fun '(out, in_byte) j => (set_ (i + j) (Z.land in_byte 1) out, Z.shiftr in_byte 1))
                   (indices 8) (out, at_ inp n)).

Fixpoint vector_decode_from (n : nat) (i : Z) (inp : list Z) (bits : Z) (out : vector) : option (option vector) :=
  match n with
  | O => Some (Some out)
  | S n =>
    s ← scalar_decode (zdrop (i * bits * DEGREE /c 8) inp) bits;
    match s with
    | None => Some None
    | Some s => vector_decode_from n (i + 1) inp bits (out ++ [s])
    end
  end.

Definition vector_decode (inp : list Z) (bits : Z) : option (option vector) :=
  vector_decode_from (Z.to_nat RANK) 0 inp bits [].

(** ** Compression *)

Section Compression.
Context `{PF : Platform}.

Definition compress (x bits : Z) : Z :=
  let shifted := u32 (Z.shiftl x bits) in
  let product := u64 (shifted * kBarrettMultiplier) in
  let quotient := u32 (Z.shiftr product kBarrettShift) in
  let remainder := u32 (shifted - u32 (quotient * kPrime)) in
  let quotient := u32 (quotient + u32 (Z.land 1 (constant_time_lt_w kHalfPrime remainder))) in
  let quotient := u32 (quotient + u32 (Z.land 1 (constant_time_lt_w (kPrime + kHalfPrime) remainder))) in
  u16 (Z.land quotient (Z.shiftl 1 bits - 1)).

Definition decompress (x bits : Z) : Z :=
  let product := u32 (x * kPrime) in
  let power := u32 (Z.shiftl 1 bits) in
  let remainder := Z.land product (u32 (power - 1)) in
  let lower := Z.shiftr product bits in
  u16 (u32 (lower + Z.shiftr remainder (bits - 1))).

Definition scalar_compress (s : scalar) (bits : Z) : scalar :=
  for i < DEGREE from s do set_ i (compress (at_ s i) bits) s.
Definition scalar_decompress (s : scalar) (bits : Z) : scalar :=
  for i < DEGREE from s do set_ i (decompress (at_ s i) bits) s.
Definition vector_compress (a : vector) (bits : Z) : vector :=
  for i < RANK from a do vset i (scalar_compress (vat a i) bits) a.
Definition vector_decompress (a : vector) (bits : Z) : vector :=
  for i < RANK from a do vset i (scalar_decompress (vat a i) bits) a.

End Compression.
