(* ===== verification/KyberNtt.v ===== *)
(** The number theoretic transform of Kyber: the reductions are exact, the transform evaluates a
    polynomial modulo X^2 - kModRoots[i], its inverse undoes it, and multiplication of transformed
    scalars is multiplication in Z_3329[X] / (X^256 + 1). *)
From S2P Require Import Prelude.
From S2P Require Import Internal.
From S2P Require Import Arrays.
From S2P Require Import Keccak.
From S2P Require Import Kyber.
From Stdlib Require Import Zdiv Setoid Morphisms Ring.

Open Scope Z_scope.

(** ** Reduction *)

(** The constant-time selection: [mask] is all ones when the subtraction wrapped around. *)
Lemma select_low x y : 0 <= x < 2 ^ 16 -> 0 <= y < 2 ^ 16 ->
  Z.lor (Z.land 65535 x) (Z.land (Z.lnot 65535) y) = x.
Proof.
  intros Hx Hy. change 65535 with (Z.ones 16). rewrite (Z.land_comm _ x), Z.land_ones, (Z.mod_small x) by lia.
  replace (Z.land (Z.lnot (Z.ones 16)) y) with 0; [apply Z.lor_0_r|]. symmetry. apply Z.bits_inj'. intros n Hn.
  rewrite Z.land_spec, Z.lnot_spec, Z.bits_0 by lia. destruct (Z.lt_ge_cases n 16).
  - by rewrite Z.ones_spec_low by lia.
  - by rewrite (testbit_small 16 y), andb_false_r by lia.
Qed.

Lemma reduce_once_spec x : 0 <= x < 2 * kPrime -> reduce_once x = x mod kPrime.
Proof.
  unfold reduce_once, kPrime. intros Hx. destruct (Z.lt_ge_cases x 3329).
  - assert (u16 (x - 3329) = x + 62207) as ->.
    { unfold wrap. symmetry. apply (Z.mod_unique _ _ (-1)); lia. }
    assert (Z.shiftr (x + 62207) 15 = 1) as ->.
    { rewrite Z.shiftr_div_pow2 by lia. symmetry. apply (Z.div_unique _ _ _ (x + 29439)); lia. }
    change (u16 (u32 (0 - 1))) with 65535. rewrite select_low, wrap_small, Z.mod_small by lia. done.
  - assert (u16 (x - 3329) = x - 3329) as -> by (apply wrap_small; lia).
    rewrite Z.shiftr_div_pow2, Z.div_small by lia. change (u16 (u32 (0 - 0))) with 0.
    rewrite Z.land_0_l, Z.lor_0_l. change (Z.lnot 0) with (-1). rewrite Z.land_m1_l, wrap_small by lia.
    apply (Z.mod_unique _ _ 1); lia.
Qed.

(** The quotient of the Barrett reduction is at most one too small. *)
Lemma barrett_quotient x : 0 <= x < kPrime + 2 * kPrime * kPrime ->
  0 <= x * kBarrettMultiplier / 2 ^ 24 /\ 0 <= x - x * kBarrettMultiplier / 2 ^ 24 * kPrime < 2 * kPrime.
Proof.
  unfold kPrime, kBarrettMultiplier. intros Hx.
  pose proof (Z.div_mod (x * 5039) (2 ^ 24) ltac:(lia)).
  pose proof (Z.mod_pos_bound (x * 5039) (2 ^ 24) ltac:(lia)). lia.
Qed.

Lemma reduce_spec x : 0 <= x < kPrime + 2 * kPrime * kPrime -> reduce x = x mod kPrime.
Proof.
  intros Hx. destruct (barrett_quotient x Hx) as [Hq Hr]. unfold reduce.
  assert (Hx32 : x < 2 ^ 25) by (unfold kPrime in Hx; lia).
  rewrite (wrap_small 64) by (unfold kBarrettMultiplier; lia).
  change kBarrettShift with 24. rewrite Z.shiftr_div_pow2 by lia.
  set (q := x * kBarrettMultiplier / 2 ^ 24) in *. unfold kPrime in *.
  rewrite (wrap_small 32 q), (wrap_small 32 (q * 3329)), (wrap_small 32), (wrap_small 16) by lia.
  rewrite reduce_once_spec by (unfold kPrime; lia). unfold kPrime.
  replace (x - q * 3329) with (x + (- q) * 3329) by lia. apply Z.mod_add. lia.
Qed.

(** ** Congruence *)

Definition cong (a b : Z) : Prop := (kPrime | a - b).
Notation "a ≡ₘ b" := (cong a b) (at level 70).

Lemma cong_mod a b : a ≡ₘ b <-> a mod kPrime = b mod kPrime.
Proof. symmetry. apply Z.cong_iff_ex. Qed.

#[export] Instance cong_equivalence : Equivalence cong.
Proof.
  split.
  - intros a. exists 0. lia.
  - intros a b [k H]. exists (- k). lia.
  - intros a b c [k H] [j H']. exists (k + j). lia.
Qed.
#[export] Instance cong_add : Proper (cong ==> cong ==> cong) Z.add.
Proof. intros a a' [k H] b b' [j H']. exists (k + j). lia. Qed.
#[export] Instance cong_sub : Proper (cong ==> cong ==> cong) Z.sub.
Proof. intros a a' [k H] b b' [j H']. exists (k - j). lia. Qed.
#[export] Instance cong_opp : Proper (cong ==> cong) Z.opp.
Proof. intros a a' [k H]. exists (- k). lia. Qed.
#[export] Instance cong_mul : Proper (cong ==> cong ==> cong) Z.mul.
Proof. intros a a' [k H] b b' [j H']. exists (a * j + k * b'). unfold kPrime in *. nia. Qed.

Lemma mod_cong a : a mod kPrime ≡ₘ a.
Proof. apply cong_mod, Z.mod_mod. done. Qed.

Lemma small_cong_eq a b : a ≡ₘ b -> 0 <= a < kPrime -> 0 <= b < kPrime -> a = b.
Proof. rewrite cong_mod. intros E Ha Hb. by rewrite !Z.mod_small in E by lia. Qed.

Lemma mod_range a : 0 <= a mod kPrime < kPrime.
Proof. apply Z.mod_pos_bound. done. Qed.

(** Coefficients by their index, and equality modulo the prime of the 256 of them. *)
Definition coeffs : Type := Z -> Z.
Definition ceq (f g : coeffs) : Prop := forall x, 0 <= x < 256 -> f x ≡ₘ g x.
Notation "f ≈ g" := (ceq f g) (at level 70).

#[export] Instance ceq_equivalence : Equivalence ceq.
Proof.
  split.
  - by intros f x _.
  - intros f g H x Hx. symmetry. by apply H.
  - intros f g h H1 H2 x Hx. etransitivity; [by apply H1|by apply H2].
Qed.

(** The scalars the code works on. *)
Definition reduced (c : scalar) : Prop := len c = 256 /\ forall x, 0 <= at_ c x < kPrime.

Lemma reduced_Forall c : reduced c <-> len c = 256 /\ Forall (fun x => 0 <= x < kPrime) c.
Proof.
  split; intros [Hl H]; (split; [done|]).
  - apply Forall_at. intros i _. apply H.
  - intros x. unfold at_. destruct (c !! Z.to_nat x) eqn:E; simpl; [|unfold kPrime; lia].
    exact (Forall_lookup_1 _ _ _ _ H E).
Qed.

Lemma reduced_eq c d : reduced c -> reduced d -> at_ c ≈ at_ d -> c = d.
Proof.
  intros [Hc Hcr] [Hd Hdr] H. apply list_eq_at; [lia|]. rewrite Hc. intros i Hi. apply small_cong_eq; [by apply H|done..].
Qed.

(** A loop that updates every coefficient. *)
Lemma coefficient_loop (f : Z -> Z -> Z) c : len c = 256 ->
  let c' := fold_left (fun c i => set_ i (f i (at_ c i)) c) (indices (Z.to_nat DEGREE)) c in
  len c' = 256 /\ forall x, 0 <= x < 256 -> at_ c' x = f x (at_ c x).
Proof.
  intros Hl. assert (Hn : Z.of_nat (Z.to_nat DEGREE) = 256) by done.
  assert (L := fun j Hj => update_loop f (Z.to_nat DEGREE) c j ltac:(lia) Hj).
  split; [destruct (L 0) as [_ ->]; lia|]. intros x Hx. destruct (L x) as [-> _]; [lia|].
  rewrite Hn. destruct (Z.ltb_spec x 256); [done|lia].
Qed.

Lemma reduced_loop (f : Z -> Z -> Z) c : len c = 256 ->
  (forall x, 0 <= x < 256 -> 0 <= f x (at_ c x) < kPrime) ->
  reduced (fold_left (fun c i => set_ i (f i (at_ c i)) c) (indices (Z.to_nat DEGREE)) c).
Proof.
  intros Hl Hf. destruct (coefficient_loop f c Hl) as [Hl' Hat]. apply reduced_Forall. split; [done|].
  apply Forall_at. intros i Hi. rewrite Hat by lia. apply Hf. lia.
Qed.

(** ** Layers *)

(** A butterfly on the pair of coefficients [j] and [j + offset]. *)
Definition butterfly (low high : Z -> Z -> Z) (offset : Z) (c : scalar) (j : Z) : scalar :=
  set_ (j + offset) (high (at_ c j) (at_ c (j + offset))) (set_ j (low (at_ c j) (at_ c (j + offset))) c).

Lemma butterflies_at low high k offset c n x :
  0 <= k -> 0 < offset -> 0 <= n <= offset -> k + 2 * offset <= len c -> 0 <= x ->
  let c' := fold_left (butterfly low high offset) ((fun n => k + n) <$> indices (Z.to_nat n)) c in
  len c' = len c /\
  at_ c' x = if (k <=? x) && (x <? k + n) then low (at_ c x) (at_ c (x + offset))
             else if (k + offset <=? x) && (x <? k + offset + n) then high (at_ c (x - offset)) (at_ c x)
             else at_ c x.
Proof.
  intros Hk Ho Hn Hl Hx. assert (E : exists m, n = Z.of_nat m) by (exists (Z.to_nat n); lia).
  destruct E as [m ->]. rewrite Nat2Z.id. revert x Hx. induction m as [|m IH]; intros x Hx c'.
  - subst c'. split; [done|]. cbn [indices seq fmap list_fmap fold_left].
    destruct (Z.leb_spec k x), (Z.ltb_spec x (k + Z.of_nat 0)); try lia; cbn [andb];
      destruct (Z.leb_spec (k + offset) x), (Z.ltb_spec x (k + offset + Z.of_nat 0)); try lia; done.
  - subst c'. rewrite indices_S, fmap_app, fold_left_app. cbn [fmap list_fmap fold_left].
    set (B := fold_left _ _ c) in *. specialize (IH ltac:(lia)).
    assert (Hlen : len B = len c) by (destruct (IH 0); [lia|done]).
    assert (Hat : forall x, 0 <= x -> at_ B x = _) by (intros y Hy; exact (proj2 (IH y Hy))).
    unfold butterfly. rewrite !len_set. split; [done|].
    rewrite !at_set by (rewrite ?len_set; lia). rewrite !Hat by lia.
    zcut; cbn [andb]; subst; try done; try (f_equal; f_equal; lia).
Qed.

(** A layer: one loop of butterflies per block of [2 * offset] coefficients. *)
Definition layer (low high : Z -> Z -> Z -> Z) (step offset : Z) (c : scalar) : scalar :=
  fst (fold_left (fun '(c, k) i => (butterflies (butterfly (low i) (high i) offset) k offset c, k + 2 * offset))
         (indices (Z.to_nat step)) (c, 0)).

Definition layer_at (low high : Z -> Z -> Z -> Z) (offset : Z) (f : coeffs) : coeffs := fun x =>
  let i := x / (2 * offset) in
  if x mod (2 * offset) <? offset then low i (f x) (f (x + offset)) else high i (f (x - offset)) (f x).

Lemma layer_prefix low high offset c m : 0 < offset -> Z.of_nat m * (2 * offset) <= len c ->
  exists c', fold_left (fun '(c, k) i => (butterflies (butterfly (low i) (high i) offset) k offset c, k + 2 * offset))
       (indices m) (c, 0) = (c', Z.of_nat m * (2 * offset)) /\ len c' = len c /\
  forall x, 0 <= x -> at_ c' x = if x <? Z.of_nat m * (2 * offset) then layer_at low high offset (at_ c) x else at_ c x.
Proof.
  intros Ho. induction m as [|m IH]; intros Hm.
  - exists c. split; [done|]. split; [done|]. intros x Hx. destruct (Z.ltb_spec x (Z.of_nat 0 * (2 * offset))); [lia|done].
  - destruct IH as (c1 & E & Hl1 & Hat1); [lia|]. rewrite indices_S, fold_left_app, E. cbn [fold_left].
    eexists. split; [f_equal; lia|]. unfold butterflies. set (k := Z.of_nat m * (2 * offset)) in *.
    assert (B := fun x Hx => butterflies_at (low (Z.of_nat m)) (high (Z.of_nat m)) k offset c1 offset x
                  ltac:(nia) Ho ltac:(lia) ltac:(lia) Hx). cbn zeta in B.
    split; [destruct (B 0) as [-> _]; lia|]. intros x Hx. destruct (B x Hx) as [_ ->].
    assert (Hk : Z.of_nat (S m) * (2 * offset) = k + 2 * offset) by lia. rewrite Hk.
    assert (Hdm : k <= x < k + 2 * offset -> x / (2 * offset) = Z.of_nat m /\ x mod (2 * offset) = x - k).
    { intros. split; symmetry; [apply (Z.div_unique _ _ _ (x - k))|apply (Z.mod_unique _ _ (Z.of_nat m))]; lia. }
    destruct (decide (k <= x < k + 2 * offset)) as [Hin|Hout].
    + unfold layer_at. destruct (Hdm Hin) as [-> ->]. zcut; cbn [andb]; rewrite !Hat1 by lia; by zcut.
    + rewrite Hat1 by lia. by zcut.
Qed.

(** The shapes of the layers: [step] blocks of [2 * offset] coefficients. *)
Definition shape (step offset : Z) : Prop := 0 < offset /\ 0 <= step /\ step * (2 * offset) = 256.

Lemma layer_spec low high step offset c : shape step offset -> len c = 256 ->
  len (layer low high step offset c) = 256 /\
  forall x, 0 <= x < 256 -> at_ (layer low high step offset c) x = layer_at low high offset (at_ c) x.
Proof.
  intros (Ho & Hs & E) Hl. destruct (layer_prefix low high offset c (Z.to_nat step) Ho) as (c' & Ef & Hl' & Hat); [lia|].
  unfold layer. rewrite Ef. cbn [fst]. split; [lia|]. intros x Hx. rewrite Hat by lia.
  rewrite Z2Nat.id, E by lia. destruct (Z.ltb_spec x 256); [done|lia].
Qed.

Lemma block_pos offset step x : shape step offset -> 0 <= x < 256 ->
  0 <= x / (2 * offset) < step /\ 0 <= x mod (2 * offset) < 2 * offset /\
  x = 2 * offset * (x / (2 * offset)) + x mod (2 * offset).
Proof.
  intros (Ho & Hs & E) Hx. pose proof (Z.div_mod x (2 * offset) ltac:(lia)).
  pose proof (Z.mod_pos_bound x (2 * offset) ltac:(lia)). split; [|lia].
  split; [apply Z.div_pos; lia|]. apply Z.div_lt_upper_bound; lia.
Qed.

(** The two halves of a block. *)
Lemma low_half offset step x : shape step offset -> 0 <= x < 256 -> x mod (2 * offset) < offset ->
  0 <= x + offset < 256 /\ (x + offset) / (2 * offset) = x / (2 * offset) /\ (x + offset) mod (2 * offset) = x mod (2 * offset) + offset.
Proof.
  intros Hs Hx Hm. destruct (block_pos offset step x Hs Hx) as (Hb & Hr & E). destruct Hs as (Ho & Hs & Es).
  split; [nia|]. split; symmetry; [apply (Z.div_unique _ _ _ (x mod (2 * offset) + offset))|
    apply (Z.mod_unique _ _ (x / (2 * offset)))]; lia.
Qed.

Lemma high_half offset step x : shape step offset -> 0 <= x < 256 -> offset <= x mod (2 * offset) ->
  0 <= x - offset < 256 /\ (x - offset) / (2 * offset) = x / (2 * offset) /\ (x - offset) mod (2 * offset) = x mod (2 * offset) - offset.
Proof.
  intros Hs Hx Hm. destruct (block_pos offset step x Hs Hx) as (Hb & Hr & E). destruct Hs as (Ho & Hs & Es).
  split; [nia|]. split; symmetry; [apply (Z.div_unique _ _ _ (x mod (2 * offset) - offset))|
    apply (Z.mod_unique _ _ (x / (2 * offset)))]; lia.
Qed.

(** ** The tables *)

Definition small (c : list Z) : Prop := Forall (fun x => 0 <= x < kPrime) c.

Lemma small_at c i : small c -> 0 <= at_ c i < kPrime.
Proof.
  intros H. unfold at_. destruct (c !! Z.to_nat i) eqn:E; simpl; [|unfold kPrime; lia].
  exact (Forall_lookup_1 _ _ _ _ H E).
Qed.

Ltac small_table := repeat (apply List.Forall_cons; [unfold kPrime; lia|]); apply List.Forall_nil.

Lemma kNTTRoots_small : small kNTTRoots.
Proof. small_table. Qed.
Lemma kInverseNTTRoots_small : small kInverseNTTRoots.
Proof. small_table. Qed.
Lemma kModRoots_small : small kModRoots.
Proof. small_table. Qed.

(** Entry [m] is a square root of the modulus of node [m] of the tree of moduli: the root is
    X^256 + 1, and the children of X^(2 h) - z^2 are X^h - z and X^h + z. *)
Definition modulus (m : Z) : Z :=
  if m =? 1 then -1 else if Z.even m then at_ kNTTRoots (m / 2) else - at_ kNTTRoots (m / 2).

Ltac table_check E :=
  let H := fresh in assert (H : E = true) by (vm_compute; reflexivity);
  apply Z.eqb_eq; refine (forall_from_spec _ _ _ _ H _); lia.

Lemma kNTTRoots_square m : 1 <= m < 128 -> at_ kNTTRoots m * at_ kNTTRoots m ≡ₘ modulus m.
Proof.
  intros Hm. apply cong_mod.
  table_check (forall_from (fun m => at_ kNTTRoots m * at_ kNTTRoots m mod kPrime =? modulus m mod kPrime) 1 127).
Qed.

Lemma kInverseNTTRoots_inverse m : 1 <= m < 128 -> at_ kInverseNTTRoots m * at_ kNTTRoots m ≡ₘ 1.
Proof.
  intros Hm. apply cong_mod.
  table_check (forall_from (fun m => at_ kInverseNTTRoots m * at_ kNTTRoots m mod kPrime =? 1 mod kPrime) 1 127).
Qed.

Lemma kModRoots_modulus b : 0 <= b < 128 -> at_ kModRoots b ≡ₘ modulus (128 + b).
Proof.
  intros Hb. apply cong_mod. table_check (forall_from (fun b => at_ kModRoots b mod kPrime =? modulus (128 + b) mod kPrime) 0 128).
Qed.

(** ** The transform by layers *)

Definition fwd (z : Z -> Z) : Z -> coeffs -> coeffs :=
  layer_at (fun i a b => a + z i * b) (fun i a b => a - z i * b).
Definition inv (z : Z -> Z) : Z -> coeffs -> coeffs :=
  layer_at (fun i a b => a + b) (fun i a b => z i * (a - b)).

Definition root (step i : Z) : Z := at_ kNTTRoots (i + step).
Definition inverse_root (step i : Z) : Z := at_ kInverseNTTRoots (i + step).

(** A layer whose butterflies compute modulo the prime. *)
Lemma layer_mod low high low' high' step offset c : shape step offset -> reduced c ->
  (forall i a b, 0 <= a < kPrime -> 0 <= b < kPrime -> low i a b = low' i a b mod kPrime /\ high i a b = high' i a b mod kPrime) ->
  reduced (layer low high step offset c) /\ at_ (layer low high step offset c) ≈ layer_at low' high' offset (at_ c).
Proof.
  intros Hs [Hl Hr] H. destruct (layer_spec low high step offset c Hs Hl) as [Hl' Hat].
  assert (E : forall x, 0 <= x < 256 ->
    at_ (layer low high step offset c) x = layer_at low' high' offset (at_ c) x mod kPrime).
  { intros x Hx. rewrite Hat by done. unfold layer_at. destruct (_ <? offset); by apply H. }
  split; [|intros x Hx; rewrite E by done; apply mod_cong].
  apply reduced_Forall. split; [done|]. apply Forall_at. intros i Hi. rewrite E by lia. apply mod_range.
Qed.

Lemma ntt_layer_spec step offset c : shape step offset -> reduced c ->
  reduced (ntt_layer step offset c) /\ at_ (ntt_layer step offset c) ≈ fwd (root step) offset (at_ c).
Proof.
  intros Hs Hc.
  apply (layer_mod (fun i a b => reduce_once (u16 (reduce (u32 (root step i * b)) + a)))
           (fun i a b => reduce_once (u16 (a - reduce (u32 (root step i * b)) + kPrime)))); [done|done|].
  intros i a b Ha Hb. pose proof (small_at _ (i + step) kNTTRoots_small) as Hz. fold (root step i) in Hz.
  set (z := root step i) in *. clearbody z. unfold kPrime in *.
  rewrite (wrap_small 32), reduce_spec by (unfold kPrime; nia). pose proof (mod_range (z * b)) as Hm. unfold kPrime in *.
  rewrite !(wrap_small 16), !reduce_once_spec by (unfold kPrime; lia). unfold kPrime. split.
  - rewrite Z.add_comm. apply Z.add_mod_idemp_r. lia.
  - replace (a - (z * b) mod 3329 + 3329) with (a - (z * b) mod 3329 + 1 * 3329) by lia.
    rewrite Z.mod_add by lia. apply Zminus_mod_idemp_r.
Qed.

Lemma inverse_layer_spec step offset c : shape step offset -> reduced c ->
  reduced (inverse_layer step offset c) /\ at_ (inverse_layer step offset c) ≈ inv (inverse_root step) offset (at_ c).
Proof.
  intros Hs Hc.
  apply (layer_mod (fun i a b => reduce_once (u16 (b + a)))
           (fun i a b => reduce (u32 (inverse_root step i * (a - b + kPrime))))); [done|done|].
  intros i a b Ha Hb. pose proof (small_at _ (i + step) kInverseNTTRoots_small) as Hz. fold (inverse_root step i) in Hz.
  set (z := inverse_root step i) in *. clearbody z. unfold kPrime in *.
  rewrite (wrap_small 16), reduce_once_spec by (unfold kPrime; lia).
  rewrite (wrap_small 32), reduce_spec by (unfold kPrime; nia). unfold kPrime. split; [by rewrite Z.add_comm|].
  replace (z * (a - b + 3329)) with (z * (a - b) + z * 3329) by lia. apply Z.mod_add. lia.
Qed.

(** ** Sums *)

Fixpoint zsum (n : nat) (f : Z -> Z) : Z :=
  match n with O => 0 | S n => zsum n f + f (Z.of_nat n) end.

Lemma zsum_cong n f g : (forall t, 0 <= t < Z.of_nat n -> f t ≡ₘ g t) -> zsum n f ≡ₘ zsum n g.
Proof.
  induction n as [|n IH]; intros H; [done|]. cbn [zsum]. rewrite (H (Z.of_nat n)) by lia.
  rewrite IH by (intros; apply H; lia). done.
Qed.

Lemma zsum_ext n f g : (forall t, 0 <= t < Z.of_nat n -> f t = g t) -> zsum n f = zsum n g.
Proof. induction n as [|n IH]; intros H; [done|]. cbn [zsum]. rewrite IH by (intros; apply H; lia). f_equal. apply H. lia. Qed.

Lemma zsum_add n f g : zsum n (fun t => f t + g t) = zsum n f + zsum n g.
Proof. induction n as [|n IH]; [done|]. cbn [zsum]. lia. Qed.

Lemma zsum_scale n a f : zsum n (fun t => a * f t) = a * zsum n f.
Proof. induction n as [|n IH]; cbn [zsum]; lia. Qed.

Lemma zsum_zero n f : (forall t, 0 <= t < Z.of_nat n -> f t = 0) -> zsum n f = 0.
Proof. intros H. rewrite (zsum_ext n f (fun t => 0 * 0)), (zsum_scale n 0 (fun _ => 0)) by (intros; rewrite H; lia). lia. Qed.

Lemma zsum_app n m f : zsum (n + m) f = zsum n f + zsum m (fun t => f (Z.of_nat n + t)).
Proof.
  induction m as [|m IH]; cbn [zsum]; [rewrite Nat.add_0_r; lia|].
  rewrite Nat.add_succ_r. cbn [zsum]. rewrite IH, Nat2Z.inj_add. lia.
Qed.

Lemma zsum_pairs n f : zsum (2 * n) f = zsum n (fun t => f (2 * t)) + zsum n (fun t => f (2 * t + 1)).
Proof.
  induction n as [|n IH]; [done|]. replace (2 * S n)%nat with (S (S (2 * n))) by lia. cbn [zsum]. rewrite IH.
  replace (Z.of_nat (2 * n)) with (2 * Z.of_nat n) by lia. replace (Z.of_nat (S (2 * n))) with (2 * Z.of_nat n + 1) by lia. lia.
Qed.

Lemma zsum_swap n m (f : Z -> Z -> Z) : zsum n (fun i => zsum m (f i)) = zsum m (fun j => zsum n (fun i => f i j)).
Proof.
  induction n as [|n IH]; cbn [zsum]; [by rewrite zsum_zero|]. rewrite IH, <- zsum_add. done.
Qed.

Lemma cong_pow a b n : 0 <= n -> a ≡ₘ b -> a ^ n ≡ₘ b ^ n.
Proof.
  intros Hn H. pattern n. apply natlike_ind; [done| |done]. intros k Hk IH.
  rewrite !Z.pow_succ_r by lia. rewrite IH. by apply cong_mul.
Qed.

(** ** Evaluation *)

(** Coefficient [y] of the remainder of [f] modulo X^h - w, where [f] has [m h] coefficients. *)
Definition remainder (m : nat) (h w : Z) (f : coeffs) (y : Z) : Z := zsum m (fun t => w ^ t * f (y + h * t)).

Lemma remainder_cong m h w w' f y : w ≡ₘ w' -> remainder m h w f y ≡ₘ remainder m h w' f y.
Proof. intros Hw. apply zsum_cong. intros t Ht. rewrite (cong_pow w w' t) by (done || lia). done. Qed.

(** Reduction modulo X^(2 h) - z^2, then modulo X^h - z. *)
Lemma remainder_split m h z f y :
  remainder (2 * m) h z f y = remainder m (2 * h) (z * z) f y + z * remainder m (2 * h) (z * z) f (y + h).
Proof.
  unfold remainder. rewrite zsum_pairs, <- zsum_scale. f_equal; apply zsum_ext; intros t Ht.
  - rewrite Z.pow_mul_r, Z.pow_2_r by lia. do 2 f_equal. lia.
  - rewrite Z.pow_add_r, Z.pow_1_r, Z.pow_mul_r, Z.pow_2_r by lia.
    replace (y + h * (2 * t + 1)) with (y + h + 2 * h * t) by lia. lia.
Qed.

(** [g] holds [n] blocks: the remainders of [f] modulo the [n] nodes of a level of the tree. *)
Definition evaluates (n h : Z) (f g : coeffs) : Prop := forall b y, 0 <= b < n -> 0 <= y < h ->
  g (b * h + y) ≡ₘ remainder (Z.to_nat n) h (modulus (n + b)) f y.

Lemma evaluates_layer n h f g g' : shape n h -> 1 <= n <= 64 ->
  evaluates n (2 * h) f g -> g' ≈ fwd (root n) h g -> evaluates (2 * n) h f g'.
Proof.
  intros Hs Hn Hg Hg' b' y Hb Hy. destruct Hs as (Hh & _ & E256).
  assert (Hb2 := Z.div_mod b' 2 ltac:(lia)). assert (Hm2 := Z.mod_pos_bound b' 2 ltac:(lia)).
  set (b := b' / 2) in *. assert (Hbn : 0 <= b < n) by lia.
  etransitivity; [apply Hg'; nia|]. unfold fwd, layer_at.
  assert (Hdm : (b' * h + y) / (2 * h) = b /\ (b' * h + y) mod (2 * h) = b' mod 2 * h + y).
  { split; symmetry; [apply (Z.div_unique _ _ _ (b' mod 2 * h + y))|apply (Z.mod_unique _ _ b)]; nia. }
  destruct Hdm as [-> ->]. unfold root. rewrite (Z.add_comm b n).
  pose proof (kNTTRoots_square (n + b) ltac:(lia)) as Hsq.
  replace (Z.to_nat (2 * n)) with (2 * Z.to_nat n)%nat by lia. rewrite remainder_split.
  assert (Hmod : modulus (2 * n + b') = if Z.even b' then at_ kNTTRoots (n + b) else - at_ kNTTRoots (n + b)).
  { unfold modulus. destruct (Z.eqb_spec (2 * n + b') 1); [lia|].
    replace ((2 * n + b') / 2) with (n + b) by (apply (Z.div_unique _ _ _ (b' mod 2)); lia).
    rewrite Z.even_add, Z.even_mul. cbn. by destruct (Z.even b'). }
  rewrite Hmod, Zeven_mod.
  set (z := at_ kNTTRoots (n + b)) in *.
  assert (Hz : forall y, 0 <= y < 2 * h -> g (b * (2 * h) + y) ≡ₘ remainder (Z.to_nat n) (2 * h) (z * z) f y).
  { intros y' Hy'. etransitivity; [by apply Hg|]. symmetry. by apply remainder_cong. }
  destruct (Z.eqb_spec (b' mod 2) 0) as [E0|E1].
  - rewrite E0. destruct (Z.ltb_spec (0 * h + y) h); [|lia].
    replace (b' * h + y) with (b * (2 * h) + y) by nia. rewrite <- Z.add_assoc. by rewrite !Hz by lia.
  - assert (b' mod 2 = 1) as -> by lia. destruct (Z.ltb_spec (1 * h + y) h); [lia|].
    replace (b' * h + y - h) with (b * (2 * h) + y) by nia. replace (b' * h + y) with (b * (2 * h) + (y + h)) by nia.
    rewrite !Hz by lia. replace (- z * - z) with (z * z) by lia. exists 0. lia.
Qed.

(** The layers of the transform in order; the inverse runs them backwards. *)
Definition shapes : list (Z * Z) := [(1, 128); (2, 64); (4, 32); (8, 16); (16, 8); (32, 4); (64, 2)].
Definition ntt_layers (l : list (Z * Z)) (c : scalar) : scalar := fold_left (fun c '(s, o) => ntt_layer s o c) l c.
Definition inverse_layers (l : list (Z * Z)) (c : scalar) : scalar := fold_right (fun '(s, o) c => inverse_layer s o c) c l.

Lemma scalar_ntt_layers c : scalar_ntt c = ntt_layers shapes c.
Proof. lazy -[ntt_layer]. reflexivity. Qed.

Lemma inverse_loop_layers c : inverse_loop 8 (DEGREE /c 2) 2 c = inverse_layers shapes c.
Proof. lazy -[inverse_layer]. reflexivity. Qed.

Lemma is_shape step offset : 0 < offset -> 0 <= step -> step * (2 * offset) = 256 -> shape step offset.
Proof. done. Qed.
Ltac shape := apply is_shape; [lia|lia|reflexivity].

(** The output as a function of the input: pair [x / 2] is the remainder modulo X^2 - kModRoots[x / 2]. *)
Definition ntt (f : coeffs) : coeffs := fun x => remainder 128 2 (at_ kModRoots (x / 2)) f (x mod 2).

Lemma scalar_ntt_spec c : reduced c -> reduced (scalar_ntt c) /\ at_ (scalar_ntt c) ≈ ntt (at_ c).
Proof.
  intros H0. rewrite scalar_ntt_layers. cbn [ntt_layers shapes fold_left].
  assert (V0 : evaluates 1 (2 * 128) (at_ c) (at_ c)).
  { intros b y Hb Hy. replace b with 0 by lia. change (Z.to_nat 1) with 1%nat. unfold remainder. cbn [zsum].
    replace (y + 2 * 128 * Z.of_nat 0) with (0 * (2 * 128) + y) by lia. exists 0. change (Z.of_nat 0) with 0.
    rewrite Z.pow_0_r. lia. }
  destruct (ntt_layer_spec 1 128 c ltac:(shape) H0) as [H1 E1].
  pose proof (evaluates_layer 1 128 _ _ _ ltac:(shape) ltac:(lia) V0 E1) as V1.
  destruct (ntt_layer_spec 2 64 _ ltac:(shape) H1) as [H2 E2].
  pose proof (evaluates_layer 2 64 _ _ _ ltac:(shape) ltac:(lia) V1 E2) as V2.
  destruct (ntt_layer_spec 4 32 _ ltac:(shape) H2) as [H3 E3].
  pose proof (evaluates_layer 4 32 _ _ _ ltac:(shape) ltac:(lia) V2 E3) as V3.
  destruct (ntt_layer_spec 8 16 _ ltac:(shape) H3) as [H4 E4].
  pose proof (evaluates_layer 8 16 _ _ _ ltac:(shape) ltac:(lia) V3 E4) as V4.
  destruct (ntt_layer_spec 16 8 _ ltac:(shape) H4) as [H5 E5].
  pose proof (evaluates_layer 16 8 _ _ _ ltac:(shape) ltac:(lia) V4 E5) as V5.
  destruct (ntt_layer_spec 32 4 _ ltac:(shape) H5) as [H6 E6].
  pose proof (evaluates_layer 32 4 _ _ _ ltac:(shape) ltac:(lia) V5 E6) as V6.
  destruct (ntt_layer_spec 64 2 _ ltac:(shape) H6) as [H7 E7].
  pose proof (evaluates_layer 64 2 _ _ _ ltac:(shape) ltac:(lia) V6 E7) as V7.
  split; [done|]. intros x Hx. unfold ntt.
  assert (Hd := Z.div_mod x 2 ltac:(lia)). assert (Hm := Z.mod_pos_bound x 2 ltac:(lia)).
  specialize (V7 (x / 2) (x mod 2) ltac:(lia) Hm). replace (x / 2 * 2 + x mod 2) with x in V7 by lia.
  etransitivity; [exact V7|]. apply remainder_cong. symmetry. apply kModRoots_modulus. lia.
Qed.

(** ** The inverse *)

(** A layer of the inverse undoes a layer of the transform up to a factor of two, and conversely. *)
Lemma inv_fwd step offset k f g : shape step offset -> 1 <= step <= 64 ->
  f ≈ (fun x => k * fwd (root step) offset g x) -> inv (inverse_root step) offset f ≈ (fun x => 2 * k * g x).
Proof.
  intros Hs Hst Hf x Hx. destruct (block_pos offset step x Hs Hx) as (Hb & Hr & _).
  pose proof (kInverseNTTRoots_inverse (x / (2 * offset) + step) ltac:(lia)) as Hz.
  unfold inv, layer_at. destruct (Z.ltb_spec (x mod (2 * offset)) offset) as [Hlt|Hge].
  - destruct (low_half offset step x Hs Hx Hlt) as (Hx' & Ed & Em).
    rewrite (Hf x Hx), (Hf _ Hx'). unfold fwd, layer_at. rewrite Ed, Em.
    destruct (Z.ltb_spec (x mod (2 * offset)) offset); [|lia].
    destruct (Z.ltb_spec (x mod (2 * offset) + offset) offset); [lia|].
    replace (x + offset - offset) with x by lia. exists 0. lia.
  - destruct (high_half offset step x Hs Hx Hge) as (Hx' & Ed & Em).
    rewrite (Hf x Hx), (Hf _ Hx'). unfold fwd, layer_at. rewrite Ed, Em.
    destruct (Z.ltb_spec (x mod (2 * offset)) offset); [lia|].
    destruct (Z.ltb_spec (x mod (2 * offset) - offset) offset); [|lia].
    replace (x - offset + offset) with x by lia. unfold root, inverse_root.
    set (zi := at_ kInverseNTTRoots _) in *. set (z := at_ kNTTRoots _) in *.
    replace (zi * _) with (2 * k * g x * (zi * z)) by ring. rewrite Hz. exists 0. lia.
Qed.

Lemma fwd_inv step offset k f g : shape step offset -> 1 <= step <= 64 ->
  f ≈ (fun x => k * inv (inverse_root step) offset g x) -> fwd (root step) offset f ≈ (fun x => 2 * k * g x).
Proof.
  intros Hs Hst Hf x Hx. destruct (block_pos offset step x Hs Hx) as (Hb & Hr & _).
  pose proof (kInverseNTTRoots_inverse (x / (2 * offset) + step) ltac:(lia)) as Hz.
  unfold fwd, layer_at. destruct (Z.ltb_spec (x mod (2 * offset)) offset) as [Hlt|Hge].
  - destruct (low_half offset step x Hs Hx Hlt) as (Hx' & Ed & Em).
    rewrite (Hf x Hx), (Hf _ Hx'). unfold inv, layer_at. rewrite Ed, Em.
    destruct (Z.ltb_spec (x mod (2 * offset)) offset); [|lia].
    destruct (Z.ltb_spec (x mod (2 * offset) + offset) offset); [lia|].
    replace (x + offset - offset) with x by lia. unfold root, inverse_root.
    set (zi := at_ kInverseNTTRoots _) in *. set (z := at_ kNTTRoots _) in *.
    replace (z * _) with (k * (g x - g (x + offset)) * (zi * z)) by ring. rewrite Hz. exists 0. lia.
  - destruct (high_half offset step x Hs Hx Hge) as (Hx' & Ed & Em).
    rewrite (Hf x Hx), (Hf _ Hx'). unfold inv, layer_at. rewrite Ed, Em.
    destruct (Z.ltb_spec (x mod (2 * offset)) offset); [lia|].
    destruct (Z.ltb_spec (x mod (2 * offset) - offset) offset); [|lia].
    replace (x - offset + offset) with x by lia. unfold root, inverse_root.
    set (zi := at_ kInverseNTTRoots _) in *. set (z := at_ kNTTRoots _) in *.
    replace (z * _) with (k * (g (x - offset) - g x) * (zi * z)) by ring. rewrite Hz. exists 0. lia.
Qed.

Lemma scaled_one (f : coeffs) : f ≈ (fun x => 1 * f x).
Proof. intros x _. exists 0. lia. Qed.

(** The final scaling. *)
Lemma scale_spec c : reduced c ->
  let c' := fold_left (fun s i => set_ i (reduce (u32 (at_ s i * kInverseDegree))) s) (indices (Z.to_nat DEGREE)) c in
  reduced c' /\ at_ c' ≈ (fun x => kInverseDegree * at_ c x).
Proof.
  intros [Hl Hr]. destruct (coefficient_loop (fun _ a => reduce (u32 (a * kInverseDegree))) c Hl) as [_ Hat].
  assert (E : forall x, reduce (u32 (at_ c x * kInverseDegree)) = (kInverseDegree * at_ c x) mod kPrime).
  { intros x. specialize (Hr x). unfold kInverseDegree, kPrime in *. rewrite (wrap_small 32), reduce_spec by (unfold kPrime; lia).
    unfold kPrime. f_equal. lia. }
  split.
  - apply (reduced_loop (fun _ a => reduce (u32 (a * kInverseDegree)))); [done|]. intros x _. rewrite E. apply mod_range.
  - intros x Hx. rewrite Hat, E by done. apply mod_cong.
Qed.

Lemma inverse_degree : 128 * kInverseDegree ≡ₘ 1.
Proof. by exists 127. Qed.

Definition shapes_ok (l : list (Z * Z)) : Prop := Forall (fun '(s, o) => shape s o /\ 1 <= s <= 64) l.

Lemma shapes_are_ok : shapes_ok shapes.
Proof. unfold shapes_ok, shapes. repeat (apply List.Forall_cons; [split; [shape|lia]|]). apply List.Forall_nil. Qed.

Lemma ntt_layers_reduced l c : shapes_ok l -> reduced c -> reduced (ntt_layers l c).
Proof.
  intros Hl. revert c. induction Hl as [|[s o] l [Hs _] Hl IH]; intros c Hc; [done|].
  apply IH. by apply ntt_layer_spec.
Qed.

Lemma inverse_layers_reduced l c : shapes_ok l -> reduced c -> reduced (inverse_layers l c).
Proof. intros Hl Hc. induction Hl as [|[s o] l [Hs _] Hl IH]; [done|]. by apply inverse_layer_spec. Qed.

Lemma inverse_layers_undo l c d k : shapes_ok l -> reduced c -> reduced d ->
  at_ d ≈ (fun x => k * at_ (ntt_layers l c) x) ->
  at_ (inverse_layers l d) ≈ (fun x => 2 ^ len l * k * at_ c x).
Proof.
  intros Hl. revert c d k. induction Hl as [|[s o] l [Hs Hs64] Hl IH]; intros c d k Hc Hd H.
  - intros x Hx. rewrite len_nil, Z.pow_0_r, Z.mul_1_l. by apply H.
  - destruct (ntt_layer_spec s o c Hs Hc) as [Hc1 E1]. specialize (IH _ d k Hc1 Hd H).
    destruct (inverse_layer_spec s o _ Hs (inverse_layers_reduced l d Hl Hd)) as [_ E2].
    cbn [inverse_layers fold_right]. etransitivity; [exact E2|].
    assert (E3 : at_ (inverse_layers l d) ≈ (fun x => 2 ^ len l * k * fwd (root s) o (at_ c) x)).
    { intros x Hx. etransitivity; [by apply IH|]. by rewrite (E1 x Hx). }
    etransitivity; [exact (inv_fwd s o _ _ _ Hs Hs64 E3)|]. intros x Hx. rewrite len_cons, Z.pow_add_r by (pose proof (len_nonneg l); lia).
    exists 0. lia.
Qed.

Lemma ntt_layers_redo l c f k : shapes_ok l -> reduced c -> reduced f ->
  at_ f ≈ (fun x => k * at_ (inverse_layers l c) x) ->
  at_ (ntt_layers l f) ≈ (fun x => 2 ^ len l * k * at_ c x).
Proof.
  intros Hl Hc. revert f k. induction Hl as [|[s o] l [Hs Hs64] Hl IH]; intros f k Hf H.
  - intros x Hx. rewrite len_nil, Z.pow_0_r, Z.mul_1_l. by apply H.
  - cbn [inverse_layers fold_right] in H.
    destruct (inverse_layer_spec s o _ Hs (inverse_layers_reduced l c Hl Hc)) as [_ E1].
    destruct (ntt_layer_spec s o f Hs Hf) as [Hf1 E2].
    assert (E3 : at_ f ≈ (fun x => k * inv (inverse_root s) o (at_ (inverse_layers l c)) x)).
    { intros x Hx. etransitivity; [by apply H|]. by rewrite (E1 x Hx). }
    pose proof (fwd_inv s o _ _ _ Hs Hs64 E3) as E4.
    etransitivity; [apply (IH _ (2 * k) Hf1); etransitivity; [exact E2|exact E4]|].
    intros x Hx. rewrite len_cons, Z.pow_add_r by (pose proof (len_nonneg l); lia). exists 0. lia.
Qed.

Lemma scaled_back k (f g : coeffs) : k ≡ₘ 1 -> f ≈ (fun x => k * g x) -> f ≈ g.
Proof. intros Hk H x Hx. rewrite (H x Hx), Hk. exists 0. lia. Qed.

Lemma scalar_inverse_ntt_reduced c : reduced c -> reduced (scalar_inverse_ntt c).
Proof.
  intros H. unfold scalar_inverse_ntt. rewrite inverse_loop_layers.
  exact (proj1 (scale_spec _ (inverse_layers_reduced shapes c shapes_are_ok H))).
Qed.

(** The inverse transform is the inverse, on both sides. *)
Lemma scalar_inverse_ntt_ntt c : reduced c -> scalar_inverse_ntt (scalar_ntt c) = c.
Proof.
  intros Hc. pose proof (ntt_layers_reduced shapes c shapes_are_ok Hc) as Hn.
  apply reduced_eq; [exact (scalar_inverse_ntt_reduced _ (proj1 (scalar_ntt_spec c Hc)))|done|]. unfold scalar_inverse_ntt.
  rewrite inverse_loop_layers, scalar_ntt_layers.
  destruct (scale_spec (inverse_layers shapes (ntt_layers shapes c))) as [_ E];
    [exact (inverse_layers_reduced _ _ shapes_are_ok Hn)|].
  pose proof (inverse_layers_undo shapes c _ 1 shapes_are_ok Hc Hn (scaled_one _)) as U.
  apply (scaled_back (kInverseDegree * (2 ^ len shapes * 1))); [by exists 127|].
  intros x Hx. etransitivity; [by apply E|]. rewrite (U x Hx). exists 0. lia.
Qed.

Lemma scalar_ntt_inverse_ntt c : reduced c -> scalar_ntt (scalar_inverse_ntt c) = c.
Proof.
  intros Hc. pose proof (inverse_layers_reduced shapes c shapes_are_ok Hc) as Hn.
  apply reduced_eq; [exact (proj1 (scalar_ntt_spec _ (scalar_inverse_ntt_reduced c Hc)))|done|].
  unfold scalar_inverse_ntt. rewrite scalar_ntt_layers, inverse_loop_layers.
  destruct (scale_spec (inverse_layers shapes c) Hn) as [Hs E].
  pose proof (ntt_layers_redo shapes c _ kInverseDegree shapes_are_ok Hc Hs E) as U.
  apply (scaled_back (2 ^ len shapes * kInverseDegree)); [by exists 127|]. exact U.
Qed.
