(* ===== verification/KyberRing.v ===== *)
(** The ring Kyber works in. Transformed scalars form a commutative ring under scalar_add and
    scalar_mult, and the transform is an isomorphism onto it from Z_3329[X] / (X^256 + 1). *)
From S2P Require Import Prelude.
From S2P Require Import Internal.
From S2P Require Import Arrays.
From S2P Require Import Keccak.
From S2P Require Import Kyber.
From S2P Require Import KyberNtt.
From Stdlib Require Import Setoid Morphisms Ring Ring_theory.

Open Scope Z_scope.

(** ** Operations on coefficients *)

Definition cadd (f g : coeffs) : coeffs := fun x => f x + g x.
Definition csub (f g : coeffs) : coeffs := fun x => f x - g x.
Definition copp (f : coeffs) : coeffs := fun x => - f x.
Definition czero : coeffs := fun _ => 0.
Definition cone : coeffs := fun x => if x mod 2 =? 0 then 1 else 0.

(** The product modulo X^2 - kModRoots[x / 2] of the pairs. *)
Definition cmul (f g : coeffs) : coeffs := fun x =>
  let b := 2 * (x / 2) in
  if x mod 2 =? 0 then f b * g b + at_ kModRoots (x / 2) * (f (b + 1) * g (b + 1))
  else f b * g (b + 1) + f (b + 1) * g b.

(** The product modulo X^256 + 1. *)
Definition negacyclic (f g : coeffs) : coeffs := fun k =>
  zsum 256 (fun i => f i * (if i <=? k then g (k - i) else - g (256 + k - i))).

#[export] Instance cadd_proper : Proper (ceq ==> ceq ==> ceq) cadd.
Proof. intros f f' Hf g g' Hg x Hx. unfold cadd. by rewrite (Hf x Hx), (Hg x Hx). Qed.
#[export] Instance csub_proper : Proper (ceq ==> ceq ==> ceq) csub.
Proof. intros f f' Hf g g' Hg x Hx. unfold csub. by rewrite (Hf x Hx), (Hg x Hx). Qed.
#[export] Instance copp_proper : Proper (ceq ==> ceq) copp.
Proof. intros f f' Hf x Hx. unfold copp. by rewrite (Hf x Hx). Qed.

Lemma pair_index x : 0 <= x < 256 ->
  0 <= 2 * (x / 2) < 256 /\ 0 <= 2 * (x / 2) + 1 < 256 /\ 0 <= x / 2 < 128 /\ x = 2 * (x / 2) + x mod 2 /\ 0 <= x mod 2 < 2.
Proof.
  intros Hx. pose proof (Z.div_mod x 2 ltac:(lia)). pose proof (Z.mod_pos_bound x 2 ltac:(lia)). lia.
Qed.

#[export] Instance cmul_proper : Proper (ceq ==> ceq ==> ceq) cmul.
Proof.
  intros f f' Hf g g' Hg x Hx. destruct (pair_index x Hx) as (H0 & H1 & _). unfold cmul.
  destruct (x mod 2 =? 0); by rewrite (Hf _ H0), (Hf _ H1), (Hg _ H0), (Hg _ H1).
Qed.

(** The indices of a pair. *)
Lemma pair_div b : 2 * b / 2 = b /\ (2 * b) mod 2 = 0 /\ (2 * b + 1) / 2 = b /\ (2 * b + 1) mod 2 = 1.
Proof.
  split; [symmetry; apply (Z.div_unique _ _ _ 0); lia|]. split; [symmetry; apply (Z.mod_unique _ _ b); lia|].
  split; [symmetry; apply (Z.div_unique _ _ _ 1); lia|]. symmetry; apply (Z.mod_unique _ _ b); lia.
Qed.

Lemma cmul_1_l f : cmul cone f ≈ f.
Proof.
  intros x Hx. destruct (pair_index x Hx) as (_ & _ & _ & E & Hm). unfold cmul, cone.
  destruct (pair_div (x / 2)) as (_ & -> & _ & ->). cbn [Z.eqb].
  assert (Ef : f x = f (2 * (x / 2) + x mod 2)) by (f_equal; exact E). rewrite Ef.
  destruct (Z.eqb_spec (x mod 2) 0) as [H0|H0].
  - rewrite H0, Z.add_0_r. exists 0. lia.
  - replace (x mod 2) with 1 by lia. exists 0. lia.
Qed.

Lemma cmul_assoc f g h : cmul f (cmul g h) ≈ cmul (cmul f g) h.
Proof.
  intros x Hx. unfold cmul. destruct (pair_div (x / 2)) as (-> & -> & -> & ->). cbn [Z.eqb].
  destruct (x mod 2 =? 0); exists 0; lia.
Qed.

Lemma coeffs_ring : ring_theory czero cone cadd cmul csub copp ceq.
Proof.
  constructor; intros; try apply cmul_1_l; try apply cmul_assoc; intros x' Hx'; unfold cadd, csub, copp, cmul, czero;
    try (destruct (x' mod 2 =? 0)); exists 0; lia.
Qed.

Lemma coeffs_ring_eq : ring_eq_ext cadd cmul copp ceq.
Proof. constructor; apply _. Qed.

Add Ring coeffs_ring : coeffs_ring (setoid ceq_equivalence coeffs_ring_eq).

(** ** The operations of the code *)

Lemma scalar_add_spec a b : reduced a -> reduced b ->
  reduced (scalar_add a b) /\ at_ (scalar_add a b) ≈ cadd (at_ a) (at_ b).
Proof.
  intros [Ha Hra] [Hb Hrb]. set (f := fun i x => reduce_once (u16 (x + at_ b i))).
  assert (E : forall x, f x (at_ a x) = (at_ a x + at_ b x) mod kPrime).
  { intros x. specialize (Hra x). specialize (Hrb x). unfold f, kPrime in *.
    by rewrite (wrap_small 16), reduce_once_spec by (unfold kPrime; lia). }
  split.
  - apply (reduced_loop f); [done|]. intros x _. rewrite E. apply mod_range.
  - intros x Hx. destruct (coefficient_loop f a Ha) as [_ Hat].
    assert (at_ (scalar_add a b) x = _) as -> by exact (Hat x Hx). rewrite E. apply mod_cong.
Qed.

Lemma scalar_sub_spec a b : reduced a -> reduced b ->
  reduced (scalar_sub a b) /\ at_ (scalar_sub a b) ≈ csub (at_ a) (at_ b).
Proof.
  intros [Ha Hra] [Hb Hrb]. set (f := fun i x => reduce_once (u16 (x - at_ b i + kPrime))).
  assert (E : forall x, f x (at_ a x) = (at_ a x - at_ b x) mod kPrime).
  { intros x. specialize (Hra x). specialize (Hrb x). unfold f, kPrime in *.
    rewrite (wrap_small 16), reduce_once_spec by (unfold kPrime; lia). unfold kPrime.
    replace (at_ a x - at_ b x + 3329) with (at_ a x - at_ b x + 1 * 3329) by lia. apply Z.mod_add. lia. }
  split.
  - apply (reduced_loop f); [done|]. intros x _. rewrite E. apply mod_range.
  - intros x Hx. destruct (coefficient_loop f a Ha) as [_ Hat].
    assert (at_ (scalar_sub a b) x = _) as -> by exact (Hat x Hx). rewrite E. apply mod_cong.
Qed.

(** A loop that writes the pairs of coefficients. *)
Lemma pair_loop (f g : Z -> Z) n c : 2 * Z.of_nat n <= len c ->
  let c' := fold_left (fun c i => set_ (2 * i + 1) (g i) (set_ (2 * i) (f i) c)) (indices n) c in
  len c' = len c /\ forall x, 0 <= x -> at_ c' x =
    if x <? 2 * Z.of_nat n then (if x mod 2 =? 0 then f (x / 2) else g (x / 2)) else at_ c x.
Proof.
  induction n as [|n IH]; intros Hn c'.
  - split; [done|]. intros x Hx. destruct (Z.ltb_spec x (2 * Z.of_nat 0)); [lia|done].
  - subst c'. rewrite indices_S, fold_left_app. cbn [fold_left]. set (B := fold_left _ (indices n) c) in *.
    destruct IH as [Hl Hat]; [lia|]. rewrite !len_set. split; [done|]. intros x Hx.
    rewrite !at_set by (rewrite ?len_set; lia). rewrite Hat by lia.
    destruct (pair_div (Z.of_nat n)) as (E1 & E2 & E3 & E4).
    destruct (Z.eqb_spec (2 * Z.of_nat n + 1) x) as [<-|]; [rewrite E3, E4; by zcut|].
    destruct (Z.eqb_spec (2 * Z.of_nat n) x) as [<-|]; [rewrite E1, E2; by zcut|]. by zcut.
Qed.

Lemma small_product x y : 0 <= x < kPrime -> 0 <= y < kPrime -> 0 <= x * y <= 3328 * 3328.
Proof. unfold kPrime. nia. Qed.

Lemma scalar_mult_spec out a b : len out = 256 -> reduced a -> reduced b ->
  reduced (scalar_mult out a b) /\ at_ (scalar_mult out a b) ≈ cmul (at_ a) (at_ b).
Proof.
  intros Ho [Ha Hra] [Hb Hrb].
  set (f := fun i => reduce (u32 (u32 (at_ a (2 * i) * at_ b (2 * i))
                                  + u32 (reduce (u32 (at_ a (2 * i + 1) * at_ b (2 * i + 1))) * at_ kModRoots i)))).
  set (g := fun i => reduce (u32 (u32 (at_ a (2 * i + 1) * at_ b (2 * i)) + u32 (at_ a (2 * i) * at_ b (2 * i + 1))))).
  assert (Hf : forall i, f i = (at_ a (2 * i) * at_ b (2 * i)
      + (at_ a (2 * i + 1) * at_ b (2 * i + 1)) mod kPrime * at_ kModRoots i) mod kPrime).
  { intros i. pose proof (small_product _ _ (Hra (2 * i)) (Hrb (2 * i))).
    pose proof (small_product _ _ (Hra (2 * i + 1)) (Hrb (2 * i + 1))).
    pose proof (small_product _ _ (mod_range (at_ a (2 * i + 1) * at_ b (2 * i + 1))) (small_at _ i kModRoots_small)).
    unfold f. rewrite (wrap_small 32 (at_ a (2 * i) * _)), (wrap_small 32 (at_ a (2 * i + 1) * _)) by lia.
    rewrite (reduce_spec (at_ a (2 * i + 1) * _)) by (unfold kPrime; lia).
    by rewrite (wrap_small 32 (_ mod _ * _)), (wrap_small 32), reduce_spec by (unfold kPrime in *; lia). }
  assert (Hg : forall i, g i = (at_ a (2 * i + 1) * at_ b (2 * i) + at_ a (2 * i) * at_ b (2 * i + 1)) mod kPrime).
  { intros i. pose proof (small_product _ _ (Hra (2 * i + 1)) (Hrb (2 * i))).
    pose proof (small_product _ _ (Hra (2 * i)) (Hrb (2 * i + 1))). unfold g.
    rewrite (wrap_small 32 (at_ a (2 * i) * _)), (wrap_small 32 (at_ a (2 * i + 1) * _)) by lia.
    by rewrite (wrap_small 32), reduce_spec by (unfold kPrime; lia). }
  assert (Hn : Z.of_nat (Z.to_nat (DEGREE /c 2)) = 128) by done.
  destruct (pair_loop f g (Z.to_nat (DEGREE /c 2)) out) as [Hl Hat]; [lia|]. rewrite Hn in Hat.
  change (fold_left _ _ out) with (scalar_mult out a b) in Hl, Hat.
  assert (E : forall x, 0 <= x < 256 -> at_ (scalar_mult out a b) x = if x mod 2 =? 0 then f (x / 2) else g (x / 2)).
  { intros x Hx. rewrite Hat by lia. destruct (Z.ltb_spec x (2 * 128)); [done|lia]. }
  split.
  - apply reduced_Forall. split; [lia|]. apply Forall_at. intros i Hi. rewrite E by lia.
    destruct (_ =? 0); [rewrite Hf|rewrite Hg]; apply mod_range.
  - intros x Hx. rewrite E by done. unfold cmul. destruct (x mod 2 =? 0).
    + rewrite Hf, !mod_cong. exists 0. lia.
    + rewrite Hg, mod_cong. exists 0. lia.
Qed.

(** ** The transform is multiplicative *)

Lemma kModRoots_order b : 0 <= b < 128 -> at_ kModRoots b ^ 128 ≡ₘ -1.
Proof.
  intros Hb. apply cong_mod. table_check (forall_from (fun b => at_ kModRoots b ^ 128 mod kPrime =? -1 mod kPrime) 0 128).
Qed.

(** A product modulo X^256 + 1 under weights that change sign after 256 steps. *)
Lemma negacyclic_row u g i : 0 <= i < 256 -> (forall k, 0 <= k -> u (k + 256) ≡ₘ - u k) ->
  zsum 256 (fun k => u k * (if i <=? k then g (k - i) else - g (256 + k - i))) ≡ₘ zsum 256 (fun j => u (i + j) * g j).
Proof.
  intros Hi Hu. assert (Hn : (256 = Z.to_nat i + (256 - Z.to_nat i))%nat) by lia.
  rewrite Hn at 1. rewrite zsum_app. replace 256%nat with ((256 - Z.to_nat i) + Z.to_nat i)%nat at 2 by lia.
  rewrite zsum_app, Z.add_comm. apply cong_add; apply zsum_cong; intros t Ht.
  - rewrite Z2Nat.id by lia. destruct (Z.leb_spec i (i + t)); [|lia]. replace (i + t - i) with t by lia. done.
  - destruct (Z.leb_spec i t); [lia|].
    replace (i + (Z.of_nat (256 - Z.to_nat i) + t)) with (t + 256) by lia.
    replace (Z.of_nat (256 - Z.to_nat i) + t) with (256 + t - i) by lia. rewrite Hu by lia. exists 0. lia.
Qed.

Lemma negacyclic_sum u f g : (forall k, 0 <= k -> u (k + 256) ≡ₘ - u k) ->
  zsum 256 (fun k => u k * negacyclic f g k) ≡ₘ zsum 256 (fun i => f i * zsum 256 (fun j => u (i + j) * g j)).
Proof.
  intros Hu.
  transitivity (zsum 256 (fun i => f i * zsum 256 (fun k => u k * (if i <=? k then g (k - i) else - g (256 + k - i))))).
  - unfold negacyclic.
    rewrite (zsum_ext 256 _ (fun k => zsum 256 (fun i => f i * (u k * (if i <=? k then g (k - i) else - g (256 + k - i)))))).
    2:{ intros k Hk. rewrite <- zsum_scale. apply zsum_ext. intros i Hi. lia. }
    rewrite zsum_swap. erewrite zsum_ext; [reflexivity|]. intros i Hi. apply zsum_scale.
  - apply zsum_cong. intros i Hi. by rewrite (negacyclic_row u g i) by (done || lia).
Qed.

(** X^k modulo X^2 - w is [even_part w k + odd_part w k X]. *)
Definition even_part (w k : Z) : Z := if k mod 2 =? 0 then w ^ (k / 2) else 0.
Definition odd_part (w k : Z) : Z := if k mod 2 =? 0 then 0 else w ^ (k / 2).

Lemma parts_sign w : w ^ 128 ≡ₘ -1 -> forall k, 0 <= k ->
  even_part w (k + 256) ≡ₘ - even_part w k /\ odd_part w (k + 256) ≡ₘ - odd_part w k.
Proof.
  intros Hw k Hk. unfold even_part, odd_part. change 256 with (128 * 2). rewrite Z.mod_add, Z.div_add by lia.
  assert (0 <= k / 2) by (apply Z.div_pos; lia). rewrite Z.pow_add_r by lia.
  destruct (k mod 2 =? 0); (split; [try (exists 0; lia)|try (exists 0; lia)]); rewrite Hw; exists 0; lia.
Qed.

Lemma parts_double w a :
  even_part w (2 * a) = w ^ a /\ odd_part w (2 * a) = 0 /\ even_part w (2 * a + 1) = 0 /\ odd_part w (2 * a + 1) = w ^ a.
Proof. unfold even_part, odd_part. by destruct (pair_div a) as (-> & -> & -> & ->). Qed.

Lemma parity i : 0 <= i -> exists a, 0 <= a /\ (i = 2 * a \/ i = 2 * a + 1).
Proof.
  intros Hi. exists (i / 2). pose proof (Z.div_mod i 2 ltac:(lia)). pose proof (Z.mod_pos_bound i 2 ltac:(lia)). lia.
Qed.

Lemma parts_mul w i j : 0 <= i -> 0 <= j ->
  even_part w (i + j) = even_part w i * even_part w j + w * (odd_part w i * odd_part w j) /\
  odd_part w (i + j) = even_part w i * odd_part w j + odd_part w i * even_part w j.
Proof.
  intros Hi Hj. destruct (parity i Hi) as (a & Ha & Ci), (parity j Hj) as (b & Hb & Cj).
  destruct (parts_double w a) as (A0 & A1 & A2 & A3), (parts_double w b) as (B0 & B1 & B2 & B3).
  destruct (parts_double w (a + b)) as (S0 & S1 & S2 & S3).
  destruct Ci as [-> | ->], Cj as [-> | ->]; rewrite ?A0, ?A1, ?A2, ?A3, ?B0, ?B1, ?B2, ?B3.
  - replace (2 * a + 2 * b) with (2 * (a + b)) by lia. rewrite S0, S1, Z.pow_add_r by lia. lia.
  - replace (2 * a + (2 * b + 1)) with (2 * (a + b) + 1) by lia. rewrite S2, S3, Z.pow_add_r by lia. lia.
  - replace (2 * a + 1 + 2 * b) with (2 * (a + b) + 1) by lia. rewrite S2, S3, Z.pow_add_r by lia. lia.
  - replace (2 * a + 1 + (2 * b + 1)) with (2 * (a + b + 1)) by lia.
    destruct (parts_double w (a + b + 1)) as (-> & -> & _). rewrite !Z.pow_add_r, Z.pow_1_r by lia. lia.
Qed.

Lemma remainder_parts w f :
  remainder 128 2 w f 0 = zsum 256 (fun k => even_part w k * f k) /\
  remainder 128 2 w f 1 = zsum 256 (fun k => odd_part w k * f k).
Proof.
  unfold remainder. change 256%nat with (2 * 128)%nat. rewrite !zsum_pairs. unfold even_part, odd_part. split.
  - rewrite (zsum_zero 128 (fun t => _ * f (2 * t + 1))), Z.add_0_r.
    + apply zsum_ext. intros t Ht. destruct (pair_div t) as (-> & -> & _). by rewrite Z.add_0_l.
    + intros t Ht. by destruct (pair_div t) as (_ & _ & _ & ->).
  - rewrite (zsum_zero 128 (fun t => _ * f (2 * t))), Z.add_0_l.
    + apply zsum_ext. intros t Ht. destruct (pair_div t) as (_ & _ & -> & ->). by rewrite Z.add_comm.
    + intros t Ht. by destruct (pair_div t) as (_ & -> & _).
Qed.

(** A double sum of a product of weights. *)
Lemma zsum_product n u v f g :
  zsum n (fun i => f i * zsum n (fun j => u i * v j * g j)) = zsum n (fun i => u i * f i) * zsum n (fun j => v j * g j).
Proof.
  rewrite Z.mul_comm, <- zsum_scale. apply zsum_ext. intros i Hi.
  rewrite (zsum_ext n (fun j => u i * v j * g j) (fun j => u i * (v j * g j))) by (intros; lia). rewrite zsum_scale. lia.
Qed.

Lemma ntt_negacyclic f g : ntt (negacyclic f g) ≈ cmul (ntt f) (ntt g).
Proof.
  intros x Hx. destruct (pair_index x Hx) as (_ & _ & Hb & _ & Hm). unfold cmul, ntt.
  destruct (pair_div (x / 2)) as (-> & -> & -> & ->). set (w := at_ kModRoots (x / 2)).
  pose proof (parts_sign w (kModRoots_order _ Hb)) as Hsign.
  destruct (remainder_parts w f) as [-> ->]. destruct (remainder_parts w g) as [-> ->].
  destruct (remainder_parts w (negacyclic f g)) as [E0 E1].
  destruct (Z.eqb_spec (x mod 2) 0) as [->|Hne].
  - rewrite E0, negacyclic_sum by (intros; by apply Hsign). rewrite <- !zsum_product, <- zsum_scale, <- zsum_add.
    apply zsum_cong. intros i Hi.
    assert (zsum 256 (fun j => even_part w (i + j) * g j) = zsum 256 (fun j => even_part w i * even_part w j * g j)
            + w * zsum 256 (fun j => odd_part w i * odd_part w j * g j)) as ->; [|exists 0; lia].
    rewrite <- zsum_scale, <- zsum_add. apply zsum_ext. intros j Hj. destruct (parts_mul w i j) as [-> _]; lia.
  - replace (x mod 2) with 1 by lia. rewrite E1, negacyclic_sum by (intros; by apply Hsign).
    rewrite <- !zsum_product, <- zsum_add. apply zsum_cong. intros i Hi.
    assert (zsum 256 (fun j => odd_part w (i + j) * g j) = zsum 256 (fun j => even_part w i * odd_part w j * g j)
            + zsum 256 (fun j => odd_part w i * even_part w j * g j)) as ->; [|exists 0; lia].
    rewrite <- zsum_add. apply zsum_ext. intros j Hj. destruct (parts_mul w i j) as [_ ->]; lia.
Qed.
