(* ===== verification/KyberCodec.v ===== *)
(** The encodings of Kyber: scalar_encode packs coefficients into bits, scalar_decode unpacks them
    and refuses values that are not reduced, and compress and decompress round. *)
From S2P Require Import Prelude.
From S2P Require Import Internal.
From S2P Require Import Arrays.
From S2P Require Import Heap.
From S2P Require Import Keccak.
From S2P Require Import Kyber.
From S2P Require Import KyberNtt.

Open Scope Z_scope.

(** ** Packing *)

Fixpoint pack (bits : Z) (c : list Z) : Z :=
  match c with [] => 0 | x :: c => x + 2 ^ bits * pack bits c end.

Fixpoint unpack (bits : Z) (n : nat) (v : Z) : list Z :=
  match n with O => [] | S n => v mod 2 ^ bits :: unpack bits n (v / 2 ^ bits) end.

Definition fits (bits : Z) (c : list Z) : Prop := Forall (fun x => 0 <= x < 2 ^ bits) c.

Lemma unpack_pack bits c : 0 <= bits -> fits bits c -> unpack bits (length c) (pack bits c) = c.
Proof.
  intros Hb H. induction H as [|x c Hx Hc IH]; [done|]. cbn [pack unpack length].
  rewrite (Z.mul_comm (2 ^ bits)). rewrite Z.mod_add, Z.div_add, Z.mod_small, Z.div_small, Z.add_0_l by lia. by rewrite IH.
Qed.

Lemma pack_unpack bits n v : 0 <= bits -> pack bits (unpack bits n v) = v mod 2 ^ (bits * Z.of_nat n).
Proof.
  intros Hb. revert v. induction n as [|n IH]; intros v; cbn [pack unpack].
  - rewrite Z.mul_0_r, Z.pow_0_r, Z.mod_1_r. done.
  - rewrite IH. replace (bits * Z.of_nat (S n)) with (bits + bits * Z.of_nat n) by lia.
    rewrite Z.pow_add_r, (Z.rem_mul_r v) by lia. lia.
Qed.

Lemma fits_unpack bits n v : 0 <= bits -> fits bits (unpack bits n v).
Proof.
  intros Hb. revert v. induction n as [|n IH]; intros v; [apply List.Forall_nil|]. apply List.Forall_cons; [|apply IH].
  apply Z.mod_pos_bound. lia.
Qed.

Lemma length_unpack bits n v : length (unpack bits n v) = n.
Proof. revert v. induction n as [|n IH]; intros v; [done|]. simpl. by rewrite IH. Qed.

Lemma pack_range bits c : 0 <= bits -> fits bits c -> 0 <= pack bits c < 2 ^ (bits * len c).
Proof.
  intros Hb H. induction H as [|x c Hx Hc IH]; [change (0 <= 0 < 2 ^ (bits * 0)); rewrite Z.mul_0_r; lia|]. cbn [pack]. rewrite len_cons.
  replace (bits * (len c + 1)) with (bits + bits * len c) by lia. rewrite Z.pow_add_r by (pose proof (len_nonneg c); lia). nia.
Qed.

Lemma kMasks_ones k : 1 <= k <= 8 -> at_ kMasks (k - 1) = Z.ones k.
Proof. intros. table_check (forall_from (fun k => at_ kMasks (k - 1) =? Z.ones k) 1 8). Qed.

(** ** The encoder *)

Definition enc_bits (e : encoder) : Z := 8 * len (enc_out e) + out_byte_bits e.
Definition enc_val (e : encoder) : Z := le_val (enc_out e) + 256 ^ len (enc_out e) * out_byte e.
Definition enc_ok (e : encoder) : Prop :=
  bytes (enc_out e) /\ 0 <= out_byte e < 2 ^ out_byte_bits e /\ 0 <= out_byte_bits e < 8.

Lemma pow256 n : 0 <= n -> 256 ^ n = 2 ^ (8 * n).
Proof. intros. rewrite Z.pow_mul_r by lia. done. Qed.

(** A chunk added above the bits of [out_byte]. *)
Lemma chunk_byte o ob element k : 0 <= o < 2 ^ ob -> 0 <= ob -> 1 <= k -> ob + k <= 8 ->
  u8 (Z.lor o (Z.shiftl (Z.land element (at_ kMasks (k - 1))) ob)) = o + element mod 2 ^ k * 2 ^ ob /\
  0 <= o + element mod 2 ^ k * 2 ^ ob < 2 ^ (ob + k).
Proof.
  intros Ho Hob Hk Hs. rewrite kMasks_ones, Z.land_ones, lor_add_shiftl by lia.
  pose proof (Z.mod_pos_bound element (2 ^ k) ltac:(lia)). rewrite Z.pow_add_r by lia.
  assert (2 ^ ob * 2 ^ k <= 2 ^ 8) by (rewrite <- Z.pow_add_r by lia; apply Z.pow_le_mono_r; lia).
  rewrite wrap_small by nia. split; [lia|nia].
Qed.

Lemma encode_element_spec fuel bits e element done :
  enc_ok e -> done <= bits -> bits - done <= Z.of_nat fuel ->
  let e' := encode_element fuel bits e element done in
  enc_ok e' /\ enc_bits e' = enc_bits e + (bits - done) /\
  enc_val e' = enc_val e + 2 ^ enc_bits e * (element mod 2 ^ (bits - done)).
Proof.
  revert e element done. induction fuel as [|fuel IH]; intros e element done Hok Hdb Hf; cbn [encode_element].
  { replace (bits - done) with 0 by lia. rewrite Z.pow_0_r, Z.mod_1_r. split; [done|lia]. }
  destruct (Z.ltb_spec done bits) as [Hlt|Hge].
  2:{ replace (bits - done) with 0 by lia. rewrite Z.pow_0_r, Z.mod_1_r. split; [done|lia]. }
  destruct Hok as (Hb & Ho & Hob). set (ob := out_byte_bits e) in *. set (o := out_byte e) in *. set (out := enc_out e) in *.
  assert (Hchunk : exists k e1, 1 <= k <= bits - done /\ enc_ok e1 /\ enc_bits e1 = enc_bits e + k /\
     enc_val e1 = enc_val e + 2 ^ enc_bits e * (element mod 2 ^ k) /\
     (if 8 - ob <=? bits - done
      then (mk_encoder (out ++ [u8 (Z.lor o (Z.shiftl (Z.land element (at_ kMasks (8 - ob - 1))) ob))]) 0 0, 8 - ob)
      else (mk_encoder out (u8 (Z.lor o (Z.shiftl (Z.land element (at_ kMasks (bits - done - 1))) ob))) (ob + (bits - done)),
            bits - done)) = (e1, k)).
  { pose proof (len_nonneg out) as Hlo. unfold enc_bits, enc_val. fold o ob out.
    assert (Hp : 2 ^ (8 * len out + ob) = 256 ^ len out * 2 ^ ob) by (rewrite Z.pow_add_r, pow256; lia).
    destruct (Z.leb_spec (8 - ob) (bits - done)) as [Hc|Hc].
    - destruct (chunk_byte o ob element (8 - ob) Ho ltac:(lia) ltac:(lia) ltac:(lia)) as [-> Hr].
      exists (8 - ob). eexists. split; [lia|]. split; [|split; [|split; [|reflexivity]]]; cbn [enc_out out_byte out_byte_bits].
      + unfold enc_ok. cbn [enc_out out_byte out_byte_bits]. split; [|lia]. apply bytes_app. split; [done|].
        apply List.Forall_cons; [|apply List.Forall_nil]. replace (ob + (8 - ob)) with 8 in Hr by lia. done.
      + rewrite len_app, len_cons, len_nil. lia.
      + rewrite le_val_app, Hp. cbn [le_val]. lia.
    - destruct (chunk_byte o ob element (bits - done) Ho ltac:(lia) ltac:(lia) ltac:(lia)) as [-> Hr].
      exists (bits - done). eexists. split; [lia|]. split; [|split; [|split; [|reflexivity]]]; cbn [enc_out out_byte out_byte_bits].
      + unfold enc_ok. cbn [enc_out out_byte out_byte_bits]. split; [done|]. split; [done|lia].
      + lia.
      + rewrite Hp. lia. }
  destruct Hchunk as (k & e1 & Hk & Hok1 & Hbits1 & Hval1 & ->).
  destruct (IH e1 (Z.shiftr element k) (done + k) Hok1) as (Hok' & Hbits' & Hval'); [lia..|].
  assert (0 <= enc_bits e) by (unfold enc_bits; fold ob out; pose proof (len_nonneg out); lia).
  split; [done|]. split; [lia|]. rewrite Hval', Hval1, Hbits1, Z.shiftr_div_pow2, Z.pow_add_r by lia.
  replace (bits - done) with (k + (bits - (done + k))) by lia. rewrite (Z.pow_add_r 2 k), (Z.rem_mul_r element) by lia. lia.
Qed.

Lemma fold_left_ext {A B} (f g : A -> B -> A) (l : list B) a :
  Forall (fun b => forall a, f a b = g a b) l -> fold_left f l a = fold_left g l a.
Proof. intros H. revert a. induction H as [|b l Hb Hl IH]; intros a; [done|]. cbn [fold_left]. by rewrite Hb, IH. Qed.

Lemma fold_indices {A} (F : A -> Z -> A) (s : list Z) a :
  fold_left (fun a i => F a (at_ s i)) (indices (length s)) a = fold_left F s a.
Proof.
  revert a. induction s as [|x s IH] using rev_ind; intros a; [done|].
  rewrite length_app, Nat.add_1_r, indices_S, !fold_left_app. cbn [fold_left].
  f_equal.
  - rewrite <- IH. apply fold_left_ext. eapply List.Forall_impl; [|apply indices_range]. intros i Hi b. by rewrite at_app_l.
  - rewrite at_app_r, Z.sub_diag by (unfold len; lia). done.
Qed.

Lemma encode_elements_spec bits c e : 0 <= bits -> enc_ok e -> fits bits c ->
  let e' := fold_left (fun e x => encode_element (Z.to_nat bits) bits e x 0) c e in
  enc_ok e' /\ enc_bits e' = enc_bits e + bits * len c /\ enc_val e' = enc_val e + 2 ^ enc_bits e * pack bits c.
Proof.
  intros Hb Hok Hc. revert e Hok. induction Hc as [|x c Hx Hc IH]; intros e Hok; cbn [fold_left pack].
  - change (len []) with 0. split; [done|lia].
  - destruct (encode_element_spec (Z.to_nat bits) bits e x 0 Hok) as (Hok1 & Hb1 & Hv1); [lia..|].
    destruct (IH _ Hok1) as (Hok2 & Hb2 & Hv2). rewrite Z.sub_0_r in *. rewrite len_cons.
    split; [done|]. split; [lia|]. rewrite Hv2, Hv1, Hb1, (Z.mod_small x) by lia.
    assert (0 <= enc_bits e) by (destruct Hok as (_ & _ & ?); unfold enc_bits; pose proof (len_nonneg (enc_out e)); lia).
    rewrite Z.pow_add_r by lia. lia.
Qed.

(** scalar_encode packs 256 coefficients of [bits] bits into [32 * bits] bytes. *)
Lemma scalar_encode_spec bits c : 0 <= bits -> len c = 256 -> fits bits c ->
  scalar_encode c bits = le_bytes (Z.to_nat (32 * bits)) (pack bits c).
Proof.
  intros Hb Hl Hc. assert (Hn : Z.to_nat DEGREE = length c) by (unfold len in Hl; unfold DEGREE; lia).
  unfold scalar_encode. rewrite Hn, (fold_indices (fun e x => encode_element (Z.to_nat bits) bits e x 0)).
  destruct (encode_elements_spec bits c (mk_encoder [] 0 0) Hb) as ((Hby & Ho & Hob) & Hbits & Hval); [|done|].
  { split; [apply bytes_nil|]. cbn. lia. }
  set (e := fold_left _ c _) in *. unfold enc_bits, enc_val in *. cbn [enc_out out_byte out_byte_bits le_val] in *.
  change (len (@nil Z)) with 0 in Hbits, Hval. rewrite Hl in Hbits. assert (Hz : out_byte_bits e = 0) by lia. rewrite Hz in *.
  change (0 <? 0) with false. cbn iota. assert (out_byte e = 0) by lia.
  rewrite <- (le_bytes_le_val (enc_out e) Hby). f_equal; [unfold len in Hbits; lia|].
  replace (out_byte e) with 0 in Hval by lia. change (2 ^ (8 * 0 + 0)) with 1 in Hval. lia.
Qed.

(** ** The decoder *)

Definition dec_bits (d : decoder) : Z := in_byte_bits_left d + 8 * len (dec_in d).
Definition dec_val (d : decoder) : Z := in_byte d + 2 ^ in_byte_bits_left d * le_val (dec_in d).
Definition dec_ok (d : decoder) : Prop :=
  bytes (dec_in d) /\ 0 <= in_byte d < 2 ^ in_byte_bits_left d /\ 0 <= in_byte_bits_left d <= 8.

(** Fetching the next byte. *)
Lemma dec_fetch d : dec_ok d -> 1 <= dec_bits d ->
  exists d', (if in_byte_bits_left d =? 0
              then match dec_in d with [] => None | b :: inp => Some (mk_decoder inp b 8) end
              else Some d) = Some d' /\
    dec_ok d' /\ dec_bits d' = dec_bits d /\ dec_val d' = dec_val d /\ 1 <= in_byte_bits_left d'.
Proof.
  intros (Hb & Hi & Hl) Hd. destruct (Z.eqb_spec (in_byte_bits_left d) 0) as [E|E].
  2:{ exists d. split; [done|]. split; [done|]. split; [done|]. split; [done|lia]. }
  unfold dec_bits, dec_val in *. rewrite E in *. destruct (dec_in d) as [|b inp]; [change (len []) with 0 in Hd; lia|].
  apply bytes_cons in Hb as [Hb Hin]. eexists. split; [done|]. unfold dec_ok. cbn [dec_in in_byte in_byte_bits_left le_val].
  unfold is_byte in Hb. rewrite len_cons, Z.pow_0_r in *. split; [split; [done|lia]|]. change (2 ^ 8) with 256. lia.
Qed.

(** A chunk placed above the bits of [element]. *)
Lemma chunk_element element done b k : 0 <= element < 2 ^ done -> 0 <= done -> 1 <= k <= 8 -> done + k <= 16 ->
  u16 (Z.lor element (Z.shiftl (Z.land b (at_ kMasks (k - 1))) done)) = element + b mod 2 ^ k * 2 ^ done /\
  0 <= element + b mod 2 ^ k * 2 ^ done < 2 ^ (done + k).
Proof.
  intros He Hd Hk Hs. rewrite kMasks_ones, Z.land_ones, lor_add_shiftl by lia.
  pose proof (Z.mod_pos_bound b (2 ^ k) ltac:(lia)). rewrite Z.pow_add_r by lia.
  assert (2 ^ done * 2 ^ k <= 2 ^ 16) by (rewrite <- Z.pow_add_r by lia; apply Z.pow_le_mono_r; lia).
  rewrite wrap_small by nia. split; [lia|nia].
Qed.

Lemma decode_element_spec fuel bits d element done :
  dec_ok d -> 0 <= done <= bits -> bits <= 16 -> bits - done <= Z.of_nat fuel -> bits - done <= dec_bits d ->
  0 <= element < 2 ^ done ->
  exists d', decode_element fuel bits d element done = Some (element + 2 ^ done * (dec_val d mod 2 ^ (bits - done)), d') /\
    dec_ok d' /\ dec_bits d' = dec_bits d - (bits - done) /\ dec_val d' = dec_val d / 2 ^ (bits - done).
Proof.
  revert d element done. induction fuel as [|fuel IH]; intros d element done Hok Hd Hb16 Hf Hav He; cbn [decode_element].
  { replace (bits - done) with 0 by lia. rewrite Z.pow_0_r, Z.mod_1_r, Z.div_1_r, Z.mul_0_r, Z.add_0_r.
    exists d. split; [done|]. split; [done|lia]. }
  destruct (Z.ltb_spec done bits) as [Hlt|Hge].
  2:{ replace (bits - done) with 0 by lia. rewrite Z.pow_0_r, Z.mod_1_r, Z.div_1_r, Z.mul_0_r, Z.add_0_r.
      exists d. split; [done|]. split; [done|lia]. }
  destruct (dec_fetch d Hok ltac:(lia)) as (d1 & -> & (Hb1 & Hi1 & Hl1) & Ebits & Eval & Hleft). cbn [mbind option_bind].
  set (k := if in_byte_bits_left d1 <? bits - done then in_byte_bits_left d1 else bits - done).
  assert (Hk : 1 <= k <= 8 /\ k <= bits - done /\ k <= in_byte_bits_left d1) by (unfold k; zcut; lia).
  clearbody k. destruct (chunk_element element done (in_byte d1) k) as [-> Hr]; [lia..|].
  set (l := in_byte_bits_left d1) in *. set (b := in_byte d1) in *.
  assert (El : 2 ^ l = 2 ^ k * 2 ^ (l - k)) by (rewrite <- Z.pow_add_r by lia; f_equal; lia).
  assert (Hv : dec_val d mod 2 ^ k = b mod 2 ^ k /\
               dec_val d / 2 ^ k = Z.shiftr b k + 2 ^ (l - k) * le_val (dec_in d1)).
  { rewrite <- Eval. unfold dec_val. fold l b. rewrite El.
    replace (b + 2 ^ k * 2 ^ (l - k) * le_val (dec_in d1)) with (b + 2 ^ (l - k) * le_val (dec_in d1) * 2 ^ k) by lia.
    rewrite Z.mod_add, Z.div_add, Z.shiftr_div_pow2 by lia. done. }
  destruct Hv as [Hm Hdiv].
  destruct (IH (mk_decoder (dec_in d1) (Z.shiftr b k) (l - k)) (element + b mod 2 ^ k * 2 ^ done) (done + k))
    as (d' & -> & Hok' & Hbits' & Hval'); try lia.
  - unfold dec_ok. cbn [dec_in in_byte in_byte_bits_left]. split; [done|]. split; [|lia].
    rewrite Z.shiftr_div_pow2 by lia. split; [apply Z.div_pos; lia|]. apply Z.div_lt_upper_bound; lia.
  - unfold dec_bits in *. cbn [dec_in in_byte in_byte_bits_left] in *. lia.
  - unfold dec_bits, dec_val in Hbits', Hval' |- *. cbn [dec_in in_byte in_byte_bits_left] in *.
    exists d'. replace (bits - done) with (k + (bits - (done + k))) by lia.
    rewrite (Z.pow_add_r 2 k), (Z.rem_mul_r (dec_val d)) by lia. rewrite Hm, Hdiv. split; [|split; [done|split]].
    + do 2 f_equal. unfold dec_val. cbn [dec_in in_byte in_byte_bits_left]. rewrite Z.pow_add_r by lia. lia.
    + unfold dec_bits in *. lia.
    + change (in_byte d + 2 ^ in_byte_bits_left d * le_val (dec_in d)) with (dec_val d).
      rewrite <- Z.div_div, Hdiv by lia. done.
Qed.

Lemma declassify_b2z b : constant_time_declassify_int (b2z b) = b2z b.
Proof. by destruct b. Qed.

Lemma decode_elements_spec n bits d out : dec_ok d -> 0 <= bits <= 16 -> bits * Z.of_nat n <= dec_bits d ->
  decode_elements n bits d out =
  Some (if forallb (fun x => x <? kPrime) (unpack bits n (dec_val d)) then Some (out ++ unpack bits n (dec_val d)) else None).
Proof.
  intros Hok Hb. revert d out Hok. induction n as [|n IH]; intros d out Hok Hav; cbn [decode_elements unpack forallb].
  { by rewrite app_nil_r. }
  destruct (decode_element_spec (Z.to_nat bits) bits d 0 0 Hok) as (d' & -> & Hok' & Hbits' & Hval'); [lia..|].
  rewrite Z.sub_0_r, Z.pow_0_r, Z.mul_1_l, Z.add_0_l in *. cbn [mbind option_bind].
  rewrite declassify_b2z. set (x := dec_val d mod 2 ^ bits). destruct (Z.ltb_spec x kPrime) as [Hx|Hx].
  - destruct (Z.leb_spec kPrime x); [lia|]. cbn [b2z Z.eqb negb andb].
    rewrite IH, Hval', <- app_assoc by (done || lia). done.
  - destruct (Z.leb_spec kPrime x); [|lia]. done.
Qed.

(** scalar_decode reads 256 values of [bits] bits, and returns zero when one of them is not reduced. *)
Lemma scalar_decode_spec bits inp : 0 <= bits <= 16 -> bytes inp -> 32 * bits <= len inp ->
  scalar_decode inp bits =
  Some (if forallb (fun x => x <? kPrime) (unpack bits 256 (le_val inp)) then Some (unpack bits 256 (le_val inp)) else None).
Proof.
  intros Hb Hin Hl. unfold scalar_decode. change (Z.to_nat DEGREE) with 256%nat.
  rewrite decode_elements_spec; unfold dec_val, dec_ok, dec_bits; cbn [dec_in in_byte in_byte_bits_left]; [|split; [done|lia]|done|lia].
  rewrite Z.pow_0_r, Z.mul_1_l, Z.add_0_l. done.
Qed.

(** ** Round trips *)

Lemma unpack_mod bits n v k : 0 <= bits -> unpack bits n (v + 2 ^ (bits * Z.of_nat n) * k) = unpack bits n v.
Proof.
  intros Hb. revert v k. induction n as [|n IH]; intros v k; [done|]. cbn [unpack].
  replace (bits * Z.of_nat (S n)) with (bits + bits * Z.of_nat n) by lia. rewrite Z.pow_add_r by lia.
  replace (2 ^ bits * 2 ^ (bits * Z.of_nat n) * k) with (2 ^ (bits * Z.of_nat n) * k * 2 ^ bits) by lia.
  rewrite Z.mod_add, Z.div_add by lia. by rewrite IH.
Qed.

Lemma length_scalar_encode bits c : 0 <= bits -> len c = 256 -> fits bits c -> len (scalar_encode c bits) = 32 * bits.
Proof. intros Hb Hl Hc. rewrite scalar_encode_spec, len_le_bytes by done. lia. Qed.

Lemma bytes_scalar_encode bits c : 0 <= bits -> len c = 256 -> fits bits c -> bytes (scalar_encode c bits).
Proof. intros. rewrite scalar_encode_spec by done. apply bytes_le_bytes. Qed.

Lemma forallb_small c : Forall (fun x => 0 <= x < kPrime) c -> forallb (fun x => x <? kPrime) c = true.
Proof. intros H. induction H as [|x c Hx Hc IH]; [done|]. cbn [forallb]. rewrite IH, andb_true_r. apply Z.ltb_lt. lia. Qed.

Lemma le_val_scalar_encode bits c rest : 0 <= bits -> len c = 256 -> fits bits c ->
  le_val (scalar_encode c bits ++ rest) = pack bits c + 2 ^ (bits * Z.of_nat 256) * le_val rest.
Proof.
  intros Hb Hl Hc. rewrite le_val_app, length_scalar_encode, scalar_encode_spec, le_val_le_bytes by done.
  rewrite pow256, pow256, Z.mod_small by (try rewrite Z2Nat.id; lia || (pose proof (pack_range bits c Hb Hc); rewrite Hl in *;
    replace (8 * (32 * bits)) with (bits * 256) by lia; lia)).
  do 3 f_equal. lia.
Qed.

Lemma scalar_decode_encode bits c rest : 0 <= bits <= 16 -> reduced c -> fits bits c -> bytes rest ->
  scalar_decode (scalar_encode c bits ++ rest) bits = Some (Some c).
Proof.
  intros Hb Hc Hfit Hr. apply reduced_Forall in Hc as [Hl Hc]. pose proof (len_nonneg rest).
  rewrite scalar_decode_spec.
  - rewrite le_val_scalar_encode, unpack_mod by (done || lia).
    assert (unpack bits 256 (pack bits c) = c) as ->.
    { rewrite <- (unpack_pack bits c) at 2 by (done || lia). f_equal. unfold len in Hl. lia. }
    by rewrite forallb_small.
  - lia.
  - apply bytes_app. split; [apply bytes_scalar_encode; (done || lia)|done].
  - rewrite len_app, length_scalar_encode by (done || lia). lia.
Qed.

Lemma scalar_encode_decode bits inp c : 0 <= bits <= 16 -> bytes inp -> 32 * bits <= len inp ->
  scalar_decode inp bits = Some (Some c) -> reduced c /\ fits bits c /\ scalar_encode c bits = ztake (32 * bits) inp.
Proof.
  intros Hb Hin Hl. rewrite scalar_decode_spec by done. destruct (forallb _ _) eqn:E; [|done]. intros H.
  apply (inj Some), (inj Some) in H as <-.
  assert (Hlen : len (unpack bits 256 (le_val inp)) = 256) by (unfold len; by rewrite length_unpack).
  assert (Hf : fits bits (unpack bits 256 (le_val inp))) by (apply fits_unpack; lia).
  split; [|split; [done|]].
  - apply reduced_Forall. split; [done|]. apply List.Forall_forall. intros x Hx.
    pose proof (proj1 (List.Forall_forall _ _) Hf x Hx) as Hx2. cbn in Hx2.
    rewrite forallb_forall in E. specialize (E x Hx). apply Z.ltb_lt in E. lia.
  - rewrite scalar_encode_spec, pack_unpack by (done || lia).
    rewrite <- (le_bytes_le_val (ztake (32 * bits) inp)) by (by apply bytes_ztake).
    assert (Hlt : len (ztake (32 * bits) inp) = 32 * bits) by (apply len_ztake; lia).
    rewrite <- (ztake_zdrop (32 * bits) inp) at 1. rewrite le_val_app, Hlt, pow256 by lia.
    replace (bits * Z.of_nat 256) with (8 * (32 * bits)) by lia. f_equal; [unfold len in Hlt; lia|].
    rewrite (Z.mul_comm (2 ^ _)), Z.mod_add, Z.mod_small; [done| |lia]. rewrite <- pow256 by lia.
    pose proof (le_val_range _ (bytes_ztake (32 * bits) inp Hin)) as Hv. by rewrite Hlt in Hv.
Qed.

(** ** Compression *)

Section Compression.
Context `{PF : Platform}.

Lemma land_1_mask b : Z.land 1 (word_mask b) = b2z b.
Proof.
  unfold word_mask. destruct b; [|done]. pose proof size_bits_pos. replace (2 ^ size_bits - 1) with (Z.ones size_bits) by (rewrite Z.ones_equiv; lia).
  rewrite Z.land_ones by lia. apply Z.mod_small. cbn [b2z]. platform; lia.
Qed.

(** compress rounds [2^bits / kPrime * x] to the nearest integer, modulo [2^bits]. *)
Lemma compress_spec x bits : 0 <= x < kPrime -> 1 <= bits <= 11 ->
  compress x bits = ((2 * (2 ^ bits * x) + kPrime) / (2 * kPrime)) mod 2 ^ bits.
Proof.
  intros Hx Hb. assert (Hp : 2 <= 2 ^ bits <= 2 ^ 11)
    by (split; [change 2 with (2 ^ 1) at 1|]; apply Z.pow_le_mono_r; lia).
  unfold compress. rewrite Z.shiftl_mul_pow2 by lia. unfold kPrime in Hx.
  rewrite (wrap_small 32 (x * _)), (wrap_small 64) by (unfold kBarrettMultiplier; nia).
  change kBarrettShift with 24. rewrite Z.shiftr_div_pow2 by lia. set (s := x * 2 ^ bits).
  destruct (barrett_quotient s) as [HQ HR]; [unfold kPrime; nia|]. set (Q := s * kBarrettMultiplier / 2 ^ 24) in *.
  assert (Hs : 0 <= s < 2 ^ 23) by nia. unfold kPrime in *.
  rewrite (wrap_small 32 Q), (wrap_small 32 (Q * 3329)), (wrap_small 32 (s - _)) by lia. set (R := s - Q * 3329) in *.
  assert (Hw : is_word R /\ is_word kHalfPrime /\ is_word (3329 + kHalfPrime)).
  { unfold is_word. change kHalfPrime with 1664. platform; lia. }
  destruct Hw as (HwR & Hw1 & Hw2). rewrite !constant_time_lt_w_mask, !land_1_mask by done.
  change kHalfPrime with 1664. set (q' := (2 * _ + 3329) / (2 * 3329)).
  assert (Hq : Q + b2z (1664 <? R) + b2z (3329 + 1664 <? R) = q').
  { subst q'. apply (Z.div_unique _ _ _ (2 * s + 3329 - 2 * 3329 * (Q + b2z (1664 <? R) + b2z (3329 + 1664 <? R)))); [|subst s; lia].
    unfold b2z. zcut; lia. }
  rewrite (wrap_small 32 (b2z (1664 <? R))), (wrap_small 32 (Q + _)) by (unfold b2z; zcut; lia).
  rewrite (wrap_small 32 (b2z _)), (wrap_small 32 (_ + _)), Hq by (unfold b2z; zcut; lia).
  rewrite Z.shiftl_1_l. replace (2 ^ bits - 1) with (Z.ones bits) by (rewrite Z.ones_equiv; lia).
  rewrite Z.land_ones by lia. apply wrap_small. pose proof (Z.mod_pos_bound q' (2 ^ bits) ltac:(lia)). lia.
Qed.

(** decompress rounds [kPrime / 2^bits * x]. *)
Lemma decompress_spec x bits : 0 <= x < 2 ^ bits -> 1 <= bits <= 11 ->
  decompress x bits = (x * kPrime + 2 ^ (bits - 1)) / 2 ^ bits.
Proof.
  intros Hx Hb. assert (Hp : 2 <= 2 ^ bits <= 2 ^ 11)
    by (split; [change 2 with (2 ^ 1) at 1|]; apply Z.pow_le_mono_r; lia).
  assert (Ep : 2 ^ bits = 2 * 2 ^ (bits - 1)) by (rewrite <- Z.pow_succ_r by lia; f_equal; lia).
  unfold decompress, kPrime. rewrite Z.shiftl_1_l, (wrap_small 32 (x * _)), (wrap_small 32 (2 ^ bits)), (wrap_small 32 (_ - 1)) by lia.
  replace (2 ^ bits - 1) with (Z.ones bits) by (rewrite Z.ones_equiv; lia).
  rewrite Z.land_ones, !Z.shiftr_div_pow2 by lia. set (v := x * 3329). assert (Hv : 0 <= v < 2 ^ bits * 3329) by lia.
  pose proof (Z.div_mod v (2 ^ bits) ltac:(lia)) as E. pose proof (Z.mod_pos_bound v (2 ^ bits) ltac:(lia)) as Hr.
  set (r := v mod 2 ^ bits) in *. set (l := v / 2 ^ bits) in *. assert (Hl : 0 <= l < 3329) by nia.
  assert (Hh : r / 2 ^ (bits - 1) = b2z (2 ^ (bits - 1) <=? r)).
  { unfold b2z. destruct (Z.leb_spec (2 ^ (bits - 1)) r); [|apply Z.div_small; lia].
    symmetry. apply (Z.div_unique _ _ _ (r - 2 ^ (bits - 1))); lia. }
  rewrite Hh, (wrap_small 32), wrap_small by (unfold b2z; zcut; lia). unfold b2z.
  destruct (Z.leb_spec (2 ^ (bits - 1)) r).
  - apply (Z.div_unique _ _ _ (r - 2 ^ (bits - 1))); lia.
  - apply (Z.div_unique _ _ _ (r + 2 ^ (bits - 1))); lia.
Qed.

Lemma compress_fits x bits : 0 <= x < kPrime -> 1 <= bits <= 11 -> 0 <= compress x bits < 2 ^ bits.
Proof. intros. rewrite compress_spec by done. apply Z.mod_pos_bound. lia. Qed.

Lemma decompress_small x bits : 0 <= x < 2 ^ bits -> 1 <= bits <= 11 -> 0 <= decompress x bits < kPrime.
Proof.
  intros Hx Hb. rewrite decompress_spec by done. unfold kPrime.
  assert (Hp : 2 ^ bits <= 2 ^ 11) by (apply Z.pow_le_mono_r; lia). change (2 ^ 11) with 2048 in Hp.
  assert (Ep : 2 ^ bits = 2 * 2 ^ (bits - 1)) by (rewrite <- Z.pow_succ_r by lia; f_equal; lia).
  split; [apply Z.div_pos; lia|]. apply Z.div_lt_upper_bound; nia.
Qed.

(** The error of compressing and decompressing, modulo the prime. *)
Lemma compress_error x bits : 0 <= x < kPrime -> 1 <= bits <= 11 ->
  exists e, decompress (compress x bits) bits - x ≡ₘ e /\ 2 ^ bits * Z.abs e <= 2 ^ (bits - 1) + 1664.
Proof.
  intros Hx Hb. pose proof (compress_fits x bits Hx Hb) as Hc. rewrite decompress_spec by done.
  rewrite compress_spec in * by done. unfold kPrime in Hx.
  assert (Ep : 2 ^ bits = 2 * 2 ^ (bits - 1)) by (rewrite <- Z.pow_succ_r by lia; f_equal; lia).
  set (q' := (2 * (2 ^ bits * x) + kPrime) / (2 * kPrime)) in *.
  assert (Hq : 2 * kPrime * q' <= 2 * (2 ^ bits * x) + kPrime < 2 * kPrime * (q' + 1)).
  { pose proof (Z.div_mod (2 * (2 ^ bits * x) + kPrime) (2 * kPrime) ltac:(done)).
    pose proof (Z.mod_pos_bound (2 * (2 ^ bits * x) + kPrime) (2 * kPrime) ltac:(done)). subst q'. lia. }
  unfold kPrime in Hq. assert (Hq2 : 0 <= q' <= 2 ^ bits) by nia.
  assert (C : q' < 2 ^ bits \/ q' = 2 ^ bits) by lia. destruct C as [Hlt| ->].
  - rewrite Z.mod_small by lia. set (D := (q' * kPrime + 2 ^ (bits - 1)) / 2 ^ bits).
    exists (D - x). split; [done|]. unfold kPrime in D.
    pose proof (Z.div_mod (q' * 3329 + 2 ^ (bits - 1)) (2 ^ bits) ltac:(lia)) as E. fold D in E.
    pose proof (Z.mod_pos_bound (q' * 3329 + 2 ^ (bits - 1)) (2 ^ bits) ltac:(lia)).
    set (r := _ mod 2 ^ bits) in *. destruct (Z.abs_spec (D - x)) as [[_ ->]|[_ ->]]; lia.
  - rewrite Z.mod_same, Z.mul_0_l, Z.add_0_l, Z.div_small by lia. exists (3329 - x). split; [exists (-1); unfold kPrime; lia|].
    destruct (Z.abs_spec (3329 - x)) as [[_ ->]|[_ ->]]; lia.
Qed.

Lemma scalar_compress_spec c bits : reduced c -> 1 <= bits <= 11 ->
  len (scalar_compress c bits) = 256 /\ fits bits (scalar_compress c bits) /\
  forall x, 0 <= x < 256 -> at_ (scalar_compress c bits) x = compress (at_ c x) bits.
Proof.
  intros [Hl Hr] Hb. destruct (coefficient_loop (fun _ x => compress x bits) c Hl) as [Hl' Hat].
  assert (Hl2 : len (scalar_compress c bits) = 256) by exact Hl'.
  assert (Hat2 : forall x, 0 <= x < 256 -> at_ (scalar_compress c bits) x = compress (at_ c x) bits) by exact Hat.
  split; [exact Hl2|]. split; [|exact Hat2]. apply Forall_at. rewrite Hl2. intros i Hi.
  rewrite Hat2 by exact Hi. by apply compress_fits.
Qed.

Lemma scalar_decompress_spec c bits : len c = 256 -> fits bits c -> 1 <= bits <= 11 ->
  reduced (scalar_decompress c bits) /\
  forall x, 0 <= x < 256 -> at_ (scalar_decompress c bits) x = decompress (at_ c x) bits.
Proof.
  intros Hl Hf Hb. assert (Hf' : forall x, 0 <= x < 256 -> 0 <= at_ c x < 2 ^ bits)
    by (intros x Hx; apply (proj1 (Forall_at _ c) Hf); lia).
  destruct (coefficient_loop (fun _ x => decompress x bits) c Hl) as [Hl' Hat]. split; [|exact Hat].
  apply (reduced_loop (fun _ x => decompress x bits)); [done|]. intros x Hx. apply decompress_small; [by apply Hf'|done].
Qed.

Lemma fits_reduced bits c : bits <= 11 -> len c = 256 -> fits bits c -> reduced c.
Proof.
  intros Hb Hl Hf. apply reduced_Forall. split; [done|]. eapply List.Forall_impl; [|exact Hf]. intros x Hx. cbn in Hx.
  assert (2 ^ bits <= 2 ^ 11) by (apply Z.pow_le_mono_r; lia). unfold kPrime. lia.
Qed.

End Compression.

(** ** Messages *)

Definition bit_at (m : list Z) (x : Z) : Z := b2z (Z.testbit (at_ m (x / 8)) (x mod 8)).

Lemma land_1_bit b j : 0 <= j -> Z.land (Z.shiftr b j) 1 = b2z (Z.testbit b j).
Proof. intros Hj. change 1 with (Z.ones 1) at 1. rewrite Z.land_ones by lia. rewrite <- Z.bit0_mod, Z.shiftr_spec by lia. by rewrite Z.add_0_l; destruct (Z.testbit b j). Qed.

Lemma decode_1_row n k b (out : list Z) : (k <= 8)%nat -> 0 <= n -> 8 * n + 8 <= len out ->
  exists out', fold_left (fun '(out, in_byte) j => (set_ (8 * n + j) (Z.land in_byte 1) out, Z.shiftr in_byte 1)) (indices k) (out, b)
      = (out', Z.shiftr b (Z.of_nat k)) /\ len out' = len out /\
    forall x, 0 <= x -> at_ out' x = if (8 * n <=? x) && (x <? 8 * n + Z.of_nat k) then b2z (Z.testbit b (x - 8 * n)) else at_ out x.
Proof.
  intros Hk Hn Hl. induction k as [|k IH].
  - exists out. split; [by rewrite Z.shiftr_0_r|]. split; [done|]. intros x Hx. by zcut.
  - destruct IH as (o & E & Hlo & Hat); [lia|]. rewrite indices_S, fold_left_app, E. cbn [fold_left].
    eexists. split; [f_equal; rewrite Z.shiftr_shiftr by lia; f_equal; lia|]. rewrite len_set. split; [done|].
    intros x Hx. rewrite at_set, Hat by lia. destruct (Z.eqb_spec (8 * n + Z.of_nat k) x) as [<-|].
    + rewrite land_1_bit by lia. replace (8 * n + Z.of_nat k - 8 * n) with (Z.of_nat k) by lia. by zcut.
    + by zcut.
Qed.

Lemma decode_1_rows inp n : (n <= 32)%nat ->
  exists out', fold_left (fun out n => fst (fold_left (fun '(out, in_byte) j => (set_ (8 * n + j) (Z.land in_byte 1) out, Z.shiftr in_byte 1))
                   (indices 8) (out, at_ inp n))) (indices n) scalar_zero = out' /\ len out' = 256 /\
    forall x, 0 <= x -> at_ out' x = if x <? 8 * Z.of_nat n then bit_at inp x else at_ scalar_zero x.
Proof.
  intros Hn. induction n as [|n IH].
  - exists scalar_zero. split; [done|]. split; [done|]. intros x Hx. by zcut.
  - destruct IH as (o & E & Hlo & Hat); [lia|]. rewrite (indices_S n), fold_left_app, E. cbn [fold_left].
    destruct (decode_1_row (Z.of_nat n) 8 (at_ inp (Z.of_nat n)) o) as (o' & -> & Hlo' & Hat'); [lia..|].
    cbn [fst]. exists o'. split; [done|]. split; [lia|]. intros x Hx. rewrite Hat', Hat by lia.
    destruct (decide (8 * Z.of_nat n <= x < 8 * Z.of_nat n + 8)).
    + assert (Hd : x / 8 = Z.of_nat n /\ x mod 8 = x - 8 * Z.of_nat n)
        by (split; symmetry; [apply (Z.div_unique _ _ _ (x - 8 * Z.of_nat n))|apply (Z.mod_unique _ _ (Z.of_nat n))]; lia).
      unfold bit_at. destruct Hd as [-> ->]. by zcut.
    + by zcut.
Qed.

Lemma scalar_decode_1_spec inp : len (scalar_decode_1 inp) = 256 /\ fits 1 (scalar_decode_1 inp) /\
  forall x, 0 <= x < 256 -> at_ (scalar_decode_1 inp) x = bit_at inp x.
Proof.
  destruct (decode_1_rows inp 32) as (o & E & Hl & Hat); [lia|]. unfold scalar_decode_1. change (Z.to_nat (DEGREE /c 8)) with 32%nat.
  rewrite E. assert (H : forall x, 0 <= x < 256 -> at_ o x = bit_at inp x) by (intros x Hx; rewrite Hat by lia; by zcut).
  split; [done|]. split; [|done]. apply Forall_at. intros i Hi. rewrite H by lia. unfold bit_at. by destruct (Z.testbit _ _).
Qed.

Lemma byte_of_bits b : is_byte b ->
  fold_left (fun acc j => u8 (Z.lor acc (Z.shiftl (Z.land (b2z (Z.testbit b j)) 1) j))) (indices 8) 0 = b.
Proof.
  intros Hb. apply Z.eqb_eq. revert b Hb.
  assert (E : forall_from (fun b => fold_left (fun acc j => u8 (Z.lor acc (Z.shiftl (Z.land (b2z (Z.testbit b j)) 1) j))) (indices 8) 0 =? b) 0 256 = true)
    by (vm_compute; reflexivity).
  intros b Hb. exact (byte_forallb _ b E Hb).
Qed.

Lemma fold_snoc_map {A} (f : Z -> A) l acc : fold_left (fun acc n => acc ++ [f n]) l acc = acc ++ (f <$> l).
Proof. revert acc. induction l as [|n l IH]; intros acc; cbn; [by rewrite app_nil_r|]. rewrite IH, <- app_assoc. done. Qed.

(** The bits of a message come back. *)
Lemma scalar_encode_1_bits c m : bytes m -> len m = 32 -> (forall x, 0 <= x < 256 -> at_ c x = bit_at m x) -> scalar_encode_1 c = m.
Proof.
  intros Hm Hl Hc. unfold scalar_encode_1. rewrite fold_snoc_map. cbn [app]. change (Z.to_nat (DEGREE /c 8)) with 32%nat.
  apply list_eq_at; [by rewrite len_indices|]. rewrite len_indices. intros n Hn. rewrite at_indices by lia.
  transitivity (fold_left (fun acc j => u8 (Z.lor acc (Z.shiftl (Z.land (b2z (Z.testbit (at_ m n) j)) 1) j))) (indices 8) 0).
  - apply fold_left_ext. eapply List.Forall_impl; [|apply indices_range]. intros j Hj a. cbn beta in Hj. rewrite Hc by lia. unfold bit_at.
    replace ((8 * n + j) / 8) with n by (apply (Z.div_unique _ _ _ j); lia).
    replace ((8 * n + j) mod 8) with j by (apply (Z.mod_unique _ _ n); lia). done.
  - apply byte_of_bits. apply (proj1 (Forall_at _ m) Hm). lia.
Qed.
