(* ===== verification/KyberSample.v ===== *)
(** Sampling and vectors in Kyber: the centered binomial distribution and the rejection sampling
    read the bits of the Keccak output that the specification names, and the loops over the three
    elements of a vector are what they say. *)
From S2P Require Import Prelude.
From S2P Require Import Internal.
From S2P Require Import Arrays.
From S2P Require Import Heap.
From S2P Require Import Md32.
From S2P Require Import Keccak.
From S2P Require Import KeccakProofs.
From S2P Require Import Kyber.
From S2P Require Import KyberNtt.
From S2P Require Import KyberRing.
From S2P Require Import KyberCodec.

Open Scope Z_scope.

(** ** The binomial distribution *)

(** Algorithm 2 of the specification: coefficient [i] is the difference of two pairs of bits. *)
Definition cbd (entropy : list Z) (i : Z) : Z :=
  bit_at entropy (4 * i) + bit_at entropy (4 * i + 1) - (bit_at entropy (4 * i + 2) + bit_at entropy (4 * i + 3)).

(** The scalar sampled from [seed] and the counter [n]. *)
Definition sample (seed : list Z) (n : Z) : scalar :=
  (fun i => cbd (keccak_hash boringssl_shake256 (ztake 32 seed ++ [n]) 128) i mod kPrime) <$> indices 256.
Definition sample_vector (seed : list Z) (n : Z) : vector := [sample seed n; sample seed (n + 1); sample seed (n + 2)].

Lemma binomial_spec b : 0 <= b < 256 ->
  binomial b = (b2z (Z.testbit b 0) + b2z (Z.testbit b 1) - (b2z (Z.testbit b 2) + b2z (Z.testbit b 3))) mod kPrime.
Proof.
  intros Hb. table_check (forall_from (fun b => binomial b =?
    (b2z (Z.testbit b 0) + b2z (Z.testbit b 1) - (b2z (Z.testbit b 2) + b2z (Z.testbit b 3))) mod kPrime) 0 256).
Qed.

Lemma bit_at_byte m b j : 0 <= j < 8 -> bit_at m (8 * b + j) = b2z (Z.testbit (at_ m b) j).
Proof.
  intros Hj. unfold bit_at. replace ((8 * b + j) / 8) with b by (apply (Z.div_unique _ _ _ j); lia).
  by replace ((8 * b + j) mod 8) with j by (apply (Z.mod_unique _ _ b); lia).
Qed.

Lemma b2z_range b : 0 <= b2z b <= 1.
Proof. by destruct b. Qed.

Lemma cbd_range m i : -2 <= cbd m i <= 2.
Proof. unfold cbd, bit_at. repeat match goal with |- context [b2z ?b] => pose proof (b2z_range b); generalize dependent (b2z b) end. lia. Qed.

Lemma reduced_indices (f : Z -> Z) : (forall i, 0 <= i < 256 -> 0 <= f i < kPrime) -> reduced (f <$> indices 256).
Proof.
  intros H. apply reduced_Forall. split; [apply len_indices|]. apply Forall_at. rewrite len_indices. intros i Hi.
  rewrite at_indices by done. apply H. lia.
Qed.

Lemma sample_reduced seed n : reduced (sample seed n).
Proof. apply reduced_indices. intros. apply mod_range. Qed.

Lemma sample_at seed n i : 0 <= i < 256 ->
  at_ (sample seed n) i ≡ₘ cbd (keccak_hash boringssl_shake256 (ztake 32 seed ++ [n]) 128) i.
Proof.
  intros Hi. unfold sample. rewrite (at_indices (fun i => cbd _ i mod kPrime)) by lia. apply mod_cong.
Qed.

Lemma prf_spec d inp : bytes inp -> 0 <= d -> prf d inp = Some (keccak_hash boringssl_shake256 inp d).
Proof. intros Hi Hd. unfold prf. by rewrite keccak_oneshot. Qed.

Lemma binomial_pairs entropy : bytes entropy ->
  fold_left (fun out n => set_ (2 * n + 1) (binomial (Z.shiftr (at_ entropy (2 * n /c 2)) 4)) (set_ (2 * n) (binomial (at_ entropy (2 * n /c 2))) out))
    (indices 128) scalar_zero = (fun i => cbd entropy i mod kPrime) <$> indices 256.
Proof.
  intros He. destruct (pair_loop (fun n => binomial (at_ entropy (2 * n /c 2))) (fun n => binomial (Z.shiftr (at_ entropy (2 * n /c 2)) 4)) 128 scalar_zero)
    as [Hl Hat]; [done|].
  apply list_eq_at; [by rewrite len_indices|]. rewrite Hl. change (len scalar_zero) with 256. intros x Hx. rewrite Hat by lia.
  rewrite (at_indices (fun i => cbd entropy i mod kPrime)) by lia. destruct (Z.ltb_spec x (2 * Z.of_nat 128)); [|lia].
  destruct (pair_index x Hx) as (_ & _ & Hb & E & Hm). set (b := x / 2) in *.
  assert (2 * b /c 2 = b) as -> by (rewrite Z.quot_div_nonneg by lia; rewrite Z.mul_comm; apply Z.div_mul; lia).
  pose proof (at_byte entropy b He) as Hbyte. unfold is_byte in Hbyte. unfold cbd.
  destruct (Z.eqb_spec (x mod 2) 0) as [H0|H1].
  - rewrite binomial_spec by done. replace (4 * x) with (8 * b + 0) by lia.
    rewrite <- !Z.add_assoc. rewrite !bit_at_byte by lia. done.
  - assert (Hs : 0 <= Z.shiftr (at_ entropy b) 4 < 256).
    { rewrite Z.shiftr_div_pow2 by lia. split; [apply Z.div_pos; lia|apply Z.div_lt_upper_bound; lia]. }
    rewrite binomial_spec, !Z.shiftr_spec by lia. replace (4 * x) with (8 * b + 4) by lia.
    rewrite <- !Z.add_assoc. rewrite !bit_at_byte by lia. done.
Qed.

Lemma cbd_with_prf seed n : bytes seed -> is_byte n ->
  scalar_centered_binomial_distribution_eta_2_with_prf (ztake 32 seed ++ [n]) = Some (sample seed n).
Proof.
  intros Hs Hn. assert (Hi : bytes (ztake 32 seed ++ [n])) by (apply bytes_app; split; [by apply bytes_ztake|by apply bytes_one]).
  unfold scalar_centered_binomial_distribution_eta_2_with_prf. rewrite prf_spec by (done || lia). cbn [mbind option_bind].
  f_equal. exact (binomial_pairs _ (bytes_keccak_hash _ _ _)).
Qed.

Lemma generate_secret_spec counter seed : bytes seed -> 0 <= counter <= 8 ->
  vector_generate_secret_eta_2 counter seed = Some (sample_vector seed counter, counter + 3).
Proof.
  intros Hs Hc. unfold vector_generate_secret_eta_2. change (indices (Z.to_nat RANK)) with [0; 1; 2].
  cbn [fold_left mbind option_bind]. rewrite cbd_with_prf by (done || (unfold is_byte; lia)). cbn [mbind option_bind].
  rewrite (wrap_small 8 (counter + 1)) by lia. rewrite cbd_with_prf by (done || (unfold is_byte; lia)). cbn [mbind option_bind].
  rewrite !(wrap_small 8 (counter + 1 + 1)) by lia. replace (counter + 1 + 1) with (counter + 2) by lia.
  rewrite cbd_with_prf by (done || (unfold is_byte; lia)). cbn [mbind option_bind].
  rewrite (wrap_small 8) by lia. do 2 f_equal. lia.
Qed.

(** ** Vectors *)

Definition reduced3 (a : vector) : Prop := exists x y z, a = [x; y; z] /\ reduced x /\ reduced y /\ reduced z.

Lemma sample_vector_reduced seed n : reduced3 (sample_vector seed n).
Proof. do 3 eexists. split; [done|]. split; [|split]; apply sample_reduced. Qed.

Lemma vector_ntt_3 x y z : vector_ntt [x; y; z] = [scalar_ntt x; scalar_ntt y; scalar_ntt z].
Proof. reflexivity. Qed.
Lemma vector_inverse_ntt_3 x y z : vector_inverse_ntt [x; y; z] = [scalar_inverse_ntt x; scalar_inverse_ntt y; scalar_inverse_ntt z].
Proof. reflexivity. Qed.
Lemma vector_add_3 x y z x' y' z' : vector_add [x; y; z] [x'; y'; z'] = [scalar_add x x'; scalar_add y y'; scalar_add z z'].
Proof. reflexivity. Qed.
Lemma vector_compress_3 `{Platform} x y z d : vector_compress [x; y; z] d = [scalar_compress x d; scalar_compress y d; scalar_compress z d].
Proof. reflexivity. Qed.
Lemma vector_decompress_3 `{Platform} x y z d : vector_decompress [x; y; z] d = [scalar_decompress x d; scalar_decompress y d; scalar_decompress z d].
Proof. reflexivity. Qed.

(** ** Rejection sampling *)

(** Algorithm 1 of the specification: every three bytes give two candidates of twelve bits, and the
    candidates below the prime are the coefficients. *)
Definition candidates (m : list Z) : list Z :=
  concat ((fun k => [at_ m (3 * k) + 256 * (at_ m (3 * k + 1) mod 16);
                     at_ m (3 * k + 1) / 16 + 16 * at_ m (3 * k + 2)]) <$> indices (Z.to_nat (len m / 3))).
Definition accepted (m : list Z) : list Z := List.filter (fun d => d <? kPrime) (candidates m).

(** The coefficients written so far: the first 256 accepted ones. *)
Definition sampled (A : list Z) (acc : scalar * Z) : Prop :=
  len (fst acc) = 256 /\ snd acc = Z.min 256 (len A) /\ ztake (snd acc) (fst acc) = ztake 256 A.

Lemma sampled_full A B out : sampled A (out, 256) -> sampled (A ++ B) (out, 256).
Proof.
  unfold sampled. cbn [fst snd]. intros (Hl & Hd & Ht). pose proof (len_nonneg B). rewrite len_app. split; [done|]. split; [lia|].
  rewrite Ht. unfold ztake, len in *. rewrite take_app_le by lia. done.
Qed.

Lemma sampled_push A out done x : sampled A (out, done) -> done < 256 -> sampled (A ++ [x]) (set_ done x out, done + 1).
Proof.
  unfold sampled. cbn [fst snd]. intros (Hl & Hd & Ht) Hlt. assert (HA : len A = done) by lia.
  rewrite len_set, len_app, HA. change (len [x]) with 1. split; [done|]. split; [lia|].
  assert (Ht' : ztake done out = A) by (rewrite Ht; unfold ztake, len in *; apply take_ge; lia).
  assert (E : ztake 256 (A ++ [x]) = A ++ [x]).
  { unfold ztake. apply take_ge. rewrite length_app. simpl. unfold len in HA. lia. }
  pose proof (len_nonneg A) as Hn. rewrite E. unfold ztake, set_, len in *.
  replace (Z.to_nat (done + 1)) with (S (Z.to_nat done)) by lia.
  erewrite take_S_r by (apply list_lookup_insert_eq; lia). by rewrite take_insert_ge, Ht' by lia.
Qed.

Lemma sample_three_spec A block out done i : bytes block -> 0 <= done <= 256 -> sampled A (out, done) ->
  exists out' done', sample_three block (out, done) i = (out', done') /\ 0 <= done' <= 256 /\
    sampled (A ++ List.filter (fun d => d <? kPrime) [at_ block i + 256 * (at_ block (i + 1) mod 16);
                                                    at_ block (i + 1) / 16 + 16 * at_ block (i + 2)]) (out', done').
Proof.
  intros Hb Hd HA. unfold sample_three. pose proof (at_byte block i Hb) as H0. pose proof (at_byte block (i + 1) Hb) as H1.
  pose proof (at_byte block (i + 2) Hb) as H2. unfold is_byte in *.
  destruct (Z.ltb_spec done DEGREE) as [Hlt|Hge]; unfold DEGREE in *; cbn [negb].
  2:{ replace done with 256 in * by lia. exists out, 256. split; [done|]. split; [lia|]. by apply sampled_full. }
  pose proof (Z.mod_pos_bound (at_ block (i + 1)) 16 ltac:(lia)).
  assert (0 <= at_ block (i + 1) / 16 < 16) by (split; [apply Z.div_pos; lia|apply Z.div_lt_upper_bound; lia]).
  rewrite Z.rem_mod_nonneg, Z.quot_div_nonneg, !(wrap_small 16) by lia. cbn [List.filter].
  set (d1 := at_ block i + _). set (d2 := _ / 16 + _).
  destruct (d1 <? kPrime).
  - pose proof (sampled_push A out done d1 HA Hlt) as HA1.
    destruct (d2 <? kPrime); cbn [andb].
    + destruct (Z.ltb_spec (done + 1) 256).
      * do 2 eexists. split; [done|]. split; [lia|]. replace (A ++ [d1; d2]) with ((A ++ [d1]) ++ [d2]) by (by rewrite <- app_assoc).
        by apply sampled_push.
      * replace (done + 1) with 256 in * by lia. do 2 eexists. split; [done|]. split; [lia|].
        replace (A ++ [d1; d2]) with ((A ++ [d1]) ++ [d2]) by (by rewrite <- app_assoc). by apply sampled_full.
    + do 2 eexists. split; [done|]. split; [lia|]. done.
  - destruct (d2 <? kPrime); cbn [andb].
    + destruct (Z.ltb_spec done 256); [|lia]. do 2 eexists. split; [done|]. split; [lia|]. by apply sampled_push.
    + do 2 eexists. split; [done|]. split; [lia|]. by rewrite app_nil_r.
Qed.

Lemma filter_concat {A B} (p : B -> bool) (f : A -> list B) (l : list A) :
  List.filter p (concat (f <$> l)) = concat ((fun a => List.filter p (f a)) <$> l).
Proof. induction l as [|a l IH]; [done|]. cbn [fmap list_fmap concat]. by rewrite List.filter_app, <- IH. Qed.

(** The candidates of one block of 168 bytes, and of the stream so far. *)
Lemma sample_block A block out done : bytes block -> len block = 168 -> 0 <= done <= 256 -> sampled A (out, done) ->
  exists out' done', fold_left (sample_three block) ((fun n => 3 * n) <$> indices 56) (out, done) = (out', done') /\
    0 <= done' <= 256 /\ sampled (A ++ accepted block) (out', done').
Proof.
  intros Hb Hl Hd HA. unfold accepted, candidates. rewrite Hl, filter_concat. change (Z.to_nat (168 / 3)) with 56%nat.
  generalize (indices 56) as l. intros l. revert A out done Hd HA. induction l as [|k l IH]; intros A out done Hd HA.
  - exists out, done. by rewrite app_nil_r.
  - cbn [fmap list_fmap fold_left concat]. destruct (sample_three_spec A block out done (3 * k) Hb Hd HA) as (o & d & -> & Hd' & HA').
    rewrite app_assoc. by apply IH.
Qed.

Lemma candidates_app m1 m2 : len m1 mod 3 = 0 -> candidates (m1 ++ m2) = candidates m1 ++ candidates m2.
Proof.
  intros Hm. pose proof (len_nonneg m1). pose proof (len_nonneg m2). pose proof (Z.div_mod (len m1) 3 ltac:(lia)) as E.
  set (q := len m1 / 3) in *. unfold candidates. rewrite len_app.
  replace (len m1 + len m2) with (len m2 + q * 3) by lia. rewrite Z.div_add by lia. fold q.
  assert (0 <= len m2 / 3) by (apply Z.div_pos; lia).
  replace (Z.to_nat (len m2 / 3 + q)) with (Z.to_nat q + Z.to_nat (len m2 / 3))%nat by lia.
  unfold indices. rewrite seq_app, !fmap_app, concat_app. f_equal.
  - f_equal. rewrite <- !list_fmap_compose. apply list_fmap_ext. intros i k Hk. apply lookup_seq in Hk as [-> Hk].
    cbn. by rewrite !at_app_l by lia.
  - f_equal. replace (0 + Z.to_nat q)%nat with (Z.to_nat q + 0)%nat by lia. rewrite <- fmap_add_seq.
    rewrite <- !list_fmap_compose. apply list_fmap_ext. intros i k Hk. apply lookup_seq in Hk as [-> Hk]. cbn.
    replace (Z.of_nat (Z.to_nat q + i)) with (q + Z.of_nat i) by lia.
    rewrite !at_app_r by lia. replace (3 * (q + Z.of_nat i) - len m1) with (3 * Z.of_nat i) by lia.
    replace (3 * (q + Z.of_nat i) + 1 - len m1) with (3 * Z.of_nat i + 1) by lia.
    by replace (3 * (q + Z.of_nat i) + 2 - len m1) with (3 * Z.of_nat i + 2) by lia.
Qed.

Lemma accepted_app m1 m2 : len m1 mod 3 = 0 -> accepted (m1 ++ m2) = accepted m1 ++ accepted m2.
Proof. intros H. unfold accepted. by rewrite candidates_app, List.filter_app. Qed.

(** The result of sampling with [d] bytes of output. *)
Definition rejection (m : list Z) (d : Z) : option scalar :=
  let A := accepted (keccak_hash boringssl_shake128 m d) in
  if 256 <=? len A then Some (ztake 256 A) else None.

Lemma sample_loop_spec fuel m ctx j out done : bytes m -> 0 <= j ->
  squeezing boringssl_shake128 m (168 * j) ctx \/ absorbing boringssl_shake128 m ctx /\ 168 * j = 0 ->
  0 <= done <= 256 -> sampled (accepted (keccak_hash boringssl_shake128 m (168 * j))) (out, done) ->
  sample_loop fuel ctx out done = rejection m (168 * (j + Z.of_nat fuel)).
Proof.
  intros Hm. revert ctx j out done. induction fuel as [|fuel IH]; intros ctx j out done Hj Hctx Hd HA; cbn [sample_loop].
  - rewrite Z.add_0_r. unfold rejection. destruct HA as (Hl & E & Ht). cbn [fst snd] in *.
    destruct (Z.ltb_spec done DEGREE) as [Hlt|Hge]; unfold DEGREE in *; (destruct (Z.leb_spec 256 (len (accepted (keccak_hash boringssl_shake128 m (168 * j))))); try lia; [done || idtac]).
    + f_equal. rewrite <- Ht. replace done with (len out) by lia. symmetry. apply ztake_all.
  - destruct (Z.ltb_spec done DEGREE) as [Hlt|Hge]; unfold DEGREE in *.
    + destruct (squeeze_squeezing boringssl_shake128 m (168 * j) 168 ctx Hm ltac:(lia) Hctx) as (ctx' & -> & Hctx').
      set (block := sponge_squeeze _ _ _ 168).
      assert (Hb : bytes block /\ len block = 168).
      { split; [|by apply len_sponge_squeeze]. apply (bytes_sponge_squeeze). }
      destruct (sample_block _ block out done (proj1 Hb) (proj2 Hb) Hd HA) as (out' & done' & -> & Hd' & HA').
      replace (168 * j + 168) with (168 * (j + 1)) in Hctx' by lia.
      rewrite (IH ctx' (j + 1)); [f_equal; lia|lia|by left|done|].
      replace (168 * (j + 1)) with (168 * j + 168) by lia. rewrite keccak_hash_prefix, accepted_app; [done| |lia|lia].
      rewrite len_keccak_hash by lia. replace (168 * j) with (56 * j * 3) by lia. apply Z.mod_mul. lia.
    + unfold rejection. destruct HA as (Hl & E & Ht). cbn [fst snd] in *.
      replace (168 * (j + Z.of_nat (S fuel))) with (168 * j + 168 * Z.of_nat (S fuel)) by lia.
      rewrite keccak_hash_prefix, accepted_app by (lia || (rewrite len_keccak_hash by lia; replace (168 * j) with (56 * j * 3) by lia; apply Z.mod_mul; lia)).
      rewrite len_app. set (A := accepted (keccak_hash _ _ _)) in *. set (B := accepted _). pose proof (len_nonneg B).
      destruct (Z.leb_spec 256 (len A + len B)); [|lia]. f_equal.
      assert (ztake 256 (A ++ B) = ztake 256 A) as -> by (unfold ztake, len in *; apply take_app_le; lia).
      rewrite <- Ht. replace done with (len out) by lia. symmetry. apply ztake_all.
Qed.

Lemma rejection_reduced m d c : 0 <= d -> rejection m d = Some c -> reduced c.
Proof.
  intros Hd. unfold rejection. set (A := accepted _). destruct (Z.leb_spec 256 (len A)) as [Hl|]; [|done]. intros [= <-].
  apply reduced_Forall. split; [apply len_ztake; lia|]. apply Forall_take. apply List.Forall_forall. intros x Hx.
  subst A. apply filter_In in Hx as [Hx Hlt]. apply Z.ltb_lt in Hlt. split; [|done].
  apply in_concat in Hx as (l & Hin & Hx). apply list_elem_of_In, list_elem_of_fmap in Hin as (k & -> & _).
  set (h := keccak_hash _ _ _) in *. assert (Hh : bytes h) by apply bytes_keccak_hash.
  pose proof (at_byte h (3 * k) Hh). pose proof (at_byte h (3 * k + 1) Hh). pose proof (at_byte h (3 * k + 2) Hh). unfold is_byte in *.
  pose proof (Z.mod_pos_bound (at_ h (3 * k + 1)) 16 ltac:(lia)). pose proof (Z.div_pos (at_ h (3 * k + 1)) 16 ltac:(lia) ltac:(lia)).
  destruct Hx as [<-|[<-|[]]]; lia.
Qed.

(** Entry (i, j) of the matrix of [rho], sampled from [fuel] blocks. *)
Definition matrix_entry (fuel : nat) (rho : list Z) (i j : Z) : option scalar :=
  rejection (ztake 32 rho ++ [i; j]) (168 * Z.of_nat fuel).
Definition matrix_row (fuel : nat) (rho : list Z) (i : Z) : option vector :=
  x ← matrix_entry fuel rho i 0; y ← matrix_entry fuel rho i 1; z ← matrix_entry fuel rho i 2; Some [x; y; z].

Lemma scalar_from_keccak_spec fuel rho i j : bytes rho -> is_byte i -> is_byte j ->
  (keccak_ctx ← BORINGSSL_keccak_init boringssl_shake128;
   keccak_ctx ← BORINGSSL_keccak_absorb keccak_ctx (ztake 32 rho ++ [i; j]);
   scalar_from_keccak_vartime fuel keccak_ctx) = matrix_entry fuel rho i j.
Proof.
  intros Hr Hi Hj. assert (Hm : bytes (ztake 32 rho ++ [i; j])).
  { apply bytes_app. split; [by apply bytes_ztake|]. apply bytes_cons. split; [done|by apply bytes_one]. }
  change (BORINGSSL_keccak_init boringssl_shake128) with (Some (fst (keccak_init boringssl_shake128))). cbn [mbind option_bind].
  destruct (absorb_absorbing boringssl_shake128 [] _ _ (keccak_init_absorbing boringssl_shake128) Hm) as (ctx & -> & Ha).
  cbn [mbind option_bind]. unfold scalar_from_keccak_vartime, matrix_entry.
  rewrite (sample_loop_spec fuel (ztake 32 rho ++ [i; j]) ctx 0); [f_equal; lia|done|lia|by right|lia|].
  split; [done|]. split; [done|]. reflexivity.
Qed.

Lemma matrix_expand_spec fuel rho : bytes rho ->
  matrix_expand fuel rho =
  (a ← matrix_row fuel rho 0; b ← matrix_row fuel rho 1; c ← matrix_row fuel rho 2; Some [a; b; c]).
Proof.
  intros Hr. unfold matrix_expand. change (indices (Z.to_nat RANK)) with [0; 1; 2].
  assert (Step : forall (acc : option matrix) i j, is_byte i -> is_byte j ->
    (out ← acc; keccak_ctx ← BORINGSSL_keccak_init boringssl_shake128;
     keccak_ctx ← BORINGSSL_keccak_absorb keccak_ctx (ztake 32 rho ++ [i; j]);
     s ← scalar_from_keccak_vartime fuel keccak_ctx;
     Some (<[Z.to_nat i := vset j s (default [] (out !! Z.to_nat i))]> out)) =
    (out ← acc; s ← matrix_entry fuel rho i j; Some (<[Z.to_nat i := vset j s (default [] (out !! Z.to_nat i))]> out))).
  { intros acc i j Hi Hj. rewrite <- (scalar_from_keccak_spec fuel rho i j Hr Hi Hj). destruct acc as [out|]; [|done].
    cbn [mbind option_bind]. destruct (BORINGSSL_keccak_init _) as [ctx|]; [|done]. cbn [mbind option_bind].
    destruct (BORINGSSL_keccak_absorb _ _) as [ctx'|]; [|done]. done. }
  cbn [fold_left]. rewrite !Step by done. unfold matrix_row.
  repeat match goal with
  | |- context [matrix_entry fuel rho ?i ?j] => destruct (matrix_entry fuel rho i j); cbn [mbind option_bind]; [|reflexivity]
  end. reflexivity.
Qed.

(** A matrix of reduced scalars. *)
Definition reduced33 (m : matrix) : Prop := exists a b c, m = [a; b; c] /\ reduced3 a /\ reduced3 b /\ reduced3 c.

Lemma matrix_row_reduced fuel rho i a : matrix_row fuel rho i = Some a -> reduced3 a.
Proof.
  unfold matrix_row. destruct (matrix_entry fuel rho i 0) as [x|] eqn:E0; [|done]. cbn [mbind option_bind].
  destruct (matrix_entry fuel rho i 1) as [y|] eqn:E1; [|done]. cbn [mbind option_bind].
  destruct (matrix_entry fuel rho i 2) as [z|] eqn:E2; [|done]. intros [= <-].
  exists x, y, z. split; [done|]. split; [|split];
    [exact (rejection_reduced _ (168 * Z.of_nat fuel) _ ltac:(lia) E0)|exact (rejection_reduced _ (168 * Z.of_nat fuel) _ ltac:(lia) E1)
    |exact (rejection_reduced _ (168 * Z.of_nat fuel) _ ltac:(lia) E2)].
Qed.

Lemma matrix_expand_reduced fuel rho m : bytes rho -> matrix_expand fuel rho = Some m -> reduced33 m.
Proof.
  intros Hr. rewrite matrix_expand_spec by done. destruct (matrix_row fuel rho 0) as [a|] eqn:E0; [|done]. cbn [mbind option_bind].
  destruct (matrix_row fuel rho 1) as [b|] eqn:E1; [|done]. cbn [mbind option_bind].
  destruct (matrix_row fuel rho 2) as [c|] eqn:E2; [|done]. intros [= <-].
  exists a, b, c. split; [done|]. split; [|split]; by eapply matrix_row_reduced.
Qed.
