(* ===== verification/KyberKem.v ===== *)
(** Kyber768, the key encapsulation mechanism: the rest of crypto/kyber/kyber.cc, with keys,
    encryption, encapsulation and the encodings of keys.

    The result of a function is an option: None where the code would abort, read or write outside a
    buffer, or where the rejection sampling of the matrix needs more than [fuel] blocks of SHAKE128
    output. Arrays the code leaves uninitialised start with zeros; they are overwritten before they
    are read. *)
From S2P Require Import Prelude.
From S2P Require Import Internal.
From S2P Require Import Mem.
From S2P Require Import Arrays.
From S2P Require Import Heap.
From S2P Require Import Cbs.
From S2P Require Import Cbb.
From S2P Require Import Keccak.
From S2P Require Import Kyber.

Open Scope Z_scope.

Definition KYBER_PUBLIC_KEY_BYTES : Z := 1184.
Definition KYBER_PRIVATE_KEY_BYTES : Z := 2400.
Definition KYBER_CIPHERTEXT_BYTES : Z := 1088.
Definition KYBER_SHARED_SECRET_BYTES : Z := 32.
Definition KYBER_ENCAP_ENTROPY : Z := 32.
Definition KYBER_GENERATE_KEY_ENTROPY : Z := 64.

Record public_key := mk_public_key {
  pk_t : vector;
  pk_rho : list Z;
  pk_hash : list Z;
  pk_m : matrix;
}.

Record private_key := mk_private_key {
  sk_pub : public_key;
  sk_s : vector;
  sk_fo_failure_secret : list Z;
}.

Section Kem.
Context `{PF : Platform} `{AL : Allocator}.

(** ** Encryption *)

Definition encrypt_cpa (out : list Z) (pub : public_key) (message randomness : list Z) : option (list Z) :=
  '(secret, counter) ← vector_generate_secret_eta_2 0 randomness;
  let secret := vector_ntt secret in
  '(error, counter) ← vector_generate_secret_eta_2 counter randomness;
  scalar_error ← scalar_centered_binomial_distribution_eta_2_with_prf (ztake 32 randomness ++ [counter]);
  let u := matrix_mult (pk_m pub) secret in
  let u := vector_inverse_ntt u in
  let u := vector_add u error in
  let v := scalar_inner_product (pk_t pub) secret in
  let v := scalar_inverse_ntt v in
  let v := scalar_add v scalar_error in
  let expanded_message := scalar_decode_1 message in
  let expanded_message := scalar_decompress expanded_message 1 in
  let v := scalar_add v expanded_message in
  let u := vector_compress u kDU in
  out ← vector_encode out u kDU;
  let v := scalar_compress v kDV in
  store_at out kCompressedVectorSize (scalar_encode v kDV).

(** The return values of the decoding functions are not checked: the result is None should one of
    them be zero. *)
Definition decrypt_cpa (priv : private_key) (ciphertext : list Z) : option (list Z) :=
  u ← vector_decode ciphertext kDU; u ← u;
  let u := vector_decompress u kDU in
  let u := vector_ntt u in
  v ← scalar_decode (zdrop kCompressedVectorSize ciphertext) kDV; v ← v;
  let v := scalar_decompress v kDV in
  let mask := scalar_inner_product (sk_s priv) u in
  let mask := scalar_inverse_ntt mask in
  let v := scalar_sub v mask in
  let v := scalar_compress v 1 in
  Some (scalar_encode_1 v).

(** ** Encodings of keys *)

Definition kyber_marshal_public_key (out : addr) (pub : public_key) : M bool :=
  o ← CBB_add_space out kEncodedVectorSize;
  match o with
  | None => mret false
  | Some vector_output =>
    match vector_encode (replicate (Z.to_nat kEncodedVectorSize) 0) (pk_t pub) kLog2Prime with
    | None => undefined
    | Some bytes =>
      write_space out vector_output bytes;;
      ok ← CBB_add_bytes out (pk_rho pub);
      if negb ok then mret false else mret true
    end
  end.

Definition KYBER_marshal_public_key (out : addr) (pub : public_key) : M bool :=
  kyber_marshal_public_key out pub.

Definition KYBER_marshal_private_key (out : addr) (priv : private_key) : M bool :=
  o ← CBB_add_space out kEncodedVectorSize;
  match o with
  | None => mret false
  | Some s_output =>
    match vector_encode (replicate (Z.to_nat kEncodedVectorSize) 0) (sk_s priv) kLog2Prime with
    | None => undefined
    | Some bytes =>
      write_space out s_output bytes;;
      ok ← andthen (kyber_marshal_public_key out (sk_pub priv))
             (andthen (CBB_add_bytes out (pk_hash (sk_pub priv)))
                      (CBB_add_bytes out (sk_fo_failure_secret priv)));
      if negb ok then mret false else mret true
    end
  end.

(** A parser leaves the rest of the input; [None] in place of the result is the return value zero. *)
Definition kyber_parse_public_key_no_hash (fuel : nat) (hash : list Z) (inp : CBS) : option (option public_key * CBS) :=
  match CBS_get_bytes kEncodedVectorSize inp with
  | (None, inp) => Some (None, inp)
  | (Some t_bytes, inp) =>
    t ← vector_decode t_bytes kLog2Prime;
    match t with
    | None => Some (None, inp)
    | Some t =>
      match CBS_copy_bytes 32 inp with
      | (None, inp) => Some (None, inp)
      | (Some rho, inp) => m ← matrix_expand fuel rho; Some (Some (mk_public_key t rho hash m), inp)
      end
    end
  end.

Definition KYBER_parse_public_key (fuel : nat) (inp : CBS) : option (option public_key * CBS) :=
  let orig_in := inp in
  '(pub, inp) ← kyber_parse_public_key_no_hash fuel (replicate 32 0) inp;
  match pub with
  | None => Some (None, inp)
  | Some pub =>
    if negb (len inp =? 0) then Some (None, inp) else
    hash ← hash_h orig_in;
    Some (Some (mk_public_key (pk_t pub) (pk_rho pub) hash (pk_m pub)), inp)
  end.

Definition KYBER_parse_private_key (fuel : nat) (inp : CBS) : option (option private_key * CBS) :=
  match CBS_get_bytes kEncodedVectorSize inp with
  | (None, inp) => Some (None, inp)
  | (Some s_bytes, inp) =>
    s ← vector_decode s_bytes kLog2Prime;
    match s with
    | None => Some (None, inp)
    | Some s =>
      '(pub, inp) ← kyber_parse_public_key_no_hash fuel (replicate 32 0) inp;
      match pub with
      | None => Some (None, inp)
      | Some pub =>
        match CBS_copy_bytes 32 inp with
        | (None, inp) => Some (None, inp)
        | (Some hash, inp) =>
          match CBS_copy_bytes 32 inp with
          | (None, inp) => Some (None, inp)
          | (Some fo, inp) =>
            if negb (len inp =? 0) then Some (None, inp) else
            Some (Some (mk_private_key (mk_public_key (pk_t pub) (pk_rho pub) hash (pk_m pub)) s fo), inp)
          end
        end
      end
    end
  end.

(** ** Keys *)

(** The local CBB is address 0 of a store of its own. *)
Definition marshal_fixed (out : list Z) (pub : public_key) : option (list Z) :=
  '(ok, s) ← (CBB_init_fixed 0%nat out;; kyber_marshal_public_key 0%nat pub) (mk_store ∅ ∅ 0);
  if negb ok then None else b ← bases s !! 0%nat; Some (buf b).

Definition KYBER_generate_key_external_entropy (fuel : nat) (out_encoded_public_key entropy : list Z)
    : option (list Z * private_key) :=
  hashed ← hash_g (ztake 32 entropy);
  let rho := ztake 32 hashed in
  let sigma := zdrop 32 hashed in
  m ← matrix_expand fuel rho;
  '(s, counter) ← vector_generate_secret_eta_2 0 sigma;
  let s := vector_ntt s in
  '(error, counter) ← vector_generate_secret_eta_2 counter sigma;
  let error := vector_ntt error in
  let t := matrix_mult_transpose m s in
  let t := vector_add t error in
  out_encoded_public_key ← marshal_fixed out_encoded_public_key (mk_public_key t rho [] m);
  hash ← hash_h out_encoded_public_key;
  Some (out_encoded_public_key, mk_private_key (mk_public_key t rho hash m) s (ztake 32 (zdrop 32 entropy))).

(** The bytes RAND_bytes gives are an argument. *)
Definition KYBER_generate_key (fuel : nat) (rand_bytes : Z -> list Z) (out_encoded_public_key : list Z)
    : option (list Z * private_key) :=
  KYBER_generate_key_external_entropy fuel out_encoded_public_key (rand_bytes KYBER_GENERATE_KEY_ENTROPY).

Definition KYBER_public_from_private (priv : private_key) : public_key := sk_pub priv.

(** ** Encapsulation *)

(** The ciphertext and the shared secret. *)
Definition KYBER_encap_external_entropy (out_ciphertext : list Z) (pub : public_key) (entropy : list Z)
    : option (list Z * list Z) :=
  let inp := ztake KYBER_ENCAP_ENTROPY entropy ++ ztake (64 - KYBER_ENCAP_ENTROPY) (pk_hash pub) in
  prekey_and_randomness ← hash_g inp;
  out_ciphertext ← encrypt_cpa out_ciphertext pub entropy (zdrop 32 prekey_and_randomness);
  h ← hash_h out_ciphertext;
  prekey_and_randomness ← store_at prekey_and_randomness 32 h;
  out_shared_secret ← kdf KYBER_SHARED_SECRET_BYTES prekey_and_randomness;
  Some (out_ciphertext, out_shared_secret).

Definition KYBER_encap (rand_bytes : Z -> list Z) (out_ciphertext : list Z) (pub : public_key)
    : option (list Z * list Z) :=
  KYBER_encap_external_entropy out_ciphertext pub (rand_bytes KYBER_ENCAP_ENTROPY).

Definition KYBER_decap (ciphertext : list Z) (priv : private_key) : option (list Z) :=
  decrypted ← decrypt_cpa priv ciphertext;
  let decrypted := decrypted ++ ztake (64 - 32) (pk_hash (sk_pub priv)) in
  prekey_and_randomness ← hash_g decrypted;
  expected_ciphertext ← encrypt_cpa (replicate (Z.to_nat KYBER_CIPHERTEXT_BYTES) 0) (sk_pub priv)
    (ztake 32 decrypted) (zdrop 32 prekey_and_randomness);
  let mask := constant_time_eq_int_8 (CRYPTO_memcmp ciphertext expected_ciphertext) 0 in
  let inp := (fun i => constant_time_select_8 mask (at_ prekey_and_randomness i) (at_ (sk_fo_failure_secret priv) i))
             <$> indices 32 in
  h ← hash_h ciphertext;
  kdf KYBER_SHARED_SECRET_BYTES (inp ++ h).

End Kem.
