(* ===== verification/KyberProofs.v ===== *)
(** The encryption scheme of Kyber768: what decryption recovers is the message plus the noise, and
    when the noise of an encryption is small it is the message. *)
From S2P Require Import Prelude.
From S2P Require Import Internal.
From S2P Require Import Mem.
From S2P Require Import Arrays.
From S2P Require Import Heap.
From S2P Require Import Md32.
From S2P Require Import Cbs.
From S2P Require Import Cbb.
From S2P Require Import Keccak.
From S2P Require Import KeccakProofs.
From S2P Require Import Kyber.
From S2P Require Import KyberNtt.
From S2P Require Import KyberRing.
From S2P Require Import KyberCodec.
From S2P Require Import KyberSample.
From S2P Require Import KyberKem.
From Stdlib Require Import Setoid Morphisms Ring.

Open Scope Z_scope.

#[local] Opaque scalar_ntt scalar_inverse_ntt scalar_add scalar_sub scalar_mult scalar_compress scalar_decompress
  scalar_encode scalar_decode scalar_encode_1 scalar_decode_1 keccak_hash.

(** ** The transform as an isomorphism *)

Definition lift (f : coeffs) : scalar := (fun i => f i mod kPrime) <$> indices 256.

Lemma lift_reduced f : reduced (lift f).
Proof. apply reduced_indices. intros. apply mod_range. Qed.

Lemma lift_at f : at_ (lift f) ≈ f.
Proof. intros x Hx. unfold lift. rewrite (at_indices (fun i => f i mod kPrime)) by lia. apply mod_cong. Qed.

#[export] Instance ntt_proper : Proper (ceq ==> ceq) ntt.
Proof.
  intros f g H x Hx. apply zsum_cong. intros t Ht. destruct (pair_index x Hx) as (_ & _ & _ & _ & Hm).
  rewrite (H (x mod 2 + 2 * t)) by lia. done.
Qed.

Lemma ntt_add f g : ntt (cadd f g) ≈ cadd (ntt f) (ntt g).
Proof.
  intros x Hx. unfold cadd, ntt, remainder. rewrite <- zsum_add. apply zsum_cong. intros t Ht. exists 0. lia.
Qed.

Lemma ntt_sub f g : ntt (csub f g) ≈ csub (ntt f) (ntt g).
Proof.
  intros x Hx. unfold csub, ntt, remainder. rewrite <- Z.add_opp_r, <- (Z.mul_1_l (zsum 128 (fun t => _ * g _))), <- Z.mul_opp_l, <- zsum_scale, <- zsum_add.
  apply zsum_cong. intros t Ht. exists 0. lia.
Qed.

Lemma ntt_inj f g : ntt f ≈ ntt g -> f ≈ g.
Proof.
  intros H. destruct (scalar_ntt_spec _ (lift_reduced f)) as [Rf Ef]. destruct (scalar_ntt_spec _ (lift_reduced g)) as [Rg Eg].
  assert (E : scalar_ntt (lift f) = scalar_ntt (lift g)).
  { apply reduced_eq; [exact Rf|exact Rg|]. by rewrite Ef, Eg, !lift_at. }
  rewrite <- (lift_at f), <- (lift_at g).
  rewrite <- (scalar_inverse_ntt_ntt (lift f)), <- (scalar_inverse_ntt_ntt (lift g)) by apply lift_reduced. rewrite E. reflexivity.
Qed.

Lemma ntt_inverse c : reduced c -> ntt (at_ (scalar_inverse_ntt c)) ≈ at_ c.
Proof.
  intros Hc. pose proof (scalar_inverse_ntt_reduced c Hc) as Hr. rewrite <- (proj2 (scalar_ntt_spec _ Hr)).
  by rewrite scalar_ntt_inverse_ntt.
Qed.

(** ** Vectors *)

Definition dot (a b : vector) : coeffs :=
  cadd (cadd (cmul (at_ (vat a 0)) (at_ (vat b 0))) (cmul (at_ (vat a 1)) (at_ (vat b 1)))) (cmul (at_ (vat a 2)) (at_ (vat b 2))).

Lemma scalar_zero_reduced : reduced scalar_zero.
Proof. apply reduced_Forall. split; [done|]. apply Forall_replicate. unfold kPrime. lia. Qed.

Lemma scalar_zero_at : at_ scalar_zero ≈ czero.
Proof.
  intros x Hx. unfold czero, at_. destruct (scalar_zero !! Z.to_nat x) eqn:E; [|done].
  apply lookup_replicate in E as [-> _]. done.
Qed.

Lemma inner_product_spec a b : reduced3 a -> reduced3 b ->
  reduced (scalar_inner_product a b) /\ at_ (scalar_inner_product a b) ≈ dot a b.
Proof.
  intros (a0 & a1 & a2 & -> & Ha0 & Ha1 & Ha2) (b0 & b1 & b2 & -> & Hb0 & Hb1 & Hb2).
  change (scalar_inner_product _ _) with (scalar_add (scalar_add (scalar_add scalar_zero (scalar_mult scalar_zero a0 b0))
    (scalar_mult scalar_zero a1 b1)) (scalar_mult scalar_zero a2 b2)).
  assert (Hz : len scalar_zero = 256) by done.
  destruct (scalar_mult_spec scalar_zero a0 b0 Hz Ha0 Hb0) as [R0 E0].
  destruct (scalar_mult_spec scalar_zero a1 b1 Hz Ha1 Hb1) as [R1 E1].
  destruct (scalar_mult_spec scalar_zero a2 b2 Hz Ha2 Hb2) as [R2 E2].
  destruct (scalar_add_spec _ _ scalar_zero_reduced R0) as [S0 F0]. destruct (scalar_add_spec _ _ S0 R1) as [S1 F1].
  destruct (scalar_add_spec _ _ S1 R2) as [S2 F2]. split; [done|].
  rewrite F2, F1, F0, E0, E1, E2, scalar_zero_at. unfold dot. cbn [vat]. change (vat [a0; a1; a2] 0) with a0.
  change (vat [a0; a1; a2] 1) with a1. change (vat [a0; a1; a2] 2) with a2. change (vat [b0; b1; b2] 0) with b0.
  change (vat [b0; b1; b2] 1) with b1. change (vat [b0; b1; b2] 2) with b2. ring.
Qed.

(** ** Decryption *)

(** The noise equation needs of the transform that it is additive and multiplicative. *)
Section Noise.
Context (N : coeffs -> coeffs) `{HN : !Proper (ceq ==> ceq) N}.
Context (N_add : forall f g, N (cadd f g) ≈ cadd (N f) (N g)) (N_sub : forall f g, N (csub f g) ≈ csub (N f) (N g)).
Context (times : coeffs -> coeffs -> coeffs) (N_mul : forall f g, N (times f g) ≈ cmul (N f) (N g)).

(** What is left of [v' - s . u'] when [t = A^T s + e], [u = A r + d], [v = t . r + x + msg], and [u'], [v']
    differ from [u], [v] by the errors [c] and [cv]. *)
Lemma noise_equation_of a00 a01 a02 a10 a11 a12 a20 a21 a22 S0 S1 S2 T0 T1 T2 R0 R1 R2 AR0 AR1 AR2
    (s0 s1 s2 e0 e1 e2 r0 r1 r2 d0 d1 d2 c0 c1 c2 u0 u1 u2 u0' u1' u2' v v' x msg cv : coeffs) :
  let dot a0 a1 a2 b0 b1 b2 := cadd (cadd (cmul a0 b0) (cmul a1 b1)) (cmul a2 b2) in
  S0 ≈ N s0 -> S1 ≈ N s1 -> S2 ≈ N s2 -> R0 ≈ N r0 -> R1 ≈ N r1 -> R2 ≈ N r2 ->
  T0 ≈ cadd (dot a00 a10 a20 S0 S1 S2) (N e0) -> T1 ≈ cadd (dot a01 a11 a21 S0 S1 S2) (N e1) ->
  T2 ≈ cadd (dot a02 a12 a22 S0 S1 S2) (N e2) ->
  AR0 ≈ dot a00 a01 a02 R0 R1 R2 -> AR1 ≈ dot a10 a11 a12 R0 R1 R2 -> AR2 ≈ dot a20 a21 a22 R0 R1 R2 ->
  N u0 ≈ cadd AR0 (N d0) -> N u1 ≈ cadd AR1 (N d1) -> N u2 ≈ cadd AR2 (N d2) ->
  u0' ≈ cadd u0 c0 -> u1' ≈ cadd u1 c1 -> u2' ≈ cadd u2 c2 ->
  N v ≈ cadd (cadd (dot T0 T1 T2 R0 R1 R2) (N x)) (N msg) -> v' ≈ cadd v cv ->
  csub (N v') (dot S0 S1 S2 (N u0') (N u1') (N u2')) ≈
  N (cadd msg (cadd (csub (cadd (cadd (times e0 r0) (times e1 r1)) (times e2 r2))
                            (cadd (cadd (times s0 (cadd d0 c0)) (times s1 (cadd d1 c1))) (times s2 (cadd d2 c2))))
                      (cadd x cv))).
Proof.
  cbv beta zeta. intros HS0 HS1 HS2 HR0 HR1 HR2 HT0 HT1 HT2 HA0 HA1 HA2 HU0 HU1 HU2 Hu0 Hu1 Hu2 HV Hv.
  rewrite Hv, Hu0, Hu1, Hu2, !N_add, N_sub, !N_add, !N_mul, !N_add.
  rewrite HV, HU0, HU1, HU2, HA0, HA1, HA2, HT0, HT1, HT2, <- HS0, <- HS1, <- HS2, <- HR0, <- HR1, <- HR2.
  clear. generalize (N e0) (N e1) (N e2) (N d0) (N d1) (N d2) (N c0) (N c1) (N c2) (N x) (N msg) (N cv).
  intros. ring.
Qed.

End Noise.

Definition noise_equation := noise_equation_of ntt ntt_add ntt_sub negacyclic ntt_negacyclic.

Section Scheme.
Context `{PF : Platform}.

(** The ciphertext before compression. *)
Definition cipher_u (pub : public_key) (randomness : list Z) : vector :=
  vector_add (vector_inverse_ntt (matrix_mult (pk_m pub) (vector_ntt (sample_vector randomness 0)))) (sample_vector randomness 3).
Definition expanded_message (message : list Z) : scalar := scalar_decompress (scalar_decode_1 message) 1.
Definition cipher_v (pub : public_key) (message randomness : list Z) : scalar :=
  scalar_add (scalar_add (scalar_inverse_ntt (scalar_inner_product (pk_t pub) (vector_ntt (sample_vector randomness 0))))
                         (sample randomness 6))
             (expanded_message message).
Definition cipher_bytes (u : vector) (v : scalar) : list Z :=
  scalar_encode (scalar_compress (vat u 0) kDU) kDU ++ scalar_encode (scalar_compress (vat u 1) kDU) kDU ++
  scalar_encode (scalar_compress (vat u 2) kDU) kDU ++ scalar_encode (scalar_compress v kDV) kDV.
Definition cipher (pub : public_key) (message randomness : list Z) : list Z :=
  cipher_bytes (cipher_u pub randomness) (cipher_v pub message randomness).

(** The error of compression. *)
Definition compression_error (c : scalar) (bits : Z) : coeffs :=
  csub (at_ (scalar_decompress (scalar_compress c bits) bits)) (at_ c).

(** The product of vectors of polynomials, modulo X^256 + 1. *)
Definition product (f g : Z -> coeffs) : coeffs :=
  cadd (cadd (negacyclic (f 0) (g 0)) (negacyclic (f 1) (g 1))) (negacyclic (f 2) (g 2)).

(** The noise of an encryption: [e . r - s . (e1 + errors of u) + e2 + error of v]. *)
Definition noise (s e : vector) (pub : public_key) (message randomness : list Z) : coeffs :=
  cadd (csub (product (fun i => at_ (vat e i)) (fun i => at_ (vat (sample_vector randomness 0) i)))
             (product (fun i => at_ (vat s i))
                (fun i => cadd (at_ (vat (sample_vector randomness 3) i))
                               (compression_error (vat (cipher_u pub randomness) i) kDU))))
       (cadd (at_ (sample randomness 6)) (compression_error (cipher_v pub message randomness) kDV)).

(** Every coefficient of the noise is between -832 and 831, modulo the prime. *)
Definition small_noise (f : coeffs) : Prop := forall x, 0 <= x < 256 -> (f x + 832) mod kPrime < 1664.

(** A key pair: the transforms of the secret [s] and error [e], and [t = A^T s + e]. *)
Record key_pair (s e : vector) (priv : private_key) : Prop := {
  kp_s : reduced3 s;
  kp_e : reduced3 e;
  kp_m : reduced33 (pk_m (sk_pub priv));
  kp_secret : sk_s priv = vector_ntt s;
  kp_t : pk_t (sk_pub priv) = vector_add (matrix_mult_transpose (pk_m (sk_pub priv)) (vector_ntt s)) (vector_ntt e);
}.

(** What decryption computes from the decompressed ciphertext. *)
Definition recovered (priv : private_key) (u : vector) (v : scalar) : scalar :=
  scalar_sub v (scalar_inverse_ntt (scalar_inner_product (sk_s priv) (vector_ntt u))).

Lemma vector_ntt_reduced a : reduced3 a -> reduced3 (vector_ntt a).
Proof.
  intros (x & y & z & -> & Hx & Hy & Hz). rewrite vector_ntt_3. do 3 eexists. split; [done|].
  split; [|split]; by apply scalar_ntt_spec.
Qed.

Lemma vector_add_reduced a b : reduced3 a -> reduced3 b -> reduced3 (vector_add a b).
Proof.
  intros (x & y & z & -> & Hx & Hy & Hz) (x' & y' & z' & -> & Hx' & Hy' & Hz'). rewrite vector_add_3. do 3 eexists. split; [done|].
  split; [|split]; by apply scalar_add_spec.
Qed.

Lemma vector_inverse_ntt_reduced a : reduced3 a -> reduced3 (vector_inverse_ntt a).
Proof.
  intros (x & y & z & -> & Hx & Hy & Hz). rewrite vector_inverse_ntt_3. do 3 eexists. split; [done|].
  split; [|split]; by apply scalar_inverse_ntt_reduced.
Qed.

Lemma matrix_mult_3 a b c x : reduced3 a -> reduced3 b -> reduced3 c ->
  matrix_mult [a; b; c] x = [scalar_inner_product a x; scalar_inner_product b x; scalar_inner_product c x].
Proof.
  intros (a0 & a1 & a2 & -> & _) (b0 & b1 & b2 & -> & _) (c0 & c1 & c2 & -> & _). reflexivity.
Qed.

Lemma matrix_mult_transpose_3 a0 a1 a2 b0 b1 b2 c0 c1 c2 x :
  matrix_mult_transpose [[a0; a1; a2]; [b0; b1; b2]; [c0; c1; c2]] x =
  [scalar_inner_product [a0; b0; c0] x; scalar_inner_product [a1; b1; c1] x; scalar_inner_product [a2; b2; c2] x].
Proof. reflexivity. Qed.

Lemma matrix_mult_reduced m x : reduced33 m -> reduced3 x -> reduced3 (matrix_mult m x).
Proof.
  intros (a & b & c & -> & Ha & Hb & Hc) Hx. rewrite matrix_mult_3 by done. do 3 eexists. split; [done|].
  split; [|split]; by apply inner_product_spec.
Qed.

Lemma matrix_mult_transpose_reduced m x : reduced33 m -> reduced3 x -> reduced3 (matrix_mult_transpose m x).
Proof.
  intros (a & b & c & -> & (a0 & a1 & a2 & -> & ? & ? & ?) & (b0 & b1 & b2 & -> & ? & ? & ?) & (c0 & c1 & c2 & -> & ? & ? & ?)) Hx.
  rewrite matrix_mult_transpose_3. do 3 eexists. split; [done|].
  split; [|split]; apply inner_product_spec; try done; do 3 eexists; (split; [done|]); done.
Qed.

Lemma ntt_product f g : ntt (product f g) ≈
  cadd (cadd (cmul (ntt (f 0)) (ntt (g 0))) (cmul (ntt (f 1)) (ntt (g 1)))) (cmul (ntt (f 2)) (ntt (g 2))).
Proof. unfold product. by rewrite !ntt_add, !ntt_negacyclic. Qed.

Lemma expanded_message_reduced message : reduced (expanded_message message).
Proof.
  destruct (scalar_decode_1_spec message) as (Hl & Hf & _).
  exact (proj1 (scalar_decompress_spec _ 1 Hl Hf ltac:(lia))).
Qed.

(** The coefficients of a vector after the transform. *)
Lemma ntt_at c : reduced c -> at_ (scalar_ntt c) ≈ ntt (at_ c).
Proof. apply scalar_ntt_spec. Qed.

Section Cipher.
Context (s e : vector) (priv : private_key) (message randomness : list Z).
Context (Hkey : key_pair s e priv).
Notation pub := (sk_pub priv).
Notation r := (sample_vector randomness 0).
Notation e1 := (sample_vector randomness 3).
Notation cu := (cipher_u pub randomness).
Notation cv := (cipher_v pub message randomness).

Lemma cipher_u_reduced : reduced3 (cipher_u pub randomness).
Proof using Hkey.
  apply vector_add_reduced; [|apply sample_vector_reduced]. apply vector_inverse_ntt_reduced.
  apply matrix_mult_reduced; [exact (kp_m _ _ _ Hkey)|]. apply vector_ntt_reduced, sample_vector_reduced.
Qed.

Lemma key_t_reduced : reduced3 (pk_t pub).
Proof using Hkey.
  rewrite (kp_t _ _ _ Hkey). apply vector_add_reduced.
  - apply matrix_mult_transpose_reduced; [exact (kp_m _ _ _ Hkey)|]. apply vector_ntt_reduced, (kp_s _ _ _ Hkey).
  - apply vector_ntt_reduced, (kp_e _ _ _ Hkey).
Qed.

Lemma cipher_v_reduced : reduced (cipher_v pub message randomness).
Proof using Hkey.
  assert (Hi : reduced (scalar_inner_product (pk_t pub) (vector_ntt r)))
    by (apply inner_product_spec; [exact key_t_reduced|apply vector_ntt_reduced, sample_vector_reduced]).
  destruct (scalar_add_spec _ _ (scalar_inverse_ntt_reduced _ Hi) (sample_reduced randomness 6)) as [H1 _].
  exact (proj1 (scalar_add_spec _ _ H1 (expanded_message_reduced message))).
Qed.

(** The transform of [v]. *)
Lemma ntt_cipher_v : ntt (at_ (cipher_v pub message randomness)) ≈
  cadd (cadd (dot (pk_t pub) (vector_ntt r)) (ntt (at_ (sample randomness 6)))) (ntt (at_ (expanded_message message))).
Proof using Hkey.
  destruct (inner_product_spec (pk_t pub) (vector_ntt r)) as [Hi Ei];
    [exact key_t_reduced|apply vector_ntt_reduced, sample_vector_reduced|].
  destruct (scalar_add_spec _ _ (scalar_inverse_ntt_reduced _ Hi) (sample_reduced randomness 6)) as [H1 F1].
  destruct (scalar_add_spec _ _ H1 (expanded_message_reduced message)) as [_ F2].
  unfold cipher_v. rewrite F2, ntt_add, F1, ntt_add, ntt_inverse, Ei by exact Hi. reflexivity.
Qed.

(** The transform of an element of [u]. *)
Lemma ntt_cipher_u i : i = 0 \/ i = 1 \/ i = 2 ->
  ntt (at_ (vat (cipher_u pub randomness) i)) ≈
  cadd (at_ (vat (matrix_mult (pk_m pub) (vector_ntt r)) i)) (ntt (at_ (vat e1 i))).
Proof using Hkey.
  intros Hi. unfold cipher_u.
  destruct (matrix_mult_reduced (pk_m pub) (vector_ntt r) (kp_m _ _ _ Hkey) (vector_ntt_reduced _ (sample_vector_reduced _ _)))
    as (x & y & z & -> & Hx & Hy & Hz).
  rewrite vector_inverse_ntt_3. unfold sample_vector. rewrite vector_add_3.
  assert (G : forall c n, reduced c -> ntt (at_ (scalar_add (scalar_inverse_ntt c) (sample randomness n))) ≈ cadd (at_ c) (ntt (at_ (sample randomness n)))).
  { intros c n Hc. destruct (scalar_add_spec _ _ (scalar_inverse_ntt_reduced c Hc) (sample_reduced randomness n)) as [_ ->].
    by rewrite ntt_add, ntt_inverse. }
  destruct Hi as [->|[->| ->]]; by apply G.
Qed.


#[local] Opaque ntt negacyclic compression_error cipher_u cipher_v sample expanded_message.

(** A component of the public vector. *)
Lemma t_component x0 x1 x2 f : reduced x0 -> reduced x1 -> reduced x2 -> reduced f -> reduced3 s ->
  at_ (scalar_add (scalar_inner_product [x0; x1; x2] (vector_ntt s)) (scalar_ntt f)) ≈
  cadd (dot [x0; x1; x2] (vector_ntt s)) (ntt (at_ f)).
Proof.
  intros H0 H1 H2 Hf Hs. destruct (inner_product_spec [x0; x1; x2] (vector_ntt s)) as [Hi Ei];
    [by exists x0, x1, x2|by apply vector_ntt_reduced|].
  destruct (scalar_ntt_spec f Hf) as [Hn En]. destruct (scalar_add_spec _ _ Hi Hn) as [_ E].
  etransitivity; [exact E|]. apply cadd_proper; [exact Ei|exact En].
Qed.

Lemma dot_ntt_r a x y z : reduced x -> reduced y -> reduced z -> dot a (vector_ntt [x; y; z]) ≈
  cadd (cadd (cmul (at_ (vat a 0)) (ntt (at_ x))) (cmul (at_ (vat a 1)) (ntt (at_ y)))) (cmul (at_ (vat a 2)) (ntt (at_ z))).
Proof.
  intros Hx Hy Hz. rewrite vector_ntt_3. unfold dot.
  apply cadd_proper; [apply cadd_proper|]; (apply cmul_proper; [reflexivity|by apply ntt_at]).
Qed.

Lemma recovered_noise u' v' : reduced3 u' -> reduced v' ->
  (forall i, i = 0 \/ i = 1 \/ i = 2 -> at_ (vat u' i) ≈ cadd (at_ (vat (cipher_u pub randomness) i))
                                             (compression_error (vat (cipher_u pub randomness) i) kDU)) ->
  at_ v' ≈ cadd (at_ (cipher_v pub message randomness)) (compression_error (cipher_v pub message randomness) kDV) ->
  reduced (recovered priv u' v') /\
  at_ (recovered priv u' v') ≈ cadd (at_ (expanded_message message)) (noise s e pub message randomness).
Proof using Hkey.
  intros Hu Hv Eu Ev.
  destruct (inner_product_spec (sk_s priv) (vector_ntt u')) as [Hi Ei];
    [rewrite (kp_secret _ _ _ Hkey); apply vector_ntt_reduced, (kp_s _ _ _ Hkey)|by apply vector_ntt_reduced|].
  destruct (scalar_sub_spec _ _ Hv (scalar_inverse_ntt_reduced _ Hi)) as [Hr Er].
  split; [exact Hr|]. unfold recovered. etransitivity; [exact Er|]. apply ntt_inj.
  etransitivity; [apply ntt_sub|]. etransitivity; [apply csub_proper; [reflexivity|exact (ntt_inverse _ Hi)]|].
  etransitivity; [apply csub_proper; [reflexivity|exact Ei]|].
  pose proof ntt_cipher_v as EV. pose proof (ntt_cipher_u 0 ltac:(lia)) as EU0.
  pose proof (ntt_cipher_u 1 ltac:(lia)) as EU1. pose proof (ntt_cipher_u 2 ltac:(lia)) as EU2.
  destruct Hkey as [(s0 & s1 & s2 & Hs & Rs0 & Rs1 & Rs2) (f0 & f1 & f2 & He & Rf0 & Rf1 & Rf2)
    (a & b & c & Hm & (a0 & a1 & a2 & -> & Ra0 & Ra1 & Ra2) & (b0 & b1 & b2 & -> & Rb0 & Rb1 & Rb2) & (c0 & c1 & c2 & -> & Rc0 & Rc1 & Rc2)) Hsec Ht].
  destruct Hu as (u0 & u1 & u2 & -> & Ru0 & Ru1 & Ru2).
  etransitivity; [apply csub_proper; [reflexivity|apply dot_ntt_r; assumption]|].
  pose proof (kp_s _ _ _ Hkey) as Rs.
  refine (noise_equation (at_ a0) (at_ a1) (at_ a2) (at_ b0) (at_ b1) (at_ b2) (at_ c0) (at_ c1) (at_ c2)
    (at_ (vat (sk_s priv) 0)) (at_ (vat (sk_s priv) 1)) (at_ (vat (sk_s priv) 2))
    (at_ (vat (pk_t pub) 0)) (at_ (vat (pk_t pub) 1)) (at_ (vat (pk_t pub) 2))
    (at_ (vat (vector_ntt r) 0)) (at_ (vat (vector_ntt r) 1)) (at_ (vat (vector_ntt r) 2))
    (at_ (vat (matrix_mult (pk_m pub) (vector_ntt r)) 0)) (at_ (vat (matrix_mult (pk_m pub) (vector_ntt r)) 1))
    (at_ (vat (matrix_mult (pk_m pub) (vector_ntt r)) 2))
    (at_ (vat s 0)) (at_ (vat s 1)) (at_ (vat s 2)) (at_ (vat e 0)) (at_ (vat e 1)) (at_ (vat e 2))
    (at_ (vat r 0)) (at_ (vat r 1)) (at_ (vat r 2)) (at_ (vat e1 0)) (at_ (vat e1 1)) (at_ (vat e1 2))
    (compression_error (vat cu 0) kDU) (compression_error (vat cu 1) kDU) (compression_error (vat cu 2) kDU)
    (at_ (vat cu 0)) (at_ (vat cu 1)) (at_ (vat cu 2)) (at_ u0) (at_ u1) (at_ u2)
    (at_ cv) (at_ v') (at_ (sample randomness 6)) (at_ (expanded_message message)) (compression_error cv kDV)
    _ _ _ _ _ _ _ _ _ _ _ _ EU0 EU1 EU2 (Eu 0 ltac:(lia)) (Eu 1 ltac:(lia)) (Eu 2 ltac:(lia)) EV Ev).
  1-3: rewrite Hsec, Hs, vector_ntt_3; by apply ntt_at.
  1-3: unfold sample_vector; rewrite vector_ntt_3; apply ntt_at, sample_reduced.
  1-3: rewrite Ht, Hm, matrix_mult_transpose_3, He, vector_ntt_3, vector_add_3, Hsec; by apply t_component.
  all: rewrite Hm, matrix_mult_3 by (eexists _, _, _; split; [reflexivity|]; split_and!; assumption);
    apply inner_product_spec; [eexists _, _, _; split; [reflexivity|]; split_and!; assumption|
                              apply vector_ntt_reduced, sample_vector_reduced].
Qed.

End Cipher.

(** A message bit survives small noise. *)
Lemma message_bit w b n : 0 <= w < kPrime -> 0 <= b < 2 -> w ≡ₘ decompress b 1 + n -> (n + 832) mod kPrime < 1664 ->
  compress w 1 = b.
Proof.
  intros Hw Hb Hc Hn. rewrite decompress_spec in Hc by lia. rewrite compress_spec by lia. unfold kPrime in *.
  change (2 ^ (1 - 1)) with 1 in Hc. change (2 ^ 1) with 2 in *. set (k := (n + 832) mod 3329) in *.
  assert (Hk : 0 <= k) by (apply Z.mod_pos_bound; lia). assert (E := Z.div_mod (n + 832) 3329 ltac:(lia)). fold k in E.
  set (j := (n + 832) / 3329) in *. destruct Hc as [i Hi]. unfold kPrime in Hi.
  assert (Cb : b = 0 \/ b = 1) by lia. destruct Cb as [-> | ->].
  - change ((0 * 3329 + 1) / 2) with 0 in Hi. destruct (Z.lt_ge_cases k 832).
    + assert (w = k + 2497) by lia. replace ((2 * (2 * w) + 3329) / (2 * 3329)) with 2; [done|].
      apply (Z.div_unique _ _ _ (2 * (2 * w) + 3329 - 2 * (2 * 3329))); lia.
    + assert (w = k - 832) by lia. rewrite Z.div_small by lia. done.
  - change ((1 * 3329 + 1) / 2) with 1665 in Hi. assert (w = k + 833) by lia.
    replace ((2 * (2 * w) + 3329) / (2 * 3329)) with 1; [done|].
    apply (Z.div_unique _ _ _ (2 * (2 * w) + 3329 - 1 * (2 * 3329))); lia.
Qed.

(** ** The bytes of the ciphertext *)

Lemma vector_encode_spec bits x y z (out : list Z) : 0 <= bits ->
  len x = 256 -> len y = 256 -> len z = 256 -> fits bits x -> fits bits y -> fits bits z -> 96 * bits <= len out ->
  vector_encode out [x; y; z] bits =
  Some (scalar_encode x bits ++ scalar_encode y bits ++ scalar_encode z bits ++ zdrop (96 * bits) out).
Proof.
  intros Hb Lx Ly Lz Fx Fy Fz Ho.
  pose proof (length_scalar_encode bits x Hb Lx Fx) as Ex. pose proof (length_scalar_encode bits y Hb Ly Fy) as Ey.
  pose proof (length_scalar_encode bits z Hb Lz Fz) as Ez.
  unfold vector_encode. change (indices (Z.to_nat RANK)) with [0; 1; 2]. cbn [fold_left mbind option_bind].
  change (vat [x; y; z] 0) with x. change (vat [x; y; z] 1) with y. change (vat [x; y; z] 2) with z.
  set (ex := scalar_encode x bits) in *. set (ey := scalar_encode y bits) in *. set (ez := scalar_encode z bits) in *.
  clearbody ex ey ez.
  assert (H0 : 0 * bits * DEGREE /c 8 = 0) by done.
  assert (H1 : 1 * bits * DEGREE /c 8 = 32 * bits).
  { unfold DEGREE. replace (1 * bits * 256) with (32 * bits * 8) by lia. apply Z.quot_mul. lia. }
  assert (H2 : 2 * bits * DEGREE /c 8 = 64 * bits).
  { unfold DEGREE. replace (2 * bits * 256) with (64 * bits * 8) by lia. apply Z.quot_mul. lia. }
  rewrite H0, H1, H2. rewrite store_at_ok by lia. cbn [mbind option_bind]. rewrite ztake_0, Z.add_0_l, Ex. cbn [app].
  assert (Hd : len (zdrop (32 * bits) out) = len out - 32 * bits) by (apply len_zdrop; lia).
  rewrite store_at_ok by (rewrite ?len_app; lia). cbn [mbind option_bind].
  rewrite (ztake_app_eq (32 * bits)) by lia.
  assert (zdrop (32 * bits + len ey) (ex ++ zdrop (32 * bits) out) = zdrop (64 * bits) out) as ->.
  { rewrite <- zdrop_zdrop by lia. rewrite zdrop_app_eq, zdrop_zdrop by lia. f_equal. lia. }
  assert (Hd2 : len (zdrop (64 * bits) out) = len out - 64 * bits) by (apply len_zdrop; lia).
  rewrite store_at_ok by (rewrite ?len_app; lia). rewrite (app_assoc ex ey (zdrop (64 * bits) out)).
  rewrite (ztake_app_eq (64 * bits)) by (rewrite len_app; lia).
  assert (zdrop (64 * bits + len ez) ((ex ++ ey) ++ zdrop (64 * bits) out) = zdrop (96 * bits) out) as ->.
  { rewrite <- zdrop_zdrop by lia. rewrite zdrop_app_eq, zdrop_zdrop by (rewrite ?len_app; lia). f_equal. lia. }
  by rewrite <- app_assoc.
Qed.

Lemma encoded_offset i bits : 0 <= i -> 0 <= bits -> i * bits * DEGREE /c 8 = i * (32 * bits).
Proof. intros Hi Hb. unfold DEGREE. replace (i * bits * 256) with (i * (32 * bits) * 8) by lia. apply Z.quot_mul. lia. Qed.

Lemma vector_decode_3 inp bits x y z : 0 <= bits ->
  scalar_decode (zdrop 0 inp) bits = Some (Some x) -> scalar_decode (zdrop (32 * bits) inp) bits = Some (Some y) ->
  scalar_decode (zdrop (64 * bits) inp) bits = Some (Some z) -> vector_decode inp bits = Some (Some [x; y; z]).
Proof.
  intros Hb Ex Ey Ez. unfold vector_decode. change (Z.to_nat RANK) with 3%nat. cbn [vector_decode_from].
  rewrite !encoded_offset by lia. replace (0 * (32 * bits)) with 0 by lia. replace ((0 + 1) * (32 * bits)) with (32 * bits) by lia.
  replace ((0 + 1 + 1) * (32 * bits)) with (64 * bits) by lia. rewrite Ex. cbn [mbind option_bind].
  rewrite Ey. cbn [mbind option_bind]. rewrite Ez. reflexivity.
Qed.

(** A vector and the bytes after it come back. *)
Lemma vector_decode_encode bits x y z rest : 0 <= bits <= 16 -> reduced x -> reduced y -> reduced z ->
  fits bits x -> fits bits y -> fits bits z -> bytes rest ->
  vector_decode (scalar_encode x bits ++ scalar_encode y bits ++ scalar_encode z bits ++ rest) bits = Some (Some [x; y; z]) /\
  zdrop (96 * bits) (scalar_encode x bits ++ scalar_encode y bits ++ scalar_encode z bits ++ rest) = rest.
Proof.
  intros Hb Rx Ry Rz Fx Fy Fz Hr.
  pose proof (length_scalar_encode bits x ltac:(lia) (proj1 Rx) Fx) as Ex.
  pose proof (length_scalar_encode bits y ltac:(lia) (proj1 Ry) Fy) as Ey.
  pose proof (length_scalar_encode bits z ltac:(lia) (proj1 Rz) Fz) as Ez.
  pose proof (bytes_scalar_encode bits y ltac:(lia) (proj1 Ry) Fy) as By.
  pose proof (bytes_scalar_encode bits z ltac:(lia) (proj1 Rz) Fz) as Bz.
  split.
  - apply vector_decode_3; [lia|..].
    + rewrite zdrop_0. apply scalar_decode_encode; [lia|done|done|]. apply bytes_app. split; [done|]. by apply bytes_app.
    + rewrite zdrop_app_eq by lia. apply scalar_decode_encode; [lia|done|done|]. by apply bytes_app.
    + rewrite app_assoc, zdrop_app_eq by (rewrite len_app; lia). by apply scalar_decode_encode; [lia|..].
  - rewrite app_assoc, app_assoc, zdrop_app_eq; [done|]. rewrite !len_app. lia.
Qed.

(** With at most eleven bits every value decodes. *)
Lemma scalar_decode_total bits inp : 0 <= bits <= 11 -> bytes inp -> 32 * bits <= len inp ->
  scalar_decode inp bits = Some (Some (unpack bits 256 (le_val inp))) /\
  len (unpack bits 256 (le_val inp)) = 256 /\ fits bits (unpack bits 256 (le_val inp)).
Proof.
  intros Hb Hi Hl. pose proof (fits_unpack bits 256 (le_val inp) ltac:(lia)) as Hf.
  assert (Hlen : len (unpack bits 256 (le_val inp)) = 256) by (unfold len; by rewrite length_unpack).
  split; [|done]. rewrite scalar_decode_spec by (done || lia). rewrite forallb_small; [done|].
  pose proof (fits_reduced bits _ ltac:(lia) Hlen Hf) as Hr. exact (proj2 (proj1 (reduced_Forall _) Hr)).
Qed.

(** ** Encryption and decryption *)

#[local] Strategy expand [cipher_u cipher_v expanded_message].

Lemma compressed_fits c bits : reduced c -> 1 <= bits <= 11 -> len (scalar_compress c bits) = 256 /\ fits bits (scalar_compress c bits).
Proof. intros Hc Hb. destruct (scalar_compress_spec c bits Hc Hb) as (? & ? & _). done. Qed.

(** Binding a value. *)
Lemma bind_some {A B} (m : option A) a (f : A -> option B) : m = Some a -> m ≫= f = f a.
Proof. by intros ->. Qed.

Lemma encrypt_cpa_cipher out pub message randomness : bytes randomness ->
  encrypt_cpa out pub message randomness =
  (out ← vector_encode out (vector_compress (cipher_u pub randomness) kDU) kDU;
   store_at out kCompressedVectorSize (scalar_encode (scalar_compress (cipher_v pub message randomness) kDV) kDV)).
Proof.
  intros Hr. unfold encrypt_cpa.
  etransitivity; [exact (bind_some _ _ _ (generate_secret_spec 0 randomness Hr ltac:(lia)))|]. cbv beta iota.
  etransitivity; [exact (bind_some _ _ _ (generate_secret_spec (0 + 3) randomness Hr ltac:(lia)))|]. cbv beta iota.
  etransitivity; [exact (bind_some _ _ _ (cbd_with_prf randomness (0 + 3 + 3) Hr ltac:(done)))|]. reflexivity.
Qed.

Lemma encrypt_cpa_spec out pub message randomness : reduced3 (cipher_u pub randomness) -> reduced (cipher_v pub message randomness) ->
  bytes randomness -> len out = KYBER_CIPHERTEXT_BYTES ->
  encrypt_cpa out pub message randomness = Some (cipher pub message randomness) /\
  len (cipher pub message randomness) = KYBER_CIPHERTEXT_BYTES /\ bytes (cipher pub message randomness).
Proof.
  intros Hu Hv Hr Ho. rewrite encrypt_cpa_cipher by done. unfold KYBER_CIPHERTEXT_BYTES, cipher, cipher_bytes in *.
  destruct Hu as (x & y & z & -> & Hx & Hy & Hz). set (v := cipher_v pub message randomness) in *. clearbody v.
  change (vat [x; y; z] 0) with x. change (vat [x; y; z] 1) with y. change (vat [x; y; z] 2) with z.
  rewrite vector_compress_3. unfold kDU, kDV in *.
  destruct (compressed_fits x 10 Hx ltac:(lia)) as [Lx Fx]. destruct (compressed_fits y 10 Hy ltac:(lia)) as [Ly Fy].
  destruct (compressed_fits z 10 Hz ltac:(lia)) as [Lz Fz]. destruct (compressed_fits v 4 Hv ltac:(lia)) as [Lv Fv].
  rewrite vector_encode_spec by (done || lia). cbn [mbind option_bind].
  pose proof (length_scalar_encode 10 _ ltac:(lia) Lx Fx) as Ex. pose proof (length_scalar_encode 10 _ ltac:(lia) Ly Fy) as Ey.
  pose proof (length_scalar_encode 10 _ ltac:(lia) Lz Fz) as Ez. pose proof (length_scalar_encode 4 _ ltac:(lia) Lv Fv) as Ev.
  pose proof (bytes_scalar_encode 10 _ ltac:(lia) Lx Fx) as Bx. pose proof (bytes_scalar_encode 10 _ ltac:(lia) Ly Fy) as By.
  pose proof (bytes_scalar_encode 10 _ ltac:(lia) Lz Fz) as Bz. pose proof (bytes_scalar_encode 4 _ ltac:(lia) Lv Fv) as Bv.
  set (ex := scalar_encode (scalar_compress x 10) 10) in *. set (ey := scalar_encode (scalar_compress y 10) 10) in *.
  set (ez := scalar_encode (scalar_compress z 10) 10) in *. set (ev := scalar_encode (scalar_compress v 4) 4) in *.
  clearbody ex ey ez ev. change kCompressedVectorSize with 960. change (96 * 10) with 960.
  assert (Hd : len (zdrop 960 out) = 128) by (rewrite len_zdrop; lia).
  split; [|split; [rewrite !len_app; lia|repeat (apply bytes_app; split; [done|]); done]].
  assert (Hend : zdrop (960 + len ev) (ex ++ ey ++ ez ++ zdrop 960 out) = []).
  { rewrite <- zdrop_zdrop, !app_assoc, zdrop_app_eq by (rewrite ?len_app; lia).
    replace (len ev) with (len (zdrop 960 out)) by lia. apply zdrop_all. }
  rewrite store_at_ok, Hend, app_nil_r by (rewrite ?len_app; lia). f_equal. rewrite !app_assoc.
  by rewrite (ztake_app_eq 960) by (rewrite !len_app; lia).
Qed.

(** Decryption of four encoded scalars. *)
Lemma decrypt_cpa_encoded priv x y z v rest : len x = 256 -> len y = 256 -> len z = 256 -> len v = 256 ->
  fits kDU x -> fits kDU y -> fits kDU z -> fits kDV v -> bytes rest ->
  decrypt_cpa priv (scalar_encode x kDU ++ scalar_encode y kDU ++ scalar_encode z kDU ++ scalar_encode v kDV ++ rest) =
  Some (scalar_encode_1 (scalar_compress (recovered priv (vector_decompress [x; y; z] kDU) (scalar_decompress v kDV)) 1)).
Proof.
  intros Lx Ly Lz Lv Fx Fy Fz Fv Hr. unfold kDU, kDV in *.
  pose proof (fits_reduced 10 x ltac:(lia) Lx Fx) as Rx. pose proof (fits_reduced 10 y ltac:(lia) Ly Fy) as Ry.
  pose proof (fits_reduced 10 z ltac:(lia) Lz Fz) as Rz. pose proof (fits_reduced 4 v ltac:(lia) Lv Fv) as Rv.
  assert (Hb : bytes (scalar_encode v 4 ++ rest)) by (apply bytes_app; split; [by apply bytes_scalar_encode|done]).
  destruct (vector_decode_encode 10 x y z (scalar_encode v 4 ++ rest)) as [Ed Ez]; [lia|done..|].
  pose proof (scalar_decode_encode 4 v rest ltac:(lia) Rv Fv Hr) as Ev. rewrite <- Ez in Ev.
  set (ct := scalar_encode x 10 ++ _) in *. clearbody ct. unfold decrypt_cpa.
  etransitivity; [exact (bind_some _ _ _ Ed)|]. cbv beta iota.
  etransitivity; [exact (bind_some _ _ _ (eq_refl (Some [x; y; z])))|]. cbv beta.
  etransitivity; [exact (bind_some _ _ _ Ev)|]. reflexivity.
Qed.

(** Decompressing a compressed scalar adds the error of compression. *)
Lemma decompress_compress c bits : reduced c -> 1 <= bits <= 11 ->
  reduced (scalar_decompress (scalar_compress c bits) bits) /\
  at_ (scalar_decompress (scalar_compress c bits) bits) ≈ cadd (at_ c) (compression_error c bits).
Proof.
  intros Hc Hb. destruct (compressed_fits c bits Hc Hb) as [Hl Hf]. split; [exact (proj1 (scalar_decompress_spec _ bits Hl Hf Hb))|].
  intros x Hx. unfold cadd, compression_error, csub. exists 0. lia.
Qed.

(** Small noise does not change the message. *)
Lemma message_recovered w message f : reduced w -> bytes message -> len message = 32 ->
  at_ w ≈ cadd (at_ (expanded_message message)) f -> small_noise f -> scalar_encode_1 (scalar_compress w 1) = message.
Proof.
  intros Hw Hm Hl Hat Hf. destruct (scalar_decode_1_spec message) as (Ld & Fd & Ad).
  destruct (scalar_decompress_spec _ 1 Ld Fd ltac:(lia)) as [_ Ax].
  destruct (scalar_compress_spec w 1 Hw ltac:(lia)) as (_ & _ & Ac).
  apply scalar_encode_1_bits; [done|done|]. intros x Hx. rewrite Ac by done.
  apply (message_bit _ _ (f x)); [apply Hw| |  |by apply Hf].
  - unfold bit_at. pose proof (b2z_range (Z.testbit (at_ message (x / 8)) (x mod 8))). lia.
  - rewrite <- Ad, <- Ax by done. exact (Hat x Hx).
Qed.

Lemma decrypt_cipher s e priv message randomness : key_pair s e priv -> bytes message -> len message = 32 ->
  small_noise (noise s e (sk_pub priv) message randomness) ->
  decrypt_cpa priv (cipher (sk_pub priv) message randomness) = Some message.
Proof.
  intros Hk Hm Hl Hn. pose proof (cipher_u_reduced s e priv randomness Hk) as Hu.
  pose proof (cipher_v_reduced s e priv message randomness Hk) as Hv.
  pose proof (recovered_noise s e priv message randomness Hk) as Hrec. unfold cipher, cipher_bytes.
  destruct Hu as (x & y & z & Eu & Hx & Hy & Hz). rewrite Eu in *.
  set (v := cipher_v (sk_pub priv) message randomness) in *.
  change (vat [x; y; z] 0) with x. change (vat [x; y; z] 1) with y. change (vat [x; y; z] 2) with z.
  destruct (compressed_fits x kDU Hx ltac:(unfold kDU; lia)) as [Lx Fx]. destruct (compressed_fits y kDU Hy ltac:(unfold kDU; lia)) as [Ly Fy].
  destruct (compressed_fits z kDU Hz ltac:(unfold kDU; lia)) as [Lz Fz]. destruct (compressed_fits v kDV Hv ltac:(unfold kDV; lia)) as [Lv Fv].
  pose proof (decrypt_cpa_encoded priv _ _ _ _ [] Lx Ly Lz Lv Fx Fy Fz Fv bytes_nil) as Ed.
  rewrite app_nil_r, vector_decompress_3 in Ed. etransitivity; [exact Ed|]. f_equal.
  destruct (decompress_compress x kDU Hx ltac:(unfold kDU; lia)) as [Rx Ex]. destruct (decompress_compress y kDU Hy ltac:(unfold kDU; lia)) as [Ry Ey].
  destruct (decompress_compress z kDU Hz ltac:(unfold kDU; lia)) as [Rz Ez]. destruct (decompress_compress v kDV Hv ltac:(unfold kDV; lia)) as [Rv Ev].
  destruct (Hrec [scalar_decompress (scalar_compress x kDU) kDU; scalar_decompress (scalar_compress y kDU) kDU; scalar_decompress (scalar_compress z kDU) kDU]
    (scalar_decompress (scalar_compress v kDV) kDV)) as [Hw Ew].
  - eexists _, _, _. split; [reflexivity|]. split_and!; assumption.
  - exact Rv.
  - intros i [->|[->| ->]]; [exact Ex|exact Ey|exact Ez].
  - exact Ev.
  - exact (message_recovered _ message _ Hw Hm Hl Ew Hn).
Qed.

End Scheme.
