(* ===== verification/KyberArith.v ===== *)
(** The arithmetic of Kyber768 scalars: every operation keeps the coefficients reduced, products of
    transforms are products of polynomials, and compression rounds. *)
From S2P Require Import Prelude.
From S2P Require Import Internal.
From S2P Require Import Mem.
From S2P Require Import Arrays.
From S2P Require Import Heap.
From S2P Require Import Md32.
From S2P Require Import Keccak.
From S2P Require Import KeccakProofs.
From S2P Require Import Kyber.
From S2P Require Import KyberNtt.
From S2P Require Import KyberRing.
From S2P Require Import KyberCodec.
From S2P Require Import KyberSample.
From S2P Require Import KyberProofs.

Open Scope Z_scope.

#[local] Opaque scalar_ntt scalar_inverse_ntt scalar_add scalar_sub scalar_mult scalar_compress scalar_decompress
  scalar_encode scalar_decode scalar_decode_1 keccak_hash.

Lemma cong_reduced a b : 0 <= a < kPrime -> a ≡ₘ b -> a = b mod kPrime.
Proof. intros Ha H. apply cong_mod in H. by rewrite Z.mod_small in H. Qed.


(** C5: the number-theoretic transform. scalar_ntt and scalar_inverse_ntt are inverse to each other
    on reduced scalars, and scalar_mult of transforms, transformed back, is the product of
    polynomials modulo X^256 + 1 and the prime. *)
Theorem kyber_ntt_multiplication a b : reduced a -> reduced b ->
  scalar_inverse_ntt (scalar_ntt a) = a /\ scalar_ntt (scalar_inverse_ntt a) = a /\
  forall k, 0 <= k < 256 ->
    at_ (scalar_inverse_ntt (scalar_mult scalar_zero (scalar_ntt a) (scalar_ntt b))) k = negacyclic (at_ a) (at_ b) k mod kPrime.
Proof.
  intros Ha Hb. split; [exact (scalar_inverse_ntt_ntt a Ha)|]. split; [exact (scalar_ntt_inverse_ntt a Ha)|].
  destruct (scalar_ntt_spec a Ha) as [Ra Ea]. destruct (scalar_ntt_spec b Hb) as [Rb Eb].
  destruct (scalar_mult_spec scalar_zero _ _ eq_refl Ra Rb) as [Rm Em]. pose proof (scalar_inverse_ntt_reduced _ Rm) as Rc.
  assert (E : at_ (scalar_inverse_ntt (scalar_mult scalar_zero (scalar_ntt a) (scalar_ntt b))) ≈ negacyclic (at_ a) (at_ b)).
  { apply ntt_inj. rewrite ntt_inverse by exact Rm. rewrite Em, Ea, Eb, ntt_negacyclic. reflexivity. }
  intros k Hk. apply cong_reduced; [apply Rc|]. exact (E k Hk).
Qed.

(** Compression. scalar_compress rounds: it takes a coefficient x to the integer nearest to
    2^bits * x / kPrime, modulo 2^bits. scalar_decompress takes that back to the coefficient plus, modulo
    the prime, an error e with 2^bits * |e| <= 2^(bits-1) + 1664. *)
Theorem kyber_compress_rounds `{Platform} c bits x : reduced c -> 1 <= bits <= 11 -> 0 <= x < 256 ->
  at_ (scalar_compress c bits) x = ((2 * (2 ^ bits * at_ c x) + kPrime) / (2 * kPrime)) mod 2 ^ bits /\
  exists e, at_ (scalar_decompress (scalar_compress c bits) bits) x = (at_ c x + e) mod kPrime /\
    2 ^ bits * Z.abs e <= 2 ^ (bits - 1) + 1664.
Proof.
  intros Hc Hb Hx. destruct (scalar_compress_spec c bits Hc Hb) as (Lc & Fc & Ac). destruct (scalar_decompress_spec _ bits Lc Fc Hb) as [Rd Ad].
  split; [rewrite (Ac x Hx); exact (compress_spec _ bits (proj2 Hc x) Hb)|].
  destruct (compress_error (at_ c x) bits (proj2 Hc x) Hb) as (e & He & Hbound). exists e. split; [|exact Hbound].
  apply cong_reduced; [apply Rd|]. rewrite (Ad x Hx), (Ac x Hx). destruct He as [q Hq]. exists q. lia.
Qed.

(** The scalar with the coefficients 0, 1, ..., 255. *)
Definition ramp : scalar := (fun i => i) <$> indices 256.

Lemma ramp_reduced : reduced ramp.
Proof. apply (reduced_indices (fun i => i)). unfold kPrime. lia. Qed.


Lemma kyber_ntt_multiplication_witness :
  at_ (scalar_inverse_ntt (scalar_mult scalar_zero (scalar_ntt ramp) (scalar_ntt ramp))) 7 = negacyclic (at_ ramp) (at_ ramp) 7 mod kPrime.
Proof. apply (proj2 (proj2 (kyber_ntt_multiplication ramp ramp ramp_reduced ramp_reduced))). lia. Defined.

Lemma kyber_compress_rounds_witness : at_ (@scalar_compress LP64 ramp 4) 200 =
  ((2 * (2 ^ 4 * at_ ramp 200) + kPrime) / (2 * kPrime)) mod 2 ^ 4.
Proof. apply (@kyber_compress_rounds LP64 ramp 4 200); [exact ramp_reduced|lia|lia]. Defined.
