(* ===== verification/KyberKemProofs.v ===== *)
(** The key encapsulation of Kyber768: decapsulation gives the encapsulated secret back, and a
    ciphertext that is not an encryption gives a secret of the private key. *)
From S2P Require Import Prelude.
From S2P Require Import Internal.
From S2P Require Import Mem.
From S2P Require Import Arrays.
From S2P Require Import Heap.
From S2P Require Import Md32.
From S2P Require Import Cbs.
From S2P Require Import Cbb.
From S2P Require Import Keccak.
From S2P Require Import KeccakProofs.
From S2P Require Import Kyber.
From S2P Require Import KyberNtt.
From S2P Require Import KyberRing.
From S2P Require Import KyberCodec.
From S2P Require Import KyberSample.
From S2P Require Import KyberKem.
From S2P Require Import KyberProofs.

Open Scope Z_scope.

#[local] Opaque scalar_ntt scalar_inverse_ntt scalar_add scalar_sub scalar_mult scalar_compress scalar_decompress
  scalar_encode scalar_decode scalar_decode_1 keccak_hash cipher noise.

Definition sha3_256 (m : list Z) : list Z := keccak_hash boringssl_sha3_256 m 32.
Definition sha3_512 (m : list Z) : list Z := keccak_hash boringssl_sha3_512 m 64.
Definition shake256 (m : list Z) (d : Z) : list Z := keccak_hash boringssl_shake256 m d.

Lemma hash_h_spec m : bytes m -> hash_h m = Some (sha3_256 m).
Proof. intros Hm. unfold hash_h. by rewrite keccak_oneshot. Qed.
Lemma hash_g_spec m : bytes m -> hash_g m = Some (sha3_512 m).
Proof. intros Hm. unfold hash_g. by rewrite keccak_oneshot. Qed.
Lemma kdf_spec d m : bytes m -> 0 <= d -> kdf d m = Some (shake256 m d).
Proof. intros Hm Hd. unfold kdf. by rewrite keccak_oneshot. Qed.

Section Kem.
Context `{PF : Platform} `{AL : Allocator}.

(** A private key whose parts are well formed. *)
Record private_ok (priv : private_key) : Prop := {
  ok_t : reduced3 (pk_t (sk_pub priv));
  ok_m : reduced33 (pk_m (sk_pub priv));
  ok_s : reduced3 (sk_s priv);
  ok_hash : bytes (pk_hash (sk_pub priv)) /\ len (pk_hash (sk_pub priv)) = 32;
  ok_fo : bytes (sk_fo_failure_secret priv) /\ len (sk_fo_failure_secret priv) = 32;
}.

Lemma cipher_reduced pub message randomness : reduced3 (pk_t pub) -> reduced33 (pk_m pub) ->
  reduced3 (cipher_u pub randomness) /\ reduced (cipher_v pub message randomness).
Proof.
  intros Ht Hm. split.
  - apply vector_add_reduced; [|apply sample_vector_reduced]. apply vector_inverse_ntt_reduced.
    apply matrix_mult_reduced; [exact Hm|]. apply vector_ntt_reduced, sample_vector_reduced.
  - assert (Hi : reduced (scalar_inner_product (pk_t pub) (vector_ntt (sample_vector randomness 0))))
      by (apply inner_product_spec; [exact Ht|apply vector_ntt_reduced, sample_vector_reduced]).
    destruct (scalar_add_spec _ _ (scalar_inverse_ntt_reduced _ Hi) (sample_reduced randomness 6)) as [H1 _].
    exact (proj1 (scalar_add_spec _ _ H1 (expanded_message_reduced message))).
Qed.

(** The ciphertext of an encapsulation, and the two halves of the hash of message and key. *)
Definition prekey (pub : public_key) (message : list Z) : list Z := sha3_512 (ztake 32 message ++ ztake 32 (pk_hash pub)).
Definition encapsulated (pub : public_key) (message : list Z) : list Z := cipher pub message (zdrop 32 (prekey pub message)).

Lemma prekey_bytes pub message : bytes (prekey pub message) /\ len (prekey pub message) = 64.
Proof. split; [apply bytes_keccak_hash|by apply len_keccak_hash]. Qed.

(** Encapsulation: Algorithm 8 of the specification. *)
Lemma encap_spec out pub message : reduced3 (pk_t pub) -> reduced33 (pk_m pub) -> bytes (pk_hash pub) -> bytes message ->
  len out = KYBER_CIPHERTEXT_BYTES ->
  KYBER_encap_external_entropy out pub message =
  Some (encapsulated pub message, shake256 (ztake 32 (prekey pub message) ++ sha3_256 (encapsulated pub message)) 32).
Proof.
  intros Ht Hm Hh Hmsg Ho. destruct (prekey_bytes pub message) as [Bp Lp].
  assert (Bi : bytes (ztake 32 message ++ ztake 32 (pk_hash pub))) by (apply bytes_app; split; by apply bytes_ztake).
  unfold KYBER_encap_external_entropy. etransitivity; [exact (bind_some _ _ _ (hash_g_spec _ Bi))|].
  fold (prekey pub message). destruct (cipher_reduced pub message (zdrop 32 (prekey pub message)) Ht Hm) as [Hu Hv].
  destruct (encrypt_cpa_spec out pub message (zdrop 32 (prekey pub message)) Hu Hv) as (Ee & Le & Be); [by apply bytes_zdrop|done|].
  etransitivity; [exact (bind_some _ _ _ Ee)|]. fold (encapsulated pub message) in *.
  etransitivity; [exact (bind_some _ _ _ (hash_h_spec _ Be))|]. set (p := prekey pub message) in *. set (ct := encapsulated pub message) in *.
  assert (Lh : len (sha3_256 ct) = 32) by (by apply len_keccak_hash).
  assert (Es : store_at p 32 (sha3_256 ct) = Some (ztake 32 p ++ sha3_256 ct)).
  { rewrite store_at_ok by lia. replace (32 + len (sha3_256 ct)) with (len p) by lia. by rewrite zdrop_all, app_nil_r. }
  etransitivity; [exact (bind_some _ _ _ Es)|].
  assert (Bk : bytes (ztake 32 p ++ sha3_256 ct)) by (apply bytes_app; split; [by apply bytes_ztake|apply bytes_keccak_hash]).
  etransitivity; [exact (bind_some _ _ _ (kdf_spec 32 _ Bk ltac:(lia)))|]. reflexivity.
Qed.

(** ** Decapsulation *)

Lemma scalar_encode_1_bytes c : bytes (scalar_encode_1 c) /\ len (scalar_encode_1 c) = 32.
Proof.
  unfold scalar_encode_1. rewrite fold_snoc_map. cbn [app]. change (Z.to_nat (DEGREE /c 8)) with 32%nat.
  split; [|apply len_indices]. apply Forall_fmap, List.Forall_forall. intros n _. cbn [compose].
  change (Z.to_nat 8) with 8%nat. rewrite (indices_S 7), fold_left_app. cbn [fold_left]. apply byte_wrap8.
Qed.
#[local] Opaque scalar_encode_1.

(** Every ciphertext of the right length decrypts: the return values decrypt_cpa ignores are one. *)
Lemma decrypt_cpa_total priv ct : bytes ct -> len ct = KYBER_CIPHERTEXT_BYTES -> exists m, decrypt_cpa priv ct = Some m /\ bytes m /\ len m = 32.
Proof.
  unfold KYBER_CIPHERTEXT_BYTES. intros Hb Hl.
  destruct (scalar_decode_total 10 (zdrop 0 ct)) as [E0 _]; [lia|by apply bytes_zdrop|rewrite len_zdrop; lia|].
  destruct (scalar_decode_total 10 (zdrop (32 * 10) ct)) as [E1 _]; [lia|by apply bytes_zdrop|rewrite len_zdrop; lia|].
  destruct (scalar_decode_total 10 (zdrop (64 * 10) ct)) as [E2 _]; [lia|by apply bytes_zdrop|rewrite len_zdrop; lia|].
  destruct (scalar_decode_total 4 (zdrop 960 ct)) as [E3 _]; [lia|by apply bytes_zdrop|rewrite len_zdrop; lia|].
  pose proof (vector_decode_3 ct 10 _ _ _ ltac:(lia) E0 E1 E2) as Ed. clear E0 E1 E2. revert Ed E3.
  generalize (unpack 4 256 (le_val (zdrop 960 ct))) as v. generalize (unpack 10 256 (le_val (zdrop 0 ct))) as x.
  generalize (unpack 10 256 (le_val (zdrop (32 * 10) ct))) as y. generalize (unpack 10 256 (le_val (zdrop (64 * 10) ct))) as z.
  intros z y x v Ed Ev. eexists. split; [|apply scalar_encode_1_bytes]. unfold decrypt_cpa.
  etransitivity; [exact (bind_some _ _ _ Ed)|]. etransitivity; [exact (bind_some _ _ _ (eq_refl (Some [x; y; z])))|].
  etransitivity; [exact (bind_some _ _ _ Ev)|]. reflexivity.
Qed.

Lemma memcmp_byte a b : is_byte (CRYPTO_memcmp a b).
Proof.
  unfold CRYPTO_memcmp. assert (H : forall l x, is_byte x -> is_byte (fold_left (fun x '(ai, bi) => u8 (Z.lor x (Z.lxor ai bi))) l x)).
  { induction l as [|[ai bi] l IH]; intros x Hx; [done|]. apply IH, byte_wrap8. }
  by apply H.
Qed.

(** The mask of the comparison selects the key or the failure secret. *)
Lemma select_key ct ct' k z : bytes ct -> bytes ct' -> length ct = length ct' -> bytes k -> bytes z -> len z = 32 -> 32 <= len k ->
  (fun i => constant_time_select_8 (constant_time_eq_int_8 (CRYPTO_memcmp ct ct') 0) (at_ k i) (at_ z i)) <$> indices 32 =
  if decide (ct = ct') then ztake 32 k else z.
Proof.
  intros Hc Hc' Hlen Hk Hz Lz Lk. pose proof (memcmp_byte ct ct') as Hb.
  pose proof (memcmp_acc ct ct' 0 Hc Hc' Hlen ltac:(done)) as Heq. change (fold_left _ _ 0) with (CRYPTO_memcmp ct ct') in Heq.
  set (x := CRYPTO_memcmp ct ct') in *. clearbody x. unfold is_byte in Hb.
  assert (Hm : constant_time_eq_int_8 x 0 = if x =? 0 then 255 else 0).
  { unfold constant_time_eq_int_8. rewrite constant_time_eq_8_spec by apply is_word_wrap.
    rewrite !wrap_small by (platform; lia). done. }
  rewrite Hm. assert (Hs : forall i, constant_time_select_8 (if x =? 0 then 255 else 0) (at_ k i) (at_ z i) = if x =? 0 then at_ k i else at_ z i).
  { intros i. apply constant_time_select_8_u8; [by apply at_byte|by apply at_byte|]. by destruct (x =? 0). }
  apply list_eq_at.
  - rewrite len_indices. destruct (decide _); [rewrite len_ztake; lia|lia].
  - rewrite len_indices. intros i Hi. rewrite (at_indices (fun i => constant_time_select_8 _ (at_ k i) (at_ z i))), Hs by lia.
    destruct (Z.eqb_spec x 0) as [Hx|Hx]; destruct (decide (ct = ct')) as [Hd|Hd].
    + by rewrite at_ztake by lia.
    + destruct Hd. by apply Heq.
    + destruct Hx. by apply Heq.
    + done.
Qed.

(** Decapsulation: Algorithm 9 of the specification. *)
Lemma decap_spec priv ct : private_ok priv -> bytes ct -> len ct = KYBER_CIPHERTEXT_BYTES ->
  exists m, decrypt_cpa priv ct = Some m /\ bytes m /\ len m = 32 /\
  KYBER_decap ct priv =
  Some (shake256 ((if decide (ct = encapsulated (sk_pub priv) m) then ztake 32 (prekey (sk_pub priv) m) else sk_fo_failure_secret priv)
                  ++ sha3_256 ct) 32).
Proof.
  intros [Ht Hm Hs [Bh Lh] [Bf Lf]] Hb Hl. destruct (decrypt_cpa_total priv ct Hb Hl) as (m & Em & Bm & Lm).
  exists m. split; [done|]. split; [done|]. split; [done|]. unfold KYBER_decap.
  etransitivity; [exact (bind_some _ _ _ Em)|]. cbv zeta.
  assert (Et : ztake 32 (m ++ ztake (64 - 32) (pk_hash (sk_pub priv))) = m) by (by apply ztake_app_eq).
  assert (Em32 : ztake 32 m = m) by (rewrite <- Lm; apply ztake_all). rewrite Et.
  assert (Bi : bytes (m ++ ztake (64 - 32) (pk_hash (sk_pub priv)))) by (apply bytes_app; split; [done|by apply bytes_ztake]).
  etransitivity; [exact (bind_some _ _ _ (hash_g_spec _ Bi))|].
  assert (Ep : sha3_512 (m ++ ztake (64 - 32) (pk_hash (sk_pub priv))) = prekey (sk_pub priv) m) by (unfold prekey; by rewrite Em32).
  rewrite Ep. destruct (prekey_bytes (sk_pub priv) m) as [Bp Lp].
  destruct (cipher_reduced (sk_pub priv) m (zdrop 32 (prekey (sk_pub priv) m)) Ht Hm) as [Hu Hv].
  destruct (encrypt_cpa_spec (replicate (Z.to_nat KYBER_CIPHERTEXT_BYTES) 0) (sk_pub priv) m (zdrop 32 (prekey (sk_pub priv) m)) Hu Hv)
    as (Ee & Le & Be); [by apply bytes_zdrop|by rewrite len_replicate|].
  etransitivity; [exact (bind_some _ _ _ Ee)|]. fold (encapsulated (sk_pub priv) m) in *.
  etransitivity; [exact (bind_some _ _ _ (hash_h_spec _ Hb))|].
  rewrite (select_key ct (encapsulated (sk_pub priv) m) (prekey (sk_pub priv) m) (sk_fo_failure_secret priv));
    [|done|done|unfold len in *; lia|done|done|done|lia].
  apply kdf_spec; [|lia]. apply bytes_app. split; [|apply bytes_keccak_hash]. destruct (decide _); [by apply bytes_ztake|done].
Qed.

(** ** Correctness of the key encapsulation *)

Lemma key_pair_ok s e priv : key_pair s e priv -> bytes (pk_hash (sk_pub priv)) -> len (pk_hash (sk_pub priv)) = 32 ->
  bytes (sk_fo_failure_secret priv) -> len (sk_fo_failure_secret priv) = 32 -> private_ok priv.
Proof.
  intros Hk Bh Lh Bf Lf. split; [exact (key_t_reduced s e priv Hk)|exact (kp_m _ _ _ Hk)| |done|done].
  rewrite (kp_secret _ _ _ Hk). apply vector_ntt_reduced, (kp_s _ _ _ Hk).
Qed.

Lemma encapsulated_bytes pub message : reduced3 (pk_t pub) -> reduced33 (pk_m pub) ->
  bytes (encapsulated pub message) /\ len (encapsulated pub message) = KYBER_CIPHERTEXT_BYTES.
Proof.
  intros Ht Hm. destruct (cipher_reduced pub message (zdrop 32 (prekey pub message)) Ht Hm) as [Hu Hv].
  destruct (encrypt_cpa_spec (replicate (Z.to_nat KYBER_CIPHERTEXT_BYTES) 0) pub message (zdrop 32 (prekey pub message)) Hu Hv)
    as (_ & Le & Be); [apply bytes_zdrop, prekey_bytes|by rewrite len_replicate|]. split; [exact Be|exact Le].
Qed.

(** C4: decapsulation undoes encapsulation. For a key pair with secret [s] and error [e], and 32
    bytes of entropy for which the noise of the encryption is less than a quarter of the prime,
    KYBER_encap_external_entropy succeeds, and KYBER_decap of its ciphertext gives the shared secret
    it returned. *)
Theorem kyber_decap_encap s e priv entropy out :
  key_pair s e priv -> private_ok priv -> bytes entropy -> len entropy = KYBER_ENCAP_ENTROPY -> len out = KYBER_CIPHERTEXT_BYTES ->
  small_noise (noise s e (sk_pub priv) entropy (zdrop 32 (prekey (sk_pub priv) entropy))) ->
  exists ciphertext secret,
    KYBER_encap_external_entropy out (sk_pub priv) entropy = Some (ciphertext, secret) /\
    KYBER_decap ciphertext priv = Some secret /\
    len ciphertext = KYBER_CIPHERTEXT_BYTES /\ len secret = KYBER_SHARED_SECRET_BYTES.
Proof.
  intros Hk Hok He Hl Ho Hn. pose proof (encap_spec out (sk_pub priv) entropy (ok_t _ Hok) (ok_m _ Hok) (proj1 (ok_hash _ Hok)) He Ho) as E.
  destruct (encapsulated_bytes (sk_pub priv) entropy (ok_t _ Hok) (ok_m _ Hok)) as [Bc Lc].
  destruct (decap_spec priv _ Hok Bc Lc) as (m & Em & _ & _ & Ed).
  pose proof (decrypt_cipher s e priv entropy (zdrop 32 (prekey (sk_pub priv) entropy)) Hk He Hl Hn) as Edec.
  assert (Heq : m = entropy). { apply (inj Some). rewrite <- Em. exact Edec. }
  rewrite Heq, decide_True in Ed by done. eexists _, _. split; [exact E|]. split; [exact Ed|]. split; [exact Lc|].
  by apply len_keccak_hash.
Qed.

(** C11: implicit rejection. For every ciphertext of 1088 bytes KYBER_decap returns a secret of 32
    bytes: when the ciphertext is the encryption, under the public key, of what it decrypts to, the
    secret is the one KYBER_encap_external_entropy gives for that message; for every other ciphertext
    it is the hash of the failure secret of the private key and of the ciphertext. *)
Theorem kyber_implicit_rejection priv ciphertext out :
  private_ok priv -> bytes ciphertext -> len ciphertext = KYBER_CIPHERTEXT_BYTES -> len out = KYBER_CIPHERTEXT_BYTES ->
  exists message secret reencrypted shared,
    decrypt_cpa priv ciphertext = Some message /\
    KYBER_encap_external_entropy out (sk_pub priv) message = Some (reencrypted, shared) /\
    KYBER_decap ciphertext priv = Some secret /\
    (ciphertext = reencrypted -> secret = shared) /\
    (ciphertext <> reencrypted -> secret = shake256 (sk_fo_failure_secret priv ++ sha3_256 ciphertext) 32).
Proof.
  intros Hok Hb Hl Ho. destruct (decap_spec priv ciphertext Hok Hb Hl) as (m & Em & Bm & _ & Ed).
  pose proof (encap_spec out (sk_pub priv) m (ok_t _ Hok) (ok_m _ Hok) (proj1 (ok_hash _ Hok)) Bm Ho) as E.
  eexists m, _, _, _. split; [exact Em|]. split; [exact E|]. split; [exact Ed|]. split; intros H.
  - rewrite decide_True by exact H. by rewrite <- H.
  - by rewrite decide_False by exact H.
Qed.

End Kem.

(** ** A key pair whose secret and error are zero *)

#[local] Transparent noise.

Section ZeroKey.
Context `{PF : Platform}.

Definition zero_vector : vector := [scalar_zero; scalar_zero; scalar_zero].
Definition zero_matrix : matrix := [zero_vector; zero_vector; zero_vector].
Definition zero_key : private_key :=
  mk_private_key
    (mk_public_key (vector_add (matrix_mult_transpose zero_matrix (vector_ntt zero_vector)) (vector_ntt zero_vector))
       (replicate 32 0) (replicate 32 0) zero_matrix)
    (vector_ntt zero_vector) (replicate 32 0).

Lemma zero_vector_reduced : reduced3 zero_vector.
Proof. do 3 eexists. split; [reflexivity|]. split_and!; apply scalar_zero_reduced. Qed.

Lemma zero_key_pair : key_pair zero_vector zero_vector zero_key.
Proof.
  split; [apply zero_vector_reduced|apply zero_vector_reduced| |reflexivity|reflexivity].
  do 3 eexists. split; [reflexivity|]. split_and!; apply zero_vector_reduced.
Qed.

Lemma zero_key_ok : private_ok zero_key.
Proof.
  assert (Hb : bytes (replicate 32 0)) by (apply Forall_replicate; unfold is_byte; lia).
  apply (key_pair_ok zero_vector zero_vector); [exact zero_key_pair|exact Hb|reflexivity|exact Hb|reflexivity].
Qed.

Lemma at_scalar_zero i : at_ scalar_zero i = 0.
Proof. unfold at_. destruct (scalar_zero !! Z.to_nat i) eqn:E; [|done]. by apply lookup_replicate in E as [-> _]. Qed.

Lemma product_zero g k : product (fun i => at_ (vat zero_vector i)) g k = 0.
Proof.
  assert (Hz : forall f, negacyclic (at_ scalar_zero) f k = 0).
  { intros f. unfold negacyclic. apply zsum_zero. intros i _. by rewrite at_scalar_zero. }
  unfold product, cadd. change (vat zero_vector 0) with scalar_zero. change (vat zero_vector 1) with scalar_zero.
  change (vat zero_vector 2) with scalar_zero. by rewrite !Hz.
Qed.

(** The noise of an encryption with it: the last sample and the error of compression. *)
Lemma zero_key_noise message randomness : small_noise (noise zero_vector zero_vector (sk_pub zero_key) message randomness).
Proof.
  intros x Hx. unfold noise. unfold cadd at 1, csub at 1. rewrite !product_zero. unfold cadd.
  pose proof (cipher_v_reduced _ _ _ message randomness zero_key_pair) as Hv. set (v := cipher_v _ message randomness) in *. clearbody v.
  pose proof (sample_at randomness 6 x Hx) as [a Ha]. pose proof (cbd_range (keccak_hash boringssl_shake256 (ztake 32 randomness ++ [6]) 128) x) as Hc.
  set (c := cbd _ x) in *. clearbody c.
  destruct (compressed_fits v 4 Hv ltac:(lia)) as [Lc Fc].
  destruct (compress_error (at_ v x) 4 (proj2 Hv x) ltac:(lia)) as (d & [b Hd] & Hb). change (2 ^ 4) with 16 in Hb. change (2 ^ (4 - 1)) with 8 in Hb.
  unfold compression_error, csub, kDV.
  rewrite (proj2 (scalar_decompress_spec _ 4 Lc Fc ltac:(lia)) x Hx), (proj2 (proj2 (scalar_compress_spec v 4 Hv ltac:(lia))) x Hx).
  replace (0 - 0 + (at_ (sample randomness 6) x + (decompress (compress (at_ v x) 4) 4 - at_ v x)) + 832)
    with (c + d + 832 + (a + b) * kPrime) by lia.
  rewrite Z.mod_add by done. unfold kPrime. rewrite Z.mod_small; lia.
Qed.

End ZeroKey.

#[local] Existing Instance LP64.

Lemma zeros_bytes n : bytes (replicate n 0).
Proof. apply Forall_replicate. unfold is_byte. lia. Qed.

Lemma kyber_decap_encap_witness : exists ciphertext secret,
  KYBER_encap_external_entropy (replicate 1088 0) (sk_pub zero_key) (replicate 32 0) = Some (ciphertext, secret) /\
  KYBER_decap ciphertext zero_key = Some secret /\
  len ciphertext = KYBER_CIPHERTEXT_BYTES /\ len secret = KYBER_SHARED_SECRET_BYTES.
Proof.
  exact (kyber_decap_encap zero_vector zero_vector zero_key (replicate 32 0) (replicate 1088 0) zero_key_pair zero_key_ok
    (zeros_bytes 32) eq_refl eq_refl (zero_key_noise _ _)).
Defined.

Lemma kyber_implicit_rejection_witness : exists message secret reencrypted shared,
  decrypt_cpa zero_key (replicate 1088 0) = Some message /\
  KYBER_encap_external_entropy (replicate 1088 0) (sk_pub zero_key) message = Some (reencrypted, shared) /\
  KYBER_decap (replicate 1088 0) zero_key = Some secret /\
  (replicate 1088 0 = reencrypted -> secret = shared) /\
  (replicate 1088 0 <> reencrypted -> secret = shake256 (sk_fo_failure_secret zero_key ++ sha3_256 (replicate 1088 0)) 32).
Proof.
  exact (kyber_implicit_rejection zero_key (replicate 1088 0) (replicate 1088 0) zero_key_ok (zeros_bytes 1088) eq_refl eq_refl).
Defined.
