(* ===== verification/KyberKeys.v ===== *)
(** The keys of Kyber768: the encodings KYBER_marshal_* write into a CBB, the parsers that read them
    back, and key generation. *)
From S2P Require Import Prelude.
From S2P Require Import Internal.
From S2P Require Import Mem.
From S2P Require Import Arrays.
From S2P Require Import Heap.
From S2P Require Import Md32.
From S2P Require Import Cbs.
From S2P Require Import Cbb.
From S2P Require Import CbbSpec.
From S2P Require Import CbbProofs.
From S2P Require Import CbbBuild.
From S2P Require Import Keccak.
From S2P Require Import KeccakProofs.
From S2P Require Import Kyber.
From S2P Require Import KyberNtt.
From S2P Require Import KyberRing.
From S2P Require Import KyberCodec.
From S2P Require Import KyberSample.
From S2P Require Import KyberKem.
From S2P Require Import KyberProofs.
From S2P Require Import KyberKemProofs.

Open Scope Z_scope.

#[local] Opaque scalar_ntt scalar_inverse_ntt scalar_add scalar_sub scalar_mult scalar_encode scalar_decode keccak_hash.

(** ** Encodings *)

Definition encode_vector (a : vector) : list Z :=
  scalar_encode (vat a 0) 12 ++ scalar_encode (vat a 1) 12 ++ scalar_encode (vat a 2) 12.
Definition encode_public (pub : public_key) : list Z := encode_vector (pk_t pub) ++ pk_rho pub.
Definition encode_private (priv : private_key) : list Z :=
  encode_vector (sk_s priv) ++ encode_public (sk_pub priv) ++ pk_hash (sk_pub priv) ++ sk_fo_failure_secret priv.

(** The parts of a key that are encoded. *)
Definition seed_ok (l : list Z) : Prop := bytes l /\ len l = 32.
Definition public_ok (pub : public_key) : Prop := reduced3 (pk_t pub) /\ seed_ok (pk_rho pub).
Definition encodable (priv : private_key) : Prop :=
  reduced3 (sk_s priv) /\ public_ok (sk_pub priv) /\ seed_ok (pk_hash (sk_pub priv)) /\ seed_ok (sk_fo_failure_secret priv).

Lemma reduced_fits c : reduced c -> fits 12 c.
Proof.
  intros Hc. apply reduced_Forall in Hc as [_ Hc]. eapply List.Forall_impl; [|exact Hc]. intros x Hx. cbn in Hx.
  unfold kPrime in Hx. lia.
Qed.

Lemma encode_vector_bytes a : reduced3 a -> bytes (encode_vector a) /\ len (encode_vector a) = 1152.
Proof.
  intros (x & y & z & -> & Hx & Hy & Hz). unfold encode_vector. rewrite !len_app, !bytes_app.
  change (vat [x; y; z] 0) with x. change (vat [x; y; z] 1) with y. change (vat [x; y; z] 2) with z.
  rewrite !length_scalar_encode by (lia || exact (proj1 Hx) || exact (proj1 Hy) || exact (proj1 Hz) || by apply reduced_fits).
  split; [split_and!|lia]; (apply bytes_scalar_encode; [lia|apply Hx || apply Hy || apply Hz|by apply reduced_fits]).
Qed.

Lemma vector_encode_12 a : reduced3 a -> vector_encode (replicate 1152 0) a 12 = Some (encode_vector a).
Proof.
  intros (x & y & z & -> & Hx & Hy & Hz).
  etransitivity; [apply vector_encode_spec; [lia|apply Hx|apply Hy|apply Hz|by apply reduced_fits..|by vm_compute]|].
  assert (Ed : zdrop (96 * 12) (replicate 1152 0) = []) by (by vm_compute). rewrite Ed, app_nil_r. reflexivity.
Qed.

Lemma encode_public_bytes pub : public_ok pub -> bytes (encode_public pub) /\ len (encode_public pub) = KYBER_PUBLIC_KEY_BYTES.
Proof.
  intros [Ht [Br Lr]]. destruct (encode_vector_bytes _ Ht) as [Bt Lt]. unfold encode_public, KYBER_PUBLIC_KEY_BYTES.
  rewrite bytes_app, len_app. split; [by split|lia].
Qed.

Lemma encode_private_bytes priv : encodable priv -> bytes (encode_private priv) /\ len (encode_private priv) = KYBER_PRIVATE_KEY_BYTES.
Proof.
  intros (Hs & Hp & [Bh Lh] & [Bf Lf]). destruct (encode_vector_bytes _ Hs) as [Bs Ls]. destruct (encode_public_bytes _ Hp) as [Bp Lp].
  unfold encode_private, KYBER_PRIVATE_KEY_BYTES, KYBER_PUBLIC_KEY_BYTES in *. rewrite !bytes_app, !len_app. split; [by split_and!|lia].
Qed.

(** ** Marshalling *)

Section Marshal.
Context `{PF : Platform} `{AL : Allocator}.

(** Adding space, filling it and going on is adding bytes. *)
Lemma add_space_bytes a data k s :
  (o ← CBB_add_space a (len data);
   match o with
   | None => mret false
   | Some out => write_space a out data;; ok ← k; if negb ok then mret false else mret true
   end) s = andthen (CBB_add_bytes a data) k s.
Proof.
  unfold andthen, CBB_add_bytes, mbind, M_bind. destruct (CBB_add_space a (len data) s) as [[[out|] s1]|]; [|done..].
  destruct (write_space a out data s1) as [[[] s2]|]; [|done]. cbn. destruct (k s2) as [[[] s3]|]; done.
Qed.

Lemma size_max_small : 65536 <= size_max.
Proof. unfold size_max. platform; lia. Qed.

Lemma marshal_public_appends d a pub : public_ok pub -> appends d a (kyber_marshal_public_key a pub) (Some (encode_public pub)).
Proof.
  intros [Ht [Br Lr]]. destruct (encode_vector_bytes _ Ht) as [Bt Lt]. pose proof size_max_small.
  eapply appends_ext; [|apply (appends_seq d a (CBB_add_bytes a (encode_vector (pk_t pub))) (CBB_add_bytes a (pk_rho pub))
    (Some (encode_vector (pk_t pub))) (Some (pk_rho pub)))];
    [|apply add_bytes_appends; lia|apply appends_appends_flushed, add_bytes_appends; lia].
  intros s. unfold kyber_marshal_public_key. change (Z.to_nat kEncodedVectorSize) with 1152%nat. change kLog2Prime with 12.
  rewrite vector_encode_12 by exact Ht. symmetry. change kEncodedVectorSize with 1152. rewrite <- Lt. apply add_space_bytes.
Qed.

Lemma marshal_private_appends d a priv : encodable priv -> appends d a (KYBER_marshal_private_key a priv) (Some (encode_private priv)).
Proof.
  intros (Hs & Hp & [Bh Lh] & [Bf Lf]). destruct (encode_vector_bytes _ Hs) as [Bs Ls]. pose proof size_max_small.
  eapply appends_ext; [|apply (appends_seq d a (CBB_add_bytes a (encode_vector (sk_s priv)))
      (andthen (kyber_marshal_public_key a (sk_pub priv))
        (andthen (CBB_add_bytes a (pk_hash (sk_pub priv))) (CBB_add_bytes a (sk_fo_failure_secret priv))))
      (Some (encode_vector (sk_s priv))) (opt_app (Some (encode_public (sk_pub priv)))
        (opt_app (Some (pk_hash (sk_pub priv))) (Some (sk_fo_failure_secret priv)))))];
    [|apply add_bytes_appends; lia|].
  - intros s. unfold KYBER_marshal_private_key. change (Z.to_nat kEncodedVectorSize) with 1152%nat. change kLog2Prime with 12.
    rewrite vector_encode_12 by exact Hs. symmetry. change kEncodedVectorSize with 1152. rewrite <- Ls. apply add_space_bytes.
  - apply appends_appends_flushed, appends_seq; [by apply marshal_public_appends|].
    apply appends_appends_flushed, appends_seq; [apply add_bytes_appends; lia|].
    apply appends_appends_flushed, add_bytes_appends. lia.
Qed.

(** Writing into a fixed buffer that is long enough. *)
Lemma fixed_written s r bf m w : len bf <= size_max -> appends (S r) r m (Some w) -> len w <= len bf ->
  exists s' b, (CBB_init_fixed r bf;; m) s = Some (true, s') /\ bases s' !! r = Some b /\
    (exists slack, buf b = w ++ slack) /\ blen b = len w /\ len (buf b) = len bf.
Proof.
  intros Hb Hm Hw. destruct (init_fixed_opened s r bf Hb) as (s1 & b & E & Ho & Hr & Hc).
  destruct (Hm s1 _ _ _ _ _ _ Ho) as (ok & s2 & E2 & b' & Hb' & _ & _ & H). exists s2, b'.
  unfold mbind at 1, M_bind at 1. rewrite E. destruct ok.
  - destruct H as (_ & _ & out & w' & [= <-] & [= <-] & (Hs & Hl & Hcap & _) & _ & Hsame).
    split; [exact E2|]. split; [done|]. split; [exact Hs|]. split; [exact Hl|]. rewrite <- Hcap, Hsame by done. done.
  - exfalso. destruct H as (_ & _ & _ & H). apply (H [] w eq_refl eq_refl). unfold CbbSpec.fits. rewrite Hr. change (len []) with 0. lia.
Qed.

(** The encoding of a public key in a buffer of its size. *)
Lemma marshal_fixed_spec out pub : public_ok pub -> len out = KYBER_PUBLIC_KEY_BYTES -> marshal_fixed out pub = Some (encode_public pub).
Proof.
  intros Hp Ho. destruct (encode_public_bytes _ Hp) as [_ Lp]. pose proof size_max_small. unfold KYBER_PUBLIC_KEY_BYTES in *.
  destruct (fixed_written (mk_store ∅ ∅ 0) 0%nat out _ _ ltac:(lia) (marshal_public_appends 1 0 pub Hp) ltac:(lia))
    as (s' & b & E & Hb & [slack Hs] & Hl & Hlen).
  unfold marshal_fixed. etransitivity; [exact (bind_some _ _ _ E)|]. cbv beta iota. cbn [negb].
  etransitivity; [exact (bind_some _ _ _ Hb)|]. f_equal. rewrite Hs, len_app in Hlen. rewrite Hs.
  destruct slack as [|x slack]; [by rewrite app_nil_r|]. rewrite len_cons in Hlen. pose proof (len_nonneg slack). lia.
Qed.

End Marshal.

(** ** Parsing *)

Lemma get_prefix n l k : len l = n -> cbs_get n (l ++ k) = (Some l, k).
Proof.
  intros <-. unfold cbs_get. rewrite len_app, ztake_app_len, zdrop_app_len. pose proof (len_nonneg k).
  by destruct (Z.ltb_spec (len l + len k) (len l)); [lia|].
Qed.

Lemma get_cases n inp : 0 <= n -> cbs_get n inp = (None, inp) \/ exists l k, inp = l ++ k /\ len l = n /\ cbs_get n inp = (Some l, k).
Proof.
  intros Hn. destruct (Z.ltb_spec (len inp) n) as [H|H].
  - left. unfold cbs_get. by destruct (Z.ltb_spec (len inp) n); [|lia].
  - right. exists (ztake n inp), (zdrop n inp). rewrite ztake_zdrop. split; [done|]. split; [apply len_ztake; lia|].
    unfold cbs_get. by destruct (Z.ltb_spec (len inp) n); [lia|].
Qed.

Lemma decode_encode_vector a : reduced3 a -> vector_decode (encode_vector a) kLog2Prime = Some (Some a).
Proof.
  intros (x & y & z & -> & Hx & Hy & Hz).
  pose proof (vector_decode_encode 12 x y z [] ltac:(lia) Hx Hy Hz (reduced_fits _ Hx) (reduced_fits _ Hy) (reduced_fits _ Hz) bytes_nil) as [E _].
  rewrite app_nil_r in E. exact E.
Qed.

(** What decodes is the encoding of what it decodes to. *)
Lemma decode_vector_cases inp : bytes inp -> len inp = 1152 ->
  vector_decode inp kLog2Prime = Some None \/ exists a, vector_decode inp kLog2Prime = Some (Some a) /\ reduced3 a /\ encode_vector a = inp.
Proof.
  change kLog2Prime with 12. intros Hb Hl. assert (Hd : forall n, 0 <= n <= 768 -> scalar_decode (zdrop n inp) 12 = Some None \/
    exists c, scalar_decode (zdrop n inp) 12 = Some (Some c) /\ reduced c /\ scalar_encode c 12 = ztake 384 (zdrop n inp)).
  { intros n Hn. assert (Bz : bytes (zdrop n inp)) by (by apply bytes_zdrop). assert (Lz : 32 * 12 <= len (zdrop n inp)) by (rewrite len_zdrop; lia).
    destruct (scalar_decode (zdrop n inp) 12) as [[c|]|] eqn:E.
    - right. exists c. destruct (scalar_encode_decode 12 _ c ltac:(lia) Bz Lz E) as (Rc & _ & Ec). split_and!; [reflexivity|exact Rc|exact Ec].
    - by left.
    - rewrite scalar_decode_spec in E by (done || lia). discriminate. }
  unfold vector_decode. change (Z.to_nat RANK) with 3%nat. cbn [vector_decode_from]. rewrite !encoded_offset by lia.
  change (0 * (32 * 12)) with 0. change ((0 + 1) * (32 * 12)) with 384. change ((0 + 1 + 1) * (32 * 12)) with 768.
  destruct (Hd 0) as [E|(x & E & Rx & Ex)]; [lia|left; by rewrite E|]. rewrite E. cbn [mbind option_bind]. clear E.
  destruct (Hd 384) as [E|(y & E & Ry & Ey)]; [lia|left; by rewrite E|]. rewrite E. cbn [mbind option_bind]. clear E.
  destruct (Hd 768) as [E|(z & E & Rz & Ez)]; [lia|left; by rewrite E|]. rewrite E. cbn [mbind option_bind]. clear E Hd.
  right. exists [x; y; z]. split; [reflexivity|]. split; [exists x, y, z; split; [reflexivity|split_and!; assumption]|].
  change (encode_vector [x; y; z]) with (scalar_encode x 12 ++ scalar_encode y 12 ++ scalar_encode z 12). rewrite Ex, Ey, Ez, zdrop_0.
  replace (zdrop 768 inp) with (zdrop 384 (zdrop 384 inp)) by (rewrite zdrop_zdrop by lia; done).
  rewrite <- (ztake_zdrop 384 inp) at 4. f_equal. rewrite <- (ztake_zdrop 384 (zdrop 384 inp)) at 3. f_equal.
  assert (L : len (zdrop 384 (zdrop 384 inp)) = 384) by (rewrite !len_zdrop by (rewrite ?len_zdrop; lia); lia).
  rewrite <- L at 1. apply ztake_all.
Qed.

Section Parse.
Context (fuel : nat).

Lemma parse_public_encoded hash pub rest : public_ok pub ->
  kyber_parse_public_key_no_hash fuel hash (encode_public pub ++ rest) =
  (m ← matrix_expand fuel (pk_rho pub); Some (Some (mk_public_key (pk_t pub) (pk_rho pub) hash m), rest)).
Proof.
  intros [Ht [Br Lr]]. destruct (encode_vector_bytes _ Ht) as [_ Lt]. unfold kyber_parse_public_key_no_hash, encode_public, CBS_get_bytes, CBS_copy_bytes.
  rewrite <- app_assoc, (get_prefix kEncodedVectorSize) by exact Lt. rewrite (decode_encode_vector _ Ht).
  cbn [mbind option_bind]. by rewrite (get_prefix 32).
Qed.

Lemma parse_public_cases inp : bytes inp ->
  (exists pub rest, public_ok pub /\ inp = encode_public pub ++ rest) \/
  (forall hash, exists rest, kyber_parse_public_key_no_hash fuel hash inp = Some (None, rest)).
Proof.
  intros Hb. unfold kyber_parse_public_key_no_hash, CBS_get_bytes, CBS_copy_bytes.
  destruct (get_cases kEncodedVectorSize inp ltac:(done)) as [->|(l & k & -> & Hl & ->)]; [right; by eexists|]. apply bytes_app in Hb as [Bl Bk].
  destruct (decode_vector_cases l Bl Hl) as [->|(t & -> & Ht & <-)]; [right; by eexists|]. cbn [mbind option_bind].
  destruct (get_cases 32 k ltac:(done)) as [->|(rho & rest & -> & Hr & ->)]; [right; by eexists|]. apply bytes_app in Bk as [Br _].
  left. exists (mk_public_key t rho [] []), rest. split; [split; [exact Ht|split; assumption]|]. unfold encode_public. symmetry. apply app_assoc_reverse.
Qed.

Lemma parse_private_encoded priv rest : encodable priv ->
  KYBER_parse_private_key fuel (encode_private priv ++ rest) =
  (m ← matrix_expand fuel (pk_rho (sk_pub priv));
   if len rest =? 0 then
     Some (Some (mk_private_key (mk_public_key (pk_t (sk_pub priv)) (pk_rho (sk_pub priv)) (pk_hash (sk_pub priv)) m)
                   (sk_s priv) (sk_fo_failure_secret priv)), rest)
   else Some (None, rest)).
Proof.
  intros (Hs & Hp & [Bh Lh] & [Bf Lf]). destruct (encode_vector_bytes _ Hs) as [_ Ls].
  unfold KYBER_parse_private_key, encode_private, CBS_get_bytes, CBS_copy_bytes. rewrite <- !app_assoc.
  rewrite (get_prefix kEncodedVectorSize) by exact Ls.
  pose proof (decode_encode_vector _ Hs) as Es. pose proof (parse_public_encoded (replicate 32 0) (sk_pub priv)
    (pk_hash (sk_pub priv) ++ sk_fo_failure_secret priv ++ rest) Hp) as Ep.
  revert Es Ep. generalize (vector_decode (encode_vector (sk_s priv)) kLog2Prime) as d.
  generalize (kyber_parse_public_key_no_hash fuel (replicate 32 0)
    (encode_public (sk_pub priv) ++ pk_hash (sk_pub priv) ++ sk_fo_failure_secret priv ++ rest)) as p.
  generalize (matrix_expand fuel (pk_rho (sk_pub priv))) as om. intros om p d -> ->. cbn [mbind option_bind].
  destruct om as [m|]; [|reflexivity]. cbn [mbind option_bind].
  rewrite (get_prefix 32) by exact Lh. rewrite (get_prefix 32) by exact Lf. by destruct (len rest =? 0).
Qed.

Lemma encode_private_seed priv rest : encodable priv -> ztake 32 (zdrop 2304 (encode_private priv ++ rest)) = pk_rho (sk_pub priv).
Proof.
  intros (Hs & [Ht [_ Lr]] & _). destruct (encode_vector_bytes _ Hs) as [_ Ls]. destruct (encode_vector_bytes _ Ht) as [_ Lt].
  unfold encode_private, encode_public. rewrite <- !app_assoc, app_assoc, zdrop_app_eq by (rewrite len_app, Ls, Lt; reflexivity).
  by apply ztake_app_eq.
Qed.

Lemma parse_private_cases inp : bytes inp ->
  (exists priv rest, encodable priv /\ inp = encode_private priv ++ rest) \/
  (exists rest, KYBER_parse_private_key fuel inp = Some (None, rest)) \/
  (KYBER_parse_private_key fuel inp = None /\ matrix_expand fuel (ztake 32 (zdrop 2304 inp)) = None).
Proof.
  intros Hb. unfold KYBER_parse_private_key, CBS_get_bytes, CBS_copy_bytes.
  destruct (get_cases kEncodedVectorSize inp ltac:(done)) as [->|(l & k & -> & Hl & ->)]; [right; left; by eexists|]. apply bytes_app in Hb as [Bl Bk].
  destruct (decode_vector_cases l Bl Hl) as [->|(s & -> & Hs & <-)]; [right; left; by eexists|]. cbn [mbind option_bind].
  destruct (parse_public_cases k Bk) as [(pub & k2 & Hp & ->)|Hno].
  2:{ destruct (Hno (replicate 32 0)) as [rest ->]. right. left. by eexists. }
  rewrite parse_public_encoded by exact Hp. destruct (encode_public_bytes _ Hp) as [_ Lp]. apply bytes_app in Bk as [_ Bk2].
  destruct (matrix_expand fuel (pk_rho pub)) as [m|] eqn:Em; cbn [mbind option_bind].
  2:{ right. right. split; [reflexivity|]. rewrite <- Em. f_equal. unfold encode_public. destruct Hp as [Ht [_ Lr]]. destruct (encode_vector_bytes _ Ht) as [_ Lt].
      rewrite <- app_assoc, app_assoc, zdrop_app_eq by (rewrite len_app, Lt, Hl; reflexivity). by apply ztake_app_eq. }
  destruct (get_cases 32 k2 ltac:(done)) as [->|(h & k3 & -> & Hh & ->)]; [right; left; by eexists|]. apply bytes_app in Bk2 as [Bh Bk3].
  destruct (get_cases 32 k3 ltac:(done)) as [->|(fo & rest & -> & Hf & ->)]; [right; left; by eexists|]. apply bytes_app in Bk3 as [Bf _].
  left. exists (mk_private_key (mk_public_key (pk_t pub) (pk_rho pub) h m) s fo), rest. split; [split_and!; [exact Hs|exact Hp|split; assumption|split; assumption]|].
  unfold encode_private. cbn [sk_s sk_pub pk_hash sk_fo_failure_secret].
  change (encode_public (mk_public_key _ _ _ _)) with (encode_public pub). rewrite <- !app_assoc. reflexivity.
Qed.

(** C14: KYBER_parse_private_key accepts exactly the encodings of private keys: the input of an
    accepted key is its encoding, with reduced coefficients and nothing after it, and its matrix is
    the expansion of its seed; an input it rejects is the encoding of no key. It has no result only
    when the sampling of the matrix needs more than [fuel] blocks. *)
Theorem kyber_parse_private_key_exact inp : bytes inp ->
  match KYBER_parse_private_key fuel inp with
  | Some (Some priv, rest) =>
      rest = [] /\ encodable priv /\ inp = encode_private priv /\ matrix_expand fuel (pk_rho (sk_pub priv)) = Some (pk_m (sk_pub priv))
  | Some (None, _) => forall priv, encodable priv -> inp <> encode_private priv
  | None => matrix_expand fuel (ztake 32 (zdrop 2304 inp)) = None
  end.
Proof.
  intros Hb. assert (Hno : forall rest, KYBER_parse_private_key fuel inp = Some (None, rest) ->
    forall priv, encodable priv -> inp <> encode_private priv).
  { intros rest E priv Hp ->. pose proof (parse_private_encoded priv [] Hp) as E2. rewrite app_nil_r, E in E2.
    destruct (matrix_expand fuel (pk_rho (sk_pub priv))); discriminate E2. }
  destruct (parse_private_cases inp Hb) as [(priv & rest & Hp & Ei)|[[rest E]|[E Em]]].
  2:{ rewrite E. exact (Hno rest E). }
  2:{ rewrite E. exact Em. }
  pose proof (parse_private_encoded priv rest Hp) as E. rewrite <- Ei in E.
  destruct (matrix_expand fuel (pk_rho (sk_pub priv))) as [m|] eqn:Em; cbn [mbind option_bind] in E.
  2:{ rewrite E, Ei. rewrite encode_private_seed by exact Hp. exact Em. }
  destruct (Z.eqb_spec (len rest) 0) as [Hr|Hr]; rewrite E; [|exact (Hno rest E)].
  assert (rest = []) as -> by (destruct rest; [done|rewrite len_cons in Hr; pose proof (len_nonneg rest); lia]).
  rewrite app_nil_r in Ei. split; [reflexivity|]. split; [exact Hp|]. split; [exact Ei|]. exact Em.
Qed.

End Parse.

Section Keys.
Context `{PF : Platform} `{AL : Allocator}.

Lemma parse_public_key_encoded fuel pub : public_ok pub ->
  KYBER_parse_public_key fuel (encode_public pub) =
  (m ← matrix_expand fuel (pk_rho pub);
   Some (Some (mk_public_key (pk_t pub) (pk_rho pub) (sha3_256 (encode_public pub)) m), [])).
Proof.
  intros Hp. destruct (encode_public_bytes _ Hp) as [Be _]. pose proof (hash_h_spec _ Be) as Eh.
  pose proof (parse_public_encoded fuel (replicate 32 0) pub [] Hp) as E. rewrite app_nil_r in E. unfold KYBER_parse_public_key.
  revert E Eh. generalize (kyber_parse_public_key_no_hash fuel (replicate 32 0) (encode_public pub)) as p.
  generalize (hash_h (encode_public pub)) as h. generalize (matrix_expand fuel (pk_rho pub)) as om.
  intros om h p -> ->. by destruct om.
Qed.


(** ** Key generation *)

Definition seeds (entropy : list Z) : list Z := sha3_512 (ztake 32 entropy).


End Keys.

#[local] Existing Instance LP64.
#[local] Existing Instance zero_allocator.

Lemma zero_key_encodable : encodable zero_key.
Proof.
  pose proof zero_key_ok as [Ht _ Hs Hh Hf]. split; [exact Hs|]. split; [|split; [exact Hh|exact Hf]].
  split; [exact Ht|]. split; [apply zeros_bytes|reflexivity].
Qed.

Lemma kyber_parse_private_key_exact_witness :
  KYBER_parse_private_key 4 [0; 0] = Some (None, [0; 0]) /\ (forall priv, encodable priv -> [0; 0] <> encode_private priv).
Proof. split; [reflexivity|]. exact (kyber_parse_private_key_exact 4 [0; 0] (zeros_bytes 2)). Defined.


