(* ===== verification/DtlsNumbers.v ===== *)
(** DTLS record numbers: the class DTLSRecordNumber of ssl/internal.h, and from ssl/dtls_record.cc
    the replay window DTLSReplayBitmap and the reconstruction of epochs and sequence numbers from the
    bits a DTLS 1.3 header has of them.

    A bitset is the number with its bits. [None] is a failed check or assertion. *)
From S2P Require Import Prelude.

Open Scope Z_scope.

(** ** Record numbers *)

Definition kMaxSequence : Z := Z.shiftl 1 48 - 1.

(** The combined value: the epoch in the top 16 bits. *)
Definition DTLSRecordNumber (epoch sequence : Z) : option Z :=
  if sequence <=? kMaxSequence then Some (Z.lor (u64 (Z.shiftl epoch 48)) sequence) else None.

Definition epoch_of (combined : Z) : Z := u16 (Z.shiftr combined 48).
Definition sequence_of (combined : Z) : Z := Z.land combined kMaxSequence.
Definition HasNext (combined : Z) : bool := sequence_of combined <? kMaxSequence.
Definition Next (combined : Z) : option Z := if HasNext combined then Some (u64 (combined + 1)) else None.

(** ** The replay window *)

Record DTLSReplayBitmap := mk_replay { map_ : Z; max_seq_num_ : Z }.

Definition kWindowSize : Z := 256.

Definition ShouldDiscard (b : DTLSReplayBitmap) (seq_num : Z) : bool :=
  if max_seq_num_ b <? seq_num then false else
  let idx := u64 (max_seq_num_ b - seq_num) in
  (kWindowSize <=? idx) || Z.testbit (map_ b) idx.

Definition Record_ (b : DTLSReplayBitmap) (seq_num : Z) : DTLSReplayBitmap :=
  let b :=
    if max_seq_num_ b <? seq_num then
      let shift := u64 (seq_num - max_seq_num_ b) in
      mk_replay (if kWindowSize <=? shift then 0 else wrap kWindowSize (Z.shiftl (map_ b) shift)) seq_num
    else b in
  let idx := u64 (max_seq_num_ b - seq_num) in
  if idx <? kWindowSize then mk_replay (Z.setbit (map_ b) idx) (max_seq_num_ b) else b.

(** ** Reconstruction *)

Definition reconstruct_epoch (wire_epoch current_epoch : Z) : Z :=
  let current_epoch_high := Z.land current_epoch 0xfffc in
  let epoch := Z.lor (Z.land wire_epoch 0x3) current_epoch_high in
  if (current_epoch <? epoch) && (0 <? current_epoch_high) then u16 (epoch - 0x4) else epoch.

Definition reconstruct_seqnum (wire_seq seq_mask max_valid_seqnum : Z) : option Z :=
  if negb (max_valid_seqnum <=? kMaxSequence) then None else
  if negb ((seq_mask =? 0xff) || (seq_mask =? 0xffff)) then None else
  let max_seqnum_plus_one := u64 (max_valid_seqnum + 1) in
  let diff := Z.land (u64 (wire_seq - max_seqnum_plus_one)) seq_mask in
  let step := u64 (seq_mask + 1) in
  let seqnum := u64 (max_seqnum_plus_one + diff) in
  let too_large := kMaxSequence <? seqnum in
  let closer_is_less := step / 2 <? diff in
  let would_underflow := seqnum <? step in
  let seqnum := if too_large || (closer_is_less && negb would_underflow) then u64 (seqnum - step) else seqnum in
  if seqnum <=? kMaxSequence then Some seqnum else None.

(** * Properties *)

Lemma record_number_spec e q : 0 <= e < 2 ^ 16 -> 0 <= q < 2 ^ 48 ->
  DTLSRecordNumber e q = Some (e * 2 ^ 48 + q) /\ epoch_of (e * 2 ^ 48 + q) = e /\ sequence_of (e * 2 ^ 48 + q) = q.
Proof.
  intros He Hq. unfold DTLSRecordNumber, kMaxSequence. rewrite (Z.shiftl_mul_pow2 1) by lia.
  destruct (Z.leb_spec q (1 * 2 ^ 48 - 1)); [|lia]. split_and!.
  - f_equal. rewrite wrap_small by (rewrite Z.shiftl_mul_pow2 by lia; lia). rewrite lor_shiftl_add by lia. lia.
  - unfold epoch_of. rewrite Z.shiftr_div_pow2, Z.div_add_l, Z.div_small, Z.add_0_r by lia. apply wrap_small. lia.
  - unfold sequence_of, kMaxSequence. change (Z.shiftl 1 48 - 1) with (Z.ones 48). rewrite Z.land_ones, Z.add_comm, Z.mod_add by lia.
    apply Z.mod_small. lia.
Qed.

(** The state after the numbers [l], the last one first, and their maximum. *)
Definition recorded (l : list Z) : DTLSReplayBitmap := foldr (fun q b => Record_ b q) (mk_replay 0 0) l.
Definition max_of (l : list Z) : Z := foldr Z.max 0 l.

Lemma max_of_range l : Forall (fun q => 0 <= q < 2 ^ 64) l -> 0 <= max_of l < 2 ^ 64.
Proof. unfold max_of. induction 1 as [|q l Hq Hl IH]; cbn [foldr]; lia. Qed.

Lemma max_of_ge l x : x ∈ l -> x <= max_of l.
Proof. unfold max_of. induction 1 as [x l|x y l H IH]; cbn [foldr]; lia. Qed.

(** The window: bit [i] is set exactly when the number [i] below the maximum was recorded. *)
Lemma recorded_spec l : Forall (fun q => 0 <= q < 2 ^ 64) l ->
  max_seq_num_ (recorded l) = max_of l /\
  (forall i, 0 <= i < 256 -> Z.testbit (map_ (recorded l)) i = bool_decide (max_of l - i ∈ l)).
Proof.
  induction 1 as [|q l Hq Hl [IHm IHb]].
  - split; [done|]. intros i Hi. cbn [recorded foldr map_]. rewrite Z.bits_0. symmetry. apply bool_decide_eq_false. apply not_elem_of_nil.
  - cbn [recorded foldr] in *. fold (recorded l) in *. set (b := recorded l) in *. clearbody b. pose proof (max_of_range l Hl) as Hm.
    pose proof (max_of_ge l) as Hin. set (m := max_of l) in *.
    unfold Record_. cbv zeta. rewrite IHm. destruct (Z.ltb_spec m q) as [Hlt|Hge]; cbn [map_ max_seq_num_].
    + rewrite Z.sub_diag. change (u64 0) with 0. change (0 <? kWindowSize) with true. cbn [map_ max_seq_num_].
      assert (Hmax : max_of (q :: l) = q) by (unfold m, max_of in *; cbn [foldr]; lia). rewrite Hmax. split; [done|].
      intros i Hi. rewrite wrap_small by lia. unfold kWindowSize.
      destruct (Z.eq_dec i 0) as [->|Hi0]; [rewrite Z.setbit_eq by lia; symmetry; apply bool_decide_eq_true; rewrite Z.sub_0_r; left|].
      rewrite Z.setbit_neq by lia. destruct (Z.leb_spec 256 (q - m)) as [Hs|Hs].
      * rewrite Z.bits_0. symmetry. apply bool_decide_eq_false. intros [E|H]%elem_of_cons; [lia|]. specialize (Hin _ H). lia.
      * unfold wrap. rewrite Z.mod_pow2_bits_low, Z.shiftl_spec by lia.
        destruct (Z.lt_ge_cases i (q - m)) as [Hlt2|Hge2].
        -- rewrite Z.testbit_neg_r by lia. symmetry. apply bool_decide_eq_false. intros [E|H]%elem_of_cons; [lia|]. specialize (Hin _ H). lia.
        -- rewrite IHb by lia. replace (m - (i - (q - m))) with (q - i + 0 * m) by lia. apply bool_decide_ext. rewrite elem_of_cons.
           replace (q - i + 0 * m) with (q - i) by lia. split; [by right|]. intros [E|H]; [lia|done].
    + assert (Hmax : max_of (q :: l) = m) by (unfold m, max_of in *; cbn [foldr]; lia). rewrite Hmax, !IHm. rewrite wrap_small by lia. unfold kWindowSize.
      destruct (Z.ltb_spec (m - q) 256) as [Hw|Hw]; cbn [map_ max_seq_num_].
      * split; [reflexivity|]. intros i Hi. destruct (Z.eq_dec i (m - q)) as [->|Hne].
        -- rewrite Z.setbit_eq by lia. symmetry. apply bool_decide_eq_true. replace (m - (m - q)) with q by lia. left.
        -- rewrite Z.setbit_neq, IHb by lia. apply bool_decide_ext. rewrite elem_of_cons. split; [by right|]. intros [E|H]; [lia|done].
      * split; [exact IHm|]. intros i Hi. rewrite IHb by lia. apply bool_decide_ext. rewrite elem_of_cons. split; [by right|]. intros [E|H]; [lia|done].
Qed.

Lemma replay_window_spec l q : Forall (fun q => 0 <= q < 2 ^ 64) l -> 0 <= q < 2 ^ 64 ->
  ShouldDiscard (recorded l) q = true <-> q ∈ l \/ q + 256 <= max_of l.
Proof.
  intros Hl Hq. destruct (recorded_spec l Hl) as [Hm Hb]. pose proof (max_of_range l Hl). pose proof (max_of_ge l q) as Hge.
  unfold ShouldDiscard. rewrite Hm. destruct (Z.ltb_spec (max_of l) q) as [Hlt|Hle].
  - split; [done|]. intros [H1|H1]; [specialize (Hge H1)|]; lia.
  - rewrite wrap_small, orb_true_iff by lia. unfold kWindowSize. destruct (Z.leb_spec 256 (max_of l - q)) as [Hs|Hs].
    + split; [right; lia|by left].
    + rewrite Hb, bool_decide_eq_true by lia. replace (max_of l - (max_of l - q)) with q by lia.
      split; [intros [?|?]; [done|by left]|]. intros [?|?]; [by right|lia].
Qed.

(** C21: the replay window is exact. After any record numbers, in any order, ShouldDiscard answers
    true exactly for a number that has been recorded before and for one that is 256 or more below the
    largest: no record is taken twice, and one that is neither seen nor stale is never refused. *)
Theorem dtls_replay_window_exact l q : Forall (fun q => 0 <= q < 2 ^ 64) l -> 0 <= q < 2 ^ 64 ->
  ShouldDiscard (recorded l) q = true <-> q ∈ l \/ q + 256 <= max_of l.
Proof. apply replay_window_spec. Qed.

Lemma dtls_replay_window_exact_witness :
  ShouldDiscard (recorded [300; 299; 5]) 299 = true <-> 299 ∈ [300; 299; 5] \/ 299 + 256 <= max_of [300; 299; 5].
Proof. apply (dtls_replay_window_exact [300; 299; 5] 299); [repeat constructor|]; lia. Defined.

(** The largest epoch with the given two bits that is not above the current one, when there is one. *)
Lemma reconstruct_epoch_spec wire cur : 0 <= wire < 256 -> 0 <= cur < 2 ^ 16 ->
  let e := reconstruct_epoch wire cur in
  0 <= e < 2 ^ 16 /\ e mod 4 = wire mod 4 /\ (e <= cur \/ cur < 4) /\ (forall e', 0 <= e' <= cur -> e' mod 4 = wire mod 4 -> e' <= e).
Proof.
  intros Hw Hc e. assert (Ew : Z.land wire 0x3 = wire mod 4) by exact (Z.land_ones wire 2 ltac:(lia)).
  assert (Eh : Z.land cur 0xfffc = cur / 4 * 4).
  { change 0xfffc with (Z.shiftl (Z.ones 14) 2). rewrite <- (Z.land_comm _ cur).
    apply Z.bits_inj'. intros n Hn. rewrite Z.land_spec, Z.shiftl_spec by lia.
    change 4 with (2 ^ 2). rewrite <- Z.shiftl_mul_pow2, <- Z.shiftr_div_pow2, Z.shiftl_spec by lia.
    destruct (Z.lt_ge_cases n 2); [by rewrite !(Z.testbit_neg_r _ (n - 2)) by lia|]. rewrite Z.shiftr_spec by lia. replace (n - 2 + 2) with n by lia.
    destruct (Z.lt_ge_cases n 16); [by rewrite Z.ones_spec_low by lia|]. rewrite Z.ones_spec_high by lia.
    symmetry. cbn [andb]. apply (testbit_small 16); lia. }
  assert (El : Z.lor (wire mod 4) (cur / 4 * 4) = cur / 4 * 4 + wire mod 4).
  { rewrite Z.lor_comm. change 4 with (2 ^ 2). rewrite <- (Z.shiftl_mul_pow2 (cur / 2 ^ 2) 2) at 1 by lia.
    rewrite lor_shiftl_add; [done|lia|]. apply Z.mod_pos_bound. lia. }
  unfold e, reconstruct_epoch. cbv zeta. rewrite Ew, Eh, El. pose proof (Z.mod_pos_bound wire 4 ltac:(lia)) as Hm.
  pose proof (Z.div_mod cur 4 ltac:(lia)) as Dc. pose proof (Z.mod_pos_bound cur 4 ltac:(lia)) as Hcm.
  set (h := cur / 4) in *. set (w := wire mod 4) in *.
  assert (Hmax : forall e', 0 <= e' -> e' mod 4 = w -> exists k, e' = k * 4 + w).
  { intros e' _ <-. exists (e' / 4). pose proof (Z.div_mod e' 4 ltac:(lia)). lia. }
  destruct (Z.ltb_spec cur (h * 4 + w)) as [Hgt|Hle]; cbn [andb]; [destruct (Z.ltb_spec 0 (h * 4)) as [Hh|Hh]; cbn [andb]|].
  - rewrite wrap_small by lia. split; [lia|]. split; [replace (h * 4 + w - 4) with (w + (h - 1) * 4) by lia; rewrite Z.mod_add by lia; apply Z.mod_small; lia|].
    split; [lia|]. intros e' He' Hmod. destruct (Hmax e' ltac:(lia) Hmod) as [k ->]. lia.
  - split; [lia|]. split; [rewrite Z.add_comm, Z.mod_add by lia; apply Z.mod_small; lia|]. split; [lia|].
    intros e' He' Hmod. destruct (Hmax e' ltac:(lia) Hmod) as [k ->]. lia.
  - split; [lia|]. split; [rewrite Z.add_comm, Z.mod_add by lia; apply Z.mod_small; lia|]. split; [lia|].
    intros e' He' Hmod. destruct (Hmax e' ltac:(lia) Hmod) as [k ->]. lia.
Qed.

(** Reconstruction of sequence numbers (RFC 9147, section 4.2.2): from the low 8 or 16 bits and the
    largest number received, the number with those bits that is closest to the next expected one. *)
Lemma reconstruct_seqnum_spec wire mask m :
  mask = 0xff \/ mask = 0xffff -> 0 <= wire <= mask -> 0 <= m <= kMaxSequence ->
  exists q, reconstruct_seqnum wire mask m = Some q /\ 0 <= q <= kMaxSequence /\ q mod (mask + 1) = wire /\
    (forall q', 0 <= q' <= kMaxSequence -> q' mod (mask + 1) = wire -> Z.abs (q - (m + 1)) <= Z.abs (q' - (m + 1))).
Proof.
  intros Hmask Hw Hm. unfold reconstruct_seqnum. change kMaxSequence with (2 ^ 48 - 1) in *. destruct (Z.leb_spec m (2 ^ 48 - 1)); [|lia].
  assert (Em : (mask =? 0xff) || (mask =? 0xffff) = true) by (destruct Hmask as [-> | ->]; done). rewrite Em. cbn [negb]. cbv zeta.
  assert (Ed : Z.land (u64 (wire - (m + 1))) mask = (wire - (m + 1)) mod (mask + 1)).
  { destruct Hmask as [-> | ->].
    - change 0xff with (Z.ones 8). rewrite Z.land_ones by lia. change (Z.ones 8 + 1) with (2 ^ 8). unfold wrap.
      symmetry. apply Znumtheory.Zmod_div_mod; [lia|lia|by exists (2 ^ 56)].
    - change 0xffff with (Z.ones 16). rewrite Z.land_ones by lia. change (Z.ones 16 + 1) with (2 ^ 16). unfold wrap.
      symmetry. apply Znumtheory.Zmod_div_mod; [lia|lia|by exists (2 ^ 48)]. }
  rewrite (wrap_small 64 (m + 1)), Ed, (wrap_small 64 (mask + 1)) by lia. clear Ed Em.
  set (step := mask + 1) in *. assert (Hs : 256 <= step <= 65536 /\ (2 ^ 48) mod step = 0 /\ step mod 2 = 0) by (subst step; destruct Hmask as [-> | ->]; split_and!; done || lia).
  pose proof (Z.mod_pos_bound (wire - (m + 1)) step ltac:(lia)) as Hd. pose proof (Z.div_mod (wire - (m + 1)) step ltac:(lia)) as Dd.
  set (d := (wire - (m + 1)) mod step) in *. set (c := (wire - (m + 1)) / step) in *.
  rewrite (wrap_small 64 (m + 1 + d)) by lia.
  assert (Hcand : forall q', q' mod step = wire -> exists k, q' = m + 1 + d + k * step).
  { intros q' <-. exists (q' / step + c). pose proof (Z.div_mod q' step ltac:(lia)). lia. }
  assert (Hmod : forall k, (m + 1 + d + k * step) mod step = wire).
  { intros k. replace (m + 1 + d + k * step) with (wire + (k - c) * step) by lia. rewrite Z.mod_add by lia. apply Z.mod_small. lia. }
  pose proof (Z.div_mod step 2 ltac:(lia)) as D2. set (s2 := step / 2) in *.
  destruct ((2 ^ 48 - 1 <? m + 1 + d) || (s2 <? d) && negb (m + 1 + d <? step)) eqn:E.
  - assert (Hlow : step <= m + 1 + d) by (destruct (Z.ltb_spec (m + 1 + d) step), (Z.ltb_spec (2 ^ 48 - 1) (m + 1 + d)), (s2 <? d); cbn in E; lia || done).
    rewrite wrap_small by lia. destruct (Z.leb_spec (m + 1 + d - step) (2 ^ 48 - 1)); [|lia]. exists (m + 1 + d - step). split; [done|]. split; [lia|].
    split; [specialize (Hmod (-1)); by replace (m + 1 + d - step) with (m + 1 + d + -1 * step) by lia|].
    intros q' Hq' [k ->]%Hcand. destruct (Z.ltb_spec (2 ^ 48 - 1) (m + 1 + d)), (Z.ltb_spec s2 d); cbn in E; try done; nia.
  - destruct (Z.leb_spec (m + 1 + d) (2 ^ 48 - 1)) as [Hle|Hle]; [|destruct (Z.ltb_spec (2 ^ 48 - 1) (m + 1 + d)); [done|lia]].
    exists (m + 1 + d). split; [done|]. split; [lia|]. split; [specialize (Hmod 0); by replace (m + 1 + d + 0 * step) with (m + 1 + d) in Hmod by lia|].
    intros q' Hq' [k ->]%Hcand. destruct (Z.ltb_spec (2 ^ 48 - 1) (m + 1 + d)), (Z.ltb_spec s2 d), (Z.ltb_spec (m + 1 + d) step); cbn in E; try done; nia.
Qed.
