(* ===== verification/DtlsBitmap.v ===== *)
(** The bitmap of a DTLS handshake message: DTLSMessageBitmap of ssl/internal.h and ssl/d1_both.cc. It
    tracks which bytes of a message have been received, or acknowledged.

    [None] is a failed assertion, or an index outside an array, which BSSL_CHECK stops. *)
From S2P Require Import Prelude.
From S2P Require Import Arrays.

Open Scope Z_scope.

(** Assignment to an element of an Array. *)
Definition put (l : list Z) (i v : Z) : option (list Z) := if (0 <=? i) && (i <? len l) then Some (set_ i v l) else None.

Section Model.
Context `{P : Platform}.

Record DTLSMessageBitmap := mk_bitmap { bytes_ : list Z; first_unmarked_byte_ : Z }.
Record Range := mk_range { r_start : Z; r_end : Z }.

Definition range_empty (r : Range) : bool := r_start r =? r_end r.

Definition BitRange (start end_ : Z) : option Z :=
  if (start <=? end_) && (end_ <=? 8) then
    Some (u8 (Z.land (wnot 32 (u32 (Z.shiftl 1 start - 1))) (u32 (Z.shiftl 1 end_ - 1))))
  else None.

(** The loops over the bits of a byte, from [i] on: the first clear bit, and the first set bit. *)
Fixpoint skip_bits (marked : bool) (n : nat) (b i : Z) : Z :=
  match n with
  | O => i
  | S n => if Bool.eqb (negb (Z.land b (Z.shiftl 1 i) =? 0)) marked then skip_bits marked n b (i + 1) else i
  end.

Definition FirstUnmarkedRangeInByte (b : Z) : Range :=
  let start := skip_bits true 8 b 0 in
  let end_ := skip_bits false (Z.to_nat (8 - start)) b start in
  mk_range start end_.

Fixpoint fill (n : nat) (i : Z) (l : list Z) : option (list Z) :=
  match n with O => Some l | S n => l ← put l i 0xff; fill n (i + 1) l end.

(** The loops over bytes, from [idx] on: up to the first byte that is not [v]. *)
Fixpoint skip_bytes (v : Z) (n : nat) (l : list Z) (idx : Z) : option Z :=
  match n with
  | O => Some idx
  | S n =>
    if idx <? len l then b ← znth l idx; if b =? v then skip_bytes v n l (idx + 1) else Some idx
    else Some idx
  end.

Definition shl3 (x : Z) : Z := wrap size_bits (Z.shiftl x 3).

(** Setting the bits from [start] to [end_]. *)
Definition mark_bytes (l : list Z) (start end_ : Z) : option (list Z) :=
  if Z.shiftr start 3 =? Z.shiftr end_ 3 then
    b ← znth l (Z.shiftr start 3);
    r ← BitRange (Z.land start 7) (Z.land end_ 7);
    put l (Z.shiftr start 3) (Z.lor b r)
  else
    b ← znth l (Z.shiftr start 3);
    r ← BitRange (Z.land start 7) 8;
    l ← put l (Z.shiftr start 3) (Z.lor b r);
    l ← fill (Z.to_nat (Z.shiftr end_ 3 - (Z.shiftr start 3 + 1))) (Z.shiftr start 3 + 1) l;
    if negb (Z.land end_ 7 =? 0) then
      b ← znth l (Z.shiftr end_ 3);
      r ← BitRange 0 (Z.land end_ 7);
      put l (Z.shiftr end_ 3) (Z.lor b r)
    else Some l.

Definition MarkRange (m : DTLSMessageBitmap) (start end_ : Z) : option DTLSMessageBitmap :=
  if negb (start <=? end_) then None else
  let start := Z.max start (shl3 (first_unmarked_byte_ m)) in
  let start := Z.min start (shl3 (len (bytes_ m))) in
  let end_ := Z.min end_ (shl3 (len (bytes_ m))) in
  if end_ <=? start then Some m else
  l ← mark_bytes (bytes_ m) start end_;
  first ← skip_bytes 0xff (length l) l (first_unmarked_byte_ m);
  Some (if len l <=? first then mk_bitmap [] 0 else mk_bitmap l first).

(** [ok] is the answer of the allocator; the result is [None] where the function returns false. *)
Definition Init (ok : bool) (m : DTLSMessageBitmap) (num_bits : Z) : option (option DTLSMessageBitmap) :=
  if wrap size_bits (num_bits + 7) <? num_bits then Some None else
  let num_bytes := wrap size_bits (num_bits + 7) / 8 in
  let bits_rounded := wrap size_bits (num_bytes * 8) in
  if negb ok then Some None else
  m ← MarkRange (mk_bitmap (replicate (Z.to_nat num_bytes) 0) (first_unmarked_byte_ m)) num_bits bits_rounded;
  Some (Some (mk_bitmap (bytes_ m) 0)).

Definition IsComplete (m : DTLSMessageBitmap) : bool := match bytes_ m with [] => true | _ => false end.

(** The end of the run that reaches the end of a byte. *)
Definition extend_run (l : list Z) (idx : Z) : option Z :=
  idx ← skip_bytes 0 (length l) l (idx + 1);
  if idx <? len l then
    b ← znth l idx;
    let extra := FirstUnmarkedRangeInByte b in
    if r_start extra =? 0 then Some (wrap size_bits (shl3 idx + r_end extra)) else Some (shl3 idx)
  else Some (shl3 idx).

Definition NextUnmarkedRange (m : DTLSMessageBitmap) (start : Z) : option Range :=
  let start := Z.max start (shl3 (first_unmarked_byte_ m)) in
  let idx := Z.shiftr start 3 in
  let l := bytes_ m in
  if len l <=? idx then Some (mk_range 0 0) else
  b ← znth l idx;
  low ← BitRange 0 (Z.land start 7);
  let byte := Z.lor b low in
  found ←
    (if byte =? 0xff then
       idx ← skip_bytes 0xff (length l) l (idx + 1);
       if len l <=? idx then Some None else b ← znth l idx; Some (Some (idx, b))
     else Some (Some (idx, byte)));
  match found with
  | None => Some (mk_range 0 0)
  | Some (idx, byte) =>
    let range := FirstUnmarkedRangeInByte byte in
    if range_empty range then None else
    let should_extend := r_end range =? 8 in
    let range := mk_range (wrap size_bits (r_start range + shl3 idx)) (wrap size_bits (r_end range + shl3 idx)) in
    if negb should_extend then Some range else e ← extend_run l idx; Some (mk_range (r_start range) e)
  end.

End Model.

(** * Properties *)

Lemma land_shifted_bit b i : 0 <= i -> (Z.land b (Z.shiftl 1 i) =? 0) = negb (Z.testbit b i).
Proof.
  intros Hi. destruct (Z.testbit b i) eqn:E; cbn [negb].
  - apply Z.eqb_neq. intros H. assert (Z.testbit (Z.land b (Z.shiftl 1 i)) i = true) as H1; [|by rewrite H, Z.bits_0 in H1].
    rewrite Z.land_spec, E, Z.shiftl_spec, Z.sub_diag by lia. done.
  - apply Z.eqb_eq, Z.bits_inj'. intros j Hj. rewrite Z.land_spec, Z.bits_0, Z.shiftl_spec by lia.
    destruct (Z.eq_dec j i) as [->|Hne]; [by rewrite E|]. destruct (Z.lt_ge_cases j i); [rewrite (Z.testbit_neg_r 1) by lia; apply andb_false_r|].
    rewrite (testbit_small 1 1 (j - i)) by lia. apply andb_false_r.
Qed.

Lemma BitRange_spec a b : 0 <= a <= b -> b <= 8 ->
  exists r, BitRange a b = Some r /\ is_byte r /\ forall j, 0 <= j < 8 -> Z.testbit r j = (a <=? j) && (j <? b).
Proof.
  intros Ha Hb. unfold BitRange. destruct (Z.leb_spec a b), (Z.leb_spec b 8); try lia. cbn [andb].
  eexists. split; [done|]. split; [apply byte_wrap8|]. intros j Hj. unfold wnot, wrap.
  rewrite !Z.shiftl_1_l, Z.mod_pow2_bits_low, Z.land_spec, !Z.mod_pow2_bits_low, Z.lnot_spec, Z.mod_pow2_bits_low by lia.
  replace (2 ^ a - 1) with (Z.ones a) by (rewrite Z.ones_equiv; lia). replace (2 ^ b - 1) with (Z.ones b) by (rewrite Z.ones_equiv; lia).
  destruct (Z.leb_spec a j), (Z.ltb_spec j b); rewrite ?(Z.ones_spec_low a), ?(Z.ones_spec_high a), ?(Z.ones_spec_low b), ?(Z.ones_spec_high b) by lia; done.
Qed.

Lemma skip_bits_spec marked n b i : 0 <= i ->
  i <= skip_bits marked n b i <= i + Z.of_nat n /\
  (forall j, i <= j < skip_bits marked n b i -> Z.testbit b j = marked) /\
  (skip_bits marked n b i < i + Z.of_nat n -> Z.testbit b (skip_bits marked n b i) = negb marked).
Proof.
  revert i. induction n as [|n IH]; intros i Hi; cbn [skip_bits]; [split; [lia|]; split; lia|]. rewrite land_shifted_bit, negb_involutive by lia.
  destruct (Bool.eqb (Z.testbit b i) marked) eqn:E.
  - apply eqb_prop in E. destruct (IH (i + 1) ltac:(lia)) as (H1 & H2 & H3). split; [lia|]. split; [|intros; apply H3; lia].
    intros j Hj. destruct (Z.eq_dec j i) as [->|]; [done|]. apply H2. lia.
  - apply eqb_false_iff in E. split; [lia|]. split; [lia|]. intros _. by destruct (Z.testbit b i), marked.
Qed.

(** The first run of clear bits of a byte. *)
Lemma first_range_spec b : exists s e, FirstUnmarkedRangeInByte b = mk_range s e /\ 0 <= s <= e /\ e <= 8 /\
  (forall j, 0 <= j < s -> Z.testbit b j = true) /\ (forall j, s <= j < e -> Z.testbit b j = false) /\
  (e < 8 -> Z.testbit b e = true) /\ (s < 8 -> s < e).
Proof.
  unfold FirstUnmarkedRangeInByte. cbv zeta. set (s := skip_bits true 8 b 0). set (e := skip_bits false (Z.to_nat (8 - s)) b s).
  destruct (skip_bits_spec true 8 b 0) as (S1 & S2 & S3); [lia|]. fold s in S1, S2, S3.
  destruct (skip_bits_spec false (Z.to_nat (8 - s)) b s) as (E1 & E2 & E3); [lia|]. fold e in E1, E2, E3.
  exists s, e. split_and!; [done|lia|lia|lia|exact S2|exact E2|intros; apply E3; lia|].
  intros Hs. destruct (Z.eq_dec s e) as [He|]; [|lia]. rewrite <- He in E3. rewrite E3 in S3 by lia. discriminate S3. lia.
Qed.

Lemma skip_bytes_spec v n l idx : 0 <= idx -> len l <= idx + Z.of_nat n ->
  exists r, skip_bytes v n l idx = Some r /\ idx <= r /\ (r = idx \/ r <= len l) /\
    (forall j, idx <= j < r -> at_ l j = v) /\ (r < len l -> at_ l r <> v).
Proof.
  revert idx. induction n as [|n IH]; intros idx Hi Hn; cbn [skip_bytes].
  - exists idx. split_and!; [done|lia|by left|lia|lia].
  - destruct (Z.ltb_spec idx (len l)) as [Hlt|Hge]; [|exists idx; split_and!; [done|lia|by left|lia|lia]].
    rewrite znth_at by lia. cbn [mbind option_bind]. destruct (Z.eqb_spec (at_ l idx) v) as [Hv|Hv].
    + destruct (IH (idx + 1)) as (r & E & H1 & H2 & H3 & H4); [lia|lia|]. exists r. split_and!; [done|lia|lia| |done].
      intros j Hj. destruct (Z.eq_dec j idx) as [->|]; [done|]. apply H3. lia.
    + exists idx. split_and!; [done|lia|by left|lia|done].
Qed.

Lemma put_ok l i v : 0 <= i < len l -> put l i v = Some (set_ i v l).
Proof. intros Hi. unfold put. destruct (Z.leb_spec 0 i), (Z.ltb_spec i (len l)); try lia. done. Qed.

Lemma fill_spec n i l : 0 <= i -> i + Z.of_nat n <= len l ->
  exists l', fill n i l = Some l' /\ len l' = len l /\
    forall j, 0 <= j -> at_ l' j = if (i <=? j) && (j <? i + Z.of_nat n) then 255 else at_ l j.
Proof.
  revert i l. induction n as [|n IH]; intros i l Hi Hn; cbn [fill].
  - exists l. split_and!; [done|done|]. intros j Hj. destruct (Z.leb_spec i j), (Z.ltb_spec j (i + Z.of_nat 0)); cbn [andb]; lia || done.
  - rewrite put_ok by lia. cbn [mbind option_bind]. destruct (IH (i + 1) (set_ i 255 l)) as (l' & E & Hl & Hat); [lia|rewrite len_set; lia|].
    exists l'. rewrite len_set in Hl. split_and!; [done|done|]. intros j Hj. rewrite Hat, at_set by lia.
    destruct (Z.eqb_spec i j), (Z.leb_spec (i + 1) j), (Z.ltb_spec j (i + 1 + Z.of_nat n)), (Z.leb_spec i j), (Z.ltb_spec j (i + Z.of_nat (S n)));
      cbn [andb]; lia || done.
Qed.

(** Bit [i] of an array of bytes. *)
Definition bit (l : list Z) (i : Z) : bool := Z.testbit (at_ l (i / 8)) (i mod 8).

Lemma split8 i : 0 <= i -> i = 8 * (i / 8) + i mod 8 /\ 0 <= i mod 8 < 8 /\ 0 <= i / 8.
Proof. intros Hi. pose proof (Z.div_mod i 8). pose proof (Z.mod_pos_bound i 8). pose proof (Z.div_pos i 8). lia. Qed.

Lemma shift_mask i : Z.shiftr i 3 = i / 8 /\ Z.land i 7 = i mod 8.
Proof. split; [by rewrite Z.shiftr_div_pow2|]. change 7 with (Z.ones 3). by rewrite Z.land_ones. Qed.

Lemma bit_full j : 0 <= j < 8 -> Z.testbit 255 j = true.
Proof. intros Hj. change 255 with (Z.ones 8). apply Z.ones_spec_low. lia. Qed.

Lemma byte_full b : is_byte b -> (forall j, 0 <= j < 8 -> Z.testbit b j = true) -> b = 255.
Proof.
  intros Hb H. apply Z.bits_inj'. intros j Hj. destruct (Z.lt_ge_cases j 8); [by rewrite H, bit_full by lia|].
  unfold is_byte in Hb. rewrite !(testbit_small 8) by lia. done.
Qed.

(** An or into one byte. *)
Lemma or_byte l k r : bytes l -> 0 <= k < len l -> is_byte r ->
  exists l', (b ← znth l k; put l k (Z.lor b r)) = Some l' /\ len l' = len l /\ bytes l' /\
    forall i, 0 <= i -> bit l' i = bit l i || ((i / 8 =? k) && Z.testbit r (i mod 8)).
Proof.
  intros Hl Hk Hr. rewrite znth_at by lia. cbn [mbind option_bind]. rewrite put_ok by lia. eexists. split; [done|]. rewrite len_set. split; [done|].
  split.
  - apply Forall_at. rewrite len_set. intros i Hi. rewrite at_set by lia. destruct (k =? i); [|by apply at_byte].
    apply (lor_range 8); [lia|by apply at_byte|done].
  - intros i Hi. destruct (split8 i Hi) as (_ & _ & Hd). unfold bit. rewrite at_set by lia. rewrite (Z.eqb_sym k).
    destruct (Z.eqb_spec (i / 8) k) as [->|]; [by rewrite Z.lor_spec|by rewrite orb_false_r].
Qed.

Lemma mark_bytes_spec l start end_ : bytes l -> 0 <= start < end_ -> end_ <= 8 * len l ->
  exists l', mark_bytes l start end_ = Some l' /\ len l' = len l /\ bytes l' /\
    forall i, 0 <= i < 8 * len l -> bit l' i = bit l i || ((start <=? i) && (i <? end_)).
Proof.
  intros Hl Hs He. unfold mark_bytes. destruct (shift_mask start) as [-> ->]. destruct (shift_mask end_) as [-> ->].
  destruct (split8 start) as (Ds & Ms & Ps); [lia|]. destruct (split8 end_) as (De & Me & Pe); [lia|].
  set (a := start / 8) in *. set (sm := start mod 8) in *. set (b := end_ / 8) in *. set (em := end_ mod 8) in *.
  destruct (Z.eqb_spec a b) as [Hab|Hab].
  - destruct (BitRange_spec sm em) as (r & Er & Br & Tr); [lia|lia|]. rewrite Er.
    destruct (or_byte l a r) as (l' & E & Hlen & Hb & Hbit); [done|lia|done|]. exists l'. split.
    { rewrite <- E. by destruct (znth l a). }
    split; [done|]. split; [done|]. intros i Hi. rewrite Hbit by lia. destruct (split8 i) as (Di & Mi & Pi); [lia|]. f_equal.
    destruct (Z.eqb_spec (i / 8) a) as [Hk|Hk]; cbn [andb]; [rewrite Tr by lia; f_equal; zcases; lia || done|].
    zcases; lia || done.
  - destruct (BitRange_spec sm 8) as (r & Er & Br & Tr); [lia|lia|]. rewrite Er.
    destruct (or_byte l a r) as (l1 & E1 & Hlen1 & Hb1 & Hbit1); [done|lia|done|].
    destruct (fill_spec (Z.to_nat (b - (a + 1))) (a + 1) l1) as (l2 & E2 & Hlen2 & Hat2); [lia|lia|].
    rewrite Z2Nat.id in Hat2 by lia.
    assert (Hb2 : bytes l2).
    { apply Forall_at. intros i Hi. rewrite Hat2 by lia. destruct (_ && _); [unfold is_byte; lia|by apply at_byte]. }
    assert (Hbit2 : forall i, 0 <= i < 8 * len l -> bit l2 i = bit l i || ((start <=? i) && (i <? 8 * b))).
    { intros i Hi. destruct (split8 i) as (Di & Mi & Pi); [lia|]. unfold bit at 1. rewrite Hat2 by lia.
      destruct (Z.leb_spec (a + 1) (i / 8)), (Z.ltb_spec (i / 8) (a + 1 + (b - (a + 1)))); cbn [andb].
      1: { rewrite bit_full by lia. destruct (Z.leb_spec start i), (Z.ltb_spec i (8 * b)); lia. }
      all: fold (bit l1 i); rewrite Hbit1 by lia; f_equal; destruct (Z.eqb_spec (i / 8) a) as [Hk|Hk]; cbn [andb]; rewrite ?Tr by lia; zcases; lia || done. }
    assert (Estep : (b0 ← znth l a; r0 ← Some r; l0 ← put l a (Z.lor b0 r0); l3 ← fill (Z.to_nat (b - (a + 1))) (a + 1) l0;
      if negb (em =? 0) then b1 ← znth l3 b; r1 ← BitRange 0 em; put l3 b (Z.lor b1 r1) else Some l3) =
      if negb (em =? 0) then b1 ← znth l2 b; r1 ← BitRange 0 em; put l2 b (Z.lor b1 r1) else Some l2).
    { destruct (znth l a); [|done]. cbn [mbind option_bind] in *. rewrite E1. cbn [mbind option_bind]. by rewrite E2. }
    rewrite Estep. destruct (Z.eqb_spec em 0) as [Hem|Hem]; cbn [negb].
    + exists l2. split; [done|]. split; [lia|]. split; [done|]. intros i Hi. rewrite Hbit2 by done. do 2 f_equal. replace end_ with (8 * b) by lia. done.
    + destruct (BitRange_spec 0 em) as (r' & Er' & Br' & Tr'); [lia|lia|]. rewrite Er'.
      destruct (or_byte l2 b r') as (l' & E & Hlen & Hb & Hbit); [done|lia|done|]. exists l'. split.
      { rewrite <- E. by destruct (znth l2 b). }
      split; [lia|]. split; [done|]. intros i Hi. rewrite Hbit, Hbit2, <- orb_assoc by lia. f_equal. destruct (split8 i) as (Di & Mi & Pi); [lia|].
      destruct (Z.eqb_spec (i / 8) b) as [Hk|Hk]; cbn [andb]; rewrite ?Tr' by lia; zcases; lia || done.
Qed.

Section Proofs.
Context `{P : Platform}.

(** [first] is the first byte that is not full. *)
Definition unmarked_from (l : list Z) (first : Z) : Prop :=
  match l with [] => first = 0 | _ => 0 <= first < len l /\ (forall j, 0 <= j < first -> at_ l j = 255) /\ at_ l first <> 255 end.

(** The bitmap [m] of a message of [n] bits has marked those of [S]. *)
Definition marks (n : Z) (m : DTLSMessageBitmap) (S : Z -> bool) : Prop :=
  0 <= n <= size_max - 7 /\ unmarked_from (bytes_ m) (first_unmarked_byte_ m) /\ bytes (bytes_ m) /\
  match bytes_ m with
  | [] => forall i, 0 <= i < n -> S i = true
  | l => 8 * len l - 8 < n <= 8 * len l /\ forall i, 0 <= i < 8 * len l -> bit l i = (n <=? i) || S i
  end.

Lemma shl3_spec x : 0 <= x -> 8 * x <= size_max -> shl3 x = 8 * x.
Proof. intros Hx Hm. unfold shl3. rewrite Z.shiftl_mul_pow2 by lia. rewrite wrap_small; [lia|]. unfold size_max in Hm. lia. Qed.

Lemma unmarked_before l first : unmarked_from l first -> 0 <= first <= len l /\ forall i, 0 <= i < 8 * first -> bit l i = true.
Proof.
  intros H. destruct l as [|b l]; cbn in H; [subst; split; [done|lia]|]. destruct H as (H1 & H2 & _). split; [lia|].
  intros i Hi. destruct (split8 i) as (Di & Mi & Pi); [lia|]. unfold bit. rewrite H2 by lia. by apply bit_full.
Qed.

(** Marking a range, whatever the bits mean. *)
Lemma mark_range_bytes l first start end_ : unmarked_from l first -> bytes l -> 8 * len l <= size_max -> 0 <= start <= end_ ->
  exists l' m', MarkRange (mk_bitmap l first) start end_ = Some m' /\ len l' = len l /\ bytes l' /\
    (forall i, 0 <= i < 8 * len l -> bit l' i = bit l i || ((start <=? i) && (i <? end_))) /\
    unmarked_from (bytes_ m') (first_unmarked_byte_ m') /\
    (bytes_ m' = l' \/ bytes_ m' = [] /\ forall i, 0 <= i < 8 * len l -> bit l' i = true).
Proof.
  intros Hu Hl Hm Hs. pose proof (unmarked_before l first Hu) as [Hf Hbefore]. unfold MarkRange. cbn [bytes_ first_unmarked_byte_].
  destruct (Z.leb_spec start end_); [|lia]. cbn [negb]. rewrite !shl3_spec by lia. cbv zeta.
  set (s := Z.min (Z.max start (8 * first)) (8 * len l)). set (e := Z.min end_ (8 * len l)).
  assert (Hrange : forall i, 0 <= i < 8 * len l -> bit l i || ((s <=? i) && (i <? e)) = bit l i || ((start <=? i) && (i <? end_))).
  { intros i Hi. destruct (Z.lt_ge_cases i (8 * first)) as [Hb|Hb]; [by rewrite Hbefore by lia|]. f_equal. subst s e. zcases; lia || done. }
  destruct (Z.leb_spec e s) as [Hes|Hes].
  - exists l, (mk_bitmap l first). split_and!; try done; [|by left]. intros i Hi. rewrite <- Hrange by done.
    destruct (Z.leb_spec s i), (Z.ltb_spec i e); try lia; by rewrite orb_false_r.
  - destruct (mark_bytes_spec l s e) as (l' & E & Hlen & Hb' & Hbit); [done|lia|lia|]. rewrite E. cbn [mbind option_bind].
    destruct (skip_bytes_spec 255 (length l') l' first) as (f & Ef & Hf1 & Hf2 & Hf3 & Hf4); [lia|unfold len; lia|]. rewrite Ef. cbn [mbind option_bind].
    exists l'. assert (Hbit' : forall i, 0 <= i < 8 * len l -> bit l' i = bit l i || ((start <=? i) && (i <? end_)))
      by (intros i Hi; rewrite Hbit by done; by apply Hrange).
    assert (Hfull : forall i, 0 <= i < 8 * f -> i < 8 * len l -> bit l' i = true).
    { intros i Hi Hi2. destruct (Z.lt_ge_cases i (8 * first)) as [Hb|Hb]; [by rewrite Hbit, Hbefore by lia|].
      destruct (split8 i) as (Di & Mi & Pi); [lia|]. unfold bit. rewrite Hf3 by lia. by apply bit_full. }
    destruct (Z.leb_spec (len l') f) as [Hend|Hend].
    + eexists. split_and!; try done. right. split; [done|]. intros i Hi. apply Hfull; lia.
    + eexists. split_and!; try done; [|by left]. cbn [bytes_ first_unmarked_byte_]. destruct l' as [|b0 l'']; [change (len (@nil Z)) with 0 in Hend; lia|].
      cbn [unmarked_from]. split; [lia|]. split; [|apply Hf4; lia]. intros j Hj. apply byte_full; [by apply at_byte|]. intros k Hk.
      specialize (Hfull (8 * j + k) ltac:(lia) ltac:(lia)). unfold bit in Hfull.
      replace ((8 * j + k) / 8) with j in Hfull by (apply (Z.div_unique _ _ _ k); lia).
      by replace ((8 * j + k) mod 8) with k in Hfull by (apply (Z.mod_unique _ _ j); lia).
Qed.

Lemma MarkRange_marks n m S start end_ : marks n m S -> 0 <= start <= end_ ->
  exists m', MarkRange m start end_ = Some m' /\ marks n m' (fun i => S i || ((start <=? i) && (i <? end_))).
Proof.
  intros (Hn & Hu & Hb & HS) Hs. destruct m as [l first]. cbn [bytes_ first_unmarked_byte_] in *.
  destruct (mark_range_bytes l first start end_ Hu Hb) as (l' & m' & E & Hlen & Hb' & Hbit & Hu' & Hm'); [|done|].
  { destruct l; [change (len (@nil Z)) with 0; unfold size_max; platform; lia|]. destruct HS as [H1 _]. lia. }
  exists m'. split; [done|]. split; [done|]. split; [done|]. destruct Hm' as [Em|[Em Hfull]]; rewrite Em.
  - split; [done|]. destruct l as [|x l]; destruct l' as [|x' l']; [by intros i Hi; rewrite HS| | |].
    1: pose proof (len_nonneg l'); rewrite len_cons in Hlen; change (len (@nil Z)) with 0 in Hlen; lia.
    1: pose proof (len_nonneg l); rewrite len_cons in Hlen; change (len (@nil Z)) with 0 in Hlen; lia.
    cbv zeta. rewrite Hlen. destruct HS as [H1 H2]. split; [done|]. intros i Hi. rewrite Hbit, H2 by done. by rewrite orb_assoc.
  - split; [apply bytes_nil|]. intros i Hi. destruct l as [|x l]; [by rewrite HS|]. destruct HS as [H1 H2].
    specialize (Hfull i ltac:(lia)). rewrite Hbit, H2 in Hfull by lia. destruct (Z.leb_spec n i); [lia|]. done.
Qed.

Lemma Init_marks m n : first_unmarked_byte_ m = 0 -> 0 <= n <= size_max - 7 ->
  exists m', Init true m n = Some (Some m') /\ marks n m' (fun _ => false).
Proof.
  intros Hf Hn. assert (Hw : wrap size_bits (n + 7) = n + 7) by (apply wrap_small; unfold size_max in Hn; lia).
  unfold Init. rewrite Hw, Hf. destruct (Z.ltb_spec (n + 7) n); [lia|]. cbn [negb]. cbv zeta.
  pose proof (Z.div_mod (n + 7) 8 ltac:(lia)) as D. pose proof (Z.mod_pos_bound (n + 7) 8 ltac:(lia)) as M. pose proof (Z.div_pos (n + 7) 8 ltac:(lia)).
  set (k := (n + 7) / 8) in *. rewrite (wrap_small size_bits (k * 8)) by (unfold size_max in Hn; lia).
  assert (Hz : forall i, at_ (replicate (Z.to_nat k) 0) i = 0).
  { intros i. unfold at_. destruct (replicate (Z.to_nat k) 0 !! Z.to_nat i) eqn:E; [|done]. by apply lookup_replicate in E as [-> _]. }
  assert (Lz : len (replicate (Z.to_nat k) 0) = k) by (rewrite len_replicate; lia).
  assert (Uz : unmarked_from (replicate (Z.to_nat k) 0) 0).
  { revert Hz Lz. generalize (replicate (Z.to_nat k) 0) as z. intros [|b l] Hz Lz; [done|]. cbn [unmarked_from]. rewrite Hz, Lz.
    split; [|split; lia]. rewrite len_cons in Lz. pose proof (len_nonneg l). lia. }
  destruct (mark_range_bytes (replicate (Z.to_nat k) 0) 0 n (k * 8) Uz) as (l' & m' & E & Hlen & Hb & Hbit & Hu & Hm); [apply Forall_replicate; unfold is_byte; lia|lia|lia|].
  rewrite E. cbn [mbind option_bind]. eexists. split; [done|]. split; [done|]. cbn [bytes_ first_unmarked_byte_]. rewrite Lz in *.
  assert (Hbit' : forall i, 0 <= i < 8 * k -> bit l' i = (n <=? i)).
  { intros i Hi. rewrite Hbit by done. unfold bit at 1. rewrite Hz, Z.bits_0. zcases; lia || done. }
  destruct Hm as [Em|[Em Hfull]].
  - rewrite Em in *. destruct l' as [|b l']; [split; [done|]; split; [done|]; change (len (@nil Z)) with 0 in Hlen; intros; lia|].
    cbn [unmarked_from] in Hu. destruct Hu as (H1 & H2 & H3). split.
    + cbn [unmarked_from]. split; [lia|]. split; [lia|]. intros Hfull0. specialize (Hbit' 0 ltac:(lia)). unfold bit in Hbit'.
      change (0 / 8) with 0 in Hbit'. change (0 mod 8) with 0 in Hbit'. rewrite Hfull0, bit_full in Hbit' by lia. zcases; lia || done.
    + split; [done|]. split; [lia|]. intros i Hi. by rewrite Hbit', orb_false_r by lia.
  - rewrite Em. split; [done|]. split; [apply bytes_nil|]. intros i Hi. specialize (Hfull i ltac:(lia)). rewrite Hbit' in Hfull by lia.
    apply Z.leb_le in Hfull. lia.
Qed.

Lemma IsComplete_marks n m S : marks n m S -> IsComplete m = true <-> forall i, 0 <= i < n -> S i = true.
Proof.
  intros (Hn & Hu & Hb & HS). destruct m as [[|b l] first]; cbn [bytes_ first_unmarked_byte_ IsComplete] in *; [split; [by intros _|done]|].
  split; [done|]. intros Hall. destruct Hu as (Hf & _ & Hne). destruct HS as [H1 H2]. exfalso. apply Hne. apply byte_full; [by apply at_byte|].
  intros j Hj. specialize (H2 (8 * first + j) ltac:(lia)). unfold bit in H2.
  replace ((8 * first + j) / 8) with first in H2 by (apply (Z.div_unique _ _ _ j); lia).
  replace ((8 * first + j) mod 8) with j in H2 by (apply (Z.mod_unique _ _ first); lia). rewrite H2.
  destruct (Z.leb_spec n (8 * first + j)); [done|]. rewrite Hall by lia. done.
Qed.

Lemma marks_ext n m S S' : (forall i, 0 <= i < n -> S i = S' i) -> marks n m S -> marks n m S'.
Proof.
  intros E (Hn & Hu & Hb & H). split; [done|]. split; [done|]. split; [done|]. destruct (bytes_ m) as [|b l].
  - intros i Hi. rewrite <- E by done. by apply H.
  - cbv zeta in *. destruct H as [H1 H2]. split; [done|]. intros i Hi. rewrite H2 by done. destruct (Z.leb_spec n i); [done|]. by rewrite E by lia.
Qed.

(** Once complete, a bitmap stays complete. *)
Lemma marks_complete n m S S' : marks n m S -> IsComplete m = true -> (forall i, 0 <= i < n -> S i = true -> S' i = true) -> marks n m S'.
Proof.
  intros H E Hi. apply (marks_ext n m S); [|done]. intros i Hr. pose proof (proj1 (IsComplete_marks n m S H) E i Hr) as HS.
  by rewrite HS, Hi.
Qed.

(** The first maximal run of clear bits from [s] on. *)
Definition first_run (l : list Z) (s : Z) (r : Range) : Prop :=
  s <= r_start r < r_end r /\ r_end r <= 8 * len l /\ (forall i, s <= i < r_start r -> bit l i = true) /\
  (forall i, r_start r <= i < r_end r -> bit l i = false) /\ (r_end r < 8 * len l -> bit l (r_end r) = true).

Lemma bit_at8 l k j : 0 <= j < 8 -> bit l (8 * k + j) = Z.testbit (at_ l k) j.
Proof.
  intros Hj. unfold bit. replace ((8 * k + j) / 8) with k by (apply (Z.div_unique _ _ _ j); lia).
  by replace ((8 * k + j) mod 8) with j by (apply (Z.mod_unique _ _ k); lia).
Qed.

(** All bits of bytes that have one value. *)
Lemma bits_of_bytes l v b i : (v = 255 /\ b = true) \/ (v = 0 /\ b = false) -> 0 <= i -> at_ l (i / 8) = v -> bit l i = b.
Proof.
  intros Hv Hi E. destruct (split8 i Hi) as (_ & Hm & _). unfold bit. rewrite E.
  destruct Hv as [[-> ->]|[-> ->]]; [by apply bit_full|apply Z.bits_0].
Qed.

Lemma byte_zero b : is_byte b -> (forall j, 0 <= j < 8 -> Z.testbit b j = false) -> b = 0.
Proof.
  intros Hb H. apply Z.bits_inj'. intros j Hj. rewrite Z.bits_0. destruct (Z.lt_ge_cases j 8); [by rewrite H by lia|].
  unfold is_byte in Hb. apply (testbit_small 8); lia.
Qed.

Lemma extend_spec l idx : bytes l -> 0 <= idx < len l -> 8 * len l <= size_max ->
  exists e, extend_run l idx = Some e /\ 8 * (idx + 1) <= e <= 8 * len l /\
    (forall i, 8 * (idx + 1) <= i < e -> bit l i = false) /\ (e < 8 * len l -> bit l e = true).
Proof.
  intros Hl Hi Hm. unfold extend_run. destruct (skip_bytes_spec 0 (length l) l (idx + 1)) as (k & -> & H1 & H2 & H3 & H4); [lia|unfold len; lia|].
  cbn [mbind option_bind]. rewrite shl3_spec by lia.
  assert (Hz : forall i, 8 * (idx + 1) <= i < 8 * k -> bit l i = false).
  { intros i Hii. destruct (split8 i) as (Di & Mi & Pi); [lia|]. apply (bits_of_bytes l 0 false); [by right|lia|]. apply H3. lia. }
  destruct (Z.ltb_spec k (len l)) as [Hk|Hk]; [|exists (8 * k); split_and!; [done|lia|lia|exact Hz|lia]].
  rewrite znth_at by lia. cbn [mbind option_bind]. destruct (first_range_spec (at_ l k)) as (s & e & -> & Hs & He & Hb1 & Hb2 & Hb3 & Hb4).
  cbv zeta. cbn [r_start r_end]. destruct (Z.eqb_spec s 0) as [->|Hs0].
  - assert (He8 : e < 8).
    { destruct (Z.lt_ge_cases e 8); [done|]. destruct (H4 Hk). apply byte_zero; [by apply at_byte|]. intros j Hj. apply Hb2. lia. }
    rewrite wrap_small by (unfold size_max in Hm; lia). exists (8 * k + e). split; [done|]. split; [lia|]. split.
    + intros i Hii. destruct (Z.lt_ge_cases i (8 * k)); [apply Hz; lia|]. replace i with (8 * k + (i - 8 * k)) by lia.
      rewrite bit_at8 by lia. apply Hb2. lia.
    + intros _. rewrite bit_at8 by lia. by apply Hb3.
  - exists (8 * k). split; [done|]. split; [lia|]. split; [exact Hz|]. intros _. replace (8 * k) with (8 * k + 0) by lia.
    rewrite bit_at8 by lia. apply Hb1. lia.
Qed.

(** The byte the search stops at: [byte] is the one at [idx], with the bits before [s] set. *)
Lemma run_from l s idx byte : bytes l -> 0 <= s -> 0 <= idx < len l -> 8 * len l <= size_max -> is_byte byte -> byte <> 255 ->
  (forall j, 0 <= j < 8 -> Z.testbit byte j = bit l (8 * idx + j) || (8 * idx + j <? s)) ->
  (forall i, s <= i < 8 * idx -> bit l i = true) -> s < 8 * (idx + 1) ->
  exists r, (let range := FirstUnmarkedRangeInByte byte in
    if range_empty range then None else
    let should_extend := r_end range =? 8 in
    let range := mk_range (wrap size_bits (r_start range + shl3 idx)) (wrap size_bits (r_end range + shl3 idx)) in
    if negb should_extend then Some range else e ← extend_run l idx; Some (mk_range (r_start range) e)) = Some r /\ first_run l s r.
Proof.
  intros Hl Hs0 Hi Hm Hbyte Hne Hbits Hbefore Hsidx. destruct (first_range_spec byte) as (a & e & -> & Ha & He & Hb1 & Hb2 & Hb3 & Hb4).
  assert (Ha8 : a < 8) by (destruct (Z.lt_ge_cases a 8); [done|]; destruct Hne; apply byte_full; [done|]; intros; apply Hb1; lia).
  specialize (Hb4 Ha8). cbv zeta. unfold range_empty. cbn [r_start r_end]. destruct (Z.eqb_spec a e); [lia|]. rewrite !shl3_spec by lia.
  rewrite !wrap_small by (unfold size_max in Hm; lia).
  assert (Hsa : s <= 8 * idx + a /\ bit l (8 * idx + a) = false).
  { pose proof (Hb2 a ltac:(lia)) as Hx. rewrite Hbits in Hx by lia. apply orb_false_iff in Hx as [H1 H2]. apply Z.ltb_ge in H2. done. }
  assert (Htrue : forall i, s <= i < 8 * idx + a -> bit l i = true).
  { intros i Hii. destruct (Z.lt_ge_cases i (8 * idx)); [apply Hbefore; lia|]. pose proof (Hb1 (i - 8 * idx) ltac:(lia)) as Hx.
    rewrite Hbits in Hx by lia. replace (8 * idx + (i - 8 * idx)) with i in Hx by lia. destruct (Z.ltb_spec i s); [lia|]. by rewrite orb_false_r in Hx. }
  assert (Hfalse : forall i, 8 * idx + a <= i < 8 * idx + e -> bit l i = false).
  { intros i Hii. pose proof (Hb2 (i - 8 * idx) ltac:(lia)) as Hx. rewrite Hbits in Hx by lia.
    replace (8 * idx + (i - 8 * idx)) with i in Hx by lia. by apply orb_false_iff in Hx as [Hx _]. }
  destruct (Z.eqb_spec e 8) as [He8|He8]; cbn [negb].
  - destruct (extend_spec l idx Hl Hi Hm) as (e' & -> & Hr & Hz & Hend). cbn [mbind option_bind]. eexists. split; [done|].
    unfold first_run. cbn [r_start r_end]. split; [lia|]. split; [lia|]. split; [intros; apply Htrue; lia|]. split; [|exact Hend].
    intros i Hii. destruct (Z.lt_ge_cases i (8 * (idx + 1))); [apply Hfalse|apply Hz]; lia.
  - eexists. split; [done|]. unfold first_run. cbn [r_start r_end]. split; [lia|]. split; [lia|]. split; [intros; apply Htrue; lia|].
    split; [intros; apply Hfalse; lia|]. intros _. pose proof (Hb3 ltac:(lia)) as Hx. rewrite Hbits in Hx by lia.
    replace (e + 8 * idx) with (8 * idx + e) by lia. destruct (Z.ltb_spec (8 * idx + e) s); [lia|]. by rewrite orb_false_r in Hx.
Qed.

Lemma next_run l first start : unmarked_from l first -> bytes l -> 8 * len l <= size_max -> 0 <= start ->
  exists r, NextUnmarkedRange (mk_bitmap l first) start = Some r /\
    ((r = mk_range 0 0 /\ forall i, start <= i < 8 * len l -> bit l i = true) \/ first_run l start r).
Proof.
  intros Hu Hl Hm Hs. destruct (unmarked_before l first Hu) as [Hf Hbefore]. unfold NextUnmarkedRange. cbn [bytes_ first_unmarked_byte_]. cbv zeta.
  rewrite shl3_spec by lia. set (s := Z.max start (8 * first)). destruct (shift_mask s) as [-> ->]. destruct (split8 s) as (Ds & Ms & Ps); [lia|].
  assert (Hlift : forall r, first_run l s r -> first_run l start r).
  { intros r (H1 & H2 & H3 & H4). split; [lia|]. split; [done|]. split; [|done]. intros i Hi.
    destruct (Z.lt_ge_cases i (8 * first)); [apply Hbefore; lia|apply H3; lia]. }
  destruct (Z.leb_spec (len l) (s / 8)) as [Hend|Hend].
  - eexists. split; [done|]. left. split; [done|]. intros i Hi. apply Hbefore. lia.
  - rewrite znth_at by lia. destruct (BitRange_spec 0 (s mod 8)) as (low & -> & Bl & Tl); [lia|lia|]. cbn [mbind option_bind].
    set (byte := Z.lor (at_ l (s / 8)) low). assert (Bb : is_byte byte) by (apply (lor_range 8); [lia|by apply at_byte|done]).
    assert (Tb : forall j, 0 <= j < 8 -> Z.testbit byte j = bit l (8 * (s / 8) + j) || (8 * (s / 8) + j <? s)).
    { intros j Hj. unfold byte. rewrite Z.lor_spec, bit_at8, Tl by lia. f_equal. zcases; lia || done. }
    destruct (Z.eqb_spec byte 255) as [Hfull|Hne].
    2:{ destruct (run_from l s (s / 8) byte) as (r & E & Hr); try done; try lia. exists r. split; [exact E|]. right. by apply Hlift. }
    destruct (skip_bytes_spec 255 (length l) l (s / 8 + 1)) as (k & -> & K1 & K2 & K3 & K4); [lia|unfold len; lia|]. cbn [mbind option_bind].
    assert (Hbk : forall i, s <= i < 8 * k -> bit l i = true).
    { intros i Hi. destruct (split8 i) as (Di & Mi & Pi); [lia|]. destruct (Z.eq_dec (i / 8) (s / 8)) as [Hd|Hd].
      - specialize (Tb (i mod 8) Mi). rewrite Hfull, bit_full in Tb by lia. rewrite <- Hd, <- Di in Tb. destruct (Z.ltb_spec i s); [lia|].
        by rewrite orb_false_r in Tb.
      - apply (bits_of_bytes l 255 true); [by left|lia|]. apply K3. lia. }
    destruct (Z.leb_spec (len l) k) as [Hk|Hk].
    + eexists. split; [done|]. left. split; [done|]. intros i Hi. destruct (Z.lt_ge_cases i s); [apply Hbefore; lia|apply Hbk; lia].
    + rewrite znth_at by lia. cbn [mbind option_bind]. destruct (run_from l s k (at_ l k)) as (r & E & Hr); try done; try lia.
      * by apply at_byte.
      * intros j Hj. rewrite bit_at8 by lia. destruct (Z.ltb_spec (8 * k + j) s); [lia|]. by rewrite orb_false_r.
      * exists r. split; [exact E|]. right. by apply Hlift.
Qed.

(** The answer of NextUnmarkedRange for the set [S]: the first maximal run outside it. *)
Definition next_unmarked (n : Z) (S : Z -> bool) (start : Z) (r : Range) : Prop :=
  (r = mk_range 0 0 /\ forall i, start <= i < n -> S i = true) \/
  (start <= r_start r < r_end r /\ r_end r <= n /\ (forall i, start <= i < r_start r -> S i = true) /\
   (forall i, r_start r <= i < r_end r -> S i = false) /\ (r_end r < n -> S (r_end r) = true)).

Lemma NextUnmarkedRange_marks n m S start : marks n m S -> 0 <= start ->
  exists r, NextUnmarkedRange m start = Some r /\ next_unmarked n S start r.
Proof.
  intros (Hn & Hu & Hb & HS) Hs. destruct m as [l first]. cbn [bytes_ first_unmarked_byte_] in *.
  destruct (next_run l first start Hu Hb) as (r & E & Hr); [|done|].
  { destruct l; [change (len (@nil Z)) with 0; unfold size_max; platform; lia|]. destruct HS as [H1 _]. lia. }
  exists r. split; [exact E|]. destruct l as [|b l].
  - destruct Hr as [[-> _]|(H1 & H2 & _)]; [|change (len (@nil Z)) with 0 in H2; lia]. left. split; [done|]. intros i Hi. apply HS. lia.
  - destruct HS as [Hlen HS]. destruct Hr as [[-> Hall]|(H1 & H2 & H3 & H4 & H5)].
    + left. split; [done|]. intros i Hi. specialize (Hall i ltac:(lia)). rewrite HS in Hall by lia. by destruct (Z.leb_spec n i); [lia|].
    + right. assert (Hend : r_end r <= n).
      { specialize (H4 (r_end r - 1) ltac:(lia)). rewrite HS in H4 by lia. destruct (Z.leb_spec n (r_end r - 1)); [done|lia]. }
      split; [lia|]. split; [done|]. split; [|split].
      * intros i Hi. specialize (H3 i Hi). rewrite HS in H3 by lia. by destruct (Z.leb_spec n i); [lia|].
      * intros i Hi. specialize (H4 i Hi). rewrite HS in H4 by lia. by apply orb_false_iff in H4 as [_ H4].
      * intros Hlt. specialize (H5 ltac:(lia)). rewrite HS in H5 by lia. by destruct (Z.leb_spec n (r_end r)); [lia|].
Qed.

(** Marking ranges one after the other. *)
Definition mark_all (m : DTLSMessageBitmap) (ranges : list (Z * Z)) : option DTLSMessageBitmap :=
  foldl (fun m '(start, end_) => m ← m; MarkRange m start end_) (Some m) ranges.
Definition covered (ranges : list (Z * Z)) (i : Z) : bool := existsb (fun '(start, end_) => (start <=? i) && (i <? end_)) ranges.

Lemma mark_all_marks n m S ranges : marks n m S -> Forall (fun '(start, end_) => 0 <= start <= end_) ranges ->
  exists m', mark_all m ranges = Some m' /\ marks n m' (fun i => S i || covered ranges i).
Proof.
  intros Hm Hr. revert m S Hm. induction Hr as [|[start end_] ranges Hr Hrs IH]; intros m S Hm.
  - exists m. split; [done|]. destruct Hm as (H1 & H2 & H3 & H4). split; [done|]. split; [done|]. split; [done|].
    destruct (bytes_ m); [intros i Hi; by rewrite H4|]. destruct H4 as [H4 H5]. split; [done|]. intros i Hi. by rewrite H5, orb_false_r.
  - destruct (MarkRange_marks n m S start end_ Hm Hr) as (m1 & E & Hm1). destruct (IH m1 _ Hm1) as (m' & E' & Hm'). exists m'.
    split; [unfold mark_all in *; cbn [foldl mbind option_bind]; by rewrite E|]. destruct Hm' as (H1 & H2 & H3 & H4). split; [done|]. split; [done|]. split; [done|].
    destruct (bytes_ m'); [intros i Hi; specialize (H4 i Hi); cbn [covered existsb]; by rewrite orb_assoc|].
    destruct H4 as [H4 H5]. split; [done|]. intros i Hi. rewrite H5 by done. cbn [covered existsb]. by rewrite !orb_assoc.
Qed.

(** C22: the bitmap of a message implements a set of bits. After Init with [n] bits and marking any
    ranges, in any order and overlapping, IsComplete holds exactly when every bit is in one of the
    ranges, and NextUnmarkedRange gives the first maximal range of bits, from its argument on, that is
    in none; no assertion or bounds check fails on the way. *)
Theorem DTLSMessageBitmap_refines_set n ranges start :
  0 <= n <= size_max - 7 -> Forall (fun '(start, end_) => 0 <= start <= end_) ranges -> 0 <= start ->
  exists m m' r, Init true (mk_bitmap [] 0) n = Some (Some m) /\ mark_all m ranges = Some m' /\
    (IsComplete m' = true <-> forall i, 0 <= i < n -> covered ranges i = true) /\
    NextUnmarkedRange m' start = Some r /\ next_unmarked n (covered ranges) start r.
Proof.
  intros Hn Hr Hs. destruct (Init_marks (mk_bitmap [] 0) n eq_refl Hn) as (m & E & Hm).
  destruct (mark_all_marks n m _ ranges Hm Hr) as (m' & E' & Hm'). destruct (NextUnmarkedRange_marks n m' _ start Hm' Hs) as (r & Er & Hnext).
  exists m, m', r. split; [exact E|]. split; [exact E'|]. split; [exact (IsComplete_marks n m' _ Hm')|]. split; [exact Er|exact Hnext].
Qed.

End Proofs.

Lemma DTLSMessageBitmap_refines_set_witness : exists m m' r,
  @Init LP64 true (mk_bitmap [] 0) 20 = Some (Some m) /\ @mark_all LP64 m [(4, 12); (0, 6)] = Some m' /\
  @NextUnmarkedRange LP64 m' 3 = Some r /\ r = mk_range 12 20.
Proof.
  destruct (@DTLSMessageBitmap_refines_set LP64 20 [(4, 12); (0, 6)] 3) as (m & m' & r & E & E' & _ & Er & _);
    [by vm_compute|repeat constructor; lia|lia|]. exists m, m', r. split; [exact E|]. split; [exact E'|]. split; [exact Er|].
  vm_compute in E. injection E as <-. vm_compute in E'. injection E' as <-. vm_compute in Er. by injection Er as <-.
Defined.
