(* ===== verification/DtlsState.v ===== *)
(** The state of a DTLS connection: DTLS1_STATE and what it is made of (ssl/internal.h), the timers of
    ssl/d1_lib.cc, and the versions of ssl/ssl_versions.cc.

    The structure is grouped by direction; bit-fields are booleans. [None] is a failed assertion or
    BSSL_CHECK. *)
From S2P Require Import Prelude.
From S2P Require Import Arrays.
From S2P Require Import DtlsNumbers.
From S2P Require Import DtlsBitmap.

Open Scope Z_scope.

(** ** Versions *)

Definition TLS1_VERSION : Z := 0x0301.
Definition TLS1_1_VERSION : Z := 0x0302.
Definition TLS1_2_VERSION : Z := 0x0303.
Definition TLS1_3_VERSION : Z := 0x0304.
Definition DTLS1_VERSION : Z := 0xfeff.
Definition DTLS1_2_VERSION : Z := 0xfefd.
Definition DTLS1_3_VERSION : Z := 0xfefc.

Definition ssl_protocol_version_from_wire (version : Z) : option Z :=
  if (version =? TLS1_VERSION) || (version =? TLS1_1_VERSION) || (version =? TLS1_2_VERSION) || (version =? TLS1_3_VERSION)
  then Some version
  else if version =? DTLS1_VERSION then Some TLS1_1_VERSION
  else if version =? DTLS1_2_VERSION then Some TLS1_2_VERSION
  else if version =? DTLS1_3_VERSION then Some TLS1_3_VERSION
  else None.

(** ** Queues of recent elements *)

Record MRUQueue (T : Type) := mk_mru { storage_ : list T; start_ : Z }.
Arguments mk_mru {T}.
Arguments storage_ {T}.
Arguments start_ {T}.

Definition mru_size {T} (q : MRUQueue T) : Z := len (storage_ q).
Definition mru_at {T} (n : Z) (q : MRUQueue T) (i : Z) : option T :=
  if i <? mru_size q then znth (storage_ q) ((start_ q + i) mod n) else None.
Definition mru_set {T} (n : Z) (q : MRUQueue T) (i : Z) (t : T) : option (MRUQueue T) :=
  if i <? mru_size q then Some (mk_mru (zupd (storage_ q) ((start_ q + i) mod n) t) (start_ q)) else None.
Definition Clear {T} (q : MRUQueue T) : MRUQueue T := mk_mru [] 0.
Definition PushBack {T} (n : Z) (q : MRUQueue T) (t : T) : option (MRUQueue T) :=
  if mru_size q <? n then
    if start_ q =? 0 then Some (mk_mru (storage_ q ++ [t]) (start_ q)) else None
  else
    q ← mru_set n q 0 t;
    Some (mk_mru (storage_ q) ((start_ q + 1) mod n)).

(** ** Timers *)

Record OPENSSL_timeval := mk_timeval { tv_sec : Z; tv_usec : Z }.

(** A timer is the time it expires at, zero when it is not set. *)
Definition kNever : Z := 2 ^ 64 - 1.
Definition Stop : OPENSSL_timeval := mk_timeval 0 0.
Definition IsSet (t : OPENSSL_timeval) : bool := negb (tv_sec t =? 0) || negb (tv_usec t =? 0).

Definition StartMicroseconds (t now : OPENSSL_timeval) (microseconds : Z) : OPENSSL_timeval :=
  let seconds := microseconds / 1000000 in
  let microseconds := microseconds mod 1000000 in
  let now := mk_timeval (tv_sec now) (u32 (tv_usec now + microseconds)) in
  let '(now, seconds) :=
    if 1000000 <=? tv_usec now then (mk_timeval (tv_sec now) (tv_usec now - 1000000), u64 (seconds + 1)) else (now, seconds) in
  if u64 (2 ^ 64 - 1 - seconds) <? tv_sec now then Stop
  else mk_timeval (u64 (tv_sec now + seconds)) (tv_usec now).

Definition MicrosecondsRemaining (t now : OPENSSL_timeval) : Z :=
  if negb (IsSet t) then kNever else
  if (tv_sec t <? tv_sec now) || ((tv_sec now =? tv_sec t) && (tv_usec t <=? tv_usec now)) then 0 else
  let sec := u64 (tv_sec t - tv_sec now) in
  let '(sec, usec) :=
    if tv_usec now <=? tv_usec t then (sec, u32 (tv_usec t - tv_usec now))
    else (u64 (sec - 1), u32 (tv_usec t + 1000000 - tv_usec now)) in
  if (sec =? 0) && (usec <? 15000) then 0 else
  if (2 ^ 64 - 1) / 1000000 <? sec then kNever else
  let sec := u64 (sec * 1000000) in
  if u64 (2 ^ 64 - 1 - usec) <? sec then kNever else u64 (sec + usec).

Definition IsExpired (t now : OPENSSL_timeval) : bool := MicrosecondsRemaining t now =? 0.

(** ** The connection *)

Definition SSL_MAX_HANDSHAKE_FLIGHT : Z := 7.
Definition DTLS_MAX_ACK_BUFFER : Z := 32.
Definition DTLS1_HM_HEADER_LENGTH : Z := 12.

Record hm_header_st := mk_hdr { hm_type : Z; hm_msg_len : Z; hm_seq : Z; hm_frag_off : Z; hm_frag_len : Z }.

Record DTLSIncomingMessage := mk_incoming { im_type : Z; im_seq : Z; im_data : list Z; reassembly : DTLSMessageBitmap }.

Record DTLSOutgoingMessage := mk_outgoing { om_data : list Z; om_epoch : Z; is_ccs : bool; acked : DTLSMessageBitmap }.

Record DTLSSentRecord := mk_sent { sr_number : Z; first_msg : Z; last_msg : Z; first_msg_start : Z; last_msg_end : Z }.

Definition IsFullyAcked (m : DTLSOutgoingMessage) : bool := negb (is_ccs m) && IsComplete (acked m).

Section State.
Context {A : Type}.

(** The cipher of an epoch, AEAD and record number encryption, is an [A]. *)
Record DTLSReadEpoch := mk_read_epoch { re_epoch : Z; re_aead : A; re_bitmap : DTLSReplayBitmap }.
Record DTLSWriteEpoch := mk_write_epoch { next_record : Z; we_aead : A }.
Definition we_epoch (w : DTLSWriteEpoch) : Z := epoch_of (next_record w).

(** What is received. *)
Record dtls_read := mk_read {
  has_change_cipher_spec : bool;
  handshake_read_overflow : bool;
  handshake_read_seq : Z;
  read_epoch : DTLSReadEpoch;
  next_read_epoch : option DTLSReadEpoch;
  prev_read_epoch : option (DTLSReadEpoch * Z);  (* with the second it expires *)
  incoming_messages : list (option DTLSIncomingMessage);
  records_to_ack : MRUQueue Z;
}.

(** What is sent. *)
Record dtls_write := mk_write {
  outgoing_messages_complete : bool;
  flight_has_reply : bool;
  handshake_write_overflow : bool;
  sending_flight : bool;
  sending_ack : bool;
  handshake_write_seq : Z;
  write_epoch : DTLSWriteEpoch;
  extra_write_epochs : list DTLSWriteEpoch;
  outgoing_messages : list DTLSOutgoingMessage;
  sent_records : option (MRUQueue DTLSSentRecord);
  outgoing_written : Z;
  outgoing_offset : Z;
  mtu : Z;
}.

(** Retransmission. *)
Record dtls_timers := mk_timers {
  num_timeouts : Z;
  retransmit_timer : OPENSSL_timeval;
  ack_timer : OPENSSL_timeval;
  timeout_duration_ms : Z;
}.

(** The parts of SSL and SSL3_STATE that the record and handshake layers use. [is_early_version] is
    that of the handshake object, false without one; [in_init] is SSL_in_init. *)
Record ssl_config := mk_config {
  version : Z;
  is_early_version : bool;
  in_init : bool;
  server : bool;
  verify_peer : bool;
  max_cert_list : Z;
  initial_timeout_duration_ms : Z;
}.

Record SSL := mk_ssl {
  config : ssl_config;
  has_message : bool;
  reading : dtls_read;
  writing : dtls_write;
  timers : dtls_timers;
}.

Definition ssl_has_final_version (ssl : SSL) : bool :=
  negb (version (config ssl) =? 0) && negb (is_early_version (config ssl)).

(** [None] where the version is not set or not a version: the assertions. *)
Definition ssl_protocol_version (ssl : SSL) : option Z :=
  if version (config ssl) =? 0 then None else ssl_protocol_version_from_wire (version (config ssl)).

Definition ssl_max_handshake_message_len (ssl : SSL) : option Z :=
  if in_init (config ssl) then
    if (negb (server (config ssl)) || verify_peer (config ssl)) && (16384 <? max_cert_list (config ssl))
    then Some (max_cert_list (config ssl)) else Some 16384
  else
    v ← ssl_protocol_version ssl;
    if v <? TLS1_3_VERSION then Some 0
    else if server (config ssl) then Some 1 else Some 16384.

Definition with_reading (ssl : SSL) (r : dtls_read) : SSL := mk_ssl (config ssl) (has_message ssl) r (writing ssl) (timers ssl).
Definition with_writing (ssl : SSL) (w : dtls_write) : SSL := mk_ssl (config ssl) (has_message ssl) (reading ssl) w (timers ssl).
Definition with_timers (ssl : SSL) (t : dtls_timers) : SSL := mk_ssl (config ssl) (has_message ssl) (reading ssl) (writing ssl) t.

Definition dtls1_stop_timer (ssl : SSL) : SSL :=
  with_timers ssl (mk_timers 0 Stop (ack_timer (timers ssl)) (initial_timeout_duration_ms (config ssl))).

(** EraseIf keeps the order of the other elements. *)
Definition dtls_clear_unused_write_epochs (ssl : SSL) : SSL :=
  let w := writing ssl in
  let unused (e : DTLSWriteEpoch) :=
    forallb (fun msg => negb ((om_epoch msg =? we_epoch e) && negb (IsFullyAcked msg))) (outgoing_messages w) in
  with_writing ssl (mk_write (outgoing_messages_complete w) (flight_has_reply w) (handshake_write_overflow w) (sending_flight w)
    (sending_ack w) (handshake_write_seq w) (write_epoch w) (List.filter (fun e => negb (unused e)) (extra_write_epochs w))
    (outgoing_messages w) (sent_records w) (outgoing_written w) (outgoing_offset w) (mtu w)).

Definition dtls_clear_outgoing_messages (ssl : SSL) : SSL :=
  let w := writing ssl in
  dtls_clear_unused_write_epochs (with_writing ssl (mk_write false false (handshake_write_overflow w) false (sending_ack w)
    (handshake_write_seq w) (write_epoch w) (extra_write_epochs w) [] None 0 0 (mtu w))).

End State.
