(* ===== verification/DtlsReceive.v ===== *)
(** Receiving DTLS handshake messages: the first half of ssl/d1_both.cc. Fragments of messages arrive
    in records, in any order; they are put together in a ring of seven messages and handed out in the
    order of their numbers.

    The result of a function is [None] where an assertion or a check fails; an alert stands for the
    return values false and NULL. Error codes and the message callback are not part of the state. *)
From S2P Require Import Prelude.
From S2P Require Import Arrays.
From S2P Require Import Heap.
From S2P Require Import Cbs.
From S2P Require Import Cbb.
From S2P Require Import DtlsNumbers.
From S2P Require Import DtlsBitmap.
From S2P Require Import DtlsState.
From stdpp Require Import gmap.

Open Scope Z_scope.

Definition SSL_AD_UNEXPECTED_MESSAGE : Z := 10.
Definition SSL_AD_ILLEGAL_PARAMETER : Z := 47.
Definition SSL_AD_DECODE_ERROR : Z := 50.
Definition SSL_AD_INTERNAL_ERROR : Z := 80.

(** The messages of the ring. *)
Definition ring_at (ring : list (option DTLSIncomingMessage)) (idx : Z) : option (option DTLSIncomingMessage) := znth ring idx.
Definition ring_set (ring : list (option DTLSIncomingMessage)) (idx : Z) (m : option DTLSIncomingMessage) := zupd ring idx m.

Definition msg_len (m : DTLSIncomingMessage) : Z := len (zdrop DTLS1_HM_HEADER_LENGTH (im_data m)).

Definition dtls1_parse_fragment : rd (hm_header_st * CBS) :=
  (type <-- CBS_get_u8 ;;
   msg_len <-- CBS_get_u24 ;;
   seq <-- CBS_get_u16 ;;
   frag_off <-- CBS_get_u24 ;;
   frag_len <-- CBS_get_u24 ;;
   body <-- CBS_get_bytes frag_len ;;
   rd_ret (mk_hdr type msg_len seq frag_off frag_len, body))%rd.

Section Receive.
Context `{P : Platform} `{AL : Allocator} `{MA : Malloc} {A : Type}.
(** The answer of the allocator for the structure of a message, by its number. *)
Context (new_ok : Z -> bool).

Abbreviation SSL := (@SSL A).

Definition with_incoming (ssl : SSL) (ring : list (option DTLSIncomingMessage)) : SSL :=
  let r := reading ssl in
  with_reading ssl (mk_read (has_change_cipher_spec r) (handshake_read_overflow r) (handshake_read_seq r) (read_epoch r)
    (next_read_epoch r) (prev_read_epoch r) ring (records_to_ack r)).

(** The header of a whole message, written in place at the start of [data]: [Some None] is a failure
    of the CBB. *)
Definition header_cbb (msg_hdr : hm_header_st) (out : list Z) : M (option (list Z * Z)) :=
  ok ← andthen (CBB_init_fixed 0%nat out)
         (andthen (CBB_add_u8 0%nat (hm_type msg_hdr))
         (andthen (CBB_add_u24 0%nat (hm_msg_len msg_hdr))
         (andthen (CBB_add_u16 0%nat (hm_seq msg_hdr))
         (andthen (CBB_add_u24 0%nat 0) (CBB_add_u24 0%nat (hm_msg_len msg_hdr))))));
  if negb ok then mret None else CBB_finish 0%nat false false.
Definition write_header (msg_hdr : hm_header_st) (data : list Z) : option (option (list Z)) :=
  '(o, _) ← header_cbb msg_hdr (ztake DTLS1_HM_HEADER_LENGTH data) (mk_store ∅ ∅ 0);
  Some (match o with Some (h, _) => Some (h ++ zdrop (len h) data) | None => None end).

Definition dtls_new_incoming_message (msg_hdr : hm_header_st) : option (option DTLSIncomingMessage) :=
  if negb (new_ok (hm_seq msg_hdr)) then Some None else
  match OPENSSL_malloc (DTLS1_HM_HEADER_LENGTH + hm_msg_len msg_hdr) with
  | None => Some None
  | Some data =>
    o ← write_header msg_hdr data;
    match o with
    | None => Some None
    | Some data =>
      let num_bytes := (hm_msg_len msg_hdr + 7) / 8 in
      m ← Init ((num_bytes =? 0) || malloc_ok num_bytes) (mk_bitmap [] 0) (hm_msg_len msg_hdr);
      Some (match m with Some m => Some (mk_incoming (hm_type msg_hdr) (hm_seq msg_hdr) data m) | None => None end)
    end
  end.

Definition dtls1_is_current_message_complete (ssl : SSL) : option bool :=
  frag ← ring_at (incoming_messages (reading ssl)) (handshake_read_seq (reading ssl) mod SSL_MAX_HANDSHAKE_FLIGHT);
  Some (match frag with Some frag => IsComplete (reassembly frag) | None => false end).

(** The position of the message in the ring, or an alert. *)
Definition dtls1_get_incoming_message (ssl : SSL) (msg_hdr : hm_header_st) : option (SSL * (Z + Z)) :=
  let seq := hm_seq msg_hdr in
  let read_seq := handshake_read_seq (reading ssl) in
  if (seq <? read_seq) || (SSL_MAX_HANDSHAKE_FLIGHT <=? seq - read_seq) then Some (ssl, inl SSL_AD_INTERNAL_ERROR) else
  let idx := seq mod SSL_MAX_HANDSHAKE_FLIGHT in
  frag ← ring_at (incoming_messages (reading ssl)) idx;
  match frag with
  | Some frag =>
    if negb (im_seq frag =? seq) then None else
    if negb (im_type frag =? hm_type msg_hdr) || negb (msg_len frag =? hm_msg_len msg_hdr)
    then Some (ssl, inl SSL_AD_ILLEGAL_PARAMETER)
    else Some (ssl, inr idx)
  | None =>
    new ← dtls_new_incoming_message msg_hdr;
    let ssl := with_incoming ssl (ring_set (incoming_messages (reading ssl)) idx new) in
    match new with
    | None => Some (ssl, inl SSL_AD_INTERNAL_ERROR)
    | Some _ => Some (ssl, inr idx)
    end
  end.

(** One fragment: an alert, or whether it acknowledges the flight and whether it was skipped. *)
Definition process_fragment (ssl : SSL) (record_number : Z) (msg_hdr : hm_header_st) (body : CBS)
    : option (SSL * (Z + bool * bool)) :=
  let frag_off := hm_frag_off msg_hdr in
  let frag_len := hm_frag_len msg_hdr in
  let mlen := hm_msg_len msg_hdr in
  let r := reading ssl in
  if (mlen <? frag_off) || (mlen - frag_off <? frag_len) then Some (ssl, inl SSL_AD_ILLEGAL_PARAMETER) else
  if (hm_seq msg_hdr <? handshake_read_seq r) || handshake_read_overflow r then Some (ssl, inr (false, false)) else
  if negb (epoch_of record_number =? re_epoch (read_epoch r)) || (match next_read_epoch r with Some _ => true | None => false end)
  then Some (ssl, inl SSL_AD_UNEXPECTED_MESSAGE) else
  max_len ← ssl_max_handshake_message_len ssl;
  if max_len <? mlen then Some (ssl, inl SSL_AD_ILLEGAL_PARAMETER) else
  implicit_ack ←
    (if in_init (config ssl) && ssl_has_final_version ssl
     then v ← ssl_protocol_version ssl; Some (TLS1_3_VERSION <=? v) else Some false);
  if SSL_MAX_HANDSHAKE_FLIGHT <? hm_seq msg_hdr - handshake_read_seq r then Some (ssl, inr (implicit_ack, true)) else
  '(ssl, res) ← dtls1_get_incoming_message ssl msg_hdr;
  match res with
  | inl alert => Some (ssl, inl alert)
  | inr idx =>
    let ring := incoming_messages (reading ssl) in
    slot ← ring_at ring idx;
    frag ← slot;
    if negb (msg_len frag =? mlen) then None else
    if IsComplete (reassembly frag) then Some (ssl, inr (implicit_ack, false)) else
    if negb (0 <? mlen) then None else
    data ← store_at (im_data frag) (DTLS1_HM_HEADER_LENGTH + frag_off) body;
    m ← MarkRange (reassembly frag) frag_off (frag_off + frag_len);
    Some (with_incoming ssl (ring_set ring idx (Some (mk_incoming (im_type frag) (im_seq frag) data m))), inr (implicit_ack, false))
  end.

(** The loop over the fragments of a record; [fuel] is at least the length of the record. *)
Fixpoint process_fragments (fuel : nat) (ssl : SSL) (record_number : Z) (cbs : CBS) (implicit_ack skipped_fragments : bool)
    : option (SSL * (Z + bool * bool)) :=
  match fuel with
  | O => None
  | S fuel =>
    if len cbs =? 0 then Some (ssl, inr (implicit_ack, skipped_fragments)) else
    match dtls1_parse_fragment cbs with
    | (None, _) => Some (ssl, inl SSL_AD_DECODE_ERROR)
    | (Some (msg_hdr, body), cbs) =>
      '(ssl, res) ← process_fragment ssl record_number msg_hdr body;
      match res with
      | inl alert => Some (ssl, inl alert)
      | inr (ack, skip) => process_fragments fuel ssl record_number cbs (implicit_ack || ack) (skipped_fragments || skip)
      end
    end
  end.

(** The records to acknowledge, and the timer of the acknowledgement. *)
Definition schedule_ack (ssl : SSL) (now : OPENSSL_timeval) (record_number : Z) : option SSL :=
  let r := reading ssl in
  queue ← PushBack DTLS_MAX_ACK_BUFFER (records_to_ack r) record_number;
  let ssl := with_reading ssl (mk_read (has_change_cipher_spec r) (handshake_read_overflow r) (handshake_read_seq r) (read_epoch r)
    (next_read_epoch r) (prev_read_epoch r) (incoming_messages r) queue) in
  v ← (if ssl_has_final_version ssl then ssl_protocol_version ssl else Some 0);
  if ssl_has_final_version ssl && (TLS1_3_VERSION <=? v) && negb (IsSet (ack_timer (timers ssl))) && negb (sending_ack (writing ssl)) then
    let t := timers ssl in
    Some (with_timers ssl (mk_timers (num_timeouts t) (retransmit_timer t)
      (StartMicroseconds (ack_timer t) now (u64 (timeout_duration_ms t * 1000) / 4)) (timeout_duration_ms t)))
  else Some ssl.

(** The alert, or [None] when the function returns true. *)
Definition dtls1_process_handshake_fragments (ssl : SSL) (now : OPENSSL_timeval) (record_number : Z) (record : CBS)
    : option (SSL * option Z) :=
  '(ssl, res) ← process_fragments (S (length record)) ssl record_number record false false;
  match res with
  | inl alert => Some (ssl, Some alert)
  | inr (implicit_ack, skipped_fragments) =>
    let ssl := if (implicit_ack : bool) then dtls_clear_outgoing_messages (dtls1_stop_timer ssl) else ssl in
    ssl ← (if negb (skipped_fragments : bool) then schedule_ack ssl now record_number else Some ssl);
    Some (ssl, None)
  end.

(** Type, whole message and body of the current message. *)
Definition dtls1_get_message (ssl : SSL) : option (SSL * option (Z * list Z * list Z)) :=
  complete ← dtls1_is_current_message_complete ssl;
  if negb complete then Some (ssl, None) else
  slot ← ring_at (incoming_messages (reading ssl)) (handshake_read_seq (reading ssl) mod SSL_MAX_HANDSHAKE_FLIGHT);
  frag ← slot;
  Some (mk_ssl (config ssl) true (reading ssl) (writing ssl) (timers ssl),
        Some (im_type frag, im_data frag, zdrop DTLS1_HM_HEADER_LENGTH (im_data frag))).

Definition dtls1_next_message (ssl : SSL) : option SSL :=
  if negb (has_message ssl) then None else
  complete ← dtls1_is_current_message_complete ssl;
  if negb complete then None else
  let r := reading ssl in
  let ring := ring_set (incoming_messages r) (handshake_read_seq r mod SSL_MAX_HANDSHAKE_FLIGHT) None in
  let read_seq := u16 (handshake_read_seq r + 1) in
  let r := mk_read (has_change_cipher_spec r) (if read_seq =? 0 then true else handshake_read_overflow r) read_seq
    (read_epoch r) (next_read_epoch r) (prev_read_epoch r) ring (records_to_ack r) in
  let w := writing ssl in
  let w := mk_write (outgoing_messages_complete w) (if outgoing_messages_complete w then true else flight_has_reply w)
    (handshake_write_overflow w) (sending_flight w) (sending_ack w) (handshake_write_seq w) (write_epoch w) (extra_write_epochs w)
    (outgoing_messages w) (sent_records w) (outgoing_written w) (outgoing_offset w) (mtu w) in
  Some (mk_ssl (config ssl) false r w (timers ssl)).

Fixpoint unprocessed_from (n : nat) (i current : Z) (ssl : SSL) : option bool :=
  match n with
  | O => Some false
  | S n =>
    if has_message ssl && (i =? current) then
      complete ← dtls1_is_current_message_complete ssl;
      if negb complete then None else unprocessed_from n (i + 1) current ssl
    else
      slot ← ring_at (incoming_messages (reading ssl)) i;
      match slot with Some _ => Some true | None => unprocessed_from n (i + 1) current ssl end
  end.

Definition dtls_has_unprocessed_handshake_data (ssl : SSL) : option bool :=
  unprocessed_from (Z.to_nat SSL_MAX_HANDSHAKE_FLIGHT) 0 (handshake_read_seq (reading ssl) mod SSL_MAX_HANDSHAKE_FLIGHT) ssl.

End Receive.
