(* ===== verification/DtlsReceiveProofs.v ===== *)
(** Reassembly of DTLS handshake messages: from fragments that arrive in any order, any number of
    times and with any overlap, the messages come out whole and in order. *)
From S2P Require Import Prelude.
From S2P Require Import Arrays.
From S2P Require Import Heap.
From S2P Require Import Cbs.
From S2P Require Import Asn1.
From S2P Require Import Cbb.
From S2P Require Import CbbSpec.
From S2P Require Import CbbProofs.
From S2P Require Import CbbBuild.
From S2P Require Import DtlsNumbers.
From S2P Require Import DtlsBitmap.
From S2P Require Import DtlsState.
From S2P Require Import DtlsReceive.
From stdpp Require Import gmap.

Open Scope Z_scope.

(** ** Fragments on the wire *)

Definition header (type mlen seq off flen : Z) : list Z :=
  [type] ++ be_bytes 3 mlen ++ be_bytes 2 seq ++ be_bytes 3 off ++ be_bytes 3 flen.

Lemma len_header t n k o f : len (header t n k o f) = 12.
Proof. unfold header. by rewrite !len_app, !len_be_bytes. Qed.

Lemma reads_u24 v r : 0 <= v < 2 ^ 24 -> CBS_get_u24 (be_bytes 3 v ++ r) = (Some v, r).
Proof.
  intros Hv. unfold CBS_get_u24. rewrite (proj1 (reads_uint_be 3 32 ltac:(lia) ltac:(lia)));
    [|apply bytes_be_bytes|by rewrite len_be_bytes]. rewrite be_val_be_bytes, Z.mod_small; [done|]. change (256 ^ Z.of_nat 3) with (2 ^ 24). lia.
Qed.
Lemma reads_u16 v r : 0 <= v < 2 ^ 16 -> CBS_get_u16 (be_bytes 2 v ++ r) = (Some v, r).
Proof.
  intros Hv. unfold CBS_get_u16. rewrite (proj1 (reads_uint_be 2 16 ltac:(lia) ltac:(lia)));
    [|apply bytes_be_bytes|by rewrite len_be_bytes]. rewrite be_val_be_bytes, Z.mod_small; [done|]. change (256 ^ Z.of_nat 2) with (2 ^ 16). lia.
Qed.

Lemma parse_header t n k o f body rest : is_byte t -> 0 <= n < 2 ^ 24 -> 0 <= k < 2 ^ 16 -> 0 <= o < 2 ^ 24 -> 0 <= f < 2 ^ 24 -> len body = f ->
  dtls1_parse_fragment (header t n k o f ++ body ++ rest) = (Some (mk_hdr t n k o f, body), rest).
Proof.
  intros Ht Hn Hk Ho Hf Hb. unfold dtls1_parse_fragment, header. rewrite <- !app_assoc. cbn [app]. unfold rd_bind at 1.
  rewrite CBS_get_u8_cons. unfold rd_bind. rewrite reads_u24 by done. rewrite reads_u16 by done. rewrite !reads_u24 by done.
  unfold CBS_get_bytes. rewrite (cbs_get_app f) by done. done.
Qed.

(** ** The header of a whole message *)

Section Reassembly.
Context `{P : Platform} `{AL : Allocator} `{MA : Malloc} {A : Type}.

Lemma add_u24_appends d a u : 0 <= u < 2 ^ 24 -> appends d a (CBB_add_u24 a u) (Some (be_bytes 3 u)).
Proof. intros Hu. by apply add_uint_appends. Qed.

Lemma header_appends h : is_byte (hm_type h) -> 0 <= hm_msg_len h < 2 ^ 24 -> 0 <= hm_seq h < 2 ^ 16 ->
  appends_flushed 1 0 (andthen (CBB_add_u8 0%nat (hm_type h)) (andthen (CBB_add_u24 0%nat (hm_msg_len h))
    (andthen (CBB_add_u16 0%nat (hm_seq h)) (andthen (CBB_add_u24 0%nat 0) (CBB_add_u24 0%nat (hm_msg_len h))))))
    (Some (header (hm_type h) (hm_msg_len h) (hm_seq h) 0 (hm_msg_len h))).
Proof.
  intros Ht Hn Hk. apply appends_appends_flushed.
  apply (appends_seq _ _ _ _ (Some [_]) (Some _)); [by apply add_u8_appends|]. apply appends_appends_flushed.
  apply (appends_seq _ _ _ _ (Some _) (Some _)); [by apply add_u24_appends|]. apply appends_appends_flushed.
  apply (appends_seq _ _ _ _ (Some _) (Some _)); [by apply add_uint_appends|]. apply appends_appends_flushed.
  apply (appends_seq _ _ _ _ (Some _) (Some _)); [by apply add_u24_appends|]. by apply appends_appends_flushed, add_u24_appends.
Qed.

Lemma header_written h data : is_byte (hm_type h) -> 0 <= hm_msg_len h < 2 ^ 24 -> 0 <= hm_seq h < 2 ^ 16 -> 12 <= len data ->
  write_header h data = Some (Some (header (hm_type h) (hm_msg_len h) (hm_seq h) 0 (hm_msg_len h) ++ zdrop 12 data)).
Proof.
  intros Ht Hn Hk Hd. unfold write_header, header_cbb.
  assert (L : len (ztake DTLS1_HM_HEADER_LENGTH data) = 12) by (rewrite len_ztake; unfold DTLS1_HM_HEADER_LENGTH; lia).
  destruct (fixed_finish (mk_store ∅ ∅ 0) 0%nat (ztake DTLS1_HM_HEADER_LENGTH data) _ _ ltac:(rewrite L; unfold size_max; platform; lia)
    (header_appends h Ht Hn Hk) ltac:(rewrite L, len_header; lia)) as (s' & E).
  rewrite E. cbn [mbind option_bind]. by rewrite len_header.
Qed.

(** ** Messages and their fragments *)

(** The messages of the peer by their numbers, a type and a body; and a fragment of one of them. *)
Context (msgs : Z -> Z * list Z).
Record fragment := mk_fragment { f_seq : Z; f_off : Z; f_len : Z }.

Definition body (k : Z) : list Z := snd (msgs k).
Definition fragment_header (f : fragment) : hm_header_st :=
  mk_hdr (fst (msgs (f_seq f))) (len (body (f_seq f))) (f_seq f) (f_off f) (f_len f).
Definition fragment_body (f : fragment) : list Z := ztake (f_len f) (zdrop (f_off f) (body (f_seq f))).
Definition fragment_bytes (f : fragment) : list Z :=
  header (fst (msgs (f_seq f))) (len (body (f_seq f))) (f_seq f) (f_off f) (f_len f) ++ fragment_body f.
Definition fragment_ok (f : fragment) : Prop :=
  0 <= f_seq f < 2 ^ 16 /\ 0 <= f_off f /\ 0 <= f_len f /\ f_off f + f_len f <= len (body (f_seq f)).

(** The whole message, as it is delivered. *)
Definition message (k : Z) : Z * list Z * list Z :=
  (fst (msgs k), header (fst (msgs k)) (len (body k)) k 0 (len (body k)) ++ body k, body k).

(** The ranges of message [k] that have arrived. *)
Definition ranges (R : list fragment) (k : Z) : list (Z * Z) :=
  (fun f => (f_off f, f_off f + f_len f)) <$> List.filter (fun f => f_seq f =? k) R.
Definition arrived (R : list fragment) (k i : Z) : bool := covered (ranges R k) i.

(** Messages of a size the connection accepts. *)
Context (max_len : Z).
Definition message_ok (k : Z) : Prop := is_byte (fst (msgs k)) /\ len (body k) <= max_len.
Context (Hmsgs : forall k, message_ok k) (Hmax : max_len < 2 ^ 24).

Lemma len_fragment_body f : fragment_ok f -> len (fragment_body f) = f_len f.
Proof. intros (Hk & Ho & Hl & Hb). unfold fragment_body. rewrite len_ztake; [done|]. rewrite len_zdrop by lia. lia. Qed.

Lemma parse_fragment f rest : fragment_ok f ->
  dtls1_parse_fragment (fragment_bytes f ++ rest) = (Some (fragment_header f, fragment_body f), rest).
Proof.
  intros Hf. pose proof (len_fragment_body f Hf) as L. destruct Hf as (Hk & Ho & Hl & Hb). destruct (Hmsgs (f_seq f)) as [Ht Hn].
  unfold fragment_bytes. rewrite <- app_assoc. apply parse_header; unfold message_ok in *; try done; lia.
Qed.

Lemma ranges_app R R' k : ranges (R ++ R') k = ranges R k ++ ranges R' k.
Proof. unfold ranges. by rewrite List.filter_app, fmap_app. Qed.

Lemma arrived_snoc R f k i : arrived (R ++ [f]) k i = arrived R k i || ((f_seq f =? k) && ((f_off f <=? i) && (i <? f_off f + f_len f))).
Proof.
  unfold arrived. rewrite ranges_app. unfold covered. rewrite existsb_app. f_equal. unfold ranges. cbn [List.filter].
  destruct (f_seq f =? k); [|done]. cbn. by rewrite orb_false_r.
Qed.

(** ** The ring of messages *)

(** The message [m] of the ring is message [k], of which the bytes of [S] have been received. *)
Definition assembled (k : Z) (S : Z -> bool) (m : DTLSIncomingMessage) : Prop :=
  im_type m = fst (msgs k) /\ im_seq m = k /\ marks (len (body k)) (reassembly m) S /\
  exists data, im_data m = header (fst (msgs k)) (len (body k)) k 0 (len (body k)) ++ data /\ len data = len (body k) /\
    forall i, 0 <= i < len (body k) -> S i = true -> at_ data i = at_ (body k) i.

Lemma assembled_len k S m : assembled k S m -> msg_len m = len (body k).
Proof. intros (_ & _ & _ & data & E & L & _). unfold msg_len. rewrite E. rewrite zdrop_app_eq by (by rewrite len_header). done. Qed.

Lemma assembled_ext k S S' m : (forall i, 0 <= i < len (body k) -> S i = S' i) -> assembled k S m -> assembled k S' m.
Proof.
  intros E (Ht & Hk & Hm & data & Ed & L & H). split; [done|]. split; [done|]. split; [by apply (marks_ext _ _ S)|].
  exists data. split; [done|]. split; [done|]. intros i Hi HS. apply H; [done|]. by rewrite E.
Qed.

(** A message all of whose bytes have been received is the message of the peer. *)
Lemma assembled_complete k S m : assembled k S m -> IsComplete (reassembly m) = true ->
  (im_type m, im_data m, zdrop DTLS1_HM_HEADER_LENGTH (im_data m)) = message k.
Proof.
  intros (Ht & Hk & Hm & data & Ed & L & H) Hc. assert (data = body k) as ->.
  { apply list_eq_at; [done|]. intros i Hi. apply H; [lia|]. apply (proj1 (IsComplete_marks _ _ _ Hm) Hc). lia. }
  unfold message. rewrite Ht, Ed, zdrop_app_eq by (by rewrite len_header). done.
Qed.

Lemma at_ext_store d off x i : 0 <= off -> off + len x <= len d -> 0 <= i < len d ->
  at_ (ztake off d ++ x ++ zdrop (off + len x) d) i = if (off <=? i) && (i <? off + len x) then at_ x (i - off) else at_ d i.
Proof.
  intros Ho Hx Hi. pose proof (len_nonneg x). destruct (Z.leb_spec off i); cbn [andb].
  - rewrite at_app_r by (rewrite len_ztake; lia). rewrite len_ztake by lia. destruct (Z.ltb_spec i (off + len x)); [by rewrite at_app_l by lia|].
    rewrite at_app_r, at_zdrop by lia. f_equal. lia.
  - rewrite at_app_l by (rewrite len_ztake; lia). apply at_ztake. lia.
Qed.

(** Copying a fragment into its message. *)
Lemma put_fragment f S m : fragment_ok f -> assembled (f_seq f) S m ->
  exists data bm, store_at (im_data m) (DTLS1_HM_HEADER_LENGTH + f_off f) (fragment_body f) = Some data /\
    MarkRange (reassembly m) (f_off f) (f_off f + f_len f) = Some bm /\
    assembled (f_seq f) (fun i => S i || ((f_off f <=? i) && (i <? f_off f + f_len f))) (mk_incoming (im_type m) (im_seq m) data bm).
Proof.
  intros Hf (Ht & Hk & Hm & data & Ed & L & H). pose proof (len_fragment_body f Hf) as Lf. destruct Hf as (Hs & Ho & Hl & Hb).
  destruct (MarkRange_marks _ _ _ (f_off f) (f_off f + f_len f) Hm ltac:(lia)) as (bm & Eb & Hbm).
  set (h := header _ _ _ _ _) in *. assert (Lh : len h = 12) by apply len_header.
  exists (h ++ ztake (f_off f) data ++ fragment_body f ++ zdrop (f_off f + f_len f) data), bm. split; [|split; [done|]].
  - unfold DTLS1_HM_HEADER_LENGTH. rewrite store_at_ok; [|lia|rewrite Ed, len_app; lia]. rewrite Ed, Lf. f_equal.
    rewrite <- Lh. rewrite (ztake_app_add h), <- Z.add_assoc, (zdrop_app_add h) by lia. by rewrite <- app_assoc.
  - split; [done|]. split; [done|]. split; [done|]. eexists. split; [done|]. rewrite <- Lf. split.
    + rewrite !len_app, len_ztake, len_zdrop by lia. lia.
    + intros i Hi HS. rewrite at_ext_store by lia. rewrite Lf in *. destruct (Z.leb_spec (f_off f) i); cbn [andb] in *.
      * destruct (Z.ltb_spec i (f_off f + f_len f)); [|rewrite orb_false_r in HS; by apply H].
        unfold fragment_body. rewrite at_ztake, at_zdrop by lia. f_equal. lia.
      * rewrite orb_false_r in HS. by apply H.
Qed.

(** The contents of a slot for message [k] when the fragments [R] have arrived. *)
Definition holds (k : Z) (R : list fragment) (slot : option DTLSIncomingMessage) : Prop :=
  match slot with None => ranges R k = [] | Some m => ranges R k <> [] /\ assembled k (arrived R k) m end.

Lemma holds_other k R f slot : f_seq f <> k -> holds k R slot -> holds k (R ++ [f]) slot.
Proof.
  intros Hne. assert (E : ranges (R ++ [f]) k = ranges R k).
  { rewrite ranges_app. unfold ranges at 2. cbn [List.filter]. destruct (Z.eqb_spec (f_seq f) k); [lia|]. apply app_nil_r. }
  unfold holds, arrived. by rewrite E.
Qed.

Lemma holds_this R f S m : ranges R (f_seq f) = [] /\ S = (fun _ => false) \/ S = arrived R (f_seq f) ->
  assembled (f_seq f) (fun i => S i || ((f_off f <=? i) && (i <? f_off f + f_len f))) m -> holds (f_seq f) (R ++ [f]) (Some m).
Proof.
  intros HS Hm. split.
  - rewrite ranges_app. unfold ranges at 2. cbn [List.filter]. rewrite Z.eqb_refl. by destruct (ranges R (f_seq f)).
  - apply (assembled_ext _ _ _ m) with (2 := Hm). intros i _. rewrite arrived_snoc, Z.eqb_refl. cbn [andb]. f_equal.
    destruct HS as [[E ->]| ->]; [|done]. unfold arrived. by rewrite E.
Qed.

(** Every allocation succeeds. *)
Context (new_ok : Z -> bool) (Hnew : forall k, new_ok k = true) (Hmalloc : forall n, malloc_ok n = true).

Lemma new_message f : fragment_ok f ->
  exists m, dtls_new_incoming_message new_ok (fragment_header f) = Some (Some m) /\ assembled (f_seq f) (fun _ => false) m.
Proof.
  intros (Hk & Ho & Hl & Hb). destruct (Hmsgs (f_seq f)) as [Ht Hn]. pose proof (len_nonneg (body (f_seq f))) as Hp.
  unfold dtls_new_incoming_message. rewrite Hnew. cbn [negb]. unfold OPENSSL_malloc. rewrite Hmalloc. unfold DTLS1_HM_HEADER_LENGTH.
  assert (L : len (Heap.fresh (12 + hm_msg_len (fragment_header f))) = 12 + len (body (f_seq f))) by (rewrite fresh_len; cbn; lia).
  rewrite header_written by (cbn in *; done || lia). cbn [mbind option_bind]. cbv zeta. rewrite Hmalloc, orb_true_r.
  destruct (Init_marks (mk_bitmap [] 0) (hm_msg_len (fragment_header f)) eq_refl) as (bm & E & Hbm).
  { cbn. unfold size_max. platform; lia. }
  rewrite E. eexists. split; [done|]. split; [done|]. split; [done|]. split; [done|]. eexists. split; [done|].
  split; [rewrite len_zdrop; lia|done].
Qed.

(** ** The state of the receiver *)

Context (ssl0 : @SSL A) (Hlen : ssl_max_handshake_message_len ssl0 = Some max_len).
Context (Hver : ssl_has_final_version ssl0 = true -> is_Some (ssl_protocol_version ssl0)).

Definition mru_ok {T} (n : Z) (q : MRUQueue T) : Prop :=
  0 <= start_ q < n /\ mru_size q <= n /\ (mru_size q < n -> start_ q = 0).

(** Messages before [k] have been delivered; of the others, the fragments [R] have arrived. *)
Record receives (ssl : @SSL A) (k : Z) (R : list fragment) : Prop := {
  rc_config : config ssl = config ssl0;
  rc_epoch : re_epoch (read_epoch (reading ssl)) = re_epoch (read_epoch (reading ssl0));
  rc_next : next_read_epoch (reading ssl) = None;
  rc_range : 0 <= k <= 2 ^ 16;
  rc_seq : handshake_read_seq (reading ssl) = u16 k;
  rc_overflow : handshake_read_overflow (reading ssl) = (k =? 2 ^ 16);
  rc_ring : len (incoming_messages (reading ssl)) = SSL_MAX_HANDSHAKE_FLIGHT;
  rc_slots : forall j, k <= j < k + SSL_MAX_HANDSHAKE_FLIGHT ->
    exists slot, ring_at (incoming_messages (reading ssl)) (j mod SSL_MAX_HANDSHAKE_FLIGHT) = Some slot /\ holds j R slot;
  rc_window : Forall (fun f => f_seq f < k + SSL_MAX_HANDSHAKE_FLIGHT /\ f_seq f < 2 ^ 16) R;
  rc_acks : mru_ok DTLS_MAX_ACK_BUFFER (records_to_ack (reading ssl));
}.

(** The fragments the receiver keeps when it waits for message [k]. *)
Definition in_window (k : Z) (f : fragment) : bool := (k <=? f_seq f) && (f_seq f <? k + SSL_MAX_HANDSHAKE_FLIGHT).

Lemma read_seq_spec ssl k R : receives ssl k R -> handshake_read_overflow (reading ssl) = false -> k < 2 ^ 16 /\ handshake_read_seq (reading ssl) = k.
Proof.
  intros H Ho. pose proof (rc_range _ _ _ H) as Hk. rewrite (rc_overflow _ _ _ H) in Ho. apply Z.eqb_neq in Ho. split; [lia|].
  rewrite (rc_seq _ _ _ H). apply wrap_small. lia.
Qed.

Lemma past_spec ssl k R s : receives ssl k R -> s < 2 ^ 16 ->
  (s <? handshake_read_seq (reading ssl)) || handshake_read_overflow (reading ssl) = (s <? k).
Proof.
  intros H Hs. destruct (handshake_read_overflow (reading ssl)) eqn:E.
  - rewrite orb_true_r. rewrite (rc_overflow _ _ _ H) in E. apply Z.eqb_eq in E. symmetry. apply Z.ltb_lt. lia.
  - destruct (read_seq_spec ssl k R H E) as [_ ->]. apply orb_false_r.
Qed.

(** ** One fragment *)

(** What depends on the configuration only. *)
Lemma max_len_same (ssl : @SSL A) : config ssl = config ssl0 -> ssl_max_handshake_message_len ssl = Some max_len.
Proof. intros E. rewrite <- Hlen. unfold ssl_max_handshake_message_len, ssl_protocol_version. by rewrite E. Qed.

Lemma version_same (ssl : @SSL A) : config ssl = config ssl0 -> ssl_has_final_version ssl = true -> exists v, ssl_protocol_version ssl = Some v.
Proof. unfold ssl_has_final_version, ssl_protocol_version in *. intros E. rewrite E. exact Hver. Qed.

Lemma ack_decided (ssl : @SSL A) : config ssl = config ssl0 -> exists a,
  (if in_init (config ssl) && ssl_has_final_version ssl then v ← ssl_protocol_version ssl; Some (TLS1_3_VERSION <=? v) else Some false) = Some a.
Proof.
  intros E. destruct (in_init (config ssl)); [|by exists false]. destruct (ssl_has_final_version ssl) eqn:Ev; [|by exists false].
  destruct (version_same ssl E Ev) as (v & ->). by eexists.
Qed.

(** The record comes from the epoch that is being read. *)
Definition epoch_ok (rn : Z) : Prop := epoch_of rn = re_epoch (read_epoch (reading ssl0)).

(** The checks before the message is looked up. *)
Lemma process_checks ssl k R rn f : receives ssl k R -> epoch_ok rn -> fragment_ok f -> exists a,
  process_fragment new_ok ssl rn (fragment_header f) (fragment_body f) =
  if f_seq f <? k then Some (ssl, inr (false, false)) else
  if SSL_MAX_HANDSHAKE_FLIGHT <? f_seq f - k then Some (ssl, inr (a, true)) else
  '((ssl, res) : @SSL A * (Z + Z)) ← dtls1_get_incoming_message new_ok ssl (fragment_header f);
  match res with
  | inl alert => Some (ssl, inl alert)
  | inr idx =>
    slot ← ring_at (incoming_messages (reading ssl)) idx;
    frag ← slot;
    if negb (msg_len frag =? len (body (f_seq f))) then None else
    if IsComplete (reassembly frag) then Some (ssl, inr (a, false)) else
    if negb (0 <? len (body (f_seq f))) then None else
    data ← store_at (im_data frag) (DTLS1_HM_HEADER_LENGTH + f_off f) (fragment_body f);
    m ← MarkRange (reassembly frag) (f_off f) (f_off f + f_len f);
    Some (with_incoming ssl (ring_set (incoming_messages (reading ssl)) idx (Some (mk_incoming (im_type frag) (im_seq frag) data m))), inr (a, false))
  end.
Proof.
  intros H He Hf. destruct (ack_decided ssl (rc_config _ _ _ H)) as (a & Ea). exists a. unfold process_fragment.
  destruct Hf as (Hk & Ho & Hl & Hb). cbn [fragment_header hm_seq hm_msg_len hm_frag_off hm_frag_len]. cbv zeta.
  destruct (Z.ltb_spec (len (body (f_seq f))) (f_off f)); [lia|]. destruct (Z.ltb_spec (len (body (f_seq f)) - f_off f) (f_len f)); [lia|].
  cbn [orb]. rewrite (past_spec ssl k R) by (done || lia). destruct (Z.ltb_spec (f_seq f) k); [done|].
  destruct (handshake_read_overflow (reading ssl)) eqn:Eo.
  { rewrite (rc_overflow _ _ _ H) in Eo. apply Z.eqb_eq in Eo. lia. }
  destruct (read_seq_spec ssl k R H Eo) as [_ Es]. rewrite Es, (rc_next _ _ _ H), (rc_epoch _ _ _ H), He, Z.eqb_refl. cbn [negb orb].
  rewrite (max_len_same ssl (rc_config _ _ _ H)). cbn [mbind option_bind]. destruct (Hmsgs (f_seq f)) as [_ Hn].
  destruct (Z.ltb_spec max_len (len (body (f_seq f)))); [lia|]. cbn [mbind option_bind] in Ea. by rewrite Ea.
Qed.

(** A fragment exactly one flight ahead is refused. *)
Lemma process_far ssl k R rn f : receives ssl k R -> epoch_ok rn -> fragment_ok f -> f_seq f = k + SSL_MAX_HANDSHAKE_FLIGHT ->
  process_fragment new_ok ssl rn (fragment_header f) (fragment_body f) = Some (ssl, inl SSL_AD_INTERNAL_ERROR).
Proof.
  intros H He Hf Hk. destruct (process_checks ssl k R rn f H He Hf) as (a & ->). unfold SSL_MAX_HANDSHAKE_FLIGHT in *.
  destruct (Z.ltb_spec (f_seq f) k); [lia|]. destruct (Z.ltb_spec 7 (f_seq f - k)); [lia|]. unfold dtls1_get_incoming_message.
  assert (Hs : f_seq f < 2 ^ 16) by apply Hf. pose proof (rc_range _ _ _ H). rewrite (rc_seq _ _ _ H). rewrite (wrap_small 16) by lia.
  cbn [fragment_header hm_seq]. unfold SSL_MAX_HANDSHAKE_FLIGHT. destruct (Z.leb_spec 7 (f_seq f - k)); [|lia]. by rewrite orb_true_r.
Qed.

(** The state after fragment [f] was stored in its slot. *)
Lemma receives_put ssl k R f slot : receives ssl k R -> fragment_ok f -> in_window k f = true -> holds (f_seq f) (R ++ [f]) slot ->
  receives (with_incoming ssl (ring_set (incoming_messages (reading ssl)) (f_seq f mod SSL_MAX_HANDSHAKE_FLIGHT) slot)) k (R ++ [f]).
Proof.
  intros H (Hk & _) Hw Hs. unfold in_window, SSL_MAX_HANDSHAKE_FLIGHT in *. apply andb_true_iff in Hw as [W1 W2]. apply Z.leb_le in W1. apply Z.ltb_lt in W2.
  destruct H as [H1 H2 H3 H4 H5 H6 H7 H8 H9 H10]. unfold SSL_MAX_HANDSHAKE_FLIGHT in *. split; try done.
  - cbn. unfold ring_set. by rewrite len_zupd.
  - intros j Hj. cbn [with_incoming with_reading reading incoming_messages]. unfold ring_at, ring_set in *. unfold SSL_MAX_HANDSHAKE_FLIGHT in *.
    rewrite znth_zupd; [|rewrite H7; apply Z.mod_pos_bound; lia|apply Z.mod_pos_bound; lia]. destruct (Z.eqb_spec (j mod 7) (f_seq f mod 7)).
    + assert (j = f_seq f) as -> by (Z.div_mod_to_equations; lia). by exists slot.
    + destruct (H8 j Hj) as (s & E & Hh). exists s. split; [done|]. apply holds_other; [|done]. congruence.
  - unfold SSL_MAX_HANDSHAKE_FLIGHT. apply List.Forall_app. split; [done|]. repeat constructor; lia.
Qed.

Lemma ring_at_set ring i x : 0 <= i < len ring -> ring_at (ring_set ring i x) i = Some x.
Proof. intros Hi. unfold ring_at, ring_set. rewrite znth_zupd by lia. by rewrite Z.eqb_refl. Qed.
Lemma ring_set_same ring i x : ring_at ring i = Some x -> ring_set ring i x = ring.
Proof. unfold ring_at, ring_set, znth, zupd. destruct (i <? 0); [done|]. apply list_insert_id. Qed.
Lemma ring_set_set ring i x y : ring_set (ring_set ring i x) i y = ring_set ring i y.
Proof. unfold ring_set, zupd. destruct (i <? 0); [done|]. apply list_insert_insert_eq. Qed.
Lemma with_incoming_same (ssl : @SSL A) : with_incoming ssl (incoming_messages (reading ssl)) = ssl.
Proof. by destruct ssl as [c h []]. Qed.

(** Looking up the message of a fragment in the window: its slot holds what has arrived so far. *)
Lemma get_message_slot ssl k R f : receives ssl k R -> fragment_ok f -> in_window k f = true ->
  exists m S, dtls1_get_incoming_message new_ok ssl (fragment_header f) =
      Some (with_incoming ssl (ring_set (incoming_messages (reading ssl)) (f_seq f mod SSL_MAX_HANDSHAKE_FLIGHT) (Some m)),
            inr (f_seq f mod SSL_MAX_HANDSHAKE_FLIGHT)) /\
    assembled (f_seq f) S m /\ (ranges R (f_seq f) = [] /\ S = (fun _ => false) \/ S = arrived R (f_seq f)).
Proof.
  intros H Hf Hw. unfold in_window in Hw. apply andb_true_iff in Hw as [W1 W2]. apply Z.leb_le in W1. apply Z.ltb_lt in W2.
  pose proof (proj1 Hf) as Hk. unfold dtls1_get_incoming_message. cbn [fragment_header hm_seq hm_type hm_msg_len]. cbv zeta.
  pose proof (rc_range _ _ _ H). rewrite (rc_seq _ _ _ H). rewrite (wrap_small 16) by lia.
  destruct (Z.ltb_spec (f_seq f) k); [lia|]. destruct (Z.leb_spec SSL_MAX_HANDSHAKE_FLIGHT (f_seq f - k)); [lia|]. cbn [orb].
  destruct (rc_slots _ _ _ H (f_seq f) ltac:(lia)) as (slot & Es & Hs). rewrite Es. cbn [mbind option_bind]. destruct slot as [m|].
  - destruct Hs as [_ Hm]. pose proof (assembled_len _ _ _ Hm) as L. exists m, (arrived R (f_seq f)). split; [|by split; [|right]].
    destruct Hm as (-> & -> & _). rewrite !Z.eqb_refl, L, Z.eqb_refl. cbn [negb orb]. by rewrite ring_set_same, with_incoming_same.
  - destruct (new_message f Hf) as (m & Em & Hm). exists m, (fun _ => false). rewrite Em. split; [done|]. split; [done|]. by left.
Qed.

(** A fragment in the window is kept. *)
Lemma process_kept ssl k R rn f : receives ssl k R -> epoch_ok rn -> fragment_ok f -> in_window k f = true ->
  exists ssl' a, process_fragment new_ok ssl rn (fragment_header f) (fragment_body f) = Some (ssl', inr (a, false)) /\ receives ssl' k (R ++ [f]).
Proof.
  intros H He Hf Hw. destruct (process_checks ssl k R rn f H He Hf) as (a & ->). destruct (get_message_slot ssl k R f H Hf Hw) as (m & S & E & Hm & HS).
  pose proof Hw as Hw'. unfold in_window in Hw'. apply andb_true_iff in Hw' as [W1 W2]. apply Z.leb_le in W1. apply Z.ltb_lt in W2.
  destruct (Z.ltb_spec (f_seq f) k); [lia|]. destruct (Z.ltb_spec SSL_MAX_HANDSHAKE_FLIGHT (f_seq f - k)); [lia|]. rewrite E. cbn [mbind option_bind].
  set (idx := f_seq f mod SSL_MAX_HANDSHAKE_FLIGHT) in *.
  assert (Hi : 0 <= idx < len (incoming_messages (reading ssl))) by (rewrite (rc_ring _ _ _ H); apply Z.mod_pos_bound; unfold SSL_MAX_HANDSHAKE_FLIGHT; lia).
  cbn [with_incoming with_reading reading incoming_messages]. rewrite ring_at_set by done. cbn [mbind option_bind].
  rewrite (assembled_len _ _ _ Hm), Z.eqb_refl. cbn [negb]. destruct (IsComplete (reassembly m)) eqn:Ec.
  - eexists _, a. split; [done|]. apply receives_put; try done. apply (holds_this R f S); [done|].
    destruct Hm as (Ht & Hk & Hb & data & Ed & L & Hd). split; [done|]. split; [done|]. split.
    + apply (marks_complete _ _ S); [done|done|]. by intros i _ ->.
    + exists data. split; [done|]. split; [done|]. intros i Hr _. apply Hd; [done|]. by apply (proj1 (IsComplete_marks _ _ _ Hb) Ec).
  - destruct (Z.ltb_spec 0 (len (body (f_seq f)))); cbn [negb].
    2:{ destruct Hm as (_ & _ & Hb & _). rewrite (proj2 (IsComplete_marks _ _ _ Hb)) in Ec; [done|]. intros i Hr. lia. }
    destruct (put_fragment f S m Hf Hm) as (data & bm & -> & -> & Hput). cbn [mbind option_bind]. eexists _, a. split; [done|].
    unfold with_incoming. cbn [with_reading reading incoming_messages config has_message writing timers has_change_cipher_spec
      handshake_read_overflow handshake_read_seq read_epoch next_read_epoch prev_read_epoch records_to_ack]. rewrite ring_set_set.
    by apply (receives_put ssl k R f), (holds_this R f S).
Qed.

(** Fragments of delivered messages and of messages too far ahead are dropped. *)
Lemma process_dropped ssl k R rn f : receives ssl k R -> epoch_ok rn -> fragment_ok f -> in_window k f = false ->
  f_seq f <> k + SSL_MAX_HANDSHAKE_FLIGHT ->
  exists a s, process_fragment new_ok ssl rn (fragment_header f) (fragment_body f) = Some (ssl, inr (a, s)).
Proof.
  intros H He Hf Hw Hne. destruct (process_checks ssl k R rn f H He Hf) as (a & ->). unfold in_window in Hw.
  destruct (Z.ltb_spec (f_seq f) k); [by eexists _, _|]. destruct (Z.leb_spec k (f_seq f)); [|lia].
  destruct (Z.ltb_spec (f_seq f) (k + SSL_MAX_HANDSHAKE_FLIGHT)); [done|]. destruct (Z.ltb_spec SSL_MAX_HANDSHAKE_FLIGHT (f_seq f - k)); [by eexists _, _|lia].
Qed.

(** ** A record *)

Definition record_bytes (fs : list fragment) : list Z := concat (fragment_bytes <$> fs).
Definition one_ahead (k : Z) (f : fragment) : bool := f_seq f =? k + SSL_MAX_HANDSHAKE_FLIGHT.

Lemma len_fragment_bytes f : 12 <= len (fragment_bytes f).
Proof. unfold fragment_bytes. rewrite len_app, len_header. pose proof (len_nonneg (fragment_body f)). lia. Qed.

Lemma process_record fs : Forall fragment_ok fs -> forall fuel ssl k R rn a s, (length (record_bytes fs) < fuel)%nat -> receives ssl k R -> epoch_ok rn ->
  if existsb (one_ahead k) fs
  then exists ssl', process_fragments new_ok fuel ssl rn (record_bytes fs) a s = Some (ssl', inl SSL_AD_INTERNAL_ERROR)
  else exists ssl' a' s', process_fragments new_ok fuel ssl rn (record_bytes fs) a s = Some (ssl', inr (a', s')) /\
    receives ssl' k (R ++ List.filter (in_window k) fs).
Proof.
  induction 1 as [|f fs Hf Hfs IH]; intros [|fuel] ssl k R rn a s Hfuel H He; try lia.
  { cbn. exists ssl, a, s. split; [done|]. by rewrite app_nil_r. }
  unfold record_bytes in *. cbn [fmap list_fmap concat existsb List.filter] in *. pose proof (len_fragment_bytes f) as L. rewrite length_app in Hfuel.
  cbn [process_fragments]. destruct (Z.eqb_spec (len (fragment_bytes f ++ concat (fragment_bytes <$> fs))) 0) as [Hz|_].
  { rewrite len_app in Hz. pose proof (len_nonneg (concat (fragment_bytes <$> fs))). lia. }
  rewrite parse_fragment by done. unfold len in L. unfold one_ahead at 1. destruct (Z.eqb_spec (f_seq f) (k + SSL_MAX_HANDSHAKE_FLIGHT)) as [Ek|Ek]; cbn [orb].
  - exists ssl. by rewrite (process_far ssl k R rn f H He Hf Ek).
  - destruct (in_window k f) eqn:Ew.
    + destruct (process_kept ssl k R rn f H He Hf Ew) as (ssl' & a' & -> & H'). cbn [mbind option_bind].
      replace (R ++ f :: List.filter (in_window k) fs) with ((R ++ [f]) ++ List.filter (in_window k) fs) by (by rewrite <- app_assoc).
      by apply IH; [lia|..].
    + destruct (process_dropped ssl k R rn f H He Hf Ew Ek) as (a' & s' & ->). cbn [mbind option_bind]. by apply IH; [lia|..].
Qed.

Lemma PushBack_ok {T} n (q : MRUQueue T) t : 0 < n -> mru_ok n q -> exists q', PushBack n q t = Some q' /\ mru_ok n q'.
Proof.
  intros Hn (Hs & Hl & H0). unfold PushBack, mru_set. destruct (Z.ltb_spec (mru_size q) n).
  - rewrite (H0 ltac:(done)). cbn. eexists. split; [done|]. unfold mru_ok, mru_size in *. cbn. rewrite len_app. change (len [t]) with 1. lia.
  - destruct (Z.ltb_spec 0 (mru_size q)); [|lia]. cbn [mbind option_bind]. eexists. split; [done|]. unfold mru_ok, mru_size in *. cbn.
    rewrite len_zupd. pose proof (Z.mod_pos_bound (start_ q + 1) n Hn). lia.
Qed.

(** The parts of the state the receiver does not look at. *)
Lemma receives_same (ssl ssl' : @SSL A) k R : receives ssl k R -> config ssl' = config ssl -> reading ssl' = reading ssl -> receives ssl' k R.
Proof. intros [] Ec Er. split; rewrite ?Ec, ?Er; done. Qed.

Lemma schedule_ack_ok ssl k R now rn : receives ssl k R -> exists ssl', schedule_ack ssl now rn = Some ssl' /\ receives ssl' k R.
Proof.
  intros H. unfold schedule_ack. destruct (PushBack_ok DTLS_MAX_ACK_BUFFER _ rn eq_refl (rc_acks _ _ _ H)) as (q & -> & Hq). cbn [mbind option_bind].
  set (ssl1 := with_reading ssl _). assert (H1 : receives ssl1 k R) by (destruct H; split; done). clearbody ssl1.
  destruct (ssl_has_final_version ssl1) eqn:Ev; cbn [andb].
  - destruct (version_same ssl1 (rc_config _ _ _ H1) Ev) as (v & ->). cbn [mbind option_bind].
    destruct (_ && _); eexists; (split; [done|]); by apply (receives_same ssl1).
  - by eexists.
Qed.

Lemma process_handshake_record ssl k R now rn fs : receives ssl k R -> epoch_ok rn -> Forall fragment_ok fs ->
  if existsb (one_ahead k) fs
  then exists ssl', dtls1_process_handshake_fragments new_ok ssl now rn (record_bytes fs) = Some (ssl', Some SSL_AD_INTERNAL_ERROR)
  else exists ssl', dtls1_process_handshake_fragments new_ok ssl now rn (record_bytes fs) = Some (ssl', None) /\
    receives ssl' k (R ++ List.filter (in_window k) fs).
Proof.
  intros H He Hfs. unfold dtls1_process_handshake_fragments.
  pose proof (process_record fs Hfs (S (length (record_bytes fs))) ssl k R rn false false ltac:(lia) H He) as Hp. destruct (existsb _ fs).
  - destruct Hp as (ssl' & ->). by exists ssl'.
  - destruct Hp as (ssl1 & a & s & -> & H1). cbn [mbind option_bind].
    set (ssl2 := if a then _ else ssl1). assert (H2 : receives ssl2 k (R ++ List.filter (in_window k) fs)) by (subst ssl2; destruct a; [by apply (receives_same ssl1)|done]).
    clearbody ssl2. destruct s; cbn [negb mbind option_bind]; [by exists ssl2|].
    destruct (schedule_ack_ok ssl2 _ _ now rn H2) as (ssl3 & -> & H3). by exists ssl3.
Qed.

(** ** Delivery *)

(** Message [k] has arrived in full: a fragment of it, and all of its bytes. *)
Definition complete (k : Z) (R : list fragment) : bool :=
  existsb (fun f => f_seq f =? k) R && forallb (arrived R k) (indices (length (body k))).

(** The caller takes the current message, if there is one. *)
Definition take_message (ssl : @SSL A) : option (@SSL A * option (Z * list Z * list Z)) :=
  '((ssl, msg) : @SSL A * option (Z * list Z * list Z)) ← dtls1_get_message ssl;
  match msg with
  | None => Some (ssl, None)
  | Some m => ssl ← dtls1_next_message ssl; Some (ssl, Some m)
  end.

Lemma complete_spec k R slot : holds k R slot ->
  match slot with Some m => IsComplete (reassembly m) | None => false end = complete k R.
Proof.
  assert (Hex : existsb (fun f => f_seq f =? k) R = true <-> ranges R k <> []).
  { unfold ranges. rewrite existsb_exists. split.
    - intros (f & Hin & E) Hn. apply fmap_nil_inv in Hn. assert (Hf : In f (List.filter (fun f => f_seq f =? k) R)) by (by apply filter_In).
      by rewrite Hn in Hf.
    - intros Hn. destruct (List.filter _ R) as [|f l] eqn:E; [done|]. exists f. apply (filter_In (fun f => f_seq f =? k)). rewrite E. by left. }
  unfold holds, complete. destruct slot as [m|].
  - intros [Hr (_ & _ & Hm & _)]. rewrite (proj2 Hex Hr). cbn [andb]. apply eq_true_iff_eq. rewrite (IsComplete_marks _ _ _ Hm), forallb_forall.
    unfold indices. split; intros Hall i Hi.
    + apply list_elem_of_In, list_elem_of_fmap in Hi as (n & -> & Hn). apply elem_of_seq in Hn. apply Hall. unfold len. lia.
    + apply Hall, list_elem_of_In, list_elem_of_fmap. exists (Z.to_nat i). unfold len in Hi. rewrite elem_of_seq. lia.
  - intros Hr. destruct (existsb _ R) eqn:E; [|done]. by destruct (proj1 Hex eq_refl).
Qed.

Lemma ranges_out R k : Forall (fun f => f_seq f <> k) R -> ranges R k = [].
Proof.
  unfold ranges. induction 1 as [|f R Hf _ IH]; [done|]. cbn [List.filter]. destruct (Z.eqb_spec (f_seq f) k); [done|]. exact IH.
Qed.

(** The slot of the current message; after the last message of a connection it is empty. *)
Lemma current_slot ssl k R : receives ssl k R -> exists slot,
  ring_at (incoming_messages (reading ssl)) (handshake_read_seq (reading ssl) mod SSL_MAX_HANDSHAKE_FLIGHT) = Some slot /\
  match slot with Some m => IsComplete (reassembly m) | None => false end = complete k R /\ (complete k R = true -> k < 2 ^ 16 /\ holds k R slot).
Proof.
  intros H. pose proof (rc_range _ _ _ H) as Hk. rewrite (rc_seq _ _ _ H). destruct (Z.eq_dec k (2 ^ 16)) as [->|Hne].
  - destruct (rc_slots _ _ _ H (2 ^ 16 + 5) ltac:(unfold SSL_MAX_HANDSHAKE_FLIGHT; lia)) as (slot & E & Hs).
    exists slot. split; [exact E|]. assert (Hout : forall j, 2 ^ 16 <= j -> ranges R j = []).
    { intros j Hj. apply ranges_out. eapply List.Forall_impl; [|exact (rc_window _ _ _ H)]. cbn. lia. }
    assert (Hc : complete (2 ^ 16) R = false) by (symmetry; apply (complete_spec _ R None); by apply Hout). rewrite Hc.
    split; [|done]. destruct slot; [|done]. destruct Hs as [Hs _]. by destruct Hs; apply Hout.
  - rewrite (wrap_small 16) by lia. destruct (rc_slots _ _ _ H k ltac:(unfold SSL_MAX_HANDSHAKE_FLIGHT; lia)) as (slot & E & Hs).
    exists slot. split; [done|]. split; [by apply complete_spec|]. intros _. split; [lia|done].
Qed.

(** The slot of a delivered message is free for the message one flight later. *)
Lemma receives_next ssl k R has w : receives ssl k R -> k < 2 ^ 16 ->
  let r := reading ssl in
  let ring := ring_set (incoming_messages r) (handshake_read_seq r mod SSL_MAX_HANDSHAKE_FLIGHT) None in
  let read_seq := u16 (handshake_read_seq r + 1) in
  receives (mk_ssl (config ssl) has (mk_read (has_change_cipher_spec r) (if read_seq =? 0 then true else handshake_read_overflow r) read_seq
    (read_epoch r) (next_read_epoch r) (prev_read_epoch r) ring (records_to_ack r)) w (timers ssl)) (k + 1) R.
Proof.
  intros [H1 H2 H3 H4 H5 H6 H7 H8 H9 H10] Hk. cbv zeta. rewrite H5, (wrap_small 16 k) by lia. unfold SSL_MAX_HANDSHAKE_FLIGHT in *.
  split; cbn [reading config handshake_read_seq handshake_read_overflow incoming_messages records_to_ack read_epoch next_read_epoch]; try done.
  - lia.
  - rewrite H6. unfold wrap. destruct (Z.eqb_spec (k + 1) (2 ^ 16)) as [->|]; [done|]. rewrite Z.mod_small by lia.
    destruct (Z.eqb_spec (k + 1) 0); [lia|]. apply Z.eqb_neq. lia.
  - unfold ring_set. by rewrite len_zupd.
  - intros j Hj. unfold ring_at, ring_set, SSL_MAX_HANDSHAKE_FLIGHT in *.
    rewrite znth_zupd; [|rewrite H7; apply Z.mod_pos_bound; lia|apply Z.mod_pos_bound; lia]. destruct (Z.eqb_spec (j mod 7) (k mod 7)) as [E|E].
    + exists None. split; [done|]. apply ranges_out. eapply List.Forall_impl; [|exact H9]. cbn. intros f Hf.
      assert (j = k + 7) as -> by (Z.div_mod_to_equations; lia). lia.
    + apply H8. destruct (Z.eq_dec j (k + 7)) as [->|]; [|lia]. exfalso. apply E. replace (k + 7) with (k + 1 * 7) by lia. by rewrite Z.mod_add by lia.
  - eapply List.Forall_impl; [|exact H9]. cbn. unfold SSL_MAX_HANDSHAKE_FLIGHT. lia.
Qed.

Lemma take_message_spec ssl k R : receives ssl k R ->
  if complete k R
  then exists ssl', take_message ssl = Some (ssl', Some (message k)) /\ receives ssl' (k + 1) R
  else take_message ssl = Some (ssl, None).
Proof.
  intros H. destruct (current_slot ssl k R H) as (slot & E & Hc & Hh).
  unfold take_message, dtls1_get_message, dtls1_is_current_message_complete. rewrite E. cbn [mbind option_bind]. rewrite Hc.
  destruct (complete k R); [|done]. destruct (Hh eq_refl) as [Hk Hs]. cbn [negb]. destruct slot as [m|]; [|done]. cbn [mbind option_bind].
  unfold dtls1_next_message, dtls1_is_current_message_complete. cbn [has_message reading config timers writing negb]. rewrite E. cbn [mbind option_bind].
  rewrite Hc. cbn [negb mbind option_bind]. eexists. split; [|by apply (receives_next ssl k R)].
  destruct Hs as [_ Hm]. by rewrite (assembled_complete _ _ _ Hm Hc).
Qed.

(** ** The whole connection *)

(** Records of fragments arrive; the caller asks for a message. *)
Inductive event := Arrive (now : OPENSSL_timeval) (record_number : Z) (fs : list fragment) | Take.

(** The messages delivered, until an alert if there is one. *)
Fixpoint run (ssl : @SSL A) (es : list event) : option (list (Z * list Z * list Z) * option Z) :=
  match es with
  | [] => Some ([], None)
  | Arrive now rn fs :: es =>
    '((ssl, alert) : @SSL A * option Z) ← dtls1_process_handshake_fragments new_ok ssl now rn (record_bytes fs);
    match alert with Some _ => Some ([], alert) | None => run ssl es end
  | Take :: es =>
    '((ssl, msg) : @SSL A * option (Z * list Z * list Z)) ← take_message ssl;
    '((out, alert) : list (Z * list Z * list Z) * option Z) ← run ssl es;
    Some (match msg with Some m => m :: out | None => out end, alert)
  end.

(** The number of the last message delivered, and whether a fragment one flight ahead came. *)
Fixpoint reassemble (k : Z) (R : list fragment) (es : list event) : Z * bool :=
  match es with
  | [] => (k, false)
  | Arrive _ _ fs :: es => if existsb (one_ahead k) fs then (k, true) else reassemble k (R ++ List.filter (in_window k) fs) es
  | Take :: es => if complete k R then reassemble (k + 1) R es else reassemble k R es
  end.

Definition event_ok (e : event) : Prop :=
  match e with Arrive _ rn fs => epoch_ok rn /\ Forall fragment_ok fs | Take => True end.

Lemma reassemble_ge es : forall k R, k <= fst (reassemble k R es).
Proof.
  induction es as [|[now rn fs|] es IH]; intros k R; cbn [reassemble]; [cbn; lia|destruct (existsb _ fs); [cbn; lia|apply IH]|].
  destruct (complete k R); [|apply IH]. specialize (IH (k + 1) R). lia.
Qed.

Lemma run_spec es : Forall event_ok es -> forall ssl k R, receives ssl k R ->
  run ssl es = Some (message <$> seqZ k (fst (reassemble k R es) - k), if snd (reassemble k R es) then Some SSL_AD_INTERNAL_ERROR else None).
Proof.
  induction 1 as [|[now rn fs|] es He _ IH]; intros ssl k R H; cbn [run reassemble].
  - cbn [fst snd]. by rewrite Z.sub_diag.
  - destruct He as [He Hfs]. pose proof (process_handshake_record ssl k R now rn fs H He Hfs) as Hp. destruct (existsb _ fs).
    + destruct Hp as (ssl' & ->). cbn [mbind option_bind fst snd]. by rewrite Z.sub_diag.
    + destruct Hp as (ssl' & -> & H'). cbn [mbind option_bind]. by apply IH.
  - pose proof (take_message_spec ssl k R H) as Ht. destruct (complete k R).
    + destruct Ht as (ssl' & -> & H'). cbn [mbind option_bind]. rewrite (IH _ _ _ H'). cbn [mbind option_bind]. do 2 f_equal.
      pose proof (reassemble_ge es (k + 1) R). rewrite (seqZ_cons k) by lia. cbn [fmap list_fmap]. do 3 f_equal; lia.
    + rewrite Ht. cbn [mbind option_bind]. by rewrite (IH _ _ _ H).
Qed.

(** A connection before the first handshake message. *)
Definition start_of_handshake (ssl : @SSL A) : Prop :=
  handshake_read_seq (reading ssl) = 0 /\ handshake_read_overflow (reading ssl) = false /\ next_read_epoch (reading ssl) = None /\
  incoming_messages (reading ssl) = replicate 7 None /\ records_to_ack (reading ssl) = mk_mru [] 0.

Lemma receives_start : start_of_handshake ssl0 -> receives ssl0 0 [].
Proof.
  intros (H1 & H2 & H3 & H4 & H5). split; try done; rewrite ?H1, ?H2, ?H4, ?H5; try done.
  intros j Hj. exists None. split; [|done]. unfold ring_at, znth, SSL_MAX_HANDSHAKE_FLIGHT in *. pose proof (Z.mod_pos_bound j 7 ltac:(lia)).
  destruct (Z.ltb_spec (j mod 7) 0); [lia|]. apply lookup_replicate. split; [done|lia].
Qed.
End Reassembly.

(** * Properties *)

(** C16: reassembly of handshake messages (ssl/d1_both.cc). The messages of the peer arrive cut into
    fragments, in records of any number of fragments, in any order, repeated and overlapping; the
    caller asks for messages at any time in between. Then no assertion or bounds check fails, and the
    messages delivered are the first [k] messages of the peer, in order and with their contents: each
    one at the first request after all of its bytes have arrived while it was within one flight of the
    current message. The connection fails only when a fragment arrives exactly one flight ahead of the
    current message; those farther ahead are ignored. *)
Theorem dtls_reassembly_correct `{P : Platform} `{AL : Allocator} `{MA : Malloc} {A : Type}
    (msgs : Z -> Z * list Z) (max_len : Z) (new_ok : Z -> bool) (ssl : @SSL A) (es : list event) :
  (forall k, message_ok msgs max_len k) -> max_len < 2 ^ 24 -> (forall k, new_ok k = true) -> (forall n, malloc_ok n = true) ->
  ssl_max_handshake_message_len ssl = Some max_len -> (ssl_has_final_version ssl = true -> is_Some (ssl_protocol_version ssl)) ->
  start_of_handshake ssl -> Forall (event_ok msgs ssl) es ->
  let '(k, refused) := reassemble msgs 0 [] es in
  run msgs new_ok ssl es = Some (message msgs <$> seqZ 0 k, if refused then Some SSL_AD_INTERNAL_ERROR else None).
Proof.
  intros Hm Hmax Hnew Hmalloc Hlen Hver Hs He.
  pose proof (run_spec msgs max_len Hm Hmax new_ok Hnew Hmalloc ssl Hlen Hver es He ssl 0 [] (receives_start msgs ssl Hs)) as H.
  destruct (reassemble msgs 0 [] es) as [k refused]. by rewrite Z.sub_0_r in H.
Qed.

(** Message 1 comes first, message 0 in two overlapping parts; then a fragment of message 9. *)
Definition sample_ssl : @SSL unit :=
  mk_ssl (mk_config 0 false true true false 0 1000) false
    (mk_read false false 0 (mk_read_epoch 0 tt (mk_replay 0 0)) None None (replicate 7 None) (mk_mru [] 0))
    (mk_write false false false false false 0 (mk_write_epoch 0 tt) [] [] None 0 0 1400) (mk_timers 0 Stop Stop 1000).
Definition sample_events : list event :=
  [Arrive Stop 0 [mk_fragment 1 0 3; mk_fragment 0 1 2]; Take; Arrive Stop 1 [mk_fragment 0 0 2]; Take; Take; Take; Arrive Stop 2 [mk_fragment 9 0 1]].

Lemma dtls_reassembly_correct_witness :
  run (P := LP64) (AL := zero_allocator) (MA := zeroing_malloc) (fun k => (1, [10; 20; 30 + k])) (fun _ => true) sample_ssl sample_events =
  Some ([message (fun k => (1, [10; 20; 30 + k])) 0; message (fun k => (1, [10; 20; 30 + k])) 1], Some 80).
Proof.
  refine (dtls_reassembly_correct (P := LP64) (AL := zero_allocator) (MA := zeroing_malloc) (fun k => (1, [10; 20; 30 + k])) 16384 (fun _ => true)
    sample_ssl sample_events _ _ _ _ _ _ _ _).
  - intros k. by split; [unfold is_byte; cbn; lia|vm_compute].
  - lia.
  - done.
  - done.
  - done.
  - done.
  - done.
  - unfold sample_events. repeat first [apply List.Forall_nil | apply List.Forall_cons | split]; by vm_compute.
Defined.
