(* ===== verification/PolyStream.v ===== *)
(** The Poly1305 state depends on the message only, not on how it was divided into calls. *)
From S2P Require Import Prelude.
From S2P Require Import Internal.
From S2P Require Import Poly1305.

Open Scope Z_scope.

Lemma add_buf st b u i h : poly1305_add (with_buf st b u) i h = with_buf (poly1305_add st i h) b u.
Proof. reflexivity. Qed.
Lemma carry_buf st b u a0 a1 a2 a3 a4 : poly1305_carry (with_buf st b u) a0 a1 a2 a3 a4 = with_buf (poly1305_carry st a0 a1 a2 a3 a4) b u.
Proof. reflexivity. Qed.
Lemma mul_buf st b u : poly1305_donna_mul (with_buf st b u) = with_buf (poly1305_donna_mul st) b u.
Proof. unfold poly1305_donna_mul. cbv zeta. rewrite <- carry_buf. reflexivity. Qed.

Lemma update_with_buf fuel : forall st l b u, poly1305_update fuel (with_buf st b u) l = with_buf (poly1305_update fuel st l) b u.
Proof.
  induction fuel as [|fuel IH]; intros st l b u; [done|]. cbn [poly1305_update]. destruct (16 <=? len l).
  - by rewrite add_buf, mul_buf, IH.
  - destruct (len l =? 0); [done|]. cbv zeta. by rewrite add_buf, mul_buf.
Qed.

Lemma update_fuel fuel : forall fuel' st l, (length l < 16 * fuel)%nat -> (length l < 16 * fuel')%nat -> poly1305_update fuel st l = poly1305_update fuel' st l.
Proof.
  induction fuel as [|fuel IH]; intros [|fuel'] st l H H'; try lia. cbn [poly1305_update]. destruct (Z.leb_spec 16 (len l)); [|done].
  unfold len in *. apply IH; unfold zdrop; rewrite length_drop; lia.
Qed.

Lemma update_app k : forall f f' f'' st a b, len a = 16 * Z.of_nat k -> (length (a ++ b) < f)%nat -> (length a < f')%nat -> (length b < f'')%nat ->
  poly1305_update f st (a ++ b) = poly1305_update f'' (poly1305_update f' st a) b.
Proof.
  induction k as [|k IH]; intros f f' f'' st a b Ha Hf Hf' Hf''.
  - assert (a = []) as -> by (apply len_0_nil; lia). destruct f'; [lia|]. cbn [app] in *. cbn [poly1305_update]. change (16 <=? len (@nil Z)) with false.
    change (len (@nil Z) =? 0) with true. apply update_fuel; lia.
  - assert (Ea : a = ztake 16 a ++ zdrop 16 a) by by rewrite ztake_zdrop. assert (L : len (ztake 16 a) = 16) by (apply len_ztake; lia).
    destruct f as [|f]; [lia|]. destruct f' as [|f']; [lia|]. rewrite length_app in Hf. cbn [poly1305_update].
    pose proof (len_nonneg b). rewrite len_app. destruct (Z.leb_spec 16 (len a + len b)); [|lia]. destruct (Z.leb_spec 16 (len a)); [|lia].
    assert (E1 : ztake 16 (a ++ b) = ztake 16 a) by (rewrite Ea at 1; rewrite <- app_assoc; apply ztake_app_eq; lia).
    assert (E2 : zdrop 16 (a ++ b) = zdrop 16 a ++ b) by (rewrite Ea at 1; rewrite <- app_assoc; apply zdrop_app_eq; lia). rewrite E1, E2.
    assert (Ll : length (zdrop 16 a) = (length a - 16)%nat) by (unfold zdrop; by rewrite length_drop). unfold len in *.
    apply IH; [unfold len; lia|rewrite length_app; lia|lia|lia].
Qed.

Definition blocks (st : poly1305_state_st) (l : list Z) : poly1305_state_st := poly1305_update (S (length l)) st l.

Lemma blocks_app st a b : (16 | len a) -> blocks st (a ++ b) = blocks (blocks st a) b.
Proof. intros [k Hk]. pose proof (len_nonneg a). apply (update_app (Z.to_nat k)); lia. Qed.

(** The state [st] after the message [msg], from [st0]. *)
Definition fed (st0 : poly1305_state_st) (msg : list Z) (st : poly1305_state_st) : Prop :=
  exists whole rest b, msg = whole ++ rest /\ (16 | len whole) /\ len rest < 16 /\ len b = 16 /\
    st = with_buf (blocks st0 whole) b (len rest) /\ ztake (len rest) b = rest.

Lemma fed_blocks st0 msg st inp : fed st0 msg st -> buf_used st = 0 -> (16 | len inp) -> fed st0 (msg ++ inp) (poly1305_update (S (length inp)) st inp).
Proof.
  intros (whole & rest & b & -> & Hw & Hr & Hb & -> & Ht) U Hi. cbn in U. assert (rest = []) as -> by (by apply len_0_nil).
  rewrite app_nil_r. exists (whole ++ inp), [], b. rewrite app_nil_r, len_app, update_with_buf, blocks_app by done. split; [done|].
  split; [by apply Z.divide_add_r|]. done.
Qed.

Lemma fed_buffer st0 msg st inp : fed st0 msg st -> buf_used st + len inp < 16 ->
  fed st0 (msg ++ inp) (with_buf st (ztake (buf_used st) (buf st) ++ inp ++ zdrop (buf_used st + len inp) (buf st)) (buf_used st + len inp)).
Proof.
  intros (whole & rest & b & -> & Hw & Hr & Hb & -> & Ht) U. cbn [buf_used buf with_buf] in *. exists whole, (rest ++ inp), (ztake (len rest) b ++ inp ++ zdrop (len rest + len inp) b).
  pose proof (len_nonneg rest). pose proof (len_nonneg inp). rewrite app_assoc. split; [done|]. split; [done|]. rewrite !len_app. split; [done|]. rewrite Ht.
  rewrite len_zdrop by lia. split; [lia|]. split; [done|]. rewrite app_assoc. apply ztake_app_eq. by rewrite len_app.
Qed.

Lemma fed_tail st0 msg st inp : fed st0 msg st -> buf_used st = 0 ->
  let todo := len inp - len inp mod 16 in
  let '(st', inp') := if 16 <=? len inp then (poly1305_update (S (length inp)) st (ztake todo inp), zdrop todo inp) else (st, inp) in
  fed st0 (msg ++ inp) (if negb (len inp' =? 0) then with_buf st' (inp' ++ zdrop (len inp') (buf st')) (len inp') else st').
Proof.
  intros Hf U todo. pose proof (Z.mod_pos_bound (len inp) 16 ltac:(lia)) as Hm. pose proof (len_nonneg inp).
  assert (Htail : forall msg st inp, fed st0 msg st -> buf_used st = 0 -> len inp < 16 ->
    fed st0 (msg ++ inp) (if negb (len inp =? 0) then with_buf st (inp ++ zdrop (len inp) (buf st)) (len inp) else st)).
  { clear. intros msg st inp Hf U Hi. destruct (Z.eqb_spec (len inp) 0) as [E|E]; cbn [negb].
    - apply len_0_nil in E as ->. by rewrite app_nil_r.
    - pose proof (fed_buffer st0 msg st inp Hf ltac:(lia)) as H. by rewrite U in H. }
  destruct (Z.leb_spec 16 (len inp)); [|by apply Htail].
  assert (Ht : len (ztake todo inp) = todo) by (apply len_ztake; unfold todo; lia).
  assert (Hd : (16 | todo)) by (exists (len inp / 16); unfold todo; pose proof (Z.div_mod (len inp) 16 ltac:(lia)); lia).
  assert (Hf' : fed st0 (msg ++ ztake todo inp) (poly1305_update (S (length inp)) st (ztake todo inp))).
  { rewrite (update_fuel _ (S (length (ztake todo inp)))); [apply fed_blocks; [done|done|by rewrite Ht]| |lia]. unfold ztake. rewrite length_take. lia. }
  assert (Em0 : msg ++ inp = (msg ++ ztake todo inp) ++ zdrop todo inp) by (by rewrite <- app_assoc, ztake_zdrop). rewrite Em0. apply Htail; [done| |rewrite len_zdrop; unfold todo; lia].
  destruct Hf' as (w & r & b & Em & Hw & Hr & _ & -> & _). cbn. destruct Hf as (w0 & r0 & b0 & -> & Hw0 & _ & _ & Es & _).
  rewrite Es in U. cbn in U. apply len_0_nil in U as ->. rewrite app_nil_r in Em.
  assert (E : len (w0 ++ ztake todo inp) = len (w ++ r)) by (by rewrite Em). rewrite !len_app, Ht in E. pose proof (len_nonneg r).
  assert ((16 | len r)) as [q Hq] by (replace (len r) with (len w0 + todo - len w) by lia; apply Z.divide_sub_r; [by apply Z.divide_add_r|done]). lia.
Qed.

Lemma fed_update st0 msg st inp : fed st0 msg st -> fed st0 (msg ++ inp) (CRYPTO_poly1305_update st inp).
Proof.
  intros Hf. unfold CRYPTO_poly1305_update. pose proof (len_nonneg inp) as Hp.
  destruct (Z.eqb_spec (len inp) 0) as [->%len_0_nil|Hne]; [by rewrite app_nil_r|].
  destruct (Z.eqb_spec (buf_used st) 0) as [U|U]; cbn [negb].
  { pose proof (fed_tail st0 msg st inp Hf U) as H. cbv zeta in H. by destruct (16 <=? len inp). }
  pose proof Hf as (w & r & b & Em & Hw & Hr & Hb & Es & Ht). rewrite Es in *. cbn [buf_used buf with_buf] in *. pose proof (len_nonneg r).
  set (todo := Z.min (16 - len r) (len inp)) in *. assert (Lt : len (ztake todo inp) = todo) by (apply len_ztake; lia). rewrite Ht in *.
  destruct (Z.eqb_spec (len r + todo) 16) as [E16|E16].
  - assert (Hz : zdrop (len r + todo) b = []) by (rewrite E16, <- Hb; apply zdrop_all).
    set (st1 := with_buf (poly1305_update 2 _ _) _ 0). assert (Hf1 : fed st0 (msg ++ ztake todo inp) st1).
    { exists (msg ++ ztake todo inp), [], (r ++ ztake todo inp ++ zdrop (len r + todo) b). rewrite Hz, !app_nil_r.
      assert (L16 : len (r ++ ztake todo inp) = 16) by (rewrite len_app; lia). split; [done|]. subst msg. rewrite <- app_assoc, len_app, L16.
      split; [apply Z.divide_add_r; [done|by exists 1]|]. split; [done|]. split; [done|]. split; [|by rewrite ztake_0]. subst st1.
      rewrite Hz, !app_nil_r, blocks_app by done. unfold blocks at 2. rewrite (update_fuel 2 (S (length (r ++ ztake todo inp)))).
      - by rewrite !update_with_buf.
      - unfold len in L16. lia.
      - lia. }
    pose proof (fed_tail st0 _ st1 (zdrop todo inp) Hf1 eq_refl) as H'. rewrite <- app_assoc, ztake_zdrop in H'. cbv zeta in H'.
    by destruct (16 <=? len (zdrop todo inp)).
  - assert (Hdr : zdrop todo inp = []) by (replace todo with (len inp) by lia; apply zdrop_all).
    assert (Hin : ztake todo inp = inp) by (replace todo with (len inp) by lia; apply ztake_all). rewrite Hdr, Hin in *. rewrite <- Lt in *.
    pose proof (fed_buffer st0 msg _ inp Hf ltac:(cbn; lia)) as H'. cbn [buf_used buf with_buf] in H'. rewrite Ht in H'. exact H'.
Qed.

Lemma fed_updates st0 chunks : forall msg st, fed st0 msg st -> fed st0 (msg ++ concat chunks) (fold_left CRYPTO_poly1305_update chunks st).
Proof.
  induction chunks as [|c chunks IH]; intros msg st H; cbn [fold_left concat]; [by rewrite app_nil_r|].
  rewrite app_assoc. by apply IH, fed_update.
Qed.

Lemma divide_split_unique (a a' r r' : list Z) : a ++ r = a' ++ r' -> (16 | len a) -> (16 | len a') -> len r < 16 -> len r' < 16 -> a = a' /\ r = r'.
Proof.
  intros E [k Hk] [k' Hk'] Hr Hr'. pose proof (len_nonneg r). pose proof (len_nonneg r'). assert (L : len (a ++ r) = len (a' ++ r')) by (by rewrite E).
  rewrite !len_app in L. apply app_inj_1; [unfold len in *; lia|done].
Qed.

(** The tag of a state depends on the message only. *)
Lemma finish_fed st0 msg st st' : fed st0 msg st -> fed st0 msg st' -> CRYPTO_poly1305_finish st = CRYPTO_poly1305_finish st'.
Proof.
  intros (w & r & b & E & Hw & Hr & _ & -> & Ht) (w' & r' & b' & E' & Hw' & Hr' & _ & -> & Ht').
  destruct (divide_split_unique w w' r r') as [-> ->]; [congruence|done..|]. unfold CRYPTO_poly1305_finish. cbn [buf_used buf with_buf].
  rewrite Ht, Ht'. destruct (negb _); [|done]. by rewrite !update_with_buf.
Qed.

Lemma fed_init k : fed (CRYPTO_poly1305_init k) [] (CRYPTO_poly1305_init k).
Proof. exists [], [], (replicate 16 0). split; [done|]. split; [by exists 0|]. done. Qed.

Lemma poly1305_mac_chunks k chunks :
  CRYPTO_poly1305_finish (fold_left CRYPTO_poly1305_update chunks (CRYPTO_poly1305_init k)) = poly1305_mac k (concat chunks).
Proof.
  apply (finish_fed (CRYPTO_poly1305_init k) (concat chunks)); [apply (fed_updates _ chunks [])|apply (fed_update _ [])]; apply fed_init.
Qed.
