(* ===== verification/Aead.v ===== *)
(** Authenticated encryption: the EVP_AEAD interface of crypto/fipsmodule/cipher/aead.cc.inc, and what
    its users rely on.

    An algorithm is a table of functions, a context an algorithm with its state and tag length. Buffers
    are values with an address, which the checks for overlapping buffers compare. A wrapper gives the
    answer of the function and the bytes it has written, which are zeros when it fails. *)
From S2P Require Import Prelude.
From S2P Require Import Internal.

Open Scope Z_scope.

Record EVP_AEAD := mk_aead {
  key_len : Z;
  nonce_len : Z;
  overhead : Z;
  max_tag_len : Z;
  seal_scatter_supports_extra_in : bool;
  (* key and tag length to the state and the tag length *)
  aead_init : option (list Z -> Z -> option (list Z * Z));
  aead_init_with_direction : list Z -> Z -> bool -> option (list Z * Z);
  (* state, tag length, room in the output, nonce, input, additional data *)
  aead_open : option (list Z -> Z -> Z -> list Z -> list Z -> list Z -> option (list Z));
  (* state, tag length, room for the tag, nonce, input, extra input, additional data *)
  aead_seal_scatter : list Z -> Z -> Z -> list Z -> list Z -> list Z -> list Z -> option (list Z * list Z);
  (* state, tag length, nonce, input, tag, additional data *)
  aead_open_gather : option (list Z -> Z -> list Z -> list Z -> list Z -> list Z -> option (list Z));
  aead_tag_len : option (list Z -> Z -> Z -> Z -> Z);
}.

Record EVP_AEAD_CTX := mk_aead_ctx { aead : EVP_AEAD; state : list Z; tag_len : Z }.

Definition zero_bytes (n : Z) : list Z := repeat 0 (Z.to_nat n).

Section Aead.
Context `{P : Platform}.

Definition EVP_AEAD_CTX_init_with_direction (a : EVP_AEAD) (key : list Z) (tag_len : Z) (dir : bool) : option EVP_AEAD_CTX :=
  if negb (len key =? key_len a) then None else
  match (match aead_init a with Some init => init key tag_len | None => aead_init_with_direction a key tag_len dir end) with
  | Some (st, n) => Some (mk_aead_ctx a st n)
  | None => None
  end.

(** [false] is evp_aead_open. *)
Definition EVP_AEAD_CTX_init (a : EVP_AEAD) (key : list Z) (tag_len : Z) : option EVP_AEAD_CTX :=
  match aead_init a with
  | None => None
  | Some _ => EVP_AEAD_CTX_init_with_direction a key tag_len false
  end.

Definition check_alias (inp in_len out out_len : Z) : bool :=
  if negb (buffers_alias inp in_len out out_len) then true else inp =? out.

Definition EVP_AEAD_CTX_seal_scatter (ctx : EVP_AEAD_CTX) (out out_tag max_out_tag_len : Z) (nonce : list Z) (in_ : Z) (inp extra_in ad : list Z)
    : bool * (list Z * list Z) :=
  let error := (false, (zero_bytes (len inp), zero_bytes max_out_tag_len)) in
  if negb (check_alias in_ (len inp) out (len inp)) || buffers_alias out (len inp) out_tag max_out_tag_len ||
     buffers_alias in_ (len inp) out_tag max_out_tag_len then error else
  if negb (seal_scatter_supports_extra_in (aead ctx)) && negb (len extra_in =? 0) then error else
  match aead_seal_scatter (aead ctx) (state ctx) (tag_len ctx) max_out_tag_len nonce inp extra_in ad with
  | Some r => (true, r)
  | None => error
  end.

Definition EVP_AEAD_CTX_seal (ctx : EVP_AEAD_CTX) (out max_out_len : Z) (nonce : list Z) (in_ : Z) (inp ad : list Z) : bool * list Z :=
  let error := (false, zero_bytes max_out_len) in
  if wrap size_bits (len inp + overhead (aead ctx)) <? len inp then error else
  if max_out_len <? len inp then error else
  if negb (check_alias in_ (len inp) out max_out_len) then error else
  match aead_seal_scatter (aead ctx) (state ctx) (tag_len ctx) (max_out_len - len inp) nonce inp [] ad with
  | Some (o, t) => (true, o ++ t)
  | None => error
  end.

Definition EVP_AEAD_CTX_open_gather (ctx : EVP_AEAD_CTX) (out : Z) (nonce : list Z) (in_ : Z) (inp in_tag ad : list Z) : bool * list Z :=
  let error := (false, zero_bytes (len inp)) in
  if negb (check_alias in_ (len inp) out (len inp)) then error else
  match aead_open_gather (aead ctx) with
  | None => error
  | Some open_gather =>
    match open_gather (state ctx) (tag_len ctx) nonce inp in_tag ad with
    | Some o => (true, o)
    | None => error
    end
  end.

(** [None] is the failed assertion on the tag length. *)
Definition EVP_AEAD_CTX_open (ctx : EVP_AEAD_CTX) (out max_out_len : Z) (nonce : list Z) (in_ : Z) (inp ad : list Z) : option (bool * list Z) :=
  let error := (false, zero_bytes max_out_len) in
  if negb (check_alias in_ (len inp) out max_out_len) then Some error else
  match aead_open (aead ctx) with
  | Some open => Some (match open (state ctx) (tag_len ctx) max_out_len nonce inp ad with Some o => (true, o) | None => error end)
  | None =>
    if tag_len ctx =? 0 then None else
    if len inp <? tag_len ctx then Some error else
    let plaintext_len := len inp - tag_len ctx in
    if max_out_len <? plaintext_len then Some error else
    let '(ok, o) := EVP_AEAD_CTX_open_gather ctx out nonce in_ (ztake plaintext_len inp) (zdrop plaintext_len inp) ad in
    Some (if (ok : bool) then (true, o) else error)
  end.

(** The outer [None] is the failed assertion, the inner one the return value 0. *)
Definition EVP_AEAD_CTX_tag_len (ctx : EVP_AEAD_CTX) (in_len extra_in_len : Z) : option (option Z) :=
  if negb (seal_scatter_supports_extra_in (aead ctx) || (extra_in_len =? 0)) then None else
  match aead_tag_len (aead ctx) with
  | Some f => Some (Some (f (state ctx) (tag_len ctx) in_len extra_in_len))
  | None => Some (if wrap size_bits (extra_in_len + tag_len ctx) <? extra_in_len then None else Some (extra_in_len + tag_len ctx))
  end.

(** ** What users rely on *)

(** Two contexts for the same key, one to seal and one to open. Inputs of the size of a record are
    sealed, to outputs of the length the interface announces, and what was sealed is opened. *)
Class AeadPair (seal open : EVP_AEAD_CTX) := {
  pair_aead : aead open = aead seal;
  pair_overhead : 0 <= overhead (aead seal) < 256;
  pair_tag_len : forall n e, 0 <= n < 2 ^ 17 -> 0 <= e <= 1 -> (seal_scatter_supports_extra_in (aead seal) = true \/ e = 0) ->
    exists t, EVP_AEAD_CTX_tag_len seal n e = Some (Some t) /\ e <= t <= e + overhead (aead seal);
  pair_seal : forall nonce inp extra ad room t, bytes nonce -> bytes inp -> bytes extra -> bytes ad ->
    len nonce = nonce_len (aead seal) -> len inp < 2 ^ 17 -> len extra <= 1 -> len ad < 2 ^ 17 ->
    (seal_scatter_supports_extra_in (aead seal) = true \/ extra = []) ->
    EVP_AEAD_CTX_tag_len seal (len inp) (len extra) = Some (Some t) -> t <= room < 2 ^ 17 ->
    exists o s, aead_seal_scatter (aead seal) (state seal) (tag_len seal) room nonce inp extra ad = Some (o, s) /\
      len o = len inp /\ len s = t /\ bytes o /\ bytes s /\
      forall in_, EVP_AEAD_CTX_open open in_ (len (o ++ s)) nonce in_ (o ++ s) ad = Some (true, inp ++ extra);
}.

Lemma check_alias_same a n m : check_alias a n a m = true.
Proof. unfold check_alias. rewrite Z.eqb_refl. by destruct (negb _). Qed.

End Aead.
