(* ===== verification/ChaChaPoly.v ===== *)
(** ChaCha20-Poly1305: crypto/cipher/e_chacha20poly1305.cc, as an algorithm of the EVP_AEAD interface.

    The assembly routine is a parameter; without one the portable code is used. *)
From S2P Require Import Prelude.
From S2P Require Import Internal.
From S2P Require Import Mem.
From S2P Require Import Poly1305.
From S2P Require Import Poly1305Proofs.
From S2P Require Import PolyStream.
From S2P Require Import ChaCha.
From S2P Require Import Aead.

Open Scope Z_scope.

Definition POLY1305_TAG_LEN : Z := 16.

Definition aead_chacha20_poly1305_init (key : list Z) (tag_len : Z) : option (list Z * Z) :=
  let tag_len := if tag_len =? 0 then POLY1305_TAG_LEN else tag_len in
  if POLY1305_TAG_LEN <? tag_len then None else
  if negb (len key =? 32) then None else
  Some (key, tag_len).

Fixpoint length_bytes (n : nat) (data_len : Z) : list Z :=
  match n with O => [] | S n => u8 data_len :: length_bytes n (Z.shiftr data_len 8) end.

Definition poly1305_update_length (st : poly1305_state_st) (data_len : Z) : poly1305_state_st :=
  CRYPTO_poly1305_update st (length_bytes 8 data_len).

(** [seal] and [open] give the output and the tag; [seal] is also given the encrypted extra input. *)
Record chacha20_poly1305_asm := mk_asm {
  chacha20_poly1305_seal : list Z -> list Z -> list Z -> list Z -> list Z -> list Z * list Z;
  chacha20_poly1305_open : list Z -> list Z -> list Z -> list Z -> list Z * list Z;
}.

Section Cipher.
Context `{P : Platform} (asm : option chacha20_poly1305_asm).

Definition calc_tag (key nonce ad ciphertext ciphertext_extra : list Z) : list Z :=
  let poly1305_key := CRYPTO_chacha_20 (zero_bytes 32) key nonce 0 in
  let ctx := CRYPTO_poly1305_init poly1305_key in
  let ctx := CRYPTO_poly1305_update ctx ad in
  let ctx := if negb (len ad mod 16 =? 0) then CRYPTO_poly1305_update ctx (zero_bytes (16 - len ad mod 16)) else ctx in
  let ctx := CRYPTO_poly1305_update ctx ciphertext in
  let ctx := CRYPTO_poly1305_update ctx ciphertext_extra in
  let ciphertext_total := wrap size_bits (len ciphertext + len ciphertext_extra) in
  let ctx := if negb (ciphertext_total mod 16 =? 0) then CRYPTO_poly1305_update ctx (zero_bytes (16 - ciphertext_total mod 16)) else ctx in
  let ctx := poly1305_update_length ctx (len ad) in
  let ctx := poly1305_update_length ctx ciphertext_total in
  CRYPTO_poly1305_finish ctx.

(** The extra input, block by block. *)
Fixpoint seal_extra (fuel : nat) (key nonce : list Z) (block_counter offset : Z) (extra_in : list Z) : list Z :=
  match fuel with
  | O => []
  | S fuel =>
    if len extra_in =? 0 then [] else
    let block := CRYPTO_chacha_20 (zero_bytes 64) key nonce block_counter in
    let n := Z.min (64 - offset) (len extra_in) in
    zip_with Z.lxor (ztake n extra_in) (zdrop offset block) ++ seal_extra fuel key nonce (u32 (block_counter + 1)) 0 (zdrop n extra_in)
  end.

Definition chacha20_poly1305_seal_scatter (key : list Z) (max_out_tag_len : Z) (nonce inp extra_in ad : list Z) (tag_len : Z)
    : option (list Z * list Z) :=
  if wrap size_bits (len extra_in + tag_len) <? tag_len then None else
  if max_out_tag_len <? wrap size_bits (tag_len + len extra_in) then None else
  if negb (len nonce =? 12) then None else
  if 2 ^ 32 * 64 - 64 <=? len inp then None else
  if max_out_tag_len <? tag_len then None else
  let extra_out := seal_extra (S (length extra_in)) key nonce (u32 (1 + len inp / 64)) (len inp mod 64) extra_in in
  let '(out, tag) :=
    match asm with
    | Some a => chacha20_poly1305_seal a key nonce inp ad extra_out
    | None => let out := CRYPTO_chacha_20 inp key nonce 1 in (out, calc_tag key nonce ad out extra_out)
    end in
  Some (out, extra_out ++ ztake tag_len tag).

Definition aead_chacha20_poly1305_seal_scatter (st : list Z) (tag_len max_out_tag_len : Z) (nonce inp extra_in ad : list Z) : option (list Z * list Z) :=
  chacha20_poly1305_seal_scatter st max_out_tag_len nonce inp extra_in ad tag_len.

(** The key and nonce of the extended-nonce variant. *)
Definition xchacha_derive (key nonce : list Z) : list Z * list Z := (CRYPTO_hchacha20 key nonce, zero_bytes 4 ++ ztake 8 (zdrop 16 nonce)).

Definition aead_xchacha20_poly1305_seal_scatter (st : list Z) (tag_len max_out_tag_len : Z) (nonce inp extra_in ad : list Z) : option (list Z * list Z) :=
  if negb (len nonce =? 24) then None else
  let '(derived_key, derived_nonce) := xchacha_derive st nonce in
  chacha20_poly1305_seal_scatter derived_key max_out_tag_len derived_nonce inp extra_in ad tag_len.

Definition chacha20_poly1305_open_gather (key nonce inp in_tag ad : list Z) (tag_len : Z) : option (list Z) :=
  if negb (len nonce =? 12) then None else
  if negb (len in_tag =? tag_len) then None else
  if 2 ^ 32 * 64 - 64 <=? len inp then None else
  let '(out, tag) :=
    match asm with
    | Some a => chacha20_poly1305_open a key nonce inp ad
    | None => (CRYPTO_chacha_20 inp key nonce 1, calc_tag key nonce ad inp [])
    end in
  if negb (CRYPTO_memcmp (ztake tag_len tag) in_tag =? 0) then None else Some out.

Definition aead_chacha20_poly1305_open_gather (st : list Z) (tag_len : Z) (nonce inp in_tag ad : list Z) : option (list Z) :=
  chacha20_poly1305_open_gather st nonce inp in_tag ad tag_len.

Definition aead_xchacha20_poly1305_open_gather (st : list Z) (tag_len : Z) (nonce inp in_tag ad : list Z) : option (list Z) :=
  if negb (len nonce =? 24) then None else
  let '(derived_key, derived_nonce) := xchacha_derive st nonce in
  chacha20_poly1305_open_gather derived_key derived_nonce inp in_tag ad tag_len.

Definition aead_chacha20_poly1305 : EVP_AEAD :=
  mk_aead 32 12 POLY1305_TAG_LEN POLY1305_TAG_LEN true (Some aead_chacha20_poly1305_init) (fun _ _ _ => None)
    None aead_chacha20_poly1305_seal_scatter (Some aead_chacha20_poly1305_open_gather) None.

Definition aead_xchacha20_poly1305 : EVP_AEAD :=
  mk_aead 32 24 POLY1305_TAG_LEN POLY1305_TAG_LEN true (Some aead_chacha20_poly1305_init) (fun _ _ _ => None)
    None aead_xchacha20_poly1305_seal_scatter (Some aead_xchacha20_poly1305_open_gather) None.

End Cipher.

(** ** Specification *)

(** The encryption, the input of the MAC and its key of RFC 8439, section 2.8. *)
Definition encrypt (key nonce p : list Z) : list Z := xor_stream (rfc8439_block key nonce) 1 p.
Definition pad16 (l : list Z) : list Z := l ++ zero_bytes ((16 - len l mod 16) mod 16).
Definition aead_message (ad ct : list Z) : list Z := pad16 ad ++ pad16 ct ++ le_bytes 8 (len ad) ++ le_bytes 8 (len ct).
Definition poly_key (key nonce : list Z) : list Z := ztake 32 (rfc8439_block key nonce 0).

(** The MAC of the portable code is that of [Poly1305]; an assembly routine computes that of the RFC. *)
Definition one_time_mac (asm : option chacha20_poly1305_asm) (k msg : list Z) : list Z :=
  match asm with None => poly1305_mac k msg | Some _ => le_bytes 16 (poly1305_tag k msg) end.
Definition aead_tag (asm : option chacha20_poly1305_asm) (key nonce ad ct : list Z) : list Z :=
  one_time_mac asm (poly_key key nonce) (aead_message ad ct).

(** What crypto/cipher/internal.h says of the assembly. *)
Definition asm_ok (asm : option chacha20_poly1305_asm) : Prop :=
  forall a key nonce, asm = Some a -> bytes key -> bytes nonce -> len key = 32 -> len nonce = 12 ->
  forall inp ad, bytes inp -> bytes ad -> len inp < 2 ^ 38 - 64 ->
  (forall extra, bytes extra -> chacha20_poly1305_seal a key nonce inp ad extra =
     (encrypt key nonce inp, aead_tag asm key nonce ad (encrypt key nonce inp ++ extra))) /\
  chacha20_poly1305_open a key nonce inp ad = (encrypt key nonce inp, aead_tag asm key nonce ad inp).

(** ** The stream *)

Lemma le_length_bytes n v : 0 <= v -> length_bytes n v = le_bytes n v.
Proof.
  revert v. induction n as [|n IH]; intros v Hv; [done|]. cbn [length_bytes le_bytes]. rewrite IH by (apply Z.shiftr_nonneg; lia).
  by rewrite Z.shiftr_div_pow2 by lia.
Qed.

Lemma chacha_20_spec key nonce c l : bytes key -> bytes nonce -> 0 <= c < 2 ^ 32 -> CRYPTO_chacha_20 l key nonce c = xor_stream (rfc8439_block key nonce) c l.
Proof.
  intros Hk Hn Hc. rewrite <- (xor_stream_ext (chacha_block key nonce)) by (intros; by apply chacha_block_rfc).
  apply chacha_loop_spec; [lia | exact Hc].
Qed.

Lemma length_rfc_block key nonce c : bytes key -> bytes nonce -> 0 <= c < 2 ^ 32 -> length (rfc8439_block key nonce c) = 64%nat.
Proof. intros Hk Hn Hc. rewrite <- chacha_block_rfc by done. apply length_block. Qed.

Lemma xor_zeros l n : (n <= length l)%nat -> zip_with Z.lxor (repeat 0 n) l = take n l.
Proof. revert l. induction n as [|n IH]; intros [|x l] H; cbn in *; try done; try lia. f_equal. apply IH. lia. Qed.

Lemma stream_block key nonce c n : bytes key -> bytes nonce -> 0 <= c < 2 ^ 32 -> 0 <= n <= 64 ->
  CRYPTO_chacha_20 (zero_bytes n) key nonce c = ztake n (rfc8439_block key nonce c).
Proof.
  intros Hk Hn Hc H. rewrite chacha_20_spec by done. assert (L : len (zero_bytes n) = n) by (unfold len, zero_bytes; rewrite repeat_length; lia).
  rewrite (xor_stream_ext (rfc8439_block key nonce) (chacha_block key nonce)) by (intros; symmetry; by apply chacha_block_rfc).
  rewrite <- xor_block; [|intros; apply length_block|done|lia]. rewrite chacha_block_rfc by done. unfold zero_bytes, ztake.
  apply xor_zeros. rewrite length_rfc_block by done. lia.
Qed.

(** ** The tag *)

#[local] Opaque rfc8439_block CRYPTO_hchacha20 CRYPTO_poly1305_update CRYPTO_poly1305_init CRYPTO_poly1305_finish.

Section Proofs.
Context `{P : Platform}.

Lemma update_zeros st (l : list Z) : (if negb (len l mod 16 =? 0) then CRYPTO_poly1305_update st (zero_bytes (16 - len l mod 16)) else st) =
  CRYPTO_poly1305_update st (zero_bytes ((16 - len l mod 16) mod 16)).
Proof.
  pose proof (Z.mod_pos_bound (len l) 16 ltac:(lia)). destruct (Z.eqb_spec (len l mod 16) 0) as [->|]; cbn [negb]; [done|]. by rewrite (Z.mod_small (16 - _)) by lia.
Qed.

Lemma calc_tag_spec key nonce ad ct extra : bytes key -> bytes nonce -> len ct + len extra <= size_max ->
  calc_tag key nonce ad ct extra = poly1305_mac (poly_key key nonce) (aead_message ad (ct ++ extra)).
Proof.
  intros Hk Hn Hl. unfold calc_tag. rewrite stream_block by (done || lia). change (ztake 32 (rfc8439_block key nonce 0)) with (poly_key key nonce).
  pose proof (len_nonneg ct). pose proof (len_nonneg extra). pose proof (len_nonneg ad).
  rewrite (wrap_small size_bits) by (unfold size_max in Hl; lia). rewrite <- len_app. cbv zeta. rewrite !update_zeros.
  unfold poly1305_update_length. rewrite !le_length_bytes by (rewrite ?len_app; lia).
  change (CRYPTO_poly1305_finish (fold_left CRYPTO_poly1305_update [ad; zero_bytes ((16 - len ad mod 16) mod 16); ct; extra;
    zero_bytes ((16 - len (ct ++ extra) mod 16) mod 16); le_bytes 8 (len ad); le_bytes 8 (len (ct ++ extra))] (CRYPTO_poly1305_init (poly_key key nonce))) =
    poly1305_mac (poly_key key nonce) (aead_message ad (ct ++ extra))).
  rewrite poly1305_mac_chunks. f_equal. unfold aead_message, pad16. cbn [concat]. by rewrite app_nil_r, <- !app_assoc.
Qed.

(** ** The extra input *)

Lemma keystream_shift block c n i : keystream block c (n + i) = keystream block (c + Z.of_nat n / 64) (n mod 64 + i).
Proof.
  unfold keystream. f_equal; [f_equal; f_equal|].
  - rewrite !Nat2Z.inj_add, Nat2Z.inj_mod. rewrite (Z.div_mod (Z.of_nat n) 64) at 1 by lia.
    rewrite <- (Z.add_assoc (64 * _)), (Z.mul_comm 64), Z.div_add_l by lia. change (Z.of_nat 64) with 64. lia.
  - rewrite Nat.Div0.add_mod_idemp_l. done.
Qed.

(** The input [l] from the byte at [off] of the stream. *)
Definition xor_from (block : Z -> list Z) (c : Z) (off : nat) (l : list Z) : list Z := imap (fun i b => Z.lxor b (keystream block c (off + i))) l.

Lemma xor_stream_split block c a b : xor_stream block c (a ++ b) = xor_stream block c a ++ xor_from block (c + len a / 64) (length a mod 64) b.
Proof.
  unfold xor_stream, xor_from. rewrite imap_app. f_equal. apply imap_ext. intros i x _. cbn. f_equal. unfold len. apply keystream_shift.
Qed.

Lemma xor_from_mod block c off l : xor_from block (c mod 2 ^ 32) off l = xor_from block c off l.
Proof. apply imap_ext. intros i x _. cbn. f_equal. unfold keystream. by rewrite Zplus_mod_idemp_l. Qed.

Lemma xor_from_block key nonce c off l : bytes key -> bytes nonce -> 0 <= c < 2 ^ 32 -> (off + length l <= 64)%nat ->
  zip_with Z.lxor l (drop off (rfc8439_block key nonce c)) = xor_from (rfc8439_block key nonce) c off l.
Proof.
  intros Hk Hn Hc Hl. pose proof (length_rfc_block key nonce c Hk Hn Hc) as L. unfold xor_from. apply list_eq. intros i. rewrite list_lookup_imap, lookup_zip_with, lookup_drop.
  destruct (l !! i) as [x|] eqn:E; [|done]. apply lookup_lt_Some in E. unfold keystream.
  rewrite Z.div_small, Z.add_0_r, (Z.mod_small c), Nat.mod_small by lia. unfold get. destruct (_ !! (off + i)%nat) eqn:E'; [done|]. apply lookup_ge_None in E'. lia.
Qed.

Lemma seal_extra_spec key nonce : bytes key -> bytes nonce -> forall fuel c off l, (length l < fuel)%nat -> 0 <= c < 2 ^ 32 -> 0 <= off < 64 ->
  seal_extra fuel key nonce c off l = xor_from (rfc8439_block key nonce) c (Z.to_nat off) l.
Proof.
  intros Hk Hn. induction fuel as [|fuel IH]; intros c off l Hf Hc Ho; [lia|]. cbn [seal_extra]. pose proof (len_nonneg l).
  destruct (Z.eqb_spec (len l) 0) as [->%len_0_nil|Hne]; [done|]. set (n := Z.min (64 - off) (len l)). rewrite stream_block by (done || lia).
  assert (E64 : ztake 64 (rfc8439_block key nonce c) = rfc8439_block key nonce c) by (unfold ztake; apply take_ge; rewrite length_rfc_block; lia || done). rewrite E64.
  assert (Ln : len (ztake n l) = n) by (apply len_ztake; lia). unfold zdrop at 1. rewrite (xor_from_block key nonce c (Z.to_nat off) (ztake n l) Hk Hn Hc) by (unfold len in Ln; lia).
  rewrite IH; [|unfold zdrop; rewrite length_drop; unfold len in *; lia|apply wrap_range; lia|lia].
  rewrite <- (ztake_zdrop n l) at 3. unfold xor_from at 3. rewrite imap_app. f_equal. unfold wrap. rewrite xor_from_mod.
  unfold n in *. destruct (Z.le_ge_cases (len l) (64 - off)) as [Hle|Hge].
  - assert (Ed : zdrop (Z.min (64 - off) (len l)) l = []) by (rewrite Z.min_r by lia; apply zdrop_all). by rewrite Ed.
  - assert (L64 : (Z.to_nat off + length (ztake (Z.min (64 - off) (len l)) l))%nat = 64%nat).
    { apply Nat2Z.inj. rewrite Nat2Z.inj_add. change (Z.of_nat (length ?x)) with (len x). rewrite Ln. lia. }
    apply imap_ext. intros i x _. cbn. f_equal. by rewrite Nat.add_assoc, L64, (keystream_shift _ c 64 i).
Qed.

(** ** Bytes *)

Lemma bytes_bytes_of w : bytes (bytes_of w).
Proof. unfold bytes_of. induction w as [|x w IH]; [constructor|]. rewrite fmap_cons. cbn [concat]. apply bytes_app. split; [apply bytes_le_bytes|done]. Qed.

#[local] Transparent CRYPTO_hchacha20.
Lemma hchacha_ok key nonce : bytes (CRYPTO_hchacha20 key nonce) /\ len (CRYPTO_hchacha20 key nonce) = 32.
Proof.
  unfold CRYPTO_hchacha20. split; [apply bytes_app; split; apply bytes_bytes_of|]. rewrite len_app. unfold len.
  rewrite !length_bytes_of, length_take, length_drop, length_rounds. rewrite !length_app, !length_words_of. done.
Qed.
#[local] Opaque CRYPTO_hchacha20.

Lemma bytes_rfc_block key nonce c : bytes key -> bytes nonce -> 0 <= c < 2 ^ 32 -> bytes (rfc8439_block key nonce c).
Proof. intros Hk Hn Hc. rewrite <- chacha_block_rfc by done. apply bytes_bytes_of. Qed.

Lemma keystream_byte key nonce c i : bytes key -> bytes nonce -> is_byte (keystream (rfc8439_block key nonce) c i).
Proof.
  intros Hk Hn. unfold keystream. pose proof (bytes_rfc_block key nonce ((c + Z.of_nat i / 64) mod 2 ^ 32) Hk Hn ltac:(apply Z.mod_pos_bound; lia)) as H.
  unfold get. destruct (_ !! _) eqn:E; [|unfold is_byte; cbn; lia]. by apply (Forall_lookup_1 _ _ _ _ H E).
Qed.

Lemma bytes_xor_from key nonce c off l : bytes key -> bytes nonce -> bytes l -> bytes (xor_from (rfc8439_block key nonce) c off l).
Proof.
  intros Hk Hn Hl. apply Forall_lookup_2. intros i x E. unfold xor_from in E. rewrite list_lookup_imap in E. destruct (l !! i) as [b|] eqn:Eb; [|done].
  injection E as <-. pose proof (Forall_lookup_1 _ _ _ _ Hl Eb) as Hb. pose proof (keystream_byte key nonce c (off + i) Hk Hn) as Hs.
  unfold is_byte in *. change 256 with (2 ^ 8) in *. apply lxor_range; lia.
Qed.

Lemma bytes_encrypt key nonce p : bytes key -> bytes nonce -> bytes p -> bytes (encrypt key nonce p).
Proof. intros Hk Hn Hp. exact (bytes_xor_from key nonce 1 0 p Hk Hn Hp). Qed.
Lemma len_encrypt key nonce p : len (encrypt key nonce p) = len p.
Proof. apply len_xor_stream. Qed.
Lemma encrypt_involutive key nonce p : encrypt key nonce (encrypt key nonce p) = p.
Proof. apply xor_stream_involutive. Qed.

Lemma store_bytes k a b c d e : bytes (finish_store k a b c d e) /\ len (finish_store k a b c d e) = 16.
Proof. unfold finish_store. split; [repeat (apply bytes_app; split); apply bytes_le_bytes|]. by rewrite !len_app. Qed.

#[local] Transparent CRYPTO_poly1305_finish.
Lemma finish_bytes st : bytes (CRYPTO_poly1305_finish st) /\ len (CRYPTO_poly1305_finish st) = 16.
Proof.
  unfold CRYPTO_poly1305_finish. destruct (negb _); cbv zeta; destruct (finish_carry _ _ _ _ _) as [[[[a b] c] d] e];
    destruct (finish_subtract _ _ _ _ _) as [[[[a' b'] c'] d'] e']; apply store_bytes.
Qed.
#[local] Opaque CRYPTO_poly1305_finish.

Lemma mac_bytes k msg : bytes (poly1305_mac k msg) /\ len (poly1305_mac k msg) = 16.
Proof. apply finish_bytes. Qed.

Lemma tag_bytes asm key nonce ad ct : bytes (aead_tag asm key nonce ad ct) /\ len (aead_tag asm key nonce ad ct) = 16.
Proof. unfold aead_tag, one_time_mac. destruct asm; [split; [apply bytes_le_bytes|apply len_le_bytes]|apply mac_bytes]. Qed.

Lemma memcmp_eq a b : bytes a -> bytes b -> len a = len b -> CRYPTO_memcmp a b = 0 <-> a = b.
Proof. intros Ha Hb Hl. unfold CRYPTO_memcmp. rewrite memcmp_acc; [naive_solver|done|done|unfold len in Hl; lia|unfold is_byte; lia]. Qed.

(** ** Sealing and opening *)

Section Spec.
Context (asm : option chacha20_poly1305_asm) (Hasm : asm_ok asm) (key nonce : list Z).
Context (Hkb : bytes key) (Hnb : bytes nonce) (Hk : len key = 32) (Hn : len nonce = 12).

Lemma seal_scatter_spec room inp extra ad n : bytes inp -> bytes extra -> bytes ad -> len inp < 2 ^ 38 - 64 -> len inp + len extra <= size_max ->
  0 <= n <= 16 -> n + len extra <= room -> n + len extra <= size_max ->
  exists E, chacha20_poly1305_seal_scatter asm key room nonce inp extra ad n =
      Some (encrypt key nonce inp, E ++ ztake n (aead_tag asm key nonce ad (encrypt key nonce (inp ++ extra)))) /\
    encrypt key nonce (inp ++ extra) = encrypt key nonce inp ++ E.
Proof.
  intros Hi He Ha Li Ls Hnr Hr Hs. pose proof (len_nonneg extra). pose proof (len_nonneg inp). pose proof (len_nonneg ad).
  exists (xor_from (rfc8439_block key nonce) (1 + len inp / 64) (length inp mod 64) extra). split; [|apply xor_stream_split].
  unfold chacha20_poly1305_seal_scatter. rewrite !(wrap_small size_bits) by (unfold size_max in Hs; lia).
  destruct (Z.ltb_spec (len extra + n) n); [lia|]. destruct (Z.ltb_spec room (n + len extra)); [lia|]. rewrite Hn. cbn [negb Z.eqb Pos.eqb].
  destruct (Z.leb_spec (2 ^ 32 * 64 - 64) (len inp)); [lia|]. destruct (Z.ltb_spec room n); [lia|].
  pose proof (Z.mod_pos_bound (len inp) 64 ltac:(lia)).
  rewrite seal_extra_spec; [|done|done|lia|apply wrap_range; lia|lia]. unfold wrap. rewrite xor_from_mod.
  replace (Z.to_nat (len inp mod 64)) with (length inp mod 64)%nat by (apply Nat2Z.inj; rewrite Nat2Z.inj_mod, Z2Nat.id by lia; done).
  unfold encrypt. rewrite (xor_stream_split _ 1 inp extra). set (E := xor_from _ _ _ extra). assert (HE : bytes E) by (by apply bytes_xor_from).
  assert (LE : len E = len extra) by (unfold E, xor_from, len; by rewrite length_imap). destruct asm as [a|] eqn:Ea.
  - destruct (Hasm a key nonce eq_refl Hkb Hnb Hk Hn inp ad Hi Ha ltac:(lia)) as [Hseal _]. by rewrite (Hseal E HE).
  - rewrite chacha_20_spec by (done || lia). rewrite calc_tag_spec; [done|done|done|]. rewrite len_xor_stream, LE. done.
Qed.

Lemma open_gather_spec inp tag ad n : bytes inp -> bytes tag -> bytes ad -> len inp < 2 ^ 38 - 64 -> len inp <= size_max -> 0 <= n <= 16 -> len tag = n ->
  chacha20_poly1305_open_gather asm key nonce inp tag ad n =
  if decide (tag = ztake n (aead_tag asm key nonce ad inp)) then Some (encrypt key nonce inp) else None.
Proof.
  intros Hi Ht Ha Li Ls Hnr Lt. unfold chacha20_poly1305_open_gather. rewrite Hn, Lt, !Z.eqb_refl. cbn [negb].
  destruct (Z.leb_spec (2 ^ 32 * 64 - 64) (len inp)); [lia|]. destruct (tag_bytes asm key nonce ad inp) as [Hb L16].
  assert (E : (match asm with Some a => chacha20_poly1305_open a key nonce inp ad
    | None => (CRYPTO_chacha_20 inp key nonce 1, calc_tag key nonce ad inp []) end) = (encrypt key nonce inp, aead_tag asm key nonce ad inp)).
  { destruct asm as [a|] eqn:Ea.
    - apply (Hasm a key nonce eq_refl Hkb Hnb Hk Hn inp ad Hi Ha). lia.
    - rewrite chacha_20_spec by (done || lia). rewrite calc_tag_spec; [|done|done|rewrite len_nil; lia]. by rewrite app_nil_r. }
  rewrite E. assert (Lz : len (ztake n (aead_tag asm key nonce ad inp)) = n) by (apply len_ztake; lia).
  pose proof (memcmp_eq (ztake n (aead_tag asm key nonce ad inp)) tag ltac:(by apply bytes_ztake) Ht ltac:(lia)) as Hm.
  destruct (Z.eqb_spec (CRYPTO_memcmp (ztake n (aead_tag asm key nonce ad inp)) tag) 0) as [E0|E0]; cbn [negb]; destruct (decide _) as [Ed|Ed]; [done| | |done].
  - exfalso. apply Ed. symmetry. by apply Hm.
  - exfalso. apply E0, Hm. by symmetry.
Qed.
End Spec.
End Proofs.

(** ** The interface *)

(** The two algorithms, and the key and nonce that a message is encrypted with. *)
Definition chacha_aead `{P : Platform} (asm : option chacha20_poly1305_asm) (x : bool) : EVP_AEAD :=
  if x then aead_xchacha20_poly1305 asm else aead_chacha20_poly1305 asm.
Definition session (x : bool) (key nonce : list Z) : list Z * list Z := if x then xchacha_derive key nonce else (key, nonce).
Definition nonce_ok (x : bool) (nonce : list Z) : Prop := bytes nonce /\ len nonce = (if x then 24 else 12).

(** The ciphertext of [inp] followed by its tag. *)
Definition authentic (asm : option chacha20_poly1305_asm) (k v ad : list Z) (n : Z) (c : list Z) : Prop :=
  n <= len c /\ zdrop (len c - n) c = ztake n (aead_tag asm k v ad (ztake (len c - n) c)).
#[global] Instance authentic_dec asm k v ad n c : Decision (authentic asm k v ad n c).
Proof. unfold authentic. apply _. Defined.

Section Interface.
Context `{P : Platform} (asm : option chacha20_poly1305_asm) (Hasm : asm_ok asm) (x : bool) (key : list Z) (Hkb : bytes key) (Hk : len key = 32).

Lemma session_ok nonce k v : nonce_ok x nonce -> session x key nonce = (k, v) -> bytes k /\ bytes v /\ len k = 32 /\ len v = 12.
Proof.
  unfold session, nonce_ok. intros [Hb Hl]. destruct x; intros E; apply pair_equal_spec in E as [<- <-]; [|done]. split; [apply hchacha_ok|].
  assert (L16 : len (ztake 8 (zdrop 16 nonce)) = 8) by (rewrite len_ztake; [done|rewrite len_zdrop; lia]).
  split; [apply bytes_app; split; [repeat constructor; unfold is_byte; lia|by apply bytes_ztake, bytes_zdrop]|].
  split; [apply hchacha_ok|by rewrite len_app, L16].
Qed.

Lemma chacha_init t : 0 <= t <= 16 -> let n := if t =? 0 then 16 else t in
  EVP_AEAD_CTX_init (chacha_aead asm x) key t = Some (mk_aead_ctx (chacha_aead asm x) key n).
Proof.
  intros Ht n. unfold EVP_AEAD_CTX_init, EVP_AEAD_CTX_init_with_direction, chacha_aead. assert (Hn : n <= 16) by (unfold n; destruct (t =? 0); lia).
  destruct x; cbn [aead_init aead_xchacha20_poly1305 aead_chacha20_poly1305 key_len]; rewrite Hk; cbn [negb Z.eqb Pos.eqb];
    unfold aead_chacha20_poly1305_init, POLY1305_TAG_LEN; fold n; (destruct (Z.ltb_spec 16 n); [lia|]); by rewrite Hk.
Qed.

Context (n : Z) (Hn : 1 <= n <= 16).
Let ctx := mk_aead_ctx (chacha_aead asm x) key n.

Lemma chacha_seal nonce k v room inp extra ad : nonce_ok x nonce -> session x key nonce = (k, v) -> bytes inp -> bytes extra -> bytes ad ->
  len inp < 2 ^ 38 - 64 -> len inp + len extra <= size_max -> n + len extra <= room <= size_max ->
  exists E, aead_seal_scatter (chacha_aead asm x) key n room nonce inp extra ad =
      Some (encrypt k v inp, E ++ ztake n (aead_tag asm k v ad (encrypt k v (inp ++ extra)))) /\
    encrypt k v (inp ++ extra) = encrypt k v inp ++ E.
Proof.
  intros Hno Es Hi He Ha Li Ls Hr. destruct (session_ok nonce k v Hno Es) as (Kb & Vb & Lk & Lv).
  destruct (seal_scatter_spec asm Hasm k v Kb Vb Lk Lv room inp extra ad n Hi He Ha Li Ls ltac:(lia) ltac:(lia) ltac:(lia)) as (E & Eq & Ee).
  exists E. split; [|done]. rewrite <- Eq. destruct Hno as [_ L]. unfold session in Es. unfold chacha_aead. destruct x.
  - cbn [aead_seal_scatter aead_xchacha20_poly1305]. unfold aead_xchacha20_poly1305_seal_scatter. by rewrite L, Es.
  - apply pair_equal_spec in Es as [<- <-]. done.
Qed.

Lemma chacha_open nonce k v ad c in_ : nonce_ok x nonce -> session x key nonce = (k, v) -> bytes c -> bytes ad ->
  len c - n < 2 ^ 38 - 64 -> len c <= size_max ->
  EVP_AEAD_CTX_open ctx in_ (len c) nonce in_ c ad =
  Some (if decide (authentic asm k v ad n c) then (true, encrypt k v (ztake (len c - n) c)) else (false, zero_bytes (len c))).
Proof.
  intros Hno Es Hc Ha Lc Ls. destruct (session_ok nonce k v Hno Es) as (Kb & Vb & Lk & Lv). unfold EVP_AEAD_CTX_open, ctx. rewrite check_alias_same. cbn [negb aead tag_len state].
  assert (Eo : aead_open (chacha_aead asm x) = None) by (unfold chacha_aead; by destruct x). rewrite Eo. destruct (Z.eqb_spec n 0); [lia|].
  unfold authentic. destruct (Z.ltb_spec (len c) n) as [Hs|Hs].
  { destruct (decide _) as [[D _]|D]; [lia|done]. }
  destruct (Z.ltb_spec (len c) (len c - n)); [lia|]. unfold EVP_AEAD_CTX_open_gather. rewrite check_alias_same. cbn [negb aead tag_len state].
  assert (Lt : len (ztake (len c - n) c) = len c - n) by (apply len_ztake; lia). assert (Ld : len (zdrop (len c - n) c) = n) by (rewrite len_zdrop; lia).
  pose proof (open_gather_spec asm Hasm k v Kb Vb Lk Lv (ztake (len c - n) c) (zdrop (len c - n) c) ad n ltac:(by apply bytes_ztake) ltac:(by apply bytes_zdrop)
    Ha ltac:(lia) ltac:(lia) ltac:(lia) Ld) as Hg.
  assert (Eg : exists g, aead_open_gather (chacha_aead asm x) = Some g /\ g key n nonce (ztake (len c - n) c) (zdrop (len c - n) c) ad =
    chacha20_poly1305_open_gather asm k v (ztake (len c - n) c) (zdrop (len c - n) c) ad n).
  { destruct Hno as [_ L]. unfold session in Es. unfold chacha_aead. destruct x.
    - eexists. split; [done|]. unfold aead_xchacha20_poly1305_open_gather. by rewrite L, Es.
    - apply pair_equal_spec in Es as [<- <-]. by eexists. }
  destruct Eg as (g & -> & Eg). rewrite Eg, Hg. destruct (decide (zdrop _ _ = _)) as [D|D]; destruct (decide (n <= len c /\ _)) as [D'|D']; try done; [|by destruct D'].
  by destruct D'.
Qed.
End Interface.

(** What was sealed is opened. *)
Lemma open_sealed `{P : Platform} asm (Hasm : asm_ok asm) x key (Hkb : bytes key) (Hk : len key = 32) n (Hn : 1 <= n <= 16) nonce k v inp extra E ad in_ :
  nonce_ok x nonce -> session x key nonce = (k, v) -> bytes inp -> bytes extra -> bytes ad ->
  len inp + len extra < 2 ^ 38 - 64 -> len inp + len extra + n <= size_max -> encrypt k v (inp ++ extra) = encrypt k v inp ++ E ->
  let c := encrypt k v inp ++ E ++ ztake n (aead_tag asm k v ad (encrypt k v (inp ++ extra))) in
  EVP_AEAD_CTX_open (mk_aead_ctx (chacha_aead asm x) key n) in_ (len c) nonce in_ c ad = Some (true, inp ++ extra).
Proof.
  intros Hno Es Hi He Ha Li Ls EE c. destruct (session_ok x key Hkb Hk nonce k v Hno Es) as (Kb & Vb & Lk & Lv).
  set (ct := encrypt k v (inp ++ extra)) in *. set (tag := ztake n (aead_tag asm k v ad ct)) in *. destruct (tag_bytes asm k v ad ct) as [Tb T16].
  assert (Lt : len tag = n) by (apply len_ztake; lia). assert (Lct : len ct = len inp + len extra) by (unfold ct; by rewrite len_encrypt, len_app).
  assert (Ec : c = ct ++ tag) by (unfold c; by rewrite EE, app_assoc). assert (Lc : len c = len ct + n) by (rewrite Ec, len_app; lia).
  assert (Hct : bytes ct) by (apply bytes_encrypt; [done|done|by apply bytes_app]).
  assert (Hcb : bytes c) by (rewrite Ec; apply bytes_app; split; [done|by apply bytes_ztake]).
  rewrite (chacha_open asm Hasm x key Hkb Hk n Hn nonce k v) by (done || lia).
  assert (T : ztake (len c - n) c = ct) by (rewrite Ec at 2; apply ztake_app_eq; lia). assert (D : zdrop (len c - n) c = tag) by (rewrite Ec at 2; apply zdrop_app_eq; lia).
  assert (Ei : encrypt k v ct = inp ++ extra) by apply encrypt_involutive.
  rewrite T, Ei. destruct (decide _) as [_|Hd]; [done|].
  destruct Hd. unfold authentic. rewrite T, D. split; [pose proof (len_nonneg ct); lia|done].
Qed.

(** C18: ChaCha20-Poly1305 and XChaCha20-Poly1305 through the EVP_AEAD interface are the AEAD of
    RFC 8439. A context is made from a 32-byte key and any tag length. Sealing gives the encryption of
    the input and of the extra input after it, followed by the truncated tag over additional data and
    ciphertext. Opening decrypts exactly the byte strings that end in the right tag, and clears its
    output for every other. What was sealed is opened to the input and the extra input. The tag of the
    portable code is the one of [Poly1305]. *)
Theorem chacha20_poly1305_exact `{P : Platform} asm x key t nonce ad : asm_ok asm -> bytes key -> len key = 32 -> 0 <= t <= 16 -> nonce_ok x nonce -> bytes ad ->
  let n := if t =? 0 then 16 else t in
  let '(k, v) := session x key nonce in
  exists ctx, EVP_AEAD_CTX_init (chacha_aead asm x) key t = Some ctx /\
  (forall inp extra in_ out out_tag room, bytes inp -> bytes extra -> len inp + len extra < 2 ^ 38 - 64 -> len inp + len extra + n <= size_max ->
   n + len extra <= room <= size_max -> check_alias in_ (len inp) out (len inp) = true ->
   buffers_alias out (len inp) out_tag room = false -> buffers_alias in_ (len inp) out_tag room = false ->
   exists E, let tag := ztake n (aead_tag asm k v ad (encrypt k v (inp ++ extra))) in
     EVP_AEAD_CTX_seal_scatter ctx out out_tag room nonce in_ inp extra ad = (true, (encrypt k v inp, E ++ tag)) /\
     encrypt k v (inp ++ extra) = encrypt k v inp ++ E /\
     let c := encrypt k v inp ++ E ++ tag in
     forall in_, EVP_AEAD_CTX_open ctx in_ (len c) nonce in_ c ad = Some (true, inp ++ extra)) /\
  (forall c in_, bytes c -> len c - n < 2 ^ 38 - 64 -> len c <= size_max ->
   EVP_AEAD_CTX_open ctx in_ (len c) nonce in_ c ad =
   Some (if decide (authentic asm k v ad n c) then (true, encrypt k v (ztake (len c - n) c)) else (false, zero_bytes (len c)))).
Proof.
  intros Hasm Hkb Hk Ht Hno Ha n. destruct (session x key nonce) as [k v] eqn:Es. assert (Hn : 1 <= n <= 16) by (unfold n; destruct (Z.eqb_spec t 0); lia).
  pose proof (chacha_init asm x key Hk t Ht) as Hinit. fold n in Hinit. clearbody n. exists (mk_aead_ctx (chacha_aead asm x) key n). split; [done|]. split.
  - intros inp extra in_ out out_tag room Hi He Li Ls Hr A1 A2 A3. pose proof (len_nonneg extra).
    assert (L1 : len inp < 2 ^ 38 - 64) by lia. assert (L2 : len inp + len extra <= size_max) by lia.
    destruct (chacha_seal asm Hasm x key Hkb Hk n Hn nonce k v room inp extra ad Hno Es Hi He Ha L1 L2 Hr) as (E & Eq & EE).
    exists E. cbv zeta. split; [|split; [done|]].
    + unfold EVP_AEAD_CTX_seal_scatter. rewrite A1, A2, A3. cbn [negb orb aead state tag_len].
      assert (Ex : seal_scatter_supports_extra_in (chacha_aead asm x) = true) by (unfold chacha_aead; by destruct x). rewrite Ex. cbn [negb andb]. by rewrite Eq.
    + intros in_'. by apply (open_sealed asm Hasm x key Hkb Hk n Hn nonce k v).
  - intros c in_ Hc Lc Ls. by apply chacha_open.
Qed.

(** The interface the users of AEADs rely on. *)
#[global] Instance chacha_aead_pair `{P : Platform} asm (Hasm : asm_ok asm) key (Hkb : bytes key) (Hk : len key = 32) :
  AeadPair (mk_aead_ctx (aead_chacha20_poly1305 asm) key 16) (mk_aead_ctx (aead_chacha20_poly1305 asm) key 16).
Proof.
  assert (S32 : 2 ^ 20 <= size_max) by (unfold size_max; platform; lia). split.
  - done.
  - cbn. unfold POLY1305_TAG_LEN. lia.
  - intros m e Hm He _. unfold EVP_AEAD_CTX_tag_len. cbn [aead tag_len state seal_scatter_supports_extra_in aead_chacha20_poly1305 aead_tag_len orb negb].
    rewrite wrap_small by (unfold size_max in S32; lia). destruct (Z.ltb_spec (e + 16) e); [lia|]. eexists. split; [done|]. cbn. unfold POLY1305_TAG_LEN. lia.
  - intros nonce inp extra ad room t Hno Hi He Ha Ln Li Le La _ Et Hr. pose proof (len_nonneg extra). pose proof (len_nonneg inp).
    unfold EVP_AEAD_CTX_tag_len in Et. cbn [aead tag_len state seal_scatter_supports_extra_in aead_chacha20_poly1305 aead_tag_len orb negb] in Et.
    rewrite wrap_small in Et by (unfold size_max in S32; lia). destruct (Z.ltb_spec (len extra + 16) (len extra)); [lia|]. injection Et as <-.
    destruct (chacha_seal asm Hasm false key Hkb Hk 16 ltac:(lia) nonce key nonce room inp extra ad) as (E & Eq & EE); try done; try lia.
    eexists _, _. split; [exact Eq|]. destruct (tag_bytes asm key nonce ad (encrypt key nonce (inp ++ extra))) as [Tb T16].
    assert (Lct : len (encrypt key nonce (inp ++ extra)) = len inp + len extra) by (by rewrite len_encrypt, len_app).
    rewrite EE in Lct. rewrite len_app, len_encrypt in Lct. assert (Hct : bytes (encrypt key nonce (inp ++ extra))) by (apply bytes_encrypt; [done|done|by apply bytes_app]).
    rewrite EE in Hct. apply bytes_app in Hct as [Hct HE]. split; [apply len_encrypt|]. split; [rewrite len_app, len_ztake; lia|]. split; [done|].
    split; [apply bytes_app; split; [done|by apply bytes_ztake]|]. intros in_.
    apply (open_sealed asm Hasm false key Hkb Hk 16 ltac:(lia) nonce key nonce inp extra E ad in_); try done; try lia.
Qed.

Lemma chacha20_poly1305_exact_witness : exists ctx E tag,
  EVP_AEAD_CTX_init (chacha_aead (P := LP64) None false) chacha_key 0 = Some ctx /\
  EVP_AEAD_CTX_seal_scatter (P := LP64) ctx 0x1000 0x2000 17 chacha_nonce 0x1000 [1; 2; 3] [4] [5] = (true, (encrypt chacha_key chacha_nonce [1; 2; 3], E ++ tag)) /\
  EVP_AEAD_CTX_open (P := LP64) ctx 0x1000 (len (encrypt chacha_key chacha_nonce [1; 2; 3] ++ E ++ tag)) chacha_nonce 0x1000
    (encrypt chacha_key chacha_nonce [1; 2; 3] ++ E ++ tag) [5] = Some (true, [1; 2; 3; 4]).
Proof.
  assert (Hk : bytes chacha_key) by (repeat constructor; unfold is_byte; lia).
  assert (Hn : bytes chacha_nonce) by (repeat constructor; unfold is_byte; lia).
  destruct (chacha20_poly1305_exact (P := LP64) None false chacha_key 0 chacha_nonce [5]) as (ctx & Hi & Hs & _); try done.
  { repeat constructor; unfold is_byte; lia. }
  destruct (Hs [1; 2; 3] [4] 0x1000 0x1000 0x2000 17) as (E & Es & _ & Ho); try done; try (repeat constructor; unfold is_byte; lia).
  exists ctx, E, (ztake 16 (aead_tag None chacha_key chacha_nonce [5] (encrypt chacha_key chacha_nonce ([1; 2; 3] ++ [4])))).
  split; [exact Hi|]. split; [exact Es|exact (Ho 0x1000)].
Defined.
