(* ===== verification/SslAead.v ===== *)
(** The encryption layer of TLS: SSLAEADContext (ssl/ssl_aead_ctx.cc), the choice of an AEAD for a cipher
    suite (ssl/ssl_cipher.cc) and the encryption of DTLS record numbers (ssl/tls13_enc.cc).

    The result of a function is [None] where an assertion or a check fails; a second option is the
    return value false. The fuzzer mode is off. *)
From S2P Require Import Prelude.
From S2P Require Import Internal.
From S2P Require Import ChaCha.
From S2P Require Import Aead.
From S2P Require Import DtlsState.

Open Scope Z_scope.

Inductive enc_alg := SSL_3DES | SSL_AES128 | SSL_AES256 | SSL_AES128GCM | SSL_AES256GCM | SSL_CHACHA20POLY1305.
Inductive mac_alg := SSL_SHA1 | SSL_SHA256 | SSL_AEAD.
Record SSL_CIPHER := mk_cipher { algorithm_enc : enc_alg; algorithm_mac : mac_alg }.

Definition SSL_CIPHER_is_block_cipher (c : SSL_CIPHER) : bool := match algorithm_mac c with SSL_AEAD => false | _ => true end.

(** The algorithms other than ChaCha20-Poly1305. *)
Record tls_aeads := mk_tls_aeads {
  EVP_aead_aes_128_gcm_tls12 : EVP_AEAD; EVP_aead_aes_128_gcm_tls13 : EVP_AEAD;
  EVP_aead_aes_256_gcm_tls12 : EVP_AEAD; EVP_aead_aes_256_gcm_tls13 : EVP_AEAD;
  EVP_aead_chacha20_poly1305 : EVP_AEAD;
  EVP_aead_des_ede3_cbc_sha1_tls_implicit_iv : EVP_AEAD; EVP_aead_des_ede3_cbc_sha1_tls : EVP_AEAD;
  EVP_aead_aes_128_cbc_sha1_tls_implicit_iv : EVP_AEAD; EVP_aead_aes_128_cbc_sha1_tls : EVP_AEAD;
  EVP_aead_aes_256_cbc_sha1_tls_implicit_iv : EVP_AEAD; EVP_aead_aes_256_cbc_sha1_tls : EVP_AEAD;
  EVP_aead_aes_128_cbc_sha256_tls : EVP_AEAD;
}.

(** The algorithm, the length of the MAC key and the length of the fixed IV. *)
Definition ssl_cipher_get_evp_aead (t : tls_aeads) (cipher : SSL_CIPHER) (version : Z) : option (EVP_AEAD * Z * Z) :=
  match algorithm_mac cipher with
  | SSL_AEAD =>
    r ← match algorithm_enc cipher with
        | SSL_AES128GCM => Some (if version <? TLS1_3_VERSION then EVP_aead_aes_128_gcm_tls12 t else EVP_aead_aes_128_gcm_tls13 t, 4)
        | SSL_AES256GCM => Some (if version <? TLS1_3_VERSION then EVP_aead_aes_256_gcm_tls12 t else EVP_aead_aes_256_gcm_tls13 t, 4)
        | SSL_CHACHA20POLY1305 => Some (EVP_aead_chacha20_poly1305 t, 12)
        | _ => None
        end;
    let '(a, fixed_iv_len) := (r : EVP_AEAD * Z) in
    Some (a, 0, if TLS1_3_VERSION <=? version then nonce_len a else fixed_iv_len)
  | SSL_SHA1 =>
    match algorithm_enc cipher with
    | SSL_3DES => Some (if version =? TLS1_VERSION then (EVP_aead_des_ede3_cbc_sha1_tls_implicit_iv t, 20, 8) else (EVP_aead_des_ede3_cbc_sha1_tls t, 20, 0))
    | SSL_AES128 => Some (if version =? TLS1_VERSION then (EVP_aead_aes_128_cbc_sha1_tls_implicit_iv t, 20, 16) else (EVP_aead_aes_128_cbc_sha1_tls t, 20, 0))
    | SSL_AES256 => Some (if version =? TLS1_VERSION then (EVP_aead_aes_256_cbc_sha1_tls_implicit_iv t, 20, 16) else (EVP_aead_aes_256_cbc_sha1_tls t, 20, 0))
    | _ => None
    end
  | SSL_SHA256 => match algorithm_enc cipher with SSL_AES128 => Some (EVP_aead_aes_128_cbc_sha256_tls t, 32, 0) | _ => None end
  end.

(** A context; [ctx_] is absent in the null cipher. *)
Record SSLAEADContext := mk_ssl_aead {
  cipher_ : option SSL_CIPHER;
  ctx_ : option EVP_AEAD_CTX;
  fixed_nonce_ : list Z;
  variable_nonce_len_ : Z;
  variable_nonce_included_in_record_ : bool;
  random_variable_nonce_ : bool;
  xor_fixed_nonce_ : bool;
  omit_length_in_ad_ : bool;
  ad_is_header_ : bool;
}.

Definition EVP_AEAD_MAX_NONCE_LENGTH : Z := 24.
Definition EVP_AEAD_MAX_KEY_LENGTH : Z := 80.

Definition CreateNullCipher : SSLAEADContext := mk_ssl_aead None None [] 0 false false false false false.
Definition is_null_cipher (c : SSLAEADContext) : bool := match cipher_ c with None => true | Some _ => false end.

Section SslAead.
Context `{P : Platform}.

(** [dir] is true to seal. *)
Definition Create (t : tls_aeads) (dir : bool) (version : Z) (cipher : SSL_CIPHER) (enc_key mac_key fixed_iv : list Z) : option (option SSLAEADContext) :=
  match (protocol_version ← ssl_protocol_version_from_wire version; r ← ssl_cipher_get_evp_aead t cipher protocol_version; Some (protocol_version, r)) with
  | None => Some None
  | Some (protocol_version, (a, expected_mac_key_len, expected_fixed_iv_len)) =>
    if negb (expected_fixed_iv_len =? len fixed_iv) || negb (expected_mac_key_len =? len mac_key) then Some None else
    if negb (nonce_len a <=? EVP_AEAD_MAX_NONCE_LENGTH) then None else
    match (
      if len mac_key =? 0 then
        if (TLS1_3_VERSION <=? protocol_version) || match algorithm_enc cipher with SSL_CHACHA20POLY1305 => true | _ => false end then
          if len fixed_iv <? 8 then None else
          Some (enc_key, fixed_iv, 8, false, false, true, false, TLS1_3_VERSION <=? protocol_version)
        else
          if nonce_len a <? len fixed_iv then None else
          match algorithm_enc cipher with
          | SSL_AES128GCM | SSL_AES256GCM => Some (enc_key, fixed_iv, nonce_len a - len fixed_iv, true, false, false, false, false)
          | _ => None
          end
      else
        if TLS1_3_VERSION <=? protocol_version then None else
        if EVP_AEAD_MAX_KEY_LENGTH <? len mac_key + len enc_key + len fixed_iv then None else
        Some (mac_key ++ enc_key ++ fixed_iv, [], nonce_len a, true, true, false, true, false)) with
    | None => None
    | Some (key, fixed_nonce, variable_nonce_len, included, random, xor, omit_length, ad_is_header) =>
      match EVP_AEAD_CTX_init_with_direction a key 0 dir with
      | None => Some None
      | Some ctx => Some (Some (mk_ssl_aead (Some cipher) (Some ctx) fixed_nonce variable_nonce_len included random xor omit_length ad_is_header))
      end
    end
  end.

Definition ExplicitNonceLen (c : SSLAEADContext) : Z := if variable_nonce_included_in_record_ c then variable_nonce_len_ c else 0.

Definition SuffixLen (c : SSLAEADContext) (in_len extra_in_len : Z) : option (option Z) :=
  if is_null_cipher c then Some (Some extra_in_len) else
  ctx ← ctx_ c;
  EVP_AEAD_CTX_tag_len ctx in_len extra_in_len.

Definition CiphertextLen (c : SSLAEADContext) (in_len extra_in_len : Z) : option (option Z) :=
  r ← SuffixLen c in_len extra_in_len;
  match r with
  | None => Some None
  | Some n =>
    let n := wrap size_bits (n + ExplicitNonceLen c) in
    let n := wrap size_bits (n + in_len) in
    Some (if (n <? in_len) || (0xffff <=? n) then None else Some n)
  end.

Definition MaxOverhead (c : SSLAEADContext) : option Z :=
  if is_null_cipher c then Some (ExplicitNonceLen c) else
  ctx ← ctx_ c;
  Some (ExplicitNonceLen c + overhead (aead ctx)).

Definition block_size (e : enc_alg) : option Z := match e with SSL_AES128 | SSL_AES256 => Some 16 | SSL_3DES => Some 8 | _ => None end.

Definition MaxSealInputLen (c : SSLAEADContext) (max_out : Z) : option Z :=
  let explicit_nonce_len := ExplicitNonceLen c in
  if max_out <=? explicit_nonce_len then Some 0 else
  let max_out := max_out - explicit_nonce_len in
  match cipher_ c with
  | None => Some max_out
  | Some cipher =>
    ctx ← ctx_ c;
    let overhead := overhead (aead ctx) in
    '(max_out, overhead) ←
      (if SSL_CIPHER_is_block_cipher cipher then
         block_size ← block_size (algorithm_enc cipher);
         if negb (block_size <? overhead) then None else
         Some (Z.land max_out (wnot size_bits (block_size - 1)), overhead - (block_size - 1))
       else Some (max_out, overhead));
    Some (if max_out <=? overhead then 0 else max_out - overhead)
  end.

Definition GetAdditionalData (c : SSLAEADContext) (type record_version seqnum plaintext_len : Z) (header : list Z) : list Z :=
  if ad_is_header_ c then header else
  CRYPTO_store_u64_be seqnum ++ [type; u8 (Z.shiftr record_version 8); u8 record_version] ++
  (if negb (omit_length_in_ad_ c) then [u8 (Z.shiftr plaintext_len 8); u8 plaintext_len] else []).

(** The nonce with its variable part. *)
Definition assemble_nonce (c : SSLAEADContext) (variable : list Z) : option (list Z) :=
  let nonce := (if xor_fixed_nonce_ c then zero_bytes (len (fixed_nonce_ c) - variable_nonce_len_ c) else fixed_nonce_ c) ++ variable in
  if xor_fixed_nonce_ c then
    if negb (len nonce =? len (fixed_nonce_ c)) then None else Some (zip_with Z.lxor nonce (fixed_nonce_ c))
  else Some nonce.

(** [in_] is the address of the input, which is decrypted in place. *)
Definition Open (c : SSLAEADContext) (type record_version seqnum : Z) (header : list Z) (in_ : Z) (inp : list Z) : option (option (list Z)) :=
  if is_null_cipher c then Some (Some inp) else
  overhead ← MaxOverhead c;
  if negb (omit_length_in_ad_ c) && (len inp <? overhead) then Some None else
  let plaintext_len := if negb (omit_length_in_ad_ c) then len inp - overhead else 0 in
  let ad := GetAdditionalData c type record_version seqnum plaintext_len header in
  if variable_nonce_included_in_record_ c && (len inp <? variable_nonce_len_ c) then Some None else
  '(variable, in_, inp) ←
    (if variable_nonce_included_in_record_ c
     then Some (ztake (variable_nonce_len_ c) inp, in_ + variable_nonce_len_ c, zdrop (variable_nonce_len_ c) inp)
     else if negb (variable_nonce_len_ c =? 8) then None else Some (CRYPTO_store_u64_be seqnum, in_, inp));
  nonce ← assemble_nonce c variable;
  ctx ← ctx_ c;
  '(ok, out) ← EVP_AEAD_CTX_open ctx in_ (len inp) nonce in_ inp ad;
  Some (if (ok : bool) then Some out else None).

(** The addresses of the three outputs and of the input; [rand] is the answer of RAND_bytes. The
    result is what is written to the outputs. *)
Definition SealScatter (rand : Z -> option (list Z)) (c : SSLAEADContext) (out_prefix out out_suffix : Z) (type record_version seqnum : Z)
    (header : list Z) (in_ : Z) (inp extra_in : list Z) : option (option (list Z * list Z * list Z)) :=
  let prefix_len := ExplicitNonceLen c in
  r ← SuffixLen c (len inp) (len extra_in);
  match r with
  | None => Some None
  | Some suffix_len =>
    if (negb (in_ =? out) && buffers_alias in_ (len inp) out (len inp)) || buffers_alias in_ (len inp) out_prefix prefix_len ||
       buffers_alias in_ (len inp) out_suffix suffix_len then Some None else
    if is_null_cipher c then Some (Some ([], inp, extra_in)) else
    let ad := GetAdditionalData c type record_version seqnum (len inp) header in
    if random_variable_nonce_ c && negb (variable_nonce_included_in_record_ c) then None else
    if negb (random_variable_nonce_ c) && negb (variable_nonce_len_ c =? 8) then None else
    match (if random_variable_nonce_ c then rand (variable_nonce_len_ c) else Some (CRYPTO_store_u64_be seqnum)) with
    | None => Some None
    | Some variable =>
      if variable_nonce_included_in_record_ c && xor_fixed_nonce_ c then None else
      if variable_nonce_included_in_record_ c && buffers_alias in_ (len inp) out_prefix (variable_nonce_len_ c) then Some None else
      let prefix := if variable_nonce_included_in_record_ c then variable else [] in
      nonce ← assemble_nonce c variable;
      ctx ← ctx_ c;
      let '(result, (o, s)) := EVP_AEAD_CTX_seal_scatter ctx out out_suffix suffix_len nonce in_ inp extra_in ad in
      if negb (result : bool) then Some None else
      if negb (len s =? suffix_len) then None else Some (Some (prefix, o, s))
    end
  end.

Definition Seal (rand : Z -> option (list Z)) (c : SSLAEADContext) (out max_out_len type record_version seqnum : Z) (header : list Z) (in_ : Z) (inp : list Z)
    : option (option (list Z)) :=
  let prefix_len := ExplicitNonceLen c in
  r ← SuffixLen c (len inp) 0;
  match r with
  | None => Some None
  | Some suffix_len =>
    let n := wrap size_bits (len inp + prefix_len) in
    if (n <? len inp) || (wrap size_bits (n + suffix_len) <? n) then Some None else
    if max_out_len <? wrap size_bits (n + suffix_len) then Some None else
    r ← SealScatter rand c out (out + prefix_len) (out + prefix_len + len inp) type record_version seqnum header in_ inp [];
    Some (match r with Some (p, o, s) => Some (p ++ o ++ s) | None => None end)
  end.

(** ** Encryption of record numbers *)

(** The two encrypters; the AES one is given the block cipher with its key. *)
Inductive RecordNumberEncrypter := AESRecordNumberEncrypter (AES_encrypt : list Z -> list Z) | ChaChaRecordNumberEncrypter (key_ : list Z).

Definition GenerateMask (e : RecordNumberEncrypter) (out_len : Z) (sample : list Z) : option (list Z) :=
  match e with
  | AESRecordNumberEncrypter AES_encrypt =>
    if (len sample <? 16) || (16 <? out_len) then None else Some (ztake out_len (AES_encrypt (ztake 16 sample)))
  | ChaChaRecordNumberEncrypter key_ =>
    if len sample <? 16 then None else
    Some (CRYPTO_chacha_20 (zero_bytes out_len) key_ (ztake 12 (zdrop 4 sample)) (CRYPTO_load_u32_le sample))
  end.

End SslAead.
