(* ===== verification/SslAeadProofs.v ===== *)
(** What is sealed in a TLS encryption context is opened by the context for the same key, whatever the
    kind of cipher; and the lengths the context announces. *)
From S2P Require Import Prelude.
From S2P Require Import Internal.
From S2P Require Import ChaCha.
From S2P Require Import Aead.
From S2P Require Import ChaChaPoly.
From S2P Require Import DtlsState.
From S2P Require Import SslAead.

Open Scope Z_scope.

Section Proofs.
Context `{P : Platform}.

(** How the nonce is made: of [n] bytes, by an exclusive or with the sequence number, or with an
    explicit part in the record. *)
Definition nonce_shape (c : SSLAEADContext) (n : Z) : Prop :=
  bytes (fixed_nonce_ c) /\ 0 <= variable_nonce_len_ c /\ n <= EVP_AEAD_MAX_NONCE_LENGTH /\
  if xor_fixed_nonce_ c
  then variable_nonce_included_in_record_ c = false /\ random_variable_nonce_ c = false /\ variable_nonce_len_ c = 8 /\
       8 <= len (fixed_nonce_ c) /\ len (fixed_nonce_ c) = n
  else variable_nonce_included_in_record_ c = true /\ len (fixed_nonce_ c) + variable_nonce_len_ c = n /\
       (random_variable_nonce_ c = false -> variable_nonce_len_ c = 8).

(** The length is left out of the additional data for the block ciphers, whose ciphertext is the next
    whole number of blocks; the other ciphers have a fixed overhead. *)
Definition length_shape (c : SSLAEADContext) (cipher : SSL_CIPHER) (ctx : EVP_AEAD_CTX) : Prop :=
  omit_length_in_ad_ c = SSL_CIPHER_is_block_cipher cipher /\
  if SSL_CIPHER_is_block_cipher cipher
  then exists b, block_size (algorithm_enc cipher) = Some b /\ b < overhead (aead ctx) /\
         forall n t, 0 <= n < 2 ^ 17 -> EVP_AEAD_CTX_tag_len ctx n 0 = Some (Some t) -> (b | n + t) /\ overhead (aead ctx) - b < t
  else forall n e t, EVP_AEAD_CTX_tag_len ctx n e = Some (Some t) -> t = e + overhead (aead ctx).

(** Two contexts with the same key: one to seal and one to open. *)
Inductive ssl_pair : SSLAEADContext -> SSLAEADContext -> Prop :=
| pair_null : ssl_pair CreateNullCipher CreateNullCipher
| pair_cipher cipher cs co fixed n included random xor omit_length ad_is_header :
  let s := mk_ssl_aead (Some cipher) (Some cs) fixed n included random xor omit_length ad_is_header in
  AeadPair cs co -> nonce_shape s (nonce_len (aead cs)) -> length_shape s cipher cs ->
  ssl_pair s (mk_ssl_aead (Some cipher) (Some co) fixed n included random xor omit_length ad_is_header).

(** The inputs a context takes: an extra byte only where the additional data is the header. *)
Definition takes_extra (c : SSLAEADContext) (extra : list Z) : Prop :=
  extra = [] \/ is_null_cipher c = true \/ (ad_is_header_ c = true /\ match ctx_ c with Some x => seal_scatter_supports_extra_in (aead x) | None => false end = true).

Lemma store_u64 v : bytes (CRYPTO_store_u64_be v) /\ len (CRYPTO_store_u64_be v) = 8.
Proof. split; [apply bytes_le_bytes|apply len_le_bytes]. Qed.

Lemma len_zero_fill n : 0 <= n -> len (zero_bytes n) = n.
Proof. intros Hn. unfold len, zero_bytes. rewrite repeat_length. lia. Qed.
Lemma bytes_zero_bytes n : bytes (zero_bytes n).
Proof. unfold zero_bytes. induction (Z.to_nat n); cbn; constructor; [unfold is_byte; lia|done]. Qed.

Lemma bytes_zip_lxor a b : bytes a -> bytes b -> bytes (zip_with Z.lxor a b).
Proof.
  intros Ha. revert b. induction Ha as [|x a Hx _ IH]; intros [|y b] Hb; cbn; try constructor.
  - apply bytes_cons in Hb as [Hy _]. unfold is_byte in *. change 256 with (2 ^ 8) in *. apply lxor_range; lia.
  - apply bytes_cons in Hb as [_ Hb]. by apply IH.
Qed.

Lemma assemble_nonce_ok c n v : nonce_shape c n -> bytes v -> len v = variable_nonce_len_ c ->
  exists nonce, assemble_nonce c v = Some nonce /\ bytes nonce /\ len nonce = n.
Proof.
  intros (Hf & Hv & _ & H) Hb Hl. unfold assemble_nonce. destruct (xor_fixed_nonce_ c).
  - destruct H as (_ & _ & E8 & H8 & En). rewrite len_app, len_zero_fill, Hl by lia. replace (len (fixed_nonce_ c) - variable_nonce_len_ c + variable_nonce_len_ c) with (len (fixed_nonce_ c)) by lia.
    rewrite Z.eqb_refl. cbn [negb]. eexists. split; [done|]. split.
    + apply bytes_zip_lxor; [|done]. apply bytes_app. split; [apply bytes_zero_bytes|done].
    + rewrite <- En. unfold len in *. rewrite length_zip_with, length_app. unfold zero_bytes. rewrite repeat_length. lia.
  - destruct H as (_ & En & _). eexists. split; [done|]. split; [by apply bytes_app|]. rewrite len_app. lia.
Qed.

Lemma additional_data_ok c type version seqnum n header : is_byte type -> bytes header -> len header < 2 ^ 17 ->
  bytes (GetAdditionalData c type version seqnum n header) /\ len (GetAdditionalData c type version seqnum n header) < 2 ^ 17.
Proof.
  intros Ht Hh Lh. unfold GetAdditionalData. destruct (ad_is_header_ c); [done|]. destruct (store_u64 seqnum) as [Hb L]. split.
  - apply bytes_app. split; [done|]. destruct (negb _); repeat (constructor; [first [done|apply byte_wrap8]|]); constructor.
  - rewrite !len_app, L. destruct (negb _); done.
Qed.

(** The length of the sealed record. *)
Lemma suffix_len_ok s o n extra : ssl_pair s o -> 0 <= n < 2 ^ 17 -> len extra <= 1 -> takes_extra s extra ->
  exists t, SuffixLen s n (len extra) = Some (Some t) /\ len extra <= t <= len extra + 255 /\
    (is_null_cipher s = false -> t <= len extra + match ctx_ s with Some x => overhead (aead x) | None => 0 end) /\
    (is_null_cipher s = true -> t = len extra).
Proof.
  intros Hp Hn He Hx. pose proof (len_nonneg extra). unfold SuffixLen. destruct Hp as [|cipher cs co fixed m included random xor omit_length ad_is_header s Hp Hs Hl].
  - cbn. exists (len extra). split; [done|]. split; [lia|done].
  - cbn [is_null_cipher cipher_ s ctx_ mbind option_bind] in *. destruct (pair_tag_len n (len extra) Hn ltac:(lia)) as (t & E & Ht).
    { destruct Hx as [->|[Hx|[_ Hx]]]; [by right|done|by left]. }
    pose proof (pair_overhead (seal := cs)). exists t. split; [done|]. split; [lia|]. split; [lia|done].
Qed.

Lemma explicit_len s o : ssl_pair s o -> 0 <= ExplicitNonceLen s <= 24 /\ ExplicitNonceLen o = ExplicitNonceLen s.
Proof.
  intros [|cipher cs co fixed m included random xor omit_length ad_is_header s' Hp Hs Hl]; [done|]. split; [|done]. unfold ExplicitNonceLen, s'. cbn.
  destruct Hs as (Hf & Hv & Hm & H). cbn in *. unfold EVP_AEAD_MAX_NONCE_LENGTH in Hm. destruct xor; destruct H as (-> & H); [lia|]. pose proof (len_nonneg fixed). lia.
Qed.

Lemma ciphertext_len_spec s o n extra : ssl_pair s o -> 0 <= n < 2 ^ 17 -> len extra <= 1 -> takes_extra s extra ->
  exists t, SuffixLen s n (len extra) = Some (Some t) /\ len extra <= t <= len extra + 255 /\
    let total := ExplicitNonceLen s + n + t in CiphertextLen s n (len extra) = Some (if 0xffff <=? total then None else Some total).
Proof.
  intros Hp Hn He Hx. destruct (suffix_len_ok s o n extra Hp Hn He Hx) as (t & E & Ht & _). destruct (explicit_len s o Hp) as [Hel _]. exists t.
  split; [done|]. split; [done|]. cbv zeta. unfold CiphertextLen. rewrite E. cbn [mbind option_bind]. pose proof (len_nonneg extra).
  assert (S20 : 2 ^ 20 < 2 ^ size_bits) by (platform; lia).
  rewrite (wrap_small size_bits (t + ExplicitNonceLen s)) by lia. rewrite (wrap_small size_bits) by lia. destruct (Z.ltb_spec (t + ExplicitNonceLen s + n) n); [lia|]. cbn [orb].
  replace (t + ExplicitNonceLen s + n) with (ExplicitNonceLen s + n + t) by lia. done.
Qed.

(** Buffers that do not overlap, except that the input may be the output. *)
Definition seal_buffers (in_ out_prefix out out_suffix n prefix_len suffix_len : Z) : Prop :=
  (in_ = out \/ buffers_alias in_ n out n = false) /\ buffers_alias in_ n out_prefix prefix_len = false /\
  buffers_alias in_ n out_suffix suffix_len = false /\ buffers_alias out n out_suffix suffix_len = false.

(** The source of random bytes works. *)
Definition rand_ok (rand : Z -> option (list Z)) : Prop := forall n, 0 <= n -> exists r, rand n = Some r /\ bytes r /\ len r = n.

(** The variable part of the nonce. *)
Lemma variable_part rand s n seqnum : rand_ok rand -> nonce_shape s n ->
  (random_variable_nonce_ s && negb (variable_nonce_included_in_record_ s) = false) /\
  (negb (random_variable_nonce_ s) && negb (variable_nonce_len_ s =? 8) = false) /\
  (variable_nonce_included_in_record_ s && xor_fixed_nonce_ s = false) /\
  exists v, (if random_variable_nonce_ s then rand (variable_nonce_len_ s) else Some (CRYPTO_store_u64_be seqnum)) = Some v /\
    bytes v /\ len v = variable_nonce_len_ s /\
    (variable_nonce_included_in_record_ s = false -> variable_nonce_len_ s = 8 /\ v = CRYPTO_store_u64_be seqnum).
Proof.
  intros Hr (Hf & Hv & _ & H). destruct (store_u64 seqnum) as [Sb Sl]. destruct (xor_fixed_nonce_ s).
  - destruct H as (-> & -> & -> & _). repeat split. exists (CRYPTO_store_u64_be seqnum). done.
  - destruct H as (-> & _ & H8). rewrite andb_false_r. split; [done|]. destruct (random_variable_nonce_ s); cbn [negb andb].
    + repeat split. destruct (Hr _ Hv) as (v & E & Vb & Vl). exists v. done.
    + rewrite H8 by done. repeat split. exists (CRYPTO_store_u64_be seqnum). done.
Qed.

(** Clearing the low bits of a length rounds it down to a whole number of blocks. *)
Lemma round_down_block e b m : block_size e = Some b -> 0 <= m < 2 ^ 17 -> Z.land m (wnot size_bits (b - 1)) = b * (m / b).
Proof.
  intros Eb Hm. assert (exists k, 0 <= k < 5 /\ b = 2 ^ k) as (k & Hk & ->) by (destruct e; inversion Eb; [by exists 3|by exists 4|by exists 4]).
  assert (E : Z.land m (wnot size_bits (2 ^ k - 1)) = Z.ldiff m (Z.ones k)).
  { apply Z.bits_inj'. intros j Hj. unfold wnot. rewrite Z.land_spec, Z.ldiff_spec, Z.ones_equiv, <- Z.sub_1_r. 
    destruct (Z.ltb_spec j 17).
    - assert (j < size_bits) by (platform; lia). rewrite wrap_testbit, Z.lnot_spec by lia. destruct (Z.ltb_spec j size_bits); [by cbn|lia].
    - rewrite (testbit_small 17 m j) by lia. done. }
  rewrite E, Z.ldiff_ones_r, Z.shiftl_mul_pow2, Z.shiftr_div_pow2 by lia. lia.
Qed.

Lemma next_block_fits b n t ov m : 0 < b -> (b | n + t) -> ov - b < t <= ov -> b < ov ->
  n + (ov - (b - 1)) <= b * (m / b) <-> n + t <= m.
Proof.
  intros Hb [q Eq] Ht Hov. pose proof (Z.div_mod m b ltac:(lia)) as Em. pose proof (Z.mod_pos_bound m b Hb) as Hmb. set (d := m / b) in *. split; intros H.
  - assert (q <= d) by nia. nia.
  - assert (q <= d) by nia. nia.
Qed.

(** MaxSealInputLen is exact, the padding of the block ciphers included. *)
Lemma max_seal_input s o max_out : ssl_pair s o -> 0 <= max_out < 0xffff -> exists n, MaxSealInputLen s max_out = Some n /\ 0 <= n <= max_out /\
  forall m, 0 < m < 2 ^ 16 -> (m <= n <-> exists total, CiphertextLen s m 0 = Some (Some total) /\ total <= max_out).
Proof.
  intros Hp Hm. pose proof (explicit_len s o Hp) as [He _].
  assert (K : forall n, (forall m t, 0 < m < 2 ^ 16 -> SuffixLen s m 0 = Some (Some t) -> 0 <= t -> (m <= n <-> ExplicitNonceLen s + m + t <= max_out)) ->
    forall m, 0 < m < 2 ^ 16 -> (m <= n <-> exists total, CiphertextLen s m 0 = Some (Some total) /\ total <= max_out)).
  { intros n Hn m Hmm. destruct (ciphertext_len_spec s o m [] Hp ltac:(lia) ltac:(done) ltac:(by left)) as (t & Et & Ht & Ec). rewrite len_nil in *. cbv zeta in Ec.
    rewrite (Hn m t Hmm Et) by lia. rewrite Ec. destruct (Z.leb_spec 0xffff (ExplicitNonceLen s + m + t)); split.
    - lia.
    - by intros (? & ? & _).
    - intros H1. by exists (ExplicitNonceLen s + m + t).
    - intros (? & [= <-] & H1). done. }
  unfold MaxSealInputLen. destruct (Z.leb_spec max_out (ExplicitNonceLen s)) as [Hle|Hle].
  { exists 0. split; [done|]. split; [lia|]. apply K. lia. }
  destruct Hp as [|cipher cs co fixed k included random xor omit_length ad_is_header s Hp Hs Hl].
  { eexists. split; [done|]. change (ExplicitNonceLen CreateNullCipher) with 0. split; [lia|]. apply K. intros m t Hmm [= <-] _. change (ExplicitNonceLen CreateNullCipher) with 0. lia. }
  pose proof (pair_overhead (seal := cs)) as Ho. change (cipher_ s) with (Some cipher). change (ctx_ s) with (Some cs). cbn [mbind option_bind]. set (max' := max_out - ExplicitNonceLen s). destruct Hl as [_ Hl].
  assert (Hmax' : 0 < max' <= max_out) by (unfold max'; lia).
  destruct (SSL_CIPHER_is_block_cipher cipher).
  - destruct Hl as (b & Eb & Hb & Hl). rewrite Eb. cbn [mbind option_bind]. destruct (Z.ltb_spec b (overhead (aead cs))); [|lia]. cbn [negb mbind option_bind].
    rewrite (round_down_block (algorithm_enc cipher) b max' Eb) by (change (2 ^ 17) with 131072; lia). assert (0 < b) by (destruct (algorithm_enc cipher); inversion Eb; lia).
    assert (0 <= b * (max' / b) <= max') by (split; [apply Z.mul_nonneg_nonneg; [lia|apply Z.div_pos; lia]|apply Z.mul_div_le; lia]).
    eexists. split; [done|]. split; [destruct (Z.leb_spec (b * (max' / b)) (overhead (aead cs) - (b - 1))); lia|]. apply K. intros m t Hmm Et Ht. destruct (Hl m t ltac:(lia) Et) as [Hd Hlo].
    destruct (pair_tag_len (seal := cs) m 0 ltac:(lia) ltac:(lia) ltac:(by right)) as (t' & Et' & Ht'). change (SuffixLen s m 0) with (EVP_AEAD_CTX_tag_len cs m 0) in Et.
    rewrite Et in Et'. injection Et' as <-. pose proof (next_block_fits b m t (overhead (aead cs)) max' ltac:(done) Hd ltac:(lia) Hb) as Hf.
    transitivity (m + t <= max'); [|unfold max'; lia]. rewrite <- Hf. destruct (Z.leb_spec (b * (max' / b)) (overhead (aead cs) - (b - 1))); lia.
  - cbn [mbind option_bind]. eexists. split; [done|]. split; [destruct (Z.leb_spec max' (overhead (aead cs))); lia|]. apply K. intros m t Hmm Et Ht. rewrite (Hl _ _ _ Et).
    destruct (Z.leb_spec max' (overhead (aead cs))); unfold max' in *; lia.
Qed.

Section Seal.
Context (rand : Z -> option (list Z)) (Hrand : rand_ok rand) (type version seqnum : Z) (header inp extra : list Z).
Context (Ht : is_byte type) (Hh : bytes header) (Lh : len header < 2 ^ 17) (Hi : bytes inp) (He : bytes extra) (Li : len inp < 2 ^ 17) (Le : len extra <= 1).

(** The additional data of a record is the same when it is sealed and opened. *)
Lemma same_additional_data s o cs co : ssl_pair s o -> ctx_ s = Some cs -> ctx_ o = Some co -> takes_extra s extra -> is_null_cipher s = false ->
  forall t, EVP_AEAD_CTX_tag_len cs (len inp) (len extra) = Some (Some t) ->
  exists overhead, MaxOverhead o = Some overhead /\
    (omit_length_in_ad_ s = false -> ExplicitNonceLen s + len inp + t = overhead + len inp + len extra) /\
    forall n, (omit_length_in_ad_ s = false -> n = len inp + len extra) ->
      GetAdditionalData o type version seqnum n header = GetAdditionalData s type version seqnum (len inp) header.
Proof.
  intros Hp Es Eo Hx Hnull t Et. destruct Hp as [|cipher cs' co' fixed m included random xor omit_length ad_is_header s Hp Hs Hl]; [done|].
  injection Es as ->. injection Eo as ->. subst s. unfold MaxOverhead, ExplicitNonceLen. cbn [is_null_cipher cipher_ ctx_ mbind option_bind omit_length_in_ad_].
  eexists. split; [done|]. destruct Hl as [Eo Hl]. cbn in Eo. split.
  - intros Eol. rewrite Eol in Eo. rewrite <- Eo in Hl. rewrite (pair_aead (seal := cs)), (Hl _ _ _ Et). cbn. lia.
  - intros n Hn. unfold GetAdditionalData. cbn in *. destruct ad_is_header; [done|]. destruct omit_length; [done|].
    destruct Hx as [-> |[Hx|[Hx _]]]; [|done|done]. rewrite Hn by done. rewrite len_nil. by rewrite Z.add_0_r.
Qed.

(** The receiver finds the nonce the sender used. *)
Lemma open_finds_nonce s co ov c tg v nonce ad i2 :
  let o := mk_ssl_aead (cipher_ s) (Some co) (fixed_nonce_ s) (variable_nonce_len_ s) (variable_nonce_included_in_record_ s) (random_variable_nonce_ s)
    (xor_fixed_nonce_ s) (omit_length_in_ad_ s) (ad_is_header_ s) in
  let r := (if variable_nonce_included_in_record_ s then v else []) ++ c ++ tg in
  is_null_cipher s = false -> MaxOverhead o = Some ov ->
  (omit_length_in_ad_ s = false -> len r = ov + len inp + len extra) ->
  (forall n, (omit_length_in_ad_ s = false -> n = len inp + len extra) -> GetAdditionalData o type version seqnum n header = ad) ->
  len v = variable_nonce_len_ s -> (variable_nonce_included_in_record_ s = false -> variable_nonce_len_ s = 8 /\ v = CRYPTO_store_u64_be seqnum) ->
  assemble_nonce s v = Some nonce -> (forall in_, EVP_AEAD_CTX_open co in_ (len (c ++ tg)) nonce in_ (c ++ tg) ad = Some (true, inp ++ extra)) ->
  Open o type version seqnum header i2 r = Some (Some (inp ++ extra)).
Proof.
  intros o r Hnull EM Elen Ead Lv Hv En Hopen. pose proof (len_nonneg inp). pose proof (len_nonneg extra). unfold Open. change (is_null_cipher o) with (is_null_cipher s). rewrite Hnull, EM. cbn [mbind option_bind].
  change (omit_length_in_ad_ o) with (omit_length_in_ad_ s). assert (E1 : negb (omit_length_in_ad_ s) && (len r <? ov) = false).
  { destruct (omit_length_in_ad_ s); [done|]. cbn. rewrite Elen by done. lia. }
  rewrite E1, Ead by (intros Eo; rewrite Eo; cbn; rewrite Elen by done; lia).
  change (assemble_nonce o) with (assemble_nonce s). subst o. cbn [variable_nonce_included_in_record_ variable_nonce_len_ ctx_]. subst r. destruct (variable_nonce_included_in_record_ s); cbn [andb].
  - pose proof (len_nonneg (c ++ tg)). rewrite len_app. destruct (Z.ltb_spec (len v + len (c ++ tg)) (variable_nonce_len_ s)); [lia|].
    rewrite <- Lv, ztake_app_len, zdrop_app_len. cbn [mbind option_bind]. rewrite En. cbn [mbind option_bind]. by rewrite Hopen.
  - destruct (Hv eq_refl) as [-> ->]. change (negb (8 =? 8)) with false. cbn [mbind option_bind app]. rewrite En. cbn [mbind option_bind]. by rewrite Hopen.
Qed.

Lemma seal_then_open s o in_ out_prefix out out_suffix : ssl_pair s o -> takes_extra s extra ->
  (forall t, SuffixLen s (len inp) (len extra) = Some (Some t) -> seal_buffers in_ out_prefix out out_suffix (len inp) (ExplicitNonceLen s) t) ->
  exists p c t, SealScatter rand s out_prefix out out_suffix type version seqnum header in_ inp extra = Some (Some (p, c, t)) /\
    len p = ExplicitNonceLen s /\ len c = len inp /\ SuffixLen s (len inp) (len extra) = Some (Some (len t)) /\ bytes (p ++ c ++ t) /\
    forall in_, Open o type version seqnum header in_ (p ++ c ++ t) = Some (Some (inp ++ extra)).
Proof.
  intros Hp Hx Hbuf. pose proof (len_nonneg inp) as Pi. pose proof (len_nonneg extra) as Pe. destruct (suffix_len_ok s o (len inp) extra Hp ltac:(lia) Le Hx) as (t & Et & Htb & _ & Hnull).
  destruct (Hbuf t Et) as (A1 & A2 & A3 & A4).
  assert (Ea : (negb (in_ =? out) && buffers_alias in_ (len inp) out (len inp)) || buffers_alias in_ (len inp) out_prefix (ExplicitNonceLen s) ||
    buffers_alias in_ (len inp) out_suffix t = false).
  { rewrite A2, A3, !orb_false_r. destruct A1 as [-> | ->]; [by rewrite Z.eqb_refl|apply andb_false_r]. }
  unfold SealScatter. rewrite Et. cbn [mbind option_bind]. rewrite Ea. pose proof Hp as Hp0.
  destruct Hp as [|cipher cs co fixed m included random xor omit_length ad_is_header s Hp Hs Hl].
  { cbn [is_null_cipher CreateNullCipher cipher_]. specialize (Hnull eq_refl). subst t. exists [], inp, extra. do 4 (split; [done|]). split; [change (bytes (inp ++ extra)); by apply bytes_app|done]. }
  assert (Hnn : is_null_cipher s = false) by done. rewrite Hnn. pose proof Et as Et'. unfold SuffixLen in Et'. rewrite Hnn in Et'. cbn [s ctx_ mbind option_bind] in Et'.
  destruct (variable_part rand s _ seqnum Hrand Hs) as (-> & -> & -> & v & -> & Vb & Vl & Vs). 
  assert (Ev : variable_nonce_included_in_record_ s && buffers_alias in_ (len inp) out_prefix (variable_nonce_len_ s) = false).
  { unfold ExplicitNonceLen in A2. destruct (variable_nonce_included_in_record_ s); [done|done]. }
  rewrite Ev. destruct (assemble_nonce_ok s _ v Hs Vb Vl) as (nonce & En & Nb & Nl). rewrite En. cbn [s ctx_ mbind option_bind].
  set (ad := GetAdditionalData _ type version seqnum (len inp) header). destruct (additional_data_ok s type version seqnum (len inp) header Ht Hh Lh) as [Ab Al].
  fold ad in Ab, Al. assert (Hsx : seal_scatter_supports_extra_in (aead cs) = true \/ extra = []) by (destruct Hx as [->|[Hx|[_ Hx]]]; [by right|done|by left]).
  destruct (pair_seal (seal := cs) nonce inp extra ad t t) as (c & tg & Eseal & Lc & Lt & Cb & Tb & Hopen); try done; try lia.
  assert (Eevp : EVP_AEAD_CTX_seal_scatter cs out out_suffix t nonce in_ inp extra ad = (true, (c, tg))).
  { unfold EVP_AEAD_CTX_seal_scatter. rewrite A3, A4, orb_false_r, orb_false_r. assert (Ec : check_alias in_ (len inp) out (len inp) = true).
    { destruct A1 as [-> |A1]; [apply check_alias_same|]. unfold check_alias. by rewrite A1. }
    rewrite Ec. cbn [negb]. destruct Hsx as [-> | ->]; cbn [negb andb]; [by rewrite Eseal|]. rewrite len_nil in *. rewrite andb_false_r. by rewrite Eseal. }
  rewrite Eevp. cbn [negb]. rewrite Lt, Z.eqb_refl. cbn [negb].
  exists (if variable_nonce_included_in_record_ s then v else []), c, tg. split; [done|].
  assert (Lp : len (if variable_nonce_included_in_record_ s then v else []) = ExplicitNonceLen s) by (unfold ExplicitNonceLen; destruct (variable_nonce_included_in_record_ s); [done|done]).
  split; [done|]. split; [done|]. split; [by rewrite Lt|]. split.
  { apply bytes_app. split; [destruct (variable_nonce_included_in_record_ s); [done|constructor]|by apply bytes_app]. }
  intros i2. destruct (same_additional_data s _ cs co Hp0 eq_refl eq_refl Hx Hnn t Et') as (ov & EM & Eov & Ead).
  apply (open_finds_nonce s co ov c tg v nonce ad i2); try done. intros Eol. rewrite !len_app, Lp, Lc, Lt. pose proof (Eov Eol). lia.
Qed.
End Seal.

(** What is asked of the algorithm of a cipher suite: that opening undoes sealing, the nonce length of
    the AEAD suites, and how much longer the ciphertext is. *)
Definition suite_law (cipher : SSL_CIPHER) (cs co : EVP_AEAD_CTX) : Prop :=
  AeadPair cs co /\ 0 <= nonce_len (aead cs) /\ (algorithm_mac cipher = SSL_AEAD -> nonce_len (aead cs) = 12) /\
  if SSL_CIPHER_is_block_cipher cipher
  then exists b, block_size (algorithm_enc cipher) = Some b /\ b < overhead (aead cs) /\
         forall n t, 0 <= n < 2 ^ 17 -> EVP_AEAD_CTX_tag_len cs n 0 = Some (Some t) -> (b | n + t) /\ overhead (aead cs) - b < t
  else forall n e t, EVP_AEAD_CTX_tag_len cs n e = Some (Some t) -> t = e + overhead (aead cs).

(** The contexts of the two ends of a connection, as they are created. *)
Definition created_pair (s o : SSLAEADContext) : Prop :=
  (s = CreateNullCipher /\ o = CreateNullCipher) \/
  exists t version cipher enc_key mac_key fixed_iv cs co, bytes fixed_iv /\
    Create t true version cipher enc_key mac_key fixed_iv = Some (Some s) /\ Create t false version cipher enc_key mac_key fixed_iv = Some (Some o) /\
    ctx_ s = Some cs /\ ctx_ o = Some co /\ suite_law cipher cs co.

Lemma init_aead a key n dir ctx : EVP_AEAD_CTX_init_with_direction a key n dir = Some ctx -> aead ctx = a.
Proof.
  unfold EVP_AEAD_CTX_init_with_direction. destruct (negb _); [done|]. destruct (match aead_init a with Some _ => _ | None => _ end) as [[st m]|]; [|done]. by intros [= <-].
Qed.

Lemma suite_lengths t cipher pv a mk fk : ssl_cipher_get_evp_aead t cipher pv = Some (a, mk, fk) ->
  if SSL_CIPHER_is_block_cipher cipher then mk <> 0 else
  mk = 0 /\ algorithm_mac cipher = SSL_AEAD /\
  fk = if TLS1_3_VERSION <=? pv then nonce_len a else match algorithm_enc cipher with SSL_CHACHA20POLY1305 => 12 | _ => 4 end.
Proof.
  unfold ssl_cipher_get_evp_aead, SSL_CIPHER_is_block_cipher. destruct cipher as [[] []]; cbn [algorithm_enc algorithm_mac mbind option_bind]; try done;
  try (destruct (pv =? TLS1_VERSION); by intros [= _ <- _]); try (by intros [= _ <- _]); intros [= <- <- <-]; done.
Qed.

Lemma created_ssl_pair s o : created_pair s o -> ssl_pair s o.
Proof.
  intros [[-> ->]|(t & version & cipher & enc_key & mac_key & iv & cs & co & Hiv & Es & Eo & Cs & Co & Hp & N0 & N12 & Hl)]; [constructor|].
  unfold Create in Es, Eo. destruct (ssl_protocol_version_from_wire version) as [pv|]; [|done]. cbn [mbind option_bind] in Es, Eo.
  destruct (ssl_cipher_get_evp_aead t cipher pv) as [[[a mk] fk]|] eqn:Ea; [|done]. cbn [mbind option_bind] in Es, Eo.
  destruct (Z.eqb_spec fk (len iv)) as [Efk|]; [|done]. destruct (Z.eqb_spec mk (len mac_key)) as [Emk|]; [|done]. cbn [negb orb] in Es, Eo.
  destruct (Z.leb_spec (nonce_len a) EVP_AEAD_MAX_NONCE_LENGTH) as [Hnl|]; [|done]. cbn [negb] in Es, Eo.
  pose proof (suite_lengths _ _ _ _ _ _ Ea) as Hs. assert (Ha : a = aead cs).
  { match type of Es with match ?x with _ => _ end = _ => destruct x as [[[[[[[[]]]]]]]|]; [|done] end.
    destruct (EVP_AEAD_CTX_init_with_direction _ _ _ true) as [ctx|] eqn:Ei; [|done]. injection Es as <-. cbn in Cs. injection Cs as <-. by rewrite (init_aead _ _ _ _ _ Ei). }
  subst a mk fk. unfold EVP_AEAD_MAX_NONCE_LENGTH in Hnl.
  assert (Hmake : forall key fixed n included random xor omit h,
    match EVP_AEAD_CTX_init_with_direction (aead cs) key 0 true with
    | None => Some None | Some ctx => Some (Some (mk_ssl_aead (Some cipher) (Some ctx) fixed n included random xor omit h)) end = Some (Some s) ->
    match EVP_AEAD_CTX_init_with_direction (aead cs) key 0 false with
    | None => Some None | Some ctx => Some (Some (mk_ssl_aead (Some cipher) (Some ctx) fixed n included random xor omit h)) end = Some (Some o) ->
    nonce_shape (mk_ssl_aead (Some cipher) (Some cs) fixed n included random xor omit h) (nonce_len (aead cs)) ->
    omit = SSL_CIPHER_is_block_cipher cipher -> ssl_pair s o).
  { intros key fixed n included random xor omit h E1 E2 Hns Hom. destruct (EVP_AEAD_CTX_init_with_direction _ _ _ true) as [c1|]; [|done].
    destruct (EVP_AEAD_CTX_init_with_direction _ _ _ false) as [c2|]; [|done]. injection E1 as <-. injection E2 as <-. cbn in Cs, Co. injection Cs as ->. injection Co as ->.
    constructor; [done|done|]. split; [done|exact Hl]. }
  pose proof (len_nonneg iv). destruct (SSL_CIPHER_is_block_cipher cipher) eqn:Eb.
  - destruct (Z.eqb_spec (len mac_key) 0); [done|]. destruct (TLS1_3_VERSION <=? pv); [done|]. destruct (EVP_AEAD_MAX_KEY_LENGTH <? _); [done|].
    apply (Hmake _ _ _ _ _ _ _ _ Es Eo); [|done]. split; [constructor|]. cbn. unfold EVP_AEAD_MAX_NONCE_LENGTH. split_and!; done || lia.
  - destruct Hs as (E0 & Em & Hf). specialize (N12 Em). rewrite E0, Z.eqb_refl in Es, Eo.
    destruct ((TLS1_3_VERSION <=? pv) || match algorithm_enc cipher with SSL_CHACHA20POLY1305 => true | _ => false end) eqn:Ex.
    + destruct (Z.ltb_spec (len iv) 8); [done|]. apply (Hmake _ _ _ _ _ _ _ _ Es Eo); [|done]. split; [done|]. cbn. unfold EVP_AEAD_MAX_NONCE_LENGTH.
      assert (len iv = nonce_len (aead cs)) by (rewrite Hf; destruct (TLS1_3_VERSION <=? pv); [done|]; cbn in Ex; destruct (algorithm_enc cipher); done || lia). split_and!; done || lia.
    + destruct (Z.ltb_spec (nonce_len (aead cs)) (len iv)); [done|]. assert (len iv = 4) by (rewrite Hf; destruct (TLS1_3_VERSION <=? pv); [done|]; destruct (algorithm_enc cipher); done).
      destruct (algorithm_enc cipher); try done; (apply (Hmake _ _ _ _ _ _ _ _ Es Eo); [|done]; split; [done|]; cbn; unfold EVP_AEAD_MAX_NONCE_LENGTH; split_and!; done || lia).
Qed.


(** ChaCha20-Poly1305 keeps the law. *)
Lemma chacha_suite asm key : asm_ok asm -> bytes key -> len key = 32 ->
  let c := mk_aead_ctx (aead_chacha20_poly1305 asm) key 16 in suite_law (mk_cipher SSL_CHACHA20POLY1305 SSL_AEAD) c c.
Proof.
  intros Ha Hk Lk c. split; [by apply chacha_aead_pair|]. split; [done|]. split; [done|]. cbn [SSL_CIPHER_is_block_cipher algorithm_mac]. intros n e t.
  unfold EVP_AEAD_CTX_tag_len, c. cbn [aead tag_len state seal_scatter_supports_extra_in aead_chacha20_poly1305 aead_tag_len orb negb]. destruct (_ <? _); [done|]. by intros [= <-].
Qed.

(** The algorithms with ChaCha20-Poly1305 in the place of each. *)
Definition all_chacha asm : tls_aeads :=
  let c := aead_chacha20_poly1305 asm in mk_tls_aeads c c c c c c c c c c c c.

Lemma chacha_created asm version key iv : asm_ok asm -> bytes key -> len key = 32 -> bytes iv -> len iv = 12 -> version = DTLS1_2_VERSION \/ version = DTLS1_3_VERSION ->
  let c := mk_ssl_aead (Some (mk_cipher SSL_CHACHA20POLY1305 SSL_AEAD)) (Some (mk_aead_ctx (aead_chacha20_poly1305 asm) key 16)) iv 8 false false true false (version =? DTLS1_3_VERSION) in
  created_pair c c.
Proof.
  intros Ha Hk Lk Hi Li Hv c. right. exists (all_chacha asm), version, (mk_cipher SSL_CHACHA20POLY1305 SSL_AEAD), key, [], iv.
  assert (E : forall dir, Create (all_chacha asm) dir version (mk_cipher SSL_CHACHA20POLY1305 SSL_AEAD) key [] iv = Some (Some c)).
  { intros dir. unfold Create, c. destruct Hv as [-> | ->]; cbn [ssl_protocol_version_from_wire mbind option_bind ssl_cipher_get_evp_aead algorithm_mac algorithm_enc all_chacha EVP_aead_chacha20_poly1305].
    all: cbn -[len EVP_AEAD_CTX_init_with_direction]; rewrite Li; cbn -[len EVP_AEAD_CTX_init_with_direction]; unfold EVP_AEAD_CTX_init_with_direction; cbn -[len]; unfold aead_chacha20_poly1305_init; change (len []) with 0; cbn -[len]; rewrite Lk; done. }
  eexists _, _. do 5 (split; [done|]). by apply chacha_suite.
Qed.

End Proofs.

Definition seq_bytes (n : nat) : list Z := List.map Z.of_nat (seq 0 n).
Definition sample_context : SSLAEADContext :=
  mk_ssl_aead (Some (mk_cipher SSL_CHACHA20POLY1305 SSL_AEAD)) (Some (mk_aead_ctx (aead_chacha20_poly1305 (P := LP64) None) (seq_bytes 32) 16)) (seq_bytes 12) 8 false false true false true.

Lemma sample_created : created_pair (P := LP64) sample_context sample_context.
Proof. apply (chacha_created (P := LP64) None DTLS1_3_VERSION); try done; [repeat constructor; unfold is_byte; lia|repeat constructor; unfold is_byte; lia|by right]. Qed.

