(* ===== verification/DtlsRecord.v ===== *)
(** The DTLS record layer: ssl/dtls_record.cc, the alerts of ssl/tls_record.cc and the changes of epoch
    of ssl/dtls_method.cc.

    [None] is a failed assertion or BSSL_CHECK, or a null pointer that is followed. Allocations succeed,
    and the callbacks that observe messages do nothing. Records are decrypted in place: the result has
    the bytes that [out] is left to point at. *)
From S2P Require Import Prelude.
From S2P Require Import Internal.
From S2P Require Import Cbs.
From S2P Require Import ChaCha.
From S2P Require Import Aead.
From S2P Require Import DtlsNumbers.
From S2P Require Import DtlsBitmap.
From S2P Require Import DtlsState.
From S2P Require Import DtlsReceive.
From S2P Require Import SslAead.

Open Scope Z_scope.

Definition SSL3_RT_ALERT : Z := 21.
Definition SSL3_RT_HANDSHAKE : Z := 22.
Definition SSL3_RT_APPLICATION_DATA : Z := 23.
Definition SSL3_RT_ACK : Z := 26.
Definition SSL3_RT_MAX_PLAIN_LENGTH : Z := 16384.
Definition SSL3_RT_MAX_ENCRYPTED_LENGTH : Z := 256 + 64 + SSL3_RT_MAX_PLAIN_LENGTH.
Definition SSL3_AL_WARNING : Z := 1.
Definition SSL3_AL_FATAL : Z := 2.
Definition SSL_AD_CLOSE_NOTIFY : Z := 0.
Definition SSL_AD_RECORD_OVERFLOW : Z := 22.
Definition SSL_AD_DECRYPT_ERROR : Z := 51.
Definition SSL_AD_USER_CANCELLED : Z := 90.
Definition DTLS1_VERSION_MAJOR : Z := 0xfe.
Definition DTLS_PLAINTEXT_RECORD_HEADER_LENGTH : Z := 13.
Definition DTLS1_3_RECORD_HEADER_WRITE_LENGTH : Z := 5.
Definition DTLS_PREV_READ_EPOCH_EXPIRE_SECONDS : Z := 4 * 60.
Definition kMaxWarningAlerts : Z := 4.

(** The cipher of an epoch. *)
Record dtls_cipher := mk_dtls_cipher { dc_aead : SSLAEADContext; rn_encrypter : option RecordNumberEncrypter }.

Abbreviation SSL := (@DtlsState.SSL dtls_cipher).
Abbreviation ReadEpoch := (@DTLSReadEpoch dtls_cipher).
Abbreviation WriteEpoch := (@DTLSWriteEpoch dtls_cipher).

Inductive ssl_shutdown_t := ssl_shutdown_none | ssl_shutdown_close_notify | ssl_shutdown_error.

(** A connection, with the fields of SSL3_STATE that the record layer changes. *)
Record connection := mk_connection { ssl_of : SSL; read_shutdown : ssl_shutdown_t; warning_alert_count : Z }.

Inductive open_result :=
| ssl_open_record_success (type number : Z) (out : list Z)
| ssl_open_record_discard
| ssl_open_record_partial
| ssl_open_record_close_notify
| ssl_open_record_error (alert : Z).

Section Record.
Context `{P : Platform}.

Definition dtls_record_version (ssl : SSL) : option Z :=
  if version (config ssl) =? 0 then Some DTLS1_VERSION else
  v ← ssl_protocol_version ssl;
  Some (if TLS1_3_VERSION <=? v then DTLS1_2_VERSION else version (config ssl)).

Definition dtls_aead_sequence (ssl : SSL) (num : Z) : option Z :=
  if version (config ssl) =? 0 then Some num else
  v ← ssl_protocol_version ssl;
  Some (if TLS1_3_VERSION <=? v then sequence_of num else num).

Definition use_dtls13_record_header (ssl : SSL) (epoch : Z) : option bool :=
  if version (config ssl) =? 0 then Some false else
  v ← ssl_protocol_version ssl;
  Some ((TLS1_2_VERSION <? v) && (0 <? epoch)).

(** ** Parsing *)

(** A pointer to one of the three read epochs. *)
Inductive epoch_ref := current_epoch | following_epoch | previous_epoch.

Definition ref_epoch (ssl : SSL) (r : epoch_ref) : option ReadEpoch :=
  match r with
  | current_epoch => Some (read_epoch (reading ssl))
  | following_epoch => next_read_epoch (reading ssl)
  | previous_epoch => option_map fst (prev_read_epoch (reading ssl))
  end.

Definition with_epochs (ssl : SSL) (read : ReadEpoch) (next : option ReadEpoch) (prev : option (ReadEpoch * Z)) : SSL :=
  let r := reading ssl in
  with_reading ssl (mk_read (has_change_cipher_spec r) (handshake_read_overflow r) (handshake_read_seq r) read next prev
    (incoming_messages r) (records_to_ack r)).

Record ParsedDTLSRecord := mk_parsed { pr_read_epoch : option epoch_ref; pr_number : Z; pr_header : list Z; pr_body : list Z; pr_type : Z; pr_version : Z }.

Definition drop_expired_epoch (ssl : SSL) (now : OPENSSL_timeval) : SSL :=
  match prev_read_epoch (reading ssl) with
  | Some (_, expire) => if expire <? tv_sec now then with_epochs ssl (read_epoch (reading ssl)) (next_read_epoch (reading ssl)) None else ssl
  | None => ssl
  end.

Definition find_read_epoch (ssl : SSL) (epoch : Z) : option epoch_ref :=
  let r := reading ssl in
  if epoch =? re_epoch (read_epoch r) then Some current_epoch else
  if match next_read_epoch r with Some e => epoch =? re_epoch e | None => false end then Some following_epoch else
  if match prev_read_epoch r with Some (e, _) => epoch =? re_epoch e | None => false end then Some previous_epoch else
  None.

(** The epoch and number, the sequence bytes as they are left, the body and the rest of the packet;
    the inner [None] is false. *)
Definition parse_dtls13_record (ssl : SSL) (now : OPENSSL_timeval) (type : Z) (inp : CBS) : option (SSL * option (option epoch_ref * Z * list Z * CBS * CBS)) :=
  if negb (Z.land type 0x10 =? 0) then Some (ssl, None) else
  let r := reading ssl in
  let max_epoch := match next_read_epoch r with Some e => Z.max (re_epoch (read_epoch r)) (re_epoch e) | None => re_epoch (read_epoch r) end in
  let epoch := reconstruct_epoch type max_epoch in
  let seq_len := if negb (Z.land type 0x08 =? 0) then 2 else 1 in
  match CBS_get_bytes seq_len inp with
  | (None, _) => Some (ssl, None)
  | (Some seq_bytes, inp) =>
    match (if negb (Z.land type 0x04 =? 0) then CBS_get_u16_length_prefixed inp else CBS_get_bytes (len inp) inp) with
    | (None, _) => Some (ssl, None)
    | (Some body, rest) =>
      let ssl := drop_expired_epoch ssl now in
      match find_read_epoch ssl epoch with
      | None => Some (ssl, Some (None, 0, seq_bytes, body, rest))
      | Some ref =>
        dtls13 ← use_dtls13_record_header ssl epoch;
        if negb dtls13 then Some (ssl, Some (None, 0, seq_bytes, body, rest)) else
        read_epoch ← ref_epoch ssl ref;
        encrypter ← rn_encrypter (re_aead read_epoch);
        match GenerateMask encrypter 2 body with
        | None => Some (ssl, None)
        | Some mask =>
          let seq_bytes := zip_with Z.lxor seq_bytes mask in
          let seq := fold_left (fun seq b => Z.lor (u64 (Z.shiftl seq 8)) b) seq_bytes 0 in
          full_seq ← reconstruct_seqnum (u16 seq) (Z.shiftl 1 (seq_len * 8) - 1) (max_seq_num_ (re_bitmap read_epoch));
          number ← DTLSRecordNumber epoch full_seq;
          Some (ssl, Some (Some ref, number, seq_bytes, body, rest))
        end
      end
    end
  end.

Definition parse_dtls12_record (ssl : SSL) (inp : CBS) : option (option (option epoch_ref * Z * Z * CBS * CBS)) :=
  match (version <-- CBS_get_u16;; epoch_and_seq <-- CBS_get_u64;; body <-- CBS_get_u16_length_prefixed;; rd_ret (version, epoch_and_seq, body))%rd inp with
  | (None, _) => Some None
  | (Some (version, number, body), rest) =>
    let epoch := epoch_of number in
    version_ok ← (if epoch =? 0 then Some (Z.shiftr version 8 =? DTLS1_VERSION_MAJOR) else v ← dtls_record_version ssl; Some (version =? v));
    if negb version_ok then Some None else
    if epoch =? re_epoch (read_epoch (reading ssl)) then
      dtls13 ← use_dtls13_record_header ssl epoch;
      Some (Some (if (dtls13 : bool) then None else Some current_epoch, number, version, body, rest))
    else Some (Some (None, number, version, body, rest))
  end.

(** The record and the rest of the packet. The sequence number of a DTLS 1.3 header was decrypted in
    place, after the first byte. *)
Definition parse_dtls_record (ssl : SSL) (now : OPENSSL_timeval) (cbs : CBS) : option (SSL * option (ParsedDTLSRecord * CBS)) :=
  match CBS_get_u8 cbs with
  | (None, _) => Some (ssl, None)
  | (Some type, inp) =>
    let finish ssl ref number version copy body rest :=
      if SSL3_RT_MAX_ENCRYPTED_LENGTH <? len body then Some (ssl, None) else
      let header_len := len copy - len body - len rest in
      Some (ssl, Some (mk_parsed ref number (ztake header_len copy) body type version, rest)) in
    if Z.land type 0xe0 =? 0x20 then
      '(ssl, r) ← parse_dtls13_record ssl now type inp;
      match (r : option (option epoch_ref * Z * list Z * CBS * CBS)) with
      | None => Some (ssl, None)
      | Some (ref, number, seq_bytes, body, rest) =>
        finish ssl ref number 0 (type :: seq_bytes ++ zdrop (1 + len seq_bytes) cbs) body rest
      end
    else
      r ← parse_dtls12_record ssl inp;
      match (r : option (option epoch_ref * Z * Z * CBS * CBS)) with
      | None => Some (ssl, None)
      | Some (ref, number, version, body, rest) => finish ssl ref number version cbs body rest
      end
  end.

(** ** Opening records *)

Definition ssl_process_alert (c : connection) (inp : list Z) : option (connection * open_result) :=
  match inp with
  | [alert_level; alert_descr] =>
    if alert_level =? SSL3_AL_WARNING then
      if alert_descr =? SSL_AD_CLOSE_NOTIFY then
        Some (mk_connection (ssl_of c) ssl_shutdown_close_notify (warning_alert_count c), ssl_open_record_close_notify) else
      bad ← (if ssl_has_final_version (ssl_of c) then
               v ← ssl_protocol_version (ssl_of c); Some ((TLS1_3_VERSION <=? v) && negb (alert_descr =? SSL_AD_USER_CANCELLED))
             else Some false);
      if (bad : bool) then Some (c, ssl_open_record_error SSL_AD_DECODE_ERROR) else
      let count := u8 (warning_alert_count c + 1) in
      let c := mk_connection (ssl_of c) (read_shutdown c) count in
      if kMaxWarningAlerts <? count then Some (c, ssl_open_record_error SSL_AD_UNEXPECTED_MESSAGE) else
      Some (c, ssl_open_record_discard)
    else if alert_level =? SSL3_AL_FATAL then Some (c, ssl_open_record_error 0)
    else Some (c, ssl_open_record_error SSL_AD_ILLEGAL_PARAMETER)
  | _ => Some (c, ssl_open_record_error SSL_AD_DECODE_ERROR)
  end.

(** The loop that strips the padding and the record type, from the last byte. *)
Fixpoint strip_padding (rev_out : list Z) : option (Z * list Z) :=
  match rev_out with
  | [] => None
  | type :: rest => if type =? 0 then strip_padding rest else Some (type, rev rest)
  end.

Definition set_bitmap (ssl : SSL) (ref : epoch_ref) (seq : Z) : SSL :=
  let record (e : ReadEpoch) := mk_read_epoch (re_epoch e) (re_aead e) (Record_ (re_bitmap e) seq) in
  let r := reading ssl in
  match ref with
  | current_epoch => with_epochs ssl (record (read_epoch r)) (next_read_epoch r) (prev_read_epoch r)
  | following_epoch => with_epochs ssl (read_epoch r) (option_map record (next_read_epoch r)) (prev_read_epoch r)
  | previous_epoch => with_epochs ssl (read_epoch r) (next_read_epoch r) (option_map (fun '(e, t) => (record e, t)) (prev_read_epoch r))
  end.

(** The next epoch becomes the current one. *)
Definition advance_epoch (ssl : SSL) (now : OPENSSL_timeval) (ref : epoch_ref) : option SSL :=
  match ref with
  | following_epoch =>
    v ← ssl_protocol_version ssl;
    if v <? TLS1_3_VERSION then None else
    let expire := if 2 ^ 64 - 1 - DTLS_PREV_READ_EPOCH_EXPIRE_SECONDS <=? tv_sec now then 2 ^ 64 - 1 else tv_sec now + DTLS_PREV_READ_EPOCH_EXPIRE_SECONDS in
    next ← next_read_epoch (reading ssl);
    Some (with_epochs ssl next None (Some (read_epoch (reading ssl), expire)))
  | _ => Some ssl
  end.

Definition app_data_allowed (ssl : SSL) (number : Z) : option bool :=
  if version (config ssl) =? 0 then Some (1 <=? epoch_of number) else
  v ← ssl_protocol_version ssl;
  Some (if TLS1_3_VERSION <=? v then (epoch_of number =? 1) || (3 <=? epoch_of number) else 1 <=? epoch_of number).

(** [in_] is the address of the packet. The number is how much of it is consumed. *)
Definition dtls_open_record (c : connection) (now : OPENSSL_timeval) (in_ : Z) (inp : list Z) : option (connection * Z * open_result) :=
  match read_shutdown c with
  | ssl_shutdown_close_notify => Some (c, 0, ssl_open_record_close_notify)
  | _ =>
    if len inp =? 0 then Some (c, 0, ssl_open_record_partial) else
    '(ssl, parsed) ← parse_dtls_record (ssl_of c) now inp;
    let c := mk_connection ssl (read_shutdown c) (warning_alert_count c) in
    match (parsed : option (ParsedDTLSRecord * CBS)) with
    | None => Some (c, len inp, ssl_open_record_discard)
    | Some (record, rest) =>
      let consumed := len inp - len rest in
      match pr_read_epoch record with
      | None => Some (c, consumed, ssl_open_record_discard)
      | Some ref =>
        read_epoch ← ref_epoch ssl ref;
        if ShouldDiscard (re_bitmap read_epoch) (sequence_of (pr_number record)) then Some (c, consumed, ssl_open_record_discard) else
        let aead := dc_aead (re_aead read_epoch) in
        seq ← dtls_aead_sequence ssl (pr_number record);
        opened ← Open aead (pr_type record) (pr_version record) seq (pr_header record) (in_ + len (pr_header record)) (pr_body record);
        match (opened : option (list Z)) with
        | None => Some (c, consumed, ssl_open_record_discard)
        | Some out =>
          has_padding ← (if is_null_cipher aead then Some false else v ← ssl_protocol_version ssl; Some (TLS1_3_VERSION <=? v));
          if SSL3_RT_MAX_PLAIN_LENGTH + (if (has_padding : bool) then 1 else 0) <? len out then Some (c, consumed, ssl_open_record_error SSL_AD_RECORD_OVERFLOW) else
          match (if has_padding then strip_padding (rev out) else Some (pr_type record, out)) with
          | None => Some (c, consumed, ssl_open_record_error SSL_AD_DECRYPT_ERROR)
          | Some (type, out) =>
            ssl ← advance_epoch (set_bitmap ssl ref (sequence_of (pr_number record))) now ref;
            let c := mk_connection ssl (read_shutdown c) (warning_alert_count c) in
            if type =? SSL3_RT_ALERT then
              '(c, r) ← ssl_process_alert c out; Some (c, consumed, r)
            else
            allowed ← (if type =? SSL3_RT_APPLICATION_DATA then app_data_allowed ssl (pr_number record) else Some true);
            if negb (allowed : bool) then Some (c, consumed, ssl_open_record_error SSL_AD_UNEXPECTED_MESSAGE) else
            Some (mk_connection ssl (read_shutdown c) 0, consumed, ssl_open_record_success type (pr_number record) out)
          end
        end
      end
    end
  end.

(** ** Sealing records *)

(** The epoch, and its position among the extra ones. *)
Fixpoint find_epoch (l : list WriteEpoch) (epoch : Z) : option (nat * WriteEpoch) :=
  match l with
  | [] => None
  | e :: l => if we_epoch e =? epoch then Some (O, e) else option_map (fun '(i, e) => (S i, e)) (find_epoch l epoch)
  end.

Definition get_write_epoch (ssl : SSL) (epoch : Z) : option (option nat * WriteEpoch) :=
  if we_epoch (write_epoch (writing ssl)) =? epoch then Some (None, write_epoch (writing ssl))
  else option_map (fun '(i, e) => (Some i, e)) (find_epoch (extra_write_epochs (writing ssl)) epoch).

Definition with_write_epochs (ssl : SSL) (e : WriteEpoch) (extra : list WriteEpoch) : SSL :=
  let w := writing ssl in
  with_writing ssl (mk_write (outgoing_messages_complete w) (flight_has_reply w) (handshake_write_overflow w) (sending_flight w) (sending_ack w)
    (handshake_write_seq w) e extra (outgoing_messages w) (sent_records w) (outgoing_written w) (outgoing_offset w) (mtu w)).

Definition set_write_epoch (ssl : SSL) (where_ : option nat) (e : WriteEpoch) : SSL :=
  match where_ with
  | None => with_write_epochs ssl e (extra_write_epochs (writing ssl))
  | Some i => with_write_epochs ssl (write_epoch (writing ssl)) (<[i := e]> (extra_write_epochs (writing ssl)))
  end.

Definition dtls_record_header_write_len (ssl : SSL) (epoch : Z) : option Z :=
  dtls13 ← use_dtls13_record_header ssl epoch;
  Some (if negb dtls13 then DTLS_PLAINTEXT_RECORD_HEADER_LENGTH else DTLS1_3_RECORD_HEADER_WRITE_LENGTH).

Definition dtls_max_seal_overhead (ssl : SSL) (epoch : Z) : option Z :=
  match get_write_epoch ssl epoch with
  | None => Some 0
  | Some (_, e) =>
    header_len ← dtls_record_header_write_len ssl epoch;
    overhead ← MaxOverhead (dc_aead (we_aead e));
    dtls13 ← use_dtls13_record_header ssl epoch;
    Some (header_len + overhead + if (dtls13 : bool) then 1 else 0)
  end.

Definition dtls_seal_prefix_len (ssl : SSL) (epoch : Z) : option Z :=
  match get_write_epoch ssl epoch with
  | None => Some 0
  | Some (_, e) =>
    header_len ← dtls_record_header_write_len ssl epoch;
    Some (header_len + ExplicitNonceLen (dc_aead (we_aead e)))
  end.

Definition dtls_seal_max_input_len (ssl : SSL) (epoch max_out : Z) : option Z :=
  match get_write_epoch ssl epoch with
  | None => Some 0
  | Some (_, e) =>
    header_len ← dtls_record_header_write_len ssl epoch;
    if max_out <=? header_len then Some 0 else
    max_out ← MaxSealInputLen (dc_aead (we_aead e)) (max_out - header_len);
    dtls13 ← use_dtls13_record_header ssl epoch;
    Some (if (0 <? max_out) && dtls13 then max_out - 1 else max_out)
  end.

(** [out] is the address of the output, of [max_out] bytes, and [in_] that of the input. The result is
    the number of the record and what is written; the inner [None] is false. *)
Definition dtls_seal_record (rand : Z -> option (list Z)) (ssl : SSL) (out max_out type in_ : Z) (inp : list Z) (epoch : Z) : option (SSL * option (Z * list Z)) :=
  prefix ← dtls_seal_prefix_len ssl epoch;
  if buffers_alias in_ (len inp) out max_out && ((max_out <? prefix) || negb (out + prefix =? in_)) then Some (ssl, None) else
  match get_write_epoch ssl epoch with
  | None => Some (ssl, None)
  | Some (where_, e) =>
    let aead := dc_aead (we_aead e) in
    record_header_len ← dtls_record_header_write_len ssl epoch;
    let record_number := next_record e in
    if negb (HasNext record_number) then Some (ssl, None) else
    dtls13_header ← use_dtls13_record_header ssl epoch;
    let extra_in := if (dtls13_header : bool) then [type] else [] in
    n ← CiphertextLen aead (len inp) (len extra_in);
    match (n : option Z) with
    | None => Some (ssl, None)
    | Some ciphertext_len =>
      if max_out <? record_header_len + ciphertext_len then Some (ssl, None) else
      record_version ← dtls_record_version ssl;
      let header :=
        if dtls13_header then Z.lor 0x2c (Z.land epoch 0x3) :: CRYPTO_store_u16_be (u16 (sequence_of record_number)) ++ CRYPTO_store_u16_be (u16 ciphertext_len)
        else type :: CRYPTO_store_u16_be record_version ++ CRYPTO_store_u64_be record_number ++ CRYPTO_store_u16_be (u16 ciphertext_len) in
      seq ← dtls_aead_sequence ssl record_number;
      sealed ← SealScatter rand aead (out + record_header_len) (out + prefix) (out + prefix + len inp) type record_version seq header in_ inp extra_in;
      match (sealed : option (list Z * list Z * list Z)) with
      | None => Some (ssl, None)
      | Some (p, o, s) =>
        next ← Next record_number;
        let done header := Some (set_write_epoch ssl where_ (mk_write_epoch next (we_aead e)), Some (record_number, header ++ p ++ o ++ s)) in
        if dtls13_header then
          encrypter ← rn_encrypter (we_aead e);
          match GenerateMask encrypter 2 (p ++ o ++ s) with
          | None => Some (ssl, None)
          | Some mask =>
            m0 ← znth mask 0;
            m1 ← znth mask 1;
            h1 ← znth header 1;
            h2 ← znth header 2;
            done (zupd (zupd header 1 (Z.lxor h1 m0)) 2 (Z.lxor h2 m1))
          end
        else done header
      end
    end
  end.

End Record.
