(* ===== verification/DtlsRecordProofs.v ===== *)
(** What the DTLS record layer promises: a record that one end seals is opened by the other end with the
    same type, number and content, once, whatever the network does to the packets. *)
From S2P Require Import Prelude.
From S2P Require Import Internal.
From S2P Require Import Cbs.
From S2P Require Import ChaCha.
From S2P Require Import Aead.
From S2P Require Import ChaChaPoly.
From S2P Require Import DtlsNumbers.
From S2P Require Import DtlsBitmap.
From S2P Require Import DtlsState.
From S2P Require Import DtlsReceive.
From S2P Require Import SslAead.
From S2P Require Import SslAeadProofs.
From S2P Require Import DtlsRecord.

Open Scope Z_scope.

(** ** Byte order *)

Lemma store_u16_be_spec v : 0 <= v < 2 ^ 16 -> CRYPTO_store_u16_be v = be_bytes 2 v.
Proof. apply bswap2_be. Qed.
Lemma store_u64_be_spec v : 0 <= v < 2 ^ 64 -> CRYPTO_store_u64_be v = be_bytes 8 v.
Proof. apply bswap8_be. Qed.

Lemma get_u_be n v r : 0 <= v < 256 ^ Z.of_nat n -> Z.of_nat n <= 8 -> cbs_get_u (Z.of_nat n) (be_bytes n v ++ r) = (Some v, r).
Proof.
  intros Hv Hn. rewrite cbs_get_u_app; [|apply bytes_be_bytes|apply len_be_bytes|done]. by rewrite be_val_be_bytes, Z.mod_small.
Qed.

Lemma get_u16_be v r : 0 <= v < 2 ^ 16 -> CBS_get_u16 (be_bytes 2 v ++ r) = (Some v, r).
Proof.
  intros Hv. unfold CBS_get_u16, rd_bind. rewrite (get_u_be 2) by (cbn; lia). unfold rd_ret. by rewrite wrap_small.
Qed.

Lemma get_u16_prefixed `{P : Platform} body r : len body < 2 ^ 16 -> CBS_get_u16_length_prefixed (be_bytes 2 (len body) ++ body ++ r) = (Some body, r).
Proof.
  intros Hb. pose proof (len_nonneg body). unfold CBS_get_u16_length_prefixed. apply length_prefixed_app; [apply bytes_be_bytes|apply len_be_bytes|done|].
  rewrite be_val_be_bytes. apply Z.mod_small. cbn. lia.
Qed.

Section Proofs.
Context `{P : Platform}.

(** ** Versions *)

Definition wire_version (v : Z) : Prop := v = 0 \/ v = DTLS1_VERSION \/ v = DTLS1_2_VERSION \/ v = DTLS1_3_VERSION.
Definition dtls13 (v e : Z) : bool := (v =? DTLS1_3_VERSION) && (0 <? e).
Definition record_version (v : Z) : Z := if v =? 0 then DTLS1_VERSION else if v =? DTLS1_3_VERSION then DTLS1_2_VERSION else v.
Definition header_len (v e : Z) : Z := if dtls13 v e then 5 else 13.
Definition aead_sequence (v n : Z) : Z := if v =? DTLS1_3_VERSION then sequence_of n else n.

Ltac versions ssl H := unfold ssl_protocol_version; destruct H as [H|[H|[H|H]]]; rewrite H; try done.

Lemma use13_spec (ssl : SSL) e : wire_version (version (config ssl)) -> use_dtls13_record_header ssl e = Some (dtls13 (version (config ssl)) e).
Proof. intros H. unfold use_dtls13_record_header. versions ssl H. Qed.
Lemma record_version_spec (ssl : SSL) : wire_version (version (config ssl)) -> dtls_record_version ssl = Some (record_version (version (config ssl))).
Proof. intros H. unfold dtls_record_version. versions ssl H. Qed.
Lemma aead_sequence_spec (ssl : SSL) n : wire_version (version (config ssl)) -> dtls_aead_sequence ssl n = Some (aead_sequence (version (config ssl)) n).
Proof. intros H. unfold dtls_aead_sequence. versions ssl H. Qed.
Lemma header_len_spec (ssl : SSL) e : wire_version (version (config ssl)) -> dtls_record_header_write_len ssl e = Some (header_len (version (config ssl)) e).
Proof. intros H. unfold dtls_record_header_write_len. rewrite use13_spec by done. cbn [mbind option_bind]. unfold header_len. by destruct (dtls13 _ _). Qed.
Lemma record_version_range v : wire_version v -> 0 <= record_version v < 2 ^ 16 /\ Z.shiftr (record_version v) 8 = DTLS1_VERSION_MAJOR.
Proof. intros [->|[->|[-> | ->]]]; done. Qed.

(** ** Ciphers *)

(** The mask has two bytes when the sample has sixteen. *)
Definition encrypter_ok (enc : RecordNumberEncrypter) : Prop :=
  forall sample, bytes sample -> 16 <= len sample -> exists m0 m1, GenerateMask enc 2 sample = Some [m0; m1] /\ is_byte m0 /\ is_byte m1.

(** The ciphers of the two ends in epoch [e] of version [v]. A DTLS 1.3 epoch has no cipher exactly when
    it is epoch zero. *)
Definition ciphers_agree (v e : Z) (s o : dtls_cipher) : Prop :=
  created_pair (dc_aead s) (dc_aead o) /\ rn_encrypter o = rn_encrypter s /\
  if dtls13 v e
  then is_null_cipher (dc_aead s) = false /\ ad_is_header_ (dc_aead s) = true /\ omit_length_in_ad_ (dc_aead s) = false /\
       (exists ctx, ctx_ (dc_aead s) = Some ctx /\ seal_scatter_supports_extra_in (aead ctx) = true /\ 16 <= overhead (aead ctx)) /\
       exists enc, rn_encrypter s = Some enc /\ encrypter_ok enc
  else v = 0 \/ v = DTLS1_3_VERSION -> is_null_cipher (dc_aead s) = true.

(** With the header as additional data, the type and version are not used. *)
Lemma open_header_ad o type version type' version' seq header in_ inp : ad_is_header_ o = true ->
  Open o type version seq header in_ inp = Open o type' version' seq header in_ inp.
Proof. intros H. unfold Open, GetAdditionalData. by rewrite H. Qed.

Lemma pair_same s o : ssl_pair s o -> is_null_cipher o = is_null_cipher s /\ ad_is_header_ o = ad_is_header_ s.
Proof. by intros []. Qed.

(** ** The parts of a record *)

(** The header, before the sequence number is encrypted. *)
Definition plain_header (v e type number n : Z) : list Z :=
  if dtls13 v e then Z.lor 0x2c (Z.land e 0x3) :: be_bytes 2 (sequence_of number mod 2 ^ 16) ++ be_bytes 2 n
  else type :: be_bytes 2 (record_version v) ++ be_bytes 8 number ++ be_bytes 2 n.

Definition mask_header (header mask : list Z) : list Z :=
  match header, mask with h0 :: h1 :: h2 :: r, [m0; m1] => h0 :: Z.lxor h1 m0 :: Z.lxor h2 m1 :: r | _, _ => header end.

(** A packet that carries a record of the sender: its body opens to the content at the other end. *)
Definition sealed_as (v e : Z) (s o : dtls_cipher) (type number : Z) (inp pkt : list Z) : Prop :=
  exists body, len body <= SSL3_RT_MAX_ENCRYPTED_LENGTH /\ bytes body /\
    let header := plain_header v e type number (len body) in
    (forall in_, if dtls13 v e
      then forall type' version', Open (dc_aead o) type' version' (aead_sequence v number) header in_ body = Some (Some (inp ++ [type]))
      else Open (dc_aead o) type (record_version v) (aead_sequence v number) header in_ body = Some (Some inp)) /\
    if dtls13 v e then exists enc m0 m1, rn_encrypter o = Some enc /\ GenerateMask enc 2 body = Some [m0; m1] /\ is_byte m0 /\ is_byte m1 /\ pkt = mask_header header [m0; m1] ++ body
    else pkt = header ++ body.

Lemma len_plain_header v e type number n : len (plain_header v e type number n) = header_len v e.
Proof. unfold plain_header, header_len. destruct (dtls13 v e); rewrite len_cons, !len_app, !len_be_bytes; done. Qed.


Lemma alias_spec a n b m : 0 <= a -> 0 <= n -> 0 <= b -> 0 <= m -> a + n < 2 ^ size_bits -> b + m < 2 ^ size_bits ->
  buffers_alias a n b m = false <-> a + n <= b \/ b + m <= a.
Proof.
  intros. unfold buffers_alias. rewrite !wrap_small by lia. destruct (Z.gtb_spec (a + n) b), (Z.gtb_spec (b + m) a); cbn; split; intros; done || lia.
Qed.

(** Buffers for sealing: the input is where its ciphertext goes, or apart from the output. *)
Definition record_buffers (in_ n out max_out prefix : Z) : Prop :=
  0 <= in_ /\ in_ + n < 2 ^ size_bits /\ 0 <= out /\ 0 <= max_out /\ out + max_out < 2 ^ size_bits /\
  (in_ = out + prefix \/ in_ + n <= out \/ out + max_out <= in_).

Lemma record_seal_buffers in_ out max_out hdr explicit n t : record_buffers in_ n out max_out (hdr + explicit) -> 0 <= hdr -> 0 <= explicit -> 0 <= n -> 0 <= t ->
  hdr + (explicit + n + t) <= max_out ->
  seal_buffers in_ (out + hdr) (out + (hdr + explicit)) (out + (hdr + explicit) + n) n explicit t.
Proof.
  intros (I0 & I1 & O0 & M0 & O1 & H) Hh He Hn Ht Hm. unfold seal_buffers. rewrite !alias_spec by lia. lia.
Qed.

Lemma alias_check in_ n out max_out prefix : record_buffers in_ n out max_out prefix -> 0 <= n ->
  buffers_alias in_ n out max_out && ((max_out <? prefix) || negb (out + prefix =? in_)) = true -> max_out < prefix.
Proof.
  intros (I0 & I1 & O0 & M0 & O1 & H) Hn [Ha Hc]%andb_prop. destruct H as [->|H].
  - rewrite Z.eqb_refl in Hc. destruct (Z.ltb_spec max_out prefix); done.
  - assert (buffers_alias in_ n out max_out = false) by (apply alias_spec; lia). congruence.
Qed.

(** The length of a record, and that there is always one. *)
Lemma record_length s o v e type n : ciphers_agree v e s o -> 0 <= n <= SSL3_RT_MAX_PLAIN_LENGTH ->
  let extra := if dtls13 v e then [type] else [] in
  takes_extra (dc_aead s) extra /\ exists t, SuffixLen (dc_aead s) n (len extra) = Some (Some t) /\ len extra <= t <= len extra + 255 /\
    CiphertextLen (dc_aead s) n (len extra) = Some (Some (ExplicitNonceLen (dc_aead s) + n + t)) /\ ExplicitNonceLen (dc_aead s) + n + t <= SSL3_RT_MAX_ENCRYPTED_LENGTH /\
    (dtls13 v e = true -> 16 <= t).
Proof.
  intros (Hp & _ & Hc) Hn extra. apply created_ssl_pair in Hp. unfold SSL3_RT_MAX_ENCRYPTED_LENGTH, SSL3_RT_MAX_PLAIN_LENGTH in *. assert (Le : len extra <= 1) by (unfold extra; destruct (dtls13 v e); done).
  assert (Hx : takes_extra (dc_aead s) extra).
  { unfold extra. destruct (dtls13 v e); [|by left]. destruct Hc as (_ & Ha & _ & (ctx & Ec & Es & _) & _). right. right. by rewrite Ec. }
  split; [done|]. destruct (ciphertext_len_spec _ _ n extra Hp ltac:(lia) Le Hx) as (t & Et & Ht & Ec). destruct (explicit_len _ _ Hp) as [He _]. exists t. cbv zeta in Ec.
  split; [done|]. split; [done|]. rewrite Ec. destruct (Z.leb_spec 0xffff (ExplicitNonceLen (dc_aead s) + n + t)); [exfalso; lia|]. split; [done|]. split; [lia|].
  intros E. rewrite E in Hc. destruct Hc as (Hnull & _ & Hom & (ctx & Ectx & _ & Ho) & _). destruct Hp as [|cipher cs co fixed m included random xor omit_length ad_is_header s' Hap Hs [Hl1 Hl2]]; [done|].
  cbn in Hom, Ectx. injection Ectx as ->. cbn in Hl1. rewrite Hom in Hl1. rewrite <- Hl1 in Hl2. unfold SuffixLen in Et. rewrite Hnull in Et. cbn in Et. apply Hl2 in Et. pose proof (len_nonneg extra). lia.
Qed.


Lemma prefix_len_spec (ssl : SSL) e where_ we : wire_version (version (config ssl)) -> get_write_epoch ssl e = Some (where_, we) ->
  dtls_seal_prefix_len ssl e = Some (header_len (version (config ssl)) e + ExplicitNonceLen (dc_aead (we_aead we))).
Proof. intros Hv Hw. unfold dtls_seal_prefix_len. rewrite Hw, header_len_spec by done. done. Qed.

Lemma plain_header_bytes v e type number n : wire_version v -> is_byte type -> 0 <= e < 2 ^ 16 -> bytes (plain_header v e type number n).
Proof.
  intros Hv Ht He. unfold plain_header. destruct (dtls13 v e).
  - constructor; [|apply bytes_app; split; apply bytes_be_bytes]. unfold is_byte. change 256 with (2 ^ 8). apply lor_range; [lia|lia|].
    change 0x3 with (Z.ones 2). rewrite Z.land_ones by lia. pose proof (Z.mod_pos_bound e (2 ^ 2) ltac:(lia)). lia.
  - constructor; [done|]. apply bytes_app. split; [apply bytes_be_bytes|apply bytes_app; split; apply bytes_be_bytes].
Qed.

(** The header that dtls_seal_record writes. *)
Lemma written_header v e type number n : wire_version v -> 0 <= number < 2 ^ 64 -> 0 <= n < 2 ^ 16 ->
  (if dtls13 v e then Z.lor 0x2c (Z.land e 0x3) :: CRYPTO_store_u16_be (u16 (sequence_of number)) ++ CRYPTO_store_u16_be (u16 n)
   else type :: CRYPTO_store_u16_be (record_version v) ++ CRYPTO_store_u64_be number ++ CRYPTO_store_u16_be (u16 n)) = plain_header v e type number n.
Proof.
  intros Hv Hnum Hn. pose proof (record_version_range v Hv) as [Hr _]. unfold plain_header. rewrite (wrap_small 16 n) by lia.
  destruct (dtls13 v e); rewrite !store_u16_be_spec by (done || apply wrap_range; lia); [done|]. by rewrite store_u64_be_spec.
Qed.

Lemma mask_written v e type number n m0 m1 : dtls13 v e = true ->
  exists h1 h2, znth (plain_header v e type number n) 1 = Some h1 /\ znth (plain_header v e type number n) 2 = Some h2 /\
    zupd (zupd (plain_header v e type number n) 1 (Z.lxor h1 m0)) 2 (Z.lxor h2 m1) = mask_header (plain_header v e type number n) [m0; m1].
Proof. intros E. unfold plain_header. rewrite E. unfold be_bytes. cbn. eexists _, _. done. Qed.

Lemma next_no_wrap n : 0 <= n < 2 ^ 64 -> HasNext n = true -> u64 (n + 1) = n + 1.
Proof.
  intros Hn H. apply wrap_small. unfold HasNext, sequence_of in H. change kMaxSequence with (Z.ones 48) in H. rewrite Z.land_ones in H by lia.
  destruct (Z.eq_dec n (2 ^ 64 - 1)) as [->|]; [done|lia].
Qed.

Lemma seal_record_ok rand (ssl : SSL) out max_out type in_ inp e where_ we o : let v := version (config ssl) in
  wire_version v -> rand_ok rand -> get_write_epoch ssl e = Some (where_, we) -> ciphers_agree v e (we_aead we) o ->
  0 <= e < 2 ^ 16 -> 0 <= next_record we < 2 ^ 64 -> HasNext (next_record we) = true -> is_byte type -> bytes inp -> len inp <= SSL3_RT_MAX_PLAIN_LENGTH ->
  record_buffers in_ (len inp) out max_out (header_len v e + ExplicitNonceLen (dc_aead (we_aead we))) ->
  exists n, CiphertextLen (dc_aead (we_aead we)) (len inp) (if dtls13 v e then 1 else 0) = Some (Some n) /\ 0 <= n < 2 ^ 16 /\
    if max_out <? header_len v e + n then dtls_seal_record rand ssl out max_out type in_ inp e = Some (ssl, None)
    else exists pkt, dtls_seal_record rand ssl out max_out type in_ inp e =
        Some (set_write_epoch ssl where_ (mk_write_epoch (next_record we + 1) (we_aead we)), Some (next_record we, pkt)) /\
      len pkt = header_len v e + n /\ sealed_as v e (we_aead we) o type (next_record we) inp pkt.
Proof.
  intros v Hv Hr Hw Hc He Hnum Hnext Ht Hi Li Hbuf. pose proof (len_nonneg inp) as Pi. destruct (record_length _ _ v e type (len inp) Hc ltac:(done)) as (Hx & t & Et & Htb & Ec & Lmax & H16).
  pose proof Hc as (Hp & Hrn & Hc'). apply created_ssl_pair in Hp. destruct (explicit_len _ _ Hp) as [Hex _]. set (extra := if dtls13 v e then [type] else []) in *. set (aead := dc_aead (we_aead we)) in *.
  assert (Ele : (if dtls13 v e then 1 else 0) = len extra) by (unfold extra; by destruct (dtls13 v e)). rewrite Ele. exists (ExplicitNonceLen aead + len inp + t). split; [done|].
  unfold SSL3_RT_MAX_ENCRYPTED_LENGTH, SSL3_RT_MAX_PLAIN_LENGTH in *. pose proof (len_nonneg extra). split; [lia|]. set (n := ExplicitNonceLen aead + len inp + t) in *.
  unfold dtls_seal_record. rewrite (prefix_len_spec ssl e _ _ Hv Hw). cbn [mbind option_bind]. fold v aead. set (prefix := header_len v e + ExplicitNonceLen aead) in *.
  destruct (buffers_alias _ _ _ _ && _) eqn:Ea.
  { apply alias_check in Ea; [|done|lia]. destruct (Z.ltb_spec max_out (header_len v e + n)); [done|]. unfold prefix, n in *. lia. }
  rewrite Hw, header_len_spec, Hnext, use13_spec by done. cbn [mbind option_bind negb]. fold v aead extra. rewrite Ec. cbn [mbind option_bind]. fold n.
  destruct (Z.ltb_spec max_out (header_len v e + n)); [done|].
  rewrite record_version_spec, aead_sequence_spec by done. cbn [mbind option_bind]. fold v. rewrite (written_header v e type (next_record we) n) by (done || lia).
  set (header := plain_header v e type (next_record we) n). assert (Lh : len header = header_len v e) by apply len_plain_header.
  assert (Hh : bytes header) by by apply plain_header_bytes.
  destruct (seal_then_open rand Hr type (record_version v) (aead_sequence v (next_record we)) header inp extra Ht Hh) with (s := aead) (o := dc_aead o) (in_ := in_)
    (out_prefix := out + header_len v e) (out := out + prefix) (out_suffix := out + prefix + len inp) as (p & c & tg & Eseal & Lp & Lc & Lt & Hb & Hopen).
  { rewrite Lh. unfold header_len. destruct (dtls13 v e); lia. }
  { done. } { unfold extra. destruct (dtls13 v e); repeat constructor; apply Ht. } { lia. } { unfold extra. by destruct (dtls13 v e). } { done. } { done. }
  { intros t' Et'. rewrite Et in Et'. injection Et' as <-. apply (record_seal_buffers in_ out max_out); unfold n in *; try done; try lia. unfold header_len. destruct (dtls13 v e); lia. }
  rewrite Eseal. cbn [mbind option_bind]. rewrite Et in Lt. injection Lt as Lt. assert (Lbody : len (p ++ c ++ tg) = n) by (rewrite !len_app, Lp, Lc; unfold n; fold aead; lia).
  unfold Next. rewrite Hnext. cbn [mbind option_bind]. assert (Enx : u64 (next_record we + 1) = next_record we + 1) by by apply next_no_wrap. rewrite Enx.
  destruct (dtls13 v e) eqn:E13.
  - destruct Hc' as (Hnull & Had & _ & _ & enc & Een & Henc). rewrite Een. cbn [mbind option_bind]. destruct (Henc (p ++ c ++ tg) Hb) as (m0 & m1 & Em & Hm0 & Hm1); [rewrite Lbody; unfold n; specialize (H16 eq_refl); lia|].
    rewrite Em. change (znth [m0; m1] 0) with (Some m0). change (znth [m0; m1] 1) with (Some m1). cbn [mbind option_bind].
    destruct (mask_written v e type (next_record we) n m0 m1 E13) as (h1 & h2 & E1 & E2 & Eh). fold header in E1, E2, Eh. rewrite E1. cbn [mbind option_bind]. rewrite E2. cbn [mbind option_bind]. rewrite Eh.
    eexists. split; [done|]. split; [rewrite len_app, Lbody; unfold mask_header, header, plain_header; rewrite E13; unfold header_len; rewrite E13; done|].
    exists (p ++ c ++ tg). rewrite Lbody. fold header. split; [exact Lmax|]. split; [done|]. rewrite E13. split.
    + intros i2 type' version'. rewrite (open_header_ad _ _ _ type (record_version v)); [apply Hopen|]. destruct (pair_same _ _ Hp) as [_ ->]. done.
    + exists enc, m0, m1. rewrite Hrn. done.
  - eexists. split; [done|]. split; [by rewrite len_app, Lbody, Lh|]. exists (p ++ c ++ tg). rewrite Lbody. fold header. split; [exact Lmax|]. split; [done|]. rewrite E13. split; [|done].
    intros i2. rewrite Hopen. unfold extra. by rewrite app_nil_r.
Qed.


(** ** Parsing *)

Lemma low_bits e : 0 <= e -> let w := Z.lor 0x2c (Z.land e 0x3) in
  Z.land w 0xe0 = 0x20 /\ Z.land w 0x10 = 0 /\ Z.land w 0x08 <> 0 /\ Z.land w 0x04 <> 0 /\ Z.land w 0x3 = Z.land e 0x3.
Proof.
  intros He w. unfold w. assert (E : Z.land e 0x3 = e mod 4) by exact (Z.land_ones e 2 ltac:(lia)). rewrite E.
  pose proof (Z.mod_pos_bound e 4 ltac:(lia)). assert (e mod 4 = 0 \/ e mod 4 = 1 \/ e mod 4 = 2 \/ e mod 4 = 3) as [->|[->|[-> | ->]]] by lia; done.
Qed.

Lemma reconstruct_epoch_same w e : 0 <= e < 2 ^ 16 -> Z.land w 0x3 = Z.land e 0x3 -> reconstruct_epoch w e = e.
Proof.
  intros He Hw. unfold reconstruct_epoch. rewrite Hw, <- Z.land_lor_distr_r. change (Z.lor 0x3 0xfffc) with (Z.ones 16). rewrite Z.land_ones, Z.mod_small by lia.
  by rewrite Z.ltb_irrefl.
Qed.

Lemma reconstruct_near q m : 0 <= q <= kMaxSequence -> 0 <= m <= kMaxSequence -> Z.abs (q - (m + 1)) < 2 ^ 15 -> reconstruct_seqnum (q mod 2 ^ 16) 0xffff m = Some q.
Proof.
  intros Hq Hm Hd. pose proof (Z.mod_pos_bound q (2 ^ 16) ltac:(lia)). destruct (reconstruct_seqnum_spec (q mod 2 ^ 16) 0xffff m) as (q0 & E & Hq0 & Hmod & Hmin); [by right|lia|done|].
  specialize (Hmin q Hq eq_refl). change (0xffff + 1) with (2 ^ 16) in Hmod. rewrite E. f_equal. pose proof (Z.div_mod q (2 ^ 16) ltac:(lia)). pose proof (Z.div_mod q0 (2 ^ 16) ltac:(lia)). lia.
Qed.

Lemma be_bytes_2 x : exists h1 h2, be_bytes 2 x = [h1; h2] /\ is_byte h1 /\ is_byte h2.
Proof.
  pose proof (bytes_be_bytes 2 x) as Hb. pose proof (length_be_bytes 2 x) as Hl. destruct (be_bytes 2 x) as [|h1 [|h2 [|]]]; try done.
  apply bytes_cons in Hb as [H1 Hb]. apply bytes_cons in Hb as [H2 _]. by exists h1, h2.
Qed.

Lemma parse12_ok (ssl : SSL) now type e q body rest : let v := version (config ssl) in let number := e * 2 ^ 48 + q in
  wire_version v -> dtls13 v e = false -> re_epoch (read_epoch (reading ssl)) = e -> 0 <= e < 2 ^ 16 -> 0 <= q < 2 ^ 48 -> 0 <= type < 32 ->
  len body <= SSL3_RT_MAX_ENCRYPTED_LENGTH ->
  let header := plain_header v e type number (len body) in
  parse_dtls_record ssl now (header ++ body ++ rest) = Some (ssl, Some (mk_parsed (Some current_epoch) number header body type (record_version v), rest)).
Proof.
  intros v number Hv E13 Hre He Hq Ht Lb header. pose proof (len_nonneg body). destruct (record_version_range v Hv) as [Hrv Hmaj].
  assert (Lh : len header = 13) by (unfold header; rewrite len_plain_header; unfold header_len; by rewrite E13).
  unfold SSL3_RT_MAX_ENCRYPTED_LENGTH, SSL3_RT_MAX_PLAIN_LENGTH in Lb.
  unfold parse_dtls_record. assert (Ew : header = type :: be_bytes 2 (record_version v) ++ be_bytes 8 number ++ be_bytes 2 (len body)) by (unfold header, plain_header; by rewrite E13).
  rewrite Ew at 1. cbn [app]. rewrite CBS_get_u8_cons. assert (Et : Z.land type 0xe0 = 0).
  { apply Z.bits_inj'. intros k Hk. rewrite Z.land_spec, Z.bits_0. destruct (Z.lt_ge_cases k 5); [|by rewrite (testbit_small 5 type k) by lia].
    assert (k = 0 \/ k = 1 \/ k = 2 \/ k = 3 \/ k = 4) as [->|[->|[->|[-> | ->]]]] by lia; apply andb_false_r. }
  rewrite Et. change (0 =? 0x20) with false. cbv iota.
  assert (Ep : parse_dtls12_record ssl ((be_bytes 2 (record_version v) ++ be_bytes 8 number ++ be_bytes 2 (len body)) ++ body ++ rest) = Some (Some (Some current_epoch, number, record_version v, body, rest))).
  { unfold parse_dtls12_record. rewrite <- !app_assoc. unfold rd_bind. rewrite get_u16_be by done. unfold CBS_get_u64. rewrite (get_u_be 8) by (cbn; unfold number; lia).
    rewrite get_u16_prefixed by lia. unfold rd_ret. destruct (record_number_spec e q He Hq) as (_ & En & _). fold number in En. rewrite En.
    assert (Evok : (if e =? 0 then Some (Z.shiftr (record_version v) 8 =? DTLS1_VERSION_MAJOR) else v0 ← dtls_record_version ssl; Some (record_version v =? v0)) = Some true).
    { destruct (e =? 0); [by rewrite Hmaj|]. rewrite record_version_spec by done. cbn. by rewrite Z.eqb_refl. }
    rewrite Evok. cbn [mbind option_bind negb]. rewrite Hre, Z.eqb_refl, use13_spec by done. cbn [mbind option_bind]. fold v. by rewrite E13. }
  rewrite Ep. cbn [mbind option_bind]. unfold SSL3_RT_MAX_ENCRYPTED_LENGTH, SSL3_RT_MAX_PLAIN_LENGTH. destruct (Z.ltb_spec (256 + 64 + 16384) (len body)); [lia|].
  do 4 f_equal. rewrite !len_app. f_equal. rewrite ztake_app_eq; [done|lia].
Qed.

Lemma drop_expired_same (ssl : SSL) now : let s := drop_expired_epoch ssl now in
  config s = config ssl /\ read_epoch (reading s) = read_epoch (reading ssl) /\ next_read_epoch (reading s) = next_read_epoch (reading ssl).
Proof. unfold drop_expired_epoch. destruct (prev_read_epoch (reading ssl)) as [[e t]|]; [destruct (_ <? _)|]; done. Qed.

Lemma unmask h1 h2 m0 m1 : zip_with Z.lxor [Z.lxor h1 m0; Z.lxor h2 m1] [m0; m1] = [h1; h2].
Proof. cbn. by rewrite !Z.lxor_assoc, !Z.lxor_nilpotent, !Z.lxor_0_r. Qed.

Lemma parse13_ok (ssl : SSL) now type e q body rest enc m0 m1 : let v := version (config ssl) in let number := e * 2 ^ 48 + q in let r := read_epoch (reading ssl) in
  wire_version v -> dtls13 v e = true -> re_epoch r = e -> next_read_epoch (reading ssl) = None -> rn_encrypter (re_aead r) = Some enc -> 0 <= max_seq_num_ (re_bitmap r) <= kMaxSequence ->
  0 <= e < 2 ^ 16 -> 0 <= q < 2 ^ 48 -> Z.abs (q - (max_seq_num_ (re_bitmap r) + 1)) < 2 ^ 15 -> len body <= SSL3_RT_MAX_ENCRYPTED_LENGTH ->
  GenerateMask enc 2 body = Some [m0; m1] -> is_byte m0 -> is_byte m1 ->
  let header := plain_header v e type number (len body) in
  parse_dtls_record ssl now (mask_header header [m0; m1] ++ body ++ rest) =
    Some (drop_expired_epoch ssl now, Some (mk_parsed (Some current_epoch) number header body (Z.lor 0x2c (Z.land e 0x3)) 0, rest)).
Proof.
  intros v number r Hv E13 Hre Hnx Hen Hmax He Hq Hd Lb Em Hm0 Hm1 header. pose proof (len_nonneg body). unfold SSL3_RT_MAX_ENCRYPTED_LENGTH, SSL3_RT_MAX_PLAIN_LENGTH in Lb.
  destruct (record_number_spec e q He Hq) as (Enum & _ & Eseq). fold number in Enum, Eseq. destruct (be_bytes_2 (q mod 2 ^ 16)) as (h1 & h2 & Eh & H1 & H2).
  assert (Ew : header = Z.lor 0x2c (Z.land e 0x3) :: h1 :: h2 :: be_bytes 2 (len body)) by (unfold header, plain_header; rewrite E13, Eseq, Eh; done).
  set (w := Z.lor 0x2c (Z.land e 0x3)) in *. destruct (low_bits e ltac:(lia)) as (W1 & W2 & W3 & W4 & W5). fold w in W1, W2, W3, W4, W5.
  rewrite Ew. cbn [mask_header app]. unfold parse_dtls_record. rewrite CBS_get_u8_cons, W1. cbn [Z.eqb Pos.eqb].
  set (inp := Z.lxor h1 m0 :: Z.lxor h2 m1 :: be_bytes 2 (len body) ++ body ++ rest).
  assert (Ep : parse_dtls13_record ssl now w inp = Some (drop_expired_epoch ssl now, Some (Some current_epoch, number, [h1; h2], body, rest))).
  { unfold parse_dtls13_record. rewrite W2. cbn [Z.eqb negb]. rewrite Hnx. fold r. rewrite Hre, (reconstruct_epoch_same w e He W5).
    destruct (Z.eqb_spec (Z.land w 0x08) 0); [done|]. destruct (Z.eqb_spec (Z.land w 0x04) 0); [done|]. cbn [negb].
    unfold CBS_get_bytes, inp. change (Z.lxor h1 m0 :: Z.lxor h2 m1 :: be_bytes 2 (len body) ++ body ++ rest) with ([Z.lxor h1 m0; Z.lxor h2 m1] ++ be_bytes 2 (len body) ++ body ++ rest).
    rewrite cbs_get_app by done. rewrite get_u16_prefixed by lia.
    destruct (drop_expired_same ssl now) as (Ecf & Ere & _). set (ssl' := drop_expired_epoch ssl now) in *.
    unfold find_read_epoch. rewrite Ere. fold r. rewrite Hre, Z.eqb_refl, use13_spec by by rewrite Ecf. rewrite Ecf. fold v. rewrite E13. cbn [mbind option_bind negb ref_epoch].
    rewrite Ere. fold r. rewrite Hen. cbn [mbind option_bind]. pose proof (Z.mod_pos_bound q (2 ^ 16) ltac:(lia)) as Hqm.
    assert (Hbv : be_val [h1; h2] = q mod 2 ^ 16) by (rewrite <- Eh, be_val_be_bytes; by apply Z.mod_small).
    rewrite Em, unmask, be_fold_u64; [|rewrite <- Eh; apply bytes_be_bytes|lia|rewrite Hbv; lia]. rewrite Hbv, Z.mul_0_l, Z.add_0_l.
    rewrite wrap_small by lia. change (Z.shiftl 1 (2 * 8) - 1) with 0xffff. change kMaxSequence with (2 ^ 48 - 1) in Hmax.
    rewrite reconstruct_near by (change kMaxSequence with (2 ^ 48 - 1); lia). cbn [mbind option_bind]. by rewrite Enum. }
  rewrite Ep. cbn [mbind option_bind]. unfold SSL3_RT_MAX_ENCRYPTED_LENGTH, SSL3_RT_MAX_PLAIN_LENGTH. destruct (Z.ltb_spec (256 + 64 + 16384) (len body)); [lia|].
  change (len [h1; h2]) with 2. change (1 + 2) with 3. unfold inp. change (zdrop 3 (w :: Z.lxor h1 m0 :: Z.lxor h2 m1 :: be_bytes 2 (len body) ++ body ++ rest)) with (be_bytes 2 (len body) ++ body ++ rest).
  change ([h1; h2] ++ be_bytes 2 (len body) ++ body ++ rest) with ((h1 :: h2 :: be_bytes 2 (len body)) ++ body ++ rest). rewrite app_comm_cons.
  rewrite (ztake_app_eq _ (w :: h1 :: h2 :: be_bytes 2 (len body)) (body ++ rest)); [done|]. repeat (rewrite len_cons || rewrite len_app). rewrite len_be_bytes. lia.
Qed.


(** ** Opening *)

Definition touch (v e : Z) (ssl : SSL) (now : OPENSSL_timeval) : SSL := if dtls13 v e then drop_expired_epoch ssl now else ssl.

(** The types a record is delivered with: not an alert, and application data only where it is allowed. *)
Definition type_ok (v e type : Z) : Prop :=
  0 < type < 32 /\ type <> SSL3_RT_ALERT /\ (type = SSL3_RT_APPLICATION_DATA -> 1 <= e /\ (v = DTLS1_3_VERSION -> e = 1 \/ 3 <= e)).

(** The receiver is in epoch [e], with the cipher [o] and the replay window [b], and has no next epoch. *)
Definition in_epoch (ssl : SSL) (e : Z) (o : dtls_cipher) (b : DTLSReplayBitmap) : Prop :=
  wire_version (version (config ssl)) /\ read_epoch (reading ssl) = mk_read_epoch e o b /\ next_read_epoch (reading ssl) = None.

(** A number the receiver can reconstruct: any one in DTLS 1.2, one close to the last in DTLS 1.3. *)
Definition in_reach (v e q : Z) (b : DTLSReplayBitmap) : Prop :=
  dtls13 v e = true -> 0 <= max_seq_num_ b <= kMaxSequence /\ Z.abs (q - (max_seq_num_ b + 1)) < 2 ^ 15.

Lemma parse_sealed (ssl : SSL) now s o b type e q inp pkt rest : let v := version (config ssl) in let number := e * 2 ^ 48 + q in
  in_epoch ssl e o b -> 0 <= e < 2 ^ 16 -> 0 <= q < 2 ^ 48 -> 0 < type < 32 -> in_reach v e q b -> sealed_as v e s o type number inp pkt ->
  exists hdr body t' v', parse_dtls_record ssl now (pkt ++ rest) = Some (touch v e ssl now, Some (mk_parsed (Some current_epoch) number hdr body t' v', rest)) /\
    (forall in_, Open (dc_aead o) t' v' (aead_sequence v number) hdr in_ body = Some (Some (if dtls13 v e then inp ++ [type] else inp))) /\ (dtls13 v e = false -> t' = type).
Proof.
  intros v number (Hv & Hre & Hnx) He Hq Ht Hin (body & Lb & Hb & Hopen & Hpkt). unfold touch. fold v in Hv.
  exists (plain_header v e type number (len body)), body. destruct (dtls13 v e) eqn:E13.
  - destruct Hpkt as (enc & m0 & m1 & Een & Em & Hm0 & Hm1 & ->). exists (Z.lor 0x2c (Z.land e 0x3)), 0. split; [|split; [intros in_; apply Hopen|done]].
    rewrite <- app_assoc. destruct (Hin E13) as [Hmax Hd]. apply (parse13_ok ssl now type e q body rest enc m0 m1); rewrite ?Hre; done.
  - subst pkt. eexists _, _. split; [|split; [exact Hopen|done]]. rewrite <- app_assoc. apply (parse12_ok ssl now type e q body rest); rewrite ?Hre; try done. lia.
Qed.

Lemma strip_type inp type : 0 < type -> strip_padding (rev (inp ++ [type])) = Some (type, inp).
Proof. intros Ht. rewrite rev_app_distr. cbn. destruct (Z.eqb_spec type 0); [lia|]. by rewrite rev_involutive. Qed.

Lemma app_data_ok (ssl : SSL) e q type : let v := version (config ssl) in wire_version v -> 0 <= e < 2 ^ 16 -> 0 <= q < 2 ^ 48 -> type_ok v e type ->
  (if type =? SSL3_RT_APPLICATION_DATA then app_data_allowed ssl (e * 2 ^ 48 + q) else Some true) = Some true.
Proof.
  intros v Hv He Hq (_ & _ & Ha). destruct (Z.eqb_spec type SSL3_RT_APPLICATION_DATA) as [E|]; [|done]. destruct (Ha E) as [H1 H13].
  destruct (record_number_spec e q He Hq) as (_ & Ee & _). unfold app_data_allowed, ssl_protocol_version. rewrite Ee. subst v.
  destruct Hv as [Hv|[Hv|[Hv|Hv]]]; rewrite Hv in *; cbn; f_equal; try lia.
Qed.

Lemma padding_ok (ssl : SSL) e s o : let v := version (config ssl) in wire_version v -> ciphers_agree v e s o ->
  (if is_null_cipher (dc_aead o) then Some false else v0 ← ssl_protocol_version ssl; Some (TLS1_3_VERSION <=? v0)) = Some (dtls13 v e).
Proof.
  intros v Hv (Hp & _ & Hc). apply created_ssl_pair in Hp. destruct (pair_same _ _ Hp) as [-> _]. unfold dtls13 in *. destruct ((v =? DTLS1_3_VERSION) && (0 <? e)) eqn:E.
  - destruct Hc as [-> _]. apply andb_prop in E as [E _]. apply Z.eqb_eq in E. unfold ssl_protocol_version. fold v. by rewrite E.
  - destruct (is_null_cipher (dc_aead s)); [done|]. unfold ssl_protocol_version. fold v. destruct Hv as [Hv|[Hv|[Hv|Hv]]]; rewrite Hv in *; try done; discriminate Hc; by auto.
Qed.

Lemma touch_same v e (ssl : SSL) now : let s := touch v e ssl now in
  config s = config ssl /\ read_epoch (reading s) = read_epoch (reading ssl) /\ next_read_epoch (reading s) = next_read_epoch (reading ssl).
Proof. unfold touch. destruct (dtls13 v e); [apply drop_expired_same|done]. Qed.

(** A record is delivered when its number is new and not too old, and dropped otherwise. *)
Lemma open_sealed_record (c : connection) now in_ s o b type e q inp pkt rest : let ssl := ssl_of c in let v := version (config ssl) in let number := e * 2 ^ 48 + q in
  read_shutdown c <> ssl_shutdown_close_notify -> in_epoch ssl e o b -> ciphers_agree v e s o -> 0 <= e < 2 ^ 16 -> 0 <= q < 2 ^ 48 -> type_ok v e type -> in_reach v e q b ->
  len inp <= SSL3_RT_MAX_PLAIN_LENGTH -> sealed_as v e s o type number inp pkt -> len pkt <> 0 ->
  dtls_open_record c now in_ (pkt ++ rest) = Some (
    if ShouldDiscard b q then (mk_connection (touch v e ssl now) (read_shutdown c) (warning_alert_count c), len pkt, ssl_open_record_discard)
    else (mk_connection (set_bitmap (touch v e ssl now) current_epoch q) (read_shutdown c) 0, len pkt, ssl_open_record_success type number inp)).
Proof.
  intros ssl v number Hsh Hr Hc He Hq Htype Hin Li Hs Lp. destruct Htype as (Ht & Hal & Happ) eqn:Etype. pose proof Hr as (Hv & Hre & Hnx). fold v in Hv.
  destruct (parse_sealed ssl now s o b type e q inp pkt rest Hr He Hq Ht Hin Hs) as (hdr & body & t' & v' & Ep & Ho & Ht'). fold v number in Ep, Ho, Ht'.
  destruct (record_number_spec e q He Hq) as (_ & _ & Eseq). fold number in Eseq.
  assert (Hshape : forall A (a x : A), match read_shutdown c with ssl_shutdown_close_notify => a | _ => x end = x) by (intros; by destruct (read_shutdown c)).
  unfold dtls_open_record. rewrite Hshape. pose proof (len_nonneg pkt). pose proof (len_nonneg rest). rewrite len_app. destruct (Z.eqb_spec (len pkt + len rest) 0); [lia|].
  fold ssl. rewrite Ep. cbn [mbind option_bind pr_read_epoch pr_number pr_type pr_version pr_header pr_body]. replace (len pkt + len rest - len rest) with (len pkt) by lia.
  destruct (touch_same v e ssl now) as (Ecf & Ere & Enx). set (ssl' := touch v e ssl now) in *. assert (Hv' : wire_version (version (config ssl'))) by by rewrite Ecf.
  unfold ref_epoch. rewrite Ere, Hre. cbn [mbind option_bind re_bitmap re_aead]. rewrite Eseq. destruct (ShouldDiscard b q); [done|].
  rewrite aead_sequence_spec by done. cbn [mbind option_bind]. rewrite Ecf. fold ssl v. rewrite Ho. cbn [mbind option_bind].
  pose proof (padding_ok ssl' e s o Hv') as Hpad. rewrite Ecf in Hpad. fold ssl v in Hpad. rewrite (Hpad Hc). cbn [mbind option_bind].
  assert (Hlen : SSL3_RT_MAX_PLAIN_LENGTH + (if dtls13 v e then 1 else 0) <? len (if dtls13 v e then inp ++ [type] else inp) = false).
  { apply Z.ltb_ge. destruct (dtls13 v e); [rewrite len_app; change (len [type]) with 1|]; lia. }
  assert (Hstrip : (if dtls13 v e then strip_padding (rev (if dtls13 v e then inp ++ [type] else inp)) else Some (t', if dtls13 v e then inp ++ [type] else inp)) = Some (type, inp)).
  { destruct (dtls13 v e); [apply strip_type; lia|by rewrite Ht']. }
  rewrite Hlen, Hstrip. cbn [advance_epoch mbind option_bind ssl_of]. destruct (Z.eqb_spec type SSL3_RT_ALERT); [done|].
  set (ssl2 := set_bitmap ssl' current_epoch q). assert (Ecf2 : config ssl2 = config ssl) by exact Ecf.
  pose proof (app_data_ok ssl2 e q type) as Hap. rewrite Ecf2 in Hap. unfold number. rewrite Hap; done.
Qed.


(** ** Packets of the right size *)

Lemma extra_byte_len s o v e m : ciphers_agree v e s o -> dtls13 v e = true -> 0 <= m < 2 ^ 16 -> CiphertextLen (dc_aead s) (m + 1) 0 = CiphertextLen (dc_aead s) m 1.
Proof.
  intros (Hp & _ & Hc) E Hm. apply created_ssl_pair in Hp. rewrite E in Hc. destruct Hc as (Hnull & Had & Hom & (ctx & Ectx & Es & Ho) & _).
  destruct (ciphertext_len_spec _ _ (m + 1) [] Hp ltac:(lia) ltac:(done) ltac:(by left)) as (t0 & E0 & _ & F0).
  destruct (ciphertext_len_spec _ _ m [0] Hp ltac:(lia) ltac:(done) ltac:(right; right; by rewrite Ectx)) as (t1 & E1 & _ & F1). cbv zeta in F0, F1. rewrite len_nil in F0. change (len [0]) with 1 in F1. rewrite F0, F1.
  assert (Ht : t1 = t0 + 1); [|rewrite Ht; by replace (ExplicitNonceLen (dc_aead s) + (m + 1) + t0) with (ExplicitNonceLen (dc_aead s) + m + (t0 + 1)) by lia].
  destruct Hp as [|cipher cs co fixed k included random xor omit_length ad_is_header s' Hap Hs [Hl1 Hl2]]; [done|]. cbn in Hl1, Hom. rewrite Hom in Hl1. rewrite <- Hl1 in Hl2.
  unfold SuffixLen in E0, E1. rewrite Hnull in E0, E1. cbn in E0, E1. apply Hl2 in E0, E1. rewrite len_nil in E0. change (len [0]) with 1 in E1. lia.
Qed.

(** dtls_seal_max_input_len is exact: what is not longer than it gives a record of at most [max_out]
    bytes, and what is longer does not. *)
Lemma seal_max_input (ssl : SSL) e where_ we o max_out : let v := version (config ssl) in let s := we_aead we in
  wire_version v -> get_write_epoch ssl e = Some (where_, we) -> ciphers_agree v e s o -> 0 <= max_out < 0xffff ->
  exists k, dtls_seal_max_input_len ssl e max_out = Some k /\
  forall m, 0 < m <= SSL3_RT_MAX_PLAIN_LENGTH ->
    (m <= k <-> exists n, CiphertextLen (dc_aead s) m (if dtls13 v e then 1 else 0) = Some (Some n) /\ header_len v e + n <= max_out).
Proof.
  intros v s Hv Hw Hc Hm. pose proof Hc as (Hp & _ & Hc'). apply created_ssl_pair in Hp. destruct (explicit_len _ _ Hp) as [Hex _]. assert (Hh : 0 <= header_len v e) by (unfold header_len; destruct (dtls13 v e); lia).
  unfold dtls_seal_max_input_len. rewrite Hw, header_len_spec by done. cbn [mbind option_bind]. fold v s.
  assert (E1 : len (if dtls13 v e then [0] else []) = if dtls13 v e then 1 else 0) by by destruct (dtls13 v e).
  destruct (Z.leb_spec max_out (header_len v e)) as [Hle|Hle].
  { exists 0. split; [done|]. intros m Hmm. split; [lia|]. intros (n & Ec & Hn). destruct (record_length s o v e 0 m Hc ltac:(lia)) as (_ & t & _ & Ht & Ec' & _).
    rewrite E1 in *. rewrite Ec in Ec'. injection Ec' as ->. destruct (dtls13 v e); lia. }
  destruct (max_seal_input (dc_aead s) (dc_aead o) (max_out - header_len v e) Hp ltac:(lia)) as (k & -> & Hk & Hfit). cbn [mbind option_bind]. rewrite use13_spec by done. cbn [mbind option_bind]. fold v.
  eexists. split; [done|]. intros m Hmm. unfold SSL3_RT_MAX_PLAIN_LENGTH in *. destruct (dtls13 v e) eqn:E13.
  - rewrite andb_true_r. transitivity (m + 1 <= k); [destruct (Z.ltb_spec 0 k); lia|]. rewrite Hfit by lia. rewrite (extra_byte_len s o v e m Hc E13 ltac:(lia)).
    split; intros (n & Ec & Hn); exists n; split; done || lia.
  - rewrite andb_false_r, Hfit by lia. split; intros (n & Ec & Hn); exists n; split; done || lia.
Qed.


(** ** A network that loses, duplicates and reorders packets *)

(** What is sent: the type of each record, where its content is, and the content. *)
Abbreviation message := (Z * Z * list Z)%type.

Fixpoint seal_all (rand : Z -> option (list Z)) (ssl : SSL) (out max_out e : Z) (msgs : list message) : option (SSL * list (list Z)) :=
  match msgs with
  | [] => Some (ssl, [])
  | (type, in_, inp) :: msgs =>
    '(ssl, r) ← dtls_seal_record rand ssl out max_out type in_ inp e;
    '(_, pkt) ← r;
    '(ssl, pkts) ← seal_all rand ssl out max_out e msgs;
    Some (ssl, pkt :: pkts)
  end.

(** What arrives: the time, the address of the packet, which packet it is and what follows the record
    in it. *)
Abbreviation arrival := (OPENSSL_timeval * Z * nat * list Z)%type.

Fixpoint open_all (c : connection) (pkts : list (list Z)) (arrivals : list arrival) : option (connection * list (Z * open_result)) :=
  match arrivals with
  | [] => Some (c, [])
  | (now, in_, i, rest) :: arrivals =>
    pkt ← pkts !! i;
    '(c, consumed, r) ← dtls_open_record c now in_ (pkt ++ rest);
    '(c, rs) ← open_all c pkts arrivals;
    Some (c, (consumed, r) :: rs)
  end.

(** What should come out: each record the first time it arrives, unless it is 256 or more behind. *)
Fixpoint deliveries (e : Z) (msgs : list message) (pkts : list (list Z)) (seen : list Z) (arrivals : list arrival) : list (Z * open_result) :=
  match arrivals with
  | [] => []
  | (_, _, i, _) :: arrivals =>
    let q := Z.of_nat i in
    let consumed := len (default [] (pkts !! i)) in
    if decide (q ∈ seen \/ q + 256 <= max_of seen) then (consumed, ssl_open_record_discard) :: deliveries e msgs pkts seen arrivals
    else let '(type, _, inp) := default (0, 0, []) (msgs !! i) in
      (consumed, ssl_open_record_success type (e * 2 ^ 48 + q) inp) :: deliveries e msgs pkts (q :: seen) arrivals
  end.

(** A record that can be sent. *)
Definition sendable (v e out max_out prefix k : Z) (m : message) : Prop :=
  let '(type, in_, inp) := m in
  type_ok v e type /\ bytes inp /\ 0 < len inp <= k /\ len inp <= SSL3_RT_MAX_PLAIN_LENGTH /\ record_buffers in_ (len inp) out max_out prefix.

Lemma find_epoch_set l e i x y : find_epoch l e = Some (i, x) -> we_epoch y = e -> find_epoch (<[i := y]> l) e = Some (i, y).
Proof.
  revert i. induction l as [|a l IH]; intros i; cbn [find_epoch]; [done|]. destruct (Z.eqb_spec (we_epoch a) e).
  - intros [= <- <-] Hy. cbn. by rewrite Hy, Z.eqb_refl.
  - destruct (find_epoch l e) as [[j z]|] eqn:E; [|done]. intros [= <- <-] Hy. change (<[S j := y]> (a :: l)) with (a :: <[j := y]> l). cbn [find_epoch].
    destruct (Z.eqb_spec (we_epoch a) e); [done|]. by rewrite (IH j eq_refl Hy).
Qed.

Lemma get_set_write_epoch (ssl : SSL) e where_ x y : get_write_epoch ssl e = Some (where_, x) -> we_epoch y = e ->
  get_write_epoch (set_write_epoch ssl where_ y) e = Some (where_, y).
Proof.
  unfold get_write_epoch. destruct (Z.eqb_spec (we_epoch (write_epoch (writing ssl))) e).
  - intros [= <- <-] Hy. cbn. by rewrite Hy, Z.eqb_refl.
  - destruct (find_epoch _ e) as [[j z]|] eqn:E; [|done]. intros [= <- <-] Hy. cbn. destruct (Z.eqb_spec (we_epoch (write_epoch (writing ssl))) e); [done|].
    by rewrite (find_epoch_set _ _ _ _ _ E Hy).
Qed.

Lemma set_write_epoch_config (ssl : SSL) where_ y : config (set_write_epoch ssl where_ y) = config ssl.
Proof. by destruct where_. Qed.

Lemma numbers e q : 0 <= e < 2 ^ 16 -> 0 <= q < 2 ^ 48 - 1 -> 0 <= e * 2 ^ 48 + q < 2 ^ 64 /\ HasNext (e * 2 ^ 48 + q) = true.
Proof.
  intros He Hq. split; [lia|]. destruct (record_number_spec e q He ltac:(lia)) as (_ & _ & Es). unfold HasNext. rewrite Es. change kMaxSequence with (2 ^ 48 - 1). lia.
Qed.

Lemma seal_max_input_same (ssl ssl' : SSL) e where_ x y max_out : wire_version (version (config ssl)) -> config ssl' = config ssl ->
  get_write_epoch ssl e = Some (where_, x) -> get_write_epoch ssl' e = Some (where_, y) -> we_aead y = we_aead x ->
  dtls_seal_max_input_len ssl' e max_out = dtls_seal_max_input_len ssl e max_out.
Proof.
  intros Hv Hc Hx Hy Ha. unfold dtls_seal_max_input_len. rewrite Hx, Hy, !header_len_spec, !use13_spec by by rewrite ?Hc. by rewrite Hc, Ha.
Qed.

Lemma seal_all_ok rand out max_out v e o s where_ k msgs : wire_version v -> rand_ok rand -> ciphers_agree v e s o -> 0 <= e < 2 ^ 16 -> 0 <= max_out < 0xffff ->
  forall (ssl : SSL) q, version (config ssl) = v -> get_write_epoch ssl e = Some (where_, mk_write_epoch (e * 2 ^ 48 + q) s) -> 0 <= q -> q + len msgs < 2 ^ 48 ->
  dtls_seal_max_input_len ssl e max_out = Some k ->
  Forall (sendable v e out max_out (header_len v e + ExplicitNonceLen (dc_aead s)) k) msgs ->
  exists ssl' pkts, seal_all rand ssl out max_out e msgs = Some (ssl', pkts) /\ length pkts = length msgs /\
    forall i type in_ inp, msgs !! i = Some (type, in_, inp) -> exists pkt, pkts !! i = Some pkt /\
      sealed_as v e s o type (e * 2 ^ 48 + (q + Z.of_nat i)) inp pkt /\ len pkt <= max_out /\ len pkt <> 0.
Proof.
  intros Hv Hr Hc He Hm. induction msgs as [|[[type in_] inp] msgs IH]; intros ssl q Hcf Hw Hq Hlen Hk Hall; [by exists ssl, []|].
  apply Forall_cons_1 in Hall as [(Ht & Hi & Hi0 & Li & Hb) Hall]. rewrite len_cons in Hlen. pose proof (len_nonneg msgs). subst v.
  destruct (numbers e q He ltac:(lia)) as [Hn64 Hnx].
  destruct (seal_max_input ssl e where_ _ o max_out Hv Hw Hc Hm) as (k' & Ek & Hfit). rewrite Hk in Ek. injection Ek as <-.
  destruct (seal_record_ok rand ssl out max_out type in_ inp e where_ _ o Hv Hr Hw Hc He Hn64 Hnx) as (n & Ec & Hn & Hsealed); [destruct Ht as (Ht & _); unfold is_byte; lia|done|done|done|].
  destruct (proj1 (Hfit (len inp) ltac:(lia)) ltac:(lia)) as (n' & Ec' & Hn'). cbn [we_aead] in *. rewrite Ec in Ec'. injection Ec' as <-.
  destruct (Z.ltb_spec max_out (header_len (version (config ssl)) e + n)); [lia|]. destruct Hsealed as (pkt & Es & Lpkt & Hpkt).
  cbn [seal_all]. rewrite Es. cbn [mbind option_bind next_record we_aead]. set (ssl1 := set_write_epoch ssl where_ _) in *.
  destruct (record_number_spec e (q + 1) He ltac:(lia)) as (_ & Ee & _).
  assert (Hw1 : get_write_epoch ssl1 e = Some (where_, mk_write_epoch (e * 2 ^ 48 + (q + 1)) s)).
  { rewrite Z.add_assoc in *. by apply (get_set_write_epoch ssl e where_ _ _ Hw). }
  assert (Ecf : config ssl1 = config ssl) by apply set_write_epoch_config.
  destruct (IH ssl1 (q + 1)) as (ssl2 & pkts & -> & Hl & Hpkts); [by rewrite Ecf|done|lia|lia| |done|].
  { by rewrite (seal_max_input_same ssl ssl1 e where_ _ _ max_out Hv Ecf Hw Hw1). }
  cbn [mbind option_bind]. exists ssl2, (pkt :: pkts). split; [done|]. split; [by cbn; rewrite Hl|]. intros [|i] type' in' inp' Hi'.
  - injection Hi' as <- <- <-. exists pkt. rewrite Z.add_0_r. split; [done|]. split; [done|]. unfold header_len in *. destruct (dtls13 _ e); lia.
  - destruct (Hpkts i type' in' inp' Hi') as (pkt' & E' & H'). exists pkt'. split; [done|]. replace (q + Z.of_nat (S i)) with (q + 1 + Z.of_nat i) by lia. done.
Qed.

Lemma max_of_lt l n : Forall (fun q => 0 <= q < n) l -> 0 < n -> 0 <= max_of l < n.
Proof. intros Hl Hn. unfold max_of. induction Hl; cbn [foldr]; lia. Qed.

Lemma in_epoch_touch (ssl : SSL) now e o b : in_epoch ssl e o b -> in_epoch (touch (version (config ssl)) e ssl now) e o b.
Proof. intros (Hv & Hre & Hnx). destruct (touch_same (version (config ssl)) e ssl now) as (Ecf & Ere & Enx). split; [by rewrite Ecf|]. by rewrite Ere, Enx. Qed.

Lemma in_epoch_record (ssl : SSL) e o b q : in_epoch ssl e o b -> in_epoch (set_bitmap ssl current_epoch q) e o (Record_ b q).
Proof. intros (Hv & Hre & Hnx). split; [done|]. cbn. by rewrite Hre. Qed.

(** The records [seen] have been delivered. *)
Lemma open_all_ok v e o s (msgs : list message) pkts : wire_version v -> ciphers_agree v e s o -> 0 <= e < 2 ^ 16 -> len msgs < 2 ^ 15 ->
  (forall i type in_ inp, msgs !! i = Some (type, in_, inp) -> type_ok v e type /\ len inp <= SSL3_RT_MAX_PLAIN_LENGTH /\
     exists pkt, pkts !! i = Some pkt /\ sealed_as v e s o type (e * 2 ^ 48 + Z.of_nat i) inp pkt /\ len pkt <> 0) ->
  forall arrivals, Forall (fun '(_, _, i, _) => (i < length msgs)%nat) arrivals ->
  forall (c : connection) seen, version (config (ssl_of c)) = v -> in_epoch (ssl_of c) e o (recorded seen) -> read_shutdown c <> ssl_shutdown_close_notify ->
    Forall (fun q => 0 <= q < len msgs) seen ->
  exists c', open_all c pkts arrivals = Some (c', deliveries e msgs pkts seen arrivals).
Proof.
  intros Hv Hc He Lm Hmsgs. induction arrivals as [|[[[now in_] i] rest] arrivals IH]; intros Harr c seen Hcf Hrec Hsh Hseen; [by exists c|].
  apply Forall_cons_1 in Harr as [Hi Harr]. destruct (lookup_lt_is_Some_2 msgs i Hi) as [[[type ad] inp] Em]. destruct (Hmsgs i type ad inp Em) as (Ht & Li & pkt & Epkt & Hsealed & Lpkt).
  assert (Hq : 0 <= Z.of_nat i < len msgs) by (unfold len; lia).
  assert (Hseen64 : Forall (fun q => 0 <= q < 2 ^ 64) seen) by (eapply Forall_impl; [|exact Hseen]; cbn; intros; lia).
  destruct (recorded_spec seen Hseen64) as [Hmax _]. pose proof (replay_window_spec seen (Z.of_nat i) Hseen64 ltac:(lia)) as Hwin.
  pose proof (max_of_lt seen (len msgs) Hseen ltac:(lia)) as Hmx.
  cbn [open_all deliveries]. rewrite Epkt, Em. cbn [mbind option_bind default].
  rewrite (open_sealed_record c now in_ s o (recorded seen) type e (Z.of_nat i) inp pkt rest); try rewrite Hcf; try done; try lia.
  2:{ intros _. rewrite Hmax. change kMaxSequence with (2 ^ 48 - 1). lia. }
  pose proof (in_epoch_touch _ now _ _ _ Hrec) as Hrt. rewrite Hcf in Hrt. destruct (touch_same v e (ssl_of c) now) as (Ecf & _). destruct (ShouldDiscard (recorded seen) (Z.of_nat i)).
  - destruct (IH Harr (mk_connection (touch v e (ssl_of c) now) (read_shutdown c) (warning_alert_count c)) seen) as (c' & E); [by cbn; rewrite Ecf|done|done|done|].
    cbn [mbind option_bind]. rewrite E. cbn [mbind option_bind]. exists c'. rewrite decide_True by by apply Hwin. done.
  - destruct (IH Harr (mk_connection (set_bitmap (touch v e (ssl_of c) now) current_epoch (Z.of_nat i)) (read_shutdown c) 0) (Z.of_nat i :: seen)) as (c' & E).
    + cbn. by rewrite Ecf.
    + by apply (in_epoch_record _ e o (recorded seen)).
    + done.
    + by constructor.
    + cbn [mbind option_bind]. rewrite E. cbn [mbind option_bind]. exists c'. rewrite decide_False by (intros Hd; by apply Hwin in Hd). done.
Qed.




(** ChaCha20 masks record numbers. *)
Lemma chacha_encrypter_ok key : bytes key -> encrypter_ok (ChaChaRecordNumberEncrypter key).
Proof.
  intros Hk sample Hb Hl. unfold GenerateMask. destruct (Z.ltb_spec (len sample) 16); [lia|].
  assert (Hn : bytes (ztake 12 (zdrop 4 sample))) by auto with words.
  assert (Hc : 0 <= CRYPTO_load_u32_le sample < 2 ^ 32).
  { unfold CRYPTO_load_u32_le. pose proof (le_val_range (take 4 sample)) as Hr. assert (L : len (take 4 sample) = 4) by (unfold len in *; rewrite length_take; lia). rewrite L in Hr. apply Hr. by apply Forall_take. }
  rewrite stream_block by (done || lia). pose proof (length_rfc_block key _ _ Hk Hn Hc) as L64. pose proof (bytes_rfc_block key _ _ Hk Hn Hc) as B.
  destruct (rfc8439_block _ _ _) as [|m0 [|m1 r]]; try done. exists m0, m1. apply bytes_cons in B as [H0 B]. apply bytes_cons in B as [H1 _]. done.
Qed.

End Proofs.

(** An end of a DTLS 1.3 connection, in epoch 3. *)
Definition sample_cipher : dtls_cipher := mk_dtls_cipher sample_context (Some (ChaChaRecordNumberEncrypter (seq_bytes 32))).
Definition sample_end : SSL :=
  mk_ssl (mk_config DTLS1_3_VERSION false false true false 0 1000) false
    (mk_read false false 0 (mk_read_epoch 3 sample_cipher (mk_replay 0 0)) None None (replicate 7 None) (mk_mru [] 0))
    (mk_write false false false false false 0 (mk_write_epoch (3 * 2 ^ 48) sample_cipher) [] [] None 0 0 1400) (mk_timers 0 Stop Stop 1000).

Lemma sample_agree : ciphers_agree (P := LP64) DTLS1_3_VERSION 3 sample_cipher sample_cipher.
Proof.
  split; [exact sample_created|]. split; [done|]. do 3 (split; [done|]). split.
  - eexists. split; [done|]. done.
  - eexists. split; [done|]. apply chacha_encrypter_ok. repeat constructor; unfold is_byte; lia.
Qed.

Lemma sample_rand : rand_ok (fun n => Some (zero_bytes n)).
Proof. intros n Hn. exists (zero_bytes n). split; [done|]. split; [apply bytes_zero_bytes|by apply len_zero_fill]. Qed.


